(* ===== verification/_CoqProject ===== *)
-Q . S2P
Prelude.v
GoStrings.v
Base64.v
UidList.v
MsgStore.v
Pop3Proto.v
Pop3Session.v
Pop3Commands.v
Pop3Handler.v
SmClient.v
SmStore.v
AuthLimit.v
NetIP.v
PeerGate.v
PeerFilter.v
FilePath.v
Forwards.v
QueueFs.v
Queue.v
MailRemote.v
Scheduler.v
QueueFlow.v
Dsn.v
Mtasts.v
SmtpOut.v
AuthResults.v
SpamCheck.v
SmtpSession.v
SessionTable.v
Maildir.v
Disk.v
Identity.v
Keyring.v
Passwd.v
Outbound.v
Admin.v
OidcStore.v
Domain.v
Provision.v
ProvisionFacts.v
ConfigEdit.v
ConfigFacts.v
OidcServer.v
MsgCrypt.v
MailSession.v
Deliver.v
Spawn.v
SmServices.v
StreamClients.v
ImapStore.v
SmProxy.v
ImapSession.v
ImapFacts.v
ImapSync.v
ImapSearch.v
ImapRuns.v
Dispatch.v
WebAdmin.v
