(* ===== verification/Prelude.v ===== *)
(** * maildancer: a verification library

    maildancer is a mail system of small Go daemons. Front ends speak SMTP
    (smtpd), POP3 (pop3d) and IMAP; session-manager authenticates users, keeps
    their mail-session processes and puts outbound mail into a queue;
    queue-manager scans the queue and starts mail-remote, which delivers to the
    hosts of the recipient's domain. All paths below are relative to [src/].

    ** Files

    Foundations
    - [Prelude] (this file): results of fallible functions, machine integers,
      the hint database [mail], list lemmas shared by the components.
    - [GoStrings]: what the code uses of [strings], [strconv], [bufio.Scanner];
      [Base64]: [encoding/base64]; [NetIP]: [net/netip]; [FilePath]:
      [path/filepath]. Strings are byte strings; the Unicode tables behind
      [ToLower], [ToUpper] and [EqualFold] on non-ASCII input are the class
      [UnicodeCase].

    Mailbox storage
    - [UidList]: [msgstore/maildir/uidlist.go], the file that gives messages
      stable identifiers, over a folder whose system calls may fail at will.
    - [Maildir]: [msgstore/maildir/store.go], the store over the go-maildir
      library: paths, listing, retrieval, marks and expunge, folders, delivery,
      append, flags, copies, with the process's cache of UID lists.
    - [MsgStore]: [msgstore/store.go], the store interface as a class with the
      laws that clients may rely on.
    - [MsgCrypt]: [msgstore], the encrypting and decrypting stores and search in
      contents.

    Sessions on a mailbox
    - [MailSession]: [internal/mail-session], the session on one mailbox and its
      mailbox, folder and watch services; [Deliver]: the delivery pipeline
      with Sieve scripts and encryption.
    - [Spawn]: how session-manager starts a mail-session process and what that
      process does with its arguments; [SessionTable]: the table of sessions in
      [internal/session-manager/manager/manager.go], entries shared between two
      maps and several goroutines, as a heap and interleaved steps.
    - [SmServices]: recipients, forwards, delivery and submission as
      session-manager serves them; [SmProxy]: its mailbox proxies.
    - [SmClient]: [internal/smclient/session.go], the client session that logs
      in again after session-manager restarts; [SmStore]: pop3d's store on top
      of it, shown to implement [MsgStore]'s interface; [ImapStore]: imapd's.
    - [StreamClients]: the clients of the delivery and submission services (smtpd's
      agent, queue-manager's bounces) over any server and any fate of the
      stream, composed with [SmServices] and [Queue].

    POP3 and IMAP
    - [Pop3Proto], [Pop3Session], [Pop3Commands], [Pop3Handler]:
      [internal/pop3d/pop3], from the wire format to the connection loop.
    - [ImapSession]: [internal/imapd/backend], the session with every command;
      [ImapSearch]: SEARCH; [ImapFacts], [ImapSync]: their properties;
      [ImapRuns]: runs on the maildir.

    Protection
    - [AuthLimit]: [auth/domain/ratelimit.go] and its two stores;
      [PeerGate]: [internal/peergate] (verdict cache, connection rates).
    - [PeerFilter]: [internal/session-manager/peerfilter] (bans over Redis) and
      the session service of [internal/session-manager/grpcserver].
    - [Dispatch]: [internal/connfork], the process that accepts connections and
      starts a handler for each, as steps of its goroutines.
    - [Forwards]: [auth/forwards] and the chain of [auth/domain/forwarding.go].

    Accounts and administration
    - [Disk]: files under one root, with a source of faults, and the monad of
      operations on them.
    - [Identity]: [auth/identity] and [internal/idrange], the allocation of uids
      and gids; [Passwd]: [auth/passwd], password files and logins; [Keyring]:
      [auth/keyring] and [auth/keyseal], private keys sealed under passwords.
    - [Admin]: [internal/admin], the operations that change users, passwords and
      keys together; [Provision], [ProvisionFacts]: creating, deleting and
      migrating domains, owners and modes of their trees; [ConfigEdit],
      [ConfigFacts]: setting one key of a domain's configuration in place.
    - [Domain]: [auth/domain], configuration in layers, the cache of domains
      with their agents, the router of logins, edits of forwards.
    - [WebAdmin]: [internal/webadmin], sessions, roles, middleware, login and the
      table of routes.
    - [OidcStore], [OidcServer]: [internal/auth/authoidc], the OpenID provider:
      an interface of stores with its laws, the in-memory and the SQLite store
      that keep them, signing keys, and the handlers proved against the
      interface.

    Inbound mail
    - [AuthResults], [SpamCheck], [SmtpSession]: [internal/smtpd]: removal of
      forged verdicts, spam verdicts and the headers stamped from them, and the
      SMTP session with delivery, forwards and submission.

    Outbound mail
    - [QueueFs]: the queue's file system: a tree of files with owners and times,
      a source of faults, of randomness and of time.
    - [Queue]: [internal/session-manager/queue/queue.go] (injection);
      [Scheduler]: [internal/queue-manager/scheduler] (a pass over the queue);
      [MailRemote]: [cmd/mail-remote] (one delivery run); [QueueFlow]: what they
      achieve together.
    - [Dsn]: [internal/queue-manager/dsn], the bounce; [Outbound]: the choice of
      relay per sender's domain and queue-manager's configuration.
    - [SmtpOut]: [internal/mail-remote/smtp] and [mx], the outbound SMTP
      dialogue; [Mtasts]: [internal/mail-remote/mtasts], policies that require
      TLS. [SmtpOut] is an instance of the interface [MailRemote] uses.

    ** How code becomes definitions

    A method becomes a function that takes and returns the state it changes;
    errors are values of [result] or [option]. Where other processes, the
    network, the disk or the clock answer, the answer is a parameter: a class
    of operations over an abstract state that is threaded through ([Client],
    [Net], [Backend]), a function of the log of calls made so far ([SmtpWorld]),
    or a list of faults consumed one by one ([QueueFs], [UidList]). Theorems
    therefore hold for every behaviour of the other side unless they name a law.
    Goroutines that share state are steps of a relation ([SessionTable],
    [Dispatch], and the crash and recovery steps of [QueueFlow]). Logging and contexts are left
    out, and metrics except those of the peer filter.

    ** What the theorems show

    - Identifiers and storage (C1, C2, C7, C37): well-formed UID lists, no
      identifier reused before the 32-bit counter is used up, an expunge that
      removes exactly the marked messages, an encrypted message that reads back.
    - Delivery (C4, C10, C13, C36): a process that gets its own user's identity
      and directories only, no plaintext stored where encryption is on, an
      answer that says what was stored or which script discarded it, submissions
      acknowledged only when they are queued whole, signed with the domain's key.
    - POP3 (C6, C12): framing, no access without login.
    - IMAP (C14, C17, C20, C26, C30): client and session agree on positions after
      expunge and move, the map of UIDs is current, SEARCH finds what the criteria
      ask for, a recovered session has the same UIDVALIDITY.
    - The recovering client and its stores (C15, C16, C19): writes at most once,
      reads that return and start no wait after the recovery deadline, deletions
      only after QUIT.
    - Connections and bans (C5, C8, C25): bans that last as long as they say and
      reach no other prefix, a bounded dispatcher that closes each connection
      once, isolation of session tokens under any interleaving.
    - Accounts (C18, C21, C27, C29): on a disk without faults, ids in range and
      never shared; password changes that lose no key and say when password file
      and keyring differ, a keyring that a new password opens unchanged.
    - Domains and administration (C3, C22, C23, C32, C33): no request past login,
      token and role; logins reach only the agent of the named domain; a
      repaired domain shows no drift; an edit changes one key; a deletion
      touches one domain.
    - OpenID provider (C11, C24, C35): no token without a login, codes redeemed
      once, signing keys kept as long as promised.
    - Inbound SMTP (C9, C28, C40): no open relay, the streaming filter equals
      field removal, the answer to DATA is honest about the message received.
    - The queue (C31, C34): atomic injection, no silent loss of an envelope under
      any faults.
    - Outbound SMTP (C38, C39): no envelope sent twice in a run and at most five
      hosts dialled, enforced
      policies cannot be worked around.

    Each claim with hypotheses is followed by a witness on concrete data. The
    lemmas named in the findings of the manifest exhibit behaviour that differs
    from what comments say.

    ** Fuel and bounds

    Recursion is structural or on the length of the input. The retry loops of
    [SmClient] count down the recovery deadline; [AuthResults.read_all] takes
    one more than the length of the message, and every chunk consumes a byte.
    [Maildir.ensureMaildir] needs two levels; the cursor loop of the listings
    in [PeerFilter] ends when Redis says so, its fuel is a parameter.
    [OidcServer.strip_labels] takes the length of the host name, and each round
    drops a label; [StreamClients.chunks] takes the length of the body, and each
    chunk takes a byte off it at least ([StreamClients.chunks_message]).
    Claims about results state that the result is produced. Sizes and counters
    that the code keeps in [int64] or [uint32] are wrapped explicitly where
    they can overflow; durations are nanoseconds in [Z].

    ** Not modelled

    - Generated gRPC code and what third-party libraries do: TLS, DNS, HTTP,
      Redis, SQLite, the DKIM library, cryptography, Sieve, TOML and JSON decoding are
      parameters with the laws the code relies on.
    - Process entry points ([cmd]), staging of TLS files, metrics, logging, and
      the loading and validation of the daemons' configuration files other
      than queue-manager's: glue over those libraries.
    - The pages and handlers of [internal/webadmin] beyond login and roles, their
      templates, and the command line tool [cmd/userctl]: they decode a
      request and call operations modelled in [Admin], [Provision],
      [ConfigEdit] and [Domain].
    - The DNS checks and DKIM key generation of [internal/admin], the JWT agent of
      [auth/oauth], smtpd's server set-up, spamtrap learner and
      notifications: calls of the network and of libraries.
    - Readers of stored messages that fail after part of the content: in
      [MsgStore] a reader delivers its content or fails at once. *)
From stdpp Require Export prelude strings gmap sets list sorting pretty.
From Stdlib Require Import ZArith Lia Sorted.

(** ** Results of fallible Go functions: a value or an [error] *)
Inductive result (A E : Type) : Type :=
| Ok (a : A)
| Err (e : E).
Arguments Ok {A E} a.
Arguments Err {A E} e.

#[export] Instance result_eq_dec {A E} `{EqDecision A, EqDecision E} :
  EqDecision (result A E).
Proof. solve_decision. Defined.

Definition is_ok {A E} (r : result A E) : bool :=
  match r with Ok _ => true | Err _ => false end.

Declare Scope go_scope.
Delimit Scope go_scope with go.

(** [x <-? e ; k]: the Go idiom [x, err := e; if err != nil { return err }]. *)
Notation "x '<-?' e ';' k" :=
  (match e with Ok x => k | Err err => Err err end)
  (at level 100, e at next level, k at level 200, right associativity) : go_scope.

(** ** Machine integers: values kept in range by explicit wrap-around *)
Definition wrap_int64 (z : Z) : Z := ((z + 2 ^ 63) mod 2 ^ 64 - 2 ^ 63)%Z.
Definition wrap_uint32 (z : Z) : Z := (z mod 2 ^ 32)%Z.
Definition in_uint32 (z : Z) : Prop := (0 <= z < 2 ^ 32)%Z.

Lemma wrap_int64_small z :
  (- 2 ^ 63 <= z < 2 ^ 63)%Z → wrap_int64 z = z.
Proof. intros. unfold wrap_int64. rewrite Z.mod_small; lia. Qed.

Lemma wrap_int64_add_l a b :
  wrap_int64 (wrap_int64 a + b) = wrap_int64 (a + b).
Proof.
  unfold wrap_int64. f_equal.
  replace ((a + 2 ^ 63) mod 2 ^ 64 - 2 ^ 63 + b + 2 ^ 63)%Z
    with ((a + 2 ^ 63) mod 2 ^ 64 + b)%Z by lia.
  rewrite Zplus_mod_idemp_l. f_equal. lia.
Qed.

Lemma wrap_uint32_small z : in_uint32 z → wrap_uint32 z = z.
Proof. unfold in_uint32, wrap_uint32. intros. by rewrite Z.mod_small. Qed.

(** ** Automation shared by the components *)
Create HintDb mail discriminated.

(** Case analysis on every [match]/[if] of the goal and hypotheses. *)
Ltac crush_match :=
  repeat (case_match; simplify_eq/=; try done).

(** Boolean tests from the code, turned into propositions. *)
Ltac reflect_bools :=
  repeat match goal with
  | H : andb _ _ = true |- _ => apply andb_prop in H as [? ?]
  | H : negb _ = true |- _ => apply negb_true_iff in H
  | H : negb _ = false |- _ => apply negb_false_iff in H
  | H : bool_decide _ = true |- _ => apply bool_decide_eq_true in H
  | H : bool_decide _ = false |- _ => apply bool_decide_eq_false in H
  | H : (_ <? _)%Z = true |- _ => apply Z.ltb_lt in H
  | H : (_ <? _)%Z = false |- _ => apply Z.ltb_ge in H
  | H : (_ <=? _)%Z = true |- _ => apply Z.leb_le in H
  | H : (_ <=? _)%Z = false |- _ => apply Z.leb_gt in H
  | H : (_ =? _)%Z = true |- _ => apply Z.eqb_eq in H
  | H : (_ =? _)%Z = false |- _ => apply Z.eqb_neq in H
  end.

(** ** Lists *)
Lemma StronglySorted_sublist {A} (R : relation A) (l1 l2 : list A) :
  sublist l1 l2 → StronglySorted R l2 → StronglySorted R l1.
Proof.
  induction 1 as [|x l1 l2 Hs IH|x l1 l2 Hs IH]; intros Hsort; [constructor| |].
  - apply StronglySorted_cons in Hsort as [Hx Hsort].
    apply StronglySorted_cons. split; [|auto].
    rewrite Forall_forall in *. intros y Hy. apply Hx. by eapply elem_of_sublist.
  - apply StronglySorted_cons in Hsort as [_ Hsort]. auto.
Qed.

(** A filtered list keeps an order or distinctness seen through a projection. *)
Section FilterFmap.
Context {A B : Type} (f : A → B) (P : A → Prop) `{!∀ x, Decision (P x)}.

Lemma StronglySorted_fmap_filter (R : relation B) (l : list A) :
  StronglySorted R (f <$> l) → StronglySorted R (f <$> filter P l).
Proof. apply StronglySorted_sublist, fmap_sublist, sublist_filter. Qed.

Lemma NoDup_fmap_filter (l : list A) :
  NoDup (f <$> l) → NoDup (f <$> filter P l).
Proof. intros Hl. eapply sublist_NoDup; [exact Hl|]. apply fmap_sublist, sublist_filter. Qed.
End FilterFmap.

Lemma fmap_snoc {A B} (f : A → B) (l : list A) (x : A) :
  f <$> (l ++ [x]) = (f <$> l) ++ [f x].
Proof. by rewrite fmap_app. Qed.

(** A fold that meets [a] at most once. *)
Lemma foldl_once {A B} `{EqDecision A} (f : B → A → B) (a : A) (Pre Post : B → Prop) (l : list A) (b : B) :
  NoDup l →
  (∀ x b, x ≠ a → Pre b → Pre (f b x)) → (∀ x b, x ≠ a → Post b → Post (f b x)) →
  (∀ b, Pre b → Post (f b a)) → (∀ b, Pre b → Post b) →
  Pre b → Post (foldl f b l).
Proof.
  intros Hnd HPre HPost Ha Himp.
  assert (∀ l b, a ∉ l → Post b → Post (foldl f b l)) as Hout.
  { clear l b Hnd. induction l as [|x l IH]; intros b Hnin Hb; [done|]. simpl.
    apply not_elem_of_cons in Hnin as [Hx Hnin]. apply IH; [done|]. by apply HPost. }
  revert b Hnd. induction l as [|x l IH]; intros b Hnd Hb; simpl; [by apply Himp|].
  apply NoDup_cons in Hnd as [Hx Hnd]. destruct (decide (x = a)) as [->|Hne].
  - apply Hout; [done|]. by apply Ha.
  - apply IH; [done|]. by apply HPre.
Qed.

Lemma NoDup_omap_inj {A B} (f : A → option B) (l : list A) :
  NoDup l → (∀ x y z, x ∈ l → y ∈ l → f x = Some z → f y = Some z → x = y) → NoDup (omap f l).
Proof.
  induction l as [|x l IH]; intros Hnd Hinj; [constructor|]. simpl.
  apply NoDup_cons in Hnd as [Hx Hnd].
  assert (NoDup (omap f l)) as Htl.
  { apply IH; [done|]. intros y z u Hy Hz. apply Hinj; by right. }
  destruct (f x) as [b|] eqn:E; [|done]. apply NoDup_cons. split; [|done].
  rewrite list_elem_of_omap. intros (y & Hy & Ey). apply Hx.
  assert (x = y) as ->; [|done]. apply (Hinj x y b); [by left|by right|done..].
Qed.

Lemma foldl_inv {A B} (f : B → A → B) (P : B → Prop) (l : list A) (b : B) :
  (∀ x b, x ∈ l → P b → P (f b x)) → P b → P (foldl f b l).
Proof.
  revert b. induction l as [|x l IH]; intros b Hf Hb; [done|]. simpl. apply IH.
  - intros y b' Hy. apply Hf. by right.
  - apply Hf; [by left|done].
Qed.
