(* ===== verification/GoStrings.v ===== *)
(** * Go strings

    What the modelled sources use of Go's [strings], [strconv] and [bufio]
    packages. A Go string is a byte string: [String.string], one [ascii] per
    byte. White space is exactly [unicode.IsSpace] on the UTF-8 encoding; the
    case mappings are exact on ASCII strings and, on a string with a non-ASCII
    byte, the Unicode tables they consult are the parameter [UnicodeCase]. *)
From S2P Require Import Prelude.
From Stdlib Require Import ZArith Lia Ascii.
Open Scope string_scope.
Open Scope list_scope.
#[global] Arguments String.append !_ _ : simpl nomatch.

(** ** Bytes *)
Definition byte_of (n : nat) : ascii := ascii_of_nat n.
Definition CR : ascii := byte_of 13.
Definition LF : ascii := byte_of 10.
Definition NUL : ascii := byte_of 0.
Definition SP : ascii := byte_of 32.
Definition crlf : string := String CR (String LF "").

Definition is_ascii_byte (c : ascii) : bool := Nat.ltb (nat_of_ascii c) 128.
Definition is_lower (c : ascii) : bool :=
  let n := nat_of_ascii c in Nat.leb 97 n && Nat.leb n 122.
Definition is_upper (c : ascii) : bool :=
  let n := nat_of_ascii c in Nat.leb 65 n && Nat.leb n 90.
Definition is_digit (c : ascii) : bool :=
  let n := nat_of_ascii c in Nat.leb 48 n && Nat.leb n 57.
Definition up (c : ascii) : ascii :=
  if is_lower c then byte_of (nat_of_ascii c - 32) else c.
Definition down (c : ascii) : ascii :=
  if is_upper c then byte_of (nat_of_ascii c + 32) else c.

Fixpoint smap (f : ascii → ascii) (s : string) : string :=
  match s with
  | "" => ""
  | String c s' => String (f c) (smap f s')
  end.

Fixpoint sforall (p : ascii → bool) (s : string) : bool :=
  match s with
  | "" => true
  | String c s' => p c && sforall p s'
  end.

Definition has_byte (c : ascii) (s : string) : bool :=
  negb (sforall (λ d, negb (Ascii.eqb d c)) s).

(** ** Case mapping *)
Class UnicodeCase := {
  unicode_upper : string → string;
  unicode_lower : string → string;
  unicode_fold : string → string → bool;
}.

Section Case.
Context `{UnicodeCase}.

Definition ToUpper (s : string) : string :=
  if sforall is_ascii_byte s then smap up s else unicode_upper s.
Definition ToLower (s : string) : string :=
  if sforall is_ascii_byte s then smap down s else unicode_lower s.
Definition EqualFold (s t : string) : bool :=
  if sforall is_ascii_byte s && sforall is_ascii_byte t
  then bool_decide (smap down s = smap down t)
  else unicode_fold s t.
End Case.

(** ** Searching and splitting *)
Definition HasPrefix (s p : string) : bool := String.prefix p s.

Fixpoint sdrop (n : nat) (s : string) : string :=
  match n, s with
  | S n', String _ s' => sdrop n' s'
  | _, _ => s
  end.

(** The first [n] bytes. *)
Fixpoint stake (n : nat) (s : string) : string :=
  match n, s with
  | S n', String c s' => String c (stake n' s')
  | _, _ => ""
  end.

Definition HasSuffix (s p : string) : bool :=
  bool_decide (String.length p ≤ String.length s)%nat &&
  bool_decide (sdrop (String.length s - String.length p)%nat s = p).

Definition TrimPrefix (s p : string) : string :=
  if HasPrefix s p then sdrop (String.length p) s else s.
Definition TrimSuffix (s p : string) : string :=
  if HasSuffix s p then stake (String.length s - String.length p) s else s.

(** [strings.Cut] at a one-byte separator: around the first occurrence. *)
Fixpoint cut (c : ascii) (s : string) : option (string * string) :=
  match s with
  | "" => None
  | String d s' =>
      if Ascii.eqb d c then Some ("", s')
      else match cut c s' with
           | Some (a, b) => Some (String d a, b)
           | None => None
           end
  end.

(** The two parts around [strings.LastIndexByte]. *)
Fixpoint cut_last (c : ascii) (s : string) : option (string * string) :=
  match s with
  | "" => None
  | String d s' =>
      match cut_last c s' with
      | Some (a, b) => Some (String d a, b)
      | None => if Ascii.eqb d c then Some ("", s') else None
      end
  end.

(** [strings.Split] at a one-byte separator: never the empty list. *)
Fixpoint Split (c : ascii) (s : string) : list string :=
  match s with
  | "" => [""]
  | String d s' =>
      if Ascii.eqb d c then "" :: Split c s'
      else match Split c s' with
           | [] => [String d ""]
           | w :: ws => String d w :: ws
           end
  end.

(** [strings.ReplaceAll] for a non-empty [old]; [skip] bytes of the current
    occurrence remain to be dropped. *)
Fixpoint replace_aux (old new : string) (skip : nat) (s : string) : string :=
  match s with
  | "" => ""
  | String c s' =>
      match skip with
      | S k => replace_aux old new k s'
      | O => if HasPrefix s old
             then new +:+ replace_aux old new (String.length old - 1) s'
             else String c (replace_aux old new 0 s')
      end
  end.
Definition ReplaceAll (s old new : string) : string := replace_aux old new 0 s.

(** [strings.Contains]. *)
Fixpoint Contains (s sub : string) : bool :=
  HasPrefix s sub ||
  match s with "" => false | String _ s' => Contains s' sub end.

(** ** White space *)
(** Width in bytes of the white-space rune at the head of [s], 0 if none. *)
Definition space_len (s : string) : nat :=
  match s with
  | "" => 0
  | String a s1 =>
      let x := nat_of_ascii a in
      if (Nat.leb 9 x && Nat.leb x 13) || Nat.eqb x 32 then 1
      else match s1 with
      | "" => 0
      | String b s2 =>
          let y := nat_of_ascii b in
          if Nat.eqb x 194 && (Nat.eqb y 133 || Nat.eqb y 160) then 2
          else match s2 with
          | "" => 0
          | String c _ =>
              let z := nat_of_ascii c in
              if (Nat.eqb x 225 && Nat.eqb y 154 && Nat.eqb z 128)
                 || (Nat.eqb x 226 && Nat.eqb y 128
                       && ((Nat.leb 128 z && Nat.leb z 138)
                           || Nat.eqb z 168 || Nat.eqb z 169 || Nat.eqb z 175))
                 || (Nat.eqb x 226 && Nat.eqb y 129 && Nat.eqb z 159)
                 || (Nat.eqb x 227 && Nat.eqb y 128 && Nat.eqb z 128)
              then 3 else 0
          end
      end
  end.

Fixpoint fields_aux (skip : nat) (cur : string) (s : string) : list string :=
  match s with
  | "" => if decide (cur = "") then [] else [cur]
  | String c s' =>
      match skip with
      | S k => fields_aux k cur s'
      | O => match space_len s with
             | O => fields_aux 0 (cur +:+ String c "") s'
             | S k => if decide (cur = "") then fields_aux k "" s'
                      else cur :: fields_aux k "" s'
             end
      end
  end.
Definition Fields (s : string) : list string := fields_aux 0 "" s.

Fixpoint trim_left_aux (skip : nat) (s : string) : string :=
  match s with
  | "" => ""
  | String _ s' =>
      match skip with
      | S k => trim_left_aux k s'
      | O => match space_len s with
             | O => s
             | S k => trim_left_aux k s'
             end
      end
  end.
Definition trim_left (s : string) : string := trim_left_aux 0 s.

(** [s] consists of white-space runes only. *)
Definition all_space (s : string) : bool := bool_decide (trim_left s = "").

Fixpoint trim_right (s : string) : string :=
  if all_space s then ""
  else match s with
       | "" => ""
       | String c s' => String c (trim_right s')
       end.
Definition TrimSpace (s : string) : string := trim_right (trim_left s).

(** ** Numbers *)
Definition digit_val (c : ascii) : Z := Z.of_nat (nat_of_ascii c) - 48.

Fixpoint parse_digits (acc : Z) (s : string) : option Z :=
  match s with
  | "" => Some acc
  | String c s' =>
      if is_digit c then parse_digits (acc * 10 + digit_val c) s' else None
  end.

Definition parse_decimal (s : string) : option Z :=
  match s with "" => None | _ => parse_digits 0 s end.

(** [strconv.ParseUint(s, 10, bits)]: no sign, value below [2^bits]. *)
Definition ParseUint (bits : Z) (s : string) : option Z :=
  match parse_decimal s with
  | Some n => if (n <? 2 ^ bits)%Z then Some n else None
  | None => None
  end.

(** [strconv.Atoi] on a 64-bit platform. *)
Definition Atoi (s : string) : option Z :=
  match s with
  | "" => None
  | String c s' =>
      if Ascii.eqb c "-" then
        match parse_decimal s' with
        | Some n => if (n <=? 2 ^ 63)%Z then Some (- n)%Z else None
        | None => None
        end
      else
        match parse_decimal (if Ascii.eqb c "+" then s' else s) with
        | Some n => if (n <? 2 ^ 63)%Z then Some n else None
        | None => None
        end
  end.

(** [%d]. *)
Definition fmt_d (z : Z) : string := pretty z.

(** [strings.Join(elems, sep)] *)
Fixpoint sjoin (sep : string) (l : list string) : string :=
  match l with
  | [] => ""
  | [w] => w
  | w :: ws => w +:+ sep +:+ sjoin sep ws
  end.

(** ** [bufio.Scanner] with [ScanLines]

    Tokens are the newline-separated lines with one trailing carriage return
    removed; an unterminated last line is a token when non-empty. A line whose
    bytes (without the newline) do not fit the 64 KiB buffer stops the scan
    with [ErrTooLong]. *)
Definition drop_cr (s : string) : string :=
  match cut_last CR s with
  | Some (a, "") => a
  | _ => s
  end.

Inductive scan_end := ScanEOF | ScanTooLong.
#[export] Instance scan_end_eq_dec : EqDecision scan_end.
Proof. solve_decision. Defined.

Definition too_long (line : string) : bool :=
  Z.leb 65536 (Z.of_nat (String.length line)).

Fixpoint scan_raw (raw : list string) : list string * scan_end :=
  match raw with
  | [] => ([], ScanEOF)
  | [last] => if decide (last = "") then ([], ScanEOF)
              else if too_long last then ([], ScanTooLong)
              else ([drop_cr last], ScanEOF)
  | line :: rest =>
      if too_long line then ([], ScanTooLong)
      else let '(toks, e) := scan_raw rest in (drop_cr line :: toks, e)
  end.
Definition ScanLines (content : string) : list string * scan_end :=
  scan_raw (Split LF content).

(** ** Facts about bytes and strings *)
Definition no_byte (c : ascii) (s : string) : Prop := has_byte c s = false.
Arguments no_byte : simpl never.

Lemma no_byte_nil c : no_byte c "".
Proof. done. Qed.

Lemma no_byte_cons c d s : no_byte c (String d s) ↔ d ≠ c ∧ no_byte c s.
Proof.
  unfold no_byte, has_byte. simpl. rewrite !negb_false_iff, andb_true_iff.
  rewrite negb_true_iff, Ascii.eqb_neq. done.
Qed.

Lemma no_byte_app c s t : no_byte c (s +:+ t) ↔ no_byte c s ∧ no_byte c t.
Proof.
  induction s as [|d s IH]; simpl; [by split; [intros; split|intros [_ ?]]|].
  rewrite !no_byte_cons, IH. tauto.
Qed.

Lemma HasPrefix_nil s : HasPrefix s "" = true.
Proof. by destruct s. Qed.

Lemma sapp_nil_r (s : string) : s +:+ "" = s.
Proof. induction s as [|c s IH]; [done|]. simpl. by rewrite IH. Qed.

Lemma sapp_assoc (s t u : string) : s +:+ (t +:+ u) = (s +:+ t) +:+ u.
Proof. induction s as [|c s IH]; [done|]. simpl. by rewrite IH. Qed.

Lemma sapp_inj_l (s t u : string) : s +:+ t = s +:+ u → t = u.
Proof. induction s as [|c s IH]; simpl; [done|]. intros [=]. auto. Qed.

Lemma slen_app (s t : string) :
  String.length (s +:+ t) = (String.length s + String.length t)%nat.
Proof. induction s as [|c s IH]; [done|]. simpl. by rewrite IH. Qed.

(** A suffix test and its removal. *)
Lemma sdrop_app (s t : string) : sdrop (String.length s) (s +:+ t) = t.
Proof. induction s as [|c s IH]; [by destruct t|done]. Qed.
Lemma stake_app (s t : string) : stake (String.length s) (s +:+ t) = s.
Proof. induction s as [|c s IH]; [done|]. simpl. by rewrite IH. Qed.
Lemma stake_sdrop n s : stake n s +:+ sdrop n s = s.
Proof. revert s. induction n as [|n IH]; [done|]. intros [|c s]; [done|]. simpl. by rewrite IH. Qed.

Lemma HasSuffix_app (s t : string) : HasSuffix (s +:+ t) t = true.
Proof.
  unfold HasSuffix. rewrite slen_app.
  replace (String.length s + String.length t - String.length t)%nat with (String.length s) by lia.
  rewrite sdrop_app, !bool_decide_true by lia || done. done.
Qed.
Lemma TrimSuffix_app (s t : string) : TrimSuffix (s +:+ t) t = s.
Proof.
  unfold TrimSuffix. rewrite HasSuffix_app, slen_app.
  replace (String.length s + String.length t - String.length t)%nat with (String.length s) by lia.
  apply stake_app.
Qed.
Lemma HasSuffix_true s t : HasSuffix s t = true → s = TrimSuffix s t +:+ t.
Proof.
  intros Hs. unfold TrimSuffix. rewrite Hs. apply andb_prop in Hs as [_ Hs].
  apply bool_decide_eq_true in Hs.
  rewrite <-(stake_sdrop (String.length s - String.length t) s) at 1. by rewrite Hs.
Qed.

#[export] Hint Resolve no_byte_nil : mail.
#[export] Hint Rewrite sapp_nil_r : mail.

(** [cut] finds the first separator. *)
Lemma cut_app c s t : no_byte c s → cut c (s +:+ String c t) = Some (s, t).
Proof.
  induction s as [|d s IH]; simpl; [by rewrite Ascii.eqb_refl|].
  rewrite no_byte_cons. intros [Hd Hs].
  apply Ascii.eqb_neq in Hd. by rewrite Hd, IH.
Qed.

Lemma cut_None c s : cut c s = None ↔ no_byte c s.
Proof.
  induction s as [|d s IH]; simpl; [done|]. rewrite no_byte_cons, <-IH.
  destruct (Ascii.eqb_spec d c); [naive_solver|].
  destruct (cut c s) as [[]|]; naive_solver.
Qed.

Lemma cut_Some c s a b :
  cut c s = Some (a, b) → s = a +:+ String c b ∧ no_byte c a.
Proof.
  revert a b. induction s as [|d s IH]; simpl; [done|]. intros a b.
  destruct (Ascii.eqb_spec d c) as [->|Hd]; [by intros [= <- <-]|].
  destruct (cut c s) as [[a' b']|] eqn:E; [|done]. intros [= <- <-].
  destruct (IH _ _ eq_refl) as [-> ?]. by rewrite no_byte_cons.
Qed.

(** [cut_last] finds the last one. *)
Lemma cut_last_None c s : cut_last c s = None ↔ no_byte c s.
Proof.
  induction s as [|d s IH]; simpl; [done|]. rewrite no_byte_cons, <-IH.
  destruct (cut_last c s) as [[]|]; [naive_solver|].
  destruct (Ascii.eqb_spec d c); naive_solver.
Qed.

Lemma cut_last_app c s t :
  no_byte c t → cut_last c (s +:+ String c t) = Some (s, t).
Proof.
  intros Ht. induction s as [|d s IH]; simpl; [|by rewrite IH].
  apply cut_last_None in Ht. by rewrite Ht, Ascii.eqb_refl.
Qed.

Lemma cut_last_Some c s a b :
  cut_last c s = Some (a, b) → s = a +:+ String c b ∧ no_byte c b.
Proof.
  revert a b. induction s as [|d s IH]; simpl; [done|]. intros a b.
  destruct (cut_last c s) as [[a' b']|] eqn:E.
  - intros [= <- <-]. by destruct (IH _ _ eq_refl) as [-> ?].
  - destruct (Ascii.eqb_spec d c) as [->|]; [|done]. intros [= <- <-].
    split; [done|]. by apply cut_last_None.
Qed.

(** ** Splitting and joining *)
Lemma Split_nonempty c s : Split c s ≠ [].
Proof. destruct s as [|d s]; simpl; [done|]. by repeat case_match. Qed.

Lemma Split_no_byte c s : no_byte c s → Split c s = [s].
Proof.
  induction s as [|d s IH]; simpl; [done|]. rewrite no_byte_cons.
  intros [Hd Hs]. apply Ascii.eqb_neq in Hd. by rewrite Hd, IH.
Qed.

Lemma Split_app c s t :
  no_byte c s → Split c (s +:+ String c t) = s :: Split c t.
Proof.
  induction s as [|d s IH]; simpl; [by rewrite Ascii.eqb_refl|].
  rewrite no_byte_cons. intros [Hd Hs]. apply Ascii.eqb_neq in Hd.
  by rewrite Hd, IH.
Qed.

Lemma Split_elem_no_byte c s : Forall (no_byte c) (Split c s).
Proof.
  induction s as [|d s IH]; simpl; [by repeat constructor|].
  destruct (Ascii.eqb_spec d c); [by constructor|].
  destruct (Split c s) as [|w ws]; [by constructor; [rewrite no_byte_cons|]|].
  apply Forall_cons in IH as [? ?]. constructor; [|done].
  by rewrite no_byte_cons.
Qed.

(** Every element of [Split] only has bytes of the input. *)
Lemma Split_elem_preserves c b s :
  no_byte b s → Forall (no_byte b) (Split c s).
Proof.
  induction s as [|d s IH]; simpl; [by repeat constructor|].
  rewrite no_byte_cons. intros [Hd Hs]. specialize (IH Hs).
  destruct (Ascii.eqb d c); [by constructor|].
  destruct (Split c s) as [|w ws]; [by constructor; [rewrite no_byte_cons|]|].
  apply Forall_cons in IH as [? ?]. constructor; [|done].
  by rewrite no_byte_cons.
Qed.

(** Lines each ended by the separator, as a writer produces them. *)
Fixpoint unlines (c : ascii) (l : list string) : string :=
  match l with [] => "" | w :: ws => w +:+ String c (unlines c ws) end.

Lemma Split_unlines c l :
  Forall (no_byte c) l → Split c (unlines c l) = l ++ [""].
Proof.
  induction 1 as [|w ws Hw _ IH]; simpl; [done|].
  by rewrite Split_app, IH.
Qed.

(** ** Printing and parsing numbers *)
Lemma digit_val_char (x : N) :
  (x < 10)%N →
  is_digit (pretty_N_char x) = true ∧ digit_val (pretty_N_char x) = Z.of_N x.
Proof.
  intros Hx. assert (x = 0 ∨ x = 1 ∨ x = 2 ∨ x = 3 ∨ x = 4 ∨ x = 5 ∨ x = 6
    ∨ x = 7 ∨ x = 8 ∨ x = 9)%N by lia.
  by repeat (destruct_or!; subst).
Qed.

Lemma parse_digits_pretty_go (n : N) (s : string) :
  (0 < n)%N → parse_digits 0 (pretty_N_go n s) = parse_digits (Z.of_N n) s.
Proof.
  revert s. induction (N.lt_wf_0 n) as [n _ IH]. intros s Hn.
  rewrite pretty_N_go_step by done.
  assert (n mod 10 < 10)%N as Hm by (apply N.mod_lt; lia).
  destruct (digit_val_char (n mod 10) Hm) as [Hd Hv].
  pose proof (N.div_mod n 10 ltac:(lia)) as Hdm.
  destruct (decide (n `div` 10 = 0)%N) as [Hz|Hz].
  - rewrite Hz, pretty_N_go_0. simpl. rewrite Hd, Hv. f_equal. lia.
  - rewrite IH; [|apply N.div_lt; lia|lia]. simpl. rewrite Hd, Hv. f_equal. lia.
Qed.

Lemma pretty_N_nonempty (n : N) : pretty n ≠ "".
Proof.
  intros Hn. assert (n ≠ 0%N) as H0 by (intros ->; discriminate Hn).
  unfold pretty, pretty_N in Hn. rewrite decide_False in Hn by done.
  pose proof (parse_digits_pretty_go n "" ltac:(lia)) as Hp.
  rewrite Hn in Hp. simpl in Hp. simplify_eq. lia.
Qed.

Lemma fmt_d_nonneg (z : Z) : (0 ≤ z)%Z → fmt_d z = pretty (Z.to_N z).
Proof. destruct z; [done|done|lia]. Qed.

Lemma parse_decimal_fmt_d (z : Z) : (0 ≤ z)%Z → parse_decimal (fmt_d z) = Some z.
Proof.
  intros Hz. rewrite fmt_d_nonneg by done.
  pose proof (pretty_N_nonempty (Z.to_N z)) as Hne.
  destruct (decide (z = 0)%Z) as [->|]; [done|].
  assert (parse_decimal (pretty (Z.to_N z)) = parse_digits 0 (pretty (Z.to_N z))) as ->.
  { by destruct (pretty (Z.to_N z)). }
  unfold pretty, pretty_N. rewrite decide_False by lia.
  rewrite parse_digits_pretty_go by lia. simpl. f_equal. lia.
Qed.

Lemma parse_digits_sforall acc s n :
  parse_digits acc s = Some n → sforall is_digit s = true.
Proof.
  revert acc. induction s as [|c s IH]; intros acc; simpl; [done|].
  destruct (is_digit c); [|done]. apply IH.
Qed.

Lemma fmt_d_digits (z : Z) : (0 ≤ z)%Z → sforall is_digit (fmt_d z) = true.
Proof.
  intros Hz%parse_decimal_fmt_d. unfold parse_decimal in Hz.
  destruct (fmt_d z) eqn:E; [done|]. eapply parse_digits_sforall, Hz.
Qed.

Lemma fmt_d_nonempty (z : Z) : (0 ≤ z)%Z → fmt_d z ≠ "".
Proof. intros. rewrite fmt_d_nonneg by done. apply pretty_N_nonempty. Qed.

Lemma ParseUint_fmt_d bits (z : Z) :
  (0 ≤ z < 2 ^ bits)%Z → ParseUint bits (fmt_d z) = Some z.
Proof.
  intros. unfold ParseUint. rewrite parse_decimal_fmt_d by lia.
  by rewrite (proj2 (Z.ltb_lt _ _)) by lia.
Qed.

Lemma digit_head_not_sign c : is_digit c = true → c ≠ "-"%char ∧ c ≠ "+"%char.
Proof. intros Hc. by split; intros ->. Qed.

Lemma Atoi_fmt_d (z : Z) : (0 ≤ z < 2 ^ 63)%Z → Atoi (fmt_d z) = Some z.
Proof.
  intros Hz. pose proof (fmt_d_digits z ltac:(lia)) as Hd.
  pose proof (fmt_d_nonempty z ltac:(lia)) as Hne.
  pose proof (parse_decimal_fmt_d z ltac:(lia)) as Hp.
  destruct (fmt_d z) as [|c s] eqn:E; [done|]. simpl in Hd.
  apply andb_prop in Hd as [Hc _].
  apply digit_head_not_sign in Hc as [H1%Ascii.eqb_neq H2%Ascii.eqb_neq].
  unfold Atoi. rewrite H1, H2, Hp.
  by rewrite (proj2 (Z.ltb_lt _ _)) by lia.
Qed.

Lemma sforall_no_byte (p : ascii → bool) c s :
  p c = false → sforall p s = true → no_byte c s.
Proof.
  intros Hc. induction s as [|d s IH]; simpl; [done|].
  intros [Hd Hs]%andb_prop. rewrite no_byte_cons. split; [congruence|auto].
Qed.

Lemma sforall_app p s t : sforall p (s +:+ t) = sforall p s && sforall p t.
Proof.
  induction s as [|d s IH]; simpl; [done|]. by rewrite IH, andb_assoc.
Qed.

(** ** White-space facts *)
(** ASCII bytes that are not white space: never part of a space rune head. *)
Definition plain_byte (c : ascii) : bool :=
  let n := nat_of_ascii c in Nat.ltb 32 n && Nat.ltb n 128.

Lemma space_len_plain c s : plain_byte c = true → space_len (String c s) = 0.
Proof.
  unfold plain_byte, space_len. intros [H1%Nat.ltb_lt H2%Nat.ltb_lt]%andb_prop.
  set (x := nat_of_ascii c) in *.
  assert (Nat.leb 9 x && Nat.leb x 13 = false) as ->.
  { apply andb_false_iff. right. apply Nat.leb_gt. lia. }
  assert (∀ k, (128 ≤ k ∨ k = 32)%nat → Nat.eqb x k = false) as Hk.
  { intros k Hk. apply Nat.eqb_neq. lia. }
  rewrite Hk by lia. simpl. destruct s as [|b [|d s]]; [done| |];
    repeat rewrite Hk by lia; done.
Qed.

Lemma fields_aux_word cur w s :
  sforall plain_byte w = true →
  fields_aux 0 cur (w +:+ s) = fields_aux 0 (cur +:+ w) s.
Proof.
  revert cur. induction w as [|c w IH]; intros cur; [by rewrite sapp_nil_r|].
  intros [Hc Hw]%andb_prop. change (String c w +:+ s) with (String c (w +:+ s)).
  unfold fields_aux; fold fields_aux. rewrite space_len_plain by done.
  rewrite IH by done. f_equal. by rewrite <-sapp_assoc.
Qed.

Lemma Fields_word w s :
  w ≠ "" → sforall plain_byte w = true →
  Fields (w +:+ String SP s) = w :: Fields s.
Proof.
  intros Hne Hw. unfold Fields. rewrite fields_aux_word by done. simpl.
  by rewrite decide_False by done.
Qed.

Lemma Fields_last w :
  w ≠ "" → sforall plain_byte w = true → Fields w = [w].
Proof.
  intros Hne Hw. unfold Fields. rewrite <-(sapp_nil_r w) at 1.
  rewrite fields_aux_word by done. simpl. by rewrite decide_False by done.
Qed.

Lemma is_digit_plain c : is_digit c = true → plain_byte c = true.
Proof.
  unfold is_digit, plain_byte.
  intros [?%Nat.leb_le ?%Nat.leb_le]%andb_prop.
  apply andb_true_intro. split; apply Nat.ltb_lt; lia.
Qed.

Lemma sforall_impl (p q : ascii → bool) s :
  (∀ c, p c = true → q c = true) → sforall p s = true → sforall q s = true.
Proof.
  intros Hpq. induction s as [|c s IH]; simpl; [done|].
  intros [Hc Hs]%andb_prop. by rewrite (Hpq c), IH.
Qed.

Lemma fmt_d_plain (z : Z) : (0 ≤ z)%Z → sforall plain_byte (fmt_d z) = true.
Proof.
  intros Hz. eapply sforall_impl, fmt_d_digits; [apply is_digit_plain|done].
Qed.

Lemma fmt_d_no_byte c (z : Z) : is_digit c = false → (0 ≤ z)%Z → no_byte c (fmt_d z).
Proof. intros Hc Hz. eapply sforall_no_byte, fmt_d_digits; done. Qed.

(** ** Scanning lines *)
(** A token that [ScanLines] returns unchanged when written as one line. *)
Definition scannable (w : string) : Prop :=
  no_byte LF w ∧ no_byte CR w ∧ too_long w = false.

Lemma drop_cr_no_cr w : no_byte CR w → drop_cr w = w.
Proof. unfold drop_cr. intros Hw%cut_last_None. by rewrite Hw. Qed.

Lemma ScanLines_unlines l :
  Forall scannable l → ScanLines (unlines LF l) = (l, ScanEOF).
Proof.
  intros Hl. unfold ScanLines. rewrite Split_unlines.
  2:{ eapply Forall_impl; [exact Hl|]. by intros ? []. }
  induction Hl as [|w ws (Hlf & Hcr & Hlen) Hws IH]; [done|].
  change ((w :: ws) ++ [""]) with (w :: (ws ++ [""])).
  assert (∃ x y, ws ++ [""] = x :: y) as (x & y & E) by (destruct ws; eauto).
  rewrite E in *. cbn [scan_raw] in *. rewrite Hlen, IH.
  by rewrite drop_cr_no_cr.
Qed.

(** ** Trimming *)
Lemma trim_right_plain s : sforall plain_byte s = true → trim_right s = s.
Proof.
  induction s as [|c s IH]; [done|]. intros [Hc Hs]%andb_prop. cbn [trim_right].
  assert (all_space (String c s) = false) as ->.
  { unfold all_space, trim_left. cbn [trim_left_aux]. rewrite space_len_plain by done.
    by rewrite bool_decide_false. }
  by rewrite IH.
Qed.

Lemma TrimSpace_plain s : sforall plain_byte s = true → TrimSpace s = s.
Proof.
  intros Hs. unfold TrimSpace. assert (trim_left s = s) as ->; [|by apply trim_right_plain].
  destruct s as [|c s]; [done|]. simpl in Hs. apply andb_prop in Hs as [Hc _].
  unfold trim_left. cbn [trim_left_aux]. by rewrite space_len_plain.
Qed.

Lemma trim_right_app s t :
  sforall plain_byte s = true → s ≠ "" → all_space t = true → trim_right (s +:+ t) = s.
Proof.
  intros Hs Hne Ht. clear Hne. induction s as [|c s IH].
  { change ("" +:+ t) with t. destruct t as [|c t]; [done|]. cbn [trim_right]. by rewrite Ht. }
  simpl in Hs. apply andb_prop in Hs as [Hc Hs].
  change (String c s +:+ t) with (String c (s +:+ t)). cbn [trim_right].
  assert (all_space (String c (s +:+ t)) = false) as ->.
  { unfold all_space, trim_left. cbn [trim_left_aux]. rewrite space_len_plain by done.
    by rewrite bool_decide_false. }
  by rewrite IH.
Qed.

(** A word followed by white space: what a file of one line holds. *)
Lemma TrimSpace_app s t :
  sforall plain_byte s = true → s ≠ "" → all_space t = true → TrimSpace (s +:+ t) = s.
Proof.
  intros Hs Hne Ht. unfold TrimSpace. assert (trim_left (s +:+ t) = s +:+ t) as ->.
  { destruct s as [|c s]; [done|]. simpl in Hs. apply andb_prop in Hs as [Hc _].
    change (String c s +:+ t) with (String c (s +:+ t)).
    unfold trim_left. cbn [trim_left_aux]. by rewrite space_len_plain. }
  by apply trim_right_app.
Qed.

(** ** Lengths and ends of strings *)
Lemma stake_ge n s : (String.length s ≤ n)%nat → stake n s = s.
Proof.
  revert n. induction s as [|c s IH]; intros [|n]; simpl; intros Hn; try done; [lia|].
  f_equal. apply IH. lia.
Qed.

Lemma pretty_N_go_length (k : nat) (x : N) s :
  (x < 10 ^ N.of_nat k)%N → (String.length (pretty_N_go x s) ≤ k + String.length s)%nat.
Proof.
  revert x s. induction k as [|k IH]; intros x s Hx.
  { change (10 ^ N.of_nat 0)%N with 1%N in Hx. assert (x = 0%N) as -> by lia.
    by rewrite pretty_N_go_0. }
  destruct (decide (x = 0)%N) as [->|Hne]; [rewrite pretty_N_go_0; lia|].
  rewrite pretty_N_go_step by lia. etrans; [apply IH|simpl; lia].
  rewrite Nat2N.inj_succ, N.pow_succ_r' in Hx. apply N.Div0.div_lt_upper_bound. lia.
Qed.

Lemma fmt_d_length (k : nat) (z : Z) :
  (0 ≤ z < 10 ^ Z.of_nat k)%Z → (0 < k)%nat → (String.length (fmt_d z) ≤ k)%nat.
Proof.
  intros Hz Hk. rewrite fmt_d_nonneg by lia. unfold pretty, pretty_N. case_decide.
  { simpl. lia. }
  etrans; [apply (pretty_N_go_length k)|cbn [String.length]; lia].
  apply N2Z.inj_lt. rewrite Z2N.id, N2Z.inj_pow, nat_N_Z by lia. lia.
Qed.

(** The last [n] bytes. *)
Definition slast (n : nat) (s : string) : string := sdrop (String.length s - n) s.

Lemma sdrop_app_le n s t : (n ≤ String.length s)%nat → sdrop n (s +:+ t) = sdrop n s +:+ t.
Proof.
  revert n. induction s as [|c s IH]; intros [|n]; simpl; intros Hn; try done; [lia|].
  apply IH. lia.
Qed.

Lemma sdrop_sdrop n m s : sdrop n (sdrop m s) = sdrop (m + n) s.
Proof. revert s. induction m as [|m IH]; intros [|c s]; simpl; try done. by destruct n. Qed.

Lemma slast_app n s t : (n ≤ String.length t)%nat → slast n (s +:+ t) = slast n t.
Proof.
  intros Hn. unfold slast. rewrite slen_app.
  replace (String.length s + String.length t - n)%nat
    with (String.length s + (String.length t - n))%nat by lia.
  by rewrite <-sdrop_sdrop, sdrop_app.
Qed.

(** ** Joining *)
Lemma sjoin_cons sep w w' ws : sjoin sep (w :: w' :: ws) = w +:+ sep +:+ sjoin sep (w' :: ws).
Proof. done. Qed.

Lemma sjoin_snoc sep l w : l ≠ [] → sjoin sep (l ++ [w]) = sjoin sep l +:+ sep +:+ w.
Proof.
  intros Hne. induction l as [|x l IH]; [done|]. destruct l as [|y l]; [done|].
  change ((x :: y :: l) ++ [w]) with (x :: y :: (l ++ [w])). rewrite !sjoin_cons.
  change (y :: (l ++ [w])) with ((y :: l) ++ [w]). rewrite IH by done.
  by rewrite !sapp_assoc.
Qed.

Lemma Split_app_r c s t : no_byte c t → Split c (s +:+ String c t) = Split c s ++ [t].
Proof.
  intros Ht. induction s as [|d s IH].
  - change ("" +:+ String c t) with (String c t). cbn [Split]. rewrite Ascii.eqb_refl.
    by rewrite Split_no_byte.
  - change (String d s +:+ String c t) with (String d (s +:+ String c t)). cbn [Split].
    rewrite IH. destruct (Ascii.eqb d c); [done|].
    destruct (Split c s) as [|x xs] eqn:E; [by destruct (Split_nonempty c s)|done].
Qed.

(** ** [strconv.Quote]

    Bytes of ASCII strings; how other runes are printed depends on the Unicode
    tables, which are a parameter. *)
Class UnicodeQuote := quote_runes : string → string.

Definition hex_digit (n : nat) : ascii :=
  byte_of (if Nat.ltb n 10 then 48 + n else 87 + n).
Definition DQ : ascii := byte_of 34.
Definition BS : ascii := byte_of 92.

Definition quote_byte (c : ascii) : string :=
  let n := nat_of_ascii c in
  if Ascii.eqb c DQ || Ascii.eqb c BS then String BS (String c "")
  else if Nat.leb 32 n && Nat.leb n 126 then String c ""
  else if Nat.eqb n 7 then String BS "a" else if Nat.eqb n 8 then String BS "b"
  else if Nat.eqb n 12 then String BS "f" else if Nat.eqb n 10 then String BS "n"
  else if Nat.eqb n 13 then String BS "r" else if Nat.eqb n 9 then String BS "t"
  else if Nat.eqb n 11 then String BS "v"
  else String BS (String "x" (String (hex_digit (n / 16)) (String (hex_digit (n mod 16)) ""))).

Fixpoint quote_bytes (s : string) : string :=
  match s with
  | "" => ""
  | String c s' => quote_byte c +:+ quote_bytes s'
  end.

Definition Quote `{UnicodeQuote} (s : string) : string :=
  String DQ ((if sforall is_ascii_byte s then quote_bytes s else quote_runes s) +:+ String DQ "").
