(* ===== verification/Base64.v ===== *)
(** * Base64: what the SASL exchange uses of [encoding/base64]

    [base64.StdEncoding] as Go implements it: the standard alphabet, mandatory
    padding, carriage returns and line feeds ignored on decoding, trailing bits
    not checked (the encoding is not [Strict]). A [[]byte] is a byte string. *)
From S2P Require Import Prelude GoStrings.
From Stdlib Require Import ZArith Lia Ascii NArith.
Open Scope string_scope.
Open Scope list_scope.
Open Scope N_scope.

Definition b64_alphabet : string :=
  "ABCDEFGHIJKLMNOPQRSTUVWXYZabcdefghijklmnopqrstuvwxyz0123456789+/".
Definition b64_pad : ascii := "="%char.

Definition b64_char (n : N) : ascii :=
  match String.get (N.to_nat n) b64_alphabet with Some c => c | None => b64_pad end.

(** [decodeMap]: position of a byte in the alphabet. *)
Fixpoint index_from (i : N) (c : ascii) (s : string) : option N :=
  match s with
  | "" => None
  | String d s' => if Ascii.eqb d c then Some i else index_from (i + 1) c s'
  end.
Definition b64_value (c : ascii) : option N := index_from 0 c b64_alphabet.

(** [EncodeToString]. *)
Fixpoint b64_encode (s : string) : string :=
  match s with
  | "" => ""
  | String a "" =>
      let x := N_of_ascii a in
      String (b64_char (x / 4)) (String (b64_char (x mod 4 * 16))
        (String b64_pad (String b64_pad "")))
  | String a (String b "") =>
      let x := N_of_ascii a in let y := N_of_ascii b in
      String (b64_char (x / 4)) (String (b64_char (x mod 4 * 16 + y / 16))
        (String (b64_char (y mod 16 * 4)) (String b64_pad "")))
  | String a (String b (String c rest)) =>
      let x := N_of_ascii a in let y := N_of_ascii b in let z := N_of_ascii c in
      String (b64_char (x / 4)) (String (b64_char (x mod 4 * 16 + y / 16))
        (String (b64_char (y mod 16 * 4 + z / 64)) (String (b64_char (z mod 64))
          (b64_encode rest))))
  end.

Definition b64_first (p q : N) : ascii := ascii_of_N (p * 4 + q / 16).
Definition b64_second (q r : N) : ascii := ascii_of_N (q mod 16 * 16 + r / 4).
Definition b64_third (r s : N) : ascii := ascii_of_N (r mod 4 * 64 + s).

(** [decodeQuantum] repeated, on an input without line breaks. *)
Fixpoint b64_quanta (s : string) : option string :=
  match s with
  | "" => Some ""
  | String a (String b (String c (String d rest))) =>
      match b64_value a, b64_value b with
      | Some p, Some q =>
          match b64_value c with
          | Some r =>
              match b64_value d with
              | Some t =>
                  match b64_quanta rest with
                  | Some out => Some (String (b64_first p q)
                      (String (b64_second q r) (String (b64_third r t) out)))
                  | None => None
                  end
              | None =>
                  if Ascii.eqb d b64_pad && bool_decide (rest = "")
                  then Some (String (b64_first p q) (String (b64_second q r) ""))
                  else None
              end
          | None =>
              if Ascii.eqb c b64_pad && Ascii.eqb d b64_pad && bool_decide (rest = "")
              then Some (String (b64_first p q) "")
              else None
          end
      | _, _ => None
      end
  | _ => None
  end.

Fixpoint strip_breaks (s : string) : string :=
  match s with
  | "" => ""
  | String c s' => if Ascii.eqb c CR || Ascii.eqb c LF then strip_breaks s'
                   else String c (strip_breaks s')
  end.

(** [DecodeString]; [None] is [CorruptInputError]. *)
Definition b64_decode (s : string) : option string := b64_quanta (strip_breaks s).

(** ** Decoding inverts encoding *)
Definition sextets : list N := N.of_nat <$> seq 0 64.

Lemma sextet_cases n : n < 64 → n ∈ sextets.
Proof.
  intros Hn. apply list_elem_of_fmap. exists (N.to_nat n).
  split; [lia|]. apply elem_of_seq. lia.
Qed.

Lemma b64_char_ok n :
  n < 64 → b64_value (b64_char n) = Some n ∧ b64_char n ≠ CR ∧ b64_char n ≠ LF.
Proof.
  intros Hn. apply sextet_cases in Hn.
  assert (Hall : Forall (λ n, b64_value (b64_char n) = Some n
                              ∧ b64_char n ≠ CR ∧ b64_char n ≠ LF) sextets).
  { apply (bool_decide_unpack _). vm_compute. exact I. }
  rewrite Forall_forall in Hall. auto.
Qed.

Lemma b64_value_char n : n < 64 → b64_value (b64_char n) = Some n.
Proof. apply b64_char_ok. Qed.

Lemma strip_sextet n s :
  n < 64 → strip_breaks (String (b64_char n) s) = String (b64_char n) (strip_breaks s).
Proof.
  intros Hn. destruct (b64_char_ok n Hn) as (_ & Hc & Hl). simpl.
  apply Ascii.eqb_neq in Hc, Hl. by rewrite Hc, Hl.
Qed.

Lemma strip_pad s : strip_breaks (String b64_pad s) = String b64_pad (strip_breaks s).
Proof. done. Qed.

Lemma ascii_byte c : N_of_ascii c < 256.
Proof. apply N_ascii_bounded. Qed.

Lemma sx1 (x : N) : x < 256 → x / 4 < 64.
Proof. intros. apply N.Div0.div_lt_upper_bound. lia. Qed.
Lemma sx2 (x y : N) : y < 256 → x mod 4 * 16 + y / 16 < 64.
Proof.
  intros. pose proof (N.mod_upper_bound x 4). 
  assert (y / 16 < 16) by (apply N.Div0.div_lt_upper_bound; lia). lia.
Qed.
Lemma sx3 (y z : N) : z < 256 → y mod 16 * 4 + z / 64 < 64.
Proof.
  intros. pose proof (N.mod_upper_bound y 16).
  assert (z / 64 < 4) by (apply N.Div0.div_lt_upper_bound; lia). lia.
Qed.
Lemma sx4 (z : N) : z mod 64 < 64.
Proof. apply N.mod_upper_bound. lia. Qed.
Lemma sx2' (x : N) : x mod 4 * 16 < 64.
Proof. pose proof (N.mod_upper_bound x 4). lia. Qed.
Lemma sx3' (y : N) : y mod 16 * 4 < 64.
Proof. pose proof (N.mod_upper_bound y 16). lia. Qed.

Lemma b64_first_ok a h : h < 16 →
  b64_first (N_of_ascii a / 4) (N_of_ascii a mod 4 * 16 + h) = a.
Proof.
  intros Hh. unfold b64_first.
  rewrite N.add_comm with (n := N_of_ascii a mod 4 * 16).
  rewrite N.div_add, (N.div_small h) by lia.
  replace (_ + _) with (N_of_ascii a); [apply ascii_N_embedding|].
  rewrite (N.Div0.div_mod (N_of_ascii a) 4) at 1. lia.
Qed.

Lemma b64_second_ok x b h : h < 4 →
  b64_second (x mod 4 * 16 + N_of_ascii b / 16) (N_of_ascii b mod 16 * 4 + h) = b.
Proof.
  intros Hh. unfold b64_second.
  assert (N_of_ascii b / 16 < 16)
    by (apply N.Div0.div_lt_upper_bound; pose proof (ascii_byte b); lia).
  rewrite N.add_comm with (n := x mod 4 * 16), N.Div0.mod_add, N.mod_small by done.
  rewrite N.add_comm with (n := N_of_ascii b mod 16 * 4), N.div_add,
    (N.div_small h) by lia.
  replace (_ + _) with (N_of_ascii b); [apply ascii_N_embedding|].
  rewrite (N.Div0.div_mod (N_of_ascii b) 16) at 1. lia.
Qed.

Lemma b64_third_ok y c :
  b64_third (y mod 16 * 4 + N_of_ascii c / 64) (N_of_ascii c mod 64) = c.
Proof.
  unfold b64_third.
  assert (N_of_ascii c / 64 < 4)
    by (apply N.Div0.div_lt_upper_bound; pose proof (ascii_byte c); lia).
  rewrite N.add_comm with (n := y mod 16 * 4), N.Div0.mod_add, N.mod_small by done.
  replace (_ + _) with (N_of_ascii c); [apply ascii_N_embedding|].
  rewrite (N.Div0.div_mod (N_of_ascii c) 64) at 1. lia.
Qed.

#[local] Hint Resolve ascii_byte sx1 sx2 sx3 sx4 sx2' sx3' : mail.

Lemma strip_encode_id s : strip_breaks (b64_encode s) = b64_encode s.
Proof.
  revert s. fix IH 1. intros [|a [|b [|c s]]]; [done| | |]; cbn -[strip_breaks N.div N.modulo].
  1,2: rewrite !strip_sextet by auto with mail; by rewrite ?strip_pad.
  rewrite !strip_sextet by auto with mail. by rewrite IH.
Qed.

Lemma b64_decode_encode s : b64_decode (b64_encode s) = Some s.
Proof.
  unfold b64_decode. rewrite strip_encode_id.
  revert s. fix IH 1. intros [|a [|b [|c s]]]; [done| | |];
    cbn [b64_encode b64_quanta]; rewrite !b64_value_char by auto with mail.
  - pose proof (b64_first_ok a 0) as H. rewrite N.add_0_r in H. 
    cbn -[b64_first N.div N.modulo N.mul]. by rewrite H.
  - rewrite b64_first_ok
      by (apply N.Div0.div_lt_upper_bound; pose proof (ascii_byte b); lia).
    pose proof (b64_second_ok (N_of_ascii a) b 0) as H. rewrite N.add_0_r in H.
    cbn -[b64_second N.div N.modulo N.mul N.add]. by rewrite H.
  - rewrite IH, b64_third_ok, b64_first_ok, b64_second_ok; [done|..];
      apply N.Div0.div_lt_upper_bound;
      [pose proof (ascii_byte c)|pose proof (ascii_byte b)]; lia.
Qed.

(** The decoder rejects an incomplete quantum. *)
Example b64_unpadded : b64_decode "AGE" = None.
Proof. reflexivity. Qed.
Example b64_plain : b64_decode "AGEAYg==" = Some (String NUL (String "a" (String NUL "b"))).
Proof. reflexivity. Qed.

(** ** [base64.RawStdEncoding]: no padding *)
Fixpoint b64_raw_encode (s : string) : string :=
  match s with
  | "" => ""
  | String a "" =>
      let x := N_of_ascii a in
      String (b64_char (x / 4)) (String (b64_char (x mod 4 * 16)) "")
  | String a (String b "") =>
      let x := N_of_ascii a in let y := N_of_ascii b in
      String (b64_char (x / 4)) (String (b64_char (x mod 4 * 16 + y / 16))
        (String (b64_char (y mod 16 * 4)) ""))
  | String a (String b (String c rest)) =>
      let x := N_of_ascii a in let y := N_of_ascii b in let z := N_of_ascii c in
      String (b64_char (x / 4)) (String (b64_char (x mod 4 * 16 + y / 16))
        (String (b64_char (y mod 16 * 4 + z / 64)) (String (b64_char (z mod 64))
          (b64_raw_encode rest))))
  end.

Fixpoint b64_raw_quanta (s : string) : option string :=
  match s with
  | "" => Some ""
  | String a (String b "") =>
      match b64_value a, b64_value b with
      | Some p, Some q => Some (String (b64_first p q) "")
      | _, _ => None
      end
  | String a (String b (String c "")) =>
      match b64_value a, b64_value b, b64_value c with
      | Some p, Some q, Some r => Some (String (b64_first p q) (String (b64_second q r) ""))
      | _, _, _ => None
      end
  | String a (String b (String c (String d rest))) =>
      match b64_value a, b64_value b, b64_value c, b64_value d with
      | Some p, Some q, Some r, Some t =>
          match b64_raw_quanta rest with
          | Some out => Some (String (b64_first p q)
              (String (b64_second q r) (String (b64_third r t) out)))
          | None => None
          end
      | _, _, _, _ => None
      end
  | _ => None
  end.
Definition b64_raw_decode (s : string) : option string := b64_raw_quanta (strip_breaks s).

Lemma strip_raw_encode_id s : strip_breaks (b64_raw_encode s) = b64_raw_encode s.
Proof.
  revert s. fix IH 1. intros [|a [|b [|c s]]]; [done| | |]; cbn -[strip_breaks N.div N.modulo];
    rewrite !strip_sextet by auto with mail; [done|done|by rewrite IH].
Qed.

Lemma b64_raw_decode_encode s : b64_raw_decode (b64_raw_encode s) = Some s.
Proof.
  unfold b64_raw_decode. rewrite strip_raw_encode_id.
  revert s. fix IH 1. intros [|a [|b [|c s]]]; [done| | |].
  - cbn [b64_raw_encode b64_raw_quanta]. rewrite !b64_value_char by auto with mail.
    pose proof (b64_first_ok a 0) as H. rewrite N.add_0_r in H. by rewrite H.
  - cbn [b64_raw_encode b64_raw_quanta]. rewrite !b64_value_char by auto with mail.
    rewrite b64_first_ok
      by (apply N.Div0.div_lt_upper_bound; pose proof (ascii_byte b); lia).
    pose proof (b64_second_ok (N_of_ascii a) b 0) as H. rewrite N.add_0_r in H. by rewrite H.
  - assert (b64_raw_quanta (b64_raw_encode (String a (String b (String c s)))) =
      match b64_raw_quanta (b64_raw_encode s) with
      | Some out => Some (String a (String b (String c out)))
      | None => None
      end) as ->; [|by rewrite IH].
    cbn [b64_raw_encode b64_raw_quanta]. rewrite !b64_value_char by auto with mail.
    rewrite b64_third_ok, b64_first_ok, b64_second_ok;
      [by destruct (b64_raw_encode s)|
       apply N.Div0.div_lt_upper_bound; pose proof (ascii_byte c); lia|
       apply N.Div0.div_lt_upper_bound; pose proof (ascii_byte b); lia].
Qed.

(** Bytes of the alphabet only. *)
Definition b64_byte (c : ascii) : bool := has_byte c b64_alphabet.

Lemma b64_char_byte n : n < 64 → b64_byte (b64_char n) = true.
Proof.
  intros Hn%sextet_cases. revert n Hn. apply Forall_forall.
  apply (bool_decide_unpack (Forall _ _)). vm_compute. exact I.
Qed.

Lemma b64_raw_bytes s : sforall b64_byte (b64_raw_encode s) = true.
Proof.
  revert s. fix IH 1. intros [|a [|b [|c s]]]; [done| | |]; cbn [b64_raw_encode sforall];
    rewrite !b64_char_byte by auto with mail; [done|done|by rewrite IH].
Qed.
