(* ===== verification/UidList.v ===== *)
(** * The persistent UID list of a Maildir folder

    Model of [src/msgstore/maildir/uidlist.go]: the [.uidlist] file format
    (parser and writer), reconciliation with the keys found in [cur/],
    bootstrapping, and the tmp-file/rename protocol under I/O faults.

    The files of one Maildir directory are a finite map from file name to
    contents; [dirPath] is that directory. Every system call consumes one
    element of the fault schedule, so a theorem quantified over schedules
    covers every combination of I/O failures. *)
From S2P Require Import Prelude GoStrings.
From Stdlib Require Import ZArith Lia Ascii Sorted.
From stdpp Require Import sorting.
Open Scope string_scope.
Open Scope list_scope.
Open Scope Z_scope.

(** ** Data *)
Record uidEntry := mkEntry { uid : Z; key : string }.
#[export] Instance uidEntry_eq_dec : EqDecision uidEntry.
Proof. solve_decision. Defined.

Record uidList := mkUidList {
  version : Z;
  uidValidity : Z;
  uidNext : Z;
  entries : list uidEntry;
  keyToUID : gmap string Z;
  uidToKey : gmap Z string;
}.

Definition uidlistFile : string := ".uidlist".
Definition uidlistTmpFile : string := ".uidlist.tmp".
Definition uidlistVersion : Z := 3.

Inductive uidlistErr :=
| ErrIO
| ErrEmptyFile
| ErrInvalidHeader
| ErrInvalidEntry
| ErrTooLongLine.
#[export] Instance uidlistErr_eq_dec : EqDecision uidlistErr.
Proof. solve_decision. Defined.

(** ** Parsing *)
Section Parsing.
Open Scope go_scope.

Definition parse_field (prefix : string) (s : string) : option Z :=
  if HasPrefix s prefix then ParseUint 32 (sdrop 1 s) else None.

Definition parseHeader (line : string) : result uidList uidlistErr :=
  match Fields line with
  | [p0; p1; p2] =>
      match Atoi p0, parse_field "V" p1, parse_field "N" p2 with
      | Some v, Some validity, Some next =>
          Ok (mkUidList v validity next [] ∅ ∅)
      | _, _, _ => Err ErrInvalidHeader
      end
  | _ => Err ErrInvalidHeader
  end.

Definition parseEntry (line : string) : result uidEntry uidlistErr :=
  match cut SP line with
  | None => Err ErrInvalidEntry
  | Some (u, k) =>
      match ParseUint 32 u with
      | None => Err ErrInvalidEntry
      | Some n => if decide (k = "") then Err ErrInvalidEntry
                  else Ok (mkEntry n k)
      end
  end.

Definition add_entry (ul : uidList) (e : uidEntry) : uidList :=
  mkUidList (version ul) (uidValidity ul) (uidNext ul)
    (entries ul ++ [e])
    (<[key e := uid e]> (keyToUID ul)) (<[uid e := key e]> (uidToKey ul)).

Fixpoint parse_entries (ul : uidList) (lines : list string)
  : result uidList uidlistErr :=
  match lines with
  | [] => Ok ul
  | line :: rest =>
      if decide (line = "") then parse_entries ul rest
      else e <-? parseEntry line; parse_entries (add_entry ul e) rest
  end.

(** The body of [readUIDList] once the file is open. *)
Definition parseUIDList (content : string) : result uidList uidlistErr :=
  let '(lines, stop) := ScanLines content in
  match lines with
  | [] => Err ErrEmptyFile
  | header :: rest =>
      ul <-? parseHeader header;
      ul' <-? parse_entries ul rest;
      match stop with
      | ScanEOF => Ok ul'
      | ScanTooLong => Err ErrTooLongLine
      end
  end.
End Parsing.

(** ** Rendering *)
Definition render_header (u : uidList) : string :=
  fmt_d (version u) +:+ String SP ("V" +:+ fmt_d (uidValidity u)
    +:+ String SP ("N" +:+ fmt_d (uidNext u))).
Definition render_entry (e : uidEntry) : string :=
  fmt_d (uid e) +:+ String SP (key e).
Definition render_lines (u : uidList) : list string :=
  render_header u :: (render_entry <$> entries u).
Definition render (u : uidList) : string := unlines LF (render_lines u).

(** ** The folder on disk, with a schedule of system-call outcomes *)
Inductive sysres := Done | Fault (n : nat).
Record folder := mkFolder { files : gmap string string; faults : list sysres }.

Definition sys (w : folder) : sysres * folder :=
  match faults w with
  | [] => (Done, w)
  | r :: rs => (r, mkFolder (files w) rs)
  end.

Definition set_files (f : gmap string string → gmap string string) (w : folder)
  : folder := mkFolder (f (files w)) (faults w).

(** [_ = os.Remove(path)]: a failed removal is ignored. *)
Definition os_remove (name : string) (w : folder) : folder :=
  match sys w with
  | (Done, w) => set_files (delete name) w
  | (Fault _, w) => w
  end.

(** The buffered [Fprintf]s: [None] when all of them succeeded. A failure
    leaves a prefix of the contents in the temporary file. *)
Fixpoint fprintf_lines (content : string) (ls : list string) (w : folder)
  : option folder * folder :=
  match ls with
  | [] => (None, w)
  | _ :: rest =>
      match sys w with
      | (Done, w) => fprintf_lines content rest w
      | (Fault n, w) =>
          (Some (set_files <[uidlistTmpFile := stake n content]> w), w)
      end
  end.

(** [write]: create, print, flush, sync, close, rename. *)
Definition write (u : uidList) (w : folder) : result unit uidlistErr * folder :=
  let content := render u in
  match sys w with
  | (Fault _, w) => (Err ErrIO, w)
  | (Done, w) =>
      let w := set_files <[uidlistTmpFile := ""]> w in
      match fprintf_lines content (render_lines u) w with
      | (Some w, _) => (Err ErrIO, os_remove uidlistTmpFile w)
      | (None, w) =>
          match sys w with
          | (Fault n, w) =>
              (Err ErrIO, os_remove uidlistTmpFile
                 (set_files <[uidlistTmpFile := stake n content]> w))
          | (Done, w) =>
              let w := set_files <[uidlistTmpFile := content]> w in
              match sys w with
              | (Fault _, w) => (Err ErrIO, os_remove uidlistTmpFile w)
              | (Done, w) =>
                  match sys w with
                  | (Fault _, w) => (Err ErrIO, os_remove uidlistTmpFile w)
                  | (Done, w) =>
                      match sys w with
                      | (Fault _, w) => (Err ErrIO, w)
                      | (Done, w) =>
                          (Ok (), set_files (λ m, <[uidlistFile := content]>
                                     (delete uidlistTmpFile m)) w)
                      end
                  end
              end
          end
      end
  end.

(** [readUIDList]: [Ok None] when the file does not exist. *)
Definition readUIDList (w : folder) : result (option uidList) uidlistErr * folder :=
  match sys w with
  | (Fault _, w) => (Err ErrIO, w)
  | (Done, w) =>
      match files w !! uidlistFile with
      | None => (Ok None, w)
      | Some content =>
          match sys w with
          | (Fault _, w) => (Err ErrIO, w)
          | (Done, w) =>
              (match parseUIDList content with
               | Ok ul => Ok (Some ul)
               | Err e => Err e
               end, w)
          end
      end
  end.

(** ** Reconciliation *)
Definition drop_entry (ul : uidList) (e : uidEntry) : uidList :=
  mkUidList (version ul) (uidValidity ul) (uidNext ul) (entries ul)
    (delete (key e) (keyToUID ul)) (delete (uid e) (uidToKey ul)).

(** First loop of [reconcile]: the kept entries, the list with the indexes of
    the others deleted, and whether anything was dropped. *)
Fixpoint prune (curSet : gset string) (es : list uidEntry) (ul : uidList)
  : list uidEntry * uidList * bool :=
  match es with
  | [] => ([], ul, false)
  | e :: rest =>
      if decide (key e ∈ curSet) then
        let '(kept, ul', ch) := prune curSet rest ul in (e :: kept, ul', ch)
      else
        let '(kept, ul', _) := prune curSet rest (drop_entry ul e) in
        (kept, ul', true)
  end.

Definition with_entries (es : list uidEntry) (ul : uidList) : uidList :=
  mkUidList (version ul) (uidValidity ul) (uidNext ul) es
    (keyToUID ul) (uidToKey ul).

Definition sort_Strings (l : list string) : list string := merge_sort String.le l.

(** One iteration of the assignment loop: [k] gets [uidNext]. *)
Definition assign_key (ul : uidList) (k : string) : uidList :=
  let ul' := add_entry ul (mkEntry (uidNext ul) k) in
  mkUidList (version ul') (uidValidity ul') (wrap_uint32 (uidNext ul' + 1))
    (entries ul') (keyToUID ul') (uidToKey ul').
Definition assign_keys (ul : uidList) (ks : list string) : uidList :=
  foldl assign_key ul ks.

Definition newKeys (ul : uidList) (curKeys : list string) : list string :=
  filter (λ k, keyToUID ul !! k = None) curKeys.

Definition reconcile (curKeys : list string) (ul : uidList) : bool * uidList :=
  let '(kept, ul1, dropped) := prune (list_to_set curKeys) (entries ul) ul in
  let ul2 := with_entries kept ul1 in
  match newKeys ul2 curKeys with
  | [] => (dropped, ul2)
  | ks => (true, assign_keys ul2 (sort_Strings ks))
  end.

Definition bootstrapUIDList (now : Z) (curKeys : list string) : uidList :=
  assign_keys (mkUidList uidlistVersion (wrap_uint32 now) 1 [] ∅ ∅)
    (sort_Strings curKeys).

(** [loadOrBootstrapUIDList]; [now] is [time.Now().Unix()]. *)
Definition loadOrBootstrapUIDList (now : Z) (curKeys : list string) (w : folder)
  : result uidList uidlistErr * folder :=
  let '(r, w) :=
    match readUIDList w with
    | (Err _, w) => (None, os_remove uidlistFile w)
    | (Ok o, w) => (o, w)
    end in
  match r with
  | None =>
      let ul := bootstrapUIDList now curKeys in
      match write ul w with
      | (Err e, w) => (Err e, w)
      | (Ok _, w) => (Ok ul, w)
      end
  | Some ul =>
      let '(changed, ul') := reconcile curKeys ul in
      if changed then
        match write ul' w with
        | (Err e, w) => (Err e, w)
        | (Ok _, w) => (Ok ul', w)
        end
      else (Ok ul', w)
  end.

(** [curDirKeys]: names of the non-directories of [cur/], cut at [':'];
    [None] stands for a missing [cur/]. *)
Definition key_of_name (name : string) : string :=
  match cut ":" name with Some (k, _) => k | None => name end.
Definition curDirKeys (cur : option (list (string * bool))) : list string :=
  match cur with
  | None => []
  | Some es => key_of_name <$> (filter (λ e, e.2 = false) es).*1
  end.

(** ** Well-formed lists *)
(** The two indexes hold exactly the entries. *)
Definition indexed (ul : uidList) : Prop :=
  (∀ k n, keyToUID ul !! k = Some n ↔ mkEntry n k ∈ entries ul) ∧
  (∀ n k, uidToKey ul !! n = Some k ↔ mkEntry n k ∈ entries ul).

Record wf (ul : uidList) : Prop := {
  wf_sorted : StronglySorted Z.lt (uid <$> entries ul);
  wf_bound : Forall (λ e, 1 <= uid e < uidNext ul) (entries ul);
  wf_next : 1 <= uidNext ul < 2 ^ 32;
  wf_keys : NoDup (key <$> entries ul);
  wf_indexed : indexed ul;
}.

(** What a file can represent: one non-empty line per key, fields in range. *)
Record printable (ul : uidList) : Prop := {
  pr_version : 0 <= version ul < 2 ^ 63;
  pr_validity : in_uint32 (uidValidity ul);
  pr_header : scannable (render_header ul);
  pr_entries : Forall (λ e, key e ≠ "" ∧ scannable (render_entry e)) (entries ul);
}.

(** ** Lemmas on the loops *)
Lemma sorted_uids_inj (es : list uidEntry) e1 e2 :
  StronglySorted Z.lt (uid <$> es) → e1 ∈ es → e2 ∈ es → uid e1 = uid e2 → e1 = e2.
Proof.
  induction es as [|e es IH]; simpl; intros Hs H1 H2 Heq; [set_solver|].
  apply StronglySorted_inv in Hs as [Hs Hall].
  rewrite Forall_forall in Hall.
  assert (∀ e', e' ∈ es → uid e < uid e') as Hlt.
  { intros e' He'. apply Hall. apply list_elem_of_fmap. eauto. }
  apply elem_of_cons in H1 as [->|H1], H2 as [->|H2]; [done| | |by apply IH].
  - specialize (Hlt _ H2). lia.
  - specialize (Hlt _ H1). lia.
Qed.

Lemma nodup_keys_inj (es : list uidEntry) e1 e2 :
  NoDup (key <$> es) → e1 ∈ es → e2 ∈ es → key e1 = key e2 → e1 = e2.
Proof.
  induction es as [|e es IH]; simpl; intros Hs H1 H2 Heq; [set_solver|].
  apply NoDup_cons in Hs as [Hn Hs].
  apply elem_of_cons in H1 as [->|H1], H2 as [->|H2]; [done| | |by apply IH];
    destruct Hn; apply list_elem_of_fmap; eauto.
Qed.

Lemma entry_eta (e : uidEntry) : mkEntry (uid e) (key e) = e.
Proof. by destruct e. Qed.

(** The pruning loop keeps the entries whose key is still present. *)
Lemma prune_kept cs es ul kept ul' ch :
  prune cs es ul = (kept, ul', ch) →
  kept = filter (λ e, key e ∈ cs) es ∧
  version ul' = version ul ∧ uidValidity ul' = uidValidity ul ∧
  uidNext ul' = uidNext ul ∧ entries ul' = entries ul ∧
  (ch = false → ul' = ul ∧ kept = es).
Proof.
  revert ul kept ul' ch. induction es as [|e es IH]; simpl; intros ul kept ul' ch.
  { intros [= <- <- <-]. done. }
  rewrite filter_cons. destruct (decide (key e ∈ cs)) as [Hin|Hout].
  - destruct (prune cs es ul) as [[kept1 ul1] ch1] eqn:E.
    intros [= <- <- <-]. destruct (IH _ _ _ _ E) as (-> & ? & ? & ? & ? & Hch).
    split_and!; [done..|]. intros ->. destruct Hch; [done|]. split; congruence.
  - destruct (prune cs es (drop_entry ul e)) as [[kept1 ul1] ch1] eqn:E.
    intros [= <- <- <-]. destruct (IH _ _ _ _ E) as (-> & ? & ? & ? & ? & _).
    naive_solver.
Qed.

(** ... and deletes from the indexes exactly the others. *)
Lemma prune_lookup cs es ul kept ul' ch :
  prune cs es ul = (kept, ul', ch) →
  (∀ k, keyToUID ul' !! k =
        if decide (k ∈ key <$> filter (λ e, key e ∉ cs) es)
        then None else keyToUID ul !! k) ∧
  (∀ n, uidToKey ul' !! n =
        if decide (n ∈ uid <$> filter (λ e, key e ∉ cs) es)
        then None else uidToKey ul !! n).
Proof.
  revert ul kept ul' ch. induction es as [|e es IH]; cbn [prune]; intros ul kept ul' ch.
  { intros [= <- <- <-]. split; intros ?; case_decide; set_solver. }
  rewrite filter_cons. destruct (decide (key e ∈ cs)) as [Hin|Hout].
  - rewrite decide_False by tauto.
    destruct (prune cs es ul) as [[kept1 ul1] ch1] eqn:E.
    intros [= <- <- <-]. eapply IH, E.
  - rewrite decide_True by done.
    destruct (prune cs es (drop_entry ul e)) as [[kept1 ul1] ch1] eqn:E.
    intros [= <- <- <-]. destruct (IH _ _ _ _ E) as [H1 H2]. cbn [drop_entry keyToUID uidToKey] in *.
    split; intros x; rewrite ?H1, ?H2, fmap_cons; repeat case_decide;
      rewrite ?lookup_delete; repeat case_decide; set_solver.
Qed.

Lemma prune_wf ul kept ul' ch cs :
  wf ul → prune cs (entries ul) ul = (kept, ul', ch) → wf (with_entries kept ul').
Proof.
  intros [Hs Hb Hn Hk [Hi1 Hi2]] E.
  destruct (prune_kept _ _ _ _ _ _ E) as (-> & _ & _ & Hnx & _ & _).
  destruct (prune_lookup _ _ _ _ _ _ E) as [Hl1 Hl2].
  split; cbn [with_entries entries uidNext keyToUID uidToKey].
  - by apply StronglySorted_fmap_filter.
  - rewrite Hnx, Forall_forall in *. intros e [_ He]%list_elem_of_filter. auto.
  - by rewrite Hnx.
  - by apply NoDup_fmap_filter.
  - split; intros x y; cbn [with_entries entries keyToUID uidToKey];
      rewrite ?Hl1, ?Hl2, list_elem_of_filter; case_decide as Hd.
    + split; [done|]. intros [Hin Hent]. apply list_elem_of_fmap in Hd as (e & -> & He).
      apply list_elem_of_filter in He as [? ?]. done.
    + rewrite Hi1. split; [|by intros [??]]. intros Hent. split; [|done].
      destruct (decide (x ∈ cs)) as [|Hx]; [done|]. destruct Hd.
      apply list_elem_of_fmap. exists (mkEntry y x). by rewrite list_elem_of_filter.
    + split; [done|]. intros [Hin Hent]. apply list_elem_of_fmap in Hd as (e & -> & He).
      apply list_elem_of_filter in He as [Hout He].
      assert (mkEntry (uid e) y = e) as Heq by (by eapply sorted_uids_inj).
      destruct Hout. by rewrite <-Heq.
    + rewrite Hi2. split; [|by intros [??]]. intros Hent. split; [|done].
      destruct (decide (y ∈ cs)) as [|Hx]; [done|]. destruct Hd.
      apply list_elem_of_fmap. exists (mkEntry x y). by rewrite list_elem_of_filter.
Qed.

Lemma assign_key_wf ul k :
  wf ul → k ∉ key <$> entries ul → uidNext ul + 1 < 2 ^ 32 → wf (assign_key ul k).
Proof.
  intros [Hs Hb Hn Hk [Hi1 Hi2]] Hfresh Hmax.
  assert (wrap_uint32 (uidNext ul + 1) = uidNext ul + 1) as Hw
    by (apply wrap_uint32_small; unfold in_uint32; lia).
  assert (∀ k', mkEntry (uidNext ul) k' ∉ entries ul) as Hnew.
  { rewrite Forall_forall in Hb. intros k' Hin%Hb. simpl in Hin. lia. }
  assert (∀ n, mkEntry n k ∉ entries ul) as Hnewk.
  { intros n Hin. apply Hfresh, list_elem_of_fmap. by exists (mkEntry n k). }
  split; cbn [assign_key add_entry entries uidNext keyToUID uidToKey];
    rewrite ?Hw, ?fmap_snoc.
  - apply StronglySorted_app_2; [|done|by repeat constructor].
    intros x1 x2 H1 ->%list_elem_of_singleton.
    apply list_elem_of_fmap in H1 as (e & -> & He).
    rewrite Forall_forall in Hb. specialize (Hb _ He). simpl in *. lia.
  - apply Forall_app. split; [|by repeat constructor; simpl; lia].
    eapply Forall_impl; [exact Hb|]. simpl. lia.
  - lia.
  - apply NoDup_app. split_and!; [done| |apply NoDup_singleton].
    intros x Hx ->%list_elem_of_singleton. done.
  - split; intros x y; cbn [assign_key add_entry entries keyToUID uidToKey uid key];
      rewrite elem_of_app, list_elem_of_singleton, lookup_insert;
      case_decide; subst; naive_solver.
Qed.

Lemma assign_keys_spec ul ks :
  wf ul → NoDup ks → (∀ k, k ∈ ks → k ∉ key <$> entries ul) →
  uidNext ul + Z.of_nat (length ks) < 2 ^ 32 →
  let ul' := assign_keys ul ks in
  wf ul' ∧ version ul' = version ul ∧ uidValidity ul' = uidValidity ul ∧
  uidNext ul' = uidNext ul + Z.of_nat (length ks) ∧
  entries ul' = entries ul ++
    imap (λ i k, mkEntry (uidNext ul + Z.of_nat i) k) ks.
Proof.
  revert ul. induction ks as [|k ks IH]; intros ul Hwf Hnd Hfr Hmax ul'; simpl in *.
  { subst ul'. simpl. rewrite app_nil_r. split_and!; [done..|lia|done]. }
  apply NoDup_cons in Hnd as [Hnk Hnd].
  assert (wrap_uint32 (uidNext ul + 1) = uidNext ul + 1) as Hw.
  { apply wrap_uint32_small. destruct Hwf. unfold in_uint32. lia. }
  destruct (IH (assign_key ul k)) as (Hwf' & ? & ? & Hnx & He).
  - apply assign_key_wf; [done|set_solver|lia].
  - done.
  - intros k' Hk'. cbn. rewrite fmap_snoc, elem_of_app, list_elem_of_singleton.
    set_solver.
  - cbn. rewrite Hw. lia.
  - subst ul'. simpl. split_and!; [done..| |].
    + rewrite Hnx. cbn. rewrite Hw. lia.
    + rewrite He. cbn. rewrite Hw, <-app_assoc. simpl. rewrite Z.add_0_r.
      do 2 f_equal. apply imap_ext. intros i x _. cbn. f_equal. lia.
Qed.

(** What [reconcile] computes on a well-formed list. [fresh] is the sorted
    list of the keys that had no UID. *)
Lemma reconcile_shape cur ul :
  wf ul → NoDup cur → uidNext ul + Z.of_nat (length cur) < 2 ^ 32 →
  ∃ fresh,
    let ul' := (reconcile cur ul).2 in
    let kept := filter (λ e, key e ∈ (list_to_set cur : gset string)) (entries ul) in
    NoDup fresh ∧ StronglySorted String.le fresh ∧
    (∀ k, k ∈ fresh ↔ k ∈ cur ∧ keyToUID ul !! k = None) ∧
    wf ul' ∧ uidValidity ul' = uidValidity ul ∧ version ul' = version ul ∧
    uidNext ul' = uidNext ul + Z.of_nat (length fresh) ∧
    entries ul' = kept ++ imap (λ i k, mkEntry (uidNext ul + Z.of_nat i) k) fresh ∧
    ((reconcile cur ul).1 = false → ul' = ul).
Proof.
  intros Hwf Hnd Hmax. unfold reconcile.
  destruct (prune (list_to_set cur) (entries ul) ul) as [[kept ul1] ch] eqn:E.
  pose proof (prune_wf _ _ _ _ _ Hwf E) as Hwf2.
  destruct (prune_kept _ _ _ _ _ _ E) as (-> & Hv & Hva & Hnx & Hes & Hch).
  destruct (prune_lookup _ _ _ _ _ _ E) as [Hl1 _].
  set (kept := filter _ (entries ul)) in *. set (ul2 := with_entries kept ul1) in *.
  set (fresh := sort_Strings (newKeys ul2 cur)).
  assert (fresh ≡ₚ newKeys ul2 cur) as Hperm by apply merge_sort_Permutation.
  assert (∀ k, k ∈ fresh ↔ k ∈ cur ∧ keyToUID ul !! k = None) as Hfr.
  { intros k. rewrite Hperm. unfold newKeys. rewrite list_elem_of_filter.
    cbn. rewrite Hl1. case_decide as Hd; [|tauto].
    assert (k ∉ cur); [|tauto]. apply list_elem_of_fmap in Hd as (e & -> & He).
    apply list_elem_of_filter in He as [Hout _]. set_solver. }
  assert (NoDup fresh) as Hndf by (rewrite Hperm; by apply NoDup_filter).
  assert (Z.of_nat (length fresh) <= Z.of_nat (length cur)) as Hlen.
  { rewrite Hperm. unfold newKeys. apply inj_le, length_filter. }
  assert (∀ k, k ∈ fresh → k ∉ key <$> entries ul2) as Hnot.
  { intros k [_ Hk]%Hfr Hin. apply list_elem_of_fmap in Hin as (e & -> & He).
    cbn in He. apply list_elem_of_filter in He as [_ He].
    destruct Hwf as [_ _ _ _ [Hi _]]. rewrite <-(entry_eta e), <-Hi in He. congruence. }
  destruct (assign_keys_spec ul2 fresh Hwf2 Hndf Hnot) as (Hwf' & ? & ? & Hn & He).
  { cbn. rewrite Hnx. lia. }
  exists fresh. cbn in He, Hn. rewrite Hnx in He, Hn.
  assert ((match newKeys ul2 cur with [] => (ch, ul2)
     | ks => (true, assign_keys ul2 (sort_Strings ks)) end).2 = assign_keys ul2 fresh) as Hres.
  { unfold fresh. by destruct (newKeys ul2 cur). }
  cbn zeta. rewrite Hres. split_and!; try done.
  - apply (StronglySorted_merge_sort _).
  - by rewrite H0.
  - by rewrite H.
  - unfold fresh. destruct (newKeys ul2 cur); [|done]. intros Hf.
    destruct (Hch Hf) as [-> Hk]. unfold ul2. simpl.
    unfold assign_keys. simpl. rewrite Hk. by destruct ul.
Qed.

Lemma elem_of_fresh ul (fresh : list string) n k :
  mkEntry n k ∈ imap (λ i k, mkEntry (uidNext ul + Z.of_nat i) k) fresh ↔
  ∃ i, fresh !! i = Some k ∧ n = uidNext ul + Z.of_nat i.
Proof.
  rewrite list_elem_of_lookup. split.
  - intros [i Hi]. rewrite list_lookup_imap in Hi.
    destruct (fresh !! i) eqn:E; simplify_eq/=. eauto.
  - intros (i & Hi & ->). exists i. by rewrite list_lookup_imap, Hi.
Qed.

(** ** Round trip of the file format *)
Lemma parseHeader_render ul :
  wf ul → printable ul →
  parseHeader (render_header ul) =
  Ok (mkUidList (version ul) (uidValidity ul) (uidNext ul) [] ∅ ∅).
Proof.
  intros Hwf [Hv Hva Hh _]. destruct Hwf as [_ _ Hn _ _].
  unfold in_uint32 in *. unfold parseHeader, render_header.
  rewrite Fields_word by (try apply fmt_d_nonempty; try apply fmt_d_plain; lia).
  rewrite sapp_assoc, Fields_word by
    (try done; rewrite sforall_app, fmt_d_plain by lia; done).
  rewrite Fields_last by (try done; rewrite sforall_app, fmt_d_plain by lia; done).
  rewrite Atoi_fmt_d by lia. unfold parse_field. simpl.
  by rewrite !HasPrefix_nil, !ParseUint_fmt_d by lia.
Qed.

Lemma parseEntry_render e :
  in_uint32 (uid e) → key e ≠ "" → parseEntry (render_entry e) = Ok e.
Proof.
  unfold in_uint32. intros Hu Hk. unfold parseEntry, render_entry.
  rewrite cut_app by (apply fmt_d_no_byte; [done|lia]).
  rewrite ParseUint_fmt_d, decide_False by done. by rewrite entry_eta.
Qed.

Lemma render_entry_nonempty e : render_entry e ≠ "".
Proof. unfold render_entry. by destruct (fmt_d (uid e)). Qed.

Lemma parse_entries_render ul es :
  Forall (λ e, in_uint32 (uid e) ∧ key e ≠ "") es →
  parse_entries ul (render_entry <$> es) = Ok (foldl add_entry ul es).
Proof.
  intros Hes. revert ul. induction Hes as [|e es [Hu Hk] _ IH]; intros ul; [done|].
  cbn. rewrite decide_False by apply render_entry_nonempty.
  rewrite parseEntry_render by done. apply IH.
Qed.

Lemma foldl_add_entry_fields ul es :
  let ul' := foldl add_entry ul es in
  version ul' = version ul ∧ uidValidity ul' = uidValidity ul ∧
  uidNext ul' = uidNext ul ∧ entries ul' = entries ul ++ es ∧
  (indexed ul → NoDup (key <$> entries ul ++ es) →
   StronglySorted Z.lt (uid <$> entries ul ++ es) → indexed ul').
Proof.
  revert ul. induction es as [|e es IH]; intros ul; simpl.
  { rewrite app_nil_r. by split_and!. }
  destruct (IH (add_entry ul e)) as (-> & -> & -> & -> & Hi). cbn in *.
  rewrite <-app_assoc in *. split_and!; [done..|]. intros [H1 H2] Hk Hs.
  apply Hi; [|done..]. rewrite !fmap_app in *.
  apply NoDup_app in Hk as (_ & Hk & _). apply StronglySorted_app in Hs as (Hs & _).
  split; intros x y; cbn; rewrite elem_of_app, list_elem_of_singleton, lookup_insert;
    case_decide; subst; rewrite ?H1, ?H2.
  - split; [intros [= <-]; right; by rewrite entry_eta|]. intros [Hin| <-]; [|done].
    destruct (Hk (key e)); [|set_solver]. apply list_elem_of_fmap. by exists (mkEntry y (key e)).
  - naive_solver.
  - split; [intros [= <-]; right; by rewrite entry_eta|]. intros [Hin| <-]; [|done].
    specialize (Hs (uid e) (uid e)). rewrite !list_elem_of_fmap in Hs. exfalso.
    apply (Z.lt_irrefl (uid e)), Hs; [by exists (mkEntry (uid e) y)|set_solver].
  - naive_solver.
Qed.

(** Two indexed lists with the same entries are equal. *)
Lemma uidList_ext u1 u2 :
  indexed u1 → indexed u2 → version u1 = version u2 →
  uidValidity u1 = uidValidity u2 → uidNext u1 = uidNext u2 →
  entries u1 = entries u2 → u1 = u2.
Proof.
  destruct u1 as [??? e k1 m1], u2 as [??? e' k2 m2]. unfold indexed. simpl.
  intros [H1 H2] [H3 H4] -> -> -> ->. f_equal; apply map_eq; intros i;
    apply option_eq; intros x; rewrite ?H1, ?H2, ?H3, ?H4; done.
Qed.

(** Repeated reconciliations, as successive sessions perform them. *)
Definition reconcile_all (curs : list (list string)) (ul : uidList) : uidList :=
  foldl (λ u c, (reconcile c u).2) ul curs.
(** How many UIDs they hand out: one for each key that has none when it is found. *)
Definition kept_part (cur : list string) (ul : uidList) : uidList :=
  let '(kept, ul1, _) := prune (list_to_set cur) (entries ul) ul in with_entries kept ul1.
Fixpoint handed_out (curs : list (list string)) (ul : uidList) : Z :=
  match curs with
  | [] => 0
  | c :: curs => Z.of_nat (length (newKeys (kept_part c ul) c)) + handed_out curs (reconcile c ul).2
  end.

(** The part of well-formedness that says which message a UID names. It is kept
    for listings in which a key is repeated, too. *)
Record names_once (ul : uidList) : Prop := {
  no_sorted : StronglySorted Z.lt (uid <$> entries ul);
  no_bound : Forall (λ e, 1 <= uid e < uidNext ul) (entries ul);
  no_next : 1 <= uidNext ul < 2 ^ 32;
  no_index : ∀ n k, uidToKey ul !! n = Some k ↔ mkEntry n k ∈ entries ul;
}.
Lemma wf_names_once ul : wf ul → names_once ul.
Proof. intros [? ? ? _ [_ ?]]. by split. Qed.
(** Nothing but entries that were there, or that have a UID not used before. *)
Definition grows (ul ul' : uidList) : Prop :=
  ∀ n k, mkEntry n k ∈ entries ul' → mkEntry n k ∈ entries ul ∨ uidNext ul <= n.

Lemma kept_names_once cur ul :
  names_once ul → names_once (kept_part cur ul) ∧ uidNext (kept_part cur ul) = uidNext ul ∧ grows ul (kept_part cur ul).
Proof.
  intros [Hs Hb Hn Hi]. unfold kept_part.
  destruct (prune _ (entries ul) ul) as [[kept ul1] ch] eqn:E.
  destruct (prune_kept _ _ _ _ _ _ E) as (-> & _ & _ & Hnx & _ & _).
  destruct (prune_lookup _ _ _ _ _ _ E) as [_ Hl].
  split; [|split; [done|intros n k [_ ?]%list_elem_of_filter; by left]].
  split; cbn [with_entries entries uidNext uidToKey]; [by apply StronglySorted_fmap_filter| |by rewrite Hnx|].
  - rewrite Hnx, Forall_forall in *. intros e [_ He]%list_elem_of_filter. auto.
  - intros x y. rewrite Hl, list_elem_of_filter, <- Hi. case_decide as Hd.
    + split; [done|]. intros [Hin Hent%Hi]. apply list_elem_of_fmap in Hd as (e & -> & [Hout He]%list_elem_of_filter).
      assert (mkEntry (uid e) y = e) as Heq by (by eapply sorted_uids_inj). destruct Hout. by rewrite <- Heq.
    + split; [|by intros [??]]. intros Hent. split; [|done]. destruct (decide (y ∈ (list_to_set cur : gset string))); [done|].
      destruct Hd. apply list_elem_of_fmap. exists (mkEntry x y). split; [done|]. apply list_elem_of_filter.
      split; [done|by apply Hi].
Qed.
Lemma assign_names_once ul k :
  names_once ul → uidNext ul + 1 < 2 ^ 32 →
  names_once (assign_key ul k) ∧ uidNext (assign_key ul k) = uidNext ul + 1 ∧ grows ul (assign_key ul k).
Proof.
  intros [Hs Hb Hn Hi] Hmax.
  assert (wrap_uint32 (uidNext ul + 1) = uidNext ul + 1) as Hw
    by (apply wrap_uint32_small; unfold in_uint32; lia).
  rewrite Forall_forall in Hb. split; [|split; [exact Hw|]].
  - split; cbn [assign_key add_entry entries uidNext uidToKey]; rewrite ?Hw, ?fmap_snoc.
    + apply StronglySorted_app_2; [|done|by repeat constructor].
      intros x1 x2 (e & -> & He)%list_elem_of_fmap ->%list_elem_of_singleton. specialize (Hb _ He). simpl in *. lia.
    + apply Forall_forall. intros e [He| ->%list_elem_of_singleton]%elem_of_app; [specialize (Hb _ He); lia|simpl; lia].
    + lia.
    + intros x y. cbn [uid key]. rewrite elem_of_app, list_elem_of_singleton, lookup_insert. case_decide as Hx; subst.
      * split; [intros [= <-]; by right|]. intros [Hin%Hb|[= ->]]; [simpl in Hin; lia|done].
      * rewrite Hi. split; [by left|]. intros [?|Heq]; [done|by injection Heq as ->].
  - intros n y [?|[= -> ->]%list_elem_of_singleton]%elem_of_app; [by left|right; lia].
Qed.
Lemma assign_all_names_once ul ks :
  names_once ul → uidNext ul + Z.of_nat (length ks) < 2 ^ 32 →
  names_once (assign_keys ul ks) ∧ uidNext (assign_keys ul ks) = uidNext ul + Z.of_nat (length ks) ∧
  grows ul (assign_keys ul ks).
Proof.
  revert ul. induction ks as [|k ks IH]; intros ul Hul Hmax; cbn [length] in *.
  { split_and!; [done|cbn; lia|intros ? ? ?; by left]. }
  destruct (assign_names_once ul k Hul) as (Hul' & Hn & Hg); [lia|].
  destruct (IH (assign_key ul k) Hul') as (Hul2 & Hn2 & Hg2); [lia|].
  change (assign_keys ul (k :: ks)) with (assign_keys (assign_key ul k) ks).
  split_and!; [done|lia|].
  intros n y [?%Hg|]%Hg2; [done|right; lia].
Qed.
Lemma reconcile_names_once cur ul :
  names_once ul → uidNext ul + Z.of_nat (length (newKeys (kept_part cur ul) cur)) < 2 ^ 32 →
  let ul' := (reconcile cur ul).2 in
  names_once ul' ∧ uidNext ul' = uidNext ul + Z.of_nat (length (newKeys (kept_part cur ul) cur)) ∧ grows ul ul'.
Proof.
  intros Hul Hmax. destruct (kept_names_once cur ul Hul) as (Hk & Hkn & Hkg). cbn zeta.
  assert ((reconcile cur ul).2 = assign_keys (kept_part cur ul) (sort_Strings (newKeys (kept_part cur ul) cur))) as ->.
  { unfold reconcile, kept_part. destruct (prune _ _ _) as [[kept ul1] ch]. cbv zeta. by destruct (newKeys (with_entries kept ul1) cur). }
  assert (length (sort_Strings (newKeys (kept_part cur ul) cur)) = length (newKeys (kept_part cur ul) cur)) as El
    by (apply Permutation_length, merge_sort_Permutation).
  destruct (assign_all_names_once (kept_part cur ul) (sort_Strings (newKeys (kept_part cur ul) cur)) Hk) as (Ha & Han & Hag).
  { rewrite El. lia. }
  rewrite El in Han. split_and!; [done|lia|]. intros n y [?%Hkg|]%Hag; [done|right; lia].
Qed.
Lemma handed_out_nonneg curs ul : 0 <= handed_out curs ul.
Proof. revert ul. induction curs as [|c curs IH]; intros ul; cbn [handed_out]; [lia|]. specialize (IH (reconcile c ul).2). lia. Qed.
Lemma reconcile_all_names_once ul curs :
  names_once ul → uidNext ul + handed_out curs ul < 2 ^ 32 →
  names_once (reconcile_all curs ul) ∧ grows ul (reconcile_all curs ul).
Proof.
  revert ul. induction curs as [|c curs IH]; intros ul Hul Hmax; cbn [handed_out] in Hmax; [split; [done|intros ? ? ?; by left]|].
  pose proof (handed_out_nonneg curs (reconcile c ul).2).
  destruct (reconcile_names_once c ul Hul) as (Hul' & Hn & Hg); [lia|].
  destruct (IH (reconcile c ul).2 Hul') as [Hul2 Hg2]; [lia|].
  split; [done|]. intros n y [?%Hg|]%Hg2; [done|right; lia].
Qed.

Lemma empty_ul_wf v validity : wf (mkUidList v validity 1 [] ∅ ∅).
Proof.
  split; cbn [entries uidNext fmap list_fmap]; [constructor|constructor|lia|constructor|].
  split; intros ??; simpl; rewrite lookup_empty; set_solver.
Qed.

(** A bootstrapped list is well formed and covers exactly the keys. *)
Lemma bootstrap_wf now cur :
  NoDup cur → 1 + Z.of_nat (length cur) < 2 ^ 32 → wf (bootstrapUIDList now cur).
Proof.
  intros Hnd Hlen. unfold bootstrapUIDList.
  assert (sort_Strings cur ≡ₚ cur) as Hp by apply merge_sort_Permutation.
  apply assign_keys_spec; [apply empty_ul_wf|by rewrite Hp|set_solver|].
  by rewrite Hp.
Qed.

(** A concrete folder, used by the witnesses. *)
Definition sample_ul : uidList :=
  bootstrapUIDList 1700000000 ["1700.b"; "1600.a"].

Lemma sample_ul_wf : wf sample_ul.
Proof. apply bootstrap_wf; [repeat constructor; set_solver|done]. Qed.

(** C1 (invariant): reconciling a well-formed UID list with the distinct keys
    found in [cur/], while 32-bit UIDs last, yields a well-formed list (UIDs
    strictly increasing and below [uidNext], keys distinct, both indexes
    exactly the entries) whose keys are exactly those of [cur/]; every key that
    was already listed keeps its UID, every new key gets a UID that was never
    handed out before, new UIDs follow the lexicographic (chronological) order
    of the keys, and UIDVALIDITY is unchanged. *)
Theorem reconcile_correct (cur : list string) (ul : uidList)
    (Hwf : wf ul) (Hcur : NoDup cur)
    (Hroom : uidNext ul + Z.of_nat (length cur) < 2 ^ 32) :
  let ul' := (reconcile cur ul).2 in
  wf ul' ∧
  (∀ k, is_Some (keyToUID ul' !! k) ↔ k ∈ cur) ∧
  (∀ k n, k ∈ cur → keyToUID ul !! k = Some n → keyToUID ul' !! k = Some n) ∧
  (∀ k n, keyToUID ul !! k = None → keyToUID ul' !! k = Some n →
     uidNext ul <= n < uidNext ul') ∧
  (∀ k1 k2 n1 n2, keyToUID ul !! k1 = None → keyToUID ul !! k2 = None →
     keyToUID ul' !! k1 = Some n1 → keyToUID ul' !! k2 = Some n2 →
     n1 < n2 → String.le k1 k2) ∧
  uidValidity ul' = uidValidity ul.
Proof.
  cbn zeta.
  destruct (reconcile_shape cur ul Hwf Hcur Hroom)
    as (fresh & Hndf & Hsort & Hfr & Hwf' & Hva & _ & Hnx & He & _).
  set (ul' := (reconcile cur ul).2) in *.
  pose proof (wf_indexed _ Hwf') as [Hi' _]. pose proof (wf_indexed _ Hwf) as [Hi _].
  assert (∀ k n, keyToUID ul' !! k = Some n ↔
    (k ∈ cur ∧ keyToUID ul !! k = Some n) ∨
    ∃ i, fresh !! i = Some k ∧ n = uidNext ul + Z.of_nat i) as Hlook.
  { intros k n. rewrite Hi', Hi, He, elem_of_app, elem_of_fresh, list_elem_of_filter.
    by rewrite elem_of_list_to_set. }
  assert (∀ k n, keyToUID ul !! k = None → keyToUID ul' !! k = Some n →
    ∃ i, fresh !! i = Some k ∧ n = uidNext ul + Z.of_nat i) as Hnew.
  { intros k n Hk [[_ ?]|?]%Hlook; [congruence|done]. }
  split_and!; [done| | | | |done].
  - intros k. split.
    + intros [n [[? _]|(i & Hk & _)]%Hlook]; [done|].
      apply list_elem_of_lookup_2, Hfr in Hk. tauto.
    + intros Hk. destruct (keyToUID ul !! k) as [n|] eqn:E.
      * exists n. apply Hlook. auto.
      * assert (k ∈ fresh) as [i Hf]%list_elem_of_lookup by (apply Hfr; auto).
        eexists. apply Hlook. right. eauto.
  - intros k n Hk Hn. apply Hlook. auto.
  - intros k n Hk Hn. destruct (Hnew k n Hk Hn) as (i & Hf%lookup_lt_Some & ->). lia.
  - intros k1 k2 n1 n2 Hk1 Hk2 Hn1 Hn2 Hlt.
    destruct (Hnew _ _ Hk1 Hn1) as (i & Hf1 & ->).
    destruct (Hnew _ _ Hk2 Hn2) as (j & Hf2 & ->).
    rewrite <-(take_drop j fresh) in Hsort. apply StronglySorted_app in Hsort as [Hall _].
    apply Hall; apply list_elem_of_lookup; [exists i|exists 0%nat].
    + by rewrite lookup_take_lt by lia.
    + by rewrite lookup_drop, Nat.add_0_r.
Qed.

Lemma reconcile_correct_witness :
  let ul' := (reconcile ["1700.b"; "1800.c"] sample_ul).2 in
  keyToUID ul' !! "1700.b" = Some 2 ∧ keyToUID ul' !! "1800.c" = Some 3 ∧ wf ul'.
Proof.
  destruct (reconcile_correct ["1700.b"; "1800.c"] sample_ul) as [Hwf _].
  - apply sample_ul_wf.
  - repeat constructor; set_solver.
  - vm_compute. done.
  - split_and!; [vm_compute; reflexivity|vm_compute; reflexivity|exact Hwf].
Defined.

(** C2 (safety): across any sequence of reconciliations with whatever listings, as
    long as the 32-bit counter is not used up (each key costs one UID, when it is
    first found), a UID is never reused: if a UID named one key and names a key
    later, it is the same key. Beyond that the counter wraps and UIDs return
    ([uid_counter_wraps]). *)
Theorem uid_never_reused (ul : uidList) (curs : list (list string)) (n : Z)
    (k k' : string) (Hwf : wf ul)
    (Hroom : uidNext ul + handed_out curs ul < 2 ^ 32)
    (Hbefore : uidToKey ul !! n = Some k)
    (Hafter : uidToKey (reconcile_all curs ul) !! n = Some k') :
  k = k'.
Proof.
  apply wf_names_once in Hwf. destruct (reconcile_all_names_once ul curs Hwf Hroom) as [Hwf' Hin].
  apply (no_index _ Hwf') in Hafter. apply (no_index _ Hwf) in Hbefore.
  pose proof (no_bound _ Hwf) as Hb. rewrite Forall_forall in Hb.
  specialize (Hb _ Hbefore). destruct (Hin _ _ Hafter) as [Hold|]; [|simpl in Hb; lia].
  assert (mkEntry n k = mkEntry n k') as [= ?]; [|done].
  eapply sorted_uids_inj; [apply no_sorted, Hwf|done..].
Qed.

Lemma uid_never_reused_witness :
  uidToKey (reconcile_all [["1700.b"; "1800.c"]; ["1700.b"; "1700.b"]] sample_ul) !! 2
    = Some "1700.b" ∧ "1700.b" = "1700.b".
Proof.
  split; [vm_compute; reflexivity|].
  apply (uid_never_reused sample_ul [["1700.b"; "1800.c"]; ["1700.b"; "1700.b"]] 2).
  - apply sample_ul_wf.
  - vm_compute. done.
  - vm_compute. reflexivity.
  - vm_compute. reflexivity.
Defined.

(** *** The counter wraps

    [u.uidNext++] on a [uint32]: after the last UID come 0, which IMAP does not
    allow, and then UIDs that name other messages, under the same UIDVALIDITY. *)
Definition last_uid : uidList := add_entry (mkUidList 3 1700000000 (2 ^ 32 - 1) [] ∅ ∅) (mkEntry 1 "1600.a").
Lemma uid_counter_wraps :
  let ul' := (reconcile ["1600.a"; "1700.b"; "1700.c"; "1700.d"] last_uid).2 in
  uidToKey last_uid !! 1 = Some "1600.a" ∧ uidToKey ul' !! 0 = Some "1700.c" ∧
  uidToKey ul' !! 1 = Some "1700.d" ∧ uidValidity ul' = uidValidity last_uid.
Proof. vm_compute. done. Qed.

(** Parsing inverts rendering. *)
Lemma parse_render ul : wf ul → printable ul → parseUIDList (render ul) = Ok ul.
Proof.
  intros Hwf Hpr.
  unfold parseUIDList, render. pose proof Hpr as [_ _ Hh He].
  rewrite ScanLines_unlines.
  2:{ constructor; [done|]. apply Forall_fmap. eapply Forall_impl; [exact He|].
      by intros e [_ ?]. }
  unfold render_lines. rewrite parseHeader_render by done.
  rewrite parse_entries_render.
  2:{ pose proof (wf_bound _ Hwf) as Hb. pose proof (wf_next _ Hwf).
      rewrite Forall_forall in *. intros e Hin. specialize (Hb _ Hin).
      specialize (He _ Hin). unfold in_uint32. destruct He. split; [lia|done]. }
  match goal with |- Ok (foldl add_entry ?u0 _) = _ => set (ul0 := u0) end.
  destruct (foldl_add_entry_fields ul0 (entries ul)) as (Hv & Hva & Hn & Hes & Hi).
  f_equal. apply uidList_ext; [|apply Hwf|done..].
  apply Hi; [|apply Hwf..]. split; intros ??; cbn; rewrite lookup_empty; set_solver.
Qed.

(** ** The write protocol under I/O faults *)
Lemma sys_files w r w' : sys w = (r, w') → files w' = files w.
Proof. unfold sys. destruct (faults w); by intros [= <- <-]. Qed.

(** A folder [w'] that differs from [w] at most in the temporary file. *)
Definition only_tmp (w w' : folder) : Prop :=
  ∀ f, f ≠ uidlistTmpFile → files w' !! f = files w !! f.

Lemma only_tmp_refl w : only_tmp w w.
Proof. done. Qed.
Lemma only_tmp_sys w w0 r w' : sys w0 = (r, w') → only_tmp w w0 → only_tmp w w'.
Proof. intros H%sys_files Ho f Hf. rewrite H. auto. Qed.
Lemma only_tmp_insert w w0 s :
  only_tmp w w0 → only_tmp w (set_files <[uidlistTmpFile := s]> w0).
Proof. intros Ho f Hf. simpl. rewrite lookup_insert_ne by done. auto. Qed.
Lemma only_tmp_remove w w0 :
  only_tmp w w0 → only_tmp w (os_remove uidlistTmpFile w0).
Proof.
  intros Ho. unfold os_remove. destruct (sys w0) as [r w1] eqn:E.
  eapply only_tmp_sys in E; [|done]. destruct r; [|done].
  intros f Hf. simpl. rewrite lookup_delete_ne by done. by apply E.
Qed.
#[local] Hint Resolve only_tmp_refl only_tmp_insert only_tmp_remove : mail.

Lemma fprintf_lines_only_tmp content ls w w0 o w' :
  fprintf_lines content ls w0 = (o, w') → only_tmp w w0 →
  only_tmp w w' ∧ (∀ wf, o = Some wf → only_tmp w wf).
Proof.
  revert w0. induction ls as [|l ls IH]; simpl; intros w0.
  { by intros [= <- <-]. }
  destruct (sys w0) as [[|n] w1] eqn:E; intros Heq Ho;
    eapply only_tmp_sys in E; try done; [eauto|].
  injection Heq as <- <-. split; [done|]. intros ? [= <-]. auto with mail.
Qed.

(** Whatever system calls fail, [write] is atomic: on success
    [.uidlist] holds exactly the rendered list and the temporary file is gone;
    on an error [.uidlist] is untouched; in both cases no other file of the
    folder changes. *)
Lemma write_atomic (ul : uidList) (w : folder) :
  let '(r, w') := write ul w in
  match r with
  | Ok _ => files w' !! uidlistFile = Some (render ul) ∧
            files w' !! uidlistTmpFile = None
  | Err _ => files w' !! uidlistFile = files w !! uidlistFile
  end ∧
  (∀ f, f ≠ uidlistFile → f ≠ uidlistTmpFile → files w' !! f = files w !! f).
Proof.
  assert (∀ w', only_tmp w w' →
    files w' !! uidlistFile = files w !! uidlistFile ∧
    (∀ f, f ≠ uidlistFile → f ≠ uidlistTmpFile → files w' !! f = files w !! f)) as Htmp.
  { intros w' Ho. split; [by apply Ho|]. intros f _ Hf. by apply Ho. }
  unfold write. destruct (sys w) as [[|n] w1] eqn:E1;
    eapply only_tmp_sys in E1; try apply only_tmp_refl; [|by apply Htmp].
  destruct (fprintf_lines _ _ _) as [o w2] eqn:E2.
  eapply fprintf_lines_only_tmp in E2 as [H2 Ho]; [|by apply only_tmp_insert].
  destruct o as [wf'|]; [by apply Htmp; auto with mail|].
  destruct (sys w2) as [[|n] w3] eqn:E3; eapply only_tmp_sys in E3; try done;
    [|by apply Htmp; auto with mail].
  destruct (sys (set_files _ w3)) as [[|n] w4] eqn:E4; eapply only_tmp_sys in E4;
    try (by apply only_tmp_insert); [|by apply Htmp; auto with mail].
  destruct (sys w4) as [[|n] w5] eqn:E5; eapply only_tmp_sys in E5; try done;
    [|by apply Htmp; auto with mail].
  destruct (sys w5) as [[|n] w6] eqn:E6; eapply only_tmp_sys in E6; try done;
    [|by apply Htmp].
  simpl. rewrite lookup_insert_eq, lookup_insert_ne, lookup_delete_eq by done.
  split; [done|]. intros f H1 H3. rewrite lookup_insert_ne, lookup_delete_ne by done.
  by apply E6.
Qed.

(** Without faults, every system call succeeds. *)
Lemma sys_no_fault fs : sys (mkFolder fs []) = (Done, mkFolder fs []).
Proof. done. Qed.

Lemma fprintf_no_fault content ls fs :
  fprintf_lines content ls (mkFolder fs []) = (None, mkFolder fs []).
Proof. induction ls; simpl; auto. Qed.

Lemma write_no_fault ul fs :
  write ul (mkFolder fs []) =
  (Ok (), mkFolder (<[uidlistFile := render ul]> (delete uidlistTmpFile fs)) []).
Proof.
  unfold write. rewrite sys_no_fault. unfold set_files at 1. cbn [files faults].
  rewrite fprintf_no_fault, sys_no_fault. cbn. unfold set_files. cbn.
  by rewrite insert_insert_eq, delete_insert_eq.
Qed.

Lemma readUIDList_no_fault fs :
  readUIDList (mkFolder fs []) =
  (match fs !! uidlistFile with
   | None => Ok None
   | Some c => match parseUIDList c with Ok u => Ok (Some u) | Err e => Err e end
   end, mkFolder fs []).
Proof. unfold readUIDList. cbn. by destruct (fs !! uidlistFile). Qed.

(** On a working disk, writing a well-formed printable UID
    list and reading the folder again gives back exactly that list, both
    indexes included. *)
Lemma uidlist_roundtrip (ul : uidList) (fs : gmap string string)
    (Hwf : wf ul) (Hpr : printable ul) :
  let '(r, w') := write ul (mkFolder fs []) in
  r = Ok () ∧ (readUIDList w').1 = Ok (Some ul).
Proof.
  rewrite write_no_fault. split; [done|].
  by rewrite readUIDList_no_fault, lookup_insert_eq, parse_render.
Qed.

Lemma sample_ul_printable : printable sample_ul.
Proof.
  split; [vm_compute; split; done|vm_compute; split; done|vm_compute; split_and!; done|].
  repeat constructor; vm_compute; done.
Qed.

Lemma uidlist_roundtrip_example :
  (readUIDList (write sample_ul (mkFolder ∅ [])).2).1 = Ok (Some sample_ul).
Proof.
  pose proof (uidlist_roundtrip sample_ul ∅ sample_ul_wf sample_ul_printable) as H.
  destruct (write sample_ul (mkFolder ∅ [])) as [r w']. exact (proj2 H).
Defined.

(** Loading on a working disk: the stored list reconciled with [cur/], and
    the file that holds it afterwards. *)
Lemma load_no_fault now cur ul fs :
  wf ul → printable ul → NoDup cur → uidNext ul + Z.of_nat (length cur) < 2 ^ 32 →
  fs !! uidlistFile = Some (render ul) →
  ∃ fs', loadOrBootstrapUIDList now cur (mkFolder fs []) = (Ok (reconcile cur ul).2, mkFolder fs' []) ∧
         fs' !! uidlistFile = Some (render (reconcile cur ul).2).
Proof.
  intros Hwf Hpr Hcur Hroom Hfile.
  unfold loadOrBootstrapUIDList. rewrite readUIDList_no_fault, Hfile, parse_render by done.
  destruct (reconcile_shape cur ul Hwf Hcur Hroom) as (? & _ & _ & _ & _ & _ & _ & _ & _ & Hch).
  destruct (reconcile cur ul) as [ch ul']. cbn [fst snd] in *. destruct ch.
  - rewrite write_no_fault. eexists. split; [done|]. by rewrite lookup_insert_eq.
  - rewrite (Hch eq_refl). by eauto.
Qed.

(** On a working disk, loading the UID list of a folder
    returns the stored list reconciled with [cur/], and what is on disk
    afterwards reads back as exactly the returned list. *)
Lemma load_persists (now : Z) (cur : list string) (ul : uidList)
    (fs : gmap string string) (Hwf : wf ul) (Hpr : printable ul)
    (Hcur : NoDup cur) (Hroom : uidNext ul + Z.of_nat (length cur) < 2 ^ 32)
    (Hfile : fs !! uidlistFile = Some (render ul))
    (Hpr' : printable (reconcile cur ul).2) :
  let '(r, w') := loadOrBootstrapUIDList now cur (mkFolder fs []) in
  r = Ok (reconcile cur ul).2 ∧
  (readUIDList w').1 = Ok (Some (reconcile cur ul).2).
Proof.
  destruct (load_no_fault now cur ul fs) as (fs' & -> & Hfs'); [done..|].
  destruct (reconcile_shape cur ul Hwf Hcur Hroom) as (? & _ & _ & _ & Hwf' & _).
  by rewrite readUIDList_no_fault, Hfs', parse_render.
Qed.

Lemma load_persists_example :
  (loadOrBootstrapUIDList 9 ["1700.b"; "1800.c"]
     (mkFolder {[uidlistFile := render sample_ul]} [])).1
  = Ok (reconcile ["1700.b"; "1800.c"] sample_ul).2.
Proof.
  pose proof (load_persists 9 ["1700.b"; "1800.c"] sample_ul {[uidlistFile := render sample_ul]}
    sample_ul_wf sample_ul_printable) as H.
  destruct (loadOrBootstrapUIDList 9 _ _) as [r w']. apply H.
  - repeat constructor; set_solver.
  - vm_compute. done.
  - apply lookup_singleton_eq.
  - split; [vm_compute; split; done|vm_compute; split; done|vm_compute; split_and!; done|].
    repeat constructor; vm_compute; done.
Defined.

(** A failed [open] of an intact [.uidlist] is handled as a corrupt file: the
    file is removed and every message gets a new UID under a new UIDVALIDITY. *)
Lemma open_fault_reassigns_uids :
  let w := mkFolder {[uidlistFile := render sample_ul]} [Fault 0] in
  keyToUID sample_ul !! "1700.b" = Some 2 ∧ uidValidity sample_ul = 1700000000 ∧
  ∃ ul', (loadOrBootstrapUIDList 1800000000 ["1700.b"] w).1 = Ok ul' ∧
         keyToUID ul' !! "1700.b" = Some 1 ∧ uidValidity ul' = 1800000000.
Proof.
  split; [vm_compute; reflexivity|]. split; [vm_compute; reflexivity|].
  eexists. split; [vm_compute; reflexivity|]. by vm_compute.
Qed.

(** Two files with one key (the same message under two flag sets) are listed
    twice and the key resolves to the second UID only. *)
Lemma duplicate_keys_listed_twice :
  let cur := curDirKeys (Some [("17.a:2,", false); ("17.a:2,S", false)]) in
  let ul := bootstrapUIDList 5 cur in
  cur = ["17.a"; "17.a"] ∧ (key <$> entries ul) = ["17.a"; "17.a"] ∧
  keyToUID ul !! "17.a" = Some 2.
Proof. by vm_compute. Qed.
