(* ===== verification/MsgStore.v ===== *)
(** * The message-store interface

    [msgstore.MessageStore], [msgstore.FolderStore] and [io.Closer] as the
    daemons use them (src/msgstore/store.go), together with the login call
    that yields a store (the session-manager client). A store lives in a world
    [W]; a handle [H] refers to it; every operation passes the world on.

    [Backend] is the interface a protocol daemon is written against.
    [BackendObs] states what a daemon may rely on: an observation of the world
    (the messages of the mailbox, for instance) that logging in, listing,
    reading and logging out do not change. [Logged] turns any backend into one
    that also records the calls made on it. *)
From S2P Require Import Prelude GoStrings.
From Stdlib Require Import ZArith.
Open Scope string_scope.
Open Scope list_scope.
Open Scope Z_scope.

(** An [error] of a collaborator: only its text is ever used. *)
Definition serr := string.

(** The metadata of a message. [InternalDate] is in seconds. *)
Record MessageInfo := mkInfo {
  UID : Z;                 (* uint32 *)
  Key : string;
  Size : Z;                (* int64 *)
  Flags : list string;
  InternalDate : Z;
}.
#[export] Instance MessageInfo_eq_dec : EqDecision MessageInfo.
Proof. solve_decision. Defined.

(** What [Retrieve] returns: a reader that delivers a content, or one whose
    first [Read] fails. A reader that fails after part of the content is not
    represented: a consumer that stops early (POP3's TOP) might not notice. *)
Inductive reader :=
| Content (data : string)
| ReadFails (e : serr).
#[export] Instance reader_eq_dec : EqDecision reader.
Proof. solve_decision. Defined.

(** The folder operations a store may additionally offer. *)
Record FolderOps (W : Type) := mkFolderOps {
  ListFolders : string → W → result (list string) serr * W;
  ListInFolder : string → string → W → result (list MessageInfo) serr * W;
  RetrieveFromFolder : string → string → Z → W → result reader serr * W;
  DeleteInFolder : string → string → Z → W → option serr * W;
  ExpungeFolder : string → string → W → option serr * W;
  StatFolder : string → string → W → result (Z * Z) serr * W;
}.
Arguments ListFolders {W}. Arguments ListInFolder {W}.
Arguments RetrieveFromFolder {W}. Arguments DeleteInFolder {W}.
Arguments ExpungeFolder {W}. Arguments StatFolder {W}.

Class Backend (H W : Type) := {
  be_login : string → string → string → W → result (string * H) serr * W;
  be_List : H → string → W → result (list MessageInfo) serr * W;
  be_Retrieve : H → string → Z → W → result reader serr * W;
  be_Delete : H → string → Z → W → option serr * W;
  be_Expunge : H → string → W → option serr * W;
  be_Stat : H → string → W → result (Z * Z) serr * W;
  be_folders : H → option (FolderOps W);      (* store.(msgstore.FolderStore) *)
  be_close : H → option (W → option serr * W) (* store.(io.Closer) *)
}.

(** ** A store reference, and the folder adapter of pop3d *)
Inductive store (H W : Type) : Type :=
| Direct (h : H)
| InFolder (fs : FolderOps W) (folder : string).
Arguments Direct {H W} h.
Arguments InFolder {H W} fs folder.

Section Store.
Context {H W : Type} `{Backend H W}.

Definition st_List (s : store H W) (mailbox : string) (w : W)
    : result (list MessageInfo) serr * W :=
  match s with
  | Direct h => be_List h mailbox w
  | InFolder fs folder => ListInFolder fs mailbox folder w
  end.

Definition st_Retrieve (s : store H W) (mailbox : string) (uid : Z) (w : W)
    : result reader serr * W :=
  match s with
  | Direct h => be_Retrieve h mailbox uid w
  | InFolder fs folder => RetrieveFromFolder fs mailbox folder uid w
  end.

Definition st_Delete (s : store H W) (mailbox : string) (uid : Z) (w : W)
    : option serr * W :=
  match s with
  | Direct h => be_Delete h mailbox uid w
  | InFolder fs folder => DeleteInFolder fs mailbox folder uid w
  end.

Definition st_Expunge (s : store H W) (mailbox : string) (w : W) : option serr * W :=
  match s with
  | Direct h => be_Expunge h mailbox w
  | InFolder fs folder => ExpungeFolder fs mailbox folder w
  end.

Definition st_Stat (s : store H W) (mailbox : string) (w : W)
    : result (Z * Z) serr * W :=
  match s with
  | Direct h => be_Stat h mailbox w
  | InFolder fs folder => StatFolder fs mailbox folder w
  end.

(** The adapter does not implement [io.Closer]. *)
Definition st_Closer (s : store H W) : option (W → option serr * W) :=
  match s with
  | Direct h => be_close h
  | InFolder _ _ => None
  end.
End Store.

(** ** What a client may rely on *)
Class BackendObs (H W X : Type) `{Backend H W} := {
  obs : W → X;
  obs_login u p ip w : obs (be_login u p ip w).2 = obs w;
  obs_List h m w : obs (be_List h m w).2 = obs w;
  obs_Retrieve h m uid w : obs (be_Retrieve h m uid w).2 = obs w;
  obs_close h f w : be_close h = Some f → obs (f w).2 = obs w;
}.

(** ** Recording the calls *)
Inductive call :=
| CLogin (user pass ip : string) (mailbox : option string)
| CList (mailbox : string)
| CRetrieve (mailbox : string) (uid : Z)
| CDelete (mailbox : string) (uid : Z) (ok : bool)
| CExpunge (mailbox : string) (ok : bool)
| CStat (mailbox : string)
| CClose.
#[export] Instance call_eq_dec : EqDecision call.
Proof. solve_decision. Defined.

Definition is_none {A} (o : option A) : bool :=
  match o with None => true | Some _ => false end.

Section Logged.
Context {H W : Type} (B : Backend H W).

Definition record {A} (mk : A → call) (f : W → A * W) (lw : list call * W)
    : A * (list call * W) :=
  let '(a, w') := f lw.2 in (a, (lw.1 ++ [mk a], w')).

Definition Logged_folders (fs : FolderOps W) : FolderOps (list call * W) := {|
  ListFolders m lw := let '(a, w') := ListFolders fs m lw.2 in (a, (lw.1, w'));
  ListInFolder m f := record (λ _, CList m) (ListInFolder fs m f);
  RetrieveFromFolder m f uid := record (λ _, CRetrieve m uid) (RetrieveFromFolder fs m f uid);
  DeleteInFolder m f uid := record (λ r, CDelete m uid (is_none r)) (DeleteInFolder fs m f uid);
  ExpungeFolder m f := record (λ r, CExpunge m (is_none r)) (ExpungeFolder fs m f);
  StatFolder m f := record (λ _, CStat m) (StatFolder fs m f);
|}.

Definition login_result (r : result (string * H) serr) : option string :=
  match r with Ok (mailbox, _) => Some mailbox | Err _ => None end.

Definition Logged : Backend H (list call * W) := {|
  be_login u p ip := record (λ r, CLogin u p ip (login_result r)) (be_login u p ip);
  be_List h m := record (λ _, CList m) (be_List h m);
  be_Retrieve h m uid := record (λ _, CRetrieve m uid) (be_Retrieve h m uid);
  be_Delete h m uid := record (λ r, CDelete m uid (is_none r)) (be_Delete h m uid);
  be_Expunge h m := record (λ r, CExpunge m (is_none r)) (be_Expunge h m);
  be_Stat h m := record (λ _, CStat m) (be_Stat h m);
  be_folders h := Logged_folders <$> be_folders h;
  be_close h := record (λ _, CClose) <$> be_close h;
|}.

(** The recorded log only grows, by exactly one call per operation. *)
Lemma record_log {A} (mk : A → call) f lw :
  (record mk f lw).2.1 = lw.1 ++ [mk (record mk f lw).1].
Proof. unfold record. by destruct (f lw.2). Qed.

(** Recording does not change what the operation does. *)
Lemma record_transparent {A} (mk : A → call) f lw :
  (record mk f lw).1 = (f lw.2).1 ∧ (record mk f lw).2.2 = (f lw.2).2.
Proof. unfold record. by destruct (f lw.2). Qed.
End Logged.

(** ** An in-memory backend

    One account; used to evaluate the daemons on concrete sessions and to show
    that the interface can be met. *)
Record memStore := mkMem {
  mem_user : string;
  mem_pass : string;
  mem_msgs : list (MessageInfo * string);
  mem_marks : list Z;
}.

Definition mem_find (uid : Z) (m : memStore) : option (MessageInfo * string) :=
  list_find (λ x, UID x.1 = uid) (mem_msgs m) ≫= λ '(_, x), Some x.

Definition MemBackend : Backend unit memStore := {|
  be_login u p _ m :=
    (if decide (u = mem_user m ∧ p = mem_pass m) then Ok (u, tt) else Err "denied", m);
  be_List _ _ m := (Ok (mem_msgs m).*1, m);
  be_Retrieve _ _ uid m :=
    (match mem_find uid m with Some (_, c) => Ok (Content c) | None => Err "not found" end, m);
  be_Delete _ _ uid m :=
    match mem_find uid m with
    | Some _ => (None, mkMem (mem_user m) (mem_pass m) (mem_msgs m) (uid :: mem_marks m))
    | None => (Some "not found", m)
    end;
  be_Expunge _ _ m :=
    (None, mkMem (mem_user m) (mem_pass m)
             (filter (λ x, UID x.1 ∉ mem_marks m) (mem_msgs m)) []);
  be_Stat _ _ m :=
    (Ok (Z.of_nat (length (mem_msgs m)), foldr Z.add 0 (Size ∘ fst <$> mem_msgs m)), m);
  be_folders _ := None;
  be_close _ := Some (λ m, (None, m));
|}.

#[export] Instance MemBackendObs :
  @BackendObs unit memStore (list (MessageInfo * string)) MemBackend.
Proof.
  refine {| obs := mem_msgs : memStore → list (MessageInfo * string) |}; try done.
  intros h f w Hf. simpl in Hf. by simplify_eq.
Defined.
