(* ===== verification/Pop3Proto.v ===== *)
(** * POP3: the wire format

    src/internal/pop3d/pop3/command.go ([Response], [ParseCommand], the command
    registry), the message-splitting helpers of transaction_commands.go and the
    SASL coding of sasl.go. The theorems state what a conforming client reads
    back from the bytes the server writes. *)
From S2P Require Import Prelude GoStrings Base64.
From Stdlib Require Import ZArith Lia Ascii.
Open Scope string_scope.
Open Scope list_scope.

(** ** Responses *)
Record Response := mkResponse {
  OK : bool;
  Message : string;
  Lines : list string;
  Continuation : bool;
  Challenge : string;
}.
#[export] Instance Response_eq_dec : EqDecision Response.
Proof. solve_decision. Defined.

(** The composite literals the commands use. *)
Definition resp (ok : bool) (message : string) : Response :=
  mkResponse ok message [] false "".
Definition resp_lines (message : string) (lines : list string) : Response :=
  mkResponse true message lines false "".
Definition resp_challenge (challenge : string) : Response :=
  mkResponse false "" [] true challenge.

Definition stuff (line : string) : string :=
  if HasPrefix line "." then "." +:+ line else line.

(** The loop of [String] over [r.Lines]. *)
Fixpoint write_lines (lines : list string) : string :=
  match lines with
  | [] => ""
  | line :: rest => stuff line +:+ crlf +:+ write_lines rest
  end.

Definition Response_String (r : Response) : string :=
  if Continuation r then "+ " +:+ Challenge r +:+ crlf
  else
    (if OK r then "+OK" else "-ERR")
    +:+ (if decide (Message r = "") then "" else " " +:+ Message r)
    +:+ crlf
    +:+ (match Lines r with
         | [] => ""
         | _ :: _ => write_lines (Lines r) +:+ "." +:+ crlf
         end).

(** ** Commands *)
Inductive parse_error := EmptyCommand.

Section Commands.
Context `{UnicodeCase}.

Definition ParseCommand (line : string) : result (string * list string) parse_error :=
  let line := TrimSpace line in
  if decide (line = "") then Err EmptyCommand
  else match Fields line with
       | [] => Err EmptyCommand
       | name :: args => Ok (ToUpper name, args)
       end.

(** The registered command implementations. *)
Inductive command :=
| capaCommand | stlsCommand | userCommand | passCommand | authCommand | quitCommand
| statCommand | listCommand | retrCommand | deleCommand | rsetCommand
| noopCommand | uidlCommand | topCommand.
#[export] Instance command_eq_dec : EqDecision command.
Proof. solve_decision. Defined.

Definition Name (c : command) : string :=
  match c with
  | capaCommand => "CAPA" | stlsCommand => "STLS" | userCommand => "USER"
  | passCommand => "PASS" | authCommand => "AUTH" | quitCommand => "QUIT"
  | statCommand => "STAT" | listCommand => "LIST" | retrCommand => "RETR"
  | deleCommand => "DELE" | rsetCommand => "RSET" | noopCommand => "NOOP"
  | uidlCommand => "UIDL" | topCommand => "TOP"
  end.

Definition registry := gmap string command.
Definition RegisterCommand (cmd : command) (reg : registry) : registry :=
  <[ToUpper (Name cmd) := cmd]> reg.
Definition GetCommand (reg : registry) (name : string) : option command :=
  reg !! ToUpper name.

Definition RegisterAuthCommands (reg : registry) : registry :=
  foldl (flip RegisterCommand) reg
    [capaCommand; stlsCommand; userCommand; passCommand; authCommand; quitCommand].
Definition RegisterTransactionCommands (reg : registry) : registry :=
  foldl (flip RegisterCommand) reg
    [statCommand; listCommand; retrCommand; deleCommand;
     rsetCommand; noopCommand; uidlCommand; topCommand].
(** The registry after [Handler]. *)
Definition commandRegistry : registry :=
  RegisterTransactionCommands (RegisterAuthCommands ∅).
End Commands.

(** ** Message contents *)
Definition lf1 : string := String LF "".
Definition cr1 : string := String CR "".

(** [rawLines[:len(rawLines)-1]] when the last element is empty. *)
Fixpoint drop_last_empty (l : list string) : list string :=
  match l with
  | [] => []
  | [w] => if decide (w = "") then [] else [w]
  | w :: ws => w :: drop_last_empty ws
  end.

Definition splitMessageLines (content : string) : list string :=
  let content := ReplaceAll content crlf lf1 in
  let content := ReplaceAll content cr1 lf1 in
  drop_last_empty (Split LF content).

(** The scanner loop of [extractTopLines]: the lines collected and whether the
    loop was left by [break]. *)
Fixpoint top_loop (inBody : bool) (bodyCount bodyLines : Z) (toks : list string)
    : list string * bool :=
  match toks with
  | [] => ([], false)
  | line :: rest =>
      if inBody then
        if (bodyLines <=? bodyCount)%Z then ([], true)
        else let '(ls, b) := top_loop true (bodyCount + 1) bodyLines rest in
             (line :: ls, b)
      else let '(ls, b) := top_loop (bool_decide (line = "")) bodyCount bodyLines rest in
           (line :: ls, b)
  end.

Inductive scan_error := ErrTooLong | ErrRead (text : string).

Definition extractTopLines (content : string) (bodyLines : Z)
    : result (list string) scan_error :=
  let '(toks, e) := ScanLines content in
  let '(lines, broke) := top_loop false 0 bodyLines toks in
  if broke then Ok lines
  else match e with
       | ScanTooLong => Err ErrTooLong
       | ScanEOF => Ok lines
       end.

(** ** SASL coding and metrics labels *)
Definition DecodeSASLResponse (encoded : string) : option string := b64_decode encoded.
Definition EncodeSASLChallenge (challenge : string) : string := b64_encode challenge.

Definition extractDomain (username : string) : string :=
  match cut_last "@" username with
  | Some (_, domain) => domain
  | None => "unknown"
  end.

(** ** The client side: what RFC 1939 says a client reads *)
Definition read_line (s : string) : option (string * string) :=
  match cut LF s with
  | Some (a, rest) => Some (drop_cr a, rest)
  | None => None
  end.

Definition unstuff (line : string) : string :=
  if HasPrefix line "." then sdrop 1 line else line.

(** Lines up to the terminating ".", with the rest of the stream. *)
Fixpoint read_multi (fuel : nat) (s : string) : option (list string * string) :=
  match fuel with
  | O => None
  | S n =>
      match read_line s with
      | None => None
      | Some (l, rest) =>
          if decide (l = ".") then Some ([], rest)
          else match read_multi n rest with
               | Some (ls, rest') => Some (unstuff l :: ls, rest')
               | None => None
               end
      end
  end.

Definition client_multi (s : string) : option (string * list string * string) :=
  match read_line s with
  | Some (status, rest) =>
      match read_multi (S (String.length rest)) rest with
      | Some (ls, rest') => Some (status, ls, rest')
      | None => None
      end
  | None => None
  end.

(** A line that fits the protocol: no carriage return, no line feed. *)
Definition line_ok (s : string) : Prop := no_byte CR s ∧ no_byte LF s.

Definition status_line (r : Response) : string :=
  (if OK r then "+OK" else "-ERR")
  +:+ (if decide (Message r = "") then "" else " " +:+ Message r).

Lemma drop_cr_snoc s : drop_cr (s +:+ cr1) = s.
Proof. unfold drop_cr, cr1. by rewrite cut_last_app. Qed.

Lemma read_line_crlf s rest :
  no_byte LF s → read_line (s +:+ crlf +:+ rest) = Some (s, rest).
Proof.
  intros Hs. unfold read_line, crlf.
  replace (s +:+ String CR (String LF "") +:+ rest)
    with ((s +:+ cr1) +:+ String LF rest) by (by rewrite <-sapp_assoc).
  rewrite cut_app; [by rewrite drop_cr_snoc|].
  rewrite no_byte_app. by split.
Qed.

Lemma stuff_no_LF s : no_byte LF s → no_byte LF (stuff s).
Proof.
  unfold stuff. intros. case_match; [|done].
  rewrite no_byte_app. by split.
Qed.

Lemma unstuff_stuff s : unstuff (stuff s) = s.
Proof.
  unfold stuff. destruct (HasPrefix s ".") eqn:E; [|by unfold unstuff; rewrite E].
  unfold unstuff. simpl. by rewrite HasPrefix_nil.
Qed.

Lemma stuff_not_dot s : stuff s ≠ ".".
Proof.
  unfold stuff. destruct (HasPrefix s ".") eqn:E.
  - destruct s; [done|]. simpl. congruence.
  - intros ->. done.
Qed.

Lemma read_multi_lines lines rest fuel :
  Forall line_ok lines → (length lines < fuel)%nat →
  read_multi fuel (write_lines lines +:+ "." +:+ crlf +:+ rest) = Some (lines, rest).
Proof.
  intros Hl. revert fuel. induction Hl as [|l ls [_ Hl] _ IH]; intros [|n] Hn;
    cbn [length] in Hn; try lia; cbn [read_multi].
  - change (write_lines [] +:+ "." +:+ crlf +:+ rest) with ("." +:+ crlf +:+ rest).
    rewrite read_line_crlf by done. by rewrite decide_True by done.
  - cbn [write_lines]. rewrite <-!sapp_assoc.
    rewrite read_line_crlf by (by apply stuff_no_LF).
    rewrite decide_False by apply stuff_not_dot.
    rewrite IH by lia. by rewrite unstuff_stuff.
Qed.

Lemma write_lines_length lines :
  (length lines ≤ String.length (write_lines lines))%nat.
Proof.
  induction lines as [|l ls IH]; simpl; [lia|]. rewrite !slen_app. simpl. lia.
Qed.

Lemma status_line_ok r : line_ok (Message r) → no_byte LF (status_line r).
Proof.
  intros [_ Hm]. unfold status_line. rewrite no_byte_app. split; [by case_match|].
  case_match; [done|]. rewrite no_byte_app. by split.
Qed.



(** ** Message contents as lines *)
Lemma replace_skip (d : ascii) (old new w s : string) :
  no_byte d w →
  replace_aux (String d old) new 0 (w +:+ s) = w +:+ replace_aux (String d old) new 0 s.
Proof.
  induction w as [|c w IH]; [done|]. rewrite no_byte_cons. intros [Hc Hw]. simpl.
  destruct (Ascii.ascii_dec d c) as [->|]; [done|]. by rewrite IH.
Qed.

Lemma ReplaceAll_absent (d : ascii) (old new s : string) :
  no_byte d s → ReplaceAll s (String d old) new = s.
Proof.
  intros Hs. unfold ReplaceAll. rewrite <-(sapp_nil_r s) at 1.
  rewrite replace_skip by done. by rewrite sapp_nil_r.
Qed.

Lemma ReplaceAll_byte_gone (d : ascii) (new s : string) :
  no_byte d new → no_byte d (ReplaceAll s (String d "") new).
Proof.
  intros Hn. unfold ReplaceAll. induction s as [|c s IH]; [done|].
  cbn [replace_aux String.length Nat.sub]. unfold HasPrefix. simpl.
  destruct (Ascii.ascii_dec d c) as [->|].
  - fold (HasPrefix s ""). rewrite HasPrefix_nil, no_byte_app. by split.
  - rewrite no_byte_cons. by split.
Qed.

(** A message written with CRLF line ends. *)
Fixpoint crlf_lines (l : list string) : string :=
  match l with [] => "" | w :: ws => w +:+ crlf +:+ crlf_lines ws end.

Lemma ReplaceAll_crlf l :
  Forall line_ok l → ReplaceAll (crlf_lines l) crlf lf1 = unlines LF l.
Proof.
  unfold ReplaceAll. induction 1 as [|w ws [Hw _] _ IH]; [done|].
  cbn [crlf_lines unlines]. unfold crlf at 1. rewrite replace_skip by done.
  fold crlf. f_equal.
  change (crlf +:+ crlf_lines ws) with (String CR (String LF (crlf_lines ws))).
  cbn [replace_aux HasPrefix String.length Nat.sub]. unfold HasPrefix. simpl.
  fold (HasPrefix (crlf_lines ws) ""). rewrite HasPrefix_nil. by rewrite IH.
Qed.

Lemma unlines_no_CR l : Forall line_ok l → no_byte CR (unlines LF l).
Proof.
  induction 1 as [|w ws [Hw _] _ IH]; [done|]. simpl.
  rewrite no_byte_app, no_byte_cons. done.
Qed.

Lemma drop_last_empty_snoc l : drop_last_empty (l ++ [""]) = l.
Proof.
  induction l as [|w ws IH]; [done|]. cbn [app drop_last_empty].
  destruct (ws ++ [""]) eqn:E; [by destruct ws|]. by rewrite IH.
Qed.

Lemma drop_last_empty_sub l : drop_last_empty l `sublist_of` l.
Proof.
  induction l as [|w ws IH]; [done|]. cbn [drop_last_empty].
  destruct ws; [case_decide; [by constructor|done]|]. by constructor.
Qed.

Lemma split_unlines l :
  Forall line_ok l →
  drop_last_empty (Split LF (ReplaceAll (unlines LF l) cr1 lf1)) = l.
Proof.
  intros Hl. unfold cr1. rewrite ReplaceAll_absent by (by apply unlines_no_CR).
  rewrite Split_unlines; [apply drop_last_empty_snoc|].
  eapply Forall_impl; [exact Hl|]. by intros ? [].
Qed.

Lemma splitMessageLines_ok content : Forall line_ok (splitMessageLines content).
Proof.
  unfold splitMessageLines. set (s := ReplaceAll _ cr1 _).
  assert (no_byte CR s) as Hs by (by apply ReplaceAll_byte_gone).
  assert (Forall line_ok (Split LF s)) as Hall.
  { pose proof (Split_elem_no_byte LF s). pose proof (Split_elem_preserves LF CR s Hs).
    apply Forall_and. by split. }
  rewrite Forall_forall in *. intros l Hin. apply Hall.
  by eapply elem_of_sublist, drop_last_empty_sub.
Qed.

(** RETR splits a stored message into protocol lines: no line holds a
    carriage return or line feed, and a message stored with LF line ends and
    the same message stored with CRLF line ends give the same lines, the ones
    it was written with. *)
Lemma message_lines (content : string) (l : list string) :
  Forall line_ok (splitMessageLines content) ∧
  (Forall line_ok l →
   splitMessageLines (unlines LF l) = l ∧ splitMessageLines (crlf_lines l) = l).
Proof.
  split; [apply splitMessageLines_ok|]. intros Hl. unfold splitMessageLines. split.
  - unfold crlf. rewrite ReplaceAll_absent by (by apply unlines_no_CR).
    by apply split_unlines.
  - rewrite ReplaceAll_crlf by done. by apply split_unlines.
Qed.

Lemma message_lines_example :
  splitMessageLines (crlf_lines ["Subject: x"; ""; "body"]) = ["Subject: x"; ""; "body"].
Proof.
  apply (message_lines "" ["Subject: x"; ""; "body"]).
  by repeat constructor.
Defined.

(** ** TOP *)
(** The number of lines TOP shows: the header with its blank line, and then
    [bodyLines] lines of the body. *)
Fixpoint top_count (bodyLines : Z) (toks : list string) : nat :=
  match toks with
  | [] => 0
  | line :: rest => S (if decide (line = "") then Z.to_nat bodyLines
                       else top_count bodyLines rest)
  end.

Lemma top_loop_body k n toks :
  (0 ≤ k)%Z →
  top_loop true k n toks
  = (take (Z.to_nat (n - k)) toks, bool_decide (Z.to_nat (n - k) < length toks)%nat).
Proof.
  revert k. induction toks as [|t ts IH]; intros k Hk; cbn [top_loop length].
  { rewrite bool_decide_false by lia. by rewrite take_nil. }
  destruct (Z.leb_spec n k).
  - replace (Z.to_nat (n - k)) with O by lia. by rewrite bool_decide_true by lia.
  - rewrite IH by lia. replace (Z.to_nat (n - k)) with (S (Z.to_nat (n - (k + 1)))) by lia.
    cbn [take]. f_equal. apply bool_decide_ext. lia.
Qed.

Lemma top_loop_header n toks :
  top_loop false 0 n toks
  = (take (top_count n toks) toks, bool_decide (top_count n toks < length toks)%nat).
Proof.
  induction toks as [|t ts IH]; [done|]. cbn [top_loop top_count].
  destruct (decide (t = "")) as [->|Ht].
  - rewrite bool_decide_true by done. rewrite top_loop_body by done.
    rewrite Z.sub_0_r. cbn [take length]. f_equal. apply bool_decide_ext. lia.
  - rewrite bool_decide_false by done. rewrite IH. cbn [take length]. f_equal.
    apply bool_decide_ext. lia.
Qed.

(** TOP returns the header lines, the blank line and the first [bodyLines]
    lines of the body, for every message whose lines fit the 64 KiB scanner
    buffer; an over-long line is an error exactly when it comes before the
    requested part is complete and one more line was read. *)
Lemma top_lines (content : string) (bodyLines : Z) :
  let '(toks, e) := ScanLines content in
  extractTopLines content bodyLines =
    if decide (e = ScanTooLong ∧ (length toks ≤ top_count bodyLines toks)%nat)
    then Err ErrTooLong
    else Ok (take (top_count bodyLines toks) toks).
Proof.
  unfold extractTopLines. destruct (ScanLines content) as [toks e].
  rewrite top_loop_header. case_bool_decide.
  - rewrite decide_False; [done|]. intros [_ ?]. lia.
  - destruct e.
    + by rewrite decide_False by (by intros [? _]).
    + rewrite decide_True; [done|]. split; [done|lia].
Qed.

Example top_example :
  extractTopLines (crlf_lines ["A: b"; ""; "x"; "y"]) 1 = Ok ["A: b"; ""; "x"].
Proof. reflexivity. Qed.

(** A SASL challenge is decoded by the client's base64 decoder to the bytes
    the server meant, and the server decodes what the client encoded. *)
Theorem sasl_coding_roundtrip (bytes : string) :
  DecodeSASLResponse (EncodeSASLChallenge bytes) = Some bytes.
Proof. apply b64_decode_encode. Qed.

(** A multi-line response without lines is sent without its terminating dot:
    the client keeps waiting for it. *)
Lemma empty_multiline_unterminated message :
  line_ok message → client_multi (Response_String (resp_lines message [])) = None.
Proof.
  intros Hm. unfold client_multi, Response_String. cbn [Continuation Lines resp_lines].
  rewrite (sapp_assoc (if OK _ then _ else _)).
  fold (status_line (resp_lines message [])). 
  rewrite read_line_crlf by (by apply status_line_ok). done.
Qed.
