(* ===== verification/Pop3Session.v ===== *)
(** * POP3: the session object

    src/internal/pop3d/pop3/session.go: the state machine
    (AUTHORIZATION, TRANSACTION, UPDATE), TLS and SASL state, and the loaded
    mailbox with its deletion marks. A nil slice or map is [None]; a Go map
    with [true] values is the set of its keys; writing to a nil map panics,
    which is the result [None] of [MarkDeleted]. *)
From S2P Require Import Prelude GoStrings MsgStore.
From Stdlib Require Import ZArith Lia.
Open Scope string_scope.
Open Scope list_scope.
Open Scope Z_scope.

(** ** Collaborators *)
(** go-sasl's PLAIN server: [Next] fails, asks for more, or calls the
    authenticator once and reports its verdict. *)
Inductive sasl_step (S : Type) :=
| SaslError
| SaslChallenge (challenge : string) (st : S)
| SaslAuthenticate (identity username password : string).
Arguments SaslError {S}.
Arguments SaslChallenge {S}.
Arguments SaslAuthenticate {S}.

Class GoSasl := {
  sasl_Plain : string;
  plain_state : Type;
  NewPlainServer : plain_state;
  plain_Next : plain_state → string → sasl_step plain_state;
}.

(** Go's [range] over a map visits every key once, in an unspecified order. *)
Class MapRange := {
  range_keys : gset Z → list Z;
  range_keys_perm d : range_keys d ≡ₚ elements d;
}.

(** ** State *)
Inductive State := StateAuthorization | StateTransaction | StateUpdate.
#[export] Instance State_eq_dec : EqDecision State.
Proof. solve_decision. Defined.

Definition State_String (s : State) : string :=
  match s with
  | StateAuthorization => "AUTHORIZATION"
  | StateTransaction => "TRANSACTION"
  | StateUpdate => "UPDATE"
  end.

Inductive TLSState := TLSStateNone | TLSStateActive.
#[export] Instance TLSState_eq_dec : EqDecision TLSState.
Proof. solve_decision. Defined.

Inductive ListenerMode := ModePop3 | ModePop3s.
#[export] Instance ListenerMode_eq_dec : EqDecision ListenerMode.
Proof. solve_decision. Defined.

Record AuthenticatedUser := mkUser { au_Username : string; au_Mailbox : string }.

Inductive pop3_error :=
| ErrMailboxNotInitialized
| ErrNoSuchMessage
| ErrMessageDeleted
| ErrStore (e : serr).
#[export] Instance pop3_error_eq_dec : EqDecision pop3_error.
Proof. solve_decision. Defined.

Section Session.
Context {H W : Type} `{Backend H W, GoSasl, MapRange}.

Record Session := mkSession {
  state : State;
  tlsState : TLSState;
  hostname : string;
  listenerMode : ListenerMode;
  tlsConfig : bool;                       (* a *tls.Config is present *)
  insecureAuth : bool;
  clientIP : string;
  username : string;
  authenticatedUser : option AuthenticatedUser;
  saslServer : option plain_state;
  saslMech : string;
  mailbox : string;
  sess_store : option (store H W);
  messageList : option (list MessageInfo);
  deletedSet : option (gset Z);
}.

Definition NewSession (host : string) (mode : ListenerMode) (tls isTLS : bool) : Session :=
  let ts := if bool_decide (mode = ModePop3s) || isTLS
            then TLSStateActive else TLSStateNone in
  mkSession StateAuthorization ts host mode tls (negb tls) "" "" None None "" "" None None None.

(** Assignments to single fields. *)
Definition set_state (x : State) (s : Session) : Session :=
  mkSession x (tlsState s) (hostname s) (listenerMode s) (tlsConfig s) (insecureAuth s)
    (clientIP s) (username s) (authenticatedUser s) (saslServer s) (saslMech s)
    (mailbox s) (sess_store s) (messageList s) (deletedSet s).
Definition set_tls (x : TLSState) (s : Session) : Session :=
  mkSession (state s) x (hostname s) (listenerMode s) (tlsConfig s) (insecureAuth s)
    (clientIP s) (username s) (authenticatedUser s) (saslServer s) (saslMech s)
    (mailbox s) (sess_store s) (messageList s) (deletedSet s).
Definition SetClientIP (x : string) (s : Session) : Session :=
  mkSession (state s) (tlsState s) (hostname s) (listenerMode s) (tlsConfig s)
    (insecureAuth s) x (username s) (authenticatedUser s) (saslServer s) (saslMech s)
    (mailbox s) (sess_store s) (messageList s) (deletedSet s).
Definition SetUsername (x : string) (s : Session) : Session :=
  mkSession (state s) (tlsState s) (hostname s) (listenerMode s) (tlsConfig s)
    (insecureAuth s) (clientIP s) x (authenticatedUser s) (saslServer s) (saslMech s)
    (mailbox s) (sess_store s) (messageList s) (deletedSet s).
Definition set_user (x : option AuthenticatedUser) (s : Session) : Session :=
  mkSession (state s) (tlsState s) (hostname s) (listenerMode s) (tlsConfig s)
    (insecureAuth s) (clientIP s) (username s) x (saslServer s) (saslMech s)
    (mailbox s) (sess_store s) (messageList s) (deletedSet s).
Definition set_sasl (mech : string) (x : option plain_state) (s : Session) : Session :=
  mkSession (state s) (tlsState s) (hostname s) (listenerMode s) (tlsConfig s)
    (insecureAuth s) (clientIP s) (username s) (authenticatedUser s) x mech
    (mailbox s) (sess_store s) (messageList s) (deletedSet s).
Definition set_mailbox (x : string) (d : option (gset Z)) (s : Session) : Session :=
  mkSession (state s) (tlsState s) (hostname s) (listenerMode s) (tlsConfig s)
    (insecureAuth s) (clientIP s) (username s) (authenticatedUser s) (saslServer s)
    (saslMech s) x (sess_store s) (messageList s) d.
Definition set_store (x : option (store H W)) (s : Session) : Session :=
  mkSession (state s) (tlsState s) (hostname s) (listenerMode s) (tlsConfig s)
    (insecureAuth s) (clientIP s) (username s) (authenticatedUser s) (saslServer s)
    (saslMech s) (mailbox s) x (messageList s) (deletedSet s).
Definition set_messages (x : option (list MessageInfo)) (s : Session) : Session :=
  mkSession (state s) (tlsState s) (hostname s) (listenerMode s) (tlsConfig s)
    (insecureAuth s) (clientIP s) (username s) (authenticatedUser s) (saslServer s)
    (saslMech s) (mailbox s) (sess_store s) x (deletedSet s).
Definition set_deleted (x : option (gset Z)) (s : Session) : Session :=
  mkSession (state s) (tlsState s) (hostname s) (listenerMode s) (tlsConfig s)
    (insecureAuth s) (clientIP s) (username s) (authenticatedUser s) (saslServer s)
    (saslMech s) (mailbox s) (sess_store s) (messageList s) x.

(** ** Operations *)
Definition SetTLSActive (s : Session) : Session := set_tls TLSStateActive s.
Definition IsTLSActive (s : Session) : bool := bool_decide (tlsState s = TLSStateActive).

Definition CanSTLS (s : Session) : bool :=
  bool_decide (state s = StateAuthorization)
  && bool_decide (listenerMode s = ModePop3)
  && bool_decide (tlsState s = TLSStateNone)
  && tlsConfig s.

Definition SetAuthenticated (user : AuthenticatedUser) (s : Session) : Session :=
  set_user (Some user) (set_state StateTransaction s).

Definition IsAuthenticated (s : Session) : bool :=
  bool_decide (state s = StateTransaction) || bool_decide (state s = StateUpdate).

Definition EnterUpdate (s : Session) : Session :=
  if decide (state s = StateTransaction) then set_state StateUpdate s else s.

Definition SetSASLServer (mech : string) (server : plain_state) (s : Session) : Session :=
  set_sasl mech (Some server) s.
Definition ClearSASL (s : Session) : Session := set_sasl "" None s.
Definition IsSASLInProgress (s : Session) : bool :=
  match saslServer s with Some _ => true | None => false end.

Definition Capabilities (s : Session) : list string :=
  let caps := ["TOP"; "UIDL"; "RESP-CODES"] in
  let caps := if decide (tlsState s = TLSStateActive) then "USER" :: caps else caps in
  let caps := if decide (tlsState s = TLSStateActive)
              then caps ++ ["SASL PLAIN"] else caps in
  if CanSTLS s then caps ++ ["STLS"] else caps.

Definition Cleanup (s : Session) (w : W) : Session * W :=
  match sess_store s with
  | Some st =>
      match st_Closer st with
      | Some close => (set_user None (set_store None s), (close w).2)
      | None => (set_user None s, w)
      end
  | None => (set_user None s, w)
  end.

(** The store the session works on: the folder named by a subaddress when the
    store has folders and lists it, else the store itself. *)
Definition effective_store (h : H) (mbox folder : string) (w : W) : store H W * W :=
  if decide (folder = "") then (Direct h, w)
  else match be_folders h with
       | None => (Direct h, w)
       | Some fs =>
           match ListFolders fs mbox w with
           | (Ok folders, w') =>
               if decide (folder ∈ folders) then (InFolder fs folder, w')
               else (Direct h, w')
           | (Err _, w') => (Direct h, w')
           end
       end.

Definition InitializeMailbox (h : H) (folder : string) (s : Session) (w : W)
    : option pop3_error * Session * W :=
  match authenticatedUser s with
  | None => (Some ErrMailboxNotInitialized, s, w)
  | Some user =>
      let s := set_mailbox (au_Mailbox user) (Some ∅) s in
      let '(st, w) := effective_store h (mailbox s) folder w in
      let s := set_store (Some st) s in
      match st_List st (mailbox s) w with
      | (Ok messages, w') => (None, set_messages (Some messages) s, w')
      | (Err e, w') => (Some (ErrStore e), s, w')
      end
  end.

(** [s.deletedSet[n]]: reading a nil map gives false. *)
Definition is_deleted (s : Session) (n : Z) : bool :=
  match deletedSet s with Some d => bool_decide (n ∈ d) | None => false end.

Fixpoint count_loop (s : Session) (i : Z) (l : list MessageInfo) : Z :=
  match l with
  | [] => 0
  | _ :: rest => (if is_deleted s (i + 1) then 0 else 1) + count_loop s (i + 1) rest
  end.
Definition MessageCount (s : Session) : Z :=
  match messageList s with None => 0 | Some l => count_loop s 0 l end.

(** [total += msg.Size] on an [int64]. *)
Fixpoint size_loop (s : Session) (i total : Z) (l : list MessageInfo) : Z :=
  match l with
  | [] => total
  | msg :: rest =>
      size_loop s (i + 1)
        (if is_deleted s (i + 1) then total else wrap_int64 (total + Size msg)) rest
  end.
Definition TotalSize (s : Session) : Z :=
  match messageList s with None => 0 | Some l => size_loop s 0 0 l end.

(** [messageList[n-1]] for a number in range. *)
Definition GetMessage (msgNum : Z) (s : Session) : result MessageInfo pop3_error :=
  match messageList s with
  | None => Err ErrMailboxNotInitialized
  | Some l =>
      if (msgNum <? 1) || (Z.of_nat (length l) <? msgNum) then Err ErrNoSuchMessage
      else if is_deleted s msgNum then Err ErrMessageDeleted
      else match l !! Z.to_nat (msgNum - 1) with
           | Some msg => Ok msg
           | None => Err ErrNoSuchMessage
           end
  end.

(** [None] is the panic of an assignment to a nil map. *)
Definition MarkDeleted (msgNum : Z) (s : Session) : option (result Session pop3_error) :=
  match messageList s with
  | None => Some (Err ErrMailboxNotInitialized)
  | Some l =>
      if (msgNum <? 1) || (Z.of_nat (length l) <? msgNum) then Some (Err ErrNoSuchMessage)
      else if is_deleted s msgNum then Some (Err ErrMessageDeleted)
      else match deletedSet s with
           | Some d => Some (Ok (set_deleted (Some ({[msgNum]} ∪ d)) s))
           | None => None
           end
  end.

Definition ResetDeletions (s : Session) : Session := set_deleted (Some ∅) s.

Definition GetDeletedUIDs (s : Session) : list Z :=
  match messageList s with
  | None => []
  | Some l =>
      match deletedSet s with
      | None => []
      | Some d =>
          omap (λ n, if (1 <=? n) && (n <=? Z.of_nat (length l))
                     then UID <$> l !! Z.to_nat (n - 1) else None)
               (range_keys d)
      end
  end.

Fixpoint all_loop (s : Session) (i : Z) (l : list MessageInfo) : list (Z * MessageInfo) :=
  match l with
  | [] => []
  | msg :: rest =>
      if is_deleted s (i + 1) then all_loop s (i + 1) rest
      else (i + 1, msg) :: all_loop s (i + 1) rest
  end.
Definition AllMessages (s : Session) : list (Z * MessageInfo) :=
  match messageList s with None => [] | Some l => all_loop s 0 l end.
End Session.
Arguments Session H W {_}.

(** ** The session invariant *)
Section Facts.
Context {H W : Type} `{Backend H W, GoSasl, MapRange}.
Implicit Types s : Session H W.

Definition message_numbers (l : list MessageInfo) : gset Z :=
  list_to_set (seqZ 1 (Z.of_nat (length l))).

(** A loaded mailbox has a deletion set, whose members are message numbers. *)
Definition marks_ok s : Prop :=
  match messageList s with
  | None => True
  | Some l => ∃ d, deletedSet s = Some d ∧ d ⊆ message_numbers l
  end.

Lemma elem_message_numbers n l :
  n ∈ message_numbers l ↔ 1 ≤ n ≤ Z.of_nat (length l).
Proof. unfold message_numbers. rewrite elem_of_list_to_set, elem_of_seqZ. lia. Qed.

(** ** Listings *)
Lemma elem_all_loop s i l n m :
  (n, m) ∈ all_loop s i l ↔
  ∃ k, l !! k = Some m ∧ n = i + 1 + Z.of_nat k ∧ is_deleted s n = false.
Proof.
  revert i. induction l as [|x l IH]; intros i; cbn [all_loop].
  { rewrite elem_of_nil. split; [done|]. intros (k & Hk & _). by destruct k. }
  assert ((∃ k, (x :: l) !! k = Some m ∧ n = i + 1 + Z.of_nat k ∧ is_deleted s n = false)
          ↔ (x = m ∧ n = i + 1 ∧ is_deleted s n = false) ∨ (n, m) ∈ all_loop s (i + 1) l)
    as ->.
  { rewrite IH. split.
    - intros ([|k] & Hk & Hn & Hd); simpl in Hk.
      { left. simplify_eq. split_and!; (done || lia). }
      right. exists k. split_and!; [done|lia|done].
    - intros [(-> & -> & Hd)|(k & Hk & Hn & Hd)];
        [exists O|exists (S k)]; split_and!; (done || lia). }
  destruct (is_deleted s (i + 1)) eqn:E.
  - naive_solver congruence.
  - rewrite elem_of_cons. naive_solver.
Qed.

Lemma elem_AllMessages s l n m :
  messageList s = Some l →
  (n, m) ∈ AllMessages s ↔
  1 ≤ n ∧ l !! Z.to_nat (n - 1) = Some m ∧ is_deleted s n = false.
Proof.
  intros Hl. unfold AllMessages. rewrite Hl, elem_all_loop. split.
  - intros (k & Hk & -> & Hd). split_and!; [lia| |done].
    by replace (Z.to_nat _) with k by lia.
  - intros (Hn & Hk & Hd). eexists. split_and!; [done|lia|done].
Qed.

Lemma count_loop_all s i l : count_loop s i l = Z.of_nat (length (all_loop s i l)).
Proof.
  revert i. induction l as [|x l IH]; intros i; cbn [count_loop all_loop]; [done|].
  rewrite IH. destruct (is_deleted s (i + 1)); cbn [length]; lia.
Qed.

Definition sizes (l : list (Z * MessageInfo)) : Z := foldr Z.add 0 (Size ∘ snd <$> l).

Lemma sizes_cons x l : sizes (x :: l) = Size x.2 + sizes l.
Proof. done. Qed.

Lemma size_loop_all s i total l :
  size_loop s i (wrap_int64 total) l = wrap_int64 (total + sizes (all_loop s i l)).
Proof.
  revert i total. induction l as [|x l IH]; intros i total; cbn [size_loop all_loop].
  { f_equal. unfold sizes. simpl. lia. }
  destruct (is_deleted s (i + 1)); [apply IH|].
  rewrite wrap_int64_add_l, IH, sizes_cons. f_equal. simpl. lia.
Qed.

Lemma MessageCount_length s : MessageCount s = Z.of_nat (length (AllMessages s)).
Proof.
  unfold MessageCount, AllMessages. destruct (messageList s); [|done].
  apply count_loop_all.
Qed.

Lemma TotalSize_sum s : TotalSize s = wrap_int64 (sizes (AllMessages s)).
Proof.
  unfold TotalSize, AllMessages. destruct (messageList s); [|done].
  change 0 with (wrap_int64 0) at 2. by rewrite size_loop_all.
Qed.

Lemma GetMessage_Ok s n m :
  GetMessage n s = Ok m ↔ (n, m) ∈ AllMessages s.
Proof.
  destruct (messageList s) as [l|] eqn:Hl.
  2:{ unfold GetMessage, AllMessages. rewrite Hl. split; [done|].
      intros Hin. by apply elem_of_nil in Hin. }
  rewrite (elem_AllMessages s l) by done. unfold GetMessage. rewrite Hl.
  destruct (Z.ltb_spec n 1); simpl; [split; [done|lia]|].
  destruct (Z.ltb_spec (Z.of_nat (length l)) n); simpl.
  { split; [done|]. intros (_ & Hk & _). apply lookup_lt_Some in Hk. lia. }
  destruct (is_deleted s n); [naive_solver|].
  destruct (l !! Z.to_nat (n - 1)); naive_solver.
Qed.

(** STAT, LIST and single-message lookups present one consistent maildrop:
    the count is the number of listed messages, the size is the sum of their
    sizes (as an int64), and a message number is accepted exactly when it is
    listed, with the listed metadata. *)
Lemma maildrop_consistent s :
  MessageCount s = Z.of_nat (length (AllMessages s)) ∧
  TotalSize s = wrap_int64 (foldr Z.add 0 (Size ∘ snd <$> AllMessages s)) ∧
  ∀ n m, GetMessage n s = Ok m ↔ (n, m) ∈ AllMessages s.
Proof.
  split_and!; [apply MessageCount_length|apply TotalSize_sum|apply GetMessage_Ok].
Qed.

(** ** Deletion marks *)
Lemma is_deleted_set d s n : is_deleted (set_deleted (Some d) s) n = bool_decide (n ∈ d).
Proof. done. Qed.

Lemma MarkDeleted_no_panic s n : marks_ok s → MarkDeleted n s ≠ None.
Proof.
  unfold marks_ok, MarkDeleted. destruct (messageList s) as [l|]; [|done].
  intros (d & -> & _). by repeat case_match.
Qed.

Lemma MarkDeleted_Ok s s' n :
  MarkDeleted n s = Some (Ok s') →
  ∃ l d, messageList s = Some l ∧ deletedSet s = Some d
    ∧ 1 ≤ n ≤ Z.of_nat (length l) ∧ n ∉ d ∧ s' = set_deleted (Some ({[n]} ∪ d)) s.
Proof.
  unfold MarkDeleted, is_deleted. destruct (messageList s) as [l|]; [|done].
  destruct (_ || _) eqn:Hr; [done|].
  apply orb_false_iff in Hr as [Hlo%Z.ltb_ge Hhi%Z.ltb_ge].
  destruct (deletedSet s) as [d|]; [|done].
  case_bool_decide; [done|]. intros [= <-]. exists l, d. split_and!; try done; lia.
Qed.

Lemma marks_ok_MarkDeleted s s' n :
  marks_ok s → MarkDeleted n s = Some (Ok s') → marks_ok s'.
Proof.
  intros Hok (l & d & Hl & Hd & Hn & _ & ->)%MarkDeleted_Ok.
  unfold marks_ok in *. simpl. rewrite Hl in *. destruct Hok as (d' & Hd' & Hsub).
  simplify_eq. eexists. split; [done|]. apply union_subseteq. split; [|done].
  apply singleton_subseteq_l, elem_message_numbers. lia.
Qed.

Lemma marks_ok_reset s : marks_ok (ResetDeletions s).
Proof.
  unfold marks_ok. simpl. case_match; [|done]. eexists. by split; [|apply empty_subseteq].
Qed.

Lemma AllMessages_mark s s' n x :
  MarkDeleted n s = Some (Ok s') →
  x ∈ AllMessages s' ↔ x ∈ AllMessages s ∧ x.1 ≠ n.
Proof.
  intros (l & d & Hl & Hd & Hn & Hnd & ->)%MarkDeleted_Ok. destruct x as [k m].
  rewrite !(elem_AllMessages _ l) by done. rewrite is_deleted_set. unfold is_deleted.
  rewrite Hd. simpl. rewrite !bool_decide_eq_false, not_elem_of_union, not_elem_of_singleton.
  naive_solver.
Qed.

(** DELE of a listed message succeeds and removes exactly that message
    from the maildrop; of any other number it fails and changes nothing; it
    never panics; and RSET brings back every message loaded at login. *)
Lemma dele_exact s n :
  marks_ok s →
  (∀ m, (n, m) ∈ AllMessages s →
     ∃ s', MarkDeleted n s = Some (Ok s') ∧ marks_ok s'
       ∧ ∀ x, x ∈ AllMessages s' ↔ x ∈ AllMessages s ∧ x.1 ≠ n) ∧
  ((∀ m, (n, m) ∉ AllMessages s) → ∃ e, MarkDeleted n s = Some (Err e)) ∧
  (∀ l, messageList s = Some l → (AllMessages (ResetDeletions s)).*2 = l).
Proof.
  intros Hok. split_and!.
  - intros m Hm. destruct (MarkDeleted n s) as [[s'|e]|] eqn:E.
    + exists s'. split_and!; [done|by eapply marks_ok_MarkDeleted|].
      intros x. by apply AllMessages_mark.
    + apply GetMessage_Ok in Hm. unfold MarkDeleted in E. unfold GetMessage in Hm.
      repeat case_match; naive_solver.
    + by destruct (MarkDeleted_no_panic s n Hok).
  - intros Hno. destruct (MarkDeleted n s) as [[s'|e]|] eqn:E; [|by eauto|].
    + apply MarkDeleted_Ok in E as (l & d & Hl & Hd & Hn & Hnd & ->).
      destruct (lookup_lt_is_Some_2 l (Z.to_nat (n - 1))) as [m Hm]; [lia|].
      destruct (Hno m). apply (elem_AllMessages s l); [done|].
      unfold is_deleted. rewrite Hd. rewrite bool_decide_eq_false. split_and!; [lia|done|done].
    + by destruct (MarkDeleted_no_panic s n Hok).
  - intros l Hl. unfold AllMessages, ResetDeletions. simpl. rewrite Hl. clear Hl. generalize 0.
    induction l as [|x l IH]; intros i; [done|]. cbn [all_loop].
    rewrite is_deleted_set, bool_decide_false by set_solver. simpl. by rewrite IH.
Qed.

(** ** The UIDs QUIT will delete *)
(** The messages carrying a deletion mark, in mailbox order. *)
Fixpoint marked_loop s (i : Z) (l : list MessageInfo) : list MessageInfo :=
  match l with
  | [] => []
  | msg :: rest => if is_deleted s (i + 1) then msg :: marked_loop s (i + 1) rest
                   else marked_loop s (i + 1) rest
  end.
Definition marked s : list MessageInfo :=
  match messageList s with None => [] | Some l => marked_loop s 0 l end.

Lemma marked_ext s s' :
  messageList s' = messageList s → deletedSet s' = deletedSet s → marked s' = marked s.
Proof.
  intros Hm Hd. unfold marked. rewrite Hm. destruct (messageList s) as [l|]; [|done].
  clear Hm. generalize 0. induction l as [|m l IH]; intros i; [done|]. cbn [marked_loop].
  unfold is_deleted. rewrite Hd. by rewrite IH.
Qed.

Definition uid_at (l : list MessageInfo) (n : Z) : option Z :=
  if (1 <=? n) && (n <=? Z.of_nat (length l)) then UID <$> l !! Z.to_nat (n - 1) else None.

Lemma uid_at_app pre m l :
  uid_at (pre ++ m :: l) (Z.of_nat (length pre) + 1) = Some (UID m).
Proof.
  unfold uid_at. rewrite length_app. cbn [length].
  rewrite (proj2 (Z.leb_le _ _)), (proj2 (Z.leb_le _ _)) by lia. simpl.
  replace (Z.to_nat _) with (length pre) by lia. by rewrite list_lookup_middle.
Qed.

Lemma seqZ_cons_S a n : seqZ a (Z.of_nat (S n)) = a :: seqZ (a + 1) (Z.of_nat n).
Proof. rewrite seqZ_cons by lia. f_equal. f_equal; lia. Qed.

Lemma omap_marked s d pre l :
  deletedSet s = Some d →
  omap (uid_at (pre ++ l))
    (filter (.∈ d) (seqZ (Z.of_nat (length pre) + 1) (Z.of_nat (length l))))
  = UID <$> marked_loop s (Z.of_nat (length pre)) l.
Proof.
  intros Hd. revert pre. induction l as [|m l IH]; intros pre; [done|].
  cbn [length marked_loop]. rewrite seqZ_cons_S, filter_cons.
  specialize (IH (pre ++ [m])). rewrite <-app_assoc in IH. cbn [app] in IH.
  rewrite length_app in IH. cbn [length] in IH.
  replace (Z.of_nat (length pre + 1)) with (Z.of_nat (length pre) + 1) in IH by lia.
  assert (is_deleted s (Z.of_nat (length pre) + 1)
          = bool_decide (Z.of_nat (length pre) + 1 ∈ d)) as ->
    by (unfold is_deleted; by rewrite Hd).
  destruct (decide (Z.of_nat (length pre) + 1 ∈ d)).
  - rewrite bool_decide_true by done. cbn [omap list_omap]. rewrite uid_at_app.
    cbn [fmap list_fmap]. f_equal. exact IH.
  - rewrite bool_decide_false by done. exact IH.
Qed.

Lemma omap_perm {A B} (f : A → option B) l1 l2 : l1 ≡ₚ l2 → omap f l1 ≡ₚ omap f l2.
Proof. intros Hp. by rewrite Hp. Qed.

Lemma GetDeletedUIDs_marked s : marks_ok s → GetDeletedUIDs s ≡ₚ UID <$> marked s.
Proof.
  unfold marks_ok, GetDeletedUIDs, marked. destruct (messageList s) as [l|]; [|done].
  intros (d & Hd & Hsub). rewrite Hd.
  pose proof (omap_marked s d [] l Hd) as Hm. cbn [app length] in Hm.
  change (Z.of_nat 0) with 0 in Hm. rewrite <-Hm. clear Hm.
  change (omap _ (range_keys d)) with (omap (uid_at l) (range_keys d)).
  apply omap_perm. rewrite range_keys_perm.
  apply NoDup_Permutation; [apply NoDup_elements|apply NoDup_filter, NoDup_seqZ|].
  intros n. rewrite elem_of_elements, list_elem_of_filter, elem_of_seqZ.
  split; [|naive_solver]. intros Hn. split; [done|].
  apply Hsub, elem_message_numbers in Hn. lia.
Qed.
End Facts.

(** ** Concrete collaborators, to run sessions on *)
Module Demo.
(** The message of RFC 4616: authorization identity, user and password,
    separated by NUL. *)
Definition plain_demo : GoSasl := {|
  sasl_Plain := "PLAIN";
  plain_state := unit;
  NewPlainServer := tt;
  plain_Next _ response :=
    match Split NUL response with
    | [identity; user; pass] => SaslAuthenticate identity user pass
    | _ => SaslError
    end;
|}.

Definition range_demo : MapRange :=
  {| range_keys := elements; range_keys_perm d := reflexivity _ |}.

Definition info (uid size : Z) : MessageInfo := mkInfo uid "" size [] 0.

(** A session in TRANSACTION with two messages. *)
Definition two_messages : @Session unit memStore plain_demo :=
  @mkSession unit memStore plain_demo StateTransaction TLSStateActive "mx" ModePop3s
    true false "" "u" (Some (mkUser "u" "u")) None "" "u" (Some (Direct tt))
    (Some [info 7 100; info 9 50]) (Some ∅).
End Demo.

Lemma dele_exact_example :
  (∃ s', @MarkDeleted unit memStore Demo.plain_demo 2 Demo.two_messages = Some (Ok s')) ∧
  @MarkDeleted unit memStore Demo.plain_demo 3 Demo.two_messages = Some (Err ErrNoSuchMessage).
Proof.
  split; [|reflexivity].
  destruct (@dele_exact unit memStore Demo.plain_demo Demo.two_messages 2)
    as [Hdel _].
  - simpl. eexists. split; [reflexivity|apply empty_subseteq].
  - destruct (Hdel (Demo.info 9 50)) as (s' & Hs' & _); [|by exists s'].
    apply (bool_decide_unpack _). vm_compute. exact I.
Defined.
