(* ===== verification/Pop3Commands.v ===== *)
(** * POP3: the commands

    One definition per [Execute] method of
    src/internal/pop3d/pop3/auth_commands.go and transaction_commands.go, with
    the SASL exchange and [commitDeletions]. Each takes the session and the
    world and returns the response with both updated; [None] is a panic.
    Logging is left out. Every [Execute] of the source returns a nil error, so
    the error component is left out too. *)
From S2P Require Import Prelude GoStrings Base64 MsgStore Pop3Proto Pop3Session.
From Stdlib Require Import ZArith Lia.
Open Scope string_scope.
Open Scope list_scope.
Open Scope Z_scope.

Section Commands.
Context {H W : Type} `{Backend H W, GoSasl, MapRange, UnicodeCase}.
Implicit Types (s : Session H W) (w : W) (args : list string).

Definition outcome : Type := option (Response * Session H W * W).
Definition reply (ok : bool) (message : string) s w : outcome :=
  Some (resp ok message, s, w).

Definition not_valid : string := "Command not valid in this state".

(** ** AUTHORIZATION *)
Definition capa_Execute s w args : outcome :=
  match args with
  | _ :: _ => reply false "CAPA command takes no arguments" s w
  | [] => Some (resp_lines "Capability list follows" (Capabilities s), s, w)
  end.

Definition stls_Execute s w args : outcome :=
  match args with
  | _ :: _ => reply false "STLS command takes no arguments" s w
  | [] =>
      if decide (state s ≠ StateAuthorization) then reply false not_valid s w
      else if negb (CanSTLS s) then
        if IsTLSActive s then reply false "Already using TLS" s w
        else reply false "TLS not available" s w
      else reply true "Begin TLS negotiation" s w
  end.

(** [!sess.IsTLSActive() && !sess.InsecureAuth()] *)
Definition needs_tls s : bool := negb (IsTLSActive s) && negb (insecureAuth s).

Definition user_Execute s w args : outcome :=
  if decide (state s ≠ StateAuthorization) then reply false not_valid s w
  else if needs_tls s then reply false "TLS required for authentication" s w
  else match args with
       | [name] =>
           if decide (name = "") then reply false "Username cannot be empty" s w
           else reply true ("User " +:+ name +:+ " accepted") (SetUsername name s) w
       | _ => reply false "USER command requires username argument" s w
       end.

Definition loginRecoveringSession (user pass ip : string) w
    : result (string * H) serr * W := be_login user pass ip w.

Definition pass_Execute s w args : outcome :=
  if decide (state s ≠ StateAuthorization) then reply false not_valid s w
  else if needs_tls s then reply false "TLS required for authentication" s w
  else if decide (username s = "") then reply false "No username specified" s w
  else match args with
       | [password] =>
           match loginRecoveringSession (username s) password (clientIP s) w with
           | (Err _, w) => reply false "Authentication failed" s w
           | (Ok (mbox, h), w) =>
               let user := username s in
               let s := SetAuthenticated (mkUser user mbox) s in
               match InitializeMailbox h "" s w with
               | (Some _, s, w) => reply false "Failed to access mailbox" s w
               | (None, s, w) => reply true ("Logged in as " +:+ user) s w
               end
           end
       | _ => reply false "PASS command requires password argument" s w
       end.

(** [saslAuthenticate]: the PLAIN authenticator; [true] is a nil error. *)
Definition saslAuthenticate s w (user pass : string) : bool * Session H W * W :=
  match loginRecoveringSession user pass (clientIP s) w with
  | (Err _, w) => (false, s, w)
  | (Ok (mbox, h), w) =>
      let s := SetUsername user (SetAuthenticated (mkUser user mbox) s) in
      match InitializeMailbox h "" s w with
      | (Some _, s, w) => (false, s, w)
      | (None, s, w) => (true, s, w)
      end
  end.

Definition processSASLStep s w (response : string) : outcome :=
  match saslServer s with
  | None => reply false "No SASL exchange in progress" s w
  | Some server =>
      match plain_Next server response with
      | SaslError => reply false "Authentication failed" (ClearSASL s) w
      | SaslChallenge challenge server' =>
          Some (resp_challenge (EncodeSASLChallenge challenge),
                set_sasl (saslMech s) (Some server') s, w)
      | SaslAuthenticate _ user pass =>
          match saslAuthenticate s w user pass with
          | (false, s, w) => reply false "Authentication failed" (ClearSASL s) w
          | (true, s, w) =>
              reply true ("Logged in as " +:+ username (ClearSASL s)) (ClearSASL s) w
          end
      end
  end.

Definition ProcessSASLResponse s w (line : string) : outcome :=
  if decide (line = "*") then reply false "Authentication cancelled" (ClearSASL s) w
  else match DecodeSASLResponse line with
       | None => reply false "Invalid base64 encoding" (ClearSASL s) w
       | Some response => processSASLStep s w response
       end.

Definition SupportedSASLMechanisms : list string := [sasl_Plain].

Definition auth_Execute s w args : outcome :=
  if decide (state s ≠ StateAuthorization) then reply false not_valid s w
  else if needs_tls s then reply false "TLS required for authentication" s w
  else match args with
       | [] => reply false "AUTH command requires mechanism argument" s w
       | name :: rest =>
           let mechanism := ToUpper name in
           if negb (existsb (λ mech, EqualFold mech mechanism) SupportedSASLMechanisms)
           then reply false ("Unsupported mechanism: " +:+ mechanism) s w
           else if decide (mechanism = sasl_Plain) then
             let s := SetSASLServer mechanism NewPlainServer s in
             match rest with
             | [] => Some (resp_challenge "", s, w)
             | initial :: _ =>
                 if decide (initial = "=") then processSASLStep s w ""
                 else match DecodeSASLResponse initial with
                      | None => reply false "Invalid base64 encoding" (ClearSASL s) w
                      | Some response => processSASLStep s w response
                      end
             end
           else reply false ("Unsupported mechanism: " +:+ mechanism) s w
       end.

(** ** UPDATE *)
(** The deletion loop of [commitDeletions]; the boolean is [firstErr == nil]. *)
Fixpoint delete_loop (st : store H W) (mbox : string) (uids : list Z) (ok : bool) w
    : bool * W :=
  match uids with
  | [] => (ok, w)
  | uid :: rest =>
      let '(r, w) := st_Delete st mbox uid w in
      delete_loop st mbox rest (ok && is_none r) w
  end.

Definition commitDeletions s (st : store H W) w : bool * W :=
  match GetDeletedUIDs s with
  | [] => (true, w)
  | uids =>
      let '(ok, w) := delete_loop st (mailbox s) uids true w in
      let '(r, w) := st_Expunge st (mailbox s) w in
      (ok && is_none r, w)
  end.

Definition quit_Execute s w args : outcome :=
  match args with
  | _ :: _ => reply false "QUIT command takes no arguments" s w
  | [] =>
      match state s with
      | StateTransaction =>
          let s := EnterUpdate s in
          match sess_store s with
          | Some st =>
              match commitDeletions s st w with
              | (false, w) =>
                  reply false "[SYS/TEMP] some deleted messages not removed" s w
              | (true, w) => reply true "Logging out" s w
              end
          | None => reply true "Logging out" s w
          end
      | StateAuthorization | StateUpdate => reply true "Goodbye" s w
      end
  end.

(** ** TRANSACTION *)
Definition sp2 (a b : Z) : string := fmt_d a +:+ " " +:+ fmt_d b.

(** The shared error mapping of LIST, RETR, UIDL and TOP. *)
Definition get_error (e : pop3_error) : string :=
  match e with
  | ErrNoSuchMessage | ErrMessageDeleted => "No such message"
  | _ => "Failed to retrieve message"
  end.

Definition stat_Execute s w args : outcome :=
  if decide (state s ≠ StateTransaction) then reply false not_valid s w
  else match args with
       | _ :: _ => reply false "STAT command takes no arguments" s w
       | [] => reply true (sp2 (MessageCount s) (TotalSize s)) s w
       end.

Definition list_Execute s w args : outcome :=
  if decide (state s ≠ StateTransaction) then reply false not_valid s w
  else match args with
       | [] =>
           Some (resp_lines
                   (fmt_d (MessageCount s) +:+ " messages (" +:+ fmt_d (TotalSize s)
                      +:+ " octets)")
                   ((λ x, sp2 x.1 (Size x.2)) <$> AllMessages s), s, w)
       | [a] =>
           match Atoi a with
           | None => reply false "Invalid message number" s w
           | Some n =>
               match GetMessage n s with
               | Err e => reply false (get_error e) s w
               | Ok msg => reply true (sp2 n (Size msg)) s w
               end
           end
       | _ => reply false "LIST command takes at most one argument" s w
       end.

Definition retr_Execute s w args : outcome :=
  if decide (state s ≠ StateTransaction) then reply false not_valid s w
  else match args with
       | [a] =>
           match Atoi a with
           | None => reply false "Invalid message number" s w
           | Some n =>
               match GetMessage n s with
               | Err e => reply false (get_error e) s w
               | Ok msg =>
                   match sess_store s with
                   | None => reply false "Message store not available" s w
                   | Some st =>
                       match st_Retrieve st (mailbox s) (UID msg) w with
                       | (Err _, w) => reply false "Failed to retrieve message" s w
                       | (Ok (ReadFails _), w) => reply false "Failed to read message" s w
                       | (Ok (Content content), w) =>
                           Some (resp_lines (fmt_d (Size msg) +:+ " octets")
                                   (splitMessageLines content), s, w)
                       end
                   end
               end
           end
       | _ => reply false "RETR command requires message number" s w
       end.

Definition dele_Execute s w args : outcome :=
  if decide (state s ≠ StateTransaction) then reply false not_valid s w
  else match args with
       | [a] =>
           match Atoi a with
           | None => reply false "Invalid message number" s w
           | Some n =>
               match MarkDeleted n s with
               | None => None
               | Some (Err ErrNoSuchMessage) => reply false "No such message" s w
               | Some (Err ErrMessageDeleted) => reply false "Message already deleted" s w
               | Some (Err _) => reply false "Failed to delete message" s w
               | Some (Ok s') => reply true ("message " +:+ fmt_d n +:+ " deleted") s' w
               end
           end
       | _ => reply false "DELE command requires message number" s w
       end.

Definition rset_Execute s w args : outcome :=
  if decide (state s ≠ StateTransaction) then reply false not_valid s w
  else match args with
       | _ :: _ => reply false "RSET command takes no arguments" s w
       | [] =>
           let s := ResetDeletions s in
           reply true ("maildrop has " +:+ fmt_d (MessageCount s) +:+ " messages") s w
       end.

Definition noop_Execute s w args : outcome :=
  match args with
  | _ :: _ => reply false "NOOP command takes no arguments" s w
  | [] => reply true "" s w
  end.

Definition uidl_Execute s w args : outcome :=
  if decide (state s ≠ StateTransaction) then reply false not_valid s w
  else match args with
       | [] => Some (resp_lines "" ((λ x, sp2 x.1 (UID x.2)) <$> AllMessages s), s, w)
       | [a] =>
           match Atoi a with
           | None => reply false "Invalid message number" s w
           | Some n =>
               match GetMessage n s with
               | Err e => reply false (get_error e) s w
               | Ok msg => reply true (sp2 n (UID msg)) s w
               end
           end
       | _ => reply false "UIDL command takes at most one argument" s w
       end.

(** A [ReadFails] reader gives the scanner nothing before its error, so the line
    count is not reached. *)
Definition top_Execute s w args : outcome :=
  if decide (state s ≠ StateTransaction) then reply false not_valid s w
  else match args with
       | [a; b] =>
           match Atoi a with
           | None => reply false "Invalid message number" s w
           | Some n =>
               match Atoi b with
               | None => reply false "Invalid line count" s w
               | Some k =>
                   if k <? 0 then reply false "Invalid line count" s w
                   else match GetMessage n s with
                   | Err e => reply false (get_error e) s w
                   | Ok msg =>
                       match sess_store s with
                       | None => reply false "Message store not available" s w
                       | Some st =>
                           match st_Retrieve st (mailbox s) (UID msg) w with
                           | (Err _, w) => reply false "Failed to retrieve message" s w
                           | (Ok (ReadFails _), w) => reply false "Failed to read message" s w
                           | (Ok (Content content), w) =>
                               match extractTopLines content k with
                               | Err _ => reply false "Failed to read message" s w
                               | Ok lines => Some (resp_lines "" lines, s, w)
                               end
                           end
                       end
                   end
               end
           end
       | _ => reply false "TOP command requires message number and line count" s w
       end.

Definition Execute (c : command) s w args : outcome :=
  match c with
  | capaCommand => capa_Execute s w args
  | stlsCommand => stls_Execute s w args
  | userCommand => user_Execute s w args
  | passCommand => pass_Execute s w args
  | authCommand => auth_Execute s w args
  | quitCommand => quit_Execute s w args
  | statCommand => stat_Execute s w args
  | listCommand => list_Execute s w args
  | retrCommand => retr_Execute s w args
  | deleCommand => dele_Execute s w args
  | rsetCommand => rset_Execute s w args
  | noopCommand => noop_Execute s w args
  | uidlCommand => uidl_Execute s w args
  | topCommand => top_Execute s w args
  end.
End Commands.
