(* ===== verification/Pop3Handler.v ===== *)
(** * POP3: the connection handler

    src/internal/pop3d/pop3/handler.go: [handleConnection] as a step function
    over what the network delivers. An event is one line read from the client
    together with the outcome of the writes and of the TLS handshake it leads
    to, or the end of the connection (end of file, a read or timeout error, a
    cancelled context, a closed connection). The trace collects the bytes sent
    and the metrics reported. *)
From S2P Require Import Prelude GoStrings Base64 MsgStore Pop3Proto Pop3Session Pop3Commands.
From Stdlib Require Import ZArith Lia.
Open Scope string_scope.
Open Scope list_scope.

Inductive event :=
| EvLine (line : string) (writeOk tlsOk : bool)
| EvEnd.

Inductive out :=
| Sent (bytes : string)
| CommandProcessed (cmd : string)
| AuthAttempt (domain : string) (ok : bool)
| TLSConnectionEstablished
| ConnectionOpened
| ConnectionClosed.
#[export] Instance out_eq_dec : EqDecision out.
Proof. solve_decision. Defined.

Section Handler.
Context {H W : Type} `{Backend H W, GoSasl, MapRange, UnicodeCase}.
Implicit Types (s : Session H W) (w : W).

(** Result of one iteration: whether the loop continues, the state, the trace;
    [None] is a panic. *)
Definition step_result : Type := option (bool * Session H W * W * list out).

Definition send (writeOk : bool) (r : Response) : list out :=
  if writeOk then [Sent (Response_String r)] else [].

(** [sendError] ignores a failed write. *)
Definition sendError (writeOk : bool) (message : string) : list out :=
  send writeOk (resp false message).

(** [resp.OK || (!resp.OK && !resp.Continuation)] *)
Definition auth_completed (r : Response) : bool :=
  OK r || (negb (OK r) && negb (Continuation r)).

(** [upgradeToTLS]; [None] is an error. *)
Definition upgradeToTLS (handshakeOk : bool) s : option (Session H W) :=
  if tlsConfig s then if handshakeOk then Some (SetTLSActive s) else None
  else None.

(** The body of the loop for a line received while a SASL exchange is open. *)
Definition sasl_line s w (line : string) (writeOk : bool) : step_result :=
  match GetCommand commandRegistry "AUTH" with
  | Some authCommand =>
      match ProcessSASLResponse s w line with
      | None => None
      | Some (r, s, w) =>
          if writeOk then
            let metrics := if auth_completed r
              then [AuthAttempt (extractDomain (username s)) (OK r); CommandProcessed "AUTH"]
              else [] in
            Some (true, s, w, send writeOk r ++ metrics)
          else Some (false, s, w, [])
      end
  | _ => Some (true, ClearSASL s, w, sendError writeOk "Internal server error")
  end.

(** What follows a sent response: metrics, the TLS upgrade, and QUIT. *)
Definition after_response s (cmdName : string) (r : Response) (tlsOk : bool) : bool * Session H W * list out :=
  let metrics :=
    if decide (cmdName = "PASS" ∨ cmdName = "AUTH") then
      if negb (bool_decide (cmdName = "AUTH")) || auth_completed r
      then [AuthAttempt (extractDomain (username s)) (OK r)] else []
    else [] in
  if decide (cmdName = "STLS") then
    if OK r then
      match upgradeToTLS tlsOk s with
      | None => (false, s, metrics)
      | Some s' => (true, s', metrics ++ [TLSConnectionEstablished])
      end
    else (true, s, metrics)
  else if decide (cmdName = "QUIT") then (false, s, metrics)
  else (true, s, metrics).

Definition command_line s w (line : string) (writeOk tlsOk : bool) : step_result :=
  match ParseCommand line with
  | Err _ => Some (true, s, w, sendError writeOk "Invalid command")
  | Ok (cmdName, args) =>
      match GetCommand commandRegistry cmdName with
      | None => Some (true, s, w, sendError writeOk "Unknown command")
      | Some cmd =>
          match Execute cmd s w args with
          | None => None
          | Some (r, s, w) =>
              if writeOk then
                let '(continue, s, tail) := after_response s cmdName r tlsOk in
                Some (continue, s, w, CommandProcessed cmdName :: send writeOk r ++ tail)
              else Some (false, s, w, [CommandProcessed cmdName])
          end
      end
  end.

(** One iteration of the command loop. *)
Definition step s w (ev : event) : step_result :=
  match ev with
  | EvEnd => Some (false, s, w, [])
  | EvLine raw writeOk tlsOk =>
      let line := TrimSpace raw in
      if decide (line = "") then Some (true, s, w, [])
      else if IsSASLInProgress s then sasl_line s w line writeOk
      else command_line s w line writeOk tlsOk
  end.

(** The loop, until a step ends it or the given events are used up. *)
Fixpoint run s w (evs : list event) : step_result :=
  match evs with
  | [] => Some (true, s, w, [])
  | ev :: rest =>
      match step s w ev with
      | None => None
      | Some (false, s, w, tr) => Some (false, s, w, tr)
      | Some (true, s, w, tr) =>
          match run s w rest with
          | None => None
          | Some (c, s, w, tr') => Some (c, s, w, tr ++ tr')
          end
      end
  end.

(** The session a connection starts with; [client] is the host part of the
    remote address when it has one. *)
Definition start_session (host : string) (tls connTLS : bool) (client : option string) : Session H W :=
  let mode := if connTLS then ModePop3s else ModePop3 in
  let s := NewSession host mode tls connTLS in
  match client with Some ip => SetClientIP ip s | None => s end.

(** A whole connection: greeting, loop, and the deferred [Cleanup] and
    [ConnectionClosed]. *)
Definition handleConnection (host : string) (tls connTLS : bool) (client : option string)
    (greetOk : bool) (evs : list event) w : option (Session H W * W * list out) :=
  let s := start_session host tls connTLS client in
  let opened := ConnectionOpened :: (if connTLS then [TLSConnectionEstablished] else []) in
  if greetOk then
    match run s w evs with
    | None => None
    | Some (_, s, w, tr) =>
        let '(s, w) := Cleanup s w in
        Some (s, w, opened ++ [Sent ("+OK " +:+ host +:+ " POP3 server ready" +:+ crlf)]
                    ++ tr ++ [ConnectionClosed])
    end
  else let '(s, w) := Cleanup s w in Some (s, w, opened ++ [ConnectionClosed]).
End Handler.

(** * Safety of whole connections *)

(** What the client may rely on of Go's case tables: upper-casing is idempotent. *)
Class UnicodeUpper `{UnicodeCase} := upper_idem s : ToUpper (ToUpper s) = ToUpper s.

Lemma registry_names `{UnicodeCase} name c :
  commandRegistry !! name = Some c → name = Name c.
Proof.
  apply (map_Forall_lookup_1 (λ n c, n = Name c)).
  unfold commandRegistry, RegisterTransactionCommands, RegisterAuthCommands, RegisterCommand, flip.
  cbn [foldl]. repeat (apply map_Forall_insert_2; [reflexivity|]). apply map_Forall_empty.
Qed.

(** The calls on the backend: which are logins, which change the mailbox. *)
Definition is_login (c : call) : bool :=
  match c with CLogin _ _ _ _ => true | _ => false end.
Definition is_write (c : call) : bool :=
  match c with CDelete _ _ _ | CExpunge _ _ => true | _ => false end.
Definition login_from (ip : string) (c : call) : Prop :=
  match c with CLogin _ _ ip' _ => ip' = ip | _ => True end.

Section Safety.
Context {H W : Type} (B : Backend H W) `{GoSasl, MapRange, UnicodeCase}.
#[local] Existing Instance Logged.
Notation session := (Session H (list call * W)).
Implicit Types (s : session) (lw : list call * W) (log : list call) (w : W).

(** The configuration of the connection, and a property of the world that
    logging in, listing and reading keep. *)
Context (tls0 : bool) (ip0 : string) (P : W → Prop).
Hypothesis P_login : ∀ u p ip w, P w → P (be_login u p ip w).2.
Hypothesis P_List : ∀ h m w, P w → P (be_List h m w).2.
Hypothesis P_Retrieve : ∀ h m uid w, P w → P (be_Retrieve h m uid w).2.

(** The loop invariant, over the session and the calls made so far. *)
Record Inv s lw : Prop := {
  inv_conf : insecureAuth s = negb tls0 ∧ clientIP s = ip0;
  inv_marks : marks_ok s;
  inv_fresh : state s = StateAuthorization → authenticatedUser s = None ∧ messageList s = None;
  inv_login : state s ≠ StateAuthorization →
    ∃ u p mb, authenticatedUser s = Some (mkUser u mb) ∧ CLogin u p ip0 (Some mb) ∈ lw.1;
  inv_ip : Forall (login_from ip0) lw.1;
  inv_tls : needs_tls s = true →
    state s = StateAuthorization ∧ saslServer s = None ∧ Forall (λ c, is_login c = false) lw.1;
  inv_sasl : is_Some (saslServer s) → state s = StateAuthorization;
  inv_write : state s ≠ StateUpdate → Forall (λ c, is_write c = false) lw.1;
  inv_store st : sess_store s = Some st → ∃ h, st = Direct h;
  inv_world : Forall (λ c, is_write c = false) lw.1 → P lw.2;
}.

(** Sessions that agree on everything the invariant looks at. *)
Lemma Inv_same s s' lw :
  insecureAuth s' = insecureAuth s → clientIP s' = clientIP s →
  marks_ok s' → state s' = state s → authenticatedUser s' = authenticatedUser s →
  (state s = StateAuthorization → messageList s' = messageList s) →
  (needs_tls s' = true → needs_tls s = true) →
  (is_Some (saslServer s') → is_Some (saslServer s)) →
  sess_store s' = sess_store s → Inv s lw → Inv s' lw.
Proof.
  intros Hc Hip Hm Hst Hu Hml Htls Hsasl Hstore [Ic Im If Il Ii It Is Iw Io Ip].
  split; rewrite ?Hc, ?Hip, ?Hst, ?Hu, ?Hstore; auto.
  - intros E. rewrite Hml by done. auto.
  - intros Hn. destruct (It (Htls Hn)) as (? & Hs & ?). split_and!; [done| |done].
    destruct (saslServer s') eqn:E; [|done].
    destruct (Hsasl (mk_is_Some _ _ eq_refl)) as [? Hs']. congruence.
Qed.

(** Reading from the store adds a call that neither logs in nor writes. *)
Lemma Inv_read s lw c w' :
  is_login c = false → is_write c = false → login_from ip0 c → (P lw.2 → P w') →
  Inv s lw → Inv s (lw.1 ++ [c], w').
Proof.
  intros Hl Hw Hi HP [Ic Im If Il Ii It Is Iw Io Ip]. split; simpl; auto.
  - intros Hs. destruct (Il Hs) as (u & p & mb & Hu & Hin).
    exists u, p, mb. split; [done|]. apply elem_of_app. by left.
  - apply Forall_app. auto.
  - intros Hn. destruct (It Hn) as (? & ? & ?). split_and!; [done..|].
    apply Forall_app. auto.
  - intros Hs. apply Forall_app. auto.
  - intros [? _]%Forall_app. auto.
Qed.

(** A failed login leaves the session where it was. *)
Lemma Inv_login_failed s lw u p r w' :
  needs_tls s = false → (P lw.2 → P w') → Inv s lw →
  Inv s (lw.1 ++ [CLogin u p (clientIP s) r], w').
Proof.
  intros Hn HP [Ic Im If Il Ii It Is Iw Io Ip]. split; simpl; auto.
  - intros Hs. destruct (Il Hs) as (u' & p' & mb & Hu & Hin).
    exists u', p', mb. split; [done|]. apply elem_of_app. by left.
  - apply Forall_app. split; [done|]. constructor; [apply Ic|done].
  - congruence.
  - intros Hs. apply Forall_app. split; [auto|by constructor].
  - intros [? _]%Forall_app. auto.
Qed.

(** A successful login: the session becomes the logged-in user's, whether or
    not the mailbox could be listed. *)
Lemma Inv_logged_in s s1 lw w1 u p mb h :
  Inv s lw → state s = StateAuthorization → needs_tls s = false → (P lw.2 → P w1) →
  state s1 = StateTransaction → authenticatedUser s1 = Some (mkUser u mb) →
  insecureAuth s1 = insecureAuth s → clientIP s1 = clientIP s →
  needs_tls s1 = false → messageList s1 = None →
  ∃ e s2 lw2,
    InitializeMailbox h "" s1 (lw.1 ++ [CLogin u p (clientIP s) (Some mb)], w1) = (e, s2, lw2)
    ∧ Inv (ClearSASL s2) lw2 ∧ state s2 = StateTransaction
    ∧ saslServer s2 = saslServer s1.
Proof.
  intros HI Hst Htls HP Hst1 Hu Hc Hip Htls1 Hml.
  unfold InitializeMailbox, effective_store. rewrite Hu. cbn [decide]. simpl.
  set (log1 := lw.1 ++ [CLogin u p (clientIP s) (Some mb)]). unfold record. simpl.
  pose proof (P_List h mb w1) as HPl. destruct (be_List h mb w1) as [r w'].
  assert (∀ s2, insecureAuth s2 = insecureAuth s → clientIP s2 = clientIP s →
            state s2 = StateTransaction → authenticatedUser s2 = Some (mkUser u mb) →
            needs_tls s2 = false → marks_ok s2 → saslServer s2 = None →
            sess_store s2 = Some (Direct h) → Inv s2 (log1 ++ [CList mb], w')) as Hnew.
  { intros s2 F1 F2 E1 E2 E4 E5 E6 E7.
    apply (Inv_read s2 (log1, w1)); [done|done|done|done|].
    pose proof (Inv_login_failed s lw u p (Some mb) w1 Htls HP HI)
      as [Ic ? ? ? Ii ? ? Iw ? Ip].
    split; rewrite ?E1, ?E2, ?F1, ?F2; try done.
    - intros _. exists u, p, mb. split; [done|]. destruct Ic as [_ <-].
      unfold log1. set_solver.
    - congruence.
    - rewrite E6. by intros [].
    - intros _. apply Iw. by rewrite Hst.
    - rewrite E7. intros st [= <-]. by exists h. }
  destruct r as [l|e]; do 3 eexists; (split; [reflexivity|]); simpl;
    (split_and!; [|done|done]); apply Hnew; try done; unfold marks_ok; simpl.
  - eexists. split; [done|apply empty_subseteq].
  - by rewrite Hml.
Qed.

(** ** Every command preserves the invariant *)
Definition exec_ok s lw (o : outcome) : Prop :=
  ∃ r s' lw', o = Some (r, s', lw') ∧ Inv s' lw' ∧ state s' ≠ StateUpdate.

Lemma reply_ok b m s lw : Inv s lw → state s ≠ StateUpdate → exec_ok s lw (reply b m s lw).
Proof. intros. unfold exec_ok, reply. eauto 10. Qed.

Lemma some_ok r s lw : Inv s lw → state s ≠ StateUpdate → exec_ok s lw (Some (r, s, lw)).
Proof. intros. unfold exec_ok. eauto 10. Qed.

Lemma some_ok_new r s lw s' lw' :
  Inv s' lw' → state s' ≠ StateUpdate → exec_ok s lw (Some (r, s', lw')).
Proof. intros. unfold exec_ok. eauto 10. Qed.
#[local] Hint Resolve reply_ok some_ok some_ok_new : mail.

Lemma Inv_ClearSASL s lw : Inv s lw → Inv (ClearSASL s) lw.
Proof.
  intros HI. apply (Inv_same s); try done; [apply HI|by intros []].
Qed.
#[local] Hint Resolve Inv_ClearSASL : mail.

Lemma Inv_SetSASL s lw mech x :
  Inv s lw → state s = StateAuthorization → needs_tls s = false →
  Inv (set_sasl mech (Some x) s) lw.
Proof.
  intros [Ic Im If Il Ii It Is Iw Io Ip] Hs Hn. split; auto.
  intros Hn'. change (needs_tls (set_sasl mech (Some x) s)) with (needs_tls s) in Hn'.
  congruence.
Qed.

Lemma pass_ok s lw args :
  Inv s lw → state s ≠ StateUpdate → saslServer s = None →
  exec_ok s lw (pass_Execute s lw args).
Proof.
  intros HI Hs Hsasl. unfold pass_Execute.
  case_decide as Hst; [by apply reply_ok|].
  destruct (needs_tls s) eqn:Htls; [by apply reply_ok|].
  case_decide; [by apply reply_ok|].
  destruct args as [|pw [|]]; [by apply reply_ok| |by apply reply_ok].
  unfold loginRecoveringSession. simpl. unfold record.
  pose proof (P_login (username s) pw (clientIP s) lw.2) as HP.
  destruct (be_login (username s) pw (clientIP s) lw.2) as [[[mb h]|e] w']; simpl.
  - destruct (Inv_logged_in s (SetAuthenticated (mkUser (username s) mb) s)
                lw w' (username s) pw mb h) as (e & s2 & lw2 & Hini & HI2 & Hst2 & Hsasl2);
      [done..|by apply HI|].
    rewrite Hini. simpl in Hsasl2. rewrite Hsasl in Hsasl2.
    assert (Inv s2 lw2) as HI3.
    { apply (Inv_same (ClearSASL s2)); try done; [apply HI2|by rewrite Hsasl2]. }
    destruct e; apply some_ok_new; by rewrite ?Hst2.
  - apply some_ok_new; [|done]. by apply Inv_login_failed.
Qed.

Lemma saslStep_ok s lw response :
  Inv s lw → state s ≠ StateUpdate → exec_ok s lw (processSASLStep s lw response).
Proof.
  intros HI Hs. unfold processSASLStep.
  destruct (saslServer s) as [server|] eqn:Hsv; [|by apply reply_ok].
  assert (state s = StateAuthorization) as Hst by (apply (inv_sasl _ _ HI); rewrite Hsv; eauto).
  assert (needs_tls s = false) as Htls.
  { destruct (needs_tls s) eqn:E; [|done]. destruct (inv_tls _ _ HI E) as (_ & ? & _).
    congruence. }
  destruct (plain_Next server response) as [|c sv|i u p].
  - apply some_ok_new; [by apply Inv_ClearSASL|done].
  - apply some_ok_new; [by apply Inv_SetSASL|done].
  - unfold saslAuthenticate, loginRecoveringSession. simpl. unfold record.
    pose proof (P_login u p (clientIP s) lw.2) as HP.
    destruct (be_login u p (clientIP s) lw.2) as [[[mb h]|e] w']; simpl.
    + destruct (Inv_logged_in s (SetUsername u (SetAuthenticated (mkUser u mb) s))
                  lw w' u p mb h) as (e & s2 & lw2 & Hini & HI2 & Hst2 & Hsasl2);
        [done..|by apply HI|].
      rewrite Hini. destruct e; apply some_ok_new; simpl; by rewrite ?Hst2.
    + apply some_ok_new; [|done]. by apply Inv_ClearSASL, Inv_login_failed.
Qed.

Lemma auth_ok s lw args :
  Inv s lw → state s ≠ StateUpdate → exec_ok s lw (auth_Execute s lw args).
Proof.
  intros HI Hs. unfold auth_Execute.
  case_decide as Hst; [by apply reply_ok|].
  destruct (needs_tls s) eqn:Htls; [by apply reply_ok|].
  destruct args as [|name rest]; [by apply reply_ok|].
  case_match; [by apply reply_ok|]. case_decide; [|by apply reply_ok].
  assert (Inv (SetSASLServer (ToUpper name) NewPlainServer s) lw) as HI'
    by (by apply Inv_SetSASL).
  destruct rest as [|initial ?]; [by apply some_ok_new|].
  case_decide; [by apply saslStep_ok|].
  case_match; [by apply saslStep_ok|].
  apply some_ok_new; [by apply Inv_ClearSASL|done].
Qed.

Lemma sasl_response_ok s lw line :
  Inv s lw → state s ≠ StateUpdate → exec_ok s lw (ProcessSASLResponse s lw line).
Proof.
  intros HI Hs. unfold ProcessSASLResponse.
  case_decide; [apply some_ok_new; [by apply Inv_ClearSASL|done]|].
  case_match; [by apply saslStep_ok|].
  apply some_ok_new; [by apply Inv_ClearSASL|done].
Qed.

(** Commands that answer from the session alone. *)
Ltac quiet := repeat case_match; simplify_eq/=;
  first [by apply reply_ok | by apply some_ok | idtac].

Lemma capa_ok s lw args :
  Inv s lw → state s ≠ StateUpdate → exec_ok s lw (capa_Execute s lw args).
Proof. intros. unfold capa_Execute. quiet. Qed.
Lemma stls_ok s lw args :
  Inv s lw → state s ≠ StateUpdate → exec_ok s lw (stls_Execute s lw args).
Proof. intros. unfold stls_Execute. quiet. Qed.
Lemma noop_ok s lw args :
  Inv s lw → state s ≠ StateUpdate → exec_ok s lw (noop_Execute s lw args).
Proof. intros. unfold noop_Execute. quiet. Qed.
Lemma stat_ok s lw args :
  Inv s lw → state s ≠ StateUpdate → exec_ok s lw (stat_Execute s lw args).
Proof. intros. unfold stat_Execute. quiet. Qed.
Lemma list_ok s lw args :
  Inv s lw → state s ≠ StateUpdate → exec_ok s lw (list_Execute s lw args).
Proof. intros. unfold list_Execute. quiet. Qed.
Lemma uidl_ok s lw args :
  Inv s lw → state s ≠ StateUpdate → exec_ok s lw (uidl_Execute s lw args).
Proof. intros. unfold uidl_Execute. quiet. Qed.

Lemma user_ok s lw args :
  Inv s lw → state s ≠ StateUpdate → exec_ok s lw (user_Execute s lw args).
Proof.
  intros HI Hs. unfold user_Execute. quiet. apply some_ok_new; [|done].
  apply (Inv_same s); try done. apply HI.
Qed.

Lemma dele_ok s lw args :
  Inv s lw → state s ≠ StateUpdate → exec_ok s lw (dele_Execute s lw args).
Proof.
  intros HI Hs. unfold dele_Execute. case_decide as Hst; [by apply reply_ok|].
  destruct args as [|a [|]]; [by apply reply_ok| |by apply reply_ok].
  destruct (Atoi a) as [n|]; [|by apply reply_ok].
  pose proof (MarkDeleted_no_panic s n (inv_marks _ _ HI)).
  destruct (MarkDeleted n s) as [[s'|e]|] eqn:E; [|destruct e; by apply reply_ok|done].
  pose proof (marks_ok_MarkDeleted s s' n (inv_marks _ _ HI) E).
  apply MarkDeleted_Ok in E as (l & d & Hl & Hd & Hn & _ & ->).
  apply some_ok_new; [|done]. by apply (Inv_same s).
Qed.

Lemma rset_ok s lw args :
  Inv s lw → state s ≠ StateUpdate → exec_ok s lw (rset_Execute s lw args).
Proof.
  intros HI Hs. unfold rset_Execute. quiet. apply some_ok_new; [|done].
  apply (Inv_same s); try done. apply marks_ok_reset.
Qed.

(** RETR and TOP read the store once. *)
Lemma st_Retrieve_inv s st mb uid lw r lw' :
  Inv s lw → sess_store s = Some st → st_Retrieve st mb uid lw = (r, lw') → Inv s lw'.
Proof.
  intros HI Hst Hr. destruct (inv_store _ _ HI _ Hst) as [h ->]. simpl in Hr.
  unfold record in Hr. pose proof (P_Retrieve h mb uid lw.2).
  destruct (be_Retrieve h mb uid lw.2). simplify_eq/=.
  by apply Inv_read.
Qed.

Lemma retr_ok s lw args :
  Inv s lw → state s ≠ StateUpdate → exec_ok s lw (retr_Execute s lw args).
Proof.
  intros HI Hs. unfold retr_Execute. quiet;
    apply some_ok_new; try done; by eapply st_Retrieve_inv.
Qed.

Lemma top_ok s lw args :
  Inv s lw → state s ≠ StateUpdate → exec_ok s lw (top_Execute s lw args).
Proof.
  intros HI Hs. unfold top_Execute. quiet;
    apply some_ok_new; try done; by eapply st_Retrieve_inv.
Qed.

(** ** QUIT *)
Lemma delete_loop_log h mb uids ok lw :
  ∃ oks, length oks = length uids ∧
    (delete_loop (Direct h) mb uids ok lw).2.1 = lw.1 ++ zip_with (CDelete mb) uids oks ∧
    (delete_loop (Direct h) mb uids ok lw).1 = ok && forallb id oks.
Proof.
  revert ok lw. induction uids as [|uid uids IH]; intros ok lw; cbn [delete_loop].
  { exists []. simpl. rewrite andb_true_r, app_nil_r. done. }
  simpl. unfold record. destruct (be_Delete h mb uid lw.2) as [r w'].
  destruct (IH (ok && is_none r) (lw.1 ++ [CDelete mb uid (is_none r)], w'))
    as (oks & Hlen & Hlog & Hok).
  exists (is_none r :: oks). simpl. rewrite Hlen, Hlog, Hok. split_and!; [done| |].
  - simpl. by rewrite <-app_assoc.
  - simpl. by rewrite andb_assoc.
Qed.

(** The calls of a commit: one Delete per marked message, then one Expunge;
    none at all when nothing is marked. *)
Lemma commitDeletions_log s h lw :
  ∃ oks, length oks = length (GetDeletedUIDs s) ∧
    match GetDeletedUIDs s with
    | [] => commitDeletions s (Direct h) lw = (true, lw)
    | uids => ∃ xok,
        (commitDeletions s (Direct h) lw).2.1
          = lw.1 ++ zip_with (CDelete (mailbox s)) uids oks ++ [CExpunge (mailbox s) xok]
        ∧ (commitDeletions s (Direct h) lw).1 = forallb id oks && xok
    end.
Proof.
  unfold commitDeletions. destruct (GetDeletedUIDs s) as [|u us]; [by exists []|].
  destruct (delete_loop_log h (mailbox s) (u :: us) true lw) as (oks & Hlen & Hlog & Hok).
  exists oks. split; [done|].
  destruct (delete_loop (Direct h) (mailbox s) (u :: us) true lw) as [ok lw1].
  simpl in Hlog, Hok. simpl. unfold record. destruct (be_Expunge h (mailbox s) lw1.2) as [r w'].
  exists (is_none r). simpl. rewrite Hlog, <-app_assoc. by subst ok.
Qed.

(** Entering UPDATE: from then on calls may change the mailbox. *)
Lemma Inv_update s lw calls w' :
  Inv s lw → state s = StateTransaction → Forall (λ c, is_login c = false) calls →
  (Forall (λ c, is_write c = false) calls → w' = lw.2) →
  Inv (set_state StateUpdate s) (lw.1 ++ calls, w').
Proof.
  intros [Ic Im If Il Ii It Is Iw Io Ip] Hs Hc Hw. split; simpl; auto.
  - done.
  - intros _. destruct Il as (u & p & mb & ? & ?); [by rewrite Hs|].
    exists u, p, mb. split; [done|]. set_solver.
  - apply Forall_app. split; [done|]. eapply Forall_impl; [exact Hc|].
    by intros [].
  - intros Hn. destruct (It Hn) as (? & _). congruence.
  - intros Hsv. apply Is in Hsv. congruence.
  - done.
  - intros [? ?]%Forall_app. rewrite Hw by done. auto.
Qed.

Lemma Inv_quiet_update s lw :
  Inv s lw → state s = StateTransaction → Inv (set_state StateUpdate s) lw.
Proof.
  intros. destruct lw as [log w]. rewrite <-(app_nil_r log).
  by apply (Inv_update s (log, w)).
Qed.

Lemma commit_calls_not_login mb uids oks :
  Forall (λ c, is_login c = false) (zip_with (CDelete mb) uids oks).
Proof.
  revert oks. induction uids as [|u us IH]; intros [|o oks]; simpl; auto.
Qed.

Lemma quit_inv s lw args :
  Inv s lw → state s ≠ StateUpdate →
  ∃ r s' lw', quit_Execute s lw args = Some (r, s', lw') ∧ Inv s' lw'.
Proof.
  intros HI Hs. unfold quit_Execute, reply.
  destruct args; [|by eauto 10].
  destruct (state s) eqn:Hst; [by eauto 10| |done].
  unfold EnterUpdate. rewrite decide_True by done. simpl.
  destruct (sess_store s) as [st|] eqn:Hstore.
  2:{ do 3 eexists. split; [done|]. by apply Inv_quiet_update. }
  destruct (inv_store _ _ HI _ Hstore) as [h ->].
  destruct (commitDeletions_log (set_state StateUpdate s) h lw) as (oks & _ & Hc).
  destruct (GetDeletedUIDs _) as [|u us] eqn:Hd.
  { rewrite Hc. do 3 eexists. split; [done|]. by apply Inv_quiet_update. }
  destruct Hc as (xok & Hlog & Hok).
  destruct (commitDeletions (set_state StateUpdate s) (Direct h) lw) as [ok lw'].
  simpl in Hlog. assert (Inv (set_state StateUpdate s) lw') as HI'.
  { destruct lw' as [log' w']. simpl in Hlog. rewrite Hlog. apply Inv_update; [done..| |].
    - apply Forall_app. split; [apply (commit_calls_not_login _ (u :: us))|by constructor].
    - intros [_ Hx]%Forall_app. by apply Forall_cons in Hx as [? _]. }
  destruct ok; eauto 10.
Qed.

Lemma Execute_ok c s lw args :
  Inv s lw → state s ≠ StateUpdate → saslServer s = None → c ≠ quitCommand →
  exec_ok s lw (Execute c s lw args).
Proof.
  intros. destruct c; simpl; auto using capa_ok, stls_ok, user_ok, pass_ok, auth_ok,
    stat_ok, list_ok, retr_ok, dele_ok, rset_ok, noop_ok, uidl_ok, top_ok. done.
Qed.

(** ** The loop *)
Definition step_ok (o : step_result) : Prop :=
  ∃ c s' lw' tr, o = Some (c, s', lw', tr) ∧ Inv s' lw' ∧ (c = true → state s' ≠ StateUpdate).

Lemma Inv_tls_active s lw : Inv s lw → Inv (SetTLSActive s) lw.
Proof. intros HI. apply (Inv_same s); try done. apply HI. Qed.

Lemma step_ok_intro c s lw tr :
  Inv s lw → (c = true → state s ≠ StateUpdate) → step_ok (Some (c, s, lw, tr)).
Proof. intros. unfold step_ok. eauto 10. Qed.

Lemma after_response_ok s cmdName r tlsOk lw c s' tail :
  after_response s cmdName r tlsOk = (c, s', tail) → Inv s lw →
  Inv s' lw ∧ state s' = state s ∧ (cmdName = "QUIT" → c = false).
Proof.
  unfold after_response, upgradeToTLS. intros Ha HI.
  repeat case_match; simplify_eq/=; split_and!; try done; by apply Inv_tls_active.
Qed.

Context `{!UnicodeUpper}.

Lemma command_line_ok s lw line writeOk tlsOk :
  Inv s lw → state s ≠ StateUpdate → saslServer s = None →
  step_ok (command_line s lw line writeOk tlsOk).
Proof.
  intros HI Hs Hsasl. unfold command_line.
  destruct (ParseCommand line) as [[cmdName args]|] eqn:Hp; [|by apply step_ok_intro].
  destruct (GetCommand commandRegistry cmdName) as [cmd|] eqn:Hg; [|by apply step_ok_intro].
  assert (cmdName = Name cmd) as Hname.
  { unfold GetCommand in Hg. apply registry_names in Hg. rewrite <-Hg.
    unfold ParseCommand in Hp. repeat case_match; simplify_eq. by rewrite upper_idem. }
  destruct (decide (cmd = quitCommand)) as [->|Hq].
  - destruct (quit_inv s lw args HI Hs) as (r & s' & lw' & E & HI'). simpl. rewrite E.
    destruct writeOk; [|by apply step_ok_intro].
    destruct (after_response s' cmdName r tlsOk) as [[c s2] tail] eqn:Ha.
    destruct (after_response_ok _ _ _ _ _ _ _ _ Ha HI') as (? & ? & Hc).
    apply step_ok_intro; [done|]. rewrite Hc by done. done.
  - destruct (Execute_ok cmd s lw args) as (r & s' & lw' & E & HI' & Hs'); [done..|].
    rewrite E. destruct writeOk; [|by apply step_ok_intro].
    destruct (after_response s' cmdName r tlsOk) as [[c s2] tail] eqn:Ha.
    destruct (after_response_ok _ _ _ _ _ _ _ _ Ha HI') as (? & Hst & _).
    apply step_ok_intro; [done|]. by rewrite Hst.
Qed.

Lemma sasl_line_ok s lw line writeOk :
  Inv s lw → state s ≠ StateUpdate → step_ok (sasl_line s lw line writeOk).
Proof.
  intros HI Hs. unfold sasl_line.
  assert (step_ok (Some (true, ClearSASL s, lw, sendError writeOk "Internal server error")))
    by (by apply step_ok_intro; [apply Inv_ClearSASL|]).
  destruct (GetCommand _ _) as [[]|]; try done.
  destruct (sasl_response_ok s lw line HI Hs) as (r & s' & lw' & -> & HI' & Hs').
  destruct writeOk; by apply step_ok_intro.
Qed.

Lemma step_preserves s lw ev :
  Inv s lw → state s ≠ StateUpdate → step_ok (step s lw ev).
Proof.
  intros HI Hs. destruct ev as [raw writeOk tlsOk|]; simpl; [|by apply step_ok_intro].
  case_decide; [by apply step_ok_intro|]. unfold IsSASLInProgress.
  destruct (saslServer s) eqn:Hsv; [by apply sasl_line_ok|by apply command_line_ok].
Qed.

Lemma run_preserves s lw evs :
  Inv s lw → state s ≠ StateUpdate → step_ok (run s lw evs).
Proof.
  revert s lw. induction evs as [|ev evs IH]; intros s lw HI Hs; cbn [run].
  { by apply step_ok_intro. }
  destruct (step_preserves s lw ev HI Hs) as (c & s' & lw' & tr & -> & HI' & Hs').
  destruct c; [|by apply step_ok_intro].
  destruct (IH s' lw' HI' (Hs' eq_refl)) as (c & s2 & lw2 & tr2 & -> & ? & ?).
  by apply step_ok_intro.
Qed.

Lemma Inv_start host connTLS client w :
  ip0 = default "" client → P w →
  Inv (start_session host tls0 connTLS client : session) ([], w).
Proof. intros -> HP. destruct client; split; simpl; try done; by intros []. Qed.
End Safety.

(** ** What whole connections guarantee *)
(** A line that parses as QUIT without arguments. *)
Definition bare_quit `{UnicodeCase} (ev : event) : bool :=
  match ev with
  | EvEnd => false
  | EvLine raw _ _ =>
      match ParseCommand (TrimSpace raw) with
      | Ok (name, []) => bool_decide (name = "QUIT")
      | _ => false
      end
  end.

Section Connections.
Context {H W : Type} (B : Backend H W) `{GoSasl, MapRange, UnicodeCase, !UnicodeUpper}.
#[local] Existing Instance Logged.
Notation session := (Session H (list call * W)).
Implicit Types (s : session) (lw : list call * W) (w : W).

(** C12: Whatever a client sends, the handler never panics, and: a session is
    in TRANSACTION or UPDATE only for a user the session-manager accepted a
    password for, from this client's address; with TLS configured, no login
    is attempted and nothing is authenticated while the connection is in the
    clear; and every login attempt carries the client's address, so rate
    limiting sees it. *)
Theorem connection_auth_sound host tls connTLS client evs w :
  ∃ c s log w' tr,
    run (start_session host tls connTLS client : session) ([], w) evs
      = Some (c, s, (log, w'), tr) ∧
    (IsAuthenticated s = true →
       ∃ u p mb, authenticatedUser s = Some (mkUser u mb) ∧
                 CLogin u p (default "" client) (Some mb) ∈ log) ∧
    (tls = true → IsTLSActive s = false →
       IsAuthenticated s = false ∧ Forall (λ c, is_login c = false) log) ∧
    Forall (login_from (default "" client)) log.
Proof.
  set (ip := default "" client).
  destruct (run_preserves B tls ip (λ _, True) ltac:(done) ltac:(done) ltac:(done)
              (start_session host tls connTLS client) ([], w) evs)
    as (c & s & [log w'] & tr & E & HI & _); [by apply Inv_start|by destruct client|].
  exists c, s, log, w', tr. split_and!; [done|..].
  - intros Ha. apply (inv_login _ _ _ _ _ HI). unfold IsAuthenticated in Ha.
    intros Hst. rewrite Hst in Ha. by apply orb_prop in Ha as [?|?]; reflect_bools.
  - intros -> Hn. destruct (inv_conf _ _ _ _ _ HI) as [Hi _].
    destruct (inv_tls _ _ _ _ _ HI) as (Hst & _ & Hlog).
    { unfold needs_tls. by rewrite Hn, Hi. }
    split; [|done]. unfold IsAuthenticated. by rewrite Hst.
  - apply HI.
Qed.

(** Without a bare QUIT the session never enters UPDATE. *)
Lemma quit_args_quiet s lw a args r s' lw' :
  quit_Execute s lw (a :: args) = Some (r, s', lw') → s' = s ∧ lw' = lw.
Proof. unfold quit_Execute, reply. naive_solver. Qed.

Lemma step_no_quit tls ip P s lw ev c s' lw' tr
    (HPl : ∀ u p ip w, P w → P (be_login u p ip w).2)
    (HPL : ∀ h m w, P w → P (be_List h m w).2)
    (HPR : ∀ h m uid w, P w → P (be_Retrieve h m uid w).2) :
  Inv tls ip P s lw → state s ≠ StateUpdate → bare_quit ev = false →
  step s lw ev = Some (c, s', lw', tr) → state s' ≠ StateUpdate.
Proof.
  intros HI Hs Hq. destruct ev as [raw wok tok|]; simpl; [|by intros [= <- <- <- <-]].
  case_decide; [by intros [= <- <- <- <-]|]. unfold IsSASLInProgress.
  destruct (saslServer s) eqn:Hsv.
  { unfold sasl_line. destruct (GetCommand _ _) as [[]|]; try by intros [= <- <- <- <-].
    destruct (sasl_response_ok B tls ip P HPl HPL HPR s lw (TrimSpace raw) HI Hs)
      as (r & s2 & lw2 & -> & _ & ?). destruct wok; by intros [= <- <- <- <-]. }
  unfold command_line. simpl in Hq.
  destruct (ParseCommand (TrimSpace raw)) as [[name args]|] eqn:Hp; [|by intros [= <- <- <- <-]].
  destruct (GetCommand commandRegistry name) as [cmd|] eqn:Hg; [|by intros [= <- <- <- <-]].
  assert (∃ r s2 lw2, Execute cmd s lw args = Some (r, s2, lw2) ∧ state s2 ≠ StateUpdate
            ∧ Inv tls ip P s2 lw2) as (r & s2 & lw2 & -> & Hs2 & HI2).
  { destruct (decide (cmd = quitCommand)) as [->|Hne].
    - destruct args as [|a args].
      + apply bool_decide_eq_false in Hq. unfold GetCommand in Hg.
        apply registry_names in Hg. destruct Hq.
        unfold ParseCommand in Hp. repeat case_match; simplify_eq.
        by rewrite upper_idem in Hg.
      + destruct (quit_inv B tls ip P HPl HPL HPR s lw (a :: args) HI Hs) as (r & s2 & lw2 & E & HI').
        destruct (quit_args_quiet _ _ _ _ _ _ _ E) as [-> ->]. cbn [Execute]. rewrite E. eauto 10.
    - destruct (Execute_ok B tls ip P HPl HPL HPR cmd s lw args)
        as (r & s2 & lw2 & -> & ? & ?); eauto 10. }
  destruct wok; [|by intros [= <- <- <- <-]].
  destruct (after_response s2 name r tok) as [[c2 s3] tail] eqn:Ha.
  destruct (after_response_ok _ _ _ _ _ _ _ _ _ _ _ Ha HI2) as (_ & Hst & _).
  intros [= <- <- <- <-]. by rewrite Hst.
Qed.

Lemma run_no_quit tls ip P s lw evs c s' lw' tr
    (HPl : ∀ u p ip w, P w → P (be_login u p ip w).2)
    (HPL : ∀ h m w, P w → P (be_List h m w).2)
    (HPR : ∀ h m uid w, P w → P (be_Retrieve h m uid w).2) :
  Inv tls ip P s lw → state s ≠ StateUpdate → Forall (λ ev, bare_quit ev = false) evs →
  run s lw evs = Some (c, s', lw', tr) → Inv tls ip P s' lw' ∧ state s' ≠ StateUpdate.
Proof.
  intros HI Hs Hq. revert s lw HI Hs c s' lw' tr.
  induction Hq as [|ev evs Hev Hq IH]; intros s lw HI Hs c s' lw' tr; cbn [run].
  { by intros [= <- <- <- <-]. }
  destruct (step_preserves B tls ip P HPl HPL HPR s lw ev HI Hs)
    as (c1 & s1 & lw1 & tr1 & E & HI1 & _). rewrite E.
  pose proof (step_no_quit tls ip P s lw ev c1 s1 lw1 tr1 HPl HPL HPR HI Hs Hev E) as Hs1.
  destruct c1; [|by intros [= <- <- <- <-]].
  destruct (run s1 lw1 evs) as [[[[c2 s2] lw2] tr2]|] eqn:E2; [|done].
  intros [= <- <- <- <-]. by eapply IH.
Qed.

Lemma no_quit_keeps_mail {X} `{!BackendObs H W X} host tls connTLS client greetOk evs w :
  Forall (λ ev, bare_quit ev = false) evs →
  ∃ s log w' tr,
    handleConnection (host) tls connTLS client greetOk evs (([], w) : list call * W)
      = Some (s : session, (log, w'), tr) ∧
    Forall (λ c, is_write c = false) log ∧ obs w' = obs w.
Proof.
  intros Hq. set (ip := default "" client). set (P := λ w', obs w' = obs w).
  assert (∀ s lw, Inv tls ip P s lw → state s ≠ StateUpdate →
    ∃ s' log w', Cleanup s lw = (s', (log, w')) ∧ Forall (λ c, is_write c = false) log
                 ∧ obs w' = obs w) as Hclean.
  { intros s [log w1] HI Hs. pose proof (inv_write _ _ _ _ _ HI Hs) as Hnw.
    pose proof (inv_world _ _ _ _ _ HI Hnw) as Hw. simpl in *. unfold Cleanup.
    destruct (sess_store s) as [st|] eqn:Hst; [|by eauto 10].
    destruct (inv_store _ _ _ _ _ HI _ Hst) as [h ->]. simpl.
    pose proof (obs_close h) as Hcl. destruct (be_close h) as [f|]; simpl; [|by eauto 10].
    unfold record. specialize (Hcl f w1 eq_refl). simpl. destruct (f w1) as [r w2].
    do 3 eexists. split_and!; [done| |by rewrite <-Hw].
    apply Forall_app. split; [done|by constructor]. }
  assert (Inv tls ip P (start_session host tls connTLS client : session) ([], w)) as HI0
    by (by apply Inv_start).
  assert (state (start_session host tls connTLS client : session) ≠ StateUpdate) as Hs0
    by (by destruct client).
  assert (∀ u p ip w, P w → P (be_login u p ip w).2) as HPl
    by (intros; unfold P; by rewrite obs_login).
  assert (∀ h m w, P w → P (be_List h m w).2) as HPL
    by (intros; unfold P; by rewrite obs_List).
  assert (∀ h m uid w, P w → P (be_Retrieve h m uid w).2) as HPR
    by (intros; unfold P; by rewrite obs_Retrieve).
  unfold handleConnection. destruct greetOk.
  - destruct (run_preserves B tls ip P HPl HPL HPR _ ([], w) evs HI0 Hs0)
      as (c & s & lw & tr & E & _). rewrite E.
    destruct (run_no_quit tls ip P _ _ _ _ _ _ _ HPl HPL HPR HI0 Hs0 Hq E) as [HI Hs].
    destruct (Hclean s lw HI Hs) as (s' & log & w' & -> & ? & ?). eauto 10.
  - destruct (Hclean _ _ HI0 Hs0) as (s' & log & w' & -> & ? & ?). eauto 10.
Qed.

(** A connection that ends without QUIT (dropped, timed out, or closed by
    the server) has deleted nothing: no Delete or Expunge call was made, and
    the mailbox, seen through anything that logging in, listing, reading and
    logging out leave alone, is what it was. *)
Lemma no_quit_no_deletion {X} `{!BackendObs H W X} host tls connTLS client greetOk evs w :
  Forall (λ ev, bare_quit ev = false) evs →
  ∃ s log w' tr,
    handleConnection (host) tls connTLS client greetOk evs (([], w) : list call * W)
      = Some (s : session, (log, w'), tr) ∧
    Forall (λ c, is_write c = false) log ∧ obs w' = obs w.
Proof. apply no_quit_keeps_mail. Qed.

(** QUIT in TRANSACTION enters UPDATE and commits: one Delete call for
    the UID of every marked message and of no other, then exactly one Expunge
    (no call at all when nothing is marked), and the answer is +OK exactly
    when every one of these calls succeeded. *)
Lemma quit_commits s h w :
  state s = StateTransaction → marks_ok s → sess_store s = Some (Direct h) →
  ∃ r s' log w',
    quit_Execute s ([], w) [] = Some (r, s', (log, w')) ∧ state s' = StateUpdate ∧
    match marked s with
    | [] => log = [] ∧ w' = w ∧ OK r = true
    | msgs => ∃ uids oks xok,
        uids ≡ₚ UID <$> msgs ∧ length oks = length uids ∧
        log = zip_with (CDelete (mailbox s)) uids oks ++ [CExpunge (mailbox s) xok] ∧
        OK r = forallb id oks && xok
    end.
Proof.
  intros Hst Hm Hstore. unfold quit_Execute, reply, EnterUpdate. rewrite Hst.
  rewrite decide_True by done. simpl. rewrite Hstore.
  assert (GetDeletedUIDs (set_state StateUpdate s) ≡ₚ UID <$> marked s) as Hd
    by (rewrite <-(marked_ext s (set_state StateUpdate s)) by done;
        by apply GetDeletedUIDs_marked).
  destruct (commitDeletions_log B (set_state StateUpdate s) h ([], w)) as (oks & Hlen & Hc).
  destruct (GetDeletedUIDs (set_state StateUpdate s)) as [|u us] eqn:Eu.
  { rewrite Hc. destruct (marked s); [by eauto 15|]. by apply Permutation_nil_cons in Hd. }
  destruct Hc as (xok & Hlog & Hok).
  destruct (commitDeletions _ _ _) as [ok [log w']]. simpl in Hlog, Hok. subst ok.
  destruct (marked s) as [|m ms]; [by apply Permutation_sym, Permutation_nil_cons in Hd|].
  destruct (forallb id oks && xok) eqn:Eok; do 4 eexists; (split; [done|]);
    (split; [done|]); exists (u :: us), oks, xok; split_and!; try done.
Qed.
End Connections.

(** ** Concrete connections *)
Module Dialogue.
(** ASCII-only case tables. *)
Definition ascii_case : UnicodeCase :=
  {| unicode_upper := smap up; unicode_lower := smap down;
     unicode_fold := λ s t, bool_decide (s = t) |}.
#[local] Existing Instances ascii_case Demo.plain_demo Demo.range_demo MemBackend.

Lemma up_idem c : up (up c) = up c.
Proof. destruct c as [[] [] [] [] [] [] [] []]; reflexivity. Qed.

Lemma smap_up_idem s : smap up (smap up s) = smap up s.
Proof. induction s as [|c s IH]; simpl; [done|]. by rewrite up_idem, IH. Qed.

#[export] Instance ascii_upper : @UnicodeUpper ascii_case.
Proof.
  assert (∀ s, @ToUpper ascii_case s = smap up s) as E
    by (intros s; unfold ToUpper; by destruct (sforall is_ascii_byte s)).
  intros s. rewrite !E. apply smap_up_idem.
Qed.

Definition box : memStore :=
  mkMem "ann" "pw" [(Demo.info 7 5, "A: b" +:+ crlf +:+ crlf +:+ ".x"); (Demo.info 9 50, "")] [].

Definition say (line : string) : event := EvLine (line +:+ crlf) true true.
Definition session_events : list event :=
  [say "user ann"; say "PASS pw"; say "STAT"; say "TOP 1 5"; say "DELE 1"; say "LIST"].

Definition dialogue (evs : list event) : option (list string) :=
  match @run unit memStore MemBackend _ _ _
          (start_session "mx" false false None) box evs with
  | Some (_, _, _, tr) =>
      Some (omap (λ o, match o with Sent b => Some b | _ => None end) tr)
  | None => None
  end.

(** What the client of this session reads. *)
Example dialogue_transcript :
  dialogue (session_events ++ [say "QUIT"; say "NOOP"]) = Some
    ["+OK User ann accepted" +:+ crlf;
     "+OK Logged in as ann" +:+ crlf;
     "+OK 2 55" +:+ crlf;
     "+OK" +:+ crlf +:+ "A: b" +:+ crlf +:+ crlf +:+ "..x" +:+ crlf +:+ "." +:+ crlf;
     "+OK message 1 deleted" +:+ crlf;
     "+OK 1 messages (50 octets)" +:+ crlf +:+ "2 50" +:+ crlf +:+ "." +:+ crlf;
     "+OK Logging out" +:+ crlf].
Proof. vm_compute. reflexivity. Qed.
End Dialogue.

Lemma connection_auth_sound_witness :
  ∃ c s log w' tr,
    @run unit (list call * memStore) (Logged MemBackend) Demo.plain_demo Demo.range_demo
      Dialogue.ascii_case (start_session "mx" true false (Some "192.0.2.1"))
      ([], Dialogue.box) Dialogue.session_events = Some (c, s, (log, w'), tr) ∧
    (true = true → IsTLSActive s = false →
       IsAuthenticated s = false ∧ Forall (λ c, is_login c = false) log).
Proof.
  destruct (@connection_auth_sound unit memStore MemBackend Demo.plain_demo Demo.range_demo
    Dialogue.ascii_case Dialogue.ascii_upper "mx" true false (Some "192.0.2.1")
    Dialogue.session_events Dialogue.box)
    as (c & s & log & w' & tr & E & _ & Htls & _).
  exists c, s, log, w', tr. split; [exact E|exact Htls].
Defined.

Lemma no_quit_no_deletion_example :
  ∃ s log w' tr,
    @handleConnection unit (list call * memStore) (Logged MemBackend) Demo.plain_demo
      Demo.range_demo Dialogue.ascii_case "mx" false false None true
      Dialogue.session_events ([], Dialogue.box) = Some (s, (log, w'), tr) ∧
    Forall (λ c, is_write c = false) log ∧ mem_msgs w' = mem_msgs Dialogue.box.
Proof.
  apply (@no_quit_no_deletion unit memStore MemBackend Demo.plain_demo Demo.range_demo
    Dialogue.ascii_case Dialogue.ascii_upper _ MemBackendObs "mx" false false None true
    Dialogue.session_events Dialogue.box).
  repeat constructor.
Defined.

(** A session with message 1 of two marked for deletion. *)
Definition one_marked : @Session unit (list call * memStore) Demo.plain_demo :=
  @mkSession unit (list call * memStore) Demo.plain_demo StateTransaction TLSStateActive
    "mx" ModePop3s true false "" "ann" (Some (mkUser "ann" "ann")) None "" "ann"
    (Some (Direct tt)) (Some [Demo.info 7 5; Demo.info 9 50]) (Some {[1%Z]}).

Lemma quit_commits_example :
  ∃ r s' log w',
    @quit_Execute unit (list call * memStore) (Logged MemBackend) Demo.plain_demo
      Demo.range_demo one_marked ([], Dialogue.box) [] = Some (r, s', (log, w')) ∧
    state s' = StateUpdate ∧ OK r = true ∧
    log = [CDelete "ann" 7 true; CExpunge "ann" true].
Proof.
  destruct (@quit_commits unit memStore MemBackend Demo.plain_demo Demo.range_demo
    one_marked tt Dialogue.box) as (r & s' & log & w' & E & Hs & _).
  - reflexivity.
  - eexists. split; [reflexivity|]. apply (bool_decide_unpack _). vm_compute. exact I.
  - reflexivity.
  - exists r, s', log, w'. split; [exact E|]. split; [exact Hs|].
    vm_compute in E. injection E as <- <- <- <-. by split.
Defined.

(** A login whose mailbox cannot be listed is answered with -ERR, yet the
    session has entered TRANSACTION. *)
Lemma failed_listing_still_authenticated {H W} (B : Backend H W) `{GoSasl} s w u p mb h e w1 w2 :
  state s = StateAuthorization → needs_tls s = false → username s = u → u ≠ "" →
  be_login u p (clientIP s) w = (Ok (mb, h), w1) → be_List h mb w1 = (Err e, w2) →
  ∃ s', pass_Execute s w [p] = Some (resp false "Failed to access mailbox", s', w2)
        ∧ state s' = StateTransaction.
Proof.
  intros Hst Htls Hu Hne Hl Hli. unfold pass_Execute, loginRecoveringSession.
  rewrite decide_False by (by intros Hn; apply Hn). rewrite Htls, Hu, decide_False by done.
  rewrite Hl. unfold InitializeMailbox. simpl. rewrite Hli. unfold reply. eauto.
Qed.

(** QUIT with an argument is refused, yet ends the connection without
    committing the deletion marks. *)
Lemma quit_argument_closes :
  match @run unit (list call * memStore) (Logged MemBackend) Demo.plain_demo
          Demo.range_demo Dialogue.ascii_case one_marked ([], Dialogue.box)
          [Dialogue.say "QUIT now"; Dialogue.say "QUIT"] with
  | Some (continue, s', (log, _), tr) =>
      continue = false ∧ log = [] ∧
      tr = [CommandProcessed "QUIT"; Sent ("-ERR QUIT command takes no arguments" +:+ crlf)]
  | None => False
  end.
Proof. vm_compute. done. Qed.
