(* ===== verification/SmClient.v ===== *)
(** * The recovering session-manager client

    src/internal/smclient/session.go: a session that keeps its credential and
    logs in again when the session-manager restarts, retrying reads and never
    replaying writes; and pop3d's store on top of it
    (src/internal/pop3d/pop3/smstore.go), which is the [Backend] of the POP3
    daemon.

    The gRPC client, the clock and the [select] statement are the interface
    [Client]. Times are milliseconds. Calls are made one at a time, as the
    per-connection daemons make them; the mutexes are not modelled. The retry
    loops take fuel, and [read_fuel] is proved to be enough. *)
From S2P Require Import Prelude GoStrings MsgStore.
From Stdlib Require Import ZArith Lia Relations.
Open Scope string_scope.
Open Scope list_scope.
Open Scope Z_scope.

(** ** The gRPC client and time *)
Inductive code := Unavailable | Unauthenticated | OtherCode (n : Z).
#[export] Instance code_eq_dec : EqDecision code.
Proof. solve_decision. Defined.
Record rpc_err := mkRpc { err_code : code; err_text : string }.
#[export] Instance rpc_err_eq_dec : EqDecision rpc_err.
Proof. solve_decision. Defined.

(** Which case of the [select] statement ran. *)
Inductive wake := WCtxDone | WDeadline | WTimer.

Class Client (W : Type) := {
  cl_Login : string → string → string → W → result (string * string) rpc_err * W;
  cl_Logout : string → W → option rpc_err * W;
  cl_ListMessages : string → string → W → result (list (Z * Z)) rpc_err * W;
  cl_StatMailbox : string → string → W → result (Z * Z) rpc_err * W;
  cl_FetchMessage : string → string → Z → W → result string rpc_err * W;
  cl_Delete : string → Z → W → option rpc_err * W;
  cl_ExpungeMailbox : string → string → W → option rpc_err * W;
  cl_now : W → Z;
  (** [cl_select deadline backoff]: wait for the context, for the deadline
      timer or for [time.After(backoff)]. *)
  cl_select : Z → Z → W → wake * W;
}.

(** Time does not run backwards; a [time.After] timer fires after its
    duration, and not when the deadline had already passed on entry. *)
Class ClientTime (W : Type) `{Client W} := {
  now_Login u p ip w : cl_now w ≤ cl_now (cl_Login u p ip w).2;
  now_Logout t w : cl_now w ≤ cl_now (cl_Logout t w).2;
  select_timer d b w w' :
    cl_select d b w = (WTimer, w') → cl_now w < d ∧ cl_now w + b ≤ cl_now w';
}.

(** ** The session *)
Inductive sm_error :=
| SRpc (e : rpc_err)
| SCredentialRejected (why : string)
| SRecoveryDeadline (e : rpc_err)
| SNotLoggedIn
| SCtx.

Definition backoffInitial : Z := 250.
Definition backoffMax : Z := 15000.
Definition DefaultRecoveryDeadline : Z := 120000.

Record smSession := mkSm {
  RecoveryDeadline : Z;
  token : string;
  sm_username : string;
  cred : string;
  sm_clientIP : string;
  sm_mailbox : string;
  metric_set : bool;           (* onRecovery != nil *)
  metrics : list string;       (* its calls *)
}.

Section Session.
Context {W : Type} `{Client W}.
Implicit Types (s : smSession) (w : W).

(** The continuity hook: [None] when not installed; it returns an error text
    or [None]. *)
Context (onRecovered : option (string → W → option string * W)).

Definition NewSession (deadline : Z) (metric : bool) : smSession :=
  mkSm (if deadline <=? 0 then DefaultRecoveryDeadline else deadline)
    "" "" "" "" "" metric [].

Definition onRecovery (r : string) s : smSession :=
  mkSm (RecoveryDeadline s) (token s) (sm_username s) (cred s) (sm_clientIP s)
    (sm_mailbox s) (metric_set s) (if metric_set s then metrics s ++ [r] else metrics s).

Definition Login (user pass ip : string) s w : result string rpc_err * smSession * W :=
  match cl_Login user pass ip w with
  | (Err e, w) => (Err e, s, w)
  | (Ok (tok, mbox), w) =>
      (Ok mbox, mkSm (RecoveryDeadline s) tok user pass ip mbox (metric_set s) (metrics s), w)
  end.

(** [Close] zeroes the credential. *)
Definition Close s : smSession :=
  mkSm (RecoveryDeadline s) "" (sm_username s) "" (sm_clientIP s) (sm_mailbox s)
    (metric_set s) (metrics s).

Definition Logout s w : option rpc_err * smSession * W :=
  if decide (token s = "") then (None, Close s, w)
  else let '(r, w) := cl_Logout (token s) w in (r, Close s, w).

Definition recoverable (e : rpc_err) : bool :=
  match err_code e with Unavailable | Unauthenticated => true | OtherCode _ => false end.

Definition set_token (tok mbox : string) s : smSession :=
  mkSm (RecoveryDeadline s) tok (sm_username s) (cred s) (sm_clientIP s) mbox
    (metric_set s) (metrics s).

Inductive rec_err := RRejected (why : string) | RNotLoggedIn | RTransient (e : rpc_err).

Definition recover (failedToken : string) s w : option rec_err * smSession * W :=
  if decide (token s ≠ failedToken) then (None, s, w)
  else if decide (cred s = "") then (Some RNotLoggedIn, s, w)
  else match cl_Login (sm_username s) (cred s) (sm_clientIP s) w with
  | (Err e, w) =>
      if decide (err_code e = Unauthenticated)
      then (Some (RRejected (err_text e)), Close (onRecovery "auth_failed" s), w)
      else (Some (RTransient e), s, w)
  | (Ok (tok, mbox), w) =>
      match onRecovered with
      | Some hook =>
          match hook tok w with
          | (Some herr, w) =>
              let '(_, w) := cl_Logout tok w in
              (Some (RRejected herr), onRecovery "auth_failed" s, w)
          | (None, w) => (None, onRecovery "ok" (set_token tok mbox s), w)
          end
      | None => (None, onRecovery "ok" (set_token tok mbox s), w)
      end
  end.

Definition next_backoff (b : Z) : Z := if backoffMax <? b * 2 then backoffMax else b * 2.

Section Rpc.
Context {A : Type} (fn : string → W → result A rpc_err * W).

(** The retry loop of [doRead], entered after a recoverable failure [err] of
    the call with [tok]. [None] is out of fuel. *)
Fixpoint read_loop (fuel : nat) (deadline backoff : Z) (tok : string) (err : rpc_err) s w
    : option (result A sm_error * smSession * W) :=
  match fuel with
  | O => None
  | S n =>
      let '(fatal, s, w) :=
        if decide (err_code err = Unauthenticated) then
          match recover tok s w with
          | (Some (RRejected why), s, w) => (Some (SCredentialRejected why), s, w)
          | (Some RNotLoggedIn, s, w) => (Some SNotLoggedIn, s, w)
          | (Some (RTransient _), s, w) | (None, s, w) => (None, s, w)
          end
        else (None, s, w) in
      match fatal with
      | Some e => Some (Err e, s, w)
      | None =>
          let tok := token s in
          let '(r, w) := if decide (tok = "") then (Err err, w) else fn tok w in
          match r with
          | Ok a => Some (Ok a, s, w)
          | Err err =>
              if bool_decide (tok ≠ "") && negb (recoverable err) then Some (Err (SRpc err), s, w)
              else match cl_select deadline backoff w with
                   | (WCtxDone, w) => Some (Err SCtx, s, w)
                   | (WDeadline, w) =>
                       Some (Err (SRecoveryDeadline err), onRecovery "deadline" s, w)
                   | (WTimer, w) =>
                       read_loop n deadline (next_backoff backoff) tok err s w
                   end
          end
      end
  end.

Definition read_fuel s : nat := S (S (Z.to_nat (RecoveryDeadline s / backoffInitial))).

Definition doRead s w : option (result A sm_error * smSession * W) :=
  if decide (token s = "") then Some (Err SNotLoggedIn, s, w)
  else match fn (token s) w with
  | (Ok a, w) => Some (Ok a, s, w)
  | (Err e, w) =>
      if recoverable e
      then read_loop (read_fuel s) (cl_now w + RecoveryDeadline s) backoffInitial (token s) e s w
      else Some (Err (SRpc e), s, w)
  end.

(** The recovery loop of [doWrite], which never calls [fn]. *)
Fixpoint write_loop (fuel : nat) (deadline backoff : Z) (tok : string) s w
    : option (smSession * W) :=
  match fuel with
  | O => None
  | S n =>
      match recover tok s w with
      | (None, s, w) | (Some (RRejected _), s, w) | (Some RNotLoggedIn, s, w) => Some (s, w)
      | (Some (RTransient _), s, w) =>
          match cl_select deadline backoff w with
          | (WTimer, w) => write_loop n deadline (next_backoff backoff) tok s w
          | (_, w) => Some (onRecovery "deadline" s, w)
          end
      end
  end.

Definition doWrite s w : option (result A sm_error * smSession * W) :=
  if decide (token s = "") then Some (Err SNotLoggedIn, s, w)
  else match fn (token s) w with
  | (Ok a, w) => Some (Ok a, s, w)
  | (Err e, w) =>
      if recoverable e then
        match write_loop (read_fuel s) (cl_now w + RecoveryDeadline s) backoffInitial (token s) s w with
        | Some (s, w) => Some (Err (SRpc e), s, w)
        | None => None
        end
      else Some (Err (SRpc e), s, w)
  end.
End Rpc.
End Session.

(** ** Correctness of recovery *)
Section Facts.
Context {W : Type} `{ClientTime W}.
Context (onRecovered : option (string → W → option string * W)).
Hypothesis hook_time : ∀ hook t w, onRecovered = Some hook → cl_now w ≤ cl_now (hook t w).2.
Implicit Types (s : smSession) (w : W).

(** One step of the environment that recovery may cause: a login, a logout, a
    continuity check or a wait. *)
Inductive recovery_step : W → W → Prop :=
| rs_login u p ip w : recovery_step w (cl_Login u p ip w).2
| rs_logout t w : recovery_step w (cl_Logout t w).2
| rs_hook hook t w : onRecovered = Some hook → recovery_step w (hook t w).2
| rs_select d b w : recovery_step w (cl_select d b w).2.

Lemma rs_step_eq {B} (f : W → B * W) w b w' :
  recovery_step w (f w).2 → f w = (b, w') → recovery_step w w'.
Proof. intros Hs Hf. by rewrite Hf in Hs. Qed.

(** Recovery touches the world through these steps only, and does not turn the
    clock back. *)
Lemma recover_steps tok s w r s' w' :
  recover onRecovered tok s w = (r, s', w') → rtc recovery_step w w' ∧ cl_now w ≤ cl_now w'.
Proof.
  unfold recover. intros Hr.
  case_decide; [simplify_eq; split; [done|lia]|].
  case_decide; [simplify_eq; split; [done|lia]|].
  pose proof (rs_login (sm_username s) (cred s) (sm_clientIP s) w) as Hl.
  pose proof (now_Login (sm_username s) (cred s) (sm_clientIP s) w) as Ht.
  destruct (cl_Login _ _ _ w) as [[[tok' mbox]|e] w1]; simpl in *.
  2:{ case_decide; simplify_eq; split; eauto using rtc_once. }
  destruct onRecovered as [hook|] eqn:Eh.
  2:{ simplify_eq; split; eauto using rtc_once. }
  pose proof (rs_hook hook tok' w1 Eh) as Hh. pose proof (hook_time hook tok' w1 eq_refl) as Ht2.
  destruct (hook tok' w1) as [[herr|] w2]; simpl in *.
  2:{ simplify_eq; split; [|lia]. eapply rtc_l; eauto using rtc_once. }
  pose proof (rs_logout tok' w2) as Hlo. pose proof (now_Logout tok' w2).
  destruct (cl_Logout tok' w2) as [r3 w3]; simpl in *. simplify_eq.
  split; [|lia]. eapply rtc_l; [done|]. eapply rtc_l; eauto using rtc_once.
Qed.

Lemma next_backoff_min b : backoffInitial ≤ b → backoffInitial ≤ next_backoff b.
Proof.
  unfold next_backoff, backoffInitial, backoffMax. intros.
  destruct (Z.ltb_spec 15000 (b * 2)); lia.
Qed.

Lemma next_backoff_max b : next_backoff b ≤ backoffMax.
Proof. unfold next_backoff. destruct (Z.ltb_spec backoffMax (b * 2)); lia. Qed.

Lemma select_steps d b w r w' : cl_select d b w = (r, w') → recovery_step w w'.
Proof. eapply rs_step_eq, rs_select. Qed.

(** The recovery loop of a write ends before the fuel does. *)
Lemma write_loop_total n d b tok s w :
  d - cl_now w < backoffInitial * Z.of_nat n → backoffInitial ≤ b →
  ∃ s' w', write_loop onRecovered (S n) d b tok s w = Some (s', w') ∧ rtc recovery_step w w'.
Proof.
  revert b s w. induction n as [|n IH]; intros b s w Hn Hb; cbn [write_loop];
    destruct (recover onRecovered tok s w) as [[r s1] w1] eqn:Er;
    apply recover_steps in Er as [Hst Ht];
    destruct r as [[]|]; eauto;
    destruct (cl_select d b w1) as [[] w2] eqn:Es; pose proof (select_steps _ _ _ _ _ Es);
    eauto using rtc_r;
    apply select_timer in Es as [Hd Hnow].
  - unfold backoffInitial in *. lia.
  - destruct (IH (next_backoff b) s1 w2) as (s' & w' & E & Hrtc);
      [unfold backoffInitial in *; lia|by apply next_backoff_min|].
    cbn [write_loop] in E. rewrite E. do 2 eexists. split; [done|].
    etrans; [by eapply rtc_r|done].
Qed.

Lemma read_fuel_enough s w :
  cl_now w + RecoveryDeadline s - cl_now w
  < backoffInitial * Z.of_nat (S (Z.to_nat (RecoveryDeadline s / backoffInitial))).
Proof.
  unfold backoffInitial. pose proof (Z.div_mod (RecoveryDeadline s) 250).
  pose proof (Z.mod_pos_bound (RecoveryDeadline s) 250). lia.
Qed.

Section Rpc.
Context {A : Type} (fn : string → W → result A rpc_err * W).
Hypothesis fn_time : ∀ t w, cl_now w ≤ cl_now (fn t w).2.

(** What the result of a read says about the calls made: a value or an
    unrecoverable error is that of the last call. *)
Definition read_result (r : result A sm_error) (w' : W) : Prop :=
  match r with
  | Ok a => ∃ t w1, t ≠ "" ∧ fn t w1 = (Ok a, w')
  | Err (SRpc e) => ∃ t w1, t ≠ "" ∧ fn t w1 = (Err e, w') ∧ recoverable e = false
  | Err _ => True
  end.

(** One round of the loop, from beginning to end: recovery, at most one call, at
    most one wait. *)
Definition one_round (d : Z) (w w' : W) : Prop := ∃ w1 w2,
  rtc recovery_step w w1 ∧ (w2 = w1 ∨ ∃ t, t ≠ "" ∧ w2 = (fn t w1).2) ∧ (w' = w2 ∨ ∃ b, w' = (cl_select d b w2).2).
(** When a further round may begin: after a wait of at most [backoffMax] that began
    before the deadline. *)
Definition in_time (d : Z) (w0 : W) : Prop := ∃ b wb, b ≤ backoffMax ∧ cl_now wb < d ∧ cl_select d b wb = (WTimer, w0).
(** One round of the loop: it ends, or the timer fired. *)
Lemma read_loop_round n d b tok err s w :
  (∃ r s' w', read_loop onRecovered fn (S n) d b tok err s w = Some (r, s', w')
              ∧ read_result r w' ∧ one_round d w w') ∨
  (∃ err' s' w1 w2,
     read_loop onRecovered fn (S n) d b tok err s w
       = read_loop onRecovered fn n d (next_backoff b) (token s') err' s' w2
     ∧ cl_now w ≤ cl_now w1 ∧ cl_select d b w1 = (WTimer, w2)).
Proof.
  cbn [read_loop].
  assert (∃ fatal s1 w1,
    (if decide (err_code err = Unauthenticated) then
       match recover onRecovered tok s w with
       | (Some (RRejected why), s, w) => (Some (SCredentialRejected why), s, w)
       | (Some RNotLoggedIn, s, w) => (Some SNotLoggedIn, s, w)
       | (Some (RTransient _), s, w) | (None, s, w) => (None, s, w)
       end
     else (None, s, w)) = (fatal, s1, w1) ∧ cl_now w ≤ cl_now w1
    ∧ (∀ e, fatal ≠ Some (SRpc e)) ∧ rtc recovery_step w w1) as (fatal & s1 & w1 & -> & Ht & Hf & Hrt).
  { case_decide; [|by do 3 eexists].
    destruct (recover onRecovered tok s w) as [[r s1] w1] eqn:Er.
    apply recover_steps in Er as [Hrt Ht].
    destruct r as [[]|]; by do 3 eexists. }
  destruct fatal as [e|].
  { left. do 3 eexists. split; [done|]. split; [simpl; by destruct e; [destruct (Hf e)|..]|]. exists w1, w1. auto. }
  assert (∃ r w2, (if decide (token s1 = "") then (Err err, w1) else fn (token s1) w1) = (r, w2)
    ∧ cl_now w1 ≤ cl_now w2 ∧ (token s1 ≠ "" → fn (token s1) w1 = (r, w2))
    ∧ (token s1 = "" → ∃ e, r = Err e) ∧ (token s1 = "" → w2 = w1)) as (r & w2 & -> & Ht2 & Hfn & Hno & Hsame).
  { pose proof (fn_time (token s1) w1). case_decide as Etok.
    { exists (Err err), w1. split_and!; [done|lia|done|eauto|done]. }
    destruct (fn (token s1) w1) as [r w2]. by do 2 eexists. }
  assert (w2 = w1 ∨ ∃ t, t ≠ "" ∧ w2 = (fn t w1).2) as Hcall.
  { destruct (decide (token s1 = "")) as [E|E]; [left; by apply Hsame|right]. exists (token s1). by rewrite (Hfn E). }
  assert (one_round d w w2) as Hr2 by (exists w1, w2; auto).
  assert (∀ o w3, cl_select d b w2 = (o, w3) → one_round d w w3) as Hr3.
  { intros o w3 Es. exists w1, w2. split_and!; [done..|]. right. exists b. by rewrite Es. }
  destruct r as [a|e].
  { left. do 3 eexists. split; [done|]. split; [|done]. exists (token s1), w1.
    destruct (decide (token s1 = "")) as [E|]; [by destruct (Hno E)|auto]. }
  case_bool_decide as Htok; simpl.
  - destruct (recoverable e) eqn:Erec; simpl.
    2:{ left. do 3 eexists. split; [done|]. split; [|done]. exists (token s1), w1. auto. }
    destruct (cl_select d b w2) as [[] w3] eqn:Es;
      [left; do 3 eexists; split_and!; [done..|by eapply Hr3]|left; do 3 eexists; split_and!; [done..|by eapply Hr3]|].
    right. exists e, s1, w2, w3. split_and!; [done|lia|done].
  - destruct (cl_select d b w2) as [[] w3] eqn:Es;
      [left; do 3 eexists; split_and!; [done..|by eapply Hr3]|left; do 3 eexists; split_and!; [done..|by eapply Hr3]|].
    right. exists e, s1, w2, w3. split_and!; [done|lia|done].
Qed.

Lemma read_loop_total n d b tok err s w :
  d - cl_now w < backoffInitial * Z.of_nat n → backoffInitial ≤ b ≤ backoffMax →
  ∃ r s' w' w0, read_loop onRecovered fn (S n) d b tok err s w = Some (r, s', w')
             ∧ read_result r w' ∧ (w0 = w ∨ in_time d w0) ∧ one_round d w0 w'.
Proof.
  revert b tok err s w. induction n as [|n IH]; intros b tok err s w Hn Hb;
    (edestruct read_loop_round as [(r & s' & w' & E & Hr & Ho)|(err' & s' & w1 & w2 & -> & Ht & Es)];
      [exists r, s', w', w; auto|]); pose proof Es as Et; apply select_timer in Es as [Hd Hnow].
  - unfold backoffInitial in *. lia.
  - destruct (IH (next_backoff b) (token s') err' s' w2) as (r & s2 & w' & w0 & E & Hr & Hw0 & Ho);
      [unfold backoffInitial in *; lia|split; [apply next_backoff_min; lia|apply next_backoff_max]|].
    exists r, s2, w', w0. split_and!; [done..| |done]. right. destruct Hw0 as [->|]; [|done].
    exists b, w1. split_and!; [lia|done|done].
Qed.

(** C15: A write is sent at most once. Without a token it is refused and
    nothing happens; otherwise the call is made exactly once, its own result
    is what the caller gets, and all that may follow is recovery: logging in
    again, the continuity check, logging out, waiting. And it always returns:
    recovery is bounded by the deadline. *)
Theorem write_at_most_once s w :
  ∃ r s' w', doWrite onRecovered fn s w = Some (r, s', w') ∧
    if decide (token s = "") then r = Err SNotLoggedIn ∧ s' = s ∧ w' = w
    else
      let '(r1, w1) := fn (token s) w in
      r = match r1 with Ok a => Ok a | Err e => Err (SRpc e) end ∧
      rtc recovery_step w1 w'.
Proof.
  unfold doWrite. case_decide; [by eauto 10|].
  destruct (fn (token s) w) as [[a|e] w1]; [by do 3 eexists|].
  destruct (recoverable e); [|by do 3 eexists].
  destruct (write_loop_total
              (S (Z.to_nat (RecoveryDeadline s / backoffInitial)))
              (cl_now w1 + RecoveryDeadline s) backoffInitial (token s) s w1)
    as (s' & w' & E & Hrtc); [apply read_fuel_enough|done|].
  unfold read_fuel. rewrite E. eauto 10.
Qed.

(** C16: A read ends its retries at the recovery deadline, and what it returns is
    real. It returns; each further round of recovery, call and wait begins after a
    wait of at most fifteen seconds that began before the deadline, counted from the
    failure of its first call (a call that is under way may take as long as it
    likes). A value is the answer of the last call made,
    under a live token, and an RPC error is an unrecoverable answer of the last
    call. *)
Theorem read_returns s w :
  ∃ r s' w', doRead onRecovered fn s w = Some (r, s', w') ∧ read_result r w' ∧
    (token s ≠ "" → ∀ a w1, fn (token s) w = (Ok a, w1) → r = Ok a ∧ s' = s ∧ w' = w1) ∧
    (w' = w ∨ w' = (fn (token s) w).2 ∨
     let w1 := (fn (token s) w).2 in let deadline := cl_now w1 + RecoveryDeadline s in
     ∃ w0, (w0 = w1 ∨ in_time deadline w0) ∧ one_round deadline w0 w').
Proof.
  unfold doRead. case_decide; [do 3 eexists; split_and!; [done|done|done|by left]|].
  destruct (fn (token s) w) as [[a|e] w1] eqn:Ef.
  { do 3 eexists. split_and!; [done|by exists (token s), w|naive_solver|auto]. }
  destruct (recoverable e) eqn:Er.
  - destruct (read_loop_total (S (Z.to_nat (RecoveryDeadline s / backoffInitial)))
                (cl_now w1 + RecoveryDeadline s) backoffInitial (token s) e s w1)
      as (r & s' & w' & w0 & E & Hr & Hw0 & Ho); [apply read_fuel_enough|unfold backoffInitial, backoffMax; lia|].
    unfold read_fuel. rewrite E. do 3 eexists. split_and!; [done..|]. right. right. by exists w0.
  - do 3 eexists. split_and!; [done|by exists (token s), w|done|auto].
Qed.
End Rpc.
End Facts.

(** ** The life of the retained credential *)
Definition dead (s : smSession) : Prop := token s = "" ∧ cred s = "".

Lemma dead_refuses {W A} `{Client W} onRecovered (fn : string → W → result A rpc_err * W) s w :
  dead s →
  doRead onRecovered fn s w = Some (Err SNotLoggedIn, s, w) ∧
  doWrite onRecovered fn s w = Some (Err SNotLoggedIn, s, w).
Proof. intros [Ht _]. unfold doRead, doWrite. by rewrite Ht. Qed.

(** When the session-manager rejects the retained credential, or the
    session is logged out, the credential and the token are erased, and from
    then on every read and write is refused without any call being made. *)
Lemma credential_erased {W} `{Client W} tok s w :
  (∀ why s' w', recover None tok s w = (Some (RRejected why), s', w') →
     dead s' ∧ ∀ A (fn : string → W → result A rpc_err * W) w'',
       doRead None fn s' w'' = Some (Err SNotLoggedIn, s', w'') ∧
       doWrite None fn s' w'' = Some (Err SNotLoggedIn, s', w'')) ∧
  (∀ r s' w', Logout s w = (r, s', w') →
     dead s' ∧ ∀ A (fn : string → W → result A rpc_err * W) w'',
       doRead None fn s' w'' = Some (Err SNotLoggedIn, s', w'') ∧
       doWrite None fn s' w'' = Some (Err SNotLoggedIn, s', w'')).
Proof.
  assert (∀ s', dead s' → dead s' ∧ ∀ A (fn : string → W → result A rpc_err * W) w'',
       doRead None fn s' w'' = Some (Err SNotLoggedIn, s', w'') ∧
       doWrite None fn s' w'' = Some (Err SNotLoggedIn, s', w'')) as Hd
    by (intros s' Hs; split; [done|]; intros; by apply dead_refuses).
  split; intros r s' w' Hr; apply Hd.
  - unfold recover in Hr. by repeat (case_match; simplify_eq).
  - unfold Logout in Hr. by repeat (case_match; simplify_eq).
Qed.

(** ** A session-manager to run against

    One account; [live] is the only token it accepts and is empty after a
    restart. *)
Module Demo.
Record mgr := mkMgr {
  clock : Z;
  live : string;
  issued : Z;
  password : string;
  msgs : list (Z * string);
  marks : list Z;
}.

Definition no_session : rpc_err := mkRpc Unauthenticated "no such session".
Definition data {A} (tok : string) (w : mgr) (a : A) : result A rpc_err * mgr :=
  (if decide (tok = live w) then Ok a else Err no_session, w).
Definition sizes (w : mgr) : list (Z * Z) :=
  (λ m, (m.1, Z.of_nat (String.length m.2))) <$> msgs w.

Definition demo_client : Client mgr := {|
  cl_Login u p _ w :=
    if decide (p = password w) then
      let tok := "t" +:+ fmt_d (issued w) in
      (Ok (tok, u), mkMgr (clock w) tok (issued w + 1) (password w) (msgs w) (marks w))
    else (Err (mkRpc Unauthenticated "bad password"), w);
  cl_Logout _ w := (None, mkMgr (clock w) "" (issued w) (password w) (msgs w) (marks w));
  cl_ListMessages tok _ w := data tok w (sizes w);
  cl_StatMailbox tok _ w := data tok w (Z.of_nat (length (msgs w)), foldr Z.add 0 (sizes w).*2);
  cl_FetchMessage tok _ uid w :=
    data tok w (default "" (snd <$> (list_find (λ m, m.1 = uid) (msgs w) ≫= λ x, Some x.2)));
  cl_Delete tok uid w :=
    if decide (tok = live w)
    then (None, mkMgr (clock w) (live w) (issued w) (password w) (msgs w) (uid :: marks w))
    else (Some no_session, w);
  cl_ExpungeMailbox tok _ w :=
    if decide (tok = live w)
    then (None, mkMgr (clock w) (live w) (issued w) (password w)
                  (filter (λ m, m.1 ∉ marks w) (msgs w)) [])
    else (Some no_session, w);
  cl_now := clock;
  cl_select d b w :=
    (if clock w <? d then WTimer else WDeadline,
     mkMgr (clock w + Z.max 0 b) (live w) (issued w) (password w) (msgs w) (marks w));
|}.

#[export] Instance demo_time : @ClientTime mgr demo_client.
Proof.
  split.
  - intros. simpl. case_decide; simpl; lia.
  - intros. simpl. lia.
  - intros d b w w'. simpl. destruct (Z.ltb_spec (clock w) d); intros; simplify_eq/=. lia.
Qed.

(** The manager has just restarted; the session still holds an old token. *)
Definition restarted : mgr := mkMgr 0 "" 7 "pw" [(3, "hello"); (5, "bye")] [].
Definition sess (tok pass : string) : smSession := mkSm 1000 tok "ann" pass "192.0.2.1" "ann" true [].
End Demo.

Lemma credential_erased_example :
  @recover Demo.mgr Demo.demo_client None "old" (Demo.sess "old" "stale") Demo.restarted
    = (Some (RRejected "bad password"),
       Close (onRecovery "auth_failed" (Demo.sess "old" "stale")), Demo.restarted) ∧
  dead (Close (onRecovery "auth_failed" (Demo.sess "old" "stale"))).
Proof.
  split; [reflexivity|].
  apply (proj1 (@credential_erased Demo.mgr Demo.demo_client "old"
    (Demo.sess "old" "stale") Demo.restarted) "bad password" _ Demo.restarted).
  reflexivity.
Defined.

Lemma write_at_most_once_witness :
  @doWrite Demo.mgr Demo.demo_client None _
    (λ t w, let '(r, w) := @cl_Delete _ Demo.demo_client t 3 w in
            (match r with None => Ok tt | Some e => Err e end, w))
    (Demo.sess "old" "pw") Demo.restarted
  = Some (Err (SRpc Demo.no_session),
          onRecovery "ok" (set_token "t7" "ann" (Demo.sess "old" "pw")),
          Demo.mkMgr 0 "t7" 8 "pw" [(3, "hello"); (5, "bye")] []).
Proof.
  destruct (@write_at_most_once Demo.mgr Demo.demo_client Demo.demo_time None
    ltac:(done) _ (λ t w, let '(r, w) := @cl_Delete _ Demo.demo_client t 3 w in
            (match r with None => Ok tt | Some e => Err e end, w))
    (Demo.sess "old" "pw") Demo.restarted) as (r & s' & w' & E & _).
  rewrite E. vm_compute in E |- *. by simplify_eq.
Defined.

Lemma read_returns_witness :
  @doRead Demo.mgr Demo.demo_client None _ (λ t, @cl_FetchMessage _ Demo.demo_client t "" 5)
    (Demo.sess "old" "pw") Demo.restarted
  = Some (Ok "bye", onRecovery "ok" (set_token "t7" "ann" (Demo.sess "old" "pw")),
          Demo.mkMgr 0 "t7" 8 "pw" [(3, "hello"); (5, "bye")] []).
Proof.
  destruct (@read_returns Demo.mgr Demo.demo_client Demo.demo_time None
    ltac:(done) _ (λ t, @cl_FetchMessage _ Demo.demo_client t "" 5)
    ltac:(intros; simpl; lia)
    (Demo.sess "old" "pw") Demo.restarted) as (r & s' & w' & E & _).
  rewrite E. vm_compute in E |- *. by simplify_eq.
Defined.

(** Recovery is single-flight: the fresh token comes from one login with
    the retained user, credential and client address, and a caller whose call
    failed under the same old token finds the new one and does not log in
    again. *)
Lemma recover_single_flight {W} `{Client W} failed s w s' w' :
  recover None failed s w = (None, s', w') → token s = failed → token s' ≠ failed →
  (∃ mbox, cl_Login (sm_username s) (cred s) (sm_clientIP s) w = (Ok (token s', mbox), w')) ∧
  sm_username s' = sm_username s ∧ cred s' = cred s ∧ sm_clientIP s' = sm_clientIP s ∧
  ∀ w'', recover None failed s' w'' = (None, s', w'').
Proof.
  intros Hr Ht Hf. unfold recover in Hr.
  rewrite decide_False in Hr by (intros Hn; by apply Hn).
  case_decide; [done|].
  destruct (cl_Login _ _ _ w) as [[[tok mbox]|e] w1]; [|by case_decide].
  simplify_eq. split_and!; try done; [by exists mbox|].
  intros w''. unfold recover. by rewrite decide_True.
Qed.

Lemma recover_single_flight_example :
  @recover Demo.mgr Demo.demo_client None "old"
    (onRecovery "ok" (set_token "t7" "ann" (Demo.sess "old" "pw"))) Demo.restarted
  = (None, onRecovery "ok" (set_token "t7" "ann" (Demo.sess "old" "pw")), Demo.restarted).
Proof.
  apply (@recover_single_flight Demo.mgr Demo.demo_client "old" (Demo.sess "old" "pw")
    Demo.restarted _ (Demo.mkMgr 0 "t7" 8 "pw" [(3, "hello"); (5, "bye")] [])).
  - reflexivity.
  - reflexivity.
  - discriminate.
Defined.

(** A nil result of [recover] does not always mean a fresh token: on a session
    that was closed in the meantime it reports success and there is none. *)
Lemma recover_closed_reports_success {W} `{Client W} failed s w :
  failed ≠ "" → recover None failed (Close s) w = (None, Close s, w) ∧ token (Close s) = "".
Proof. intros. unfold recover. by rewrite decide_True by done. Qed.
