(* ===== verification/SmStore.v ===== *)
(** * pop3d's store over the recovering client

    src/internal/pop3d/pop3/smstore.go and [loginRecoveringSession]
    (auth_commands.go): the [Backend] the POP3 daemon runs on. Sessions are
    objects on a heap and a store is a reference to one. The instance meets the
    daemon's interface: anything of the session-manager that login, logout,
    listing, fetching and waiting leave alone is left alone by login, listing,
    reading and closing, recovery included. *)
From S2P Require Import Prelude GoStrings MsgStore SmClient.
From S2P Require Import Pop3Proto Pop3Session Pop3Commands Pop3Handler.
From Stdlib Require Import ZArith Lia.
Open Scope string_scope.
Open Scope list_scope.
Open Scope Z_scope.

(** The error text handed to the command layer, which only logs it. *)
Definition sm_text (e : sm_error) : serr :=
  match e with
  | SRpc e => err_text e
  | SCredentialRejected why => "session recovery: credential rejected: " +:+ why
  | SRecoveryDeadline e => "session recovery: deadline exceeded: " +:+ err_text e
  | SNotLoggedIn => "smclient: session not logged in"
  | SCtx => "context done"
  end.

Section Store.
Context {W : Type} `{Client W} (recoveryDeadline : Z) (collector : bool).

Record heap := mkHeap { objects : list smSession; remote : W }.

(** Run an operation of the session behind a reference; out-of-fuel (excluded
    by the termination theorem) and a dangling reference are errors. *)
Definition with_session {A} (h : nat)
    (op : smSession → W → option (result A sm_error * smSession * W)) (hw : heap)
    : result A serr * heap :=
  match objects hw !! h with
  | None => (Err "no session", hw)
  | Some s =>
      match op s (remote hw) with
      | Some (r, s, w) =>
          (match r with Ok a => Ok a | Err e => Err (sm_text e) end,
           mkHeap (<[h := s]> (objects hw)) w)
      | None => (Err "out of fuel", hw)
      end
  end.

Definition as_result (f : string → W → option rpc_err * W) (tok : string) (w : W)
    : result unit rpc_err * W :=
  let '(r, w) := f tok w in (match r with None => Ok tt | Some e => Err e end, w).

Definition err_of {A} (x : result A serr * heap) : option serr * heap :=
  (match x.1 with Ok _ => None | Err e => Some e end, x.2).

(** [loginRecoveringSession] *)
Definition sm_login (user pass ip : string) (hw : heap) : result (string * nat) serr * heap :=
  let s := SmClient.NewSession recoveryDeadline collector in
  match Login user pass ip s (remote hw) with
  | (Err e, s, w) =>
      (Err ("session-manager login: " +:+ err_text e), mkHeap (objects hw ++ [s]) w)
  | (Ok mbox, s, w) => (Ok (mbox, length (objects hw)), mkHeap (objects hw ++ [s]) w)
  end.

Definition sm_List (h : nat) (hw : heap) : result (list MessageInfo) serr * heap :=
  let '(r, hw) := with_session h (doRead None (λ t, cl_ListMessages t "")) hw in
  (match r with
   | Ok l => Ok ((λ m, mkInfo m.1 "" m.2 [] 0) <$> l)
   | Err e => Err e
   end, hw).

Definition sm_Stat (h : nat) (hw : heap) : result (Z * Z) serr * heap :=
  with_session h (doRead None (λ t, cl_StatMailbox t "")) hw.

Definition sm_Retrieve (h : nat) (uid : Z) (hw : heap) : result reader serr * heap :=
  let '(r, hw) := with_session h (doRead None (λ t, cl_FetchMessage t "" uid)) hw in
  (match r with Ok c => Ok (Content c) | Err e => Err e end, hw).

Definition sm_Delete (h : nat) (uid : Z) (hw : heap) : option serr * heap :=
  err_of (with_session h (doWrite None (as_result (λ t, cl_Delete t uid))) hw).

Definition sm_Expunge (h : nat) (hw : heap) : option serr * heap :=
  err_of (with_session h (doWrite None (as_result (λ t, cl_ExpungeMailbox t ""))) hw).

Definition sm_Close (h : nat) (hw : heap) : option serr * heap :=
  match objects hw !! h with
  | None => (Some "no session", hw)
  | Some s =>
      let '(r, s, w) := Logout s (remote hw) in
      (match r with None => None | Some e => Some ("session-manager logout: " +:+ err_text e) end,
       mkHeap (<[h := s]> (objects hw)) w)
  end.

Definition SmBackend : Backend nat heap := {|
  be_login := sm_login;
  be_List h _ := sm_List h;
  be_Retrieve h _ := sm_Retrieve h;
  be_Delete h _ := sm_Delete h;
  be_Expunge h _ := sm_Expunge h;
  be_Stat h _ := sm_Stat h;
  be_folders _ := None;
  be_close h := Some (sm_Close h);
|}.
End Store.
Arguments heap W : clear implicits.

(** ** The store meets the daemon's interface *)
(** An observation of the session-manager that only deletion and expunging can
    change. *)
Class ClientObs (W X : Type) `{Client W} := {
  cobs : W → X;
  cobs_Login u p ip w : cobs (cl_Login u p ip w).2 = cobs w;
  cobs_Logout t w : cobs (cl_Logout t w).2 = cobs w;
  cobs_List t f w : cobs (cl_ListMessages t f w).2 = cobs w;
  cobs_Fetch t f uid w : cobs (cl_FetchMessage t f uid w).2 = cobs w;
  cobs_select d b w : cobs (cl_select d b w).2 = cobs w;
}.

Section Obs.
Context {W X : Type} `{ClientObs W X}.

Lemma recover_obs tok s w r s' w' :
  recover None tok s w = (r, s', w') → cobs w' = cobs w.
Proof.
  unfold recover. intros Hr. pose proof (cobs_Login (sm_username s) (cred s) (sm_clientIP s) w).
  by repeat (case_match; simplify_eq/=).
Qed.

Section Read.
Context {A : Type} (fn : string → W → result A rpc_err * W).
Hypothesis fn_obs : ∀ t w, cobs (fn t w).2 = cobs w.

Lemma fn_obs_eq t w r w' : fn t w = (r, w') → cobs w' = cobs w.
Proof. intros E. pose proof (fn_obs t w) as Ho. by rewrite E in Ho. Qed.

Lemma select_obs_eq d b w r w' : cl_select d b w = (r, w') → cobs w' = cobs w.
Proof. intros E. pose proof (cobs_select d b w) as Ho. by rewrite E in Ho. Qed.

(** Chain the observations of the calls in the context. *)
Ltac chain_obs := try congruence;
  repeat match goal with
  | Hx : fn _ _ = _ |- _ => apply fn_obs_eq in Hx
  | Hx : cl_select _ _ _ = _ |- _ => apply select_obs_eq in Hx
  | IH : (∀ _, _), Hx : read_loop _ _ _ _ _ _ _ _ _ = _ |- _ => apply IH in Hx
  end; congruence.

Lemma read_loop_obs n d b tok err s w r s' w' :
  read_loop None fn n d b tok err s w = Some (r, s', w') → cobs w' = cobs w.
Proof.
  revert b tok err s w. induction n as [|n IH]; intros b tok err s w; [done|].
  cbn [read_loop].
  destruct (decide (err_code err = Unauthenticated)).
  - destruct (recover None tok s w) as [[o s1] w1] eqn:Er. apply recover_obs in Er.
    intros E. repeat (case_match; simplify_eq/=); chain_obs.
  - intros E. repeat (case_match; simplify_eq/=); chain_obs.
Qed.

Lemma doRead_obs s w r s' w' :
  doRead None fn s w = Some (r, s', w') → cobs w' = cobs w.
Proof.
  unfold doRead. case_decide; [by intros [= <- <- <-]|].
  destruct (fn (token s) w) as [[a|e] w1] eqn:Ef; apply fn_obs_eq in Ef;
    [by intros [= <- <- <-]|].
  destruct (recoverable e); [|by intros [= <- <- <-]].
  intros E%read_loop_obs. congruence.
Qed.

Lemma with_session_read_obs h hw :
  cobs (remote (with_session h (doRead None fn) hw).2) = cobs (remote hw).
Proof.
  unfold with_session. destruct (objects hw !! h) as [s|]; [|done].
  destruct (doRead None fn s (remote hw)) as [[[r s'] w']|] eqn:E; [|done].
  simpl. by eapply doRead_obs.
Qed.
End Read.

#[export] Instance SmBackendObs deadline collector :
  @BackendObs nat (heap W) X (SmBackend deadline collector).
Proof.
  refine (@Build_BackendObs nat (heap W) X (SmBackend deadline collector)
            (λ hw, cobs (remote hw)) _ _ _ _).
  - intros u p ip hw. simpl. unfold sm_login, Login.
    pose proof (cobs_Login u p ip (remote hw)).
    by destruct (cl_Login u p ip (remote hw)) as [[[]|] ?].
  - intros h m hw. simpl. unfold sm_List.
    pose proof (with_session_read_obs (λ t, cl_ListMessages t "") (λ t w, cobs_List t "" w) h hw).
    by destruct (with_session _ _ _).
  - intros h m uid hw. simpl. unfold sm_Retrieve.
    pose proof (with_session_read_obs (λ t, cl_FetchMessage t "" uid)
                  (λ t w, cobs_Fetch t "" uid w) h hw).
    by destruct (with_session _ _ _).
  - intros h f hw Hf. simpl in Hf. simplify_eq. unfold sm_Close.
    destruct (objects hw !! h) as [s|]; [|done]. unfold Logout.
    pose proof (cobs_Logout (token s) (remote hw)).
    case_decide; [done|]. by destruct (cl_Logout _ _).
Defined.

(** C19: pop3d over the session-manager: a connection that ends without QUIT
    leaves the manager's mailbox as it was, through every transparent
    re-login, retry and wait that happened on the way. *)
Theorem pop3_over_manager `{GoSasl, MapRange, UnicodeCase, !UnicodeUpper}
    deadline collector host tls connTLS client greetOk evs (w : W) :
  Forall (λ ev, bare_quit ev = false) evs →
  ∃ s log hw tr,
    @handleConnection nat (list call * heap W) (Logged (SmBackend deadline collector)) _ _ _
      host tls connTLS client greetOk evs ([], mkHeap [] w) = Some (s, (log, hw), tr) ∧
    Forall (λ c, is_write c = false) log ∧ cobs (remote hw) = cobs w.
Proof.
  apply (@no_quit_keeps_mail nat (heap W) (SmBackend deadline collector) _ _ _ _ X
           (SmBackendObs deadline collector) host tls connTLS client
           greetOk evs (mkHeap [] w)).
Qed.
End Obs.

(** ** A session across a restart of the session-manager *)
Module Restart.
Import SmClient.Demo.
Definition forget (w : mgr) : mgr :=
  mkMgr (clock w) "" (issued w) (password w) (msgs w) (marks w).

(** The manager restarts right after the mailbox has been listed. *)
Definition flaky : Client mgr := {|
  cl_Login := @cl_Login _ demo_client;
  cl_Logout := @cl_Logout _ demo_client;
  cl_ListMessages tok f w := let '(r, w) := @cl_ListMessages _ demo_client tok f w in (r, forget w);
  cl_StatMailbox := @cl_StatMailbox _ demo_client;
  cl_FetchMessage := @cl_FetchMessage _ demo_client;
  cl_Delete := @cl_Delete _ demo_client;
  cl_ExpungeMailbox := @cl_ExpungeMailbox _ demo_client;
  cl_now := clock;
  cl_select := @cl_select _ demo_client;
|}.

#[export] Instance flaky_obs : @ClientObs mgr (list (Z * string)) flaky.
Proof.
  refine (@Build_ClientObs mgr (list (Z * string)) flaky msgs _ _ _ _ _); try done.
  intros u p ip w. simpl. by case_decide.
Defined.

Definition talk (lines : list string) : option (list string * list (Z * string)) :=
  match @run nat (heap mgr) (@SmBackend mgr flaky 1000 true) Pop3Session.Demo.plain_demo
          Pop3Session.Demo.range_demo Dialogue.ascii_case
          (start_session "mx" false false None)
          (mkHeap [] (mkMgr 0 "" 1 "pw" [(3, "hello"); (5, "bye")] []))
          (Dialogue.say <$> lines) with
  | Some (_, _, hw, tr) =>
      Some (omap (λ o, match o with Sent b => Some b | _ => None end) tr, msgs (remote hw))
  | None => None
  end.

(** A read after the restart recovers, and the deletions then commit. *)
Example read_recovers :
  talk ["USER ann"; "PASS pw"; "RETR 1"; "DELE 1"; "QUIT"] = Some
    (["+OK User ann accepted" +:+ crlf; "+OK Logged in as ann" +:+ crlf;
      "+OK 5 octets" +:+ crlf +:+ "hello" +:+ crlf +:+ "." +:+ crlf;
      "+OK message 1 deleted" +:+ crlf; "+OK Logging out" +:+ crlf], [(5, "bye")]).
Proof. vm_compute. reflexivity. Qed.

(** A write after the restart is not replayed: QUIT reports the failure and the
    message is still there. *)
Example write_not_replayed :
  talk ["USER ann"; "PASS pw"; "DELE 1"; "QUIT"] = Some
    (["+OK User ann accepted" +:+ crlf; "+OK Logged in as ann" +:+ crlf;
      "+OK message 1 deleted" +:+ crlf;
      "-ERR [SYS/TEMP] some deleted messages not removed" +:+ crlf],
     [(3, "hello"); (5, "bye")]).
Proof. vm_compute. reflexivity. Qed.
End Restart.

Lemma pop3_over_manager_witness :
  ∃ s log hw tr,
    @handleConnection nat (list call * heap Demo.mgr)
      (Logged (@SmBackend Demo.mgr Restart.flaky 1000 true)) Pop3Session.Demo.plain_demo
      Pop3Session.Demo.range_demo Dialogue.ascii_case "mx" false false None true
      (Dialogue.say <$> ["USER ann"; "PASS pw"; "RETR 1"; "DELE 1"])
      ([], mkHeap [] Demo.restarted) = Some (s, (log, hw), tr) ∧
    Forall (λ c, is_write c = false) log ∧
    Demo.msgs (remote hw) = [(3, "hello"); (5, "bye")].
Proof.
  apply (@pop3_over_manager Demo.mgr _ Restart.flaky Restart.flaky_obs
    Pop3Session.Demo.plain_demo Pop3Session.Demo.range_demo Dialogue.ascii_case
    Dialogue.ascii_upper 1000 true "mx" false false None true
    (Dialogue.say <$> ["USER ann"; "PASS pw"; "RETR 1"; "DELE 1"]) Demo.restarted).
  repeat constructor.
Defined.
