(* ===== verification/AuthLimit.v ===== *)
(** * The authentication rate limiter

    src/auth/domain/ratelimit.go (the limiter) and src/auth/domain/limitstore.go
    (its store interface and the in-memory and Redis stores). [LimitStore] is
    the Go interface, [LimitStoreLaws] what its doc comments promise; the
    limiter's theorems are proved from these laws, and both stores discharge
    them. Times and durations are integers in one unit; every operation takes
    the time at which it runs. *)
From S2P Require Import Prelude GoStrings.
From Stdlib Require Import ZArith Lia.
Open Scope string_scope.
Open Scope list_scope.
Open Scope Z_scope.

Definition store_error := string.

(** ** The store interface *)
Class LimitStore (S : Type) := {
  ls_incr : string → Z → Z → S → result Z store_error * S;     (* key, ttl, now *)
  ls_exists : string → Z → S → result bool store_error * S;    (* key, now *)
  ls_set : string → Z → Z → S → option store_error * S;        (* key, ttl, now *)
  ls_del : list string → Z → S → option store_error * S;       (* keys, now *)
}.

(** A stored key: its count and its expiry, [None] for no expiry. *)
Definition entry : Type := Z * option Z.

Definition unexpired (t : Z) (e : entry) : bool :=
  match e.2 with None => true | Some x => t <? x end.
Definition live_entry (t : Z) (e : option entry) : option entry :=
  match e with
  | Some e => if unexpired t e then Some e else None
  | None => None
  end.

(** What the interface documents: [incr] starts a fresh window at 1 with the
    given time to live, and otherwise (a counter, so at least 1) keeps the one
    of the key; [set]
    overwrites value and time to live; [del] removes; expired keys are absent;
    no operation touches another key. *)
Class LimitStoreLaws (S : Type) `{LimitStore S} := {
  ls_entry : S → string → option entry;
  ls_exists_law k t s b s' : ls_exists k t s = (Ok b, s') →
    b = bool_decide (is_Some (live_entry t (ls_entry s k))) ∧
    ∀ k' t', t ≤ t' → live_entry t' (ls_entry s' k') = live_entry t' (ls_entry s k');
  ls_incr_law k ttl t s n s' : ls_incr k ttl t s = (Ok n, s') →
    (∀ k' t', k' ≠ k → t ≤ t' →
       live_entry t' (ls_entry s' k') = live_entry t' (ls_entry s k')) ∧
    (match live_entry t (ls_entry s k) with
     | Some (c, e) => 1 ≤ c → n = c + 1 ∧ ls_entry s' k = Some (n, e)
     | None => n = 1 ∧ ls_entry s' k = Some (1, Some (t + ttl))
     end);
  ls_set_law k ttl t s s' : ls_set k ttl t s = (None, s') →
    (∀ k' t', k' ≠ k → t ≤ t' →
       live_entry t' (ls_entry s' k') = live_entry t' (ls_entry s k')) ∧
    ls_entry s' k = Some (1, Some (t + ttl));
  ls_del_law ks t s s' : ls_del ks t s = (None, s') →
    ∀ k' t', t ≤ t' →
      live_entry t' (ls_entry s' k')
      = if decide (k' ∈ ks) then None else live_entry t' (ls_entry s k');
}.

(** ** The limiter *)
Definition keyFailIPUser : string := "auth:fail:ipuser:".
Definition keyFailIP : string := "auth:fail:ip:".
Definition keyLockIPUser : string := "auth:lock:ipuser:".
Definition keyLockIP : string := "auth:lock:ip:".

Record RateLimitConfig := mkLimits {
  MaxFailuresPerIPUser : Z;
  MaxFailuresPerIP : Z;
  Window : Z;
  Lockout : Z;
}.

(** In seconds. *)
Definition DefaultRateLimitConfig : RateLimitConfig := mkLimits 5 20 300 900.

Definition ipUserKey (ip username : string) : string := ip +:+ String NUL username.

Section Limiter.
Context {S : Type} `{LimitStore S} (cfg : RateLimitConfig).
Implicit Types s : S.

(** The loop over the keys of [isLimited]. *)
Fixpoint any_locked (keys : list string) (now : Z) s : bool * S :=
  match keys with
  | [] => (false, s)
  | key :: rest =>
      match ls_exists key now s with
      | (Err _, s) => (false, s)
      | (Ok true, s) => (true, s)
      | (Ok false, s) => any_locked rest now s
      end
  end.

Definition lock_keys (ip username : string) : list string :=
  (if decide (username ≠ "") then [keyLockIPUser +:+ ipUserKey ip username] else [])
  ++ [keyLockIP +:+ ip].

Definition isLimited (ip username : string) (now : Z) s : bool * S :=
  if decide (ip = "") then (false, s) else any_locked (lock_keys ip username) now s.

Definition count (counterKey lockKey : string) (maxFailures now : Z) s : S :=
  if maxFailures <=? 0 then s
  else match ls_incr counterKey (Window cfg) now s with
       | (Err _, s) => s
       | (Ok n, s) => if n <? maxFailures then s else (ls_set lockKey (Lockout cfg) now s).2
       end.

Definition recordFailure (ip username : string) (now : Z) s : S :=
  if decide (ip = "") then s
  else
    let s := if decide (username ≠ "")
             then count (keyFailIPUser +:+ ipUserKey ip username)
                    (keyLockIPUser +:+ ipUserKey ip username) (MaxFailuresPerIPUser cfg) now s
             else s in
    count (keyFailIP +:+ ip) (keyLockIP +:+ ip) (MaxFailuresPerIP cfg) now s.

Definition recordSuccess (ip username : string) (now : Z) s : S :=
  if decide (ip = "" ∨ username = "") then s
  else
    let pair := ipUserKey ip username in
    (ls_del [keyFailIPUser +:+ pair; keyLockIPUser +:+ pair] now s).2.
End Limiter.

(** ** The in-memory store *)
Module Mem.
Record memLimitEntry := mkEntry { e_count : Z; expiresAt : Z }.
Notation memLimitStore := (gmap string memLimitEntry).

(** [live] deletes an expired entry. *)
Definition live (key : string) (now : Z) (m : memLimitStore)
    : option memLimitEntry * memLimitStore :=
  match m !! key with
  | None => (None, m)
  | Some e => if negb (now <? expiresAt e) then (None, delete key m) else (Some e, m)
  end.

Definition pruneLocked (now : Z) (m : memLimitStore) : memLimitStore :=
  filter (λ x, now < expiresAt x.2) m.

Definition incr (key : string) (ttl now : Z) (m : memLimitStore)
    : result Z store_error * memLimitStore :=
  let m := pruneLocked now m in
  match live key now m with
  | (Some e, m) => (Ok (e_count e + 1), <[key := mkEntry (e_count e + 1) (expiresAt e)]> m)
  | (None, m) => (Ok 1, <[key := mkEntry 1 (now + ttl)]> m)
  end.

Definition exists_ (key : string) (now : Z) (m : memLimitStore)
    : result bool store_error * memLimitStore :=
  let '(e, m) := live key now m in
  (Ok (match e with Some _ => true | None => false end), m).

Definition set (key : string) (ttl now : Z) (m : memLimitStore)
    : option store_error * memLimitStore :=
  (None, <[key := mkEntry 1 (now + ttl)]> (pruneLocked now m)).

Definition del (keys : list string) (now : Z) (m : memLimitStore)
    : option store_error * memLimitStore :=
  (None, foldl (λ m key, delete key m) m keys).

#[global] Instance memLimitStore_ops : LimitStore memLimitStore :=
  {| ls_incr := incr; ls_exists := exists_; ls_set := set; ls_del := del |}.
End Mem.

(** ** The Redis store *)
(** What the store uses of the Redis client; [DNil] is [redis.Nil]. *)
Inductive del_reply := DOk | DNil | DErr (e : store_error).
Class Redis (R : Type) := {
  rd_Incr : string → Z → R → result Z store_error * R;         (* key, now *)
  rd_Expire : string → Z → Z → R → option store_error * R;     (* key, ttl, now *)
  rd_Exists : string → Z → R → result Z store_error * R;
  rd_Set : string → Z → Z → R → option store_error * R;        (* SET key 1 EX ttl *)
  rd_Del : list string → Z → R → del_reply * R;
}.

Module RedisStore.
Section Ops.
Context {R : Type} `{Redis R}.

Definition incr (key : string) (ttl now : Z) (r : R) : result Z store_error * R :=
  match rd_Incr key now r with
  | (Err e, r) => (Err e, r)
  | (Ok n, r) => if n =? 1 then (Ok n, (rd_Expire key ttl now r).2) else (Ok n, r)
  end.

Definition exists_ (key : string) (now : Z) (r : R) : result bool store_error * R :=
  match rd_Exists key now r with
  | (Err e, r) => (Err e, r)
  | (Ok n, r) => (Ok (0 <? n), r)
  end.

Definition set (key : string) (ttl now : Z) (r : R) : option store_error * R :=
  rd_Set key ttl now r.

Definition del (keys : list string) (now : Z) (r : R) : option store_error * R :=
  match keys with
  | [] => (None, r)
  | _ => match rd_Del keys now r with
         | (DOk, r) | (DNil, r) => (None, r)
         | (DErr e, r) => (Some e, r)
         end
  end.
End Ops.
End RedisStore.

Definition redisLimitStore_ops {R} `{Redis R} : LimitStore R :=
  {| ls_incr := RedisStore.incr; ls_exists := RedisStore.exists_;
     ls_set := RedisStore.set; ls_del := RedisStore.del |}.

(** Redis' documented behaviour: INCR of an absent key creates it at 1 without
    expiry, EXPIRE sets the expiry of an existing key (and here does not fail),
    EXISTS counts, SET with a time to live replaces, DEL removes. *)
Class RedisLaws (R : Type) `{Redis R} := {
  rd_entry : R → string → option entry;
  rd_Incr_law k t r n r' : rd_Incr k t r = (Ok n, r') →
    (∀ k' t', k' ≠ k → t ≤ t' →
       live_entry t' (rd_entry r' k') = live_entry t' (rd_entry r k')) ∧
    (match live_entry t (rd_entry r k) with
     | Some (c, e) => n = c + 1 ∧ rd_entry r' k = Some (n, e)
     | None => n = 1 ∧ rd_entry r' k = Some (1, None)
     end);
  rd_Expire_law k ttl t r c e :
    rd_entry r k = Some (c, e) → unexpired t (c, e) = true →
    (∀ k' t', k' ≠ k → t ≤ t' →
       live_entry t' (rd_entry (rd_Expire k ttl t r).2 k') = live_entry t' (rd_entry r k')) ∧
    rd_entry (rd_Expire k ttl t r).2 k = Some (c, Some (t + ttl));
  rd_Exists_law k t r n r' : rd_Exists k t r = (Ok n, r') →
    (0 < n ↔ is_Some (live_entry t (rd_entry r k))) ∧
    ∀ k' t', t ≤ t' → live_entry t' (rd_entry r' k') = live_entry t' (rd_entry r k');
  rd_Set_law k ttl t r r' : rd_Set k ttl t r = (None, r') →
    (∀ k' t', k' ≠ k → t ≤ t' →
       live_entry t' (rd_entry r' k') = live_entry t' (rd_entry r k')) ∧
    rd_entry r' k = Some (1, Some (t + ttl));
  rd_Del_law ks t r x r' : rd_Del ks t r = (x, r') → x = DOk ∨ x = DNil →
    ∀ k' t', t ≤ t' →
      live_entry t' (rd_entry r' k')
      = if decide (k' ∈ ks) then None else live_entry t' (rd_entry r k');
}.

(** ** Both stores keep the interface's promises *)
Definition mem_entry (m : Mem.memLimitStore) (k : string) : option entry :=
  (λ e, (Mem.e_count e, Some (Mem.expiresAt e))) <$> m !! k.

Lemma live_entry_mono t t' e : t ≤ t' → live_entry t e = None → live_entry t' e = None.
Proof.
  intros Ht. destruct e as [[c [x|]]|]; simpl; try done. unfold unexpired. simpl.
  destruct (Z.ltb_spec t x); [done|]. intros _. by rewrite (proj2 (Z.ltb_ge t' x)) by lia.
Qed.

Lemma mem_prune k t t' m :
  t ≤ t' → live_entry t' (mem_entry (Mem.pruneLocked t m) k) = live_entry t' (mem_entry m k).
Proof.
  intros Ht. unfold mem_entry, Mem.pruneLocked. rewrite map_lookup_filter.
  destruct (m !! k) as [e|]; simpl; [|done]. unfold unexpired. simpl.
  case_guard; simpl; [done|]. by rewrite (proj2 (Z.ltb_ge t' _)) by lia.
Qed.

Lemma mem_live k t m :
  (Mem.live k t m).1 = (λ e : entry, Mem.mkEntry e.1 (default 0 e.2)) <$> live_entry t (mem_entry m k)
  ∧ (∀ k' t', t ≤ t' →
       live_entry t' (mem_entry (Mem.live k t m).2 k') = live_entry t' (mem_entry m k')).
Proof.
  unfold Mem.live, mem_entry. destruct (m !! k) as [e|] eqn:E; simpl; [|done].
  unfold unexpired. simpl. destruct (Z.ltb_spec t (Mem.expiresAt e)); simpl.
  - split; [by destruct e|done].
  - split; [done|]. intros k' t' Ht. destruct (decide (k' = k)) as [->|].
    + rewrite lookup_delete_eq, E. simpl. unfold unexpired. simpl.
      by rewrite (proj2 (Z.ltb_ge t' _)) by lia.
    + by rewrite lookup_delete_ne.
Qed.

Lemma mem_insert k e m k' :
  mem_entry (<[k := e]> m) k'
  = if decide (k' = k) then Some (Mem.e_count e, Some (Mem.expiresAt e)) else mem_entry m k'.
Proof.
  unfold mem_entry. case_decide as Hk; [subst; by rewrite lookup_insert_eq|].
  by rewrite lookup_insert_ne.
Qed.

Lemma mem_del ks m k :
  mem_entry (foldl (λ m key, delete key m) m ks) k
  = if decide (k ∈ ks) then None else mem_entry m k.
Proof.
  revert m. induction ks as [|k0 ks IH]; intros m; cbn [foldl].
  { by rewrite decide_False by apply not_elem_of_nil. }
  rewrite IH. destruct (decide (k ∈ ks)).
  - rewrite decide_True; [done|by right].
  - destruct (decide (k = k0)) as [->|].
    + rewrite decide_True by (by left). unfold mem_entry.
      by rewrite lookup_delete_eq.
    + rewrite decide_False by (by apply not_elem_of_cons). unfold mem_entry.
      by rewrite lookup_delete_ne.
Qed.

#[export] Instance memLimitStore_laws : LimitStoreLaws (gmap string Mem.memLimitEntry).
Proof.
  refine (@Build_LimitStoreLaws _ _ mem_entry _ _ _ _).
  - intros k t m b m' He. destruct (mem_live k t m) as [H1 H2]. simpl in He.
    unfold Mem.exists_ in He. destruct (Mem.live k t m) as [o m1]. simplify_eq/=.
    split; [|done]. by destruct (live_entry t (mem_entry m k)).
  - intros k ttl t m n m' He. simpl in He. unfold Mem.incr in He.
    pose proof (mem_live k t (Mem.pruneLocked t m)) as [H1 H2].
    destruct (Mem.live k t (Mem.pruneLocked t m)) as [o m1].
    cbn [fst snd] in H1, H2. rewrite mem_prune in H1 by lia.
    assert (∀ e k' t', k' ≠ k → t ≤ t' →
      live_entry t' (mem_entry (<[k := e]> m1) k') = live_entry t' (mem_entry m k')) as Hother.
    { intros e k' t' Hk Ht. rewrite mem_insert, decide_False by done.
      rewrite H2 by done. by apply mem_prune. }
    split; [destruct o; simplify_eq; by apply Hother|].
    assert (∀ c e, live_entry t (mem_entry m k) = Some (c, e) → ∃ x, e = Some x) as Hfin.
    { intros c e. unfold mem_entry. destruct (m !! k); simpl; [|done].
      unfold unexpired. simpl. destruct (t <? _); [|done]. intros. simplify_eq. eauto. }
    destruct (live_entry t (mem_entry m k)) as [[c e]|]; subst o; simplify_eq/=.
    + destruct (Hfin c e eq_refl) as [x ->]. split; [done|].
      by rewrite mem_insert, decide_True.
    + split; [done|]. by rewrite mem_insert, decide_True.
  - intros k ttl t m m' He. simpl in He. unfold Mem.set in He. simplify_eq. split.
    + intros k' t' Hk Ht. rewrite mem_insert, decide_False by done. by apply mem_prune.
    + by rewrite mem_insert, decide_True.
  - intros ks t m m' He k' t' Ht. simpl in He. unfold Mem.del in He. simplify_eq.
    rewrite mem_del. by case_decide.
Defined.

#[export] Instance redisLimitStore_laws {R} `{RedisLaws R} :
  @LimitStoreLaws R redisLimitStore_ops.
Proof.
  refine (@Build_LimitStoreLaws R redisLimitStore_ops rd_entry _ _ _ _).
  - intros k t r b r' He. simpl in He. unfold RedisStore.exists_ in He.
    destruct (rd_Exists k t r) as [[n|] r1] eqn:E; simplify_eq.
    apply rd_Exists_law in E as [Hn Hk]. split; [|done].
    apply eq_bool_prop_intro. rewrite !Is_true_true, Z.ltb_lt, Hn. 
    by rewrite bool_decide_eq_true.
  - intros k ttl t r n r' He. simpl in He. unfold RedisStore.incr in He.
    destruct (rd_Incr k t r) as [[n1|] r1] eqn:E; [|done].
    apply rd_Incr_law in E as [Hk Hn].
    assert (∀ c e, live_entry t (rd_entry r k) = Some (c, e) → unexpired t (c, e) = true) as Hun.
    { intros c e. destruct (rd_entry r k) as [x|]; simpl; [|done].
      destruct (unexpired t x) eqn:Eu; [|done]. by intros [= ->]. }
    destruct (live_entry t (rd_entry r k)) as [[c e]|]; destruct Hn as [-> He1].
    + specialize (Hun c e eq_refl).
      destruct (Z.eqb_spec (c + 1) 1); simplify_eq; [|by split].
      destruct (rd_Expire_law k ttl t r1 (c + 1) e He1 Hun) as [Hk2 He2].
      split; [|lia]. intros k' t' ??. rewrite Hk2 by done. by apply Hk.
    + destruct (rd_Expire_law k ttl t r1 1 None He1 eq_refl) as [Hk2 He2].
      simpl in He. simplify_eq. split; [|done].
      intros k' t' ??. rewrite Hk2 by done. by apply Hk.
  - intros k ttl t r r' He. by apply rd_Set_law.
  - intros ks t r r' He k' t' Ht. simpl in He. unfold RedisStore.del in He.
    destruct ks as [|k0 ks].
    { simplify_eq. by rewrite decide_False by apply not_elem_of_nil. }
    destruct (rd_Del (k0 :: ks) t r) as [x r1] eqn:E.
    eapply rd_Del_law; [|by destruct x; [left|right|]|done]. 
    rewrite E. by destruct x; simplify_eq.
Defined.

(** ** The limiter on a store that answers *)
(** Keys of the four families never meet, and a pair key determines its
    address when addresses hold no NUL byte. *)
Lemma key_families a b :
  keyFailIPUser +:+ a ≠ keyFailIP +:+ b ∧ keyFailIPUser +:+ a ≠ keyLockIPUser +:+ b ∧
  keyFailIPUser +:+ a ≠ keyLockIP +:+ b ∧ keyLockIPUser +:+ a ≠ keyFailIP +:+ b ∧
  keyLockIPUser +:+ a ≠ keyLockIP +:+ b ∧ keyFailIP +:+ a ≠ keyLockIP +:+ b.
Proof. split_and!; intros E; vm_compute in E; discriminate E. Qed.

Lemma ipUserKey_inj ip user ip' user' :
  no_byte NUL ip → no_byte NUL ip' →
  ipUserKey ip user = ipUserKey ip' user' → ip = ip' ∧ user = user'.
Proof.
  unfold ipUserKey. intros Hi Hi' E.
  pose proof (cut_app NUL ip user Hi) as H1. rewrite E, cut_app in H1 by done.
  by simplify_eq.
Qed.

Section Theory.
Context {S : Type} `{LimitStoreLaws S} (cfg : RateLimitConfig).
Implicit Types (s : S) (k : string).

(** The store answers every request. *)
Class Reliable : Prop := {
  rel_incr k ttl t s : ∃ n, (ls_incr k ttl t s).1 = Ok n;
  rel_exists k t s : ∃ b, (ls_exists k t s).1 = Ok b;
  rel_set k ttl t s : (ls_set k ttl t s).1 = None;
  rel_del ks t s : (ls_del ks t s).1 = None;
}.
Context `{!Reliable}.

Definition view s k (t : Z) : option entry := live_entry t (ls_entry s k).

(** From time [t] on: two states agree on a key; a key is absent; a key holds
    count [j] until [x]. *)
Definition same (t : Z) s s' k : Prop := ∀ t', t ≤ t' → view s' k t' = view s k t'.
Definition absent (t : Z) s k : Prop := ∀ t', t ≤ t' → view s k t' = None.
Definition holds (t : Z) s k (j x : Z) : Prop :=
  ∀ t', t ≤ t' → view s k t' = if t' <? x then Some (j, Some x) else None.

Lemma same_absent t t1 s s' k : t ≤ t1 → same t1 s s' k → absent t s k → absent t1 s' k.
Proof. intros Ht Hs Ha t' Ht'. rewrite Hs by done. apply Ha. lia. Qed.
Lemma same_holds t t1 s s' k j x :
  t ≤ t1 → same t1 s s' k → holds t s k j x → holds t1 s' k j x.
Proof. intros Ht Hs Ha t' Ht'. rewrite Hs by done. apply Ha. lia. Qed.
Lemma same_trans t s s1 s2 k : same t s s1 k → same t s1 s2 k → same t s s2 k.
Proof. intros Ha Hb t' Ht'. by rewrite Hb, Ha. Qed.

(** What one count does to the counter, the lock and every other key. *)
Definition locks (maxF n t : Z) s s' k : Prop :=
  if n <? maxF then same t s s' k else holds t s' k 1 (t + Lockout cfg).

Lemma raw_holds t s k j x : ls_entry s k = Some (j, Some x) → holds t s k j x.
Proof. intros E t' _. unfold view. rewrite E. done. Qed.

Lemma count_spec ck lk maxF t s :
  0 < maxF → ck ≠ lk →
  let s' := count cfg ck lk maxF t s in
  (∀ k, k ≠ ck → k ≠ lk → same t s s' k) ∧
  (absent t s ck → holds t s' ck 1 (t + Window cfg) ∧ locks maxF 1 t s s' lk) ∧
  (∀ j x, holds t s ck j x → 1 ≤ j → t < x →
     holds t s' ck (j + 1) x ∧ locks maxF (j + 1) t s s' lk).
Proof.
  intros Hm Hne. unfold count. rewrite (proj2 (Z.leb_gt maxF 0)) by lia.
  destruct (rel_incr ck (Window cfg) t s) as [n Hn].
  destruct (ls_incr ck (Window cfg) t s) as [r s1] eqn:Ei. simpl in Hn. subst r.
  apply ls_incr_law in Ei as [Ho Hc].
  (* the state after the optional lock *)
  assert (∃ s2, (if n <? maxF then s1 else (ls_set lk (Lockout cfg) t s1).2) = s2 ∧
            (∀ k, k ≠ lk → same t s1 s2 k) ∧ locks maxF n t s1 s2 lk) as (s2 & -> & Hk2 & Hl2).
  { unfold locks. destruct (n <? maxF); [by exists s1|].
    pose proof (rel_set lk (Lockout cfg) t s1) as Hr.
    destruct (ls_set lk (Lockout cfg) t s1) as [r s2] eqn:Es. simpl in Hr. subst r.
    apply ls_set_law in Es as [Hk He]. exists s2. split_and!; [done| |by apply raw_holds].
    intros k Hk' t' Ht'. by apply Hk. }
  assert (locks maxF n t s s2 lk) as Hl.
  { unfold locks in *. destruct (n <? maxF); [|done].
    eapply same_trans, Hl2. intros t' Ht'. apply Ho; [congruence|done]. }
  cbn zeta. split_and!.
  - intros k Hk Hk'. eapply same_trans, (Hk2 k Hk'). intros t' Ht'. by apply Ho.
  - intros Ha. unfold absent, view in Ha. rewrite Ha in Hc by lia. destruct Hc as [-> He].
    split; [|done]. eapply same_holds; [done|by apply Hk2|by apply raw_holds].
  - intros j x Hh Hj Hx. unfold holds, view in Hh. rewrite Hh in Hc by lia.
    rewrite (proj2 (Z.ltb_lt t x)) in Hc by lia. destruct (Hc Hj) as [-> He].
    split; [|done]. eapply same_holds; [done|by apply Hk2|by apply raw_holds].
Qed.

(** One dimension of the limiter after [n] failures, the last at [t], counted
    in a window that ends at [x]. *)
Definition dim ck lk (maxF n t x : Z) s : Prop :=
  if maxF <=? 0 then absent t s lk
  else holds t s ck n x ∧
       (if n <? maxF then absent t s lk else holds t s lk 1 (t + Lockout cfg)).

Lemma dim_start ck lk maxF t s :
  ck ≠ lk → absent t s ck → absent t s lk →
  dim ck lk maxF 1 t (t + Window cfg) (count cfg ck lk maxF t s).
Proof.
  intros Hne Hc Hl. unfold dim. destruct (Z.leb_spec maxF 0) as [Hm|Hm].
  { unfold count. by rewrite (proj2 (Z.leb_le maxF 0)). }
  destruct (count_spec ck lk maxF t s Hm Hne) as (_ & Hs & _).
  destruct (Hs Hc) as [Hh Hk]. split; [done|]. unfold locks in Hk.
  destruct (1 <? maxF); [|done]. by eapply same_absent.
Qed.

Lemma dim_step ck lk maxF n t t' x s0 s :
  ck ≠ lk → 1 ≤ n → t ≤ t' < x → same t' s0 s ck → same t' s0 s lk →
  dim ck lk maxF n t x s0 → dim ck lk maxF (n + 1) t' x (count cfg ck lk maxF t' s).
Proof.
  intros Hne Hn Ht Hsc Hsl. unfold dim. destruct (Z.leb_spec maxF 0) as [Hm|Hm].
  { unfold count. rewrite (proj2 (Z.leb_le maxF 0)) by done.
    intros Ha. eapply same_absent; [|done|done]. lia. }
  intros [Hh Hl]. destruct (count_spec ck lk maxF t' s Hm Hne) as (_ & _ & Hs).
  destruct (Hs n x) as [Hh' Hk]; [eapply same_holds; [|done|done]; lia|done|lia|].
  split; [done|]. unfold locks in Hk.
  destruct (Z.ltb_spec (n + 1) maxF); [|done].
  rewrite (proj2 (Z.ltb_lt n maxF)) in Hl by lia.
  apply (same_absent t t' s0); [lia| |done]. by eapply same_trans.
Qed.

Lemma dim_frame ck lk maxF n t x s s' :
  same t s s' ck → same t s s' lk → dim ck lk maxF n t x s → dim ck lk maxF n t x s'.
Proof.
  intros Hc Hl. unfold dim. destruct (maxF <=? 0); [by apply same_absent|].
  intros [Hh Hk]. split; [by eapply same_holds|].
  destruct (n <? maxF); [by eapply same_absent|by eapply same_holds].
Qed.

Lemma count_other ck lk maxF t s k :
  ck ≠ lk → k ≠ ck → k ≠ lk → same t s (count cfg ck lk maxF t s) k.
Proof.
  intros Hne Hk Hk'. destruct (Z.leb_spec maxF 0) as [Hm|Hm].
  { unfold count. by rewrite (proj2 (Z.leb_le maxF 0)). }
  by apply (count_spec ck lk maxF t s Hm Hne).
Qed.

Lemma last_cons_default {A} (a : A) l d : List.last (a :: l) d = List.last l a.
Proof.
  revert a d. induction l as [|b l IH]; intros a d; [done|].
  change (List.last (b :: l) d = List.last (b :: l) a). by rewrite !IH.
Qed.

Section Pair.
Context (ip user : string) (Hip : ip ≠ "") (Huser : user ≠ "").
Definition fk : string := keyFailIPUser +:+ ipUserKey ip user.
Definition lk : string := keyLockIPUser +:+ ipUserKey ip user.
Definition fi : string := keyFailIP +:+ ip.
Definition li : string := keyLockIP +:+ ip.

Lemma pair_keys :
  fk ≠ lk ∧ fi ≠ li ∧ fk ≠ fi ∧ fk ≠ li ∧ lk ≠ fi ∧ lk ≠ li.
Proof.
  unfold fk, lk, fi, li. split_and!; apply key_families.
Qed.

(** Both dimensions after [n] failures. *)
Definition failures (n t x : Z) s : Prop :=
  dim fk lk (MaxFailuresPerIPUser cfg) n t x s ∧ dim fi li (MaxFailuresPerIP cfg) n t x s.

Lemma recordFailure_eq t s :
  recordFailure cfg ip user t s
  = count cfg fi li (MaxFailuresPerIP cfg) t
      (count cfg fk lk (MaxFailuresPerIPUser cfg) t s).
Proof.
  unfold recordFailure. rewrite decide_False by done. by rewrite decide_True by done.
Qed.

Lemma failures_start t s :
  absent t s fk → absent t s lk → absent t s fi → absent t s li →
  failures 1 t (t + Window cfg) (recordFailure cfg ip user t s).
Proof.
  intros. destruct pair_keys as (K1 & K2 & K3 & K4 & K5 & K6). rewrite recordFailure_eq.
  split.
  - eapply dim_frame; [by apply count_other..|]. by apply dim_start.
  - apply dim_start; [done|..]; (eapply same_absent; [done|by apply count_other|done]).
Qed.

Lemma failures_step n t t' x s :
  1 ≤ n → t ≤ t' < x → failures n t x s →
  failures (n + 1) t' x (recordFailure cfg ip user t' s).
Proof.
  intros Hn Ht [Hp Hi]. destruct pair_keys as (K1 & K2 & K3 & K4 & K5 & K6).
  rewrite recordFailure_eq. split.
  - eapply dim_frame; [by apply count_other..|]. by eapply dim_step.
  - eapply dim_step; [done|done|exact Ht|by apply count_other..|done].
Qed.

Lemma failures_run n t x ts s :
  1 ≤ n → StronglySorted Z.le (t :: ts) → Forall (λ t', t' < x) ts → failures n t x s →
  failures (n + Z.of_nat (length ts)) (List.last ts t) x
    (foldl (λ s t', recordFailure cfg ip user t' s) s ts).
Proof.
  revert n t s. induction ts as [|t1 ts IH]; intros n t s Hn Hs Hx Hf; cbn [foldl length].
  { by rewrite Z.add_0_r. }
  apply StronglySorted_cons in Hs as [Hle Hs]. apply Forall_cons in Hle as [Ht1 _].
  apply Forall_cons in Hx as [Hx1 Hx].
  rewrite last_cons_default.
  replace (n + Z.of_nat (Datatypes.S (length ts))) with (n + 1 + Z.of_nat (length ts)) by lia.
  apply IH; [lia|done|done|]. by eapply failures_step.
Qed.
End Pair.

Lemma exists_view k t s :
  (ls_exists k t s).1 = Ok (bool_decide (is_Some (view s k t))) ∧
  ∀ k', same t s (ls_exists k t s).2 k'.
Proof.
  destruct (rel_exists k t s) as [b Hb]. destruct (ls_exists k t s) as [r s'] eqn:E.
  simpl in Hb. subst r. apply ls_exists_law in E as [-> Hk]. split; [done|].
  intros k' t' Ht'. by apply Hk.
Qed.

(** [isLimited] reads the two lock keys. *)
Lemma isLimited_view ip user t s :
  ip ≠ "" → user ≠ "" →
  (isLimited ip user t s).1
  = bool_decide (is_Some (view s (lk ip user) t)) || bool_decide (is_Some (view s (li ip) t)).
Proof.
  intros Hip Hu. unfold isLimited, lock_keys. rewrite decide_False by done.
  rewrite decide_True by done. cbn [any_locked app]. fold (lk ip user) (li ip).
  destruct (exists_view (lk ip user) t s) as [E1 Hs1].
  destruct (ls_exists (lk ip user) t s) as [r1 s1]. simpl in E1, Hs1. subst r1.
  destruct (bool_decide (is_Some (view s (lk ip user) t))); [done|]. simpl.
  destruct (exists_view (li ip) t s1) as [E2 Hs2].
  destruct (ls_exists (li ip) t s1) as [r2 s2]. simpl in E2. subst r2.
  rewrite (Hs1 (li ip)) by lia. by destruct (bool_decide (is_Some (view s (li ip) t))).
Qed.

(** Failures of one user from one address, all within one window of the
    first and below the per-address limit, lock the pair exactly when they
    reach the pair's threshold, for exactly the lockout time after the last of
    them; fewer failures, or a check after the lockout, do not lock. *)
Lemma lockout_exact ip user t0 ts s t :
  ip ≠ "" → user ≠ "" → 0 < MaxFailuresPerIPUser cfg →
  (MaxFailuresPerIP cfg ≤ 0 ∨ Z.of_nat (length (t0 :: ts)) < MaxFailuresPerIP cfg) →
  absent t0 s (fk ip user) → absent t0 s (lk ip user) →
  absent t0 s (fi ip) → absent t0 s (li ip) →
  StronglySorted Z.le (t0 :: ts) → Forall (λ t', t' < t0 + Window cfg) ts →
  List.last ts t0 ≤ t →
  (isLimited ip user t
     (foldl (λ s t', recordFailure cfg ip user t' s) s (t0 :: ts))).1
  = (MaxFailuresPerIPUser cfg <=? Z.of_nat (length (t0 :: ts)))
    && (t <? List.last ts t0 + Lockout cfg).
Proof.
  intros Hip Hu Hm Hmi A1 A2 A3 A4 Hsort Hwin Ht. rewrite isLimited_view by done.
  pose proof (failures_start ip user Hip Hu t0 s A1 A2 A3 A4) as Hf.
  cbn [foldl]. eapply failures_run in Hf as [Hp Hi]; [|done..].
  set (s' := foldl _ _ ts) in *. set (n := 1 + Z.of_nat (length ts)) in *.
  replace (Z.of_nat (length (t0 :: ts))) with n in * by (cbn [length]; lia).
  assert (view s' (li ip) t = None) as ->.
  { unfold dim in Hi. destruct (Z.leb_spec (MaxFailuresPerIP cfg) 0); [by apply Hi|].
    destruct Hi as [_ Hi]. rewrite (proj2 (Z.ltb_lt n _)) in Hi by lia. by apply Hi. }
  unfold dim in Hp. rewrite (proj2 (Z.leb_gt _ 0)) in Hp by lia. destruct Hp as [_ Hp].
  rewrite orb_false_r, Z.leb_antisym. destruct (n <? MaxFailuresPerIPUser cfg); simpl.
  - by rewrite Hp by done.
  - rewrite Hp by done. by destruct (t <? _).
Qed.

Lemma isLimited_same ip user t s s' :
  ip ≠ "" → user ≠ "" → same t s s' (lk ip user) → same t s s' (li ip) →
  (isLimited ip user t s').1 = (isLimited ip user t s).1.
Proof. intros Hi Hu Hl Ha. rewrite !isLimited_view by done. by rewrite Hl, Ha by lia. Qed.

Lemma same_later t t' s s' k : t ≤ t' → same t s s' k → same t' s s' k.
Proof. intros Ht Hs t'' ?. apply Hs. lia. Qed.

Lemma lk_inj ip user ip' user' :
  no_byte NUL ip → no_byte NUL ip' → lk ip' user' = lk ip user → ip' = ip ∧ user' = user.
Proof. intros Hi Hi' E%sapp_inj_l. by apply ipUserKey_inj in E. Qed.

(** A successful login clears its own (address, user) pair and nothing
    else: afterwards the pair is limited only by a lock on the address; the
    address's failure count and lock stay; and every other pair is exactly as
    limited as before. *)
Lemma success_clears_pair_only ip user now s t :
  ip ≠ "" → user ≠ "" → no_byte NUL ip → now ≤ t →
  let s' := recordSuccess ip user now s in
  (isLimited ip user t s').1 = bool_decide (is_Some (view s (li ip) t)) ∧
  view s' (fi ip) t = view s (fi ip) t ∧ view s' (fk ip user) t = None ∧
  ∀ ip' user', ip' ≠ "" → user' ≠ "" → no_byte NUL ip' → (ip', user') ≠ (ip, user) →
    (isLimited ip' user' t s').1 = (isLimited ip' user' t s).1.
Proof.
  intros Hip Hu Hnul Ht. cbn zeta. unfold recordSuccess.
  rewrite decide_False by (by intros [?|?]). fold (fk ip user) (lk ip user).
  pose proof (rel_del [fk ip user; lk ip user] now s) as Hr.
  destruct (ls_del [fk ip user; lk ip user] now s) as [r s'] eqn:E. simpl in Hr. subst r.
  pose proof (ls_del_law _ _ _ _ E) as Hd. cbn [snd].
  assert (∀ k, k ≠ fk ip user → k ≠ lk ip user → same t s s' k) as Hsame.
  { intros k Hk1 Hk2 t' Ht'. unfold view. rewrite Hd by lia.
    by rewrite decide_False by set_solver. }
  destruct (pair_keys ip user) as (K1 & K2 & K3 & K4 & K5 & K6).
  split_and!.
  - rewrite isLimited_view by done.
    rewrite (Hsame (li ip) (not_eq_sym K4) (not_eq_sym K6) t) by lia.
    assert (view s' (lk ip user) t = None) as ->; [|done].
    unfold view. rewrite (Hd (lk ip user) t) by lia. by rewrite decide_True by set_solver.
  - by rewrite (Hsame (fi ip) (not_eq_sym K3) (not_eq_sym K5) t) by lia.
  - unfold view. rewrite (Hd (fk ip user) t) by lia. by rewrite decide_True by set_solver.
  - intros ip' user' Hip' Hu' Hnul' Hne. apply isLimited_same; [done|done|..]; apply Hsame.
    + intros E'. by destruct (key_families (ipUserKey ip user) (ipUserKey ip' user'))
        as (_ & K & _).
    + intros E'. apply lk_inj in E' as [-> ->]; done.
    + unfold li. intros E'. by destruct (key_families (ipUserKey ip user) ip') as (_ & _ & K & _).
    + unfold li. intros E'.
      by destruct (key_families (ipUserKey ip user) ip') as (_ & _ & _ & _ & K & _).
Qed.

(** Failures from one address never limit another address, whatever the
    users: a locked-out attacker cannot lock out anybody else. *)
Lemma failures_isolated ip user now s ip' user' t :
  ip ≠ "" → no_byte NUL ip → no_byte NUL ip' → ip' ≠ "" → user' ≠ "" → ip' ≠ ip → now ≤ t →
  (isLimited ip' user' t (recordFailure cfg ip user now s)).1 = (isLimited ip' user' t s).1.
Proof.
  intros Hip Hn Hn' Hip' Hu' Hne Ht.
  assert (li ip' ≠ li ip) as Kli by (intros ?%sapp_inj_l; done).
  assert (lk ip' user' ≠ lk ip user) as Klk by (intros [? ?]%lk_inj; done).
  destruct (pair_keys ip user) as (K1 & K2 & K3 & K4 & K5 & K6).
  assert (∀ k, k ≠ fk ip user → k ≠ lk ip user → k ≠ fi ip → k ≠ li ip →
            same t s (recordFailure cfg ip user now s) k) as Hsame.
  { intros k ????. apply (same_later now); [done|]. unfold recordFailure.
    rewrite decide_False by done. fold (fk ip user) (lk ip user) (fi ip) (li ip).
    case_decide; [|by apply count_other].
    eapply same_trans; [|by apply count_other]. by apply count_other. }
  apply isLimited_same; [done|done|..]; by apply Hsame.
Qed.
End Theory.

(** ** A concrete limiter *)
#[export] Instance mem_reliable : @Reliable (gmap string Mem.memLimitEntry) _.
Proof.
  split; intros; simpl; unfold Mem.incr, Mem.exists_, Mem.set, Mem.del.
  - destruct (Mem.live _ _ _) as [[e|] m]; simpl; eauto.
  - destruct (Mem.live _ _ _) as [e m]; simpl; eauto.
  - done.
  - done.
Qed.

Definition strict : RateLimitConfig := mkLimits 3 20 300 900.
Definition attack (ts : list Z) : gmap string Mem.memLimitEntry :=
  foldl (λ s t, recordFailure strict "192.0.2.1" "ann" t s) ∅ ts.

Lemma lockout_exact_example :
  (isLimited "192.0.2.1" "ann" 50 (attack [0; 10; 20])).1 = true ∧
  (isLimited "192.0.2.1" "ann" 50 (attack [0; 10])).1 = false ∧
  (isLimited "192.0.2.1" "ann" 920 (attack [0; 10; 20])).1 = false.
Proof.
  assert (∀ k, absent 0 (∅ : gmap string Mem.memLimitEntry) k) as Ha by (by intros k t' ?).
  split_and!.
  - apply (lockout_exact strict "192.0.2.1" "ann" 0 [10; 20] ∅ 50); try done.
    + right. done.
    + repeat constructor; done.
    + repeat constructor; done.
  - apply (lockout_exact strict "192.0.2.1" "ann" 0 [10] ∅ 50); try done.
    + right. done.
    + repeat constructor; done.
    + repeat constructor; done.
  - apply (lockout_exact strict "192.0.2.1" "ann" 0 [10; 20] ∅ 920); try done.
    + right. done.
    + repeat constructor; done.
    + repeat constructor; done.
Defined.

Lemma success_clears_pair_only_example :
  (isLimited "192.0.2.1" "ann" 50 (recordSuccess "192.0.2.1" "ann" 30 (attack [0; 10; 20]))).1
  = false.
Proof.
  destruct (success_clears_pair_only "192.0.2.1" "ann" 30 (attack [0; 10; 20]) 50)
    as [-> _]; try done.
Defined.

Lemma failures_isolated_example :
  (isLimited "192.0.2.2" "ann" 50
     (recordFailure strict "192.0.2.1" "ann" 20 (attack [0; 10]))).1 = false.
Proof.
  rewrite (failures_isolated strict "192.0.2.1" "ann" 20 (attack [0; 10]) "192.0.2.2" "ann" 50);
    done.
Defined.

(** ** A Redis that behaves as documented *)
Module FakeRedis.
Definition look (t : Z) (k : string) (r : gmap string entry) : option entry :=
  live_entry t (r !! k).

#[global] Instance fake_redis : Redis (gmap string entry) := {|
  rd_Incr k t r :=
    match look t k r with
    | Some (c, e) => (Ok (c + 1), <[k := (c + 1, e)]> r)
    | None => (Ok 1, <[k := (1, None)]> r)
    end;
  rd_Expire k ttl t r :=
    match look t k r with
    | Some (c, _) => (None, <[k := (c, Some (t + ttl))]> r)
    | None => (None, r)
    end;
  rd_Exists k t r := (Ok (match look t k r with Some _ => 1 | None => 0 end), r);
  rd_Set k ttl t r := (None, <[k := (1, Some (t + ttl))]> r);
  rd_Del ks t r := (DOk, foldl (λ r k, delete k r) r ks);
|}.

Lemma foldl_delete ks (r : gmap string entry) k :
  foldl (λ r k, delete k r) r ks !! k = if decide (k ∈ ks) then None else r !! k.
Proof.
  revert r. induction ks as [|k0 ks IH]; intros r; cbn [foldl].
  { by rewrite decide_False by apply not_elem_of_nil. }
  rewrite IH. destruct (decide (k ∈ ks)); [by rewrite decide_True by (by right)|].
  destruct (decide (k = k0)) as [->|].
  - rewrite lookup_delete_eq. by rewrite decide_True by (by left).
  - rewrite lookup_delete_ne by done. by rewrite decide_False by (by apply not_elem_of_cons).
Qed.

#[global] Instance fake_redis_laws : RedisLaws (gmap string entry).
Proof.
  refine (@Build_RedisLaws _ _ (λ r k, r !! k) _ _ _ _ _); simpl; unfold look.
  - intros k t r n r' E. destruct (live_entry t (r !! k)) as [[c e]|]; simplify_eq;
      (split; [|by rewrite lookup_insert_eq]); intros; by rewrite lookup_insert_ne.
  - intros k ttl t r c e Hk Hu. rewrite Hk. cbn [live_entry]. rewrite Hu. simpl.
    rewrite lookup_insert_eq. split; [|done]. intros. by rewrite lookup_insert_ne.
  - intros k t r n r' E. simplify_eq. split; [|done].
    destruct (live_entry t (r' !! k)); split; intros Hx; [by eauto|lia|lia|by destruct Hx].
  - intros k ttl t r r' E. simplify_eq. rewrite lookup_insert_eq. split; [|done].
    intros. by rewrite lookup_insert_ne.
  - intros ks t r x r' E _ k' t' Ht. simplify_eq. rewrite foldl_delete. by case_decide.
Defined.

(** The limiter on this Redis locks the third failure out. *)
Example redis_lockout :
  let s := foldl (λ s t, @recordFailure _ redisLimitStore_ops strict "192.0.2.1" "ann" t s)
             ∅ [0; 10; 20] in
  (@isLimited _ redisLimitStore_ops "192.0.2.1" "ann" 50 s).1 = true.
Proof. vm_compute. reflexivity. Qed.
End FakeRedis.
