(* ===== verification/NetIP.v ===== *)
(** * IP addresses

    What the sources use of Go's [net] package: [ParseIP], [ParseCIDR],
    [IPNet.Contains] and [IP.String]. An address is its 16-byte form as a number below 2^128;
    IPv4 addresses are the ones in ::ffff:0:0/96. *)
From S2P Require Import Prelude GoStrings.
From Stdlib Require Import ZArith Lia Ascii.
Open Scope string_scope.
Open Scope list_scope.
Open Scope Z_scope.

(** [parseIPv4Fields]: a dotted quad; no empty field, no leading zero. *)
Definition octet (f : string) : option Z :=
  match f with
  | String "0" (String _ _) => None
  | _ => match parse_decimal f with
         | Some n => if n <=? 255 then Some n else None
         | None => None
         end
  end.

Definition parseIPv4Fields (s : string) : option Z :=
  match Split "." s with
  | [a; b; c; d] =>
      match octet a, octet b, octet c, octet d with
      | Some a, Some b, Some c, Some d => Some (((a * 256 + b) * 256 + c) * 256 + d)
      | _, _, _, _ => None
      end
  | _ => None
  end.

Definition v4InV6 : Z := Z.shiftl 65535 32.

Definition hex_val (c : ascii) : option Z :=
  let n := Z.of_nat (nat_of_ascii c) in
  if is_digit c then Some (n - 48)
  else if (97 <=? n) && (n <=? 102) then Some (n - 87)
  else if (65 <=? n) && (n <=? 70) then Some (n - 55)
  else None.

(** The hex digits at the head: how many, their value, the rest. *)
Fixpoint hex_run (off acc : Z) (s : string) : Z * Z * string :=
  match s with
  | "" => (off, acc, s)
  | String c s' =>
      match hex_val c with
      | Some v => hex_run (off + 1) (acc * 16 + v) s'
      | None => (off, acc, s)
      end
  end.

(** The group loop of [parseIPv6]: the 16-bit groups read so far in order, the
    position of the ellipsis, and whether the string was used up. *)
Fixpoint v6_groups (fuel : nat) (groups : list Z) (ellipsis : option nat) (s : string)
    : option (list Z * option nat * string) :=
  match fuel with
  | O => Some (groups, ellipsis, s)
  | S n =>
      let '(off, acc, rest) := hex_run 0 0 s in
      if (4 <? off) || (off =? 0) then None
      else match rest with
      | String "." _ =>
          if bool_decide (ellipsis = None) && negb (bool_decide (length groups = 6%nat)) then None
          else if Nat.ltb 6 (length groups) then None
          else match parseIPv4Fields s with
               | Some v => Some (groups ++ [Z.shiftr v 16; Z.land v 65535], ellipsis, "")
               | None => None
               end
      | "" => Some (groups ++ [acc], ellipsis, "")
      | String ":" "" => None
      | String ":" (String c more) =>
          let groups := groups ++ [acc] in
          if Ascii.eqb c ":" then
            match ellipsis with
            | Some _ => None
            | None =>
                match more with
                | "" => Some (groups, Some (length groups), "")
                | _ => v6_groups n groups (Some (length groups)) more
                end
            end
          else v6_groups n groups ellipsis (String c more)
      | _ => None
      end
  end.

Definition of_groups (groups : list Z) : Z := foldl (λ acc g, acc * 65536 + g) 0 groups.

Definition v6_finish (r : list Z * option nat * string) : option Z :=
  let '(groups, ellipsis, rest) := r in
  if decide (rest ≠ "") then None
  else if Nat.ltb (length groups) 8 then
    match ellipsis with
    | None => None
    | Some e =>
        Some (of_groups (take e groups ++ replicate (8 - length groups) 0 ++ drop e groups))
    end
  else match ellipsis with Some _ => None | None => Some (of_groups groups) end.

(** [parseIPv6], without a zone. *)
Definition parseIPv6 (s : string) : option Z :=
  match s with
  | String ":" (String ":" "") => Some 0
  | String ":" (String ":" rest) => v6_groups 8 [] (Some 0%nat) rest ≫= v6_finish
  | _ => v6_groups 8 [] None s ≫= v6_finish
  end.

(** [netip.ParseAddr]: the address and its bit length. A zone is rejected by
    both callers, so ["%"] is rejected here. *)
Fixpoint first_special (s : string) : option ascii :=
  match s with
  | "" => None
  | String c s' => if Ascii.eqb c "." || Ascii.eqb c ":" || Ascii.eqb c "%" then Some c
                   else first_special s'
  end.

Definition ParseAddr (s : string) : option (Z * Z) :=
  match first_special s with
  | Some "."%char => match parseIPv4Fields s with
                     | Some v => Some (v4InV6 + v, 32)
                     | None => None
                     end
  | Some ":"%char => if has_byte "%" s then None
                     else match parseIPv6 s with Some v => Some (v, 128) | None => None end
  | _ => None
  end.

Definition ParseIP (s : string) : option Z := fst <$> ParseAddr s.

(** ** Networks *)
Record IPNet := mkNet { net_IP : Z; mask_len : Z; mask_bits : Z }.

(** [dtoi]: a decimal number below 0xFFFFFF using the whole string. *)
Definition dtoi (s : string) : option Z :=
  match parse_decimal s with
  | Some n => if n <? 16777215 then Some n else None
  | None => None
  end.

(** [CIDRMask(n, bits)] *)
Definition cidr_mask (n bits : Z) : Z := Z.shiftl (Z.ones n) (bits - n).

Definition ParseCIDR (s : string) : option IPNet :=
  match cut "/" s with
  | None => None
  | Some (addr, mask) =>
      match ParseAddr addr, dtoi mask with
      | Some (ip, bits), Some n =>
          if bits <? n then None
          else
            let m := cidr_mask n bits in
            Some (mkNet (if bits =? 32 then v4InV6 + Z.land (Z.land ip (Z.ones 32)) m
                         else Z.land ip m) n bits)
      | _, _ => None
      end
  end.

(** [ip.To4()] *)
Definition To4 (ip : Z) : option Z :=
  if Z.shiftr ip 32 =? 65535 then Some (Z.land ip (Z.ones 32)) else None.

(** The mask as a 16-byte mask has its low four bytes taken when the network
    address is an IPv4 one. *)
Definition Contains (n : IPNet) (ip : Z) : bool :=
  let m := cidr_mask (mask_len n) (mask_bits n) in
  match To4 (net_IP n), To4 ip with
  | Some nn, Some x => Z.land nn (Z.land m (Z.ones 32)) =? Z.land x (Z.land m (Z.ones 32))
  | None, None => (mask_bits n =? 128) && (Z.land (net_IP n) m =? Z.land ip m)
  | _, _ => false
  end.

(** ** Printing *)
Definition hex_char (n : Z) : ascii := ascii_of_nat (Z.to_nat (if n <? 10 then 48 + n else 87 + n)).
(** [appendHex]: a 16-bit group without leading zeros. *)
Definition fmt_hex (g : Z) : string :=
  let d i rest := String (hex_char (Z.land (Z.shiftr g (4 * i)) 15)) rest in
  let s := d 0 "" in
  let s := if 16 <=? g then d 1 s else s in
  let s := if 256 <=? g then d 2 s else s in
  if 4096 <=? g then d 3 s else s.
Definition v6_group (ip i : Z) : Z := Z.land (Z.shiftr ip (16 * (7 - i))) 65535.
Definition to_groups (ip : Z) : list Z := v6_group ip <$> [0; 1; 2; 3; 4; 5; 6; 7].

(** Length of the run of zero groups at the head. *)
Fixpoint zero_run (gs : list Z) : nat :=
  match gs with
  | g :: gs => if g =? 0 then S (zero_run gs) else O
  | [] => O
  end.
(** The first longest run of at least two zero groups: start and length. *)
Fixpoint best_run (i : nat) (gs : list Z) (best : option (nat * nat)) : option (nat * nat) :=
  match gs with
  | [] => best
  | g :: rest =>
      let l := zero_run gs in
      let best' := if Nat.leb 2 l && Nat.ltb (from_option snd O best) l then Some (i, l) else best in
      best_run (S i) rest best'
  end.
Definition hex_groups (gs : list Z) : string := sjoin ":" (fmt_hex <$> gs).
Definition v6_String (ip : Z) : string :=
  let gs := to_groups ip in
  match best_run 0 gs None with
  | None => hex_groups gs
  | Some (i, l) => hex_groups (take i gs) +:+ "::" +:+ hex_groups (drop (i + l) gs)
  end.
Definition v4_String (v : Z) : string :=
  sjoin "." (fmt_d <$> [Z.shiftr v 24; Z.land (Z.shiftr v 16) 255; Z.land (Z.shiftr v 8) 255; Z.land v 255]).

(** ** Examples *)
Example parse_v4 : ParseIP "192.0.2.10" = Some (v4InV6 + 3221225994).
Proof. reflexivity. Qed.
Example parse_v4_leading_zero : ParseIP "192.0.02.10" = None.
Proof. reflexivity. Qed.
Example parse_v6 : ParseIP "2001:db8::1" = Some (Z.shiftl 0x20010db8 96 + 1).
Proof. reflexivity. Qed.
Example parse_mapped : ParseIP "::ffff:192.0.2.10" = ParseIP "192.0.2.10".
Proof. reflexivity. Qed.
Example parse_v6_bad : ParseIP "1:2:3:4:5:6:7:8:9" = None ∧ ParseIP "1::2::3" = None.
Proof. split; reflexivity. Qed.
Example cidr_contains :
  (λ n, Contains n <$> ParseIP "10.9.8.7") <$> ParseCIDR "10.0.0.0/8" = Some (Some true).
Proof. reflexivity. Qed.
Example cidr_excludes :
  (λ n, Contains n <$> ParseIP "2001:db9::1") <$> ParseCIDR "2001:db8::/32" = Some (Some false).
Proof. reflexivity. Qed.

Example print_v6 :
  (v6_String <$> ParseIP "2001:DB8:0:0:1::") = Some "2001:db8:0:0:1::" ∧ v6_String 0 = "::" ∧
  (v6_String <$> ParseIP "1::2:0:0:0:3") = Some "1:0:0:2::3" ∧
  (v6_String <$> ParseIP "fe80::1") = Some "fe80::1".
Proof. by vm_compute. Qed.
Example print_v4 : (ParseIP "192.0.2.10" ≫= To4) = Some 3221225994 ∧ v4_String 3221225994 = "192.0.2.10".
Proof. by vm_compute. Qed.
