(* ===== verification/PeerGate.v ===== *)
(** * The accept-time peer gate

    src/internal/peergate/peergate.go (configuration, gate, verdict cache) and
    src/internal/peergate/connrate.go (connection-rate counter). The
    session-manager's CheckPeer call and the clock are the interface
    [PeerService]; the fire-and-forget report and the optional metrics are
    outputs. Durations and times are nanoseconds. A pointer that may be nil is
    an [option]. *)
From S2P Require Import Prelude GoStrings NetIP.
From Stdlib Require Import ZArith Lia.
Open Scope string_scope.
Open Scope list_scope.
Open Scope Z_scope.

(** ** Configuration *)
(** [time.ParseDuration] (its fractions use floating point). *)
Class GoDuration := ParseDuration : string → option Z.

Definition Second : Z := 1000000000.
Definition Millisecond : Z := 1000000.

Record Config := mkConfig {
  Enabled : option bool;
  Allowlist : list string;
  GateTimeout : Z;       GateTimeoutStr : string;
  MaxTarpit : Z;
  StrictGate : bool;
  AllowTTL : Z;          AllowTTLStr : string;
  DenyTTL : Z;           DenyTTLStr : string;
  CacheSize : Z;
  ConnRateThreshold : Z;
  ConnRateWindow : Z;    ConnRateWindowStr : string;
}.

Definition DefaultGateTimeout : Z := 2 * Second.
Definition DefaultMaxTarpit : Z := 256.
Definition DefaultAllowTTL : Z := 10 * Second.
Definition DefaultDenyTTL : Z := 60 * Second.
Definition DefaultCacheSize : Z := 8192.
Definition DefaultConnRateThreshold : Z := 60.
Definition DefaultConnRateWindow : Z := 60 * Second.

Definition IsEnabled (c : Config) : bool :=
  match Enabled c with None => true | Some b => b end.

Section Config.
Context `{GoDuration}.

(** One row of the table of [Normalize]. *)
Definition normalize_duration (name str : string) (dst def : Z) : result Z string :=
  match (if decide (str = "") then Some dst else ParseDuration str) with
  | None => Err ("invalid peergate " +:+ name)
  | Some d => Ok (if d <=? 0 then def else d)
  end.

Definition Normalize (c : Config) : result Config string :=
  (gt <-? normalize_duration "gate_timeout" (GateTimeoutStr c) (GateTimeout c) DefaultGateTimeout;
   at_ <-? normalize_duration "allow_ttl" (AllowTTLStr c) (AllowTTL c) DefaultAllowTTL;
   dt <-? normalize_duration "deny_ttl" (DenyTTLStr c) (DenyTTL c) DefaultDenyTTL;
   rw <-? normalize_duration "connection_rate_window" (ConnRateWindowStr c) (ConnRateWindow c)
            DefaultConnRateWindow;
   Ok (mkConfig (Enabled c) (Allowlist c) gt (GateTimeoutStr c)
         (if MaxTarpit c =? 0 then DefaultMaxTarpit else MaxTarpit c) (StrictGate c)
         at_ (AllowTTLStr c) dt (DenyTTLStr c)
         (if CacheSize c <=? 0 then DefaultCacheSize else CacheSize c)
         (if ConnRateThreshold c =? 0 then DefaultConnRateThreshold else ConnRateThreshold c)
         rw (ConnRateWindowStr c)))%go.
End Config.

(** ** The verdict cache *)
Record Verdict := mkVerdict {
  Banned : bool;
  Tarpit : Z;
  Reason : string;
  ShadowBanned : bool;
}.
#[export] Instance Verdict_eq_dec : EqDecision Verdict.
Proof. solve_decision. Defined.
Definition no_verdict : Verdict := mkVerdict false 0 "" false.

Record cacheEntry := mkCacheEntry { ce_verdict : Verdict; ce_expiresAt : Z }.

Record verdictCache := mkCache {
  c_max : Z;
  cur : gmap string cacheEntry;
  prev : option (gmap string cacheEntry);
}.

Definition newVerdictCache (max : Z) : verdictCache :=
  mkCache (if max <=? 0 then DefaultCacheSize else max) ∅ None.

(** An entry found in a generation: still valid, or to be deleted. *)
Definition cache_get (key : string) (now : Z) (c : verdictCache) : option Verdict * verdictCache :=
  match cur c !! key with
  | Some e =>
      if negb (now <? ce_expiresAt e)
      then (None, mkCache (c_max c) (delete key (cur c)) (prev c))
      else (Some (ce_verdict e), c)
  | None =>
      match prev c with
      | None => (None, c)
      | Some p =>
          match p !! key with
          | None => (None, c)
          | Some e =>
              if negb (now <? ce_expiresAt e)
              then (None, mkCache (c_max c) (cur c) (Some (delete key p)))
              else (Some (ce_verdict e), c)
          end
      end
  end.

Definition cache_put (key : string) (v : Verdict) (ttl now : Z) (c : verdictCache) : verdictCache :=
  let c := if c_max c <=? Z.of_nat (size (cur c))
           then mkCache (c_max c) ∅ (Some (cur c)) else c in
  mkCache (c_max c) (<[key := mkCacheEntry v (now + ttl)]> (cur c)) (prev c).

Definition cache_forget (key : string) (c : verdictCache) : verdictCache :=
  mkCache (c_max c) (delete key (cur c)) (delete key <$> prev c).

(** ** The connection-rate counter *)
Record rateEntry := mkRate { r_count : Z; windowStart : Z; reported : bool }.

Record connRateCounter := mkCounter {
  threshold : Z;
  cr_max : Z;
  window : Z;
  cr_cur : gmap string rateEntry;
  cr_prev : option (gmap string rateEntry);
}.

Definition newConnRateCounter (thr max win : Z) : option connRateCounter :=
  if thr <? 0 then None
  else Some (mkCounter (if thr =? 0 then DefaultConnRateThreshold else thr)
               (if max <=? 0 then DefaultCacheSize else max)
               (if win <=? 0 then DefaultConnRateWindow else win) ∅ None).

(** Which generation holds the entry the pointer refers to. *)
Inductive slot := InCur | InPrev.

Definition lookupLocked (key : string) (c : connRateCounter)
    : option (rateEntry * slot) * connRateCounter :=
  match cr_cur c !! key with
  | Some e => (Some (e, InCur), c)
  | None =>
      match cr_prev c with
      | None => (None, c)
      | Some p =>
          match p !! key with
          | None => (None, c)
          | Some e =>
              if Z.of_nat (size (cr_cur c)) <? cr_max c
              then (Some (e, InCur),
                    mkCounter (threshold c) (cr_max c) (window c)
                      (<[key := e]> (cr_cur c)) (Some (delete key p)))
              else (Some (e, InPrev), c)
          end
      end
  end.

(** Write through the entry pointer. *)
Definition store_entry (key : string) (sl : slot) (e : rateEntry) (c : connRateCounter)
    : connRateCounter :=
  match sl with
  | InCur => mkCounter (threshold c) (cr_max c) (window c) (<[key := e]> (cr_cur c)) (cr_prev c)
  | InPrev => mkCounter (threshold c) (cr_max c) (window c) (cr_cur c)
                (insert key e <$> cr_prev c)
  end.

(** The update of one entry: window reset, count, report decision. *)
Definition bump (thr win now : Z) (e : rateEntry) : bool * rateEntry :=
  let e := if win <=? now - windowStart e then mkRate 0 now false else e in
  let n := r_count e + 1 in
  if (n <? thr) || reported e then (false, mkRate n (windowStart e) (reported e))
  else (true, mkRate n (windowStart e) true).

Definition observe_counter (key : string) (now : Z) (c : connRateCounter) : bool * connRateCounter :=
  let '(found, c) := lookupLocked key c in
  let '(e, sl, c) :=
    match found with
    | Some (e, sl) => (e, sl, c)
    | None =>
        let c := if cr_max c <=? Z.of_nat (size (cr_cur c))
                 then mkCounter (threshold c) (cr_max c) (window c) ∅ (Some (cr_cur c)) else c in
        (mkRate 0 now false, InCur, c)
    end in
  let '(b, e) := bump (threshold c) (window c) now e in
  (b, store_entry key sl e c).

(** [observe] on a possibly nil counter. *)
Definition observe (key : string) (now : Z) (oc : option connRateCounter)
    : bool * option connRateCounter :=
  match oc with
  | None => (false, None)
  | Some c => let '(b, c) := observe_counter key now c in (b, Some c)
  end.

(** ** The gate *)
Record CheckPeerResponse := mkPeerResp {
  pr_Banned : bool; pr_TarpitMs : Z; pr_Reason : string; pr_ShadowBanned : bool;
}.

Class PeerService (W : Type) := {
  ps_now : W → Z;
  ps_CheckPeer : string → bool → W → result CheckPeerResponse string * W;
}.

Inductive gate_out :=
| OnCache (hit : bool)
| OnConnRate (res : string)
| ReportPeer (ip signal : string).

Definition ConnectionRate : string := "connection_rate".

Record Gate := mkGate {
  g_cfg : Config;
  g_allowlist : list IPNet;
  g_cache : verdictCache;
  g_connRate : option connRateCounter;
}.

(** [New]; [conn] tells whether there is a connection. *)
Definition New `{GoDuration} (cfg : Config) (conn : bool) : result (option Gate) string :=
  if negb (IsEnabled cfg) || negb conn then Ok None
  else (cfg <-? Normalize cfg;
        match mapM ParseCIDR (Allowlist cfg) with
        | None => Err "invalid peergate allowlist CIDR"
        | Some nets =>
            Ok (Some (mkGate cfg nets (newVerdictCache (CacheSize cfg))
                        (newConnRateCounter (ConnRateThreshold cfg) (CacheSize cfg)
                           (ConnRateWindow cfg))))
        end)%go.

Definition allowed (g : Gate) (ip : string) : bool :=
  match ParseIP ip with
  | None => false
  | Some addr => existsb (λ n, Contains n addr) (g_allowlist g)
  end.

Definition cacheKey (ip : string) (authFacing : bool) : string :=
  if authFacing then "a:" +:+ ip else "i:" +:+ ip.

Definition reportConnRate (ip : string) (v : Verdict) : list gate_out :=
  if Banned v || ShadowBanned v then [OnConnRate "suppressed_banned"]
  else [OnConnRate "reported"; ReportPeer ip ConnectionRate].

Definition verdict_of (r : CheckPeerResponse) : Verdict :=
  mkVerdict (pr_Banned r) (wrap_int64 (pr_TarpitMs r * Millisecond)) (pr_Reason r)
    (pr_ShadowBanned r).

Definition verdict_ttl (cfg : Config) (v : Verdict) : Z :=
  if Banned v || ShadowBanned v then DenyTTL cfg else AllowTTL cfg.

Section Gate.
Context {W : Type} `{PeerService W}.

Definition CheckPeer (og : option Gate) (ip : string) (authFacing : bool) (w : W)
    : result Verdict string * option Gate * W * list gate_out :=
  match og with
  | None => (Ok no_verdict, None, w, [])
  | Some g =>
      if allowed g ip then (Ok no_verdict, Some g, w, [])
      else
        let key := cacheKey ip authFacing in
        let '(crossed, rate) := observe key (ps_now w) (g_connRate g) in
        let '(hit, cache) := cache_get key (ps_now w) (g_cache g) in
        match hit with
        | Some v =>
            (Ok v, Some (mkGate (g_cfg g) (g_allowlist g) cache rate), w,
             (if crossed then reportConnRate ip v else []) ++ [OnCache true])
        | None =>
            match ps_CheckPeer ip authFacing w with
            | (Err e, w) =>
                (Err ("check peer: " +:+ e),
                 Some (mkGate (g_cfg g) (g_allowlist g) cache rate), w, [OnCache false])
            | (Ok r, w) =>
                let v := verdict_of r in
                let cache := cache_put key v (verdict_ttl (g_cfg g) v) (ps_now w) cache in
                (Ok v, Some (mkGate (g_cfg g) (g_allowlist g) cache rate), w,
                 OnCache false :: (if crossed then reportConnRate ip v else []))
            end
        end
  end.

Definition Forget (og : option Gate) (ip : string) : option Gate :=
  match og with
  | None => None
  | Some g =>
      Some (mkGate (g_cfg g) (g_allowlist g)
              (cache_forget (cacheKey ip false) (cache_forget (cacheKey ip true) (g_cache g)))
              (g_connRate g))
  end.
End Gate.

(** ** The cache over any sequence of operations *)
Inductive cache_op :=
| OpGet (key : string) (now : Z)
| OpPut (key : string) (v : Verdict) (ttl now : Z)
| OpForget (key : string).

Definition cache_step (c : verdictCache) (o : cache_op) : verdictCache :=
  match o with
  | OpGet k t => (cache_get k t c).2
  | OpPut k v ttl t => cache_put k v ttl t c
  | OpForget k => cache_forget k c
  end.
Definition cache_run (max : Z) (ops : list cache_op) : verdictCache :=
  foldl cache_step (newVerdictCache max) ops.

(** Entry [e] for [k] was put at some point and [k] not forgotten since. *)
Definition answered (ops : list cache_op) (k : string) (e : cacheEntry) : Prop :=
  ∃ pre post ttl t0, ops = pre ++ OpPut k (ce_verdict e) ttl t0 :: post ∧
    OpForget k ∉ post ∧ ce_expiresAt e = t0 + ttl.

Definition generations (c : verdictCache) : list (gmap string cacheEntry) :=
  cur c :: match prev c with Some p => [p] | None => [] end.

(** Every entry of either generation was answered, and both are bounded. *)
Definition cache_ok (ops : list cache_op) (c : verdictCache) : Prop :=
  0 < c_max c ∧
  Forall (λ m, Z.of_nat (size m) ≤ c_max c ∧ ∀ k e, m !! k = Some e → answered ops k e)
    (generations c).

Lemma answered_snoc ops k e o :
  o ≠ OpForget k → answered ops k e → answered (ops ++ [o]) k e.
Proof.
  intros Ho (pre & post & ttl & t0 & -> & Hf & He).
  exists pre, (post ++ [o]), ttl, t0. split_and!; [by rewrite <-app_assoc| |done].
  rewrite elem_of_app, list_elem_of_singleton. intros [?|?]; [done|congruence].
Qed.

Lemma answered_put ops k v ttl t :
  answered (ops ++ [OpPut k v ttl t]) k (mkCacheEntry v (t + ttl)).
Proof. exists ops, [], ttl, t. split_and!; [done|by apply not_elem_of_nil|done]. Qed.

(** A generation stays good when entries are removed from it. *)
Definition gen_ok (max : Z) (ops : list cache_op) (m : gmap string cacheEntry) : Prop :=
  Z.of_nat (size m) ≤ max ∧ ∀ k e, m !! k = Some e → answered ops k e.

Lemma gen_ok_sub max ops m m' : m' ⊆ m → gen_ok max ops m → gen_ok max ops m'.
Proof.
  intros Hsub [Hs Ha]. split.
  - pose proof (map_subseteq_size m' m Hsub). lia.
  - intros k e He. apply Ha. by eapply lookup_weaken.
Qed.

Lemma gen_ok_snoc max ops m o :
  (∀ k, o ≠ OpForget k) → gen_ok max ops m → gen_ok max (ops ++ [o]) m.
Proof. intros Ho [Hs Ha]. split; [done|]. intros k e He. apply answered_snoc; auto. Qed.

Lemma gen_ok_forget max ops m k :
  gen_ok max ops m → gen_ok max (ops ++ [OpForget k]) (delete k m).
Proof.
  intros [Hs Ha]. split.
  - pose proof (map_subseteq_size (delete k m) m (delete_subseteq m k)). lia.
  - intros k' e [Hne He]%lookup_delete_Some. apply answered_snoc; [congruence|auto].
Qed.

Lemma gen_ok_empty max ops : 0 < max → gen_ok max ops ∅.
Proof. intros. split; [rewrite map_size_empty; lia|]. intros k e He. by rewrite lookup_empty in He. Qed.

Lemma gen_ok_put max ops m k v ttl t :
  Z.of_nat (size m) < max → gen_ok max ops m →
  gen_ok max (ops ++ [OpPut k v ttl t]) (<[k := mkCacheEntry v (t + ttl)]> m).
Proof.
  intros Hlt [Hs Ha]. split.
  - rewrite map_size_insert. destruct (m !! k); unfold id; lia.
  - intros k' e. destruct (decide (k' = k)) as [->|].
    + rewrite lookup_insert_eq. intros [= <-]. apply answered_put.
    + rewrite lookup_insert_ne by done. intros He. apply answered_snoc; auto.
Qed.

Lemma cache_ok_step ops c o : cache_ok ops c → cache_ok (ops ++ [o]) (cache_step c o).
Proof.
  intros [Hm Hg]. destruct c as [max m p]. unfold generations in *. simpl in *.
  apply Forall_cons in Hg as [Hc Hp]. fold (gen_ok max ops) in Hp.
  change (gen_ok max ops m) in Hc.
  destruct o as [k t|k v ttl t|k]; simpl.
  - assert (∀ x, gen_ok max ops x → gen_ok max (ops ++ [OpGet k t]) x) as Hmono
      by (intros x; by apply gen_ok_snoc).
    assert (∀ x, gen_ok max ops x → gen_ok max (ops ++ [OpGet k t]) (delete k x)) as Hdel
      by (intros x Hx; eapply gen_ok_sub, Hmono, Hx; apply delete_subseteq).
    unfold cache_get. simpl. destruct (m !! k) as [e|].
    + destruct (t <? ce_expiresAt e); simpl; (split; [done|]); (constructor; [first [by apply Hmono|by apply Hdel]|]);
        (eapply Forall_impl; [exact Hp|exact Hmono]).
    + destruct p as [p|]; [|split; [done|]; by constructor; [apply Hmono|]].
      apply Forall_cons in Hp as [Hp _].
      destruct (p !! k) as [e|]; [destruct (t <? ce_expiresAt e)|]; simpl; (split; [done|]);
        (constructor; [by apply Hmono|]); apply Forall_singleton; first [by apply Hmono|by apply Hdel].
  - assert (∀ x, gen_ok max ops x → gen_ok max (ops ++ [OpPut k v ttl t]) x) as Hmono
      by (intros x; by apply gen_ok_snoc).
    unfold cache_put. simpl. destruct (Z.leb_spec max (Z.of_nat (size m))); simpl;
      (split; [done|]); constructor.
    + apply gen_ok_put; [rewrite map_size_empty; simpl; lia|by apply gen_ok_empty].
    + apply Forall_singleton. by apply Hmono.
    + by apply gen_ok_put.
    + eapply Forall_impl; [exact Hp|exact Hmono].
  - split; [done|]. constructor; [by apply gen_ok_forget|].
    destruct p as [p|]; simpl; [|done]. apply Forall_cons in Hp as [Hp _].
    apply Forall_singleton. by apply gen_ok_forget.
Qed.

Lemma cache_run_ok max ops : cache_ok ops (cache_run max ops).
Proof.
  induction ops as [|o ops IH] using rev_ind.
  - unfold cache_run, newVerdictCache. simpl. split; simpl.
    + destruct (Z.leb_spec max 0); [done|lia].
    + constructor; [|done]. apply gen_ok_empty. destruct (Z.leb_spec max 0); [done|lia].
  - unfold cache_run in *. rewrite foldl_app. simpl. by apply cache_ok_step.
Qed.

Lemma cache_get_entry k t c v :
  (cache_get k t c).1 = Some v →
  ∃ m e, m ∈ generations c ∧ m !! k = Some e ∧ ce_verdict e = v ∧ t < ce_expiresAt e.
Proof.
  unfold cache_get, generations. destruct (cur c !! k) as [e|] eqn:Ec.
  - destruct (Z.ltb_spec t (ce_expiresAt e)); simpl; [|done]. intros [= <-].
    exists (cur c), e. split_and!; [by left|done..].
  - destruct (prev c) as [p|]; [|done]. destruct (p !! k) as [e|] eqn:Ep; [|done].
    destruct (Z.ltb_spec t (ce_expiresAt e)); simpl; [|done]. intros [= <-].
    exists p, e. split_and!; [by right; left|done..].
Qed.

(** The verdict cache is sound and bounded under any sequence of lookups,
    answers and forgets, through every roll of its generations: a hit is a
    verdict that was put for that very key, less than its time to live ago,
    and the key has not been forgotten since; and each generation holds at
    most the configured number of entries. *)
Lemma cache_sound max ops k t v :
  (cache_get k t (cache_run max ops)).1 = Some v →
  (∃ pre post ttl t0, ops = pre ++ OpPut k v ttl t0 :: post ∧ OpForget k ∉ post ∧ t < t0 + ttl) ∧
  Forall (λ m, Z.of_nat (size m) ≤ c_max (cache_run max ops)) (generations (cache_run max ops)).
Proof.
  intros (m & e & Hm & He & <- & Ht)%cache_get_entry.
  destruct (cache_run_ok max ops) as [_ Hg]. split.
  - rewrite Forall_forall in Hg. destruct (Hg m Hm) as [_ Ha].
    destruct (Ha k e He) as (pre & post & ttl & t0 & Hops & Hf & Hx).
    exists pre, post, ttl, t0. split_and!; [done|done|lia].
  - eapply Forall_impl; [exact Hg|]. by intros x [? _].
Qed.

Definition denied : Verdict := mkVerdict true 5 "auth" false.

(** Two keys fill a cache of size 2, a third rolls it. *)
Definition rolled_ops : list cache_op :=
  [OpPut "a:x" denied 60 0; OpPut "a:y" no_verdict 10 1; OpPut "a:z" no_verdict 10 2].

Lemma cache_sound_example :
  ∃ pre post ttl t0, rolled_ops = pre ++ OpPut "a:x" denied ttl t0 :: post ∧
    OpForget "a:x" ∉ post ∧ 30 < t0 + ttl.
Proof.
  apply (cache_sound 2 rolled_ops "a:x" 30 denied). vm_compute. reflexivity.
Defined.

(** ** The gate *)
Lemma cacheKey_inj ip a ip' a' : cacheKey ip a = cacheKey ip' a' → ip = ip' ∧ a = a'.
Proof. unfold cacheKey. destruct a, a'; simpl; intros E; by simplify_eq. Qed.

Lemma cache_get_put k v ttl t t' c :
  t' < t + ttl → (cache_get k t' (cache_put k v ttl t c)).1 = Some v.
Proof.
  intros Ht. unfold cache_get, cache_put. cbn [cur]. rewrite lookup_insert_eq. simpl.
  by rewrite (proj2 (Z.ltb_lt t' (t + ttl))).
Qed.

Section GateFacts.
Context {W : Type} `{PeerService W}.

(** The gate asks as rarely as it may. An allowlisted peer is let through
    without a question and without being counted. A failed question is
    reported as an error and leaves nothing in the cache that was not there.
    An answer is what the session-manager said, and until its time to live has
    passed the same peer in the same listener role gets the same verdict
    without another question, whatever happens to the rate counter. *)
Lemma gate_check g ip auth w :
  (allowed g ip = true → CheckPeer (Some g) ip auth w = (Ok no_verdict, Some g, w, [])) ∧
  (allowed g ip = false → (cache_get (cacheKey ip auth) (ps_now w) (g_cache g)).1 = None →
   match ps_CheckPeer ip auth w with
   | (Err e, w') => ∃ g' out,
       CheckPeer (Some g) ip auth w = (Err ("check peer: " +:+ e), Some g', w', out) ∧
       g_cache g' = (cache_get (cacheKey ip auth) (ps_now w) (g_cache g)).2
   | (Ok r, w') => ∃ g' out,
       CheckPeer (Some g) ip auth w = (Ok (verdict_of r), Some g', w', out) ∧
       ∀ w'', ps_now w'' < ps_now w' + verdict_ttl (g_cfg g) (verdict_of r) →
         ∃ g'' out'',
           CheckPeer (Some g') ip auth w'' = (Ok (verdict_of r), Some g'', w'', out'')
   end).
Proof.
  split; [intros Ha; simpl; by rewrite Ha|]. intros Ha Hmiss. simpl. rewrite Ha.
  destruct (observe (cacheKey ip auth) (ps_now w) (g_connRate g)) as [crossed rate].
  destruct (cache_get (cacheKey ip auth) (ps_now w) (g_cache g)) as [hit cache].
  simpl in Hmiss. subst hit.
  destruct (ps_CheckPeer ip auth w) as [[r|e] w']; [|by do 2 eexists].
  do 2 eexists. split; [done|]. intros w'' Ht. simpl.
  change (allowed (mkGate (g_cfg g) (g_allowlist g) _ _) ip) with (allowed g ip).
  rewrite Ha. destruct (observe (cacheKey ip auth) (ps_now w'') rate) as [crossed' rate'].
  pose proof (cache_get_put (cacheKey ip auth) (verdict_of r)
                (verdict_ttl (g_cfg g) (verdict_of r)) (ps_now w') (ps_now w'') cache Ht) as Hg.
  destruct (cache_get _ _ _) as [hit c2]. simpl in Hg. subst hit. by do 2 eexists.
Qed.

(** Forgetting a peer takes effect at once: the next check of it, in
    either listener role, asks the session-manager again. *)
Theorem forget_asks_again g ip auth w r w' :
  allowed g ip = false → ps_CheckPeer ip auth w = (Ok r, w') →
  ∃ g' out, CheckPeer (Forget (Some g) ip) ip auth w = (Ok (verdict_of r), Some g', w', out).
Proof.
  intros Ha Hr. simpl. change (allowed (mkGate _ _ _ _) ip) with (allowed g ip). rewrite Ha.
  destruct (observe (cacheKey ip auth) (ps_now w) (g_connRate g)) as [crossed rate].
  assert ((cache_get (cacheKey ip auth) (ps_now w)
            (cache_forget (cacheKey ip false) (cache_forget (cacheKey ip true) (g_cache g)))).1
          = None) as Hmiss.
  { unfold cache_get, cache_forget. cbn [cur prev].
    destruct auth.
    - rewrite lookup_delete_ne, lookup_delete_eq by done.
      destruct (prev (g_cache g)) as [p|]; simpl; [|done].
      by rewrite lookup_delete_ne, lookup_delete_eq by done.
    - rewrite lookup_delete_eq. destruct (prev (g_cache g)) as [p|]; simpl; [|done].
      by rewrite lookup_delete_eq. }
  destruct (cache_get _ _ _) as [hit cache]. simpl in Hmiss. subst hit.
  rewrite Hr. by do 2 eexists.
Qed.
End GateFacts.

(** A service that bans one address, and always answers. *)
Definition demo_service : PeerService Z := {|
  ps_now w := w;
  ps_CheckPeer ip _ w :=
    (Ok (mkPeerResp (bool_decide (ip = "192.0.2.66")) 3000 "auth" false), w + 1);
|}.
Definition demo_config : Config :=
  mkConfig None ["10.0.0.0/8"] 0 "" 0 false 0 "" 0 "" 2 2 0 "".
Definition demo_gate : Gate :=
  match @New (λ _, None) demo_config true with
  | Ok (Some g) => g
  | _ => mkGate demo_config [] (newVerdictCache 1) None
  end.

Example demo_gate_built : @New (λ _, None) demo_config true = Ok (Some demo_gate).
Proof. vm_compute. reflexivity. Qed.

Lemma gate_check_example :
  ∃ g' out,
    @CheckPeer Z demo_service (Some demo_gate) "192.0.2.66" true 5
    = (Ok (mkVerdict true (3000 * Millisecond) "auth" false), Some g', 6, out) ∧
    ∃ g'' out'', @CheckPeer Z demo_service (Some g') "192.0.2.66" true 1000
    = (Ok (mkVerdict true (3000 * Millisecond) "auth" false), Some g'', 1000, out'').
Proof.
  destruct (proj2 (@gate_check Z demo_service demo_gate "192.0.2.66" true 5) eq_refl eq_refl)
    as (g' & out & E & Hagain).
  exists g', out. split; [exact E|]. apply Hagain. vm_compute. reflexivity.
Defined.

Lemma forget_asks_again_example :
  ∃ g' out,
    @CheckPeer Z demo_service (Forget (Some demo_gate) "192.0.2.66") "192.0.2.66" false 5
    = (Ok (mkVerdict true (3000 * Millisecond) "auth" false), Some g', 6, out).
Proof.
  apply (@forget_asks_again Z demo_service demo_gate "192.0.2.66" false 5
    (mkPeerResp true 3000 "auth" false) 6); vm_compute; reflexivity.
Defined.

(** ** The connection-rate counter over a sequence of accepts *)
Fixpoint observe_all (c : connRateCounter) (evs : list (string * Z)) : list bool :=
  match evs with
  | [] => []
  | (k, t) :: rest => let '(b, c) := observe_counter k t c in b :: observe_all c rest
  end.

(** The answers given for one key, in order. *)
Fixpoint answers_for (k : string) (evs : list (string * Z)) (bs : list bool) : list bool :=
  match evs, bs with
  | (k', _) :: evs, b :: bs => if decide (k' = k) then b :: answers_for k evs bs
                               else answers_for k evs bs
  | _, _ => []
  end.

Section Flood.
Context (thr max win t0 : Z) (K : gset string).
Hypothesis Hthr : 0 < thr.
Hypothesis HK : Z.of_nat (size K) ≤ max.

(** No roll has happened, and every entry counts its key's accepts. *)
Record counting (n : string → nat) (c : connRateCounter) : Prop := {
  co_params : threshold c = thr ∧ cr_max c = max ∧ window c = win;
  co_prev : cr_prev c = None;
  co_keys : dom (cr_cur c) ⊆ K;
  co_entry k : match cr_cur c !! k with
               | None => n k = O
               | Some e => r_count e = Z.of_nat (n k) ∧ t0 ≤ windowStart e ∧
                           reported e = (thr <=? Z.of_nat (n k))
               end;
}.

Lemma bump_counting m t e :
  t < t0 + win → t0 ≤ windowStart e → r_count e = Z.of_nat m →
  reported e = (thr <=? Z.of_nat m) →
  bump thr win t e
  = (bool_decide (Z.of_nat m + 1 = thr),
     mkRate (Z.of_nat (S m)) (windowStart e) (thr <=? Z.of_nat (S m))).
Proof.
  intros Ht Hw Hc Hr. unfold bump.
  rewrite (proj2 (Z.leb_gt win (t - windowStart e))) by lia.
  rewrite Hc, Hr. replace (Z.of_nat (S m)) with (Z.of_nat m + 1) by lia.
  destruct (Z.ltb_spec (Z.of_nat m + 1) thr), (Z.leb_spec thr (Z.of_nat m)),
    (Z.leb_spec thr (Z.of_nat m + 1)); simpl; try lia; case_bool_decide; (done || lia).
Qed.

Definition incr_at (k : string) (n : string → nat) (k' : string) : nat :=
  if decide (k' = k) then S (n k') else n k'.

Lemma observe_counting n c k t :
  counting n c → k ∈ K → t0 ≤ t < t0 + win →
  ∃ c', observe_counter k t c = (bool_decide (Z.of_nat (n k) + 1 = thr), c')
        ∧ counting (incr_at k n) c'.
Proof.
  intros [(P1 & P2 & P3) Hp Hk He] HkK Ht. unfold observe_counter, lookupLocked.
  assert (∃ e, (cr_cur c !! k = Some e ∨ (cr_cur c !! k = None ∧ e = mkRate 0 t false)) ∧
    r_count e = Z.of_nat (n k) ∧ t0 ≤ windowStart e ∧ reported e = (thr <=? Z.of_nat (n k)))
    as (e & Hcase & Hcnt & Hws & Hrep).
  { specialize (He k). destruct (cr_cur c !! k) as [e|]; [by exists e; naive_solver|].
    exists (mkRate 0 t false). rewrite He. split_and!; [by right|done|simpl; lia|].
    symmetry. apply Z.leb_gt. lia. }
  assert (bump thr win t e = _) as Hb by (apply (bump_counting (n k)); [lia|done..]).
  assert (counting (incr_at k n) (store_entry k InCur
            (mkRate (Z.of_nat (S (n k))) (windowStart e) (thr <=? Z.of_nat (S (n k)))) c)) as Hnew.
  { split; simpl; [done|done| |].
    - rewrite dom_insert_L. set_solver.
    - intros k'. unfold incr_at. destruct (decide (k' = k)) as [->|].
      + rewrite lookup_insert_eq. done.
      + rewrite lookup_insert_ne by done. apply He. }
  destruct Hcase as [Hin|[Hout ->]].
  - rewrite Hin. rewrite P1, P3, Hb. eauto.
  - rewrite Hout, Hp. rewrite P2, (proj2 (Z.leb_gt max _)).
    + rewrite P1, P3, Hb. eauto.
    + assert (size (dom (cr_cur c) ∪ {[k]}) ≤ size K)%nat as Hsz
        by (apply subseteq_size; set_solver).
      rewrite size_union in Hsz by (apply disjoint_singleton_r, not_elem_of_dom, Hout).
      rewrite size_dom, size_singleton in Hsz. lia.
Qed.

Lemma answers_counting evs n c k :
  counting n c → Forall (λ ev, ev.1 ∈ K ∧ t0 ≤ ev.2 < t0 + win) evs →
  answers_for k evs (observe_all c evs)
  = (λ i, bool_decide (Z.of_nat i + 1 = thr))
      <$> seq (n k) (length (answers_for k evs (observe_all c evs))).
Proof.
  intros Hc Hevs. revert n c Hc. induction Hevs as [|[k' t] evs [Hk Ht] _ IH]; intros n c Hc;
    cbn [observe_all]; [done|].
  destruct (observe_counting n c k' t Hc Hk Ht) as (c' & -> & Hc'). cbn [answers_for].
  specialize (IH _ _ Hc'). unfold incr_at in IH.
  destruct (decide (k' = k)) as [->|Hne].
  - rewrite decide_True in IH by done. cbn [length seq fmap list_fmap]. f_equal. exact IH.
  - rewrite decide_False in IH by done. exact IH.
Qed.
End Flood.

(** A flood is reported exactly once per window. Of all accepts within
    one window, from any mix of at most [max] addresses, each address's
    accepts are answered "crossed" at its threshold-th accept and at no
    other. *)
Lemma flood_reported_once thr max win t0 (K : gset string) evs k c :
  0 < thr → 0 < max → 0 < win → Z.of_nat (size K) ≤ max →
  Forall (λ ev, ev.1 ∈ K ∧ t0 ≤ ev.2 < t0 + win) evs →
  newConnRateCounter thr max win = Some c →
  answers_for k evs (observe_all c evs)
  = (λ i, bool_decide (Z.of_nat i + 1 = thr))
      <$> seq 0 (length (answers_for k evs (observe_all c evs))).
Proof.
  intros Ht Hm Hw HK Hevs Hc. unfold newConnRateCounter in Hc.
  rewrite (proj2 (Z.ltb_ge thr 0)), (proj2 (Z.eqb_neq thr 0)), (proj2 (Z.leb_gt max 0)),
    (proj2 (Z.leb_gt win 0)) in Hc by lia. simplify_eq.
  apply (answers_counting thr max win t0 K Ht HK evs (λ _, O)); [|done].
  split; simpl; [done|done|set_solver|done].
Qed.

Definition burst : list (string * Z) :=
  [("a:x", 10); ("i:x", 11); ("a:x", 12); ("a:x", 13); ("i:x", 14); ("a:x", 15)].

Lemma flood_reported_once_example :
  match newConnRateCounter 2 4 100 with
  | Some c => answers_for "a:x" burst (observe_all c burst) = [false; true; false; false]
  | None => False
  end.
Proof.
  unfold newConnRateCounter. cbn [Z.ltb Z.eqb Z.leb Z.compare].
  rewrite (flood_reported_once 2 4 100 10 {["a:x"; "i:x"]} burst "a:x");
    [vm_compute; reflexivity|done|done|done|by vm_compute| |done].
  repeat constructor; try done; set_solver.
Defined.

(** ** Bounds *)
Definition counter_bounded (c : connRateCounter) : Prop :=
  0 < cr_max c ∧ Z.of_nat (size (cr_cur c)) ≤ cr_max c ∧
  (∀ p, cr_prev c = Some p → Z.of_nat (size p) ≤ cr_max c).

Lemma size_insert_le {A} (m : gmap string A) k x :
  (size (<[k := x]> m) ≤ S (size m))%nat.
Proof. rewrite map_size_insert. destruct (m !! k); unfold id; lia. Qed.

Lemma size_insert_eq {A} (m : gmap string A) k x :
  is_Some (m !! k) → size (<[k := x]> m) = size m.
Proof. rewrite map_size_insert. by intros [? ->]. Qed.

Lemma observe_bounded k t c : counter_bounded c → counter_bounded (observe_counter k t c).2.
Proof.
  intros (Hm & Hc & Hp). unfold observe_counter, lookupLocked.
  destruct (cr_cur c !! k) as [e|] eqn:Ec.
  { destruct (bump _ _ t e) as [b e']. split_and!; simpl; [done| |done].
    by rewrite size_insert_eq. }
  destruct (cr_prev c) as [p|] eqn:Ep; [destruct (p !! k) as [e|] eqn:Epk|].
  - specialize (Hp p eq_refl). destruct (Z.ltb_spec (Z.of_nat (size (cr_cur c))) (cr_max c)).
    + simpl. destruct (bump _ _ t e) as [b e']. split_and!; simpl; [done| |].
      * rewrite insert_insert_eq. pose proof (size_insert_le (cr_cur c) k e'). lia.
      * intros p' [= <-].
        pose proof (map_subseteq_size (delete k p) p (delete_subseteq p k)). lia.
    + destruct (bump _ _ t e) as [b e']. split_and!; simpl; [done|done|].
      rewrite Ep. intros p' [= <-]. by rewrite size_insert_eq.
  - destruct (Z.leb_spec (cr_max c) (Z.of_nat (size (cr_cur c)))); simpl;
      destruct (bump _ _ t _) as [b e']; split_and!; simpl; try done.
    + rewrite insert_empty, map_size_singleton. lia.
    + intros p' [= <-]. done.
    + pose proof (size_insert_le (cr_cur c) k e'). lia.
    + rewrite Ep. intros p' [= <-]. by apply Hp.
  - destruct (Z.leb_spec (cr_max c) (Z.of_nat (size (cr_cur c)))); simpl;
      destruct (bump _ _ t _) as [b e']; split_and!; simpl; try done.
    + rewrite insert_empty, map_size_singleton. lia.
    + intros p' [= <-]. done.
    + pose proof (size_insert_le (cr_cur c) k e'). lia.
    + by rewrite Ep.
Qed.

(** The counter cannot be made to exhaust memory: whatever addresses
    connect, in whatever order, each of its two generations stays within the
    configured bound. *)
Lemma rate_counter_bounded thr max win c (evs : list (string * Z)) :
  newConnRateCounter thr max win = Some c →
  let c' := foldl (λ c ev, (observe_counter ev.1 ev.2 c).2) c evs in
  Z.of_nat (size (cr_cur c')) ≤ cr_max c' ∧
  (∀ p, cr_prev c' = Some p → Z.of_nat (size p) ≤ cr_max c').
Proof.
  intros Hc. cbn zeta.
  assert (counter_bounded c) as Hb.
  { unfold newConnRateCounter in Hc. destruct (thr <? 0); [done|]. simplify_eq.
    split_and!; simpl; [destruct (Z.leb_spec max 0); [done|lia]|
      rewrite map_size_empty; destruct (Z.leb_spec max 0); [done|lia]|done]. }
  clear Hc. revert c Hb. induction evs as [|ev evs IH]; intros c Hb; simpl; [apply Hb|].
  apply IH. by apply observe_bounded.
Qed.

Lemma rate_counter_bounded_example :
  match newConnRateCounter 1 1 100 with
  | Some c =>
      Z.of_nat (size (cr_cur (foldl (λ c ev, (observe_counter ev.1 ev.2 c).2) c
                  [("x", 0); ("y", 1); ("z", 2)]))) ≤ 1
  | None => False
  end.
Proof.
  exact (proj1 (rate_counter_bounded 1 1 100 (mkCounter 1 1 100 ∅ None)
    [("x", 0); ("y", 1); ("z", 2)] eq_refl)).
Defined.

(** Dropping an entry that had already been reported lets the same address be
    reported again within one window. *)
Lemma eviction_reports_twice :
  match newConnRateCounter 1 1 100 with
  | Some c => observe_all c [("x", 0); ("y", 1); ("z", 2); ("x", 3)] = [true; true; true; true]
  | None => False
  end.
Proof. vm_compute. reflexivity. Qed.

(** ** Configuration *)
(** Normalising succeeds exactly when every duration string that is given
    parses; it yields positive durations and cache size and a non-zero tarpit
    budget and rate threshold, keeps the switches and the allowlist, and is
    idempotent. *)
Theorem normalize_config `{GoDuration} c :
  match Normalize c with
  | Ok c' =>
      0 < GateTimeout c' ∧ 0 < AllowTTL c' ∧ 0 < DenyTTL c' ∧ 0 < ConnRateWindow c' ∧
      0 < CacheSize c' ∧ MaxTarpit c' ≠ 0 ∧ ConnRateThreshold c' ≠ 0 ∧
      Enabled c' = Enabled c ∧ Allowlist c' = Allowlist c ∧ StrictGate c' = StrictGate c ∧
      Normalize c' = Ok c'
  | Err _ => ∃ str, str ∈ [GateTimeoutStr c; AllowTTLStr c; DenyTTLStr c; ConnRateWindowStr c]
                    ∧ str ≠ "" ∧ ParseDuration str = None
  end.
Proof.
  assert (∀ name str dst def d, 0 < def → normalize_duration name str dst def = Ok d →
            0 < d ∧ normalize_duration name str d def = Ok d) as Hnd.
  { intros name str dst def d Hdef. unfold normalize_duration.
    destruct (decide (str = "")).
    - destruct (Z.leb_spec dst 0); intros [= <-]; (split; [done|]);
        by rewrite (proj2 (Z.leb_gt _ 0)) by done.
    - destruct (ParseDuration str) as [x|]; [|done].
      destruct (Z.leb_spec x 0); intros [= <-]; (split; [done|done]). }
  assert (∀ name str dst def e, normalize_duration name str dst def = Err e →
            str ≠ "" ∧ ParseDuration str = None) as Herr.
  { intros name str dst def e. unfold normalize_duration.
    destruct (decide (str = "")); [done|]. by destruct (ParseDuration str). }
  unfold Normalize.
  destruct (normalize_duration _ (GateTimeoutStr c) _ _) as [gt|e] eqn:E1; cycle 1.
  { apply Herr in E1 as [? ?]. eexists. split; [by left|done]. }
  destruct (normalize_duration _ (AllowTTLStr c) _ _) as [at_|e] eqn:E2; cycle 1.
  { apply Herr in E2 as [? ?]. eexists. split; [by right; left|done]. }
  destruct (normalize_duration _ (DenyTTLStr c) _ _) as [dt|e] eqn:E3; cycle 1.
  { apply Herr in E3 as [? ?]. eexists. split; [by right; right; left|done]. }
  destruct (normalize_duration _ (ConnRateWindowStr c) _ _) as [rw|e] eqn:E4; cycle 1.
  { apply Herr in E4 as [? ?]. eexists. split; [by right; right; right; left|done]. }
  apply Hnd in E1 as [P1 N1], E2 as [P2 N2], E3 as [P3 N3], E4 as [P4 N4]; try done.
  simpl. rewrite N1, N2, N3, N4.
  destruct (Z.eqb_spec (MaxTarpit c) 0), (Z.leb_spec (CacheSize c) 0),
    (Z.eqb_spec (ConnRateThreshold c) 0); simpl; split_and!; try done;
    rewrite ?(proj2 (Z.leb_gt (CacheSize c) 0)), ?(proj2 (Z.eqb_neq (MaxTarpit c) 0)),
      ?(proj2 (Z.eqb_neq (ConnRateThreshold c) 0)) by done; done.
Qed.
