(* ===== verification/PeerFilter.v ===== *)
(** * The peer filter of session-manager

    Model of [src/internal/session-manager/peerfilter] (ban policy over Redis,
    its metrics) and of the session service that feeds it
    ([src/internal/session-manager/grpcserver/session_service.go]). Redis is
    the class [PeerRedis], whose documented behaviour is [PeerRedisLaws]; every
    operation runs at one instant [now]. A nil filter is [None]. *)
From S2P Require Import Prelude GoStrings NetIP PeerGate.
From Stdlib Require Import ZArith Lia Ascii Sorted.
Open Scope string_scope.
Open Scope list_scope.
Open Scope Z_scope.

Definition perr := string.

(** ** Signals and labels *)
Definition RelayDenied : string := "relay_denied".
Definition EarlyTalker : string := "early_talker".
Definition MalformedCommand : string := "malformed_command".
Definition DataAbort : string := "data_abort".
Definition InvalidRecipient : string := "invalid_recipient".
Definition UnhostedDomain : string := "unhosted_domain".
Definition All : list string :=
  [InvalidRecipient; RelayDenied; ConnectionRate; UnhostedDomain; EarlyTalker; MalformedCommand; DataAbort].

Definition keyBan : string := "peer:ban:".
Definition keyStrikes : string := "peer:strikes:".
Definition keyAbuse : string := "smtpd:abuse:ip:".
Definition keyGood : string := "peer:good:".
Definition keySuppressed : string := "peer:suppressed:".

Definition AuthBanScopeAuthListeners : string := "auth_listeners".
Definition AuthBanScopeAll : string := "all".
Definition Hour : Z := 3600 * Second.
Definition strikeTTL : Z := 30 * 24 * Hour.
Definition ReasonBanned : string := "banned".
Definition ReasonAbuse : string := "abuse".
Definition ReasonNonexistentAccount : string := "nonexistent_account".
Definition ReasonManual : string := "manual".
Definition isAuthDerived (reason : string) : bool := bool_decide (reason = ReasonNonexistentAccount).

(** ** Configuration *)
(** [AbuseThresholds] is [None] for a nil map. *)
Record Config := mkConfig {
  Enabled : option bool;
  Allowlist : list string;
  BanTTL : Z;         BanTTLStr : string;
  BanTTLRepeat : Z;   BanTTLRepeatStr : string;
  AcceptTarpit : Z;   AcceptTarpitStr : string;
  AbuseThresholds : option (gmap string Z);
  AbuseWindow : Z;    AbuseWindowStr : string;
  KnownGood : option bool;
  GoodTTL : Z;        GoodTTLStr : string;
  AuthBanScope : string;
  RevokeAfter : Z;
}.

Definition Defaults : Config :=
  mkConfig (Some true) ["127.0.0.0/8"; "::1/128"] (24 * Hour) "" (7 * 24 * Hour) "" (30 * Second) ""
    (Some {[InvalidRecipient := 10; RelayDenied := 5]}) Hour "" (Some true) (30 * 24 * Hour) ""
    AuthBanScopeAuthListeners 10.

Definition IsEnabled (c : Config) : bool := match Enabled c with None => true | Some b => b end.
Definition KnownGoodEnabled (c : Config) : bool := match KnownGood c with None => true | Some b => b end.

Section Config.
Context `{GoDuration}.

(** One row of the table of [Normalize]. *)
Definition duration_field (name str : string) (dst def : Z) : result Z perr :=
  match (if decide (str = "") then Some dst else ParseDuration str) with
  | None => Err ("invalid " +:+ name)
  | Some d => Ok (if d =? 0 then def else d)
  end.

Definition Normalize (c : Config) : result Config perr :=
  (bt <-? duration_field "ban_ttl" (BanTTLStr c) (BanTTL c) (BanTTL Defaults);
   br <-? duration_field "ban_ttl_repeat" (BanTTLRepeatStr c) (BanTTLRepeat c) (BanTTLRepeat Defaults);
   tp <-? duration_field "accept_tarpit" (AcceptTarpitStr c) (AcceptTarpit c) (AcceptTarpit Defaults);
   aw <-? duration_field "abuse_window" (AbuseWindowStr c) (AbuseWindow c) (AbuseWindow Defaults);
   gt <-? duration_field "good_ttl" (GoodTTLStr c) (GoodTTL c) (GoodTTL Defaults);
   let tp := if decide (AcceptTarpitStr c = "0" ∨ AcceptTarpitStr c = "0s") then 0 else tp in
   let scope := if decide (AuthBanScope c = "") then AuthBanScope Defaults else AuthBanScope c in
   if decide (scope = AuthBanScopeAuthListeners ∨ scope = AuthBanScopeAll) then
     Ok (mkConfig (Enabled c) (Allowlist c) bt (BanTTLStr c) br (BanTTLRepeatStr c) tp (AcceptTarpitStr c)
           (match AbuseThresholds c with None => AbuseThresholds Defaults | Some m => Some m end)
           aw (AbuseWindowStr c) (KnownGood c) gt (GoodTTLStr c) scope
           (if RevokeAfter c =? 0 then RevokeAfter Defaults else RevokeAfter c))
   else Err "invalid auth_ban_scope")%go.
End Config.

(** ** Metrics *)
Record Metrics := mkMetrics {
  m_bans : gmap string Z; m_banStrikes : gmap string Z; m_abuseSignals : gmap string Z;
  m_knownGood : Z; m_suppressed : Z; m_revoked : Z; m_unbans : Z;
}.
Definition zero_series (ls : list string) : gmap string Z := list_to_map ((λ l, (l, 0)) <$> ls).
Definition reasonOther : string := "other".
Definition signalOther : string := "other".
Definition NewMetrics : Metrics :=
  mkMetrics (zero_series [ReasonNonexistentAccount; ReasonManual; ReasonAbuse; reasonOther])
    (zero_series ["1"; "2"; "3+"]) (zero_series All) 0 0 0 0.
Definition banReasonLabel (reason : string) : string :=
  if decide (reason = ReasonNonexistentAccount ∨ reason = ReasonManual) then reason
  else if bool_decide (reason = ReasonAbuse) || HasPrefix reason (ReasonAbuse +:+ ":") then ReasonAbuse
  else reasonOther.
Definition strikeLabel (strikes : Z) : string :=
  if strikes <=? 1 then "1" else if strikes =? 2 then "2" else "3+".
Definition signalLabel (signal : string) : string :=
  if decide (signal ∈ All) then signal else signalOther.
(** [WithLabelValues(l).Inc()] *)
Definition inc (l : string) (m : gmap string Z) : gmap string Z := <[l := default 0 (m !! l) + 1]> m.
Definition BanRecorded (reason : string) (strikes : Z) (m : Metrics) : Metrics :=
  mkMetrics (inc (banReasonLabel reason) (m_bans m)) (inc (strikeLabel strikes) (m_banStrikes m))
    (m_abuseSignals m) (m_knownGood m) (m_suppressed m) (m_revoked m) (m_unbans m).
Definition AbuseSignalRecorded (signal : string) (m : Metrics) : Metrics :=
  mkMetrics (m_bans m) (m_banStrikes m) (inc (signalLabel signal) (m_abuseSignals m))
    (m_knownGood m) (m_suppressed m) (m_revoked m) (m_unbans m).
Definition KnownGoodRecorded (m : Metrics) : Metrics :=
  mkMetrics (m_bans m) (m_banStrikes m) (m_abuseSignals m) (m_knownGood m + 1) (m_suppressed m)
    (m_revoked m) (m_unbans m).
Definition BanSuppressed (m : Metrics) : Metrics :=
  mkMetrics (m_bans m) (m_banStrikes m) (m_abuseSignals m) (m_knownGood m) (m_suppressed m + 1)
    (m_revoked m) (m_unbans m).
Definition KnownGoodRevoked (m : Metrics) : Metrics :=
  mkMetrics (m_bans m) (m_banStrikes m) (m_abuseSignals m) (m_knownGood m) (m_suppressed m)
    (m_revoked m + 1) (m_unbans m).
Definition UnbanRecorded (m : Metrics) : Metrics :=
  mkMetrics (m_bans m) (m_banStrikes m) (m_abuseSignals m) (m_knownGood m) (m_suppressed m)
    (m_revoked m) (m_unbans m + 1).

(** ** Prefixes *)
(** An IPv4 address as it is, an IPv6 address reduced to its /64. *)
Definition NormalizePrefix (ip : string) : string :=
  match ParseIP ip with
  | None => ""
  | Some a =>
      match To4 a with
      | Some v => v4_String v
      | None => v6_String (Z.land a (cidr_mask 64 128)) +:+ "/64"
      end
  end.

(** ** Redis *)
(** The commands used; [rc_Get] answers [Ok None] for [redis.Nil]. *)
Class PeerRedis (R : Type) := {
  rc_Get : string → Z → R → result (option string) perr * R;          (* key, now *)
  rc_Incr : string → Z → R → result Z perr * R;
  rc_Expire : string → Z → Z → R → option perr * R;                   (* key, ttl, now *)
  rc_Set : string → string → Z → Z → R → option perr * R;             (* key, value, ttl, now *)
  rc_Del : list string → Z → R → result Z perr * R;
  rc_TTL : string → Z → R → result Z perr * R;
  rc_Scan : Z → string → Z → R → result (list string * Z) perr * R;   (* cursor, pattern, now *)
}.

Record Filter := mkFilter { cfg : Config; allowlist : list IPNet }.

(** Redis with the process's metrics; [None] when no registry was given. *)
Record state (R : Type) := mkState { redis : R; metrics : option Metrics }.
Arguments mkState {R}.
Arguments redis {R}.
Arguments metrics {R}.
Definition count {R} (f : Metrics → Metrics) (s : state R) : state R := mkState (redis s) (f <$> metrics s).

(** [New]; [client] says whether Redis is configured. *)
Definition New (c : Config) (client : bool) : result (option Filter) perr :=
  if negb (IsEnabled c) || negb client then Ok None
  else match mapM ParseCIDR (Allowlist c) with
       | None => Err "invalid allowlist CIDR"
       | Some nets => Ok (Some (mkFilter c nets))
       end.
Definition Allowed (f : option Filter) (ip : string) : bool :=
  match f with
  | None => true
  | Some f => match ParseIP ip with
              | None => false
              | Some a => existsb (λ n, Contains n a) (allowlist f)
              end
  end.

Section Ops.
Context {R : Type} `{PeerRedis R}.

(** One command on the state. *)
Definition on {A} (cmd : R → A * R) (s : state R) : A * state R :=
  let '(a, r) := cmd (redis s) in (a, mkState r (metrics s)).

Definition suppressBan (f : Filter) (prefix : string) (now : Z) (s : state R) : bool * state R :=
  if negb (KnownGoodEnabled (cfg f)) then (false, s)
  else match on (rc_Get (keyGood +:+ prefix) now) s with
  | (Ok None, s) | (Err _, s) => (false, s)
  | (Ok (Some _), s) =>
      match on (rc_Incr (keySuppressed +:+ prefix) now) s with
      | (Err _, s) => (true, s)
      | (Ok n, s) =>
          let s := if n =? 1 then (on (rc_Expire (keySuppressed +:+ prefix) (GoodTTL (cfg f)) now) s).2 else s in
          if (0 <? RevokeAfter (cfg f)) && (RevokeAfter (cfg f) <? n) then
            let '(_, s) := on (rc_Del [keyGood +:+ prefix] now) s in
            (false, count KnownGoodRevoked s)
          else (true, count BanSuppressed s)
      end
  end.

Definition allow : Verdict := mkVerdict false 0 "" false.
Definition Check (fo : option Filter) (ip : string) (authFacing : bool) (now : Z) (s : state R)
    : Verdict * state R :=
  match fo with
  | None => (allow, s)
  | Some f =>
      if Allowed fo ip then (allow, s)
      else let prefix := NormalizePrefix ip in
      if decide (prefix = "") then (allow, s)
      else match on (rc_Get (keyBan +:+ prefix) now) s with
      | (Ok None, s) | (Err _, s) => (allow, s)
      | (Ok (Some reason), s) =>
          match suppressBan f prefix now s with
          | (true, s) => (allow, s)
          | (false, s) =>
              if negb authFacing && bool_decide (AuthBanScope (cfg f) = AuthBanScopeAuthListeners)
                 && isAuthDerived reason
              then (mkVerdict false 0 ReasonBanned true, s)
              else (mkVerdict true (AcceptTarpit (cfg f)) ReasonBanned false, s)
          end
      end
  end.

Definition RecordGood (fo : option Filter) (ip : string) (now : Z) (s : state R) : option perr * state R :=
  match fo with
  | None => (None, s)
  | Some f =>
      if negb (KnownGoodEnabled (cfg f)) then (None, s)
      else if Allowed fo ip then (None, s)
      else let prefix := NormalizePrefix ip in
      if decide (prefix = "") then (Some "unparseable peer address", s)
      else match on (rc_Incr (keyGood +:+ prefix) now) s with
      | (Err e, s) => (Some ("record known-good peer: " +:+ e), s)
      | (Ok n, s) =>
          match on (rc_Expire (keyGood +:+ prefix) (GoodTTL (cfg f)) now) s with
          | (Some e, s) => (Some ("refresh known-good TTL: " +:+ e), s)
          | (None, s) => (None, if n =? 1 then count KnownGoodRecorded s else s)
          end
      end
  end.

Definition Ban (fo : option Filter) (ip reason : string) (now : Z) (s : state R) : option perr * state R :=
  match fo with
  | None => (None, s)
  | Some f =>
      if Allowed fo ip then (None, s)
      else let prefix := NormalizePrefix ip in
      if decide (prefix = "") then (Some "unparseable peer address", s)
      else
        let '(strikes, s) :=
          match on (rc_Incr (keyStrikes +:+ prefix) now) s with
          | (Err _, s) => (1, s)
          | (Ok n, s) => (n, (on (rc_Expire (keyStrikes +:+ prefix) strikeTTL now) s).2)
          end in
        let ttl := if 1 <? strikes then BanTTLRepeat (cfg f) else BanTTL (cfg f) in
        match on (rc_Set (keyBan +:+ prefix) reason ttl now) s with
        | (Some e, s) => (Some ("write peer ban: " +:+ e), s)
        | (None, s) => (None, count (BanRecorded reason strikes) s)
        end
  end.

Definition Report (fo : option Filter) (ip signal : string) (now : Z) (s : state R) : option perr * state R :=
  match fo with
  | None => (None, s)
  | Some f =>
      if decide (signal = "") then (Some "empty abuse signal", s)
      else if Allowed fo ip then (None, s)
      else let prefix := NormalizePrefix ip in
      if decide (prefix = "") then (Some "unparseable peer address", s)
      else
        let key := keyAbuse +:+ prefix +:+ ":" +:+ signal in
        match on (rc_Incr key now) s with
        | (Err e, s) => (Some ("increment abuse counter: " +:+ e), s)
        | (Ok n, s) =>
            let s := count (AbuseSignalRecorded signal) s in
            let s := if n =? 1 then (on (rc_Expire key (AbuseWindow (cfg f)) now) s).2 else s in
            match default ∅ (AbuseThresholds (cfg f)) !! signal with
            | None => (None, s)
            | Some threshold =>
                if (threshold <=? 0) || (n <? threshold) then (None, s)
                else Ban fo ip (ReasonAbuse +:+ ":" +:+ signal) now s
            end
        end
  end.

Definition Unban (fo : option Filter) (ip : string) (now : Z) (s : state R) : bool * option perr * state R :=
  match fo with
  | None => (false, None, s)
  | Some _ =>
      let prefix := NormalizePrefix ip in
      if decide (prefix = "") then (false, Some "unparseable peer address", s)
      else match on (rc_Del [keyBan +:+ prefix] now) s with
      | (Err e, s) => (false, Some ("delete peer ban: " +:+ e), s)
      | (Ok removed, s) =>
          let s := if 0 <? removed then count UnbanRecorded s else s in
          match on (rc_Del [keyStrikes +:+ prefix; keySuppressed +:+ prefix] now) s with
          | (Err e, s) => (0 <? removed, Some ("delete peer strikes: " +:+ e), s)
          | (Ok _, s) => (0 <? removed, None, s)
          end
      end
  end.

(** *** Listings *)
Record GoodEntry := mkGood { g_Prefix : string; g_SuccessfulAuths : Z; g_SuppressedBans : Z; g_TTL : Z }.
Record AbuseEntry := mkAbuse { a_Prefix : string; a_Signal : string; a_Count : Z; a_Threshold : Z; a_TTL : Z }.
Record BanEntry := mkBan { b_Prefix : string; b_Reason : string; b_TTL : Z; b_Strikes : Z }.

(** The value of [key]; only an error other than [redis.Nil] is returned. *)
Definition read_value (key : string) (now : Z) (s : state R) : result string perr * state R :=
  match on (rc_Get key now) s with
  | (Ok o, s) => (Ok (default "" o), s)
  | (Err e, s) => (Err e, s)
  end.
Definition as_count (v : string) : Z := default 0 (Atoi v).
(** A counter read where errors are ignored. *)
Definition read_count (key : string) (now : Z) (s : state R) : Z * state R :=
  match read_value key now s with
  | (Ok v, s) => (as_count v, s)
  | (Err _, s) => (0, s)
  end.
Definition read_ttl (key : string) (now : Z) (s : state R) : Z * state R :=
  match on (rc_TTL key now) s with
  | (Ok t, s) => (if 0 <? t then t else 0, s)
  | (Err _, s) => (0, s)
  end.

Definition good_entry (key : string) (now : Z) (s : state R) : result (option GoodEntry) perr * state R :=
  let prefix := TrimPrefix key keyGood in
  match read_value key now s with
  | (Err e, s) => (Err e, s)
  | (Ok v, s) =>
      let '(ttl, s) := read_ttl key now s in
      let '(sup, s) := read_count (keySuppressed +:+ prefix) now s in
      (Ok (Some (mkGood prefix (as_count v) sup ttl)), s)
  end.
Definition abuse_entry (f : Filter) (key : string) (now : Z) (s : state R)
    : result (option AbuseEntry) perr * state R :=
  match cut_last ":" (TrimPrefix key keyAbuse) with
  | None => (Ok None, s)
  | Some (prefix, signal) =>
      match read_value key now s with
      | (Err e, s) => (Err e, s)
      | (Ok v, s) =>
          let '(ttl, s) := read_ttl key now s in
          (Ok (Some (mkAbuse prefix signal (as_count v)
                       (default 0 (default ∅ (AbuseThresholds (cfg f)) !! signal)) ttl)), s)
      end
  end.
Definition ban_entry (key : string) (now : Z) (s : state R) : result (option BanEntry) perr * state R :=
  let prefix := TrimPrefix key keyBan in
  match read_value key now s with
  | (Err e, s) => (Err e, s)
  | (Ok v, s) =>
      let '(ttl, s) := read_ttl key now s in
      let '(strikes, s) := read_count (keyStrikes +:+ prefix) now s in
      (Ok (Some (mkBan prefix v ttl strikes)), s)
  end.

Fixpoint read_keys {A} (entry : string → Z → state R → result (option A) perr * state R)
    (keys : list string) (now : Z) (s : state R) : result (list A) perr * state R :=
  match keys with
  | [] => (Ok [], s)
  | k :: keys =>
      match entry k now s with
      | (Err e, s) => (Err e, s)
      | (Ok o, s) =>
          match read_keys entry keys now s with
          | (Err e, s) => (Err e, s)
          | (Ok es, s) => (Ok (match o with Some e => e :: es | None => es end), s)
          end
      end
  end.
(** The cursor loop; [None] when it has not ended after [fuel] rounds. *)
Fixpoint scan_loop {A} (entry : string → Z → state R → result (option A) perr * state R)
    (fuel : nat) (cursor : Z) (pattern : string) (now : Z) (s : state R)
    : option (result (list A) perr) * state R :=
  match fuel with
  | O => (None, s)
  | S fuel =>
      match on (rc_Scan cursor pattern now) s with
      | (Err e, s) => (Some (Err e), s)
      | (Ok (keys, next), s) =>
          match read_keys entry keys now s with
          | (Err e, s) => (Some (Err e), s)
          | (Ok es, s) =>
              if next =? 0 then (Some (Ok es), s)
              else match scan_loop entry fuel next pattern now s with
                   | (Some (Ok more), s) => (Some (Ok (es ++ more)), s)
                   | r => r
                   end
          end
      end
  end.
Definition ListGood (fo : option Filter) (fuel : nat) (now : Z) (s : state R) :=
  match fo with
  | None => (Some (Ok []), s)
  | Some _ => scan_loop good_entry fuel 0 (keyGood +:+ "*") now s
  end.
Definition ListAbuse (fo : option Filter) (fuel : nat) (now : Z) (s : state R) :=
  match fo with
  | None => (Some (Ok []), s)
  | Some f => scan_loop (abuse_entry f) fuel 0 (keyAbuse +:+ "*") now s
  end.
Definition List_ (fo : option Filter) (fuel : nat) (now : Z) (s : state R) :=
  match fo with
  | None => (Some (Ok []), s)
  | Some _ => scan_loop ban_entry fuel 0 (keyBan +:+ "*") now s
  end.
End Ops.

(** ** The session service *)
(** What [errors.Is] tells about an error of the manager's [Login]. *)
Record lerror := mkLerror { is_DomainNotHosted : bool; is_UserNotFound : bool; is_RateLimited : bool }.
Record LoginResult := mkLogin { l_Token : string; l_Mailbox : string; l_Extension : string; l_MaxSendsPerHour : Z }.
Class SmManager (M : Type) := {
  mgr_Login : string → string → string → M → result LoginResult lerror * M;   (* user, password, client *)
  mgr_ValidateRecipient : string → M → result (bool * bool * bool) perr * M;
  mgr_Logout : string → M → option perr * M;
}.
Inductive code := InvalidArgument | Unauthenticated | ResourceExhausted | Internal | NotFound.
Definition rpc (A : Type) : Type := result A (code * string).
Record sessionServer := mkServer { filter_ : option Filter; authFailDelay : Z }.
Definition wrap_int32 (z : Z) : Z := (z + 2 ^ 31) mod 2 ^ 32 - 2 ^ 31.

(** The offset from the arrival of the request at which a failure is answered:
    [elapsed] when the attempt was over, [gone] when the client left, if ever. *)
Definition awaitFailDeadline (delay elapsed : Z) (gone : option Z) : Z :=
  if delay <=? 0 then elapsed
  else if delay - elapsed <=? 0 then elapsed
  else match gone with
       | None => delay
       | Some g => Z.min delay (Z.max elapsed g)
       end.

Section Service.
Context {R M : Type} `{PeerRedis R, SmManager M}.
Variable srv : sessionServer.

(** The answer, when it is given (an offset), and the new states. *)
Definition Login (user password client : string) (elapsed : Z) (gone : option Z) (now : Z) (m : M) (s : state R)
    : rpc LoginResult * Z * M * state R :=
  if decide (user = "" ∨ password = "") then
    (Err (InvalidArgument, "username and password required"), elapsed, m, s)
  else
    match mgr_Login user password client m with
    | (Err e, m) =>
        let s := if is_DomainNotHosted e && negb (bool_decide (client = "")) then
                   (Report (filter_ srv) client UnhostedDomain now s).2
                 else if is_UserNotFound e && negb (bool_decide (client = "")) then
                   (Ban (filter_ srv) client ReasonNonexistentAccount now s).2
                 else s in
        (Err (if is_RateLimited e then (ResourceExhausted, "too many failed attempts")
              else (Unauthenticated, "authentication failed")),
         awaitFailDeadline (authFailDelay srv) elapsed gone, m, s)
    | (Ok l, m) =>
        (Ok (mkLogin (l_Token l) (l_Mailbox l) (l_Extension l) (wrap_int32 (l_MaxSendsPerHour l))), elapsed, m,
         if decide (client = "") then s else (RecordGood (filter_ srv) client now s).2)
    end.

Definition ValidateRecipient (address client : string) (now : Z) (m : M) (s : state R)
    : rpc (bool * bool * bool) * M * state R :=
  if decide (address = "") then (Err (InvalidArgument, "address required"), m, s)
  else match mgr_ValidateRecipient address m with
       | (Err e, m) => (Err (Internal, "validate recipient: " +:+ e), m, s)
       | (Ok (isLocal, userExists, deferRejection), m) =>
           (Ok (isLocal, userExists, deferRejection), m,
            if isLocal && negb userExists && negb (bool_decide (client = ""))
            then (Report (filter_ srv) client InvalidRecipient now s).2 else s)
       end.

(** The response's fields: banned, tarpit in milliseconds, reason, shadow. *)
Definition CheckPeer (ip : string) (authFacing : bool) (now : Z) (s : state R)
    : bool * Z * string * bool * state R :=
  if decide (ip = "") then (false, 0, "", false, s)
  else let '(v, s) := Check (filter_ srv) ip authFacing now s in
       (Banned v, Z.quot (Tarpit v) Millisecond, Reason v, ShadowBanned v, s).

Definition ReportPeer (ip signal : string) (now : Z) (s : state R) : rpc unit * state R :=
  if decide (ip = "" ∨ signal = "") then (Err (InvalidArgument, "ip and signal required"), s)
  else (Ok (), (Report (filter_ srv) ip signal now s).2).

Definition Logout (token : string) (m : M) : rpc unit * M :=
  if decide (token = "") then (Err (InvalidArgument, "session_token required"), m)
  else match mgr_Logout token m with
       | (Some e, m) => (Err (NotFound, e), m)
       | (None, m) => (Ok (), m)
       end.
End Service.

(** ** Redis as documented *)
(** A stored value with its expiry, at a later time. *)
Definition entry : Type := string * option Z.
Definition expire (t : Z) (o : option entry) : option entry :=
  match o with
  | Some (v, Some x) => if t <? x then Some (v, Some x) else None
  | _ => o
  end.

(** A reachable server ([rc_up]) answers and stays reachable. Time only
    expires keys; INCR of an absent key creates it without expiry, EXPIRE takes
    whole seconds, SET whole milliseconds. *)
Class PeerRedisLaws (R : Type) `{PeerRedis R} := {
  rc_up : R → Prop;
  rc_look : Z → R → string → option entry;
  rc_look_later t t' r k : t <= t' → rc_look t' r k = expire t' (rc_look t r k);
  rc_Get_law k t r : rc_up r →
    ∃ r', rc_Get k t r = (Ok (fst <$> rc_look t r k), r') ∧ rc_up r' ∧
          ∀ k', rc_look t r' k' = rc_look t r k';
  rc_Incr_law k t r c e : rc_up r →
    rc_look t r k = None ∧ c = 0 ∧ e = None ∨ rc_look t r k = Some (fmt_d c, e) ∧ 0 <= c < 2 ^ 63 - 1 →
    ∃ r', rc_Incr k t r = (Ok (c + 1), r') ∧ rc_up r' ∧
          ∀ k', rc_look t r' k' = if decide (k' = k) then Some (fmt_d (c + 1), e) else rc_look t r k';
  rc_Expire_law k ttl t r v e : rc_up r → rc_look t r k = Some (v, e) → 0 < ttl → (Second | ttl) →
    ∃ r', rc_Expire k ttl t r = (None, r') ∧ rc_up r' ∧
          ∀ k', rc_look t r' k' = if decide (k' = k) then Some (v, Some (t + ttl)) else rc_look t r k';
  rc_Set_law k v ttl t r : rc_up r → 0 < ttl → (Millisecond | ttl) →
    ∃ r', rc_Set k v ttl t r = (None, r') ∧ rc_up r' ∧
          ∀ k', rc_look t r' k' = if decide (k' = k) then Some (v, Some (t + ttl)) else rc_look t r k';
  rc_Del_law ks t r : rc_up r →
    ∃ n r', rc_Del ks t r = (Ok n, r') ∧ rc_up r' ∧
            ∀ k', rc_look t r' k' = if decide (k' ∈ ks) then None else rc_look t r k';
}.

(** Keys of different families differ, and a family is injective. *)
Lemma peer_key_families a b :
  keyBan +:+ a ≠ keyStrikes +:+ b ∧ keyBan +:+ a ≠ keyGood +:+ b ∧ keyBan +:+ a ≠ keySuppressed +:+ b ∧
  keyStrikes +:+ a ≠ keyGood +:+ b ∧ keyStrikes +:+ a ≠ keySuppressed +:+ b ∧ keyGood +:+ a ≠ keySuppressed +:+ b.
Proof. split_and!; intros E; vm_compute in E; discriminate E. Qed.

(** Closes an inequality between keys of two families. *)
Ltac key_ne :=
  let E := fresh in intros E;
  first [ by apply peer_key_families in E | symmetry in E; by apply peer_key_families in E ].

(** ** The policy as a function of the keyspace *)
Section Policy.
Variable f : Filter.
Implicit Type look : string → option entry.

Definition counter (o : option entry) : Z :=
  match o with Some (v, _) => default 0 (Atoi v) | None => 0 end.
Definition counter_ok (o : option entry) : Prop :=
  o = None ∨ ∃ c e, o = Some (fmt_d c, e) ∧ 0 <= c < 2 ^ 63 - 1.

Definition known_good look (prefix : string) : bool :=
  KnownGoodEnabled (cfg f) && bool_decide (is_Some (look (keyGood +:+ prefix))).
Definition revoking look (prefix : string) : bool :=
  (0 <? RevokeAfter (cfg f)) && (RevokeAfter (cfg f) <? counter (look (keySuppressed +:+ prefix)) + 1).
Definition enforce (reason : string) (authFacing : bool) : Verdict :=
  if negb authFacing && bool_decide (AuthBanScope (cfg f) = AuthBanScopeAuthListeners) && isAuthDerived reason
  then mkVerdict false 0 ReasonBanned true
  else mkVerdict true (AcceptTarpit (cfg f)) ReasonBanned false.

(** What [Check] answers. *)
Definition policy look (ip : string) (authFacing : bool) : Verdict :=
  let prefix := NormalizePrefix ip in
  if Allowed (Some f) ip || bool_decide (prefix = "") then allow
  else match look (keyBan +:+ prefix) with
       | None => allow
       | Some (reason, _) =>
           if known_good look prefix && negb (revoking look prefix) then allow else enforce reason authFacing
       end.

(** The counter of suppressed bans after one more. *)
Definition suppressed_entry (t : Z) (o : option entry) : entry :=
  (fmt_d (counter o + 1), if counter o =? 0 then Some (t + GoodTTL (cfg f)) else o ≫= snd).

(** The keyspace after a ban was considered for [prefix], and after a check. *)
Definition after_suppress (t : Z) look (prefix k : string) : option entry :=
  if known_good look prefix then
    if decide (k = keySuppressed +:+ prefix) then Some (suppressed_entry t (look k))
    else if bool_decide (k = keyGood +:+ prefix) && revoking look prefix then None
    else look k
  else look k.
Definition after_check (t : Z) look (ip k : string) : option entry :=
  let prefix := NormalizePrefix ip in
  if Allowed (Some f) ip || bool_decide (prefix = "") then look k
  else match look (keyBan +:+ prefix) with
       | None => look k
       | Some _ => after_suppress t look prefix k
       end.
(** How long a new ban lasts, given the strikes on record. *)
Definition ban_ttl (strikes : option entry) : Z :=
  if 1 <? counter strikes + 1 then BanTTLRepeat (cfg f) else BanTTL (cfg f).
End Policy.

Section Facts.
Context {R : Type} `{PeerRedisLaws R}.
Variable f : Filter.
Implicit Types (s : state R) (t : Z).

Definition up s : Prop := rc_up (redis s).
Definition look t s (k : string) : option entry := rc_look t (redis s) k.

Lemma look_later t t' s k : t <= t' → look t' s k = expire t' (look t s k).
Proof. apply rc_look_later. Qed.

Lemma on_Get k t s : up s → ∃ s', on (rc_Get k t) s = (Ok (fst <$> look t s k), s') ∧ up s' ∧ ∀ k', look t s' k' = look t s k'.
Proof.
  intros Hup. destruct (rc_Get_law k t (redis s) Hup) as (r' & E & ? & ?).
  unfold on. rewrite E. by eexists.
Qed.
Lemma on_Incr k t s : up s → counter_ok (look t s k) →
  ∃ s', on (rc_Incr k t) s = (Ok (counter (look t s k) + 1), s') ∧ up s' ∧
        ∀ k', look t s' k' = if decide (k' = k) then Some (fmt_d (counter (look t s k) + 1), look t s k ≫= snd)
                             else look t s k'.
Proof.
  intros Hup Hc. unfold look in *.
  destruct Hc as [E|(c & e & E & Hc)]; rewrite E; cbn [counter mbind option_bind snd].
  - destruct (rc_Incr_law k t (redis s) 0 None Hup) as (r' & E' & ? & ?); [by auto|].
    unfold on. rewrite E'. by eexists.
  - rewrite Atoi_fmt_d by lia. cbn [default id].
    destruct (rc_Incr_law k t (redis s) c e Hup) as (r' & E' & ? & ?); [by auto|].
    unfold on. rewrite E'. by eexists.
Qed.
Lemma on_Expire k ttl t s v e : up s → look t s k = Some (v, e) → 0 < ttl → (Second | ttl) →
  ∃ s', on (rc_Expire k ttl t) s = (None, s') ∧ up s' ∧
        ∀ k', look t s' k' = if decide (k' = k) then Some (v, Some (t + ttl)) else look t s k'.
Proof.
  intros Hup Hl Ht Hd. destruct (rc_Expire_law k ttl t (redis s) v e Hup Hl Ht Hd) as (r' & E & ? & ?).
  unfold on. rewrite E. by eexists.
Qed.
Lemma on_Set k v ttl t s : up s → 0 < ttl → (Millisecond | ttl) →
  ∃ s', on (rc_Set k v ttl t) s = (None, s') ∧ up s' ∧
        ∀ k', look t s' k' = if decide (k' = k) then Some (v, Some (t + ttl)) else look t s k'.
Proof.
  intros Hup Ht Hd. destruct (rc_Set_law k v ttl t (redis s) Hup Ht Hd) as (r' & E & ? & ?).
  unfold on. rewrite E. by eexists.
Qed.
Lemma on_Del ks t s : up s →
  ∃ n s', on (rc_Del ks t) s = (Ok n, s') ∧ up s' ∧
        ∀ k', look t s' k' = if decide (k' ∈ ks) then None else look t s k'.
Proof.
  intros Hup. destruct (rc_Del_law ks t (redis s) Hup) as (n & r' & E & ? & ?).
  unfold on. rewrite E. by eexists _, _.
Qed.

(** Durations that Redis takes as they are. *)
Record durations_ok : Prop := {
  d_good : 0 < GoodTTL (cfg f) ∧ (Second | GoodTTL (cfg f));
  d_ban : 0 < BanTTL (cfg f) ∧ (Millisecond | BanTTL (cfg f));
  d_repeat : 0 < BanTTLRepeat (cfg f) ∧ (Millisecond | BanTTLRepeat (cfg f));
  d_window : 0 < AbuseWindow (cfg f) ∧ (Second | AbuseWindow (cfg f));
}.

Lemma suppressBan_spec prefix t s :
  durations_ok → up s → counter_ok (look t s (keySuppressed +:+ prefix)) →
  ∃ s', suppressBan f prefix t s
          = (known_good f (look t s) prefix && negb (revoking f (look t s) prefix), s') ∧ up s' ∧
        ∀ k, look t s' k = after_suppress f t (look t s) prefix k.
Proof.
  intros [[Hg Hg'] _ _ _] Hup Hc. unfold suppressBan, after_suppress, known_good.
  destruct (KnownGoodEnabled (cfg f)) eqn:Ek; cbn [negb andb]; [|by exists s].
  destruct (on_Get (keyGood +:+ prefix) t s Hup) as (s1 & -> & Hup1 & Hl1).
  destruct (look t s (keyGood +:+ prefix)) as [[v e]|] eqn:Eg; cbn [fmap option_fmap option_map fst].
  2:{ rewrite bool_decide_false by (by intros []). by exists s1. }
  rewrite bool_decide_true by eauto. cbn [andb].
  rewrite <-Hl1 in Hc.
  destruct (on_Incr _ t s1 Hup1 Hc) as (s2 & -> & Hup2 & Hl2). rewrite !Hl1 in Hl2. rewrite !Hl1.
  set (o := look t s (keySuppressed +:+ prefix)) in *.
  assert (∃ s3, (if counter o + 1 =? 1 then (on (rc_Expire (keySuppressed +:+ prefix) (GoodTTL (cfg f)) t) s2).2
                 else s2) = s3 ∧ up s3 ∧
     ∀ k, look t s3 k = if decide (k = keySuppressed +:+ prefix) then Some (suppressed_entry f t o)
                        else look t s k) as (s3 & -> & Hup3 & Hl3).
  { unfold suppressed_entry. destruct (Z.eqb_spec (counter o) 0) as [E0|E0].
    - rewrite E0. destruct (on_Expire (keySuppressed +:+ prefix) (GoodTTL (cfg f)) t s2
        (fmt_d (counter o + 1)) (o ≫= snd) Hup2) as (s3 & -> & Hup3 & Hl3); [|done..|].
      { rewrite Hl2. by rewrite decide_True. }
      exists s3. split_and!; [done..|]. intros k. rewrite Hl3, Hl2. destruct (decide (k = _)); [by rewrite E0|by rewrite Hl1].
    - destruct (Z.eqb_spec (counter o + 1) 1); [lia|]. exists s2. split_and!; [done..|].
      intros k. rewrite Hl2. destruct (decide (k = _)); [done|by rewrite Hl1]. }
  unfold revoking. fold o. destruct (_ && _) eqn:Er; cbn [negb].
  - destruct (on_Del [keyGood +:+ prefix] t s3 Hup3) as (n & s4 & -> & Hup4 & Hl4).
    exists (count KnownGoodRevoked s4). split_and!; [done..|]. intros k.
    change (look t (count _ s4) k) with (look t s4 k). rewrite Hl4, Hl3.
    destruct (decide (k = keySuppressed +:+ prefix)) as [->|Hk].
    + rewrite decide_False; [done|]. rewrite list_elem_of_singleton. key_ne.
    + destruct (decide (k ∈ [keyGood +:+ prefix])) as [E|E]; rewrite list_elem_of_singleton in E.
      * by rewrite bool_decide_true.
      * by rewrite bool_decide_false.
  - exists (count BanSuppressed s3). split_and!; [done..|]. intros k.
    change (look t (count _ s3) k) with (look t s3 k). rewrite Hl3.
    rewrite andb_false_r. by destruct (decide (k = _)) as [->|].
Qed.

Lemma policy_ext l1 l2 ip auth :
  (let p := NormalizePrefix ip in
   l1 (keyBan +:+ p) = l2 (keyBan +:+ p) ∧ l1 (keyGood +:+ p) = l2 (keyGood +:+ p) ∧
   l1 (keySuppressed +:+ p) = l2 (keySuppressed +:+ p)) →
  policy f l1 ip auth = policy f l2 ip auth.
Proof. intros (E1 & E2 & E3). unfold policy, known_good, revoking. by rewrite E1, E2, E3. Qed.

(** On a reachable Redis, [Check] answers what the policy says. *)
Lemma Check_spec ip auth t s :
  durations_ok → up s → counter_ok (look t s (keySuppressed +:+ NormalizePrefix ip)) →
  ∃ s', Check (Some f) ip auth t s = (policy f (look t s) ip auth, s') ∧ up s' ∧
        ∀ k, look t s' k = after_check f t (look t s) ip k.
Proof.
  intros Hd Hup Hc. unfold Check, policy, after_check.
  destruct (Allowed (Some f) ip) eqn:Ea; cbn [orb]; [by exists s|].
  destruct (decide (NormalizePrefix ip = "")) as [E|E];
    [rewrite (bool_decide_true (NormalizePrefix ip = "")) by done; by exists s|
     rewrite (bool_decide_false (NormalizePrefix ip = "")) by done].
  destruct (on_Get (keyBan +:+ NormalizePrefix ip) t s Hup) as (s1 & -> & Hup1 & Hl1).
  destruct (look t s (keyBan +:+ NormalizePrefix ip)) as [[reason e]|] eqn:Eb;
    cbn [fmap option_fmap option_map fst]; [|by exists s1].
  rewrite <-Hl1 in Hc.
  destruct (suppressBan_spec (NormalizePrefix ip) t s1 Hd Hup1 Hc) as (s2 & -> & Hup2 & Hl2).
  assert (∀ k, look t s2 k = after_suppress f t (look t s) (NormalizePrefix ip) k) as Hl3.
  { intros k. rewrite Hl2. unfold after_suppress, known_good, revoking. by rewrite !Hl1. }
  unfold known_good, revoking in *. rewrite !Hl1.
  destruct (_ && negb _); [by exists s2|]. unfold enforce. destruct (_ && _); by exists s2.
Qed.

Lemma Ban_spec ip reason t s :
  durations_ok → up s → Allowed (Some f) ip = false → NormalizePrefix ip ≠ "" →
  counter_ok (look t s (keyStrikes +:+ NormalizePrefix ip)) →
  let o := look t s (keyStrikes +:+ NormalizePrefix ip) in
  ∃ s', Ban (Some f) ip reason t s = (None, s') ∧ up s' ∧
    ∀ k, look t s' k =
      if decide (k = keyBan +:+ NormalizePrefix ip) then Some (reason, Some (t + ban_ttl f o))
      else if decide (k = keyStrikes +:+ NormalizePrefix ip) then Some (fmt_d (counter o + 1), Some (t + strikeTTL))
      else look t s k.
Proof.
  intros Hd Hup Ha Hp Hc o. unfold Ban. rewrite Ha, decide_False by done.
  destruct (on_Incr _ t s Hup Hc) as (s1 & -> & Hup1 & Hl1). fold o in Hl1. fold o.
  destruct (on_Expire (keyStrikes +:+ NormalizePrefix ip) strikeTTL t s1
    (fmt_d (counter o + 1)) (o ≫= snd) Hup1) as (s2 & -> & Hup2 & Hl2).
  { rewrite Hl1. by rewrite decide_True. }
  { done. }
  { exists (30 * 24 * 3600). done. }
  cbn [snd]. change (if 1 <? counter o + 1 then _ else _) with (ban_ttl f o).
  assert (0 < ban_ttl f o ∧ (Millisecond | ban_ttl f o)) as [Ht Ht'].
  { unfold ban_ttl. destruct (1 <? _); apply Hd. }
  destruct (on_Set (keyBan +:+ NormalizePrefix ip) reason (ban_ttl f o) t s2 Hup2 Ht Ht') as (s3 & -> & Hup3 & Hl3).
  eexists. split_and!; [done|exact Hup3|]. intros k.
  change (look t (count _ s3) k) with (look t s3 k). rewrite Hl3, Hl2, Hl1.
  by repeat destruct (decide _).
Qed.

Lemma Check_verdict ip auth t s :
  durations_ok → up s → counter_ok (look t s (keySuppressed +:+ NormalizePrefix ip)) →
  (Check (Some f) ip auth t s).1 = policy f (look t s) ip auth.
Proof. intros Hd Hup Hc. by destruct (Check_spec ip auth t s Hd Hup Hc) as (s' & -> & _). Qed.

(** A key of the other families keeps its value over a ban. *)
Lemma look_after_ban ip reason t s s1 k t' :
  (∀ k, look t s1 k =
      if decide (k = keyBan +:+ NormalizePrefix ip) then Some (reason, Some (t + ban_ttl f (look t s (keyStrikes +:+ NormalizePrefix ip))))
      else if decide (k = keyStrikes +:+ NormalizePrefix ip)
      then Some (fmt_d (counter (look t s (keyStrikes +:+ NormalizePrefix ip)) + 1), Some (t + strikeTTL))
      else look t s k) →
  t <= t' → k ≠ keyBan +:+ NormalizePrefix ip → k ≠ keyStrikes +:+ NormalizePrefix ip →
  look t' s1 k = look t' s k.
Proof. intros Hl Ht ??. by rewrite !(look_later t t'), Hl, !decide_False by done. Qed.

(** C5 (functional): on a reachable Redis a ban of a peer that is not on the
    allowlist is recorded, and it lasts [BanTTL], or [BanTTLRepeat] when a
    strike is on record. Until then every address of the same prefix that is
    not known-good is refused, on inbound SMTP only recorded when the evidence
    came from authentication and the scope says so; afterwards it is served.
    The verdict on every other prefix is the one given without the ban. *)
Theorem ban_enforced (ip reason : string) (t : Z) (s : state R)
    (Hd : durations_ok) (Hup : up s) (Ha : Allowed (Some f) ip = false) (Hp : NormalizePrefix ip ≠ "")
    (Hstrikes : counter_ok (look t s (keyStrikes +:+ NormalizePrefix ip))) :
  let ttl := ban_ttl f (look t s (keyStrikes +:+ NormalizePrefix ip)) in
  ∃ s1, Ban (Some f) ip reason t s = (None, s1) ∧ up s1 ∧
    (∀ ip' auth t', NormalizePrefix ip' = NormalizePrefix ip → Allowed (Some f) ip' = false → t <= t' →
       look t' s (keyGood +:+ NormalizePrefix ip) = None →
       counter_ok (look t' s (keySuppressed +:+ NormalizePrefix ip)) →
       (Check (Some f) ip' auth t' s1).1 = if t' <? t + ttl then enforce f reason auth else allow) ∧
    (∀ ip' auth t', NormalizePrefix ip' ≠ NormalizePrefix ip → t <= t' →
       counter_ok (look t' s (keySuppressed +:+ NormalizePrefix ip')) →
       (Check (Some f) ip' auth t' s1).1 = (Check (Some f) ip' auth t' s).1).
Proof.
  destruct (Ban_spec ip reason t s Hd Hup Ha Hp Hstrikes) as (s1 & E & Hup1 & Hl).
  pose proof (λ k t', look_after_ban ip reason t s s1 k t' Hl) as Hkeep.
  exists s1. split_and!; [done..| |].
  - intros ip' auth t' Eip Ha' Ht Hgood Hsup.
    rewrite <-Hkeep in Hgood, Hsup by (done || key_ne).
    rewrite Check_verdict by (done || by rewrite Eip). unfold policy. rewrite Eip, Ha', bool_decide_false by done.
    cbn [orb]. rewrite (look_later t t'), Hl, decide_True by done. cbn [expire].
    destruct (t' <? _); [|done]. unfold known_good. rewrite Hgood, bool_decide_false by (by intros []).
    by rewrite andb_false_r.
  - intros ip' auth t' Eip Ht Hsup.
    assert (∀ pre, pre = keyBan ∨ pre = keyGood ∨ pre = keySuppressed →
      look t' s1 (pre +:+ NormalizePrefix ip') = look t' s (pre +:+ NormalizePrefix ip')) as Hsame.
    { intros pre Hpre. apply Hkeep; [done| |]; destruct Hpre as [->|[->| ->]]; try key_ne.
      intros E'%sapp_inj_l. done. }
    rewrite (Check_verdict ip' auth t' s1), (Check_verdict ip' auth t' s) by (done || by rewrite Hsame by auto).
    apply policy_ext. split_and!; apply Hsame; auto.
Qed.

(** *** A known-good peer under a ban *)
Fixpoint checks (ip : string) (auth : bool) (ts : list Z) (s : state R) : list Verdict * state R :=
  match ts with
  | [] => ([], s)
  | t :: ts => let '(v, s) := Check (Some f) ip auth t s in
               let '(vs, s) := checks ip auth ts s in (v :: vs, s)
  end.

(** A key that holds [v] until [T] at least. *)
Definition holds_until (T : Z) (v : string) (o : option entry) : Prop :=
  ∃ e, o = Some (v, e) ∧ match e with Some x => T <= x | None => True end.
Lemma holds_until_later T v o t : t < T → holds_until T v o → holds_until T v (expire t o).
Proof.
  intros Ht (e & -> & He). exists e. split; [|done]. destruct e as [x|]; [|done]. cbn.
  by destruct (Z.ltb_spec t x); [|lia].
Qed.
Lemma counter_ok_later t o : counter_ok o → counter_ok (expire t o).
Proof.
  intros [->|(c & [x|] & -> & Hc)]; [by left| |by right; eauto]. cbn.
  destruct (t <? x); [right; eauto|by left].
Qed.

Section KnownGood.
Variables (ip reason : string) (T : Z).
Hypothesis Hd : durations_ok.
Hypothesis Ha : Allowed (Some f) ip = false.
Hypothesis Hp : NormalizePrefix ip ≠ "".
Hypothesis Hkg : KnownGoodEnabled (cfg f) = true.
Hypothesis Hrev : 0 < RevokeAfter (cfg f) < 2 ^ 63 - 2.

(** The keyspace after [i] checks. *)
Definition after_checks (i : Z) (l : string → option entry) : Prop :=
  let p := NormalizePrefix ip in
  holds_until T reason (l (keyBan +:+ p)) ∧
  if i <=? RevokeAfter (cfg f) then
    (∃ v, holds_until T v (l (keyGood +:+ p))) ∧
    (i = 0 ∧ l (keySuppressed +:+ p) = None ∨ 0 < i ∧ holds_until T (fmt_d i) (l (keySuppressed +:+ p)))
  else l (keyGood +:+ p) = None ∧ counter_ok (l (keySuppressed +:+ p)).

Lemma after_checks_later i t t' s :
  t <= t' → t' < T → after_checks i (look t s) → after_checks i (look t' s).
Proof.
  intros Ht HT (Hb & Hr). split; rewrite (look_later t t') by done; [by apply holds_until_later|].
  destruct (i <=? _); rewrite !(look_later t t') by done.
  - destruct Hr as [(v & Hg) Hs]. split; [exists v; by apply holds_until_later|].
    destruct Hs as [[? ->]|[? ?]]; [by left|right; auto using holds_until_later].
  - destruct Hr as [-> ?]. split; [done|by apply counter_ok_later].
Qed.
Lemma after_checks_counter i l :
  0 <= i → after_checks i l → let o := l (keySuppressed +:+ NormalizePrefix ip) in
  counter_ok o ∧ (i <= RevokeAfter (cfg f) → counter o = i).
Proof.
  intros Hi (_ & Hr) o. destruct (Z.leb_spec i (RevokeAfter (cfg f))) as [Hle|Hle].
  - destruct Hr as [_ [[-> E]|(Hi' & e & E & _)]]; unfold o; rewrite E; [by split; [left|]|].
    split; [|intros _; cbn; by rewrite Atoi_fmt_d by lia]. right. exists i, e. split; [done|lia].
  - destruct Hr as [_ ?]. split; [done|lia].
Qed.

Lemma known_good_step i auth t s :
  0 <= i → (i = 0 → T <= t + GoodTTL (cfg f)) → up s → after_checks i (look t s) →
  ∃ s', Check (Some f) ip auth t s = (if i <? RevokeAfter (cfg f) then allow else enforce f reason auth, s') ∧
        up s' ∧ after_checks (i + 1) (look t s').
Proof.
  intros Hi Hfirst Hup Hst. destruct (after_checks_counter _ _ Hi Hst) as [Hc Hci].
  destruct (Check_spec ip auth t s Hd Hup Hc) as (s' & -> & Hup' & Hl). exists s'.
  destruct Hst as [(e & Eb & Hb) Hr]. unfold policy, after_check, after_suppress, known_good, revoking in *.
  rewrite Ha, bool_decide_false, Eb, Hkg in Hl |- * by done. cbn [orb andb] in *.
  unfold after_checks. rewrite !Hl. rewrite (decide_False (P := keyBan +:+ _ = _)) by key_ne.
  rewrite (bool_decide_false (keyBan +:+ _ = _)) by key_ne. rewrite Eb. cbn [andb].
  destruct (Z.leb_spec i (RevokeAfter (cfg f))) as [Hle|Hgt].
  - specialize (Hci Hle). destruct Hr as [(v & eg & Eg & Hg) Hs]. rewrite Eg, bool_decide_true by eauto.
    rewrite Hci, (decide_False (P := keyGood +:+ _ = _)), decide_True by (done || key_ne).
    rewrite (bool_decide_true (keyGood +:+ _ = _)) by done. cbn [andb].
    destruct (Z.ltb_spec 0 (RevokeAfter (cfg f))) as [_|]; [|lia]. cbn [andb].
    destruct (Z.ltb_spec (RevokeAfter (cfg f)) (i + 1)) as [Hlt|Hlt].
    + destruct (Z.ltb_spec i (RevokeAfter (cfg f))); [lia|].
      destruct (Z.leb_spec (i + 1) (RevokeAfter (cfg f))); [lia|].
      split_and!; [done..|by exists e| |]; [done|]. right. eexists _, _. split; [unfold suppressed_entry; by rewrite Hci|lia].
    + destruct (Z.ltb_spec i (RevokeAfter (cfg f))); [|lia].
      destruct (Z.leb_spec (i + 1) (RevokeAfter (cfg f))); [|lia].
      split_and!; [done..|by exists e|by exists v, eg|]. right. split; [lia|].
      eexists. split; [unfold suppressed_entry; by rewrite Hci|].
      destruct Hs as [[-> Es]|(Hi' & es & Es & Hes)].
      * rewrite Z.eqb_refl. by apply Hfirst.
      * destruct (Z.eqb_spec i 0); [lia|]. by rewrite Es.
  - destruct Hr as [Eg Hs]. rewrite Eg, bool_decide_false by (by intros []).
    destruct (Z.ltb_spec i (RevokeAfter (cfg f))); [lia|].
    destruct (Z.leb_spec (i + 1) (RevokeAfter (cfg f))); [lia|]. cbn [andb].
    split_and!; [done..|by exists e|done|done].
Qed.

Lemma checks_from i auth t0 ts s :
  0 <= i → T <= t0 + GoodTTL (cfg f) → StronglySorted Z.le (t0 :: ts) → Forall (λ t, t < T) ts →
  up s → after_checks i (look t0 s) →
  (checks ip auth ts s).1 =
    imap (λ j _, if i + Z.of_nat j <? RevokeAfter (cfg f) then allow else enforce f reason auth) ts.
Proof.
  revert i t0 s. induction ts as [|t ts IH]; intros i t0 s Hi HT Hs Hlt Hup Hst; [done|].
  apply StronglySorted_inv in Hs as [Hs Hle]. apply Forall_cons in Hle as [Hle _].
  apply Forall_cons in Hlt as [Hlt Hlts]. cbn [checks].
  destruct (known_good_step i auth t s) as (s' & -> & Hup' & Hst'); [done|lia|done|by eapply after_checks_later|].
  specialize (IH (i + 1) t s'). destruct (checks ip auth ts s') as [vs s'']. cbn [fst] in *.
  rewrite imap_cons, Z.add_0_r, IH; [|lia|lia|done..]. f_equal. apply imap_ext. intros j x _. cbn.
  by replace (i + 1 + Z.of_nat j) with (i + Z.of_nat (S j)) by lia.
Qed.
End KnownGood.

(** A peer whose ban is waved through because a user has logged in
    from its address is waved through exactly [RevokeAfter] times: of any
    sequence of checks made while the ban and the mark would last, the first
    [RevokeAfter] are allowed and every later one gets the ban. *)
Lemma known_good_bounded (ip reason v : string) (auth : bool) (t0 T : Z) (ts : list Z) (s : state R)
    (Hd : durations_ok) (Hup : up s) (Ha : Allowed (Some f) ip = false) (Hp : NormalizePrefix ip ≠ "")
    (Hkg : KnownGoodEnabled (cfg f) = true) (Hrev : 0 < RevokeAfter (cfg f) < 2 ^ 63 - 2)
    (Hban : holds_until T reason (look t0 s (keyBan +:+ NormalizePrefix ip)))
    (Hgood : holds_until T v (look t0 s (keyGood +:+ NormalizePrefix ip)))
    (Hnone : look t0 s (keySuppressed +:+ NormalizePrefix ip) = None)
    (HT : T <= t0 + GoodTTL (cfg f)) (Hsorted : StronglySorted Z.le (t0 :: ts)) (Hts : Forall (λ t, t < T) ts) :
  (checks ip auth ts s).1 =
    imap (λ i _, if Z.of_nat i <? RevokeAfter (cfg f) then allow else enforce f reason auth) ts.
Proof.
  apply (checks_from ip reason T Hd Ha Hp Hkg Hrev 0 auth t0); [done..|].
  split; [done|]. destruct (Z.leb_spec 0 (RevokeAfter (cfg f))); [|lia]. eauto.
Qed.

Lemma awaitFailDeadline_uniform delay elapsed :
  0 < delay → elapsed <= delay → awaitFailDeadline delay elapsed None = delay.
Proof.
  intros. unfold awaitFailDeadline. destruct (Z.leb_spec delay 0); [lia|].
  destruct (Z.leb_spec (delay - elapsed) 0); lia.
Qed.

(** A login as an account that does not exist, on a hosted domain,
    bans the client's address at once: it is refused where clients log in and
    only recorded on inbound SMTP. What the client sees, the answer and when it
    comes, is what it sees for any other failure that is not a lockout, a wrong
    password in particular, as long as the attempt is over by the deadline. *)
Lemma nonexistent_account_banned {M} `{SmManager M} (delay elapsed now : Z) (user password client : string)
    (m : M) (s : state R) (e : lerror)
    (Hu : user ≠ "") (Hpw : password ≠ "") (Hfail : (mgr_Login user password client m).1 = Err e)
    (He : e = mkLerror false true false) (Hdelay : 0 < delay) (Hel : elapsed <= delay)
    (Hd : durations_ok) (Hup : up s) (Ha : Allowed (Some f) client = false) (Hp : NormalizePrefix client ≠ "")
    (Hscope : AuthBanScope (cfg f) = AuthBanScopeAuthListeners)
    (Hstrikes : counter_ok (look now s (keyStrikes +:+ NormalizePrefix client)))
    (Hgood : look now s (keyGood +:+ NormalizePrefix client) = None)
    (Hsup : counter_ok (look now s (keySuppressed +:+ NormalizePrefix client))) :
  let srv := mkServer (Some f) delay in
  let '(r, at_, m', s') := Login srv user password client elapsed None now m s in
  Banned (Check (Some f) client true now s').1 = true ∧
  (Check (Some f) client false now s').1 = mkVerdict false 0 ReasonBanned true ∧
  at_ = delay ∧
  (∀ elapsed2 now2 m2 s2 e2, (mgr_Login user password client m2).1 = Err e2 → is_RateLimited e2 = false →
     elapsed2 <= delay → (Login srv user password client elapsed2 None now2 m2 s2).1.1 = (r, at_)).
Proof.
  assert (client ≠ "") as Hc by (intros ->; by apply Hp).
  destruct (Ban_spec client ReasonNonexistentAccount now s Hd Hup Ha Hp Hstrikes) as (s1 & Eban & Hup1 & Hl).
  unfold Login. rewrite decide_False by tauto. cbn zeta.
  destruct (mgr_Login user password client m) as [x m'] eqn:E. cbn [fst] in Hfail. subst x e.
  cbn [is_DomainNotHosted is_UserNotFound is_RateLimited andb filter_ authFailDelay].
  rewrite (bool_decide_false (client = "")) by done. cbn [negb]. rewrite Eban. cbn [snd].
  assert (∀ auth, (Check (Some f) client auth now s1).1 = enforce f ReasonNonexistentAccount auth) as Hv.
  { intros auth. rewrite Check_verdict; [|done..|].
    2:{ by rewrite Hl, !decide_False by key_ne. }
    unfold policy. rewrite Ha, bool_decide_false by done. cbn [orb]. rewrite Hl, decide_True by done.
    unfold known_good. rewrite Hl, !decide_False by key_ne. rewrite Hgood, (bool_decide_false (is_Some None)) by (by intros []).
    by rewrite andb_false_r. }
  rewrite !Hv. unfold enforce. rewrite (bool_decide_true (AuthBanScope (cfg f) = _)) by done.
  rewrite !awaitFailDeadline_uniform by done. split_and!; [done..|].
  intros elapsed2 now2 m2 s2 e2 Hf Hr Hle.
  destruct (mgr_Login user password client m2) as [x m2']. cbn [fst] in Hf. subst x.
  rewrite decide_False by tauto. cbn [fst]. by rewrite Hr, awaitFailDeadline_uniform.
Qed.
End Facts.

(** ** A Redis that behaves as documented *)
Module FakePeerRedis.
Notation kv := (gmap string entry).
Definition flook (t : Z) (r : kv) (k : string) : option entry := expire t (r !! k).
#[export] Instance fake : PeerRedis kv := {|
  rc_Get k t r := (Ok (fst <$> flook t r k), r);
  rc_Incr k t r :=
    match flook t r k with
    | None => (Ok 1, <[k := ("1", None)]> r)
    | Some (v, e) => match Atoi v with
                     | Some c => (Ok (c + 1), <[k := (fmt_d (c + 1), e)]> r)
                     | None => (Err "not an integer", r)
                     end
    end;
  rc_Expire k ttl t r :=
    match flook t r k with Some (v, _) => (None, <[k := (v, Some (t + ttl))]> r) | None => (None, r) end;
  rc_Set k v ttl t r := (None, <[k := (v, Some (t + ttl))]> r);
  rc_Del ks t r := (Ok (Z.of_nat (length (filter (λ k, is_Some (flook t r k)) ks))), foldr delete r ks);
  rc_TTL k t r := (Ok (match flook t r k with Some (_, Some x) => x - t | Some _ => -1 | None => -2 end), r);
  rc_Scan _ p t r :=
    (Ok (filter (λ k, HasPrefix k (TrimSuffix p "*") = true ∧ is_Some (flook t r k)) (map_to_list r).*1, 0), r);
|}.

Lemma expire_twice t t' o : t <= t' → expire t' (expire t o) = expire t' o.
Proof.
  intros. destruct o as [[v [x|]]|]; [|done..]. cbn.
  destruct (Z.ltb_spec t x) as [|Hx]; [done|]. cbn. by destruct (Z.ltb_spec t' x); [lia|].
Qed.
Lemma expire_keep t (v : string) ttl : 0 < ttl → expire t (Some (v, Some (t + ttl))) = Some (v, Some (t + ttl)).
Proof. intros. cbn. by destruct (Z.ltb_spec t (t + ttl)); [|lia]. Qed.
Lemma expire_same t o v e : expire t o = Some (v, e) → ∀ v', expire t (Some (v', e)) = Some (v', e).
Proof.
  destruct o as [[w [x|]]|]; cbn; [|by intros [= <- <-]|done].
  destruct (t <? x) eqn:E; [|done]. intros [= <- <-] v'. cbn. by rewrite E.
Qed.
Lemma flook_insert t (r : kv) k x k' :
  expire t (Some x) = Some x → flook t (<[k := x]> r) k' = if decide (k' = k) then Some x else flook t r k'.
Proof.
  intros Hx. unfold flook. destruct (decide (k' = k)) as [->|Hk].
  - by rewrite lookup_insert_eq.
  - by rewrite lookup_insert_ne.
Qed.

#[export] Program Instance fake_laws : PeerRedisLaws kv := {| rc_up _ := True; rc_look := flook |}.
Next Obligation. intros t t' r k Ht. unfold flook. by rewrite expire_twice. Qed.
Next Obligation. intros k t r _. by exists r. Qed.
Next Obligation.
  intros k t r c e _ [(E & -> & ->)|[E Hc]]; cbn; rewrite E.
  - eexists. split_and!; [done..|]. intros k'. by apply flook_insert.
  - rewrite Atoi_fmt_d by lia. eexists. split_and!; [done..|]. intros k'. apply flook_insert. by eapply expire_same.
Qed.
Next Obligation.
  intros k ttl t r v e _ E Ht _. cbn. rewrite E. eexists. split_and!; [done..|].
  intros k'. by apply flook_insert, expire_keep.
Qed.
Next Obligation. intros k v ttl t r _ Ht _. eexists. split_and!; [done..|]. intros k'. by apply flook_insert, expire_keep. Qed.
Next Obligation.
  intros ks t r _. eexists _, _. split_and!; [done..|]. intros k'. unfold flook.
  induction ks as [|k ks IH]; [done|]. cbn [foldr]. destruct (decide (k' = k)) as [->|Hk].
  - rewrite lookup_delete_eq, decide_True by set_solver. done.
  - rewrite lookup_delete_ne, IH by done. destruct (decide (k' ∈ ks)), (decide (k' ∈ k :: ks)); set_solver.
Qed.

Definition flt : Filter := mkFilter Defaults [].
Definition s0 : state kv := mkState ∅ (Some NewMetrics).
Lemma flt_durations : durations_ok flt.
Proof.
  split; (split; [done|]); [exists (30 * 24 * 3600)|exists (24 * 3600000)|exists (7 * 24 * 3600000)|exists 3600]; done.
Qed.
(** Every account is unknown. *)
#[export] Instance nobody : SmManager unit := {|
  mgr_Login _ _ _ m := (Err (mkLerror false true false), m);
  mgr_ValidateRecipient _ m := (Ok (true, false, false), m);
  mgr_Logout _ m := (None, m);
|}.
(** A known-good address with a ban. *)
Definition s_good : state kv :=
  mkState {["peer:ban:192.0.2.7" := ("abuse:relay_denied", None); "peer:good:192.0.2.7" := ("3", None)]} None.
End FakePeerRedis.

Section OnFakePeerRedis.
Import FakePeerRedis.

Lemma ban_enforced_witness :
  ∃ s1, Ban (Some flt) "192.0.2.7" ReasonManual 100 s0 = (None, s1) ∧
        Banned (Check (Some flt) "192.0.2.7" false 200 s1).1 = true ∧
        (Check (Some flt) "192.0.2.8" false 200 s1).1 = (Check (Some flt) "192.0.2.8" false 200 s0).1.
Proof.
  destruct (ban_enforced flt "192.0.2.7" ReasonManual 100 s0) as (s1 & E & _ & Hin & Hout).
  - apply flt_durations.
  - exact I.
  - vm_compute. reflexivity.
  - vm_compute. discriminate.
  - left. vm_compute. reflexivity.
  - exists s1. split; [exact E|]. split.
    + rewrite Hin; [vm_compute; reflexivity|vm_compute; reflexivity|vm_compute; reflexivity|lia|
        vm_compute; reflexivity|left; vm_compute; reflexivity].
    + apply Hout; [vm_compute; discriminate|lia|left; vm_compute; reflexivity].
Defined.

Lemma known_good_bounded_example :
  (checks flt "192.0.2.7" true (replicate 12 50) s_good).1 =
    imap (λ i _, if Z.of_nat i <? 10 then allow else enforce flt "abuse:relay_denied" true) (replicate 12 50).
Proof.
  apply (known_good_bounded flt "192.0.2.7" "abuse:relay_denied" "3" true 50 100).
  - apply flt_durations.
  - exact I.
  - vm_compute. reflexivity.
  - vm_compute. discriminate.
  - reflexivity.
  - vm_compute. split; reflexivity.
  - exists None. split; [vm_compute; reflexivity|exact I].
  - exists None. split; [vm_compute; reflexivity|exact I].
  - vm_compute. reflexivity.
  - vm_compute. discriminate.
  - cbn [replicate]. repeat first [apply SSorted_nil | apply SSorted_cons | apply Forall_nil_2 | apply Forall_cons; split | lia].
  - cbn [replicate]. repeat first [apply Forall_nil_2 | apply Forall_cons; split | lia].
Defined.

Lemma nonexistent_account_banned_example :
  let '(r, at_, _, s') := Login (mkServer (Some flt) Second) "ghost@x" "pw" "192.0.2.7" 7 None 100 () s0 in
  Banned (Check (Some flt) "192.0.2.7" true 100 s').1 = true ∧ at_ = Second.
Proof.
  pose proof (nonexistent_account_banned flt Second 7 100 "ghost@x" "pw" "192.0.2.7" () s0 (mkLerror false true false)) as Ht.
  cbn zeta in Ht.
  destruct (Login (mkServer (Some flt) Second) "ghost@x" "pw" "192.0.2.7" 7 None 100 () s0) as [[[r at_] m'] s'].
  destruct Ht as (Hb & _ & Hat & _); [discriminate|discriminate|reflexivity|reflexivity|done|done|apply flt_durations|exact I| | | | | | |].
  - vm_compute. reflexivity.
  - vm_compute. discriminate.
  - reflexivity.
  - left. vm_compute. reflexivity.
  - vm_compute. reflexivity.
  - left. vm_compute. reflexivity.
  - split; [exact Hb|exact Hat].
Defined.

(** A burst that goes on for one report past the threshold is already taken
    for a repeat offence. *)
Fixpoint reports (n : nat) (s : state kv) : state kv :=
  match n with
  | O => s
  | S n => reports n (Report (Some flt) "192.0.2.7" RelayDenied 100 s).2
  end.
Lemma burst_escalates :
  look 100 (reports 4 s0) "peer:ban:192.0.2.7" = None ∧
  look 100 (reports 5 s0) "peer:ban:192.0.2.7" = Some ("abuse:relay_denied", Some (100 + 24 * Hour)) ∧
  look 100 (reports 6 s0) "peer:ban:192.0.2.7" = Some ("abuse:relay_denied", Some (100 + 7 * 24 * Hour)).
Proof. by vm_compute. Qed.

(** A check of a known-good peer writes to Redis. *)
Lemma check_writes :
  look 50 s_good "peer:suppressed:192.0.2.7" = None ∧
  look 50 (Check (Some flt) "192.0.2.7" true 50 s_good).2 "peer:suppressed:192.0.2.7"
    = Some ("1", Some (50 + 30 * 24 * Hour)).
Proof. by vm_compute. Qed.
End OnFakePeerRedis.

(** A tarpit of zero written in another unit is replaced by the default. *)
Lemma zero_tarpit_defaulted :
  let parse : GoDuration := λ s, if decide (s = "0ms" ∨ s = "0s") then Some 0 else None in
  let c str := mkConfig None [] 0 "" 0 "" 0 str None 0 "" None 0 "" "" 0 in
  (match @Normalize parse (c "0s") with Ok c => AcceptTarpit c | Err _ => -1 end) = 0 ∧
  (match @Normalize parse (c "0ms") with Ok c => AcceptTarpit c | Err _ => -1 end) = 30 * Second.
Proof. by vm_compute. Qed.

(** The label values of the metrics are bounded whatever is reported. *)
Lemma labels_bounded reason signal n :
  banReasonLabel reason ∈ [ReasonNonexistentAccount; ReasonManual; ReasonAbuse; reasonOther] ∧
  signalLabel signal ∈ signalOther :: All ∧ strikeLabel n ∈ ["1"; "2"; "3+"].
Proof.
  unfold banReasonLabel, signalLabel, strikeLabel. split_and!.
  - destruct (decide _) as [[->| ->]|]; [set_solver..|]. destruct (_ || _); set_solver.
  - destruct (decide _); set_solver.
  - destruct (_ <=? _); [|destruct (_ =? _)]; set_solver.
Qed.

(** Addresses of one /64 share their prefix. *)
Example one_prefix :
  NormalizePrefix "2001:db8::1" = "2001:db8::/64" ∧ NormalizePrefix "2001:db8::ffff:1" = "2001:db8::/64" ∧
  NormalizePrefix "::ffff:192.0.2.7" = "192.0.2.7" ∧ NormalizePrefix "nonsense" = "".
Proof. by vm_compute. Qed.
