(* ===== verification/FilePath.v ===== *)
(** * File paths

    [filepath.Clean] and [filepath.Join] on Unix, as Go defines them: lexical
    processing only. *)
From S2P Require Import Prelude GoStrings.
From Stdlib Require Import ZArith Ascii Lia.
Open Scope string_scope.
Open Scope list_scope.

Definition slash : ascii := "/"%char.

(** The elements kept so far, innermost first. *)
Fixpoint clean_elems (rooted : bool) (stack : list string) (elems : list string) : list string :=
  match elems with
  | [] => reverse stack
  | e :: rest =>
      if decide (e = "" ∨ e = ".") then clean_elems rooted stack rest
      else if decide (e = "..") then
        match stack with
        | top :: stack' => if decide (top = "..") then clean_elems rooted (e :: stack) rest
                           else clean_elems rooted stack' rest
        | [] => if rooted then clean_elems rooted [] rest
                else clean_elems rooted [e] rest
        end
      else clean_elems rooted (e :: stack) rest
  end.

Definition Clean (path : string) : string :=
  let rooted := HasPrefix path "/" in
  let out := (if rooted then "/" else "") +:+ sjoin "/" (clean_elems rooted [] (Split slash path)) in
  if decide (out = "") then "." else out.

(** [filepath.Join]: empty leading elements are dropped. *)
Fixpoint Join (elems : list string) : string :=
  match elems with
  | [] => ""
  | e :: rest => if decide (e = "") then Join rest else Clean (sjoin "/" elems)
  end.

Example clean1 : Clean "/a/b/../c//./d" = "/a/c/d".
Proof. reflexivity. Qed.
Example clean2 : Clean "/.." = "/" ∧ Clean "" = "." ∧ Clean "a/../.." = "..".
Proof. by split_and!. Qed.
Example join1 : Join ["/srv/d"; "../x"] = "/srv/x" ∧ Join [""; "a"; ""] = "a".
Proof. by split. Qed.

(** ** Paths that end in a plain element *)
Definition plain_elem (e : string) : Prop :=
  no_byte slash e ∧ e ≠ "" ∧ e ≠ "." ∧ e ≠ "..".

Lemma clean_elems_snoc rooted stack es e :
  plain_elem e → ∃ xs, clean_elems rooted stack (es ++ [e]) = xs ++ [e].
Proof.
  intros (_ & H1 & H2 & H3). revert stack. induction es as [|x es IH]; intros stack.
  - exists (reverse stack). cbn [app clean_elems]. rewrite decide_False by naive_solver.
    rewrite decide_False by done. by rewrite reverse_cons.
  - cbn [app clean_elems]. destruct (decide (x = "" ∨ x = ".")); [by apply IH|].
    destruct (decide (x = "..")); [|by apply IH].
    destruct stack as [|t stack]; [destruct rooted; by apply IH|].
    destruct (decide (t = "..")); by apply IH.
Qed.

Lemma Clean_snoc s e : plain_elem e → ∃ p, Clean (s +:+ String slash e) = p +:+ e.
Proof.
  intros He. unfold Clean. rewrite Split_app_r by apply He.
  set (rooted := HasPrefix _ _).
  destruct (clean_elems_snoc rooted [] (Split slash s) e He) as [xs ->].
  assert (∃ q, sjoin "/" (xs ++ [e]) = q +:+ e) as [q ->].
  { destruct (decide (xs = [])) as [->|Hne]; [by exists ""|].
    rewrite sjoin_snoc by done. eexists. by rewrite sapp_assoc. }
  rewrite sapp_assoc, decide_False; [by eexists|].
  intros E%(f_equal String.length). rewrite slen_app in E.
  destruct He as (_ & Hne & _). destruct e; [done|]. simpl in E. lia.
Qed.

(** [Join] of anything with a last plain element ends in that element. *)
Lemma Join_snoc es e : plain_elem e → ∃ p, Join (es ++ [e]) = p +:+ e.
Proof.
  intros He. induction es as [|x es IH].
  - destruct He as (Hs & H1 & H2 & H3). cbn [app Join]. rewrite decide_False by done.
    exists "". cbn [sjoin]. unfold Clean. rewrite Split_no_byte by done. cbn [clean_elems].
    rewrite (decide_False (P := e = "" ∨ e = ".")) by tauto.
    rewrite (decide_False (P := e = "..")) by done. cbn [reverse rev_append sjoin].
    destruct (HasPrefix e "/") eqn:Hp.
    + destruct e as [|c e]; [done|]. unfold HasPrefix in Hp; cbn [String.prefix] in Hp.
      destruct (ascii_dec "/" c) as [<-|]; [|done]. by apply no_byte_cons in Hs as [].
    + change ("" +:+ e) with e. by rewrite decide_False.
  - cbn [app Join]. destruct (decide (x = "")); [done|].
    change (x :: es ++ [e]) with ((x :: es) ++ [e]). rewrite sjoin_snoc by done.
    change ("/" +:+ e) with (String slash e). by apply Clean_snoc.
Qed.

Lemma Join_slast n es e :
  plain_elem e → (n ≤ String.length e)%nat → slast n (Join (es ++ [e])) = slast n e.
Proof. intros He Hn. destruct (Join_snoc es e He) as [p ->]. by apply slast_app. Qed.

(** ** Joining in steps *)
(** Stacks that cleaning produces, innermost element first. *)
Inductive norm_stack (rooted : bool) : list string → Prop :=
| norm_nil : norm_stack rooted []
| norm_elem e st : e ≠ "" → e ≠ "." → e ≠ ".." → no_byte slash e →
    norm_stack rooted st → norm_stack rooted (e :: st)
| norm_up st : rooted = false → norm_stack rooted st →
    (st = [] ∨ head st = Some "..") → norm_stack rooted (".." :: st).

Lemma clean_elems_app rooted st xs ys :
  clean_elems rooted st (xs ++ ys) =
  clean_elems rooted (reverse (clean_elems rooted st xs)) ys.
Proof.
  revert st. induction xs as [|x xs IH]; intros st; cbn [app clean_elems].
  - by rewrite reverse_involutive.
  - destruct (decide (x = "" ∨ x = ".")); [apply IH|]. destruct (decide (x = "..")); [|apply IH].
    destruct st as [|t st]; [destruct rooted; apply IH|]. destruct (decide (t = "..")); apply IH.
Qed.

Lemma clean_elems_norm rooted st xs :
  norm_stack rooted st → Forall (no_byte slash) xs →
  norm_stack rooted (reverse (clean_elems rooted st xs)).
Proof.
  intros Hst Hxs. revert st Hst. induction Hxs as [|x xs Hx Hxs IH]; intros st Hst; cbn [clean_elems].
  { by rewrite reverse_involutive. }
  destruct (decide (x = "" ∨ x = ".")) as [|Hd]; [by apply IH|].
  destruct (decide (x = "..")) as [->|].
  - destruct st as [|t st].
    + destruct rooted eqn:Hr; apply IH; [constructor|]. by apply norm_up; [|constructor|left].
    + destruct (decide (t = "..")) as [->|].
      * apply IH. apply norm_up; [|done|by right]. inversion Hst; subst; done.
      * apply IH. inversion Hst; subst; done.
  - apply IH. constructor; tauto.
Qed.

Lemma clean_elems_fixed rooted st :
  norm_stack rooted st → clean_elems rooted [] (reverse st) = reverse st.
Proof.
  induction 1 as [|e st H1 H2 H3 _ _ IH|st Hr Hst IH Hh]; [done|..].
  - rewrite reverse_cons, clean_elems_app, IH, reverse_involutive. cbn [clean_elems].
    rewrite (decide_False (P := e = "" ∨ e = ".")) by tauto.
    rewrite (decide_False (P := e = "..")) by done. by rewrite reverse_cons.
  - rewrite reverse_cons, clean_elems_app, IH, reverse_involutive. cbn [clean_elems].
    rewrite (decide_False (P := ".." = "" ∨ ".." = ".")) by naive_solver.
    rewrite (decide_True (P := ".." = "..")) by done. subst rooted.
    destruct Hh as [->|Hh]; [done|]. destruct st as [|t st]; [done|]. injection Hh as ->.
    rewrite decide_True by done. by rewrite !reverse_cons.
Qed.

Lemma norm_stack_no_slash rooted st :
  norm_stack rooted st → Forall (no_byte slash) st ∧ Forall (λ e, e ≠ "") st.
Proof. induction 1 as [| |? ? ? [? ?]]; split; repeat constructor; naive_solver. Qed.

Lemma Split_sjoin_slash es :
  es ≠ [] → Forall (no_byte slash) es → Split slash (sjoin "/" es) = es.
Proof.
  intros Hne Hes. induction Hes as [|e es He Hes IH]; [done|]. destruct es as [|e' es].
  - by apply Split_no_byte.
  - rewrite sjoin_cons. change (e +:+ "/" +:+ ?x) with (e +:+ String slash x).
    rewrite Split_app by done. by rewrite IH.
Qed.

Lemma HasPrefix_slash c s : HasPrefix (String c s) "/" = Ascii.eqb c slash.
Proof.
  unfold HasPrefix. cbn [String.prefix]. destruct (ascii_dec "/" c) as [<-|Hc].
  - rewrite Ascii.eqb_refl. by destruct s.
  - symmetry. by apply Ascii.eqb_neq.
Qed.

Definition clean_list (x : string) : list string :=
  clean_elems (HasPrefix x "/") [] (Split slash x).

Lemma clean_list_norm x : norm_stack (HasPrefix x "/") (reverse (clean_list x)).
Proof. apply clean_elems_norm; [constructor|apply Split_elem_no_byte]. Qed.

Lemma clean_list_elems x : Forall (no_byte slash) (clean_list x) ∧ Forall (λ e, e ≠ "") (clean_list x).
Proof.
  destruct (norm_stack_no_slash _ _ (clean_list_norm x)) as [H1 H2].
  split; [rewrite <-(reverse_involutive (clean_list x))..]; by apply Forall_reverse.
Qed.

(** Cleaning is idempotent on the elements, and keeps the root. *)
Lemma Clean_facts x :
  HasPrefix (Clean x) "/" = HasPrefix x "/" ∧ Clean x ≠ "" ∧
  ∀ st, clean_elems (HasPrefix x "/") st (Split slash (Clean x)) =
        clean_elems (HasPrefix x "/") st (clean_list x).
Proof.
  unfold Clean. fold (clean_list x). destruct (clean_list_elems x) as [Hs Hn].
  destruct (HasPrefix x "/") eqn:Hr.
  - change ("/" +:+ ?s) with (String slash s). rewrite decide_False by done.
    rewrite HasPrefix_slash. split_and!; [done|done|]. intros st. cbn [Split].
    rewrite Ascii.eqb_refl. cbn [clean_elems]. rewrite decide_True by (by left).
    destruct (clean_list x) as [|e es] eqn:E; [cbn; by rewrite decide_True by (by left)|].
    by rewrite Split_sjoin_slash.
  - change ("" +:+ ?s) with s. destruct (clean_list x) as [|e es] eqn:E.
    { by split_and!. }
    rewrite <-E in *. assert (clean_list x ≠ []) as Hne by (by rewrite E).
    assert (∃ c s, sjoin "/" (clean_list x) = String c s ∧ c ≠ slash) as (c & s & Hc & Hcs).
    { rewrite E in *. apply Forall_cons in Hs as [Hs _], Hn as [Hn _].
      destruct e as [|c e]; [done|]. apply no_byte_cons in Hs as [Hcs _].
      destruct es as [|e' es]; [by eexists _, _|]. rewrite sjoin_cons. by eexists _, _. }
    rewrite decide_False by (by rewrite Hc). rewrite Hc, HasPrefix_slash.
    split_and!; [by apply Ascii.eqb_neq|done|]. intros st. rewrite <-Hc.
    by rewrite Split_sjoin_slash.
Qed.

Lemma Split_slash_app s t : Split slash (s +:+ String slash t) = Split slash s ++ Split slash t.
Proof.
  induction s as [|d s IH].
  - change ("" +:+ String slash t) with (String slash t). cbn [Split]. by rewrite Ascii.eqb_refl.
  - change (String d s +:+ String slash t) with (String d (s +:+ String slash t)). cbn [Split].
    rewrite IH. destruct (Ascii.eqb d slash); [done|].
    destruct (Split slash s) as [|x xs] eqn:E; [by destruct (Split_nonempty slash s)|done].
Qed.

Lemma HasPrefix_slash_app x t : x ≠ "" → HasPrefix (x +:+ t) "/" = HasPrefix x "/".
Proof.
  destruct x as [|c x]; [done|]. intros _. change (String c x +:+ t) with (String c (x +:+ t)).
  by rewrite !HasPrefix_slash.
Qed.

Lemma Clean_join x y :
  x ≠ "" → Clean (Clean x +:+ String slash y) = Clean (x +:+ String slash y).
Proof.
  intros Hx. destruct (Clean_facts x) as (Hr & Hne & Hf). unfold Clean at 1 3.
  rewrite !HasPrefix_slash_app, Hr by done. rewrite !Split_slash_app, !clean_elems_app.
  rewrite Hf. unfold clean_list. rewrite <-(reverse_involutive (clean_elems _ [] (Split slash x))).
  by rewrite clean_elems_fixed by apply clean_list_norm.
Qed.

(** Joining the first elements beforehand changes nothing. *)
Lemma Join_Join a b rest :
  a ≠ "" → rest ≠ [] → Join (Join [a; b] :: rest) = Join (a :: b :: rest).
Proof.
  intros Ha Hr. destruct rest as [|r rest]; [done|]. cbn [Join].
  rewrite !(decide_False (P := a = "")) by done.
  assert (sjoin "/" [a; b] ≠ "") as Hab.
  { rewrite sjoin_cons. intros E%(f_equal String.length). rewrite slen_app in E. simpl in E. lia. }
  destruct (Clean_facts (sjoin "/" [a; b])) as (_ & Hne & _).
  rewrite decide_False by done. rewrite !sjoin_cons.
  change (sjoin "/" [b]) with b in *. rewrite sjoin_cons in Hab. change (sjoin "/" [b]) with b in Hab.
  change ("/" +:+ ?x) with (String slash x) in *. rewrite Clean_join by done.
  by rewrite <-!sapp_assoc.
Qed.
