(* ===== verification/Forwards.v ===== *)
(** * Mail forwarding rules

    src/auth/forwards/forwards.go (rule files and tables) and the forwarding
    chain and mail auth agent of src/auth/domain/forwarding.go. The file system
    is a function from paths to what opening them gives; the inner
    authentication agent's answer is an argument. Warnings are left out. *)
From S2P Require Import Prelude GoStrings FilePath.
From Stdlib Require Import ZArith Lia Ascii.
Open Scope string_scope.
Open Scope list_scope.

Inductive fileres := NotExist | OpenError | Contents (data : string).
Definition filesystem := string → fileres.

Inductive fwd_error := ErrOpen | ErrRead.

Record ForwardMap := mkForwards {
  exact : gmap string (list string);
  catchall : list string;
}.

Section Load.
Context `{UnicodeCase}.

(** The target list of a rule's value. *)
Definition parse_targets (value : string) : list string :=
  omap (λ t, let t := TrimSpace (ToLower t) in if decide (t = "") then None else Some t)
    (Split "," value).

Definition add_rule (m : ForwardMap) (key : string) (targets : list string) : ForwardMap :=
  match targets with
  | [] => m
  | _ => if decide (key = "*") then mkForwards (exact m) targets
         else mkForwards (<[key := targets]> (exact m)) (catchall m)
  end.

(** One iteration of [Load]'s scanner loop. *)
Definition load_line (m : ForwardMap) (text : string) : ForwardMap :=
  let line := TrimSpace text in
  if decide (line = "") then m
  else if HasPrefix line "#" then m
  else match cut ":" line with
       | None => m
       | Some (key, value) => add_rule m (TrimSpace (ToLower key)) (parse_targets value)
       end.

Definition empty_forwards : ForwardMap := mkForwards ∅ [].

Definition Load (fs : filesystem) (path : string) : result ForwardMap fwd_error :=
  match fs path with
  | NotExist => Ok empty_forwards
  | OpenError => Err ErrOpen
  | Contents data =>
      let '(lines, e) := ScanLines data in
      match e with
      | ScanTooLong => Err ErrRead
      | ScanEOF => Ok (foldl load_line empty_forwards lines)
      end
  end.

Definition target_line (text : string) : option string :=
  let t := TrimSpace (ToLower text) in
  if decide (t = "") then None else if HasPrefix t "#" then None else Some t.

Definition LoadTargets (fs : filesystem) (path : string) : result (list string) fwd_error :=
  match fs path with
  | NotExist => Ok []
  | OpenError => Err ErrOpen
  | Contents data =>
      let '(lines, e) := ScanLines data in
      match e with
      | ScanTooLong => Err ErrRead
      | ScanEOF => Ok (omap target_line lines)
      end
  end.

(** [FromMap]; the list is the order in which [range] visits the map. *)
Definition from_rule (m : ForwardMap) (kv : string * string) : ForwardMap :=
  match parse_targets kv.2 with
  | [] => m
  | targets => if decide (kv.1 = "*") then mkForwards (exact m) targets
               else mkForwards (<[ToLower kv.1 := targets]> (exact m)) (catchall m)
  end.
Definition FromMap (m : list (string * string)) : ForwardMap := foldl from_rule empty_forwards m.

(** The methods; a nil map is [None]. *)
Definition Resolve (om : option ForwardMap) (localpart : string) : option (list string) :=
  match om with
  | None => None
  | Some m =>
      match exact m !! ToLower localpart with
      | Some targets => Some targets
      | None => match catchall m with [] => None | ts => Some ts end
      end
  end.

Definition UserExists (om : option ForwardMap) (localpart : string) : bool :=
  match Resolve om localpart with Some _ => true | None => false end.

Definition HasExact (om : option ForwardMap) (localpart : string) : bool :=
  match om with
  | None => false
  | Some m => bool_decide (is_Some (exact m !! ToLower localpart))
  end.

Definition Catchall (om : option ForwardMap) : option (list string) :=
  match om with
  | None => None
  | Some m => match catchall m with [] => None | ts => Some ts end
  end.

Definition Empty (om : option ForwardMap) : bool :=
  match om with
  | None => true
  | Some m => bool_decide (exact m = ∅) && bool_decide (catchall m = [])
  end.

(** ** The chain *)
Record forwardChain := mkChain {
  adminForwards : option ForwardMap;
  domainForwards : option ForwardMap;
  userForwardsDir : string;
  defaultForwards : option ForwardMap;
}.

Definition user_tier (fs : filesystem) (dir localpart : string) : option (list string) :=
  if decide (dir = "") then None
  else match LoadTargets fs (Join [dir; localpart]) with
       | Ok [] | Err _ => None
       | Ok targets => Some targets
       end.

Definition resolve (c : forwardChain) (fs : filesystem) (localpart : string)
    : option (list string) :=
  match Resolve (adminForwards c) localpart with
  | Some ts => Some ts
  | None =>
  match Resolve (domainForwards c) localpart with
  | Some ts => Some ts
  | None =>
  match user_tier fs (userForwardsDir c) localpart with
  | Some ts => Some ts
  | None => Resolve (defaultForwards c) localpart
  end end end.

(** [mailAuthAgent.UserExists] over the inner agent's answer. *)
Definition agent_UserExists {E} (inner : result bool E) (c : forwardChain) (fs : filesystem)
    (user : string) : result bool E :=
  match inner with
  | Err e => Err e
  | Ok true => Ok true
  | Ok false => Ok (match resolve c fs user with Some _ => true | None => false end)
  end.
End Load.

(** ** Every stored target list is usable *)
Section Facts.
Context `{UnicodeCase}.

Definition map_wf (m : ForwardMap) : Prop :=
  (∀ k ts, exact m !! k = Some ts → ts ≠ [] ∧ "" ∉ ts) ∧ "" ∉ catchall m.

Lemma parse_targets_nonempty v : "" ∉ parse_targets v.
Proof.
  unfold parse_targets. rewrite list_elem_of_omap. intros (t & _ & Ht).
  by case_decide; simplify_eq.
Qed.

Lemma add_rule_wf m k ts : map_wf m → "" ∉ ts → map_wf (add_rule m k ts).
Proof.
  intros [He Hc] Hts. unfold add_rule. destruct ts as [|t ts]; [done|].
  case_decide; split; simpl; try done. intros k' ts'.
  destruct (decide (k' = k)) as [->|].
  - rewrite lookup_insert_eq. by intros [= <-].
  - rewrite lookup_insert_ne by done. apply He.
Qed.

Lemma empty_wf : map_wf empty_forwards.
Proof. split; simpl; [done|apply not_elem_of_nil]. Qed.

Lemma Load_wf fs path m : Load fs path = Ok m → map_wf m.
Proof.
  unfold Load. destruct (fs path) as [| |data]; [intros [= <-]; apply empty_wf|done|].
  destruct (ScanLines data) as [lines []]; [|done]. intros [= <-].
  generalize empty_wf. generalize empty_forwards. induction lines as [|l ls IH]; intros m Hm;
    simpl; [done|]. apply IH. unfold load_line.
  repeat case_match; try done. apply add_rule_wf; [done|apply parse_targets_nonempty].
Qed.

Lemma FromMap_wf kvs : map_wf (FromMap kvs).
Proof.
  unfold FromMap. generalize empty_wf. generalize empty_forwards.
  induction kvs as [|[k v] kvs IH]; intros m Hm; simpl; [done|]. apply IH.
  unfold from_rule. simpl. pose proof (parse_targets_nonempty v) as Hv.
  destruct (parse_targets v) as [|t ts]; [done|].
  pose proof (add_rule_wf m (ToLower k) (t :: ts) Hm Hv) as H1.
  case_decide; [by split; [apply Hm|]|]. destruct Hm as [He Hc]. split; simpl; [|done].
  intros k' ts'. destruct (decide (k' = ToLower k)) as [->|].
  - rewrite lookup_insert_eq. by intros [= <-].
  - rewrite lookup_insert_ne by done. apply He.
Qed.

Lemma LoadTargets_nonempty fs path ts : LoadTargets fs path = Ok ts → "" ∉ ts.
Proof.
  unfold LoadTargets. destruct (fs path) as [| |data]; [intros [= <-]; apply not_elem_of_nil|done|].
  destruct (ScanLines data) as [lines []]; [|done]. intros [= <-].
  rewrite list_elem_of_omap. intros (t & _ & Ht). unfold target_line in Ht.
  repeat case_decide; simplify_eq. by case_match; simplify_eq.
Qed.

Definition loaded (om : option ForwardMap) : Prop := ∀ m, om = Some m → map_wf m.

Lemma Resolve_wf om lp ts : loaded om → Resolve om lp = Some ts → ts ≠ [] ∧ "" ∉ ts.
Proof.
  intros Hl. unfold Resolve. destruct om as [m|]; [|done]. destruct (Hl m eq_refl) as [He Hc].
  destruct (exact m !! ToLower lp) eqn:E; [intros [= <-]; by eapply He|].
  destruct (catchall m); [done|]. by intros [= <-].
Qed.

(** Whatever the rule files and tables contain, a forward that resolves
    has at least one target and no empty one; and the tiers cannot be
    overridden from below: when the administrator's table or the domain's file
    matches (exactly or by its catch-all), the result does not depend on any
    user's file. *)
Lemma forward_resolution c fs fs' lp :
  loaded (adminForwards c) → loaded (domainForwards c) → loaded (defaultForwards c) →
  (∀ ts, resolve c fs lp = Some ts → ts ≠ [] ∧ "" ∉ ts) ∧
  (Resolve (adminForwards c) lp ≠ None ∨ Resolve (domainForwards c) lp ≠ None →
   resolve c fs lp = resolve c fs' lp ∧
   resolve c fs lp = match Resolve (adminForwards c) lp with
                     | Some ts => Some ts
                     | None => Resolve (domainForwards c) lp
                     end).
Proof.
  intros Ha Hd Hdef. unfold resolve. split.
  - intros ts. destruct (Resolve (adminForwards c) lp) eqn:Ea;
      [intros [= <-]; exact (Resolve_wf _ _ _ Ha Ea)|].
    destruct (Resolve (domainForwards c) lp) eqn:Ed;
      [intros [= <-]; exact (Resolve_wf _ _ _ Hd Ed)|].
    destruct (user_tier fs (userForwardsDir c) lp) as [us|] eqn:Eu;
      [|intros Er; exact (Resolve_wf _ _ _ Hdef Er)].
    intros [= <-]. unfold user_tier in Eu. case_decide; [done|].
    destruct (LoadTargets fs (Join [userForwardsDir c; lp])) as [[|t us']|] eqn:El;
      simplify_eq. split; [done|]. by eapply LoadTargets_nonempty.
  - intros Hm. destruct (Resolve (adminForwards c) lp); [done|].
    destruct (Resolve (domainForwards c) lp); [done|]. naive_solver.
Qed.
End Facts.

(** ** Reading back a rule file *)
(** A name or address as it appears in a rule file: visible ASCII, no capital,
    no separator. *)
Definition word_byte (c : ascii) : bool :=
  plain_byte c && negb (is_upper c) && negb (Ascii.eqb c ":") && negb (Ascii.eqb c ",")
  && negb (Ascii.eqb c "#").
Definition word (s : string) : Prop := s ≠ "" ∧ sforall word_byte s = true.

Definition render_rule (r : string * list string) : string :=
  r.1 +:+ String ":" (sjoin "," r.2).

Lemma ToLower_word `{UnicodeCase} s :
  sforall (λ c, plain_byte c && negb (is_upper c)) s = true → ToLower s = s.
Proof.
  intros Hs. unfold ToLower.
  assert (sforall is_ascii_byte s = true) as ->.
  { eapply sforall_impl, Hs. intros c [Hc _]%andb_prop. unfold plain_byte in Hc.
    apply andb_prop in Hc as [_ Hc]. exact Hc. }
  induction s as [|c s IH]; [done|]. simpl in *. apply andb_prop in Hs as [Hc Hs].
  rewrite IH by done. unfold down. apply andb_prop in Hc as [_ Hc].
  by rewrite (proj1 (negb_true_iff _) Hc).
Qed.

Lemma word_byte_plain c : word_byte c = true → plain_byte c && negb (is_upper c) = true.
Proof. unfold word_byte. by destruct (plain_byte c), (is_upper c). Qed.

Lemma word_plain s : sforall word_byte s = true → sforall plain_byte s = true.
Proof.
  apply sforall_impl. intros c Hc%word_byte_plain. by apply andb_prop in Hc as [? _].
Qed.

Lemma word_lower `{UnicodeCase} s : sforall word_byte s = true → ToLower s = s.
Proof. intros Hs. apply ToLower_word. eapply sforall_impl, Hs. apply word_byte_plain. Qed.

Lemma word_no c s : word_byte c = false → sforall word_byte s = true → no_byte c s.
Proof. apply sforall_no_byte. Qed.

Lemma Split_sjoin l : l ≠ [] → Forall word l → Split "," (sjoin "," l) = l.
Proof.
  intros Hne Hl. induction Hl as [|w ws [_ Hw] Hws IH]; [done|]. destruct ws as [|w' ws].
  - apply Split_no_byte. by apply word_no.
  - rewrite sjoin_cons. change (w +:+ "," +:+ sjoin "," (w' :: ws))
      with (w +:+ String "," (sjoin "," (w' :: ws))).
    rewrite Split_app by (by apply word_no). by rewrite IH.
Qed.

Lemma sjoin_plain l : Forall word l → sforall plain_byte (sjoin "," l) = true.
Proof.
  induction 1 as [|w ws [_ Hw] Hws IH]; [done|]. destruct ws as [|w' ws].
  - by apply word_plain.
  - rewrite sjoin_cons, !sforall_app, IH, word_plain by done. done.
Qed.

Lemma parse_targets_sjoin `{UnicodeCase} l :
  l ≠ [] → Forall word l → parse_targets (sjoin "," l) = l.
Proof.
  intros Hne Hl. unfold parse_targets. rewrite Split_sjoin by done. clear Hne.
  induction Hl as [|w ws [Hne Hw] _ IH]; [done|]. simpl.
  rewrite word_lower, TrimSpace_plain by (by try apply word_plain).
  rewrite decide_False by done. by f_equal.
Qed.

(** A rule of the file: a key ("*" or a name) and its targets. *)
Definition rule_ok (r : string * list string) : Prop :=
  word r.1 ∧ r.2 ≠ [] ∧ Forall word r.2 ∧ too_long (render_rule r) = false.

Lemma load_rule `{UnicodeCase} m r : rule_ok r → load_line m (render_rule r) = add_rule m r.1 r.2.
Proof.
  destruct r as [k ts]. intros ([Hne Hk] & Hts & Hw & _). unfold load_line, render_rule.
  cbn [fst snd] in *.
  assert (sforall plain_byte (k +:+ String ":" (sjoin "," ts)) = true) as Hp.
  { rewrite sforall_app, word_plain by done. simpl. by rewrite sjoin_plain. }
  rewrite TrimSpace_plain by done.
  destruct k as [|c k]; [done|]. rewrite decide_False by done.
  assert (HasPrefix (String c k +:+ String ":" (sjoin "," ts)) "#" = false) as ->.
  { simpl in Hk. apply andb_prop in Hk as [Hc _]. unfold HasPrefix. simpl.
    case_match; [|done]. subst. done. }
  rewrite cut_app by (by apply word_no). rewrite word_lower by done.
  rewrite TrimSpace_plain by (by apply word_plain). by rewrite parse_targets_sjoin.
Qed.

Lemma rule_scannable r : rule_ok r → scannable (render_rule r).
Proof.
  destruct r as [k ts]. intros ([_ Hk] & _ & Hw & Hl). unfold scannable, render_rule in *.
  cbn [fst snd] in *.
  assert (sforall plain_byte (k +:+ String ":" (sjoin "," ts)) = true) as Hp.
  { rewrite sforall_app, word_plain by done. simpl. by rewrite sjoin_plain. }
  split_and!; [..|done]; by eapply sforall_no_byte, Hp.
Qed.

Notation rule_map rules := (list_to_map rules : gmap string (list string)).

Lemma rule_map_snoc (rules : list (string * list string)) r k :
  r.1 ∉ rules.*1 →
  rule_map (rules ++ [r]) !! k = if decide (k = r.1) then Some r.2 else rule_map rules !! k.
Proof.
  destruct r as [k0 ts]. simpl. intros Hk. rewrite list_to_map_app. simpl.
  rewrite insert_empty. case_decide as E; [subst k0|].
  - rewrite lookup_union_r by (by apply not_elem_of_list_to_map_1).
    by rewrite lookup_singleton_eq.
  - rewrite lookup_union_l; [done|]. by rewrite lookup_singleton_ne.
Qed.

Lemma add_rules (rules : list (string * list string)) :
  NoDup rules.*1 → Forall (λ r, r.2 ≠ []) rules →
  let m := foldl (λ m r, add_rule m r.1 r.2) empty_forwards rules in
  (∀ k, k ≠ "*" → exact m !! k = rule_map rules !! k) ∧
  catchall m = default [] (rule_map rules !! "*").
Proof.
  induction rules as [|r rules IH] using rev_ind; [done|]. intros Hnd Hne.
  rewrite fmap_app in Hnd. apply NoDup_app in Hnd as (Hnd & Hdis & _).
  assert (r.1 ∉ rules.*1) as Hr by (intros Hin; apply (Hdis _ Hin); by left).
  apply Forall_app in Hne as [Hne Hr2]. apply Forall_cons in Hr2 as [Hr2 _].
  destruct (IH Hnd Hne) as [He Hc]. cbn zeta. rewrite foldl_app. simpl.
  set (m := foldl _ _ rules) in *. rewrite rule_map_snoc by done.
  split.
  - intros k Hk. rewrite rule_map_snoc by done. unfold add_rule.
    destruct r as [k0 [|t ts]]; simpl in *; [done|].
    destruct (decide (k0 = "*")) as [->|]; simpl.
    + rewrite decide_False by done. by apply He.
    + destruct (decide (k = k0)) as [->|]; [by rewrite lookup_insert_eq|].
      rewrite lookup_insert_ne by done. by apply He.
  - unfold add_rule. destruct r as [k0 [|t ts]]; simpl in *; [done|].
    destruct (decide (k0 = "*")) as [->|]; simpl.
    + done.
    + by rewrite decide_False.
Qed.

(** A forwards file reads back as written: for a file with one rule per
    line (distinct names, at least one target each, lower-case words), loading
    succeeds, and a local part resolves, whatever its case, to exactly the
    targets its rule lists, else to the catch-all's, else to nothing. *)
Lemma forwards_file_roundtrip `{UnicodeCase} fs path rules :
  fs path = Contents (unlines LF (render_rule <$> rules)) →
  NoDup rules.*1 → Forall rule_ok rules →
  ∃ m, Load fs path = Ok m ∧ ∀ lp, ToLower lp ≠ "*" →
    Resolve (Some m) lp = match rule_map rules !! ToLower lp with
                          | Some ts => Some ts
                          | None => rule_map rules !! "*"
                          end.
Proof.
  intros Hfs Hnd Hok. unfold Load. rewrite Hfs, ScanLines_unlines.
  2:{ apply Forall_fmap. eapply Forall_impl; [exact Hok|]. intros r. apply rule_scannable. }
  eexists. split; [done|]. intros lp Hlp.
  assert (∀ m, foldl load_line m (render_rule <$> rules)
               = foldl (λ m r, add_rule m r.1 r.2) m rules) as ->.
  { clear Hfs Hnd. induction Hok as [|r rules Hr _ IH]; intros m; [done|]. simpl.
    by rewrite load_rule, IH. }
  destruct (add_rules rules Hnd) as [He Hc].
  { eapply Forall_impl; [exact Hok|]. by intros r (_ & ? & _). }
  unfold Resolve. rewrite He by done.
  destruct (rule_map rules !! ToLower lp); [done|]. rewrite Hc.
  destruct (rule_map rules !! "*") as [ts|] eqn:E; [|done]. simpl.
  apply elem_of_list_to_map_2 in E. rewrite Forall_forall in Hok.
  destruct (Hok _ E) as (_ & Hts & _). by destruct ts.
Qed.

(** ** Concrete chains *)
Module Example.
Definition ascii_case : UnicodeCase :=
  {| unicode_upper := smap up; unicode_lower := smap down;
     unicode_fold := λ s t, bool_decide (s = t) |}.
#[local] Existing Instance ascii_case.

Definition rules : list (string * list string) :=
  [("ann", ["ann@example.net"]); ("*", ["postmaster@example.org"])].
Definition fs : filesystem := λ path,
  if decide (path = "/srv/b.org/user_forwards/bob") then Contents "secret@b.org"
  else if decide (path = "/srv/a.org/forwards") then Contents (unlines LF (render_rule <$> rules))
  else NotExist.
Definition chain (dom : option ForwardMap) : forwardChain :=
  mkChain None dom "/srv/a.org/user_forwards" None.
End Example.

Lemma forwards_file_roundtrip_example :
  ∃ m, @Load Example.ascii_case Example.fs "/srv/a.org/forwards" = Ok m ∧
    @Resolve Example.ascii_case (Some m) "Ann" = Some ["ann@example.net"] ∧
    @Resolve Example.ascii_case (Some m) "eve" = Some ["postmaster@example.org"].
Proof.
  destruct (@forwards_file_roundtrip Example.ascii_case Example.fs "/srv/a.org/forwards"
    Example.rules) as (m & Hm & Hr).
  - reflexivity.
  - apply (bool_decide_unpack _). vm_compute. exact I.
  - repeat constructor; done.
  - exists m. split; [exact Hm|]. split; rewrite Hr; done.
Defined.

Lemma forward_resolution_example :
  @resolve Example.ascii_case
    (Example.chain (Some (@FromMap Example.ascii_case [("*", "all@a.org")]))) Example.fs "bob"
  = Some ["all@a.org"].
Proof.
  destruct (@forward_resolution Example.ascii_case
    (Example.chain (Some (@FromMap Example.ascii_case [("*", "all@a.org")])))
    Example.fs (λ _, NotExist) "bob") as [_ Hres]; [done| |done|].
  - intros m [= <-]. apply FromMap_wf.
  - destruct Hres as [_ ->]; [by right|]. vm_compute. reflexivity.
Defined.

(** The user tier joins the local part to its directory unchecked: a local part
    with parent references reads another domain's (or any) file. *)
Lemma user_tier_escapes :
  @resolve Example.ascii_case (Example.chain None) Example.fs "../../b.org/user_forwards/bob"
  = Some ["secret@b.org"].
Proof. vm_compute. reflexivity. Qed.

(** The user tier is case-sensitive, unlike the others. *)
Lemma user_tier_case :
  @user_tier Example.ascii_case Example.fs "/srv/b.org/user_forwards" "bob" = Some ["secret@b.org"] ∧
  @user_tier Example.ascii_case Example.fs "/srv/b.org/user_forwards" "Bob" = None.
Proof. vm_compute. split; reflexivity. Qed.

(** [FromMap] does not trim the keys that [Load] trims. *)
Lemma FromMap_keeps_spaces :
  @Resolve Example.ascii_case (Some (@FromMap Example.ascii_case [("ann ", "x@y")])) "ann" = None ∧
  @Resolve Example.ascii_case
    (match @Load Example.ascii_case (λ _, Contents "ann :x@y") "" with
     | Ok m => Some m | Err _ => None end) "ann" = Some ["x@y"].
Proof. vm_compute. split; reflexivity. Qed.
