(* ===== verification/QueueFs.v ===== *)
(** * The queue directory on disk

    The directory tree that session-manager writes and queue-manager reads, and
    the system calls both make on it. A path is the list of its components
    below the queue directory. Every system call consumes one element of the
    fault schedule, every [time.Now] one clock tick, and every attempt of
    [os.CreateTemp] one random number, so a theorem quantified over the disk
    covers every combination of I/O failures, delays and temporary names. *)
From S2P Require Import Prelude GoStrings.
From Stdlib Require Import ZArith Lia Ascii.
From stdpp Require Import sorting.
Open Scope string_scope.
Open Scope list_scope.
Open Scope Z_scope.

Notation path := (list string).

Record Owner := mkOwner { o_UID : Z; o_GID : Z }.
#[export] Instance Owner_eq_dec : EqDecision Owner.
Proof. solve_decision. Defined.

Record qfile := mkFile { content : string; mtime : Z; f_owner : option Owner }.
#[export] Instance qfile_eq_dec : EqDecision qfile.
Proof. solve_decision. Defined.

Inductive node := Dir (o : option Owner) | File (f : qfile).
#[export] Instance node_eq_dec : EqDecision node.
Proof. solve_decision. Defined.

(** [Fault n]: the call fails; a failing write has written [n] bytes. *)
Inductive sysres := Done | Fault (n : nat).

Record disk := mkDisk {
  tree : gmap path node;
  faults : list sysres;
  rnd : list N;
  now : Z;
  ticks : list Z;
}.

Inductive ioerr := EIO | ENOENT | ENOTDIR | EEXIST.
#[export] Instance ioerr_eq_dec : EqDecision ioerr.
Proof. solve_decision. Defined.

Definition set_tree (f : gmap path node → gmap path node) (w : disk) : disk :=
  mkDisk (f (tree w)) (faults w) (rnd w) (now w) (ticks w).

Definition sys (w : disk) : sysres * disk :=
  match faults w with
  | [] => (Done, w)
  | r :: rs => (r, mkDisk (tree w) rs (rnd w) (now w) (ticks w))
  end.

(** [time.Now()]; time never runs backwards. *)
Definition time_Now (w : disk) : Z * disk :=
  match ticks w with
  | [] => (now w, w)
  | d :: ds => (now w + Z.max 0 d, mkDisk (tree w) (faults w) (rnd w) (now w + Z.max 0 d) ds)
  end.

(** The queue directory itself exists. *)
Definition node_at (t : gmap path node) (p : path) : option node :=
  if decide (p = []) then Some (Dir None) else t !! p.

Definition is_dir (o : option node) : bool :=
  match o with Some (Dir _) => true | _ => false end.

(** ** Directory listings, sorted by name as [os.ReadDir] returns them *)
Definition child_of (d p : path) : option string :=
  match reverse p with
  | n :: r => if decide (reverse r = d) then Some n else None
  | [] => None
  end.
Definition children (t : gmap path node) (d : path) : list string :=
  merge_sort String.le (omap (child_of d ∘ fst) (map_to_list t)).

Definition ReadDir (d : path) (w : disk) : result (list string) ioerr * disk :=
  match sys w with
  | (Fault _, w) => (Err EIO, w)
  | (Done, w) =>
      match node_at (tree w) d with
      | None => (Err ENOENT, w)
      | Some (File _) => (Err ENOTDIR, w)
      | Some (Dir _) => (Ok (children (tree w) d), w)
      end
  end.

(** ** Files *)
Definition Stat (p : path) (w : disk) : result node ioerr * disk :=
  match sys w with
  | (Fault _, w) => (Err EIO, w)
  | (Done, w) => (match node_at (tree w) p with Some n => Ok n | None => Err ENOENT end, w)
  end.

Definition ReadFile (p : path) (w : disk) : result string ioerr * disk :=
  match sys w with
  | (Fault _, w) => (Err EIO, w)
  | (Done, w) =>
      (match node_at (tree w) p with
       | Some (File f) => Ok (content f)
       | Some (Dir _) => Err EIO
       | None => Err ENOENT
       end, w)
  end.

(** [os.Remove]: a file, or a directory that is empty. *)
Definition Remove (p : path) (w : disk) : result unit ioerr * disk :=
  match sys w with
  | (Fault _, w) => (Err EIO, w)
  | (Done, w) =>
      match tree w !! p with
      | None => (Err ENOENT, w)
      | Some (Dir _) =>
          if decide (children (tree w) p = []) then (Ok (), set_tree (delete p) w)
          else (Err EEXIST, w)
      | Some (File _) => (Ok (), set_tree (delete p) w)
      end
  end.

(** [os.Rename] of a file within one directory; what is there is replaced.
    The queue code renames files only. *)
Definition Rename (p q : path) (w : disk) : result unit ioerr * disk :=
  match sys w with
  | (Fault _, w) => (Err EIO, w)
  | (Done, w) =>
      match tree w !! p, tree w !! q with
      | None, _ => (Err ENOENT, w)
      | Some (Dir _), _ => (Err EIO, w)
      | _, Some (Dir _) => (Err EEXIST, w)
      | Some (File f), _ => (Ok (), set_tree (λ t, <[q := File f]> (delete p t)) w)
      end
  end.

Definition Chown (p : path) (o : Owner) (w : disk) : result unit ioerr * disk :=
  match sys w with
  | (Fault _, w) => (Err EIO, w)
  | (Done, w) =>
      match tree w !! p with
      | None => (Err ENOENT, w)
      | Some (Dir _) => (Ok (), set_tree <[p := Dir (Some o)]> w)
      | Some (File f) => (Ok (), set_tree <[p := File (mkFile (content f) (mtime f) (Some o))]> w)
      end
  end.

(** [os.MkdirAll]: one system call per level; [done] is the level reached. *)
Fixpoint mkdir_levels (done rest : path) (w : disk) : result unit ioerr * disk :=
  match rest with
  | [] => (Ok (), w)
  | c :: rest =>
      let p := done ++ [c] in
      match sys w with
      | (Fault _, w) => (Err EIO, w)
      | (Done, w) =>
          match tree w !! p with
          | Some (Dir _) => mkdir_levels p rest w
          | Some (File _) => (Err ENOTDIR, w)
          | None => mkdir_levels p rest (set_tree <[p := Dir None]> w)
          end
      end
  end.
Definition MkdirAll (p : path) (w : disk) : result unit ioerr * disk := mkdir_levels [] p w.

(** [os.CreateTemp(dir, pattern)]: random names until one is free. *)
Fixpoint free_name (t : gmap path node) (d : path) (pattern : string) (rs : list N)
    : option (string * list N) :=
  match rs with
  | [] => None
  | r :: rs =>
      let n := pattern +:+ fmt_d (Z.of_N r) in
      if decide (t !! (d ++ [n]) = None) then Some (n, rs) else free_name t d pattern rs
  end.
Definition CreateTemp (d : path) (pattern : string) (w : disk) : result path ioerr * disk :=
  match sys w with
  | (Fault _, w) => (Err EIO, w)
  | (Done, w) =>
      if is_dir (node_at (tree w) d) then
        match free_name (tree w) d pattern (rnd w) with
        | None => (Err EEXIST, w)
        | Some (n, rs) =>
            let p := d ++ [n] in
            (Ok p, mkDisk (<[p := File (mkFile "" (now w) None)]> (tree w))
                     (faults w) rs (now w) (ticks w))
        end
      else (Err ENOENT, w)
  end.

(** ** [filepath.Glob] below two wildcard levels

    [Glob(root/*/*/pat)]: a directory that cannot be listed is skipped, as the
    library does. [f] says which names the last element matches. *)
Definition glob_dir (d : path) (f : string → bool) (w : disk) : list path * disk :=
  match ReadDir d w with
  | (Ok names, w) => ((λ n, d ++ [n]) <$> filter f names, w)
  | (Err _, w) => ([], w)
  end.
Fixpoint glob_dirs (ds : list path) (f : string → bool) (w : disk) : list path * disk :=
  match ds with
  | [] => ([], w)
  | d :: ds =>
      let '(l, w) := glob_dir d f w in
      let '(l', w) := glob_dirs ds f w in
      (l ++ l', w)
  end.
Definition glob3 (root : path) (f : string → bool) (w : disk) : list path * disk :=
  let '(l1, w) := glob_dir root (λ _, true) w in
  let '(l2, w) := glob_dirs l1 (λ _, true) w in
  glob_dirs l2 f w.

(** ** Facts *)
Lemma child_of_Some d p n : child_of d p = Some n ↔ p = d ++ [n].
Proof.
  unfold child_of. split.
  - destruct (reverse p) as [|m r] eqn:E; [done|]. intros Hn.
    apply (f_equal reverse) in E. rewrite reverse_involutive, reverse_cons in E.
    case_decide; simplify_eq. done.
  - intros ->. rewrite reverse_snoc, reverse_involutive. by rewrite decide_True.
Qed.

Lemma elem_of_children t d n : n ∈ children t d ↔ is_Some (t !! (d ++ [n])).
Proof.
  unfold children. rewrite merge_sort_Permutation, list_elem_of_omap. split.
  - intros ([p x] & Hp & Hc). apply elem_of_map_to_list in Hp.
    apply child_of_Some in Hc. simpl in Hc. subst. eauto.
  - intros [x Hx]. exists (d ++ [n], x). split; [by apply elem_of_map_to_list|].
    by apply child_of_Some.
Qed.

Lemma NoDup_children t d : NoDup (children t d).
Proof.
  unfold children. rewrite merge_sort_Permutation. apply NoDup_omap_inj; [apply NoDup_map_to_list|].
  intros [p x] [q y] n Hp Hq Ep Eq. simpl in *. apply child_of_Some in Ep, Eq. subst.
  apply elem_of_map_to_list in Hp, Hq. congruence.
Qed.

Lemma sys_tree w : tree (sys w).2 = tree w.
Proof. unfold sys. by destruct (faults w). Qed.
Lemma time_Now_tree w : tree (time_Now w).2 = tree w.
Proof. unfold time_Now. by destruct (ticks w). Qed.
Lemma ReadDir_tree d w : tree (ReadDir d w).2 = tree w.
Proof.
  unfold ReadDir. pose proof (sys_tree w). destruct (sys w) as [[|] w1]; simpl in *; [|done].
  by destruct (node_at _ d) as [[]|].
Qed.
Lemma Stat_tree p w : tree (Stat p w).2 = tree w.
Proof. unfold Stat. pose proof (sys_tree w). by destruct (sys w) as [[|] w1]. Qed.
Lemma ReadFile_tree p w : tree (ReadFile p w).2 = tree w.
Proof. unfold ReadFile. pose proof (sys_tree w). by destruct (sys w) as [[|] w1]. Qed.

Lemma sys_calm w : faults w = [] → sys w = (Done, w).
Proof. unfold sys. by intros ->. Qed.

Lemma ReadDir_calm d w : faults w = [] →
  ReadDir d w = (match node_at (tree w) d with
                 | None => Err ENOENT | Some (File _) => Err ENOTDIR
                 | Some (Dir _) => Ok (children (tree w) d) end, w).
Proof.
  intros Hf. unfold ReadDir. rewrite sys_calm by done. by destruct (node_at _ d) as [[]|].
Qed.

(** A removal touches one path, a rename two. *)
Lemma Remove_tree p w q : q ≠ p → tree (Remove p w).2 !! q = tree w !! q.
Proof.
  intros Hq. unfold Remove. pose proof (sys_tree w) as Ht.
  destruct (sys w) as [[|] w1]; simpl in *; rewrite <-Ht; [|done].
  destruct (tree w1 !! p) as [[]|]; [case_decide| |]; simpl; try done;
    by rewrite lookup_delete_ne.
Qed.
Lemma Remove_cases p w : tree (Remove p w).2 = tree w ∨ tree (Remove p w).2 = delete p (tree w).
Proof.
  unfold Remove. pose proof (sys_tree w) as Ht.
  destruct (sys w) as [[|] w1]; simpl in *; rewrite <-Ht; [|by left].
  destruct (tree w1 !! p) as [[]|]; [case_decide| |]; simpl; auto.
Qed.

Lemma Rename_cases p q w :
  match Rename p q w with
  | (Err _, w') => tree w' = tree w
  | (Ok _, w') => ∃ f, tree w !! p = Some (File f) ∧ is_dir (tree w !! q) = false ∧
                       tree w' = <[q := File f]> (delete p (tree w))
  end.
Proof.
  unfold Rename. pose proof (sys_tree w) as Ht.
  destruct (sys w) as [[|] w1]; simpl in *; [rewrite <-Ht|done].
  destruct (tree w1 !! p) as [[|f]|] eqn:Ep; try done.
  destruct (tree w1 !! q) as [[|]|] eqn:Eq; simpl; try done; exists f; by rewrite ?Ep.
Qed.

Lemma Chown_cases p o w :
  match Chown p o w with
  | (Err _, w') => tree w' = tree w
  | (Ok _, w') =>
      (∃ o', tree w !! p = Some (Dir o') ∧ tree w' = <[p := Dir (Some o)]> (tree w)) ∨
      (∃ f, tree w !! p = Some (File f) ∧
         tree w' = <[p := File (mkFile (content f) (mtime f) (Some o))]> (tree w))
  end.
Proof.
  unfold Chown. pose proof (sys_tree w) as Ht.
  destruct (sys w) as [[|] w1]; simpl in *; [rewrite <-Ht|done].
  destruct (tree w1 !! p) as [[|f]|] eqn:Ep; simpl; try done; rewrite ?Ep; eauto.
Qed.

Lemma free_name_free t d pat rs n rs' :
  free_name t d pat rs = Some (n, rs') →
  t !! (d ++ [n]) = None ∧ ∃ r, n = pat +:+ fmt_d (Z.of_N r).
Proof.
  revert n rs'. induction rs as [|r rs IH]; simpl; [done|]. intros n rs'.
  case_decide as E; [|by apply IH]. intros [= <- <-]. eauto.
Qed.

Lemma CreateTemp_cases d pat w :
  match CreateTemp d pat w with
  | (Err _, w') => tree w' = tree w
  | (Ok p, w') => ∃ r, p = d ++ [pat +:+ fmt_d (Z.of_N r)] ∧ tree w !! p = None ∧
                  tree w' = <[p := File (mkFile "" (now w') None)]> (tree w)
  end.
Proof.
  unfold CreateTemp. pose proof (sys_tree w) as Ht.
  destruct (sys w) as [[|] w1]; simpl in *; [|done]. rewrite <-Ht.
  destruct (is_dir _); [|done].
  destruct (free_name _ d pat _) as [[n rs]|] eqn:E; [|done]. simpl.
  apply free_name_free in E as (? & r & ->). eauto.
Qed.

Lemma Rename_calm p q w f :
  faults w = [] → tree w !! p = Some (File f) → is_dir (tree w !! q) = false →
  Rename p q w = (Ok (), set_tree (λ t, <[q := File f]> (delete p t)) w).
Proof.
  intros Hf Hp Hq. unfold Rename. rewrite sys_calm, Hp by done.
  by destruct (tree w !! q) as [[|]|].
Qed.

(** ** Steps of a process on the disk

    [steps S w w']: only paths in [S] may have changed, and time has not run
    backwards. *)
Definition steps (S : path → Prop) (w w' : disk) : Prop :=
  (∀ q, ¬ S q → tree w' !! q = tree w !! q) ∧ now w <= now w'.
Definition none : path → Prop := λ _, False.

#[export] Instance steps_preorder S : PreOrder (steps S).
Proof.
  split; [split; [done|lia]|]. intros w1 w2 w3 [H1 T1] [H2 T2]. split; [|lia].
  intros q Hq. rewrite H2 by done. by apply H1.
Qed.
Lemma steps_mono (S T : path → Prop) w w' : (∀ q, S q → T q) → steps S w w' → steps T w w'.
Proof. intros HST [Ht Hn]. split; [|done]. intros q Hq. apply Ht. auto. Qed.
Lemma steps_none S w w' : steps none w w' → steps S w w'.
Proof. apply steps_mono. by intros q []. Qed.
Lemma steps_at S w w' q : steps S w w' → ¬ S q → tree w' !! q = tree w !! q.
Proof. intros [Ht _]. apply Ht. Qed.

Lemma sys_steps S w : steps S w (sys w).2.
Proof. unfold sys. by destruct (faults w). Qed.
Lemma time_Now_steps S w : steps S w (time_Now w).2.
Proof. unfold time_Now. destruct (ticks w); [done|]. split; [done|]. simpl. lia. Qed.
Lemma set_tree_steps S f w : (∀ q, ¬ S q → f (tree w) !! q = tree w !! q) → steps S w (set_tree f w).
Proof. intros Hf. split; [done|]. simpl. lia. Qed.
Lemma ReadDir_steps S d w : steps S w (ReadDir d w).2.
Proof.
  unfold ReadDir. pose proof (sys_steps S w). destruct (sys w) as [[|] w1]; [|done].
  by destruct (node_at _ d) as [[]|].
Qed.
Lemma Stat_steps S p w : steps S w (Stat p w).2.
Proof. unfold Stat. pose proof (sys_steps S w). by destruct (sys w) as [[|] w1]. Qed.
Lemma ReadFile_steps S p w : steps S w (ReadFile p w).2.
Proof. unfold ReadFile. pose proof (sys_steps S w). by destruct (sys w) as [[|] w1]. Qed.
Lemma Remove_steps (S : path → Prop) p w : S p → steps S w (Remove p w).2.
Proof.
  intros Hp. unfold Remove. pose proof (sys_steps S w) as Hs.
  assert (∀ w1, steps S w1 (set_tree (delete p) w1)) as Hd.
  { intros w1. apply set_tree_steps. intros q Hq. rewrite lookup_delete_ne; [done|congruence]. }
  destruct (sys w) as [[|] w1]; [|done]. simpl in Hs. etrans; [exact Hs|].
  destruct (tree w1 !! p) as [[]|]; [case_decide| |]; simpl; done || apply Hd.
Qed.
Lemma Rename_steps (S : path → Prop) p q w : S p → S q → steps S w (Rename p q w).2.
Proof.
  intros Hp Hq. unfold Rename. pose proof (sys_steps S w) as Hs.
  destruct (sys w) as [[|] w1]; [|done]. simpl in Hs. etrans; [exact Hs|].
  destruct (tree w1 !! p) as [[|f]|]; [done| |done].
  assert (steps S w1 (set_tree (λ t, <[q := File f]> (delete p t)) w1)) as Hd.
  { apply set_tree_steps. intros r Hr. rewrite lookup_insert_ne, lookup_delete_ne; congruence. }
  by destruct (tree w1 !! q) as [[|]|].
Qed.

Lemma glob_dir_steps S d f w : steps S w (glob_dir d f w).2.
Proof.
  unfold glob_dir. pose proof (ReadDir_steps S d w). by destruct (ReadDir d w) as [[]].
Qed.
Lemma glob_dirs_steps S ds f w : steps S w (glob_dirs ds f w).2.
Proof.
  revert w. induction ds as [|d ds IH]; intros w; [done|]. simpl.
  pose proof (glob_dir_steps S d f w). destruct (glob_dir d f w) as [l w1].
  pose proof (IH w1). destruct (glob_dirs ds f w1) as [l' w2]. by etrans.
Qed.
Lemma glob3_steps S r f w : steps S w (glob3 r f w).2.
Proof.
  unfold glob3. pose proof (glob_dir_steps S r (λ _, true) w) as H1.
  destruct (glob_dir r _ w) as [l1 w1].
  pose proof (glob_dirs_steps S l1 (λ _, true) w1) as H2.
  destruct (glob_dirs l1 _ w1) as [l2 w2].
  etrans; [exact H1|]. etrans; [exact H2|]. apply glob_dirs_steps.
Qed.

Create HintDb disk discriminated.
#[export] Hint Resolve sys_steps time_Now_steps ReadDir_steps Stat_steps ReadFile_steps
  glob3_steps : disk.

(** ** Globbing a quiet disk *)
Lemma glob_dir_calm d f w : faults w = [] →
  glob_dir d f w = (if is_dir (node_at (tree w) d)
                    then (λ n, d ++ [n]) <$> filter f (children (tree w) d) else [], w).
Proof.
  intros Hf. unfold glob_dir. rewrite ReadDir_calm by done. by destruct (node_at _ d) as [[]|].
Qed.

Lemma glob_dirs_calm ds f w : faults w = [] →
  (glob_dirs ds f w).2 = w ∧
  ∀ p, p ∈ (glob_dirs ds f w).1 ↔
    ∃ d n, d ∈ ds ∧ p = d ++ [n] ∧ f n = true ∧ is_dir (node_at (tree w) d) = true ∧ is_Some (tree w !! p).
Proof.
  intros Hf. induction ds as [|d ds [IH1 IH2]]; simpl.
  { split; [done|]. intros p. split; [by intros ?%elem_of_nil|].
    by intros (d & n & ?%elem_of_nil & _). }
  rewrite glob_dir_calm by done. destruct (glob_dirs ds f w) as [l w'] eqn:E. simpl in *. subst.
  split; [done|]. intros p. rewrite elem_of_app, IH2. split.
  - intros [Hp|(d' & n & ? & ?)]; [|exists d', n; split; [by right|done]].
    destruct (is_dir (node_at (tree w) d)) eqn:Ed; [|by apply elem_of_nil in Hp].
    apply list_elem_of_fmap in Hp as (n & -> & [Hn Hc]%list_elem_of_filter).
    exists d, n. split_and!; [by left|done|by apply Is_true_true|done|by apply elem_of_children].
  - intros (d' & n & [->|Hd]%elem_of_cons & -> & Hn & Hdir & Hs); [left|right; eauto 10].
    rewrite Hdir. apply list_elem_of_fmap. exists n. split; [done|].
    apply list_elem_of_filter. split; [by apply Is_true_true|by apply elem_of_children].
Qed.

Lemma glob3_calm r f w : faults w = [] →
  (glob3 r f w).2 = w ∧
  ∀ p, p ∈ (glob3 r f w).1 ↔
    ∃ a b n, p = r ++ [a; b; n] ∧ f n = true ∧ is_Some (tree w !! p) ∧
      is_dir (node_at (tree w) r) = true ∧ is_dir (tree w !! (r ++ [a])) = true ∧
      is_dir (tree w !! (r ++ [a; b])) = true.
Proof.
  intros Hf. unfold glob3.
  assert (∀ d c, node_at (tree w) (d ++ [c]) = tree w !! (d ++ [c])) as Hna.
  { intros d c. unfold node_at. rewrite decide_False; [done|by destruct d]. }
  pose proof (glob_dirs_calm [r] (λ _, true) w Hf) as [G1 M1]. cbn [glob_dirs] in G1, M1.
  destruct (glob_dir r (λ _, true) w) as [l1 w1]. simpl in G1, M1. subst w1. rewrite app_nil_r in M1.
  destruct (glob_dirs_calm l1 (λ _, true) w Hf) as [G2 M2].
  destruct (glob_dirs l1 (λ _, true) w) as [l2 w2]. simpl in G2, M2. subst w2.
  destruct (glob_dirs_calm l2 f w Hf) as [G3 M3]. split; [done|].
  intros p. rewrite M3. setoid_rewrite M2. setoid_rewrite M1. split.
  - intros (d & n & (d2 & b & (d1 & a & ->%list_elem_of_singleton & -> & _ & Hr & _) & -> & _ & Ha & _)
              & -> & Hn & Hb & Hs).
    rewrite Hna in Ha, Hb. exists a, b, n. rewrite <-!(assoc_L (++)) in *. done.
  - intros (a & b & n & -> & Hn & Hs & Hr & Ha & Hb).
    exists (r ++ [a; b]), n. split_and!; [|by rewrite <-(assoc_L (++))|done| |].
    + exists (r ++ [a]), b. split_and!.
      * exists r, a. split_and!; [by left|done..|]. by destruct (tree w !! (r ++ [a])).
      * by rewrite <-(assoc_L (++)).
      * done.
      * by rewrite Hna.
      * by destruct (tree w !! (r ++ [a; b])).
    + change [a; b] with ([a] ++ [b]). rewrite (assoc_L (++)), Hna, <-(assoc_L (++)). done.
    + done.
Qed.
