(* ===== verification/Queue.v ===== *)
(** * Injection into the outbound queue

    Model of [src/internal/session-manager/queue/queue.go]: the body goes to
    [msg/{tld}/{domain}/{id}], one JSON envelope per recipient to
    [env/{tld}/{domain}/{localpart}@{id}.{n}], each through a temporary file
    and a rename. The path components are checked by the code before they are
    used; [filepath.Join] drops the empty ones. *)
From S2P Require Import Prelude GoStrings QueueFs.
From Stdlib Require Import ZArith Lia Ascii.
Open Scope string_scope.
Open Scope list_scope.
Open Scope Z_scope.

(** ** Data *)
(** A [time.Time] is a count of nanoseconds since the zero time. *)
Record queueEnvelope := mkEnv {
  TTL : Z;
  Created : Z;
  Sender : string;
  Recipient : string;
  e_MsgID : string;
  Origin : string;
}.
#[export] Instance queueEnvelope_eq_dec : EqDecision queueEnvelope.
Proof. solve_decision. Defined.
Definition zeroEnvelope : queueEnvelope := mkEnv 0 0 "" "" "" "".

(** [encoding/json] on envelopes; a time outside the years 0-9999 is not
    encoded. *)
Class EnvelopeJson := {
  enc_env : queueEnvelope → option string;
  dec_env : string → option queueEnvelope;
}.

(** An [io.Reader]: the bytes it yields, and whether it then fails. *)
Record reader := mkReader { r_data : string; r_fails : bool }.
Definition MultiReader (s : string) (r : reader) : reader := mkReader (s +:+ r_data r) (r_fails r).

Record QConfig := mkQConfig {
  q_Owner : option Owner;
  q_MessageTTL : Z;
  q_Hostname : string;
  DKIMSign : option (string → reader → option reader);
}.

Inductive qerr :=
| EInvalidSender
| EInvalidMsgID
| ERandom
| EDKIM
| EMkdir
| EBody
| EInvalidRecipient (rcpt : string)
| EEnvelope (rcpt : string).
#[export] Instance qerr_eq_dec : EqDecision qerr.
Proof. solve_decision. Defined.

(** ** Addresses and identifiers *)
Definition validAddressComponent (s : string) : bool :=
  bool_decide (s ≠ "") && negb (has_byte "/" s || has_byte "\" s) && negb (Contains s "..").

Definition hex_digit (c : ascii) : bool :=
  is_digit c || existsb (Ascii.eqb c) ["a"; "b"; "c"; "d"; "e"; "f"; "A"; "B"; "C"; "D"; "E"; "F"]%char.

(** [hex.DecodeString] accepts an even number of hexadecimal digits. *)
Definition validMsgIDHex (s : string) : bool :=
  bool_decide (String.length s = 32%nat) && sforall hex_digit s.

Definition hex_char (n : nat) : ascii :=
  if (n <? 10)%nat then ascii_of_nat (48 + n) else ascii_of_nat (87 + n).
Fixpoint hex_EncodeToString (b : string) : string :=
  match b with
  | "" => ""
  | String c b =>
      String (hex_char (nat_of_ascii c / 16)) (String (hex_char (nat_of_ascii c mod 16))
        (hex_EncodeToString b))
  end.

(** [newMsgID]; [entropy] is what [rand.Read] gives for sixteen bytes. *)
Definition newMsgID (entropy : option string) (hostname : string) : option (string * string) :=
  match entropy with
  | None => None
  | Some b => let h := hex_EncodeToString b in Some (h +:+ "@" +:+ hostname, h)
  end.

Section Address.
Context `{UnicodeCase}.

Definition trim_angle (addr : string) : string := TrimSuffix (TrimPrefix addr "<") ">".

Definition extractDomain (addr : string) : string :=
  match cut_last "@" (trim_angle addr) with
  | None => "unknown"
  | Some (_, d) => if decide (d = "") then "unknown" else ToLower d
  end.

Definition splitAddress (addr : string) : string * string :=
  match cut_last "@" (trim_angle addr) with
  | None => (trim_angle addr, "unknown")
  | Some (l, d) => (l, ToLower d)
  end.

Definition splitDomainLabels (domain : string) : string * string :=
  match reverse (Split "." domain) with
  | tld :: sld :: _ => (tld, sld)
  | _ => ("unknown", domain)
  end.

Definition verpAddress (from rcpt hostname : string) : string :=
  let '(l, d) := splitAddress rcpt in
  "bounces+" +:+ l +:+ "=" +:+ d +:+ "@" +:+ hostname.
End Address.

(** [filepath.Join] of single components. *)
Definition join_path (l : list string) : path := filter (λ c, c ≠ "") l.

(** ** Writing *)
Fixpoint chown_levels (pre rest : path) (o : Owner) (w : disk) : result unit ioerr * disk :=
  match rest with
  | [] => (Ok (), w)
  | c :: rest =>
      match Chown (pre ++ [c]) o w with
      | (Err e, w) => (Err e, w)
      | (Ok _, w) => chown_levels (pre ++ [c]) rest o w
      end
  end.

Definition mkdirAllOwned (p : path) (owner : option Owner) (w : disk) : result unit ioerr * disk :=
  match MkdirAll p w with
  | (Err e, w) => (Err e, w)
  | (Ok _, w) =>
      match owner with
      | None => (Ok (), w)
      | Some o => chown_levels [] p o w
      end
  end.

(** The [_ = os.Remove(tmpName)] of every error path. *)
Definition discard (tmp : path) (w : disk) : result unit ioerr * disk :=
  (Err EIO, (Remove tmp w).2).

Definition set_content (p : path) (s : string) (w : disk) : disk :=
  set_tree <[p := File (mkFile s (now w) None)]> w.

(** [atomicWrite]; [data] is what the callback writes, [ok] whether it then
    succeeds. *)
Definition atomicWrite (dir finalPath : path) (owner : option Owner) (data : string) (ok : bool)
    (w : disk) : result unit ioerr * disk :=
  match CreateTemp dir "tmp_" w with
  | (Err e, w) => (Err e, w)
  | (Ok tmp, w) =>
      match sys w with
      | (Fault n, w) => discard tmp (set_content tmp (stake n data) w)
      | (Done, w) =>
          let w := set_content tmp data w in
          if negb ok then discard tmp w else
          match sys w with
          | (Fault _, w) => discard tmp w
          | (Done, w) =>
              let '(r, w) := match owner with None => (Ok (), w) | Some o => Chown tmp o w end in
              match r with
              | Err _ => discard tmp w
              | Ok _ =>
                  match sys w with
                  | (Fault _, w) => discard tmp w
                  | (Done, w) =>
                      match Rename tmp finalPath w with
                      | (Err _, w) => discard tmp w
                      | (Ok _, w) => (Ok (), w)
                      end
                  end
              end
          end
      end
  end.

Section Write.
Context `{UnicodeCase, EnvelopeJson}.

Definition envName (local msgidHex : string) (n : Z) : string :=
  local +:+ "@" +:+ msgidHex +:+ "." +:+ fmt_d n.
Definition envDir (rcptDomain : string) : path :=
  let '(tld, sld) := splitDomainLabels rcptDomain in join_path ["env"; tld; sld].
Definition msgDir (fromDomain : string) : path :=
  let '(tld, sld) := splitDomainLabels fromDomain in join_path ["msg"; tld; sld].

Definition mkEnvelope (cfg : QConfig) (from rcpt msgid : string) (now : Z) : queueEnvelope :=
  mkEnv (now + q_MessageTTL cfg) now (verpAddress from rcpt (q_Hostname cfg)) rcpt msgid from.

(** The recipient loop of [Write]; [n] is the index of the first one. *)
Fixpoint write_envelopes (cfg : QConfig) (from msgid msgidHex : string) (now n : Z)
    (rcpts : list string) (w : disk) : result unit qerr * disk :=
  match rcpts with
  | [] => (Ok (), w)
  | rcpt :: rest =>
      let '(rcptLocal, rcptDomain) := splitAddress rcpt in
      if negb (validAddressComponent rcptLocal) || negb (validAddressComponent rcptDomain)
      then (Err (EInvalidRecipient rcpt), w)
      else match mkdirAllOwned (envDir rcptDomain) (q_Owner cfg) w with
      | (Err _, w) => (Err EMkdir, w)
      | (Ok _, w) =>
          let '(data, ok) := match enc_env (mkEnvelope cfg from rcpt msgid now) with
                             | Some s => (s, true) | None => ("", false) end in
          match atomicWrite (envDir rcptDomain) (envDir rcptDomain ++ [envName rcptLocal msgidHex n])
                  (q_Owner cfg) data ok w with
          | (Err _, w) => (Err (EEnvelope rcpt), w)
          | (Ok _, w) => write_envelopes cfg from msgid msgidHex now (n + 1) rest w
          end
      end
  end.

Definition assign_msgid (entropy : option string) (fromDomain preset : string)
    : result (string * string) qerr :=
  if decide (preset ≠ "") then
    if negb (validMsgIDHex preset) then Err EInvalidMsgID
    else Ok (preset +:+ "@" +:+ fromDomain, preset)
  else match newMsgID entropy fromDomain with
       | None => Err ERandom
       | Some p => Ok p
       end.

Definition Message_ID_header (msgid : string) : string := "Message-ID: <" +:+ msgid +:+ ">" +:+ crlf.

Definition body_reader (cfg : QConfig) (fromDomain msgid : string) (body : reader) : option reader :=
  let r := MultiReader (Message_ID_header msgid) body in
  match DKIMSign cfg with
  | None => Some r
  | Some sign => sign fromDomain r
  end.

Definition Write (cfg : QConfig) (entropy : option string) (from : string) (recipients : list string)
    (presetMsgIDHex : string) (body : reader) (w : disk) : result string qerr * disk :=
  let fromDomain := extractDomain from in
  if negb (validAddressComponent fromDomain) then (Err EInvalidSender, w)
  else match assign_msgid entropy fromDomain presetMsgIDHex with
  | Err e => (Err e, w)
  | Ok (msgid, msgidHex) =>
      let '(t, w) := time_Now w in
      match body_reader cfg fromDomain msgid body with
      | None => (Err EDKIM, w)
      | Some r =>
          match mkdirAllOwned (msgDir fromDomain) (q_Owner cfg) w with
          | (Err _, w) => (Err EMkdir, w)
          | (Ok _, w) =>
              match atomicWrite (msgDir fromDomain) (msgDir fromDomain ++ [msgidHex])
                      (q_Owner cfg) (r_data r) (negb (r_fails r)) w with
              | (Err _, w) => (Err EBody, w)
              | (Ok _, w) =>
                  match write_envelopes cfg from msgid msgidHex t 0 recipients w with
                  | (Err e, w) => (Err e, w)
                  | (Ok _, w) => (Ok msgid, w)
                  end
              end
          end
      end
  end.
End Write.

(** ** What an injection may change

    [change T t t']: every path is as before, or a new temporary file, or a
    directory where no file was, or a file whose path and contents are in [T]. *)
Definition is_tmp (p : path) : Prop := ∃ d r, p = d ++ ["tmp_" +:+ fmt_d (Z.of_N r)].

Definition change (T : path → string → Prop) (t t' : gmap path node) : Prop := ∀ p,
  t' !! p = t !! p ∨
  ((∃ o, t' !! p = Some (Dir o)) ∧ ∀ f, t !! p ≠ Some (File f)) ∨
  (t !! p = None ∧ is_tmp p) ∨
  (∃ f, t' !! p = Some (File f) ∧ T p (content f)).

#[export] Instance change_preorder T : PreOrder (change T).
Proof.
  split; [by left|]. intros t1 t2 t3 H12 H23 p.
  destruct (H23 p) as [E|[[[o E] Hn]|[[E Ht]|E]]]; [rewrite E; apply H12| | |by auto].
  - right; left. split; [by exists o|]. intros f Hf.
    destruct (H12 p) as [E'|[[_ Hn']|[[E' _]|[g [E' _]]]]].
    + rewrite E' in Hn. by destruct (Hn f).
    + by destruct (Hn' f).
    + congruence.
    + by destruct (Hn g).
  - right; right; left. split; [|done].
    destruct (H12 p) as [E'|[[[o E'] _]|[[E' _]|[g [E' _]]]]]; congruence.
Qed.

Lemma change_mono (T U : path → string → Prop) t t' :
  (∀ p c, T p c → U p c) → change T t t' → change U t t'.
Proof. intros HTU Hc p. destruct (Hc p) as [?|[?|[?|[f []]]]]; eauto 10. Qed.

(** Files that are no targets stay; a file of the new tree is accounted for. *)
Lemma change_keeps T t t' p f :
  change T t t' → t !! p = Some (File f) →
  t' !! p = Some (File f) ∨ ∃ g, t' !! p = Some (File g) ∧ T p (content g).
Proof. 
  intros Hc Hp. destruct (Hc p) as [E|[[_ E]|[[E _]|E]]];
    [left; congruence|by destruct (E f)|congruence|by right].
Qed.
Lemma change_file T t t' p f :
  change T t t' → t' !! p = Some (File f) →
  t !! p = Some (File f) ∨ is_tmp p ∨ T p (content f).
Proof. 
  intros Hc Hp. destruct (Hc p) as [E|[[[o E] _]|[[_ E]|[g [E HT]]]]]; [left|..]; try congruence; auto.
  right; right. congruence.
Qed.

Lemma mkdir_levels_change T pre rest w : change T (tree w) (tree (mkdir_levels pre rest w).2).
Proof.
  revert pre w. induction rest as [|c rest IH]; intros pre w; [done|]. simpl.
  pose proof (sys_tree w) as Ht. destruct (sys w) as [[|] w1]; simpl in *; rewrite <-Ht; [|done].
  destruct (tree w1 !! (pre ++ [c])) as [[o|f]|] eqn:E; [apply IH|done|].
  etrans; [|apply IH]. simpl. intros p. destruct (decide (p = pre ++ [c])) as [->|Hp].
  - right; left. rewrite lookup_insert_eq, E. split; [by eexists|done].
  - left. by rewrite lookup_insert_ne.
Qed.

(** The levels of a directory are directories when [MkdirAll] succeeds. *)
Definition dir_levels (t : gmap path node) (p : path) : Prop :=
  ∀ q, q ≠ [] → q `prefix_of` p → is_dir (t !! q) = true.

Lemma change_dir T t t' p :
  (∀ c, ¬ T p c) → change T t t' → is_dir (t !! p) = true → is_dir (t' !! p) = true.
Proof.
  intros HT Hc Hp. destruct (Hc p) as [->|[[[o ->] _]|[[E _]|[f [_ Hf]]]]]; try done.
  - by rewrite E in Hp.
  - by destruct (HT _ Hf).
Qed.

Lemma chown_levels_change T pre rest o w :
  (∀ q, q ≠ [] → q `prefix_of` rest → is_dir (tree w !! (pre ++ q)) = true) →
  change T (tree w) (tree (chown_levels pre rest o w).2).
Proof.
  revert pre w. induction rest as [|c rest IH]; intros pre w Hd; [done|]. simpl.
  assert (is_dir (tree w !! (pre ++ [c])) = true) as Hc
    by (apply Hd; [done|apply prefix_cons, prefix_nil]).
  pose proof (Chown_cases (pre ++ [c]) o w) as Hch.
  destruct (Chown _ o w) as [[[]|e] w1]; [|by simpl; rewrite Hch].
  destruct Hch as [(o' & E & Ht)|(f & E & _)]; [|by rewrite E in Hc].
  assert (change T (tree w) (tree w1)) as Hcg.
  { rewrite Ht. intros p. destruct (decide (p = pre ++ [c])) as [->|Hp].
    - right; left. rewrite lookup_insert_eq, E. split; [by eexists|done].
    - left. by rewrite lookup_insert_ne. }
  etrans; [exact Hcg|]. apply IH. intros q Hq Hpre.
  rewrite <-(assoc_L (++)), Ht. destruct (decide (pre ++ [c] ++ q = pre ++ [c])) as [->|Hne];
    [by rewrite lookup_insert_eq|].
  rewrite lookup_insert_ne by done. apply Hd; [done|by apply prefix_cons].
Qed.

Lemma mkdir_levels_dirs pre rest w :
  is_ok (mkdir_levels pre rest w).1 = true →
  ∀ q, q ≠ [] → q `prefix_of` rest → is_dir (tree (mkdir_levels pre rest w).2 !! (pre ++ q)) = true.
Proof.
  revert pre w. induction rest as [|c rest IH]; intros pre w Hok q Hq Hpre.
  { by apply prefix_nil_inv in Hpre. }
  simpl in *. pose proof (sys_tree w) as Ht.
  destruct (sys w) as [[|] w1]; simpl in *; [|done].
  destruct q as [|c' q]; [done|].
  pose proof (prefix_cons_inv_1 _ _ _ _ Hpre) as ->. apply prefix_cons_inv_2 in Hpre.
  assert (∀ w2, is_dir (tree w2 !! (pre ++ [c])) = true →
            is_ok (mkdir_levels (pre ++ [c]) rest w2).1 = true →
            is_dir (tree (mkdir_levels (pre ++ [c]) rest w2).2 !! (pre ++ c :: q)) = true) as Hgo.
  { intros w2 Hw2 Hok2. destruct q as [|c' q].
    - eapply (change_dir (λ _ _, False)); [naive_solver|apply mkdir_levels_change|done].
    - change (pre ++ c :: c' :: q) with (pre ++ [c] ++ (c' :: q)).
      rewrite (assoc_L (++)). by apply IH. }
  destruct (tree w1 !! (pre ++ [c])) as [[o|f]|] eqn:E; [|done|].
  - apply Hgo; [by rewrite E|done].
  - apply Hgo; [|done]. simpl. by rewrite lookup_insert_eq.
Qed.

Lemma mkdirAllOwned_change T p owner w : change T (tree w) (tree (mkdirAllOwned p owner w).2).
Proof.
  unfold mkdirAllOwned, MkdirAll.
  pose proof (mkdir_levels_change T [] p w) as Hm.
  pose proof (mkdir_levels_dirs [] p w) as Hd.
  destruct (mkdir_levels [] p w) as [[[]|e] w1]; simpl in *; [|done].
  destruct owner as [o|]; [|done]. etrans; [exact Hm|].
  apply chown_levels_change. intros q Hq Hpre. by apply (Hd eq_refl).
Qed.

(** Everything but the temporary file is untouched. *)
Definition only (tmp : path) (t t' : gmap path node) : Prop := ∀ p, p ≠ tmp → t' !! p = t !! p.

Lemma only_change T tmp t t' : t !! tmp = None → is_tmp tmp → only tmp t t' → change T t t'.
Proof.
  intros Hn Htmp Ho p. destruct (decide (p = tmp)) as [->|Hp]; [by auto|]. left. by apply Ho.
Qed.
Lemma only_discard tmp t w : only tmp t (tree w) → only tmp t (tree (discard tmp w).2).
Proof. intros Ho p Hp. unfold discard. simpl. rewrite Remove_tree by done. by apply Ho. Qed.
Lemma only_set_content tmp t s w : only tmp t (tree w) → only tmp t (tree (set_content tmp s w)).
Proof. intros Ho p Hp. simpl. rewrite lookup_insert_ne by done. by apply Ho. Qed.

(** The optional ownership change of the temporary file keeps its contents. *)
Definition chown_opt (tmp : path) (owner : option Owner) (w : disk) : result unit ioerr * disk :=
  match owner with None => (Ok (), w) | Some o => Chown tmp o w end.
Lemma chown_opt_only tmp owner t w g :
  tree w !! tmp = Some (File g) → only tmp t (tree w) →
  only tmp t (tree (chown_opt tmp owner w).2) ∧
  ∃ g', tree (chown_opt tmp owner w).2 !! tmp = Some (File g') ∧ content g' = content g.
Proof.
  intros Hg Ho. destruct owner as [o|]; simpl; [|by eauto].
  pose proof (Chown_cases tmp o w) as Hc. destruct (Chown tmp o w) as [[[]|e] w1]; simpl.
  - destruct Hc as [(o' & E & _)|(f & E & ->)]; [by rewrite Hg in E|].
    rewrite Hg in E. simplify_eq. split.
    + intros p Hp. rewrite lookup_insert_ne by done. by apply Ho.
    + rewrite lookup_insert_eq. by eexists.
  - rewrite Hc. eauto.
Qed.

Lemma atomicWrite_spec dir final owner data ok w :
  let '(r, w') := atomicWrite dir final owner data ok w in
  change (λ p c, p = final ∧ c = data ∧ ok = true) (tree w) (tree w') ∧
  (is_ok r = true → ∃ g, tree w' !! final = Some (File g) ∧ content g = data ∧ ok = true).
Proof.
  unfold atomicWrite. pose proof (CreateTemp_cases dir "tmp_" w) as Hct.
  destruct (CreateTemp dir "tmp_" w) as [[tmp|e] w1]; [|by rewrite Hct].
  destruct Hct as (r & -> & Hnone & Ht). set (n := "tmp_" +:+ fmt_d (Z.of_N r)) in *.
  assert (is_tmp (dir ++ [n])) as Htmp by (by exists dir, r).
  assert (only (dir ++ [n]) (tree w) (tree w1)) as Ho.
  { intros p Hp. by rewrite Ht, lookup_insert_ne. }
  clear Ht. set (tmp := dir ++ [n]) in *.
  assert (∀ w2, only tmp (tree w) (tree w2) →
    let '(r, w') := discard tmp w2 in
    change (λ p c, p = final ∧ c = data ∧ ok = true) (tree w) (tree w') ∧
    (is_ok r = true → ∃ g, tree w' !! final = Some (File g) ∧ content g = data ∧ ok = true)) as Hdis.
  { intros w2 Hw2. apply only_discard in Hw2. split; [by eapply only_change|done]. }
  pose proof (sys_tree w1) as H1. destruct (sys w1) as [[|k] w2]; simpl in H1; rewrite <-H1 in Ho;
    [|by apply Hdis, only_set_content].
  apply (only_set_content _ _ data) in Ho.
  assert (tree (set_content tmp data w2) !! tmp = Some (File (mkFile data (now w2) None))) as Hg
    by (simpl; by rewrite lookup_insert_eq).
  set (w3 := set_content tmp data w2) in *.
  destruct ok; simpl; [|by apply Hdis].
  pose proof (sys_tree w3) as H3. destruct (sys w3) as [[|k] w4]; cbn [snd] in H3;
    rewrite <-H3 in Ho, Hg; [|by apply Hdis].
  destruct (chown_opt_only tmp owner _ _ _ Hg Ho) as (Ho5 & g & Hg5 & Hc).
  fold (chown_opt tmp owner w4). destruct (chown_opt tmp owner w4) as [[[]|e] w5];
    simpl in *; [|by apply Hdis].
  pose proof (sys_tree w5) as H5. destruct (sys w5) as [[|k] w6]; simpl in H5;
    rewrite <-H5 in Ho5, Hg5; [|by apply Hdis].
  pose proof (Rename_cases tmp final w6) as Hr.
  destruct (Rename tmp final w6) as [[[]|e] w7]; [|by apply Hdis; rewrite Hr].
  destruct Hr as (f & Hf & _ & Ht). rewrite Hg5 in Hf. simplify_eq. rewrite Ht.
  split; [|intros _; exists f; by rewrite lookup_insert_eq].
  intros p. destruct (decide (p = final)) as [->|Hpf].
  { right; right; right. exists f. by rewrite lookup_insert_eq. }
  rewrite lookup_insert_ne by done. destruct (decide (p = tmp)) as [->|Hpt]; [by auto|].
  left. rewrite lookup_delete_ne by done. by apply Ho5.
Qed.

Section WriteFacts.
Context `{UnicodeCase, EnvelopeJson}.

Definition env_path (rcpt msgidHex : string) (n : Z) : path :=
  envDir (splitAddress rcpt).2 ++ [envName (splitAddress rcpt).1 msgidHex n].
Definition body_path (from msgidHex : string) : path := msgDir (extractDomain from) ++ [msgidHex].

Lemma join_path_head c l : c ≠ "" → head (join_path (c :: l)) = Some c.
Proof. intros Hc. unfold join_path. by rewrite filter_cons_True. Qed.
Lemma body_path_head from h : head (body_path from h) = Some "msg".
Proof.
  unfold body_path, msgDir. destruct (splitDomainLabels _) as [a b].
  by rewrite (head_app_l _ _), join_path_head || (unfold join_path; rewrite filter_cons_True by done).
Qed.
Lemma env_path_head rcpt h n : head (env_path rcpt h n) = Some "env".
Proof.
  unfold env_path, envDir. destruct (splitDomainLabels _) as [a b].
  unfold join_path; by rewrite filter_cons_True by done.
Qed.

(** A complete envelope of recipient [i + k]. *)
Definition env_target (cfg : QConfig) (from msgid msgidHex : string) (t i : Z) (rcpts : list string)
    (p : path) (c : string) : Prop :=
  ∃ (k : nat) rcpt, rcpts !! k = Some rcpt ∧ p = env_path rcpt msgidHex (i + Z.of_nat k) ∧
    enc_env (mkEnvelope cfg from rcpt msgid t) = Some c.

Lemma write_envelopes_change cfg from msgid hex t n rcpts w :
  change (env_target cfg from msgid hex t n rcpts) (tree w)
    (tree (write_envelopes cfg from msgid hex t n rcpts w).2).
Proof.
  revert n w. induction rcpts as [|rcpt rest IH]; intros n w; [done|]. simpl.
  destruct (splitAddress rcpt) as [l d] eqn:Es.
  destruct (negb _ || negb _); [done|].
  pose proof (mkdirAllOwned_change (env_target cfg from msgid hex t n (rcpt :: rest))
                (envDir d) (q_Owner cfg) w) as Hm.
  destruct (mkdirAllOwned _ _ w) as [[[]|e] w1]; [|done]. etrans; [exact Hm|].
  destruct (match enc_env _ with Some s => (s, true) | None => ("", false) end)
    as [data ok] eqn:Ed.
  pose proof (atomicWrite_spec (envDir d) (envDir d ++ [envName l hex n]) (q_Owner cfg) data ok w1)
    as Ha.
  destruct (atomicWrite _ _ _ _ _ w1) as [ra w2]. destruct Ha as [Ha _].
  assert (change (env_target cfg from msgid hex t n (rcpt :: rest)) (tree w1) (tree w2)) as Ha'.
  { eapply change_mono; [|exact Ha]. intros p c (-> & -> & ->). exists 0%nat, rcpt.
    split; [done|]. unfold env_path. rewrite Es, Z.add_0_r. simpl. split; [done|].
    by destruct (enc_env _); simplify_eq. }
  destruct ra as [[]|e]; [|done]. etrans; [exact Ha'|].
  eapply change_mono; [|apply IH]. intros p c (k & r & Hk & -> & He).
  exists (S k), r. split; [done|]. split; [|done]. f_equal. lia.
Qed.

(** The paths and contents that belong to a complete message. *)
Definition complete (cfg : QConfig) (entropy : option string) (from : string) (recipients : list string)
    (preset : string) (body : reader) (t : Z) (p : path) (c : string) : Prop :=
  ∃ msgid msgidHex, assign_msgid entropy (extractDomain from) preset = Ok (msgid, msgidHex) ∧
    ((p = body_path from msgidHex ∧
      body_reader cfg (extractDomain from) msgid body = Some (mkReader c false)) ∨
     env_target cfg from msgid msgidHex t 0 recipients p c).

Lemma env_path_not_tmp rcpt h n : ¬ is_tmp (env_path rcpt h n).
Proof.
  intros (d & r & E). unfold env_path in E. apply app_inj_tail in E as [_ E].
  assert (no_byte "@" ("tmp_" +:+ fmt_d (Z.of_N r))) as Hn.
  { apply no_byte_app. split; [done|]. apply fmt_d_no_byte; [done|lia]. }
  rewrite <-E in Hn. unfold envName in Hn. rewrite !no_byte_app in Hn. by destruct Hn as (_ & ? & _).
Qed.

(** A file below [env/] that was not there before, temporary files aside. *)
Definition new_env (t t' : gmap path node) : Prop :=
  ∃ p f, head p = Some "env" ∧ ¬ is_tmp p ∧ t' !! p = Some (File f) ∧ t !! p ≠ Some (File f).

Lemma no_new_env T t t' :
  change T t t' → (∀ p c, T p c → head p ≠ Some "env") → ¬ new_env t t'.
Proof.
  intros Hc HT (p & f & Hh & Htmp & Hf & Hn).
  destruct (change_file _ _ _ _ _ Hc Hf) as [?|[?|Hg]]; [done..|]. by destruct (HT _ _ Hg).
Qed.

(** [Write] up to the envelopes. *)
Definition body_target (cfg : QConfig) (from msgid hex : string) (body : reader) (p : path) (c : string) :=
  p = body_path from hex ∧ body_reader cfg (extractDomain from) msgid body = Some (mkReader c false).

Lemma body_target_env cfg from msgid hex body p c :
  body_target cfg from msgid hex body p c → head p ≠ Some "env".
Proof. intros [-> _]. by rewrite body_path_head. Qed.

(** The whole of [Write]: a file appears below [env/] only with the body there. *)
Lemma Write_change cfg entropy from recipients preset body w :
  let w' := (Write cfg entropy from recipients preset body w).2 in
  let good := complete cfg entropy from recipients preset body (time_Now w).1 in
  change good (tree w) (tree w') ∧
  ∀ msgid hex, assign_msgid entropy (extractDomain from) preset = Ok (msgid, hex) →
    new_env (tree w) (tree w') →
    ∃ g, tree w' !! body_path from hex = Some (File g) ∧ good (body_path from hex) (content g).
Proof.
  assert (∀ t : gmap path node, ¬ new_env t t) as Hrefl.
  { intros t. by apply (no_new_env (λ _ _, False)). }
  unfold Write. destruct (negb (validAddressComponent _)).
  { split; [done|]. intros ??? []%Hrefl. }
  destruct (assign_msgid _ _ _) as [[msgid hex]|e] eqn:Eid; [|split; [done|]; naive_solver].
  pose proof (time_Now_tree w) as Ht. destruct (time_Now w) as [t w1]; simpl in Ht.
  rewrite <-Ht. clear Ht w. rename w1 into w. cbn [fst].
  set (good := complete cfg entropy from recipients preset body t).
  assert (∀ p c, body_target cfg from msgid hex body p c → good p c) as Hbt.
  { intros p c []. exists msgid, hex. split; [done|]. by left. }
  destruct (body_reader _ _ _ _) as [r|] eqn:Er; [|split; [done|]; intros ??? []%Hrefl].
  pose proof (mkdirAllOwned_change (body_target cfg from msgid hex body)
                (msgDir (extractDomain from)) (q_Owner cfg) w) as Hm.
  destruct (mkdirAllOwned _ _ w) as [[[]|e] w1]; simpl in Hm.
  2:{ split; [by eapply change_mono|]. intros ??? []%(no_new_env _ _ _ Hm).
      apply body_target_env. }
  pose proof (atomicWrite_spec (msgDir (extractDomain from)) (body_path from hex)
                (q_Owner cfg) (r_data r) (negb (r_fails r)) w1) as Ha.
  fold (body_path from hex). destruct (atomicWrite _ _ _ _ _ w1) as [ra w2].
  destruct Ha as [Ha Hok].
  assert (change (body_target cfg from msgid hex body) (tree w) (tree w2)) as Hc2.
  { etrans; [exact Hm|]. eapply change_mono; [|exact Ha]. intros p c (-> & -> & Hr).
    split; [done|]. rewrite Er. destruct r; simpl in *. by apply negb_true_iff in Hr as ->. }
  destruct ra as [[]|e].
  2:{ split; [by eapply change_mono|]. intros ??? []%(no_new_env _ _ _ Hc2).
      apply body_target_env. }
  destruct (Hok eq_refl) as (g & Hg & Hcg & Hfl).
  pose proof (write_envelopes_change cfg from msgid hex t 0 recipients w2) as He.
  assert (change good (tree w) (tree (write_envelopes cfg from msgid hex t 0 recipients w2).2)) as Hall.
  { etrans; [by eapply change_mono|]. eapply change_mono; [|exact He].
    intros p c Hpc. exists msgid, hex. split; [done|]. by right. }
  destruct (write_envelopes _ _ _ _ _ _ _ w2) as [rw w3]. simpl in *.
  assert (tree w3 !! body_path from hex = Some (File g)) as Hfin.
  { destruct (change_keeps _ _ _ _ _ He Hg) as [?|(g' & _ & k & rc & _ & E & _)]; [done|].
    apply (f_equal head) in E. by rewrite body_path_head, env_path_head in E. }
  assert (good (body_path from hex) (content g)) as Hgood.
  { apply Hbt. split; [done|]. rewrite Er, Hcg. destruct r; simpl in *.
    by apply negb_true_iff in Hfl as ->. }
  destruct rw as [[]|e]; (split; [done|]); intros msgid' hex' [= <- <-] _; eauto.
Qed.

(** C31: Injection never exposes partial state: whatever system calls fail,
    every file outside the [tmp_] names is afterwards either the file that was
    there or the complete body or a complete envelope of this message, no
    other file is lost or altered, and an envelope that appeared has its body
    in place. *)
Theorem injection_atomic cfg entropy from recipients preset body w :
  let w' := (Write cfg entropy from recipients preset body w).2 in
  let good := complete cfg entropy from recipients preset body (time_Now w).1 in
  (∀ p f, tree w' !! p = Some (File f) →
     tree w !! p = Some (File f) ∨ is_tmp p ∨ good p (content f)) ∧
  (∀ p f, tree w !! p = Some (File f) →
     tree w' !! p = Some (File f) ∨ ∃ g, tree w' !! p = Some (File g) ∧ good p (content g)) ∧
  (∀ rcpt msgid hex n f,
     assign_msgid entropy (extractDomain from) preset = Ok (msgid, hex) →
     tree w' !! env_path rcpt hex n = Some (File f) →
     tree w !! env_path rcpt hex n = Some (File f) ∨
     ∃ g, tree w' !! body_path from hex = Some (File g) ∧ good (body_path from hex) (content g)).
Proof.
  intros w' good.
  destruct (Write_change cfg entropy from recipients preset body w) as [Hc Hb].
  split_and!.
  - intros p f. by apply change_file.
  - intros p f. by apply change_keeps.
  - intros rcpt msgid hex n f Hid Hf.
    destruct (decide (tree w !! env_path rcpt hex n = Some (File f))) as [|Hne]; [by left|right].
    apply (Hb msgid hex Hid). exists (env_path rcpt hex n), f.
    split_and!; [apply env_path_head|apply env_path_not_tmp|done..].
Qed.

(** ** Injection without I/O failures *)
(** Files lie at the fourth level and directories above it. *)
Definition layout (t : gmap path node) : Prop :=
  ∀ p n, t !! p = Some n → match n with File _ => length p = 4%nat | Dir _ => (length p ≤ 3)%nat end.
(** The temporary names still to come are unused in the innermost directories. *)
Definition fresh_names (w : disk) : Prop :=
  ∀ d r, length d = 3%nat → r ∈ rnd w → tree w !! (d ++ ["tmp_" +:+ fmt_d (Z.of_N r)]) = None.
(** Nothing but the tree has changed. *)
Definition same_rest (w w' : disk) : Prop :=
  faults w' = faults w ∧ rnd w' = rnd w ∧ now w' = now w ∧ ticks w' = ticks w.

(** Only directories are added, at the first three levels. *)
Definition adds_dirs (t t' : gmap path node) : Prop := ∀ p,
  t' !! p = t !! p ∨
  ∃ o, t' !! p = Some (Dir o) ∧ (length p ≤ 3)%nat ∧ last p ≠ None ∧ ∀ f, t !! p ≠ Some (File f).
#[export] Instance adds_dirs_preorder : PreOrder adds_dirs.
Proof.
  split; [by left|]. intros t1 t2 t3 H12 H23 p.
  destruct (H23 p) as [E|(o & E & Hl & Hn & Hf)]; [rewrite E; apply H12|].
  right. exists o. split_and!; [done..|]. intros f Hf1.
  destruct (H12 p) as [E'|(o' & E' & _ & _ & Hf')]; [|by destruct (Hf' f)].
  destruct (Hf f). congruence.
Qed.

Lemma adds_dirs_insert t p o :
  p ≠ [] → (length p ≤ 3)%nat → (∀ f, t !! p ≠ Some (File f)) → adds_dirs t (<[p := Dir o]> t).
Proof.
  intros Hp Hl Hf q. destruct (decide (q = p)) as [->|Hq]; [|left; by rewrite lookup_insert_ne].
  right. exists o. rewrite lookup_insert_eq. split_and!; [done..| |done].
  destruct p using rev_ind; [done|]. by rewrite last_snoc.
Qed.

Lemma adds_dirs_layout t t' : adds_dirs t t' → layout t → layout t'.
Proof.
  intros Ha Hl p n Hn. destruct (Ha p) as [E|(o & E & Hlen & _)].
  - apply Hl. congruence.
  - rewrite E in Hn. by simplify_eq.
Qed.
Lemma adds_dirs_file t t' p f : adds_dirs t t' → t !! p = Some (File f) → t' !! p = Some (File f).
Proof. intros Ha Hp. destruct (Ha p) as [->|(o & _ & _ & _ & Hf)]; [done|by destruct (Hf f)]. Qed.
Lemma adds_dirs_no_file t t' p : adds_dirs t t' →
  (∀ f, t !! p ≠ Some (File f)) → ∀ f, t' !! p ≠ Some (File f).
Proof. intros Ha Hp f. destruct (Ha p) as [->|(o & -> & _)]; [apply Hp|done]. Qed.

Lemma mkdir_levels_calm pre rest w :
  faults w = [] → layout (tree w) → (length (pre ++ rest) ≤ 3)%nat →
  ∃ w', mkdir_levels pre rest w = (Ok (), w') ∧ same_rest w w' ∧ adds_dirs (tree w) (tree w').
Proof.
  revert pre w. induction rest as [|c rest IH]; intros pre w Hf Hl Hlen; [by exists w|].
  simpl. rewrite sys_calm by done. rewrite length_app in Hlen. simpl in Hlen.
  assert (length ((pre ++ [c]) ++ rest) ≤ 3)%nat as Hlen' by (rewrite !length_app; simpl; lia).
  destruct (tree w !! (pre ++ [c])) as [[o|f]|] eqn:E.
  - by apply IH.
  - apply Hl in E. rewrite length_app in E. simpl in E. lia.
  - set (w1 := set_tree _ w).
    assert (adds_dirs (tree w) (tree w1)) as Ha.
    { apply adds_dirs_insert; [by destruct pre|rewrite length_app; simpl; lia|by rewrite E]. }
    destruct (IH (pre ++ [c]) w1) as (w' & -> & Hs & Ha'); [done|by eapply adds_dirs_layout|done|].
    exists w'. split_and!; [done|exact Hs|by etrans].
Qed.

Lemma chown_levels_calm pre rest o w :
  faults w = [] → (length (pre ++ rest) ≤ 3)%nat →
  (∀ q, q ≠ [] → q `prefix_of` rest → is_dir (tree w !! (pre ++ q)) = true) →
  ∃ w', chown_levels pre rest o w = (Ok (), w') ∧ same_rest w w' ∧ adds_dirs (tree w) (tree w').
Proof.
  revert pre w. induction rest as [|c rest IH]; intros pre w Hf Hlen Hd; [by exists w|].
  rewrite length_app in Hlen. simpl in Hlen |- *.
  assert (is_dir (tree w !! (pre ++ [c])) = true) as Hc
    by (apply Hd; [done|apply prefix_cons, prefix_nil]).
  unfold Chown. rewrite sys_calm by done.
  destruct (tree w !! (pre ++ [c])) as [[o'|f]|] eqn:E; [|done..].
  set (w1 := set_tree _ w).
  destruct (IH (pre ++ [c]) w1) as (w' & -> & Hs & Ha'); [done|rewrite !length_app; simpl; lia| |].
  - intros q Hq Hpre. rewrite <-(assoc_L (++)). unfold w1. cbn [tree set_tree].
    rewrite lookup_insert_ne; [by apply Hd; [|apply prefix_cons]|].
    intros E'%app_inv_head. by destruct q.
  - exists w'. split_and!; [done|exact Hs|]. etrans; [|exact Ha'].
    apply adds_dirs_insert; [by destruct pre|rewrite length_app; simpl; lia|by rewrite E].
Qed.

Lemma mkdirAllOwned_calm p owner w :
  faults w = [] → layout (tree w) → (length p ≤ 3)%nat → p ≠ [] →
  ∃ w', mkdirAllOwned p owner w = (Ok (), w') ∧ same_rest w w' ∧
        adds_dirs (tree w) (tree w') ∧ dir_levels (tree w') p.
Proof.
  intros Hf Hl Hlen Hp. unfold mkdirAllOwned, MkdirAll.
  pose proof (mkdir_levels_dirs [] p w) as Hd.
  destruct (mkdir_levels_calm [] p w) as (w1 & E & Hs & Ha); [done..|].
  rewrite E in *. simpl in Hd. specialize (Hd eq_refl).
  destruct owner as [o|].
  2:{ exists w1. split_and!; [done..|]. intros q Hq Hpre. by apply (Hd q). }
  destruct (chown_levels_calm [] p o w1) as (w2 & E2 & Hs2 & Ha2); [|done..|].
  { by destruct Hs as [-> _]. }
  exists w2. split_and!; [done| |by etrans|].
  - unfold same_rest in *. naive_solver congruence.
  - intros q Hq Hpre. destruct (Ha2 q) as [->|(? & -> & _)]; [by apply (Hd q)|done].
Qed.

Lemma adds_dirs_dir t t' q : adds_dirs t t' → is_dir (t !! q) = true → is_dir (t' !! q) = true.
Proof. intros Ha Hq. by destruct (Ha q) as [->|(? & -> & _)]. Qed.

Lemma atomicWrite_calm dir final owner data w r rs :
  faults w = [] → rnd w = r :: rs → is_dir (tree w !! dir) = true → dir ≠ [] →
  tree w !! (dir ++ ["tmp_" +:+ fmt_d (Z.of_N r)]) = None →
  is_dir (tree w !! final) = false →
  atomicWrite dir final owner data true w =
  (Ok (), mkDisk (<[final := File (mkFile data (now w) owner)]> (tree w)) [] rs (now w) (ticks w)).
Proof.
  intros Hf Hr Hd Hne Hfree Hfin. unfold atomicWrite, CreateTemp.
  rewrite sys_calm by done. unfold node_at. rewrite decide_False, Hd, Hr by done.
  cbn [free_name]. rewrite decide_True by done. set (tmp := dir ++ _) in *.
  unfold sys at 1. cbn [faults]. rewrite Hf. cbn [negb]. unfold sys at 1. cbn [set_content set_tree faults].
  assert (∀ w2 f, faults w2 = [] → tree w2 !! tmp = Some (File f) → delete tmp (tree w2) = tree w →
            (∀ p, p ≠ tmp → tree w2 !! p = tree w !! p) →
            Rename tmp final w2 = (Ok (), set_tree (λ _, <[final := File f]> (tree w)) w2)) as Hren.
  { intros w2 f Hf2 Ht Hdel Hoth. rewrite (Rename_calm _ _ _ f); [|done..|].
    - unfold set_tree. by rewrite Hdel.
    - destruct (decide (final = tmp)) as [->|]; [by rewrite Ht|by rewrite Hoth]. }
  destruct owner as [o|].
  - unfold Chown. rewrite sys_calm by done. cbn [set_content set_tree tree].
    rewrite lookup_insert_eq. rewrite sys_calm by done.
    erewrite Hren; [done|done|apply lookup_insert_eq| |];
      cbn [set_content set_tree tree content mtime]; rewrite !insert_insert_eq.
    + by apply delete_insert_id.
    + intros p Hp. by rewrite lookup_insert_ne.
  - rewrite sys_calm by done.
    erewrite Hren; [done|done|apply lookup_insert_eq| |];
      cbn [set_content set_tree tree]; rewrite !insert_insert_eq.
    + by apply delete_insert_id.
    + intros p Hp. by rewrite lookup_insert_ne.
Qed.

(** A domain whose two last labels name a queue directory. *)
Definition routable (domain : string) : Prop :=
  validAddressComponent domain = true ∧
  (splitDomainLabels domain).1 ≠ "" ∧ (splitDomainLabels domain).2 ≠ "".
Definition deliverable (rcpt : string) : Prop :=
  validAddressComponent (splitAddress rcpt).1 = true ∧ routable (splitAddress rcpt).2.

Lemma join_path_full a b c : a ≠ "" → b ≠ "" → c ≠ "" → join_path [a; b; c] = [a; b; c].
Proof. intros. unfold join_path. by rewrite !filter_cons_True, filter_nil by done. Qed.
Lemma envDir_routable d : routable d →
  envDir d = ["env"; (splitDomainLabels d).1; (splitDomainLabels d).2].
Proof. intros (_ & ? & ?). unfold envDir. destruct (splitDomainLabels d). by apply join_path_full. Qed.
Lemma msgDir_routable d : routable d →
  msgDir d = ["msg"; (splitDomainLabels d).1; (splitDomainLabels d).2].
Proof. intros (_ & ? & ?). unfold msgDir. destruct (splitDomainLabels d). by apply join_path_full. Qed.

Lemma env_path_inj r r' h n m :
  0 <= n → 0 <= m → env_path r h n = env_path r' h m → n = m.
Proof.
  intros Hn Hm E. unfold env_path in E. apply app_inj_tail in E as [_ E]. unfold envName in E.
  assert (∀ l k, 0 <= k → cut_last "." (l +:+ "@" +:+ h +:+ "." +:+ fmt_d k)
                 = Some (l +:+ "@" +:+ h, fmt_d k)) as Hc.
  { intros l k Hk. change ("." +:+ fmt_d k) with (String "." (fmt_d k)).
    rewrite (sapp_assoc "@" h), (sapp_assoc l). apply cut_last_app. by apply fmt_d_no_byte. }
  apply (f_equal (cut_last ".")) in E. rewrite !Hc in E by done.
  injection E as _ E. apply (f_equal parse_decimal) in E.
  rewrite !parse_decimal_fmt_d in E by done. congruence.
Qed.

Lemma hex_encode_digits b : sforall hex_digit (hex_EncodeToString b) = true.
Proof.
  induction b as [|c b IH]; [done|]. simpl. rewrite IH, !andb_true_r.
  destruct c as [[] [] [] [] [] [] [] []]; vm_compute; done.
Qed.

Lemma assign_msgid_hex ent d preset msgid hex :
  assign_msgid ent d preset = Ok (msgid, hex) → sforall hex_digit hex = true.
Proof.
  unfold assign_msgid. case_decide.
  - destruct (validMsgIDHex preset) eqn:Ev; [|done]. intros [= _ <-].
    by apply andb_prop in Ev as [_ ?].
  - unfold newMsgID. destruct ent as [b|]; [|done]. intros [= _ <-]. apply hex_encode_digits.
Qed.

Lemma hex_name_not_tmp ent d preset msgid hex p :
  assign_msgid ent d preset = Ok (msgid, hex) → ¬ is_tmp (p ++ [hex]).
Proof.
  intros Hid%assign_msgid_hex (q & r & E). apply app_inj_tail in E as [_ E]. by rewrite E in Hid.
Qed.

Lemma adds_dirs_fresh w w' :
  fresh_names w → same_rest w w' → adds_dirs (tree w) (tree w') → fresh_names w'.
Proof.
  intros Hf (_ & Hr & _) Ha d r Hd Hin. rewrite Hr in Hin.
  destruct (Ha (d ++ ["tmp_" +:+ fmt_d (Z.of_N r)])) as [->|(o & _ & Hl & _)]; [by apply Hf|].
  rewrite length_app in Hl. simpl in Hl. lia.
Qed.

(** What one directory-then-file step of [Write] does on a quiet disk. *)
Definition ready (w : disk) : Prop := faults w = [] ∧ layout (tree w) ∧ fresh_names w.

Lemma put_calm dir name owner data w :
  ready w → rnd w ≠ [] → length dir = 3%nat → ¬ is_tmp (dir ++ [name]) →
  ∃ w1 w2, mkdirAllOwned dir owner w = (Ok (), w1) ∧
    atomicWrite dir (dir ++ [name]) owner data true w1 = (Ok (), w2) ∧
    ready w2 ∧ now w2 = now w ∧ rnd w2 = tail (rnd w) ∧
    tree w2 !! (dir ++ [name]) = Some (File (mkFile data (now w) owner)) ∧
    dir_levels (tree w2) dir ∧ (∀ q, is_dir (tree w !! q) = true → is_dir (tree w2 !! q) = true) ∧
    ∀ p f, p ≠ dir ++ [name] → tree w !! p = Some (File f) → tree w2 !! p = Some (File f).
Proof.
  intros (Hf & Hl & Hfr) Hr Hd Hnt.
  destruct (mkdirAllOwned_calm dir owner w) as (w1 & E1 & Hs & Ha & Hlev); [done|done|lia|by destruct dir|].
  assert (is_dir (tree w1 !! dir) = true) as Hdir by (apply Hlev; [by destruct dir|done]).
  pose proof (adds_dirs_layout _ _ Ha Hl) as Hl1. pose proof (adds_dirs_fresh _ _ Hfr Hs Ha) as Hfr1.
  destruct Hs as (Hsf & Hsr & Hsn & Hst). rewrite Hf in Hsf.
  destruct (rnd w) as [|r rs] eqn:Er; [done|].
  assert (is_dir (tree w1 !! (dir ++ [name])) = false) as Hfin.
  { destruct (tree w1 !! (dir ++ [name])) as [[o|f]|] eqn:E; [|done..].
    apply Hl1 in E. rewrite length_app in E. simpl in E. lia. }
  exists w1. eexists. split; [exact E1|]. split.
  { apply (atomicWrite_calm _ _ _ _ _ r rs); [done..|by destruct dir| |done].
    apply Hfr1; [done|]. rewrite Hsr. by left. }
  assert (∀ q, is_dir (tree w1 !! q) = true → q ≠ dir ++ [name]) as Hq by (intros q Hq ->; congruence).
  split; [|split_and!; [done|done| | | |]].
  - split_and!; [done| |].
    + intros p n. cbn [tree]. destruct (decide (p = dir ++ [name])) as [->|Hp].
      * rewrite lookup_insert_eq. intros [= <-]. rewrite length_app. simpl. lia.
      * rewrite lookup_insert_ne by done. apply Hl1.
    + intros d r' Hd' Hin. cbn [tree rnd] in *. rewrite lookup_insert_ne.
      * apply Hfr1; [done|]. rewrite Hsr. by right.
      * intros E. apply Hnt. rewrite E. by exists d, r'.
  - cbn [tree]. rewrite lookup_insert_eq. by rewrite Hsn.
  - intros q Hne Hpre. cbn [tree]. specialize (Hlev q Hne Hpre).
    rewrite lookup_insert_ne; [done|]. apply not_eq_sym. by apply Hq.
  - intros q Hd'. cbn [tree]. apply (adds_dirs_dir _ _ _ Ha) in Hd'.
    rewrite lookup_insert_ne; [done|]. apply not_eq_sym. by apply Hq.
  - intros p f Hp Hpf. cbn [tree]. rewrite lookup_insert_ne by done. by eapply adds_dirs_file.
Qed.

Lemma write_envelopes_calm cfg from msgid hex t n rcpts w :
  ready w → (length rcpts ≤ length (rnd w))%nat → 0 <= n →
  Forall deliverable rcpts →
  Forall (λ r, is_Some (enc_env (mkEnvelope cfg from r msgid t))) rcpts →
  ∃ w', write_envelopes cfg from msgid hex t n rcpts w = (Ok (), w') ∧ ready w' ∧
    (∀ q, is_dir (tree w !! q) = true → is_dir (tree w' !! q) = true) ∧
    (∀ rcpt, rcpt ∈ rcpts → dir_levels (tree w') (envDir (splitAddress rcpt).2)) ∧
    (∀ p f, (∀ r k, n <= k → p ≠ env_path r hex k) →
       tree w !! p = Some (File f) → tree w' !! p = Some (File f)) ∧
    ∀ k rcpt, rcpts !! k = Some rcpt → ∃ s,
      enc_env (mkEnvelope cfg from rcpt msgid t) = Some s ∧
      tree w' !! env_path rcpt hex (n + Z.of_nat k) = Some (File (mkFile s (now w) (q_Owner cfg))).
Proof.
  revert n w. induction rcpts as [|rcpt rest IH]; intros n w Hw Hlen Hn Hdel Henc.
  { exists w. split_and!; [done..|by intros r ?%elem_of_nil|done|]. by intros k r. }
  apply Forall_cons in Hdel as [[Hv1 Hrt] Hdel]. apply Forall_cons in Henc as [[s Hs] Henc].
  simpl in Hlen |- *. pose proof (env_path_not_tmp rcpt hex n) as Hnt. unfold env_path in Hnt.
  destruct (splitAddress rcpt) as [l d] eqn:Es. simpl in Hv1, Hrt, Hnt.
  rewrite Hv1, (proj1 Hrt). simpl. rewrite Hs.
  destruct (put_calm (envDir d) (envName l hex n) (q_Owner cfg) s w)
    as (w1 & w2 & -> & -> & Hw2 & Hnow & Hrnd & Hfile & Hlev & Hdirs & Hkeep); [done| | |done|].
  { by destruct (rnd w); [simpl in Hlen; lia|]. }
  { by rewrite envDir_routable. }
  assert (env_path rcpt hex n = envDir d ++ [envName l hex n]) as Ep
    by (unfold env_path; by rewrite Es).
  rewrite <-Ep in Hfile, Hkeep.
  destruct (IH (n + 1) w2) as (w' & -> & Hw' & Hdirs' & Hlev' & Hkeep' & Hall); [done| |lia|done..|].
  { rewrite Hrnd. destruct (rnd w); simpl in *; lia. }
  exists w'. split_and!; [done|done|auto| | |].
  - intros r [->|Hr]%elem_of_cons; [|by apply Hlev']. rewrite Es. intros q Hq Hpre.
    by apply Hdirs', Hlev.
  - intros p f Hp Hpf. apply Hkeep'; [intros r k Hk; apply Hp; lia|].
    apply Hkeep; [apply Hp; lia|done].
  - intros [|k] r Hk; simpl in Hk.
    + simplify_eq. exists s. split; [done|]. rewrite Z.add_0_r. apply Hkeep'; [|done].
      intros r' k Hk E. apply env_path_inj in E; lia.
    + destruct (Hall k r Hk) as (s' & Hs' & Hf'). exists s'. split; [done|].
      rewrite Hnow in Hf'. rewrite <-Hf'. do 2 f_equal. lia.
Qed.

Lemma Write_calm cfg entropy from recipients preset body w msgid hex data :
  ready w → (length recipients < length (rnd w))%nat →
  routable (extractDomain from) → Forall deliverable recipients →
  assign_msgid entropy (extractDomain from) preset = Ok (msgid, hex) →
  body_reader cfg (extractDomain from) msgid body = Some (mkReader data false) →
  Forall (λ r, is_Some (enc_env (mkEnvelope cfg from r msgid (time_Now w).1))) recipients →
  ∃ w', Write cfg entropy from recipients preset body w = (Ok msgid, w') ∧ ready w' ∧
    tree w' !! body_path from hex = Some (File (mkFile data (time_Now w).1 (q_Owner cfg))) ∧
    dir_levels (tree w') (msgDir (extractDomain from)) ∧
    (∀ rcpt, rcpt ∈ recipients → dir_levels (tree w') (envDir (splitAddress rcpt).2)) ∧
    ∀ k rcpt, recipients !! k = Some rcpt → ∃ s,
      enc_env (mkEnvelope cfg from rcpt msgid (time_Now w).1) = Some s ∧
      tree w' !! env_path rcpt hex (Z.of_nat k) = Some (File (mkFile s (time_Now w).1 (q_Owner cfg))).
Proof.
  intros Hw Hlen Hrt Hdel Hid Hb Henc. unfold Write. rewrite (proj1 Hrt), Hid. simpl.
  assert (ready (time_Now w).2 ∧ rnd (time_Now w).2 = rnd w ∧ now (time_Now w).2 = (time_Now w).1)
    as (Hw1 & Hr1 & Hn1) by (unfold time_Now; by destruct (ticks w)).
  destruct (time_Now w) as [t w1]. simpl in *. rewrite Hb. cbn [r_data r_fails negb].
  destruct (put_calm (msgDir (extractDomain from)) hex (q_Owner cfg) data w1)
    as (w2 & w3 & -> & -> & Hw3 & Hnow & Hrnd & Hfile & Hlev & _).
  { done. }
  { rewrite Hr1. by destruct (rnd w); [simpl in Hlen; lia|]. }
  { by rewrite msgDir_routable. }
  { by eapply hex_name_not_tmp. }
  destruct (write_envelopes_calm cfg from msgid hex t 0 recipients w3)
    as (w' & -> & Hw' & Hdirs & Hlev' & Hkeep & Hall); [done| |lia|done..|].
  { rewrite Hrnd, Hr1. destruct (rnd w); simpl in *; lia. }
  exists w'. split_and!; [done|done| | |done|].
  2:{ intros q Hq Hpre. by apply Hdirs, Hlev. }
  - rewrite <-Hn1. apply Hkeep; [|done]. intros r k _ E.
    apply (f_equal head) in E. by rewrite body_path_head, env_path_head in E.
  - intros k rcpt Hk. destruct (Hall k rcpt Hk) as (s & Hs & Hf).
    rewrite Hnow, Hn1 in Hf. by exists s.
Qed.

(** On a disk that answers every call, a message with a valid sender and
    valid recipients is accepted: its body is stored once, complete, and every
    recipient has an envelope of its own, complete, below directories that
    exist at the place queue-manager scans, owned by the configured account. *)
Lemma write_enqueues cfg entropy from recipients preset body w msgid hex data :
  ready w → (length recipients < length (rnd w))%nat →
  routable (extractDomain from) → Forall deliverable recipients →
  assign_msgid entropy (extractDomain from) preset = Ok (msgid, hex) →
  body_reader cfg (extractDomain from) msgid body = Some (mkReader data false) →
  Forall (λ r, is_Some (enc_env (mkEnvelope cfg from r msgid (time_Now w).1))) recipients →
  ∃ w', Write cfg entropy from recipients preset body w = (Ok msgid, w') ∧ ready w' ∧
    tree w' !! body_path from hex = Some (File (mkFile data (time_Now w).1 (q_Owner cfg))) ∧
    dir_levels (tree w') (msgDir (extractDomain from)) ∧
    (∀ rcpt, rcpt ∈ recipients → dir_levels (tree w') (envDir (splitAddress rcpt).2)) ∧
    ∀ k rcpt, recipients !! k = Some rcpt → ∃ s,
      enc_env (mkEnvelope cfg from rcpt msgid (time_Now w).1) = Some s ∧
      tree w' !! env_path rcpt hex (Z.of_nat k) = Some (File (mkFile s (time_Now w).1 (q_Owner cfg))).
Proof. apply Write_calm. Qed.
End WriteFacts.

(** ** A concrete queue *)
Module QDemo.
#[export] Instance no_unicode : UnicodeCase :=
  {| unicode_upper := id; unicode_lower := id; unicode_fold := λ s t, bool_decide (s = t) |}.

(** A codec with the two functions of the interface. *)
Definition bar : ascii := "|"%char.
Definition demo_enc (e : queueEnvelope) : option string :=
  Some (fmt_d (TTL e) +:+ String bar (fmt_d (Created e) +:+ String bar (Sender e +:+ String bar
    (Recipient e +:+ String bar (e_MsgID e +:+ String bar (Origin e)))))).
Definition demo_dec (s : string) : option queueEnvelope :=
  match Split bar s with
  | [a; b; c; d; e; f] =>
      match Atoi a, Atoi b with
      | Some x, Some y => Some (mkEnv x y c d e f)
      | _, _ => None
      end
  | _ => None
  end.
#[export] Instance demo_json : EnvelopeJson := {| enc_env := demo_enc; dec_env := demo_dec |}.

Definition cfg : QConfig := mkQConfig (Some (mkOwner 70 70)) 604800000000000 "mx.example.org" None.
Definition id32 : string := "00112233445566778899aabbccddeeff".
Definition empty : disk := mkDisk ∅ [] [7; 8; 9]%N 1000 [].
Definition inject (rcpts : list string) (w : disk) : result string qerr * disk :=
  Write cfg None "ann@example.org" rcpts id32 (mkReader "hello" false) w.
End QDemo.

Section OnDemo.
Import QDemo.

Lemma write_enqueues_example :
  ∃ w', QDemo.inject ["bob@mail.example.com"; "eve@example.net"] QDemo.empty
        = (Ok (QDemo.id32 +:+ "@example.org"), w') ∧ ready w'.
Proof.
  destruct (write_enqueues QDemo.cfg None "ann@example.org" ["bob@mail.example.com"; "eve@example.net"]
    QDemo.id32 (mkReader "hello" false) QDemo.empty (QDemo.id32 +:+ "@example.org") QDemo.id32
    (Message_ID_header (QDemo.id32 +:+ "@example.org") +:+ "hello")) as (w' & E & Hr & _).
  - split_and!; [done|by intros ?? E|by intros ????].
  - simpl; lia.
  - by split_and!; vm_compute.
  - repeat constructor; by vm_compute.
  - by vm_compute.
  - by vm_compute.
  - repeat constructor; by eexists.
  - exists w'. exact (conj E Hr).
Defined.

(** The documented atomicity does not extend to the recipient list: an address
    refused late leaves the earlier envelopes in the queue. *)
Lemma late_refusal_leaves_envelopes :
  let '(r, w) := QDemo.inject ["bob@example.com"; "e/ve@example.net"] QDemo.empty in
  r = Err (EInvalidRecipient "e/ve@example.net") ∧
  is_Some (tree w !! env_path "bob@example.com" QDemo.id32 0).
Proof. vm_compute. split; [done|by eexists]. Qed.

(** A domain written with its final dot has an empty last label: the envelope
    is accepted but lies one level above the directories that are scanned. *)
Lemma trailing_dot_misplaced :
  let '(r, w) := QDemo.inject ["bob@example.com."] QDemo.empty in
  is_ok r = true ∧ is_Some (tree w !! ["env"; "com"; "bob@" +:+ QDemo.id32 +:+ ".0"]).
Proof. vm_compute. split; [done|by eexists]. Qed.
End OnDemo.
