(* ===== verification/MailRemote.v ===== *)
(** * The remote delivery agent

    Model of [src/cmd/mail-remote/main.go]: configuration precedence, reading
    the envelopes, choosing the transport, reporting one result per envelope on
    standard output and only then deleting the settled envelopes. The SMTP
    dialogue itself ([internal/mail-remote/smtp]) is the interface [Transport]:
    a map from the envelopes it was given to outcomes. *)
From S2P Require Import Prelude GoStrings QueueFs Queue.
From Stdlib Require Import ZArith Lia Ascii.
Open Scope string_scope.
Open Scope list_scope.
Open Scope Z_scope.

(** ** Data *)
Inductive outcome :=
| ODelivered
| OPermanent (code : Z) (diag : string)
| OTemporary (code : Z) (diag : string).
#[export] Instance outcome_eq_dec : EqDecision outcome.
Proof. solve_decision. Defined.

Record recipientResult := mkResult {
  rr_Envelope : path;
  rr_Status : string;
  rr_SMTPCode : Z;
  rr_Diagnostic : string;
}.
#[export] Instance recipientResult_eq_dec : EqDecision recipientResult.
Proof. solve_decision. Defined.

Record outboundConfig := mkOutbound {
  oc_Strategy : string;
  oc_Hostname : string;
  oc_Smarthost : string;
  oc_Username : string;
  oc_Password : string;
}.

Record MRConfig := mkMRConfig {
  m_Hostname : string;
  m_Smarthost : string;
  m_User : string;
}.

Record Envelope := mkEnvelope_ { ev_Path : path; ev_env : queueEnvelope }.

(** Command-line flags; [fl_passwordFD] is negative when not given. *)
Record flags := mkFlags {
  fl_config : string;
  fl_smarthost : string;
  fl_smarthostUser : string;
  fl_passwordFD : Z;
  fl_hostname : string;
  fl_final : bool;
}.
Definition no_flags : flags := mkFlags "" "" "" (-1) "" false.

Definition exOK : Z := 0.
Definition exUsage : Z := 1.
Definition exUnavailable : Z := 69.
Definition exTempFail : Z := 75.

(** What the agent finds around it: its configuration file and environment,
    open descriptors, the host name. *)
Class AgentEnv := {
  config_Default : MRConfig;
  config_Load : string → option MRConfig;
  config_ApplyEnv : MRConfig → MRConfig;
  fd_password : Z → option string;
  env_password : string;
  os_Hostname : option string;
}.

(** The transport: outcomes for envelopes it was given. Transaction limits and
    the MTA-STS policy are inputs of the dialogue behind it. *)
Class Transport := {
  DeliverViaSmarthost : MRConfig → string → path → list Envelope → disk → list (path * outcome);
  DeliverViaMX : string → string → path → list Envelope → disk → list (path * outcome);
  smarthost_keys c pw b es w x :
    x ∈ DeliverViaSmarthost c pw b es w → x.1 ∈ ev_Path <$> es;
  mx_keys h d b es w x : x ∈ DeliverViaMX h d b es w → x.1 ∈ ev_Path <$> es;
}.

(** ** Envelopes *)
Definition RecipientDomain (e : Envelope) : option string :=
  match cut "@" (Recipient (ev_env e)) with
  | Some (_, d) => Some d
  | None => None
  end.

Definition envelope_valid (e : queueEnvelope) : bool :=
  negb (TTL e =? 0) && bool_decide (Sender e ≠ "") && bool_decide (Recipient e ≠ "")
  && bool_decide (e_MsgID e ≠ "").

(** ** Reporting *)
Definition report (x : path * outcome) : recipientResult :=
  match x.2 with
  | ODelivered => mkResult x.1 "delivered" 250 ""
  | OPermanent c d => mkResult x.1 "perm_fail" c d
  | OTemporary c d => mkResult x.1 "temp_fail" c d
  end.
Definition settled (o : outcome) : bool :=
  match o with OTemporary _ _ => false | _ => true end.
Definition is_temp (x : path * outcome) : bool := negb (settled x.2).
Definition is_perm (x : path * outcome) : bool :=
  match x.2 with OPermanent _ _ => true | _ => false end.

(** [os.Chtimes(path, now, now)]; an error is only logged. *)
Definition touch (p : path) (w : disk) : disk :=
  let '(t, w) := time_Now w in
  match sys w with
  | (Fault _, w) => w
  | (Done, w) =>
      match tree w !! p with
      | Some (File f) => set_tree <[p := File (mkFile (content f) t (f_owner f))]> w
      | _ => w
      end
  end.

(** The loop over the results: temporary failures are touched. *)
Definition touch_failed (rs : list (path * outcome)) (w : disk) : disk :=
  foldl (λ w x, if is_temp x then touch x.1 w else w) w rs.

Definition remove_all (ps : list path) (w : disk) : disk :=
  foldl (λ w p, (Remove p w).2) w ps.

(** [writeResultsAndCleanup]: nothing is deleted unless the report went out. *)
Definition writeResultsAndCleanup (output : list recipientResult) (toDelete : list path) (w : disk)
    : option (list recipientResult) * disk :=
  match sys w with
  | (Fault _, w) => (None, w)
  | (Done, w) => (Some output, remove_all toDelete w)
  end.

Definition exit_code (rs : list (path * outcome)) : Z :=
  if existsb is_perm rs && negb (existsb is_temp rs) then exUnavailable
  else if existsb is_temp rs then exTempFail else exOK.

(** [lr_ghost] keeps the transport's outcomes for the theorems. *)
Record runResult := mkRun {
  lr_exit : Z;
  lr_stdout : option (list recipientResult);
  lr_ghost : list (path * outcome);
}.

Definition finish (rs : list (path * outcome)) (w : disk) : runResult * disk :=
  let w := touch_failed rs w in
  match writeResultsAndCleanup (report <$> rs) (fst <$> filter (λ x, settled x.2) rs) w with
  | (None, w) => (mkRun exTempFail None rs, w)
  | (Some out, w) => (mkRun (exit_code rs) (Some out) rs, w)
  end.

Section Run.
Context `{EnvelopeJson, AgentEnv, Transport}.

Definition Parse (p : path) (w : disk) : option Envelope * disk :=
  match ReadFile p w with
  | (Err _, w) => (None, w)
  | (Ok data, w) =>
      (match dec_env data with
       | Some e => if envelope_valid e then Some (mkEnvelope_ p e) else None
       | None => None
       end, w)
  end.

Fixpoint parse_all (ps : list path) (w : disk) : option (list Envelope) * disk :=
  match ps with
  | [] => (Some [], w)
  | p :: ps =>
      match Parse p w with
      | (None, w) => (None, w)
      | (Some e, w) =>
          match parse_all ps w with
          | (Some es, w) => (Some (e :: es), w)
          | (None, w) => (None, w)
          end
      end
  end.

Definition override (v old : string) : string := if decide (v = "") then old else v.

(** Standard input is the baseline, flags override it. *)
Definition effective_config (fl : flags) (stdin : option outboundConfig) (cfg : MRConfig) : MRConfig :=
  let cfg := match stdin with
             | None => cfg
             | Some o => mkMRConfig (override (oc_Hostname o) (m_Hostname cfg))
                           (override (oc_Smarthost o) (m_Smarthost cfg))
                           (override (oc_Username o) (m_User cfg))
             end in
  mkMRConfig (override (fl_hostname fl) (m_Hostname cfg))
    (override (fl_smarthost fl) (m_Smarthost cfg))
    (override (fl_smarthostUser fl) (m_User cfg)).

(** [None] is an unreadable descriptor. *)
Definition effective_password (fl : flags) (stdin : option outboundConfig) : option string :=
  let pw := match stdin with Some o => oc_Password o | None => "" end in
  let r := if bool_decide (pw = "") && (0 <=? fl_passwordFD fl)
           then match fd_password (fl_passwordFD fl) with
                | None => None
                | Some d => Some (TrimSuffix (TrimSuffix d (String LF "")) (String CR ""))
                end
           else Some pw in
  match r with
  | Some pw => Some (if decide (pw = "") then env_password else pw)
  | None => None
  end.

(** The [switch strategy]; [None] is a usage error. *)
Definition use_smarthost (strategy : string) (cfg : MRConfig) : option bool :=
  if decide (strategy = "smarthost") then
    if decide (m_Smarthost cfg = "") then None else Some true
  else if decide (strategy = "direct") then Some false
  else if decide (strategy = "") then Some (bool_decide (m_Smarthost cfg ≠ ""))
  else None.

Definition usage (w : disk) : runResult * disk := (mkRun exUsage None [], w).

Definition run (fl : flags) (stdin : option outboundConfig) (args : list path) (w : disk)
    : runResult * disk :=
  match args with
  | bodyPath :: _ :: _ =>
      let envPaths := tail args in
      match (if decide (fl_config fl ≠ "") then config_Load (fl_config fl) else Some config_Default) with
      | None => usage w
      | Some cfg =>
          let cfg := effective_config fl stdin (config_ApplyEnv cfg) in
          match effective_password fl stdin with
          | None => usage w
          | Some password =>
              match Stat bodyPath w with
              | (Err _, w) => usage w
              | (Ok _, w) =>
                  match parse_all envPaths w with
                  | (None, w) => usage w
                  | (Some envs, w) =>
                      match use_smarthost (match stdin with Some o => oc_Strategy o | None => "" end) cfg with
                      | None => usage w
                      | Some true => finish (DeliverViaSmarthost cfg password bodyPath envs w) w
                      | Some false =>
                          match (if decide (m_Hostname cfg = "") then os_Hostname else Some (m_Hostname cfg)),
                                head envs with
                          | Some host, Some e0 =>
                              match RecipientDomain e0 with
                              | None => usage w
                              | Some domain => finish (DeliverViaMX host domain bodyPath envs w) w
                              end
                          | _, _ => usage w
                          end
                      end
                  end
              end
          end
      end
  | _ => usage w
  end.
End Run.

(** ** What the agent does to the queue *)
Definition holds (w : disk) (p : path) (c : string) : Prop :=
  ∃ f, tree w !! p = Some (File f) ∧ content f = c.

Lemma holds_steps S w w' p c : steps S w w' → ¬ S p → holds w p c → holds w' p c.
Proof. intros Hs Hp (f & Hf & Hc). exists f. by rewrite (steps_at S w w' p Hs Hp). Qed.

Lemma touch_spec (S : path → Prop) p w : S p →
  steps S w (touch p w) ∧ ∀ q c, holds w q c → holds (touch p w) q c.
Proof.
  intros Hp. unfold touch. pose proof (time_Now_steps S w) as H1. pose proof (time_Now_tree w) as T1.
  destruct (time_Now w) as [t w1]. pose proof (sys_steps S w1) as H2. pose proof (sys_tree w1) as T2.
  destruct (sys w1) as [[|] w2]; simpl in *.
  2:{ split; [by etrans|]. intros q c. unfold holds. by rewrite T2, T1. }
  assert (∀ q c, holds w q c → holds w2 q c) as Hw2 by (unfold holds; by rewrite T2, T1).
  destruct (tree w2 !! p) as [[|f]|] eqn:E; try (split; [by etrans|done]).
  split; [etrans; [exact H1|]; etrans; [exact H2|]; apply set_tree_steps; intros q Hq;
          rewrite lookup_insert_ne; congruence|].
  intros q c (g & Hg & Hc)%Hw2. destruct (decide (q = p)) as [->|Hq].
  - rewrite E in Hg. simplify_eq. eexists. simpl. by rewrite lookup_insert_eq.
  - exists g. simpl. by rewrite lookup_insert_ne.
Qed.

Lemma touch_failed_spec (S : path → Prop) rs w : (∀ x, x ∈ rs → S x.1) →
  steps S w (touch_failed rs w) ∧ ∀ q c, holds w q c → holds (touch_failed rs w) q c.
Proof.
  revert w. unfold touch_failed. induction rs as [|x rs IH]; intros w Hrs; [done|]. cbn [foldl].
  assert (steps S w (if is_temp x then touch x.1 w else w) ∧
          ∀ q c, holds w q c → holds (if is_temp x then touch x.1 w else w) q c) as [H1 K1].
  { destruct (is_temp x); [|done]. apply touch_spec, Hrs. by left. }
  destruct (IH (if is_temp x then touch x.1 w else w)) as [H2 K2].
  { intros y Hy. apply Hrs. by right. }
  split; [by etrans|auto].
Qed.

Lemma remove_all_steps (S : path → Prop) ps w : (∀ p, p ∈ ps → S p) → steps S w (remove_all ps w).
Proof.
  revert w. unfold remove_all. induction ps as [|p ps IH]; intros w Hps; [done|]. cbn [foldl].
  etrans; [apply Remove_steps, Hps; by left|]. apply IH. intros q Hq. apply Hps. by right.
Qed.

Section AgentFacts.
Context `{EnvelopeJson, AgentEnv, Transport}.

(** What a run did to one envelope: kept, or settled, reported and gone. *)
Definition accounted (r : runResult) (w' : disk) (p : path) (c : string) : Prop :=
  holds w' p c ∨
  ∃ o, (p, o) ∈ lr_ghost r ∧ settled o = true ∧ lr_stdout r = Some (report <$> lr_ghost r).

Lemma finish_spec (envs : list path) rs w :
  (∀ x, x ∈ rs → x.1 ∈ envs) →
  let '(r, w') := finish rs w in
  steps (λ q, q ∈ envs) w w' ∧ ∀ p c, holds w p c → accounted r w' p c.
Proof.
  intros Hrs. unfold finish, writeResultsAndCleanup.
  destruct (touch_failed_spec (λ q, q ∈ envs) rs w Hrs) as [Q1 K1].
  set (w1 := touch_failed rs w) in *. pose proof (sys_steps (λ q, q ∈ envs) w1) as Q2.
  pose proof (sys_tree w1) as T2. destruct (sys w1) as [[|] w2]; simpl in *.
  2:{ split; [by etrans|]. intros p c Hp. left. unfold holds. rewrite T2. by apply K1. }
  set (del := fst <$> filter (λ x, settled x.2) rs).
  assert (∀ p, p ∈ del → p ∈ envs ∧ ∃ o, (p, o) ∈ rs ∧ settled o = true) as Hdel.
  { intros p Hp. apply list_elem_of_fmap in Hp as ([q o] & -> & Hin).
    apply list_elem_of_filter in Hin as [Hs Hin]. simpl in *. split; [by apply (Hrs _ Hin)|].
    exists o. split; [done|]. by apply Is_true_true. }
  split.
  - etrans; [exact Q1|]. etrans; [exact Q2|]. apply remove_all_steps. naive_solver.
  - intros p c Hp%K1. destruct (decide (p ∈ del)) as [Hin|Hin].
    + right. destruct (Hdel p Hin) as (_ & o & ? & ?). by exists o.
    + left. eapply (holds_steps (λ q, q ∈ del)); [by apply remove_all_steps|done|].
      unfold holds. by rewrite T2.
Qed.

Lemma parse_all_spec S ps w :
  steps S w (parse_all ps w).2 ∧ tree (parse_all ps w).2 = tree w ∧
  ∀ es, (parse_all ps w).1 = Some es → ev_Path <$> es = ps.
Proof.
  revert w. induction ps as [|p ps IH]; intros w; simpl.
  { split_and!; [done..|]. by intros es [= <-]. }
  unfold Parse. pose proof (ReadFile_steps S p w) as Q1. pose proof (ReadFile_tree p w) as T1.
  destruct (ReadFile p w) as [[data|e] w1]; simpl in *; [|done].
  destruct (dec_env data) as [e|]; [|done]. destruct (envelope_valid e); [|done].
  destruct (IH w1) as (Q2 & T2 & Hes). destruct (parse_all ps w1) as [[es|] w2]; simpl in *.
  - split_and!; [by etrans|by rewrite T2|]. intros es' [= <-]. simpl. f_equal. by apply Hes.
  - split_and!; [by etrans|by rewrite T2|done].
Qed.

Lemma run_spec fl stdin body envs w :
  let '(r, w') := run fl stdin (body :: envs) w in
  steps (λ q, q ∈ envs) w w' ∧ ∀ p c, holds w p c → accounted r w' p c.
Proof.
  unfold run. set (S := λ q, q ∈ envs).
  assert (∀ w', tree w' = tree w → steps S w w' →
    let '(r, w1) := usage w' in steps S w w1 ∧ ∀ p c, holds w p c → accounted r w1 p c) as Hu.
  { intros w' Ht Hs. split; [done|]. intros p c Hp. left. unfold holds. by rewrite Ht. }
  destruct envs as [|e envs]; [by apply Hu|]. cbn [tail].
  destruct (if decide _ then _ else _) as [cfg|]; [|by apply Hu].
  destruct (effective_password fl stdin) as [pw|]; [|by apply Hu].
  pose proof (Stat_steps S body w) as Q1. pose proof (Stat_tree body w) as T1.
  destruct (Stat body w) as [[n|] w1]; simpl in Q1, T1; [|by apply Hu].
  destruct (parse_all_spec S (e :: envs) w1) as (Q2 & T2 & Hes).
  destruct (parse_all (e :: envs) w1) as [[es|] w2]; simpl in Q2, T2, Hes;
    [|apply Hu; [congruence|by etrans]].
  specialize (Hes es eq_refl).
  assert (∀ rs, (∀ x, x ∈ rs → x.1 ∈ ev_Path <$> es) →
    let '(r, w') := finish rs w2 in steps S w w' ∧ ∀ p c, holds w p c → accounted r w' p c) as Hf.
  { intros rs Hrs. rewrite Hes in Hrs. pose proof (finish_spec (e :: envs) rs w2 Hrs) as Hfin.
    destruct (finish rs w2) as [r w']. destruct Hfin as [Hs Ha]. split; [by do 2 (etrans; [done|])|].
    intros p c Hp. apply Ha. unfold holds. by rewrite T2, T1. }
  destruct (use_smarthost _ _) as [[|]|]; [apply Hf, smarthost_keys| |apply Hu; [congruence|by etrans]].
  destruct (if decide _ then _ else _) as [host|]; [|apply Hu; [congruence|by etrans]].
  destruct (head es) as [e0|]; [|apply Hu; [congruence|by etrans]].
  destruct (RecipientDomain e0); [apply Hf, mx_keys|apply Hu; [congruence|by etrans]].
Qed.

Lemma exit_code_ok rs : exit_code rs = exOK → Forall (λ x, x.2 = ODelivered) rs.
Proof.
  unfold exit_code. intros He. apply Forall_forall. intros [p o] Hin.
  assert (existsb is_temp rs = false ∧ existsb is_perm rs = false) as [Ht Hp].
  { destruct (existsb is_temp rs), (existsb is_perm rs); done. }
  assert (∀ f : path * outcome → bool, existsb f rs = false → f (p, o) = false) as Hf.
  { intros f Hf. destruct (f (p, o)) eqn:E; [|done]. rewrite <-Hf. symmetry.
    apply existsb_exists. exists (p, o). split; [by apply list_elem_of_In|done]. }
  apply Hf in Ht, Hp. by destruct o.
Qed.

Lemma run_exit_ok fl stdin args w :
  let r := (run fl stdin args w).1 in
  lr_exit r = exOK →
  lr_stdout r = Some (report <$> lr_ghost r) ∧ Forall (λ x, x.2 = ODelivered) (lr_ghost r).
Proof.
  assert (∀ rs w, let r := (finish rs w).1 in lr_exit r = exOK →
    lr_stdout r = Some (report <$> lr_ghost r) ∧ Forall (λ x, x.2 = ODelivered) (lr_ghost r)) as Hf.
  { intros rs w0. unfold finish, writeResultsAndCleanup.
    destruct (sys _) as [[|] w1]; simpl; [|done]. intros He. split; [done|]. by apply exit_code_ok. }
  unfold run. destruct args as [|b [|e envs]]; [done..|].
  repeat match goal with
  | |- context [finish _ _] => apply Hf
  | |- context [match ?x with _ => _ end] => destruct x
  end; done || apply Hf.
Qed.

(** The delivery agent touches no file but the envelopes it was given; an
    envelope leaves the queue only when the transport has settled it (delivered
    or failed for good) and that outcome has been reported to the caller; and
    exit status 0 means that every outcome was a delivery. *)
Lemma report_before_delete fl stdin body envs w :
  let '(r, w') := run fl stdin (body :: envs) w in
  (∀ q, q ∉ envs → tree w' !! q = tree w !! q) ∧
  (∀ p c, holds w p c → holds w' p c ∨
     ∃ o, (p, o) ∈ lr_ghost r ∧ settled o = true ∧ lr_stdout r = Some (report <$> lr_ghost r)) ∧
  (lr_exit r = exOK →
     lr_stdout r = Some (report <$> lr_ghost r) ∧ Forall (λ x, x.2 = ODelivered) (lr_ghost r)).
Proof.
  pose proof (run_spec fl stdin body envs w) as Hr.
  pose proof (run_exit_ok fl stdin (body :: envs) w) as He.
  destruct (run _ _ _ w) as [r w']. destruct Hr as [Hs Ha]. split_and!; [|exact Ha|exact He].
  intros q Hq. by apply (steps_at (λ q, q ∈ envs)).
Qed.
End AgentFacts.
