(* ===== verification/Scheduler.v ===== *)
(** * The queue scan of queue-manager

    Model of [src/internal/queue-manager/scheduler/scheduler.go] and
    [ratelimit.go]: one pass over [env/], with crash recovery, the rate
    limiter, the claim/dispatch/unclaim protocol, expiry, bounces and the sweep
    of orphan bodies. The dispatched agent is the one of [MailRemote]. Metrics
    and logging are left out. *)
From S2P Require Import Prelude GoStrings QueueFs Queue MailRemote.
From Stdlib Require Import ZArith Lia Ascii.
Open Scope string_scope.
Open Scope list_scope.
Open Scope Z_scope.

(** ** Environment *)
(** The float64 expression [float64(base) * math.Pow(2, age/doubling)] as a
    duration. *)
Class BackoffFloat := { backoff_float : Z → Z }.

(** float64 arithmetic as the token buckets use it. *)
Class Float64 := {
  F : Type;
  f_of : Z → F;
  f_add : F → F → F;
  f_sub : F → F → F;
  f_mul : F → F → F;
  f_div : F → F → F;
  f_gt : F → F → bool;
}.

(** [filepath.Match] on a name whose pattern part holds metacharacters. *)
Class GlobMeta := { glob_meta : string → string → bool }.

(** The order in which a map is ranged over. *)
Class MapOrder := {
  map_order : ∀ {A : Type}, list A → list A;
  map_order_perm {A} (l : list A) : map_order l ≡ₚ l;
}.

(** The bounce generator and the session-manager client: [None] is a failed
    generation, [false] a failed delivery. *)
Record BounceData := mkBounce {
  b_Origin : string;
  b_Recipient : string;
  b_Domain : string;
  b_SMTPCode : Z;
  b_Diagnostic : string;
  b_Headers : option string;
  b_QueuedAt : Z;
  b_ExpiredAt : Z;
  b_Hostname : string;
}.
Class Bounces := {
  Generate : BounceData → option string;
  DeliverDSN : string → string → bool;
  (** [json.Unmarshal] of what [json.Encode] wrote for a result list *)
  results_json : list recipientResult → option (list recipientResult);
}.

(** ** Names *)
Definition deliveringSuffix : string := ".delivering".

Definition extractMsgID (name : string) : option string :=
  if HasSuffix name deliveringSuffix then None
  else match cut_last "@" name with
       | None => None
       | Some (_, rest) =>
           match cut_last "." rest with
           | None => None
           | Some (id, _) => Some id
           end
       end.

(** A change of the last component of a path. *)
Definition on_name (f : string → string) (p : path) : path :=
  match reverse p with
  | n :: r => reverse (f n :: r)
  | [] => []
  end.
Definition claimed_path (p : path) : path := on_name (λ n, n +:+ deliveringSuffix) p.
Definition unclaimed_path (p : path) : path := on_name (λ n, TrimSuffix n deliveringSuffix) p.

Definition claim (p : path) (w : disk) : option path * disk :=
  match Rename p (claimed_path p) w with
  | (Err _, w) => (None, w)
  | (Ok _, w) => (Some (claimed_path p), w)
  end.
Definition unclaim (p : path) (w : disk) : bool * disk :=
  match Rename p (unclaimed_path p) w with
  | (Err _, w) => (false, w)
  | (Ok _, w) => (true, w)
  end.

Definition readdir (p : path) (w : disk) : option (list string) * disk :=
  match ReadDir p w with
  | (Ok l, w) => (Some l, w)
  | (Err ENOENT, w) => (Some [], w)
  | (Err _, w) => (None, w)
  end.

(** ** Rate limiting *)
Record DomainRateLimit := mkDRL { d_MessagesPerHour : Z; d_Burst : Z }.
Record RateLimitConfig := mkRLC {
  MessagesPerHour : Z;
  Burst : Z;
  Domains : gmap string DomainRateLimit;
}.

Section Limiter.
Context `{Float64}.

Record tokenBucket := mkBucket { tb_rate : F; tb_burst : F; tb_tokens : F; tb_lastTime : Z }.
Record domainLimiter := mkLimiter { dl_cfg : RateLimitConfig; buckets : gmap string tokenBucket }.

Definition newDomainLimiter (cfg : RateLimitConfig) : option domainLimiter :=
  if (MessagesPerHour cfg =? 0) && bool_decide (Domains cfg = ∅) then None
  else Some (mkLimiter cfg ∅).

(** [now.Sub(lastTime).Seconds()] *)
Definition seconds (d : Z) : F :=
  f_add (f_of (Z.quot d 1000000000)) (f_div (f_of (Z.rem d 1000000000)) (f_of 1000000000)).

Definition bucket_allow (n now : Z) (b : tokenBucket) : bool * tokenBucket :=
  let tokens := f_add (tb_tokens b) (f_mul (seconds (now - tb_lastTime b)) (tb_rate b)) in
  let tokens := if f_gt tokens (tb_burst b) then tb_burst b else tokens in
  if f_gt (f_of n) tokens then (false, mkBucket (tb_rate b) (tb_burst b) tokens now)
  else (true, mkBucket (tb_rate b) (tb_burst b) (f_sub tokens (f_of n)) now).

Definition limits_for (cfg : RateLimitConfig) (domain : string) : Z * Z :=
  match Domains cfg !! domain with
  | Some o => (d_MessagesPerHour o, if 0 <? d_Burst o then d_Burst o else Burst cfg)
  | None => (MessagesPerHour cfg, Burst cfg)
  end.

(** [bucket]: [None] when the domain is unlimited. *)
Definition bucket (domain : string) (dl : domainLimiter) (w : disk) : option tokenBucket * disk :=
  let '(mph, burst) := limits_for (dl_cfg dl) domain in
  if mph =? 0 then (None, w)
  else match buckets dl !! domain with
       | Some b => (Some b, w)
       | None =>
           let '(t, w) := time_Now w in
           (Some (mkBucket (f_div (f_of mph) (f_of 3600)) (f_of burst) (f_of burst) t), w)
       end.

Definition limiter_allow (domain : string) (n : Z) (dl : domainLimiter) (w : disk)
    : bool * domainLimiter * disk :=
  match bucket domain dl w with
  | (None, w) => (true, dl, w)
  | (Some b, w) =>
      let '(t, w) := time_Now w in
      let '(ok, b) := bucket_allow n t b in
      (ok, mkLimiter (dl_cfg dl) (<[domain := b]> (buckets dl)), w)
  end.
End Limiter.

(** ** Retry times, in nanoseconds *)
Definition minute : Z := 60000000000.
Definition hour : Z := 60 * minute.

Definition retryInterval `{BackoffFloat} (age : Z) : Z :=
  let base := 5 * minute in
  let maxBackoff := 4 * hour in
  if age <=? 0 then base
  else let interval := backoff_float age in
       if (maxBackoff <? interval) || (interval <=? 0) then maxBackoff else interval.

(** ** The scheduler *)
Section Sched.
Context `{EnvelopeJson, AgentEnv, Transport, BackoffFloat, Float64, GlobMeta, MapOrder, Bounces}.

Record SConfig := mkSConfig {
  sc_ConfigPath : string;
  sc_MessageTTL : Z;
  sc_Hostname : string;
  sc_dsnGen : bool;
  sc_deliverer : bool;
}.

(** [s_dsns]: the bounces handed to [DeliverDSN]; [s_log]: the outcomes the
    transport produced, kept for the theorems. *)
Record sched := mkSched {
  s_disk : disk;
  s_limiter : option domainLimiter;
  s_dsns : list BounceData;
  s_log : list (path * outcome);
}.
Definition put (s : sched) (w : disk) : sched :=
  mkSched w (s_limiter s) (s_dsns s) (s_log s).

Context (cfg : SConfig) (resolveOutbound : path → outboundConfig).

Definition parseEnvelope (p : path) (w : disk) : option queueEnvelope * disk :=
  match ReadFile p w with
  | (Err _, w) => (None, w)
  | (Ok data, w) => (dec_env data, w)
  end.

Definition isReady (p : path) (ttl : Z) (w : disk) : bool * disk :=
  match Stat p w with
  | (Err _, w) => (false, w)
  | (Ok n, w) =>
      let mt := match n with File f => mtime f | Dir _ => 0 end in
      let '(t, w) := time_Now w in
      let sinceLastAttempt := t - mt in
      if (ttl =? 0) || (sc_MessageTTL cfg <=? 0) then (5 * minute <=? sinceLastAttempt, w)
      else
        let created := ttl - sc_MessageTTL cfg in
        let '(t, w) := time_Now w in
        (retryInterval (t - created) <=? sinceLastAttempt, w)
  end.

(** [hasMeta] of path/filepath. *)
Definition hasMeta (s : string) : bool :=
  has_byte "*" s || has_byte "?" s || has_byte "[" s || has_byte "\" s.
Definition match_body (id name : string) : bool :=
  if hasMeta id then glob_meta id name else bool_decide (name = id).
Definition match_env (id name : string) : bool :=
  if hasMeta id then glob_meta ("*@" +:+ id +:+ ".*") name
  else Contains name ("@" +:+ id +:+ ".").

Definition resolveBody (msgid : string) (w : disk) : option path * disk :=
  let '(l, w) := glob3 ["msg"] (match_body msgid) w in (head l, w).
Definition bodyHasEnvelopes (msgid : string) (w : disk) : bool * disk :=
  let '(l, w) := glob3 ["env"] (match_env msgid) w in (bool_decide (l ≠ []), w).

(** [invoke]: runs the agent; the outbound settings travel on its standard
    input. No output, or output that is not JSON, is no result. *)
Definition invoke (bodyPath : path) (envPaths : list path) (final : bool) (outbound : outboundConfig)
    (s : sched) : list recipientResult * sched :=
  match sys (s_disk s) with
  | (Fault _, w) => ([], put s w)
  | (Done, w) =>
      let fl := mkFlags (sc_ConfigPath cfg) "" "" (-1) "" final in
      let stdin := mkOutbound (oc_Strategy outbound) (sc_Hostname cfg) (oc_Smarthost outbound)
                     (oc_Username outbound) (oc_Password outbound) in
      let '(r, w) := run fl (Some stdin) (bodyPath :: envPaths) w in
      let results := match lr_stdout r with
                     | Some out => default [] (results_json out)
                     | None => []
                     end in
      (results, mkSched w (s_limiter s) (s_dsns s) (s_log s ++ lr_ghost r))
  end.

(** [generateAndDeliverDSN]; the headers are read even when that fails. *)
Definition generateAndDeliverDSN (bodyPath : path) (env : queueEnvelope) (r : recipientResult)
    (domain : string) (expired : bool) (s : sched) : sched :=
  if negb (sc_dsnGen cfg) then s
  else if decide (Origin env = "") then s
  else
    let '(h, w) := ReadFile bodyPath (s_disk s) in
    let data := mkBounce (Origin env) (Recipient env) domain (rr_SMTPCode r) (rr_Diagnostic r)
                  (match h with Ok c => Some c | Err _ => None end) (Created env)
                  (if expired then TTL env else 0) (sc_Hostname cfg) in
    let s := put s w in
    match Generate data with
    | None => s
    | Some _ => if sc_deliverer cfg then mkSched (s_disk s) (s_limiter s) (s_dsns s ++ [data]) (s_log s)
                else s
    end.

Definition bounce_all (sel : string → bool) (expired : bool) (bodyPath : path)
    (rs : list recipientResult) (envByPath : gmap path queueEnvelope) (domain : string) (s : sched)
    : sched :=
  foldl (λ s r, if sel (rr_Status r)
                then generateAndDeliverDSN bodyPath (default zeroEnvelope (envByPath !! rr_Envelope r))
                       r domain expired s
                else s) s rs.
Definition generateDSNsForExpired := bounce_all (λ st, bool_decide (st ≠ "delivered")) true.
Definition generateDSNsForPermFail := bounce_all (λ st, bool_decide (st = "perm_fail")) false.

(** ** One domain directory *)
Record envEntry := mkEntry { ee_path : path; ee_expired : bool; ee_env : queueEnvelope }.

Fixpoint group_add (msgid : string) (e : envEntry) (gs : list (string * list envEntry))
    : list (string * list envEntry) :=
  match gs with
  | [] => [(msgid, [e])]
  | (m, es) :: gs => if decide (m = msgid) then (m, es ++ [e]) :: gs
                     else (m, es) :: group_add msgid e gs
  end.

(** The scan loop over the names of a directory. *)
Fixpoint scan_entries (domainPath : path) (names : list string) (gs : list (string * list envEntry))
    (w : disk) : list (string * list envEntry) * disk :=
  match names with
  | [] => (gs, w)
  | name :: rest =>
      match extractMsgID name with
      | None => scan_entries domainPath rest gs w
      | Some msgid =>
          let envPath := domainPath ++ [name] in
          match parseEnvelope envPath w with
          | (None, w) => scan_entries domainPath rest gs w
          | (Some env, w) =>
              let '(expired, w) :=
                if TTL env =? 0 then (false, w)
                else let '(t, w) := time_Now w in (TTL env <? t, w) in
              let '(ready, w) := if (expired : bool) then (true, w) else isReady envPath (TTL env) w in
              if (ready : bool)
              then scan_entries domainPath rest (group_add msgid (mkEntry envPath expired env) gs) w
              else scan_entries domainPath rest gs w
          end
      end
  end.

Fixpoint claim_all (es : list envEntry) (w : disk) : list (path * envEntry) * disk :=
  match es with
  | [] => ([], w)
  | e :: es =>
      match claim (ee_path e) w with
      | (None, w) => claim_all es w
      | (Some cp, w) => let '(l, w) := claim_all es w in ((cp, e) :: l, w)
      end
  end.

Definition remove_expired (es : list envEntry) (w : disk) : disk :=
  foldl (λ w e, if ee_expired e then (Remove (ee_path e) w).2 else w) w es.

(** Expired envelopes: one final attempt each, then removal. *)
Fixpoint final_attempts (bodyPath : path) (outbound : outboundConfig)
    (envByPath : gmap path queueEnvelope) (fqdn : string) (cl : list (path * envEntry)) (s : sched)
    : list path * sched :=
  match cl with
  | [] => ([], s)
  | (cp, e) :: cl =>
      if ee_expired e then
        let '(rs, s) := invoke bodyPath [cp] true outbound s in
        let s := generateDSNsForExpired bodyPath rs envByPath fqdn s in
        let s := put s (Remove cp (s_disk s)).2 in
        final_attempts bodyPath outbound envByPath fqdn cl s
      else let '(active, s) := final_attempts bodyPath outbound envByPath fqdn cl s in (cp :: active, s)
  end.

Definition unclaim_all (ps : list path) (w : disk) : disk :=
  foldl (λ w p, match Stat p w with
                | (Err _, w) => w
                | (Ok _, w) => (unclaim p w).2
                end) w ps.

Definition allow (fqdn : string) (n : Z) (s : sched) : bool * sched :=
  match s_limiter s with
  | None => (true, s)
  | Some dl =>
      let '(ok, dl, w) := limiter_allow fqdn n dl (s_disk s) in
      (ok, mkSched w (Some dl) (s_dsns s) (s_log s))
  end.

(** The batch of envelopes that are not expired. *)
Definition dispatch_active (bodyPath : path) (activePaths : list path) (outbound : outboundConfig)
    (envByPath : gmap path queueEnvelope) (fqdn : string) (s : sched) : sched :=
  match activePaths with
  | [] => s
  | _ => let '(results, s) := invoke bodyPath activePaths false outbound s in
         generateDSNsForPermFail bodyPath results envByPath fqdn s
  end.

(** A group whose body was found: claim, final attempts, batch, unclaim. *)
Definition dispatch (bodyPath : path) (fqdn : string) (entries : list envEntry) (s : sched) (w : disk)
    : sched :=
  let outbound := resolveOutbound bodyPath in
  let '(claimed, w) := claim_all entries w in
  let envByPath := list_to_map (reverse ((λ x, (x.1, ee_env x.2)) <$> claimed)) in
  let '(activePaths, s) := final_attempts bodyPath outbound envByPath fqdn claimed (put s w) in
  let s := dispatch_active bodyPath activePaths outbound envByPath fqdn s in
  put s (unclaim_all activePaths (s_disk s)).

(** One iteration of the loop over [byMsgID]. *)
Definition process_group (fqdn : string) (g : string * list envEntry) (s : sched) : sched :=
  let '(msgid, entries) := g in
  match allow fqdn (Z.of_nat (length entries)) s with
  | (false, s) => s
  | (true, s) =>
      match resolveBody msgid (s_disk s) with
      | (None, w) => put s (remove_expired entries w)
      | (Some bodyPath, w) =>
          dispatch bodyPath fqdn entries s w
      end
  end.

(** [cleanOrphanBodies]: every body no envelope refers to is removed. *)
Definition sweep_body (tld domain bodyName : string) (w : disk) : disk :=
  if HasPrefix bodyName "tmp_" then w
  else match bodyHasEnvelopes bodyName w with
       | (true, w) => w
       | (false, w) => (Remove ["msg"; tld; domain; bodyName] w).2
       end.
Definition for_dir (p : path) (body : string → disk → disk) (w : disk) : disk :=
  match readdir p w with
  | (None, w) => w
  | (Some l, w) => foldl (λ w x, body x w) w l
  end.
Definition cleanOrphanBodies (domainPath : path) (w : disk) : disk :=
  match readdir domainPath w with
  | (None, w) => w
  | (Some _, w) =>
      for_dir ["msg"] (λ tld, for_dir ["msg"; tld] (λ domain,
        for_dir ["msg"; tld; domain] (sweep_body tld domain))) w
  end.

Definition domainFromPath (tld domain : string) : string := domain +:+ "." +:+ tld.

(** [processDomainDir env/{tld}/{domain}]; [false] when it cannot be listed. *)
Definition processDomainDir (tld domain : string) (s : sched) : bool * sched :=
  let domainPath := ["env"; tld; domain] in
  match readdir domainPath (s_disk s) with
  | (None, w) => (false, put s w)
  | (Some names, w) =>
      let '(gs, w) := scan_entries domainPath names [] w in
      let s := foldl (λ s g, process_group (domainFromPath tld domain) g s) (put s w) (map_order gs) in
      (true, put s (cleanOrphanBodies domainPath (s_disk s)))
  end.

Definition scan_tld (tld : string) (s : sched) : sched :=
  match readdir ["env"; tld] (s_disk s) with
  | (None, w) => put s w
  | (Some domains, w) => foldl (λ s d, (processDomainDir tld d s).2) (put s w) domains
  end.
Definition scanEnvDir (s : sched) : bool * sched :=
  match readdir ["env"] (s_disk s) with
  | (None, w) => (false, put s w)
  | (Some tlds, w) => (true, foldl (λ s t, scan_tld t s) (put s w) tlds)
  end.

(** ** Crash recovery *)
Definition recover_name (tld domain name : string) (w : disk) : disk :=
  if HasSuffix name deliveringSuffix then (unclaim ["env"; tld; domain; name] w).2 else w.
Definition recoverStaleDeliveries (w : disk) : disk :=
  for_dir ["env"] (λ tld, for_dir ["env"; tld] (λ domain,
    for_dir ["env"; tld; domain] (recover_name tld domain))) w.

(** The queue depth that is reported after a pass. *)
Definition count_names (names : list string) : Z :=
  Z.of_nat (length (filter (λ n, is_Some (extractMsgID n)) names)).
Definition sum_dir (p : path) (f : string → disk → Z * disk) (w : disk) : Z * disk :=
  match readdir p w with
  | (None, w) => (0, w)
  | (Some l, w) => foldl (λ '(n, w) x, let '(m, w) := f x w in (n + m, w)) (0, w) l
  end.
Definition countEnvelopes (w : disk) : Z * disk :=
  sum_dir ["env"] (λ tld, sum_dir ["env"; tld] (λ domain w,
    match readdir ["env"; tld; domain] w with
    | (None, w) => (0, w)
    | (Some names, w) => (count_names names, w)
    end)) w.

(** [RunOnce]: the error of the scan, and the queue depth. *)
Definition RunOnce (s : sched) : bool * Z * sched :=
  let s := put s (recoverStaleDeliveries (s_disk s)) in
  let '(ok, s) := scanEnvDir s in
  let '(depth, w) := countEnvelopes (s_disk s) in
  (ok, depth, put s w).
End Sched.

(** ** Names of claimed envelopes *)
Lemma on_name_snoc f d n : on_name f (d ++ [n]) = d ++ [f n].
Proof. unfold on_name. by rewrite reverse_snoc, reverse_cons, reverse_involutive. Qed.
Lemma claimed_path_snoc d n : claimed_path (d ++ [n]) = d ++ [n +:+ deliveringSuffix].
Proof. exact (on_name_snoc (λ n, n +:+ deliveringSuffix) d n). Qed.
Lemma unclaimed_claimed d n : unclaimed_path (d ++ [n +:+ deliveringSuffix]) = d ++ [n].
Proof. unfold unclaimed_path. by rewrite on_name_snoc, TrimSuffix_app. Qed.
Lemma extractMsgID_plain n id : extractMsgID n = Some id → HasSuffix n deliveringSuffix = false.
Proof. unfold extractMsgID. by destruct (HasSuffix n deliveringSuffix). Qed.

(** An envelope that is not in flight. *)
Definition plain (p : path) : Prop := ∃ d n, p = d ++ [n] ∧ HasSuffix n deliveringSuffix = false.

Lemma plain_not_claimed p q : plain p → plain q → p ≠ claimed_path q.
Proof.
  intros (d & n & -> & Hn) (d' & n' & -> & _). rewrite claimed_path_snoc.
  intros [_ ->]%app_inj_tail. by rewrite HasSuffix_app in Hn.
Qed.
Lemma claimed_path_inj p q : plain p → plain q → claimed_path p = claimed_path q → p = q.
Proof.
  intros (d & n & -> & Hn) (d' & n' & -> & _). rewrite !claimed_path_snoc.
  intros [-> E]%app_inj_tail. apply (f_equal (λ s, TrimSuffix s deliveringSuffix)) in E.
  by rewrite !TrimSuffix_app in E; subst.
Qed.
Lemma unclaimed_plain p : plain p → unclaimed_path (claimed_path p) = p.
Proof. intros (d & n & -> & _). by rewrite claimed_path_snoc, unclaimed_claimed. Qed.

(** ** What each step touches *)
Lemma readdir_steps S p w : steps S w (readdir p w).2.
Proof.
  unfold readdir. pose proof (ReadDir_steps S p w). by destruct (ReadDir p w) as [[|[]] w1].
Qed.
Lemma readdir_tree p w : tree (readdir p w).2 = tree w.
Proof.
  unfold readdir. pose proof (ReadDir_tree p w). by destruct (ReadDir p w) as [[|[]] w1].
Qed.
(** A listing is that of the directory, each name once. *)
Lemma readdir_names p w l : (readdir p w).1 = Some l →
  NoDup l ∧ ∀ n, n ∈ l → is_Some (tree w !! (p ++ [n])).
Proof.
  unfold readdir, ReadDir. pose proof (sys_tree w) as Ht.
  destruct (sys w) as [[|] w1]; simpl in *; [|done]. rewrite <-Ht.
  destruct (node_at _ p) as [[]|]; simpl; [|done|].
  - intros [= <-]. split; [apply NoDup_children|]. intros n. apply elem_of_children.
  - intros [= <-]. split; [constructor|]. by intros n ?%elem_of_nil.
Qed.
#[export] Hint Resolve readdir_steps : disk.

Lemma for_dir_steps (S : path → Prop) p body w :
  (∀ x w, steps S w (body x w)) → steps S w (for_dir p body w).
Proof.
  intros Hb. unfold for_dir. pose proof (readdir_steps S p w) as Hr.
  destruct (readdir p w) as [[l|] w1]; [|done]. simpl in Hr. etrans; [exact Hr|].
  clear -Hb. revert w1. induction l as [|x l IH]; intros w1; [done|]. simpl.
  etrans; [apply Hb|apply IH].
Qed.

Lemma claim_steps (S : path → Prop) p w : S p → S (claimed_path p) → steps S w (claim p w).2.
Proof.
  intros Hp Hc. unfold claim. pose proof (Rename_steps S p (claimed_path p) w Hp Hc).
  by destruct (Rename _ _ w) as [[] w1].
Qed.
Lemma unclaim_steps (S : path → Prop) p w : S p → S (unclaimed_path p) → steps S w (unclaim p w).2.
Proof.
  intros Hp Hc. unfold unclaim. pose proof (Rename_steps S p (unclaimed_path p) w Hp Hc).
  by destruct (Rename _ _ w) as [[] w1].
Qed.

Section Frames.
Context `{EnvelopeJson, AgentEnv, Transport, BackoffFloat, Float64, GlobMeta, MapOrder, Bounces}.
Context (cfg : SConfig) (ob : path → outboundConfig).

Lemma parseEnvelope_steps S p w : steps S w (parseEnvelope p w).2.
Proof.
  unfold parseEnvelope. pose proof (ReadFile_steps S p w). by destruct (ReadFile p w) as [[] w1].
Qed.
Lemma isReady_steps S p ttl w : steps S w (isReady cfg p ttl w).2.
Proof.
  unfold isReady. pose proof (Stat_steps S p w) as E1. destruct (Stat p w) as [[n|] w1]; [|done].
  pose proof (time_Now_steps S w1) as E2. destruct (time_Now w1) as [t w2].
  destruct (_ || _); [by etrans|].
  pose proof (time_Now_steps S w2) as E3. destruct (time_Now w2) as [t' w3].
  simpl in *. by do 2 (etrans; [done|]).
Qed.

Lemma resolveBody_steps S id w : steps S w (resolveBody id w).2.
Proof.
  unfold resolveBody. pose proof (glob3_steps S ["msg"] (match_body id) w).
  by destruct (glob3 _ _ w).
Qed.
Lemma bodyHasEnvelopes_steps S id w : steps S w (bodyHasEnvelopes id w).2.
Proof.
  unfold bodyHasEnvelopes. pose proof (glob3_steps S ["env"] (match_env id) w).
  by destruct (glob3 _ _ w).
Qed.

Lemma allow_steps S fqdn n s : let '(_, s') := allow fqdn n s in
  steps S (s_disk s) (s_disk s') ∧ s_log s' = s_log s ∧ s_dsns s' = s_dsns s.
Proof.
  unfold allow. destruct (s_limiter s) as [dl|]; [|done]. unfold limiter_allow, bucket.
  destruct (limits_for _ _) as [mph burst].
  assert (∀ w b, steps S (s_disk s) w → let '(_, s') :=
      (let '(ok, dl, w0) := (let '(t, w0) := time_Now w in let '(ok, b) := bucket_allow n t b in
         (ok, mkLimiter (dl_cfg dl) (<[fqdn := b]> (buckets dl)), w0)) in
       (ok, mkSched w0 (Some dl) (s_dsns s) (s_log s))) in
      steps S (s_disk s) (s_disk s') ∧ s_log s' = s_log s ∧ s_dsns s' = s_dsns s) as Hgo.
  { intros w b Hw. pose proof (time_Now_steps S w). destruct (time_Now w) as [t w1].
    destruct (bucket_allow n t b). split_and!; [by etrans|done..]. }
  destruct (mph =? 0); [done|]. destruct (buckets dl !! fqdn) as [b|]; [by apply Hgo|].
  pose proof (time_Now_steps S (s_disk s)). destruct (time_Now (s_disk s)) as [t w1]. by apply Hgo.
Qed.

(** The agent touches the envelopes it is given and accounts for each. *)
Lemma invoke_spec body envs final o s :
  let '(rs, s') := invoke cfg body envs final o s in
  steps (λ q, q ∈ envs) (s_disk s) (s_disk s') ∧ s_dsns s' = s_dsns s ∧
  (∃ l, s_log s' = s_log s ++ l) ∧
  ∀ p c, holds (s_disk s) p c →
    holds (s_disk s') p c ∨ ∃ oc, (p, oc) ∈ s_log s' ∧ settled oc = true.
Proof.
  unfold invoke. pose proof (sys_steps (λ q, q ∈ envs) (s_disk s)) as E1.
  pose proof (sys_tree (s_disk s)) as T1. destruct (sys (s_disk s)) as [[|] w1]; cbn [snd] in E1, T1.
  2:{ simpl. split_and!; [done..|exists []; by rewrite app_nil_r|].
      intros p c Hp. left. unfold holds in *. simpl. by rewrite T1. }
  pose proof (run_spec (mkFlags (sc_ConfigPath cfg) "" "" (-1) "" final)
    (Some (mkOutbound (oc_Strategy o) (sc_Hostname cfg) (oc_Smarthost o) (oc_Username o) (oc_Password o)))
    body envs w1) as Hr.
  destruct (run _ _ _ w1) as [r w2]. destruct Hr as [E2 Ha]. simpl.
  split_and!; [by etrans|done|by eexists|].
  intros p c Hp. destruct (Ha p c) as [?|(oc & Hin & Hs & _)]; [unfold holds in *; by rewrite T1|by left|].
  right. exists oc. split; [|done]. apply elem_of_app. by right.
Qed.

Lemma generateAndDeliverDSN_steps S body env r dom ex s :
  let s' := generateAndDeliverDSN cfg body env r dom ex s in
  steps S (s_disk s) (s_disk s') ∧ tree (s_disk s') = tree (s_disk s) ∧ s_log s' = s_log s.
Proof.
  unfold generateAndDeliverDSN. destruct (negb _); [done|]. destruct (decide _); [done|].
  pose proof (ReadFile_steps S body (s_disk s)) as E1. pose proof (ReadFile_tree body (s_disk s)) as T1.
  destruct (ReadFile body (s_disk s)) as [h w]. simpl in *.
  destruct (Generate _); [|done]. by destruct (sc_deliverer cfg).
Qed.
Lemma bounce_all_steps S sel ex body rs m dom s :
  let s' := bounce_all cfg sel ex body rs m dom s in
  steps S (s_disk s) (s_disk s') ∧ tree (s_disk s') = tree (s_disk s) ∧ s_log s' = s_log s.
Proof.
  unfold bounce_all. apply (foldl_inv _ (λ s', steps S (s_disk s) (s_disk s') ∧
    tree (s_disk s') = tree (s_disk s) ∧ s_log s' = s_log s)); [|done].
  intros r s' _ (E & T & L). destruct (sel _); [|done].
  pose proof (generateAndDeliverDSN_steps S body (default zeroEnvelope (m !! rr_Envelope r)) r dom ex s')
    as (E' & T' & L').
  split_and!; [by etrans|by rewrite T'|by rewrite L'].
Qed.
End Frames.

(** ** The scan of one directory *)
Section Scan.
Context `{EnvelopeJson, AgentEnv, Transport, BackoffFloat, Float64, GlobMeta, MapOrder, Bounces}.
Context (cfg : SConfig) (ob : path → outboundConfig).

Definition flat (gs : list (string * list envEntry)) : list envEntry := gs ≫= snd.

Lemma flat_perm gs gs' : gs ≡ₚ gs' → flat gs ≡ₚ flat gs'.
Proof. unfold flat. by intros ->. Qed.
Lemma flat_group_add m e gs : flat (group_add m e gs) ≡ₚ e :: flat gs.
Proof.
  induction gs as [|[m' es] gs IH]; [done|]. simpl. case_decide; cbn [flat mbind list_bind snd].
  - fold (flat gs). rewrite <-(assoc_L (++)). symmetry. apply Permutation_middle.
  - fold (flat gs). fold (flat (group_add m e gs)). rewrite IH. symmetry. apply Permutation_middle.
Qed.

(** An entry describes its file, and an expired one is past its TTL. *)
Definition entry_ok (w : disk) (e : envEntry) : Prop :=
  (∃ c, holds w (ee_path e) c ∧ dec_env c = Some (ee_env e)) ∧
  (ee_expired e = true → TTL (ee_env e) ≠ 0 ∧ TTL (ee_env e) < now w).

Lemma entry_ok_steps w w' e : tree w' = tree w → now w <= now w' → entry_ok w e → entry_ok w' e.
Proof.
  intros Ht Hn [(c & Hh & Hd) Hx]. split; [exists c; unfold holds; by rewrite Ht|].
  intros [? ?]%Hx. lia.
Qed.

Lemma steps_tree w w' : steps none w w' → tree w' = tree w ∧ now w <= now w'.
Proof. intros [Ht Hn]. split; [|done]. apply map_eq. intros p. apply Ht. by intros []. Qed.

Definition name_ok (D : path) (names : list string) (e : envEntry) : Prop :=
  ∃ n id, n ∈ names ∧ ee_path e = D ++ [n] ∧ extractMsgID n = Some id.

Lemma scan_entries_spec D names gs w :
  NoDup names → NoDup (ee_path <$> flat gs) →
  (∀ e n, e ∈ flat gs → n ∈ names → ee_path e ≠ D ++ [n]) →
  let '(gs', w') := scan_entries cfg D names gs w in
  steps none w w' ∧ NoDup (ee_path <$> flat gs') ∧
  ∀ e, e ∈ flat gs' → e ∈ flat gs ∨ name_ok D names e ∧ entry_ok w' e.
Proof.
  revert gs w. induction names as [|name rest IH]; intros gs w Hnd Hg Hdis; simpl.
  { split_and!; [done..|]. by left. }
  apply NoDup_cons in Hnd as [Hname Hnd].
  assert (∀ gs1 w1, steps none w w1 → NoDup (ee_path <$> flat gs1) →
    (∀ e, e ∈ flat gs1 → e ∈ flat gs ∨
       (∃ id, ee_path e = D ++ [name] ∧ extractMsgID name = Some id) ∧ entry_ok w1 e) →
    let '(gs', w') := scan_entries cfg D rest gs1 w1 in
    steps none w w' ∧ NoDup (ee_path <$> flat gs') ∧
    ∀ e, e ∈ flat gs' → e ∈ flat gs ∨ name_ok D (name :: rest) e ∧ entry_ok w' e) as Hgo.
  { intros gs1 w1 Hs1 Hnd1 Hin1. specialize (IH gs1 w1 Hnd Hnd1).
    destruct (scan_entries cfg D rest gs1 w1) as [gs' w'].
    destruct IH as (Hs2 & Hnd2 & Hin2).
    { intros e n He Hn E. destruct (Hin1 e He) as [He'|[(id & E' & _) _]].
      - apply (Hdis e n He'); [by right|done].
      - rewrite E' in E. apply app_inj_tail in E as [_ ->]. done. }
    split_and!; [by etrans|done|]. intros e He. destruct (Hin2 e He) as [He'|[(n & id & ? & ? & ?) Hok]].
    - destruct (Hin1 e He') as [?|[(id & ? & ?) Hok]]; [by left|right]. split.
      + exists name, id. split_and!; [by left|done..].
      + apply steps_tree in Hs2 as [? ?]. by eapply entry_ok_steps.
    - right. split; [|done]. exists n, id. split_and!; [by right|done..]. }
  destruct (extractMsgID name) as [id|] eqn:Eid; [|apply Hgo; [done..|by left]].
  pose proof (parseEnvelope_steps none (D ++ [name]) w) as E1.
  assert (∀ env w1, parseEnvelope (D ++ [name]) w = (Some env, w1) →
            ∃ c, holds w (D ++ [name]) c ∧ dec_env c = Some env) as Hparse.
  { intros env w1. unfold parseEnvelope, ReadFile. pose proof (sys_tree w) as T.
    destruct (sys w) as [[|] w2]; simpl in *; [|done].
    unfold node_at. rewrite decide_False by (by destruct D). rewrite T.
    destruct (tree w !! (D ++ [name])) as [[|f]|] eqn:E; [done| |done].
    intros [= ? <-]. exists (content f). split; [by exists f|done]. }
  destruct (parseEnvelope (D ++ [name]) w) as [[env|] w1]; simpl in E1; [|by apply Hgo; [..|by left]].
  destruct (Hparse _ _ eq_refl) as (c & Hc & Hdec). clear Hparse.
  set (exp := if TTL env =? 0 then _ else _).
  assert (steps none w1 exp.2 ∧ (exp.1 = true → TTL env ≠ 0 ∧ TTL env < now exp.2)) as [E2 Hexp].
  { unfold exp. destruct (TTL env =? 0) eqn:E0; [done|]. apply Z.eqb_neq in E0.
    pose proof (time_Now_steps none w1) as E2.
    assert ((time_Now w1).1 = now (time_Now w1).2) as Et by (unfold time_Now; by destruct (ticks w1)).
    destruct (time_Now w1) as [t w2]. simpl in *. split; [done|]. intros ?%Z.ltb_lt. lia. }
  destruct exp as [ex w2]. simpl in E2, Hexp.
  set (rdy := if ex then _ else _).
  assert (steps none w2 rdy.2) as E3 by (unfold rdy; destruct ex; [done|apply isReady_steps]).
  destruct rdy as [rd w3]. simpl in E3.
  assert (steps none w w3) as E by (by do 2 (etrans; [done|])).
  destruct rd; [|by apply Hgo; [..|by left]].
  apply Hgo; [done| |].
  - rewrite flat_group_add. simpl. apply NoDup_cons. split; [|done].
    intros (e & Ee & He)%list_elem_of_fmap. apply (Hdis e name He); [by left|by rewrite <-Ee].
  - intros e. rewrite flat_group_add. intros [->|He]%elem_of_cons; [right|by left].
    split; [by exists id|]. pose proof (steps_tree _ _ E) as [Ht Hn].
    pose proof (steps_tree _ _ E3) as [_ Hn3]. split.
    + exists c. split; [|done]. unfold holds in *. simpl. by rewrite Ht.
    + simpl. intros [? ?]%Hexp. lia.
Qed.
End Scan.

(** ** One message group *)
Section Group.
Context `{EnvelopeJson, AgentEnv, Transport, BackoffFloat, Float64, GlobMeta, MapOrder, Bounces}.
Context (cfg : SConfig) (ob : path → outboundConfig).

Definition touched (es : list envEntry) (q : path) : Prop :=
  ∃ e, e ∈ es ∧ (q = ee_path e ∨ q = claimed_path (ee_path e)).

Lemma touched_cons e es q : touched es q → touched (e :: es) q.
Proof. intros (e' & ? & ?). exists e'. split; [by right|done]. Qed.

(** A path that is another envelope's is neither claimed nor unclaimed. *)
Lemma not_touched es p : plain p → Forall (λ e, plain (ee_path e)) es →
  p ∉ ee_path <$> es → ¬ touched es p ∧ ¬ touched es (claimed_path p).
Proof.
  intros Hp Hes Hnin. rewrite Forall_forall in Hes.
  split; intros (e & He & [E|E]).
  - apply Hnin. subst. by apply list_elem_of_fmap_2.
  - by apply (plain_not_claimed p (ee_path e) Hp (Hes e He)).
  - by apply (plain_not_claimed (ee_path e) p (Hes e He) Hp).
  - apply claimed_path_inj in E; [|done|by apply Hes]. apply Hnin. subst. by apply list_elem_of_fmap_2.
Qed.

Lemma claim_spec p w : let '(r, w') := claim p w in
  match r with
  | None => ∀ c, holds w p c → holds w' p c
  | Some cp => cp = claimed_path p ∧ ∀ c, holds w p c → holds w' cp c
  end.
Proof.
  unfold claim. pose proof (Rename_cases p (claimed_path p) w) as Hr.
  destruct (Rename _ _ w) as [[[]|e] w1].
  - destruct Hr as (g & Hg & _ & Ht). split; [done|]. intros c (f & Hf & Hc).
    rewrite Hf in Hg. simplify_eq. exists g. by rewrite Ht, lookup_insert_eq.
  - intros c (f & Hf & Hc). exists f. by rewrite Hr.
Qed.

Lemma elem_of_Forall {A} (P : A → Prop) l x : Forall P l → x ∈ l → P x.
Proof. rewrite Forall_forall. auto. Qed.

Lemma claim_all_spec es w :
  Forall (λ e, plain (ee_path e)) es → NoDup (ee_path <$> es) →
  let '(cl, w') := claim_all es w in
  steps (touched es) w w' ∧ Forall (λ x, x.1 = claimed_path (ee_path x.2)) cl ∧
  sublist (snd <$> cl) es ∧
  ∀ e c, e ∈ es → holds w (ee_path e) c →
    (holds w' (ee_path e) c ∧ e ∉ snd <$> cl) ∨ (holds w' (claimed_path (ee_path e)) c ∧ e ∈ snd <$> cl).
Proof.
  revert w. induction es as [|e es IH]; intros w Hpl Hnd; simpl.
  { split_and!; [done|constructor..|]. by intros e c ?%elem_of_nil. }
  apply Forall_cons in Hpl as [Hpe Hpl]. apply NoDup_cons in Hnd as [Hnin Hnd].
  assert (∀ S : path → Prop, (∀ q, touched [e] q → S q) → steps S w (claim (ee_path e) w).2) as E1.
  { intros S HS. apply claim_steps; apply HS; exists e; (split; [by left|by auto]). }
  pose proof (claim_spec (ee_path e) w) as Hcl.
  assert (∀ e' c, e' ∈ es → holds w (ee_path e') c → holds (claim (ee_path e) w).2 (ee_path e') c) as Hoth.
  { intros e' c He' Hh. eapply (holds_steps (touched [e])); [by apply E1| |exact Hh].
    apply not_touched; [by apply (elem_of_Forall _ _ _ Hpl)|by constructor|].
    simpl. intros E%list_elem_of_singleton. apply Hnin. rewrite <-E. by apply list_elem_of_fmap_2. }
  assert (steps (touched (e :: es)) w (claim (ee_path e) w).2) as E1'.
  { apply E1. intros q (e' & ->%list_elem_of_singleton & ?). exists e. split; [by left|done]. }
  destruct (not_touched es (ee_path e) Hpe Hpl Hnin) as [Hn1 Hn2].
  assert (∀ l, sublist (snd <$> l) es → e ∉ snd <$> (l : list (path * envEntry))) as Hnot.
  { intros l Hl Hin. apply Hnin. apply list_elem_of_fmap_2. by eapply elem_of_sublist. }
  destruct (claim (ee_path e) w) as [[cp|] w1]; cbn [snd] in E1', Hoth; specialize (IH w1 Hpl Hnd);
    destruct (claim_all es w1) as [cl w2]; destruct IH as (E2 & Hf & Hsub & Hall);
    pose proof (steps_mono _ (touched (e :: es)) _ _ (touched_cons e es) E2) as E2';
    specialize (Hnot cl Hsub); (split; [by etrans|]).
  - destruct Hcl as [-> Hcl]. split_and!; [by constructor|by constructor|].
    intros e' c [->|He']%elem_of_cons Hh.
    + right. split; [|by left]. eapply (holds_steps (touched es)); [exact E2|done|by apply Hcl].
    + destruct (Hall e' c He' (Hoth e' c He' Hh)) as [[? Hni]|[? ?]].
      * left. split; [done|]. simpl. intros [->|?]%elem_of_cons; [|done].
        apply Hnin. by apply list_elem_of_fmap_2.
      * right. split; [done|]. by right.
  - split_and!; [done|by apply sublist_cons|]. intros e' c [->|He']%elem_of_cons Hh.
    + left. split; [|done]. eapply (holds_steps (touched es)); [exact E2|done|by apply Hcl].
    + apply Hall; [done|by apply Hoth].
Qed.

(** Final attempts touch expired envelopes only; the others stay claimed. *)
Lemma final_attempts_spec body o m fqdn cl s :
  let '(active, s') := final_attempts cfg body o m fqdn cl s in
  steps (λ q, ∃ x, x ∈ cl ∧ ee_expired x.2 = true ∧ q = x.1) (s_disk s) (s_disk s') ∧
  (∃ l, s_log s' = s_log s ++ l) ∧
  active = fst <$> filter (λ x, ee_expired x.2 = false) cl.
Proof.
  revert s. induction cl as [|[cp e] cl IH]; intros s; cbn [final_attempts].
  { split_and!; [done|exists []; by rewrite app_nil_r|done]. }
  set (S := λ q, ∃ x, x ∈ (cp, e) :: cl ∧ ee_expired x.2 = true ∧ q = x.1).
  assert (∀ q, (∃ x, x ∈ cl ∧ ee_expired x.2 = true ∧ q = x.1) → S q) as Htail.
  { intros q (x & ? & ?). exists x. split; [by right|done]. }
  destruct (ee_expired e) eqn:Ee.
  - pose proof (invoke_spec cfg body [cp] true o s) as Hi.
    destruct (invoke cfg body [cp] true o s) as [rs s1]. destruct Hi as (E1 & _ & [l1 L1] & _).
    assert (S cp) as Hcp by (exists (cp, e); split; [by left|done]).
    apply (steps_mono _ S) in E1; [|by intros q ->%list_elem_of_singleton].
    destruct (bounce_all_steps cfg S (λ st, bool_decide (st ≠ "delivered")) true body rs m fqdn s1)
      as (E2 & _ & L2).
    fold (generateDSNsForExpired cfg body rs m fqdn s1) in E2, L2.
    set (s2 := generateDSNsForExpired cfg body rs m fqdn s1) in *.
    pose proof (Remove_steps S cp (s_disk s2) Hcp) as E3.
    set (s3 := put s2 (Remove cp (s_disk s2)).2). specialize (IH s3).
    destruct (final_attempts cfg body o m fqdn cl s3) as [active s4].
    destruct IH as (E4 & [l4 L4] & ->). split_and!.
    + etrans; [exact E1|]. etrans; [exact E2|]. etrans; [exact E3|]. exact (steps_mono _ S _ _ Htail E4).
    + exists (l1 ++ l4). rewrite L4. unfold s3. simpl. rewrite L2, L1. by rewrite (assoc_L (++)).
    + by rewrite filter_cons_False by (simpl; congruence).
  - specialize (IH s). destruct (final_attempts cfg body o m fqdn cl s) as [active s1].
    destruct IH as (E & L & ->). split_and!; [exact (steps_mono _ S _ _ Htail E)|done|].
    by rewrite filter_cons_True.
Qed.

(** Unclaiming restores an envelope that is still there, or leaves it claimed. *)
Definition unclaim_one (w : disk) (p : path) : disk :=
  match Stat p w with
  | (Err _, w) => w
  | (Ok _, w) => (unclaim p w).2
  end.

Lemma unclaim_one_spec p w : plain p →
  steps (λ q, q = p ∨ q = claimed_path p) w (unclaim_one w (claimed_path p)) ∧
  ∀ c, holds w (claimed_path p) c →
    holds (unclaim_one w (claimed_path p)) p c ∨ holds (unclaim_one w (claimed_path p)) (claimed_path p) c.
Proof.
  intros Hp. unfold unclaim_one. set (S := λ q, q = p ∨ q = claimed_path p).
  pose proof (Stat_steps S (claimed_path p) w) as E1. pose proof (Stat_tree (claimed_path p) w) as T1.
  destruct (Stat (claimed_path p) w) as [[n|] w1]; simpl in E1, T1.
  2:{ split; [done|]. intros c Hh. right. unfold holds. by rewrite T1. }
  unfold unclaim. rewrite unclaimed_plain by done.
  assert (steps S w1 (Rename (claimed_path p) p w1).2) as E2 by (apply Rename_steps; unfold S; auto).
  pose proof (Rename_cases (claimed_path p) p w1) as Hr.
  destruct (Rename _ p w1) as [[[]|e] w2]; simpl in *; (split; [by etrans|]); intros c (f & Hf & Hc).
  - destruct Hr as (g & Hg & _ & Ht). rewrite T1, Hf in Hg. simplify_eq. left.
    exists g. by rewrite Ht, lookup_insert_eq.
  - right. exists f. by rewrite Hr, T1.
Qed.

Lemma unclaim_all_spec es w :
  Forall (λ e, plain (ee_path e)) es → NoDup (ee_path <$> es) →
  let w' := unclaim_all ((λ e, claimed_path (ee_path e)) <$> es) w in
  steps (touched es) w w' ∧
  ∀ e c, e ∈ es → holds w (claimed_path (ee_path e)) c →
    holds w' (ee_path e) c ∨ holds w' (claimed_path (ee_path e)) c.
Proof.
  unfold unclaim_all. revert w. induction es as [|e es IH]; intros w Hpl Hnd; simpl.
  { split; [done|]. by intros e c ?%elem_of_nil. }
  apply Forall_cons in Hpl as [Hpe Hpl]. apply NoDup_cons in Hnd as [Hnin Hnd].
  fold (unclaim_one w (claimed_path (ee_path e))).
  destruct (unclaim_one_spec (ee_path e) w Hpe) as [E1 K1].
  set (w1 := unclaim_one w (claimed_path (ee_path e))) in *.
  destruct (IH w1 Hpl Hnd) as [E2 K2]. simpl in E2, K2.
  destruct (not_touched es (ee_path e) Hpe Hpl Hnin) as [Hn1 Hn2]. split.
  - etrans; [|eapply steps_mono; [apply touched_cons|exact E2]].
    eapply steps_mono; [|exact E1]. intros q Hq. exists e. split; [by left|done].
  - intros e' c [->|He']%elem_of_cons Hh.
    + destruct (K1 c Hh) as [?|?]; [left|right]; by eapply holds_steps.
    + apply K2; [done|]. eapply holds_steps; [exact E1| |exact Hh].
      pose proof (elem_of_Forall _ _ _ Hpl He') as Hp'. simpl in Hp'. intros [E|E].
      * by apply (plain_not_claimed (ee_path e) (ee_path e')).
      * apply claimed_path_inj in E; [|done..]. apply Hnin. rewrite <-E. by apply list_elem_of_fmap_2.
Qed.

Lemma remove_expired_steps (S : path → Prop) es w :
  (∀ e, e ∈ es → ee_expired e = true → S (ee_path e)) → steps S w (remove_expired es w).
Proof.
  intros HS. unfold remove_expired. apply (foldl_inv _ (steps S w)); [|done].
  intros e w' He Hw. destruct (ee_expired e) eqn:Ee; [|done].
  etrans; [exact Hw|]. apply Remove_steps. by apply HS.
Qed.

(** The fate of an envelope with contents [c]: it is in the queue, in flight
    or not, or the transport has settled it, or its TTL has passed. *)
Definition fate (p : path) (c : string) (s : sched) : Prop :=
  holds (s_disk s) p c ∨ holds (s_disk s) (claimed_path p) c ∨
  (∃ oc, (claimed_path p, oc) ∈ s_log s ∧ settled oc = true) ∨
  (∃ env, dec_env c = Some env ∧ TTL env ≠ 0 ∧ TTL env < now (s_disk s)).

(** Steps elsewhere do not change it. *)
Lemma fate_frame S p c s s' :
  steps S (s_disk s) (s_disk s') → ¬ S p → ¬ S (claimed_path p) →
  (∃ l, s_log s' = s_log s ++ l) → fate p c s → fate p c s'.
Proof.
  intros Hs Hp Hc [l Hl] [Hh|[Hh|[(oc & Hin & Hset)|(env & Hd & H0' & Hlt)]]].
  - left. by eapply holds_steps.
  - right; left. by eapply holds_steps.
  - right; right; left. exists oc. rewrite Hl. split; [|done]. apply elem_of_app. by left.
  - right; right; right. exists env. split_and!; [done..|]. destruct Hs. lia.
Qed.

Lemma dispatch_active_spec body active o m fqdn s :
  let s' := dispatch_active cfg body active o m fqdn s in
  steps (λ q, q ∈ active) (s_disk s) (s_disk s') ∧ (∃ l, s_log s' = s_log s ++ l) ∧
  ∀ p c, holds (s_disk s) p c →
    holds (s_disk s') p c ∨ ∃ oc, (p, oc) ∈ s_log s' ∧ settled oc = true.
Proof.
  unfold dispatch_active. destruct active as [|a active].
  { split_and!; [done|exists []; by rewrite app_nil_r|by left]. }
  pose proof (invoke_spec cfg body (a :: active) false o s) as Hi.
  destruct (invoke cfg body (a :: active) false o s) as [rs s1].
  destruct Hi as (E1 & _ & [l L] & K1).
  destruct (bounce_all_steps cfg (λ q, q ∈ a :: active) (λ st, bool_decide (st = "perm_fail")) false
              body rs m fqdn s1) as (E2 & T2 & L2).
  fold (generateDSNsForPermFail cfg body rs m fqdn s1) in E2, T2, L2.
  split_and!; [by etrans|exists l; by rewrite L2|].
  intros p c Hp. unfold holds. rewrite T2, L2. by apply K1.
Qed.

Lemma NoDup_path_inj es e e' :
  NoDup (ee_path <$> es) → e ∈ es → e' ∈ es → ee_path e = ee_path e' → e = e'.
Proof.
  induction es as [|x es IH]; simpl; [by intros _ ?%elem_of_nil|].
  intros [Hx Hnd]%NoDup_cons [->|He]%elem_of_cons [->|He']%elem_of_cons E; [done|..|by apply IH];
    destruct Hx; [rewrite E|rewrite <-E]; by apply list_elem_of_fmap_2.
Qed.

Lemma touched_sub es es' q : (∀ e, e ∈ es → e ∈ es') → touched es q → touched es' q.
Proof. intros Hs (e & He & ?). exists e. auto. Qed.

Lemma holds_fun w p c c' : holds w p c → holds w p c' → c = c'.
Proof. intros (f & Hf & <-) (g & Hg & <-). congruence. Qed.

Lemma claimed_active cl : Forall (λ x : path * envEntry, x.1 = claimed_path (ee_path x.2)) cl →
  fst <$> filter (λ x, ee_expired x.2 = false) cl =
  (λ e, claimed_path (ee_path e)) <$> filter (λ e, ee_expired e = false) (snd <$> cl).
Proof.
  induction 1 as [|[cp e] cl Hx _ IH]; [done|]. simpl in Hx. subst.
  destruct (decide (ee_expired e = false)).
  - rewrite filter_cons_True by done. cbn [fmap list_fmap fst snd].
    rewrite filter_cons_True by done. cbn [fmap list_fmap]. f_equal. exact IH.
  - rewrite filter_cons_False by done. cbn [fmap list_fmap snd].
    rewrite filter_cons_False by done. exact IH.
Qed.

Lemma dispatch_spec body fqdn es s w :
  steps none (s_disk s) w → Forall (λ e, plain (ee_path e)) es → NoDup (ee_path <$> es) →
  Forall (λ e, ee_expired e = true → TTL (ee_env e) ≠ 0 ∧ TTL (ee_env e) < now (s_disk s)) es →
  (∀ e c, e ∈ es → holds (s_disk s) (ee_path e) c → dec_env c = Some (ee_env e)) →
  let s' := dispatch cfg ob body fqdn es s w in
  steps (touched es) (s_disk s) (s_disk s') ∧ (∃ l, s_log s' = s_log s ++ l) ∧
  ∀ e c, e ∈ es → holds (s_disk s) (ee_path e) c → fate (ee_path e) c s'.
Proof.
  intros E0 Hpl Hnd Hexp Hdec. unfold dispatch. pose proof (steps_tree _ _ E0) as [T0 N0].
  pose proof (claim_all_spec es w Hpl Hnd) as Hca. destruct (claim_all es w) as [cl w1].
  destruct Hca as (E1 & Hf & Hsub & Hall). set (m := list_to_map _). set (ces := snd <$> cl) in *.
  assert (∀ e, e ∈ ces → e ∈ es) as Hin by (intros e ?; by eapply elem_of_sublist).
  assert (Forall (λ e, plain (ee_path e)) ces) as Hplc
    by (apply Forall_forall; intros e ?; by apply (elem_of_Forall _ _ _ Hpl), Hin).
  assert (NoDup (ee_path <$> ces)) as Hndc by (eapply sublist_NoDup; [exact Hnd|by apply fmap_sublist]).
  pose proof (final_attempts_spec body (ob body) m fqdn cl (put s w1)) as Hfa.
  destruct (final_attempts _ _ _ _ _ cl _) as [active s2]. destruct Hfa as (E2 & [l2 L2] & ->).
  rewrite (claimed_active cl Hf). fold ces. set (aes := filter _ ces).
  assert (∀ e, e ∈ aes → e ∈ ces ∧ ee_expired e = false) as Haes
    by (intros e [? ?]%list_elem_of_filter; done).
  destruct (dispatch_active_spec body ((λ e, claimed_path (ee_path e)) <$> aes) (ob body) m fqdn s2)
    as (E3 & [l3 L3] & K3).
  set (s3 := dispatch_active _ _ _ _ _ _ s2) in *.
  destruct (unclaim_all_spec aes (s_disk s3)) as [E4 K4].
  { apply Forall_forall. intros e [He _]%Haes. exact (elem_of_Forall _ _ _ Hplc He). }
  { by apply NoDup_fmap_filter. }
  set (w4 := unclaim_all _ (s_disk s3)) in *. cbn [s_disk put s_log] in *.
  assert (steps (touched ces) w1 (s_disk s2)) as E2c.
  { eapply steps_mono; [|exact E2]. intros q (x & Hx & _ & ->). exists x.2.
    split; [by apply list_elem_of_fmap_2|]. right. by apply (elem_of_Forall _ _ _ Hf). }
  assert (steps (touched ces) (s_disk s2) (s_disk s3)) as E3c.
  { eapply steps_mono; [|exact E3]. intros q (e & -> & He)%list_elem_of_fmap. exists e.
    split; [by apply Haes|by right]. }
  assert (steps (touched ces) (s_disk s3) w4) as E4c.
  { eapply steps_mono; [|exact E4]. intros q. apply touched_sub. intros e ?. by apply Haes. }
  assert (steps (touched ces) w1 w4) as E14 by (by do 2 (etrans; [done|])).
  assert (steps (touched es) (s_disk s) w4) as E04.
  { etrans; [by apply steps_none|]. etrans; [exact E1|]. eapply steps_mono; [|exact E14].
    intros q. by apply touched_sub. }
  split_and!; [done|exists (l2 ++ l3); rewrite L3, L2; by rewrite (assoc_L (++))|].
  intros e c He Hh. pose proof (elem_of_Forall _ _ _ Hpl He) as Hp. simpl in Hp.
  assert (holds w (ee_path e) c) as Hw by (unfold holds; by rewrite T0).
  destruct (Hall e c He Hw) as [[Hh1 Hni]|[Hh1 Hci]].
  - left. eapply holds_steps; [exact E14| |exact Hh1]. apply not_touched; [done..|].
    intros (e' & E & He')%list_elem_of_fmap.
    apply Hni. rewrite (NoDup_path_inj es e e' Hnd He (Hin e' He') E). done.
  - destruct (ee_expired e) eqn:Ee.
    { right; right; right. exists (ee_env e). split; [by apply (Hdec e c)|].
      destruct (elem_of_Forall _ _ _ Hexp He Ee). split; [done|]. simpl. destruct E04. lia. }
    assert (e ∈ aes) as Hae by (by apply list_elem_of_filter).
    assert (holds (s_disk s2) (claimed_path (ee_path e)) c) as Hh2.
    { eapply holds_steps; [exact E2| |exact Hh1]. intros (x & Hx & Hxe & E).
      rewrite (elem_of_Forall _ _ _ Hf Hx) in E. assert (x.2 ∈ ces) as Hx2 by (by apply list_elem_of_fmap_2).
      apply claimed_path_inj in E; [|done|by apply (elem_of_Forall _ _ _ Hplc)].
      rewrite <-(NoDup_path_inj es e x.2 Hnd He (Hin _ Hx2) E) in Hxe. congruence. }
    destruct (K3 _ _ Hh2) as [Hh3|(oc & Hoc & Hset)].
    + destruct (K4 e c Hae Hh3) as [?|?]; [by left|by right; left].
    + right; right; left. by exists oc.
Qed.

Lemma process_group_spec fqdn id es s :
  Forall (λ e, plain (ee_path e)) es → NoDup (ee_path <$> es) →
  Forall (λ e, ee_expired e = true → TTL (ee_env e) ≠ 0 ∧ TTL (ee_env e) < now (s_disk s)) es →
  (∀ e c, e ∈ es → holds (s_disk s) (ee_path e) c → dec_env c = Some (ee_env e)) →
  let s' := process_group cfg ob fqdn (id, es) s in
  steps (touched es) (s_disk s) (s_disk s') ∧ (∃ l, s_log s' = s_log s ++ l) ∧
  ∀ e c, e ∈ es → holds (s_disk s) (ee_path e) c → fate (ee_path e) c s'.
Proof.
  intros Hpl Hnd Hexp Hdec. unfold process_group.
  pose proof (allow_steps none fqdn (Z.of_nat (length es)) s) as Ha.
  destruct (allow fqdn _ s) as [ok s1]. destruct Ha as (E1 & L1 & _).
  pose proof (steps_tree _ _ E1) as [T1 N1].
  destruct ok.
  2:{ split_and!; [by apply steps_none|exists []; by rewrite L1, app_nil_r|].
      intros e c _ Hh. left. unfold holds. by rewrite T1. }
  pose proof (resolveBody_steps none id (s_disk s1)) as E2.
  destruct (resolveBody id (s_disk s1)) as [[body|] w]; simpl in E2.
  - destruct (dispatch_spec body fqdn es s1 w E2 Hpl Hnd) as (E3 & [l L3] & K3).
    { eapply Forall_impl; [exact Hexp|]. simpl. intros e He Hx. destruct (He Hx). lia. }
    { intros e c He Hh. apply Hdec; [done|]. unfold holds in *. by rewrite <-T1. }
    split_and!; [etrans; [by apply steps_none|done]|exists l; by rewrite L3, L1|].
    intros e c He Hh. apply K3; [done|]. unfold holds. by rewrite T1.
  - pose proof (remove_expired_steps (λ q, ∃ e, e ∈ es ∧ ee_expired e = true ∧ q = ee_path e) es w) as E3.
    specialize (E3 ltac:(intros e ??; by exists e)). simpl. split_and!.
    + etrans; [by apply steps_none|]. etrans; [by apply steps_none|].
      eapply steps_mono; [|exact E3]. intros q (e & He & _ & ->). exists e. auto.
    + exists []. by rewrite L1, app_nil_r.
    + intros e c He Hh. pose proof (steps_tree _ _ E2) as [T2 N2].
      destruct (ee_expired e) eqn:Ee.
      * right; right; right. exists (ee_env e). split; [by apply (Hdec e c)|].
        destruct (elem_of_Forall _ _ _ Hexp He Ee). split; [done|]. simpl. destruct E3. lia.
      * left. simpl. eapply holds_steps; [exact E3| |unfold holds; by rewrite T2, T1].
        intros (e' & He' & Hx & E). rewrite (NoDup_path_inj es e e' Hnd He He' E) in Ee. congruence.
Qed.

(** The groups of a directory, one after the other. *)
Definition groups_ok (gs : list (string * list envEntry)) (s : sched) : Prop :=
  Forall (λ e, plain (ee_path e)) (flat gs) ∧ NoDup (ee_path <$> flat gs) ∧
  Forall (λ e, ee_expired e = true → TTL (ee_env e) ≠ 0 ∧ TTL (ee_env e) < now (s_disk s)) (flat gs) ∧
  ∀ e c, e ∈ flat gs → holds (s_disk s) (ee_path e) c → dec_env c = Some (ee_env e).

Lemma groups_steps fqdn gs s : groups_ok gs s →
  let s' := foldl (λ s g, process_group cfg ob fqdn g s) s gs in
  steps (touched (flat gs)) (s_disk s) (s_disk s') ∧ (∃ l, s_log s' = s_log s ++ l) ∧
  ∀ e c, e ∈ flat gs → holds (s_disk s) (ee_path e) c → fate (ee_path e) c s'.
Proof.
  revert s. induction gs as [|[id es] gs IH]; intros s (Hpl & Hnd & Hexp & Hdec).
  { split_and!; [done|exists []; by rewrite app_nil_r|]. by intros e c ?%elem_of_nil. }
  unfold flat in *. cbn [mbind list_bind snd] in *. fold (flat gs) in *.
  rewrite fmap_app in Hnd. apply NoDup_app in Hnd as (Hnd1 & Hdis & Hnd2).
  apply Forall_app in Hpl as [Hpl1 Hpl2]. apply Forall_app in Hexp as [Hexp1 Hexp2].
  destruct (process_group_spec fqdn id es s Hpl1 Hnd1 Hexp1) as (E1 & [l1 L1] & K1).
  { intros e c He. apply Hdec. apply elem_of_app. by left. }
  cbn [foldl]. set (s1 := process_group cfg ob fqdn (id, es) s) in *.
  assert (∀ e, e ∈ flat gs → ¬ touched es (ee_path e) ∧ ¬ touched es (claimed_path (ee_path e))) as Hnt.
  { intros e He. apply not_touched; [exact (elem_of_Forall _ _ _ Hpl2 He)|done|].
    intros Hin. apply (Hdis _ Hin). by apply list_elem_of_fmap_2. }
  assert (∀ e c, e ∈ flat gs → holds (s_disk s1) (ee_path e) c ↔ holds (s_disk s) (ee_path e) c) as Hh1.
  { intros e c He. unfold holds. by rewrite (steps_at _ _ _ _ E1 (proj1 (Hnt e He))). }
  destruct (IH s1) as (E2 & [l2 L2] & K2).
  { split_and!; [done..| |].
    - eapply Forall_impl; [exact Hexp2|]. simpl. intros e He Hx. destruct (He Hx), E1. lia.
    - intros e c He ?%Hh1; [|done]. apply Hdec; [apply elem_of_app; by right|done]. }
  split_and!.
  - etrans; (eapply steps_mono; [|done]); intros q; apply touched_sub; intros e ?; apply elem_of_app; auto.
  - exists (l1 ++ l2). rewrite L2, L1. by rewrite (assoc_L (++)).
  - intros e c [He|He]%elem_of_app Hh; [|apply K2; [done|by apply Hh1]].
    destruct (not_touched (flat gs) (ee_path e)) as [Hn1 Hn2]; [exact (elem_of_Forall _ _ _ Hpl1 He)|done| |].
    { apply Hdis. by apply list_elem_of_fmap_2. }
    eapply fate_frame; [exact E2|done|done|by eexists|]. by apply K1.
Qed.
End Group.

(** ** A pass over the queue *)
Section Pass.
Context `{EnvelopeJson, AgentEnv, Transport, BackoffFloat, Float64, GlobMeta, MapOrder, Bounces}.
Context (cfg : SConfig) (ob : path → outboundConfig).

Definition in_msg (q : path) : Prop := head q = Some "msg".
Definition in_dom (t d : string) (q : path) : Prop := ∃ n, q = ["env"; t; d; n].

Lemma cleanOrphanBodies_steps D w : steps in_msg w (cleanOrphanBodies D w).
Proof.
  unfold cleanOrphanBodies. pose proof (readdir_steps in_msg D w) as E1.
  destruct (readdir D w) as [[l|] w1]; [|done]. simpl in E1. etrans; [exact E1|].
  apply for_dir_steps; intros tld wa. apply for_dir_steps; intros dom wb.
  apply for_dir_steps; intros name wc. unfold sweep_body.
  destruct (HasPrefix _ _); [done|]. pose proof (bodyHasEnvelopes_steps in_msg name wc) as E2.
  destruct (bodyHasEnvelopes name wc) as [[|] w5]; [done|]. simpl in E2. etrans; [exact E2|].
  by apply Remove_steps.
Qed.

Lemma processDomainDir_spec t d s :
  let s' := (processDomainDir cfg ob t d s).2 in
  steps (λ q, in_msg q ∨ in_dom t d q) (s_disk s) (s_disk s') ∧ (∃ l, s_log s' = s_log s ++ l) ∧
  ∀ n id c, extractMsgID n = Some id → holds (s_disk s) ["env"; t; d; n] c →
    fate ["env"; t; d; n] c s'.
Proof.
  unfold processDomainDir. set (D := ["env"; t; d]).
  pose proof (readdir_steps none D (s_disk s)) as E1. pose proof (readdir_names D (s_disk s)) as Hn.
  destruct (readdir D (s_disk s)) as [[names|] w1]; simpl in E1.
  2:{ split_and!; [by apply steps_none|exists []; by rewrite app_nil_r|].
      intros n id c _ Hh. left. apply steps_tree in E1 as [T1 _]. unfold holds. simpl. by rewrite T1. }
  destruct (Hn names eq_refl) as [Hnd _]. clear Hn.
  pose proof (scan_entries_spec cfg D names [] w1 Hnd) as Hsc.
  destruct (scan_entries cfg D names [] w1) as [gs w2].
  destruct Hsc as (E2 & Hndp & Hin); [by apply NoDup_nil|by intros e n ?%elem_of_nil|].
  assert (steps none (s_disk s) w2) as E12 by (by etrans).
  pose proof (steps_tree _ _ E12) as [T12 _].
  assert (∀ e, e ∈ flat (map_order gs) → name_ok D names e ∧ entry_ok w2 e) as Hin'.
  { intros e He. rewrite (flat_perm _ _ (map_order_perm gs)) in He.
    by destruct (Hin e He) as [?%elem_of_nil|?]. }
  destruct (groups_steps cfg ob (domainFromPath t d) (map_order gs) (put s w2)) as (E3 & [l L3] & K3).
  { split_and!.
    - apply Forall_forall. intros e (( n & id & _ & -> & Hid) & _)%Hin'.
      exists D, n. split; [done|]. by eapply extractMsgID_plain.
    - by rewrite (flat_perm _ _ (map_order_perm gs)).
    - apply Forall_forall. by intros e (_ & _ & Hx)%Hin'.
    - intros e c (_ & (c' & Hc' & Hd) & _)%Hin' Hh. by rewrite (holds_fun _ _ _ _ Hh Hc'). }
  set (s3 := foldl _ (put s w2) (map_order gs)) in *. cbn [s_disk s_log put] in *.
  pose proof (cleanOrphanBodies_steps D (s_disk s3)) as E4. simpl.
  assert (∀ e, e ∈ flat (map_order gs) → ∃ n, ee_path e = ["env"; t; d; n] ∧
            HasSuffix n deliveringSuffix = false) as Hshape.
  { intros e ((n & id & _ & -> & Hid) & _)%Hin'. exists n. split; [done|]. by eapply extractMsgID_plain. }
  split_and!; [|by exists l|].
  - etrans; [by apply steps_none|]. etrans.
    + eapply steps_mono; [|exact E3]. intros q (e & He & Hq). right.
      destruct (Hshape e He) as (n & E & _). rewrite E in Hq. destruct Hq as [->| ->]; [by exists n|].
      exists (n +:+ deliveringSuffix). apply (claimed_path_snoc D n).
    + eapply steps_mono; [|exact E4]. by left.
  - intros n id c Hid Hh. assert (plain ["env"; t; d; n]) as Hp.
    { exists D, n. split; [done|]. by eapply extractMsgID_plain. }
    apply (fate_frame in_msg _ _ s3); [exact E4|done| |exists []; by rewrite app_nil_r|].
    { unfold in_msg. change ["env"; t; d; n] with (D ++ [n]). by rewrite claimed_path_snoc. }
    assert (holds w2 ["env"; t; d; n] c) as Hh2 by (unfold holds; by rewrite T12).
    destruct (decide (["env"; t; d; n] ∈ ee_path <$> flat (map_order gs))) as [Hpin|Hpin].
    + apply list_elem_of_fmap in Hpin as (e & E & He). rewrite E in *. by apply K3.
    + left. eapply holds_steps; [exact E3| |exact Hh2]. apply not_touched; [done| |done].
      apply Forall_forall. intros e (m & -> & Hm)%Hshape. by exists D, m.
Qed.

(** The two outer loops; the directory of the envelope is met once. *)
Lemma scan_keeps t d n id c s :
  extractMsgID n = Some id → holds (s_disk s) ["env"; t; d; n] c →
  fate ["env"; t; d; n] c (scanEnvDir cfg ob s).2.
Proof.
  intros Hid. set (p := ["env"; t; d; n]).
  assert (claimed_path p = ["env"; t; d; n +:+ deliveringSuffix]) as Hcp
    by apply (claimed_path_snoc ["env"; t; d] n).
  assert (∀ t' d' q, t' ≠ t ∨ d' ≠ d → (q = p ∨ q = claimed_path p) → ¬ (in_msg q ∨ in_dom t' d' q)) as Hout.
  { intros t' d' q Hne [->| ->] [Hm|[m E]]; rewrite ?Hcp in *; unfold p, in_msg in *; simplify_eq/=; naive_solver. }
  assert (∀ t' d' s, t' ≠ t ∨ d' ≠ d → holds (s_disk s) p c →
            holds (s_disk (processDomainDir cfg ob t' d' s).2) p c) as Hk.
  { intros t' d' s' Hne Hh. destruct (processDomainDir_spec t' d' s') as (E & _ & _).
    eapply holds_steps; [exact E|by apply Hout; auto|done]. }
  assert (∀ t' d' s, t' ≠ t ∨ d' ≠ d → fate p c s → fate p c (processDomainDir cfg ob t' d' s).2) as Hf.
  { intros t' d' s' Hne Hh. destruct (processDomainDir_spec t' d' s') as (E & L & _).
    eapply fate_frame; [exact E|by apply Hout; auto..|exact L|done]. }
  assert (∀ q s w, steps none (s_disk s) w → holds (s_disk s) q c → holds (s_disk (put s w)) q c) as Hput.
  { intros q s' w [T _]%steps_tree Hh. unfold holds in *. simpl. by rewrite T. }
  assert (∀ s w, steps none (s_disk s) w → fate p c s → fate p c (put s w)) as Hputf.
  { intros s' w E Hh. eapply (fate_frame none); [exact E|by intros []..|exists []; by rewrite app_nil_r|done]. }
  assert (∀ s, holds (s_disk s) p c → fate p c s) as Hhf by (intros s' ?; by left).
  unfold scanEnvDir, scan_tld. intros Hh. pose proof (readdir_steps none ["env"] (s_disk s)) as E0.
  pose proof (readdir_names ["env"] (s_disk s)) as Hn.
  destruct (readdir ["env"] (s_disk s)) as [[tlds|] w0]; simpl in E0; [|by apply Hhf, Hput].
  simpl. apply (foldl_once _ t (λ s, holds (s_disk s) p c) (fate p c));
    [by apply (Hn tlds)| | | |done|by apply Hput].
  - intros x s1 Hx Hh1. pose proof (readdir_steps none ["env"; x] (s_disk s1)) as E1.
    destruct (readdir ["env"; x] (s_disk s1)) as [[ds|] w1]; simpl in E1; [|by apply Hput].
    apply (foldl_inv _ (λ s, holds (s_disk s) p c)); [|by apply Hput]. intros y s2 _. apply Hk. by left.
  - intros x s1 Hx Hh1. pose proof (readdir_steps none ["env"; x] (s_disk s1)) as E1.
    destruct (readdir ["env"; x] (s_disk s1)) as [[ds|] w1]; simpl in E1; [|by apply Hputf].
    apply (foldl_inv _ (fate p c)); [|by apply Hputf]. intros y s2 _. apply Hf. by left.
  - intros s1 Hh1. pose proof (readdir_steps none ["env"; t] (s_disk s1)) as E1.
    pose proof (readdir_names ["env"; t] (s_disk s1)) as Hn1.
    destruct (readdir ["env"; t] (s_disk s1)) as [[ds|] w1]; simpl in E1; [|by apply Hhf, Hput].
    apply (foldl_once _ d (λ s, holds (s_disk s) p c) (fate p c));
      [by apply (Hn1 ds)| | | |done|by apply Hput].
    + intros y s2 Hy. apply Hk. by right.
    + intros y s2 Hy. apply Hf. by right.
    + intros s2 Hh2. destruct (processDomainDir_spec t d s2) as (_ & _ & K). by eapply K.
Qed.

(** A directory loop that meets the entry [a] at most once. *)
Lemma for_dir_once p body a (Pre Post : disk → Prop) w :
  (∀ w w', steps none w w' → Pre w → Pre w') →
  (∀ x w, x ≠ a → Pre w → Pre (body x w)) → (∀ x w, x ≠ a → Post w → Post (body x w)) →
  (∀ w, Pre w → Post (body a w)) → (∀ w, Pre w → Post w) →
  Pre w → Post (for_dir p body w).
Proof.
  intros Hst HPre HPost Ha Himp Hw. unfold for_dir.
  pose proof (readdir_steps none p w) as E. pose proof (readdir_names p w) as Hn.
  destruct (readdir p w) as [[l|] w1]; simpl in E; [|by apply Himp, (Hst w)].
  apply (foldl_once _ a Pre Post); [by apply (Hn l)|auto..|]. by apply (Hst w).
Qed.
Lemma for_dir_inv p body (P : disk → Prop) w :
  (∀ w w', steps none w w' → P w → P w') → (∀ x w, P w → P (body x w)) → P w → P (for_dir p body w).
Proof.
  intros Hst Hb Hw. unfold for_dir. pose proof (readdir_steps none p w) as E.
  destruct (readdir p w) as [[l|] w1]; simpl in E; [|by apply (Hst w)].
  apply (foldl_inv _ P); [intros; by apply Hb|]. by apply (Hst w).
Qed.

Lemma recover_name_steps (S : path → Prop) t d x w :
  S ["env"; t; d; x] → S ["env"; t; d; TrimSuffix x deliveringSuffix] →
  steps S w (recover_name t d x w).
Proof.
  intros H1' H2'. unfold recover_name. destruct (HasSuffix _ _); [|done].
  apply unclaim_steps; [done|]. unfold unclaimed_path.
  change ["env"; t; d; x] with (["env"; t; d] ++ [x]). by rewrite on_name_snoc.
Qed.

(** Recovery leaves a waiting envelope alone when none of its name is in flight. *)
Lemma recover_keeps t d n c w :
  HasSuffix n deliveringSuffix = false → holds w ["env"; t; d; n] c →
  tree w !! ["env"; t; d; n +:+ deliveringSuffix] = None →
  holds (recoverStaleDeliveries w) ["env"; t; d; n] c.
Proof.
  intros Hsuf Hh Hnone. set (p := ["env"; t; d; n]). set (p' := ["env"; t; d; n +:+ deliveringSuffix]).
  assert (∀ q w w', steps none w w' → holds w q c → holds w' q c) as Hst.
  { intros q w1 w2 [T _]%steps_tree. unfold holds. by rewrite T. }
  set (Pre := λ w, holds w p c ∧ tree w !! p' = None).
  assert (∀ w w', steps none w w' → Pre w → Pre w') as HstP.
  { intros w1 w2 E [Hp Hn]. split; [by eapply Hst|]. apply steps_tree in E as [-> _]. done. }
  assert (∀ t' d' w, t' ≠ t ∨ d' ≠ d →
    steps (λ q, q ≠ p ∧ q ≠ p') w (for_dir ["env"; t'; d'] (recover_name t' d') w)) as Hother.
  { intros t' d' w1 Hne. apply for_dir_steps. intros x w2. unfold p, p'.
    apply recover_name_steps; split; intros [= -> ->]; naive_solver. }
  assert (∀ t' d' w, t' ≠ t ∨ d' ≠ d → Pre w → Pre (for_dir ["env"; t'; d'] (recover_name t' d') w)) as HoP.
  { intros t' d' w1 Hne [Hp Hn]. specialize (Hother t' d' w1 Hne). split.
    - eapply holds_steps; [exact Hother| |done]. by intros [].
    - rewrite (steps_at _ _ _ _ Hother); [done|]. by intros []. }
  assert (∀ t' d' w, t' ≠ t ∨ d' ≠ d → holds w p c →
            holds (for_dir ["env"; t'; d'] (recover_name t' d') w) p c) as Hoh.
  { intros t' d' w1 Hne Hp. eapply holds_steps; [by apply Hother| |done]. by intros []. }
  assert (∀ w, Pre w → holds (for_dir ["env"; t; d] (recover_name t d) w) p c) as Hown.
  { intros w1 [Hp Hn]. unfold for_dir. pose proof (readdir_steps none ["env"; t; d] w1) as E.
    pose proof (readdir_names ["env"; t; d] w1) as Hnm.
    destruct (readdir ["env"; t; d] w1) as [[l|] w2]; simpl in E; [|by eapply Hst].
    destruct (Hnm l eq_refl) as [_ Hex].
    apply (foldl_inv _ (λ w, holds w p c)); [|by eapply Hst]. intros x w3 Hx Hw3.
    destruct (HasSuffix x deliveringSuffix) eqn:Ex; [|unfold recover_name; by rewrite Ex].
    eapply (holds_steps (λ q, q ≠ p)); [|by intros Hc; apply Hc|exact Hw3].
    apply recover_name_steps; unfold p; intros [= E']; [congruence|].
    apply HasSuffix_true in Ex. rewrite E' in Ex. subst x.
    destruct (Hex _ Hx) as [y Hy]. simpl in Hy. unfold p' in Hn. congruence. }
  unfold recoverStaleDeliveries. apply (for_dir_once _ _ t Pre (λ w, holds w p c)); [done|..].
  - intros x w1 Hx Hw1. apply (for_dir_inv _ _ Pre); [done| |done]. intros y w2. apply HoP. by left.
  - intros x w1 Hx Hw1. apply (for_dir_inv _ _ (λ w, holds w p c)); [by apply Hst| |done].
    intros y w2. apply Hoh. by left.
  - intros w1 Hw1. apply (for_dir_once _ _ d Pre (λ w, holds w p c)); [done|..|done].
    + intros y w2 Hy. apply HoP. by right.
    + intros y w2 Hy. apply Hoh. by right.
    + apply Hown.
    + by intros w2 [].
  - by intros w1 [].
  - done.
Qed.

Lemma countEnvelopes_steps w : steps none w (countEnvelopes w).2.
Proof.
  assert (∀ p f w, (∀ x w, steps none w (f x w).2) → steps none w (sum_dir p f w).2) as Hsum.
  { intros p f w0 Hf. unfold sum_dir. pose proof (readdir_steps none p w0) as E.
    destruct (readdir p w0) as [[l|] w1]; simpl in E; [|done].
    apply (foldl_inv _ (λ x, steps none w0 x.2)); [|done]. intros x [m w2] _ Hw2. simpl in *.
    specialize (Hf x w2). destruct (f x w2) as [k w3]. by etrans. }
  unfold countEnvelopes. apply Hsum. intros t w1. apply Hsum. intros d w2.
  pose proof (readdir_steps none ["env"; t; d] w2). by destruct (readdir _ w2) as [[]].
Qed.

(** C34: Whatever system calls fail during a pass, a waiting envelope that is not
    claimed twice is never lost silently: afterwards it is in the queue with
    its contents unchanged (under its name, or in flight and due for recovery),
    or the transport has delivered it or failed it for good, or its time to
    live has passed. *)
Theorem no_silent_loss t d n id c s :
  extractMsgID n = Some id →
  holds (s_disk s) ["env"; t; d; n] c →
  tree (s_disk s) !! ["env"; t; d; n +:+ deliveringSuffix] = None →
  let s' := (RunOnce cfg ob s).2 in
  holds (s_disk s') ["env"; t; d; n] c ∨
  holds (s_disk s') ["env"; t; d; n +:+ deliveringSuffix] c ∨
  (∃ oc, (["env"; t; d; n +:+ deliveringSuffix], oc) ∈ s_log s' ∧ settled oc = true) ∨
  (∃ env, dec_env c = Some env ∧ TTL env ≠ 0 ∧ TTL env < now (s_disk s')).
Proof.
  intros Hid Hh Hnone. unfold RunOnce.
  assert (claimed_path ["env"; t; d; n] = ["env"; t; d; n +:+ deliveringSuffix]) as Hcp
    by apply (claimed_path_snoc ["env"; t; d] n).
  pose proof (recover_keeps t d n c (s_disk s) (extractMsgID_plain _ _ Hid) Hh Hnone) as Hr.
  pose proof (scan_keeps t d n id c (put s (recoverStaleDeliveries (s_disk s))) Hid Hr) as Hf.
  destruct (scanEnvDir cfg ob _) as [ok s1]. simpl in Hf.
  pose proof (countEnvelopes_steps (s_disk s1)) as E. destruct (countEnvelopes (s_disk s1)) as [k w].
  simpl in *. rewrite <-Hcp. change (fate ["env"; t; d; n] c (put s1 w)).
  eapply (fate_frame none); [exact E|by intros []..|exists []; by rewrite app_nil_r|done].
Qed.
End Pass.
