(* ===== verification/QueueFlow.v ===== *)
(** * From injection to delivery

    What the queue scan of [Scheduler] and the injection of [Queue] do
    together on a disk that answers every call: the sweep of orphan bodies,
    recovery after a crash, the hand-over of an injected message to the scan,
    bounces and the rate limit. *)
From S2P Require Import Prelude GoStrings QueueFs Queue MailRemote Scheduler.
From Stdlib Require Import ZArith Lia Ascii.
Open Scope string_scope.
Open Scope list_scope.
Open Scope Z_scope.

(** ** Directory loops on a quiet disk *)
Lemma readdir_calm p w : faults w = [] →
  readdir p w = (match node_at (tree w) p with
                 | None => Some [] | Some (File _) => None
                 | Some (Dir _) => Some (children (tree w) p) end, w).
Proof.
  intros Hf. unfold readdir. rewrite ReadDir_calm by done. by destruct (node_at _ p) as [[]|].
Qed.

Lemma node_at_ne t p : p ≠ [] → node_at t p = t !! p.
Proof. intros. unfold node_at. by rewrite decide_False. Qed.

(** A loop over a directory of a quiet disk reaches each of its entries. *)
Lemma for_dir_hit p body a (Pre Post : disk → Prop) w :
  p ≠ [] → faults w = [] → is_dir (tree w !! p) = true → is_Some (tree w !! (p ++ [a])) →
  (∀ x w', x ≠ a → is_Some (tree w !! (p ++ [x])) → Pre w' → Pre (body x w')) →
  (∀ x w', x ≠ a → is_Some (tree w !! (p ++ [x])) → Post w' → Post (body x w')) →
  (∀ w', Pre w' → Post (body a w')) → Pre w → Post (for_dir p body w).
Proof.
  intros Hp Hf Hd Ha HPre HPost Hhit Hw. unfold for_dir. rewrite readdir_calm, node_at_ne by done.
  destruct (tree w !! p) as [[o|]|] eqn:E; [|done..].
  assert (a ∈ children (tree w) p) as Hin by (by apply elem_of_children).
  pose proof (NoDup_children (tree w) p) as Hnd.
  assert (∀ x, x ∈ children (tree w) p → is_Some (tree w !! (p ++ [x]))) as Hex
    by (intros x; apply elem_of_children).
  revert Hin Hnd Hex Hw. generalize (children (tree w) p). clear Ha E Hf Hd.
  intros l. generalize w at 2 3. induction l as [|x l IH]; intros w1 Hin Hnd Hex Hw; [by apply elem_of_nil in Hin|].
  apply NoDup_cons in Hnd as [Hx Hnd]. simpl. destruct (decide (x = a)) as [->|Hne].
  - apply (foldl_inv _ Post); [|by apply Hhit]. intros y w' Hy. apply HPost; [congruence|].
    apply Hex. by right.
  - apply elem_of_cons in Hin as [->|Hin]; [done|]. apply IH; [done..| |].
    + intros y Hy. apply Hex. by right.
    + apply HPre; [done|apply Hex; by left|done].
Qed.

Section Sweep.
Context `{GlobMeta}.

(** Some envelope, in flight or not, names the body. *)
Definition referenced (id : string) (t : gmap path node) : Prop :=
  ∃ a b n, match_env id n = true ∧ is_Some (t !! ["env"; a; b; n]) ∧
    is_dir (t !! ["env"]) = true ∧ is_dir (t !! ["env"; a]) = true ∧ is_dir (t !! ["env"; a; b]) = true.

Lemma bodyHasEnvelopes_calm id w : faults w = [] →
  (bodyHasEnvelopes id w).2 = w ∧ ((bodyHasEnvelopes id w).1 = true ↔ referenced id (tree w)).
Proof.
  intros Hf. unfold bodyHasEnvelopes. destruct (glob3_calm ["env"] (match_env id) w Hf) as [G M].
  destruct (glob3 ["env"] (match_env id) w) as [l w1]. simpl in *. subst w1. split; [done|].
  rewrite bool_decide_eq_true. split.
  - intros Hl. destruct l as [|p l]; [done|]. destruct (proj1 (M p)) as (a & b & n & -> & ? & ? & ? & ? & ?);
      [by left|]. exists a, b, n. done.
  - intros (a & b & n & ? & ? & ? & ? & ?) ->.
    apply (elem_of_nil (["env"; a; b; n] : path)). apply M. by exists a, b, n.
Qed.

Lemma referenced_env id t t' : (∀ q, head q = Some "env" → t' !! q = t !! q) →
  referenced id t ↔ referenced id t'.
Proof.
  intros He. split; intros (a & b & n & Hm & Hs & Hd); exists a, b, n;
    [rewrite !He by done|rewrite <-!He by done]; done.
Qed.

(** What the sweep maintains while it works. *)
Definition sweeping (w0 w : disk) : Prop :=
  faults w = [] ∧ ∀ q, tree w !! q ≠ tree w0 !! q → tree w !! q = None ∧
    ∃ t d id, q = ["msg"; t; d; id] ∧ HasPrefix id "tmp_" = false ∧ ¬ referenced id (tree w0).

Lemma sweeping_env w0 w : sweeping w0 w → ∀ q, head q = Some "env" → tree w !! q = tree w0 !! q.
Proof.
  intros [_ Hs] q Hq. destruct (decide (tree w !! q = tree w0 !! q)) as [|Hne]; [done|].
  destruct (Hs q Hne) as (_ & t & d & id & -> & _). done.
Qed.

Lemma Remove_file_calm p w f : faults w = [] → tree w !! p = Some (File f) →
  Remove p w = (Ok (), set_tree (delete p) w).
Proof. intros Hf Hp. unfold Remove. by rewrite sys_calm, Hp. Qed.
Lemma Remove_calm_rest p w : faults w = [] → faults (Remove p w).2 = [].
Proof.
  intros Hf. unfold Remove. rewrite sys_calm by done.
  destruct (tree w !! p) as [[]|]; [case_decide| |]; done.
Qed.

Lemma sweep_body_sweeping w0 t d id w : sweeping w0 w → sweeping w0 (sweep_body t d id w).
Proof.
  intros Hs. unfold sweep_body. destruct (HasPrefix id "tmp_") eqn:Ep; [done|].
  destruct Hs as [Hf Hs]. destruct (bodyHasEnvelopes_calm id w Hf) as [G M].
  destruct (bodyHasEnvelopes id w) as [b w1]. simpl in *. subst w1. destruct b; [done|].
  split; [by apply Remove_calm_rest|]. intros q Hq.
  destruct (decide (q = ["msg"; t; d; id])) as [->|Hne].
  - assert (¬ referenced id (tree w0)) as Hnr.
    { rewrite (referenced_env id (tree w0) (tree w)); [by rewrite <-M|].
      by apply sweeping_env. }
    split; [|by exists t, d, id].
    destruct (Remove_cases ["msg"; t; d; id] w) as [E|E]; rewrite E in *; [by apply Hs|].
    by rewrite lookup_delete_eq.
  - rewrite Remove_tree in * by done. by apply Hs.
Qed.

Lemma for_dir_calm_inv p body (P : disk → Prop) w :
  (∀ w, P w → faults w = []) → (∀ x w, P w → P (body x w)) → P w → P (for_dir p body w).
Proof.
  intros Hc Hb Hw. unfold for_dir. rewrite readdir_calm by auto.
  destruct (node_at _ p) as [[]|]; [|done..]. apply (foldl_inv _ P); [|done]. intros. by apply Hb.
Qed.

Lemma sweep_dir_sweeping w0 t d w :
  sweeping w0 w → sweeping w0 (for_dir ["msg"; t; d] (sweep_body t d) w).
Proof.
  intros Hw. apply (for_dir_calm_inv _ _ (sweeping w0)); [by intros ? []| |done].
  intros x w1. apply sweep_body_sweeping.
Qed.
Lemma sweep_tld_sweeping w0 t w :
  sweeping w0 w → sweeping w0 (for_dir ["msg"; t] (λ d, for_dir ["msg"; t; d] (sweep_body t d)) w).
Proof.
  intros Hw. apply (for_dir_calm_inv _ _ (sweeping w0)); [by intros ? []| |done].
  intros x w1. apply sweep_dir_sweeping.
Qed.

(** Directories and referenced bodies are where they were. *)
Lemma sweeping_keeps w0 w q n : sweeping w0 w → tree w0 !! q = Some n → tree w !! q ≠ None →
  tree w !! q = Some n.
Proof.
  intros [_ Hs] Hq Hn. destruct (decide (tree w !! q = tree w0 !! q)) as [->|Hne]; [done|].
  by destruct (Hs q Hne).
Qed.
Lemma sweeping_short w0 w q : sweeping w0 w → length q ≠ 4%nat → tree w !! q = tree w0 !! q.
Proof.
  intros [_ Hs] Hl. destruct (decide (tree w !! q = tree w0 !! q)) as [|Hne]; [done|].
  destruct (Hs q Hne) as (_ & t & d & id & -> & _). done.
Qed.

(** Once gone, a body stays gone. *)
Definition swept (w0 : disk) (b : path) (w : disk) : Prop := sweeping w0 w ∧ tree w !! b = None.

Lemma sweep_body_swept w0 b t d x w : swept w0 b w → swept w0 b (sweep_body t d x w).
Proof.
  intros [Hw Hb]. split; [by apply sweep_body_sweeping|].
  unfold sweep_body. destruct (HasPrefix x "tmp_"); [done|].
  destruct (bodyHasEnvelopes_calm x w (proj1 Hw)) as [G _].
  destruct (bodyHasEnvelopes x w) as [[|] w2]; simpl in G; subst w2; [done|].
  destruct (Remove_cases ["msg"; t; d; x] w) as [-> | ->]; [done|].
  destruct (decide (b = ["msg"; t; d; x])) as [->|Hne]; [apply lookup_delete_eq|].
  by rewrite lookup_delete_ne.
Qed.
Lemma sweep_dir_swept w0 b t d w :
  swept w0 b w → swept w0 b (for_dir ["msg"; t; d] (sweep_body t d) w).
Proof.
  apply (for_dir_calm_inv _ _ (swept w0 b)); [by intros ? [[] _]|].
  intros x w1. apply sweep_body_swept.
Qed.
Lemma sweep_tld_swept w0 b t w :
  swept w0 b w → swept w0 b (for_dir ["msg"; t] (λ d, for_dir ["msg"; t; d] (sweep_body t d)) w).
Proof.
  apply (for_dir_calm_inv _ _ (swept w0 b)); [by intros ? [[] _]|]. intros x w1. apply sweep_dir_swept.
Qed.

Lemma sweep_body_hit w0 t d id w :
  HasPrefix id "tmp_" = false → ¬ referenced id (tree w0) →
  (∃ f, tree w0 !! ["msg"; t; d; id] = Some (File f)) →
  sweeping w0 w → swept w0 ["msg"; t; d; id] (sweep_body t d id w).
Proof.
  intros Htmp Hnr [f Hid] Hw. split; [by apply sweep_body_sweeping|].
  unfold sweep_body. rewrite Htmp. destruct (bodyHasEnvelopes_calm id w (proj1 Hw)) as [G M].
  assert (¬ referenced id (tree w)) as Hnr'.
  { rewrite <-(referenced_env id (tree w0) (tree w)); [done|by apply sweeping_env]. }
  destruct (bodyHasEnvelopes id w) as [[|] w2]; simpl in *; subst w2; [naive_solver|].
  destruct (decide (tree w !! ["msg"; t; d; id] = None)) as [E|E].
  - by destruct (Remove_cases ["msg"; t; d; id] w) as [-> | ->]; [|apply lookup_delete_eq].
  - rewrite (Remove_file_calm _ _ f (proj1 Hw)); [by apply lookup_delete_eq|].
    by apply (sweeping_keeps w0).
Qed.

(** On a disk that answers every call, the sweep after a domain has been
    processed removes exactly the bodies without envelopes: whatever is gone
    was a finished body file that no envelope names, in flight or not, and
    every such file is gone. *)
Lemma orphan_sweep D w :
  faults w = [] →
  let w' := cleanOrphanBodies D w in
  (∀ q, tree w' !! q ≠ tree w !! q → tree w' !! q = None ∧
     ∃ t d id, q = ["msg"; t; d; id] ∧ HasPrefix id "tmp_" = false ∧ ¬ referenced id (tree w)) ∧
  (∀ t d id f, tree w !! ["msg"; t; d; id] = Some (File f) →
     is_dir (tree w !! ["msg"]) = true → is_dir (tree w !! ["msg"; t]) = true →
     is_dir (tree w !! ["msg"; t; d]) = true → is_dir (node_at (tree w) D) = true →
     HasPrefix id "tmp_" = false → ¬ referenced id (tree w) → tree w' !! ["msg"; t; d; id] = None).
Proof.
  intros Hf. assert (sweeping w w) as Hw by (by split).
  split.
  - unfold cleanOrphanBodies. rewrite readdir_calm by done.
    assert (sweeping w (for_dir ["msg"] (λ tld, for_dir ["msg"; tld] (λ domain,
              for_dir ["msg"; tld; domain] (sweep_body tld domain))) w)) as Hs.
    { apply (for_dir_calm_inv _ _ (sweeping w)); [by intros ? []| |done].
      intros x w1. apply sweep_tld_sweeping. }
    intros q. destruct (node_at (tree w) D) as [[]|]; [apply Hs|done|apply Hs].
  - intros t d id f Hid D1 D2 D3 HD Htmp Hnr. set (b := ["msg"; t; d; id]).
    unfold cleanOrphanBodies. rewrite readdir_calm by done.
    destruct (node_at (tree w) D) as [[]|]; [|done..].
    assert (∀ p w1, p ∈ [["msg"]; ["msg"; t]; ["msg"; t; d]] → sweeping w w1 →
              is_dir (tree w1 !! p) = true) as Hdir.
    { intros p w1 Hp Hw1. rewrite (sweeping_short w w1 p Hw1); set_solver. }
    assert (∀ o, is_dir o = true → is_Some o) as His by (by intros [] ?).
    apply (for_dir_hit ["msg"] _ t (sweeping w) (swept w b));
      [done|done|done|by apply His|intros x w1 _ _; apply sweep_tld_sweeping
      |intros x w1 _ _; apply sweep_tld_swept| |done].
    intros w1 Hw1. apply (for_dir_hit ["msg"; t] _ d (sweeping w) (swept w b));
      [done|apply Hw1|apply Hdir; set_solver|apply His, Hdir; set_solver|intros x w2 _ _; apply sweep_dir_sweeping
      |intros x w2 _ _; apply sweep_dir_swept| |done].
    intros w2 Hw2. destruct (tree w2 !! b) eqn:Eb; [|by apply sweep_dir_swept].
    apply (for_dir_hit ["msg"; t; d] _ id (sweeping w) (swept w b));
      [done|apply Hw2|apply Hdir; set_solver|by eexists|intros x w3 _ _; apply sweep_body_sweeping
      |intros x w3 _ _; apply sweep_body_swept| |done].
    intros w3. apply sweep_body_hit; [done..|by exists f].
Qed.
End Sweep.

(** ** Recovery after a crash *)
Lemma recover_name_calm t d x w : faults w = [] → faults (recover_name t d x w) = [].
Proof.
  intros Hf. unfold recover_name, unclaim, Rename. destruct (HasSuffix _ _); [|done].
  rewrite sys_calm by done.
  by destruct (tree w !! ["env"; t; d; x]) as [[]|], (tree w !! unclaimed_path ["env"; t; d; x]) as [[]|].
Qed.

Lemma recover_dir_steps t d w :
  steps (in_dom t d) w (for_dir ["env"; t; d] (recover_name t d) w).
Proof. apply for_dir_steps. intros x w1. apply recover_name_steps; by eexists. Qed.
Lemma recover_dir_calm t d w :
  faults w = [] → faults (for_dir ["env"; t; d] (recover_name t d) w) = [].
Proof.
  apply (for_dir_calm_inv _ _ (λ w, faults w = [])); [done|]. intros x w1. apply recover_name_calm.
Qed.

(** Everything that recovery of one envelope looks at is as in [w0]. *)
Definition untouched (w0 : disk) (t d : string) (w : disk) : Prop :=
  faults w = [] ∧ ∀ q, (in_dom t d q ∨ (length q ≤ 3)%nat) → tree w !! q = tree w0 !! q.

Lemma recover_other w0 t d t' d' w : t' ≠ t ∨ d' ≠ d →
  untouched w0 t d w → untouched w0 t d (for_dir ["env"; t'; d'] (recover_name t' d') w).
Proof.
  intros Hne [Hf Hq]. split; [by apply recover_dir_calm|]. intros q Hin.
  rewrite (steps_at (in_dom t' d') w); [by apply Hq|apply recover_dir_steps|].
  intros [m ->]. destruct Hin as [[m' [= -> -> _]]|Hl]; [naive_solver|simpl in Hl; lia].
Qed.
Lemma recover_other_keeps t d n c t' d' w : t' ≠ t ∨ d' ≠ d →
  holds w ["env"; t; d; n] c →
  holds (for_dir ["env"; t'; d'] (recover_name t' d') w) ["env"; t; d; n] c.
Proof.
  intros Hne. eapply holds_steps; [apply recover_dir_steps|]. intros [m [= -> -> _]]. naive_solver.
Qed.

(** Recovery of one domain's directory renames the claimed envelope. *)
Lemma recover_dir_hit t d n f w :
  faults w = [] → is_dir (tree w !! ["env"; t; d]) = true →
  tree w !! ["env"; t; d; n +:+ deliveringSuffix] = Some (File f) →
  is_dir (tree w !! ["env"; t; d; n]) = false → HasSuffix n deliveringSuffix = false →
  tree w !! ["env"; t; d; (n +:+ deliveringSuffix) +:+ deliveringSuffix] = None →
  holds (for_dir ["env"; t; d] (recover_name t d) w) ["env"; t; d; n] (content f).
Proof.
  intros Hf D3 Hp' Hp Hn Hp''.
  apply (for_dir_hit ["env"; t; d] _ (n +:+ deliveringSuffix)
    (λ w, faults w = [] ∧ tree w !! ["env"; t; d; n +:+ deliveringSuffix] = Some (File f) ∧
          is_dir (tree w !! ["env"; t; d; n]) = false)
    (λ w, holds w ["env"; t; d; n] (content f))); [done|done|done|by eexists| | | |done].
  { intros x w3 Hx Hex (Hf3 & Hp3 & Hn3). split; [by apply recover_name_calm|]. simpl in Hex.
    destruct (HasSuffix x deliveringSuffix) eqn:Ex; [|unfold recover_name; by rewrite Ex].
    assert (steps (λ q, q ≠ ["env"; t; d; n +:+ deliveringSuffix] ∧ q ≠ ["env"; t; d; n])
              w3 (recover_name t d x w3)) as E.
    { pose proof (HasSuffix_true _ _ Ex) as Ex'. apply recover_name_steps; split; intros [= E'].
      - done.
      - congruence.
      - rewrite E' in Ex'. subst x. rewrite Hp'' in Hex. by destruct Hex.
      - rewrite E' in Ex'. done. }
    rewrite !(steps_at _ _ _ _ E); [done|by intros []..]. }
  { intros x w3 Hx Hex Hh.
    destruct (HasSuffix x deliveringSuffix) eqn:Ex; [|unfold recover_name; by rewrite Ex].
    eapply (holds_steps (λ q, q ≠ ["env"; t; d; n])); [|by intros Hc; apply Hc|exact Hh].
    pose proof (HasSuffix_true _ _ Ex) as Ex'. apply recover_name_steps; intros [= E']; [congruence|].
    rewrite E' in Ex'. done. }
  intros w3 (Hf3 & Hp3 & Hn3). unfold recover_name. rewrite HasSuffix_app. unfold unclaim.
  replace (unclaimed_path ["env"; t; d; n +:+ deliveringSuffix]) with ["env"; t; d; n]
    by (symmetry; apply (unclaimed_claimed ["env"; t; d] n)).
  rewrite (Rename_calm _ _ _ f Hf3 Hp3 Hn3). exists f. simpl. by rewrite lookup_insert_eq.
Qed.

(** After a crash nothing stays in flight: on a disk that answers every
    call, the recovery at the start of a pass puts a claimed envelope back
    under its own name with its contents, where the scan sees it again. *)
Lemma stale_recovered t d n f w :
  faults w = [] →
  is_dir (tree w !! ["env"]) = true → is_dir (tree w !! ["env"; t]) = true →
  is_dir (tree w !! ["env"; t; d]) = true →
  tree w !! ["env"; t; d; n +:+ deliveringSuffix] = Some (File f) →
  is_dir (tree w !! ["env"; t; d; n]) = false → HasSuffix n deliveringSuffix = false →
  tree w !! ["env"; t; d; (n +:+ deliveringSuffix) +:+ deliveringSuffix] = None →
  holds (recoverStaleDeliveries w) ["env"; t; d; n] (content f).
Proof.
  intros Hf D1 D2 D3 Hp' Hp Hn Hp''. set (c := content f).
  assert (∀ o, is_dir o = true → is_Some o) as His by (by intros [] ?).
  assert (untouched w t d w) as Hw by done.
  unfold recoverStaleDeliveries.
  apply (for_dir_hit ["env"] _ t (untouched w t d) (λ w, holds w ["env"; t; d; n] c));
    [done|done|done|by apply His| | | |done].
  { intros x w1 Hx _ Hw1. apply (for_dir_calm_inv _ _ (untouched w t d)); [by intros ? []| |done].
    intros y w2. apply recover_other. by left. }
  { intros x w1 Hx _ Hw1. apply for_dir_inv; [|intros y w2; apply recover_other_keeps; by left|done].
    intros w2 w3 [T _]%steps_tree. unfold holds. by rewrite T. }
  intros w1 Hw1. apply (for_dir_hit ["env"; t] _ d (untouched w t d) (λ w, holds w ["env"; t; d; n] c));
    [done|apply Hw1| | | | | |done].
  { rewrite (proj2 Hw1); [done|]. right. simpl. lia. }
  { apply His. rewrite (proj2 Hw1); [done|]. right. simpl. lia. }
  { intros y w2 Hy _. apply recover_other. by right. }
  { intros y w2 Hy _. apply recover_other_keeps. by right. }
  intros w2 [Hf2 Hq2].
  assert (∀ m, tree w2 !! ["env"; t; d; m] = tree w !! ["env"; t; d; m]) as Hm.
  { intros m. apply Hq2. left. by exists m. }
  apply recover_dir_hit; rewrite ?Hm; [done| |done..].
  rewrite Hq2; [done|]. right. simpl. lia.
Qed.

(** ** The hand-over of an injected message *)
Lemma hex_no_byte c h : hex_digit c = false → sforall hex_digit h = true → no_byte c h.
Proof. intros. by apply (sforall_no_byte hex_digit). Qed.

(** The name of an envelope leads back to the message, for every local part. *)
Lemma extractMsgID_envName l h n :
  sforall hex_digit h = true → 0 <= n → extractMsgID (envName l h n) = Some h.
Proof.
  intros Hh Hn. unfold extractMsgID, envName.
  assert (no_byte "@" (h +:+ "." +:+ fmt_d n)) as Hat.
  { rewrite !no_byte_app. split_and!; [by apply hex_no_byte|done|by apply fmt_d_no_byte]. }
  assert (cut_last "." (l +:+ "@" +:+ h +:+ "." +:+ fmt_d n) = Some (l +:+ "@" +:+ h, fmt_d n)) as Hdot.
  { change ("." +:+ fmt_d n) with (String "." (fmt_d n)).
    rewrite (sapp_assoc "@" h), (sapp_assoc l). apply cut_last_app. by apply fmt_d_no_byte. }
  destruct (HasSuffix _ deliveringSuffix) eqn:Es.
  { apply HasSuffix_true in Es. rewrite Es in Hdot.
    change deliveringSuffix with (String "." "delivering") in Hdot at 2.
    rewrite cut_last_app in Hdot by done. injection Hdot as _ E.
    pose proof (fmt_d_digits n Hn) as Hd. by rewrite <-E in Hd. }
  change ("@" +:+ h +:+ "." +:+ fmt_d n) with (String "@" (h +:+ "." +:+ fmt_d n)).
  rewrite cut_last_app by done.
  change ("." +:+ fmt_d n) with (String "." (fmt_d n)). rewrite cut_last_app; [done|].
  by apply fmt_d_no_byte.
Qed.

Section HandOver.
Context `{UnicodeCase, EnvelopeJson, GlobMeta}.

(** The identifier resolves to the body that was stored for it. *)
Lemma resolveBody_written cfg entropy from recipients preset body w w' msgid hex f :
  routable (extractDomain from) → assign_msgid entropy (extractDomain from) preset = Ok (msgid, hex) →
  (∀ a b, tree w !! ["msg"; a; b; hex] = None) →
  Write cfg entropy from recipients preset body w = (Ok msgid, w') → ready w' →
  tree w' !! body_path from hex = Some (File f) →
  dir_levels (tree w') (msgDir (extractDomain from)) →
  (resolveBody hex w').1 = Some (body_path from hex).
Proof.
  intros Hrt Hid Huniq HW (Hf & Hl & _) Hbody Hlev.
  pose proof (assign_msgid_hex _ _ _ _ _ Hid) as Hhex.
  assert (body_path from hex = ["msg"; (splitDomainLabels (extractDomain from)).1;
    (splitDomainLabels (extractDomain from)).2; hex]) as Ebp.
  { unfold body_path. by rewrite msgDir_routable. }
  unfold resolveBody. destruct (glob3_calm ["msg"] (match_body hex) w' Hf) as [_ M].
  destruct (glob3 ["msg"] (match_body hex) w') as [l w1]. simpl in M |- *.
  assert (hasMeta hex = false) as Hmeta.
  { unfold hasMeta. by rewrite !hex_no_byte. }
  assert (∀ p, p ∈ l → p = body_path from hex) as Honly.
  { intros p (a & b & n & -> & Hn & [nd Hs] & _)%M. unfold match_body in Hn. rewrite Hmeta in Hn.
    apply bool_decide_eq_true in Hn as ->. pose proof (Hl _ _ Hs) as Hlen'.
    destruct nd as [o|fl]; [simpl in Hlen'; lia|].
    destruct (Write_change cfg entropy from recipients preset body w) as [Hc _].
    rewrite HW in Hc. simpl in Hc, Hs.
    destruct (change_file _ _ _ _ _ Hc Hs) as [E|[Ht|(m' & h' & Hid' & [[E _]|(k & rc & _ & E & _)])]].
    - by rewrite Huniq in E.
    - by destruct (hex_name_not_tmp _ _ _ _ _ ["msg"; a; b] Hid Ht).
    - rewrite Hid in Hid'. by simplify_eq.
    - apply (f_equal head) in E. by rewrite env_path_head in E. }
  assert (body_path from hex ∈ l) as Hin.
  { apply M. rewrite Ebp in *. eexists _, _, hex. split; [reflexivity|].
    unfold match_body. rewrite Hmeta, bool_decide_true by done. rewrite msgDir_routable in Hlev by done.
    split_and!; [done|by eexists|rewrite node_at_ne by done|..]; apply Hlev; try done;
      repeat (apply prefix_nil || apply prefix_cons). }
  destruct l as [|p l]; [by apply elem_of_nil in Hin|]. simpl. f_equal. apply Honly. by left.
Qed.

(** What session-manager injects, queue-manager finds: for every recipient
    of an accepted message the scan reads the message identifier off the
    envelope's name, decodes the envelope that was written, and resolves the
    identifier to the one body that was stored for it. *)
Lemma injected_is_found cfg entropy from recipients preset body w msgid hex data :
  ready w → (length recipients < length (rnd w))%nat →
  routable (extractDomain from) → Forall deliverable recipients →
  assign_msgid entropy (extractDomain from) preset = Ok (msgid, hex) →
  body_reader cfg (extractDomain from) msgid body = Some (mkReader data false) →
  (∀ r, r ∈ recipients → ∃ s, enc_env (mkEnvelope cfg from r msgid (time_Now w).1) = Some s ∧
     dec_env s = Some (mkEnvelope cfg from r msgid (time_Now w).1)) →
  (∀ a b, tree w !! ["msg"; a; b; hex] = None) →
  ∃ w', Write cfg entropy from recipients preset body w = (Ok msgid, w') ∧
    (resolveBody hex w').1 = Some (body_path from hex) ∧
    (ReadFile (body_path from hex) w').1 = Ok data ∧
    ∀ k rcpt, recipients !! k = Some rcpt →
      extractMsgID (envName (splitAddress rcpt).1 hex (Z.of_nat k)) = Some hex ∧
      (parseEnvelope (env_path rcpt hex (Z.of_nat k)) w').1
        = Some (mkEnvelope cfg from rcpt msgid (time_Now w).1).
Proof.
  intros Hw Hlen Hrt Hdel Hid Hb Hjson Huniq.
  pose proof (assign_msgid_hex _ _ _ _ _ Hid) as Hhex.
  destruct (Write_calm cfg entropy from recipients preset body w msgid hex data)
    as (w' & HW & Hrdy & Hbody & Hlev & _ & Hall); [done..| |].
  { apply Forall_forall. intros r (s & Hs & _)%Hjson. by exists s. }
  exists w'. split; [done|].
  assert (∀ p f, p ≠ [] → tree w' !! p = Some (File f) → ReadFile p w' = (Ok (content f), w')) as Hread.
  { intros p f Hp Hpf. unfold ReadFile. rewrite sys_calm by apply Hrdy. by rewrite node_at_ne, Hpf. }
  assert (body_path from hex = ["msg"; (splitDomainLabels (extractDomain from)).1;
    (splitDomainLabels (extractDomain from)).2; hex]) as Ebp.
  { unfold body_path. by rewrite msgDir_routable. }
  split_and!.
  - by eapply resolveBody_written.
  - rewrite (Hread (body_path from hex) _ ltac:(by rewrite Ebp) Hbody). done.
  - intros k rcpt Hk. split; [apply extractMsgID_envName; [done|lia]|].
    destruct (Hall k rcpt Hk) as (s & Hs & Hfile).
    destruct (Hjson rcpt) as (s' & Hs' & Hdec); [by eapply list_elem_of_lookup_2|].
    unfold parseEnvelope. rewrite (Hread (env_path rcpt hex (Z.of_nat k)) _
      ltac:(unfold env_path; by destruct (envDir (splitAddress rcpt).2)) Hfile).
    simpl. congruence.
Qed.
End HandOver.

(** ** The rate limit *)
Section Limit.
Context `{Float64}.
(** float64 compares integers below [2^53] exactly, and its order is total on
    the values that occur. *)
Hypothesis gt_of : ∀ a b, 0 <= a < 2 ^ 53 → 0 <= b < 2 ^ 53 → f_gt (f_of a) (f_of b) = (b <? a).
Hypothesis gt_trans : ∀ x y z, f_gt x y = true → f_gt z y = false → f_gt x z = true.

(** Every bucket has the burst size its domain is configured with. *)
Definition buckets_ok (dl : domainLimiter) : Prop :=
  ∀ dom b, buckets dl !! dom = Some b → tb_burst b = f_of (limits_for (dl_cfg dl) dom).2.

(** A token bucket never lets a group through that exceeds its burst. *)
Lemma bucket_allow_burst n t b k :
  tb_burst b = f_of k → 0 <= k < n → n < 2 ^ 53 →
  (bucket_allow n t b).1 = false ∧ tb_burst (bucket_allow n t b).2 = f_of k.
Proof.
  intros Hb Hk Hn. unfold bucket_allow. set (tok := f_add _ _).
  assert (f_gt (f_of n) (if f_gt tok (tb_burst b) then tb_burst b else tok) = true) as ->; [|done].
  assert (f_gt (f_of n) (tb_burst b) = true) as Hnb by (rewrite Hb, gt_of by lia; lia).
  destruct (f_gt tok (tb_burst b)) eqn:E; [done|]. by eapply gt_trans.
Qed.

Lemma limiter_allow_burst dom n dl w :
  buckets_ok dl → (limits_for (dl_cfg dl) dom).1 ≠ 0 →
  0 <= (limits_for (dl_cfg dl) dom).2 < n → n < 2 ^ 53 →
  let '(ok, dl', w') := limiter_allow dom n dl w in
  ok = false ∧ tree w' = tree w ∧ buckets_ok dl' ∧ dl_cfg dl' = dl_cfg dl.
Proof.
  intros Hok Hm Hb Hn. unfold limiter_allow, bucket.
  destruct (limits_for (dl_cfg dl) dom) as [mph burst] eqn:El. simpl in *.
  apply Z.eqb_neq in Hm. rewrite Hm.
  assert (∀ b w1, tb_burst b = f_of burst → tree w1 = tree w →
    let '(ok, dl', w') := (let '(t, w2) := time_Now w1 in let '(ok, b') := bucket_allow n t b in
      (ok, mkLimiter (dl_cfg dl) (<[dom := b']> (buckets dl)), w2)) in
    ok = false ∧ tree w' = tree w ∧ buckets_ok dl' ∧ dl_cfg dl' = dl_cfg dl) as Hgo.
  { intros b w1 Hbb Ht. pose proof (time_Now_tree w1) as Ht1. destruct (time_Now w1) as [t w2].
    destruct (bucket_allow_burst n t b burst Hbb Hb Hn) as [Hf Hb'].
    destruct (bucket_allow n t b) as [ok b']. simpl in *. split_and!; [done|congruence| |done].
    intros dom' b'' Hl. simpl in *. destruct (decide (dom' = dom)) as [->|Hne].
    - rewrite lookup_insert_eq in Hl. simplify_eq. by rewrite El.
    - rewrite lookup_insert_ne in Hl by done. by apply Hok. }
  destruct (buckets dl !! dom) as [b|] eqn:Eb.
  - apply Hgo; [|done]. rewrite (Hok _ _ Eb), El. done.
  - pose proof (time_Now_tree w) as Ht. destruct (time_Now w) as [t w1]. by apply Hgo.
Qed.
End Limit.

(** A message with more envelopes for one domain than the burst size is put off
    by every pass, expired envelopes included: it is neither delivered nor
    bounced nor removed. *)
Lemma oversized_group_starves
  `{EnvelopeJson, AgentEnv, Transport, BackoffFloat, Float64, GlobMeta, MapOrder, Bounces}
  (gt_of : ∀ a b, 0 <= a < 2 ^ 53 → 0 <= b < 2 ^ 53 → f_gt (f_of a) (f_of b) = (b <? a))
  (gt_trans : ∀ x y z, f_gt x y = true → f_gt z y = false → f_gt x z = true)
  cfg ob dom id es s dl :
  s_limiter s = Some dl → buckets_ok dl → (limits_for (dl_cfg dl) dom).1 ≠ 0 →
  0 <= (limits_for (dl_cfg dl) dom).2 < Z.of_nat (length es) → Z.of_nat (length es) < 2 ^ 53 →
  let s' := process_group cfg ob dom (id, es) s in
  tree (s_disk s') = tree (s_disk s) ∧ s_log s' = s_log s ∧ s_dsns s' = s_dsns s ∧
  ∃ dl', s_limiter s' = Some dl' ∧ buckets_ok dl' ∧ dl_cfg dl' = dl_cfg dl.
Proof.
  intros Hl Hok Hm Hb Hn. unfold process_group, allow. rewrite Hl.
  pose proof (limiter_allow_burst gt_of gt_trans dom _ dl (s_disk s) Hok Hm Hb Hn) as Ha.
  destruct (limiter_allow _ _ dl (s_disk s)) as [[ok dl'] w']. destruct Ha as (-> & Ht & Hok' & Hc).
  simpl. split_and!; [done..|]. by exists dl'.
Qed.

(** ** Retry times *)
(** The interval lies between five minutes and four hours whatever the float
    computation gives, as long as it is not below the base. *)
Lemma retryInterval_bounds `{BackoffFloat} age :
  (∀ a, 0 < a → 5 * minute <= backoff_float a ∨ backoff_float a <= 0) →
  5 * minute <= retryInterval age <= 4 * hour.
Proof.
  intros Hf. unfold retryInterval, hour, minute in *. destruct (age <=? 0) eqn:E; [lia|].
  apply Z.leb_gt in E. destruct (_ || _) eqn:E'; [lia|].
  apply orb_false_elim in E' as [E1 E2]. apply Z.ltb_ge in E1. apply Z.leb_gt in E2.
  destruct (Hf age E); lia.
Qed.
(** The comment's table says four hours from the fifth hour on. *)
Lemma retry_at_five_hours `{BackoffFloat} :
  backoff_float (5 * hour) = 5 * minute * 2 ^ 5 → retryInterval (5 * hour) = 160 * minute.
Proof. intros Hf. unfold retryInterval. rewrite Hf. reflexivity. Qed.

(** ** A concrete flow *)
Module FlowDemo.
Import QDemo.

#[export] Instance agent : AgentEnv := {|
  config_Default := mkMRConfig "" "" ""; config_Load := λ _, None; config_ApplyEnv := id;
  fd_password := λ _, None; env_password := ""; os_Hostname := Some "mx.example.org" |}.
(** A relay that accepts the first envelope of a batch and defers the others. *)
Definition relay (es : list Envelope) : list (path * outcome) :=
  match es with
  | [] => []
  | e :: es => (ev_Path e, ODelivered) :: ((λ e, (ev_Path e, OTemporary 451 "later")) <$> es)
  end.
Lemma relay_keys es x : x ∈ relay es → x.1 ∈ ev_Path <$> es.
Proof.
  destruct es as [|e es]; simpl; [by intros ?%elem_of_nil|].
  intros [->|(y & -> & Hy)%list_elem_of_fmap]%elem_of_cons; [by left|right].
  by apply (list_elem_of_fmap_2 ev_Path).
Qed.
#[export] Instance transport : Transport := {|
  DeliverViaSmarthost := λ _ _ _ es _, relay es; DeliverViaMX := λ _ _ _ es _, relay es;
  smarthost_keys := λ _ _ _ es _ x, relay_keys es x; mx_keys := λ _ _ _ es _ x, relay_keys es x |}.
#[export] Instance backoff : BackoffFloat := {| backoff_float := λ a, 5 * minute * 2 ^ (a / hour) |}.
#[export] Instance ints : Float64 := {|
  F := Z; f_of := id; f_add := Z.add; f_sub := Z.sub; f_mul := Z.mul; f_div := Z.div; f_gt := Z.gtb |}.
#[export] Instance no_meta : GlobMeta := {| glob_meta := λ _ _, false |}.
#[export] Instance in_order : MapOrder := {| map_order := λ A l, l; map_order_perm := λ A l, reflexivity l |}.
#[export] Instance bounces : Bounces := {|
  Generate := λ b, Some (b_Origin b); DeliverDSN := λ _ _, true; results_json := Some |}.

Definition scfg : SConfig := mkSConfig "" 604800000000000 "mx.example.org" true true.
Definition direct : path → outboundConfig := λ _, mkOutbound "direct" "" "" "" "".

(** One message for two recipients at one domain, then an hour's wait. *)
Definition queued : disk := (inject ["bob@example.com"; "eve@example.com"] empty).2.
Definition later (w : disk) : disk := mkDisk (tree w) (faults w) (rnd w) 400000 [hour].
Definition start : sched := mkSched (later queued) None [] [].
Definition bob : string := "bob@" +:+ id32 +:+ ".0".
Definition bob_text : string :=
  match tree queued !! ["env"; "com"; "example"; bob] with Some (File f) => content f | _ => "" end.
End FlowDemo.

Section OnFlow.
Import QDemo FlowDemo.

Lemma no_silent_loss_witness :
  let s' := (RunOnce scfg direct start).2 in
  holds (s_disk s') ["env"; "com"; "example"; bob] bob_text ∨
  holds (s_disk s') ["env"; "com"; "example"; bob +:+ deliveringSuffix] bob_text ∨
  (∃ oc, (["env"; "com"; "example"; bob +:+ deliveringSuffix], oc) ∈ s_log s' ∧ settled oc = true) ∨
  (∃ env, dec_env bob_text = Some env ∧ TTL env ≠ 0 ∧ TTL env < now (s_disk s')).
Proof.
  apply (no_silent_loss scfg direct "com" "example" bob id32 bob_text start).
  - vm_compute. reflexivity.
  - eexists. split; vm_compute; reflexivity.
  - vm_compute. reflexivity.
Defined.

(** The pass of the example delivers to the first recipient and keeps the
    second envelope under its name. *)
Example flow_pass :
  let s' := (RunOnce scfg direct start).2 in
  children (tree (s_disk s')) ["env"; "com"; "example"] = ["eve@" +:+ id32 +:+ ".1"] ∧
  children (tree (s_disk s')) ["msg"; "org"; "example"] = [id32].
Proof. vm_compute. done. Qed.

(** A body whose envelopes are all gone. *)
Definition body_only : disk := (inject [] empty).2.
Lemma orphan_sweep_example :
  tree (cleanOrphanBodies [] body_only) !! ["msg"; "org"; "example"; id32] = None.
Proof.
  destruct (orphan_sweep [] body_only) as [_ Hs]; [vm_compute; reflexivity|].
  eapply Hs; try (vm_compute; reflexivity).
  intros (a & b & n & _ & _ & Hd & _). vm_compute in Hd. discriminate.
Defined.

Lemma injected_is_found_example :
  ∃ w', inject ["bob@example.com"; "eve@example.com"] empty = (Ok (id32 +:+ "@example.org"), w') ∧
    (resolveBody id32 w').1 = Some (body_path "ann@example.org" id32).
Proof.
  destruct (injected_is_found cfg None "ann@example.org" ["bob@example.com"; "eve@example.com"] id32
    (mkReader "hello" false) empty (id32 +:+ "@example.org") id32
    (Message_ID_header (id32 +:+ "@example.org") +:+ "hello")) as (w' & E & Hr & _).
  - split_and!; [done|by intros ?? E|by intros ????].
  - simpl; lia.
  - by split_and!; vm_compute.
  - repeat constructor; by vm_compute.
  - by vm_compute.
  - by vm_compute.
  - intros r Hr. exists (default "" (enc_env (mkEnvelope cfg "ann@example.org" r
      (id32 +:+ "@example.org") (time_Now empty).1))).
    revert Hr. intros [->|[->|?%elem_of_nil]%elem_of_cons]%elem_of_cons; [..|done];
      split; vm_compute; reflexivity.
  - done.
  - exists w'. exact (conj E Hr).
Defined.

(** A crash after the claim: the envelope is in flight. *)
Definition crashed : disk := (claim ["env"; "com"; "example"; bob] queued).2.
Lemma stale_recovered_example :
  holds (recoverStaleDeliveries crashed) ["env"; "com"; "example"; bob] bob_text.
Proof.
  apply (stale_recovered "com" "example" bob (mkFile bob_text 1000 (Some (mkOwner 70 70))) crashed);
    vm_compute; reflexivity.
Defined.

(** An error while [env/] is listed counts as "no envelopes": the body of a
    message that is still queued is removed. *)
Lemma transient_fault_sweeps_body :
  let w := mkDisk (tree queued) [Done; Done; Done; Done; Fault 0] [] 1000 [] in
  tree w !! ["msg"; "org"; "example"; id32] ≠ None ∧
  is_Some (tree w !! ["env"; "com"; "example"; bob]) ∧
  tree (cleanOrphanBodies ["env"; "com"; "example"] w) !! ["msg"; "org"; "example"; id32] = None.
Proof. vm_compute. split_and!; [done|by eexists|done]. Qed.

(** A sweep that runs between the body and the first envelope of an injection
    removes the body: the message is queued and cannot be delivered. *)
Lemma injection_sweep_race :
  let w := cleanOrphanBodies ["env"; "com"; "example"] body_only in
  let '(r, w) := write_envelopes cfg "ann@example.org" (id32 +:+ "@example.org") id32 1000 0
                   ["bob@example.com"] w in
  is_ok r = true ∧ is_Some (tree w !! ["env"; "com"; "example"; bob]) ∧
  tree w !! ["msg"; "org"; "example"; id32] = None.
Proof. vm_compute. split_and!; [done|by eexists|done]. Qed.
End OnFlow.
