(* ===== verification/Dsn.v ===== *)
(** * Bounces

    [src/internal/queue-manager/dsn/dsn.go]: the report that a submitter gets for a
    message that could not be delivered. [text/template] renders the first part
    and is a parameter, as is the layout of dates; [mime/multipart] is written
    out. A zero time is 0. *)
From S2P Require Import Prelude GoStrings Pop3Proto QueueFs Queue MailRemote Scheduler.
From Stdlib Require Import ZArith Lia Ascii.
Open Scope string_scope.
Open Scope list_scope.
Open Scope Z_scope.

(** ** What is taken from the message *)
(** The tokens before the first empty one; an overlong line is only met when no
    empty one comes before it. *)
Fixpoint header_lines (toks : list string) : list string * bool :=
  match toks with
  | [] => ([], false)
  | t :: toks => if decide (t = "") then ([], true) else let '(l, e) := header_lines toks in (t :: l, e)
  end.
Definition ExtractHeaders (content : string) : option string :=
  let '(toks, e) := ScanLines content in
  let '(l, blank) := header_lines toks in
  match e, blank with
  | ScanTooLong, false => None
  | _, _ => Some (crlf_lines l)
  end.

(** [strings.TrimRight] with one byte, [strings.Trim] with angle brackets *)
Fixpoint trim_right_byte (p : ascii → bool) (s : string) : string :=
  match s with
  | "" => ""
  | String c s => match trim_right_byte p s with "" => if p c then "" else String c "" | t => String c t end
  end.
Fixpoint trim_left_byte (p : ascii → bool) (s : string) : string :=
  match s with String c t => if p c then trim_left_byte p t else s | "" => "" end.
Definition is_angle (c : ascii) : bool := Ascii.eqb c "<" || Ascii.eqb c ">".
Section MessageID.
Context `{UnicodeCase}.
Fixpoint find_id (lines : list string) : string :=
  match lines with
  | [] => ""
  | line :: lines =>
      let line := trim_right_byte (Ascii.eqb CR) line in
      if HasPrefix (ToLower line) "message-id:" then
        trim_right_byte is_angle (trim_left_byte is_angle (TrimSpace (sdrop (String.length "message-id:") line)))
      else find_id lines
  end.
Definition ExtractMessageID (headers : string) : string := find_id (Split LF headers).
End MessageID.

(** ** The status code *)
(** [enhancedStatusRe]: a class, a dot, digits, a dot, digits up to the end of the
    word, at the start or behind a byte that is neither dot nor digit. *)
Fixpoint digits (s : string) : string * string :=
  match s with
  | String c t => if is_digit c then let '(d, r) := digits t in (String c d, r) else ("", s)
  | "" => ("", "")
  end.
Definition is_word (c : ascii) : bool := is_digit c || is_lower c || is_upper c || Ascii.eqb c "_".
Definition word_end (s : string) : bool := match s with String c _ => negb (is_word c) | "" => true end.
Definition is_class (c : ascii) : bool := Ascii.eqb c "2" || Ascii.eqb c "4" || Ascii.eqb c "5".
Definition status_at (s : string) : option string :=
  match s with
  | String c (String dot s) =>
      if is_class c && Ascii.eqb dot "." then
        match digits s with
        | (subject, String dot' s) =>
            let '(detail, rest) := digits s in
            if negb (bool_decide (subject = "")) && Ascii.eqb dot' "." && negb (bool_decide (detail = "")) && word_end rest
            then Some (String c ("." +:+ subject +:+ "." +:+ detail)) else None
        | _ => None
        end
      else None
  | _ => None
  end.
(** [ok]: whether a code may start here. *)
Fixpoint find_status (ok : bool) (s : string) : option string :=
  let here := if ok then status_at s else None in
  match here, s with
  | Some c, _ => Some c
  | None, "" => None
  | None, String c s => find_status (negb (Ascii.eqb c "." || is_digit c)) s
  end.
Definition ExtractEnhancedStatus (diagnostic : string) (smtpCode : Z) : string :=
  match find_status true diagnostic with
  | Some c => c
  | None => if (400 <=? smtpCode) && (smtpCode <? 500) then "4.0.0" else "5.0.0"
  end.

(** ** The report *)
Record templateData := mkTemplate {
  td_Recipient : string; td_Domain : string; td_StatusCode : string; td_SMTPCode : Z; td_Diagnostic : string;
  td_RemoteMTA : string; td_MessageID : string; td_QueuedAt : string; td_ExpiredAt : string; td_Hostname : string;
}.
Definition header_line (key value : string) : string := key +:+ ": " +:+ value +:+ crlf.
(** [multipart.Writer]: a part with one header field, and the end. *)
Definition delimiter (boundary : string) : string := "--" +:+ boundary.
Fixpoint write_parts (boundary : string) (first : bool) (parts : list (string * string)) : string :=
  match parts with
  | [] => crlf +:+ delimiter boundary +:+ "--" +:+ crlf
  | (ctype, body) :: parts =>
      (if first then "" else crlf) +:+ delimiter boundary +:+ crlf +:+ header_line "Content-Type" ctype +:+ crlf +:+
      body +:+ write_parts boundary false parts
  end.
Definition hex_or (prefix : string) (entropy : option string) (nanos : Z) : string :=
  prefix +:+ match entropy with Some b => hex_EncodeToString b | None => fmt_d nanos end.
Definition generateBoundary (entropy : option string) (nanos : Z) : string := hex_or "dsn_" entropy nanos.
Definition generateMessageID (entropy : option string) (nanos : Z) (hostname : string) : string :=
  hex_or "dsn-" entropy nanos +:+ "@" +:+ hostname.

Section Generate.
Context `{UnicodeCase, UnicodeQuote} (rfc1123z : Z → string) (execute : templateData → option string).
(** [remoteMTA] is not in the data of the scheduler, which leaves it empty. *)
Context (now : Z) (remoteMTA : string).
Definition date_or_empty (t : Z) : string := if decide (t = 0) then "" else rfc1123z t.
Definition original_headers (d : BounceData) : string := default "" (b_Headers d ≫= ExtractHeaders).
Definition template_data (d : BounceData) (status : string) : templateData :=
  mkTemplate (b_Recipient d) (b_Domain d) status (b_SMTPCode d) (b_Diagnostic d) remoteMTA
    (ExtractMessageID (original_headers d)) (date_or_empty (b_QueuedAt d)) (date_or_empty (b_ExpiredAt d)) (b_Hostname d).
Definition writePart2 (d : BounceData) (status : string) : string :=
  header_line "Reporting-MTA" ("dns; " +:+ b_Hostname d) +:+
  (if decide (b_QueuedAt d = 0) then "" else header_line "Arrival-Date" (rfc1123z (b_QueuedAt d))) +:+
  crlf +:+
  header_line "Final-Recipient" ("rfc822; " +:+ b_Recipient d) +:+
  header_line "Action" "failed" +:+
  header_line "Status" status +:+
  (if negb (bool_decide (b_Diagnostic d = "")) && (0 <? b_SMTPCode d)
   then header_line "Diagnostic-Code" ("smtp; " +:+ b_Diagnostic d) else "") +:+
  (if decide (remoteMTA = "") then "" else header_line "Remote-MTA" ("dns; " +:+ remoteMTA)) +:+
  header_line "Last-Attempt-Date" (rfc1123z now).
Definition writePart3 (headers : string) : string := ReplaceAll (ReplaceAll headers crlf lf1) lf1 crlf.
Definition report_parts (d : BounceData) (text status : string) : list (string * string) :=
  [("text/plain; charset=utf-8", text); ("message/delivery-status", writePart2 d status)] ++
  (if decide (original_headers d = "") then [] else [("text/rfc822-headers", writePart3 (original_headers d))]).
Definition top_headers (d : BounceData) (boundary msgid : string) : string :=
  header_line "From" ("MAILER-DAEMON@" +:+ b_Hostname d) +:+
  header_line "To" (b_Origin d) +:+
  header_line "Date" (rfc1123z now) +:+
  header_line "Subject" "Delivery Status Notification (Failure)" +:+
  header_line "Message-ID" ("<" +:+ msgid +:+ ">") +:+
  header_line "MIME-Version" "1.0" +:+
  header_line "Content-Type" ("multipart/report; report-type=delivery-status; boundary=" +:+ Quote boundary) +:+
  header_line "Auto-Submitted" "auto-replied".
Definition Generate (entropy1 entropy2 : option string) (nanos1 nanos2 : Z) (d : BounceData) : option string :=
  let boundary := generateBoundary entropy1 nanos1 in
  let status := ExtractEnhancedStatus (b_Diagnostic d) (b_SMTPCode d) in
  match execute (template_data d status) with
  | None => None
  | Some text =>
      Some (top_headers d boundary (generateMessageID entropy2 nanos2 (b_Hostname d)) +:+ crlf +:+
            write_parts boundary true (report_parts d text status))
  end.
End Generate.

(** ** The original headers are those of the message *)
Lemma expand_lines l : Forall (no_byte LF) l → ReplaceAll (unlines LF l) lf1 crlf = crlf_lines l.
Proof.
  unfold ReplaceAll. induction 1 as [|w ws Hw _ IH]; [done|]. cbn [crlf_lines unlines]. unfold lf1 at 1.
  rewrite replace_skip by done. f_equal. cbn [replace_aux String.length Nat.sub]. unfold HasPrefix. simpl.
  fold (HasPrefix (unlines LF ws) ""). rewrite HasPrefix_nil. f_equal. f_equal. exact IH.
Qed.
(** Header lines with CRLF come out as they went in. *)
Lemma headers_unchanged l : Forall line_ok l → writePart3 (crlf_lines l) = crlf_lines l.
Proof.
  intros Hl. unfold writePart3. rewrite ReplaceAll_crlf by done. apply expand_lines.
  eapply Forall_impl; [exact Hl|]. by intros x [_ Hx].
Qed.
Lemma header_tokens_app l rest : Forall (λ t, t ≠ "") l → header_lines (l ++ "" :: rest) = (l, true).
Proof. induction 1 as [|t l Ht _ IH]; cbn; [done|]. by rewrite decide_False, IH. Qed.
Lemma scan_raw_line line rest : rest ≠ [] → too_long line = false →
  (scan_raw (line :: rest)).1 = drop_cr line :: (scan_raw rest).1.
Proof.
  intros Hr Hl. destruct rest as [|x xs]; [done|]. change (scan_raw (line :: x :: xs)) with
    (if too_long line then ([], ScanTooLong) else let '(toks, e) := scan_raw (x :: xs) in (drop_cr line :: toks, e)).
  rewrite Hl. by destruct (scan_raw (x :: xs)).
Qed.
(** From a message whose header lines end in CRLF exactly these are taken, whatever
    the body holds. *)
Lemma headers_exact l body :
  Forall (λ t, t ≠ "" ∧ line_ok t ∧ Z.of_nat (String.length t) < 65535) l →
  ExtractHeaders (crlf_lines l +:+ crlf +:+ body) = Some (crlf_lines l).
Proof.
  intros Hl. unfold ExtractHeaders, ScanLines.
  assert (∃ rest, (scan_raw (Split LF (crlf_lines l +:+ crlf +:+ body))).1 = l ++ "" :: rest) as [rest Hs].
  { induction Hl as [|t l (Hne & [Hcr Hlf] & Hlen) _ [rest IH]].
    - change (crlf_lines [] +:+ crlf +:+ body) with (String CR "" +:+ String LF body). rewrite Split_app by done.
      rewrite scan_raw_line by (apply Split_nonempty || done). by eexists.
    - cbn [crlf_lines]. rewrite <- !sapp_assoc. change (t +:+ crlf +:+ ?u) with (t +:+ String CR (String LF u)).
      replace (t +:+ String CR (String LF (crlf_lines l +:+ crlf +:+ body)))
        with ((t +:+ String CR "") +:+ String LF (crlf_lines l +:+ crlf +:+ body)) by (by rewrite <- sapp_assoc).
      rewrite Split_app by (rewrite no_byte_app; by split).
      rewrite scan_raw_line, IH; [|apply Split_nonempty|unfold too_long; apply Z.leb_gt; rewrite slen_app; change (String.length (String CR "")) with 1%nat; lia].
      exists rest. cbn [app]. f_equal. unfold drop_cr. by rewrite cut_last_app. }
  destruct (scan_raw _) as [toks e]. cbn in Hs. subst toks.
  rewrite header_tokens_app; [by destruct e|]. eapply Forall_impl; [exact Hl|]. by intros t [? _].
Qed.

(** ** The status code is one *)
Lemma digits_spec s d r : digits s = (d, r) → s = d +:+ r ∧ sforall is_digit d = true.
Proof.
  revert d r. induction s as [|c s IH]; intros d r; cbn; [by intros [= <- <-]|].
  destruct (is_digit c) eqn:Ec; [|by intros [= <- <-]]. destruct (digits s) as [d' r']. intros [= <- <-].
  destruct (IH _ _ eq_refl) as [-> Hd]. split; [done|]. cbn. by rewrite Ec.
Qed.
Definition status_code (code : string) : Prop := ∃ c subject detail,
  is_class c = true ∧ code = String c ("." +:+ subject +:+ "." +:+ detail) ∧ subject ≠ "" ∧ detail ≠ "" ∧
  sforall is_digit subject = true ∧ sforall is_digit detail = true.
Lemma status_at_code s code : status_at s = Some code → status_code code.
Proof.
  unfold status_at. destruct s as [|c [|dot s]]; [done..|]. destruct (is_class c) eqn:Ec; [|done]. cbn [andb].
  destruct (Ascii.eqb dot "."); [|done]. destruct (digits s) as [subject [|dot' s']] eqn:E1; [done|].
  destruct (digits s') as [detail rest] eqn:E2.
  destruct (bool_decide_reflect (subject = "")); [done|]. destruct (Ascii.eqb dot' "."); [|done].
  destruct (bool_decide_reflect (detail = "")); [done|]. destruct (word_end rest); [|done]. intros [= <-].
  exists c, subject, detail. apply digits_spec in E1 as [_ H1], E2 as [_ H2]. by split_and!.
Qed.
(** Whatever the remote host answered, the report has a code of the form RFC 3463
    gives it. *)
Lemma status_wellformed diagnostic code : status_code (ExtractEnhancedStatus diagnostic code).
Proof.
  unfold ExtractEnhancedStatus. assert (∀ ok c, find_status ok diagnostic = Some c → status_code c) as Hf.
  { induction diagnostic as [|a s IH]; intros ok c; cbn [find_status].
    - by destruct ok.
    - destruct ok; [|apply IH]. destruct (status_at (String a s)) eqn:E; [|apply IH].
      intros [= <-]. by eapply status_at_code. }
  destruct (find_status true diagnostic) as [c|] eqn:E; [exact (Hf true c E)|].
  case_match; [exists "4"%char|exists "5"%char]; exists "0", "0"; by split_and!.
Qed.

(** ** Examples *)
Section DsnRuns.
Lemma found_status : ExtractEnhancedStatus "550 5.1.1 no such user" 550 = "5.1.1".
Proof. done. Qed.
(** The first three numbers of an address are taken for a code, although the
    expression is said to avoid that. *)
Lemma address_taken_for_status : ExtractEnhancedStatus "450 no route to 5.6.7.8" 450 = "5.6.7".
Proof. done. Qed.
(** A reply of several lines adds fields to the report: here the remote host
    reports the failed delivery as made. *)
Lemma diagnostic_adds_fields :
  let d := mkBounce "ann@example.org" "bob@example.com" "example.com" 550
    ("no" +:+ lf1 +:+ "Action: delivered" +:+ lf1 +:+ "x") None 0 0 "mx" in
  "Action: delivered" ∈ Split LF (writePart2 (λ _, "now") 0 "" d "5.0.0").
Proof. cbv zeta. apply (bool_decide_unpack _). vm_compute. exact I. Qed.
End DsnRuns.
