(* ===== verification/Mtasts.v ===== *)
(** * MTA-STS policies

    Model of [src/internal/mail-remote/mtasts/mtasts.go]: parsing of policy
    bodies and TXT records, matching of MX hosts, and the policy cache that
    keeps a policy in force while its TXT record or its host is unreachable.
    DNS, HTTPS and JSON are parameters. *)
From S2P Require Import Prelude GoStrings.
From Stdlib Require Import ZArith Lia Ascii.
Open Scope string_scope.
Open Scope list_scope.
Open Scope Z_scope.

Definition ModeEnforce : string := "enforce".
Definition ModeTesting : string := "testing".
Definition ModeNone : string := "none".
Definition maxMaxAge : Z := 31557600.

Record Policy := mkPolicy { Mode : string; MXs : list string; MaxAge : Z }.
#[export] Instance Policy_eq_dec : EqDecision Policy.
Proof. solve_decision. Defined.

Inductive perr := EMaxAge | EVersion | EMode | ENoMX | EMissingMaxAge.

(** ** Matching *)
Section Match.
Context `{UnicodeCase}.

Definition norm_host (h : string) : string := ToLower (TrimSuffix h ".").

Definition pattern_matches (h pattern : string) : bool :=
  let pat := norm_host pattern in
  if HasPrefix pat "*." then
    let suffix := "." +:+ sdrop 2 pat in
    if HasSuffix h suffix then
      let label := TrimSuffix h suffix in
      bool_decide (label ≠ "") && negb (has_byte "." label)
    else false
  else bool_decide (h = pat).

Definition MXMatches (p : Policy) (host : string) : bool :=
  existsb (pattern_matches (norm_host host)) (MXs p).
End Match.

(** ** Parsing *)
Record parse_state := mkPS { ps_version : string; ps_mode : string; ps_mxs : list string; ps_age : Z }.

(** One line of the body; [None] is an invalid [max_age]. *)
Definition policy_line (line : string) (st : parse_state) : option parse_state :=
  match cut ":" line with
  | None => Some st
  | Some (k, v) =>
      let k := TrimSpace k in
      let v := TrimSpace v in
      if decide (k = "version") then Some (mkPS v (ps_mode st) (ps_mxs st) (ps_age st))
      else if decide (k = "mode") then Some (mkPS (ps_version st) v (ps_mxs st) (ps_age st))
      else if decide (k = "mx") then
        Some (mkPS (ps_version st) (ps_mode st) (ps_mxs st ++ [v]) (ps_age st))
      else if decide (k = "max_age") then
        match Atoi v with
        | Some n => if n <? 0 then None
                    else Some (mkPS (ps_version st) (ps_mode st) (ps_mxs st) (Z.min n maxMaxAge))
        | None => None
        end
      else Some st
  end.

Fixpoint policy_lines (ls : list string) (st : parse_state) : option parse_state :=
  match ls with
  | [] => Some st
  | l :: ls => match policy_line l st with
               | None => None
               | Some st => policy_lines ls st
               end
  end.

Definition ParsePolicy (body : string) : result Policy perr :=
  match policy_lines (Split LF (ReplaceAll body crlf (String LF ""))) (mkPS "" "" [] (-1)) with
  | None => Err EMaxAge
  | Some st =>
      if decide (ps_version st ≠ "STSv1") then Err EVersion
      else if decide (ps_mode st ≠ ModeEnforce ∧ ps_mode st ≠ ModeTesting ∧ ps_mode st ≠ ModeNone)
           then Err EMode
      else if decide (ps_mode st = ModeEnforce ∧ ps_mxs st = []) then Err ENoMX
      else if ps_age st <? 0 then Err EMissingMaxAge
      else Ok (mkPolicy (ps_mode st) (ps_mxs st) (ps_age st))
  end.

(** The last [id=] field of a record, if any. *)
Definition txt_fields (fs : list string) (id : string) : string :=
  foldl (λ id f, if HasPrefix (TrimSpace f) "id=" then TrimSpace (sdrop 3 (TrimSpace f)) else id) id fs.
Definition txt_record (rec : string) (acc : nat * string) : nat * string :=
  match Split ";" rec with
  | v :: fs => if decide (TrimSpace v = "v=STSv1") then (S acc.1, txt_fields fs acc.2) else acc
  | [] => acc
  end.
Definition parseTXT (records : list string) : option string :=
  let '(found, id) := foldl (λ acc r, txt_record r acc) (O, "") records in
  if decide (found ≠ 1%nat ∨ id = "") then None else Some id.

(** ** The checker *)
Record cacheEntry := mkCacheEntry { ce_ID : string; FetchedAt : Z; ce_Policy : Policy }.

(** DNS, the policy host, and the JSON round trip of a cache file. *)
Class StsWorld := {
  LookupTXT : string → option (list string);
  Fetch : string → option string;
  cache_json : cacheEntry → option cacheEntry;
}.

(** The clock is read after the TXT lookup and again after the policy was asked
    for: either may take its time. *)
Inductive instant := AfterLookup | AfterFetch.
(** The cache directory: [None] when none is configured. [io_ok] says whether
    writing the next entry succeeds; [sts_now] is what the clock shows during
    the call. *)
Record Checker := mkChecker { CacheDir : option (gmap string cacheEntry); io_ok : bool; sts_now : instant → Z }.

Section Check.
Context `{UnicodeCase, StsWorld}.

(** Times are in nanoseconds, [MaxAge] in seconds; the duration is an [int64],
    which the [max_age] of a cache file may exceed. *)
Definition fresh (c : Checker) (t : instant) (e : cacheEntry) : bool :=
  sts_now c t <? FetchedAt e + wrap_int64 (MaxAge (ce_Policy e) * 1000000000).

Definition loadCache (c : Checker) (domain : string) : option cacheEntry :=
  match CacheDir c with
  | None => None
  | Some m => m !! ToLower domain ≫= cache_json
  end.

Definition storeCache (domain : string) (e : cacheEntry) (c : Checker) : Checker :=
  match CacheDir c with
  | None => c
  | Some m => if io_ok c then mkChecker (Some (<[ToLower domain := e]> m)) (io_ok c) (sts_now c) else c
  end.

Definition lookupID (domain : string) : option string :=
  match LookupTXT ("_mta-sts." +:+ domain) with
  | None => None
  | Some rs => parseTXT rs
  end.

(** [PolicyFor]: [Ok None] is "no policy", [Err] "unavailable". *)
Definition PolicyFor (domain : string) (c : Checker) : result (option Policy) unit * Checker :=
  let cached := loadCache c domain in
  let fresh_cached (t : instant) := match cached with
                                    | Some e => if fresh c t e then Some e else None
                                    | None => None
                                    end in
  match lookupID domain with
  | None => (Ok (ce_Policy <$> fresh_cached AfterLookup), c)
  | Some id =>
      if decide (ce_ID <$> fresh_cached AfterLookup = Some id) then (Ok (ce_Policy <$> fresh_cached AfterLookup), c)
      else
        let fallback := (match fresh_cached AfterFetch with
                         | Some e => Ok (Some (ce_Policy e))
                         | None => Err ()
                         end, c) in
        match Fetch domain with
        | Some body =>
            match ParsePolicy body with
            | Ok p => (Ok (Some p), storeCache domain (mkCacheEntry id (sts_now c AfterFetch) p) c)
            | Err _ => fallback
            end
        | None => fallback
        end
  end.
End Check.

(** ** Facts *)
Definition policy_ok (p : Policy) : Prop :=
  (Mode p = ModeEnforce ∨ Mode p = ModeTesting ∨ Mode p = ModeNone) ∧
  (Mode p = ModeEnforce → MXs p ≠ []) ∧ 0 <= MaxAge p <= maxMaxAge.

Lemma policy_lines_age ls st st' :
  ps_age st <= maxMaxAge → policy_lines ls st = Some st' → ps_age st' <= maxMaxAge.
Proof.
  revert st. induction ls as [|l ls IH]; intros st Ha; simpl; [by intros [= <-]|].
  destruct (policy_line l st) as [st1|] eqn:E; [|done]. apply IH.
  unfold policy_line in E. destruct (cut ":" l) as [[k v]|]; [|by simplify_eq].
  destruct (decide (TrimSpace k = "version")); [by simplify_eq|].
  destruct (decide (TrimSpace k = "mode")); [by simplify_eq|].
  destruct (decide (TrimSpace k = "mx")); [by simplify_eq|].
  destruct (decide (TrimSpace k = "max_age")); [|by simplify_eq].
  destruct (Atoi (TrimSpace v)) as [age|]; [|done]. destruct (age <? 0); [done|]. simplify_eq. simpl. lia.
Qed.

Lemma ParsePolicy_ok body p : ParsePolicy body = Ok p → policy_ok p.
Proof.
  unfold ParsePolicy. destruct (policy_lines _ _) as [st|] eqn:E; [|done].
  apply policy_lines_age in E; [|done].
  case_decide; [done|]. case_decide as Hm; [done|]. case_decide as Hx; [done|].
  destruct (ps_age st <? 0) eqn:Ea; [done|]. apply Z.ltb_ge in Ea. intros [= <-].
  unfold policy_ok. simpl. split_and!; [|naive_solver|lia|done].
  destruct (decide (ps_mode st = ModeEnforce)); [by auto|].
  destruct (decide (ps_mode st = ModeTesting)); [by auto|].
  destruct (decide (ps_mode st = ModeNone)); [by auto|]. naive_solver.
Qed.

Section StsFacts.
Context `{UnicodeCase, StsWorld}.

(** A wildcard stands for exactly one non-empty label. *)
Lemma pattern_matches_spec h pattern :
  pattern_matches h pattern = true ↔
  (HasPrefix (norm_host pattern) "*." = false ∧ h = norm_host pattern) ∨
  (HasPrefix (norm_host pattern) "*." = true ∧
   ∃ label, label ≠ "" ∧ no_byte "." label ∧ h = label +:+ "." +:+ sdrop 2 (norm_host pattern)).
Proof.
  unfold pattern_matches. destruct (HasPrefix (norm_host pattern) "*.") eqn:Ep.
  - split.
    + intros Hm. right. split; [done|].
      destruct (HasSuffix h _) eqn:Es; [|done]. apply andb_prop in Hm as [Hne Hd].
      apply bool_decide_eq_true in Hne. apply negb_true_iff in Hd.
      exists (TrimSuffix h ("." +:+ sdrop 2 (norm_host pattern))).
      split_and!; [done..|]. by apply HasSuffix_true.
    + intros [[? _]|(_ & label & Hne & Hd & ->)]; [done|].
      rewrite HasSuffix_app, TrimSuffix_app, bool_decide_true, Hd by done. done.
  - rewrite bool_decide_eq_true. naive_solver.
Qed.

(** What [PolicyFor] can answer while a fresh policy is cached. *)
Lemma PolicyFor_cached domain c e r c' :
  loadCache c domain = Some e → (∀ t, fresh c t e = true) → PolicyFor domain c = (r, c') →
  (r = Ok (Some (ce_Policy e)) ∧ c' = c) ∨
  ∃ id body p, lookupID domain = Some id ∧ id ≠ ce_ID e ∧ Fetch domain = Some body ∧
    ParsePolicy body = Ok p ∧ r = Ok (Some p) ∧ c' = storeCache domain (mkCacheEntry id (sts_now c AfterFetch) p) c.
Proof.
  intros Hl Hf. unfold PolicyFor. rewrite Hl, !Hf. cbn [fmap option_fmap option_map].
  destruct (lookupID domain) as [id|]; [|intros [= <- <-]; by left].
  case_decide as Hid; [intros [= <- <-]; by left|].
  destruct (Fetch domain) as [body|]; [|intros [= <- <-]; by left].
  destruct (ParsePolicy body) as [p|] eqn:Ep; intros [= <- <-]; [right|by left].
  exists id, body, p. split_and!; [done|congruence|done..].
Qed.
(** The lifetime a fetched policy is given is the one it states: [maxMaxAge] keeps
    the duration within an [int64]. *)
Lemma fetched_age_exact body p :
  ParsePolicy body = Ok p → wrap_int64 (MaxAge p * 1000000000) = MaxAge p * 1000000000.
Proof.
  intros (_ & _ & Ha)%ParsePolicy_ok. apply wrap_int64_small. unfold maxMaxAge in Ha. lia.
Qed.
End StsFacts.
