(* ===== verification/SmtpOut.v ===== *)
(** * Outbound SMTP

    Model of [src/internal/mail-remote/smtp] (smtp.go, dial.go, mx.go) and
    [src/internal/mail-remote/mx/mx.go]: error classification, resolution of
    mail exchangers, dialling with STARTTLS, the transaction loop and failover
    between hosts. The go-smtp client, DNS and TCP are the class [Net]: its
    state is threaded through every call, so the theorems hold for every
    behaviour of the remote side. The implementation is shown to be a
    [Transport] for the delivery agent. *)
From S2P Require Import Prelude GoStrings QueueFs Queue MailRemote Mtasts.
From Stdlib Require Import ZArith Lia Ascii.
Open Scope string_scope.
Open Scope list_scope.
Open Scope Z_scope.

(** ** Errors: what [errors.As] and [errors.Is] can see *)
Inductive error :=
| SMTPErr (code : Z)
| ConnErr
| OtherErr
| Wrapped (e : error)
| Permanent (e : error)
| Ambiguous (e : error)
| MXPermanent (e : error).

Fixpoint chain (leaf : error → option Z) (e : error) : option Z :=
  match leaf e with
  | Some n => Some n
  | None =>
      match e with
      | Wrapped e | Permanent e | Ambiguous e | MXPermanent e => chain leaf e
      | _ => None
      end
  end.
Definition as_bool (o : option Z) : bool := match o with Some _ => true | None => false end.

Definition smtp_code (e : error) : option Z := chain (λ e, match e with SMTPErr c => Some c | _ => None end) e.
Definition IsPermanent (e : error) : bool :=
  as_bool (chain (λ e, match e with Permanent _ => Some 1 | _ => None end) e).
Definition isAmbiguous (e : error) : bool :=
  as_bool (chain (λ e, match e with Ambiguous _ => Some 1 | _ => None end) e).
Definition SMTPCode (e : error) : Z := default 0 (smtp_code e).

Definition classifyError (e : error) : error :=
  match smtp_code e with
  | Some c => if 500 <=? c then Permanent e else e
  | None => e
  end.
Definition isConnectionError (e : error) : bool :=
  match smtp_code e with
  | Some _ => false
  | None => as_bool (chain (λ e, match e with ConnErr => Some 1 | _ => None end) e)
  end.
Definition classifyMXError (e : error) : error :=
  if as_bool (chain (λ e, match e with MXPermanent _ => Some 1 | _ => None end) e)
  then Permanent e else e.

(** ** Mail exchangers *)
Record MX := mkMX { mx_Host : string; mx_Pref : Z }.
Record Host := mkHost { h_Name : string; h_Port : string }.
Definition Addr (h : Host) : string :=
  (if has_byte ":" (h_Name h) then "[" +:+ h_Name h +:+ "]" else h_Name h) +:+ ":" +:+ h_Port h.

(** [None] is a failed lookup, whatever the reason. [sort_mx] is [sort.Slice],
    which orders by preference and leaves equal ones in any order. *)
Class Resolver := {
  LookupMX : string → option (list MX);
  LookupHost : string → option (list string);
  sort_mx : list MX → list MX;
  sort_mx_perm l : sort_mx l ≡ₚ l;
  sort_mx_sorted l : Sorted (λ a b, mx_Pref a <= mx_Pref b) (sort_mx l);
}.

Definition mx_hosts (mxs : list MX) : list Host :=
  omap (λ m, let name := TrimSuffix (mx_Host m) "." in
             if decide (name = "") then None else Some (mkHost name "25")) mxs.

Definition is_null_mx (mxs : list MX) : bool :=
  match mxs with
  | [m] => (mx_Pref m =? 0) && bool_decide (mx_Host m = "." ∨ mx_Host m = "")
  | _ => false
  end.

(** The fallback to the address records of the domain itself. *)
Definition lookup_address `{Resolver} (domain : string) : result (list Host) error :=
  match LookupHost domain with
  | None | Some [] => Err (MXPermanent OtherErr)
  | Some _ => Ok [mkHost domain "25"]
  end.

Definition Lookup `{Resolver} (domain : string) : result (list Host) error :=
  match LookupMX domain with
  | Some ((_ :: _) as mxs) =>
      if is_null_mx mxs then Err (MXPermanent OtherErr)
      else match mx_hosts (sort_mx mxs) with
           | [] => lookup_address domain
           | hosts => Ok hosts
           end
  | _ => lookup_address domain
  end.

(** ** Dialling *)
Inductive security := Verified | Unverified | Plaintext.
#[export] Instance security_eq_dec : EqDecision security.
Proof. solve_decision. Defined.

(** [readReply] on the lines the server sends; the line end is cut off already.
    Running out of lines is a read error. *)
Fixpoint readReply (wantCode : Z) (input : list string) : option (list string * list string) :=
  match input with
  | [] => None
  | line :: rest =>
      if bool_decide (String.length line < 3)%nat then None
      else match Atoi (stake 3 line) with
           | None => None
           | Some code =>
               if negb (code =? wantCode) then None
               else
                 let texts := if bool_decide (4 < String.length line)%nat then [sdrop 4 line] else [] in
                 if HasPrefix (sdrop 3 line) "-" then
                   match readReply wantCode rest with
                   | None => None
                   | Some (ls, rest) => Some (texts ++ ls, rest)
                   end
                 else Some (texts, rest)
           end
  end.

(** What happens on one TCP connection: the lines received, whether the two
    commands could be sent, the handshake with and without verification, the
    greeting of the client library and its client. *)
Record Attempt (C : Type) := mkAttempt {
  at_lines : list string;
  at_sent_ehlo : bool;
  at_sent_starttls : bool;
  at_handshake : bool → bool;
  at_hello : option error;
  at_client : C;
}.
Arguments mkAttempt {C}.
Arguments at_lines {C}.
Arguments at_sent_ehlo {C}.
Arguments at_sent_starttls {C}.
Arguments at_handshake {C}.
Arguments at_hello {C}.
Arguments at_client {C}.

Section Starttls.
Context `{UnicodeCase} {C : Type}.

Definition negotiateSTARTTLS (a : Attempt C) (insecureSkipVerify : bool) : bool :=
  match readReply 220 (at_lines a) with
  | None => false
  | Some (_, rest) =>
      if negb (at_sent_ehlo a) then false
      else match readReply 250 rest with
           | None => false
           | Some (ehlo, rest) =>
               if negb (existsb (λ l, EqualFold (TrimSpace l) "STARTTLS") ehlo) then false
               else if negb (at_sent_starttls a) then false
               else match readReply 220 rest with
                    | None => false
                    | Some _ => at_handshake a insecureSkipVerify
                    end
           end
  end.
End Starttls.

(** ** The network *)
Class Net (C N : Type) := {
  net_connect : string → N → option (Attempt C) * N;       (** [dialTCP] *)
  net_smarthost : string → N → result C error * N;         (** [DialStartTLS] *)
  c_Auth : C → string → string → N → option error * N;
  c_MaxMessageSize : C → option Z;
  c_Mail : C → string → N → option error * N;
  c_Rcpt : C → string → N → option error * N;
  c_Data : C → N → option error * N;
  c_Copy : C → path → N → option error * N;                 (** the body *)
  c_CloseData : C → N → option error * N;                   (** the terminator *)
  c_Reset : C → N → option error * N;
  body_opens : path → N → bool * N;
  body_size : path → N → option Z * N;
}.

Section Smtp.
Context {C N : Type} `{Net C N, UnicodeCase}.

Definition hello_on (sec : security) (a : Attempt C) (n : N) : result (security * C) error * N :=
  match at_hello a with
  | None => (Ok (sec, at_client a), n)
  | Some e => (Err (Wrapped e), n)
  end.

(** [DialMX]: verified TLS, then unverified TLS, then plaintext, each on a
    connection of its own. *)
Definition DialMX (addr : string) (n : N) : result (security * C) error * N :=
  match net_connect addr n with
  | (None, n) => (Err (Wrapped ConnErr), n)
  | (Some a, n) =>
      if negotiateSTARTTLS a false then hello_on Verified a n
      else match net_connect addr n with
           | (None, n) => (Err (Wrapped ConnErr), n)
           | (Some a, n) =>
               if negotiateSTARTTLS a true then hello_on Unverified a n
               else match net_connect addr n with
                    | (None, n) => (Err (Wrapped ConnErr), n)
                    | (Some a, n) => hello_on Plaintext a n
                    end
           end
  end.

Definition DialMXStrict (addr : string) (n : N) : result (security * C) error * N :=
  match net_connect addr n with
  | (None, n) => (Err (Wrapped ConnErr), n)
  | (Some a, n) =>
      if negotiateSTARTTLS a false then hello_on Verified a n else (Err (Wrapped OtherErr), n)
  end.

(** ** One envelope; the boolean says whether the terminator was sent *)
Definition deliver (c : C) (bodyPath : path) (env : Envelope) (n : N) : option error * bool * N :=
  match body_opens bodyPath n with
  | (false, n) => (Some (Wrapped OtherErr), false, n)
  | (true, n) =>
      match c_Mail c (Sender (ev_env env)) n with
      | (Some e, n) => (Some (classifyError (Wrapped e)), false, n)
      | (None, n) =>
          match c_Rcpt c (Recipient (ev_env env)) n with
          | (Some e, n) => (Some (classifyError (Wrapped e)), false, n)
          | (None, n) =>
              match c_Data c n with
              | (Some e, n) => (Some (classifyError (Wrapped e)), false, n)
              | (None, n) =>
                  match c_Copy c bodyPath n with
                  | (Some e, n) => (Some (Wrapped e), false, n)
                  | (None, n) =>
                      match c_CloseData c n with
                      | (Some e, n) =>
                          (Some (if isConnectionError e then Ambiguous (Wrapped e)
                                 else classifyError (Wrapped e)), true, n)
                      | (None, n) => (None, true, n)
                      end
                  end
              end
          end
      end
  end.

(** ** The results map, the terminators sent, the hosts dialled and the connections used *)
Record run_state := mkRS {
  results : gmap path (option error);
  terminated : list path;
  used : list (string * security);
  dialed : list string;
  net : N;
}.
Definition set_net (s : run_state) (n : N) : run_state := mkRS (results s) (terminated s) (used s) (dialed s) n.
(** An attempt on a host, which left the network at [n]. *)
Definition attempted (h : Host) (n : N) (s : run_state) : run_state :=
  mkRS (results s) (terminated s) (used s) (dialed s ++ [Addr h]) n.
Definition record (env : Envelope) (r : option error) (s : run_state) : run_state :=
  mkRS (<[ev_Path env := r]> (results s)) (terminated s) (used s) (dialed s) (net s).
Definition record_all (envs : list Envelope) (r : option error) (s : run_state) : run_state :=
  foldl (λ s e, record e r s) s envs.

Definition deliver_one (c : C) (bodyPath : path) (env : Envelope) (s : run_state)
    : option error * run_state :=
  let '(r, sent, n) := deliver c bodyPath env (net s) in
  (r, mkRS (results s) (if (sent : bool) then terminated s ++ [ev_Path env] else terminated s) (used s) (dialed s) n).

Definition conn_failed (r : option error) : bool :=
  match r with Some e => isConnectionError e | None => false end.
Definition ambiguous (r : option error) : bool :=
  match r with Some e => isAmbiguous e | None => false end.

(** [deliverAll] from index [i] on; the retryable rest with its cause. *)
Fixpoint deliverAll (c : C) (bodyPath : path) (maxTxn i : Z) (envs : list Envelope) (s : run_state)
    : list Envelope * option error * run_state :=
  match envs with
  | [] => ([], None, s)
  | env :: rest =>
      if (0 <? maxTxn) && (maxTxn <=? i) then ([], None, record_all envs (Some OtherErr) s)
      else
        let '(r, s) := deliver_one c bodyPath env s in
        if conn_failed r then
          if ambiguous r then (rest, r, record env r s) else (env :: rest, r, s)
        else
          let s := record env r s in
          match rest with
          | [] => ([], None, s)
          | _ =>
              match c_Reset c (net s) with
              | (Some e, n) =>
                  if isConnectionError e then (rest, Some (Wrapped e), set_net s n)
                  else deliverAll c bodyPath maxTxn (i + 1) rest (set_net s n)
              | (None, n) => deliverAll c bodyPath maxTxn (i + 1) rest (set_net s n)
              end
          end
  end.

(** [checkSize]: the server's limit, when it advertises one. *)
Definition checkSize (c : C) (bodyBytes : Z) : option error :=
  match c_MaxMessageSize c with
  | None => None
  | Some m => if m =? 0 then None else if m <? bodyBytes then Some (Permanent OtherErr) else None
  end.

(** ** A fixed relay *)
Definition start (n : N) : run_state := mkRS ∅ [] [] [] n.

Definition ViaSmarthost (addr user pass : string) (bodyPath : path) (envs : list Envelope) (maxTxn : Z)
    (n : N) : run_state :=
  let s := start n in
  match net_smarthost addr (net s) with
  | (Err e, n) => record_all envs (Some (Wrapped e)) (set_net s n)
  | (Ok c, n) =>
      let '(auth, n) := if decide (user ≠ "") then c_Auth c user pass n else (None, n) in
      let s := set_net s n in
      match auth with
      | Some e => record_all envs (Some (Wrapped e)) s
      | None =>
          match body_size bodyPath (net s) with
          | (None, n) => record_all envs (Some (Wrapped OtherErr)) (set_net s n)
          | (Some size, n) =>
              let s := set_net s n in
              match checkSize c size with
              | Some e => record_all envs (Some e) s
              | None =>
                  let '(retryable, cause, s) := deliverAll c bodyPath maxTxn 0 envs s in
                  record_all retryable (Wrapped <$> cause) s
              end
          end
      end
  end.

(** ** Direct delivery *)
Definition maxMXAttempts : Z := 5.

(** The hosts and the way to dial under a policy; [None] when an enforced
    policy lists none of them. *)
Definition usable_hosts (policy : option Policy) (hosts : list Host) : option (list Host * bool) :=
  match policy with
  | Some p =>
      if decide (Mode p = ModeEnforce) then
        match filter (λ h, MXMatches p (h_Name h)) hosts with
        | [] => None
        | l => Some (l, true)
        end
      else Some (hosts, false)
  | None => Some (hosts, false)
  end.

Definition dial (strict : bool) (addr : string) (n : N) : result (security * C) error * N :=
  if strict then DialMXStrict addr n else DialMX addr n.

(** The host loop; [k] attempts have been made. *)
Fixpoint try_hosts (strict : bool) (bodyPath : path) (size maxTxn k : Z) (hosts : list Host)
    (pending : list Envelope) (lastErr : option error) (s : run_state)
    : list Envelope * option error * run_state :=
  match hosts with
  | [] => (pending, lastErr, s)
  | h :: hosts =>
      if bool_decide (pending = []) || (maxMXAttempts <=? k) then (pending, lastErr, s)
      else
        match dial strict (Addr h) (net s) with
        | (Err e, n) => try_hosts strict bodyPath size maxTxn (k + 1) hosts pending (Some e) (attempted h n s)
        | (Ok (sec, c), n) =>
            match checkSize c size with
            | Some e => try_hosts strict bodyPath size maxTxn (k + 1) hosts pending (Some e) (attempted h n s)
            | None =>
                let s := mkRS (results s) (terminated s) (used s ++ [(h_Name h, sec)]) (dialed s ++ [Addr h]) n in
                let '(retryable, cause, s) := deliverAll c bodyPath maxTxn 0 pending s in
                match retryable with
                | [] => ([], lastErr, s)
                | _ => try_hosts strict bodyPath size maxTxn (k + 1) hosts retryable cause s
                end
            end
        end
  end.

Definition ViaMX `{Resolver} (domain : string) (bodyPath : path) (envs : list Envelope) (maxTxn : Z)
    (policy : option Policy) (n : N) : run_state :=
  let s := start n in
  match Lookup domain with
  | Err e => record_all envs (Some (classifyMXError e)) s
  | Ok hosts =>
      match usable_hosts policy hosts with
      | None => record_all envs (Some OtherErr) s
      | Some (hosts, strict) =>
          match body_size bodyPath (net s) with
          | (None, n) => record_all envs (Some (Wrapped OtherErr)) (set_net s n)
          | (Some size, n) =>
              let '(pending, lastErr, s) := try_hosts strict bodyPath size maxTxn 0 hosts envs None (set_net s n) in
              record_all pending (Some (Wrapped (default OtherErr lastErr))) s
          end
      end
  end.
End Smtp.

(** ** Facts *)
Lemma conn_classified e : isConnectionError (classifyError (Wrapped e)) = isConnectionError e.
Proof.
  assert (smtp_code (Wrapped e) = smtp_code e) as Hw by done.
  unfold classifyError, isConnectionError. rewrite Hw. destruct (smtp_code e) as [c|] eqn:E.
  - destruct (500 <=? c); [|by rewrite Hw].
    change (smtp_code (Permanent (Wrapped e))) with (smtp_code e). by rewrite E.
  - by rewrite Hw.
Qed.

Section SmtpFacts.
Context {C N : Type} `{Net C N, UnicodeCase}.

Definition paths (envs : list Envelope) : gset path := list_to_set (ev_Path <$> envs).

(** The bookkeeping of a run: an envelope whose terminator was sent has its
    result, none was sent twice, and a delivered one was sent. *)
Record run_ok (s : run_state (N := N)) : Prop := {
  ok_nodup : NoDup (terminated s);
  ok_settled p : p ∈ terminated s → p ∈ dom (results s);
  ok_delivered p : results s !! p = Some None → p ∈ terminated s;
}.

Lemma record_all_spec envs r s : r ≠ None → run_ok s → (∀ e, e ∈ envs → ev_Path e ∉ terminated s) →
  run_ok (record_all envs r s) ∧
  dom (results (record_all envs r s)) = dom (results s) ∪ paths envs ∧
  terminated (record_all envs r s) = terminated s ∧ used (record_all envs r s) = used s.
Proof.
  intros Hr. unfold record_all, paths. revert s.
  induction envs as [|e envs IH]; intros s Hok Hnt; simpl; [split_and!; [done|set_solver|done..]|].
  destruct (IH (record e r s)) as (Hok' & Hd & Ht & Hu).
  - destruct Hok as [Hnd Hset Hdel]. split; simpl; [done|set_solver|].
    intros p. destruct (decide (p = ev_Path e)) as [->|Hne].
    + rewrite lookup_insert_eq. intros [= ->]. done.
    + rewrite lookup_insert_ne by done. apply Hdel.
  - intros e' He'. apply Hnt. by right.
  - split_and!; [done| |done..]. rewrite Hd. simpl. set_solver.
Qed.

(** A connection failure that is not ambiguous comes before the terminator,
    and a delivery after it. *)
Lemma deliver_sent c b e n :
  let '(r, sent, _) := deliver c b e n in
  (r = None → sent = true) ∧ (conn_failed r = true → ambiguous r = false → sent = false).
Proof.
  unfold deliver. destruct (body_opens b n) as [[|] n1]; [|done].
  destruct (c_Mail c _ n1) as [[e1|] n2]; [done|].
  destruct (c_Rcpt c _ n2) as [[e2|] n3]; [done|].
  destruct (c_Data c n3) as [[e3|] n4]; [done|].
  destruct (c_Copy c b n4) as [[e4|] n5]; [done|].
  destruct (c_CloseData c n5) as [[e5|] n6]; [|done]. split; [done|]. simpl.
  destruct (isConnectionError e5) eqn:E; [done|]. rewrite conn_classified, E. done.
Qed.

Lemma paths_cons e envs : paths (e :: envs) = {[ev_Path e]} ∪ paths envs.
Proof. done. Qed.
Lemma elem_of_paths e envs : e ∈ envs → ev_Path e ∈ paths envs.
Proof. intros He. apply elem_of_list_to_set. by apply list_elem_of_fmap_2. Qed.

Lemma deliverAll_spec c b m i envs s :
  run_ok s → NoDup (ev_Path <$> envs) → (∀ e, e ∈ envs → ev_Path e ∉ dom (results s)) →
  let '(rt, cause, s') := deliverAll c b m i envs s in
  run_ok s' ∧ used s' = used s ∧ (rt ≠ [] → cause ≠ None) ∧
  ∃ settled, envs = settled ++ rt ∧ dom (results s') = dom (results s) ∪ paths settled.
Proof.
  revert i s. induction envs as [|e rest IH]; intros i s Hok Hnd Hnew.
  { simpl. split_and!; [done..|]. exists []. split; [done|]. set_solver. }
  apply NoDup_cons in Hnd as [He Hnd]. cbn [deliverAll].
  assert (∀ e', e' ∈ e :: rest → ev_Path e' ∉ terminated s) as Hnt.
  { intros e' He' Ht. apply (Hnew e' He'). by apply Hok. }
  destruct (_ && _).
  { destruct (record_all_spec (e :: rest) (Some OtherErr) s) as (? & ? & ? & ?); [done..|].
    split_and!; [done..|]. exists (e :: rest). by rewrite app_nil_r. }
  unfold deliver_one. pose proof (deliver_sent c b e (net s)) as Hs.
  destruct (deliver c b e (net s)) as [[r sent] n]. destruct Hs as [Hs1 Hs2].
  set (s1 := mkRS _ _ _ _ n).
  assert (run_ok (record e r s1)) as Hok1.
  { destruct Hok as [H1' H2' H3']. subst s1. split; simpl.
    - destruct sent; [|done]. apply NoDup_app. split_and!; [done| |apply NoDup_singleton].
      intros p Hp ->%list_elem_of_singleton. by apply (Hnt e); [left|].
    - intros p. destruct sent; [rewrite elem_of_app, list_elem_of_singleton|]; set_solver.
    - intros p. destruct (decide (p = ev_Path e)) as [->|Hne].
      + rewrite lookup_insert_eq. intros [= ->]. rewrite (Hs1 eq_refl). set_solver.
      + rewrite lookup_insert_ne by done. intros ?%H3'. destruct sent; set_solver. }
  assert (dom (results (record e r s1)) = dom (results s) ∪ paths [e]) as Hd1.
  { subst s1. simpl. rewrite paths_cons. set_solver. }
  destruct (conn_failed r) eqn:Ec.
  { destruct (ambiguous r) eqn:Ea.
    - split_and!; [done..|by destruct r|]. by exists [e].
    - assert (sent = false) as -> by (by apply Hs2). split_and!; [by subst s1; destruct Hok|done|by destruct r|].
      exists []. split; [done|]. subst s1. set_solver. }
  assert (∀ n', let '(rt, cause, s') := deliverAll c b m (i + 1) rest (set_net (record e r s1) n') in
    run_ok s' ∧ used s' = used s ∧ (rt ≠ [] → cause ≠ None) ∧
    ∃ settled, e :: rest = settled ++ rt ∧ dom (results s') = dom (results s) ∪ paths settled) as Hrec.
  { intros n'. specialize (IH (i + 1) (set_net (record e r s1) n')).
    destruct (deliverAll c b m (i + 1) rest _) as [[rt cause] s'].
    destruct IH as (Hok' & Hu & Hc & settled & -> & Hd).
    - by destruct Hok1.
    - done.
    - intros e' He'. cbn [results set_net]. rewrite Hd1, paths_cons. intros [Hin|Hin]%elem_of_union.
      + by apply (Hnew e'); [right|].
      + assert (ev_Path e' = ev_Path e) as E by set_solver.
        apply He. rewrite <-E. by apply list_elem_of_fmap_2.
    - split_and!; [done|by rewrite Hu|done|]. exists (e :: settled). split; [done|].
      rewrite Hd. cbn [results set_net]. rewrite Hd1, !paths_cons. set_solver. }
  destruct rest as [|e2 rest].
  { split_and!; [done..|]. by exists [e]. }
  destruct (c_Reset c _) as [[er|] n2]; [|apply Hrec].
  destruct (isConnectionError er); [|apply Hrec].
  split_and!; [by destruct Hok1|done..|]. exists [e]. split; [done|]. exact Hd1.
Qed.

Lemma hello_on_sec sec a n sec' (c : C) n' :
  hello_on (N := N) sec a n = (Ok (sec', c), n') → sec' = sec.
Proof. unfold hello_on. by destruct (at_hello a); intros; simplify_eq. Qed.

Lemma dial_strict_verified addr n sec c n' : dial true addr n = (Ok (sec, c), n') → sec = Verified.
Proof.
  unfold dial, DialMXStrict. destruct (net_connect addr n) as [[a|] n1]; [|done].
  destruct (negotiateSTARTTLS a false); [apply hello_on_sec|done].
Qed.

(** Failover: what is pending at the end was never settled, what was settled is
    recorded, and at most five hosts were used, as the policy demands. *)
Lemma try_hosts_spec strict b size m k hosts pending le s :
  run_ok s → NoDup (ev_Path <$> pending) → (∀ e, e ∈ pending → ev_Path e ∉ dom (results s)) →
  0 <= k <= maxMXAttempts →
  let '(pd, le', s') := try_hosts strict b size m k hosts pending le s in
  run_ok s' ∧
  (∃ settled, pending = settled ++ pd ∧ dom (results s') = dom (results s) ∪ paths settled) ∧
  ∃ l, used s' = used s ++ l ∧ Z.of_nat (length l) <= maxMXAttempts - k ∧
    ∀ x, x ∈ l → (∃ h, h ∈ hosts ∧ x.1 = h_Name h) ∧ (strict = true → x.2 = Verified).
Proof.
  revert k pending le s. induction hosts as [|h hosts IH]; intros k pending le s Hok Hnd Hnew Hk.
  { split_and!; [done|exists []; split; [done|set_solver]|].
    exists []. split_and!; [by rewrite app_nil_r|simpl; lia|by intros x ?%elem_of_nil]. }
  cbn [try_hosts]. destruct (_ || _) eqn:Estop.
  { split_and!; [done|exists []; split; [done|set_solver]|].
    exists []. split_and!; [by rewrite app_nil_r|simpl; lia|by intros x ?%elem_of_nil]. }
  apply orb_false_elim in Estop as [_ Hmax]. apply Z.leb_gt in Hmax.
  assert (∀ s1 pd1 le1 l1 settled1, run_ok s1 → pending = settled1 ++ pd1 →
    dom (results s1) = dom (results s) ∪ paths settled1 → used s1 = used s ++ l1 →
    (length l1 ≤ 1)%nat → (∀ x, x ∈ l1 → x.1 = h_Name h ∧ (strict = true → x.2 = Verified)) →
    let '(pd, le', s') := try_hosts strict b size m (k + 1) hosts pd1 le1 s1 in
    run_ok s' ∧
    (∃ settled, pending = settled ++ pd ∧ dom (results s') = dom (results s) ∪ paths settled) ∧
    ∃ l, used s' = used s ++ l ∧ Z.of_nat (length l) <= maxMXAttempts - k ∧
      ∀ x, x ∈ l → (∃ h', h' ∈ h :: hosts ∧ x.1 = h_Name h') ∧ (strict = true → x.2 = Verified)) as Hgo.
  { intros s1 pd1 le1 l1 settled1 Hok1 -> Hd1 Hu1 Hl1 Hx1. rewrite fmap_app in Hnd.
    apply NoDup_app in Hnd as (_ & Hdis & Hnd1).
    specialize (IH (k + 1) pd1 le1 s1 Hok1 Hnd1).
    destruct (try_hosts _ _ _ _ (k + 1) hosts pd1 le1 s1) as [[pd le'] s'].
    destruct IH as (Hok' & (settled & -> & Hd) & l & Hu & Hl & Hx); [| lia |].
    { intros e He. rewrite Hd1. intros [Hin|Hin]%elem_of_union.
      - apply (Hnew e); [apply elem_of_app; by right|done].
      - apply elem_of_list_to_set in Hin. apply (Hdis _ Hin). by apply list_elem_of_fmap_2. }
    split_and!; [done| |].
    - exists (settled1 ++ settled). split; [by rewrite (assoc_L (++))|]. rewrite Hd, Hd1.
      unfold paths. rewrite fmap_app, list_to_set_app_L. set_solver.
    - exists (l1 ++ l). split_and!; [by rewrite Hu, Hu1, (assoc_L (++))|rewrite length_app; lia|].
      intros x [Hx'|Hx']%elem_of_app.
      + destruct (Hx1 x Hx'). split; [exists h; split; [by left|done]|done].
      + destruct (Hx x Hx') as [(h' & ? & ?) ?]. split; [exists h'; split; [by right|done]|done]. }
  destruct (dial strict (Addr h) (net s)) as [[[sec c]|e] n] eqn:Ed.
  2:{ apply (Hgo _ pending (Some e) [] []); [by destruct Hok|done|set_solver|simpl; by rewrite app_nil_r|simpl; lia|].
      by intros x ?%elem_of_nil. }
  destruct (checkSize c size) as [e|].
  { apply (Hgo _ pending (Some e) [] []); [by destruct Hok|done|set_solver|simpl; by rewrite app_nil_r|simpl; lia|].
    by intros x ?%elem_of_nil. }
  set (s1 := mkRS _ _ _ _ n). assert (run_ok s1) as Hok1 by (by destruct Hok).
  pose proof (deliverAll_spec c b m 0 pending s1 Hok1 Hnd Hnew) as Hda.
  destruct (deliverAll c b m 0 pending s1) as [[rt cause] s2].
  destruct Hda as (Hok2 & Hu2 & _ & settled & Hp & Hd2).
  assert (∀ x, x ∈ [(h_Name h, sec)] → x.1 = h_Name h ∧ (strict = true → x.2 = Verified)) as Hone.
  { intros x ->%list_elem_of_singleton. split; [done|]. intros ->. simpl. by eapply dial_strict_verified. }
  destruct rt as [|e2 rt].
  - split_and!; [done|by exists settled|]. exists [(h_Name h, sec)].
    split_and!; [by rewrite Hu2|simpl; lia|].
    intros x Hx. destruct (Hone x Hx). split; [exists h; split; [by left|done]|done].
  - eapply (Hgo s2 (e2 :: rt) cause [(h_Name h, sec)] settled); [done|done|done|done|simpl; lia|done].
Qed.

Lemma start_ok n : run_ok (start n).
Proof. split; simpl; [constructor|by intros p ?%elem_of_nil|by intros p]. Qed.

Lemma record_rest r s settled pd envs :
  r ≠ None → run_ok s → NoDup (ev_Path <$> envs) → envs = settled ++ pd → dom (results s) = paths settled →
  run_ok (record_all pd r s) ∧ dom (results (record_all pd r s)) = paths envs ∧
  used (record_all pd r s) = used s.
Proof.
  intros Hr Hok Hnd -> Hd. rewrite fmap_app in Hnd. apply NoDup_app in Hnd as (_ & Hdis & _).
  destruct (record_all_spec pd r s Hr Hok) as (? & Hd' & _ & ?).
  { intros e He Ht. apply Hok in Ht. rewrite Hd in Ht. apply elem_of_list_to_set in Ht.
    apply (Hdis _ Ht). by apply list_elem_of_fmap_2. }
  split_and!; [done| |done]. rewrite Hd', Hd. unfold paths. by rewrite fmap_app, list_to_set_app_L.
Qed.

Lemma ViaSmarthost_spec addr user pass b envs m n :
  NoDup (ev_Path <$> envs) →
  let s := ViaSmarthost addr user pass b envs m n in
  run_ok s ∧ dom (results s) = paths envs.
Proof.
  intros Hnd. unfold ViaSmarthost. pose proof (start_ok n) as H0'. cbn [net start].
  assert (∀ s r, run_ok s → dom (results s) = ∅ → r ≠ None →
    run_ok (record_all envs r s) ∧ dom (results (record_all envs r s)) = paths envs) as Hall.
  { intros s r Hok Hd Hr. by destruct (record_rest r s [] envs envs Hr Hok Hnd eq_refl Hd) as (? & ? & _). }
  destruct (net_smarthost addr n) as [[c|e] n1]; [|apply Hall; [by destruct H0'|by apply dom_empty_L|done]].
  destruct (if decide _ then _ else _) as [[e|] n2]; cbn [set_net net];
    [apply Hall; [by destruct H0'|by apply dom_empty_L|done]|].
  destruct (body_size b n2) as [[size|] n3]; [|apply Hall; [by destruct H0'|by apply dom_empty_L|done]].
  destruct (checkSize c size); [apply Hall; [by destruct H0'|by apply dom_empty_L|done]|].
  pose proof (deliverAll_spec c b m 0 envs (set_net (set_net (start n) n2) n3)) as Hda.
  destruct (deliverAll c b m 0 envs _) as [[rt cause] s2].
  destruct Hda as (Hok & _ & Hc & settled & He & Hd); [by destruct H0'|done| |].
  { intros e _. cbn [results set_net start]. rewrite dom_empty_L. set_solver. }
  cbn [results set_net start] in Hd. rewrite dom_empty_L, (left_id_L ∅ (∪)) in Hd.
  destruct rt as [|e rt].
  - rewrite app_nil_r in He. subst. done.
  - destruct (record_rest (Wrapped <$> cause) s2 settled (e :: rt) envs) as (? & ? & _); [|done..].
    destruct cause; [done|]. by destruct (Hc ltac:(done)).
Qed.

Context `{Resolver}.

Lemma usable_hosts_spec policy hosts l strict :
  usable_hosts policy hosts = Some (l, strict) →
  ∀ p, policy = Some p → Mode p = ModeEnforce →
  strict = true ∧ ∀ h, h ∈ l → MXMatches p (h_Name h) = true.
Proof.
  unfold usable_hosts. intros Hu p -> Hm. rewrite decide_True in Hu by done.
  destruct (filter _ hosts) as [|h0 l0] eqn:Ef; [done|]. simplify_eq. split; [done|].
  intros h Hh. rewrite <-Ef in Hh. apply list_elem_of_filter in Hh as [Hh _]. by apply Is_true_true.
Qed.

Lemma ViaMX_spec domain b envs m policy n :
  NoDup (ev_Path <$> envs) →
  let s := ViaMX domain b envs m policy n in
  run_ok s ∧ dom (results s) = paths envs ∧ Z.of_nat (length (used s)) <= maxMXAttempts ∧
  ∀ p x, policy = Some p → Mode p = ModeEnforce → x ∈ used s →
    x.2 = Verified ∧ MXMatches p x.1 = true.
Proof.
  intros Hnd. unfold ViaMX. pose proof (start_ok n) as H0'. cbn [net start].
  assert (∀ s r, run_ok s → dom (results s) = ∅ → used s = [] → r ≠ None →
    let s' := record_all envs r s in
    run_ok s' ∧ dom (results s') = paths envs ∧ Z.of_nat (length (used s')) <= maxMXAttempts ∧
    ∀ p x, policy = Some p → Mode p = ModeEnforce → x ∈ used s' →
      x.2 = Verified ∧ MXMatches p x.1 = true) as Hall.
  { intros s r Hok Hd Hu Hr. destruct (record_rest r s [] envs envs Hr Hok Hnd eq_refl Hd) as (? & ? & Hu').
    simpl. rewrite Hu', Hu. split_and!; [done..|]. by intros p x _ _ ?%elem_of_nil. }
  destruct (Lookup domain) as [hosts|e]; [|apply Hall; [done|by apply dom_empty_L|done..]].
  destruct (usable_hosts policy hosts) as [[l strict]|] eqn:Eu;
    [|apply Hall; [done|by apply dom_empty_L|done..]].
  destruct (body_size b n) as [[size|] n1]; [|apply Hall; [by destruct H0'|by apply dom_empty_L|done..]].
  pose proof (try_hosts_spec strict b size m 0 l envs None (set_net (start n) n1)) as Ht.
  destruct (try_hosts _ _ _ _ 0 l envs None _) as [[pd le] s].
  destruct Ht as (Hok & (settled & He & Hd) & used' & Hu & Hl & Hx); [by destruct H0'|done| |done|].
  { intros e _. cbn [results set_net start]. rewrite dom_empty_L. set_solver. }
  cbn [results used set_net start] in Hd, Hu. rewrite dom_empty_L, (left_id_L ∅ (∪)) in Hd.
  rewrite app_nil_l in Hu. subst used'.
  destruct (record_rest (Some (Wrapped (default OtherErr le))) s settled pd envs) as (? & ? & Hu'); [done..|].
  cbn zeta. rewrite Hu'. split_and!; [done|done|lia|].
  intros p x Hp Hm Hin. destruct (usable_hosts_spec _ _ _ _ Eu p Hp Hm) as [Hs Hmatch].
  destruct (Hx x Hin) as [(h & Hh & ->) Hv]. split; [by apply Hv|by apply Hmatch].
Qed.

(** Results are recorded for envelopes of the batch only, repeated ones or not. *)
Lemma record_all_keys envs r (s : run_state (N := N)) :
  dom (results (record_all envs r s)) ⊆ dom (results s) ∪ paths envs.
Proof.
  unfold record_all. revert s. induction envs as [|e envs IH]; intros s; simpl; [set_solver|].
  etrans; [apply IH|]. rewrite paths_cons. simpl. set_solver.
Qed.
Lemma paths_sub es es' : es ⊆ es' → paths es ⊆ paths es'.
Proof.
  intros Hs p. unfold paths. rewrite !elem_of_list_to_set, !list_elem_of_fmap. naive_solver.
Qed.

Lemma deliverAll_keys c b m i envs s :
  let '(rt, _, s') := deliverAll c b m i envs s in
  rt ⊆ envs ∧ dom (results s') ⊆ dom (results s) ∪ paths envs.
Proof.
  revert i s. induction envs as [|e rest IH]; intros i s; cbn [deliverAll]; [split; set_solver|].
  destruct (_ && _); [split; [set_solver|apply record_all_keys]|].
  unfold deliver_one. destruct (deliver c b e (net s)) as [[r sent] n]. set (s1 := mkRS _ _ _ _ n).
  rewrite paths_cons.
  destruct (conn_failed r); [destruct (ambiguous r); split; simpl; set_solver|].
  assert (∀ n', let '(rt, _, s') := deliverAll c b m (i + 1) rest (set_net (record e r s1) n') in
    rt ⊆ e :: rest ∧ dom (results s') ⊆ dom (results s) ∪ ({[ev_Path e]} ∪ paths rest)) as Hrec.
  { intros n'. specialize (IH (i + 1) (set_net (record e r s1) n')).
    destruct (deliverAll c b m (i + 1) rest _) as [[rt cause] s']. simpl in IH. split; set_solver. }
  destruct rest as [|e2 rest]; [split; simpl; set_solver|].
  destruct (c_Reset c _) as [[er|] n2]; [|apply Hrec].
  destruct (isConnectionError er); [|apply Hrec]. split; simpl; set_solver.
Qed.

Lemma try_hosts_keys strict b size m k hosts pending le s :
  let '(pd, _, s') := try_hosts strict b size m k hosts pending le s in
  pd ⊆ pending ∧ dom (results s') ⊆ dom (results s) ∪ paths pending.
Proof.
  revert k pending le s. induction hosts as [|h hosts IH]; intros k pending le s; cbn [try_hosts];
    [split; set_solver|].
  destruct (_ || _); [split; set_solver|].
  assert (∀ e s1, results s1 = results s →
    let '(pd, _, s') := try_hosts strict b size m (k + 1) hosts pending (Some e) s1 in
    pd ⊆ pending ∧ dom (results s') ⊆ dom (results s) ∪ paths pending) as Hnext.
  { intros e s1 Hs1. rewrite <-Hs1. apply IH. }
  destruct (dial strict (Addr h) (net s)) as [[[sec c]|e] n]; [|by apply Hnext].
  destruct (checkSize c size) as [e|]; [by apply Hnext|].
  pose proof (deliverAll_keys c b m 0 pending (mkRS (results s) (terminated s) (used s ++ [(h_Name h, sec)]) (dialed s ++ [Addr h]) n)) as Hd.
  destruct (deliverAll _ _ _ _ _ _) as [[rt cause] s2]. destruct Hd as [Hrt Hd]. simpl in Hd.
  destruct rt as [|e2 rt]; [split; set_solver|].
  specialize (IH (k + 1) (e2 :: rt) cause s2). destruct (try_hosts _ _ _ _ _ _ _ _ s2) as [[pd le'] s'].
  destruct IH as [Hpd Hd']. pose proof (paths_sub _ _ Hrt). split; [set_solver|set_solver].
Qed.

Lemma ViaMX_keys domain b envs m policy n :
  dom (results (ViaMX domain b envs m policy n)) ⊆ paths envs.
Proof.
  assert (∀ r (s : run_state (N := N)), results s = ∅ → dom (results (record_all envs r s)) ⊆ paths envs) as Hall.
  { intros r s Hs. etrans; [apply record_all_keys|]. rewrite Hs. set_solver. }
  unfold ViaMX. destruct (Lookup domain) as [hosts|e]; [|by apply Hall].
  destruct (usable_hosts policy hosts) as [[l strict]|]; [|by apply Hall].
  destruct (body_size b _) as [[size|] n1]; [|by apply Hall].
  pose proof (try_hosts_keys strict b size m 0 l envs None (set_net (start n) n1)) as Ht.
  destruct (try_hosts _ _ _ _ 0 l envs None _) as [[pd le] s]. destruct Ht as [Hpd Hd].
  cbn [results set_net start] in Hd. etrans; [apply record_all_keys|].
  pose proof (paths_sub _ _ Hpd). set_solver.
Qed.
Lemma ViaSmarthost_keys addr user pass b envs m n :
  dom (results (ViaSmarthost addr user pass b envs m n)) ⊆ paths envs.
Proof.
  assert (∀ r (s : run_state (N := N)), results s = ∅ → dom (results (record_all envs r s)) ⊆ paths envs) as Hall.
  { intros r s Hs. etrans; [apply record_all_keys|]. rewrite Hs. set_solver. }
  unfold ViaSmarthost. destruct (net_smarthost addr _) as [[c|e] n1]; [|by apply Hall].
  destruct (if decide _ then _ else _) as [[e|] n2]; [by apply Hall|].
  destruct (body_size b _) as [[size|] n3]; [|by apply Hall].
  destruct (checkSize c size); [by apply Hall|].
  pose proof (deliverAll_keys c b m 0 envs (set_net (set_net (start n) n2) n3)) as Hd.
  destruct (deliverAll _ _ _ _ _ _) as [[rt cause] s2]. destruct Hd as [Hrt Hd].
  cbn [results set_net start] in Hd. etrans; [apply record_all_keys|].
  pose proof (paths_sub _ _ Hrt). set_solver.
Qed.

(** Every dial counts, whether or not the host was used. *)
Lemma record_all_dialed envs r (s : run_state (N := N)) : dialed (record_all envs r s) = dialed s.
Proof. unfold record_all. revert s. induction envs as [|e envs IH]; intros s; [done|]. simpl. by rewrite IH. Qed.
Lemma deliverAll_dialed c b m i envs s :
  let '(_, _, s') := deliverAll c b m i envs s in dialed s' = dialed s.
Proof.
  revert i s. induction envs as [|e rest IH]; intros i s; cbn [deliverAll]; [done|].
  destruct (_ && _); [apply record_all_dialed|].
  unfold deliver_one. destruct (deliver c b e (net s)) as [[r sent] n]. set (s1 := mkRS _ _ _ _ n).
  destruct (conn_failed r); [by destruct (ambiguous r)|].
  assert (∀ n', let '(_, _, s') := deliverAll c b m (i + 1) rest (set_net (record e r s1) n') in
    dialed s' = dialed s) as Hrec by (intros n'; apply (IH (i + 1) (set_net (record e r s1) n'))).
  destruct rest as [|e2 rest]; [done|].
  destruct (c_Reset c _) as [[er|] n2]; [|apply Hrec].
  destruct (isConnectionError er); [done|apply Hrec].
Qed.
Lemma try_hosts_dialed strict b size m k hosts pending le s :
  0 <= k <= maxMXAttempts →
  let '(_, _, s') := try_hosts strict b size m k hosts pending le s in
  ∃ l, dialed s' = dialed s ++ l ∧ Z.of_nat (length l) <= maxMXAttempts - k ∧ sublist l (Addr <$> hosts).
Proof.
  revert k pending le s. induction hosts as [|h hosts IH]; intros k pending le s Hk.
  { exists []. split_and!; [by rewrite app_nil_r|simpl; lia|done]. }
  cbn [try_hosts]. destruct (_ || _) eqn:Estop.
  { exists []. split_and!; [by rewrite app_nil_r|simpl; lia|apply sublist_nil_l]. }
  apply orb_false_elim in Estop as [_ Hmax]. apply Z.leb_gt in Hmax.
  assert (∀ pd1 le1 s1, dialed s1 = dialed s ++ [Addr h] →
    let '(_, _, s') := try_hosts strict b size m (k + 1) hosts pd1 le1 s1 in
    ∃ l, dialed s' = dialed s ++ l ∧ Z.of_nat (length l) <= maxMXAttempts - k ∧ sublist l (Addr <$> h :: hosts)) as Hgo.
  { intros pd1 le1 s1 Hs1. specialize (IH (k + 1) pd1 le1 s1).
    destruct (try_hosts _ _ _ _ (k + 1) hosts pd1 le1 s1) as [[pd le'] s'].
    destruct IH as (l & Hd & Hl & Hsub); [lia|]. exists (Addr h :: l).
    split_and!; [rewrite Hd, Hs1; by rewrite <- (assoc_L (++))|simpl; lia|]. by apply sublist_skip. }
  destruct (dial strict (Addr h) (net s)) as [[[sec c]|e] n]; [|by apply Hgo].
  destruct (checkSize c size) as [e|]; [by apply Hgo|].
  set (s1 := mkRS _ _ _ _ n). pose proof (deliverAll_dialed c b m 0 pending s1) as Hd.
  destruct (deliverAll c b m 0 pending s1) as [[[|e2 rt] cause] s2]; [|by apply Hgo].
  exists [Addr h]. split_and!; [done|simpl; lia|]. apply sublist_skip, sublist_nil_l.
Qed.
Lemma ViaMX_dialed domain b envs m policy n :
  Z.of_nat (length (dialed (ViaMX domain b envs m policy n))) <= maxMXAttempts.
Proof.
  unfold ViaMX. destruct (Lookup domain) as [hosts|e]; [|by rewrite record_all_dialed].
  destruct (usable_hosts policy hosts) as [[l strict]|]; [|by rewrite record_all_dialed].
  destruct (body_size b _) as [[size|] n1]; [|by rewrite record_all_dialed].
  pose proof (try_hosts_dialed strict b size m 0 l envs None (set_net (start n) n1)) as Ht.
  destruct (try_hosts _ _ _ _ 0 l envs None _) as [[pd le] s].
  destruct Ht as (l' & Hd & Hl & _); [by unfold maxMXAttempts|]. rewrite record_all_dialed, Hd. cbn [dialed set_net start app]. lia.
Qed.

(** C38: Within one run an envelope's message is completed on at most one host:
    whatever the hosts answer and wherever connections break, every envelope
    of the batch gets exactly one result, its end-of-data is sent at most once
    over all hosts together, a delivered one was sent, and at most five hosts
    are dialled, counting those that could not be reached. *)
Theorem direct_delivery_once domain b envs m policy n :
  NoDup (ev_Path <$> envs) →
  let s := ViaMX domain b envs m policy n in
  (∀ p, is_Some (results s !! p) ↔ p ∈ ev_Path <$> envs) ∧
  NoDup (terminated s) ∧ (∀ p, p ∈ terminated s → p ∈ ev_Path <$> envs) ∧
  (∀ p, results s !! p = Some None → p ∈ terminated s) ∧
  Z.of_nat (length (used s)) <= maxMXAttempts ∧ Z.of_nat (length (dialed s)) <= maxMXAttempts.
Proof.
  intros Hnd. pose proof (ViaMX_dialed domain b envs m policy n). destruct (ViaMX_spec domain b envs m policy n Hnd) as ([Hn Hs Hdel] & Hd & Hu & _).
  assert (∀ p, p ∈ dom (results (ViaMX domain b envs m policy n)) ↔ p ∈ ev_Path <$> envs) as Hdom.
  { intros p. rewrite Hd. apply elem_of_list_to_set. }
  split_and!; [|done| |done|done|done].
  - intros p. rewrite <-Hdom. by rewrite elem_of_dom.
  - intros p Hp. by apply Hdom, Hs.
Qed.

Context `{StsWorld}.

(** C39: An enforced policy cannot be worked around: while it is cached and
    fresh, at every reading of the clock during the call, neither a missing TXT record nor an unreachable policy host makes
    it go away (only another valid policy under a new identifier replaces
    it), and under an enforced policy mail is handed only to hosts the policy
    lists, over TLS with a verified certificate. *)
Theorem mta_sts_enforced domain chk e r chk' :
  loadCache chk domain = Some e → (∀ t, fresh chk t e = true) → Mode (ce_Policy e) = ModeEnforce →
  PolicyFor domain chk = (r, chk') →
  ∃ p, r = Ok (Some p) ∧
    (p = ce_Policy e ∨ ∃ id body, lookupID domain = Some id ∧ id ≠ ce_ID e ∧
       Fetch domain = Some body ∧ ParsePolicy body = Ok p) ∧
    (Mode p = ModeEnforce → ∀ b envs m n x, NoDup (ev_Path <$> envs) →
       x ∈ used (ViaMX domain b envs m (Some p) n) → x.2 = Verified ∧ MXMatches p x.1 = true).
Proof.
  intros Hl Hf Hm Hr.
  assert (∀ p, Mode p = ModeEnforce → ∀ b envs m n x, NoDup (ev_Path <$> envs) →
    x ∈ used (ViaMX domain b envs m (Some p) n) → x.2 = Verified ∧ MXMatches p x.1 = true) as Henf.
  { intros p Hp b envs m n x Hnd Hx. destruct (ViaMX_spec domain b envs m (Some p) n Hnd) as (_ & _ & _ & Hu).
    by apply Hu. }
  destruct (PolicyFor_cached domain chk e r chk' Hl Hf Hr) as [[-> _]|(id & body & p & ? & ? & ? & ? & -> & _)].
  - exists (ce_Policy e). split_and!; [done|by left|apply Henf].
  - exists p. split_and!; [done|right; eauto 10|apply Henf].
Qed.
End SmtpFacts.

(** ** The transport of the delivery agent *)
Section AsTransport.
Context {C N : Type} `{Net C N, UnicodeCase, Resolver}.
(** The state of the network, the limits of the configuration, the policy found
    for a domain, and the text of an error. *)
Context (net0 : N) (maxSmarthost maxMX : Z) (policy : string → option Policy)
        (error_text : error → string).

Definition outcome_of (r : option error) : outcome :=
  match r with
  | None => ODelivered
  | Some e => if IsPermanent e then OPermanent (SMTPCode e) (error_text e)
              else OTemporary (SMTPCode e) (error_text e)
  end.
Definition outcomes (s : run_state (N := N)) : list (path * outcome) :=
  (λ x, (x.1, outcome_of x.2)) <$> map_to_list (results s).

Lemma outcomes_keys s envs x : dom (results s) ⊆ paths envs → x ∈ outcomes s → x.1 ∈ ev_Path <$> envs.
Proof.
  intros Hd ([p r] & -> & Hin)%list_elem_of_fmap. apply elem_of_map_to_list in Hin.
  assert (p ∈ paths envs) as Hp by (apply Hd, elem_of_dom; by exists r).
  by apply elem_of_list_to_set in Hp.
Qed.

#[refine] Instance smtp_transport : Transport := {|
  DeliverViaSmarthost := λ cfg pw b es _, outcomes (ViaSmarthost (m_Smarthost cfg) (m_User cfg) pw b es maxSmarthost net0);
  DeliverViaMX := λ _ d b es _, outcomes (ViaMX d b es maxMX (policy d) net0);
|}.
Proof.
  - intros c pw b es w x. apply outcomes_keys, ViaSmarthost_keys.
  - intros h d b es w x. apply outcomes_keys, ViaMX_keys.
Defined.
End AsTransport.

(** ** A concrete run *)
Module OutDemo.
#[export] Instance demo_case : UnicodeCase :=
  {| unicode_upper := id; unicode_lower := id; unicode_fold := λ s t, bool_decide (s = t) |}.

Definition mx_le (a b : MX) : Prop := mx_Pref a <= mx_Pref b.
#[export] Instance mx_le_dec : RelDecision mx_le.
Proof. unfold mx_le. solve_decision. Defined.
#[export] Instance mx_le_total : Total mx_le.
Proof. intros a b. unfold mx_le. lia. Qed.

Definition first_mx : string := "mx1.example.org".
Definition second_mx : string := "mx2.example.org".

(** The records are published in the wrong order; nothing else resolves. *)
#[export] Instance demo_resolver : Resolver := {|
  LookupMX := λ d, if decide (d = "example.org")
                   then Some [mkMX "mx2.example.org." 20; mkMX "mx1.example.org." 10] else None;
  LookupHost := λ _, None;
  sort_mx := merge_sort mx_le;
  sort_mx_perm := merge_sort_Permutation mx_le;
  sort_mx_sorted := Sorted_merge_sort mx_le;
|}.

Definition tls_attempt (addr : string) : Attempt string :=
  mkAttempt ["220 ready"; "250-hello"; "250 STARTTLS"; "220 go"] true true (λ _, true) None addr.

(** A client is the address it is connected to. The first host takes the whole
    message and then drops the connection; the second one accepts, up to
    [limit] octets. *)
Definition demo_net (limit : option Z) (up : string → bool) : Net string unit := {|
  net_connect := λ addr n, (if up addr then Some (tls_attempt addr) else None, n);
  net_smarthost := λ addr n, (Ok addr, n);
  c_Auth := λ _ _ _ n, (None, n);
  c_MaxMessageSize := λ _, limit;
  c_Mail := λ _ _ n, (None, n);
  c_Rcpt := λ _ _ n, (None, n);
  c_Data := λ _ n, (None, n);
  c_Copy := λ _ _ n, (None, n);
  c_CloseData := λ c n, (if decide (c = "mx1.example.org:25") then Some ConnErr else None, n);
  c_Reset := λ _ n, (None, n);
  body_opens := λ _ n, (true, n);
  body_size := λ _ n, (Some 1000, n);
|}.
Definition all_up : string → bool := λ _, true.
Definition only_second : string → bool := λ a, bool_decide (a = "mx2.example.org:25").

Definition demo_env (name rcpt : string) : Envelope :=
  mkEnvelope_ ["env"; name] (mkEnv 10000 0 "ann@example.com" rcpt "m@example.com" "").
Definition batch : list Envelope :=
  [demo_env "bob" "bob@example.org"; demo_env "cat" "cat@example.org"].

Definition policy : Policy := mkPolicy ModeEnforce ["*.example.org"] 86400.
Definition checker : Checker :=
  mkChecker (Some {["example.org" := mkCacheEntry "1" 0 policy]}) true
    (λ t, match t with AfterLookup => 1000 | AfterFetch => 2000 end).
(** No TXT record can be looked up any more. *)
#[export] Instance demo_sts : StsWorld :=
  {| LookupTXT := λ _, None; Fetch := λ _, None; cache_json := Some |}.

Definition result_is (f : error → bool) (s : run_state (N := unit)) (p : path) : bool :=
  match results s !! p with Some (Some e) => f e | _ => false end.
Definition failed_permanently := result_is IsPermanent.
Definition lost_reply := result_is isAmbiguous.
End OutDemo.

Section OnOutDemo.
Import OutDemo.

(** The lost reply of the first host defers its envelope, the other one moves on. *)
Lemma direct_delivery_once_witness :
  let s := ViaMX (H := demo_net None all_up) "example.org" ["msg"] batch 0 (Some policy) tt in
  NoDup (terminated s) ∧ terminated s = [["env"; "bob"]; ["env"; "cat"]] ∧
  results s !! ["env"; "cat"] = Some None ∧ lost_reply s ["env"; "bob"] = true.
Proof.
  destruct (direct_delivery_once (H := demo_net None all_up) "example.org" ["msg"] batch 0 (Some policy) tt)
    as (_ & Hn & _).
  { apply (bool_decide_unpack _). vm_compute. exact I. }
  split; [exact Hn|]. vm_compute. split_and!; reflexivity.
Defined.

Lemma mta_sts_enforced_witness :
  (PolicyFor "example.org" checker).1 = Ok (Some policy) ∧
  used (ViaMX (H := demo_net None all_up) "example.org" ["msg"] batch 0 (Some policy) tt)
    = [(first_mx, Verified); (second_mx, Verified)] ∧ MXMatches policy second_mx = true.
Proof.
  destruct (mta_sts_enforced (H := demo_net None all_up) "example.org" checker (mkCacheEntry "1" 0 policy)
    (PolicyFor "example.org" checker).1 (PolicyFor "example.org" checker).2) as (p & Hp & _ & Hu);
    [vm_compute; reflexivity|intros []; vm_compute; reflexivity|reflexivity|apply surjective_pairing|].
  assert (p = policy) as ->.
  { assert ((PolicyFor "example.org" checker).1 = Ok (Some policy)) as Hq by (vm_compute; reflexivity).
    rewrite Hq in Hp. congruence. }
  split; [exact Hp|].
  destruct (Hu ltac:(reflexivity) ["msg"] batch 0 tt (second_mx, Verified)) as [_ Hm].
  - apply (bool_decide_unpack _). vm_compute. exact I.
  - apply (bool_decide_unpack _). vm_compute. exact I.
  - split; [vm_compute; reflexivity|exact Hm].
Defined.

(** When no lookup gets an answer, the failure is taken for a missing domain:
    the envelopes fail permanently on the first attempt. *)
Lemma unanswered_lookup_bounces :
  LookupMX "example.net" = None ∧ LookupHost "example.net" = None ∧
  failed_permanently (ViaMX (H := demo_net None all_up) "example.net" ["msg"] batch 0 None tt) ["env"; "bob"] = true.
Proof. vm_compute. split_and!; reflexivity. Qed.

(** The first host is down and the second refuses the size: the message bounces
    although the first host might have taken it. *)
Lemma last_host_size_bounces :
  failed_permanently (ViaMX (H := demo_net (Some 10) only_second) "example.org" ["msg"] batch 0 None tt)
    ["env"; "bob"] = true.
Proof. vm_compute. reflexivity. Qed.

(** An address with two at-signs is queued under its last part and looked up
    under everything after the first. *)
Lemma two_at_signs :
  let rcpt := "a@b@example.org" in
  validAddressComponent (splitAddress rcpt).1 = true ∧ (splitAddress rcpt).2 = "example.org" ∧
  RecipientDomain (demo_env "x" rcpt) = Some "b@example.org".
Proof. vm_compute. split_and!; reflexivity. Qed.
End OnOutDemo.
