(* ===== verification/AuthResults.v ===== *)
(** * Authentication-Results on ingress

    Model of [src/internal/smtpd/smtp/authresults.go]: the filter that removes
    forged verdicts from a message's header block. [authResultsFilter] reads
    one buffer-sized chunk at a time and keeps three flags; it is proved equal
    to a definition on whole header fields, read with their folding. *)
From S2P Require Import Prelude GoStrings.
From Stdlib Require Import ZArith Lia Ascii.
Open Scope string_scope.
Open Scope list_scope.

Definition authResultsFieldName : string := "authentication-results:".
Definition authResultsHeaderName : string := "Authentication-Results".
Definition authResultsChunk : nat := Z.to_nat 8192.

Definition buildAuthResultsHeader (value : string) : string :=
  if decide (value = "") then "" else authResultsHeaderName +:+ ": " +:+ value +:+ crlf.

(** ** Lines *)
Definition HT : ascii := byte_of 9.
Definition isBlankLine (line : string) : bool :=
  bool_decide (line = crlf) || bool_decide (line = String LF "").
Definition isFoldedContinuation (line : string) : bool :=
  match line with String c _ => Ascii.eqb c SP || Ascii.eqb c HT | "" => false end.

(** [strings.TrimLeft] and [strings.IndexAny] with an ASCII cut set. *)
Definition in_set (set : list ascii) (c : ascii) : bool := existsb (Ascii.eqb c) set.
Fixpoint TrimLeft (set : list ascii) (s : string) : string :=
  match s with
  | "" => ""
  | String c s' => if in_set set c then TrimLeft set s' else s
  end.
(** What precedes the first byte of the set, if there is one. *)
Fixpoint before_any (set : list ascii) (s : string) : option string :=
  match s with
  | "" => None
  | String c s' => if in_set set c then Some "" else String c <$> before_any set s'
  end.

Section Own.
Context `{UnicodeCase}.

Definition authservIDOf (value : string) : string :=
  match before_any [SP; HT; ";"%char; CR; LF] value with
  | None => TrimSpace value
  | Some id => id
  end.

(** [authserv] is the lower-cased identifier kept in the filter. *)
Definition isOwnAuthResults (authserv line : string) : bool :=
  let n := String.length authResultsFieldName in
  if (String.length line <? n)%nat then false
  else if negb (EqualFold (stake n line) authResultsFieldName) then false
  else EqualFold (authservIDOf (TrimLeft [SP; HT] (sdrop n line))) authserv.
End Own.

(** ** The filter *)
Inductive slice_end := Delim | BufferFull | AtEOF.

(** [bufio.Reader.ReadSlice('\n')] with a buffer of [n] bytes: the chunk, why it
    ended, and what is left. *)
Fixpoint ReadSlice (n : nat) (s : string) : string * slice_end * string :=
  match n with
  | O => ("", BufferFull, s)
  | S n =>
      match s with
      | "" => ("", AtEOF, "")
      | String c s =>
          if Ascii.eqb c LF then (String c "", Delim, s)
          else let '(chunk, e, rest) := ReadSlice n s in (String c chunk, e, rest)
      end
  end.

Record authResultsFilter := mkFilter { inHeaders : bool; lineStart : bool; dropping : bool }.

Section Filter.
Context `{UnicodeCase}.

(** [fill]: the flags after a chunk, and what becomes pending. *)
Definition fill (authserv chunk : string) (e : slice_end) (f : authResultsFilter)
    : authResultsFilter * string :=
  if decide (chunk = "") then (f, "")
  else
    let start := match e with BufferFull => false | _ => true end in
    let f' :=
      if lineStart f && isBlankLine chunk then mkFilter false start false
      else if lineStart f && negb (isFoldedContinuation chunk)
           then mkFilter (inHeaders f) start (isOwnAuthResults authserv chunk)
      else mkFilter (inHeaders f) start (dropping f) in
    (f', if dropping f' then "" else chunk).

(** Everything [Read] returns, call after call, until the end of the input.
    Past the header block the rest is handed through. *)
Fixpoint read_all (fuel n : nat) (authserv : string) (f : authResultsFilter) (s : string) : string :=
  match fuel with
  | O => ""
  | S fuel =>
      if negb (inHeaders f) then s
      else
        let '(chunk, e, rest) := ReadSlice n s in
        let '(f, pending) := fill authserv chunk e f in
        match e with
        | AtEOF => pending
        | _ => pending +:+ read_all fuel n authserv f rest
        end
  end.

Definition stripAuthResults (msg authservID : string) : string :=
  if decide (authservID = "") then msg
  else read_all (S (String.length msg)) authResultsChunk (ToLower authservID)
         (mkFilter true true false) msg.

Definition messageBody (headers tmp hostname : string) : string :=
  headers +:+ stripAuthResults tmp hostname.
End Filter.

(** ** Reference: a message as header fields and a body *)

(** Lines with their ends; only the last may lack one. *)
Fixpoint raw_lines (s : string) : list string :=
  match s with
  | "" => []
  | String c s =>
      if Ascii.eqb c LF then String c "" :: raw_lines s
      else match raw_lines s with
           | [] => [String c ""]
           | l :: ls => String c l :: ls
           end
  end.
Fixpoint sconcat (ls : list string) : string :=
  match ls with [] => "" | l :: ls => l +:+ sconcat ls end.

Fixpoint header_lines (ls : list string) : list string :=
  match ls with
  | [] => []
  | l :: ls => if isBlankLine l then [] else l :: header_lines ls
  end.
Fixpoint body_lines (ls : list string) : list string :=
  match ls with
  | [] => []
  | l :: ls' => if isBlankLine l then ls else body_lines ls'
  end.

(** A field is a line and the continuation lines after it. *)
Fixpoint group_fields (ls : list string) : list (list string) :=
  match ls with
  | [] => []
  | l :: ls =>
      match group_fields ls with
      | (c :: f) :: fs => if isFoldedContinuation c then (l :: c :: f) :: fs else [l] :: (c :: f) :: fs
      | fs => [l] :: fs
      end
  end.

Definition header_fields (msg : string) : list (list string) := group_fields (header_lines (raw_lines msg)).
Definition body_of (msg : string) : string := sconcat (body_lines (raw_lines msg)).

Section Reference.
Context `{UnicodeCase}.

Definition own_field (authserv : string) (f : list string) : Prop :=
  match f with
  | l :: _ => isFoldedContinuation l = false ∧ isOwnAuthResults authserv l = true
  | [] => False
  end.
#[global] Instance own_field_dec a f : Decision (own_field a f).
Proof. destruct f; apply _. Defined.

Definition strip_fields (authserv msg : string) : string :=
  sconcat (concat (filter (λ f, ¬ own_field authserv f) (header_fields msg))) +:+ body_of msg.
End Reference.

(** ** Facts: lines *)
Lemma raw_lines_cons t s : no_byte LF t → raw_lines (t +:+ String LF s) = (t +:+ String LF "") :: raw_lines s.
Proof.
  induction t as [|c t IH]; intros Ht; [done|]. apply no_byte_cons in Ht as [Hc Ht].
  cbn. rewrite (proj2 (Ascii.eqb_neq c LF) Hc). fold (t +:+ String LF s). by rewrite (IH Ht).
Qed.
Lemma raw_lines_open t : no_byte LF t → t ≠ "" → raw_lines t = [t].
Proof.
  induction t as [|c t IH]; intros Ht Hne; [done|]. apply no_byte_cons in Ht as [Hc Ht].
  cbn. rewrite (proj2 (Ascii.eqb_neq c LF) Hc). destruct t as [|d t]; [done|]. by rewrite IH.
Qed.

Lemma ReadSlice_line n t s : no_byte LF t → (String.length t < n)%nat →
  ReadSlice n (t +:+ String LF s) = (t +:+ String LF "", Delim, s).
Proof.
  revert n. induction t as [|c t IH]; intros n Ht Hn; (destruct n as [|n]; [simpl in *; lia|]); [done|].
  apply no_byte_cons in Ht as [Hc Ht]. cbn. rewrite (proj2 (Ascii.eqb_neq c LF) Hc).
  fold (t +:+ String LF s). rewrite IH; [done|done|simpl in *; lia].
Qed.
Lemma ReadSlice_open n t : no_byte LF t → (String.length t ≤ n)%nat →
  ReadSlice n t = (t, if (String.length t =? n)%nat then BufferFull else AtEOF, "").
Proof.
  revert n. induction t as [|c t IH]; intros n Ht Hn; (destruct n as [|n]; [try done; simpl in *; lia|]); [done|].
  apply no_byte_cons in Ht as [Hc Ht]. cbn. rewrite (proj2 (Ascii.eqb_neq c LF) Hc).
  rewrite IH; [done|done|simpl in *; lia].
Qed.

Lemma blank_has_LF l : isBlankLine l = true → no_byte LF l → False.
Proof. intros [?%bool_decide_eq_true| ?%bool_decide_eq_true]%orb_true_iff; by subst. Qed.
Lemma line_nonempty t : t +:+ String LF "" ≠ "".
Proof. by destruct t. Qed.

(** ** Facts: the filter works line by line *)
Section Facts.
Context `{UnicodeCase}.

Fixpoint run_lines (authserv : string) (d : bool) (ls : list string) : string :=
  match ls with
  | [] => ""
  | l :: ls' =>
      if isBlankLine l then sconcat ls
      else
        let d := if isFoldedContinuation l then d else isOwnAuthResults authserv l in
        (if d then "" else l) +:+ run_lines authserv d ls'
  end.

Lemma sconcat_raw_lines s : sconcat (raw_lines s) = s.
Proof.
  induction s as [|c s IH]; [done|]. cbn. destruct (Ascii.eqb c LF); cbn; [by rewrite IH|].
  destruct (raw_lines s) as [|l ls]; simpl in *; [by rewrite <-IH|]. by rewrite <-IH.
Qed.

Lemma read_all_nil fuel n a f : (0 < n)%nat → inHeaders f = true → read_all fuel n a f "" = "".
Proof. intros Hn Hf. destruct fuel, n; [done..|lia|]. simpl. by rewrite Hf. Qed.

Lemma read_all_lines fuel n a d s :
  (2 ≤ n)%nat → (String.length s < fuel)%nat →
  Forall (λ l, String.length l ≤ n)%nat (header_lines (raw_lines s)) →
  read_all fuel n a (mkFilter true true d) s = run_lines a d (raw_lines s).
Proof.
  intros Hn. revert d s. induction fuel as [|fuel IH]; intros d s Hfuel Hlen; [lia|].
  cbn [read_all inHeaders negb].
  destruct (cut LF s) as [[t s']|] eqn:Ec.
  - apply cut_Some in Ec as [-> Ht]. rewrite raw_lines_cons in * by done. cbn [run_lines header_lines] in *.
    rewrite slen_app in Hfuel. cbn [String.length] in Hfuel.
    destruct (isBlankLine (t +:+ String LF "")) eqn:Eb.
    + assert (String.length t < 2)%nat as Hb.
      { apply orb_true_iff in Eb as [E|E]; apply bool_decide_eq_true in E;
          apply (f_equal String.length) in E; rewrite slen_app in E; simpl in E; lia. }
      rewrite ReadSlice_line by (done || lia). unfold fill.
      rewrite decide_False by apply line_nonempty. cbn [lineStart]. rewrite Eb. cbn [andb dropping].
      destruct fuel as [|fuel]; [lia|]. cbn [read_all inHeaders negb sconcat].
      by rewrite sconcat_raw_lines.
    + apply Forall_cons in Hlen as [Hl Hlen]. rewrite slen_app in Hl. cbn [String.length] in Hl.
      rewrite ReadSlice_line by (done || lia). unfold fill.
      rewrite decide_False by apply line_nonempty. cbn [lineStart]. rewrite Eb. cbn [andb].
      destruct (isFoldedContinuation (t +:+ String LF "")); cbn [negb dropping inHeaders];
        (rewrite IH; [done|lia|done]).
  - apply cut_None in Ec. destruct (decide (s = "")) as [->|Hs].
    { destruct n; [lia|]. done. }
    rewrite raw_lines_open in * by done. cbn [run_lines header_lines] in *.
    destruct (isBlankLine s) eqn:Eb; [by destruct (blank_has_LF s)|].
    apply Forall_cons in Hlen as [Hl _]. rewrite ReadSlice_open by done.
    unfold fill. rewrite decide_False by done. cbn [lineStart]. rewrite Eb. cbn [andb].
    destruct (isFoldedContinuation s), (String.length s =? n)%nat; cbn [negb dropping inHeaders];
      rewrite ?read_all_nil by (done || lia); by rewrite ?sapp_nil_r.
Qed.

(** ** Facts: lines grouped into fields *)
Lemma sconcat_app ls ls' : sconcat (ls ++ ls') = sconcat ls +:+ sconcat ls'.
Proof. induction ls as [|l ls IH]; simpl; [done|]. by rewrite IH, sapp_assoc. Qed.

(** What survives when the last decision was [d]. *)
Definition keep_fields (a : string) (d : bool) (gs : list (list string)) : list (list string) :=
  match gs with
  | (l :: f) :: gs' =>
      if isFoldedContinuation l then (if d then [] else [l :: f]) ++ filter (λ f, ¬ own_field a f) gs'
      else filter (λ f, ¬ own_field a f) gs
  | _ => filter (λ f, ¬ own_field a f) gs
  end.
Lemma keep_fields_start a gs : keep_fields a false gs = filter (λ f, ¬ own_field a f) gs.
Proof.
  destruct gs as [|[|l f] gs]; [done..|]. unfold keep_fields.
  destruct (isFoldedContinuation l) eqn:E; [|done]. rewrite filter_cons_True; [done|].
  intros [Hl _]. congruence.
Qed.

Lemma filter_own a l f gs :
  isFoldedContinuation l = false →
  filter (λ f, ¬ own_field a f) ((l :: f) :: gs) =
  (if isOwnAuthResults a l then [] else [l :: f]) ++ filter (λ f, ¬ own_field a f) gs.
Proof.
  intros Hl. destruct (isOwnAuthResults a l) eqn:E.
  - rewrite filter_cons_False; [done|]. intros Hn. by apply Hn.
  - rewrite filter_cons_True; [done|]. intros [_ Hn]. congruence.
Qed.

Lemma run_lines_fields a d ls :
  run_lines a d ls =
  sconcat (concat (keep_fields a d (group_fields (header_lines ls)))) +:+ sconcat (body_lines ls).
Proof.
  revert d. induction ls as [|l ls IH]; intros d; [done|]. cbn [run_lines header_lines body_lines].
  destruct (isBlankLine l); [done|]. rewrite IH. clear IH. cbn [group_fields].
  destruct (isFoldedContinuation l) eqn:El;
    destruct (group_fields (header_lines ls)) as [|[|c f] gs];
    try destruct (isFoldedContinuation c) eqn:Ec; cbn [keep_fields]; rewrite ?El, ?Ec, ?filter_own by done;
    try destruct d; try destruct (isOwnAuthResults a l); simpl; by rewrite ?sconcat_app, ?sapp_assoc, ?sapp_nil_r.
Qed.
End Facts.

(** ** Facts: the output parses back into the fields kept *)
Inductive lines_form : list string → Prop :=
| form_nil : lines_form []
| form_open t : no_byte LF t → t ≠ "" → lines_form [t]
| form_cons t ls : no_byte LF t → lines_form ls → lines_form ((t +:+ String LF "") :: ls).

Lemma raw_lines_form s : lines_form (raw_lines s).
Proof.
  remember (String.length s) as n eqn:En. revert s En.
  induction n as [n IH] using lt_wf_ind. intros s ->. destruct (cut LF s) as [[t s']|] eqn:Ec.
  - apply cut_Some in Ec as [-> Ht]. rewrite raw_lines_cons by done. constructor; [done|].
    eapply IH; [|done]. rewrite slen_app. simpl. lia.
  - apply cut_None in Ec. destruct (decide (s = "")) as [->|]; [constructor|].
    rewrite raw_lines_open by done. by constructor.
Qed.
Lemma lines_form_sublist ls ls' : lines_form ls → sublist ls' ls → lines_form ls'.
Proof.
  intros Hf. revert ls'. induction Hf as [|t Ht Hne|t ls Ht Hf IH]; intros ls' Hs.
  - apply sublist_nil_r in Hs as ->. constructor.
  - apply sublist_cons_r in Hs as [Hs|(k & -> & Hs)]; apply sublist_nil_r in Hs as ->; by constructor.
  - apply sublist_cons_r in Hs as [Hs|(k & -> & Hs)]; [by apply IH|]. constructor; [done|by apply IH].
Qed.
Lemma raw_lines_sconcat ls : lines_form ls → raw_lines (sconcat ls) = ls.
Proof.
  induction 1 as [|t Ht Hne|t ls Ht Hf IH]; [done|cbn [sconcat]; rewrite sapp_nil_r; by apply raw_lines_open|].
  cbn [sconcat]. rewrite <-sapp_assoc. cbn. fold (t +:+ String LF (sconcat ls)).
  rewrite raw_lines_cons by done. by rewrite IH.
Qed.

Lemma header_body_lines ls : header_lines ls ++ body_lines ls = ls.
Proof. induction ls as [|l ls IH]; simpl; [done|]. destruct (isBlankLine l); [done|]. simpl. by rewrite IH. Qed.
Lemma header_lines_app ls ls' :
  Forall (λ l, isBlankLine l = false) ls → header_lines (ls ++ body_lines ls') = ls.
Proof.
  induction 1 as [|l ls Hl _ IH]; simpl; [|by rewrite Hl, IH].
  induction ls' as [|l ls' IH]; simpl; [done|]. destruct (isBlankLine l) eqn:E; [|done]. simpl. by rewrite E.
Qed.
Lemma header_lines_nonblank ls : Forall (λ l, isBlankLine l = false) (header_lines ls).
Proof. induction ls as [|l ls IH]; simpl; [done|]. destruct (isBlankLine l) eqn:E; auto. Qed.

(** The shape of grouped lines. *)
Definition field_shape (f : list string) : Prop :=
  ∃ l cs, f = l :: cs ∧ Forall (λ c, isFoldedContinuation c = true) cs.
Definition starts_field (f : list string) : Prop :=
  match f with l :: _ => isFoldedContinuation l = false | [] => False end.

Lemma group_fields_shape ls :
  Forall field_shape (group_fields ls) ∧ Forall starts_field (tail (group_fields ls)) ∧
  concat (group_fields ls) = ls.
Proof.
  induction ls as [|l ls (IHf & IHs & IHc)]; simpl; [done|].
  destruct (group_fields ls) as [|[|c f] gs]; simpl in *.
  - rewrite <-IHc. split_and!; [|done..]. constructor; [by exists l, []|done].
  - apply Forall_cons in IHf as [(? & ? & [=] & _) _].
  - apply Forall_cons in IHf as [(x & cs & [= <- <-] & Hcs) Hgs].
    subst ls. destruct (isFoldedContinuation c) eqn:E; split_and!; try done.
    + constructor; [|done]. exists l, (c :: f). auto.
    + repeat constructor; [by exists l, []|by exists c, f|done].
    + by constructor.
Qed.

Lemma group_field_app l cs rest :
  Forall (λ c, isFoldedContinuation c = true) cs → Forall starts_field (take 1 (group_fields rest)) →
  group_fields (l :: cs ++ rest) = (l :: cs) :: group_fields rest.
Proof.
  revert l. induction cs as [|c cs IH]; intros l Hcs Hr.
  - simpl. destruct (group_fields rest) as [|[|c f] gs]; [done..|].
    apply Forall_cons in Hr as [Hc _]. simpl in Hc. by rewrite Hc.
  - apply Forall_cons in Hcs as [Hc Hcs]. specialize (IH c Hcs Hr).
    change (group_fields (l :: (c :: cs) ++ rest)) with
      (match group_fields (c :: cs ++ rest) with
       | (c :: f) :: fs => if isFoldedContinuation c then (l :: c :: f) :: fs else [l] :: (c :: f) :: fs
       | fs => [l] :: fs
       end). by rewrite IH, Hc.
Qed.
Lemma group_fields_concat gs :
  Forall field_shape gs → Forall starts_field (tail gs) → group_fields (concat gs) = gs.
Proof.
  induction gs as [|f gs IH]; intros Hf Hs; [done|].
  apply Forall_cons in Hf as [(l & cs & -> & Hcs) Hf]. cbn [tail] in Hs.
  assert (group_fields (concat gs) = gs) as Hg.
  { apply IH; [done|]. destruct gs; [done|]. by apply Forall_cons in Hs as [_ Hs]. }
  cbn [concat]. rewrite <-app_comm_cons, group_field_app; [by rewrite Hg|done|].
  rewrite Hg. destruct gs; [done|]. apply Forall_cons in Hs as [Hs _]. by constructor.
Qed.

Lemma filter_grouped (P : list string → Prop) `{!∀ x, Decision (P x)} gs :
  Forall field_shape gs → Forall starts_field (tail gs) →
  Forall field_shape (filter P gs) ∧ Forall starts_field (tail (filter P gs)).
Proof.
  intros Hf Hs. split.
  - apply Forall_forall. intros f [_ Hin]%list_elem_of_filter. by eapply Forall_forall in Hf.
  - assert (∀ l, Forall starts_field l → Forall starts_field (filter P l)) as Hall.
    { intros l Hl. apply Forall_forall. intros f [_ Hin]%list_elem_of_filter. by eapply Forall_forall in Hl. }
    destruct gs as [|f gs]; [done|]. rewrite filter_cons. cbn [tail] in Hs.
    destruct (decide (P f)); simpl; [by apply Hall|].
    apply Hall in Hs. destruct (filter P gs); [done|]. by apply Forall_cons in Hs as [_ Hs].
Qed.
Lemma concat_filter_sublist (P : list string → Prop) `{!∀ x, Decision (P x)} gs :
  sublist (concat (filter P gs)) (concat gs).
Proof.
  induction gs as [|f gs IH]; [done|]. rewrite filter_cons. destruct (decide (P f)); cbn [concat].
  - by apply sublist_app.
  - by apply sublist_inserts_l.
Qed.

Lemma strip_fields_reparse `{UnicodeCase} a msg :
  header_fields (strip_fields a msg) = filter (λ f, ¬ own_field a f) (header_fields msg) ∧
  body_of (strip_fields a msg) = body_of msg.
Proof.
  unfold strip_fields, body_of, header_fields. set (ls := raw_lines msg).
  destruct (group_fields_shape (header_lines ls)) as (Hf & Hs & Hc).
  set (gs := group_fields (header_lines ls)) in *. set (kept := filter _ gs).
  assert (sublist (concat kept) (header_lines ls)) as Hsub.
  { rewrite <-Hc. apply concat_filter_sublist. }
  rewrite <-sconcat_app, raw_lines_sconcat.
  2: { eapply lines_form_sublist; [apply (raw_lines_form msg)|]. fold ls.
       rewrite <-(header_body_lines ls) at 2. by apply sublist_app. }
  assert (Forall (λ l, isBlankLine l = false) (concat kept)) as Hnb.
  { apply Forall_forall. intros l Hl. eapply elem_of_sublist in Hl; [|exact Hsub].
    pose proof (header_lines_nonblank ls) as Hb. by eapply Forall_forall in Hb. }
  rewrite header_lines_app by done.
  assert (body_lines (concat kept ++ body_lines ls) = body_lines ls) as ->.
  { pose proof (header_body_lines (concat kept ++ body_lines ls)) as Hhb.
    rewrite header_lines_app in Hhb by done. by apply (inj (app (concat kept))) in Hhb. }
  split; [|done]. destruct (filter_grouped (λ f, ¬ own_field a f) gs Hf Hs) as [Hf' Hs'].
  by apply group_fields_concat.
Qed.

Lemma stripAuthResults_fields `{UnicodeCase} msg host :
  host ≠ "" → Forall (λ l, String.length l ≤ authResultsChunk)%nat (header_lines (raw_lines msg)) →
  stripAuthResults msg host = strip_fields (ToLower host) msg.
Proof.
  intros Hh Hl. unfold stripAuthResults. rewrite decide_False by done.
  assert (2 ≤ authResultsChunk)%nat as Hc by (unfold authResultsChunk; lia).
  rewrite read_all_lines; [|exact Hc|lia|exact Hl].
  rewrite run_lines_fields, keep_fields_start. done.
Qed.

(** ** The fields that claim our identifier
    Read on the whole field: white space before the identifier may hold line
    breaks (RFC 8601, 2.2, with the folding of RFC 5322). *)
Definition value_of (f : list string) : string := sdrop (String.length authResultsFieldName) (sconcat f).
Definition claims `{UnicodeCase} (a : string) (f : list string) : Prop :=
  match f with
  | l :: _ =>
      isFoldedContinuation l = false ∧ (String.length authResultsFieldName ≤ String.length l)%nat ∧
      EqualFold (stake (String.length authResultsFieldName) l) authResultsFieldName = true ∧
      EqualFold (authservIDOf (TrimLeft [SP; HT; CR; LF] (value_of f))) a = true
  | [] => False
  end.
(** The line breaks before the identifier. *)
Definition broken_early (f : list string) : Prop :=
  match TrimLeft [SP; HT] (sdrop (String.length authResultsFieldName) (default "" (head f))) with
  | String c _ => c = CR ∨ c = LF
  | "" => True
  end.
Definition recognised `{UnicodeCase} (a : string) (f : list string) : Prop := claims a f ∧ ¬ broken_early f.
#[global] Instance claims_dec `{UnicodeCase} a f : Decision (claims a f).
Proof. destruct f; apply _. Defined.
#[global] Instance broken_early_dec f : Decision (broken_early f).
Proof. unfold broken_early. destruct (TrimLeft _ _); apply _. Defined.
#[global] Instance recognised_dec `{UnicodeCase} a f : Decision (recognised a f).
Proof. unfold recognised. apply _. Defined.

Lemma TrimLeft_more s t c v : TrimLeft [SP; HT] s = String c v → c ≠ CR → c ≠ LF →
  TrimLeft [SP; HT; CR; LF] (s +:+ t) = String c v +:+ t.
Proof.
  intros E Hr Hl. induction s as [|d s IH]; [done|]. cbn [TrimLeft in_set existsb] in E.
  change (String d s +:+ t) with (String d (s +:+ t)). cbn [TrimLeft in_set existsb].
  destruct (Ascii.eqb d SP); [by apply IH|]. destruct (Ascii.eqb d HT); [by apply IH|]. cbn [orb] in *.
  injection E as -> ->. by rewrite (proj2 (Ascii.eqb_neq c CR) Hr), (proj2 (Ascii.eqb_neq c LF) Hl).
Qed.
Lemma TrimLeft_suffix set s : ∃ p, s = p +:+ TrimLeft set s.
Proof.
  induction s as [|c s [p IH]]; [by exists ""|]. cbn [TrimLeft]. destruct (in_set set c); [|by exists ""].
  exists (String c p). change (String c s = String c (p +:+ TrimLeft set s)). by rewrite <- IH.
Qed.
Lemma suffix_LF (p v t : string) : p +:+ v = t +:+ String LF "" → v ≠ "" → ∃ v0, v = v0 +:+ String LF "".
Proof.
  revert t. induction p as [|c p IH]; intros t E Hv; [by exists t|]. destruct t as [|d t].
  - injection E as -> E. destruct p; [|done]. by destruct v.
  - injection E as -> E. by apply (IH t).
Qed.
Lemma before_any_line v0 t : before_any [SP; HT; ";"%char; CR; LF] ((v0 +:+ String LF "") +:+ t)
  = before_any [SP; HT; ";"%char; CR; LF] (v0 +:+ String LF "") ∧
  is_Some (before_any [SP; HT; ";"%char; CR; LF] (v0 +:+ String LF "")).
Proof.
  induction v0 as [|c v0 [IH1 IH2]]; [by split; [|eexists]|].
  change ((String c v0 +:+ String LF "") +:+ t) with (String c ((v0 +:+ String LF "") +:+ t)).
  change (String c v0 +:+ String LF "") with (String c (v0 +:+ String LF "")). cbn [before_any].
  destruct (in_set _ c); [by split; [|eexists]|]. rewrite IH1. split; [done|]. destruct IH2 as [x ->]. by eexists.
Qed.

(** Only the last line of a message may lack its end. *)
Definition ended (f : list string) : Prop :=
  match f with l :: _ :: _ => ∃ t, l = t +:+ String LF "" | _ => True end.
Lemma header_fields_ended msg f : f ∈ header_fields msg → ended f.
Proof.
  unfold header_fields. intros Hin.
  destruct (group_fields_shape (header_lines (raw_lines msg))) as (_ & _ & Hc).
  assert (lines_form f) as Hf.
  { eapply lines_form_sublist; [apply (raw_lines_form msg)|].
    trans (header_lines (raw_lines msg)); [|rewrite <- (header_body_lines (raw_lines msg)) at 2; by apply sublist_inserts_r].
    rewrite <- Hc. clear Hc. induction (group_fields _) as [|g gs IH]; [by apply elem_of_nil in Hin|].
    apply elem_of_cons in Hin as [<-|Hin]; cbn [concat]; [by apply sublist_inserts_r|].
    by apply sublist_inserts_l, IH. }
  destruct Hf as [| |t [|l ls] _ Hf]; try done. by exists t.
Qed.

Lemma EqualFold_nil `{UnicodeCase} a : sforall is_ascii_byte a = true → a ≠ "" → EqualFold "" a = false.
Proof. intros Ha Hne. unfold EqualFold. rewrite Ha. by destruct a. Qed.
Lemma value_of_line l cs : (String.length authResultsFieldName ≤ String.length l)%nat →
  value_of (l :: cs) = sdrop (String.length authResultsFieldName) l +:+ sconcat cs.
Proof. intros Hl. unfold value_of. cbn [sconcat]. by apply sdrop_app_le. Qed.

(** On the fields of a message, the filter's test of the first line recognises
    the fields that claim the identifier and do not break early. *)
Lemma own_field_recognised `{UnicodeCase} a f :
  sforall is_ascii_byte a = true → a ≠ "" → ended f → own_field a f ↔ recognised a f.
Proof.
  intros Ha Hne He. unfold recognised. destruct f as [|l cs]; [unfold claims; simpl; tauto|].
  unfold own_field, claims, broken_early, isOwnAuthResults. cbn [head default from_option id].
  set (n := String.length authResultsFieldName). destruct (Nat.ltb_spec (String.length l) n) as [Hl|Hl].
  { split; [by intros [_ ?]|]. intros ((_ & ? & _) & _). lia. }
  rewrite value_of_line by done. fold n. destruct (EqualFold (stake n l) authResultsFieldName); cbn [negb];
    [|split; [by intros [_ ?]|by intros ((_ & _ & ? & _) & _)]].
  destruct (TrimLeft [SP; HT] (sdrop n l)) as [|c v] eqn:Ev.
  { change (authservIDOf "") with "". rewrite EqualFold_nil by done. split; [by intros [_ ?]|]. intros [_ Hx]. by destruct (Hx I). }
  destruct (decide (c = CR ∨ c = LF)) as [Hc|Hc].
  { assert (authservIDOf (String c v) = "") as -> by (by destruct Hc as [-> | ->]).
    rewrite EqualFold_nil by done. split; [by intros [_ ?]|]. intros [_ Hx]. by destruct (Hx Hc). }
  rewrite (TrimLeft_more _ (sconcat cs) _ _ Ev) by tauto.
  assert (authservIDOf (String c v +:+ sconcat cs) = authservIDOf (String c v)) as ->; [|tauto].
  destruct cs as [|l2 cs]; [cbn [sconcat]; by rewrite sapp_nil_r|]. destruct He as [t Ht].
  destruct (TrimLeft_suffix [SP; HT] (sdrop n l)) as [p Hp]. rewrite Ev in Hp.
  destruct (suffix_LF (stake n l +:+ p) (String c v) t) as [v0 Hv]; [|done|].
  { rewrite <- sapp_assoc, <- Hp, stake_sdrop. exact Ht. }
  rewrite Hv. destruct (before_any_line v0 (sconcat (l2 :: cs))) as [Hb [x Hx]].
  unfold authservIDOf. by rewrite Hb, Hx.
Qed.
Lemma filter_ext_elem {A} (P Q : A → Prop) `{!∀ x, Decision (P x), !∀ x, Decision (Q x)} (l : list A) :
  (∀ x, x ∈ l → P x ↔ Q x) → filter P l = filter Q l.
Proof.
  induction l as [|x l IH]; intros HPQ; [done|]. rewrite !filter_cons.
  rewrite IH by (intros y Hy; apply HPQ; by right). pose proof (HPQ x ltac:(by left)).
  destruct (decide (P x)), (decide (Q x)); tauto.
Qed.
Lemma ToLower_ascii `{UnicodeCase} h : sforall is_ascii_byte h = true → h ≠ "" →
  sforall is_ascii_byte (ToLower h) = true ∧ ToLower h ≠ "".
Proof.
  intros Ha Hne. unfold ToLower. rewrite Ha. split; [|by destruct h].
  clear Hne. induction h as [|c h IH]; [done|]. cbn [smap sforall] in *. apply andb_true_iff in Ha as [Hc Ha].
  rewrite IH by done. rewrite andb_true_r. revert Hc. clear. by destruct c as [[] [] [] [] [] [] [] []].
Qed.

(** C28 The streaming filter is field removal. For our identifier, a non-empty
    ASCII host name, and a message none of whose header lines exceeds the read
    buffer, the output is a message again, with the same body byte for byte, whose
    header fields are those of the input, in order and unchanged, except that the
    fields whose verdict claims our identifier are gone, continuation lines
    included; the identifier is compared but for case. The only fields claiming our
    identifier that remain are those in which the line breaks between the colon and
    the identifier: the filter does not recognise them
    ([folded_verdict_survives]). *)
Theorem strip_is_field_removal `{UnicodeCase} msg host :
  host ≠ "" → sforall is_ascii_byte host = true →
  Forall (λ l, String.length l ≤ authResultsChunk)%nat (header_lines (raw_lines msg)) →
  let out := stripAuthResults msg host in
  out = sconcat (concat (header_fields out)) +:+ body_of out ∧ body_of out = body_of msg ∧
  header_fields out = filter (λ f, ¬ recognised (ToLower host) f) (header_fields msg) ∧
  (∀ f, f ∈ header_fields msg → f ∉ header_fields out → claims (ToLower host) f) ∧
  (∀ f, f ∈ header_fields out → claims (ToLower host) f → broken_early f).
Proof.
  intros Hh Ha Hl out. unfold out. rewrite stripAuthResults_fields by done.
  destruct (strip_fields_reparse (ToLower host) msg) as [Hf Hb]. destruct (ToLower_ascii host Ha Hh) as [La Ln].
  assert (filter (λ f, ¬ own_field (ToLower host) f) (header_fields msg)
    = filter (λ f, ¬ recognised (ToLower host) f) (header_fields msg)) as Hr.
  { apply filter_ext_elem. intros f Hin. rewrite own_field_recognised; [done|done|done|].
    by eapply header_fields_ended. }
  rewrite Hf, Hb, Hr. split_and!; [|done|done| |].
  - unfold strip_fields. by rewrite Hr.
  - intros f Hin Hout. destruct (decide (recognised (ToLower host) f)) as [[? _]|Hn]; [done|].
    destruct Hout. by apply list_elem_of_filter.
  - intros f [Hn _]%list_elem_of_filter Hc. destruct (decide (broken_early f)); [done|]. by destruct Hn.
Qed.

(** ** Concrete messages *)
Module StripDemo.
#[export] Instance demo_case : UnicodeCase :=
  {| unicode_upper := id; unicode_lower := id; unicode_fold := λ s t, bool_decide (s = t) |}.
Definition line (s : string) : string := s +:+ crlf.
Definition forged : string :=
  sconcat [line "From: a@example.com"; line "AUTHENTICATION-Results: MX.example.org; dkim=pass";
           line " header.d=bank.example"; line "Authentication-Results: other.example; spf=fail";
           line "Subject: hi"; line ""; line "Authentication-Results: mx.example.org; in the body"].
(** The same verdict with the line folded right after the colon. *)
Definition forged_folded : string :=
  sconcat [line "From: a@example.com"; line "Authentication-Results:"; line " mx.example.org; dkim=pass";
           line ""; line "text"].
End StripDemo.

Section OnStripDemo.
Import StripDemo.

Lemma strip_is_field_removal_witness :
  stripAuthResults forged "mx.example.org" =
    sconcat [line "From: a@example.com"; line "Authentication-Results: other.example; spf=fail";
             line "Subject: hi"; line ""; line "Authentication-Results: mx.example.org; in the body"] ∧
  body_of (stripAuthResults forged "mx.example.org") = body_of forged.
Proof.
  destruct (strip_is_field_removal forged "mx.example.org") as (He & Hb & Hf & _); [discriminate|reflexivity| |].
  { apply (bool_decide_unpack _). vm_compute. exact I. }
  split; [|exact Hb]. rewrite He, Hf, Hb. vm_compute. reflexivity.
Defined.

(** The filter looks for the identifier on the first line of a field only: a
    verdict folded after the colon keeps our identifier and is delivered. *)
Lemma folded_verdict_survives :
  stripAuthResults forged_folded "mx.example.org" = forged_folded.
Proof. vm_compute. reflexivity. Qed.
End OnStripDemo.
