(* ===== verification/SpamCheck.v ===== *)
(** * Spam verdicts

    Model of [src/internal/smtpd/spamcheck] (spamcheck.go, multi.go), the
    result handling of [src/internal/smtpd/rspamd] (client.go, spamvalue.go,
    authresults.go) and [src/internal/smtpd/smtp/spamheaders.go]: verdicts and
    their aggregation, and the header fields stamped from values that rspamd or
    the message supply. The HTTP exchange with rspamd and float64 arithmetic
    are parameters. *)
From S2P Require Import Prelude GoStrings AuthResults.
From Stdlib Require Import ZArith Lia Ascii.
Open Scope string_scope.
Open Scope list_scope.
Open Scope Z_scope.

(** float64 as scores use it; [score_ninths a b] is [int(math.Round((a/b)*9))]. *)
Class Scores := {
  score : Type;
  s_zero : score;
  s_le : score → score → bool;
  s_lt : score → score → bool;
  s_add : score → score → score;
  s_avg : score → nat → score;
  s_nan : score → bool;
  s_inf : score → bool;
  score_ninths : score → score → Z;
  fmt_f1 : score → string;
  fmt_f2 : score → string;
}.

(** ** spamcheck.go *)
Inductive Action := ActionAccept | ActionReject | ActionTempFail | ActionFlag.
#[export] Instance Action_eq_dec : EqDecision Action.
Proof. solve_decision. Defined.

Record CheckOptions := mkOpts {
  o_From : string; o_Recipients : list string; o_IP : string; o_Helo : string;
  o_Hostname : string; o_User : string;
}.

Section Spam.
Context `{Scores, UnicodeCase}.

Record CheckResult := mkResult {
  CheckerName : string;
  Score : score;
  r_Action : Action;
  IsSpam : bool;
  Headers : gmap string string;
  r_AuthResults : string;
  RejectMessage : string;
}.

Definition over (r : CheckResult) (threshold : score) : bool :=
  s_lt s_zero threshold && s_le threshold (Score r).
Definition ShouldReject (r : CheckResult) (threshold : score) : bool :=
  bool_decide (r_Action r = ActionReject) || over r threshold.
Definition ShouldTempFail (r : CheckResult) (threshold : score) : bool :=
  bool_decide (r_Action r = ActionTempFail) || over r threshold.

(** ** multi.go *)
Inductive MultiMode := FirstReject | AllReject | HighestScore.
Record MultiConfig := mkMulti { m_Mode : MultiMode; m_Reject : score; m_TempFail : score }.

Definition verdict (name : string) (sc : score) (a : Action) (spam : bool) (msg : string) : CheckResult :=
  mkResult name sc a spam ∅ "" msg.
Definition accept_all : CheckResult := verdict "multi" s_zero ActionAccept false "".

Definition says_reject (c : MultiConfig) (r : CheckResult) : bool :=
  bool_decide (r_Action r = ActionReject) || ShouldReject r (m_Reject c).
Definition says_tempfail (c : MultiConfig) (r : CheckResult) : bool :=
  bool_decide (r_Action r = ActionTempFail) || ShouldTempFail r (m_TempFail c).

(** The highest positive score, as the loop tracks it. *)
Definition track_highest (acc : score * option CheckResult) (r : CheckResult) : score * option CheckResult :=
  if s_lt acc.1 (Score r) then (Score r, Some r) else acc.

Definition aggregateFirstReject (c : MultiConfig) (rs : list CheckResult) : CheckResult :=
  match find (says_reject c) rs with
  | Some r => verdict "multi" (Score r) ActionReject true (RejectMessage r)
  | None =>
      match find (says_tempfail c) rs with
      | Some r => verdict "multi" (Score r) ActionTempFail false (RejectMessage r)
      | None =>
          match (foldl track_highest (s_zero, None) rs).2 with
          | Some r => verdict "multi" (Score r) ActionAccept (IsSpam r) ""
          | None => accept_all
          end
      end
  end.

Definition aggregateAllReject (c : MultiConfig) (rs : list CheckResult) : CheckResult :=
  let avg := s_avg (foldl (λ t r, s_add t (Score r)) s_zero rs) (length rs) in
  let msg := foldl (λ m r, if decide (RejectMessage r = "") then m else RejectMessage r) "" rs in
  if forallb (says_reject c) rs then verdict "multi" avg ActionReject true msg
  else verdict "multi" avg ActionAccept false "".

Definition aggregateHighestScore (c : MultiConfig) (rs : list CheckResult) : CheckResult :=
  match foldl (λ h r, match h with
                      | None => Some r
                      | Some h => if s_lt (Score h) (Score r) then Some r else Some h
                      end) None rs with
  | None => accept_all
  | Some h =>
      let a := if ShouldReject h (m_Reject c) then ActionReject
               else if ShouldTempFail h (m_TempFail c) then ActionTempFail else ActionAccept in
      verdict "multi" (Score h) a (IsSpam h) (RejectMessage h)
  end.

Definition aggregateResults (c : MultiConfig) (rs : list CheckResult) : CheckResult :=
  match rs with
  | [] => accept_all
  | [r] => r
  | _ => match m_Mode c with
         | AllReject => aggregateAllReject c rs
         | HighestScore => aggregateHighestScore c rs
         | FirstReject => aggregateFirstReject c rs
         end
  end.

(** A message as a reader: its bytes, and whether reading ends in an error. *)
Record input := mkInput { in_data : string; in_err : bool }.

(** [Check] reads [input] and says how much of it was read: all or nothing. *)
Definition Checker : Type := input → CheckOptions → option CheckResult * string.

Definition multi_Check (c : MultiConfig) (checkers : list Checker) : Checker := λ msg opts,
  match checkers with
  | [] => (Some accept_all, "")
  | _ =>
      if in_err msg then (None, in_data msg)
      else
        let rs := omap (λ ck : Checker, (ck (mkInput (in_data msg) false) opts).1) checkers in
        match rs with
        | [] => (None, in_data msg)
        | _ =>
            let auth := foldl (λ a r, if decide (a = "") then r_AuthResults r else a) "" rs in
            let headers := foldl (λ h r, Headers r ∪ h) ∅ rs in
            let f := aggregateResults c rs in
            (Some (mkResult (CheckerName f) (Score f) (r_Action f) (IsSpam f) headers auth (RejectMessage f)),
             in_data msg)
        end
  end.

(** A checker that reads its input to the end, and answers only when that end is
    not an error. Several together do, whatever the single ones are. *)
Definition reads_all (ck : Checker) : Prop :=
  ∀ r o, (ck r o).2 = in_data r ∧ ((ck r o).1 ≠ None → in_err r = false).
Lemma multi_reads_all c ck cks : reads_all (multi_Check c (ck :: cks)).
Proof.
  intros r o. cbn [multi_Check]. destruct (in_err r); [done|]. by destruct (omap _ _).
Qed.

(** ** rspamd/spamvalue.go *)
Definition spamValue (sc required : score) : Z :=
  if s_le required s_zero || s_nan required || s_inf required then 0
  else if s_nan sc then 0
  else if s_le sc s_zero then 1
  else if s_le required sc then 10
  else Z.min (Z.max (1 + score_ninths sc required) 1) 10.

(** ** rspamd/authresults.go *)
Definition printable (c : ascii) : bool :=
  let n := nat_of_ascii c in (33 <=? n)%nat && (n <=? 126)%nat.
Fixpoint sfilter (p : ascii → bool) (s : string) : string :=
  match s with
  | "" => ""
  | String c s => if p c then String c (sfilter p s) else sfilter p s
  end.

Definition maxPropertyValue : nat := 255.
Definition sanitizeProperty (v : string) : string :=
  stake maxPropertyValue (sfilter (λ c, printable c && negb (Ascii.eqb c ";")) v).
Definition value_byte (c : ascii) : bool := printable c || Ascii.eqb c SP || Ascii.eqb c HT.
Definition sanitizeHeaderValue (v : string) : string := TrimSpace (sfilter value_byte v).

Record RspamdResult := mkRspamd {
  rs_Score : score;
  rs_Required : score;
  rs_Action : string;
  rs_IsSpam : bool;
  rs_Symbols : gmap string (list string);          (** the options of each symbol *)
  rs_Milter : option (list (string * string));     (** headers to add, in map order *)
}.

Definition authMethods : list (string * list (string * string)) :=
  [("spf", [("R_SPF_ALLOW", "pass"); ("R_SPF_FAIL", "fail"); ("R_SPF_SOFTFAIL", "softfail");
            ("R_SPF_NEUTRAL", "neutral"); ("R_SPF_DNSFAIL", "temperror");
            ("R_SPF_PERMFAIL", "permerror"); ("R_SPF_NA", "none")]);
   ("dkim", [("R_DKIM_ALLOW", "pass"); ("R_DKIM_REJECT", "fail"); ("R_DKIM_TEMPFAIL", "temperror");
             ("R_DKIM_PERMFAIL", "permerror"); ("R_DKIM_NA", "none")]);
   ("dmarc", [("DMARC_POLICY_ALLOW", "pass"); ("DMARC_POLICY_REJECT", "fail");
              ("DMARC_POLICY_QUARANTINE", "fail"); ("DMARC_POLICY_SOFTFAIL", "fail");
              ("DMARC_BAD_POLICY", "permerror"); ("DMARC_DNSFAIL", "temperror"); ("DMARC_NA", "none")]);
   ("arc", [("ARC_ALLOW", "pass"); ("ARC_REJECT", "fail"); ("ARC_INVALID", "permerror");
            ("ARC_DNSFAIL", "temperror"); ("ARC_NA", "none")])].

(** The first symbol of the method that rspamd reported. *)
Fixpoint evaluate (syms : list (string * string)) (m : gmap string (list string)) : option (string * list string) :=
  match syms with
  | [] => None
  | (sym, res) :: syms => match m !! sym with Some opts => Some (res, opts) | None => evaluate syms m end
  end.

Definition domainOf (addr : string) : string :=
  match cut_last "@" addr with Some (_, d) => d | None => "" end.
Definition firstOption (opts : list string) : string := default "" (head opts).

(** [strings.Replace(s, "s=", "header.s=", 1)]: the first occurrence only. *)
Fixpoint replace_first (old new s : string) : string :=
  if HasPrefix s old then new +:+ sdrop (String.length old) s
  else match s with "" => "" | String c s => String c (replace_first old new s) end.

Definition propertyFor (method : string) (options : list string) (opts : CheckOptions) : string :=
  if decide (method = "spf") then
    if decide (domainOf (o_From opts) ≠ "") then "smtp.mailfrom=" +:+ sanitizeProperty (domainOf (o_From opts))
    else let h := sanitizeProperty (o_Helo opts) in if decide (h = "") then "" else "smtp.helo=" +:+ h
  else if decide (method = "dkim") then
    let d := sanitizeProperty (firstOption options) in
    if decide (d = "") then ""
    else match cut ":" d with
         | None => "header.d=" +:+ d
         | Some (dom, sel) => "header.d=" +:+ dom +:+ " " +:+ replace_first "s=" "header.s=" sel
         end
  else if decide (method = "dmarc") then
    let d := sanitizeProperty (firstOption options) in if decide (d = "") then "" else "header.from=" +:+ d
  else "".

Definition clause (r : RspamdResult) (opts : CheckOptions) (m : string * list (string * string)) : option string :=
  match evaluate m.2 (rs_Symbols r) with
  | None => None
  | Some (res, o) =>
      let prop := propertyFor m.1 o opts in
      Some (m.1 +:+ "=" +:+ res +:+ (if decide (prop = "") then "" else " " +:+ prop))
  end.

Fixpoint join (sep : string) (ls : list string) : string :=
  match ls with [] => "" | [l] => l | l :: ls => l +:+ sep +:+ join sep ls end.
Definition fold_sep : string := ";" +:+ crlf +:+ String HT "".

Definition milter_auth (hs : list (string * string)) : option string :=
  head (omap (λ h, if EqualFold h.1 authResultsHeaderName
                   then let v := sanitizeHeaderValue h.2 in if decide (v = "") then None else Some v
                   else None) hs).

Definition buildAuthResults (r : RspamdResult) (opts : CheckOptions) : string :=
  let authserv := sanitizeProperty (o_Hostname opts) in
  if decide (authserv = "") then ""
  else match rs_Milter r ≫= milter_auth with
       | Some v => v
       | None =>
           match omap (clause r opts) authMethods with
           | [] => ""
           | ms => authserv +:+ fold_sep +:+ join fold_sep ms
           end
       end.

(** ** rspamd/client.go *)
Definition rspamd_action (a : string) : Action :=
  if decide (a = "reject") then ActionReject
  else if decide (a = "soft reject" ∨ a = "greylist") then ActionTempFail
  else if decide (a = "add header" ∨ a = "rewrite subject") then ActionFlag
  else ActionAccept.

Definition buildHeaders (r : RspamdResult) (isSpam : bool) : gmap string string :=
  let status := (if isSpam then "Yes" else "No") +:+ ", score=" +:+ fmt_f2 (rs_Score r)
                +:+ " required=" +:+ fmt_f2 (rs_Required r) in
  let own : gmap string string :=
    <["X-Spam-Checker" := "rspamd"]> (<["X-Spam-Flag" := if isSpam then "YES" else "NO"]>
      (<["X-Spam-Value" := fmt_d (spamValue (rs_Score r) (rs_Required r))]>
        (<["X-Spam-Score" := fmt_f2 (rs_Score r)]> {["X-Spam-Status" := status]}))) in
  foldl (λ m h, if HasPrefix (ToLower h.1) "x-spam-" || EqualFold h.1 authResultsHeaderName then m
                else <[h.1 := h.2]> m) own (default [] (rs_Milter r)).

Definition convertResult (r : RspamdResult) (opts : CheckOptions) : CheckResult :=
  let a := rspamd_action (rs_Action r) in
  let spam := rs_IsSpam r || bool_decide (a = ActionFlag) || bool_decide (a = ActionReject) in
  let msg := match a with
             | ActionReject => "Message rejected as spam (score " +:+ fmt_f1 (rs_Score r) +:+ ")"
             | ActionTempFail => "Message deferred, please try again later"
             | _ => ""
             end in
  mkResult "rspamd" (rs_Score r) a spam (buildHeaders r spam) (buildAuthResults r opts) msg.

(** [Check] with the answer of the server as a function of the request. *)
Definition rspamd_Check (ask : string → CheckOptions → option RspamdResult) : Checker := λ msg opts,
  if in_err msg then (None, in_data msg)
  else ((λ r, convertResult r opts) <$> ask (in_data msg) opts, in_data msg).
Lemma rspamd_reads_all ask : reads_all (rspamd_Check ask).
Proof. intros r o. unfold rspamd_Check. by destruct (in_err r). Qed.

(** ** smtp/spamheaders.go *)
Definition leadingSpamHeaders : list string :=
  ["X-Spam-Flag"; "X-Spam-Value"; "X-Spam-Score"; "X-Spam-Status"; "X-Spam-Checker"].

Definition sanitizeFieldName (name : string) : option string :=
  if bool_decide (name ≠ "") && sforall (λ c, printable c && negb (Ascii.eqb c ":")) name
  then Some name else None.
Definition breaks_to_space (c : ascii) : ascii := if Ascii.eqb c CR || Ascii.eqb c LF then SP else c.
Definition sanitizeFieldValue (value : string) : string :=
  TrimSpace (sfilter value_byte (smap breaks_to_space value)).

Definition string_le (a b : string) : Prop := String.leb a b = true.
#[global] Instance string_le_dec : RelDecision string_le.
Proof. unfold string_le. solve_decision. Defined.

Definition spam_field (headers : gmap string string) (name : string) : option string :=
  match headers !! name with
  | None => None
  | Some v => (λ n, n +:+ ": " +:+ sanitizeFieldValue v +:+ crlf) <$> sanitizeFieldName name
  end.
(** The order in which names are written: the leading ones, then the rest sorted. *)
Definition header_order (headers : gmap string string) : list string :=
  leadingSpamHeaders ++
  merge_sort string_le (filter (λ n, n ∉ leadingSpamHeaders) (map_to_list headers).*1).
Definition buildSpamHeaders (headers : gmap string string) : string :=
  sconcat (omap (spam_field headers) (header_order headers)).
End Spam.

(** ** Facts: stamping header fields *)
Definition full_line (l : string) : Prop :=
  isBlankLine l = false ∧ ∃ t, l = t +:+ String LF "" ∧ no_byte LF t.
Definition starts_clean (msg : string) : Prop := Forall starts_field (take 1 (header_fields msg)).

Lemma raw_lines_full ls msg : Forall full_line ls → raw_lines (sconcat ls +:+ msg) = ls ++ raw_lines msg.
Proof.
  induction 1 as [|l ls (_ & t & -> & Ht) _ IH]; [done|]. cbn [sconcat app].
  rewrite <-!sapp_assoc. cbn. fold (t +:+ String LF (sconcat ls +:+ msg)).
  by rewrite raw_lines_cons, IH.
Qed.
Lemma header_lines_full ls ls' : Forall full_line ls → header_lines (ls ++ ls') = ls ++ header_lines ls'.
Proof. induction 1 as [|l ls [Hb _] _ IH]; [done|]. cbn. by rewrite Hb, IH. Qed.

(** A stamped field is one field of the result, above all others. *)
Lemma stamp_field l cs msg :
  Forall full_line (l :: cs) → Forall (λ c, isFoldedContinuation c = true) cs → starts_clean msg →
  header_fields (sconcat (l :: cs) +:+ msg) = (l :: cs) :: header_fields msg.
Proof.
  intros Hf Hcs Hm. unfold header_fields. rewrite raw_lines_full, header_lines_full by done.
  by apply group_field_app.
Qed.

Lemma stamp_lines ls msg :
  Forall full_line ls → Forall (λ l, isFoldedContinuation l = false) ls → starts_clean msg →
  header_fields (sconcat ls +:+ msg) = ((λ l, [l]) <$> ls) ++ header_fields msg ∧
  starts_clean (sconcat ls +:+ msg).
Proof.
  intros Hf Hn Hm. induction ls as [|l ls IH]; [done|].
  apply Forall_cons in Hf as [Hl Hf]. apply Forall_cons in Hn as [Hnl Hn].
  destruct (IH Hf Hn) as [IH1 IH2].
  assert (header_fields (sconcat (l :: ls) +:+ msg) = [l] :: header_fields (sconcat ls +:+ msg)) as E.
  { replace (sconcat (l :: ls) +:+ msg) with (sconcat [l] +:+ (sconcat ls +:+ msg))
      by (simpl; by rewrite sapp_nil_r, sapp_assoc).
    apply (stamp_field l []); [constructor; [exact Hl|constructor]|done|done]. }
  split; [by rewrite E, IH1|]. unfold starts_clean. rewrite E. by constructor.
Qed.

(** ** Facts: what sanitising leaves *)
Lemma sforall_trim_left p k s : sforall p s = true → sforall p (trim_left_aux k s) = true.
Proof.
  revert k. induction s as [|c s IH]; intros k Hs; [done|]. cbn [trim_left_aux].
  pose proof Hs as Hs'. cbn in Hs'. apply andb_prop in Hs' as [_ Hs'].
  destruct k; [|by apply IH]. destruct (space_len _); [done|by apply IH].
Qed.
Lemma sforall_trim_right p s : sforall p s = true → sforall p (trim_right s) = true.
Proof.
  induction s as [|c s IH]; intros Hs; [done|]. cbn [trim_right]. destruct (all_space _); [done|].
  cbn in Hs |- *. apply andb_prop in Hs as [Hc Hs]. by rewrite Hc, IH.
Qed.
Lemma sforall_TrimSpace p s : sforall p s = true → sforall p (TrimSpace s) = true.
Proof. intros Hs. apply sforall_trim_right. by apply sforall_trim_left. Qed.
Lemma sforall_sfilter p s : sforall p (sfilter p s) = true.
Proof. induction s as [|c s IH]; simpl; [done|]. destruct (p c) eqn:E; simpl; by rewrite ?E. Qed.
Lemma sforall_stake p n s : sforall p s = true → sforall p (stake n s) = true.
Proof.
  revert n. induction s as [|c s IH]; intros [|n] Hs; [done..|]. cbn in Hs |- *.
  apply andb_prop in Hs as [Hc Hs]. by rewrite Hc, IH.
Qed.
Lemma no_LF_app s t : no_byte LF s → no_byte LF t → no_byte LF (s +:+ t).
Proof. intros. by apply no_byte_app. Qed.
Lemma value_byte_no_LF s : sforall value_byte s = true → no_byte LF s.
Proof. by apply sforall_no_byte. Qed.
#[export] Hint Resolve no_LF_app value_byte_no_LF : mail.

Lemma spamValue_bounds `{Scores} sc req : 0 <= spamValue sc req <= 10.
Proof. unfold spamValue. repeat case_match; lia. Qed.

(** ** The spam headers of a message *)
Section SpamFacts.
Context `{Scores, UnicodeCase}.

Lemma sanitizeFieldName_Some n n' : sanitizeFieldName n = Some n' →
  n' = n ∧ n ≠ "" ∧ sforall (λ c, printable c && negb (Ascii.eqb c ":")) n = true.
Proof.
  unfold sanitizeFieldName. destruct (_ && _) eqn:E; [|done]. intros [= <-].
  apply andb_prop in E as [E1 E2]. by apply bool_decide_eq_true in E1.
Qed.
Lemma printable_head_unfolded c s : printable c = true → isFoldedContinuation (String c s) = false.
Proof.
  intros Hc. simpl. apply orb_false_iff. split; apply Ascii.eqb_neq; intros ->; discriminate Hc.
Qed.

Lemma spam_field_line hs n l : spam_field hs n = Some l → full_line l ∧ isFoldedContinuation l = false.
Proof.
  unfold spam_field. destruct (hs !! n) as [v|]; [|done].
  destruct (sanitizeFieldName n) as [n'|] eqn:En; [|done]. intros [= <-].
  apply sanitizeFieldName_Some in En as (-> & Hne & Hn). destruct n as [|c n]; [done|].
  cbn in Hn. apply andb_prop in Hn as [Hc Hn]. apply andb_prop in Hc as [Hc _].
  split; [|by apply printable_head_unfolded]. split.
  - apply orb_false_iff. split; apply bool_decide_eq_false; cbn; intros [= -> _]; discriminate Hc.
  - exists (String c n +:+ ": " +:+ sanitizeFieldValue v +:+ String CR "").
    split; [unfold crlf; by rewrite <-!sapp_assoc|].
    assert (no_byte LF (String c n)) as Hcn.
    { apply no_byte_cons. split; [by intros ->|]. refine (sforall_no_byte _ LF n _ Hn). done. }
    do 2 (apply no_LF_app; [done|]). apply no_LF_app; [|done]. apply value_byte_no_LF, sforall_TrimSpace, sforall_sfilter.
Qed.

(** Whatever rspamd puts in names and values, the block stamped on a message
    adds exactly the intended fields above the ones it has. *)
Lemma spam_headers_fields hs msg :
  starts_clean msg →
  header_fields (buildSpamHeaders hs +:+ msg) =
    ((λ l, [l]) <$> omap (spam_field hs) (header_order hs)) ++ header_fields msg ∧
  starts_clean (buildSpamHeaders hs +:+ msg).
Proof.
  intros Hm. assert (∀ l, l ∈ omap (spam_field hs) (header_order hs) →
    full_line l ∧ isFoldedContinuation l = false) as Hall.
  { intros l (n & _ & Hn)%list_elem_of_omap. by eapply spam_field_line. }
  apply stamp_lines; [| |done]; apply Forall_forall; intros l Hl; by apply Hall.
Qed.

(** Every field the checkers reported is written at most once. *)
Lemma header_order_NoDup hs : NoDup (header_order hs).
Proof.
  apply NoDup_app. split_and!.
  - apply (bool_decide_unpack _). vm_compute. exact I.
  - intros n Hn. rewrite merge_sort_Permutation. by intros [? _]%list_elem_of_filter.
  - rewrite merge_sort_Permutation. apply NoDup_filter, NoDup_fst_map_to_list.
Qed.
End SpamFacts.

(** ** The verdict header of a message *)
Section AuthFacts.
Context `{Scores, UnicodeCase}.

(** The continuation lines of a folded value. *)
Fixpoint folded_lines (ms : list string) : list string :=
  match ms with
  | [] => []
  | [m] => [String HT (m +:+ crlf)]
  | m :: ms => String HT (m +:+ ";" +:+ crlf) :: folded_lines ms
  end.
Lemma join_folded ms : ms ≠ [] → String HT (join fold_sep ms +:+ crlf) = sconcat (folded_lines ms).
Proof.
  induction ms as [|m [|m' ms] IH]; intros Hne; [done|cbn; by rewrite sapp_nil_r|].
  change (sconcat (folded_lines (m :: m' :: ms)))
    with (String HT (m +:+ ";" +:+ crlf) +:+ sconcat (folded_lines (m' :: ms))).
  rewrite <-IH by done. change (join fold_sep (m :: m' :: ms)) with (m +:+ fold_sep +:+ join fold_sep (m' :: ms)).
  set (j := join fold_sep (m' :: ms)).
  change (String HT ((m +:+ fold_sep +:+ j) +:+ crlf) = String HT ((m +:+ ";" +:+ crlf) +:+ String HT (j +:+ crlf))).
  f_equal. rewrite <-!sapp_assoc. done.
Qed.
Lemma folded_lines_full ms : Forall (no_byte LF) ms →
  Forall full_line (folded_lines ms) ∧ Forall (λ c, isFoldedContinuation c = true) (folded_lines ms).
Proof.
  assert (∀ t, no_byte LF t → full_line (String HT (t +:+ crlf))) as Hl.
  { intros t Ht. split; [done|]. exists (String HT (t +:+ String CR "")). split.
    - unfold crlf. cbn. by rewrite <-sapp_assoc.
    - apply no_byte_cons. split; [done|]. by apply no_LF_app. }
  induction 1 as [|m ms Hm Hms IH]; [done|]. destruct ms as [|m' ms].
  - split; constructor; try done. by apply Hl.
  - destruct IH as [IH1 IH2]. split; (constructor; [|done]); [|done].
    rewrite sapp_assoc. apply Hl. by apply no_LF_app.
Qed.

Lemma sanitizeProperty_no_LF v : no_byte LF (sanitizeProperty v).
Proof. refine (sforall_no_byte _ LF _ _ (sforall_stake _ _ _ (sforall_sfilter _ v))). done. Qed.
Lemma replace_first_no_LF old new s : no_byte LF new → no_byte LF s → no_byte LF (replace_first old new s).
Proof.
  intros Hn. induction s as [|c s IH]; intros Hs; cbn [replace_first].
  - destruct (HasPrefix "" old); [|done]. apply no_LF_app; [done|]. by destruct (String.length old).
  - apply no_byte_cons in Hs as [Hc Hs]. destruct (HasPrefix _ old).
    + apply no_LF_app; [done|].
      assert (no_byte LF (stake (String.length old) (String c s) +:+ sdrop (String.length old) (String c s))) as Hd.
      { rewrite stake_sdrop. by apply no_byte_cons. }
      by apply no_byte_app in Hd as [_ Hd].
    + apply no_byte_cons. auto.
Qed.
Lemma propertyFor_no_LF m o opts : no_byte LF (propertyFor m o opts).
Proof.
  pose proof sanitizeProperty_no_LF as Hs. unfold propertyFor.
  repeat case_decide; try done; try (apply no_LF_app; [done|apply Hs]).
  destruct (cut ":" _) as [[d s]|] eqn:E; [|by apply no_LF_app].
  apply cut_Some in E as [E _]. specialize (Hs (firstOption o)). rewrite E in Hs.
  apply no_byte_app in Hs as [Hd Hs]. apply no_byte_cons in Hs as [_ Hs].
  do 3 (apply no_LF_app; [done|]). by apply replace_first_no_LF.
Qed.

(** Method names and results come from the table. *)
Definition clean_method (m : string * list (string * string)) : bool :=
  negb (has_byte LF m.1) && forallb (λ s, negb (has_byte LF s.2)) m.2.
Lemma evaluate_in syms m res o : evaluate syms m = Some (res, o) → ∃ s, (s, res) ∈ syms.
Proof.
  induction syms as [|[s r] syms IH]; [done|]. cbn. destruct (m !! s); intros E.
  - simplify_eq. exists s. by left.
  - destruct (IH E) as [s' ?]. exists s'. by right.
Qed.
Lemma clauses_no_LF r opts : Forall (no_byte LF) (omap (clause r opts) authMethods).
Proof.
  assert (forallb clean_method authMethods = true) as Ht by (vm_compute; reflexivity).
  apply Forall_forall. intros c (m & Hm & Hc)%list_elem_of_omap.
  rewrite forallb_forall in Ht. specialize (Ht m (proj1 (list_elem_of_In _ _) Hm)).
  apply andb_prop in Ht as [Hn Hr]. apply negb_true_iff in Hn. unfold clause in Hc.
  destruct (evaluate m.2 _) as [[res o]|] eqn:Ee; [|done]. simplify_eq.
  apply evaluate_in in Ee as [s Hs]. rewrite forallb_forall in Hr.
  specialize (Hr (s, res) (proj1 (list_elem_of_In _ _) Hs)). apply negb_true_iff in Hr.
  do 3 (apply no_LF_app; [done|]). case_decide; [done|]. apply no_LF_app; [done|apply propertyFor_no_LF].
Qed.

Lemma milter_auth_no_LF hs v : milter_auth hs = Some v → no_byte LF v.
Proof.
  unfold milter_auth. intros Hv. assert (v ∈ omap (λ h, if EqualFold h.1 authResultsHeaderName
    then let v := sanitizeHeaderValue h.2 in if decide (v = "") then None else Some v else None) hs) as Hin.
  { destruct (omap _ hs); [done|]. simplify_eq/=. by left. }
  apply list_elem_of_omap in Hin as (h & _ & Hh). destruct (EqualFold _ _); [|done].
  cbn zeta in Hh. destruct (decide _) in Hh; [done|]. simplify_eq.
  apply value_byte_no_LF, sforall_TrimSpace, sforall_sfilter.
Qed.

(** The verdict header is at most one field, whatever domains and selectors the
    message and rspamd supply. *)
Lemma auth_header_field r opts msg :
  starts_clean msg →
  let h := buildAuthResultsHeader (buildAuthResults r opts) in
  (∃ fs, (length fs ≤ 1)%nat ∧ header_fields (h +:+ msg) = fs ++ header_fields msg) ∧ starts_clean (h +:+ msg).
Proof.
  intros Hm h. unfold h, buildAuthResultsHeader.
  destruct (decide (buildAuthResults r opts = "")) as [|Hne]; [split; [by exists []; simpl; eauto with lia|done]|].
  assert (∃ cs, authResultsHeaderName +:+ ": " +:+ buildAuthResults r opts +:+ crlf =
    sconcat ((authResultsHeaderName +:+ ": " +:+ cs.1 +:+ crlf) :: cs.2) ∧ no_byte LF cs.1 ∧
    Forall full_line cs.2 ∧ Forall (λ c, isFoldedContinuation c = true) cs.2) as ([v cs] & E & Hv & Hf & Hc).
  { unfold buildAuthResults in *. destruct (decide (sanitizeProperty _ = "")); [done|].
    destruct (rs_Milter r ≫= milter_auth) as [v|] eqn:Em.
    - exists (v, []). apply bind_Some in Em as (hs & _ & Em). cbn [fst snd sconcat]. rewrite sapp_nil_r.
      split_and!; [done|by eapply milter_auth_no_LF|done..].
    - pose proof (clauses_no_LF r opts) as Hms. destruct (omap _ authMethods) as [|m ms]; [done|].
      exists (sanitizeProperty (o_Hostname opts) +:+ ";", folded_lines (m :: ms)).
      destruct (folded_lines_full _ Hms). cbn [fst snd]. split_and!; [|by apply no_LF_app; [apply sanitizeProperty_no_LF|]|done..].
      cbn [sconcat]. rewrite <-join_folded by done. unfold fold_sep. rewrite <-!sapp_assoc. done. }
  cbn [fst snd] in *. rewrite E.
  assert (Forall full_line ((authResultsHeaderName +:+ ": " +:+ v +:+ crlf) :: cs)) as Hall.
  { constructor; [|done]. split; [done|]. exists (authResultsHeaderName +:+ ": " +:+ v +:+ String CR "").
    split; [unfold crlf; by rewrite <-!sapp_assoc|]. do 2 (apply no_LF_app; [done|]). by apply no_LF_app. }
  pose proof (stamp_field _ cs msg Hall Hc Hm) as Hs. split.
  - exists [(authResultsHeaderName +:+ ": " +:+ v +:+ crlf) :: cs]. split; [simpl; lia|done].
  - unfold starts_clean. rewrite Hs. by constructor.
Qed.
End AuthFacts.
