(* ===== verification/SmtpSession.v ===== *)
(** * smtpd sessions

    Model of [src/internal/smtpd/smtp/session.go] with [received.go],
    [msgid.go] and the result types of [smdeliver.go] and [redirect.go]:
    authentication, MAIL, RCPT, DATA, forwards and resets as the methods that
    the SMTP library calls on a session. Every call that leaves the process
    (login, recipient lookup, delivery, queueing, notification, abuse reports)
    is recorded in a log; what the other side answers is a function of that log
    and of the arguments, so that the theorems hold for any behaviour of it. *)
From S2P Require Import Prelude GoStrings Queue AuthResults SpamCheck.
From Stdlib Require Import ZArith Lia Ascii.
Open Scope string_scope.
Open Scope list_scope.
Open Scope Z_scope.

(** ** Data *)
Record LoginResult := mkLogin { l_Token : string; l_Mailbox : string; l_MaxSends : Z }.
(** The gRPC status of a failed login, as far as it is looked at. *)
Inductive login_error := ResourceExhausted | Unauthenticated | OtherStatus.
Record ValidateRecipientResult := mkVR { DomainIsLocal : bool; UserExists : bool; DeferRejection : bool }.
(** What [Deliver] returns: the folder, a [*RedirectError], or another error. *)
Inductive deliver_result := Delivered (folder : string) | Redirected (addrs : list string) | DeliverFailed.

(** [RLib] is an error value of the SMTP library, by name. *)
Inductive reply := ROk | RErr (code : Z) (msg : string) | RLib (name : string) | RPanic.
#[export] Instance reply_eq_dec : EqDecision reply.
Proof. solve_decision. Defined.

(** [SpamCheckConfig]: the fail mode defaults to a temporary failure, a checker
    to being enabled. *)
Inductive FailMode := FailOpen | FailTempFail | FailReject.
Definition GetFailMode (mode : string) : FailMode :=
  if decide (mode = "open") then FailOpen
  else if decide (mode = "reject") then FailReject else FailTempFail.
Definition IsEnabled (enabled : bool) (checkers : list (option bool)) : bool :=
  enabled && existsb (default true) checkers.

(** The message of a delivery: trace headers, then the message itself. *)
Inductive event :=
| EvLogin (user ip : string) (mailbox : option string)
| EvValidate (addr ip : string) (r : option ValidateRecipientResult)
| EvReport (ip signal : string)
| EvDeliver (from rcpt : string) (forwarded : bool) (msgid body : string) (r : deliver_result)
| EvEnqueue (from : string) (rcpts : list string) (msgid body : string) (ok : bool)
| EvNotify (rcpt folder : string)
| EvLearn (rcpt body : string)
| EvAllow (user : string) (rate : Z).

Record Session := mkSession {
  clientIP : string;
  clientHostname : string;
  helo : string;
  tls : option string;                 (** the TLS comment, on a TLS connection *)
  from : string;
  mailFromSeen : bool;
  recipients : list string;
  remoteRecipients : list string;
  authUser : string;
  loginResult : option LoginResult;
  deferredInvalidRecipient : string;
}.
Record st := mkSt { ses : Session; log : list event }.

(** ** The outside *)
Class SmtpWorld `{Scores} := {
  w_Login : list event → string → string → string → result LoginResult login_error;
  w_Validate : list event → string → string → option ValidateRecipientResult;
  w_Deliver : list event → string → string → bool → string → string → option CheckResult → deliver_result;
  w_Enqueue : list event → string → list string → string → string → bool;
  w_sender_allow : list event → string → Z → bool;      (** [senderLimiter.allow] *)
  w_trap_allow : list event → string → bool;            (** [ipRateLimiter.allow] *)
  w_rand : list event → option string;                  (** sixteen random bytes *)
  w_date : list event → string;                         (** the current time, formatted *)
  mail_From : string → option string;                   (** [mail.ReadMessage] and its From header *)
  mail_ParseAddressList : string → option (list string);
}.

(** [spamChecker] and [senderRateLimiter] may be nil, and so may the session
    manager's agent. *)
Record Backend `{Scores} := mkBackend {
  hostname : string;
  smDelivery : bool;
  spamChecker : option Checker;
  spamConfig_Enabled : bool;
  spamConfig_Checkers : list (option bool);
  spamConfig_FailMode : string;
  RejectThreshold : score;
  TempFailThreshold : score;
  AddHeaders : bool;
  spamtrapLearner : bool;
  senderRateLimiter : bool;
  maxSendsPerHour : Z;
}.

Arguments mkBackend {_}.

Definition emit (e : event) (s : st) : st := mkSt (ses s) (log s ++ [e]).
Definition set_ses (f : Session → Session) (s : st) : st := mkSt (f (ses s)) (log s).

(** ** Headers (received.go) *)
Record ReceivedInfo := mkInfo {
  i_Helo : string; i_ClientHostname : string; i_ClientIP : string; i_Hostname : string;
  i_Proto : string; i_TLSComment : string; i_MsgID : string; i_ForRcpt : string;
}.
Definition receivedProto (isTLS authenticated : bool) : string :=
  if isTLS && authenticated then "ESMTPSA"
  else if isTLS then "ESMTPS"
  else if authenticated then "ESMTPA" else "ESMTP".
Definition or_unknown (s : string) : string := if decide (s = "") then "unknown" else s.

Definition buildReceivedHeader (i : ReceivedInfo) (date : string) : string :=
  let tab := String HT "" in
  let lines :=
    ["Received: from " +:+ or_unknown (i_Helo i) +:+ " (" +:+ or_unknown (i_ClientHostname i)
       +:+ " [" +:+ i_ClientIP i +:+ "])";
     tab +:+ "by " +:+ i_Hostname i +:+ " with " +:+ i_Proto i +:+ " id " +:+ i_MsgID i]
    ++ (if decide (i_TLSComment i = "") then [] else [tab +:+ i_TLSComment i])
    ++ (if decide (i_ForRcpt i = "") then [] else [tab +:+ "for <" +:+ i_ForRcpt i +:+ ">"]) in
  join crlf lines +:+ ";" +:+ crlf +:+ tab +:+ date +:+ crlf.

Definition buildForwardReceivedHeader (host original msgid date : string) : string :=
  "Received: by " +:+ host +:+ " (forwarding for <" +:+ original +:+ ">)" +:+ crlf +:+ String HT ""
  +:+ "id " +:+ msgid +:+ ";" +:+ crlf +:+ String HT "" +:+ date +:+ crlf
  +:+ "X-Original-To: " +:+ original +:+ crlf.

Definition newMsgID (entropy : option string) : option string := hex_EncodeToString <$> entropy.

(** ** Helpers of session.go *)
Definition sessionIsLocalhost (ip : string) : bool :=
  bool_decide (ip = "127.0.0.1" ∨ ip = "::1")
  || ((4 <? Z.of_nat (String.length ip)) && bool_decide (stake 4 ip = "127."))
  || bool_decide (ip = "localhost").

Section Session.
Context `{Scores, UnicodeCase, !SmtpWorld}.
Variable b : Backend.

(** [extractDomain]; the empty string when there is none. *)
Definition extractDomain (email : string) : string :=
  match cut_last "@" (trim_angle email) with
  | Some (_, d) => if decide (d = "") then "" else ToLower d
  | None => ""
  end.
Definition norm_addr (a : string) : string := ToLower (trim_angle a).

(** ** AUTH *)
Definition AuthMechanisms (s : Session) : list string :=
  if negb (bool_decide (is_Some (tls s))) && negb (sessionIsLocalhost (clientIP s)) then []
  else if smDelivery b then ["PLAIN"] else [].

(** The callback of the PLAIN server. *)
Definition Auth (mech username password : string) (s : st) : reply * st :=
  if decide (mech ≠ "PLAIN") then (RLib "ErrAuthUnknownMechanism", s)
  else if negb (smDelivery b) then (RLib "ErrAuthUnsupported", s)
  else
    match w_Login (log s) username password (clientIP (ses s)) with
    | Err e =>
        let s := emit (EvLogin username (clientIP (ses s)) None) s in
        (match e with
         | ResourceExhausted => RErr 421 "Too many failed authentication attempts, try again later"
         | Unauthenticated => RErr 535 "Authentication credentials invalid"
         | OtherStatus => RErr 454 "Temporary authentication failure"
         end, s)
    | Ok r =>
        let s := emit (EvLogin username (clientIP (ses s)) (Some (l_Mailbox r))) s in
        (ROk, set_ses (λ x, mkSession (clientIP x) (clientHostname x) (helo x) (tls x) (from x)
               (mailFromSeen x) (recipients x) (remoteRecipients x) (l_Mailbox r) (Some r)
               (deferredInvalidRecipient x)) s)
    end.

(** ** MAIL *)
Definition send_rate (x : Session) : Z :=
  match loginResult x with
  | Some r => if 0 <? l_MaxSends r then l_MaxSends r else maxSendsPerHour b
  | None => maxSendsPerHour b
  end.
(** Whether the sender may send now; the limiter is asked only when it applies. *)
Definition rate_check (s : st) : bool * st :=
  let x := ses s in
  if bool_decide (authUser x ≠ "") && senderRateLimiter b && (0 <? send_rate x)
  then (w_sender_allow (log s) (authUser x) (send_rate x), emit (EvAllow (authUser x) (send_rate x)) s)
  else (true, s).

Definition sender_authorized (x : Session) (f : string) : bool :=
  bool_decide (authUser x = "") || bool_decide (f = "") || bool_decide (norm_addr f = ToLower (authUser x)).

Definition set_from (f : string) (x : Session) : Session :=
  mkSession (clientIP x) (clientHostname x) (helo x) (tls x) f true (recipients x) (remoteRecipients x)
    (authUser x) (loginResult x) (deferredInvalidRecipient x).

Definition Mail (f : string) (s : st) : reply * st :=
  let '(ok, s) := rate_check s in
  if negb ok then (RErr 452 "Too many messages, try again later", s)
  else if negb (sender_authorized (ses s) f)
  then (RErr 553 "Sender address not authorized for this account", s)
  else (ROk, set_ses (set_from f) s).

(** ** RCPT *)
Definition add_local (to : string) (x : Session) : Session :=
  mkSession (clientIP x) (clientHostname x) (helo x) (tls x) (from x) (mailFromSeen x) (recipients x ++ [to])
    (remoteRecipients x) (authUser x) (loginResult x) (deferredInvalidRecipient x).
Definition add_remote (to : string) (x : Session) : Session :=
  mkSession (clientIP x) (clientHostname x) (helo x) (tls x) (from x) (mailFromSeen x) (recipients x)
    (remoteRecipients x ++ [to]) (authUser x) (loginResult x) (deferredInvalidRecipient x).
Definition set_deferred (to : string) (x : Session) : Session :=
  mkSession (clientIP x) (clientHostname x) (helo x) (tls x) (from x) (mailFromSeen x) (recipients x)
    (remoteRecipients x) (authUser x) (loginResult x) to.

Definition has_recipient (x : Session) : bool :=
  (0 <? Z.of_nat (length (recipients x) + length (remoteRecipients x)))
  || bool_decide (deferredInvalidRecipient x ≠ "").

Definition validate (addr : string) (s : st) : option ValidateRecipientResult * st :=
  let r := w_Validate (log s) addr (clientIP (ses s)) in
  (r, emit (EvValidate addr (clientIP (ses s)) r) s).

Definition RelayDenied : string := "relay_denied".
(** [ReportPeer] drops a report without an address. *)
Definition ReportPeer (signal : string) (s : st) : st :=
  if decide (clientIP (ses s) = "") then s else emit (EvReport (clientIP (ses s)) signal) s.

Definition Rcpt (to : string) (s : st) : reply * st :=
  if has_recipient (ses s) then (RErr 452 "One recipient at a time", s)
  else if decide (extractDomain to = "") then (RErr 550 "Invalid address format", s)
  else if negb (smDelivery b) then (ROk, set_ses (add_local to) s)
  else
    let '(vr, s) := validate to s in
    match vr with
    | None => (RErr 451 "Temporary lookup failure", s)
    | Some vr =>
        if negb (DomainIsLocal vr) then
          if decide (authUser (ses s) = "") then (RErr 550 "Relay denied", ReportPeer RelayDenied s)
          else (ROk, set_ses (add_remote to) s)
        else if negb (UserExists vr) then
          if DeferRejection vr then (ROk, set_ses (set_deferred to) s)
          else (RErr 550 "User unknown", s)
        else (ROk, set_ses (add_local to) s)
    end.

(** ** DATA *)

(** The spam check: what was read into the buffer, and the verdict or a refusal. *)
Definition spam_options (x : Session) : CheckOptions :=
  mkOpts (from x) (recipients x) (clientIP x) (helo x) (hostname b) (authUser x).

Definition spam_stage (r : input) (x : Session) : result (option CheckResult) reply * string :=
  match spamChecker b with
  | Some check =>
      if IsEnabled (spamConfig_Enabled b) (spamConfig_Checkers b) then
        let '(res, tmp) := check r (spam_options x) in
        (match res with
         | None =>
             match GetFailMode (spamConfig_FailMode b) with
             | FailReject => Err (RErr 550 "Spam check failed")
             | FailTempFail => Err (RErr 451 "Temporary spam check failure, try again later")
             | FailOpen => Ok None
             end
         | Some c =>
             if ShouldReject c (RejectThreshold b) then Err (RErr 550 "Message rejected")
             else if s_lt s_zero (TempFailThreshold b) && ShouldTempFail c (TempFailThreshold b)
                  then Err (RErr 451 "Message deferred, please try again later")
             else Ok (Some c)
         end, tmp)
      else (if in_err r then Err (RErr 451 "Error reading message") else Ok None, in_data r)
  | None => (if in_err r then Err (RErr 451 "Error reading message") else Ok None, in_data r)
  end.

(** A recipient accepted at RCPT only to be refused now. *)
Definition refuse_deferred (tmp : string) (c : option CheckResult) (s : st) : reply * st :=
  let x := ses s in
  let rejected := match c with Some c => ShouldReject c (RejectThreshold b) | None => false end in
  let s := if spamtrapLearner b && negb rejected && w_trap_allow (log s) (clientIP x)
           then emit (EvLearn (deferredInvalidRecipient x) tmp) s else s in
  (RErr 550 "User unknown", s).

Definition deliver (rcpt : string) (forwarded : bool) (msgid : string) (c : option CheckResult)
    (body : string) (s : st) : deliver_result * st :=
  let r := w_Deliver (log s) (from (ses s)) rcpt forwarded msgid body c in
  (r, emit (EvDeliver (from (ses s)) rcpt forwarded msgid body r) s).
Definition enqueue (rcpts : list string) (msgid body : string) (s : st) : bool * st :=
  let ok := w_Enqueue (log s) (from (ses s)) rcpts msgid body in
  (ok, emit (EvEnqueue (from (ses s)) rcpts msgid body ok) s).

(** [followRedirect]: one target after the other; [false] is an error. *)
Fixpoint follow_targets (targets : list string) (msgid fwdHeaders authResults tmp : string)
    (c : option CheckResult) (s : st) : bool * st :=
  match targets with
  | [] => (true, s)
  | target :: targets =>
      let '(vr, s) := validate target s in
      match vr with
      | None => (false, s)
      | Some vr =>
          if negb (DomainIsLocal vr) then
            let '(ok, s) := enqueue [target] msgid (messageBody fwdHeaders tmp (hostname b)) s in
            if ok then follow_targets targets msgid fwdHeaders authResults tmp c s else (false, s)
          else
            let '(r, s) := deliver target true msgid c
                             (messageBody (fwdHeaders +:+ authResults) tmp (hostname b)) s in
            match r with
            | Delivered _ => follow_targets targets msgid fwdHeaders authResults tmp c
                               (emit (EvNotify target "INBOX") s)
            | Redirected _ | DeliverFailed => (false, s)
            end
      end
  end.
Definition followRedirect (addrs : list string) (original msgid received authResults tmp : string)
    (c : option CheckResult) (s : st) : bool * st :=
  match addrs with
  | [] => (false, s)
  | _ => follow_targets addrs msgid
           (buildForwardReceivedHeader (hostname b) original msgid (w_date (log s)) +:+ received)
           authResults tmp c s
  end.

Definition checkFromAlignment (tmp : string) (x : Session) : reply :=
  match mail_From tmp with
  | None => RErr 550 "Message headers could not be parsed"
  | Some h =>
      if decide (h = "") then RErr 550 "Message must contain a From header"
      else match mail_ParseAddressList h with
           | None => RErr 550 "From header address is invalid"
           | Some [] => RPanic                    (** [err.Error()] on a nil error *)
           | Some [a] =>
               if decide (ToLower a ≠ norm_addr (from x))
               then RErr 550 "From header must match the authenticated sender address" else ROk
           | Some _ => RErr 550 "Message must have exactly one From address"
           end
  end.

(** Local delivery of the first recipient, with its forwards. *)
Definition local_stage (msgid received authResults spamHeaders tmp : string) (c : option CheckResult)
    (rcpt : string) (s : st) : reply * st :=
  let '(r, s) := deliver rcpt false msgid c
                   (messageBody (received +:+ authResults +:+ spamHeaders) tmp (hostname b)) s in
  match r with
  | Delivered folder =>
      let folder := if decide (folder = "") then "INBOX" else folder in
      (ROk, foldl (λ s r, emit (EvNotify r folder) s) s (recipients (ses s)))
  | Redirected addrs =>
      let '(ok, s) := followRedirect addrs rcpt msgid received authResults tmp c s in
      (if ok then ROk else RErr 451 "Delivery failed", s)
  | DeliverFailed => (RErr 451 "Delivery failed", s)
  end.

Definition remote_stage (msgid received tmp : string) (s : st) : reply * st :=
  let x := ses s in
  match remoteRecipients x with
  | [] => (ROk, s)
  | rcpts =>
      let aligned := if decide (authUser x ≠ "" ∧ from x ≠ "") then checkFromAlignment tmp x else ROk in
      if decide (aligned ≠ ROk) then (aligned, s)
      else if negb (smDelivery b) then (RErr 451 "Temporary queue failure, try again later", s)
      else
        let '(ok, s) := enqueue rcpts msgid (messageBody received tmp (hostname b)) s in
        (if ok then ROk else RErr 451 "Temporary queue failure, try again later", s)
  end.

Definition for_rcpt (x : Session) : string :=
  match recipients x, remoteRecipients x with
  | [r], [] => r
  | [], [r] => r
  | _, _ => ""
  end.

(** The headers put in front of every copy. *)
Definition received_header (msgid : string) (s : st) : string :=
  let x := ses s in
  buildReceivedHeader (mkInfo (helo x) (clientHostname x) (clientIP x) (hostname b)
    (receivedProto (bool_decide (is_Some (tls x))) (bool_decide (authUser x ≠ "")))
    (default "" (tls x)) msgid (for_rcpt x)) (w_date (log s)).
Definition auth_header (c : option CheckResult) : string :=
  match c with Some c => buildAuthResultsHeader (r_AuthResults c) | None => "" end.
Definition spam_header (c : option CheckResult) : string :=
  match c with Some c => if AddHeaders b then buildSpamHeaders (Headers c) else "" | None => "" end.

Definition accept_message (tmp : string) (c : option CheckResult) (s : st) : reply * st :=
  match newMsgID (w_rand (log s)) with
  | None => (RErr 451 "Temporary failure, try again later", s)
  | Some msgid =>
      let x := ses s in
      let received := received_header msgid s in
      let '(r, s) := match recipients x with
                     | [] => (ROk, s)
                     | rcpt :: _ => local_stage msgid received (auth_header c) (spam_header c) tmp c rcpt s
                     end in
      if decide (r ≠ ROk) then (r, s) else remote_stage msgid received tmp s
  end.

Definition Data (r : input) (s : st) : reply * st :=
  let x := ses s in
  if negb (mailFromSeen x) then (RErr 503 "Bad sequence of commands: MAIL FROM required", s)
  else if negb (has_recipient x) then (RErr 503 "Bad sequence of commands: RCPT TO required", s)
  else if bool_decide (recipients x ≠ []) && negb (smDelivery b) then (RErr 451 "Delivery not configured", s)
  else if bool_decide (recipients x = []) && bool_decide (remoteRecipients x ≠ []) && negb (smDelivery b)
       then (RErr 451 "Remote delivery not available, try again later", s)
  else
    let '(verdict, tmp) := spam_stage r x in
    match verdict with
    | Err e => (e, s)
    | Ok c =>
        if decide (deferredInvalidRecipient x ≠ "") then refuse_deferred tmp c s
        else accept_message tmp c s
    end.

(** ** RSET, and the calls of the SMTP library *)
Definition reset_session (x : Session) : Session :=
  mkSession (clientIP x) (clientHostname x) (helo x) (tls x) "" false [] [] (authUser x) (loginResult x) "".
Definition Reset (s : st) : st := set_ses reset_session s.

Inductive call :=
| CAuth (mech user pass : string)
| CMail (f : string)
| CRcpt (to : string)
| CData (r : input)
| CReset.

Definition step (c : call) (s : st) : reply * st :=
  match c with
  | CAuth m u p => Auth m u p s
  | CMail f => Mail f s
  | CRcpt to => Rcpt to s
  | CData r => Data r s
  | CReset => (ROk, Reset s)
  end.
Fixpoint run (cs : list call) (s : st) : st :=
  match cs with [] => s | c :: cs => run cs (step c s).2 end.
End Session.

(** [NewSession]: nothing has been said yet. *)
Definition NewSession (ip ptr : string) (secure : option string) : st :=
  mkSt (mkSession ip ptr "" secure "" false [] [] "" None "") [].

(** ** What a log must show *)
Section Policy.
Context `{UnicodeCase}.

Definition validated (l : list event) (addr : string) (P : ValidateRecipientResult → Prop) : Prop :=
  ∃ ip r, EvValidate addr ip (Some r) ∈ l ∧ P r.
Definition is_local (r : ValidateRecipientResult) : Prop := DomainIsLocal r = true.
Definition is_remote (r : ValidateRecipientResult) : Prop := DomainIsLocal r = false.
Definition is_user (r : ValidateRecipientResult) : Prop := DomainIsLocal r = true ∧ UserExists r = true.
Definition logged_in (l : list event) (u : string) : Prop := ∃ user ip, EvLogin user ip (Some u) ∈ l.
(** Delivery to a local user answered with a forward to [t]. *)
Definition forwarded_to (l : list event) (f msgid t : string) : Prop :=
  ∃ o body addrs, EvDeliver f o false msgid body (Redirected addrs) ∈ l ∧ t ∈ addrs.
Definition own_sender (u f : string) : Prop := f = "" ∨ norm_addr f = ToLower u.

(** What may have happened after [pre]; the sender is compared with the user only
    where [strict]. *)
Definition allowed (strict : Prop) (pre : list event) (e : event) : Prop :=
  match e with
  | EvDeliver _ rcpt false _ _ _ => validated pre rcpt is_user
  | EvDeliver f rcpt true msgid _ _ => validated pre rcpt is_local ∧ forwarded_to pre f msgid rcpt
  | EvEnqueue f rcpts msgid _ _ =>
      ∃ r, rcpts = [r] ∧ validated pre r is_remote ∧
        ((∃ u, u ≠ "" ∧ logged_in pre u ∧ (strict → own_sender u f)) ∨ forwarded_to pre f msgid r)
  | _ => True
  end.
Inductive lawful (strict : Prop) : list event → Prop :=
| lawful_nil : lawful strict []
| lawful_snoc l e : lawful strict l → allowed strict l e → lawful strict (l ++ [e]).

Lemma lawful_prefix strict l1 l2 : lawful strict (l1 ++ l2) → lawful strict l1.
Proof.
  induction l2 as [|e l2 IH] using rev_ind; intros Hl; [by rewrite app_nil_r in Hl|].
  apply IH. rewrite app_assoc in Hl. inversion Hl as [E|l e' Hl' _ E]; [by destruct (l1 ++ l2)|].
  by apply app_inj_tail in E as [-> _].
Qed.
Lemma lawful_event strict pre e post : lawful strict (pre ++ e :: post) → allowed strict pre e.
Proof.
  intros Hl. change (e :: post) with ([e] ++ post) in Hl. rewrite app_assoc in Hl.
  apply lawful_prefix in Hl. inversion Hl as [E|l e' _ Ha E]; [by destruct pre|].
  by apply app_inj_tail in E as [-> ->].
Qed.
Lemma validated_app l l' a P : validated l a P → validated (l ++ l') a P.
Proof. intros (ip & r & Hin & HP). exists ip, r. split; [|done]. apply elem_of_app. by left. Qed.
Lemma logged_in_app l l' u : logged_in l u → logged_in (l ++ l') u.
Proof. intros (x & ip & Hin). exists x, ip. apply elem_of_app. by left. Qed.
Lemma forwarded_to_app l l' f m t : forwarded_to l f m t → forwarded_to (l ++ l') f m t.
Proof. intros (o & bd & ad & Hin & Ht). exists o, bd, ad. split; [|done]. apply elem_of_app. by left. Qed.
End Policy.
#[export] Hint Resolve validated_app logged_in_app forwarded_to_app : mail.

(** ** Facts *)
Section Facts.
Context `{Scores, UnicodeCase, !SmtpWorld}.
Variable b : Backend.
Variable strict : Prop.
Notation lawful := (lawful strict).

(** [s'] is [s] after more calls to the outside, with the session untouched. *)
Definition grows (s s' : st) : Prop := ses s' = ses s ∧ ∃ l, log s' = log s ++ l.
Lemma grows_refl s : grows s s.
Proof. split; [done|]. exists []. by rewrite app_nil_r. Qed.
Lemma grows_trans s1 s2 s3 : grows s1 s2 → grows s2 s3 → grows s1 s3.
Proof.
  intros [E1 [l1 L1]] [E2 [l2 L2]]. split; [congruence|]. exists (l1 ++ l2). by rewrite L2, L1, app_assoc.
Qed.
Lemma grows_emit s s' e : grows s s' → grows s (emit e s').
Proof. intros [E [l L]]. split; [done|]. exists (l ++ [e]). simpl. by rewrite L, app_assoc. Qed.
Lemma grows_notify s rs f : grows s (foldl (λ s r, emit (EvNotify r f) s) s rs).
Proof. apply foldl_inv; [|apply grows_refl]. intros x s' _. apply grows_emit. Qed.
Hint Resolve grows_refl grows_emit grows_notify : mail.

Lemma follow_targets_grows ts msgid fh ar tmp c s : grows s (follow_targets b ts msgid fh ar tmp c s).2.
Proof.
  revert s. induction ts as [|t ts IH]; intros s; cbn [follow_targets]; [apply grows_refl|].
  unfold validate. set (s1 := emit _ s). assert (grows s s1) as H1' by apply grows_emit, grows_refl.
  destruct (w_Validate _ _ _) as [vr|]; [|done]. destruct (DomainIsLocal vr); cbn [negb].
  - unfold deliver. set (s2 := emit _ s1). assert (grows s s2) as H2' by by apply grows_emit.
    destruct (w_Deliver _ _ _ _ _ _ _); [|done..]. eapply grows_trans; [|apply IH]. by apply grows_emit.
  - unfold enqueue. set (s2 := emit _ s1). assert (grows s s2) as H2' by by apply grows_emit.
    destruct (w_Enqueue _ _ _ _ _); [|done]. eapply grows_trans; [exact H2'|apply IH].
Qed.
Lemma local_stage_grows msgid rc ar sh tmp c rcpt s : grows s (local_stage b msgid rc ar sh tmp c rcpt s).2.
Proof.
  unfold local_stage, deliver. set (s1 := emit _ s). assert (grows s s1) as H1' by apply grows_emit, grows_refl.
  destruct (w_Deliver _ _ _ _ _ _ _) as [f|ad|]; [| |done].
  - eapply grows_trans; [exact H1'|apply grows_notify].
  - unfold followRedirect. destruct ad as [|a ad]; [done|].
    pose proof (follow_targets_grows (a :: ad) msgid
      (buildForwardReceivedHeader (hostname b) rcpt msgid (w_date (log s1)) +:+ rc) ar tmp c s1) as Hf.
    destruct (follow_targets _ _ _ _ _ _ _ s1) as [ok s2]. eapply grows_trans; [exact H1'|exact Hf].
Qed.
Lemma remote_stage_grows msgid rc tmp s : grows s (remote_stage b msgid rc tmp s).2.
Proof.
  unfold remote_stage. destruct (remoteRecipients (ses s)); [apply grows_refl|].
  case_decide; [apply grows_refl|]. destruct (smDelivery b); [|apply grows_refl]. cbn [negb].
  unfold enqueue. apply grows_emit, grows_refl.
Qed.
Lemma has_recipient_false x : has_recipient x = false → recipients x = [] ∧ remoteRecipients x = [].
Proof.
  intros [Hl _]%orb_false_iff. apply Z.ltb_ge in Hl. split; apply nil_length_inv; lia.
Qed.
Lemma has_recipient_true x : has_recipient x = true → deferredInvalidRecipient x = "" →
  recipients x ≠ [] ∨ remoteRecipients x ≠ [].
Proof.
  intros [Hl|Hd]%orb_true_iff Hn; [|apply bool_decide_eq_true in Hd; done]. apply Z.ltb_lt in Hl.
  destruct (recipients x), (remoteRecipients x); simpl in Hl; [lia|by right|by left..].
Qed.

(** DATA is refused with nothing done, or reaches the last stage. *)
Lemma spam_stage_refuses r x e tmp : spam_stage b r x = (Err e, tmp) → e ≠ ROk.
Proof.
  unfold spam_stage. destruct (spamChecker b) as [ck|]; [|by destruct (in_err r); intros; simplify_eq].
  destruct (IsEnabled _ _); [|by destruct (in_err r); intros; simplify_eq].
  destruct (ck r _) as [[c|] t]; [|by destruct (GetFailMode _); intros; simplify_eq].
  destruct (ShouldReject _ _); [by intros; simplify_eq|]. by destruct (_ && _); intros; simplify_eq.
Qed.
Lemma Data_cases r s :
  (∃ rep, Data b r s = (rep, s) ∧ rep ≠ ROk) ∨
  ∃ c tmp, spam_stage b r (ses s) = (Ok c, tmp) ∧ mailFromSeen (ses s) = true ∧
    ((deferredInvalidRecipient (ses s) ≠ "" ∧ Data b r s = refuse_deferred b tmp c s) ∨
     (recipients (ses s) ≠ [] ∨ remoteRecipients (ses s) ≠ []) ∧ smDelivery b = true ∧
     Data b r s = accept_message b tmp c s).
Proof.
  unfold Data. set (x := ses s).
  destruct (mailFromSeen x); cbn [negb]; [|left; by eexists].
  destruct (has_recipient x) eqn:Eh; cbn [negb]; [|left; by eexists].
  destruct (bool_decide (recipients x ≠ []) && _) eqn:E1; [left; by eexists|].
  destruct (bool_decide (recipients x = []) && _ && _) eqn:E2; [left; by eexists|].
  destruct (spam_stage b r x) as [[c|e] tmp] eqn:Es; [|left; exists e; by eapply spam_stage_refuses in Es].
  right. exists c, tmp. split; [done|]. split; [done|]. case_decide as Hd; [by left|right].
  assert (recipients x ≠ [] ∨ remoteRecipients x ≠ []) as Hr.
  { apply has_recipient_true; [done|]. by destruct (decide (deferredInvalidRecipient x = "")). }
  split_and!; [done| |done]. destruct (smDelivery b); [done|exfalso].
  rewrite !andb_true_r in E1. rewrite !andb_true_r in E2. apply bool_decide_eq_false in E1.
  assert (recipients x = []) as E by (destruct (recipients x); [done|]; by destruct E1).
  rewrite bool_decide_true in E2 by done. apply bool_decide_eq_false in E2. destruct Hr; done.
Qed.

Lemma accept_grows tmp c s : grows s (accept_message b tmp c s).2.
Proof.
  unfold accept_message. destruct (newMsgID _) as [msgid|]; [|apply grows_refl]. cbn zeta.
  set (rc := received_header _ _ _). set (ar := auth_header c). set (sh := spam_header b c).
  destruct (recipients (ses s)) as [|rcpt rs] eqn:Er.
  - rewrite decide_False by auto. apply remote_stage_grows.
  - pose proof (local_stage_grows msgid rc ar sh tmp c rcpt s) as Hl.
    destruct (local_stage _ _ _ _ _ _ _ _ s) as [rep s1]. case_decide; [done|].
    eapply grows_trans; [exact Hl|apply remote_stage_grows].
Qed.
Lemma Data_grows r s : grows s (Data b r s).2.
Proof.
  destruct (Data_cases r s) as [(rep & -> & _)|(c & tmp & _ & _ & [[_ ->]|(_ & _ & ->)])].
  - apply grows_refl.
  - unfold refuse_deferred. cbn [snd]. destruct (_ && _ && _); [apply grows_emit|]; apply grows_refl.
  - apply accept_grows.
Qed.

Lemma Mail_cases f s :
  ∃ s1, grows s s1 ∧ (lawful (log s) → lawful (log s1)) ∧
    ((∃ rep, Mail b f s = (rep, s1)) ∨
     (Mail b f s = (ROk, set_ses (set_from f) s1) ∧ sender_authorized (ses s) f = true)).
Proof.
  unfold Mail. assert (grows s (rate_check b s).2 ∧ (lawful (log s) → lawful (log (rate_check b s).2))) as [Hg Hl].
  { unfold rate_check. destruct (_ && _ && _); split; [apply grows_emit, grows_refl| |apply grows_refl|done].
    by constructor. }
  destruct (rate_check b s) as [ok s1]. cbn [snd] in Hg, Hl. exists s1. split_and!; [done..|].
  destruct ok; cbn [negb]; [|left; eauto].
  destruct (sender_authorized (ses s1) f) eqn:E; cbn [negb]; [right|left; eauto].
  split; [done|]. destruct Hg as [Es _]. by rewrite <-Es.
Qed.

(** ** At most one recipient *)
Definition one_recipient (x : Session) : Prop :=
  (length (recipients x) + length (remoteRecipients x) ≤ 1)%nat.
Lemma step_one_recipient c s : one_recipient (ses s) → one_recipient (ses (step b c s).2).
Proof.
  intros Ho. destruct c as [m u p|f|to|r|]; cbn [step].
  - unfold Auth. case_decide; [done|]. destruct (smDelivery b); [|done]. cbn [negb].
    by destruct (w_Login _ _ _ _).
  - destruct (Mail_cases f s) as (s1 & [E _] & _ & [[rep ->]|[-> _]]);
      unfold one_recipient; simpl; by rewrite E.
  - unfold Rcpt. destruct (has_recipient (ses s)) eqn:Eh; [done|].
    apply has_recipient_false in Eh as [E1 E2].
    assert (one_recipient (add_local to (ses s)) ∧ one_recipient (add_remote to (ses s))
      ∧ one_recipient (set_deferred to (ses s))) as (Ha & Hr & Hd).
    { unfold one_recipient. simpl. rewrite E1, E2. simpl. lia. }
    case_decide; [done|]. destruct (smDelivery b); cbn [negb]; [|exact Ha]. unfold validate.
    destruct (w_Validate _ _ _) as [vr|]; [|exact Ho].
    destruct (DomainIsLocal vr), (UserExists vr), (DeferRejection vr); cbn [negb]; try done;
      (case_decide; [|exact Hr]); unfold ReportPeer; by case_decide.
  - destruct (Data_grows r s) as [-> _]. done.
  - unfold one_recipient. simpl. lia.
Qed.

(** ** Lawful logs *)
Lemma lawful_notify s rs f : lawful (log s) → lawful (log (foldl (λ s r, emit (EvNotify r f) s) s rs)).
Proof. intros Hl. apply (foldl_inv _ (λ s, lawful (log s))); [|done]. intros. by constructor. Qed.

Lemma validate_in addr ip r l : validated (l ++ [EvValidate addr ip (Some r)]) addr (λ r', r' = r).
Proof. exists ip, r. split; [|done]. apply elem_of_app. right. by left. Qed.
Lemma validated_impl l a (P Q : ValidateRecipientResult → Prop) :
  (∀ r, P r → Q r) → validated l a P → validated l a Q.
Proof. intros HPQ (ip & r & Hin & HP). exists ip, r. auto. Qed.

Lemma follow_targets_lawful ts msgid fh ar tmp c s :
  lawful (log s) → (∀ t, t ∈ ts → forwarded_to (log s) (from (ses s)) msgid t) →
  lawful (log (follow_targets b ts msgid fh ar tmp c s).2).
Proof.
  revert s. induction ts as [|t ts IH]; intros s Hl Hf; cbn [follow_targets]; [done|].
  unfold validate. set (ip := clientIP (ses s)). set (r := w_Validate _ _ _).
  assert (lawful (log s ++ [EvValidate t ip r])) as Hl1 by (by constructor).
  assert (∀ e x, ses x = ses s → log x = (log s ++ [EvValidate t ip r]) ++ e →
    ∀ t', t' ∈ ts → forwarded_to (log x) (from (ses x)) msgid t') as Hf'.
  { intros e x Ex Lx t' Ht'. rewrite Ex, Lx. do 2 apply forwarded_to_app. apply Hf. by right. }
  destruct r as [vr|] eqn:Er; [|done]. pose proof (validate_in t ip vr (log s)) as Hv.
  assert (forwarded_to (log s ++ [EvValidate t ip (Some vr)]) (from (ses s)) msgid t) as Hft.
  { apply forwarded_to_app, Hf. by left. }
  destruct (DomainIsLocal vr) eqn:Ed; cbn [negb].
  - unfold deliver. cbn [log emit ses]. set (res := w_Deliver _ _ _ _ _ _ _).
    set (body := messageBody _ _ _).
    assert (lawful ((log s ++ [EvValidate t ip (Some vr)]) ++ [EvDeliver (from (ses s)) t true msgid body res])) as Hl2.
    { constructor; [done|]. split; [|done]. eapply validated_impl; [|exact Hv]. by intros ? ->. }
    destruct res as [f| |]; [|done..]. apply IH.
    + cbn [log emit]. by constructor.
    + eapply Hf'; [done|]. cbn [log emit]. by rewrite <-app_assoc.
  - unfold enqueue. cbn [log emit ses]. set (ok := w_Enqueue _ _ _ _ _). set (body := messageBody _ _ _).
    assert (lawful ((log s ++ [EvValidate t ip (Some vr)]) ++ [EvEnqueue (from (ses s)) [t] msgid body ok])) as Hl2.
    { constructor; [done|]. exists t. split_and!; [done| |by right]. eapply validated_impl; [|exact Hv]. by intros ? ->. }
    destruct ok; [|done]. apply IH; [done|]. by eapply Hf'.
Qed.

Lemma local_stage_lawful msgid rc ar sh tmp c rcpt s :
  lawful (log s) → validated (log s) rcpt is_user →
  lawful (log (local_stage b msgid rc ar sh tmp c rcpt s).2).
Proof.
  intros Hl Hv. unfold local_stage, deliver. set (res := w_Deliver _ _ _ _ _ _ _). set (body := messageBody _ _ _).
  set (s1 := emit _ s). assert (lawful (log s1)) as Hl1 by (by constructor).
  destruct res as [f|ad|] eqn:Er; [by apply lawful_notify| |done].
  unfold followRedirect. destruct ad as [|a ad]; [done|].
  pose proof (follow_targets_lawful (a :: ad) msgid
    (buildForwardReceivedHeader (hostname b) rcpt msgid (w_date (log s1)) +:+ rc) ar tmp c s1 Hl1) as Hf.
  destruct (follow_targets _ _ _ _ _ _ _ s1) as [ok s2]. apply Hf.
  intros t Ht. exists rcpt, body, (a :: ad). split; [|done]. apply elem_of_app. right. by left.
Qed.

(** ** The state of a session *)
Record good (s : st) : Prop := {
  g_lawful : lawful (log s);
  g_local r : r ∈ recipients (ses s) → smDelivery b = true → validated (log s) r is_user;
  g_remote r : r ∈ remoteRecipients (ses s) → validated (log s) r is_remote ∧
    ∃ u, u ≠ "" ∧ logged_in (log s) u ∧ (strict → u = authUser (ses s));
  g_auth : authUser (ses s) ≠ "" → logged_in (log s) (authUser (ses s));
  g_sender : strict → authUser (ses s) ≠ "" → mailFromSeen (ses s) = true → own_sender (authUser (ses s)) (from (ses s));
  g_one : one_recipient (ses s);
}.
Lemma good_grows s s' : good s → grows s s' → lawful (log s') → good s'.
Proof.
  intros [? G1 G2 G3 G4 G5] [E [l L]] Hl. split; rewrite ?E; try done; rewrite L.
  - intros r Hr Hb. auto with mail.
  - intros r Hr. destruct (G2 r Hr) as (? & u & ? & ? & ?). split; [by auto with mail|]. exists u. auto with mail.
  - auto with mail.
Qed.

Lemma remote_stage_lawful msgid rc tmp s :
  good s → mailFromSeen (ses s) = true → lawful (log (remote_stage b msgid rc tmp s).2).
Proof.
  intros [Hl _ Hr Ha Hs Ho] Hm. unfold remote_stage. unfold one_recipient in Ho.
  destruct (remoteRecipients (ses s)) as [|r [|r' rs]]; [done| |simpl in Ho; lia].
  case_decide; [done|]. destruct (smDelivery b); cbn [negb]; [|done]. unfold enqueue. cbn [snd log emit].
  constructor; [done|]. destruct (Hr r) as (Hv & u & Hu & Hin & Hst); [by left|]. exists r. split_and!; [done..|].
  left. exists u. split_and!; [done..|]. intros HP. rewrite (Hst HP) in *. auto.
Qed.

Lemma Data_lawful r s : good s → lawful (log (Data b r s).2).
Proof.
  intros Hg. pose proof Hg as [Hl Hloc _ _ _ _].
  destruct (Data_cases r s) as [(rep & -> & _)|(c & tmp & _ & Hm & [[_ ->]|(_ & Hsm & ->)])]; [done| |].
  { unfold refuse_deferred. cbn [snd]. destruct (_ && _ && _); [|done]. by constructor. }
  unfold accept_message. destruct (newMsgID _) as [msgid|]; [|done]. cbn zeta.
  set (rc := received_header _ _ _). set (ar := auth_header c). set (sh := spam_header b c).
  destruct (recipients (ses s)) as [|rcpt rs] eqn:Er.
  - rewrite decide_False by auto. by apply remote_stage_lawful.
  - pose proof (local_stage_grows msgid rc ar sh tmp c rcpt s) as Hgr.
    pose proof (local_stage_lawful msgid rc ar sh tmp c rcpt s Hl) as Hls.
    destruct (local_stage _ _ _ _ _ _ _ _ s) as [rep s1]. cbn [snd] in *.
    assert (lawful (log s1)) as Hl1. { apply Hls, Hloc; [by left|done]. }
    case_decide; [done|]. apply remote_stage_lawful; [by eapply good_grows|].
    destruct Hgr as [-> _]. done.
Qed.

(** AUTH comes outside of a mail transaction, as RFC 4954 demands of servers. *)
Definition in_transaction (x : Session) : bool := mailFromSeen x || has_recipient x.
Definition call_fits (c : call) (s : st) : Prop :=
  match c with CAuth _ _ _ => in_transaction (ses s) = false | _ => True end.
Fixpoint calls_fit (cs : list call) (s : st) : Prop :=
  match cs with [] => True | c :: cs => call_fits c s ∧ calls_fit cs (step b c s).2 end.

Lemma Auth_good m u p s : good s → (strict → in_transaction (ses s) = false) → good (Auth b m u p s).2.
Proof.
  intros Hg Hfit. unfold Auth.
  case_decide; [done|]. destruct (smDelivery b) eqn:Eb; cbn [negb]; [|done].
  destruct (w_Login _ _ _ _) as [r|e].
  - destruct Hg as [Hl Hloc Hr _ _ Ho].
    split; cbn [snd ses log emit set_ses recipients remoteRecipients authUser mailFromSeen].
    + by constructor.
    + intros r' Hr' _. apply validated_app. by apply Hloc.
    + intros r' Hr'. destruct (Hr r' Hr') as (Hv & u' & Hu & Hin & _). split; [by apply validated_app|].
      exists u'. split_and!; [done|by apply logged_in_app|]. intros [_ Hn]%Hfit%orb_false_iff.
      apply has_recipient_false in Hn as [_ E2]. rewrite E2 in Hr'. by apply elem_of_nil in Hr'.
    + intros _. exists u, (clientIP (ses s)). apply elem_of_app. right. by left.
    + intros [Hm _]%Hfit%orb_false_iff. congruence.
    + exact Ho.
  - eapply good_grows; [exact Hg|apply grows_emit, grows_refl|]. by constructor; [apply Hg|].
Qed.

Lemma Mail_good f s : good s → good (Mail b f s).2.
Proof.
  intros Hg. destruct (Mail_cases f s) as (s1 & Hgr & Hl & Hc).
  assert (good s1) as Hg1 by (eapply good_grows; [done..|]; apply Hl, Hg).
  destruct Hc as [[rep ->]|[-> Ha]]; [done|]. destruct Hg1 as [G0 G1 G2 G3 G4 G5].
  split; try done. cbn [snd ses set_ses set_from authUser mailFromSeen from]. intros _ Hu _.
  destruct Hgr as [Es _]. rewrite Es in *. unfold sender_authorized in Ha.
  rewrite bool_decide_false in Ha by done. apply orb_true_iff in Ha as [Ha|Ha]; apply bool_decide_eq_true in Ha;
    [by left|by right].
Qed.

Lemma Rcpt_good to s : good s → good (Rcpt b to s).2.
Proof.
  intros Hg. pose proof (step_one_recipient (CRcpt to) s (g_one s Hg)) as Ho. cbn [step] in Ho.
  unfold Rcpt in *. destruct (has_recipient (ses s)) eqn:Eh; [done|].
  apply has_recipient_false in Eh as [E1 E2]. destruct (decide (extractDomain to = "")); [done|].
  destruct (smDelivery b) eqn:Eb; cbn [negb] in *.
  2: { destruct Hg as [G0 G1 G2 G3 G4 G5]. split; try done. by rewrite Eb. }
  unfold validate in *. set (r := w_Validate _ _ _) in *. set (s1 := emit _ s) in *.
  assert (good s1) as Hg1.
  { eapply good_grows; [exact Hg|apply grows_emit, grows_refl|]. by constructor; [apply Hg|]. }
  destruct r as [vr|] eqn:Er; [|done].
  pose proof (validate_in to (clientIP (ses s)) vr (log s)) as Hv.
  destruct Hg1 as [G0 G1 G2 G3 G4 G5].
  destruct (DomainIsLocal vr) eqn:Ed; cbn [negb] in *.
  - destruct (UserExists vr) eqn:Eu; cbn [negb] in *.
    + split; try done. cbn [snd ses set_ses add_local recipients log]. intros r'.
      change (recipients (ses s1)) with (recipients (ses s)). rewrite E1. intros ->%list_elem_of_singleton _.
      eapply validated_impl; [|exact Hv]. by intros ? ->.
    + by destruct (DeferRejection vr).
  - destruct (decide (authUser (ses s1) = "")) as [|Hu].
    + unfold ReportPeer. case_decide; [done|].
      eapply good_grows; [by split|apply grows_emit, grows_refl|]. by constructor.
    + split; try done. cbn [snd ses set_ses add_remote remoteRecipients authUser log]. intros r'.
      change (remoteRecipients (ses s1)) with (remoteRecipients (ses s)). rewrite E2.
      intros ->%list_elem_of_singleton. split; [eapply validated_impl; [|exact Hv]; by intros ? ->|].
      exists (authUser (ses s1)). auto.
Qed.

Lemma step_good c s : good s → (strict → call_fits c s) → good (step b c s).2.
Proof.
  intros Hg Hc. destruct c as [m u p|f|to|r|]; cbn [step].
  - by apply Auth_good.
  - by apply Mail_good.
  - by apply Rcpt_good.
  - eapply good_grows; [done|apply Data_grows|by apply Data_lawful].
  - destruct Hg as [G0 G1 G2 G3 G4 G5]. split; try done; try (by intros r ?%elem_of_nil). unfold one_recipient. simpl. lia.
Qed.
Lemma run_good cs s : good s → (strict → calls_fit cs s) → good (run b cs s).
Proof.
  revert s. induction cs as [|c cs IH]; intros s Hg Hf; [done|].
  apply IH; [apply step_good; [done|]; by intros [Hc _]%Hf|by intros [_ Hc]%Hf].
Qed.
Lemma new_session_good ip ptr sec : good (NewSession ip ptr sec).
Proof.
  split; try done; try (by intros r ?%elem_of_nil); [constructor|]. unfold one_recipient. simpl. lia.
Qed.

(** ** The outcome of DATA *)
Definition hands_on (e : event) : bool :=
  match e with EvDeliver _ _ _ _ _ _ | EvEnqueue _ _ _ _ _ => true | _ => false end.
(** A forward target got its copy: [lbody] in its mailbox or [rbody] in the queue. *)
Definition got_copy (l : list event) (f msgid lbody rbody t : string) : Prop :=
  (∃ folder, EvDeliver f t true msgid lbody (Delivered folder) ∈ l) ∨ EvEnqueue f [t] msgid rbody true ∈ l.
Lemma got_copy_mono l l' f m lb rb t : l ⊆ l' → got_copy l f m lb rb t → got_copy l' f m lb rb t.
Proof. intros Hs [(fo & Hin)|Hin]; [left; eauto|right; auto]. Qed.

Lemma follow_targets_all ts msgid fh ar tmp c s s' :
  follow_targets b ts msgid fh ar tmp c s = (true, s') →
  ∃ l, log s' = log s ++ l ∧ ∀ t, t ∈ ts →
    got_copy l (from (ses s)) msgid (messageBody (fh +:+ ar) tmp (hostname b)) (messageBody fh tmp (hostname b)) t.
Proof.
  revert s. induction ts as [|t ts IH]; intros s; cbn [follow_targets].
  { intros [= <-]. exists []. rewrite app_nil_r. split; [done|]. by intros t ?%elem_of_nil. }
  unfold validate. set (e1 := EvValidate _ _ _). destruct (w_Validate _ _ _) as [vr|]; [|done].
  destruct (DomainIsLocal vr); cbn [negb].
  - unfold deliver. set (body := messageBody _ _ _). destruct (w_Deliver _ _ _ _ _ _ _) as [f| |] eqn:Ew; [|done..].
    intros Hrun. apply IH in Hrun as (l & Hl & Hall). cbn [log emit ses] in Hl, Hall.
    exists (e1 :: EvDeliver (from (ses s)) t true msgid body (Delivered f) :: EvNotify t "INBOX" :: l).
    split; [by rewrite Hl, <-!app_assoc|]. intros t' [->|Ht']%elem_of_cons.
    + left. exists f. right. by left.
    + eapply got_copy_mono; [|by apply Hall]. set_solver.
  - unfold enqueue. set (body := messageBody fh _ _). destruct (w_Enqueue _ _ _ _ _) eqn:Ew; [|done].
    intros Hrun. apply IH in Hrun as (l & Hl & Hall). cbn [log emit ses] in Hl, Hall.
    exists (e1 :: EvEnqueue (from (ses s)) [t] msgid body true :: l).
    split; [by rewrite Hl, <-!app_assoc|]. intros t' [->|Ht']%elem_of_cons.
    + right. right. by left.
    + eapply got_copy_mono; [|by apply Hall]. set_solver.
Qed.

(** The events [l] answer for the message [tmp] that was given the identifier
    [msgid]: behind the trace headers of this session and without our own
    Authentication-Results fields it is in the mailbox, or with every target of a
    forward, or in the queue. *)
Definition answered_for (tmp : string) (c : option CheckResult) (msgid : string) (s : st) (l : list event) : Prop :=
  let f := from (ses s) in
  let copy headers := messageBody headers tmp (hostname b) in
  let rc := received_header b msgid s in
  (∃ rcpt, recipients (ses s) = [rcpt] ∧
     let given res := EvDeliver f rcpt false msgid (copy (rc +:+ auth_header c +:+ spam_header b c)) res ∈ l in
     ((∃ folder, given (Delivered folder)) ∨
      ∃ addrs date, addrs ≠ [] ∧ given (Redirected addrs) ∧
        let fwd := buildForwardReceivedHeader (hostname b) rcpt msgid date +:+ rc in
        ∀ t, t ∈ addrs → got_copy l f msgid (copy (fwd +:+ auth_header c)) (copy fwd) t)) ∨
  ∃ rcpt, remoteRecipients (ses s) = [rcpt] ∧ EvEnqueue f [rcpt] msgid (copy rc) true ∈ l.
(** What DATA read from [r], in full, is answered for. *)
Definition responsible (r : input) (s : st) (l : list event) : Prop :=
  ∃ c msgid, spam_stage b r (ses s) = (Ok c, in_data r) ∧ newMsgID (w_rand (log s)) = Some msgid ∧
    answered_for (in_data r) c msgid s l.

Lemma notify_log s rs f : ∃ l, log (foldl (λ s r, emit (EvNotify r f) s) s rs) = log s ++ l.
Proof. destruct (grows_notify s rs f) as [_ Hl]. done. Qed.

Lemma local_stage_outcome msgid tmp c rcpt s rep s' :
  recipients (ses s) = [rcpt] →
  local_stage b msgid (received_header b msgid s) (auth_header c) (spam_header b c) tmp c rcpt s = (rep, s') →
  (rep = ROk ∧ ∃ l, log s' = log s ++ l ∧ answered_for tmp c msgid s l) ∨ rep = RErr 451 "Delivery failed".
Proof.
  intros Hr. unfold local_stage, deliver. set (body := messageBody _ _ _).
  destruct (w_Deliver _ _ _ _ _ _ _) as [f|ad|] eqn:Ew; cbn zeta.
  - intros [= <- <-]. left. split; [done|].
    destruct (notify_log (emit (EvDeliver (from (ses s)) rcpt false msgid body (Delivered f)) s)
      (recipients (ses s)) (if decide (f = "") then "INBOX" else f)) as [l Hl].
    exists (EvDeliver (from (ses s)) rcpt false msgid body (Delivered f) :: l).
    split; [cbn [ses emit] in *; rewrite Hl; cbn [log emit]; by rewrite <-app_assoc|].
    left. exists rcpt. split; [done|]. left. exists f. by left.
  - unfold followRedirect. destruct ad as [|a ad]; [intros [= <- <-]; by right|].
    destruct (follow_targets _ _ _ _ _ _ _ _) as [ok s2] eqn:Ef. destruct ok; intros [= <- <-]; [left|by right].
    apply follow_targets_all in Ef as (l & Hl & Hall). split; [done|].
    exists (EvDeliver (from (ses s)) rcpt false msgid body (Redirected (a :: ad)) :: l).
    split; [rewrite Hl; cbn [log emit]; by rewrite <-app_assoc|].
    left. exists rcpt. split; [done|]. right. eexists (a :: ad), _. split_and!; [done|by left|].
    cbv zeta. intros t Ht. eapply got_copy_mono; [|by apply Hall]. set_solver.
  - intros [= <- <-]. by right.
Qed.

Lemma remote_stage_outcome msgid tmp c s rcpt rep s' :
  remoteRecipients (ses s) = [rcpt] → remote_stage b msgid (received_header b msgid s) tmp s = (rep, s') →
  (rep = ROk ∧ ∃ l, log s' = log s ++ l ∧ answered_for tmp c msgid s l) ∨
  (∃ m, rep = RErr 451 m) ∨ (rep ≠ ROk ∧ s' = s).
Proof.
  intros Hr. unfold remote_stage. rewrite Hr. set (aligned := if decide (_ ∧ _) then _ else _).
  destruct (decide (aligned ≠ ROk)) as [Hn|Hn]; [intros [= <- <-]; by right; right|].
  destruct (smDelivery b); cbn [negb]; [|intros [= <- <-]; right; left; eauto].
  unfold enqueue. set (body := messageBody _ _ _). destruct (w_Enqueue _ _ _ _ _); intros [= <- <-]; [|eauto].
  left. split; [done|]. eexists. split; [done|]. right. exists rcpt. split; [done|]. by left.
Qed.

Definition refused (rep : reply) : Prop := rep = RPanic ∨ ∃ code m, rep = RErr code m ∧ 500 <= code.

Lemma accept_outcome tmp c s rep s' :
  one_recipient (ses s) → recipients (ses s) ≠ [] ∨ remoteRecipients (ses s) ≠ [] →
  accept_message b tmp c s = (rep, s') →
  (rep = ROk ∧ ∃ l msgid, log s' = log s ++ l ∧ newMsgID (w_rand (log s)) = Some msgid ∧ answered_for tmp c msgid s l) ∨
  (∃ m, rep = RErr 451 m) ∨ (rep ≠ ROk ∧ s' = s).
Proof.
  unfold one_recipient. intros Ho Hne. unfold accept_message.
  destruct (newMsgID _) as [msgid|] eqn:Em; [|intros [= <- <-]; right; left; eauto]. cbn zeta.
  destruct (recipients (ses s)) as [|rcpt [|r2 rs]] eqn:Er; [| |simpl in Ho; lia].
  - rewrite decide_False by auto. intros Hrun. destruct (remoteRecipients (ses s)) as [|rcpt [|r2 rs]] eqn:Erm;
      [by destruct Hne| |simpl in Ho; lia].
    eapply remote_stage_outcome in Hrun as [[-> (l & Hl & Ha)]|Hrun]; [|by right|done]. left. eauto 6.
  - destruct (local_stage _ _ _ _ _ _ _ _ s) as [rp s1] eqn:El.
    pose proof (local_stage_grows msgid (received_header b msgid s) (auth_header c) (spam_header b c) tmp c rcpt s) as Hg.
    rewrite El in Hg. destruct Hg as [Es _]. cbn [snd] in Es.
    apply local_stage_outcome in El as [(-> & l & Hl & Ha)|Hrp]; [| |exact Er]; [|subst rp].
    + rewrite decide_False by auto. unfold remote_stage. rewrite Es.
      destruct (remoteRecipients (ses s)); [|simpl in Ho; lia]. intros [= <- <-]. left. eauto 6.
    + rewrite decide_True by done. intros [= <- <-]. right; left; eauto.
Qed.

(** The checker, where there is one, reads all there is and answers only if the
    message ended properly. *)
Definition checker_reads : Prop := ∀ ck, spamChecker b = Some ck → reads_all ck.
(** The one way for a message cut short to get past the check. *)
Definition failed_open (r : input) (x : Session) : Prop :=
  GetFailMode (spamConfig_FailMode b) = FailOpen ∧
  ∃ ck, spamChecker b = Some ck ∧ (ck r (spam_options b x)).1 = None.
Lemma spam_stage_read r x c tmp :
  checker_reads → spam_stage b r x = (Ok c, tmp) → tmp = in_data r ∧ (in_err r = true → failed_open r x).
Proof.
  intros Hc. unfold spam_stage. destruct (spamChecker b) as [ck|] eqn:Ek.
  2: { destruct (in_err r); intros; simplify_eq. done. }
  destruct (IsEnabled _ _); [|by destruct (in_err r); intros; simplify_eq].
  destruct (Hc ck Ek r (spam_options b x)) as [Ht Hn]. destruct (ck r _) as [[c'|] t] eqn:Er; cbn [fst snd] in *.
  - specialize (Hn ltac:(done)). rewrite Hn.
    destruct (ShouldReject _ _); [by intros; simplify_eq|]. destruct (_ && _); intros; by simplify_eq.
  - destruct (GetFailMode _) eqn:Ef; intros; simplify_eq. split; [done|]. intros _. split; [done|].
    exists ck. by rewrite Er.
Qed.

Lemma Data_outcome r s rep s' :
  checker_reads → one_recipient (ses s) → Data b r s = (rep, s') →
  ∃ l, log s' = log s ++ l ∧
    (rep = ROk → responsible r s l ∧ (in_err r = true → failed_open r (ses s))) ∧
    (refused rep → Forall (λ e, hands_on e = false) l).
Proof.
  intros Hck Ho Hrun. set (fine := λ l, responsible r s l ∧ (in_err r = true → failed_open r (ses s))).
  assert (∀ s0, s0 = s → rep ≠ ROk → ∃ l, log s0 = log s ++ l ∧
    (rep = ROk → fine l) ∧ (refused rep → Forall (λ e, hands_on e = false) l)) as Hsame.
  { intros s0 -> Hn. exists []. by rewrite app_nil_r. }
  destruct (Data_cases r s) as [(rp & E & Hn)|(c & tmp & Hsp & _ & [[_ E]|(Hne & _ & E)])];
    rewrite Hrun in E.
  - injection E as -> ->. by apply Hsame.
  - unfold refuse_deferred in E. destruct (_ && _ && _); injection E as -> ->; [|by apply Hsame].
    eexists. split; [done|]. split; [done|]. intros _. by repeat constructor.
  - destruct (spam_stage_read _ _ _ _ Hck Hsp) as [-> Hin].
    symmetry in E. apply accept_outcome in E as [[-> (l & msgid & Hl & Hm & Hr)]|[[m ->]|[Hn ->]]]; [| | |done|done].
    + exists l. split_and!; [done| |by intros [?|(? & ? & ? & _)]]. intros _. split; [|done]. by exists c, msgid.
    + destruct (Data_grows r s) as [_ [l Hl]]. rewrite Hrun in Hl. exists l. split_and!; [done..|].
      intros [?|(? & ? & [= <- <-] & ?)]; [done|lia].
    + by apply Hsame.
Qed.

Lemma run_one_recipient cs s : one_recipient (ses s) → one_recipient (ses (run b cs s)).
Proof. revert s. induction cs as [|c cs IH]; intros s Hs; [done|]. by apply IH, step_one_recipient. Qed.

(** The name the client announces is read in four places and never recorded. *)
Lemma helo_never_set cs s : helo (ses s) = "" → helo (ses (run b cs s)) = "".
Proof.
  revert s. induction cs as [|c cs IH]; intros s Hs; [done|]. apply IH. destruct c as [m u p|f|to|r|]; cbn [step].
  - unfold Auth. case_decide; [done|]. destruct (smDelivery b); [|done]. cbn [negb]. by destruct (w_Login _ _ _ _).
  - by destruct (Mail_cases f s) as (s1 & [E _] & _ & [[rep ->]|[-> _]]); simpl; rewrite E.
  - unfold Rcpt. destruct (has_recipient _); [done|]. case_decide; [done|].
    destruct (smDelivery b); cbn [negb]; [|done]. unfold validate. destruct (w_Validate _ _ _) as [vr|]; [|done].
    destruct (DomainIsLocal vr), (UserExists vr), (DeferRejection vr); cbn [negb]; try done;
      (case_decide; [|done]); unfold ReportPeer; by case_decide.
  - destruct (Data_grows r s) as [-> _]. done.
  - done.
Qed.
End Facts.

Section Guarantees.
Context `{Scores, UnicodeCase, !SmtpWorld}.
Variable b : Backend.

(** C9: smtpd is not an open relay: whatever the client sends, in whichever order,
    and the other services answer, a message is queued only for one address that
    was confirmed as remote, and only after some user logged in on the connection
    or because delivery to a local user was answered with a forward to it; it is
    delivered locally only to an address that was confirmed as an existing user, or
    as a local target of such a forward. Where no AUTH comes inside a mail
    transaction, the sender of a message queued for a user is that user's own
    address or empty (the null sender is open to every user). *)
Theorem not_an_open_relay ip ptr sec cs :
  let s0 := NewSession ip ptr sec in
  (∀ pre post f rcpts msgid body ok,
     log (run b cs s0) = pre ++ EvEnqueue f rcpts msgid body ok :: post →
     ∃ r, rcpts = [r] ∧ validated pre r is_remote ∧
       ((∃ u, u ≠ "" ∧ logged_in pre u ∧ (calls_fit b cs s0 → own_sender u f)) ∨ forwarded_to pre f msgid r)) ∧
  (∀ pre post f rcpt fwd msgid body res,
     log (run b cs s0) = pre ++ EvDeliver f rcpt fwd msgid body res :: post →
     if fwd : bool then validated pre rcpt is_local ∧ forwarded_to pre f msgid rcpt
     else validated pre rcpt is_user).
Proof.
  intros s0. pose proof (run_good b (calls_fit b cs s0) cs s0 (new_session_good _ _ ip ptr sec) ltac:(done)) as [Hl _ _ _ _ _].
  split.
  - intros pre post f rcpts msgid body ok E. rewrite E in Hl. by apply lawful_event in Hl.
  - intros pre post f rcpt fwd msgid body res E. rewrite E in Hl. apply lawful_event in Hl. by destruct fwd.
Qed.

(** C40: The answer to DATA is honest: after [250] the whole of what was read of the
    message, behind this session's trace headers and with our own
    Authentication-Results fields taken out, is in the recipient's mailbox, or with
    every target of a forward, or in the outbound queue; that was the whole message
    unless reading it failed, the spam check therefore failed and the configuration
    says to let such mail pass ([fail_open_delivers_truncated]); after a permanent
    refusal nothing was delivered or queued. The spam checker, where one is
    configured, reads its input to the end, as rspamd's does and several together
    do. *)
Theorem data_answer_honest ip ptr sec cs r rep s' :
  checker_reads b →
  let s := run b cs (NewSession ip ptr sec) in
  Data b r s = (rep, s') →
  ∃ l, log s' = log s ++ l ∧
    (rep = ROk → responsible b r s l ∧ (in_err r = true → failed_open b r (ses s))) ∧
    (refused rep → Forall (λ e, hands_on e = false) l).
Proof.
  intros Hck s. apply Data_outcome; [done|]. apply (run_one_recipient b True). unfold one_recipient. simpl. lia.
Qed.
End Guarantees.

(** ** Concrete sessions *)
Module SmtpDemo.
#[export] Instance demo_case : UnicodeCase :=
  {| unicode_upper := id; unicode_lower := id; unicode_fold := λ s t, bool_decide (s = t) |}.
#[export] Instance int_scores : Scores := {|
  score := Z; s_zero := 0; s_le := Z.leb; s_lt := Z.ltb; s_add := Z.add; s_avg := λ t n, t / Z.of_nat n;
  s_nan := λ _, false; s_inf := λ _, false; score_ninths := λ a c, a * 9 / c; fmt_f1 := fmt_d; fmt_f2 := fmt_d |}.

(** Users of example.org exist; [list@example.org] is forwarded. A From header is
    the text after the first line's colon, and [;] ends an empty group. *)
Definition demo_validate (addr : string) : option ValidateRecipientResult :=
  Some (mkVR (HasSuffix addr "@example.org") true false).
Definition demo_deliver (rcpt : string) (forwarded : bool) : deliver_result :=
  if decide (rcpt = "list@example.org") then Redirected ["bob@example.org"; "eve@example.net"]
  else Delivered "INBOX".
#[export] Instance demo_world : SmtpWorld := {|
  w_Login := λ _ user pass _, if decide (pass = "secret") then Ok (mkLogin "t" user 0) else Err Unauthenticated;
  w_Validate := λ _ addr _, demo_validate addr;
  w_Deliver := λ _ _ rcpt fwd _ _ _, demo_deliver rcpt fwd;
  w_Enqueue := λ _ _ _ _ _, true;
  w_sender_allow := λ _ _ _, true;
  w_trap_allow := λ _ _, true;
  w_rand := λ _, Some "0123456789abcdef";
  w_date := λ _, "Mon, 02 Jan 2006 15:04:05 +0000";
  mail_From := λ m, match cut ":" (default "" (head (raw_lines m))) with
                    | Some (_, v) => Some (TrimSpace v) | None => None end;
  mail_ParseAddressList := λ h, if has_byte ";" h then Some [] else Some [h];
|}.

Definition no_spam : Backend := mkBackend "mx.example.org" true None false [] "" 0 0 false false false 0.
(** A checker in fail-open mode; rspamd itself always answers. *)
Definition clean : RspamdResult := mkRspamd 0 15 "no action" false ∅ None.
Definition open_check : Backend :=
  mkBackend "mx.example.org" true (Some (rspamd_Check (λ _ _, Some clean))) true [None] "open" 0 0 false false false 0.

Definition message (f : string) : string := "From: " +:+ f +:+ crlf +:+ crlf +:+ "text" +:+ crlf.
Definition fresh : st := NewSession "192.0.2.1" "" (Some "(TLS)").
Definition submission : list call :=
  [CAuth "PLAIN" "ann@example.org" "secret"; CMail "ann@example.org"; CRcpt "eve@example.net"].
Definition sent_body (e : event) : option string :=
  match e with EvDeliver _ _ _ _ body _ | EvEnqueue _ _ _ body _ => Some body | _ => None end.
Definition sender_of (e : event) : option string :=
  match e with EvDeliver f _ _ _ _ _ | EvEnqueue f _ _ _ _ => Some f | _ => None end.
End SmtpDemo.

Section OnSmtpDemo.
Import SmtpDemo.

(** A logged-in user submits a message for another domain. *)
Definition submitted : st := run no_spam (submission ++ [CData (mkInput (message "ann@example.org") false)]) fresh.
Lemma not_an_open_relay_witness :
  (∃ r, ["eve@example.net"] = [r] ∧ validated (take 2 (log submitted)) r is_remote) ∧
  omap sender_of (log submitted) = ["ann@example.org"].
Proof.
  split; [|vm_compute; reflexivity].
  destruct (not_an_open_relay no_spam "192.0.2.1" "" (Some "(TLS)")
    (submission ++ [CData (mkInput (message "ann@example.org") false)])) as [He _].
  destruct (He (take 2 (log submitted)) [] "ann@example.org" ["eve@example.net"]
    (hex_EncodeToString "0123456789abcdef") (default "" (head (omap sent_body (log submitted)))) true) as (r & Hr & Hv & _).
  { vm_compute. reflexivity. }
  exact (ex_intro _ r (conj Hr Hv)).
Defined.

(** Mail for a forwarded address is accepted once both targets have it. *)
Definition to_list : list call := [CMail "joe@example.com"; CRcpt "list@example.org"].
Lemma data_answer_honest_witness :
  ∃ l, log (Data no_spam (mkInput (message "joe@example.com") false) (run no_spam to_list fresh)).2
       = log (run no_spam to_list fresh) ++ l ∧
    (Data no_spam (mkInput (message "joe@example.com") false) (run no_spam to_list fresh)).1 = ROk ∧
    responsible no_spam (mkInput (message "joe@example.com") false) (run no_spam to_list fresh) l.
Proof.
  destruct (data_answer_honest no_spam "192.0.2.1" "" (Some "(TLS)") to_list (mkInput (message "joe@example.com") false)
    ROk (Data no_spam (mkInput (message "joe@example.com") false) (run no_spam to_list fresh)).2) as (l & Hl & Hr & _).
  { intros ck E. discriminate E. }
  { vm_compute. reflexivity. }
  exists l. split; [exact Hl|]. split; [vm_compute; reflexivity|]. exact (proj1 (Hr eq_refl)).
Defined.

(** When reading the message fails, the checker reports an error; in fail-open
    mode the part that was read is delivered and the client gets [250]. *)
Definition cut_short : st := run open_check [CMail "joe@example.com"; CRcpt "bob@example.org"] fresh.
Lemma fail_open_delivers_truncated :
  let r := mkInput "From: joe@example.com" true in
  (Data open_check r cut_short).1 = ROk ∧
  (λ body, HasSuffix body "From: joe@example.com") <$> omap sent_body (log (Data open_check r cut_short).2) = [true].
Proof. vm_compute. split; reflexivity. Qed.

(** A From header that is an empty group parses into no address and no error. *)
Lemma empty_group_panics :
  (Data no_spam (mkInput (message "undisclosed:;") false) (run no_spam submission fresh)).1 = RPanic.
Proof. vm_compute. reflexivity. Qed.

(** With the null sender the From header is not looked at. *)
Lemma null_sender_forges_from :
  let s := run no_spam [CAuth "PLAIN" "ann@example.org" "secret"; CMail ""; CRcpt "eve@example.net"] fresh in
  (Data no_spam (mkInput (message "ceo@example.org") false) s).1 = ROk.
Proof. vm_compute. reflexivity. Qed.

(** The sender is compared with the login at MAIL only: a login after it leaves
    another user's address in place, From header included. *)
Lemma login_after_mail_forges_sender :
  let s := run no_spam [CMail "ceo@example.org"; CAuth "PLAIN" "ann@example.org" "secret";
                        CRcpt "eve@example.net"; CData (mkInput (message "ceo@example.org") false)] fresh in
  omap sender_of (log s) = ["ceo@example.org"] ∧ authUser (ses s) = "ann@example.org".
Proof. vm_compute. split; reflexivity. Qed.
End OnSmtpDemo.
