(* ===== verification/SessionTable.v ===== *)
(** * The session table of session-manager

    Model of the part of [src/internal/session-manager/manager/manager.go] that
    keeps sessions: Login with its reuse and race handling, Logout, token
    lookup, the idle reaper, the process monitor and Close. A session entry is
    shared by the two maps and by goroutines, so entries live in a heap and the
    maps hold their addresses. Each critical section under the manager's lock
    is one function; Login has two, and other goroutines run in between.
    Starting processes and authenticating are inputs of the steps. *)
From S2P Require Import Prelude.
From Stdlib Require Import ZArith Lia.
Open Scope string_scope.
Open Scope list_scope.
Open Scope Z_scope.

Notation addr := nat.

(** [sessionEntry]: [e_timer] says whether [idleTimer] is set, [e_alive] whether
    the process exists; [e_killed] marks entries the manager has terminated. *)
Record sessionEntry := mkEntry {
  e_username : string;
  e_mailbox : string;
  e_ref : Z;
  e_timer : bool;
  e_waited : bool;
  e_alive : bool;
  e_killed : bool;
}.

(** [m_reaping] are the timers that have fired and whose function waits for the
    lock. [m_issued] and [m_revoked] only record history: which user a token was
    given to, and which tokens have been logged out. *)
Record Manager := mkManager {
  byToken : gmap string addr;
  byUser : gmap string addr;
  m_heap : gmap addr sessionEntry;
  m_reaping : list addr;
  m_issued : gmap string string;
  m_revoked : gset string;
}.
Definition New : Manager := mkManager ∅ ∅ ∅ [] ∅ ∅.

(** ** Entries *)
Definition set_ref (n : Z) (e : sessionEntry) : sessionEntry :=
  mkEntry (e_username e) (e_mailbox e) n (e_timer e) (e_waited e) (e_alive e) (e_killed e).
Definition set_timer (t : bool) (e : sessionEntry) : sessionEntry :=
  mkEntry (e_username e) (e_mailbox e) (e_ref e) t (e_waited e) (e_alive e) (e_killed e).
Definition set_dead (e : sessionEntry) : sessionEntry :=
  mkEntry (e_username e) (e_mailbox e) (e_ref e) (e_timer e) (e_waited e) false (e_killed e).
Definition set_waited (e : sessionEntry) : sessionEntry :=
  mkEntry (e_username e) (e_mailbox e) (e_ref e) (e_timer e) true (e_alive e) (e_killed e).
Definition set_killed (e : sessionEntry) : sessionEntry :=
  mkEntry (e_username e) (e_mailbox e) (e_ref e) (e_timer e) true false true.

Definition on_entry (i : addr) (f : sessionEntry → sessionEntry) (m : Manager) : Manager :=
  mkManager (byToken m) (byUser m) (alter f i (m_heap m)) (m_reaping m) (m_issued m) (m_revoked m).
Definition set_byUser (u : gmap string addr) (m : Manager) : Manager :=
  mkManager (byToken m) u (m_heap m) (m_reaping m) (m_issued m) (m_revoked m).
Definition set_byToken (t : gmap string addr) (m : Manager) : Manager :=
  mkManager t (byUser m) (m_heap m) (m_reaping m) (m_issued m) (m_revoked m).
Definition set_reaping (l : list addr) (m : Manager) : Manager :=
  mkManager (byToken m) (byUser m) (m_heap m) l (m_issued m) (m_revoked m).

(** [killEntry]: close, terminate and wait for the process. *)
Definition killEntry (i : addr) (m : Manager) : Manager := on_entry i set_killed m.
(** The loop that removes every token of an entry. *)
Definition drop_tokens (i : addr) (m : Manager) : Manager :=
  set_byToken (filter (λ x, x.2 ≠ i) (byToken m)) m.
(** [idleTimer.Stop()]; a timer that has fired is not stopped by it. *)
Definition stop_timer (i : addr) (m : Manager) : Manager := on_entry i (set_timer false) m.

(** [generateTokenLocked]; [tok] is what the random source gives. *)
Definition generateTokenLocked (tok : string) (i : addr) (user : string) (m : Manager) : Manager :=
  mkManager (<[tok := i]> (byToken m)) (byUser m) (m_heap m) (m_reaping m)
    (<[tok := user]> (m_issued m)) (m_revoked m).

Definition isAliveLocked (e : sessionEntry) : bool := e_alive e.

Definition removeEntryLocked (i : addr) (m : Manager) : Manager :=
  match m_heap m !! i with
  | None => m
  | Some e => killEntry i (drop_tokens i (set_byUser (delete (e_username e) (byUser m)) (stop_timer i m)))
  end.

(** ** Login *)
Definition reuse (i : addr) (e : sessionEntry) (user tok : string) (m : Manager) : Manager :=
  generateTokenLocked tok i user (on_entry i (λ e, set_ref (e_ref e + 1) (set_timer false e)) m).

(** The first critical section: [true] when an existing session was reused. *)
Definition login_begin (user tok : string) (m : Manager) : bool * Manager :=
  match byUser m !! user with
  | Some i =>
      match m_heap m !! i with
      | Some e =>
          if isAliveLocked e then (true, reuse i e user tok m) else (false, removeEntryLocked i m)
      | None => (false, m)
      end
  | None => (false, m)
  end.

(** What [spawnSession] builds; the process may have died since. *)
Definition spawned (user mailbox : string) (alive : bool) : sessionEntry :=
  mkEntry user mailbox 1 false false alive false.

(** The second one, after a process was started for the new entry [i]. *)
Definition login_finish (user mailbox tok : string) (i : addr) (alive : bool) (m : Manager) : Manager :=
  let m := mkManager (byToken m) (byUser m) (<[i := spawned user mailbox alive]> (m_heap m))
             (m_reaping m) (m_issued m) (m_revoked m) in
  match byUser m !! user with
  | Some j =>
      match m_heap m !! j with
      | Some e => reuse j e user tok (killEntry i m)
      | None => m
      end
  | None => generateTokenLocked tok i user (set_byUser (<[user := i]> (byUser m)) m)
  end.

(** Login by one goroutine that is not interrupted: [auth] is the mailbox of a
    successful authentication, [spawn] whether a process was started. *)
Definition Login (auth : option string) (spawn : option bool) (user tok : string) (i : addr) (m : Manager)
    : option string * Manager :=
  match auth with
  | None => (None, m)
  | Some mailbox =>
      match login_begin user tok m with
      | (true, m) => (Some tok, m)
      | (false, m) =>
          match spawn with
          | None => (None, m)
          | Some alive => (Some tok, login_finish user mailbox tok i alive m)
          end
      end
  end.

(** ** The other operations *)
Definition Logout (tok : string) (m : Manager) : bool * Manager :=
  match byToken m !! tok with
  | None => (false, m)
  | Some i =>
      let m := mkManager (delete tok (byToken m)) (byUser m) (m_heap m) (m_reaping m) (m_issued m)
                 ({[tok]} ∪ m_revoked m) in
      let m := on_entry i (λ e, let n := e_ref e - 1 in set_ref n (if n <=? 0 then set_timer true e else e)) m in
      (true, m)
  end.

Definition SessionForToken (tok : string) (m : Manager) : option sessionEntry :=
  byToken m !! tok ≫= λ i, m_heap m !! i.

(** [reapSession], run by a timer that has fired. *)
Definition reapSession (i : addr) (m : Manager) : Manager :=
  match m_heap m !! i with
  | None => m
  | Some e =>
      if 0 <? e_ref e then m
      else killEntry i (drop_tokens i (set_byUser (delete (e_username e) (byUser m)) m))
  end.

(** [monitorProcess], once the process has exited. *)
Definition monitorProcess (i : addr) (m : Manager) : Manager :=
  match m_heap m !! i with
  | None => m
  | Some e =>
      let m := on_entry i set_waited m in
      if decide (byUser m !! e_username e = Some i)
      then drop_tokens i (set_byUser (delete (e_username e) (byUser m)) (stop_timer i m))
      else m
  end.

(** [Close] terminates the sessions it finds by user. *)
Definition Close (m : Manager) : Manager :=
  let m := foldl (λ m x, killEntry x.2 (stop_timer x.2 m)) m (map_to_list (byUser m)) in
  set_byUser ∅ (set_byToken ∅ m).

(** ** Steps of the running server *)
(** Login steps are those of a caller who has authenticated as [user]; tokens
    do not repeat, as thirty-two random bytes do not. *)
Inductive mstep : Manager → Manager → Prop :=
| step_login_begin user tok m :
    m_issued m !! tok = None → mstep m (login_begin user tok m).2
| step_login_finish user mailbox tok i alive m :
    m_issued m !! tok = None → m_heap m !! i = None → mstep m (login_finish user mailbox tok i alive m)
| step_logout tok m : mstep m (Logout tok m).2
| step_exit i m : mstep m (on_entry i set_dead m)
| step_monitor i e m : m_heap m !! i = Some e → e_alive e = false → mstep m (monitorProcess i m)
| step_fire i e m : m_heap m !! i = Some e → e_timer e = true → mstep m (set_reaping (i :: m_reaping m) m)
| step_reap i l m : m_reaping m ≡ₚ i :: l → mstep m (set_reaping l (reapSession i m))
| step_close m : mstep m (Close m).
Definition reachable (m : Manager) : Prop := rtc mstep New m.

(** ** The invariant *)
Definition tokens_of (i : addr) (m : Manager) : gmap string addr := filter (λ x, x.2 = i) (byToken m).

Record inv (m : Manager) : Prop := {
  i_tok t i : byToken m !! t = Some i →
    ∃ e, m_heap m !! i = Some e ∧ m_issued m !! t = Some (e_username e) ∧ e_killed e = false ∧ t ∉ m_revoked m;
  i_usr u i : byUser m !! u = Some i →
    ∃ e, m_heap m !! i = Some e ∧ e_username e = u ∧ e_killed e = false;
  i_cnt i e : m_heap m !! i = Some e → e_killed e = false → Z.of_nat (size (tokens_of i m)) <= e_ref e;
  i_rev t : t ∈ m_revoked m → is_Some (m_issued m !! t);
}.

Lemma tokens_of_none i m : (∀ t, byToken m !! t ≠ Some i) → size (tokens_of i m) = 0%nat.
Proof.
  intros Ht. unfold tokens_of. rewrite map_empty_filter_2; [by rewrite map_size_empty|].
  intros t j E. simpl. intros ->. by apply (Ht t).
Qed.

Lemma inv_New : inv New.
Proof. split; try done; intros *; by rewrite lookup_empty. Qed.

Lemma inv_on_entry i f m :
  (∀ e, e_username (f e) = e_username e ∧ e_killed (f e) = e_killed e ∧ e_ref e <= e_ref (f e)) →
  inv m → inv (on_entry i f m).
Proof.
  intros Hf [It Iu Ic Ir]. assert (∀ j e, m_heap m !! j = Some e →
    ∃ e', alter f i (m_heap m) !! j = Some e' ∧ e_username e' = e_username e ∧ e_killed e' = e_killed e) as Hh.
  { intros j e He. destruct (decide (i = j)) as [->|Hne].
    - exists (f e). rewrite lookup_alter_eq, He. split; [done|]. by destruct (Hf e) as (? & ? & _).
    - exists e. by rewrite lookup_alter_ne. }
  split; cbn [byToken byUser m_heap m_issued m_revoked on_entry].
  - intros t j Ht. destruct (It t j Ht) as (e & He & Hi & Hk & Hr). destruct (Hh j e He) as (e' & He' & Hu & Hk').
    exists e'. rewrite Hu, Hk'. done.
  - intros u j Hu. destruct (Iu u j Hu) as (e & He & Hn & Hk). destruct (Hh j e He) as (e' & He' & Hu' & Hk').
    exists e'. rewrite Hu', Hk'. done.
  - intros j e' He' Hk'. unfold tokens_of. cbn [byToken on_entry]. destruct (decide (i = j)) as [->|Hne].
    + rewrite lookup_alter_eq in He'. destruct (m_heap m !! j) as [e|] eqn:He; [|done]. simplify_eq/=.
      destruct (Hf e) as (_ & Hk & Hle). rewrite Hk in Hk'. specialize (Ic j e He Hk'). unfold tokens_of in Ic. lia.
    + rewrite lookup_alter_ne in He' by done. by apply Ic.
  - done.
Qed.

Lemma inv_delete_user u m : inv m → inv (set_byUser (delete u (byUser m)) m).
Proof.
  intros [It Iu Ic Ir]. split; try done. intros v i. cbn [byUser set_byUser m_heap].
  rewrite lookup_delete_Some. intros [_ Hv]. by apply Iu.
Qed.

Lemma drop_tokens_lookup i m t j : byToken (drop_tokens i m) !! t = Some j ↔ byToken m !! t = Some j ∧ j ≠ i.
Proof. cbn [byToken drop_tokens set_byToken]. by rewrite map_lookup_filter_Some. Qed.
Lemma inv_drop i m : inv m → inv (drop_tokens i m).
Proof.
  intros [It Iu Ic Ir]. split; try done.
  - intros t j [Ht _]%drop_tokens_lookup. by apply It.
  - intros j e He Hk. specialize (Ic j e He Hk). etrans; [|exact Ic]. apply inj_le, map_subseteq_size.
    apply map_filter_subseteq_mono, map_filter_subseteq.
Qed.

Lemma inv_kill i m :
  (∀ t, byToken m !! t ≠ Some i) → (∀ u, byUser m !! u ≠ Some i) → inv m → inv (killEntry i m).
Proof.
  intros Ht Hu [It Iu Ic Ir]. unfold killEntry. split; cbn [byToken byUser m_heap m_issued m_revoked on_entry].
  - intros t j Hj. rewrite lookup_alter_ne; [by apply It|]. intros ->. by apply (Ht t).
  - intros u j Hj. rewrite lookup_alter_ne; [by apply Iu|]. intros ->. by apply (Hu u).
  - intros j e He Hk. destruct (decide (i = j)) as [->|Hne].
    + rewrite lookup_alter_eq in He. destruct (m_heap m !! j); [|done]. by simplify_eq/=.
    + rewrite lookup_alter_ne in He by done. by apply Ic.
  - done.
Qed.

(** An entry is taken out of both maps and terminated. *)
Lemma inv_unlink i e m :
  m_heap m !! i = Some e → inv m →
  inv (killEntry i (drop_tokens i (set_byUser (delete (e_username e) (byUser m)) m))).
Proof.
  intros He Hi. apply inv_kill.
  - by intros t [_ Hn]%drop_tokens_lookup.
  - intros u. cbn [byUser drop_tokens set_byToken set_byUser]. rewrite lookup_delete_Some. intros [Hne Hu].
    destruct (i_usr m Hi u i Hu) as (e' & He' & Hn & _). congruence.
  - by apply inv_drop, inv_delete_user.
Qed.

Lemma inv_token tok i user e m :
  m_heap m !! i = Some e → e_username e = user → e_killed e = false → m_issued m !! tok = None →
  Z.of_nat (size (tokens_of i m)) + 1 <= e_ref e → inv m → inv (generateTokenLocked tok i user m).
Proof.
  intros He Hu Hk Hfresh Hcnt [It Iu Ic Ir].
  assert (byToken m !! tok = None) as Hnone.
  { destruct (byToken m !! tok) as [j|] eqn:E; [|done]. destruct (It tok j E) as (? & _ & ? & _). congruence. }
  split; cbn [byToken byUser m_heap m_issued m_revoked generateTokenLocked].
  - intros t j. destruct (decide (tok = t)) as [->|Hne].
    + rewrite !lookup_insert_eq. intros [= <-]. exists e. split_and!; [done|congruence|done|].
      intros [x Hx]%Ir. congruence.
    + rewrite !lookup_insert_ne by done. apply It.
  - done.
  - intros j e' He' Hk'. unfold tokens_of. cbn [byToken generateTokenLocked].
    destruct (decide (j = i)) as [->|Hne].
    + rewrite map_filter_insert_True by done. rewrite map_size_insert_None.
      * assert (e' = e) as -> by congruence. unfold tokens_of in Hcnt. lia.
      * apply map_lookup_filter_None. by left.
    + rewrite map_filter_insert_False by (simpl; congruence). rewrite delete_id by done. by apply Ic.
  - intros t Ht. destruct (decide (tok = t)) as [->|Hne]; [by rewrite lookup_insert_eq|].
    rewrite lookup_insert_ne by done. by apply Ir.
Qed.

Lemma inv_reuse i e user tok m :
  byUser m !! user = Some i → m_heap m !! i = Some e → m_issued m !! tok = None →
  inv m → inv (reuse i e user tok m).
Proof.
  intros Hu He Hf Hi. destruct (i_usr m Hi user i Hu) as (e' & He' & Hn & Hk).
  assert (e' = e) as -> by congruence. pose proof (i_cnt m Hi i e He Hk) as Hc. unfold reuse.
  eapply (inv_token tok i user (set_ref (e_ref e + 1) (set_timer false e))); try done.
  - cbn [m_heap on_entry]. by rewrite lookup_alter_eq, He.
  - unfold tokens_of in *. simpl. lia.
  - apply inv_on_entry; [|done]. intros x. simpl. split_and!; [done..|lia].
Qed.

Lemma inv_stop i m : inv m → inv (stop_timer i m).
Proof. apply inv_on_entry. intros e. simpl. split_and!; [done..|lia]. Qed.
Lemma inv_remove i m : inv m → inv (removeEntryLocked i m).
Proof.
  intros Hi. unfold removeEntryLocked. destruct (m_heap m !! i) as [e|] eqn:He; [|done].
  apply (inv_unlink i (set_timer false e) (stop_timer i m)); [|by apply inv_stop].
  cbn [m_heap stop_timer on_entry]. by rewrite lookup_alter_eq, He.
Qed.

Lemma inv_login_begin user tok m : m_issued m !! tok = None → inv m → inv (login_begin user tok m).2.
Proof.
  intros Hf Hi. unfold login_begin. destruct (byUser m !! user) as [i|] eqn:Hu; [|done].
  destruct (m_heap m !! i) as [e|] eqn:He; [|done]. destruct (isAliveLocked e); cbn [snd].
  - by apply inv_reuse.
  - by apply inv_remove.
Qed.

(** A new entry that nothing refers to. *)
Lemma inv_alloc i e m :
  m_heap m !! i = None → 0 <= e_ref e → inv m →
  inv (mkManager (byToken m) (byUser m) (<[i := e]> (m_heap m)) (m_reaping m) (m_issued m) (m_revoked m)).
Proof.
  intros Hn Hr [It Iu Ic Ir]. assert (∀ j x, m_heap m !! j = Some x → i ≠ j) as Hne by congruence.
  split; cbn [byToken byUser m_heap m_issued m_revoked].
  - intros t j Ht. destruct (It t j Ht) as (x & Hx & ?). exists x. rewrite lookup_insert_ne by eauto. done.
  - intros u j Hu. destruct (Iu u j Hu) as (x & Hx & ?). exists x. rewrite lookup_insert_ne by eauto. done.
  - intros j x. destruct (decide (i = j)) as [->|Hij].
    + rewrite lookup_insert_eq. intros [= <-] _. rewrite tokens_of_none; [done|].
      intros t Ht. destruct (It t j Ht) as (x & Hx & _). congruence.
    + rewrite lookup_insert_ne by done. apply Ic.
  - done.
Qed.

Lemma inv_login_finish user mailbox tok i alive m :
  m_issued m !! tok = None → m_heap m !! i = None → inv m → inv (login_finish user mailbox tok i alive m).
Proof.
  intros Hf Hn Hi. unfold login_finish.
  pose proof (inv_alloc i (spawned user mailbox alive) m Hn ltac:(simpl; lia) Hi) as Ha.
  set (m1 := mkManager _ _ _ _ _ _) in *.
  assert (∀ t, byToken m1 !! t ≠ Some i) as Ht.
  { intros t E. destruct (i_tok m Hi t i E) as (? & ? & _). congruence. }
  assert (∀ u, byUser m1 !! u ≠ Some i) as Hu.
  { intros u E. destruct (i_usr m Hi u i E) as (? & ? & _). congruence. }
  destruct (byUser m1 !! user) as [j|] eqn:Ej.
  - destruct (m_heap m1 !! j) as [e|] eqn:Ee; [|done].
    apply inv_reuse; [done| |done|by apply inv_kill].
    cbn [m_heap killEntry on_entry]. rewrite lookup_alter_ne; [done|]. intros ->. by apply (Hu user).
  - assert (m_heap m1 !! i = Some (spawned user mailbox alive)) as Hh by apply lookup_insert_eq.
    eapply (inv_token tok i user (spawned user mailbox alive)); try done.
    + by rewrite tokens_of_none.
    + destruct Ha as [It Iu Ic Ir]. split; try done. intros u j. cbn [byUser set_byUser m_heap].
      destruct (decide (user = u)) as [->|Hne].
      * rewrite lookup_insert_eq. intros [= <-]. by exists (spawned u mailbox alive).
      * rewrite lookup_insert_ne by done. apply Iu.
Qed.

Lemma inv_Logout tok m : inv m → inv (Logout tok m).2.
Proof.
  intros Hi. unfold Logout. destruct (byToken m !! tok) as [i|] eqn:Et; [|done]. cbn [snd].
  pose proof (i_tok m Hi tok i Et) as (e & He & Hiss & Hk & Hrev). destruct Hi as [It Iu Ic Ir].
  set (f := λ e, let n := e_ref e - 1 in set_ref n (if n <=? 0 then set_timer true e else e)).
  assert (∀ x, e_username (f x) = e_username x ∧ e_killed (f x) = e_killed x ∧ e_ref (f x) = e_ref x - 1) as Hfx.
  { intros x. unfold f. destruct (_ <=? 0); done. }
  split; cbn [byToken byUser m_heap m_issued m_revoked on_entry].
  - intros t j [Hne Ht]%lookup_delete_Some. destruct (It t j Ht) as (x & Hx & Hxi & Hxk & Hxr).
    destruct (decide (i = j)) as [->|Hij].
    + exists (f x). rewrite lookup_alter_eq, Hx. destruct (Hfx x) as (-> & -> & _). set_solver.
    + exists x. rewrite lookup_alter_ne by done. set_solver.
  - intros u j Hj. destruct (Iu u j Hj) as (x & Hx & Hxu & Hxk). destruct (decide (i = j)) as [->|Hij].
    + exists (f x). rewrite lookup_alter_eq, Hx. destruct (Hfx x) as (-> & -> & _). done.
    + exists x. by rewrite lookup_alter_ne.
  - intros j x. unfold tokens_of. cbn [byToken on_entry]. rewrite map_filter_delete.
    destruct (decide (i = j)) as [->|Hij].
    + rewrite lookup_alter_eq, He. intros [= <-]. destruct (Hfx e) as (_ & -> & ->). intros _.
      specialize (Ic j e He Hk). unfold tokens_of in Ic.
      assert (filter (λ x, x.2 = j) (byToken m) !! tok = Some j) as Hin by (by apply map_lookup_filter_Some).
      rewrite (map_size_delete_Some _ _ (ex_intro _ j Hin)).
      assert (size (filter (λ x, x.2 = j) (byToken m)) ≠ 0%nat) as Hpos.
      { intros E%map_size_empty_iff. rewrite E in Hin. by rewrite lookup_empty in Hin. }
      lia.
    + rewrite lookup_alter_ne by done. rewrite delete_id; [apply Ic|]. apply map_lookup_filter_None. right.
      intros y Hy. simpl. congruence.
  - intros t [->%elem_of_singleton|Ht]%elem_of_union; [by rewrite Hiss|by apply Ir].
Qed.

Lemma inv_reaping l m : inv m → inv (set_reaping l m).
Proof. by intros []. Qed.
Lemma inv_reap i m : inv m → inv (reapSession i m).
Proof.
  intros Hi. unfold reapSession. destruct (m_heap m !! i) as [e|] eqn:He; [|done].
  destruct (0 <? e_ref e); [done|]. by apply inv_unlink.
Qed.
Lemma inv_monitor i m : inv m → inv (monitorProcess i m).
Proof.
  intros Hi. unfold monitorProcess. destruct (m_heap m !! i) as [e|]; [|done].
  assert (inv (on_entry i set_waited m)) as Hw.
  { apply inv_on_entry; [|done]. intros x. simpl. split_and!; [done..|lia]. }
  case_decide; [|done]. apply inv_drop. by apply (inv_delete_user _ (stop_timer i (on_entry i set_waited m))), inv_stop.
Qed.

Lemma inv_Close m : inv m → inv (Close m).
Proof.
  intros Hi. unfold Close. set (m1 := foldl _ m _).
  assert (m_issued m1 = m_issued m ∧ m_revoked m1 = m_revoked m ∧
    ∀ i e, m_heap m1 !! i = Some e → e_killed e = false → 0 <= e_ref e) as (Hiss & Hrev & Href).
  { unfold m1. apply (foldl_inv _ (λ m', m_issued m' = m_issued m ∧ m_revoked m' = m_revoked m ∧
      ∀ i e, m_heap m' !! i = Some e → e_killed e = false → 0 <= e_ref e)).
    - intros [u j] m' _ (E1 & E2 & Hr). split_and!; [done..|]. intros i e.
      cbn [snd m_heap killEntry stop_timer on_entry]. destruct (decide (j = i)) as [->|Hne].
      + rewrite !lookup_alter_eq. destruct (m_heap m' !! i); [|done]. by intros [= <-].
      + rewrite !lookup_alter_ne by done. apply Hr.
    - split_and!; [done..|]. intros i e He Hk. pose proof (i_cnt m Hi i e He Hk). lia. }
  split; cbn [byToken byUser m_heap m_issued m_revoked set_byUser set_byToken].
  - intros t i. by rewrite lookup_empty.
  - intros u i. by rewrite lookup_empty.
  - intros i e He Hk. rewrite tokens_of_none; [by eapply Href|]. intros t. simpl. by rewrite lookup_empty.
  - rewrite Hrev, Hiss. apply (i_rev m Hi).
Qed.

Lemma inv_step m m' : mstep m m' → inv m → inv m'.
Proof.
  destruct 1; intros Hi.
  - by apply inv_login_begin.
  - by apply inv_login_finish.
  - by apply inv_Logout.
  - apply inv_on_entry; [|done]. intros e. simpl. split_and!; [done..|lia].
  - by apply inv_monitor.
  - by apply inv_reaping.
  - by apply inv_reaping, inv_reap.
  - by apply inv_Close.
Qed.
Lemma steps_inv m m' : rtc mstep m m' → inv m → inv m'.
Proof. induction 1 as [|m m1 m2 Hs _ IH]; [done|]. intros Hi. apply IH. by eapply inv_step. Qed.
Lemma reachable_inv m : reachable m → inv m.
Proof. intros Hr. eapply steps_inv; [exact Hr|apply inv_New]. Qed.

(** ** What a token gives access to *)
Lemma token_positive t i e m :
  inv m → byToken m !! t = Some i → m_heap m !! i = Some e → e_killed e = false → 0 < e_ref e.
Proof.
  intros Hi Ht He Hk. pose proof (i_cnt m Hi i e He Hk) as Hc.
  assert (size (tokens_of i m) ≠ 0%nat) as Hpos; [|lia].
  intros E%map_size_empty_iff. assert (tokens_of i m !! t = Some i) as Hin by (by apply map_lookup_filter_Some).
  rewrite E in Hin. by rewrite lookup_empty in Hin.
Qed.
Lemma session_token t e m : SessionForToken t m = Some e ↔ ∃ i, byToken m !! t = Some i ∧ m_heap m !! i = Some e.
Proof. unfold SessionForToken. by rewrite bind_Some. Qed.

Lemma token_facts t e m : inv m → SessionForToken t m = Some e →
  m_issued m !! t = Some (e_username e) ∧ e_killed e = false ∧ 0 < e_ref e ∧ t ∉ m_revoked m.
Proof.
  intros Hi (i & Ht & He)%session_token. destruct (i_tok m Hi t i Ht) as (e' & He' & Hiss & Hk & Hr).
  assert (e' = e) as -> by congruence. split_and!; [done|done|by eapply token_positive|done].
Qed.

Lemma reap_spares_tokens t e i m :
  inv m → SessionForToken t m = Some e → SessionForToken t (reapSession i m) = Some e.
Proof.
  intros Hi Hs. pose proof (token_facts t e m Hi Hs) as (_ & Hk & Hpos & _).
  apply session_token in Hs as (j & Ht & He). unfold reapSession.
  destruct (m_heap m !! i) as [x|] eqn:Hx; [|by apply session_token; eauto].
  destruct (0 <? e_ref x) eqn:E; [apply session_token; eauto|]. apply Z.ltb_ge in E.
  assert (i ≠ j) as Hne by (intros ->; assert (x = e) by congruence; subst; lia).
  apply session_token. exists j. split.
  - by apply drop_tokens_lookup.
  - cbn [m_heap killEntry on_entry drop_tokens set_byToken set_byUser]. by rewrite lookup_alter_ne.
Qed.

Lemma step_history m m' : mstep m m' → m_revoked m ⊆ m_revoked m'.
Proof.
  assert (∀ l m0, m_revoked (foldl (λ m (x : string * addr), killEntry x.2 (stop_timer x.2 m)) m0 l) = m_revoked m0) as Hclose.
  { intros l m0. apply (foldl_inv _ (λ m', m_revoked m' = m_revoked m0)); [|done]. by intros x b0 _ <-. }
  destruct 1; unfold login_begin, login_finish, Logout, monitorProcess, reapSession, Close, removeEntryLocked, reuse;
    simpl; repeat case_match; simpl; rewrite ?Hclose; set_solver.
Qed.
Lemma steps_history m m' : rtc mstep m m' → m_revoked m ⊆ m_revoked m'.
Proof. induction 1 as [|? ? ? Hs _ IH]; [done|]. etrans; [by apply step_history|exact IH]. Qed.

(** C25: Sessions are isolated: however logins, logouts, process exits, idle
    timers and shutdown interleave, a token opens only a session of the user
    who logged in for it, one that the manager has not terminated; no idle
    timer, however late it runs, cuts off a session with a valid token; and
    once logged out a token never opens anything again. *)
Theorem session_isolation m t :
  reachable m →
  (∀ e, SessionForToken t m = Some e →
     m_issued m !! t = Some (e_username e) ∧ e_killed e = false ∧
     ∀ i, SessionForToken t (reapSession i m) = Some e) ∧
  (∀ m', (Logout t m).1 = true → rtc mstep (Logout t m).2 m' → SessionForToken t m' = None).
Proof.
  intros Hr%reachable_inv. split.
  - intros e Hs. pose proof (token_facts t e m Hr Hs) as (? & ? & _). split_and!; [done..|].
    intros i. by apply reap_spares_tokens.
  - intros m' Ho Hsteps. destruct (SessionForToken t m') as [e|] eqn:E; [|done]. exfalso.
    assert (inv m') as Hi' by (eapply steps_inv; [exact Hsteps|by apply inv_Logout]).
    destruct (token_facts t e m' Hi' E) as (_ & _ & _ & Hnr). apply Hnr, (steps_history _ _ Hsteps).
    unfold Logout in *. destruct (byToken m !! t); [|done]. set_solver.
Qed.

(** Login that is not interrupted gives a token for a session of the user. *)
Lemma Login_session mailbox alive user tok i m tok' m' :
  inv m → m_issued m !! tok = None → m_heap m !! i = None →
  Login (Some mailbox) (Some alive) user tok i m = (Some tok', m') →
  tok' = tok ∧ ∃ e, SessionForToken tok m' = Some e ∧ e_username e = user.
Proof.
  intros Hi Hf Hn. unfold Login. pose proof (inv_login_begin user tok m Hf Hi) as Hb.
  assert (∀ j e, byToken m' !! tok = Some j → m_heap m' !! j = Some e → SessionForToken tok m' = Some e) as Hs.
  { intros. apply session_token. eauto. }
  destruct (login_begin user tok m) as [[|] m1] eqn:El; cbn [snd] in Hb.
  - intros [= <- <-]. split; [done|]. unfold login_begin in El.
    destruct (byUser m !! user) as [j|] eqn:Eu; [|done]. destruct (m_heap m !! j) as [e|] eqn:Ee; [|done].
    destruct (isAliveLocked e); [|done]. injection El as <-. destruct (i_usr m Hi user j Eu) as (e' & He' & Hu & _).
    eexists. split; [apply (Hs j)|]; [apply lookup_insert_eq|cbn; by rewrite lookup_alter_eq, Ee|]. simpl. congruence.
  - intros [= <- <-]. split; [done|].
    assert (byUser m1 !! user = None ∧ m_heap m1 !! i = None) as [Hu1 Hn1].
    { unfold login_begin in El. destruct (byUser m !! user) as [j|] eqn:Eu; [|by simplify_eq].
      destruct (i_usr m Hi user j Eu) as (e & He & Hu & _). rewrite He in El.
      destruct (isAliveLocked e); [done|]. injection El as <-. unfold removeEntryLocked. rewrite He. cbn.
      rewrite Hu. split; [apply lookup_delete_eq|]. by rewrite !lookup_alter_ne by congruence. }
    revert Hs. unfold login_finish. cbn [byUser]. rewrite Hu1. intros Hs.
    exists (spawned user mailbox alive). split; [|done]. apply (Hs i); apply lookup_insert_eq.
Qed.

(** ** Concrete runs *)
Definition ann : string := "ann@example.org".
Definition after_login : Manager := login_finish ann ann "t1" 0 true (login_begin ann "t1" New).2.
Lemma after_login_reachable : reachable after_login.
Proof.
  eapply rtc_l; [by apply (step_login_begin ann "t1")|]. apply rtc_once. by apply step_login_finish.
Qed.

Lemma session_isolation_witness :
  SessionForToken "t1" after_login = Some (spawned ann ann true) ∧
  m_issued after_login !! "t1" = Some ann ∧
  SessionForToken "t1" (reapSession 0 after_login) = Some (spawned ann ann true) ∧
  SessionForToken "t1" (Logout "t1" after_login).2 = None.
Proof.
  destruct (session_isolation after_login "t1" after_login_reachable) as [Hs Hl].
  assert (SessionForToken "t1" after_login = Some (spawned ann ann true)) as E by reflexivity.
  destruct (Hs _ E) as (Hi & _ & Hr). split; [exact E|]. split; [exact Hi|]. split; [exact (Hr 0%nat)|].
  exact (Hl _ eq_refl (rtc_refl mstep _)).
Defined.

(** The idle timer of a session fires; before its function gets the lock the
    process dies and the user logs in again. [reapSession] then removes the
    user's new session from the table: it stays usable by its token, is not
    reused by the next login, and survives Close. *)
Definition late_reap : Manager :=
  let m := (Logout "t1" after_login).2 in
  let m := set_reaping [0%nat] m in
  let m := on_entry 0 set_dead m in
  let m := (login_begin ann "t2" m).2 in
  let m := login_finish ann ann "t2" 1 true m in
  set_reaping [] (reapSession 0 m).
Lemma late_reap_reachable : reachable late_reap.
Proof.
  unfold reachable. etrans; [apply after_login_reachable|].
  eapply rtc_l; [apply (step_logout "t1")|].
  eapply rtc_l; [eapply (step_fire 0); vm_compute; reflexivity|].
  eapply rtc_l; [apply (step_exit 0)|].
  eapply rtc_l; [apply (step_login_begin ann "t2"); vm_compute; reflexivity|].
  eapply rtc_l; [apply (step_login_finish ann ann "t2" 1 true); vm_compute; reflexivity|].
  apply rtc_once. apply step_reap. reflexivity.
Qed.
Lemma late_reap_unlinks_successor :
  reachable late_reap ∧ SessionForToken "t2" late_reap = Some (spawned ann ann true) ∧
  byUser late_reap !! ann = None ∧ (login_begin ann "t3" late_reap).1 = false ∧
  m_heap (Close late_reap) !! 1%nat = Some (spawned ann ann true).
Proof. split; [apply late_reap_reachable|]. vm_compute. split_and!; reflexivity. Qed.
