(* ===== verification/Maildir.v ===== *)
(** * The maildir store

    Model of [src/msgstore/maildir/store.go] with [ParseRecipient] and the
    default folders of [src/msgstore]: path resolution, listing with persistent
    UIDs, retrieval, deletion marks and expunge, folders, delivery, append,
    flags and copies. The go-maildir library and the directories it works on
    are the class [GoMaildir]; the [.uidlist] file of each directory is the
    folder of [UidList], with its own schedule of faults. Operations run one at
    a time, as the file lock makes them; the keys that [listDir] reads before it
    takes the lock are an argument of their own. *)
From S2P Require Import Prelude GoStrings UidList MsgStore FilePath.
From Stdlib Require Import ZArith Lia Ascii.
Open Scope string_scope.
Open Scope list_scope.
Open Scope Z_scope.

Inductive merr :=
| EIO | EMessageNotFound | EMessageDeleted | EMailboxNotFound | ENoRecipients | EPathTraversal
| EInvalidFolderName | EFolderExists | EFolderNotFound | EUid (e : uidlistErr).

(** ** Names and paths *)
Record Recipient := mkRcpt { Address : string; Extension : string }.
Definition ParseRecipient (email : string) : Recipient :=
  let '(localpart, domain) := match cut_last "@" email with
                              | Some (l, d) => (l, "@" +:+ d)
                              | None => (email, "")
                              end in
  match cut "+" localpart with
  | Some (base, ext) => mkRcpt (base +:+ domain) ext
  | None => mkRcpt (localpart +:+ domain) ""
  end.

Definition splitEmail (email : string) : string * string :=
  match cut_last "@" email with Some (l, d) => (l, d) | None => (email, "") end.

(** The five flags in use, as their letters. *)
Definition flag_name (f : ascii) : option string :=
  if Ascii.eqb f "S" then Some "\Seen"
  else if Ascii.eqb f "R" then Some "\Answered"
  else if Ascii.eqb f "F" then Some "\Flagged"
  else if Ascii.eqb f "D" then Some "\Draft"
  else if Ascii.eqb f "T" then Some "\Deleted" else None.
Definition convertFlags (fs : list ascii) : list string := omap flag_name fs.
Definition flag_of_name (s : string) : option ascii :=
  if decide (s = "\Seen") then Some "S"%char
  else if decide (s = "\Answered") then Some "R"%char
  else if decide (s = "\Flagged") then Some "F"%char
  else if decide (s = "\Draft") then Some "D"%char
  else if decide (s = "\Deleted") then Some "T"%char else None.
Definition convertFlagsFromIMAP (fs : list string) : list ascii := omap flag_of_name fs.

Record FolderSpec := mkSpec { Name : string; SpecialUse : string }.
Definition DefaultFolders : list FolderSpec :=
  [mkSpec "Junk" "\Junk"; mkSpec "Trash" "\Trash"; mkSpec "Sent" "\Sent"; mkSpec "Drafts" "\Drafts";
   mkSpec "List" ""; mkSpec "Bulk" ""].
Definition FolderAliases : gmap string string := {["Spam" := "Junk"]}.
Definition ResolveFolder (name : string) : string := default name (FolderAliases !! name).
Definition SpecialUseFor (folderName : string) : string :=
  match head (filter (λ f, Name f = folderName) DefaultFolders) with Some f => SpecialUse f | None => "" end.

Definition folderDeletionKey (mailbox folder : string) : string := mailbox +:+ String NUL folder.

Definition isValidFolderChar (c : ascii) : bool :=
  is_lower c || is_upper c || is_digit c || Ascii.eqb c "-" || Ascii.eqb c "_".

Section Paths.
Context `{UnicodeCase}.

Definition validateFolderName (folder : string) : bool :=
  bool_decide (folder ≠ "") && (Z.of_nat (String.length folder) <=? 255)
  && negb (HasPrefix folder ".")
  && negb (bool_decide (ToLower folder = "new" ∨ ToLower folder = "cur" ∨ ToLower folder = "tmp"))
  && sforall isValidFolderChar folder.

Record layout := mkLayout { basePath : string; maildirSubdir : string; pathTemplate : string }.

Definition expandMailbox (s : layout) (mailbox : string) : string :=
  let '(localpart, domain) := splitEmail mailbox in
  if decide (pathTemplate s = "") then localpart
  else ReplaceAll (ReplaceAll (ReplaceAll (pathTemplate s) "{domain}" domain) "{localpart}" localpart)
         "{email}" mailbox.

Definition under (base candidate : string) : bool := HasPrefix (candidate +:+ "/") (base +:+ "/").

Definition mailboxPath (s : layout) (mailbox : string) : result string merr :=
  let m := expandMailbox s mailbox in
  let candidate := if decide (maildirSubdir s = "") then Join [basePath s; m]
                   else Join [basePath s; m; maildirSubdir s] in
  let candidate := Clean candidate in
  if under (Clean (basePath s)) candidate then Ok candidate else Err EPathTraversal.

Definition folderPath (s : layout) (mailbox folder : string) : result string merr :=
  if negb (validateFolderName folder) then Err EInvalidFolderName
  else match mailboxPath s mailbox with
       | Err e => Err e
       | Ok base =>
           let candidate := Clean (Join [base; "." +:+ folder]) in
           if under (Clean base) candidate then Ok candidate else Err EPathTraversal
       end.

Definition folderOrInboxPath (s : layout) (mailbox folder : string) : result string merr :=
  if EqualFold folder "INBOX" then mailboxPath s mailbox else folderPath s mailbox folder.
End Paths.

(** ** Directories *)
(** One maildir: the entries of [cur/] and [new/] with whether they are
    directories, and the operations of the library. [md_Deliver] is a whole
    delivery, [md_cur_new] the rename of [moveNewToCurWithFlags]. *)
Class GoMaildir (D : Type) := {
  md_create : string → option D;
  md_cur : D → list (string * bool);
  md_new : D → list (string * bool);
  md_Unseen : D → result (list string) merr * D;
  md_Messages : D → result (list (string * list ascii)) merr;
  md_stat : D → string → option (Z * Z);
  md_has : D → string → bool;                       (** [MessageByKey] *)
  md_Open : D → string → result reader merr;
  md_Remove : D → string → bool * D;                (** not existing is no error *)
  md_Deliver : D → string → option merr * D;
  md_SetFlags : D → string → list ascii → option merr * D;
  md_CopyTo : D → string → D → option merr * D;     (** the new destination *)
  md_new_to_cur : D → string → string → option merr * D;
}.

(** The process's state and the disk. *)
Record world (D : Type) := mkWorld {
  deleted : gmap string (gset Z);
  uidlistCache : gmap string uidList;
  dirs : gmap string D;
  uidfiles : gmap string folder;
  now : Z;
}.
Arguments mkWorld {D}.
Arguments deleted {D}.
Arguments uidlistCache {D}.
Arguments dirs {D}.
Arguments uidfiles {D}.
Arguments now {D}.

Section Store.
Context {D : Type} `{GoMaildir D, UnicodeCase}.
Variable s : layout.

Definition set_deleted (f : gmap string (gset Z)) (w : world D) : world D :=
  mkWorld f (uidlistCache w) (dirs w) (uidfiles w) (now w).
Definition set_cache (c : gmap string uidList) (w : world D) : world D :=
  mkWorld (deleted w) c (dirs w) (uidfiles w) (now w).
Definition put_dir (path : string) (d : D) (w : world D) : world D :=
  mkWorld (deleted w) (uidlistCache w) (<[path := d]> (dirs w)) (uidfiles w) (now w).
Definition put_uid (path : string) (f : folder) (w : world D) : world D :=
  mkWorld (deleted w) (uidlistCache w) (dirs w) (<[path := f]> (uidfiles w)) (now w).

Definition cacheUIDList (path : string) (ul : uidList) (w : world D) : world D :=
  set_cache (<[path := ul]> (uidlistCache w)) w.
Definition invalidateUIDListCache (path : string) (w : world D) : world D :=
  set_cache (delete path (uidlistCache w)) w.
Definition exists_ (path : string) (w : world D) : bool := bool_decide (is_Some (dirs w !! path)).
Definition cur_keys (path : string) (w : world D) : list string := curDirKeys (md_cur <$> dirs w !! path).
Definition uid_folder (path : string) (w : world D) : folder := default (mkFolder ∅ []) (uidfiles w !! path).

(** Lock, load or bootstrap against [keys], unlock. *)
Definition load_uids (path : string) (keys : list string) (w : world D) : result uidList merr * world D :=
  match sys (uid_folder path w) with
  | (Fault _, f) => (Err EIO, put_uid path f w)
  | (Done, f) =>
      match loadOrBootstrapUIDList (now w) keys f with
      | (Ok ul, f) => (Ok ul, put_uid path f w)
      | (Err e, f) => (Err (EUid e), put_uid path f w)
      end
  end.

Definition isDeleted (key : string) (uid : Z) (w : world D) : bool :=
  match deleted w !! key with Some us => bool_decide (uid ∈ us) | None => false end.
Definition mark_deleted (key : string) (uid : Z) (w : world D) : world D :=
  set_deleted (<[key := {[uid]} ∪ default ∅ (deleted w !! key)]> (deleted w)) w.

(** ** Creating directories *)
Definition create_dir (path : string) (w : world D) : result unit merr * world D :=
  if exists_ path w then (Ok (), w)
  else match md_create path with
       | None => (Err EIO, w)
       | Some d => (Ok (), put_dir path d w)
       end.

(** [ensureMaildir], [EnsureDefaultFolders] and [CreateFolder] call each other;
    the inner [ensureMaildir] finds the mailbox there, so two levels are
    enough. An error of a default folder is only logged. *)
Fixpoint ensureMaildir (fuel : nat) (mailbox : string) (w : world D) : result string merr * world D :=
  match mailboxPath s mailbox with
  | Err e => (Err e, w)
  | Ok path =>
      if exists_ path w then (Ok path, w)
      else match create_dir path w with
           | (Err e, w) => (Err e, w)
           | (Ok _, w) =>
               match fuel with
               | O => (Ok path, w)
               | S fuel =>
                   let create := λ folder w,
                     match folderPath s mailbox folder with
                     | Err e => (Err e, w)
                     | Ok fp =>
                         if exists_ fp w then (Err EFolderExists, w)
                         else match ensureMaildir fuel mailbox w with
                              | (Err e, w) => (Err e, w)
                              | (Ok _, w) => create_dir fp w
                              end
                     end in
                   (Ok path, (fix folders fs w := match fs with
                              | [] => w
                              | f :: fs => match create (Name f) w with
                                           | (Ok _, w) | (Err EFolderExists, w) => folders fs w
                                           | (Err _, w) => w
                                           end
                              end) DefaultFolders w)
               end
           end
  end.
Definition ensure (mailbox : string) (w : world D) : result string merr * world D := ensureMaildir 1 mailbox w.

Definition CreateFolder (mailbox folder : string) (w : world D) : result unit merr * world D :=
  match folderPath s mailbox folder with
  | Err e => (Err e, w)
  | Ok path =>
      if exists_ path w then (Err EFolderExists, w)
      else match ensure mailbox w with
           | (Err e, w) => (Err e, w)
           | (Ok _, w) => create_dir path w
           end
  end.

Definition ensureFolderMaildir (mailbox folder : string) (w : world D) : result string merr * world D :=
  match ensure mailbox w with
  | (Err e, w) => (Err e, w)
  | (Ok _, w) =>
      match folderPath s mailbox folder with
      | Err e => (Err e, w)
      | Ok path =>
          match create_dir path w with
          | (Err e, w) => (Err e, w)
          | (Ok _, w) => (Ok path, w)
          end
      end
  end.

(** ** Reading *)
Definition message_info (recent : list string) (msgs : list (string * list ascii)) (d : D) (delKey : string)
    (w : world D) (e : uidEntry) : option MessageInfo :=
  if isDeleted delKey (uid e) w then None
  else match (list_to_map (reverse msgs) : gmap string (list ascii)) !! key e, md_stat d (key e) with
       | Some flags, Some (size, mtime) =>
           Some (mkInfo (uid e) (key e) size
             ((if bool_decide (key e ∈ recent) then ["\Recent"] else []) ++ convertFlags flags) mtime)
       | _, _ => None
       end.

(** [listDir] from the lock on, with the keys read before it. *)
Definition list_locked (path delKey : string) (recent keys : list string) (w : world D)
    : result (list MessageInfo) merr * world D :=
  match load_uids path keys w with
  | (Err e, w) => (Err e, w)
  | (Ok ul, w) =>
      let w := cacheUIDList path ul w in
      match dirs w !! path with
      | None => (Err EIO, w)
      | Some d =>
          match md_Messages d with
          | Err e => (Err e, w)
          | Ok msgs => (Ok (omap (message_info recent msgs d delKey w) (entries ul)), w)
          end
      end
  end.
Definition listDir (path delKey : string) (w : world D) : result (list MessageInfo) merr * world D :=
  match dirs w !! path with
  | None => (Err EIO, w)
  | Some d =>
      match md_Unseen d with
      | (Err e, d) => (Err e, put_dir path d w)
      | (Ok recent, d) =>
          let w := put_dir path d w in
          list_locked path delKey recent (cur_keys path w) w
      end
  end.

Definition lookupKey (path : string) (n : Z) (w : world D) : result string merr * world D :=
  let find ul := match uidToKey ul !! n with Some k => Ok k | None => Err EMessageNotFound end in
  match uidlistCache w !! path with
  | Some ul => (find ul, w)
  | None =>
      match load_uids path (cur_keys path w) w with
      | (Err e, w) => (Err e, w)
      | (Ok ul, w) => (find ul, cacheUIDList path ul w)
      end
  end.

Definition retrieve_at (path delKey : string) (missing : merr) (n : Z) (w : world D)
    : result reader merr * world D :=
  match dirs w !! path with
  | None => (Err missing, w)
  | Some _ =>
      match lookupKey path n w with
      | (Err e, w) => (Err e, w)
      | (Ok k, w) => (match dirs w !! path with Some d => md_Open d k | None => Err EIO end, w)
      end
  end.

Definition List_ (mailbox : string) (w : world D) : result (list MessageInfo) merr * world D :=
  match mailboxPath s mailbox with
  | Err e => (Err e, w)
  | Ok path => match ensure mailbox w with
               | (Err e, w) => (Err e, w)
               | (Ok _, w) => listDir path mailbox w
               end
  end.
Definition Retrieve (mailbox : string) (n : Z) (w : world D) : result reader merr * world D :=
  if isDeleted mailbox n w then (Err EMessageDeleted, w)
  else match mailboxPath s mailbox with
       | Err e => (Err e, w)
       | Ok path => retrieve_at path mailbox EMailboxNotFound n w
       end.
(** Count and total size; the total is an [int64]. *)
Definition sum_stat (ms : list MessageInfo) : Z * Z :=
  (Z.of_nat (length ms), foldl (λ t m, wrap_int64 (t + Size m)) 0 ms).
Definition Stat (mailbox : string) (w : world D) : result (Z * Z) merr * world D :=
  match List_ mailbox w with
  | (Err e, w) => (Err e, w)
  | (Ok ms, w) => (Ok (sum_stat ms), w)
  end.

Definition ListInFolder (mailbox folder : string) (w : world D) : result (list MessageInfo) merr * world D :=
  match folderPath s mailbox folder with
  | Err e => (Err e, w)
  | Ok path => if exists_ path w then listDir path (folderDeletionKey mailbox folder) w
               else (Err EFolderNotFound, w)
  end.
Definition RetrieveFromFolder (mailbox folder : string) (n : Z) (w : world D) : result reader merr * world D :=
  if isDeleted (folderDeletionKey mailbox folder) n w then (Err EMessageDeleted, w)
  else match folderPath s mailbox folder with
       | Err e => (Err e, w)
       | Ok path => retrieve_at path (folderDeletionKey mailbox folder) EFolderNotFound n w
       end.
Definition StatFolder (mailbox folder : string) (w : world D) : result (Z * Z) merr * world D :=
  match ListInFolder mailbox folder w with
  | (Err e, w) => (Err e, w)
  | (Ok ms, w) => (Ok (sum_stat ms), w)
  end.

(** [ListFolders]: [names] are the entries of the mailbox directory, with
    whether they are directories. *)
Definition ListFolders (names : string → list (string * bool)) (mailbox : string) (w : world D)
    : result (list string) merr :=
  match mailboxPath s mailbox with
  | Err e => Err e
  | Ok base =>
      if negb (exists_ base w) then Err EMailboxNotFound
      else Ok (omap (λ n : string * bool,
                 if n.2 && HasPrefix n.1 "." && exists_ (Join [base; n.1]) w
                 then Some (sdrop 1 n.1) else None) (names base))
  end.

(** ** Deleting *)
Definition Delete (mailbox : string) (n : Z) (w : world D) : option merr * world D :=
  (None, mark_deleted mailbox n w).
Definition DeleteInFolder (mailbox folder : string) (n : Z) (w : world D) : option merr * world D :=
  if negb (validateFolderName folder) then (Some EInvalidFolderName, w)
  else (None, mark_deleted (folderDeletionKey mailbox folder) n w).

(** [removeMessages]: a message that is gone is skipped, errors do not stop it. *)
Fixpoint removeMessages (keys : list string) (d : D) : bool * D :=
  match keys with
  | [] => (true, d)
  | k :: keys =>
      let '(ok, d) := if md_has d k then md_Remove d k else (true, d) in
      let '(ok', d) := removeMessages keys d in
      (ok && ok', d)
  end.

(** The common part of [Expunge] and [ExpungeFolder], for the marks [us]. *)
Definition expunge_at (path : string) (us : gset Z) (w : world D) : option merr * world D :=
  match load_uids path (cur_keys path w) w with
  | (Err e, w) => (Some e, w)
  | (Ok ul, w) =>
      match dirs w !! path with
      | None => (Some EIO, w)
      | Some d =>
          let doomed : gset string := list_to_set (omap (λ n, uidToKey ul !! n) (elements us)) in
          match removeMessages (elements doomed) d with
          | (false, d) => (Some EIO, put_dir path d w)
          | (true, d) =>
              let w := put_dir path d w in
              let ul := (reconcile (cur_keys path w) ul).2 in
              let '(r, f) := UidList.write ul (uid_folder path w) in
              (match r with Ok _ => None | Err e => Some (EUid e) end,
               invalidateUIDListCache path (put_uid path f w))
          end
      end
  end.
Definition expunge_marked (delKey : string) (missing : merr) (path : result string merr) (w : world D)
    : option merr * world D :=
  match deleted w !! delKey with
  | None => (None, w)
  | Some us =>
      let w := set_deleted (delete delKey (deleted w)) w in
      if decide (us = ∅) then (None, w)
      else match path with
           | Err e => (Some e, w)
           | Ok path => if exists_ path w then expunge_at path us w else (Some missing, w)
           end
  end.
Definition Expunge (mailbox : string) (w : world D) : option merr * world D :=
  expunge_marked mailbox EMailboxNotFound (mailboxPath s mailbox) w.
Definition ExpungeFolder (mailbox folder : string) (w : world D) : option merr * world D :=
  expunge_marked (folderDeletionKey mailbox folder) EFolderNotFound (folderPath s mailbox folder) w.

(** [os.RemoveAll] and [os.Rename] of a folder directory; [ok] is their outcome. *)
Definition DeleteFolder (ok : bool) (mailbox folder : string) (w : world D) : option merr * world D :=
  match folderPath s mailbox folder with
  | Err e => (Some e, w)
  | Ok path =>
      if negb (exists_ path w) then (Some EFolderNotFound, w)
      else
        let w := set_deleted (delete (folderDeletionKey mailbox folder) (deleted w)) w in
        if ok then (None, mkWorld (deleted w) (uidlistCache w) (delete path (dirs w)) (delete path (uidfiles w)) (now w))
        else (Some EIO, w)
  end.
Definition RenameFolder (ok : bool) (mailbox oldName newName : string) (w : world D) : option merr * world D :=
  match folderPath s mailbox oldName, folderPath s mailbox newName with
  | Err e, _ | _, Err e => (Some e, w)
  | Ok old, Ok new =>
      match dirs w !! old with
      | None => (Some EFolderNotFound, w)
      | Some d =>
          if exists_ new w then (Some EFolderExists, w)
          else
            let w := set_deleted (delete (folderDeletionKey mailbox oldName) (deleted w)) w in
            if ok then
              (None, mkWorld (deleted w) (uidlistCache w) (<[new := d]> (delete old (dirs w)))
                       (<[new := uid_folder old w]> (delete old (uidfiles w))) (now w))
            else (Some EIO, w)
      end
  end.

(** ** Writing *)
Definition deliver_at (path data : string) (w : world D) : option merr * world D :=
  match dirs w !! path with
  | None => (Some EIO, w)
  | Some d => let '(r, d) := md_Deliver d data in (r, put_dir path d w)
  end.

(** [folderIfExists] *)
Definition folderIfExists (mailbox folder : string) (w : world D) : option string :=
  match folderPath s mailbox folder with
  | Err _ => None
  | Ok path => if exists_ path w then Some path else None
  end.

(** One recipient: the folder its copy landed in. *)
Definition deliver_one (data recipient : string) (w : world D) : result (string * string) merr * world D :=
  let p := ParseRecipient recipient in
  let ext := if decide (Extension p = "") then None else folderIfExists (Address p) (Extension p) w in
  let '(target, w) := match ext with
                      | Some path => (Ok path, w)
                      | None => ensure (Address p) w
                      end in
  match target with
  | Err e => (Err e, w)
  | Ok path =>
      match deliver_at path data w with
      | (Some e, w) => (Err e, w)
      | (None, w) => (Ok (Address p, match ext with Some _ => Extension p | None => "INBOX" end), w)
      end
  end.
(** [Deliver]: the result, and the folders recorded. *)
Fixpoint deliver_all (data : string) (rcpts : list string) (w : world D)
    : list (string * string) * option merr * world D :=
  match rcpts with
  | [] => ([], None, w)
  | r :: rcpts =>
      match deliver_one data r w with
      | (Ok x, w) => let '(xs, e, w) := deliver_all data rcpts w in (x :: xs, e, w)
      | (Err e, w) => let '(xs, e', w) := deliver_all data rcpts w in
                      (xs, match e' with Some e' => Some e' | None => Some e end, w)
      end
  end.
Definition Deliver (rcpts : list string) (data : result string merr) (w : world D)
    : option merr * list (string * string) * world D :=
  match rcpts with
  | [] => (Some ENoRecipients, [], w)
  | _ =>
      match data with
      | Err e => (Some e, [], w)
      | Ok data =>
          let '(xs, e, w) := deliver_all data rcpts w in
          (match xs with [] => e | _ => None end, xs, w)
      end
  end.
Definition DeliverToFolder (mailbox folder data : string) (w : world D) : option merr * world D :=
  match ensureFolderMaildir mailbox folder w with
  | (Err e, w) => (Some e, w)
  | (Ok path, w) => deliver_at path data w
  end.

(** ** Append, flags, copies *)
(** Flag letters sorted by code. *)
Definition char_le (a b : ascii) : Prop := (nat_of_ascii a ≤ nat_of_ascii b)%nat.
#[global] Instance char_le_dec : RelDecision char_le.
Proof. unfold char_le. solve_decision. Defined.
Fixpoint string_of (cs : list ascii) : string := match cs with [] => "" | c :: cs => String c (string_of cs) end.
Definition infoFromFlags (flags : list ascii) : string := "2," +:+ string_of (merge_sort char_le flags).
Definition moveNewToCurWithFlags (d : D) (k : string) (flags : list ascii) : option merr * D :=
  md_new_to_cur d k (k +:+ ":" +:+ infoFromFlags flags).

Definition maildirNewKeys (d : D) : list string := (filter (λ e, e.2 = false) (md_new d)).*1.
(** The first entry of [new/] that was not there before. *)
Definition maildirNewKey (d : D) (before : list string) : option string :=
  head (filter (λ k, k ∉ before) (maildirNewKeys d)).

Definition AppendToFolder (mailbox folder data : string) (flags : list string) (w : world D)
    : result Z merr * world D :=
  match folderOrInboxPath s mailbox folder with
  | Err e => (Err e, w)
  | Ok path =>
      match create_dir path w with
      | (Err e, w) => (Err e, w)
      | (Ok _, w) =>
          match dirs w !! path with
          | None => (Err EIO, w)
          | Some d =>
              match md_Deliver d data with
              | (Some e, d') => (Err e, put_dir path d' w)
              | (None, d') =>
                  match maildirNewKey d' (maildirNewKeys d) with
                  | None => (Err EMessageNotFound, put_dir path d' w)
                  | Some k =>
                      match moveNewToCurWithFlags d' k (convertFlagsFromIMAP flags) with
                      | (Some e, d'') => (Err e, put_dir path d'' w)
                      | (None, d'') =>
                          let w := put_dir path d'' w in
                          match load_uids path (cur_keys path w) w with
                          | (Err e, w) => (Err e, w)
                          | (Ok ul, w) =>
                              (match keyToUID ul !! k with Some n => Ok n | None => Err EMessageNotFound end,
                               invalidateUIDListCache path w)
                          end
                      end
                  end
              end
          end
      end
  end.

Definition SetFlagsInFolder (mailbox folder : string) (n : Z) (flags : list string) (w : world D)
    : option merr * world D :=
  match folderOrInboxPath s mailbox folder with
  | Err e => (Some e, w)
  | Ok path =>
      match lookupKey path n w with
      | (Err e, w) => (Some e, w)
      | (Ok k, w) =>
          match dirs w !! path with
          | None => (Some EMessageNotFound, w)
          | Some d =>
              let fs := convertFlagsFromIMAP flags in
              if md_has d k then let '(r, d) := md_SetFlags d k fs in (r, put_dir path d w)
              else if bool_decide (k ∈ (md_new d).*1)
                   then let '(r, d) := moveNewToCurWithFlags d k fs in (r, put_dir path d w)
              else (Some EMessageNotFound, w)
          end
      end
  end.

Definition CopyMessage (mailbox srcFolder : string) (n : Z) (destFolder : string) (w : world D)
    : result Z merr * world D :=
  match folderOrInboxPath s mailbox srcFolder, folderOrInboxPath s mailbox destFolder with
  | Err e, _ | _, Err e => (Err e, w)
  | Ok src, Ok dest =>
      match lookupKey src n w with
      | (Err e, w) => (Err e, w)
      | (Ok k, w) =>
          match create_dir dest w with
          | (Err e, w) => (Err e, w)
          | (Ok _, w) =>
              match dirs w !! src, dirs w !! dest with
              | Some ds, Some dd =>
                  let '(r, dd) :=
                    if md_has ds k then md_CopyTo ds k dd
                    else match md_Open ds k with
                         | Ok (Content data) => if bool_decide (k ∈ (md_new ds).*1) then md_Deliver dd data
                                                else (Some EMessageNotFound, dd)
                         | _ => (Some EMessageNotFound, dd)
                         end in
                  let w := put_dir dest dd w in
                  match r with
                  | Some e => (Err e, w)
                  | None =>
                      match load_uids dest (cur_keys dest w) w with
                      | (Err e, w) => (Err e, w)
                      | (Ok ul, w) => (Ok (wrap_uint32 (uidNext ul - 1)), invalidateUIDListCache dest w)
                      end
                  end
              | _, _ => (Err EMessageNotFound, w)
              end
          end
      end
  end.

(** [UIDValidity] and [UIDNext] differ in the field they return. *)
Definition with_uids {A} (f : uidList → A) (mailbox folder : string) (w : world D) : result A merr * world D :=
  let '(r, w) := if EqualFold folder "INBOX" then ensure mailbox w else ensureFolderMaildir mailbox folder w in
  match r with
  | Err e => (Err e, w)
  | Ok _ =>
      match folderOrInboxPath s mailbox folder with
      | Err e => (Err e, w)
      | Ok path =>
          match load_uids path (cur_keys path w) w with
          | (Err e, w) => (Err e, w)
          | (Ok ul, w) => (Ok (f ul), w)
          end
      end
  end.
Definition UIDValidity := with_uids uidValidity.
Definition UIDNext := with_uids uidNext.
End Store.

(** ** Expunge *)
Definition keys_of {D} `{GoMaildir D} (d : D) : list string := curDirKeys (Some (md_cur d)).

(** Documented behaviour of go-maildir on a directory [md_ok] whose system
    calls succeed: [MessageByKey] finds a key that names one file of [cur/],
    and [Remove] takes away that file and no other. *)
Class GoMaildirLaws (D : Type) `{GoMaildir D} := {
  md_ok : D → Prop;
  md_has_spec d k : md_ok d → NoDup (keys_of d) → md_has d k = bool_decide (k ∈ keys_of d);
  md_Remove_ok d k : md_ok d → NoDup (keys_of d) → k ∈ keys_of d →
    (md_Remove d k).1 = true ∧ md_ok (md_Remove d k).2 ∧
    keys_of (md_Remove d k).2 = filter (λ k', k' ≠ k) (keys_of d);
}.

Lemma list_filter_id {A} (P : A → Prop) `{∀ x, Decision (P x)} (l : list A) :
  (∀ x, x ∈ l → P x) → filter P l = l.
Proof.
  induction l as [|x l IH]; intros Hl; [done|].
  rewrite filter_cons, decide_True, IH; [done| |]; intros; apply Hl; set_solver.
Qed.

(** Reconciling with keys that are all listed only drops entries. *)
Lemma reconcile_shrink cur ul :
  wf ul → (∀ k, k ∈ cur → is_Some (keyToUID ul !! k)) →
  let ul' := (reconcile cur ul).2 in
  wf ul' ∧ entries ul' = filter (λ e, key e ∈ (list_to_set cur : gset string)) (entries ul) ∧
  version ul' = version ul ∧ uidValidity ul' = uidValidity ul ∧ uidNext ul' = uidNext ul.
Proof.
  intros Hwf Hall. unfold reconcile.
  destruct (prune (list_to_set cur) (entries ul) ul) as [[kept ul1] ch] eqn:E.
  pose proof (prune_wf _ _ _ _ _ Hwf E) as Hwf2.
  destruct (prune_kept _ _ _ _ _ _ E) as (-> & Hv & Hva & Hnx & Hes & _).
  destruct (prune_lookup _ _ _ _ _ _ E) as [Hl1 _].
  set (kept := filter _ (entries ul)) in *.
  assert (newKeys (with_entries kept ul1) cur = []) as ->; [|done].
  apply elem_of_nil_inv. intros k [Hn Hk]%list_elem_of_filter. cbn in Hn. rewrite Hl1 in Hn.
  destruct (Hall k Hk) as [n Hn']. case_decide as Hd; [|congruence].
  apply list_elem_of_fmap in Hd as (e & -> & [He _]%list_elem_of_filter). by apply He, elem_of_list_to_set.
Qed.

Lemma printable_shrink ul ul' :
  printable ul → version ul' = version ul → uidValidity ul' = uidValidity ul → uidNext ul' = uidNext ul →
  (∀ e, e ∈ entries ul' → e ∈ entries ul) → printable ul'.
Proof.
  intros [Hv Hva Hh He] Ev Eva En Hsub. split; [by rewrite Ev|by rewrite Eva| |].
  - unfold render_header in *. by rewrite Ev, Eva, En.
  - rewrite Forall_forall in *. auto.
Qed.

Section ExpungeFacts.
Context {D : Type} `{GoMaildirLaws D, UnicodeCase}.
Implicit Types (d : D) (w : world D).

Lemma removeMessages_ok ks d :
  md_ok d → NoDup (keys_of d) →
  ∃ d', removeMessages ks d = (true, d') ∧ NoDup (keys_of d') ∧
        keys_of d' = filter (λ k, k ∉ ks) (keys_of d).
Proof.
  revert d. induction ks as [|k ks IH]; intros d Hok Hnd; cbn [removeMessages].
  { exists d. split_and!; [done..|]. symmetry. apply list_filter_id. set_solver. }
  rewrite md_has_spec by done. case_bool_decide as Hk.
  - destruct (md_Remove_ok d k Hok Hnd Hk) as (E & Hok' & Hk').
    destruct (md_Remove d k) as [b d1]. cbn [fst snd] in *. subst b.
    destruct (IH d1 Hok') as (d' & -> & Hnd' & Hks).
    { rewrite Hk'. by apply NoDup_filter. }
    exists d'. split_and!; [done..|]. rewrite Hks, Hk', list_filter_filter.
    apply list_filter_iff. intros x. set_solver.
  - destruct (IH d Hok Hnd) as (d' & -> & Hnd' & Hks).
    exists d'. split_and!; [done..|]. rewrite Hks, <-(list_filter_id (λ x, x ≠ k) (keys_of d)) at 1 by (intros ? ? ->; done).
    rewrite list_filter_filter. apply list_filter_iff. intros x. set_solver.
Qed.

(** The folder [path] on a working disk, with its stored UID list. *)
Record stored (path : string) (ul : uidList) (d : D) w : Prop := {
  st_dir : dirs w !! path = Some d;
  st_ok : md_ok d;
  st_nodup : NoDup (keys_of d);
  st_wf : wf ul;
  st_printable : printable ul;
  st_room : uidNext ul + Z.of_nat (length (keys_of d)) < 2 ^ 32;
  st_printable' : printable (reconcile (keys_of d) ul).2;
  st_file : ∃ fs, uidfiles w !! path = Some (mkFolder fs []) ∧ fs !! uidlistFile = Some (render ul);
}.

Lemma load_uids_ok path ul d w :
  stored path ul d w →
  ∃ fs, load_uids path (cur_keys path w) w = (Ok (reconcile (keys_of d) ul).2, put_uid path (mkFolder fs []) w) ∧
        fs !! uidlistFile = Some (render (reconcile (keys_of d) ul).2).
Proof.
  intros [Hdir _ Hnd Hwf Hpr Hroom _ (fs & Hfs & Hfile)].
  unfold load_uids, uid_folder, cur_keys. rewrite Hfs, Hdir. cbn [default fmap option_fmap option_map].
  change (curDirKeys _) with (keys_of d). cbn [sys faults].
  destruct (load_no_fault (now w) (keys_of d) ul fs) as (fs' & E & Hfs'); [done..|].
  unfold id. rewrite sys_no_fault, E. eauto.
Qed.

(** The keys of the marked messages. *)
Definition doomed (us : gset Z) (ul : uidList) : gset string :=
  list_to_set (omap (λ n, uidToKey ul !! n) (elements us)).
Lemma elem_of_doomed us ul k : k ∈ doomed us ul ↔ ∃ n, n ∈ us ∧ uidToKey ul !! n = Some k.
Proof.
  unfold doomed. rewrite elem_of_list_to_set, list_elem_of_omap. by setoid_rewrite elem_of_elements.
Qed.

Lemma listed_key cur ul k :
  wf ul → NoDup cur → uidNext ul + Z.of_nat (length cur) < 2 ^ 32 → k ∈ cur →
  is_Some (keyToUID (reconcile cur ul).2 !! k).
Proof.
  intros Hwf Hnd Hroom Hk.
  destruct (reconcile_shape cur ul Hwf Hnd Hroom) as (fresh & _ & _ & Hfr & Hwf' & _ & _ & _ & He & _).
  destruct (wf_indexed _ Hwf') as [Hi' _]. destruct (wf_indexed _ Hwf) as [Hi _].
  destruct (keyToUID ul !! k) as [n|] eqn:E.
  - exists n. apply Hi'. rewrite He. apply elem_of_app. left.
    apply list_elem_of_filter. split; [by apply elem_of_list_to_set|by apply Hi].
  - assert (k ∈ fresh) as [i Hf]%list_elem_of_lookup by (apply Hfr; auto).
    eexists. apply Hi'. rewrite He. apply elem_of_app. right. apply elem_of_fresh. eauto.
Qed.

(** What an expunge of the marks [us] promises about the folder [path]:
    [cur/] keeps exactly the messages that were not marked, the marks are
    forgotten, the cached list is dropped, and the file now on disk reads back
    as a well-formed list that gives every remaining message the UID it had,
    under the same UIDVALIDITY and UIDNEXT. *)
Definition expunged (delKey path : string) (us : gset Z) (ul : uidList) (d : D) w w' : Prop :=
  ∃ d' ul',
    deleted w' = delete delKey (deleted w) ∧ uidlistCache w' = delete path (uidlistCache w) ∧
    dirs w' = <[path := d']> (dirs w) ∧
    (∀ k, k ∈ keys_of d' ↔ k ∈ keys_of d ∧ ¬ ∃ n, n ∈ us ∧ uidToKey ul !! n = Some k) ∧
    (readUIDList (uid_folder path w')).1 = Ok (Some ul') ∧ wf ul' ∧
    (∀ k n, keyToUID ul' !! k = Some n ↔ keyToUID ul !! k = Some n ∧ k ∈ keys_of d') ∧
    uidValidity ul' = uidValidity ul ∧ uidNext ul' = uidNext ul.

Lemma expunge_at_exact path us ul d w delKey w0 :
  stored path ul d w → deleted w = delete delKey (deleted w0) → uidlistCache w = uidlistCache w0 →
  dirs w = dirs w0 →
  let '(r, w') := expunge_at path us w in
  r = None ∧ expunged delKey path us (reconcile (keys_of d) ul).2 d w0 w'.
Proof.
  intros Hst Edel Ecache Edirs. unfold expunge_at.
  destruct (load_uids_ok _ _ _ _ Hst) as (fs & -> & Hfs).
  destruct Hst as [Hdir Hok Hnd Hwf Hpr Hroom Hpr' _].
  destruct (reconcile_shape _ _ Hwf Hnd Hroom) as (_ & _ & _ & _ & Hwf1 & _).
  pose proof (λ k, listed_key _ ul k Hwf Hnd Hroom) as Hlisted.
  set (ul1 := (reconcile (keys_of d) ul).2) in *. cbn [put_uid dirs]. rewrite Hdir.
  change (list_to_set (omap (λ n, uidToKey ul1 !! n) (elements us))) with (doomed us ul1).
  destruct (removeMessages_ok (elements (doomed us ul1)) d Hok Hnd) as (d' & -> & Hnd' & Hkeys).
  assert (∀ k, k ∈ keys_of d' ↔ k ∈ keys_of d ∧ ¬ ∃ n, n ∈ us ∧ uidToKey ul1 !! n = Some k) as Hk'.
  { intros k. rewrite Hkeys, list_elem_of_filter, elem_of_elements, elem_of_doomed. tauto. }
  assert (cur_keys path (put_dir path d' (put_uid path (mkFolder fs []) w)) = keys_of d') as ->.
  { unfold cur_keys. cbn. by rewrite lookup_insert_eq. }
  assert (uid_folder path (put_dir path d' (put_uid path (mkFolder fs []) w)) = mkFolder fs []) as ->.
  { unfold uid_folder. cbn. by rewrite lookup_insert_eq. }
  destruct (reconcile_shrink (keys_of d') ul1 Hwf1) as (Hwf2 & He & Ev & Eva & En).
  { intros k [? _]%Hk'. auto. }
  set (ul2 := (reconcile (keys_of d') ul1).2) in *.
  assert (printable ul2) as Hpr2.
  { apply (printable_shrink ul1); [done..|]. rewrite He. by intros e [_ ?]%list_elem_of_filter. }
  rewrite write_no_fault. split; [done|]. exists d', ul2.
  split_and!; [done|by cbn; rewrite Ecache|by cbn; rewrite Edirs|done| |done| |done..].
  - unfold uid_folder. cbn [invalidateUIDListCache set_cache put_uid uidfiles].
    rewrite lookup_insert_eq. cbn [default id].
    by rewrite readUIDList_no_fault, lookup_insert_eq, parse_render.
  - intros k n. rewrite (proj1 (wf_indexed _ Hwf2)), (proj1 (wf_indexed _ Hwf1)), He.
    rewrite list_elem_of_filter, elem_of_list_to_set. cbn [key]. tauto.
Qed.

Lemma expunge_marked_exact delKey missing path us ul d w :
  deleted w !! delKey = Some us → us ≠ ∅ → stored path ul d w →
  let '(r, w') := expunge_marked delKey missing (Ok path) w in
  r = None ∧ expunged delKey path us (reconcile (keys_of d) ul).2 d w w'.
Proof.
  intros Hdel Hus Hst. unfold expunge_marked. rewrite Hdel. cbn zeta. rewrite decide_False by done.
  unfold exists_. rewrite bool_decide_true by (cbn; rewrite (st_dir _ _ _ _ Hst); eauto).
  apply expunge_at_exact; [|done..]. by destruct Hst; split.
Qed.

Variable s : layout.

(** C7 (functional): on a working disk, [Expunge] of a mailbox with deletion
    marks removes from [cur/] exactly the messages whose UIDs are marked and
    keeps every other one, forgets the marks, drops the cached UID list, and
    leaves on disk a UID list in which each remaining message keeps the UID it
    had, with UIDVALIDITY and UIDNEXT unchanged. *)
Theorem expunge_exact (mailbox path : string) (us : gset Z) (ul : uidList) (d : D) (w : world D)
    (Hpath : mailboxPath s mailbox = Ok path) (Hmarks : deleted w !! mailbox = Some us) (Hus : us ≠ ∅)
    (Hst : stored path ul d w) :
  let '(r, w') := Expunge s mailbox w in
  r = None ∧ expunged mailbox path us (reconcile (keys_of d) ul).2 d w w'.
Proof. unfold Expunge. rewrite Hpath. by apply expunge_marked_exact. Qed.

(** The same for a folder. *)
Lemma expunge_folder_exact mailbox folder path us ul d w :
  folderPath s mailbox folder = Ok path → deleted w !! folderDeletionKey mailbox folder = Some us → us ≠ ∅ →
  stored path ul d w →
  let '(r, w') := ExpungeFolder s mailbox folder w in
  r = None ∧ expunged (folderDeletionKey mailbox folder) path us (reconcile (keys_of d) ul).2 d w w'.
Proof. intros Hpath ???. unfold ExpungeFolder. rewrite Hpath. by apply expunge_marked_exact. Qed.
End ExpungeFacts.

(** ** A concrete maildir *)
Module MdDemo.
Record box := mkBox { b_cur : list (string * string); b_new : list (string * string); b_next : Z }.
Definition fresh_key (b : box) : string := "k" +:+ fmt_d (b_next b).
Definition file_key (f : string * string) : string := key_of_name f.1.
Definition find_key (b : box) (k : string) : option (string * string) :=
  head (filter (λ f, file_key f = k) (b_cur b)).
Definition file_flags (f : string * string) : list ascii :=
  match cut "," f.1 with Some (_, fs) => String.list_ascii_of_string fs | None => [] end.

#[export] Instance demo_case : UnicodeCase := {| unicode_upper := id; unicode_lower := id; unicode_fold := λ _ _, false |}.
#[export] Instance box_maildir : GoMaildir box := {|
  md_create _ := Some (mkBox [] [] 1);
  md_cur b := (λ f, (f.1, false)) <$> b_cur b;
  md_new b := (λ f, (f.1, false)) <$> b_new b;
  md_Unseen b := (Ok (b_new b).*1,
    mkBox (b_cur b ++ ((λ f, (f.1 +:+ ":2,", f.2)) <$> b_new b)) [] (b_next b));
  md_Messages b := Ok ((λ f, (file_key f, file_flags f)) <$> b_cur b);
  md_stat b k := (λ f, (Z.of_nat (String.length f.2), 0)) <$> find_key b k;
  md_has b k := bool_decide (k ∈ file_key <$> b_cur b);
  md_Open b k := match find_key b k with Some f => Ok (Content f.2) | None => Err EIO end;
  md_Remove b k := (true, mkBox (filter (λ f, file_key f ≠ k) (b_cur b)) (b_new b) (b_next b));
  md_Deliver b data := (None, mkBox (b_cur b) (b_new b ++ [(fresh_key b, data)]) (b_next b + 1));
  md_SetFlags b k fs := (None,
    mkBox ((λ f, if decide (file_key f = k) then (k +:+ ":" +:+ infoFromFlags fs, f.2) else f) <$> b_cur b)
      (b_new b) (b_next b));
  md_CopyTo b k dst := match find_key b k with
    | Some f => (None, mkBox (b_cur dst ++ [(fresh_key dst +:+ ":2,", f.2)]) (b_new dst) (b_next dst + 1))
    | None => (Some EIO, dst)
    end;
  md_new_to_cur b k name := match head (filter (λ f, f.1 = k) (b_new b)) with
    | Some f => (None, mkBox (b_cur b ++ [(name, f.2)]) (filter (λ f, f.1 ≠ k) (b_new b)) (b_next b))
    | None => (Some EIO, b)
    end;
|}.

Lemma keys_of_box b : keys_of b = file_key <$> b_cur b.
Proof.
  unfold keys_of. cbn. induction (b_cur b) as [|f fs IH]; [done|].
  rewrite fmap_cons, filter_cons, decide_True by done. rewrite !fmap_cons. by f_equal.
Qed.
#[export] Program Instance box_laws : GoMaildirLaws box := {| md_ok _ := True |}.
Next Obligation. intros b k _ _. by rewrite keys_of_box. Qed.
Next Obligation.
  intros b k _ _ _. split_and!; [done..|]. rewrite !keys_of_box. cbn [md_Remove box_maildir snd b_cur].
  induction (b_cur b) as [|f fs IH]; [done|]. rewrite fmap_cons, !filter_cons.
  repeat case_decide; try done. by rewrite fmap_cons, IH.
Qed.

Definition lay : layout := mkLayout "/m" "" "".
Definition inbox : box := mkBox [("1600.a:2,S", "first"); ("1700.b:2,", "second")] [] 1.
Definition uids (u : uidList) : folder := mkFolder {[uidlistFile := render u]} [].
Definition w0 : world box :=
  mkWorld {["alice@x" := {[1]}]} ∅ {["/m/alice" := inbox]} {["/m/alice" := uids sample_ul]} 1800000000.
Lemma inbox_stored : stored "/m/alice" sample_ul inbox w0.
Proof.
  assert ((reconcile (keys_of inbox) sample_ul).2 = sample_ul) as E by (vm_compute; reflexivity).
  split; [by vm_compute|exact I| |apply sample_ul_wf|apply sample_ul_printable|by vm_compute| |].
  - apply (bool_decide_unpack _). vm_compute. exact I.
  - rewrite E. apply sample_ul_printable.
  - eexists. split; [apply lookup_singleton_eq|apply lookup_singleton_eq].
Qed.
End MdDemo.

Section OnMdDemo.
Import MdDemo.
Lemma expunge_exact_witness :
  let '(r, w') := Expunge lay "alice@x" w0 in
  (r = None ∧ expunged "alice@x" "/m/alice" {[1]} (reconcile (keys_of inbox) sample_ul).2 inbox w0 w') ∧
  cur_keys "/m/alice" w' = ["1700.b"].
Proof.
  pose proof (expunge_exact lay "alice@x" "/m/alice" {[1]} sample_ul inbox w0) as E.
  assert (cur_keys "/m/alice" (Expunge lay "alice@x" w0).2 = ["1700.b"]) as K by (vm_compute; reflexivity).
  destruct (Expunge lay "alice@x" w0) as [r w']. split; [|exact K].
  apply E; [vm_compute; reflexivity|apply lookup_singleton_eq|set_solver|apply inbox_stored].
Defined.

(** Reading [cur/] before taking the lock: a message appended in between gets
    UID 3, is dropped from the list by the stale keys, and is given UID 4. *)
Lemma stale_keys_change_uid :
  let keys := cur_keys "/m/alice" w0 in
  let '(r1, w1) := AppendToFolder lay "alice@x" "INBOX" "third" [] w0 in
  let '(_, w2) := list_locked "/m/alice" "alice@x" [] keys w1 in
  let '(r3, _) := List_ lay "alice@x" w2 in
  r1 = Ok 3 ∧
  match r3 with Ok ms => (λ m, (UID m, Key m)) <$> ms = [(2, "1700.b"); (4, "k1")] | Err _ => False end.
Proof. by vm_compute. Qed.

(** [CopyMessage] answers with the last UID handed out. When the destination
    holds another unlisted key that sorts after the copy's, that is the other
    message's UID. *)
Definition w_copy : world box :=
  put_dir "/m/alice/.Sent" (mkBox [("z9:2,", "other")] [] 1) w0.
Lemma copy_answers_another_uid :
  let '(r, w1) := CopyMessage lay "alice@x" "INBOX" 2 "Sent" w_copy in
  let '(l, _) := ListInFolder lay "alice@x" "Sent" w1 in
  r = Ok 2 ∧
  match l with Ok ms => (λ m, (UID m, Key m)) <$> ms = [(1, "k1"); (2, "z9")] | Err _ => False end.
Proof. by vm_compute. Qed.

(** [Deliver] reports success when at least one recipient got a copy. *)
Lemma partial_delivery_succeeds :
  let '(r, xs, _) := Deliver lay ["alice@x"; "../etc@x"] (Ok "mail") w0 in
  r = None ∧ xs = [("alice@x", "INBOX")].
Proof. by vm_compute. Qed.

(** [DeleteFolder] and [RenameFolder] leave the cached UID list of the path.
    A folder renamed to the name of a deleted one is read through the list of
    the deleted one, so its message cannot be retrieved until it is listed. *)
Definition w_folders : world box :=
  put_dir "/m/alice/.Moved" (mkBox [("n1:2,", "wanted")] [] 2)
    (put_dir "/m/alice/.Old" (mkBox [("o1:2,", "old")] [] 2) w0).
Lemma stale_cache_after_rename :
  let '(_, w1) := ListInFolder lay "alice@x" "Old" w_folders in
  let '(_, w2) := DeleteFolder lay true "alice@x" "Old" w1 in
  let '(_, w3) := RenameFolder lay true "alice@x" "Moved" "Old" w2 in
  let '(r, _) := RetrieveFromFolder lay "alice@x" "Old" 1 w3 in
  let '(_, w4) := ListInFolder lay "alice@x" "Old" w3 in
  let '(r', _) := RetrieveFromFolder lay "alice@x" "Old" 1 w4 in
  r = Err EIO ∧ r' = Ok (Content "wanted").
Proof. by vm_compute. Qed.

(** The check on the expanded path keeps it under the base directory, not
    under the mailbox: a mailbox name with dots reaches another mailbox. *)
Lemma dots_reach_another_mailbox :
  mailboxPath lay "alice/../bob@x" = Ok "/m/bob" ∧ mailboxPath lay "../etc@x" = Err EPathTraversal.
Proof. by vm_compute. Qed.
End OnMdDemo.
