(* ===== verification/Disk.v ===== *)
(** * A disk of files and the calls that change it

    The file operations the account management uses ([os], [syscall]) as a
    state and error monad over the folder of [UidList]: files by path, and a
    schedule of outcomes that every call takes one element from. A failed write
    leaves a prefix of what was to be written. Directories only matter as places
    where creation can fail. *)
From S2P Require Import Prelude GoStrings UidList.
From Stdlib Require Import ZArith Ascii.
Open Scope string_scope.
Open Scope list_scope.

Definition io (E A : Type) : Type := folder → result A E * folder.

Section Io.
Context {E : Type}.

Definition ret {A} (a : A) : io E A := λ w, (Ok a, w).
Definition fail {A} (e : E) : io E A := λ w, (Err e, w).
Definition bind {A B} (m : io E A) (k : A → io E B) : io E B := λ w,
  match m w with
  | (Ok a, w) => k a w
  | (Err e, w) => (Err e, w)
  end.

(** [if err := m; err != nil { cleanup; return err }] *)
Definition on_error {A} (m : io E A) (cleanup : folder → folder) : io E A := λ w,
  match m w with
  | (Ok a, w) => (Ok a, w)
  | (Err e, w) => (Err e, cleanup w)
  end.

(** One call with the given effect on the files; [e] is the error reported. *)
Definition call (e : E) (effect : gmap string string → gmap string string) : io E unit := λ w,
  match sys w with
  | (Done, w) => (Ok (), set_files effect w)
  | (Fault _, w) => (Err e, w)
  end.
(** [MkdirAll], [Flock], [Seek], [Sync], [Close] *)
Definition call_ (e : E) : io E unit := call e id.

Definition open_create (e : E) (p : string) : io E unit :=
  call e (λ m, match m !! p with Some _ => m | None => <[p := ""]> m end).
Definition open_trunc (e : E) (p : string) : io E unit := call e (insert p "").
Definition truncate (e : E) (p : string) : io E unit := call e (insert p "").

(** Writing [content] to an empty file. *)
Definition write_all (e : E) (p content : string) : io E unit := λ w,
  match sys w with
  | (Done, w) => (Ok (), set_files (insert p content) w)
  | (Fault n, w) => (Err e, set_files (insert p (stake n content)) w)
  end.

Definition rename (e : E) (src dst : string) : io E unit :=
  call e (λ m, match m !! src with
               | Some c => <[dst := c]> (delete src m)
               | None => m
               end).

(** [os.ReadFile]: [None] when the file does not exist. *)
Definition read_file (e : E) (p : string) : io E (option string) := λ w,
  match sys w with
  | (Done, w) => (Ok (files w !! p), w)
  | (Fault _, w) => (Err e, w)
  end.
End Io.

Declare Scope io_scope.
Delimit Scope io_scope with io.
Notation "'let!' x ':=' m 'in' k" := (bind m (λ x, k))
  (at level 200, x pattern, m at level 100, k at level 200, right associativity) : io_scope.
Notation "m ';!' k" := (bind m (λ _, k)) (at level 100, right associativity) : io_scope.

(** ** Without faults *)
Section Quiet.
Context {E : Type}.
Implicit Types m : gmap string string.

Lemma bind_eq {A B} (c : io E A) (k : A → io E B) w a w' :
  c w = (Ok a, w') → bind c k w = k a w'.
Proof. unfold bind. by intros ->. Qed.
Lemma bind_err {A B} (c : io E A) (k : A → io E B) w e w' :
  c w = (Err e, w') → bind c k w = (Err e, w').
Proof. unfold bind. by intros ->. Qed.
Lemma bind_assoc {A B C} (c : io E A) (k : A → io E B) (l : B → io E C) w :
  bind (bind c k) l w = bind c (λ a, bind (k a) l) w.
Proof. unfold bind. by destruct (c w) as [[]]. Qed.

Lemma call_quiet (e : E) f m : call e f (mkFolder m []) = (Ok (), mkFolder (f m) []).
Proof. done. Qed.
Lemma write_all_quiet (e : E) p c m :
  write_all e p c (mkFolder m []) = (Ok (), mkFolder (<[p := c]> m) []).
Proof. done. Qed.
Lemma read_file_quiet (e : E) p m : read_file e p (mkFolder m []) = (Ok (m !! p), mkFolder m []).
Proof. done. Qed.
End Quiet.

(** ** Replacing a file by way of a temporary file

    Create, write, (sync,) close, rename; the temporary file is removed when a
    step after its creation fails. *)
Section Replace.
Context {E : Type} (eopen ewrite esync eclose erename : E).

Definition replace_file (sync : bool) (tmp p content : string) : io E unit :=
  (open_trunc eopen tmp ;!
   on_error (write_all ewrite tmp content ;!
             (if sync then call_ esync else ret ()) ;!
             call_ eclose ;!
             rename erename tmp p) (os_remove tmp))%io.

Lemma replace_file_quiet sync tmp p content m :
  replace_file sync tmp p content (mkFolder m []) =
  (Ok (), mkFolder (<[p := content]> (delete tmp m)) []).
Proof.
  unfold replace_file, on_error. cbv [bind open_trunc call write_all sys call_ rename ret].
  cbn. unfold set_files. destruct sync; cbn; rewrite lookup_insert_eq;
    do 3 f_equal; by rewrite insert_insert_eq, delete_insert_eq.
Qed.

(** What a reader of [p] can see under any faults: the old file or the whole
    new one, and no other file but the temporary one changes. *)
Lemma replace_file_atomic sync tmp p content w :
  tmp ≠ p →
  let '(r, w') := replace_file sync tmp p content w in
  (files w' !! p = match r with Ok _ => Some content | Err _ => files w !! p end) ∧
  (∀ q, q ≠ p → q ≠ tmp → files w' !! q = files w !! q).
Proof.
  intros Hne. unfold replace_file, on_error.
  cbv [bind open_trunc call write_all call_ rename ret os_remove].
  repeat match goal with
  | |- context [sys ?w0] =>
      let E := fresh "E" in
      assert (files (sys w0).2 = files w0) by (unfold sys; by destruct (faults w0));
      destruct (sys w0) as [[|?] ?] eqn:E; cbn in *
  | |- context [if ?b then _ else _] => destruct b; cbn
  end;
  repeat match goal with
  | H : files _ = _ |- _ => cbn in H; rewrite H in *; clear H
  end; unfold id; cbn; rewrite ?lookup_insert_eq;
  (split; [|intros q Hq1 Hq2]);
  rewrite ?lookup_delete_ne, ?lookup_insert_ne, ?lookup_insert_eq, ?lookup_delete_ne by done;
  rewrite ?lookup_insert_ne, ?lookup_insert_eq by done; try done.
Qed.
End Replace.
