(* ===== verification/Identity.v ===== *)
(** * Allocation of user and group identifiers

    Model of [src/auth/identity] (the counter, the map files and the manager
    that writes them) and of [src/internal/idrange], over the disk of [Disk].
    The TOML decoder is third-party code: the class [Toml]. [flock] makes whole
    operations on one map exclusive, so a history is a sequence of operations. *)
From S2P Require Import Prelude GoStrings UidList FilePath Disk.
From Stdlib Require Import ZArith Lia Ascii Sorted.
Open Scope string_scope.
Open Scope list_scope.
Open Scope Z_scope.
Open Scope io_scope.

(** ** Ranges *)
Definition AllocatorFloor : Z := 10000.
Definition ExcludedBandLow : Z := 65532.
Definition ExcludedBandHigh : Z := 65535.

Definition Allocatable (id : Z) : bool :=
  (AllocatorFloor <=? id) && ((id <? ExcludedBandLow) || (ExcludedBandHigh <? id)).
Definition Reserved (id : Z) : bool := negb (id =? 0) && negb (Allocatable id).

Inductive handlerErr := BadHandlerUID (id : Z) | BadHandlerGID (id : Z) | BadHandlerGroup (id : Z).
Fixpoint check_groups (groups : list Z) : result unit handlerErr :=
  match groups with
  | [] => Ok ()
  | g :: rest => if negb (Reserved g) then Err (BadHandlerGroup g) else check_groups rest
  end.
Definition CheckHandlerIDs (uid gid : Z) (groups : list Z) : result unit handlerErr :=
  if negb (uid =? 0) && negb (Reserved uid) then Err (BadHandlerUID uid)
  else if negb (gid =? 0) && negb (Reserved gid) then Err (BadHandlerGID gid)
  else check_groups groups.

(** ** Errors and the manager *)
Inductive idErr :=
| ErrNoGID | ErrNoUID | ErrGIDExists | ErrUIDExists | ErrNotAllocatable
| ErrCreateDir | ErrOpen | ErrLock | ErrParseCounter | ErrTruncate | ErrSeek
| ErrWriteCounter | ErrReadMap | ErrParseMap | ErrOpenTmp | ErrWriteTmp
| ErrSyncTmp | ErrCloseTmp | ErrRename.
#[export] Instance idErr_eq_dec : EqDecision idErr.
Proof. solve_decision. Defined.

Record Manager := mkManager { Config : string; Data : string }.
Definition NewManager (configPath dataPath : string) : Manager := mkManager configPath dataPath.

Definition counterFile : string := ".uid-counter".
Definition firstID : Z := AllocatorFloor.
Definition GIDMapFile : string := "gid.toml".
Definition UIDMapFile : string := "uid.toml".
Definition gidMapPath (configPath : string) : string := Join [configPath; GIDMapFile].
Definition uidMapPath (configPath domain : string) : string := Join [configPath; domain; UIDMapFile].

(** ** The counter *)
(** [n, _ := f.Read(buf)]: at most 32 bytes, and a failed read reads nothing. *)
Definition read_counter (p : string) : io idErr string := λ w,
  match sys w with
  | (Done, w) => (Ok (stake 32 (default "" (files w !! p))), w)
  | (Fault _, w) => (Ok "", w)
  end.

Definition parse_counter (raw : string) : io idErr Z :=
  if decide (raw = "") then ret firstID
  else match ParseUint 32 raw with
       | None => fail ErrParseCounter
       | Some v => ret v
       end.

Definition skip_band (next : Z) : Z :=
  if (ExcludedBandLow <=? next) && (next <=? ExcludedBandHigh) then ExcludedBandHigh + 1
  else next.

Definition allocateID (dataPath : string) : io idErr Z :=
  let counterPath := Join [dataPath; counterFile] in
  call_ ErrCreateDir ;!
  open_create ErrOpen counterPath ;!
  call_ ErrLock ;!
  let! buf := read_counter counterPath in
  let! v := parse_counter (TrimSpace buf) in
  let next := skip_band v in
  truncate ErrTruncate counterPath ;!
  call_ ErrSeek ;!
  write_all ErrWriteCounter counterPath (fmt_d (wrap_uint32 (next + 1)) +:+ String LF "") ;!
  ret next.

(** ** The map files *)
(** What [toml.Unmarshal] makes of a file, as a map to [uint32]. *)
Class Toml := Unmarshal : string → option (gmap string Z).

Definition gidMapHeader : string :=
"domain = gid. Authoritative OS group allocation for every mail domain
using the local passwd-files provider. Managed ONLY by the identity package
(via userctl / webadmin). Allocate-once; never reassign a live domain.
Do NOT hand-edit and do NOT render this from IaC.
See infodancer/docs/identity-allocation-design.md.".
Definition uidMapHeader : string :=
"localpart = uid. Authoritative OS user allocation for this domain
using the local passwd-files provider. Managed ONLY by the identity package
(via userctl / webadmin). Allocate-once; never reassign a live user.
See infodancer/docs/identity-allocation-design.md.".

(** [strings.TrimRight(s, "\n")] *)
Fixpoint trim_right_lf (s : string) : string :=
  match s with
  | "" => ""
  | String c s' =>
      match trim_right_lf s' with
      | "" => if Ascii.eqb c LF then "" else String c ""
      | t => String c t
      end
  end.

Section Maps.
Context `{UnicodeQuote, Toml}.

Definition quoteKey (k : string) : string := Quote k.

Definition render_pair (m : gmap string Z) (k : string) : string :=
  quoteKey k +:+ " = " +:+ fmt_d (default 0 (m !! k)).
Definition render_map (header : string) (m : gmap string Z) : string :=
  let keys := (map_to_list m).*1 in
  unlines LF (((λ line, "# " +:+ line) <$> Split LF (trim_right_lf header)) ++ [""]
              ++ (render_pair m <$> sort_Strings keys)).

Definition loadMap (path : string) : io idErr (gmap string Z) :=
  let! data := read_file ErrReadMap path in
  match data with
  | None => ret ∅
  | Some s => match Unmarshal s with
              | None => fail ErrParseMap
              | Some m => ret m
              end
  end.

Definition storeMap (path header : string) (m : gmap string Z) : io idErr unit :=
  call_ ErrCreateDir ;!
  replace_file ErrOpenTmp ErrWriteTmp ErrSyncTmp ErrCloseTmp ErrRename true
    (path +:+ ".tmp") path (render_map header m).

(** ** Reading *)
Definition DomainGID (configPath domain : string) : io idErr Z :=
  let! m := loadMap (gidMapPath configPath) in
  match m !! domain with None => fail ErrNoGID | Some gid => ret gid end.
Definition UserUID (configPath domain localpart : string) : io idErr Z :=
  let! m := loadMap (uidMapPath configPath domain) in
  match m !! localpart with None => fail ErrNoUID | Some uid => ret uid end.

(** ** Writing *)
Definition lockFile (path : string) : io idErr unit :=
  call_ ErrCreateDir ;! open_create ErrOpen path ;! call_ ErrLock.

(** The bodies shared by the two maps are written out in the source for each;
    [p], [header], [exists_err] are the map's path, header and sentinel error.
    [Ok (id, Some e)] is [return id, e]; [Err e] is [return 0, e]. *)
Definition allocate_in (p header : string) (exists_err : idErr) (data key : string)
  : io idErr (Z * option idErr) :=
  lockFile (p +:+ ".lock") ;!
  let! cur := loadMap p in
  match cur !! key with
  | Some id => ret (id, Some exists_err)
  | None =>
      let! id := allocateID data in
      storeMap p header (<[key := id]> cur) ;!
      ret (id, None)
  end.

Definition set_in (p header : string) (exists_err : idErr) (key : string) (id : Z)
  : io idErr unit :=
  if negb (Allocatable id) then fail ErrNotAllocatable
  else
    lockFile (p +:+ ".lock") ;!
    let! cur := loadMap p in
    match cur !! key with
    | Some existing => if existing =? id then ret () else fail exists_err
    | None => storeMap p header (<[key := id]> cur)
    end.

Definition remove_in (p header key : string) : io idErr unit :=
  lockFile (p +:+ ".lock") ;!
  let! cur := loadMap p in
  match cur !! key with
  | None => ret ()
  | Some _ => storeMap p header (delete key cur)
  end.

Definition AllocateDomainGID (m : Manager) (domain : string) : io idErr (Z * option idErr) :=
  allocate_in (gidMapPath (Config m)) gidMapHeader ErrGIDExists (Data m) domain.
Definition SetDomainGID (m : Manager) (domain : string) (gid : Z) : io idErr unit :=
  set_in (gidMapPath (Config m)) gidMapHeader ErrGIDExists domain gid.
Definition RemoveDomainGID (m : Manager) (domain : string) : io idErr unit :=
  remove_in (gidMapPath (Config m)) gidMapHeader domain.
Definition AllocateUserUID (m : Manager) (domain localpart : string)
  : io idErr (Z * option idErr) :=
  allocate_in (uidMapPath (Config m) domain) uidMapHeader ErrUIDExists (Data m) localpart.
Definition SetUserUID (m : Manager) (domain localpart : string) (uid : Z) : io idErr unit :=
  set_in (uidMapPath (Config m) domain) uidMapHeader ErrUIDExists localpart uid.
Definition RemoveUser (m : Manager) (domain localpart : string) : io idErr unit :=
  remove_in (uidMapPath (Config m) domain) uidMapHeader localpart.
End Maps.

(** ** What the decoder is relied on for

    TOML basic strings hold printable ASCII with quotation marks and
    backslashes escaped, as [strconv.Quote] writes them; comments and blank
    lines are ignored. *)
Definition printable_byte (c : ascii) : bool :=
  let n := nat_of_ascii c in Nat.leb 32 n && Nat.leb n 126.
Definition key_text (s : string) : Prop := sforall printable_byte s = true.
Definition header_text (s : string) : Prop :=
  sforall (λ c, printable_byte c || Ascii.eqb c LF) s = true.
Definition map_text (m : gmap string Z) : Prop :=
  map_Forall (λ k v, key_text k ∧ in_uint32 v) m.

Class TomlLaws `{UnicodeQuote, Toml} : Prop :=
  Unmarshal_render : ∀ header m,
    header_text header → map_text m → Unmarshal (render_map header m) = Some m.

(** ** The registry the manager implements *)
Record registry := mkRegistry { counter : Z; recs : gmap (string * string) Z }.

Definition reg_alloc (p k : string) (r : registry) : (Z * bool) * registry :=
  match recs r !! (p, k) with
  | Some id => ((id, false), r)
  | None => let id := skip_band (counter r) in
            ((id, true), mkRegistry (wrap_uint32 (id + 1)) (<[(p, k) := id]> (recs r)))
  end.
Definition reg_set (p k : string) (id : Z) (r : registry) : result unit unit * registry :=
  if negb (Allocatable id) then (Err (), r)
  else match recs r !! (p, k) with
       | Some old => (if old =? id then Ok () else Err (), r)
       | None => (Ok (), mkRegistry (counter r) (<[(p, k) := id]> (recs r)))
       end.
Definition reg_remove (p k : string) (r : registry) : registry :=
  mkRegistry (counter r) (delete (p, k) (recs r)).

(** ** Paths: the files of the manager never coincide *)
Definition map_path (config p : string) : Prop :=
  p = gidMapPath config ∨ ∃ d, p = uidMapPath config d.

Lemma plain_elem_intro e :
  has_byte slash e = false → negb (bool_decide (e ∈ [""; "."; ".."])) = true → plain_elem e.
Proof.
  intros H1 H2%negb_true_iff%bool_decide_eq_false. split; [done|]. set_solver.
Qed.

Lemma map_path_end config p : map_path config p → slast 3 p = "oml".
Proof.
  intros [->|[d ->]]; [apply (Join_slast 3 [config] GIDMapFile)
                      |apply (Join_slast 3 [config; d] UIDMapFile)];
    try by apply plain_elem_intro.
  all: unfold GIDMapFile, UIDMapFile; cbn; lia.
Qed.

Lemma counter_path_end data : slast 3 (Join [data; counterFile]) = "ter".
Proof.
  apply (Join_slast 3 [data] counterFile); [by apply plain_elem_intro|].
  unfold counterFile. cbn. lia.
Qed.

Lemma tmp_path_end p : slast 3 (p +:+ ".tmp") = "tmp".
Proof. rewrite slast_app; [done|cbn; lia]. Qed.
Lemma lock_path_end p : slast 3 (p +:+ ".lock") = "ock".
Proof. rewrite slast_app; [done|cbn; lia]. Qed.

(** Two paths with different ends. *)
Ltac path_ne :=
  let E := fresh in intros E; apply (f_equal (slast 3)) in E;
  rewrite ?tmp_path_end, ?lock_path_end, ?counter_path_end in E;
  repeat match goal with
  | H : map_path _ _ |- _ => rewrite (map_path_end _ _ H) in E; clear H
  end; discriminate E.

Lemma gid_uid_path config d : gidMapPath config ≠ uidMapPath config d.
Proof.
  intros E%(f_equal (slast 8)). revert E. unfold gidMapPath, uidMapPath.
  pose proof (Join_slast 8 [config] GIDMapFile) as E1.
  pose proof (Join_slast 8 [config; d] UIDMapFile) as E2. cbn [app] in E1, E2.
  rewrite E1, E2; [discriminate|try by apply plain_elem_intro..];
    unfold GIDMapFile, UIDMapFile; cbn; lia.
Qed.

(** ** The parts of an operation without faults *)
Section Quiet.
Context `{UnicodeQuote, Toml, !TomlLaws}.

Definition loaded (fs : gmap string string) (p : string) : option (gmap string Z) :=
  match fs !! p with None => Some ∅ | Some s => Unmarshal s end.

Definition counter_of (data : string) (fs : gmap string string) : option Z :=
  let raw := TrimSpace (stake 32 (default "" (fs !! Join [data; counterFile]))) in
  if decide (raw = "") then Some firstID else ParseUint 32 raw.

Definition created (p : string) (fs : gmap string string) : gmap string string :=
  match fs !! p with Some _ => fs | None => <[p := ""]> fs end.

Lemma created_ne p q fs : q ≠ p → created p fs !! q = fs !! q.
Proof. unfold created. intros. destruct (fs !! p); [done|]. by rewrite lookup_insert_ne. Qed.
Lemma created_default p q fs : default "" (created p fs !! q) = default "" (fs !! q).
Proof.
  destruct (decide (q = p)) as [->|]; [|by rewrite created_ne].
  unfold created. destruct (fs !! p) eqn:E; [by rewrite E|]. by rewrite lookup_insert_eq.
Qed.

Lemma loadMap_quiet p fs m :
  loaded fs p = Some m → loadMap p (mkFolder fs []) = (Ok m, mkFolder fs []).
Proof.
  unfold loaded, loadMap. intros E. rewrite (bind_eq _ _ _ _ _ (read_file_quiet _ _ _)).
  destruct (fs !! p); [|by injection E as <-]. by rewrite E.
Qed.

Lemma lockFile_quiet p fs : lockFile p (mkFolder fs []) = (Ok (), mkFolder (created p fs) []).
Proof. done. Qed.

Lemma storeMap_quiet p h m fs :
  storeMap p h m (mkFolder fs []) =
  (Ok (), mkFolder (<[p := render_map h m]> (delete (p +:+ ".tmp") fs)) []).
Proof.
  unfold storeMap. erewrite bind_eq by apply call_quiet. apply replace_file_quiet.
Qed.

Lemma counter_line_read z :
  in_uint32 z → TrimSpace (stake 32 (fmt_d z +:+ String LF "")) = fmt_d z.
Proof.
  unfold in_uint32. intros Hz. rewrite stake_ge.
  - apply TrimSpace_app; [apply fmt_d_plain; lia|apply fmt_d_nonempty; lia|done].
  - rewrite slen_app. pose proof (fmt_d_length 10 z). cbn [String.length]. lia.
Qed.

Lemma allocateID_quiet data fs c :
  counter_of data fs = Some c → in_uint32 c →
  ∃ fs', allocateID data (mkFolder fs []) = (Ok (skip_band c), mkFolder fs' []) ∧
    counter_of data fs' = Some (wrap_uint32 (skip_band c + 1)) ∧
    ∀ q, q ≠ Join [data; counterFile] → fs' !! q = fs !! q.
Proof.
  intros Hc Hr. set (p := Join [data; counterFile]).
  exists (<[p := fmt_d (wrap_uint32 (skip_band c + 1)) +:+ String LF ""]> (<[p := ""]> (created p fs))).
  split_and!.
  - unfold allocateID. fold p. erewrite bind_eq by apply call_quiet.
    erewrite bind_eq by apply call_quiet. erewrite bind_eq by apply call_quiet.
    unfold id. fold (created p fs).
    assert (read_counter p (mkFolder (created p fs) []) =
      (Ok (stake 32 (default "" (fs !! p))), mkFolder (created p fs) [])) as Hrd.
    { unfold read_counter. cbn. by rewrite created_default. }
    erewrite bind_eq by exact Hrd.
    assert (∀ w, parse_counter (TrimSpace (stake 32 (default "" (fs !! p)))) w = (Ok c, w)) as Hp.
    { intros w. unfold parse_counter. unfold counter_of in Hc. fold p in Hc.
      destruct (decide _) as [|]; [by injection Hc as <-|]. by rewrite Hc. }
    erewrite bind_eq by apply Hp. done.
  - unfold counter_of. fold p. rewrite lookup_insert_eq. cbn [default from_option id].
    assert (in_uint32 (wrap_uint32 (skip_band c + 1))) as Hw.
    { unfold in_uint32, wrap_uint32. apply Z.mod_pos_bound. lia. }
    change (default "" (Some ?x)) with x.
    rewrite counter_line_read by done.
    rewrite decide_False by (apply fmt_d_nonempty, Hw). by apply ParseUint_fmt_d.
  - intros q Hq. rewrite !lookup_insert_ne, created_ne by done. done.
Qed.

(** ** Representation of the registry *)
Record Rep (m : Manager) (fs : gmap string string) (r : registry) : Prop := {
  rep_counter : counter_of (Data m) fs = Some (counter r);
  rep_range : in_uint32 (counter r);
  rep_maps : ∀ p, map_path (Config m) p → ∃ mp,
    loaded fs p = Some mp ∧ map_text mp ∧ ∀ k, mp !! k = recs r !! (p, k);
}.

Lemma loaded_ext fs fs' p : fs' !! p = fs !! p → loaded fs' p = loaded fs p.
Proof. unfold loaded. by intros ->. Qed.
Lemma counter_of_ext data fs fs' :
  fs' !! Join [data; counterFile] = fs !! Join [data; counterFile] →
  counter_of data fs' = counter_of data fs.
Proof. unfold counter_of. by intros ->. Qed.

(** Lock files do not matter. *)
Lemma Rep_lock m fs r q : Rep m fs r → Rep m (created (q +:+ ".lock") fs) r.
Proof.
  intros [Hc Hr Hm]. split; [|done|].
  - rewrite <-Hc. apply counter_of_ext. apply created_ne. path_ne.
  - intros p Hp. destruct (Hm p Hp) as (mp & Hl & ?). exists mp. split; [|done].
    rewrite <-Hl. apply loaded_ext, created_ne. path_ne.
Qed.

(** The registry with one map replaced. *)
Lemma Rep_store m fs c rs rs' p h mp :
  Rep m fs (mkRegistry c rs) → map_path (Config m) p → header_text h → map_text mp →
  (∀ k, mp !! k = rs' !! (p, k)) →
  (∀ q k, q ≠ p → rs' !! (q, k) = rs !! (q, k)) →
  Rep m (<[p := render_map h mp]> (delete (p +:+ ".tmp") fs)) (mkRegistry c rs').
Proof.
  intros [Hc Hr Hm] Hp Hh Ht Hk Hq. split; [|done|]; cbn [counter recs] in *.
  - rewrite <-Hc. apply counter_of_ext.
    rewrite lookup_insert_ne, lookup_delete_ne; [done|path_ne|path_ne].
  - intros q Hmq. destruct (decide (q = p)) as [->|Hne].
    + exists mp. split_and!; [|done|done]. unfold loaded. rewrite lookup_insert_eq.
      by apply Unmarshal_render.
    + destruct (Hm q Hmq) as (mq & Hl & ? & Hmk). exists mq. split_and!; [|done|].
      * rewrite <-Hl. apply loaded_ext.
        rewrite lookup_insert_ne, lookup_delete_ne; [done|path_ne|done].
      * intros k. by rewrite Hq.
Qed.

(** ** The operations implement the registry *)
Section Refinement.
Context (m : Manager) (p h : string) (Hp : map_path (Config m) p) (Hh : header_text h).

Lemma skip_band_range c : in_uint32 c → in_uint32 (skip_band c).
Proof.
  unfold in_uint32, skip_band, ExcludedBandLow, ExcludedBandHigh.
  destruct (_ && _); lia.
Qed.
Lemma wrap_range z : in_uint32 (wrap_uint32 z).
Proof. unfold in_uint32, wrap_uint32. apply Z.mod_pos_bound. lia. Qed.

Lemma allocate_refines e k fs r :
  Rep m fs r → key_text k →
  let '((id, fresh), r') := reg_alloc p k r in
  ∃ fs', allocate_in p h e (Data m) k (mkFolder fs []) =
           (Ok (id, if fresh : bool then None else Some e), mkFolder fs' []) ∧ Rep m fs' r'.
Proof.
  intros HR Hk. apply (Rep_lock _ _ _ p) in HR as HL.
  destruct r as [c rs]. destruct (rep_maps _ _ _ HL p Hp) as (mp & Hl & Ht & Hmk).
  unfold allocate_in, reg_alloc. cbn [recs counter] in *.
  erewrite bind_eq by apply lockFile_quiet.
  erewrite bind_eq by (by apply loadMap_quiet). rewrite Hmk.
  destruct (rs !! (p, k)) as [id|] eqn:Er; [by eexists|].
  destruct (allocateID_quiet (Data m) (created (p +:+ ".lock") fs) c) as (fs' & Ha & Hc' & Hf);
    [apply HL|apply HL|].
  erewrite bind_eq by exact Ha. erewrite bind_eq by apply storeMap_quiet.
  eexists. split; [done|].
  apply (Rep_store m fs' _ rs); try done.
  - split; [done|apply wrap_range|]. intros q Hq.
    destruct (rep_maps _ _ _ HL q Hq) as (mq & Hlq & Htq & Hkq). exists mq. split_and!; [|done|done].
    rewrite <-Hlq. apply loaded_ext, Hf. path_ne.
  - apply map_Forall_insert_2; [|done]. split; [done|]. apply skip_band_range, HL.
  - intros k'. rewrite !lookup_insert. destruct (decide (k = k')) as [->|].
    + by rewrite decide_True.
    + rewrite decide_False by congruence. apply Hmk.
  - intros q k' Hq. by rewrite lookup_insert_ne by congruence.
Qed.

Lemma set_refines e k id fs r :
  Rep m fs r → key_text k → in_uint32 id →
  let '(res, r') := reg_set p k id r in
  ∃ fs', set_in p h e k id (mkFolder fs []) =
           (match res with
            | Ok _ => Ok ()
            | Err _ => Err (if Allocatable id then e else ErrNotAllocatable)
            end, mkFolder fs' []) ∧ Rep m fs' r'.
Proof.
  intros HR Hk Hid. apply (Rep_lock _ _ _ p) in HR as HL.
  destruct r as [c rs]. destruct (rep_maps _ _ _ HL p Hp) as (mp & Hl & Ht & Hmk).
  unfold set_in, reg_set. cbn [recs counter] in *.
  destruct (Allocatable id) eqn:Ea; cbn [negb]; [|by eexists].
  erewrite bind_eq by apply lockFile_quiet.
  erewrite bind_eq by (by apply loadMap_quiet). rewrite Hmk.
  destruct (rs !! (p, k)) as [old|] eqn:Er.
  { destruct (old =? id); by eexists. }
  rewrite storeMap_quiet. eexists. split; [done|].
  apply (Rep_store m _ _ rs); try done.
  - by apply map_Forall_insert_2.
  - intros k'. rewrite !lookup_insert. destruct (decide (k = k')) as [->|].
    + by rewrite decide_True.
    + rewrite decide_False by congruence. apply Hmk.
  - intros q k' Hq. by rewrite lookup_insert_ne by congruence.
Qed.

Lemma remove_refines k fs r :
  Rep m fs r →
  ∃ fs', remove_in p h k (mkFolder fs []) = (Ok (), mkFolder fs' []) ∧
    Rep m fs' (reg_remove p k r).
Proof.
  intros HR. apply (Rep_lock _ _ _ p) in HR as HL.
  destruct r as [c rs]. destruct (rep_maps _ _ _ HL p Hp) as (mp & Hl & Ht & Hmk).
  unfold remove_in, reg_remove. cbn [recs counter] in *.
  erewrite bind_eq by apply lockFile_quiet.
  erewrite bind_eq by (by apply loadMap_quiet). rewrite Hmk.
  destruct (rs !! (p, k)) as [old|] eqn:Er.
  - rewrite storeMap_quiet. eexists. split; [done|].
    apply (Rep_store m _ _ rs); try done.
    + by apply map_Forall_delete.
    + intros k'. rewrite !lookup_delete. destruct (decide (k = k')) as [->|].
      * by rewrite decide_True.
      * rewrite decide_False by congruence. apply Hmk.
    + intros q k' Hq. by rewrite lookup_delete_ne by congruence.
  - eexists. split; [done|]. by rewrite delete_id.
Qed.
End Refinement.
End Quiet.

(** ** Histories *)
Inductive op :=
| AllocGID (domain : string)
| AllocUID (domain localpart : string)
| SetGID (domain : string) (gid : Z)
| SetUID (domain localpart : string) (uid : Z)
| RemGID (domain : string)
| RemUID (domain localpart : string).

Definition op_ok (o : op) : Prop :=
  match o with
  | AllocGID d | RemGID d => key_text d
  | AllocUID _ l | RemUID _ l => key_text l
  | SetGID d g => key_text d ∧ in_uint32 g
  | SetUID _ l u => key_text l ∧ in_uint32 u
  end.
Definition is_set (o : op) : bool := match o with SetGID _ _ | SetUID _ _ _ => true | _ => false end.

Definition fresh_id (r : result (Z * option idErr) idErr) : option Z :=
  match r with Ok (id, None) => Some id | _ => None end.

Section History.
Context `{UnicodeQuote, Toml} (m : Manager).

(** One operation, and the id it handed out if it allocated one. *)
Definition run_op (o : op) (w : folder) : option Z * folder :=
  match o with
  | AllocGID d => let '(r, w) := AllocateDomainGID m d w in (fresh_id r, w)
  | AllocUID d l => let '(r, w) := AllocateUserUID m d l w in (fresh_id r, w)
  | SetGID d g => (None, (SetDomainGID m d g w).2)
  | SetUID d l u => (None, (SetUserUID m d l u w).2)
  | RemGID d => (None, (RemoveDomainGID m d w).2)
  | RemUID d l => (None, (RemoveUser m d l w).2)
  end.
Fixpoint run (os : list op) (w : folder) : list Z * folder :=
  match os with
  | [] => ([], w)
  | o :: os =>
      let '(id, w) := run_op o w in
      let '(ids, w) := run os w in (option_list id ++ ids, w)
  end.

Definition reg_op (o : op) (r : registry) : option Z * registry :=
  let alloc p k := let '((id, fresh), r') := reg_alloc p k r in
                   (if fresh : bool then Some id else None, r') in
  match o with
  | AllocGID d => alloc (gidMapPath (Config m)) d
  | AllocUID d l => alloc (uidMapPath (Config m) d) l
  | SetGID d g => (None, (reg_set (gidMapPath (Config m)) d g r).2)
  | SetUID d l u => (None, (reg_set (uidMapPath (Config m) d) l u r).2)
  | RemGID d => (None, reg_remove (gidMapPath (Config m)) d r)
  | RemUID d l => (None, reg_remove (uidMapPath (Config m) d) l r)
  end.
Fixpoint reg_run (os : list op) (r : registry) : list Z * registry :=
  match os with
  | [] => ([], r)
  | o :: os =>
      let '(id, r) := reg_op o r in
      let '(ids, r) := reg_run os r in (option_list id ++ ids, r)
  end.

(** Who holds which id, as the daemons read it. *)
Inductive holds (w : folder) : string → string → Z → Prop :=
| holds_gid d g : (DomainGID (Config m) d w).1 = Ok g → holds w (gidMapPath (Config m)) d g
| holds_uid d l u :
    (UserUID (Config m) d l w).1 = Ok u → holds w (uidMapPath (Config m) d) l u.
End History.

Lemma gid_header_text : header_text gidMapHeader.
Proof. vm_compute. reflexivity. Qed.
Lemma uid_header_text : header_text uidMapHeader.
Proof. vm_compute. reflexivity. Qed.
#[export] Hint Resolve gid_header_text uid_header_text : mail.

Section HistoryRefines.
Context `{UnicodeQuote, Toml, !TomlLaws} (m : Manager).

Lemma run_op_refines o fs r :
  op_ok o → Rep m fs r →
  ∃ fs', run_op m o (mkFolder fs []) = ((reg_op m o r).1, mkFolder fs' []) ∧
    Rep m fs' (reg_op m o r).2.
Proof.
  assert (∀ p h e k, map_path (Config m) p → header_text h → key_text k → Rep m fs r →
    let '((id, fresh), r') := reg_alloc p k r in
    ∃ fs', (let '(x, w) := allocate_in p h e (Data m) k (mkFolder fs []) in (fresh_id x, w)) =
      (if fresh : bool then Some id else None, mkFolder fs' []) ∧ Rep m fs' r') as HA.
  { intros p h e k Hp Hh Hk HR. pose proof (allocate_refines m p h Hp Hh e k fs r HR Hk) as HA.
    destruct (reg_alloc p k r) as [[id []] r']; destruct HA as (fs' & -> & ?); by exists fs'. }
  assert (∀ p h e k id, map_path (Config m) p → header_text h → key_text k ∧ in_uint32 id →
    Rep m fs r → ∃ fs', (set_in p h e k id (mkFolder fs [])).2 = mkFolder fs' [] ∧
      Rep m fs' (reg_set p k id r).2) as HS.
  { intros p h e k id Hp Hh [Hk Hid] HR.
    pose proof (set_refines m p h Hp Hh e k id fs r HR Hk Hid) as HS.
    destruct (reg_set p k id r) as [res r']; destruct HS as (fs' & -> & ?); by exists fs'. }
  assert (map_path (Config m) (gidMapPath (Config m))) as Hg by by left.
  assert (∀ d, map_path (Config m) (uidMapPath (Config m) d)) as Hu by (right; by eexists).
  destruct o as [d|d l|d g|d l u|d|d l]; intros Hok HR; cbn [run_op reg_op].
  - specialize (HA _ _ ErrGIDExists d Hg gid_header_text Hok HR).
    destruct (reg_alloc _ _ _) as [[??]?]. exact HA.
  - specialize (HA _ _ ErrUIDExists l (Hu d) uid_header_text Hok HR).
    destruct (reg_alloc _ _ _) as [[??]?]. exact HA.
  - destruct (HS _ _ ErrGIDExists d g Hg gid_header_text Hok HR) as (fs' & E & ?).
    exists fs'. unfold SetDomainGID. by rewrite E.
  - destruct (HS _ _ ErrUIDExists l u (Hu d) uid_header_text Hok HR) as (fs' & E & ?).
    exists fs'. unfold SetUserUID. by rewrite E.
  - destruct (remove_refines m _ _ Hg gid_header_text d fs r HR) as (fs' & E & ?).
    exists fs'. unfold RemoveDomainGID. by rewrite E.
  - destruct (remove_refines m _ _ (Hu d) uid_header_text l fs r HR) as (fs' & E & ?).
    exists fs'. unfold RemoveUser. by rewrite E.
Qed.

Lemma run_refines os fs r :
  Forall op_ok os → Rep m fs r →
  ∃ fs', run m os (mkFolder fs []) = ((reg_run m os r).1, mkFolder fs' []) ∧
    Rep m fs' (reg_run m os r).2.
Proof.
  intros Hos. revert fs r. induction Hos as [|o os Ho _ IH]; intros fs r HR; [by eexists|].
  destruct (run_op_refines o fs r Ho HR) as (fs1 & E1 & HR1). cbn [run reg_run]. rewrite E1.
  destruct (reg_op m o r) as [id r1]. cbn [fst snd] in *.
  destruct (IH _ _ HR1) as (fs2 & -> & HR2). destruct (reg_run m os r1) as [ids r2]. by exists fs2.
Qed.

Definition reg_init : registry := mkRegistry firstID ∅.
Lemma Rep_init : Rep m ∅ reg_init.
Proof.
  split; [done|by vm_compute|]. intros p Hp. exists ∅.
  split_and!; [done|apply map_Forall_empty|done].
Qed.

Lemma holds_rec fs r p k id :
  Rep m fs r → holds m (mkFolder fs []) p k id → recs r !! (p, k) = Some id.
Proof.
  intros HR Hh. destruct Hh as [d g E|d l u E].
  - destruct (rep_maps _ _ _ HR (gidMapPath (Config m))) as (mp & Hl & _ & Hk); [by left|].
    unfold DomainGID in E. erewrite bind_eq in E by (by apply loadMap_quiet).
    rewrite <-Hk. by destruct (mp !! d); inversion E.
  - destruct (rep_maps _ _ _ HR (uidMapPath (Config m) d)) as (mp & Hl & _ & Hk); [by right; eexists|].
    unfold UserUID in E. erewrite bind_eq in E by (by apply loadMap_quiet).
    rewrite <-Hk. by destruct (mp !! l); inversion E.
Qed.
End HistoryRefines.

(** ** Invariants of the registry *)
Section RegistryInv.
Context (m : Manager).

Record typed (b : Z) (r : registry) : Prop := {
  ty_counter : AllocatorFloor <= counter r <= b;
  ty_ids : map_Forall (λ _ id, Allocatable id = true) (recs r);
}.
Record distinct (r : registry) : Prop := {
  di_below : map_Forall (λ _ id, id < counter r) (recs r);
  di_inj : ∀ x y id, recs r !! x = Some id → recs r !! y = Some id → x = y;
}.

Lemma skip_band_spec c :
  AllocatorFloor <= c → Allocatable (skip_band c) = true ∧ c <= skip_band c ∧
    skip_band c <= Z.max c 65536.
Proof.
  unfold Allocatable, skip_band, AllocatorFloor, ExcludedBandLow, ExcludedBandHigh. intros Hc.
  destruct ((65532 <=? c) && (c <=? 65535)) eqn:E.
  - apply andb_prop in E as [?%Z.leb_le ?%Z.leb_le]. by split_and!; lia || reflexivity.
  - split_and!; [|lia|lia]. apply andb_true_intro. split; [by apply Z.leb_le|].
    apply andb_false_iff in E as [E%Z.leb_gt|E%Z.leb_gt]; apply orb_true_iff;
      [left; apply Z.ltb_lt; lia|right; apply Z.ltb_lt; lia].
Qed.

Lemma reg_op_typed b o r :
  65536 <= b → b + 1 < 2 ^ 32 → typed b r → typed (b + 1) (reg_op m o r).2.
Proof.
  intros Hb1 Hb2 [[Hlo Hhi] Hids]. pose proof (skip_band_spec _ Hlo) as (Ha & Hge & Hle).
  destruct r as [c rs]. cbn [counter recs snd] in *.
  assert (∀ p k, typed (b + 1) (reg_alloc p k (mkRegistry c rs)).2) as HA.
  { intros p k. unfold reg_alloc. cbn [counter recs snd]. destruct (rs !! (p, k)).
    - split; cbn [counter recs snd]; [lia|done].
    - split; cbn [counter recs snd]; [|by apply map_Forall_insert_2].
      rewrite wrap_uint32_small; unfold in_uint32, AllocatorFloor in *; lia. }
  assert (∀ p k id, typed (b + 1) (reg_set p k id (mkRegistry c rs)).2) as HS.
  { intros p k id. unfold reg_set. cbn [counter recs snd]. destruct (Allocatable id) eqn:Ea; cbn [negb snd].
    - destruct (rs !! (p, k)); (split; cbn [counter recs snd]; [lia|]); [done|].
      by apply map_Forall_insert_2.
    - split; cbn [counter recs snd]; [lia|done]. }
  assert (∀ p k, typed (b + 1) (reg_remove p k (mkRegistry c rs))) as HD.
  { intros p k. split; cbn [counter recs reg_remove]; [lia|by apply map_Forall_delete]. }
  destruct o; cbn [reg_op snd]; auto.
  all: lazymatch goal with |- context [reg_alloc ?p ?k _] => specialize (HA p k) end;
    by destruct (reg_alloc _ _ _) as [[??]?].
Qed.

Lemma reg_op_distinct b o r :
  65536 <= b → b + 1 < 2 ^ 32 → is_set o = false → typed b r → distinct r →
  distinct (reg_op m o r).2 ∧ counter r <= counter (reg_op m o r).2 ∧
  ∀ id, (reg_op m o r).1 = Some id →
    counter r <= id < counter (reg_op m o r).2 ∧ Allocatable id = true.
Proof.
  intros Hb1 Hb2 Ho [[Hlo Hhi] Hids] [Hbelow Hinj].
  pose proof (skip_band_spec _ Hlo) as (Ha & Hge & Hle).
  destruct r as [c rs]. cbn [counter recs snd] in *.
  assert (∀ p k, let '((id, fresh), r') := reg_alloc p k (mkRegistry c rs) in
    distinct r' ∧ c <= counter r' ∧
    ∀ x, (if fresh : bool then Some id else None) = Some x →
      c <= x < counter r' ∧ Allocatable x = true) as HA.
  { intros p k. unfold reg_alloc. cbn [counter recs snd]. destruct (rs !! (p, k)) as [?|] eqn:E.
    { by split_and!. }
    assert (wrap_uint32 (skip_band c + 1) = skip_band c + 1) as ->.
    { apply wrap_uint32_small. unfold in_uint32, AllocatorFloor in *. lia. }
    split_and!; [split|cbn; lia|].
    - cbn [counter recs]. apply map_Forall_insert_2; [lia|].
      eapply map_Forall_impl; [exact Hbelow|]. cbn. lia.
    - cbn [recs]. intros x y id. rewrite !lookup_insert.
      repeat case_decide; subst; try done; intros.
      + simplify_eq. specialize (Hbelow _ _ ltac:(eassumption)). cbn in Hbelow. lia.
      + simplify_eq. specialize (Hbelow _ _ ltac:(eassumption)). cbn in Hbelow. lia.
      + by eapply Hinj.
    - intros x [= <-]. cbn [counter]. split; [lia|done]. }
  assert (∀ p k, distinct (reg_remove p k (mkRegistry c rs))) as HD.
  { intros p k. split; cbn [counter recs reg_remove]; [by apply map_Forall_delete|].
    intros x y id [_ ?]%lookup_delete_Some [_ ?]%lookup_delete_Some. by eapply Hinj. }
  destruct o; cbn [reg_op fst snd counter reg_remove] in *; try done.
  all: lazymatch goal with |- context [reg_alloc ?p ?k _] => specialize (HA p k) end;
    by destruct (reg_alloc _ _ _) as [[??]?].
Qed.

Lemma reg_run_typed os r b :
  65536 <= b → b + Z.of_nat (length os) < 2 ^ 32 → typed b r →
  ∃ b', typed b' (reg_run m os r).2.
Proof.
  revert r b. induction os as [|o os IH]; intros r b Hb Hl Hr; [by eexists|].
  cbn [length] in Hl. cbn [reg_run].
  pose proof (reg_op_typed b o r Hb ltac:(lia) Hr) as Ho.
  destruct (reg_op m o r) as [id r1]. cbn [snd] in Ho.
  destruct (IH r1 (b + 1)) as [b' Hb']; [lia|lia|done|].
  destruct (reg_run m os r1). by exists b'.
Qed.

Lemma reg_run_distinct os r b :
  65536 <= b → b + Z.of_nat (length os) < 2 ^ 32 → Forall (λ o, is_set o = false) os →
  typed b r → distinct r →
  let '(ids, r') := reg_run m os r in
  distinct r' ∧ StronglySorted Z.lt ids ∧ Forall (λ id, counter r <= id ∧ Allocatable id = true) ids.
Proof.
  intros Hb Hl Hos. revert r b Hb Hl.
  induction Hos as [|o os Ho Hos IH]; intros r b Hb Hl Ht Hd.
  { split_and!; [done|constructor|constructor]. }
  cbn [length] in Hl. cbn [reg_run].
  pose proof (reg_op_typed b o r Hb ltac:(lia) Ht) as Ht1.
  pose proof (reg_op_distinct b o r Hb ltac:(lia) Ho Ht Hd) as (Hd1 & Hc & Hid).
  destruct (reg_op m o r) as [id r1]. cbn [fst snd] in *.
  specialize (IH r1 (b + 1) ltac:(lia) ltac:(lia) Ht1 Hd1).
  destruct (reg_run m os r1) as [ids r2]. destruct IH as (Hd2 & Hs & Hf). split; [done|].
  assert (Forall (λ id, counter r <= id ∧ Allocatable id = true) ids) as Hf'.
  { eapply Forall_impl; [exact Hf|]. cbn. intros x [? ?]. split; [lia|done]. }
  destruct id as [id|]; cbn [option_list app]; [|done].
  destruct (Hid id eq_refl) as [[? ?] ?]. split; [|by constructor].
  constructor; [done|]. eapply Forall_impl; [exact Hf|]. cbn. intros x [? ?]. lia.
Qed.
End RegistryInv.

(** ** The claims *)
Section Claims.
Context `{UnicodeQuote, Toml, !TomlLaws} (m : Manager).

(** C29 (type): on a disk where no file operation fails, starting from an empty
    tree, after any sequence of fewer than 2^32 - 65536 allocations, adoptions and
    removals for names of printable ASCII, every id that a daemon reads for a domain
    or a user lies in the allocatable range, never below the floor and never in the
    band of well-known ids. A counter cut short by a failed write, or used up, gives
    other ids ([counter_cut_short], [counter_wraps_to_root]). *)
Theorem ids_allocatable os w ids p k id :
  Forall op_ok os → Z.of_nat (length os) < 2 ^ 32 - 65536 →
  run m os (mkFolder ∅ []) = (ids, w) → holds m w p k id → Allocatable id = true.
Proof.
  intros Hos Hl Hrun Hh.
  destruct (run_refines m os ∅ reg_init Hos (Rep_init m)) as (fs' & E & HR).
  rewrite Hrun in E. injection E as -> ->.
  destruct (reg_run_typed m os reg_init 65536) as [b' Hb']; [lia|lia| |].
  { split; [vm_compute; split; discriminate|apply map_Forall_empty]. }
  eapply (ty_ids _ _ Hb'), holds_rec; done.
Qed.

(** C18 (invariant): on a disk where no file operation fails, starting from an empty
    tree, in any sequence of fewer than 2^32 - 65536 allocations and removals for
    names of printable ASCII, without adoptions, the ids handed out are strictly
    increasing and allocatable, so none is ever handed out again even after its
    holder was removed; and at the end no id is held by two different principals,
    whether domains or users of any domain. A counter that cannot be read or written,
    and adopted ids, lead to ids held twice ([counter_lost_on_failed_write],
    [counter_read_error_ignored], [adopted_id_reused]). *)
Theorem ids_never_shared os w ids :
  Forall op_ok os → Forall (λ o, is_set o = false) os →
  Z.of_nat (length os) < 2 ^ 32 - 65536 →
  run m os (mkFolder ∅ []) = (ids, w) →
  StronglySorted Z.lt ids ∧ Forall (λ id, Allocatable id = true) ids ∧
  ∀ p1 k1 p2 k2 id, holds m w p1 k1 id → holds m w p2 k2 id → p1 = p2 ∧ k1 = k2.
Proof.
  intros Hos Hset Hl Hrun.
  destruct (run_refines m os ∅ reg_init Hos (Rep_init m)) as (fs' & E & HR).
  pose proof (reg_run_distinct m os reg_init 65536 ltac:(lia) ltac:(lia) Hset) as HD.
  rewrite Hrun in E. destruct (reg_run m os reg_init) as [ids' r']. injection E as -> ->.
  destruct HD as ([Hb Hinj] & Hs & Hf).
  { split; [vm_compute; split; discriminate|apply map_Forall_empty]. }
  { split; [apply map_Forall_empty|done]. }
  split_and!; [done|eapply Forall_impl; [exact Hf|]; by intros ? []|].
  intros p1 k1 p2 k2 id HA%(holds_rec _ _ _ _ _ _ HR) HB%(holds_rec _ _ _ _ _ _ HR).
  assert ((p1, k1) = (p2, k2)) as [= -> ->] by (by eapply Hinj). done.
Qed.
End Claims.

(** ** A decoder of the files the manager writes

    Comments, blank lines and [key = integer] with a basic-string key: enough
    of TOML to show that the law can hold. *)
Module Decoder.
Fixpoint unquote (s : string) : option (string * string) :=
  match s with
  | "" => None
  | String c s' =>
      if Ascii.eqb c DQ then Some ("", s')
      else if Ascii.eqb c BS then
        match s' with
        | "" => None
        | String d s'' => match unquote s'' with
                          | Some (k, rest) => Some (String d k, rest)
                          | None => None
                          end
        end
      else match unquote s' with
           | Some (k, rest) => Some (String c k, rest)
           | None => None
           end
  end.

Definition decode_line (line : string) : option (option (string * Z)) :=
  match line with
  | "" => Some None
  | String c s =>
      if Ascii.eqb c "#" then Some None
      else if Ascii.eqb c DQ then
        match unquote s with
        | Some (k, rest) =>
            if HasPrefix rest " = " then
              match ParseUint 32 (sdrop 3 rest) with
              | Some v => Some (Some (k, v))
              | None => None
              end
            else None
        | None => None
        end
      else None
  end.

Fixpoint decode_lines (ls : list string) : option (list (string * Z)) :=
  match ls with
  | [] => Some []
  | l :: ls => match decode_line l, decode_lines ls with
               | Some o, Some kvs => Some (option_list o ++ kvs)
               | _, _ => None
               end
  end.
Definition decode (s : string) : option (gmap string Z) :=
  list_to_map <$> decode_lines (Split LF s).

#[export] Instance toml : Toml := decode.
#[export] Instance quote : UnicodeQuote := λ s, s.

Lemma printable_ascii s : key_text s → sforall is_ascii_byte s = true.
Proof.
  apply sforall_impl. intros c [_ Hc%Nat.leb_le]%andb_prop. apply Nat.ltb_lt. lia.
Qed.

Lemma quote_byte_printable c :
  printable_byte c = true →
  quote_byte c = if Ascii.eqb c DQ || Ascii.eqb c BS then String BS (String c "") else String c "".
Proof. unfold quote_byte, printable_byte. by intros ->. Qed.

Lemma unquote_quote s t :
  key_text s → unquote (quote_bytes s +:+ String DQ t) = Some (s, t).
Proof.
  induction s as [|c s IH]; intros Hs; [done|].
  apply andb_prop in Hs as [Hc Hs]. cbn [quote_bytes]. rewrite quote_byte_printable by done.
  rewrite <-sapp_assoc. destruct (Ascii.eqb c DQ || Ascii.eqb c BS) eqn:E.
  - change (String BS (String c "") +:+ ?x) with (String BS (String c x)). cbn [unquote].
    change (Ascii.eqb BS DQ) with false. rewrite Ascii.eqb_refl. cbv iota. by rewrite IH.
  - change (String c "" +:+ ?x) with (String c x). cbn [unquote].
    apply orb_false_iff in E as [-> ->]. by rewrite IH.
Qed.

Lemma quote_bytes_no_lf s : key_text s → no_byte LF (quote_bytes s).
Proof.
  induction s as [|c s IH]; intros Hs; [done|].
  apply andb_prop in Hs as [Hc Hs]. cbn [quote_bytes]. rewrite quote_byte_printable by done.
  apply no_byte_app. split; [|by apply IH].
  assert (c ≠ LF) by (by intros ->). destruct (_ || _); rewrite ?no_byte_cons; by split_and!.
Qed.

Lemma pair_no_lf k v :
  key_text k → in_uint32 v → no_byte LF (Quote k +:+ " = " +:+ fmt_d v).
Proof.
  intros Hk [Hv _]. unfold Quote. rewrite printable_ascii by done.
  change (String DQ ?x +:+ ?y) with (String DQ (x +:+ y)). rewrite no_byte_cons, !no_byte_app.
  split_and!; try done; [by apply quote_bytes_no_lf|by apply fmt_d_no_byte].
Qed.

Lemma decode_pair k v :
  key_text k → in_uint32 v → decode_line (Quote k +:+ " = " +:+ fmt_d v) = Some (Some (k, v)).
Proof.
  intros Hk Hv. unfold Quote. rewrite printable_ascii by done.
  change (String DQ ?x +:+ ?y) with (String DQ (x +:+ y)).
  rewrite <-sapp_assoc. change (String DQ "" +:+ ?x) with (String DQ x).
  unfold decode_line. change (Ascii.eqb DQ "#") with false. rewrite Ascii.eqb_refl. cbv iota.
  rewrite unquote_quote by done.
  assert (HasPrefix (" = " +:+ fmt_d v) " = " = true) as -> by (cbn; by destruct (fmt_d v)).
  cbv iota. change (sdrop 3 (" = " +:+ fmt_d v)) with (fmt_d v). by rewrite ParseUint_fmt_d.
Qed.

Lemma decode_lines_app a b x y :
  decode_lines a = Some x → decode_lines b = Some y → decode_lines (a ++ b) = Some (x ++ y).
Proof.
  revert x. induction a as [|l a IH]; intros x; cbn [decode_lines app]; [by intros [= <-] ->|].
  destruct (decode_line l) as [o|]; [|done]. destruct (decode_lines a) as [x'|]; [|done].
  intros [= <-] Hy. rewrite (IH x') by done. by rewrite app_assoc.
Qed.

Lemma decode_comments ls : decode_lines ((λ l, "# " +:+ l) <$> ls) = Some [].
Proof. induction ls as [|l ls IH]; [done|]. rewrite fmap_cons. cbn [decode_lines]. by rewrite IH. Qed.

Lemma decode_pairs (m : gmap string Z) ks :
  map_text m → Forall (λ k, is_Some (m !! k)) ks →
  decode_lines (render_pair m <$> ks) = Some ((λ k, (k, default 0 (m !! k))) <$> ks).
Proof.
  intros Hm. induction 1 as [|k ks [v Hv] _ IH]; [done|].
  cbn [fmap list_fmap decode_lines]. unfold render_pair at 1, quoteKey. rewrite Hv.
  cbn [default from_option id]. destruct (Hm k v Hv). change (default 0 (Some v)) with v.
  rewrite decode_pair by done. rewrite IH. done.
Qed.

#[export] Instance toml_laws : TomlLaws.
Proof.
  intros header m Hh Hm. unfold Unmarshal, toml, decode, render_map.
  set (ks := sort_Strings (map_to_list m).*1).
  assert (ks ≡ₚ (map_to_list m).*1) as Hp by apply merge_sort_Permutation.
  assert (∀ k, k ∈ ks → is_Some (m !! k)) as Hks.
  { intros k Hk. rewrite Hp in Hk. apply list_elem_of_fmap in Hk as ([k' v] & -> & Hkv).
    apply elem_of_map_to_list in Hkv. by eexists. }
  rewrite Split_unlines.
  - rewrite <-(app_assoc _ _ [""]), <-(app_assoc [""] _ [""]).
    erewrite decode_lines_app; [|apply decode_comments|]; cycle 1.
    { eapply decode_lines_app; [done|]. eapply decode_lines_app; [|done].
      apply decode_pairs; [done|by apply Forall_forall]. }
    cbn. f_equal. rewrite app_nil_r. apply map_eq. intros k.
    destruct (m !! k) as [v|] eqn:E.
    + apply elem_of_list_to_map.
      * rewrite <-list_fmap_compose. cbn. rewrite list_fmap_id, Hp. apply NoDup_fst_map_to_list.
      * apply list_elem_of_fmap. exists k. rewrite E. split; [done|]. rewrite Hp.
        apply list_elem_of_fmap. exists (k, v). by rewrite elem_of_map_to_list.
    + apply not_elem_of_list_to_map. rewrite <-list_fmap_compose. cbn. rewrite list_fmap_id.
      intros Hk%Hks. rewrite E in Hk. by destruct Hk.
  - apply Forall_app. split; [|apply Forall_app; split; [by repeat constructor|]].
    + apply Forall_fmap, (Forall_impl _ _ _ (Split_elem_no_byte LF _)). cbn.
      intros l Hl. by rewrite !no_byte_cons.
    + apply Forall_fmap, Forall_forall. intros k Hk. destruct (Hks k Hk) as [v Hv]. cbn.
      unfold render_pair, quoteKey. rewrite Hv. destruct (Hm k v Hv). by apply pair_no_lf.
Qed.
End Decoder.

Section Witnesses.
Import Decoder.

Definition demo : Manager := NewManager "/etc/mail" "/srv/mail".
Definition demo_ops : list op :=
  [AllocGID "example.org"; AllocUID "example.org" "alice"; RemUID "example.org" "alice";
   AllocUID "example.org" "bob"; AllocUID "example.net" "alice"].

Definition demo_ops' : list op := demo_ops ++ [SetUID "example.net" "carol" 70000].
Lemma demo_ops_ok : Forall op_ok demo_ops ∧ Forall op_ok demo_ops'.
Proof. split; repeat constructor; vm_compute; congruence. Qed.

Lemma ids_allocatable_witness :
  holds demo (run demo demo_ops' (mkFolder ∅ [])).2
    (uidMapPath "/etc/mail" "example.net") "carol" 70000 ∧ Allocatable 70000 = true.
Proof.
  assert (holds demo (run demo demo_ops' (mkFolder ∅ [])).2
    (uidMapPath "/etc/mail" "example.net") "carol" 70000) as Hh.
  { apply (holds_uid demo _ "example.net" "carol" 70000). vm_compute. reflexivity. }
  split; [exact Hh|].
  refine (ids_allocatable demo demo_ops' _ _ _ _ _ (proj2 demo_ops_ok) _ (surjective_pairing _) Hh).
  vm_compute. reflexivity.
Defined.

Lemma ids_never_shared_witness :
  (run demo demo_ops (mkFolder ∅ [])).1 = [10000; 10001; 10002; 10003] ∧
  StronglySorted Z.lt (run demo demo_ops (mkFolder ∅ [])).1.
Proof.
  split; [vm_compute; reflexivity|].
  refine (proj1 (ids_never_shared demo demo_ops _ _ (proj1 demo_ops_ok) _ _ (surjective_pairing _))).
  - by repeat constructor.
  - vm_compute. reflexivity.
Defined.

(** ** What the code does when its assumptions fail

    The counter is truncated before the new value is written: a failed write
    (a full disk) leaves it empty, and the next allocation starts over. *)
Definition steps (n : nat) : list sysres := replicate n Done.
Definition gid_in (w : folder) (d : string) : result Z idErr := (DomainGID "/etc/mail" d w).1.

Lemma counter_lost_on_failed_write :
  let w1 := (AllocateDomainGID demo "a.org" (mkFolder ∅ [])).2 in
  let '(r2, w2) := AllocateDomainGID demo "b.org" (mkFolder (files w1) (steps 10 ++ [Fault 0])) in
  let '(r3, w3) := AllocateDomainGID demo "c.org" w2 in
  r2 = Err ErrWriteCounter ∧ r3 = Ok (10000, None) ∧
  gid_in w3 "a.org" = Ok 10000 ∧ gid_in w3 "c.org" = Ok 10000.
Proof. vm_compute. by split_and!. Qed.

(** A short write leaves a prefix of the digits: the next id is a system one. *)
Lemma counter_cut_short :
  let w1 := (AllocateDomainGID demo "a.org" (mkFolder ∅ [])).2 in
  let '(_, w2) := AllocateDomainGID demo "b.org" (mkFolder (files w1) (steps 10 ++ [Fault 1])) in
  (AllocateDomainGID demo "c.org" w2).1 = Ok (1, None) ∧ Allocatable 1 = false.
Proof. vm_compute. by split_and!. Qed.

(** The error of the read is dropped: an unreadable counter counts as empty. *)
Lemma counter_read_error_ignored :
  let w1 := (AllocateDomainGID demo "a.org" (mkFolder ∅ [])).2 in
  (AllocateDomainGID demo "b.org" (mkFolder (files w1) (steps 7 ++ [Fault 0]))).1
    = Ok (10000, None).
Proof. vm_compute. reflexivity. Qed.

(** After the last id the counter wraps to zero, and zero (root) is handed out. *)
Lemma counter_wraps_to_root :
  let w0 := mkFolder {[ "/srv/mail/.uid-counter" := "4294967295" ]} [] in
  let '(r1, w1) := AllocateDomainGID demo "a.org" w0 in
  r1 = Ok (4294967295, None) ∧ (AllocateDomainGID demo "b.org" w1).1 = Ok (0, None).
Proof. vm_compute. by split_and!. Qed.

(** Adopting an id does not move the counter: it is handed out a second time. *)
Lemma adopted_id_reused :
  let w1 := (SetUserUID demo "a.org" "alice" 10000 (mkFolder ∅ [])).2 in
  let '(r2, w2) := AllocateUserUID demo "a.org" "bob" w1 in
  r2 = Ok (10000, None) ∧ (UserUID "/etc/mail" "a.org" "alice" w2).1 = Ok 10000.
Proof. vm_compute. by split_and!. Qed.
End Witnesses.

(** ** Handler credentials: what is accepted never collides with an allocated id *)
Lemma check_handler_ids uid gid groups :
  CheckHandlerIDs uid gid groups = Ok () ↔
  (uid = 0 ∨ Reserved uid = true) ∧ (gid = 0 ∨ Reserved gid = true) ∧
  Forall (λ g, Reserved g = true) groups.
Proof.
  assert (check_groups groups = Ok () ↔ Forall (λ g, Reserved g = true) groups) as Hg.
  { induction groups as [|g gs IH]; cbn [check_groups]; [by split|]. rewrite Forall_cons.
    destruct (Reserved g); cbn [negb]; naive_solver. }
  unfold CheckHandlerIDs. rewrite <-Hg.
  destruct (Z.eqb_spec uid 0), (Z.eqb_spec gid 0), (Reserved uid), (Reserved gid);
    cbn [negb andb]; naive_solver.
Qed.
