(* ===== verification/Keyring.v ===== *)
(** * Sealed keyrings

    Model of [src/auth/keyring] (the keyring document, its seal and the slots
    that unlock it) and of [src/auth/keyseal] (one private key sealed with a
    password, in the current and in the legacy format). Argon2, HKDF, the AEAD
    and the NaCl boxes are third-party code, [encoding/json] turns the two
    documents into text and back: the classes [Crypto] and [KeyringJson]. Random
    bytes come from a source that may fail. *)
From S2P Require Import Prelude GoStrings.
From Stdlib Require Import ZArith Lia Ascii.
Open Scope string_scope.
Open Scope list_scope.
Open Scope Z_scope.

(** ** Errors of [src/auth/errors] and of the calls below them *)
Inductive autherr :=
| ErrAuthFailed | ErrUserNotFound | ErrDomainNotHosted | ErrRateLimited
| ErrAuthAgentNotRegistered | ErrAuthAgentConfigInvalid
| ErrKeyDecryptFailed | ErrKeyNotFound | ErrInvalidKeyFormat | ErrEncryptionNotEnabled
| ErrNoActiveKey
| ErrRandom | ErrAead | ErrHkdf | ErrBox | ErrCurve
| ErrWrapped (what : string)
| Panic.
#[export] Instance autherr_eq_dec : EqDecision autherr.
Proof. solve_decision. Defined.

(** ** Byte strings *)
Definition blen (s : string) : Z := Z.of_nat (String.length s).
Fixpoint zeros (n : nat) : string :=
  match n with O => "" | S k => String NUL (zeros k) end.
(** [copy] into an array of [n] bytes. *)
Definition fit (n : nat) (s : string) : string :=
  stake n s +:+ zeros (n - String.length s).

Lemma stake_length n s : (n ≤ String.length s)%nat → String.length (stake n s) = n.
Proof.
  revert n. induction s as [|c s IH]; intros [|n]; simpl; intros Hn; try done; [lia|].
  f_equal. apply IH. lia.
Qed.
Lemma zeros_length n : String.length (zeros n) = n.
Proof. induction n; simpl; congruence. Qed.
Lemma fit_length n s : String.length (fit n s) = n.
Proof.
  unfold fit. rewrite slen_app, zeros_length.
  destruct (decide (String.length s ≤ n)%nat).
  - rewrite stake_ge by done. lia.
  - rewrite stake_length by lia. lia.
Qed.
Lemma fit_exact n s : String.length s = n → fit n s = s.
Proof. intros <-. unfold fit. rewrite stake_ge, Nat.sub_diag by lia. apply sapp_nil_r. Qed.

Lemma HasPrefix_app s t : HasPrefix (s +:+ t) s = true.
Proof.
  unfold HasPrefix. induction s as [|c s IH]; [by destruct t|].
  change (String c s +:+ t) with (String c (s +:+ t)). cbn [String.prefix].
  by destruct (ascii_dec c c).
Qed.

(** [binary.BigEndian.PutUint64] *)
Definition byte_at (z : Z) (k : Z) : ascii := ascii_of_N (Z.to_N ((z / 256 ^ k) mod 256)).
Definition put_uint64 (z : Z) : string :=
  foldr (λ k s, String (byte_at z k) s) "" [7; 6; 5; 4; 3; 2; 1; 0].

(** ** Random bytes *)
Definition rand := list (option string).
Definition R (A : Type) : Type := rand → result A autherr * rand.
Definition rret {A} (a : A) : R A := λ r, (Ok a, r).
Definition rfail {A} (e : autherr) : R A := λ r, (Err e, r).
Definition rbind {A B} (m : R A) (k : A → R B) : R B := λ r,
  match m r with (Ok a, r) => k a r | (Err e, r) => (Err e, r) end.
Definition rlift {A} (x : result A autherr) : R A := λ r, (x, r).

Declare Scope rand_scope.
Delimit Scope rand_scope with rand.
Notation "'let?' x ':=' m 'in' k" := (rbind m (λ x, k))
  (at level 200, x pattern, m at level 100, k at level 200, right associativity) : rand_scope.
Open Scope rand_scope.

Definition randBytes (n : nat) : R string := λ r,
  match r with
  | [] => (Ok (zeros n), [])
  | Some b :: r => (Ok (fit n b), r)
  | None :: r => (Err ErrRandom, r)
  end.

(** ** Third-party cryptography *)
Class Crypto := {
  (** [argon2.IDKey(password, salt, time, memory, threads, keyLen)]; it panics
      on parameters it does not accept *)
  IDKey : string → string → Z → Z → Z → Z → option string;
  (** [hkdf.Key(sha256.New, ikm, nil, info, n)] *)
  hkdf_Key : string → string → Z → option string;
  (** XChaCha20-Poly1305: key, nonce, text, associated data *)
  aead_Seal : string → string → string → string → string;
  aead_Open : string → string → string → string → option string;
  secretbox_Seal : string → string → string → string;
  secretbox_Open : string → string → string → option string;
  box_SealAnonymous : string → string → string → option string;
  box_OpenAnonymous : string → string → string → option string;
  X25519_base : string → option string;
  sha256_hex : string → string;
}.

(** ** The keyring document *)
Definition formatVersion : Z := 1.
Definition keyringVersion : Z := 1.
Definition AlgorithmX25519 : string := "X25519".
Definition AlgorithmEd25519 : string := "Ed25519".
Definition PurposeEncryption : string := "encryption".
Definition PurposeSigning : string := "signing".
Definition StatusActive : string := "active".
Definition StatusRotated : string := "rotated".
Definition StatusRevoked : string := "revoked".

(** Times are nanoseconds since the epoch; [None] is the zero time. *)
Record Entry := mkKeyEntry {
  KeyID : string; Algorithm : string; Purpose : string;
  PublicKey : string; PrivateKey : string;
  Created : option Z; ValidFrom : option Z; ValidUntil : option Z;
  Status : string;
}.
Record Keyring := mkKeyring { kr_version : Z; kr_entries : list Entry }.
#[export] Instance Entry_eq_dec : EqDecision Entry.
Proof. solve_decision. Defined.

Definition is_active (e : Entry) : bool :=
  bool_decide (Purpose e = PurposeEncryption) && bool_decide (Status e = StatusActive).
Definition with_status (s : string) (e : Entry) : Entry :=
  mkKeyEntry (KeyID e) (Algorithm e) (Purpose e) (PublicKey e) (PrivateKey e)
    (Created e) (ValidFrom e) (ValidUntil e) s.

Definition ActiveEncryptionKey (k : Keyring) : option Entry :=
  head (filter (λ e, is_active e = true) (kr_entries k)).

Section Document.
Context `{Crypto}.

Definition fingerprint (pub : string) : string := sha256_hex pub.

(** [now] is [time.Now().UTC()] *)
Definition normalizeEntry (now : Z) (e : Entry) : Entry :=
  mkKeyEntry
    (if decide (KeyID e = "") then fingerprint (PublicKey e) else KeyID e)
    (Algorithm e) (Purpose e) (PublicKey e) (PrivateKey e)
    (Some (default now (Created e))) (Some (default now (ValidFrom e))) (ValidUntil e)
    (if decide (Status e = "") then StatusActive else Status e).

Definition RotateEncryptionKey (now : Z) (e : Entry) (k : Keyring) : Keyring :=
  mkKeyring (kr_version k)
    (((λ x, if is_active x then with_status StatusRotated x else x) <$> kr_entries k)
       ++ [with_status StatusActive (normalizeEntry now e)]).
End Document.

(** ** The sealed document *)
Definition SlotDevice : string := "device".
Definition SlotPassphrase : string := "passphrase".
Definition SlotEscrow : string := "escrow".
Definition kekSize : nat := 32.
Definition xNonceSize : nat := 24.
Definition Overhead : Z := 16.
Definition argon2KeyLen : Z := 32.
Definition saltSize : nat := 32.
Definition wrapInfo : string := "maildancer/keyring-wrap/v1".
Definition passphraseSlotID : string := "primary".
(** [kdfcost.Default] *)
Definition kdf_time : Z := 3.
Definition kdf_memory : Z := 64 * 1024.
Definition kdf_threads : Z := 4.

Record KDFParams := mkKDF {
  kdf_algorithm : string; Salt : string; Time : Z; Memory : Z; Threads : Z;
  KeyLen : Z; Info : string;
}.
Record WrapSlot := mkSlot {
  slot_type : string; slot_id : string; WrappedKEK : string; KDF : option KDFParams;
}.
Record Sealed := mkSealed {
  s_version : Z; DocVersion : Z; Blob : string; Slots : list WrapSlot;
}.
#[export] Instance KDFParams_eq_dec : EqDecision KDFParams.
Proof. solve_decision. Defined.
#[export] Instance WrapSlot_eq_dec : EqDecision WrapSlot.
Proof. solve_decision. Defined.
#[export] Instance Sealed_eq_dec : EqDecision Sealed.
Proof. solve_decision. Defined.

(** [json.Marshal], [json.Unmarshal] and [json.Valid] on the two documents. *)
Class KeyringJson := {
  marshal_keyring : Keyring → string;
  unmarshal_keyring : string → option Keyring;
  marshal_sealed : Sealed → string;
  unmarshal_sealed : string → option Sealed;
  json_Valid : string → bool;
}.

Definition wrap_uint64 (z : Z) : Z := z mod 2 ^ 64.

Section Seal.
Context `{Crypto, KeyringJson}.

Definition sealAAD (version docVersion : Z) : string :=
  String (byte_at version 0) (put_uint64 docVersion).

(** [chacha20poly1305.NewX] accepts keys of 32 bytes. *)
Definition NewX (key : string) : result unit autherr :=
  if decide (String.length key = 32%nat) then Ok () else Err ErrAead.

Definition sealKeyring (k : Keyring) (kek : string) (docVersion : Z) : R string :=
  let pt := marshal_keyring k in
  let? _ := rlift (NewX kek) in
  let? nonce := randBytes xNonceSize in
  rret (nonce +:+ aead_Seal kek nonce pt (sealAAD formatVersion docVersion)).

Open Scope go_scope.
Definition openKeyring (blob kek : string) (version docVersion : Z) : result Keyring autherr :=
  if blen blob <? Z.of_nat xNonceSize + Overhead then Err ErrInvalidKeyFormat
  else
    _ <-? NewX kek;
    match aead_Open kek (stake xNonceSize blob) (sdrop xNonceSize blob)
            (sealAAD version docVersion) with
    | None => Err ErrKeyDecryptFailed
    | Some pt => match unmarshal_keyring pt with
                 | None => Err ErrInvalidKeyFormat
                 | Some k => Ok k
                 end
    end.

Definition deriveWrapKey (password : string) (p : KDFParams) : result string autherr :=
  match IDKey password (Salt p) (Time p) (Memory p) (Threads p) (KeyLen p) with
  | None => Err Panic
  | Some ikm => match hkdf_Key ikm (Info p) (Z.of_nat kekSize) with
                | None => Err ErrHkdf
                | Some wk => Ok wk
                end
  end.

Definition aeadWrap (kek slotKey slotID : string) : R string :=
  let? _ := rlift (NewX slotKey) in
  let? nonce := randBytes xNonceSize in
  rret (nonce +:+ aead_Seal slotKey nonce kek slotID).

Definition aeadUnwrap (wrapped slotKey slotID : string) : result string autherr :=
  if blen wrapped <? Z.of_nat xNonceSize + Overhead then Err ErrInvalidKeyFormat
  else
    _ <-? NewX slotKey;
    match aead_Open slotKey (stake xNonceSize wrapped) (sdrop xNonceSize wrapped) slotID with
    | None => Err ErrKeyDecryptFailed
    | Some kek => Ok kek
    end.

Definition newPassphraseSlot (kek password slotID : string) : R WrapSlot :=
  let? salt := randBytes saltSize in
  let p := mkKDF "argon2id" salt kdf_time kdf_memory kdf_threads argon2KeyLen wrapInfo in
  let? wk := rlift (deriveWrapKey password p) in
  let? wrapped := aeadWrap kek wk slotID in
  rret (mkSlot SlotPassphrase slotID wrapped (Some p)).

Definition unwrapPassphrase (s : WrapSlot) (password : string) : result string autherr :=
  if decide (slot_type s = SlotPassphrase) then
    match KDF s with
    | None => Err ErrInvalidKeyFormat
    | Some p => wk <-? deriveWrapKey password p; aeadUnwrap (WrappedKEK s) wk (slot_id s)
    end
  else Err ErrInvalidKeyFormat.

(** ** The operations *)
Definition sealNew (k : Keyring) (password : string) : R string :=
  let? kek := randBytes kekSize in
  let? blob := sealKeyring k kek 1 in
  let? slot := newPassphraseSlot kek password passphraseSlotID in
  rret (marshal_sealed (mkSealed formatVersion 1 blob [slot])).

Definition Create (now : Z) (pub priv password : string) : R string :=
  let e := mkKeyEntry "" AlgorithmX25519 PurposeEncryption pub priv None None None "" in
  sealNew (mkKeyring keyringVersion [normalizeEntry now e]) password.

Definition parse (sealed : string) : result Sealed autherr :=
  match unmarshal_sealed sealed with
  | None => Err ErrInvalidKeyFormat
  | Some s => if (s_version s =? 0) || bool_decide (Blob s = "") then Err ErrInvalidKeyFormat
              else Ok s
  end.

(** The loop over the slots; a panic of the KDF is not an error that it skips. *)
Fixpoint try_slots (s : Sealed) (password : string) (saw : bool) (slots : list WrapSlot)
  : result (Keyring * string) autherr :=
  match slots with
  | [] => Err (if saw then ErrKeyDecryptFailed else ErrInvalidKeyFormat)
  | slot :: rest =>
      if decide (slot_type slot = SlotPassphrase) then
        match unwrapPassphrase slot password with
        | Err Panic => Err Panic
        | Err _ => try_slots s password true rest
        | Ok kek =>
            kr <-? openKeyring (Blob s) kek (s_version s) (DocVersion s);
            Ok (kr, kek)
        end
      else try_slots s password saw rest
  end.

Definition unsealWithPassword (sealed password : string)
  : result (Keyring * string * Sealed) autherr :=
  s <-? parse sealed;
  kk <-? try_slots s password false (Slots s);
  Ok (kk, s).

Definition OpenWithPassword (sealed password : string) : result Keyring autherr :=
  x <-? unsealWithPassword sealed password; Ok (x.1.1).

Definition replaceInto (slot : WrapSlot) (slots : list WrapSlot) : list WrapSlot :=
  slot :: filter (λ sl, slot_type sl ≠ SlotPassphrase) slots.

Definition RekeyPassword (sealed oldPassword newPassword : string) : R string :=
  let? (_, kek, s) := rlift (unsealWithPassword sealed oldPassword) in
  let? slot := newPassphraseSlot kek newPassword passphraseSlotID in
  rret (marshal_sealed (mkSealed (s_version s) (DocVersion s) (Blob s)
                          (replaceInto slot (Slots s)))).

Definition reseal (kr : Keyring) (kek : string) (s : Sealed) : R string :=
  let dv := wrap_uint64 (DocVersion s + 1) in
  let? blob := sealKeyring kr kek dv in
  rret (marshal_sealed (mkSealed (s_version s) dv blob (Slots s))).

Definition AddEntry (now : Z) (sealed password : string) (e : Entry) : R string :=
  let? (kr, kek, s) := rlift (unsealWithPassword sealed password) in
  reseal (mkKeyring (kr_version kr) (kr_entries kr ++ [normalizeEntry now e])) kek s.

Definition AddEscrowSlot (sealed password recoveryPub domain : string) : R string :=
  let? (_, kek, s) := rlift (unsealWithPassword sealed password) in
  if decide (String.length recoveryPub = 32%nat) then
    let? seed := randBytes 32 in
    match box_SealAnonymous recoveryPub kek seed with
    | None => rfail ErrBox
    | Some wrapped =>
        rret (marshal_sealed (mkSealed (s_version s) (DocVersion s) (Blob s)
          (filter (λ sl, ¬ (slot_type sl = SlotEscrow ∧ slot_id sl = domain)) (Slots s)
             ++ [mkSlot SlotEscrow domain wrapped None])))
    end
  else rfail ErrInvalidKeyFormat.

Fixpoint try_escrow (s : Sealed) (pub priv : string) (slots : list WrapSlot)
  : result Keyring autherr :=
  match slots with
  | [] => Err ErrKeyDecryptFailed
  | sl :: rest =>
      if decide (slot_type sl = SlotEscrow) then
        match box_OpenAnonymous (WrappedKEK sl) pub priv with
        | None => try_escrow s pub priv rest
        | Some kek => openKeyring (Blob s) kek (s_version s) (DocVersion s)
        end
      else try_escrow s pub priv rest
  end.
Definition OpenWithEscrow (sealed recoveryPub recoveryPriv : string) : result Keyring autherr :=
  s <-? parse sealed;
  if decide (String.length recoveryPub = 32%nat ∧ String.length recoveryPriv = 32%nat)
  then try_escrow s recoveryPub recoveryPriv (Slots s)
  else Err ErrInvalidKeyFormat.

(** ** One private key under a password ([auth/keyseal]) *)
Definition nonceSize : nat := 24.

Definition Seal (now : Z) (privKey password : string) : R string :=
  if decide (String.length privKey = 32%nat) then
    match X25519_base privKey with
    | None => rfail ErrCurve
    | Some pub => Create now pub privKey password
    end
  else rfail ErrInvalidKeyFormat.

Fixpoint trim_json_space (s : string) : string :=
  match s with
  | String c s' => if bool_decide (c ∈ [SP; byte_of 9; CR; LF]) then trim_json_space s' else s
  | "" => ""
  end.
Definition isKeyring (sealed : string) : bool :=
  let t := trim_json_space sealed in HasPrefix t "{" && json_Valid t.

Definition legacy_key (password salt : string) : result string autherr :=
  match IDKey password salt kdf_time kdf_memory kdf_threads argon2KeyLen with
  | None => Err Panic
  | Some derived => Ok (fit 32 derived)
  end.

Definition sealLegacy (privKey password : string) : R string :=
  let? salt := randBytes saltSize in
  let? nonce := randBytes nonceSize in
  let? key := rlift (legacy_key password salt) in
  rret (salt +:+ nonce +:+ secretbox_Seal nonce key privKey).

Definition openLegacy (sealed password : string) : result string autherr :=
  if blen sealed <? Z.of_nat saltSize + Z.of_nat nonceSize + Overhead then Err ErrInvalidKeyFormat
  else
    key <-? legacy_key password (stake saltSize sealed);
    match secretbox_Open (sdrop (saltSize + nonceSize) sealed)
            (stake nonceSize (sdrop saltSize sealed)) key with
    | None => Err ErrKeyDecryptFailed
    | Some pt => Ok pt
    end.

Definition Open (sealed password : string) : result string autherr :=
  if isKeyring sealed then
    kr <-? OpenWithPassword sealed password;
    match ActiveEncryptionKey kr with
    | None => Err ErrNoActiveKey
    | Some e => Ok (PrivateKey e)
    end
  else openLegacy sealed password.
End Seal.

(** ** What the cryptography and the text format are relied on for *)
Class CryptoLaws `{Crypto} : Prop := {
  IDKey_ok : ∀ pw salt t m p n, 1 <= t → 1 <= p → 4 <= n →
    ∃ k, IDKey pw salt t m p n = Some k ∧ blen k = n;
  hkdf_ok : ∀ ikm info, ∃ k, hkdf_Key ikm info 32 = Some k ∧ String.length k = 32%nat;
  aead_open_seal : ∀ k n pt aad, aead_Open k n (aead_Seal k n pt aad) aad = Some pt;
  aead_length : ∀ k n pt aad, blen (aead_Seal k n pt aad) = blen pt + Overhead;
  (** the associated data is authenticated *)
  aead_binds : ∀ k n pt aad aad' pt',
    String.length aad = 9%nat → String.length aad' = 9%nat →
    aead_Open k n (aead_Seal k n pt aad) aad' = Some pt' → aad' = aad;
  secretbox_open_seal : ∀ n k pt, secretbox_Open (secretbox_Seal n k pt) n k = Some pt;
  secretbox_length : ∀ n k pt, blen (secretbox_Seal n k pt) = blen pt + Overhead;
  box_open_seal : ∀ pub priv m seed c, X25519_base priv = Some pub →
    box_SealAnonymous pub m seed = Some c → box_OpenAnonymous c pub priv = Some m;
}.
Class KeyringJsonLaws `{KeyringJson} : Prop := {
  keyring_text : ∀ k, unmarshal_keyring (marshal_keyring k) = Some k;
  sealed_text : ∀ s, unmarshal_sealed (marshal_sealed s) = Some s;
  sealed_object : ∀ s, HasPrefix (marshal_sealed s) "{" = true ∧ json_Valid (marshal_sealed s) = true;
}.

(** ** Facts about the encodings *)
Lemma byte_at_inj x y k :
  byte_at x k = byte_at y k → (x / 256 ^ k) mod 256 = (y / 256 ^ k) mod 256.
Proof.
  unfold byte_at. intros E%(f_equal N_of_ascii).
  rewrite !N_ascii_embedding in E; [apply Z2N.inj in E; [done|apply Z.mod_pos_bound; lia..]|..];
    pose proof (Z.mod_pos_bound (x / 256 ^ k) 256); pose proof (Z.mod_pos_bound (y / 256 ^ k) 256); lia.
Qed.

Lemma digits_step x y k k' :
  0 <= k → k' = k + 1 → x / 256 ^ k' = y / 256 ^ k' →
  (x / 256 ^ k) mod 256 = (y / 256 ^ k) mod 256 → x / 256 ^ k = y / 256 ^ k.
Proof.
  intros Hk -> E1 E2. rewrite !Z.pow_add_r in E1 by lia. change (256 ^ 1) with 256 in E1.
  rewrite <-!Z.div_div in E1 by lia. pose proof (Z.div_mod (x / 256 ^ k) 256).
  pose proof (Z.div_mod (y / 256 ^ k) 256). lia.
Qed.

Lemma put_uint64_inj x y :
  0 <= x < 2 ^ 64 → 0 <= y < 2 ^ 64 → put_uint64 x = put_uint64 y → x = y.
Proof.
  intros Hx Hy E. unfold put_uint64 in E. cbn [foldr] in E.
  injection E as E7 E6 E5 E4 E3 E2 E1 E0.
  apply byte_at_inj in E0, E1, E2, E3, E4, E5, E6, E7.
  assert (x / 256 ^ 8 = y / 256 ^ 8) as E8 by (rewrite !Z.div_small by lia; done).
  eapply (digits_step _ _ 7) in E8; [|lia|done|done].
  eapply (digits_step _ _ 6) in E8; [|lia|done|done].
  eapply (digits_step _ _ 5) in E8; [|lia|done|done].
  eapply (digits_step _ _ 4) in E8; [|lia|done|done].
  eapply (digits_step _ _ 3) in E8; [|lia|done|done].
  eapply (digits_step _ _ 2) in E8; [|lia|done|done].
  eapply (digits_step _ _ 1) in E8; [|lia|done|done].
  eapply (digits_step _ _ 0) in E8; [|lia|done|done].
  change (256 ^ 0) with 1 in E8. by rewrite !Z.div_1_r in E8.
Qed.

Lemma sealAAD_length v d : String.length (sealAAD v d) = 9%nat.
Proof. done. Qed.
Lemma sealAAD_doc v v' d d' :
  0 <= d < 2 ^ 64 → 0 <= d' < 2 ^ 64 → sealAAD v d = sealAAD v' d' → d = d'.
Proof.
  intros Hd Hd' E%(f_equal (sdrop 1)). by apply put_uint64_inj.
Qed.

Lemma rbind_ok {A B} (m : R A) (k : A → R B) r b r' :
  rbind m k r = (Ok b, r') ↔ ∃ a r1, m r = (Ok a, r1) ∧ k a r1 = (Ok b, r').
Proof.
  unfold rbind. destruct (m r) as [[a|e] r1]; naive_solver.
Qed.
Lemma rlift_ok {A} (x : result A autherr) r a r' :
  rlift x r = (Ok a, r') ↔ x = Ok a ∧ r' = r.
Proof. unfold rlift. naive_solver. Qed.
Lemma randBytes_ok n r b r' : randBytes n r = (Ok b, r') → String.length b = n.
Proof.
  unfold randBytes. destruct r as [|[x|] r]; intros E; simplify_eq;
    [apply zeros_length|apply fit_length].
Qed.
Lemma randBytes_total n r :
  Forall is_Some r → ∃ b r', randBytes n r = (Ok b, r') ∧ Forall is_Some r'.
Proof. intros [|x r' [b ->] Hr]; eexists _, _; by split. Qed.
Lemma NewX_ok key u : NewX key = Ok u ↔ String.length key = 32%nat.
Proof. unfold NewX. destruct u. destruct (decide _); naive_solver. Qed.

(** Taking apart a run that succeeded. *)
Ltac rinv H :=
  repeat match type of H with
  | rbind _ _ _ = (Ok _, _) =>
      let a := fresh "a" in let r := fresh "r" in let E := fresh "E" in
      apply rbind_ok in H as (a & r & E & H)
  end.

Section Laws.
Context `{Crypto, KeyringJson, !CryptoLaws, !KeyringJsonLaws}.

Lemma nonce_split n c : String.length n = xNonceSize →
  stake xNonceSize (n +:+ c) = n ∧ sdrop xNonceSize (n +:+ c) = c.
Proof. intros <-. split; [apply stake_app|apply sdrop_app]. Qed.

Lemma sealKeyring_ok k kek dv r blob r' :
  sealKeyring k kek dv r = (Ok blob, r') →
  String.length kek = 32%nat ∧ openKeyring blob kek formatVersion dv = Ok k ∧ blob ≠ "" ∧
  (∀ v dv', 0 <= dv < 2 ^ 64 → 0 <= dv' < 2 ^ 64 → dv' ≠ dv →
     openKeyring blob kek v dv' = Err ErrKeyDecryptFailed).
Proof.
  intros E. unfold sealKeyring in E. rinv E. apply rlift_ok in E0 as [HN ->].
  apply NewX_ok in HN. apply randBytes_ok in E1 as Hn. injection E as <- <-.
  destruct (nonce_split a0 (aead_Seal kek a0 (marshal_keyring k) (sealAAD formatVersion dv)) Hn) as [Hs Hd].
  assert (blen (a0 +:+ aead_Seal kek a0 (marshal_keyring k) (sealAAD formatVersion dv))
    <? Z.of_nat xNonceSize + Overhead = false) as Hl.
  { apply Z.ltb_ge. unfold blen. rewrite slen_app, Hn. 
    pose proof (aead_length kek a0 (marshal_keyring k) (sealAAD formatVersion dv)). unfold blen in *.
    unfold xNonceSize. lia. }
  split_and!; [done|..].
  - unfold openKeyring. rewrite Hl, Hs, Hd. rewrite (proj2 (NewX_ok kek ())) by done.
    by rewrite aead_open_seal, keyring_text.
  - intros E%(f_equal String.length). rewrite slen_app, Hn in E. unfold xNonceSize in E. simpl in E. lia.
  - intros v dv' Hdv Hdv' Hne. unfold openKeyring. rewrite Hl, Hs, Hd.
    rewrite (proj2 (NewX_ok kek ())) by done.
    destruct (aead_Open _ _ _ _) as [pt|] eqn:Eo; [|done].
    apply aead_binds in Eo; [|apply sealAAD_length..]. apply sealAAD_doc in Eo; lia.
Qed.

Lemma newPassphraseSlot_ok kek pw id r slot r' :
  newPassphraseSlot kek pw id r = (Ok slot, r') →
  slot_type slot = SlotPassphrase ∧ slot_id slot = id ∧ unwrapPassphrase slot pw = Ok kek.
Proof.
  intros E. unfold newPassphraseSlot in E. rinv E. apply rlift_ok in E1 as [Hw ->].
  injection E as <- <-. split_and!; [done..|].
  unfold aeadWrap in E2. rinv E2. apply rlift_ok in E as [HN ->]. apply NewX_ok in HN.
  apply randBytes_ok in E1 as Hn. injection E2 as <- <-.
  unfold unwrapPassphrase. cbn [slot_type KDF WrappedKEK slot_id].
  rewrite decide_True by done. rewrite Hw. unfold aeadUnwrap.
  destruct (nonce_split a3 (aead_Seal a0 a3 kek id) Hn) as [-> ->].
  rewrite (proj2 (NewX_ok a0 ())) by done. rewrite aead_open_seal.
  assert (blen (a3 +:+ aead_Seal a0 a3 kek id) <? Z.of_nat xNonceSize + Overhead = false) as ->; [|done].
  apply Z.ltb_ge. unfold blen. rewrite slen_app, Hn.
  pose proof (aead_length a0 a3 kek id). unfold blen, xNonceSize in *. lia.
Qed.

Lemma parse_marshal s : s_version s ≠ 0 → Blob s ≠ "" → parse (marshal_sealed s) = Ok s.
Proof.
  intros Hv Hb. unfold parse. rewrite sealed_text.
  by rewrite (proj2 (Z.eqb_neq _ _) Hv), bool_decide_false.
Qed.
Lemma parse_ok sealed s : parse sealed = Ok s → s_version s ≠ 0 ∧ Blob s ≠ "".
Proof.
  unfold parse. destruct (unmarshal_sealed sealed) as [x|]; [|done].
  destruct (Z.eqb_spec (s_version x) 0); [done|]. cbn [orb].
  case_bool_decide; [done|]. by intros [= <-].
Qed.

(** The slot that opened once opens any blob under the same key. *)
Lemma try_slots_kek s s' pw saw slots kr kek kr' :
  try_slots s pw saw slots = Ok (kr, kek) →
  openKeyring (Blob s') kek (s_version s') (DocVersion s') = Ok kr' →
  try_slots s' pw saw slots = Ok (kr', kek).
Proof.
  revert saw. induction slots as [|sl slots IH]; intros saw; cbn [try_slots]; [done|].
  destruct (decide (slot_type sl = SlotPassphrase)) as [_|_]; [|apply IH].
  destruct (unwrapPassphrase sl pw) as [k|e]; [|destruct e; try done; apply IH].
  destruct (openKeyring (Blob s) k _ _); [|done]. intros [= -> ->] ->. done.
Qed.
Lemma try_slots_open s pw saw slots kr kek :
  try_slots s pw saw slots = Ok (kr, kek) →
  openKeyring (Blob s) kek (s_version s) (DocVersion s) = Ok kr.
Proof.
  revert saw. induction slots as [|sl slots IH]; intros saw; cbn [try_slots]; [done|].
  destruct (decide (slot_type sl = SlotPassphrase)) as [_|_]; [|apply IH].
  destruct (unwrapPassphrase sl pw) as [k|e]; [|destruct e; try done; apply IH].
  destruct (openKeyring (Blob s) k _ _) eqn:E; [|done]. by intros [= -> ->].
Qed.

Lemma unseal_ok sealed pw kr kek s :
  unsealWithPassword sealed pw = Ok (kr, kek, s) →
  parse sealed = Ok s ∧ try_slots s pw false (Slots s) = Ok (kr, kek).
Proof.
  unfold unsealWithPassword. destruct (parse sealed) as [x|]; [|done].
  destruct (try_slots x pw false (Slots x)) as [[??]|] eqn:E; [|done]. by intros [= -> -> ->].
Qed.

Lemma trim_object s : HasPrefix s "{" = true → trim_json_space s = s.
Proof.
  destruct s as [|c s]; [done|]. unfold HasPrefix. cbn [String.prefix].
  destruct (ascii_dec "{" c) as [<-|]; [|done]. intros _. cbn [trim_json_space].
  by assert (bool_decide ("{"%char ∈ [SP; byte_of 9; CR; LF]) = false) as -> by reflexivity.
Qed.

Lemma isKeyring_marshal s : isKeyring (marshal_sealed s) = true.
Proof.
  destruct (sealed_object s) as [Hp Hv]. unfold isKeyring. rewrite trim_object by done.
  by rewrite Hp, Hv.
Qed.

Lemma sealNew_ok k pw r sealed r' :
  sealNew k pw r = (Ok sealed, r') →
  isKeyring sealed = true ∧ OpenWithPassword sealed pw = Ok k.
Proof.
  intros E. unfold sealNew in E. rinv E. injection E as <- <-.
  destruct (sealKeyring_ok _ _ _ _ _ _ E1) as (_ & Ho & Hb & _).
  destruct (newPassphraseSlot_ok _ _ _ _ _ _ E2) as (Ht & _ & Hu).
  split; [apply isKeyring_marshal|]. unfold OpenWithPassword, unsealWithPassword.
  rewrite parse_marshal by done. cbn [Slots try_slots]. rewrite decide_True by done.
  rewrite Hu. cbn [Blob s_version DocVersion]. by rewrite Ho.
Qed.

(** With a working source of randomness sealing succeeds. *)
Lemma deriveWrapKey_total pw salt :
  ∃ wk, deriveWrapKey pw (mkKDF "argon2id" salt kdf_time kdf_memory kdf_threads argon2KeyLen wrapInfo)
        = Ok wk ∧ String.length wk = 32%nat.
Proof.
  unfold deriveWrapKey. cbn [Salt Time Memory Threads KeyLen Info].
  destruct (IDKey_ok pw salt kdf_time kdf_memory kdf_threads argon2KeyLen) as (k & -> & _); try done.
  destruct (hkdf_ok k wrapInfo) as (wk & E & Hl). change (Z.of_nat kekSize) with 32. rewrite E. by exists wk.
Qed.

Lemma rbind_eq {A B} (m : R A) (k : A → R B) r a r' :
  m r = (Ok a, r') → rbind m k r = k a r'.
Proof. unfold rbind. by intros ->. Qed.

Lemma newPassphraseSlot_total kek pw id r :
  Forall is_Some r → ∃ slot r', newPassphraseSlot kek pw id r = (Ok slot, r') ∧ Forall is_Some r'.
Proof.
  intros Hr. unfold newPassphraseSlot.
  destruct (randBytes_total saltSize r Hr) as (salt & r1 & E1 & Hr1).
  rewrite (rbind_eq _ _ _ _ _ E1).
  destruct (deriveWrapKey_total pw salt) as (wk & E2 & Hl).
  rewrite (rbind_eq _ _ r1 wk r1) by (by apply rlift_ok).
  destruct (randBytes_total xNonceSize r1 Hr1) as (n & r2 & E3 & Hr2).
  assert (aeadWrap kek wk id r1 = (Ok (n +:+ aead_Seal wk n kek id), r2)) as E4.
  { unfold aeadWrap. rewrite (rbind_eq _ _ r1 () r1) by (by apply rlift_ok; rewrite NewX_ok).
    by rewrite (rbind_eq _ _ _ _ _ E3). }
  rewrite (rbind_eq _ _ _ _ _ E4). eexists _, _. by split.
Qed.

Lemma sealKeyring_total k kek dv r :
  Forall is_Some r → String.length kek = 32%nat →
  ∃ blob r', sealKeyring k kek dv r = (Ok blob, r') ∧ Forall is_Some r'.
Proof.
  intros Hr Hk. unfold sealKeyring.
  rewrite (rbind_eq _ _ r () r) by (by apply rlift_ok; rewrite NewX_ok).
  destruct (randBytes_total xNonceSize r Hr) as (n & r2 & E3 & Hr2).
  rewrite (rbind_eq _ _ _ _ _ E3). eexists _, _. by split.
Qed.

(** A 32-byte private key sealed with a password is a keyring
    blob, and opening it with the same password gives the key back, whatever
    the random bytes were; sealing only fails when the source of randomness or
    the curve does. *)
Lemma seal_open now priv pub pw r :
  String.length priv = 32%nat → X25519_base priv = Some pub → Forall is_Some r →
  ∃ sealed r', Seal now priv pw r = (Ok sealed, r') ∧ isKeyring sealed = true ∧
    Open sealed pw = Ok priv.
Proof.
  intros Hl Hx Hr. unfold Seal. rewrite decide_True by done. rewrite Hx.
  set (k := mkKeyring keyringVersion [normalizeEntry now (mkKeyEntry "" AlgorithmX25519
    PurposeEncryption pub priv None None None "")]).
  assert (∃ sealed r', sealNew k pw r = (Ok sealed, r')) as (sealed & r' & E).
  { unfold sealNew. destruct (randBytes_total kekSize r Hr) as (kek & r1 & E1 & Hr1).
    rewrite (rbind_eq _ _ _ _ _ E1).
    destruct (sealKeyring_total k kek 1 r1 Hr1 (randBytes_ok _ _ _ _ E1)) as (blob & r2 & E2 & Hr2).
    rewrite (rbind_eq _ _ _ _ _ E2).
    destruct (newPassphraseSlot_total kek pw passphraseSlotID r2 Hr2) as (slot & r3 & E3 & _).
    rewrite (rbind_eq _ _ _ _ _ E3). by eexists _, _. }
  exists sealed, r'. split; [exact E|].
  destruct (sealNew_ok _ _ _ _ _ E) as [Hk Ho]. split; [done|].
  unfold Open. by rewrite Hk, Ho.
Qed.

Lemma try_escrow_filter s s' pub priv slots new :
  Blob s' = Blob s → s_version s' = s_version s → DocVersion s' = DocVersion s →
  slot_type new = SlotPassphrase →
  try_escrow s' pub priv (replaceInto new slots) = try_escrow s pub priv slots.
Proof.
  intros Hb Hv Hd Hn. unfold replaceInto. cbn [try_escrow]. rewrite decide_False by (by rewrite Hn).
  induction slots as [|sl slots IH]; [done|]. rewrite filter_cons. cbn [try_escrow].
  destruct (decide (slot_type sl ≠ SlotPassphrase)) as [Hp|Hp].
  - cbn [try_escrow]. rewrite IH, Hb, Hv, Hd. done.
  - rewrite IH. apply dec_stable in Hp. by rewrite Hp.
Qed.

(** C27 (functional): changing the password rewraps the key-encryption key and
    nothing else. The result opens with the new password to the same keyring,
    has the same version and the same encrypted document, recovery by an escrow
    slot answers as before, and the only password slot left is the new one. *)
Theorem rekey_preserves sealed old new r sealed' r' kr kek s :
  unsealWithPassword sealed old = Ok (kr, kek, s) →
  RekeyPassword sealed old new r = (Ok sealed', r') →
  OpenWithPassword sealed' new = Ok kr ∧
  (∀ pub priv, OpenWithEscrow sealed' pub priv = OpenWithEscrow sealed pub priv) ∧
  ∃ slot, parse sealed' = Ok (mkSealed (s_version s) (DocVersion s) (Blob s)
            (slot :: filter (λ sl, slot_type sl ≠ SlotPassphrase) (Slots s))) ∧
    slot_type slot = SlotPassphrase ∧ unwrapPassphrase slot new = Ok kek.
Proof.
  intros Hu E. unfold RekeyPassword in E. apply rbind_ok in E as ([[??]?] & r1 & E1 & E).
  apply rlift_ok in E1 as [E1 ->]. rewrite Hu in E1. injection E1 as <- <- <-. rinv E.
  injection E as <- <-. destruct (newPassphraseSlot_ok _ _ _ _ _ _ E0) as (Ht & _ & Hw).
  apply unseal_ok in Hu as [Hp Hs]. destruct (parse_ok _ _ Hp) as [Hv Hb].
  split_and!.
  - unfold OpenWithPassword, unsealWithPassword. rewrite parse_marshal by done.
    cbn [Slots replaceInto try_slots]. rewrite decide_True by done. rewrite Hw.
    cbn [Blob s_version DocVersion]. by rewrite (try_slots_open _ _ _ _ _ _ Hs).
  - intros pub priv. unfold OpenWithEscrow. rewrite parse_marshal, Hp by done.
    destruct (decide _); [|done]. by apply try_escrow_filter.
  - eexists. split_and!; [by apply parse_marshal|done|done].
Qed.

(** Adding a key keeps every earlier one, raises the
    document version, and binds it: the previous encrypted document put back
    into the new envelope is refused. *)
Lemma add_entry_keeps now sealed pw e r sealed' r' kr kek s :
  unsealWithPassword sealed pw = Ok (kr, kek, s) →
  s_version s = formatVersion → 0 <= DocVersion s < 2 ^ 64 - 1 →
  AddEntry now sealed pw e r = (Ok sealed', r') →
  OpenWithPassword sealed' pw =
    Ok (mkKeyring (kr_version kr) (kr_entries kr ++ [normalizeEntry now e])) ∧
  ∃ blob, parse sealed' = Ok (mkSealed formatVersion (DocVersion s + 1) blob (Slots s)) ∧
    openKeyring blob kek formatVersion (DocVersion s) = Err ErrKeyDecryptFailed.
Proof.
  intros Hu Hv Hd E. unfold AddEntry in E. apply rbind_ok in E as ([[??]?] & r1 & E1 & E).
  apply rlift_ok in E1 as [E1 ->]. rewrite Hu in E1. injection E1 as <- <- <-.
  unfold reseal in E. rewrite Hv in E.
  assert (wrap_uint64 (DocVersion s + 1) = DocVersion s + 1) as Hw.
  { apply Z.mod_small. lia. }
  rewrite Hw in E. rinv E. injection E as <- <-.
  destruct (sealKeyring_ok _ _ _ _ _ _ E0) as (_ & Ho & Hb & Hroll).
  apply unseal_ok in Hu as [Hp Hs]. split.
  - unfold OpenWithPassword, unsealWithPassword. rewrite parse_marshal by done.
    cbn [Slots].
    erewrite try_slots_kek; [done|exact Hs|]. exact Ho.
  - eexists. split; [by apply parse_marshal|]. apply Hroll; lia.
Qed.
End Laws.

(** ** Rotation *)
Section Rotation.
Context `{Crypto}.

Lemma rotated_inactive l :
  filter (λ e, is_active e = true)
    ((λ x, if is_active x then with_status StatusRotated x else x) <$> l) = [].
Proof.
  induction l as [|x l IH]; [done|]. rewrite fmap_cons, filter_cons.
  rewrite decide_False; [exact IH|].
  destruct (is_active x) eqn:Ex; [|congruence].
  unfold is_active, with_status. cbn [Purpose Status].
  by rewrite (bool_decide_false (StatusRotated = StatusActive)), andb_false_r.
Qed.

(** Rotation leaves one active encryption key, the new one, and keeps every
    key pair that was there. *)
Lemma rotate_one_active now e k :
  Purpose e = PurposeEncryption →
  filter (λ x, is_active x = true) (kr_entries (RotateEncryptionKey now e k)) =
    [with_status StatusActive (normalizeEntry now e)] ∧
  ActiveEncryptionKey (RotateEncryptionKey now e k) =
    Some (with_status StatusActive (normalizeEntry now e)) ∧
  (λ x, (KeyID x, PublicKey x, PrivateKey x)) <$> kr_entries k `prefix_of`
    ((λ x, (KeyID x, PublicKey x, PrivateKey x)) <$> kr_entries (RotateEncryptionKey now e k)).
Proof.
  intros He.
  assert (filter (λ x, is_active x = true) (kr_entries (RotateEncryptionKey now e k)) =
    [with_status StatusActive (normalizeEntry now e)]) as Hf.
  { unfold RotateEncryptionKey. cbn [kr_entries]. rewrite filter_app, rotated_inactive.
    rewrite filter_cons, decide_True; [done|].
    unfold is_active. cbn. by rewrite He. }
  split_and!; [done|unfold ActiveEncryptionKey; by rewrite Hf|].
  unfold RotateEncryptionKey. cbn [kr_entries]. rewrite fmap_app, <-list_fmap_compose.
  eexists. f_equal. apply list_fmap_ext. intros i x _. cbn. by destruct (is_active x).
Qed.

(** [AddEntry] of a fresh key does not make it the current one: the document
    then has two active encryption keys and the older one is found. *)
Lemma added_key_not_current now k old e :
  kr_entries k = [old] → is_active old = true → Purpose e = PurposeEncryption → Status e = "" →
  ActiveEncryptionKey (mkKeyring (kr_version k) (kr_entries k ++ [normalizeEntry now e])) = Some old ∧
  is_active (normalizeEntry now e) = true.
Proof.
  intros Hk Ho He Hs. split.
  - unfold ActiveEncryptionKey. cbn [kr_entries]. rewrite Hk. cbn [app].
    rewrite filter_cons, decide_True by done. done.
  - unfold is_active, normalizeEntry. cbn [Purpose Status]. by rewrite He, Hs.
Qed.

(** [keyseal.Seal] of the active key alone, which is how a password change
    reseals, keeps neither the older keys nor the escrow slots. *)
Lemma create_one_entry `{KeyringJson, !CryptoLaws, !KeyringJsonLaws} now pub priv pw r sealed r' :
  Create now pub priv pw r = (Ok sealed, r') →
  ∃ kr, OpenWithPassword sealed pw = Ok kr ∧ length (kr_entries kr) = 1%nat ∧
    ∀ p q, is_ok (OpenWithEscrow sealed p q) = false.
Proof.
  intros E. unfold Create in E. destruct (sealNew_ok _ _ _ _ _ E) as [_ Ho].
  eexists. split; [exact Ho|]. split; [done|]. intros p q.
  unfold sealNew in E. rinv E. injection E as <- <-.
  destruct (sealKeyring_ok _ _ _ _ _ _ E1) as (_ & _ & Hb & _).
  destruct (newPassphraseSlot_ok _ _ _ _ _ _ E2) as (Ht & _ & _).
  unfold OpenWithEscrow. rewrite parse_marshal by done.
  destruct (decide _); [|done]. cbn [Slots try_escrow]. by rewrite decide_False by (by rewrite Ht).
Qed.
End Rotation.

(** ** A concrete instance of the parameters *)
Module Toy.
(** A list of strings as one string: every element behind its length. *)
Definition net (s : string) : string := fmt_d (blen s) +:+ String ":" s.
Definition enc (l : list string) : string := foldr (λ s t, net s +:+ t) "" l.
Fixpoint dec (fuel : nat) (s : string) : option (list string) :=
  match fuel, s with
  | _, "" => Some []
  | O, _ => None
  | S f, _ =>
      match cut ":" s with
      | Some (n, t) =>
          match parse_decimal n with
          | Some z => cons (stake (Z.to_nat z) t) <$> dec f (sdrop (Z.to_nat z) t)
          | None => None
          end
      | None => None
      end
  end.
Definition dec_all (s : string) : option (list string) := dec (String.length s) s.

Lemma dec_enc l f : (String.length (enc l) ≤ f)%nat → dec f (enc l) = Some l.
Proof.
  revert f. induction l as [|x l IH]; intros f Hf; [by destruct f|].
  cbn [enc foldr] in *. fold (enc l) in *. unfold net in *. rewrite <-sapp_assoc in *.
  change (String ":" x +:+ enc l) with (String ":" (x +:+ enc l)) in *.
  pose proof (fmt_d_nonempty (blen x) ltac:(unfold blen; lia)) as Hne.
  rewrite slen_app in Hf. cbn [String.length] in Hf. rewrite slen_app in Hf.
  destruct f as [|f]; [lia|]. cbn [dec].
  destruct (fmt_d (blen x)) as [|c d] eqn:E; [done|].
  change (String c d +:+ ?y) with (String c (d +:+ y)). cbv iota beta.
  change (String c (d +:+ ?y)) with (String c d +:+ y). rewrite <-E.
  rewrite cut_app by (apply fmt_d_no_byte; [done|unfold blen; lia]).
  rewrite parse_decimal_fmt_d by (unfold blen; lia). unfold blen. rewrite Nat2Z.id.
  rewrite stake_app, sdrop_app. rewrite IH; [done|]. lia.
Qed.
Lemma dec_all_enc l : dec_all (enc l) = Some l.
Proof. by apply dec_enc. Qed.

Definition enc_z (z : Z) : string := if z <? 0 then String "-" (fmt_d (- z)) else fmt_d z.
Definition dec_z (s : string) : option Z :=
  match s with
  | String "-" t => Z.opp <$> parse_decimal t
  | _ => parse_decimal s
  end.
Lemma dec_enc_z z : dec_z (enc_z z) = Some z.
Proof.
  unfold enc_z. destruct (Z.ltb_spec z 0).
  - cbn [dec_z]. rewrite parse_decimal_fmt_d by lia. cbn. f_equal. lia.
  - assert (dec_z (fmt_d z) = parse_decimal (fmt_d z)) as ->; [|by apply parse_decimal_fmt_d].
    pose proof (fmt_d_digits z ltac:(done)) as Hd. unfold dec_z.
    destruct (fmt_d z) as [|c t]; [done|]. simpl in Hd. apply andb_prop in Hd as [Hc _].
    destruct c as [[] [] [] [] [] [] [] []]; done.
Qed.
Definition enc_t (t : option Z) : string := match t with None => "" | Some z => String "t" (enc_z z) end.
Definition dec_t (s : string) : option (option Z) :=
  match s with "" => Some None | String _ s => Some <$> dec_z s end.
Lemma dec_enc_t t : dec_t (enc_t t) = Some t.
Proof. destruct t; [|done]. cbn. by rewrite dec_enc_z. Qed.

Definition enc_entry (e : Entry) : string :=
  enc [KeyID e; Algorithm e; Purpose e; PublicKey e; PrivateKey e; enc_t (Created e);
       enc_t (ValidFrom e); enc_t (ValidUntil e); Status e].
Definition dec_entry (s : string) : option Entry :=
  match dec_all s with
  | Some [a; b; c; d; e; f; g; h; i] =>
      match dec_t f, dec_t g, dec_t h with
      | Some f, Some g, Some h => Some (mkKeyEntry a b c d e f g h i)
      | _, _, _ => None
      end
  | _ => None
  end.
Lemma dec_enc_entry e : dec_entry (enc_entry e) = Some e.
Proof. unfold dec_entry, enc_entry. rewrite dec_all_enc, !dec_enc_t. by destruct e. Qed.

Definition enc_kdf (k : option KDFParams) : list string :=
  match k with
  | None => []
  | Some k => [kdf_algorithm k; Salt k; enc_z (Time k); enc_z (Memory k); enc_z (Threads k);
               enc_z (KeyLen k); Info k]
  end.
Definition dec_kdf (l : list string) : option (option KDFParams) :=
  match l with
  | [] => Some None
  | [a; b; c; d; e; f; g] =>
      match dec_z c, dec_z d, dec_z e, dec_z f with
      | Some c, Some d, Some e, Some f => Some (Some (mkKDF a b c d e f g))
      | _, _, _, _ => None
      end
  | _ => None
  end.
Lemma dec_enc_kdf k : dec_kdf (enc_kdf k) = Some k.
Proof. destruct k as [[]|]; [|done]. cbn [enc_kdf dec_kdf kdf_algorithm Salt Time Memory Threads KeyLen Info].
  by rewrite !dec_enc_z. Qed.
Definition enc_slot (s : WrapSlot) : string :=
  enc (slot_type s :: slot_id s :: WrappedKEK s :: enc_kdf (KDF s)).
Definition dec_slot (s : string) : option WrapSlot :=
  match dec_all s with
  | Some (a :: b :: c :: d) => mkSlot a b c <$> dec_kdf d
  | _ => None
  end.
Lemma dec_enc_slot s : dec_slot (enc_slot s) = Some s.
Proof. unfold dec_slot, enc_slot. rewrite dec_all_enc, dec_enc_kdf. by destruct s. Qed.

Lemma mapM_enc {A} (e : A → string) (d : string → option A) l :
  (∀ x, d (e x) = Some x) → mapM d (e <$> l) = Some l.
Proof. intros Hd. induction l as [|x l IH]; [done|]. cbn. rewrite Hd. cbn. by rewrite IH. Qed.

#[export] Instance json : KeyringJson := {|
  marshal_keyring k := enc (enc_z (kr_version k) :: (enc_entry <$> kr_entries k));
  unmarshal_keyring s :=
    match dec_all s with
    | Some (v :: es) => match dec_z v, mapM dec_entry es with
                        | Some v, Some es => Some (mkKeyring v es)
                        | _, _ => None
                        end
    | _ => None
    end;
  marshal_sealed s := String "{" (enc (enc_z (s_version s) :: enc_z (DocVersion s) :: Blob s
                                         :: (enc_slot <$> Slots s)));
  unmarshal_sealed s :=
    match dec_all (sdrop 1 s) with
    | Some (v :: d :: b :: sl) =>
        match dec_z v, dec_z d, mapM dec_slot sl with
        | Some v, Some d, Some sl => Some (mkSealed v d b sl)
        | _, _, _ => None
        end
    | _ => None
    end;
  json_Valid _ := true;
|}.
#[export] Instance json_laws : KeyringJsonLaws.
Proof.
  split.
  - intros [v es]. unfold unmarshal_keyring, marshal_keyring, json. cbn [kr_version kr_entries].
    rewrite dec_all_enc, dec_enc_z, (mapM_enc _ _ _ dec_enc_entry). done.
  - intros [v d b sl]. unfold unmarshal_sealed, marshal_sealed, json.
    cbn [s_version DocVersion Blob Slots sdrop].
    rewrite dec_all_enc, !dec_enc_z, (mapM_enc _ _ _ dec_enc_slot). done.
  - intros s. split; [|done]. unfold marshal_sealed, json, HasPrefix. cbn [String.prefix].
    destruct (ascii_dec "{" "{"); [|done]. by destruct (enc _).
Qed.

(** A cipher that only appends a tag made of the key and the associated data. *)
Definition tag (k aad : string) : string := fit 7 k +:+ fit 9 aad.
Lemma tag_length k aad : String.length (tag k aad) = 16%nat.
Proof. unfold tag. by rewrite slen_app, !fit_length. Qed.
Definition untag (t c : string) : option string :=
  if HasSuffix c t then Some (TrimSuffix c t) else None.
Lemma untag_app t c : untag t (c +:+ t) = Some c.
Proof. unfold untag. by rewrite HasSuffix_app, TrimSuffix_app. Qed.

#[export] Instance crypto : Crypto := {|
  IDKey pw salt t m p n :=
    if (1 <=? t) && (1 <=? p) && (4 <=? n) then Some (fit (Z.to_nat n) (pw +:+ salt)) else None;
  hkdf_Key ikm info n := Some (fit (Z.to_nat n) ikm);
  aead_Seal k n pt aad := pt +:+ tag k aad;
  aead_Open k n c aad := untag (tag k aad) c;
  secretbox_Seal n k pt := pt +:+ tag k "";
  secretbox_Open c n k := untag (tag k "") c;
  box_SealAnonymous pub m seed := Some (pub +:+ m);
  box_OpenAnonymous c pub priv := if HasPrefix c pub then Some (sdrop (String.length pub) c) else None;
  X25519_base priv := Some priv;
  sha256_hex s := s;
|}.
#[export] Instance crypto_laws : CryptoLaws.
Proof.
  split.
  - intros pw salt t m p n Ht Hp Hn. unfold IDKey, crypto.
    rewrite !(proj2 (Z.leb_le _ _)) by lia. eexists. split; [done|].
    unfold blen. rewrite fit_length. lia.
  - intros ikm info. eexists. split; [done|]. apply fit_length.
  - intros. apply untag_app.
  - intros. unfold blen, aead_Seal, crypto. rewrite slen_app, tag_length. unfold Overhead. lia.
  - intros k n pt aad aad' pt' Hl Hl' E. unfold aead_Open, aead_Seal, crypto, untag in E.
    destruct (HasSuffix _ _) eqn:Hs; [|done]. apply HasSuffix_true in Hs.
    apply (f_equal (slast 9)) in Hs. unfold tag in Hs. rewrite !sapp_assoc in Hs.
    rewrite !slast_app in Hs by (rewrite fit_length; lia).
    rewrite !fit_exact in Hs by done. unfold slast in Hs.
    rewrite Hl, Hl' in Hs. cbn [Nat.sub sdrop] in Hs. congruence.
  - intros. apply untag_app.
  - intros. unfold blen, secretbox_Seal, crypto. rewrite slen_app, tag_length. unfold Overhead. lia.
  - intros pub priv m seed c [= ->] [= <-]. unfold box_OpenAnonymous, crypto.
    by rewrite HasPrefix_app, sdrop_app.
Qed.
End Toy.

Section ToyWitnesses.
Import Toy.

Definition toy_priv : string := fit 32 "private".
Definition toy_sealed : string := match (Seal 0 toy_priv "old" []).1 with Ok s => s | Err _ => "" end.
Definition toy_open : Keyring * string * Sealed :=
  match unsealWithPassword toy_sealed "old" with
  | Ok x => x
  | Err _ => (mkKeyring 0 [], "", mkSealed 0 0 "" [])
  end.

Lemma ok_run {A} (m : R A) r : is_ok (m r).1 = true → ∃ a r', m r = (Ok a, r').
Proof. destruct (m r) as [[a|] r']; [by eexists _, _|done]. Qed.

Lemma seal_open_example :
  ∃ sealed r', Seal 7 toy_priv "secret" [Some "k"; Some "n"; Some "s"; Some "m"] = (Ok sealed, r') ∧
    isKeyring sealed = true ∧ Open sealed "secret" = Ok toy_priv.
Proof.
  apply (seal_open 7 toy_priv toy_priv); [reflexivity|reflexivity|].
  repeat constructor; eexists; reflexivity.
Defined.

Lemma toy_unseal : unsealWithPassword toy_sealed "old" = Ok toy_open.
Proof. vm_compute. reflexivity. Qed.

Lemma rekey_preserves_witness :
  ∃ sealed' r', RekeyPassword toy_sealed "old" "new" [] = (Ok sealed', r') ∧
    OpenWithPassword sealed' "new" = Ok toy_open.1.1.
Proof.
  destruct (ok_run (RekeyPassword toy_sealed "old" "new") []) as (sealed' & r' & E);
    [vm_compute; reflexivity|].
  exists sealed', r'. split; [exact E|].
  pose proof toy_unseal as Hu. destruct toy_open as [[kr kek] s].
  exact (proj1 (rekey_preserves _ _ _ _ _ _ _ _ _ Hu E)).
Defined.

Definition toy_entry : Entry :=
  mkKeyEntry "" AlgorithmX25519 PurposeEncryption "pub2" "priv2" None None None "".
Lemma toy_envelope : s_version toy_open.2 = formatVersion ∧ DocVersion toy_open.2 = 1.
Proof. vm_compute. by split. Qed.

Lemma add_entry_keeps_example :
  ∃ sealed' r', AddEntry 5 toy_sealed "old" toy_entry [] = (Ok sealed', r') ∧
    OpenWithPassword sealed' "old"
    = Ok (mkKeyring (kr_version toy_open.1.1) (kr_entries toy_open.1.1 ++ [normalizeEntry 5 toy_entry])).
Proof.
  destruct (ok_run (AddEntry 5 toy_sealed "old" toy_entry) []) as (sealed' & r' & E);
    [vm_compute; reflexivity|].
  exists sealed', r'. split; [exact E|].
  pose proof toy_unseal as Hu. pose proof toy_envelope as [Hv Hd].
  destruct toy_open as [[kr kek] s].
  refine (proj1 (add_entry_keeps _ _ _ _ _ _ _ _ _ _ Hu Hv _ E)).
  change ((kr, kek, s).2) with s in Hd. rewrite Hd. lia.
Defined.
End ToyWitnesses.
