(* ===== verification/Passwd.v ===== *)
(** * The password file

    Model of [src/auth/passwd]: the agent that authenticates against a passwd
    file and unseals the user's keys ([passwd.go]), and the functions that edit
    the file ([manage.go]), over the disk of [Disk]. Hashing costs are recorded:
    every derivation leaves its parameters in a log, so that the time an answer
    takes is part of the model. *)
From S2P Require Import Prelude GoStrings Base64 UidList FilePath Disk Keyring.
From Stdlib Require Import ZArith Lia Ascii.
Open Scope string_scope.
Open Scope list_scope.
Open Scope Z_scope.

(** ** [strings.SplitN] and [fmt.Sscanf] *)
Fixpoint SplitN (c : ascii) (n : nat) (s : string) : list string :=
  match n with
  | O => []
  | S O => [s]
  | S n' => match cut c s with
            | None => [s]
            | Some (a, b) => a :: SplitN c n' b
            end
  end.

Fixpoint take_digits (s : string) : string * string :=
  match s with
  | "" => ("", "")
  | String c s' => if is_digit c then let '(d, r) := take_digits s' in (String c d, r)
                   else ("", s)
  end.
(** [%d] into an unsigned integer of [bits] bits *)
Definition scan_uint (bits : Z) (s : string) : option (Z * string) :=
  let '(d, r) := take_digits (trim_left s) in
  match ParseUint bits d with Some n => Some (n, r) | None => None end.
(** [%d] into an [int] *)
Definition scan_int (s : string) : option (Z * string) :=
  let t := trim_left s in
  let '(sign, t) :=
    match t with
    | String "-" t' => (-1, t')
    | String "+" t' => (1, t')
    | _ => (1, t)
    end in
  let '(d, r) := take_digits t in
  match parse_decimal d with
  | Some n => if (sign * n <? 2 ^ 63) && (- 2 ^ 63 <=? sign * n) then Some (sign * n, r) else None
  | None => None
  end.
Definition scan_lit (lit s : string) : option string :=
  if HasPrefix s lit then Some (sdrop (String.length lit) s) else None.

(** ** Entries *)
Record userEntry := mkUser { username : string; hash : string; mailbox : string; user_uid : Z }.
#[export] Instance userEntry_eq_dec : EqDecision userEntry.
Proof. solve_decision. Defined.

Definition parse_uid (f : string) : Z :=
  if decide (f = "") then 0
  else match scan_uint 64 f with Some (n, _) => wrap_uint32 n | None => 0 end.

(** The fields of a line, [None] for blank lines and comments. *)
Definition line_parts (line : string) : option (list string) :=
  let t := TrimSpace line in
  if decide (t = "") then None
  else if HasPrefix t "#" then None
  else Some (SplitN ":" 4 t).

Definition parse_line (line : string) : option userEntry :=
  match line_parts line with
  | Some [a; b] => Some (mkUser a b a 0)
  | Some [a; b; c] => Some (mkUser a b c 0)
  | Some (a :: b :: c :: d :: _) => Some (mkUser a b c (parse_uid d))
  | _ => None
  end.

(** [scanner.Err()] is not nil on a line that does not fit the buffer. *)
Definition scan_entries (content : string) : result (list userEntry) autherr :=
  match ScanLines content with
  | (lines, ScanEOF) => Ok (omap parse_line lines)
  | (_, ScanTooLong) => Err (ErrWrapped "read passwd file")
  end.

Definition errOpen : autherr := ErrWrapped "open passwd file".

Definition parsePasswd (passwdPath : string) : io autherr (list userEntry) := λ w,
  match read_file errOpen passwdPath w with
  | (Ok None, w) => (Ok [], w)
  | (Ok (Some c), w) => (scan_entries c, w)
  | (Err e, w) => (Err e, w)
  end.
Definition ListUsers := parsePasswd.
Definition LookupUID (passwdPath name : string) : io autherr Z :=
  (let! users := parsePasswd passwdPath in
   match filter (λ u, username u = name) users with
   | [] => fail (ErrWrapped "user not found")
   | u :: _ => ret (user_uid u)
   end)%io.

(** ** The agent *)
Record Agent := mkAgent {
  passwdPath : string; keyDir : string; userKeyringBase : string;
  users : gmap string userEntry;
}.
Definition WithUserKeyringBase (base : string) (a : Agent) : Agent :=
  mkAgent (passwdPath a) (keyDir a) base (users a).

Definition by_name (es : list userEntry) : gmap string userEntry :=
  foldl (λ m e, <[username e := e]> m) ∅ es.

Definition NewAgent (path keys : string) : io autherr Agent :=
  (let! es := parsePasswd path in ret (mkAgent path keys "" (by_name es)))%io.

(** Parameters of a derivation: time, memory, threads, length. *)
Definition kdf_cost : Type := Z * Z * Z * Z.
Definition argon2Time : Z := 3.
Definition argon2Memory : Z := 64 * 1024.
Definition argon2Threads : Z := 4.
Definition argon2HashLen : Z := 32.
Definition canonical_cost : kdf_cost := (argon2Time, argon2Memory, argon2Threads, argon2HashLen).

Section Passwords.
Context `{Crypto}.

(** [salt] is the outcome of [rand.Read]. *)
Definition HashPassword (salt : option string) (password : string) : result string autherr :=
  match salt with
  | None => Err ErrRandom
  | Some salt =>
      let salt := fit saltSize salt in
      match IDKey password salt argon2Time argon2Memory argon2Threads argon2HashLen with
      | None => Err Panic
      | Some h => Ok ("$argon2id$v=19$m=65536,t=3,p=4$" +:+ b64_raw_encode salt
                        +:+ String "$" (b64_raw_encode h))
      end
  end.

Definition parse_params (s : string) : option (Z * Z * Z) :=
  s1 ← scan_lit "m=" s; '(m, s2) ← scan_uint 32 s1;
  s3 ← scan_lit ",t=" s2; '(t, s4) ← scan_uint 32 s3;
  s5 ← scan_lit ",p=" s4; '(p, _) ← scan_uint 32 s5;
  Some (m, t, p).
Definition parse_version (s : string) : option Z :=
  s1 ← scan_lit "v=" s; '(v, _) ← scan_int s1; Some v.

(** The answer ([None] when the derivation panics) and the derivations made. *)
Definition verifyPassword (password hash : string) : option bool * list kdf_cost :=
  if HasPrefix hash "$argon2id$" then
    match Split "$" hash with
    | [_; _; v; params; s; h] =>
        match parse_version v with
        | Some 19 =>
            match parse_params params with
            | Some (memory, time, threads) =>
                match b64_raw_decode s, b64_raw_decode h with
                | Some salt, Some expected =>
                    let cost := (time, memory, threads mod 256, blen expected) in
                    match IDKey password salt time memory (threads mod 256) (blen expected) with
                    | None => (None, [cost])
                    | Some derived => (Some (bool_decide (derived = expected)), [cost])
                    end
                | _, _ => (Some false, [])
                end
            | None => (Some false, [])
            end
        | _ => (Some false, [])
        end
    | _ => (Some false, [])
    end
  else (Some false, []).

(** [decoyHash]: the hash of a random password, [""] when hashing failed. *)
Definition decoyHash (salt : option string) (buf : string) : string :=
  match HashPassword salt (b64_raw_encode buf) with Ok h => h | Err _ => "" end.
Definition decoyVerify (decoy password : string) : option bool * list kdf_cost :=
  if decide (decoy = "") then (Some false, []) else verifyPassword password decoy.

(** ** Keys *)
Definition privateKeyExt : string := ".key".
Definition publicKeyExt : string := ".pub".
Definition keyringPubFile : string := "keyring.pub".
Definition keyringKeyFile : string := "keyring.key".

(** [os.Stat]: whether the file is there; a failure other than absence is an error. *)
Definition stat (e : autherr) (p : string) : io autherr bool :=
  (let! c := read_file e p in ret (bool_decide (is_Some c)))%io.

Definition keyFilePath (a : Agent) (name keyringFile legacyExt : string) : io autherr string :=
  (let! in_keyring :=
     (if decide (userKeyringBase a = "") then ret false
      else stat (ErrWrapped "stat keyring") (Join [userKeyringBase a; name; keyringFile])) in
   if in_keyring : bool then ret (Join [userKeyringBase a; name; keyringFile])
   else
     let! legacy :=
       (if decide (keyDir a = "") then ret false
        else stat (ErrWrapped "stat key") (Join [keyDir a; name +:+ legacyExt])) in
     if legacy : bool then ret (Join [keyDir a; name +:+ legacyExt])
     else fail ErrKeyNotFound)%io.

Definition read_key (e : autherr) (p : string) : io autherr string :=
  (let! c := read_file e p in
   match c with None => fail e | Some s => ret s end)%io.

Definition loadKeys `{KeyringJson} (a : Agent) (name password : string)
  : io autherr (string * string) :=
  (let! pubPath := keyFilePath a name keyringPubFile publicKeyExt in
   let! pub := read_key (ErrWrapped "read public key") pubPath in
   let! privPath := keyFilePath a name keyringKeyFile privateKeyExt in
   let! sealed := read_key (ErrWrapped "read private key") privPath in
   match Open sealed password with
   | Err e => fail e
   | Ok priv => ret (pub, priv)
   end)%io.

Record AuthSession := mkSession {
  as_username : string; as_mailbox : string;
  as_public : option string; as_private : option string; EncryptionEnabled : bool;
}.

(** The result, the disk and the derivations of the password check. *)
Definition Authenticate `{KeyringJson} (decoy : string) (a : Agent) (name password : string)
  (w : folder) : result AuthSession autherr * folder * list kdf_cost :=
  match users a !! name with
  | None =>
      match decoyVerify decoy password with
      | (None, log) => (Err Panic, w, log)
      | (Some _, log) => (Err ErrUserNotFound, w, log)
      end
  | Some entry =>
      match verifyPassword password (hash entry) with
      | (None, log) => (Err Panic, w, log)
      | (Some false, log) => (Err ErrAuthFailed, w, log)
      | (Some true, log) =>
          match loadKeys a name password w with
          | (Ok (pub, priv), w) =>
              (Ok (mkSession (username entry) (mailbox entry) (Some pub) (Some priv) true), w, log)
          | (Err ErrKeyNotFound, w) =>
              (Ok (mkSession (username entry) (mailbox entry) None None false), w, log)
          | (Err e, w) => (Err e, w, log)
          end
      end
  end.

Definition UserExists (a : Agent) (name : string) : bool := bool_decide (is_Some (users a !! name)).

Definition GetPublicKey (a : Agent) (name : string) : io autherr string :=
  (let! c :=
     (if decide (userKeyringBase a = "") then ret None
      else read_file (ErrWrapped "read keyring public key")
             (Join [userKeyringBase a; name; keyringPubFile])) in
   match c with
   | Some pub => ret pub
   | None =>
       if negb (UserExists a name) then fail ErrUserNotFound
       else if decide (keyDir a = "") then fail ErrKeyNotFound
       else
         let! l := read_file (ErrWrapped "read public key") (Join [keyDir a; name +:+ publicKeyExt]) in
         match l with None => fail ErrKeyNotFound | Some pub => ret pub end
   end)%io.

Definition HasEncryption (a : Agent) (name : string) : io autherr bool :=
  (let! k :=
     (if decide (userKeyringBase a = "") then ret false
      else stat (ErrWrapped "stat keyring public key")
             (Join [userKeyringBase a; name; keyringPubFile])) in
   if k : bool then ret true
   else if negb (UserExists a name) || bool_decide (keyDir a = "") then ret false
   else stat (ErrWrapped "stat public key") (Join [keyDir a; name +:+ publicKeyExt]))%io.

(** ** Editing the file *)
(** [Fprintf] to a file opened for appending *)
Definition append (e : autherr) (p content : string) : io autherr unit := λ w,
  match sys w with
  | (Done, w) => (Ok (), set_files (λ m, <[p := default "" (m !! p) +:+ content]> m) w)
  | (Fault n, w) =>
      (Err e, set_files (λ m, <[p := default "" (m !! p) +:+ stake n content]> m) w)
  end.

Definition user_line (name h : string) : string := name +:+ String ":" (h +:+ String ":" name).

Definition AddUser (salt : option string) (path name password : string) : io autherr unit :=
  (let! es := parsePasswd path in
   if bool_decide (name ∈ username <$> es) then fail (ErrWrapped "user already exists")
   else
     match HashPassword salt password with
     | Err e => fail e
     | Ok h =>
         open_create errOpen path ;!
         append (ErrWrapped "write passwd file") path (user_line name h +:+ String LF "")
     end)%io.

Definition writePasswd (path : string) (lines : list string) : io autherr unit :=
  let tmpPath := path +:+ ".tmp" in
  (open_trunc (ErrWrapped "create temp passwd file") tmpPath ;!
   on_error (write_all (ErrWrapped "write temp passwd file") tmpPath (unlines LF lines) ;!
             call_ (ErrWrapped "close temp passwd file")) (os_remove tmpPath) ;!
   rename (ErrWrapped "rename passwd file") tmpPath path)%io.

(** The lines of an existing file; reading stops at a line that is too long. *)
Definition read_lines (path : string) : io autherr (list string) :=
  (let! c := read_file errOpen path in
   match c with
   | None => fail errOpen
   | Some c => match ScanLines c with
               | (lines, ScanEOF) => ret lines
               | (_, ScanTooLong) => fail (ErrWrapped "scan passwd file")
               end
   end)%io.

Definition set_line (name h line : string) : bool * string :=
  match line_parts line with
  | Some [a; b] => if decide (a = name) then (true, name +:+ String ":" (h +:+ String ":" a))
                   else (false, line)
  | Some [a; b; c] => if decide (a = name) then (true, name +:+ String ":" (h +:+ String ":" c))
                      else (false, line)
  | Some (a :: b :: c :: d :: _) =>
      if decide (a = name)
      then (true, name +:+ String ":" (h +:+ String ":" (c +:+ String ":" d)))
      else (false, line)
  | _ => (false, line)
  end.

Definition SetPassword (salt : option string) (path name password : string) : io autherr unit :=
  (let! c := read_file errOpen path in
   match c with
   | None => fail errOpen
   | Some c =>
       match HashPassword salt password with
       | Err e => fail e
       | Ok h =>
           match ScanLines c with
           | (_, ScanTooLong) => fail (ErrWrapped "scan passwd file")
           | (lines, ScanEOF) =>
               let out := set_line name h <$> lines in
               if existsb fst out then writePasswd path (snd <$> out)
               else fail (ErrWrapped "user not found")
           end
       end
   end)%io.

Definition strip_line (names : gset string) (line : string) : bool * string :=
  match line_parts line with
  | Some (a :: b :: c :: d :: _) =>
      if decide (a ∈ names) then (true, a +:+ String ":" (b +:+ String ":" c)) else (false, line)
  | _ => (false, line)
  end.
Definition StripUIDs (path : string) (names : list string) : io autherr Z :=
  (let! lines := read_lines path in
   let out := strip_line (list_to_set names) <$> lines in
   let stripped := Z.of_nat (length (filter (λ x, x.1 = true) out)) in
   if stripped =? 0 then ret 0
   else writePasswd path (snd <$> out) ;! ret stripped)%io.

(** [filterPasswd] keeps blank lines and comments. *)
Definition is_user_line (name line : string) : bool :=
  match line_parts line with
  | Some (a :: _) => bool_decide (a = name)
  | _ => false
  end.
Definition DeleteUser (path name : string) : io autherr unit :=
  (let! lines := read_lines path in
   if existsb (is_user_line name) lines
   then writePasswd path (filter (λ l, is_user_line name l = false) lines)
   else fail (ErrWrapped "user not found"))%io.
End Passwords.

(** ** A trailing carriage return is white space *)
Definition cr : string := String CR "".

Lemma space_len_cr c s : space_len (String c s +:+ cr) = space_len (String c s).
Proof.
  destruct s as [|d [|e s]]; [| |done].
  - cbn [String.append]. change ("" +:+ cr) with cr. unfold cr, space_len.
    destruct (_ || _); [done|]. change (nat_of_ascii CR) with 13%nat.
    by destruct (Nat.eqb (nat_of_ascii c) 194).
  - change (String c (String d "") +:+ cr) with (String c (String d (String CR ""))).
    unfold space_len. destruct (_ || _); [done|]. destruct (_ && _); [done|].
    change (nat_of_ascii CR) with 13%nat.
    by rewrite !andb_false_r.
Qed.

Lemma trim_left_cr k s :
  trim_left_aux k (s +:+ cr) =
  match trim_left_aux k s with "" => "" | t => t +:+ cr end.
Proof.
  revert k. induction s as [|c s IH]; intros k; [by destruct k as [|[]]|].
  pose proof (space_len_cr c s) as Hs.
  change (String c s +:+ cr) with (String c (s +:+ cr)) in *.
  destruct k as [|k]; cbn [trim_left_aux]; [|apply IH]. rewrite Hs.
  destruct (space_len (String c s)); [done|apply IH].
Qed.

Lemma all_space_cr s : all_space (s +:+ cr) = all_space s.
Proof.
  unfold all_space, trim_left. rewrite trim_left_cr.
  by destruct (trim_left_aux 0 s).
Qed.

Lemma trim_right_cr s : trim_right (s +:+ cr) = trim_right s.
Proof.
  induction s as [|c s IH]; [done|].
  pose proof (all_space_cr (String c s)) as Ha.
  change (String c s +:+ cr) with (String c (s +:+ cr)) in *. cbn [trim_right].
  rewrite Ha, IH. done.
Qed.

Lemma TrimSpace_cr s : TrimSpace (s +:+ cr) = TrimSpace s.
Proof.
  unfold TrimSpace, trim_left. rewrite trim_left_cr.
  destruct (trim_left_aux 0 s); [done|]. apply trim_right_cr.
Qed.

Lemma line_parts_drop_cr l : line_parts (drop_cr l) = line_parts l.
Proof.
  unfold line_parts. assert (TrimSpace (drop_cr l) = TrimSpace l) as ->; [|done].
  unfold drop_cr. destruct (cut_last CR l) as [[a b]|] eqn:E; [|done].
  destruct b; [|done]. apply cut_last_Some in E as [-> _]. symmetry. apply TrimSpace_cr.
Qed.
Lemma parse_line_drop_cr l : parse_line (drop_cr l) = parse_line l.
Proof. unfold parse_line. by rewrite line_parts_drop_cr. Qed.

(** ** Files made of lines *)
Definition raw_line (l : string) : Prop := no_byte LF l ∧ too_long l = false.
#[export] Instance raw_line_dec l : Decision (raw_line l).
Proof. unfold raw_line, no_byte. apply _. Defined.

Lemma ScanLines_raw ls :
  Forall raw_line ls → ScanLines (unlines LF ls) = (drop_cr <$> ls, ScanEOF).
Proof.
  intros Hl. unfold ScanLines. rewrite Split_unlines.
  2:{ eapply Forall_impl; [exact Hl|]. by intros ? []. }
  induction Hl as [|w ws (Hlf & Hlen) Hws IH]; [done|].
  change ((w :: ws) ++ [""]) with (w :: (ws ++ [""])).
  assert (∃ x y, ws ++ [""] = x :: y) as (x & y & E) by (destruct ws; eauto).
  rewrite E in *. cbn [scan_raw] in *. by rewrite Hlen, IH.
Qed.

Definition entries_of (ls : list string) : list userEntry := omap parse_line ls.

Lemma entries_drop_cr ls : omap parse_line (drop_cr <$> ls) = entries_of ls.
Proof.
  unfold entries_of. induction ls as [|l ls IH]; [done|]. rewrite fmap_cons.
  change (omap parse_line (?x :: ?y)) with (match parse_line x with
    | Some e => e :: omap parse_line y | None => omap parse_line y end).
  by rewrite parse_line_drop_cr, IH.
Qed.

Lemma scan_entries_raw ls :
  Forall raw_line ls → scan_entries (unlines LF ls) = Ok (entries_of ls).
Proof. intros Hl. unfold scan_entries. by rewrite ScanLines_raw, entries_drop_cr. Qed.

Lemma unlines_snoc ls l : unlines LF (ls ++ [l]) = unlines LF ls +:+ (l +:+ String LF "").
Proof.
  induction ls as [|x ls IH]; [done|]. cbn [app unlines]. rewrite IH.
  by rewrite <-sapp_assoc.
Qed.
Lemma entries_cons l ls :
  entries_of (l :: ls) = option_list (parse_line l) ++ entries_of ls.
Proof. unfold entries_of. cbn. by destruct (parse_line l). Qed.
Lemma entries_snoc ls l :
  entries_of (ls ++ [l]) = entries_of ls ++ option_list (parse_line l).
Proof. unfold entries_of. rewrite omap_app. by destruct (parse_line l) eqn:E; cbn; rewrite E. Qed.

(** ** Fields *)
Definition field (s : string) : Prop := sforall plain_byte s = true ∧ no_byte ":" s.
(** A login name the file can hold. *)
Definition login (s : string) : Prop := field s ∧ s ≠ "" ∧ HasPrefix s "#" = false.

Lemma HasPrefix_app_l s t c : s ≠ "" → HasPrefix s (String c "") = HasPrefix (s +:+ t) (String c "").
Proof.
  destruct s as [|d s]; [done|]. intros _. change (String d s +:+ t) with (String d (s +:+ t)).
  unfold HasPrefix. cbn [String.prefix]. destruct (ascii_dec c d); [|done].
  etrans; [|symmetry]; apply HasPrefix_nil.
Qed.

Lemma plain_join a b :
  sforall plain_byte a = true → sforall plain_byte b = true →
  sforall plain_byte (a +:+ String ":" b) = true.
Proof. intros Ha Hb. rewrite sforall_app. cbn. by rewrite Ha, Hb. Qed.

Lemma line_parts_plain s :
  sforall plain_byte s = true → s ≠ "" → HasPrefix s "#" = false →
  line_parts s = Some (SplitN ":" 4 s).
Proof. intros Hp Hne Hh. unfold line_parts. rewrite TrimSpace_plain by done.
  rewrite decide_False by done. by rewrite Hh. Qed.

Lemma SplitN_cons n a b :
  no_byte ":" a → SplitN ":" (S (S n)) (a +:+ String ":" b) = a :: SplitN ":" (S n) b.
Proof. intros Ha. cbn [SplitN]. by rewrite cut_app. Qed.
Lemma SplitN_last n a : no_byte ":" a → SplitN ":" (S (S n)) a = [a].
Proof. intros Ha%cut_None. cbn [SplitN]. by rewrite Ha. Qed.

Lemma join_ne a b : a +:+ String ":" b ≠ "".
Proof. by destruct a. Qed.

(** Three fields are read back, whatever follows the third. *)
Lemma line3 a h m :
  login a → field h → field m →
  line_parts (a +:+ String ":" (h +:+ String ":" m)) = Some [a; h; m].
Proof.
  intros ([Ha1 Ha2] & Hne & Hh) [Hh1 Hh2] [Hm1 Hm2].
  rewrite line_parts_plain; [|auto using plain_join|apply join_ne|].
  - rewrite !SplitN_cons, SplitN_last by done. done.
  - by rewrite <-HasPrefix_app_l.
Qed.
Lemma line4 a h m d :
  login a → field h → field m → sforall plain_byte d = true →
  line_parts (a +:+ String ":" (h +:+ String ":" (m +:+ String ":" d))) = Some [a; h; m; d].
Proof.
  intros ([Ha1 Ha2] & Hne & Hh) [Hh1 Hh2] [Hm1 Hm2] Hd.
  rewrite line_parts_plain; [|auto using plain_join|apply join_ne|].
  - rewrite !SplitN_cons by done. done.
  - by rewrite <-HasPrefix_app_l.
Qed.

Lemma line_parts_shape l ps : line_parts l = Some ps → ps = SplitN ":" 4 (TrimSpace l).
Proof.
  unfold line_parts. destruct (decide _); [done|]. destruct (HasPrefix _ _); [done|].
  by intros [= <-].
Qed.
Lemma SplitN4_inv s a ps :
  SplitN ":" 4 s = a :: ps →
  (ps = [] ∧ s = a ∧ no_byte ":" a) ∨
  no_byte ":" a ∧
  ((∃ b, ps = [b] ∧ s = a +:+ String ":" b ∧ no_byte ":" b) ∨
   (∃ b c, ps = [b; c] ∧ s = a +:+ String ":" (b +:+ String ":" c) ∧ no_byte ":" b ∧ no_byte ":" c) ∨
   (∃ b c d, ps = [b; c; d] ∧ s = a +:+ String ":" (b +:+ String ":" (c +:+ String ":" d)) ∧
      no_byte ":" b ∧ no_byte ":" c)).
Proof.
  cbn [SplitN]. destruct (cut ":" s) as [[a' s1]|] eqn:E1.
  2:{ intros [= <- <-]. left. apply cut_None in E1. done. }
  apply cut_Some in E1 as [-> Ha]. intros [= -> <-]. right. split; [done|].
  destruct (cut ":" s1) as [[b s2]|] eqn:E2.
  2:{ left. exists s1. apply cut_None in E2. done. }
  apply cut_Some in E2 as [-> Hb]. right. destruct (cut ":" s2) as [[c d]|] eqn:E3.
  2:{ left. exists b, s2. apply cut_None in E3. done. }
  apply cut_Some in E3 as [-> Hc]. right. exists b, c, d. done.
Qed.

(** ** Hashes *)
Section Hashes.
Context `{Crypto, !CryptoLaws}.

Lemma b64_byte_plain c : b64_byte c = true → plain_byte c = true ∧ c ≠ ":"%char ∧ c ≠ "$"%char.
Proof. destruct c as [[] [] [] [] [] [] [] []]; vm_compute; intros E; by try discriminate E. Qed.
Lemma b64_text s :
  sforall plain_byte (b64_raw_encode s) = true ∧ no_byte ":" (b64_raw_encode s) ∧
  no_byte "$" (b64_raw_encode s).
Proof.
  pose proof (b64_raw_bytes s) as Hb. split_and!.
  - eapply sforall_impl, Hb. intros c Hc. by apply b64_byte_plain.
  - eapply sforall_no_byte, Hb. vm_compute. reflexivity.
  - eapply sforall_no_byte, Hb. vm_compute. reflexivity.
Qed.

Definition hash_text (salt h : string) : string :=
  "$argon2id$v=19$m=65536,t=3,p=4$" +:+ b64_raw_encode salt +:+ String "$" (b64_raw_encode h).

Lemma HashPassword_ok salt pw h :
  HashPassword (Some salt) pw = Ok h → ∃ k,
    IDKey pw (fit saltSize salt) argon2Time argon2Memory argon2Threads argon2HashLen = Some k ∧
    blen k = argon2HashLen ∧ h = hash_text (fit saltSize salt) k.
Proof.
  unfold HashPassword.
  destruct (IDKey_ok pw (fit saltSize salt) argon2Time argon2Memory argon2Threads argon2HashLen)
    as (k & E & Hl); [done..|].
  rewrite E. intros [= <-]. by exists k.
Qed.
Lemma HashPassword_total salt pw : ∃ h, HashPassword (Some salt) pw = Ok h.
Proof.
  unfold HashPassword.
  destruct (IDKey_ok pw (fit saltSize salt) argon2Time argon2Memory argon2Threads argon2HashLen)
    as (k & E & _); [done..|]. rewrite E. by eexists.
Qed.

Lemma hash_field salt k : field (hash_text salt k).
Proof.
  destruct (b64_text salt) as (Hs1 & Hs2 & _), (b64_text k) as (Hk1 & Hk2 & _).
  unfold hash_text. split.
  - rewrite !sforall_app. cbn [sforall]. by rewrite Hs1, Hk1.
  - rewrite !no_byte_app, no_byte_cons. by split_and!.
Qed.

Lemma hash_split salt k :
  Split "$" (hash_text salt k) =
  [""; "argon2id"; "v=19"; "m=65536,t=3,p=4"; b64_raw_encode salt; b64_raw_encode k].
Proof.
  destruct (b64_text salt) as (_ & _ & Hs), (b64_text k) as (_ & _ & Hk). unfold hash_text.
  change ("$argon2id$v=19$m=65536,t=3,p=4$" +:+ ?x) with
    ("" +:+ String "$" ("argon2id" +:+ String "$" ("v=19" +:+ String "$"
       ("m=65536,t=3,p=4" +:+ String "$" x)))).
  rewrite !Split_app by done. by rewrite Split_no_byte.
Qed.

(** Checking a password against a canonical hash is one derivation, with the
    canonical parameters, and the comparison of its result. *)
Lemma verify_hash pw salt k :
  blen k = argon2HashLen →
  ∃ d, IDKey pw salt argon2Time argon2Memory argon2Threads argon2HashLen = Some d ∧
    verifyPassword pw (hash_text salt k) = (Some (bool_decide (d = k)), [canonical_cost]).
Proof.
  intros Hl. destruct (IDKey_ok pw salt argon2Time argon2Memory argon2Threads argon2HashLen)
    as (d & E & _); [done..|].
  exists d. split; [done|]. unfold verifyPassword.
  assert (HasPrefix (hash_text salt k) "$argon2id$" = true) as ->.
  { unfold hash_text.
    change ("$argon2id$v=19$m=65536,t=3,p=4$" +:+ ?x)
      with ("$argon2id$" +:+ ("v=19$m=65536,t=3,p=4$" +:+ x)). apply HasPrefix_app. }
  rewrite hash_split. change (parse_version "v=19") with (Some 19). cbv iota.
  change (parse_params "m=65536,t=3,p=4") with (Some (65536, 3, 4)). cbv iota beta.
  rewrite !b64_raw_decode_encode. rewrite Hl. change (4 mod 256) with argon2Threads.
  change 3 with argon2Time. change 65536 with argon2Memory. by rewrite E.
Qed.
End Hashes.

(** ** What the edits do to the entries *)
Definition with_hash (h : string) (e : userEntry) : userEntry :=
  mkUser (username e) h (mailbox e) (user_uid e).
Definition without_uid (e : userEntry) : userEntry :=
  mkUser (username e) (hash e) (mailbox e) 0.

(** Lines with an entry hold printable text without blanks. *)
Definition line_text (l : string) : Prop :=
  match parse_line l with Some _ => sforall plain_byte (TrimSpace l) = true | None => True end.
#[export] Instance line_text_dec l : Decision (line_text l).
Proof. unfold line_text. destruct (parse_line l); apply _. Defined.

Lemma plain_app_inv a b : sforall plain_byte (a +:+ b) = true →
  sforall plain_byte a = true ∧ sforall plain_byte b = true.
Proof. rewrite sforall_app. apply andb_prop. Qed.
Lemma plain_tail a b : sforall plain_byte (a +:+ String ":" b) = true →
  sforall plain_byte a = true ∧ sforall plain_byte b = true.
Proof. intros [Ha [_ Hb]%andb_prop]%plain_app_inv. done. Qed.

(** The forms a line with fields can have. *)
Inductive line_view (l : string) : option (list string) → Prop :=
| view_none : line_view l None
| view_one a : line_view l (Some [a])
| view_two a b : field a → field b → line_view l (Some [a; b])
| view_three a b c : field a → field b → field c → line_view l (Some [a; b; c])
| view_four a b c d : field a → field b → field c → sforall plain_byte d = true →
    line_view l (Some [a; b; c; d]).

Lemma line_parts_view l : line_text l → line_view l (line_parts l).
Proof.
  intros Hl. unfold line_text, parse_line in Hl.
  destruct (line_parts l) as [ps|] eqn:E; [|constructor].
  apply line_parts_shape in E. subst ps.
  destruct (SplitN ":" 4 (TrimSpace l)) as [|a ps] eqn:E.
  { exfalso. cbn [SplitN] in E. by destruct (cut ":" (TrimSpace l)) as [[??]|]. }
  destruct (SplitN4_inv _ _ _ E) as [(-> & _)|(Ha & [(b & -> & Ht & Hb)|
    [(b & c & -> & Ht & Hb & Hc)|(b & c & d & -> & Ht & Hb & Hc)]])]; [constructor|..];
    rewrite Ht in Hl; apply plain_tail in Hl as [Ha' Hl].
  - by constructor.
  - apply plain_tail in Hl as [Hb' Hc']. by constructor.
  - apply plain_tail in Hl as [Hb' [Hc' Hd']%plain_tail]. by constructor.
Qed.

Lemma set_line_entry name h l :
  login name → field h → line_text l →
  parse_line (set_line name h l).2 =
    (λ e, if decide (username e = name) then with_hash h e else e) <$> parse_line l ∧
  (set_line name h l).1 = match parse_line l with
                          | Some e => bool_decide (username e = name)
                          | None => false
                          end.
Proof.
  intros Hn Hh Hl. unfold set_line.
  assert (parse_line l = match line_parts l with
    | Some [a; b] => Some (mkUser a b a 0)
    | Some [a; b; c] => Some (mkUser a b c 0)
    | Some (a :: b :: c :: d :: _) => Some (mkUser a b c (parse_uid d))
    | _ => None end) as Hp by done.
  destruct (line_parts_view l Hl) as [|a|a b Ha Hb|a b c Ha Hb Hc|a b c d Ha Hb Hc Hd]; cbn [snd fst].
  - rewrite Hp. done.
  - rewrite Hp. done.
  - rewrite Hp. cbn. destruct (decide (a = name)) as [->|]; cbn [snd fst].
    + unfold parse_line. rewrite line3 by (done || apply Hn). by rewrite bool_decide_true.
    + rewrite Hp. by rewrite bool_decide_false.
  - rewrite Hp. cbn. destruct (decide (a = name)) as [->|]; cbn [snd fst].
    + unfold parse_line. rewrite line3 by (done || apply Hn). by rewrite bool_decide_true.
    + rewrite Hp. by rewrite bool_decide_false.
  - rewrite Hp. cbn. destruct (decide (a = name)) as [->|]; cbn [snd fst].
    + unfold parse_line. rewrite line4 by (done || apply Hn). by rewrite bool_decide_true.
    + rewrite Hp. by rewrite bool_decide_false.
Qed.

Lemma entries_set name h ls :
  login name → field h → Forall line_text ls →
  entries_of (snd <$> (set_line name h <$> ls)) =
    (λ e, if decide (username e = name) then with_hash h e else e) <$> entries_of ls ∧
  existsb fst (set_line name h <$> ls) = bool_decide (name ∈ username <$> entries_of ls).
Proof.
  intros Hn Hh. induction 1 as [|l ls Hl Hls [IH1 IH2]]; [done|].
  destruct (set_line_entry name h l Hn Hh Hl) as [E1 E2].
  rewrite !fmap_cons, !entries_cons, fmap_app, IH1, E1. cbn [existsb]. rewrite IH2, E2.
  destruct (parse_line l) as [e|]; [|done]. split; [done|].
  rewrite fmap_app. change (username <$> option_list (Some e)) with [username e].
  destruct (decide (username e = name)) as [<-|Hne].
  - rewrite bool_decide_true by done. symmetry. apply bool_decide_true. set_solver.
  - rewrite (bool_decide_false (username e = name)) by done. cbn [orb].
    apply bool_decide_ext. set_solver.
Qed.

Lemma strip_line_entry names l :
  line_text l → (∀ a, a ∈ names → login a) →
  parse_line (strip_line names l).2 =
    (λ e, if decide (username e ∈ names) then without_uid e else e) <$> parse_line l.
Proof.
  intros Hl Hn. unfold strip_line.
  assert (parse_line l = match line_parts l with
    | Some [a; b] => Some (mkUser a b a 0)
    | Some [a; b; c] => Some (mkUser a b c 0)
    | Some (a :: b :: c :: d :: _) => Some (mkUser a b c (parse_uid d))
    | _ => None end) as Hp by done.
  destruct (line_parts_view l Hl) as [|a|a b Ha Hb|a b c Ha Hb Hc|a b c d Ha Hb Hc Hd];
    cbn [snd fst]; rewrite Hp; try done.
  - cbn. by destruct (decide _).
  - cbn. by destruct (decide _).
  - cbn. destruct (decide (a ∈ names)) as [Hin|]; cbn [snd]; [|by rewrite Hp].
    unfold parse_line. rewrite line3; [done|by apply Hn|done|done].
Qed.

Lemma entries_strip names ls :
  Forall line_text ls → (∀ a, a ∈ names → login a) →
  entries_of (snd <$> (strip_line names <$> ls)) =
    (λ e, if decide (username e ∈ names) then without_uid e else e) <$> entries_of ls.
Proof.
  intros Hls Hn. induction Hls as [|l ls Hl Hls IH]; [done|].
  rewrite !fmap_cons, !entries_cons, fmap_app, IH, strip_line_entry by done.
  by destruct (parse_line l).
Qed.

Lemma user_line_entry name l e :
  parse_line l = Some e → is_user_line name l = bool_decide (username e = name).
Proof.
  unfold parse_line, is_user_line. intros E.
  destruct (line_parts l) as [[|a [|b [|c [|d ?]]]]|]; by simplify_eq.
Qed.
Lemma entries_delete name ls :
  entries_of (filter (λ l, is_user_line name l = false) ls) =
  filter (λ e, username e ≠ name) (entries_of ls).
Proof.
  induction ls as [|l ls IH]; [done|]. rewrite filter_cons, entries_cons, filter_app, <-IH.
  destruct (parse_line l) as [e|] eqn:E.
  - change (option_list (Some e)) with [e].
    rewrite (user_line_entry _ _ _ E), filter_cons, filter_nil.
    destruct (decide (username e = name)) as [He|He].
    + rewrite bool_decide_true by done. rewrite decide_False by done. by rewrite decide_False by tauto.
    + rewrite bool_decide_false by done. rewrite decide_True by done. rewrite decide_True by done.
      by rewrite entries_cons, E.
  - change (option_list (@None userEntry)) with (@nil userEntry). rewrite filter_nil.
    destruct (decide _); [|done]. by rewrite entries_cons, E.
Qed.
Lemma delete_found name ls :
  name ∈ username <$> entries_of ls → existsb (is_user_line name) ls = true.
Proof.
  intros (e & -> & He)%list_elem_of_fmap. apply existsb_exists.
  apply list_elem_of_omap in He as (l & Hl & E).
  exists l. split; [by apply list_elem_of_In|]. by rewrite (user_line_entry _ _ _ E), bool_decide_true.
Qed.

(** ** The edits on a disk without faults *)
Section Edits.
Context `{Crypto, !CryptoLaws}.

Lemma writePasswd_quiet path lines fs :
  writePasswd path lines (mkFolder fs []) =
  (Ok (), mkFolder (<[path := unlines LF lines]> (delete (path +:+ ".tmp") fs)) []).
Proof.
  unfold writePasswd, on_error. cbv [bind open_trunc call write_all sys call_ rename].
  cbn. unfold set_files. cbn. rewrite lookup_insert_eq.
  by rewrite insert_insert_eq, delete_insert_eq.
Qed.

(** The file as lines; a missing file has none. *)
Definition file_lines (fs : gmap string string) (path : string) (ls : list string) : Prop :=
  Forall raw_line ls ∧
  (fs !! path = Some (unlines LF ls) ∨ fs !! path = None ∧ ls = []).

Lemma parsePasswd_quiet path ls fs :
  file_lines fs path ls →
  parsePasswd path (mkFolder fs []) = (Ok (entries_of ls), mkFolder fs []).
Proof.
  intros [Hr [E|[E ->]]]; unfold parsePasswd; rewrite read_file_quiet, E; [|done].
  by rewrite scan_entries_raw.
Qed.
Lemma NewAgent_quiet path keys ls fs :
  file_lines fs path ls →
  NewAgent path keys (mkFolder fs []) =
    (Ok (mkAgent path keys "" (by_name (entries_of ls))), mkFolder fs []).
Proof. intros Hf. unfold NewAgent. by erewrite bind_eq by (by apply parsePasswd_quiet). Qed.

Lemma plain_no_lf s : sforall plain_byte s = true → no_byte LF s.
Proof. by apply sforall_no_byte. Qed.

Lemma AddUser_quiet path name salt pw h ls fs :
  file_lines fs path ls → login name → name ∉ username <$> entries_of ls →
  HashPassword (Some salt) pw = Ok h → too_long (user_line name h) = false →
  ∃ fs', AddUser (Some salt) path name pw (mkFolder fs []) = (Ok (), mkFolder fs' []) ∧
    file_lines fs' path (ls ++ [user_line name h]) ∧
    entries_of (ls ++ [user_line name h]) = entries_of ls ++ [mkUser name h name 0] ∧
    ∀ q, q ≠ path → fs' !! q = fs !! q.
Proof.
  intros Hf Hn Hne Hh Hlen. destruct (HashPassword_ok _ _ _ Hh) as (k & _ & _ & Hht).
  pose proof (hash_field (fit saltSize salt) k) as Hfh. rewrite <-Hht in Hfh.
  set (content := unlines LF ls). exists (<[path := content +:+ (user_line name h +:+ String LF "")]> fs).
  assert (default "" (fs !! path) = content) as Hc.
  { destruct Hf as [_ [->|[-> ->]]]; done. }
  split_and!.
  - unfold AddUser. erewrite bind_eq by (by apply parsePasswd_quiet).
    rewrite bool_decide_false by done. rewrite Hh.
    erewrite bind_eq by apply call_quiet. unfold append. cbn [sys faults]. unfold set_files.
    cbn [files faults]. do 2 f_equal. destruct (fs !! path) as [c|] eqn:E.
    + by rewrite E, <-Hc.
    + rewrite lookup_insert_eq, insert_insert_eq, <-Hc. done.
  - split.
    + apply Forall_app. split; [apply Hf|]. constructor; [|done]. split; [|done].
      destruct Hn as ([Hp _] & _). apply plain_no_lf. unfold user_line.
      destruct Hfh. auto using plain_join.
    + left. rewrite lookup_insert_eq, unlines_snoc. done.
  - rewrite entries_snoc. unfold parse_line, user_line. rewrite line3 by (done || apply Hn). done.
  - intros q Hq. by rewrite lookup_insert_ne.
Qed.

Lemma SetPassword_quiet path name salt pw h ls fs :
  fs !! path = Some (unlines LF ls) → Forall raw_line ls → Forall line_text ls → login name →
  name ∈ username <$> entries_of ls → HashPassword (Some salt) pw = Ok h →
  let out := snd <$> (set_line name h <$> (drop_cr <$> ls)) in
  Forall raw_line out →
  ∃ fs', SetPassword (Some salt) path name pw (mkFolder fs []) = (Ok (), mkFolder fs' []) ∧
    fs' !! path = Some (unlines LF out) ∧
    entries_of out =
      (λ e, if decide (username e = name) then with_hash h e else e) <$> entries_of ls ∧
    ∀ q, q ≠ path → q ≠ path +:+ ".tmp" → fs' !! q = fs !! q.
Proof.
  intros E Hr Ht Hn Hin Hh out Hro. destruct (HashPassword_ok _ _ _ Hh) as (k & _ & _ & Hht).
  pose proof (hash_field (fit saltSize salt) k) as Hfh. rewrite <-Hht in Hfh.
  assert (Forall line_text (drop_cr <$> ls)) as Ht'.
  { apply Forall_fmap. eapply Forall_impl; [exact Ht|]. intros l Hl. unfold line_text in *. cbn.
    rewrite parse_line_drop_cr. destruct (parse_line l); [|done]. unfold drop_cr. destruct (cut_last CR l) as [[a b]|] eqn:Ec; [|done].
    destruct b; [|done]. apply cut_last_Some in Ec as [-> _]. 
    change (String CR "") with cr in Hl. by rewrite TrimSpace_cr in Hl. }
  destruct (entries_set name h (drop_cr <$> ls) Hn Hfh Ht') as [He Hex].
  unfold entries_of in He at 2. unfold entries_of in Hex. rewrite entries_drop_cr in He, Hex.
  exists (<[path := unlines LF out]> (delete (path +:+ ".tmp") fs)). split_and!.
  - unfold SetPassword. erewrite bind_eq by apply read_file_quiet. rewrite E, Hh.
    rewrite ScanLines_raw by done. rewrite Hex, bool_decide_true by done.
    apply writePasswd_quiet.
  - by rewrite lookup_insert_eq.
  - exact He.
  - intros q H1' H2'. by rewrite lookup_insert_ne, lookup_delete_ne.
Qed.
End Edits.

(** ** Logging in *)
Section Login.
Context `{Crypto, KeyringJson, !CryptoLaws}.

Lemma by_name_snoc es e : by_name (es ++ [e]) = <[username e := e]> (by_name es).
Proof. unfold by_name. by rewrite foldl_app. Qed.

Lemma by_name_lookup es n e :
  by_name es !! n = Some e → e ∈ es ∧ username e = n.
Proof.
  revert e. induction es as [|x es IH] using rev_ind; intros e; [done|].
  rewrite by_name_snoc, lookup_insert. destruct (decide (username x = n)) as [<-|].
  - intros [= ->]. set_solver.
  - intros [? ?]%IH. set_solver.
Qed.
Lemma by_name_in es n : n ∈ username <$> es → is_Some (by_name es !! n).
Proof.
  induction es as [|x es IH] using rev_ind; [set_solver|].
  rewrite by_name_snoc, fmap_app, lookup_insert. intros Hn.
  destruct (decide (username x = n)); [by eexists|]. apply IH. set_solver.
Qed.

(** Without key files a correct password is all that is needed. *)
Lemma keyFilePath_absent a name kf ext fs :
  userKeyringBase a = "" → fs !! Join [keyDir a; name +:+ ext] = None →
  keyFilePath a name kf ext (mkFolder fs []) = (Err ErrKeyNotFound, mkFolder fs []).
Proof.
  intros Hb Hk. unfold keyFilePath. rewrite decide_True by done.
  erewrite (bind_eq _ _ _ false) by done. cbv iota beta.
  destruct (decide (keyDir a = "")).
  - erewrite (bind_eq _ _ _ false) by done. done.
  - unfold stat. rewrite bind_assoc. erewrite bind_eq by apply read_file_quiet. by rewrite Hk.
Qed.

Lemma login_with_hash decoy a name e salt k pw d fs :
  users a !! name = Some e → hash e = hash_text salt k → blen k = argon2HashLen →
  IDKey pw salt argon2Time argon2Memory argon2Threads argon2HashLen = Some d →
  userKeyringBase a = "" → fs !! Join [keyDir a; name +:+ publicKeyExt] = None →
  (Authenticate decoy a name pw (mkFolder fs [])).1.1 =
    if decide (d = k) then Ok (mkSession (username e) (mailbox e) None None false)
    else Err ErrAuthFailed.
Proof.
  intros Hu Hh Hl Hd Hb Hk. unfold Authenticate. rewrite Hu, Hh.
  destruct (verify_hash pw salt k Hl) as (d' & Hd' & ->).
  assert (d' = d) as -> by congruence. destruct (decide (d = k)) as [He|He].
  - rewrite bool_decide_true by done. unfold loadKeys.
    erewrite bind_err by (by apply keyFilePath_absent). done.
  - by rewrite bool_decide_false.
Qed.

(** A user added to a passwd file can log in: an agent opened
    on the new file knows exactly the users it knew before and the new one, and
    for the new one it accepts the password that was set, and any other
    password only if its derived key is the same. *)
Lemma add_user_login decoy path keys name salt pw h ls fs :
  file_lines fs path ls → login name → name ∉ username <$> entries_of ls →
  HashPassword (Some salt) pw = Ok h → too_long (user_line name h) = false →
  fs !! Join [keys; name +:+ publicKeyExt] = None → Join [keys; name +:+ publicKeyExt] ≠ path →
  ∃ fs' a, AddUser (Some salt) path name pw (mkFolder fs []) = (Ok (), mkFolder fs' []) ∧
    NewAgent path keys (mkFolder fs' []) = (Ok a, mkFolder fs' []) ∧
    users a = <[name := mkUser name h name 0]> (by_name (entries_of ls)) ∧
    (Authenticate decoy a name pw (mkFolder fs' [])).1.1 =
      Ok (mkSession name name None None false) ∧
    (∀ pw', IDKey pw' (fit saltSize salt) argon2Time argon2Memory argon2Threads argon2HashLen ≠
            IDKey pw (fit saltSize salt) argon2Time argon2Memory argon2Threads argon2HashLen →
       (Authenticate decoy a name pw' (mkFolder fs' [])).1.1 = Err ErrAuthFailed).
Proof.
  intros Hf Hn Hne Hh Hlen Hk Hkp.
  destruct (AddUser_quiet path name salt pw h ls fs Hf Hn Hne Hh Hlen) as (fs' & HA & Hf' & He & Hq).
  destruct (HashPassword_ok _ _ _ Hh) as (k & Hd & Hl & Ht).
  eexists fs', _. split; [exact HA|]. split; [by apply NewAgent_quiet|].
  rewrite He, by_name_snoc. cbn [username]. split; [done|].
  assert (∀ p d, IDKey p (fit saltSize salt) argon2Time argon2Memory argon2Threads argon2HashLen = Some d →
    (Authenticate decoy (mkAgent path keys "" (<[name := mkUser name h name 0]> (by_name (entries_of ls))))
       name p (mkFolder fs' [])).1.1 =
    if decide (d = k) then Ok (mkSession name name None None false) else Err ErrAuthFailed) as HL.
  { intros p d Hp.
    apply (login_with_hash decoy _ name (mkUser name h name 0) (fit saltSize salt)); try done.
    - cbn [users]. by rewrite lookup_insert_eq.
    - cbn [keyDir]. by rewrite Hq. }
  split.
  - rewrite (HL pw k) by done. by rewrite decide_True.
  - intros pw' Hpw.
    destruct (IDKey_ok pw' (fit saltSize salt) argon2Time argon2Memory argon2Threads argon2HashLen)
      as (d & Hd' & _); [done..|].
    rewrite (HL pw' d) by done. rewrite decide_False; [done|]. intros ->. congruence.
Qed.

(** Setting a password changes the hash of that user and
    nothing else: the entries of the new file are those of the old one with
    mailbox and uid kept, only the user's hash replaced by the new one, and no
    other file changes. *)
Lemma set_password_exact path name salt pw h ls fs :
  fs !! path = Some (unlines LF ls) → Forall raw_line ls → Forall line_text ls → login name →
  name ∈ username <$> entries_of ls → HashPassword (Some salt) pw = Ok h →
  Forall raw_line (snd <$> (set_line name h <$> (drop_cr <$> ls))) →
  ∃ fs' a, SetPassword (Some salt) path name pw (mkFolder fs []) = (Ok (), mkFolder fs' []) ∧
    NewAgent path "" (mkFolder fs' []) = (Ok a, mkFolder fs' []) ∧
    users a = by_name ((λ e, if decide (username e = name) then with_hash h e else e)
                         <$> entries_of ls) ∧
    (∀ e, users a !! name = Some e → verifyPassword pw (hash e) = (Some true, [canonical_cost])) ∧
    ∀ q, q ≠ path → q ≠ path +:+ ".tmp" → fs' !! q = fs !! q.
Proof.
  intros E Hr Ht Hn Hin Hh Hro.
  destruct (SetPassword_quiet path name salt pw h ls fs E Hr Ht Hn Hin Hh Hro)
    as (fs' & HS & Ef & He & Hq).
  assert (file_lines fs' path (snd <$> (set_line name h <$> (drop_cr <$> ls)))) as Hf
    by (split; [exact Hro|by left]).
  eexists fs', _. split; [exact HS|]. split; [exact (NewAgent_quiet path "" _ fs' Hf)|].
  rewrite He. split_and!; [done| |exact Hq]. cbn [users]. intros e Hu.
  apply by_name_lookup in Hu as [Hm Hun]. apply list_elem_of_fmap in Hm as (e0 & -> & _).
  assert (hash (if decide (username e0 = name) then with_hash h e0 else e0) = h) as ->.
  { revert Hun. destruct (decide (username e0 = name)); [done|]. done. }
  destruct (HashPassword_ok _ _ _ Hh) as (k & Hd & Hl & ->).
  destruct (verify_hash pw (fit saltSize salt) k Hl) as (d & Hd' & ->).
  rewrite bool_decide_true by congruence. done.
Qed.

(** A login attempt takes one derivation with the same parameters
    whether the account exists or not, so that the time to the answer does not
    tell the two apart. *)
Lemma unknown_account_costs_the_same dsalt buf a known unknown e salt k pw pw' w w' :
  users a !! unknown = None → users a !! known = Some e →
  hash e = hash_text salt k → blen k = argon2HashLen →
  let decoy := decoyHash (Some dsalt) buf in
  (Authenticate decoy a unknown pw w).2 = [canonical_cost] ∧
  (Authenticate decoy a known pw' w').2 = [canonical_cost] ∧
  (Authenticate decoy a unknown pw w).1.1 = Err ErrUserNotFound.
Proof.
  intros Hu Hk Hh Hl decoy. unfold decoy, decoyHash.
  destruct (HashPassword_total dsalt (b64_raw_encode buf)) as [h Ed]. rewrite Ed.
  destruct (HashPassword_ok _ _ _ Ed) as (dk & _ & Hdl & ->).
  unfold Authenticate. rewrite Hu, Hk, Hh. unfold decoyVerify. rewrite decide_False by done.
  destruct (verify_hash pw (fit saltSize dsalt) dk Hdl) as (d1 & _ & ->).
  destruct (verify_hash pw' salt k Hl) as (d2 & _ & ->).
  split_and!; [done| |done]. destruct (bool_decide (d2 = k)); [|done].
  destruct (loadKeys a known pw' w') as [[[]|[]] ?]; done.
Qed.

(** A key file that cannot be examined is never taken for an absent one. *)
Lemma keys_fail_closed a name kf ext w :
  (keyFilePath a name kf ext w).1 = Err ErrKeyNotFound →
  (userKeyringBase a ≠ "" → files w !! Join [userKeyringBase a; name; kf] = None) ∧
  (keyDir a ≠ "" → files w !! Join [keyDir a; name +:+ ext] = None).
Proof.
  unfold keyFilePath, stat. cbv [bind ret read_file fail].
  destruct (decide (userKeyringBase a = "")) as [?|?], (decide (keyDir a = "")) as [?|?]; [done|..];
    destruct w as [fs [|[|?] [|[|?] ?]]]; cbn; try done;
    repeat match goal with
    | |- context [fs !! ?p] => destruct (fs !! p); cbn; try done
    end.
Qed.
End Login.

Section PasswdWitnesses.
Import Toy.

Definition demo_lines : list string := ["# users"; "bob:$x$:bob.box:10007"].
Definition demo_file : string := unlines LF demo_lines.
Definition demo_fs : gmap string string := {[ "/c/passwd" := demo_file ]}.
Definition demo_hash (pw : string) : string :=
  match HashPassword (Some "salt") pw with Ok h => h | Err _ => "" end.
Lemma demo_hash_ok : HashPassword (Some "salt") "secret12" = Ok (demo_hash "secret12").
Proof. vm_compute. reflexivity. Qed.
Lemma alice_login : login "alice" ∧ login "bob".
Proof. by vm_compute. Qed.
Lemma demo_raw : Forall raw_line demo_lines ∧ Forall line_text demo_lines.
Proof. split; apply (bool_decide_unpack _); vm_compute; exact I. Qed.

Lemma add_user_login_example :
  ∃ fs' a, AddUser (Some "salt") "/c/passwd" "alice" "secret12" (mkFolder demo_fs [])
      = (Ok (), mkFolder fs' []) ∧
    NewAgent "/c/passwd" "/c/keys" (mkFolder fs' []) = (Ok a, mkFolder fs' []) ∧
    (Authenticate "" a "alice" "secret12" (mkFolder fs' [])).1.1 =
      Ok (mkSession "alice" "alice" None None false).
Proof.
  destruct (add_user_login "" "/c/passwd" "/c/keys" "alice" "salt" "secret12"
    (demo_hash "secret12") demo_lines demo_fs) as (fs' & a & HA & HN & _ & HL & _).
  - split; [apply demo_raw|left; reflexivity].
  - apply alice_login.
  - apply (bool_decide_unpack (¬ _)). vm_compute. exact I.
  - apply demo_hash_ok.
  - vm_compute. reflexivity.
  - reflexivity.
  - discriminate.
  - exists fs', a. split_and!; assumption.
Defined.

Lemma set_password_exact_example :
  ∃ fs' a, SetPassword (Some "salt") "/c/passwd" "bob" "secret12" (mkFolder demo_fs [])
      = (Ok (), mkFolder fs' []) ∧
    NewAgent "/c/passwd" "" (mkFolder fs' []) = (Ok a, mkFolder fs' []) ∧
    users a !! "bob" = Some (mkUser "bob" (demo_hash "secret12") "bob.box" 10007).
Proof.
  destruct (set_password_exact "/c/passwd" "bob" "salt" "secret12" (demo_hash "secret12")
    demo_lines demo_fs) as (fs' & a & HS & HN & Hu & _).
  - reflexivity.
  - apply demo_raw.
  - apply demo_raw.
  - apply alice_login.
  - apply (bool_decide_unpack _). vm_compute. exact I.
  - apply demo_hash_ok.
  - apply (bool_decide_unpack _). vm_compute. exact I.
  - exists fs', a. split_and!; [exact HS|exact HN|rewrite Hu; vm_compute; reflexivity].
Defined.

Definition demo_key : string := match IDKey "secret12" (fit 32 "salt") 3 65536 4 32 with Some k => k | None => "" end.
Definition demo_agent : Agent :=
  mkAgent "/c/passwd" "" "" {[ "alice" := mkUser "alice" (hash_text (fit 32 "salt") demo_key) "alice" 0 ]}.

Lemma unknown_account_costs_the_same_example :
  (Authenticate (decoyHash (Some "d") "buf") demo_agent "mallory" "guess" (mkFolder ∅ [])).2 =
  (Authenticate (decoyHash (Some "d") "buf") demo_agent "alice" "guess" (mkFolder ∅ [])).2.
Proof.
  destruct (unknown_account_costs_the_same "d" "buf" demo_agent "alice" "mallory"
    (mkUser "alice" (hash_text (fit 32 "salt") demo_key) "alice" 0) (fit 32 "salt") demo_key
    "guess" "guess" (mkFolder ∅ []) (mkFolder ∅ [])) as (-> & -> & _); reflexivity.
Defined.

(** ** A file whose last line is not terminated

    The new entry is appended to that line. [AddUser] reports success, the new
    user does not exist, and the other user's mailbox has changed. *)
Lemma add_after_unterminated_line :
  let fs := {[ "/c/passwd" := "bob:$x$:bob" ]} in
  let '(r, w) := AddUser (Some "salt") "/c/passwd" "alice" "secret12" (mkFolder fs []) in
  r = Ok () ∧
  match NewAgent "/c/passwd" "" w with
  | (Ok a, _) => users a !! "alice" = None ∧
                 (mailbox <$> users a !! "bob") = Some "bobalice"
  | (Err _, _) => False
  end.
Proof. vm_compute. by split_and!. Qed.

(** The agent keeps the last of two entries for a name, [LookupUID] answers
    with the first. *)
Lemma duplicate_entries_differ :
  let w := mkFolder {[ "/c/passwd" := unlines LF ["eve:a:eve:11000"; "eve:b:eve:12000"] ]} [] in
  (LookupUID "/c/passwd" "eve" w).1 = Ok 11000 ∧
  match NewAgent "/c/passwd" "" w with
  | (Ok a, _) => (user_uid <$> users a !! "eve") = Some 12000
  | (Err _, _) => False
  end.
Proof. vm_compute. by split. Qed.
End PasswdWitnesses.
