(* ===== verification/Outbound.v ===== *)
(** * How queue-manager is configured and chooses the way out

    [src/internal/queue-manager/scheduler/outbound.go] with [resolveOutbound],
    [globalFallbackOutbound] and [buildArgs] of [scheduler.go], and
    [src/internal/queue-manager/config/config.go]. Decoding of TOML is a
    parameter; files are those of [Disk]. *)
From S2P Require Import Prelude GoStrings FilePath UidList Disk Passwd.
From Stdlib Require Import ZArith Lia Ascii.
Open Scope string_scope.
Open Scope list_scope.
Open Scope Z_scope.

(** ** Settings *)
(** [OutboundConfig] of the scheduler, with the password that is read. *)
Record OutboundConfig := mkOut {
  Strategy : string; Smarthost : string; SmarthostUser : string; SmarthostUserFile : string;
  PasswordFile : string; password : string;
}.
#[export] Instance OutboundConfig_eq_dec : EqDecision OutboundConfig.
Proof. solve_decision. Defined.
Definition noOutbound : OutboundConfig := mkOut "" "" "" "" "" "".
Definition set_Strategy (s : string) (c : OutboundConfig) : OutboundConfig :=
  mkOut s (Smarthost c) (SmarthostUser c) (SmarthostUserFile c) (PasswordFile c) (password c).
Definition set_User (u : string) (c : OutboundConfig) : OutboundConfig :=
  mkOut (Strategy c) (Smarthost c) u (SmarthostUserFile c) (PasswordFile c) (password c).
Definition set_password (p : string) (c : OutboundConfig) : OutboundConfig :=
  mkOut (Strategy c) (Smarthost c) (SmarthostUser c) (SmarthostUserFile c) (PasswordFile c) p.
Definition or_else (a b : string) : string := if decide (a = "") then b else a.

(** The scheduler's configuration, as far as it is used here. *)
Record outSettings := mkOutSettings {
  so_ConfigPath : string; so_QueueDir : string; so_DomainConfigPath : string; so_Outbound : OutboundConfig;
}.

Definition senderDomainFromBodyPath (queueDir bodyPath : string) : string :=
  let msgDir := Join [queueDir; "msg"] +:+ "/" in
  if HasPrefix bodyPath msgDir then
    match SplitN "/" 3 (TrimPrefix bodyPath msgDir) with
    | tld :: dom :: _ :: _ => dom +:+ "." +:+ tld
    | _ => ""
    end
  else "".

Section Outbound.
(** [toml.Unmarshal] of the section [outbound]. *)
Context (toml_outbound : string → option OutboundConfig).
Context (cfg : outSettings).
Definition readOutboundFromFile (path : string) : io string OutboundConfig := λ w,
  match read_file "read" path w with
  | (Err e, w) => (Err e, w)
  | (Ok None, w) => (Ok noOutbound, w)
  | (Ok (Some data), w) => (match toml_outbound data with Some c => Ok (set_password "" c) | None => Err "parsing" end, w)
  end.
Definition merge (sysCfg domCfg : OutboundConfig) : OutboundConfig :=
  mkOut (or_else (Strategy domCfg) (Strategy sysCfg)) (or_else (Smarthost domCfg) (Smarthost sysCfg))
    (or_else (SmarthostUser domCfg) (SmarthostUser sysCfg)) (or_else (SmarthostUserFile domCfg) (SmarthostUserFile sysCfg))
    (or_else (PasswordFile domCfg) (PasswordFile sysCfg)) (password sysCfg).
Definition loadOutboundConfig (basePath senderDomain : string) : io string OutboundConfig := (
  let! sysCfg := readOutboundFromFile (Join [basePath; "config.toml"]) in
  let! domCfg := readOutboundFromFile (Join [basePath; senderDomain; "config.toml"]) in
  ret (merge sysCfg domCfg))%io.
(** A secret in a file of its own: [None] when it cannot be read. *)
Definition secret_at (path : string) (w : folder) : option string * folder :=
  match read_file () path w with
  | (Ok (Some data), w) => (Some (TrimSpace data), w)
  | (_, w) => (None, w)
  end.
Definition is_abs (path : string) : bool := HasPrefix path "/".
Definition readPasswordFile (basePath senderDomain : string) (c : OutboundConfig) (w : folder) : option string * folder :=
  if decide (PasswordFile c = "") then (Some "", w)
  else secret_at (if is_abs (PasswordFile c) then PasswordFile c else Join [basePath; senderDomain; PasswordFile c]) w.
Definition readSmarthostUserFile (basePath senderDomain : string) (c : OutboundConfig) (w : folder) : option string * folder :=
  if decide (SmarthostUserFile c = "") then (Some "", w)
  else secret_at (if is_abs (SmarthostUserFile c) then SmarthostUserFile c else Join [basePath; senderDomain; SmarthostUserFile c]) w.

Definition globalFallbackOutbound (w : folder) : OutboundConfig * folder :=
  let o := so_Outbound cfg in
  if decide (Smarthost o = "") then (set_Strategy "direct" noOutbound, w)
  else
    let c := mkOut (or_else (Strategy o) "smarthost") (Smarthost o) (SmarthostUser o) (SmarthostUserFile o) (PasswordFile o) "" in
    let at_ path := if negb (is_abs path) && negb (bool_decide (so_DomainConfigPath cfg = ""))
                    then Join [so_DomainConfigPath cfg; path] else path in
    let '(c, w) :=
      if decide (PasswordFile c = "") then (c, w)
      else let '(p, w) := secret_at (at_ (PasswordFile c)) w in
           (match p with Some p => set_password p c | None => c end, w) in
    if decide (SmarthostUserFile c = "") then (c, w)
    else let '(u, w) := secret_at (at_ (SmarthostUserFile c)) w in
         (match u with Some u => set_User u c | None => c end, w).

(** The configuration for a sender's domain when it is not cached. *)
Definition domain_outbound (domain : string) (w : folder) : OutboundConfig * folder :=
  match loadOutboundConfig (so_DomainConfigPath cfg) domain w with
  | (Err _, w) => globalFallbackOutbound w
  | (Ok c, w) =>
      if decide (c = noOutbound) then globalFallbackOutbound w
      else
        let c := set_Strategy (or_else (Strategy c) "direct") c in
        let '(c, w) :=
          if decide (PasswordFile c = "") then (c, w)
          else let '(p, w) := readPasswordFile (so_DomainConfigPath cfg) domain c w in
               (match p with Some p => set_password p c | None => c end, w) in
        if decide (SmarthostUserFile c = "") then (c, w)
        else let '(u, w) := readSmarthostUserFile (so_DomainConfigPath cfg) domain c w in
             (match u with Some u => set_User u c | None => c end, w)
  end.
Definition resolveOutbound (bodyPath : string) (cache : gmap string OutboundConfig) (w : folder)
    : OutboundConfig * gmap string OutboundConfig * folder :=
  if decide (so_DomainConfigPath cfg = "") then let '(c, w) := globalFallbackOutbound w in (c, cache, w)
  else
    let domain := senderDomainFromBodyPath (so_QueueDir cfg) bodyPath in
    if decide (domain = "") then let '(c, w) := globalFallbackOutbound w in (c, cache, w)
    else match cache !! domain with
         | Some c => (c, cache, w)
         | None => let '(c, w) := domain_outbound domain w in (c, <[domain := c]> cache, w)
         end.

Definition buildArgs (bodyPath : string) (envPaths : list string) (final : bool) (outbound : OutboundConfig) : list string :=
  (if decide (so_ConfigPath cfg = "") then [] else ["--config"; so_ConfigPath cfg]) ++
  (if final then ["--final"] else []) ++ bodyPath :: envPaths.

(** ** What is chosen *)
(** What a domain sets wins over the default, setting by setting. *)
Lemma merge_priority sys dom (get : OutboundConfig → string) :
  get ∈ [Strategy; Smarthost; SmarthostUser; SmarthostUserFile; PasswordFile] →
  get (merge sys dom) = if decide (get dom = "") then get sys else get dom.
Proof.
  intros Hg. repeat (apply elem_of_cons in Hg as [->|Hg]; [unfold merge, or_else; cbn; by case_decide|]).
  by apply not_elem_of_nil in Hg.
Qed.
(** A choice never lacks a strategy. *)
Lemma fallback_strategy w : Strategy (globalFallbackOutbound w).1 ≠ "".
Proof.
  unfold globalFallbackOutbound. destruct (decide (Smarthost _ = "")); [done|].
  assert (∀ s, or_else s "smarthost" ≠ "") as Ho by (intros s; unfold or_else; by case_decide).
  repeat (case_decide || case_match); simplify_eq; cbn; try apply Ho; done.
Qed.
Lemma domain_strategy domain w : Strategy (domain_outbound domain w).1 ≠ "".
Proof.
  unfold domain_outbound. destruct (loadOutboundConfig _ _ w) as [[c|e] w1]; [|apply fallback_strategy].
  destruct (decide (c = noOutbound)); [apply fallback_strategy|].
  assert (∀ s, or_else s "direct" ≠ "") as Ho by (intros s; unfold or_else; by case_decide).
  repeat (case_decide || case_match); simplify_eq; cbn; try apply Ho; done.
Qed.
Definition cache_ok (cache : gmap string OutboundConfig) : Prop := ∀ d c, cache !! d = Some c → Strategy c ≠ "".
Lemma resolve_strategy bodyPath cache w c cache' w' :
  cache_ok cache → resolveOutbound bodyPath cache w = (c, cache', w') → Strategy c ≠ "" ∧ cache_ok cache'.
Proof.
  intros Hc. unfold resolveOutbound. pose proof (fallback_strategy w) as Hf.
  destruct (decide (so_DomainConfigPath cfg = "")).
  { destruct (globalFallbackOutbound w). intros [= <- <- <-]. done. }
  destruct (decide (_ = "")). { destruct (globalFallbackOutbound w). intros [= <- <- <-]. done. }
  destruct (cache !! _) as [c0|] eqn:E; [intros [= <- <- <-]; split; [by eapply Hc|done]|].
  pose proof (domain_strategy (senderDomainFromBodyPath (so_QueueDir cfg) bodyPath) w) as Hd.
  destruct (domain_outbound _ w) as [c0 w0]. intros [= <- <- <-]. split; [done|].
  intros d c' [[_ <-]|[_ H]]%lookup_insert_Some; [done|by eapply Hc].
Qed.
(** Within a pass all messages of a sender's domain take the same way. *)
Lemma resolve_stable b b' cache w c cache1 w1 :
  senderDomainFromBodyPath (so_QueueDir cfg) b' = senderDomainFromBodyPath (so_QueueDir cfg) b →
  so_DomainConfigPath cfg ≠ "" → senderDomainFromBodyPath (so_QueueDir cfg) b ≠ "" →
  resolveOutbound b cache w = (c, cache1, w1) → ∀ w2, resolveOutbound b' cache1 w2 = (c, cache1, w2).
Proof.
  intros Hb Hp Hd E w2. unfold resolveOutbound in *. cbv zeta in *. rewrite Hb. rewrite !decide_False in E |- * by done.
  destruct (cache !! _) as [c0|] eqn:Ec in E.
  - injection E as <- <- _. by rewrite Ec.
  - destruct (domain_outbound _ w) as [c0 w0]. injection E as <- <- _. by rewrite lookup_insert_eq.
Qed.
(** Nothing of the transport is on the command line, which other users can read. *)
Lemma args_without_secrets b es final o o' : buildArgs b es final o = buildArgs b es final o'.
Proof. done. Qed.
End Outbound.

(** ** The configuration file of queue-manager *)
Record DomainRateLimit := mkLimit { l_MessagesPerHour : Z; l_Burst : Z }.
Record QueueManagerConfig := mkQM {
  qm_Hostname : string; qm_LogLevel : string; qm_DomainConfigPath : string; qm_Outbound : OutboundConfig;
  qm_MessagesPerHour : Z; qm_Burst : Z; qm_Domains : gmap string DomainRateLimit;
  qm_DSNEnabled : bool; qm_BounceTemplate : string; qm_Socket : string;
  qm_MetricsEnabled : bool; qm_MetricsAddress : string; qm_MetricsPath : string;
}.
(** What decoding finds; [None] is a setting that is not in the file. *)
Record fileConfig := mkFileConfig {
  fc_Outbound : OutboundConfig; fc_Hostname : string; fc_LogLevel : string; fc_DomainConfigPath : string;
  fc_MessagesPerHour : option Z; fc_Burst : option Z; fc_Domains : gmap string (option Z * option Z);
  fc_DSNEnabled : option bool; fc_BounceTemplate : string; fc_Socket : string;
  fc_MetricsEnabled : bool; fc_MetricsAddress : string; fc_MetricsPath : string;
}.
Definition defaultQM : QueueManagerConfig := mkQM "" "" "" noOutbound 20 10 ∅ true "" "" false "" "".
Section Load.
Context (toml_file : string → option fileConfig).
(** The configuration comes with the error. *)
Definition Load (path : string) (w : folder) : QueueManagerConfig * option string * folder :=
  if decide (path = "") then (defaultQM, None, w)
  else match read_file "reading config" path w with
       | (Err e, w) => (defaultQM, Some e, w)
       | (Ok None, w) => (defaultQM, None, w)
       | (Ok (Some data), w) =>
           match toml_file data with
           | None => (defaultQM, Some "parsing config", w)
           | Some fc =>
               (mkQM (fc_Hostname fc) (fc_LogLevel fc) (fc_DomainConfigPath fc) (fc_Outbound fc)
                  (default 20 (fc_MessagesPerHour fc)) (default 10 (fc_Burst fc))
                  ((λ '(m, b), mkLimit (default 0 m) (default 0 b)) <$> fc_Domains fc)
                  (default true (fc_DSNEnabled fc)) (fc_BounceTemplate fc) (fc_Socket fc)
                  (fc_MetricsEnabled fc) (or_else (fc_MetricsAddress fc) ":9100") (or_else (fc_MetricsPath fc) "/metrics"), None, w)
           end
       end.
Definition LoadRateLimit (path : string) (w : folder) : Z * Z * gmap string DomainRateLimit * option string * folder :=
  let '(c, e, w) := Load path w in (qm_MessagesPerHour c, qm_Burst c, qm_Domains c, e, w).
(** A domain that overrides only the burst has no limit per hour: 0 stands for
    unlimited, and the default of the file is not inherited. *)
Lemma partial_override_unlimited path fc w w' data d b :
  path ≠ "" → read_file "reading config" path w = (Ok (Some data), w') → toml_file data = Some fc →
  fc_Domains fc !! d = Some (None, b) →
  qm_Domains (Load path w).1.1 !! d = Some (mkLimit 0 (default 0 b)).
Proof.
  intros Hp Hr Ht Hd. unfold Load. rewrite decide_False, Hr, Ht by done. cbn. by rewrite lookup_fmap, Hd.
Qed.
End Load.

(** ** Examples *)
Section OutboundRuns.
(** A decoder for two texts. *)
Definition o_toml (text : string) : option OutboundConfig :=
  if decide (text = "sys") then Some (mkOut "smarthost" "relay:587" "" "user" "" "")
  else if decide (text = "dom") then Some (mkOut "" "" "ann" "" "" "") else None.
Definition o_cfg : outSettings := mkOutSettings "" "/q" "/etc/mail" noOutbound.
Definition o_disk : folder := mkFolder (list_to_map
  [("/etc/mail/config.toml", "sys"); ("/etc/mail/example.com/config.toml", "dom"); ("/etc/mail/example.com/user", "shared")]) [].
(** The user a domain names inline gives way to the file of the default: the
    domain's setting does not override it. *)
Lemma default_user_file_wins :
  let '(c, _, _) := resolveOutbound o_toml o_cfg "/q/msg/com/example/m1" ∅ o_disk in SmarthostUser c = "shared".
Proof. vm_compute. done. Qed.
(** A domain whose file cannot be decoded sends direct although the default names
    a relay: its file and the default of all domains are dropped together. *)
Lemma broken_domain_file_bypasses_relay :
  let w := set_files <["/etc/mail/example.com/config.toml" := "??"]> o_disk in
  let '(c, _, _) := resolveOutbound o_toml o_cfg "/q/msg/com/example/m1" ∅ w in Strategy c = "direct".
Proof. vm_compute. done. Qed.
End OutboundRuns.
