(* ===== verification/Admin.v ===== *)
(** * Account administration

    Model of the operations layer [src/internal/admin] on users, passwords and
    keys ([validate.go], [lock.go], [users.go], [password.go], [keysops.go],
    [keys/keys.go]) over the disk of [Disk], on top of [Identity], [Passwd] and
    [Keyring]. Directories are entries with a trailing slash; setting owners and
    modes ([perms.go]) is a call that can fail and changes no contents. *)
From S2P Require Import Prelude GoStrings Base64 UidList FilePath Disk Identity Keyring Passwd.
From Stdlib Require Import ZArith Lia Ascii.
Open Scope string_scope.
Open Scope list_scope.
Open Scope Z_scope.
Open Scope io_scope.

(** ** Names *)
Definition is_alnum_lower (c : ascii) : bool := is_lower c || is_digit c.
Definition is_alnum (c : ascii) : bool := is_lower c || is_upper c || is_digit c.

(** [[a-z0-9]([a-z0-9-]*[a-z0-9])?] *)
Definition label_ok (l : string) : bool :=
  match l with
  | "" => false
  | String c _ =>
      is_alnum_lower c && sforall (λ d, is_alnum_lower d || Ascii.eqb d "-") l &&
      match String.get (String.length l - 1) l with Some d => is_alnum_lower d | None => false end
  end.
Definition domainNameRe (name : string) : bool :=
  let labels := Split "." name in
  (2 <=? Z.of_nat (length labels)) && forallb label_ok labels.
Definition ValidDomainName (name : string) : bool :=
  if bool_decide (name = "") || (253 <? blen name) then false
  else if Contains name ".." || Contains name "/" || Contains name (String BS "") then false
  else domainNameRe name.

(** [[a-zA-Z0-9][a-zA-Z0-9._-]{0,63}] *)
Definition name_byte (c : ascii) : bool :=
  is_alnum c || Ascii.eqb c "." || Ascii.eqb c "_" || Ascii.eqb c "-".
Definition usernameRe (name : string) : bool :=
  match name with
  | "" => false
  | String c s => is_alnum c && sforall name_byte s && (blen s <=? 63)
  end.
Definition ValidUsername (name : string) : bool :=
  if decide (name = "") then false
  else if Contains name ".." || Contains name "/" || Contains name (String BS "") then false
  else usernameRe name.
Definition MinPasswordLength : Z := 8.
Definition ValidPassword (password : string) : bool := MinPasswordLength <=? blen password.

(** ** Errors and the environment of a call *)
Inductive adminErr :=
| EDomainNotFound | EDomainExists | EDomainHasUsers (n : nat) | EUserNotFound | EUserExists
| EInvalidDomainName | EInvalidUsername | EWeakPassword | EPasswordRequired | EUserHasKeys
| EAuth (what : string) (e : autherr)
| EId (what : string) (e : idErr)
| EIO (what : string).

Definition as_auth (what : string) {A} (m : io autherr A) : io adminErr A := λ w,
  match m w with (Ok a, w) => (Ok a, w) | (Err e, w) => (Err (EAuth what e), w) end.
Definition as_id (what : string) {A} (m : io idErr A) : io adminErr A := λ w,
  match m w with (Ok a, w) => (Ok a, w) | (Err e, w) => (Err (EId what e), w) end.
(** [_ = m]: the error is dropped. *)
Definition try_ {E A} (m : io E A) : io adminErr unit := λ w, (Ok (), (m w).2).

(** The random bytes, the clock and the user a call runs with. *)
Record Env := mkEnv {
  env_salt : option string; env_rand : rand; env_now : Z; env_root : bool; env_decoy : string;
}.
Record Paths := mkPaths { PConfig : string; PData : string }.

(** [os.WriteFile]: truncate, write, close *)
Definition write_file (e : adminErr) (p content : string) : io adminErr unit :=
  open_trunc e p ;! write_all e p content ;! call_ e.
Definition os_remove_ok (e : adminErr) (p : string) : io adminErr unit :=
  call e (delete p).
(** [os.Stat(path)] with the error taken for absence *)
Definition fileExists (p : string) : io adminErr bool := λ w,
  match sys w with
  | (Done, w) => (Ok (bool_decide (is_Some (files w !! p))), w)
  | (Fault _, w) => (Ok false, w)
  end.

Section Admin.
Context `{Crypto, KeyringJson, UnicodeQuote, Toml} (p : Paths) (env : Env).

Definition DomainDir (domain : string) : string := Join [PConfig p; domain].
Definition DomainExists (name : string) : io adminErr bool :=
  fileExists (Join [PConfig p; name] +:+ "/").

Definition idMgr : Manager := NewManager (PConfig p) (PData p).

Definition lockDomain (domain : string) : io adminErr unit :=
  open_create (EIO "open domain lock") (Join [PConfig p; domain; ".lock"]) ;!
  call_ (EIO "lock domain").

(** Owners and modes are no part of this disk: repairing them is one call that may
    fail. [Provision] has the plans and what applying them does. *)
Definition provisionDomainConfigTree (domain : string) : io adminErr unit :=
  call_ (EIO "config ownership").

(** ** Key files *)
Definition domainKeyName : string := "domain".
Definition keyringName : string := "keyring".
Definition ukb (domain : string) : string := Join [PData p; domain; "users"].
Definition userKeyringDir (domain name : string) : string := Join [ukb domain; name].
Definition domainKeysDir (domain : string) : string := Join [PConfig p; domain; "keys"].
Definition passwd_path (domain : string) : string := Join [PConfig p; domain; "passwd"].

(** [box.GenerateKey]: the private key is 32 random bytes *)
Definition GenerateKeypair (password : string) : R (string * string) :=
  (let? priv := randBytes 32 in
   match X25519_base priv with
   | None => rfail ErrCurve
   | Some pub => let? sealed := Seal (env_now env) priv password in rret (pub, sealed)
   end)%rand.
Definition EncryptPrivateKey (priv password : string) : R string := Seal (env_now env) priv password.

Definition SaveKeypair (dir name pub encPriv : string) : io adminErr unit :=
  call_ (EIO "create keys dir") ;!
  write_file (EIO "write public key") (Join [dir; name +:+ ".pub"]) pub ;!
  write_file (EIO "write private key") (Join [dir; name +:+ ".key"]) encPriv.

Definition DeleteKeypair (dir name : string) : io adminErr unit :=
  os_remove_ok (EIO "remove") (Join [dir; name +:+ ".pub"]) ;!
  os_remove_ok (EIO "remove") (Join [dir; name +:+ ".key"]).

(** [hex.EncodeToString] of the first bytes, with colons *)
Definition hex_byte (c : ascii) : string :=
  let n := nat_of_ascii c in String (hex_digit (n / 16)) (String (hex_digit (n mod 16)) "").
Definition PublicKeyFingerprint (pub : string) : string :=
  sjoin ":" (hex_byte <$> String.list_ascii_of_string (stake 8 pub)).

Record KeyStatus := mkKeyStatus { ks_exists : bool; ks_fingerprint : string; ks_private : bool }.
Definition keyStatus (dir name : string) : io adminErr KeyStatus := λ w,
  match sys w with
  | (Done, w) =>
      match files w !! Join [dir; name +:+ ".pub"] with
      | Some pub =>
          match fileExists (Join [dir; name +:+ ".key"]) w with
          | (Ok b, w) => (Ok (mkKeyStatus true (PublicKeyFingerprint pub) b), w)
          | (Err e, w) => (Err e, w)
          end
      | None => (Ok (mkKeyStatus false "" false), w)
      end
  | (Fault _, w) => (Ok (mkKeyStatus false "" false), w)
  end.
Definition userKeyStatus (domain name : string) : io adminErr KeyStatus :=
  let! s := keyStatus (userKeyringDir domain name) keyringName in
  if ks_exists s then ret s else keyStatus (domainKeysDir domain) name.

Definition userKeyFile (domain name : string) : io adminErr string :=
  let keyring := Join [userKeyringDir domain name; keyringName +:+ ".key"] in
  let legacy := Join [domainKeysDir domain; name +:+ ".key"] in
  let! k := fileExists keyring in
  if k : bool then ret keyring
  else let! l := fileExists legacy in
       ret (if l : bool then legacy else keyring).

(** Warnings of [applyKeyringOwnership]; the chown calls change no contents. *)
Definition applyKeyringOwnership (domain name : string) : io adminErr (list string) := λ w,
  if negb (env_root env) then (Ok [], w)
  else match UserUID (PConfig p) domain name w with
       | (Err _, w) => (Ok ["keyring ownership: lookup uid"], w)
       | (Ok uid, w) =>
           match DomainGID (PConfig p) domain w with
           | (Err _, w) => (Ok ["keyring ownership: lookup gid"], w)
           | (Ok gid, w) =>
               if (uid =? 0) || (gid =? 0) then (Ok ["keyring left owned by the current user"], w)
               else
                 let w := (call_ (E := unit) () w).2 in
                 match (call_ () ;! call_ () ;! call_ ()) w with
                 | (Ok _, w) => (Ok [], w)
                 | (Err _, w) => (Ok ["keyring ownership: chown"], w)
                 end
           end
       end.

Definition createUserKeypair (domain name password : string) : io adminErr (list string) :=
  match (GenerateKeypair password (env_rand env)).1 with
  | Err e => fail (EAuth "generate keypair" e)
  | Ok (pub, encPriv) =>
      SaveKeypair (userKeyringDir domain name) keyringName pub encPriv ;!
      applyKeyringOwnership domain name
  end.

Definition createKeypair (domain name password : string) : io adminErr unit :=
  match (GenerateKeypair password (env_rand env)).1 with
  | Err e => fail (EAuth "generate keypair" e)
  | Ok (pub, encPriv) => SaveKeypair (domainKeysDir domain) name pub encPriv
  end.

(** ** Guards *)
Definition guard (b : bool) (e : adminErr) : io adminErr unit := if b then ret () else fail e.
Definition need_domain (domain : string) : io adminErr unit :=
  let! b := DomainExists domain in guard b EDomainNotFound.

(** An unreadable file reads as one without users. *)
Definition userExists (path name : string) : io adminErr bool := λ w,
  match parsePasswd path w with
  | (Ok es, w) => (Ok (bool_decide (name ∈ username <$> es)), w)
  | (Err _, w) => (Ok false, w)
  end.
Definition need_user (domain name : string) : io adminErr unit :=
  let! b := userExists (passwd_path domain) name in guard b EUserNotFound.

(** ** Users *)
Record CreateUserResult := mkCreated {
  cu_uid : Z; cu_keys : bool; cu_warnings : list string;
}.

(** [provisionUserDataDir]: the gid is read, the directory made and owned. *)
Definition provisionUserDataDir (domain name : string) : io adminErr unit :=
  let! _ := as_id "resolve gid" (DomainGID (PConfig p) domain) in
  call (EIO "create maildir") (insert (userKeyringDir domain name +:+ "/") "").

(** [provisions]: whether the domain's configuration asks for keys. *)
Definition CreateUser (provisions : bool) (domain name password : string) (generateKeys : bool)
  : io adminErr CreateUserResult :=
  guard (ValidDomainName domain) EInvalidDomainName ;!
  guard (ValidUsername name) EInvalidUsername ;!
  guard (ValidPassword password) EWeakPassword ;!
  need_domain domain ;!
  lockDomain domain ;!
  let! there := userExists (passwd_path domain) name in
  if there : bool then fail EUserExists
  else
    let! (uid, old) := as_id "allocate uid" (AllocateUserUID idMgr domain name) in
    match old with
    | Some e => fail (EId "allocate uid" e)
    | None => λ w,
        match AddUser (env_salt env) (passwd_path domain) name password w with
        | (Err e, w) => (Err (EAuth "write passwd" e), (RemoveUser idMgr domain name w).2)
        | (Ok _, w) =>
            let '(r1, w) := provisionUserDataDir domain name w in
            let warn1 := match r1 with Ok _ => [] | Err _ => ["create maildir"] end in
            let '(keys, warn2, w) :=
              if generateKeys || provisions then
                match createUserKeypair domain name password w with
                | (Err _, w) => (false, ["generate keys"], w)
                | (Ok ws, w) => (true, ws, w)
                end
              else (false, [], w) in
            match provisionDomainConfigTree domain w with
            | (Err e, w) => (Err e, w)
            | (Ok _, w) => (Ok (mkCreated uid keys (warn1 ++ warn2)), w)
            end
        end
    end.

Definition AdminDeleteUser (domain name : string) : io adminErr unit :=
  guard (ValidDomainName domain) EInvalidDomainName ;!
  guard (ValidUsername name) EInvalidUsername ;!
  need_domain domain ;!
  lockDomain domain ;!
  need_user domain name ;!
  as_auth "remove passwd entry" (DeleteUser (passwd_path domain) name) ;!
  try_ (RemoveUser idMgr domain name) ;!
  try_ (DeleteKeypair (userKeyringDir domain name) keyringName) ;!
  try_ (DeleteKeypair (Join [DomainDir domain; "keys"]) name) ;!
  provisionDomainConfigTree domain.

Definition ResetPassword (domain name password : string) : io adminErr unit :=
  guard (ValidDomainName domain) EInvalidDomainName ;!
  guard (ValidUsername name) EInvalidUsername ;!
  guard (ValidPassword password) EWeakPassword ;!
  need_domain domain ;!
  lockDomain domain ;!
  need_user domain name ;!
  let! status := userKeyStatus domain name in
  guard (negb (ks_exists status && ks_private status)) EUserHasKeys ;!
  as_auth "update password" (SetPassword (env_salt env) (passwd_path domain) name password) ;!
  provisionDomainConfigTree domain.

(** ** Passwords of users with keys *)
Definition auth_session (domain name password : string) : io adminErr AuthSession :=
  let! a := as_auth "open auth agent" (NewAgent (passwd_path domain) (domainKeysDir domain)) in
  as_auth "current password verification failed" (λ w,
    (Authenticate (env_decoy env) (WithUserKeyringBase (ukb domain) a) name password w).1).

(** The key resealed under the new password, written beside the old one. *)
Definition stage_key (domain name newPassword : string) (s : AuthSession)
  : io adminErr (option string) :=
  match as_private s with
  | None => ret None
  | Some priv =>
      match (EncryptPrivateKey priv newPassword (env_rand env)).1 with
      | Err e => fail (EAuth "re-seal private key" e)
      | Ok encPriv =>
          let! path := userKeyFile domain name in
          write_file (EIO "write re-sealed key") (path +:+ ".rekey") encPriv ;!
          ret (Some path)
      end
  end.

Definition ChangePassword (domain name oldPassword newPassword : string) : io adminErr unit :=
  guard (ValidDomainName domain) EInvalidDomainName ;!
  guard (ValidUsername name) EInvalidUsername ;!
  guard (negb (bool_decide (oldPassword = ""))) EPasswordRequired ;!
  guard (ValidPassword newPassword) EWeakPassword ;!
  need_domain domain ;!
  lockDomain domain ;!
  need_user domain name ;!
  let! s := auth_session domain name oldPassword in
  let! staged := stage_key domain name newPassword s in
  on_error (as_auth "update password" (SetPassword (env_salt env) (passwd_path domain) name newPassword))
    (λ w, match staged with Some path => os_remove (path +:+ ".rekey") w | None => w end) ;!
  match staged with
  | None => ret ()
  | Some path => rename (EIO "activate re-sealed key") (path +:+ ".rekey") path
  end ;!
  provisionDomainConfigTree domain.

Definition ResetPasswordRegenKeys (domain name newPassword : string) : io adminErr string :=
  guard (ValidDomainName domain) EInvalidDomainName ;!
  guard (ValidUsername name) EInvalidUsername ;!
  guard (ValidPassword newPassword) EWeakPassword ;!
  need_domain domain ;!
  lockDomain domain ;!
  need_user domain name ;!
  let! status := userKeyStatus domain name in
  as_auth "update password" (SetPassword (env_salt env) (passwd_path domain) name newPassword) ;!
  if negb (ks_exists status && ks_private status) then ret ""
  else
    try_ (DeleteKeypair (domainKeysDir domain) name) ;!
    createUserKeypair domain name newPassword ;!
    provisionDomainConfigTree domain ;!
    let! s := userKeyStatus domain name in
    ret (ks_fingerprint s).

(** ** Keys on their own *)
Definition CreateUserKeys (domain name password : string) : io adminErr string :=
  guard (ValidDomainName domain) EInvalidDomainName ;!
  guard (ValidUsername name) EInvalidUsername ;!
  guard (negb (bool_decide (password = ""))) EPasswordRequired ;!
  need_domain domain ;!
  need_user domain name ;!
  lockDomain domain ;!
  createUserKeypair domain name password ;!
  let! s := userKeyStatus domain name in
  ret (ks_fingerprint s).

Definition DeleteUserKeys (domain name : string) : io adminErr unit :=
  guard (ValidDomainName domain) EInvalidDomainName ;!
  guard (ValidUsername name) EInvalidUsername ;!
  need_domain domain ;!
  DeleteKeypair (userKeyringDir domain name) keyringName ;!
  DeleteKeypair (domainKeysDir domain) name.

Definition CreateDomainKeys (domain password : string) : io adminErr string :=
  guard (ValidDomainName domain) EInvalidDomainName ;!
  guard (negb (bool_decide (password = ""))) EPasswordRequired ;!
  need_domain domain ;!
  lockDomain domain ;!
  createKeypair domain domainKeyName password ;!
  let! s := keyStatus (domainKeysDir domain) domainKeyName in
  ret (ks_fingerprint s).
Definition DeleteDomainKeys (domain : string) : io adminErr unit :=
  guard (ValidDomainName domain) EInvalidDomainName ;!
  need_domain domain ;!
  DeleteKeypair (domainKeysDir domain) domainKeyName.
End Admin.

(** ** What a computation may change *)
Definition changes {E A} (S : string → Prop) (m : io E A) : Prop :=
  ∀ w q, ¬ S q → files (m w).2 !! q = files w !! q.
Definition nothing (_ : string) : Prop := False.

Lemma disk_files w : files (sys w).2 = files w.
Proof. unfold sys. by destruct (faults w). Qed.

Lemma changes_weaken {E A} (S T : string → Prop) (m : io E A) :
  (∀ q, S q → T q) → changes S m → changes T m.
Proof. intros HST Hm w q Hq. apply Hm. auto. Qed.
Lemma changes_ret {E A} S (a : A) : changes S (ret a : io E A).
Proof. by intros w q _. Qed.
Lemma changes_fail {E A} S (e : E) : changes S (fail e : io E A).
Proof. by intros w q _. Qed.
Lemma changes_bind {E A B} S (m : io E A) (k : A → io E B) :
  changes S m → (∀ a, changes S (k a)) → changes S (bind m k).
Proof.
  intros Hm Hk w q Hq. unfold bind. specialize (Hm w q Hq).
  destruct (m w) as [[a|e] w1]; cbn [snd] in *; [|done]. by rewrite Hk.
Qed.
Lemma changes_call {E} S (e : E) f :
  (∀ fs q, ¬ S q → f fs !! q = fs !! q) → changes S (call e f).
Proof.
  intros Hf w q Hq. unfold call. pose proof (disk_files w) as Hs.
  destruct (sys w) as [[|n] w1]; cbn in *; [rewrite Hf by done|]; by rewrite Hs.
Qed.
Lemma changes_call_ {E} S (e : E) : changes S (call_ e).
Proof. by apply changes_call. Qed.
Lemma changes_open_create {E} S (e : E) p : S p → changes S (open_create e p).
Proof.
  intros Hp. apply changes_call. intros fs q Hq.
  destruct (fs !! p); [done|]. rewrite lookup_insert_ne; [done|]. by intros ->.
Qed.
Lemma changes_open_trunc {E} S (e : E) p : S p → changes S (open_trunc e p).
Proof.
  intros Hp. apply changes_call. intros fs q Hq. rewrite lookup_insert_ne; [done|]. by intros ->.
Qed.
Lemma changes_write_all {E} S (e : E) p c : S p → changes S (write_all e p c).
Proof.
  intros Hp w q Hq. unfold write_all. pose proof (disk_files w) as Hs.
  destruct (sys w) as [[|n] w1]; cbn in *; (rewrite lookup_insert_ne; [by rewrite Hs|]); by intros ->.
Qed.
Lemma changes_rename {E} S (e : E) a b : S a → S b → changes S (rename e a b).
Proof.
  intros Ha Hb. apply changes_call. intros fs q Hq. destruct (fs !! a); [|done].
  rewrite lookup_insert_ne, lookup_delete_ne; [done|by intros ->..].
Qed.
Lemma changes_remove S p w q : S p → ¬ S q → files (os_remove p w) !! q = files w !! q.
Proof.
  intros Hp Hq. unfold os_remove. pose proof (disk_files w) as Hs.
  destruct (sys w) as [[|n] w1]; cbn in *; [rewrite lookup_delete_ne by (by intros ->)|]; by rewrite Hs.
Qed.
Lemma changes_on_error {E A} S (m : io E A) c :
  changes S m → (∀ w q, ¬ S q → files (c w) !! q = files w !! q) → changes S (on_error m c).
Proof.
  intros Hm Hc w q Hq. unfold on_error. specialize (Hm w q Hq).
  destruct (m w) as [[a|e] w1]; cbn [snd] in *; [done|]. by rewrite Hc.
Qed.
Lemma changes_read_file {E} S (e : E) p : changes S (read_file e p).
Proof.
  intros w q _. unfold read_file. pose proof (disk_files w) as Hs.
  destruct (sys w) as [[|n] w1]; cbn in *; by rewrite Hs.
Qed.
Lemma changes_as_auth {A} S what (m : io autherr A) : changes S m → changes S (as_auth what m).
Proof.
  intros Hm w q Hq. unfold as_auth. specialize (Hm w q Hq). by destruct (m w) as [[]].
Qed.
Create HintDb changes.
#[export] Hint Resolve changes_ret changes_fail changes_call_ changes_open_create
  changes_open_trunc changes_write_all changes_rename changes_read_file changes_as_auth : changes.
#[export] Hint Extern 2 (changes _ (bind _ _)) => apply changes_bind; [|intros ?] : changes.

(** Read-only computations leave the files as they are. *)
Lemma changes_nothing {E A} (m : io E A) w : changes nothing m → files (m w).2 = files w.
Proof. intros Hm. apply map_eq. intros q. apply Hm. by intros []. Qed.

Section Frames.
Context `{Crypto, KeyringJson, UnicodeQuote, Toml} (p : Paths) (env : Env).

Lemma changes_guard S b e : changes S (guard b e).
Proof. unfold guard. destruct b; auto with changes. Qed.
Lemma changes_fileExists S q : changes S (fileExists q).
Proof.
  intros w x _. unfold fileExists. pose proof (disk_files w) as Hs.
  destruct (sys w) as [[|n] w1]; cbn in *; by rewrite Hs.
Qed.
Lemma changes_need_domain S d : changes S (need_domain p d).
Proof.
  unfold need_domain. apply changes_bind; [apply changes_fileExists|]. intros b. apply changes_guard.
Qed.
Lemma changes_parsePasswd S q : changes S (parsePasswd q).
Proof.
  intros w x Hx. unfold parsePasswd. pose proof (changes_read_file S errOpen q w x Hx) as Hr.
  by destruct (read_file errOpen q w) as [[[]|] w1].
Qed.
Lemma changes_need_user S d n : changes S (need_user p d n).
Proof.
  unfold need_user. apply changes_bind; [|intros b; apply changes_guard].
  intros w x Hx. unfold userExists. pose proof (changes_parsePasswd S (passwd_path p d) w x Hx) as Hr.
  by destruct (parsePasswd _ w) as [[] w1].
Qed.
Lemma changes_keyFilePath S a n kf ext : changes S (keyFilePath a n kf ext).
Proof.
  unfold keyFilePath, stat. repeat (apply changes_bind; [|intros ?] || case_decide || case_match);
    auto with changes.
Qed.
Lemma changes_loadKeys S a n pw : changes S (loadKeys a n pw).
Proof.
  unfold loadKeys, read_key. apply changes_bind; [apply changes_keyFilePath|intros ?].
  apply changes_bind; [apply changes_bind; [auto with changes|intros []; auto with changes]|intros ?].
  apply changes_bind; [apply changes_keyFilePath|intros ?].
  apply changes_bind; [apply changes_bind; [auto with changes|intros []; auto with changes]|intros s].
  destruct (Open s pw); auto with changes.
Qed.
Lemma changes_Authenticate S decoy a n pw :
  changes S (λ w, (Authenticate decoy a n pw w).1).
Proof.
  intros w q Hq. unfold Authenticate. destruct (users a !! n).
  - destruct (verifyPassword _ _) as [[[]|] ?]; try done.
    pose proof (changes_loadKeys S a n pw w q Hq) as Hr.
    destruct (loadKeys a n pw w) as [[[]|[]] w1]; done.
  - by destruct (decoyVerify _ _) as [[]].
Qed.
Lemma changes_auth_session S d n pw : changes S (auth_session p env d n pw).
Proof.
  unfold auth_session. apply changes_bind; [|intros a]; apply changes_as_auth.
  - unfold NewAgent. apply changes_bind; [apply changes_parsePasswd|auto with changes].
  - apply changes_Authenticate.
Qed.
Lemma changes_writePasswd path ls :
  changes (λ q, q = path ∨ q = path +:+ ".tmp") (writePasswd path ls).
Proof.
  unfold writePasswd. apply changes_bind; [apply changes_open_trunc; auto|intros _].
  apply changes_bind; [|intros _; apply changes_rename; auto].
  apply changes_on_error; [|by intros; apply (changes_remove (λ q, q = path ∨ q = path +:+ ".tmp")); auto].
  apply changes_bind; [apply changes_write_all; auto|auto with changes].
Qed.
End Frames.

(** ** Atomic replacement under faults *)
Section Atomic.
Context `{Crypto, KeyringJson, UnicodeQuote, Toml}.

Lemma tmp_ne path : path +:+ ".tmp" ≠ path.
Proof. intros E%(f_equal String.length). rewrite slen_app in E. cbn in E. lia. Qed.

Lemma writePasswd_atomic path ls w :
  let '(r, w') := writePasswd path ls w in
  files w' !! path = match r with Ok _ => Some (unlines LF ls) | Err _ => files w !! path end.
Proof.
  pose proof (tmp_ne path) as Hne. unfold writePasswd, on_error.
  cbv [bind open_trunc call write_all call_ rename os_remove].
  repeat match goal with
  | |- context [sys ?w0] =>
      let E := fresh "E" in
      pose proof (disk_files w0); destruct (sys w0) as [[|?] ?] eqn:E; cbn in *
  end;
  repeat match goal with
  | Hf : files _ = _ |- _ => cbn in Hf; rewrite Hf in *; clear Hf
  end; unfold id; cbn; rewrite ?lookup_insert_eq;
  rewrite ?lookup_delete_ne, ?lookup_insert_ne, ?lookup_insert_eq, ?lookup_delete_ne by done;
  rewrite ?lookup_insert_ne, ?lookup_insert_eq by done; try done.
Qed.

(** The contents of a passwd file after a password was set. *)
Definition rehashed (salt : option string) (name pw c c' : string) : Prop :=
  ∃ h lines, HashPassword salt pw = Ok h ∧ ScanLines c = (lines, ScanEOF) ∧
    c' = unlines LF (snd <$> (set_line name h <$> lines)).

Lemma SetPassword_atomic salt path name pw w c :
  files w !! path = Some c →
  let '(r, w') := SetPassword salt path name pw w in
  match r with
  | Ok _ => ∃ c', files w' !! path = Some c' ∧ rehashed salt name pw c c'
  | Err _ => files w' !! path = Some c
  end ∧
  ∀ q, q ≠ path → q ≠ path +:+ ".tmp" → files w' !! q = files w !! q.
Proof.
  intros Hc. unfold SetPassword, bind, read_file. pose proof (disk_files w) as Hs.
  destruct (sys w) as [[|n] w1]; cbn [snd] in Hs; [|by rewrite Hs].
  rewrite Hs, Hc. destruct (HashPassword salt pw) as [h|e] eqn:Eh; [|cbn; by rewrite Hs].
  destruct (ScanLines c) as [lines [|]] eqn:El; [|cbn; by rewrite Hs].
  destruct (existsb fst _); [|cbn; by rewrite Hs].
  pose proof (writePasswd_atomic path (snd <$> (set_line name h <$> lines)) w1) as Ha.
  pose proof (changes_writePasswd path (snd <$> (set_line name h <$> lines)) w1) as Hf.
  destruct (writePasswd path _ w1) as [[[]|e] w2]; cbn [snd] in *; rewrite Hs in *.
  - split; [|intros q H1' H2'; apply Hf; tauto]. eexists. split; [exact Ha|]. by exists h, lines.
  - split; [by rewrite Ha|intros q H1' H2'; apply Hf; tauto].
Qed.

Lemma write_file_ok e q c w :
  let '(r, w') := write_file e q c w in
  (∀ x, x ≠ q → files w' !! x = files w !! x) ∧
  match r with Ok _ => files w' !! q = Some c | Err _ => True end.
Proof.
  unfold write_file. cbv [bind open_trunc call write_all call_].
  repeat match goal with
  | |- context [sys ?w0] =>
      let E := fresh "E" in
      pose proof (disk_files w0); destruct (sys w0) as [[|?] ?] eqn:E; cbn in *
  end;
  repeat match goal with
  | Hf : files _ = _ |- _ => cbn in Hf; rewrite Hf in *; clear Hf
  end; unfold id; cbn; (split; [intros x Hx|]);
  rewrite ?lookup_insert_eq, ?lookup_insert_ne by done; done.
Qed.

Lemma rename_ok {E} (e : E) a b w c :
  a ≠ b → files w !! a = Some c →
  let '(r, w') := rename e a b w in
  match r with
  | Ok _ => files w' !! b = Some c
  | Err _ => r = Err e ∧ files w' !! b = files w !! b
  end ∧ ∀ q, q ≠ a → q ≠ b → files w' !! q = files w !! q.
Proof.
  intros Hne Ha. unfold rename, call. pose proof (disk_files w) as Hs.
  destruct (sys w) as [[|n] w1]; cbn in *; rewrite Hs; [|done]. rewrite Ha.
  split; [by rewrite lookup_insert_eq|]. intros q H1' H2'.
  by rewrite lookup_insert_ne, lookup_delete_ne.
Qed.
End Atomic.

(** ** Changing the password of a user with a key *)
Section Change.
Context `{Crypto, KeyringJson, UnicodeQuote, Toml, !CryptoLaws, !KeyringJsonLaws}.
Context (p : Paths) (env : Env) (domain name oldPassword newPassword : string).
Context (content sealed0 pubk priv : string).

Let P : string := passwd_path p domain.
Let K : string := Join [userKeyringDir p domain name; keyringName +:+ ".key"].
Let PUB : string := Join [userKeyringDir p domain name; keyringName +:+ ".pub"].
Let LEG : string := Join [domainKeysDir p domain; name +:+ ".key"].
Let T : string := K +:+ ".rekey".
Let LOCK : string := Join [PConfig p; domain; ".lock"].

(** The files before the change: the user's key is in the data tree only. *)
Record before (w : folder) : Prop := {
  bf_passwd : files w !! P = Some content;
  bf_key : files w !! K = Some sealed0;
  bf_pub : files w !! PUB = Some pubk;
  bf_legacy : files w !! LEG = None;
}.

(** The three states a password change can end in. *)
Inductive outcome (r : result unit adminErr) (w : folder) : Prop :=
| unchanged :
    files w !! P = Some content → files w !! K = Some sealed0 → is_ok r = false → outcome r w
| changed c' s' :
    files w !! P = Some c' → rehashed (env_salt env) name newPassword content c' →
    files w !! K = Some s' → Open s' newPassword = Ok priv → outcome r w
| key_left_behind c' :
    files w !! P = Some c' → rehashed (env_salt env) name newPassword content c' →
    files w !! K = Some sealed0 → r = Err (EIO "activate re-sealed key") → outcome r w.

Lemma ends es e n : plain_elem e → (n ≤ String.length e)%nat → slast n (Join (es ++ [e])) = slast n e.
Proof. apply Join_slast. Qed.
Lemma P_end : slast 3 P = "swd".
Proof. unfold P, passwd_path. apply (ends [PConfig p; domain] "passwd"); [by apply plain_elem_intro|cbn; lia]. Qed.
Lemma K_end : slast 3 K = "key" ∧ slast 4 K = ".key".
Proof.
  unfold K. split.
  - apply (ends [userKeyringDir p domain name] "keyring.key" 3); [by apply plain_elem_intro|cbn; lia].
  - apply (ends [userKeyringDir p domain name] "keyring.key" 4); [by apply plain_elem_intro|cbn; lia].
Qed.
Lemma PUB_end : slast 3 PUB = "pub".
Proof. unfold PUB. apply (ends [userKeyringDir p domain name] "keyring.pub" 3); [by apply plain_elem_intro|cbn; lia]. Qed.
Lemma LOCK_end : slast 3 LOCK = "ock".
Proof. unfold LOCK. apply (ends [PConfig p; domain] ".lock" 3); [by apply plain_elem_intro|cbn; lia]. Qed.
Lemma T_end : slast 3 T = "key" ∧ slast 4 T = "ekey".
Proof. unfold T. split; (rewrite slast_app; [done|cbn; lia]). Qed.
Lemma PT_end : slast 3 (P +:+ ".tmp") = "tmp".
Proof. by apply tmp_path_end. Qed.

Context (Hname : ValidUsername name = true).

Lemma LEG_end : slast 3 LEG = "key" ∧ slast 4 LEG = ".key".
Proof.
  assert (plain_elem (name +:+ ".key")) as He.
  { unfold ValidUsername in Hname. destruct (decide (name = "")); [done|].
    destruct (_ || _); [done|]. unfold usernameRe in Hname. destruct name as [|c s]; [done|].
    apply andb_prop in Hname as [[Hc Hs]%andb_prop _].
    assert (no_byte slash (String c s)) as Hno.
    { apply no_byte_cons. split; [by intros ->|]. eapply sforall_no_byte, Hs. done. }
    split_and!; [apply no_byte_app; by split|done|..];
      intros E%(f_equal String.length); rewrite slen_app in E; cbn in E; lia. }
  unfold LEG. split; (rewrite (ends [domainKeysDir p domain] (name +:+ ".key")) by
    (done || (rewrite slen_app; cbn; lia))); rewrite slast_app; try done; cbn; lia.
Qed.

Ltac apart :=
  let E := fresh in intros E;
  first [apply (f_equal (slast 4)) in E;
         rewrite ?(proj2 K_end), ?(proj2 T_end), ?(proj2 LEG_end) in E; discriminate E
        |apply (f_equal (slast 3)) in E;
         rewrite ?P_end, ?(proj1 K_end), ?(proj1 T_end), ?PUB_end, ?LOCK_end, ?PT_end,
           ?(proj1 LEG_end) in E; discriminate E].

(** Steps that touch none of the files keep [before]; a failure ends the change. *)
Lemma before_step {A} (S : string → Prop) (m : io adminErr A) (k : A → io adminErr unit) w :
  changes S m → ¬ S P → ¬ S K → ¬ S PUB → ¬ S LEG → before w →
  (∀ a w1, m w = (Ok a, w1) → before w1 → let '(r, w') := k a w1 in outcome r w') →
  let '(r, w') := bind m k w in outcome r w'.
Proof.
  intros Hm HP HK HB HL [H1' H2' H3' H4'] Hk. unfold bind.
  assert (before (m w).2) as Hb. { split; rewrite Hm by done; done. }
  destruct (m w) as [[a|e] w1]; cbn [snd] in Hb; [by apply Hk|].
  by apply unchanged; [apply Hb..|].
Qed.

Lemma key_path : Join [ukb p domain; name; keyringName +:+ ".key"] = K ∧
                 Join [ukb p domain; name; keyringName +:+ ".pub"] = PUB.
Proof.
  assert (ukb p domain ≠ "") as Hne.
  { unfold ukb. destruct (Join_snoc [PData p; domain] "users") as [q E]; [by apply plain_elem_intro|].
    cbn [app] in E. rewrite E. intros E'%(f_equal String.length). rewrite slen_app in E'. cbn in E'. lia. }
  unfold K, PUB, userKeyringDir. by rewrite !Join_Join.
Qed.

Lemma keyFilePath_keyring a kf ext w path w1 c :
  userKeyringBase a ≠ "" → files w !! Join [userKeyringBase a; name; kf] = Some c →
  keyFilePath a name kf ext w = (Ok path, w1) →
  path = Join [userKeyringBase a; name; kf] ∧ files w1 = files w.
Proof.
  intros Hb Hf E. pose proof (changes_nothing (keyFilePath a name kf ext) w) as Hr.
  rewrite E in Hr. cbn [snd] in Hr. split; [|apply Hr, changes_keyFilePath].
  unfold keyFilePath, stat in E. rewrite decide_False in E by done.
  cbv [bind read_file ret] in E. pose proof (disk_files w) as Hs.
  destruct (sys w) as [[|n] w0]; cbn [snd] in Hs; [|done]. rewrite Hs, Hf in E.
  rewrite bool_decide_true in E by by eexists. by injection E.
Qed.

Lemma read_key_ok e q w x w1 :
  read_key e q w = (Ok x, w1) → files w !! q = Some x ∧ files w1 = files w.
Proof.
  unfold read_key, bind, read_file. pose proof (disk_files w) as Hs.
  destruct (sys w) as [[|n] w0]; cbn [snd] in Hs; [|done]. rewrite Hs.
  destruct (files w !! q); [|done]. intros [= -> <-]. by rewrite Hs.
Qed.

Lemma read_key_ne e q w : e ≠ ErrKeyNotFound → (read_key e q w).1 ≠ Err ErrKeyNotFound.
Proof.
  intros He. unfold read_key, bind, read_file. destruct (sys w) as [[|n] w0]; [|naive_solver].
  destruct (files w0 !! q); naive_solver.
Qed.

Context (Hopen : Open sealed0 oldPassword = Ok priv).

Lemma loadKeys_before a w :
  userKeyringBase a = ukb p domain → before w →
  match (loadKeys a name oldPassword w).1 with
  | Ok (_, k) => k = priv
  | Err e => e ≠ ErrKeyNotFound
  end.
Proof.
  intros Ha [_ HK HB _]. destruct key_path as [EK EB].
  assert (userKeyringBase a ≠ "") as Hne.
  { intros E. rewrite Ha in E. unfold ukb in E.
    destruct (Join_snoc [PData p; domain] "users") as [q Eq]; [by apply plain_elem_intro|].
    cbn [app] in Eq. rewrite Eq in E. apply (f_equal String.length) in E.
    rewrite slen_app in E. cbn in E. lia. }
  rewrite <-EK, <-Ha in HK. rewrite <-EB, <-Ha in HB. unfold loadKeys.
  pose proof (keys_fail_closed a name keyringPubFile publicKeyExt w) as Hf1.
  unfold bind at 1.
  destruct (keyFilePath a name keyringPubFile publicKeyExt w) as [[pp|e] w1] eqn:E1; cbn [fst] in *.
  2:{ intros ->. destruct (Hf1 eq_refl) as [Hf _]. specialize (Hf Hne).
      change (keyringName +:+ ".pub") with keyringPubFile in HB. congruence. }
  destruct (keyFilePath_keyring a keyringPubFile publicKeyExt w pp w1 pubk Hne HB E1) as [-> Ew1].
  unfold bind at 1.
  pose proof (read_key_ne (ErrWrapped "read public key") (Join [userKeyringBase a; name; keyringPubFile]) w1) as Hn1.
  destruct (read_key _ _ w1) as [[pub|e] w2] eqn:E2; cbn [fst] in *;
    [|intros ->; by apply Hn1].
  apply read_key_ok in E2 as [_ Ew2]. unfold bind at 1.
  pose proof (keys_fail_closed a name keyringKeyFile privateKeyExt w2) as Hf2.
  change (keyringName +:+ ".key") with keyringKeyFile in HK. rewrite <-Ew1, <-Ew2 in HK.
  destruct (keyFilePath a name keyringKeyFile privateKeyExt w2) as [[kp|e] w3] eqn:E3; cbn [fst] in *.
  2:{ intros ->. destruct (Hf2 eq_refl) as [Hf _]. specialize (Hf Hne). congruence. }
  destruct (keyFilePath_keyring a keyringKeyFile privateKeyExt w2 kp w3 sealed0 Hne HK E3) as [-> Ew3].
  unfold bind at 1.
  pose proof (read_key_ne (ErrWrapped "read private key") (Join [userKeyringBase a; name; keyringKeyFile]) w3) as Hn2.
  destruct (read_key _ _ w3) as [[sealed|e] w4] eqn:E4; cbn [fst] in *;
    [|intros ->; by apply Hn2].
  apply read_key_ok in E4 as [Hs _]. rewrite Ew3, HK in Hs. injection Hs as <-.
  by rewrite Hopen.
Qed.

Lemma session_key w s w1 :
  before w → auth_session p env domain name oldPassword w = (Ok s, w1) → as_private s = Some priv.
Proof.
  intros Hb. unfold auth_session, bind.
  destruct (as_auth _ _ w) as [[a|e] w0] eqn:E0; [|done]. unfold as_auth at 1.
  assert (before w0) as Hb0.
  { destruct Hb. assert (files w0 = files w) as Ef.
    { change w0 with (Ok (E := adminErr) a, w0).2. rewrite <-E0. apply changes_nothing, changes_as_auth.
      unfold NewAgent. apply changes_bind; [apply changes_parsePasswd|auto with changes]. }
    split; by rewrite Ef. }
  pose proof (loadKeys_before (WithUserKeyringBase (ukb p domain) a) w0 eq_refl Hb0) as Hl.
  unfold Authenticate. destruct (users _ !! name) as [e|].
  - destruct (verifyPassword _ _) as [[[]|] ?]; try done.
    destruct (loadKeys _ name oldPassword w0) as [[[pub k]|er] w2]; cbn [fst] in *.
    + subst k. by intros [= <- _].
    + destruct er; try done.
  - by destruct (decoyVerify _ _) as [[]].
Qed.

Lemma Seal_ok now k pw r sealed r' : Seal now k pw r = (Ok sealed, r') → Open sealed pw = Ok k.
Proof.
  unfold Seal. destruct (decide _); [|done]. destruct (X25519_base k); [|done].
  intros E. destruct (sealNew_ok _ _ _ _ _ E) as [Hk Ho]. unfold Open. by rewrite Hk, Ho.
Qed.

Lemma userKeyFile_before w :
  before w → ∃ w1, userKeyFile p domain name w = (Ok K, w1) ∧ files w1 = files w.
Proof.
  intros [_ HK _ HL]. unfold userKeyFile, bind, fileExists. fold K LEG.
  pose proof (disk_files w) as Hs. destruct (sys w) as [[|n] w0]; cbn [snd] in Hs.
  - rewrite Hs, HK, bool_decide_true by by eexists. by eexists.
  - pose proof (disk_files w0) as Hs0. destruct (sys w0) as [[|n'] w1]; cbn [snd] in Hs0.
    + rewrite Hs0, Hs, HL, bool_decide_false by (by intros []). eexists. split; [done|]. congruence.
    + eexists. split; [done|]. congruence.
Qed.

Lemma stage_key_ok w s staged w1 :
  before w → as_private s = Some priv →
  stage_key p env domain name newPassword s w = (Ok staged, w1) →
  staged = Some K ∧ ∃ enc, files w1 !! T = Some enc ∧ Open enc newPassword = Ok priv.
Proof.
  intros Hb Hs. unfold stage_key. rewrite Hs. unfold EncryptPrivateKey.
  destruct (Seal (env_now env) priv newPassword (env_rand env)) as [[enc|e] r'] eqn:Es; cbn [fst]; [|done].
  apply Seal_ok in Es. destruct (userKeyFile_before w Hb) as (w0 & Ew & _).
  rewrite (bind_eq _ _ _ _ _ Ew). unfold bind. fold T.
  pose proof (write_file_ok (EIO "write re-sealed key") T enc w0) as Hw.
  destruct (write_file _ T enc w0) as [[[]|e] w2]; [|done]. intros [= <- <-].
  split; [done|]. exists enc. by split; [apply Hw|].
Qed.

Lemma changes_stage w s :
  before w → as_private s = Some priv →
  ∀ q, q ≠ T → files (stage_key p env domain name newPassword s w).2 !! q = files w !! q.
Proof.
  intros Hb Hs q Hq. unfold stage_key. rewrite Hs. unfold EncryptPrivateKey.
  destruct (Seal (env_now env) priv newPassword (env_rand env)).1 as [enc|e]; [|done].
  destruct (userKeyFile_before w Hb) as (w0 & Ew & Ef).
  rewrite (bind_eq _ _ _ _ _ Ew). fold T. unfold bind.
  pose proof (write_file_ok (EIO "write re-sealed key") T enc w0) as Hw.
  destruct (write_file _ T enc w0) as [[[]|e] w2]; cbn [snd]; destruct Hw as [Hw _];
    by rewrite Hw, Ef.
Qed.

Lemma before_staged w w' :
  before w → (∀ q, q ≠ T → files w' !! q = files w !! q) → before w'.
Proof. intros [? ? ? ?] Hq. split; (rewrite Hq; [done|apart]). Qed.
Lemma before_locked w w' :
  before w → (∀ q, q ≠ LOCK → files w' !! q = files w !! q) → before w'.
Proof. intros [? ? ? ?] Hq. split; (rewrite Hq; [done|apart]). Qed.

(** The end of the change, once the new key is staged. *)
Lemma change_end w enc :
  before w → files w !! T = Some enc → Open enc newPassword = Ok priv →
  let '(r, w') :=
    (on_error (as_auth "update password" (SetPassword (env_salt env) P name newPassword))
       (λ w, os_remove T w) ;!
     rename (EIO "activate re-sealed key") T K ;!
     provisionDomainConfigTree domain)%io w in
  outcome r w'.
Proof.
  intros [HP HK _ _] HT Ho. unfold on_error, as_auth, bind at 1.
  pose proof (SetPassword_atomic (env_salt env) P name newPassword w content HP) as Hs.
  destruct (SetPassword (env_salt env) P name newPassword w) as [[[]|e] w1].
  - destruct Hs as [(c' & HP1 & Hre) Hq]. unfold bind.
    assert (files w1 !! T = Some enc ∧ files w1 !! K = Some sealed0) as [HT1 HK1].
    { rewrite !Hq; [done|apart..]. }
    pose proof (rename_ok (EIO "activate re-sealed key") T K w1 enc ltac:(apart) HT1) as Hr.
    destruct (rename _ T K w1) as [[[]|e] w2]; destruct Hr as [Hr Hf];
      assert (files w2 !! P = Some c') as HP2 by (rewrite Hf; [done|apart..]).
    + pose proof (changes_call_ nothing (EIO "config ownership") w2) as Hc.
      unfold provisionDomainConfigTree.
      destruct (call_ (EIO "config ownership") w2) as [r w3]; cbn [snd] in Hc.
      apply (changed _ _ c' enc); [by rewrite Hc by (by intros [])|done|by rewrite Hc by (by intros [])|done].
    + destruct Hr as [Hr HK2]. apply (key_left_behind _ _ c'); congruence.
  - destruct Hs as [HP1 Hq].
    apply unchanged; [|rewrite (changes_remove (λ q, q = T) T w1 K); [rewrite Hq; [done|apart..]|done|apart]|done].
    rewrite (changes_remove (λ q, q = T) T w1 P); [done|done|apart].
Qed.
End Change.

(** C21 (safety): for a user whose keyring opens under the old password, and who has
    no key file of the old layout,
    a password change under any combination of I/O failures leaves the user's
    password file and key file in one of three states: both as before; the new hash
    and the same private key sealed under the new password; or the new hash with the
    key still under the old one, and only when the final rename failed and the error
    says so. Success means the second. In particular the key is never sealed under a
    password the account does not have yet, and is never lost. With a key file of
    the old layout beside the keyring, the keyring can stay under the old password
    although success is reported ([change_reseals_wrong_file]). *)
Theorem password_change_atomic `{Crypto, KeyringJson, UnicodeQuote, Toml, !CryptoLaws, !KeyringJsonLaws}
    p env domain name old new content sealed0 pubk priv w :
  before p domain name content sealed0 pubk w → Open sealed0 old = Ok priv →
  let '(r, w') := ChangePassword p env domain name old new w in
  outcome p env domain name new content sealed0 priv r w'.
Proof.
  intros Hb Ho. destruct (ValidUsername name) eqn:Hn.
  2:{ unfold ChangePassword, guard. rewrite Hn. destruct Hb.
      destruct (ValidDomainName domain); by apply unchanged. }
  unfold ChangePassword.
  do 4 (eapply (before_step p env domain name new content sealed0 pubk priv nothing);
    [apply changes_guard|by intros []..|exact Hb|]; intros _ w' _ Hb'; clear w Hb;
    rename w' into w, Hb' into Hb).
  eapply (before_step p env domain name new content sealed0 pubk priv nothing);
    [apply changes_need_domain|by intros []..|exact Hb|]. intros _ w1 _ Hb1.
  assert (before p domain name content sealed0 pubk (lockDomain p domain w1).2) as Hb2.
  { eapply before_locked; [exact Hn|exact Hb1|]. intros q Hq.
    assert (changes (λ q, q = Join [PConfig p; domain; ".lock"]) (lockDomain p domain)) as Hc
      by (unfold lockDomain; auto with changes).
    by apply Hc. }
  unfold bind at 1. destruct (lockDomain p domain w1) as [[[]|e] w2]; cbn [snd] in Hb2;
    [|destruct Hb2; by apply unchanged].
  eapply (before_step p env domain name new content sealed0 pubk priv nothing);
    [apply changes_need_user|by intros []..|exact Hb2|]. intros _ w3 _ Hb3.
  eapply (before_step p env domain name new content sealed0 pubk priv nothing);
    [apply changes_auth_session|by intros []..|exact Hb3|]. intros s w4 Es Hb4.
  pose proof (session_key p env domain name old content sealed0 pubk priv Ho w3 s w4 Hb3 Es) as Hs.
  pose proof (changes_stage p env domain name new content sealed0 pubk priv w4 s Hb4 Hs) as Hst.
  apply (before_staged p domain name content sealed0 pubk Hn _ _ Hb4) in Hst.
  unfold bind at 1.
  destruct (stage_key p env domain name new s w4) as [[staged|e] w5] eqn:Eg; cbn [snd] in Hst.
  - destruct (stage_key_ok p env domain name new content sealed0 pubk priv w4 s staged w5 Hb4 Hs Eg)
      as (-> & enc & HT & Hen).
    exact (change_end p env domain name new content sealed0 pubk priv w5 enc Hst HT Hen).
  - destruct Hst. by apply unchanged.
Qed.

(** ** Names that pass validation are names the files can hold *)
Lemma sforall_and (f g : ascii → bool) s :
  sforall f s = true → sforall g s = true → sforall (λ c, f c && g c) s = true.
Proof.
  induction s as [|c s IH]; [done|]. cbn. intros [-> Hf]%andb_prop [-> Hg]%andb_prop. by rewrite IH.
Qed.

Lemma name_byte_facts c :
  name_byte c = true →
  plain_byte c = true ∧ printable_byte c = true ∧ c ≠ ":"%char ∧ c ≠ slash ∧ c ≠ "#"%char.
Proof.
  destruct c as [[] [] [] [] [] [] [] []]; vm_compute; intros E;
    first [discriminate E|split_and!; (reflexivity || discriminate)].
Qed.

Lemma valid_username name :
  ValidUsername name = true → login name ∧ key_text name ∧ plain_elem name.
Proof.
  unfold ValidUsername. destruct (decide (name = "")) as [|Hne]; [done|].
  destruct (Contains name "..") eqn:Hdd; [done|]. destruct (_ || _); [done|].
  destruct name as [|c s]; [done|]. intros [[Hc Hs]%andb_prop _]%andb_prop.
  assert (sforall name_byte (String c s) = true) as Hall.
  { cbn. rewrite Hs, andb_true_r. unfold name_byte. by rewrite Hc. }
  assert (∀ q : ascii → bool, (∀ d, name_byte d = true → q d = true) →
    sforall q (String c s) = true) as Hq by (intros q Hq; by eapply sforall_impl).
  assert (c ≠ "."%char ∧ c ≠ "#"%char) as [Hdot Hhash].
  { split; intros ->; discriminate Hc. }
  split_and!.
  - split_and!; [split| |].
    + apply Hq. intros d Hd. by apply name_byte_facts.
    + by eapply sforall_no_byte, Hall.
    + done.
    + unfold HasPrefix. cbn [String.prefix]. by destruct (ascii_dec "#" c); [congruence|].
  - apply Hq. intros d Hd. by apply name_byte_facts.
  - split_and!; [by eapply sforall_no_byte, Hall|done|..]; intros E; injection E; congruence.
Qed.

(** ** Creating a user *)
Section Create.
Context `{Crypto, KeyringJson, UnicodeQuote, Toml, !CryptoLaws, !TomlLaws}.

Lemma changes_lockFile S q : S q → changes S (lockFile q).
Proof. intros Hq. unfold lockFile. auto with changes. Qed.
Lemma changes_loadMap S q : changes S (loadMap q).
Proof.
  unfold loadMap. apply changes_bind; [auto with changes|]. intros [s|]; [|auto with changes].
  destruct (Unmarshal s); auto with changes.
Qed.
Lemma changes_replace_file {E} S (e1 e2 e3 e4 e5 : E) b tmp q c :
  S tmp → S q → changes S (replace_file e1 e2 e3 e4 e5 b tmp q c).
Proof.
  intros Ht Hq. unfold replace_file. apply changes_bind; [auto with changes|intros _].
  apply changes_on_error; [|by intros; apply (changes_remove S)].
  apply changes_bind; [auto with changes|intros _]. apply changes_bind; [destruct b; auto with changes|intros _].
  auto with changes.
Qed.
Lemma changes_storeMap S q h m : S q → S (q +:+ ".tmp") → changes S (storeMap q h m).
Proof.
  intros H1' H2'. unfold storeMap. apply changes_bind; [auto with changes|intros _].
  by apply changes_replace_file.
Qed.
Lemma changes_allocateID S data : S (Join [data; counterFile]) → changes S (allocateID data).
Proof.
  intros Hc. unfold allocateID, truncate. repeat (apply changes_bind; [|intros ?]); auto with changes.
  - intros w q _. unfold read_counter. pose proof (disk_files w) as Hs.
    destruct (sys w) as [[|n] w1]; cbn in *; by rewrite Hs.
  - unfold parse_counter. destruct (decide _); [auto with changes|].
    destruct (ParseUint _ _); auto with changes.
  - by apply changes_open_trunc.
Qed.
Lemma changes_allocate_in S q h e data k :
  S q → S (q +:+ ".tmp") → S (q +:+ ".lock") → S (Join [data; counterFile]) →
  changes S (allocate_in q h e data k).
Proof.
  intros H1' H2' H3' H4'. unfold allocate_in. apply changes_bind; [by apply changes_lockFile|intros _].
  apply changes_bind; [apply changes_loadMap|intros cur].
  destruct (cur !! k); [auto with changes|]. apply changes_bind; [by apply changes_allocateID|intros id].
  apply changes_bind; [by apply changes_storeMap|auto with changes].
Qed.

Lemma Rep_frame m fs fs' r :
  Rep m fs r → (∀ q, map_path (Config m) q → fs' !! q = fs !! q) →
  fs' !! Join [Data m; counterFile] = fs !! Join [Data m; counterFile] → Rep m fs' r.
Proof.
  intros [Hc Hr Hm] Hq Hcq. split; [by rewrite (counter_of_ext _ _ _ Hcq)|done|].
  intros q Hp. destruct (Hm q Hp) as (mp & Hl & ?). exists mp. split; [|done].
  by rewrite (loaded_ext _ _ _ (Hq q Hp)).
Qed.

Context (p : Paths) (env : Env) (domain name pw salt h : string) (ls : list string).

Lemma passwd_end : slast 3 (passwd_path p domain) = "swd" ∧ slast 1 (passwd_path p domain) = "d".
Proof.
  unfold passwd_path.
  split; (rewrite (Join_slast _ [PConfig p; domain] "passwd"); [done|by apply plain_elem_intro|cbn; lia]).
Qed.
Lemma lock_end : slast 3 (Join [PConfig p; domain; ".lock"]) = "ock".
Proof. apply (Join_slast 3 [PConfig p; domain] ".lock"); [by apply plain_elem_intro|cbn; lia]. Qed.
Lemma map_path_end1 q : map_path (PConfig p) q → slast 1 q = "l".
Proof.
  intros [->|[d ->]]; [apply (Join_slast 1 [PConfig p] GIDMapFile)
                      |apply (Join_slast 1 [PConfig p; d] UIDMapFile)];
    try by apply plain_elem_intro.
  all: unfold GIDMapFile, UIDMapFile; cbn; lia.
Qed.
Lemma counter_end1 : slast 1 (Join [PData p; counterFile]) = "r".
Proof. apply (Join_slast 1 [PData p] counterFile); [by apply plain_elem_intro|unfold counterFile; cbn; lia]. Qed.
Lemma dir_end d : slast 1 (d +:+ "/") = "/".
Proof. by rewrite slast_app by (cbn; lia). Qed.

(** Paths with different ends. *)
Ltac far n := intros Efar; apply (f_equal (slast n)) in Efar;
  rewrite ?(proj1 passwd_end), ?(proj2 passwd_end), ?lock_end, ?tmp_path_end, ?lock_path_end,
    ?counter_path_end, ?counter_end1, ?dir_end in Efar;
  repeat match goal with
  | Hp : map_path _ _ |- _ => first [rewrite (map_path_end _ _ Hp) in Efar
                                    |rewrite (map_path_end1 _ Hp) in Efar]; clear Hp
  end; discriminate Efar.

(** What the administrator finds afterwards: the registry has the new id, the
    file the new entry. *)
Lemma create_files fs r :
  Rep (idMgr p) fs r → recs r !! (uidMapPath (PConfig p) domain, name) = None →
  file_lines fs (passwd_path p domain) ls → login name → key_text name →
  name ∉ username <$> entries_of ls →
  HashPassword (Some salt) pw = Ok h → too_long (user_line name h) = false →
  let id := skip_band (counter r) in
  let r' := mkRegistry (wrap_uint32 (id + 1))
              (<[(uidMapPath (PConfig p) domain, name) := id]> (recs r)) in
  ∃ fs2 fs3,
    AllocateUserUID (idMgr p) domain name (mkFolder fs []) = (Ok (id, None), mkFolder fs2 []) ∧
    AddUser (Some salt) (passwd_path p domain) name pw (mkFolder fs2 []) = (Ok (), mkFolder fs3 []) ∧
    Rep (idMgr p) fs3 r' ∧ file_lines fs3 (passwd_path p domain) (ls ++ [user_line name h]) ∧
    entries_of (ls ++ [user_line name h]) = entries_of ls ++ [mkUser name h name 0].
Proof.
  intros HR Hrec Hf Hn Hkt Hne Hh Hlen.
  set (mp := uidMapPath (PConfig p) domain) in *.
  assert (map_path (Config (idMgr p)) mp) as Hmp by (right; by exists domain).
  pose proof (allocate_refines (idMgr p) mp uidMapHeader Hmp uid_header_text ErrUIDExists name fs r HR Hkt) as HA.
  unfold reg_alloc in HA. rewrite Hrec in HA. destruct HA as (fs2 & HA & HR2).
  assert (∀ q, q ≠ mp → q ≠ mp +:+ ".tmp" → q ≠ mp +:+ ".lock" → q ≠ Join [PData p; counterFile] →
    fs2 !! q = fs !! q) as Hq2.
  { intros q Q1 Q2 Q3 Q4.
    pose proof (changes_allocate_in (λ q, q = mp ∨ q = mp +:+ ".tmp" ∨ q = mp +:+ ".lock" ∨
      q = Join [PData p; counterFile]) mp uidMapHeader ErrUIDExists (PData p) name) as Hc.
    specialize (Hc ltac:(cbv beta; tauto) ltac:(cbv beta; tauto) ltac:(cbv beta; tauto)
      ltac:(cbv beta; tauto) (mkFolder fs []) q).
    change (Data (idMgr p)) with (PData p) in HA. rewrite HA in Hc. cbn [snd files] in Hc.
    apply Hc. tauto. }
  assert (fs2 !! passwd_path p domain = fs !! passwd_path p domain) as HP.
  { change (Config (idMgr p)) with (PConfig p) in Hmp. apply Hq2; [far 3%nat|far 3%nat|far 3%nat|far 3%nat]. }
  assert (file_lines fs2 (passwd_path p domain) ls) as Hf2.
  { destruct Hf as [Hraw Hf]. split; [done|]. by rewrite HP. }
  destruct (AddUser_quiet (passwd_path p domain) name salt pw h ls fs2 Hf2 Hn Hne Hh Hlen)
    as (fs3 & HU & Hf3 & He & Hq3).
  exists fs2, fs3. split_and!; [exact HA|exact HU| |exact Hf3|exact He].
  eapply Rep_frame; [exact HR2| |].
  - intros q Hq. change (Config (idMgr p)) with (PConfig p) in Hq. apply Hq3. far 3%nat.
  - apply Hq3. change (Data (idMgr p)) with (PData p). far 3%nat.
Qed.

(** Making the user's directory changes no other file; a missing gid is a warning. *)
Lemma provision_quiet fs r :
  Rep (idMgr p) fs r →
  ∃ x fs', provisionUserDataDir p domain name (mkFolder fs []) = (x, mkFolder fs' []) ∧
    ∀ q, q ≠ userKeyringDir p domain name +:+ "/" → fs' !! q = fs !! q.
Proof.
  intros HR. unfold provisionUserDataDir, as_id, DomainGID, bind.
  destruct (rep_maps _ _ _ HR (gidMapPath (PConfig p))) as (gm & Hl & _); [by left|].
  rewrite (loadMap_quiet _ _ _ Hl). destruct (gm !! domain).
  - eexists _, _. split; [done|]. intros q Hq. cbn. by rewrite lookup_insert_ne.
  - by eexists _, _.
Qed.

(** The run of [CreateUser], given the states it goes through. *)
Lemma create_run fs fs1 fs2 fs3 fs4 uid x :
  ValidDomainName domain = true → ValidUsername name = true → ValidPassword pw = true →
  fs !! (Join [PConfig p; domain] +:+ "/") = Some "" → env_salt env = Some salt →
  fs1 = created (Join [PConfig p; domain; ".lock"]) fs →
  file_lines fs1 (passwd_path p domain) ls → name ∉ username <$> entries_of ls →
  AllocateUserUID (idMgr p) domain name (mkFolder fs1 []) = (Ok (uid, None), mkFolder fs2 []) →
  AddUser (Some salt) (passwd_path p domain) name pw (mkFolder fs2 []) = (Ok (), mkFolder fs3 []) →
  provisionUserDataDir p domain name (mkFolder fs3 []) = (x, mkFolder fs4 []) →
  ∃ ws, CreateUser p env false domain name pw false (mkFolder fs []) =
    (Ok (mkCreated uid false ws), mkFolder fs4 []).
Proof.
  intros HD HU HP Hdir Hsalt E1 Hf1 Hne HA HB HV. eexists. unfold CreateUser, guard. rewrite HD, HU, HP.
  erewrite (bind_eq _ _ _ ()) by done. erewrite (bind_eq _ _ _ ()) by done.
  erewrite (bind_eq _ _ _ ()) by done.
  erewrite (bind_eq _ _ _ () (mkFolder fs [])).
  2:{ unfold need_domain, DomainExists, fileExists, bind. rewrite sys_no_fault.
      cbn [files]. by rewrite Hdir. }
  erewrite (bind_eq _ _ _ () (mkFolder fs1 [])); [|by subst fs1].
  erewrite (bind_eq _ _ _ false (mkFolder fs1 [])).
  2:{ unfold userExists. rewrite (parsePasswd_quiet _ _ _ Hf1). by rewrite bool_decide_false. }
  cbv iota. erewrite (bind_eq _ _ _ (uid, None) (mkFolder fs2 [])).
  2:{ unfold as_id. by rewrite HA. }
  cbv iota beta. rewrite Hsalt, HB, HV. reflexivity.
Qed.

(** Creating a user on an existing domain
    succeeds and gives what the rest of the system needs: the uid that was
    allocated is the one the daemons read, it is in the allocatable range, the
    agent opened on the passwd file knows the user, and the password verifies. *)
Lemma created_user_usable fs r :
  Rep (idMgr p) fs r → AllocatorFloor <= counter r →
  recs r !! (uidMapPath (PConfig p) domain, name) = None →
  file_lines fs (passwd_path p domain) ls → name ∉ username <$> entries_of ls →
  ValidDomainName domain = true → ValidUsername name = true → ValidPassword pw = true →
  fs !! (Join [PConfig p; domain] +:+ "/") = Some "" → env_salt env = Some salt →
  HashPassword (Some salt) pw = Ok h → too_long (user_line name h) = false →
  ∃ fs' ws a, CreateUser p env false domain name pw false (mkFolder fs []) =
      (Ok (mkCreated (skip_band (counter r)) false ws), mkFolder fs' []) ∧
    (UserUID (PConfig p) domain name (mkFolder fs' [])).1 = Ok (skip_band (counter r)) ∧
    Allocatable (skip_band (counter r)) = true ∧
    NewAgent (passwd_path p domain) "" (mkFolder fs' []) = (Ok a, mkFolder fs' []) ∧
    users a = <[name := mkUser name h name 0]> (by_name (entries_of ls)) ∧
    verifyPassword pw h = (Some true, [canonical_cost]).
Proof.
  intros HR Hfl Hrec Hf Hne HD HU HP Hdir Hsalt Hh Hlen.
  destruct (valid_username name HU) as (Hlogin & Hkt & _).
  set (fs1 := created (Join [PConfig p; domain; ".lock"]) fs).
  assert (∀ q, q ≠ Join [PConfig p; domain; ".lock"] → fs1 !! q = fs !! q) as Hq1
    by (intros q Hq; by apply created_ne).
  assert (Rep (idMgr p) fs1 r) as HR1.
  { eapply Rep_frame; [exact HR| |].
    - intros q Hq. change (Config (idMgr p)) with (PConfig p) in Hq. apply Hq1. far 3%nat.
    - apply Hq1. change (Data (idMgr p)) with (PData p). far 3%nat. }
  assert (file_lines fs1 (passwd_path p domain) ls) as Hf1.
  { destruct Hf as [Hraw Hf]. split; [done|]. rewrite Hq1; [done|far 3%nat]. }
  destruct (create_files fs1 r HR1 Hrec Hf1 Hlogin Hkt Hne Hh Hlen)
    as (fs2 & fs3 & HA & HB & HR3 & Hf3 & He3).
  set (r' := mkRegistry _ _) in HR3.
  destruct (provision_quiet fs3 r' HR3) as (x & fs4 & HV & Hq4).
  assert (Rep (idMgr p) fs4 r') as HR4.
  { eapply Rep_frame; [exact HR3| |].
    - intros q Hq. change (Config (idMgr p)) with (PConfig p) in Hq. apply Hq4. far 1%nat.
    - apply Hq4. change (Data (idMgr p)) with (PData p). far 1%nat. }
  assert (file_lines fs4 (passwd_path p domain) (ls ++ [user_line name h])) as Hf4.
  { destruct Hf3 as [Hraw Hf3]. split; [done|]. rewrite Hq4; [done|far 1%nat]. }
  destruct (create_run fs fs1 fs2 fs3 fs4 _ x HD HU HP Hdir Hsalt eq_refl Hf1 Hne HA HB HV) as [ws HC].
  eexists fs4, ws, _. split_and!.
  - exact HC.
  - unfold UserUID, bind. destruct (rep_maps _ _ _ HR4 (uidMapPath (PConfig p) domain)) as (um & Hl & _ & Hk);
      [right; by exists domain|].
    rewrite (loadMap_quiet _ _ _ Hl). rewrite Hk. cbn [recs r']. by rewrite lookup_insert_eq.
  - by apply skip_band_spec.
  - by apply NewAgent_quiet.
  - cbn [users]. rewrite He3. by rewrite by_name_snoc.
  - destruct (HashPassword_ok _ _ _ Hh) as (k & Hd & Hl & ->).
    destruct (verify_hash pw (fit saltSize salt) k Hl) as (d & Hd' & ->).
    by rewrite bool_decide_true by congruence.
Qed.
End Create.

Section AdminWitnesses.
Import Toy Decoder.

Definition aPaths : Paths := mkPaths "/c" "/d".
Definition aEnv : Env := mkEnv (Some "salt") [] 0 false "".
Definition a_hash (pw : string) : string :=
  match HashPassword (Some "salt") pw with Ok h => h | Err _ => "" end.
Definition a_line : string := "alice:" +:+ a_hash "oldpasswd" +:+ ":alice".
Definition a_priv : string := fit 32 "private".
Definition a_seal (pw : string) : string :=
  match (Seal 0 a_priv pw []).1 with Ok s => s | Err _ => "" end.
Definition a_base : gmap string string :=
  {[ "/c/ex.org/" := ""; "/c/ex.org/passwd" := a_line +:+ String LF "" ]}.
Definition a_fs : gmap string string :=
  <["/d/ex.org/users/alice/keyring.key" := a_seal "oldpasswd"]>
  (<["/d/ex.org/users/alice/keyring.pub" := "pub"]> a_base).
Definition a_pub_path : string := "/d/ex.org/users/alice/keyring.pub".
Definition a_key_path : string := "/d/ex.org/users/alice/keyring.key".
Definition key_opens (w : folder) (pw : string) : bool :=
  match files w !! a_key_path with Some s => is_ok (Open s pw) | None => false end.

Lemma a_seal_opens : Open (a_seal "oldpasswd") "oldpasswd" = Ok a_priv.
Proof. vm_compute. reflexivity. Qed.

(** A run without faults, and one whose final rename fails. *)
Lemma password_change_atomic_witness :
  is_ok (ChangePassword aPaths aEnv "ex.org" "alice" "oldpasswd" "newpasswd" (mkFolder a_fs [])).1 = true ∧
  let '(r, w') := ChangePassword aPaths aEnv "ex.org" "alice" "oldpasswd" "newpasswd"
                    (mkFolder a_fs (replicate 18 Done ++ [Fault 0])) in
  outcome aPaths aEnv "ex.org" "alice" "newpasswd" (a_line +:+ String LF "") (a_seal "oldpasswd")
    a_priv r w'.
Proof.
  split; [vm_compute; reflexivity|].
  apply (password_change_atomic aPaths aEnv "ex.org" "alice" "oldpasswd" "newpasswd"
    (a_line +:+ String LF "") (a_seal "oldpasswd") "pub" a_priv).
  - split; vm_compute; reflexivity.
  - exact a_seal_opens.
Defined.

Definition b_env : Env := mkEnv (Some "salt") [] 0 false "".
Definition b_fs : gmap string string := a_base.
Definition b_reg : registry := mkRegistry firstID ∅.
Lemma b_rep : Rep (idMgr aPaths) b_fs b_reg.
Proof.
  eapply Rep_frame; [apply (Rep_init (idMgr aPaths))| |].
  - intros q Hq. rewrite lookup_empty. unfold b_fs, a_base.
    rewrite lookup_insert_ne, lookup_singleton_ne; [done|..]; intros <-;
      apply map_path_end in Hq; vm_compute in Hq; discriminate Hq.
  - vm_compute. reflexivity.
Qed.
Lemma b_lines : file_lines b_fs (passwd_path aPaths "ex.org") [a_line].
Proof.
  split; [apply (bool_decide_unpack _); vm_compute; exact I|left; vm_compute; reflexivity].
Qed.

Lemma created_user_usable_example :
  ∃ fs' ws a, CreateUser aPaths b_env false "ex.org" "bob" "bobspassword" false (mkFolder b_fs []) =
      (Ok (mkCreated 10000 false ws), mkFolder fs' []) ∧
    (UserUID "/c" "ex.org" "bob" (mkFolder fs' [])).1 = Ok 10000 ∧ Allocatable 10000 = true ∧
    NewAgent (passwd_path aPaths "ex.org") "" (mkFolder fs' []) = (Ok a, mkFolder fs' []) ∧
    users a = <["bob" := mkUser "bob" (a_hash "bobspassword") "bob" 0]> (by_name (entries_of [a_line])) ∧
    verifyPassword "bobspassword" (a_hash "bobspassword") = (Some true, [canonical_cost]).
Proof.
  apply (created_user_usable aPaths b_env "ex.org" "bob" "bobspassword" "salt"
    (a_hash "bobspassword") [a_line] b_fs b_reg b_rep); try (vm_compute; reflexivity).
  - vm_compute. discriminate.
  - exact b_lines.
  - apply (bool_decide_unpack (¬ _)). vm_compute. exact I.
Defined.

(** ** What else the operations do *)
(** A user may be called [domain], and deleting that user deletes the keypair
    of the domain itself. *)
Lemma user_named_domain :
  let fs := <["/c/ex.org/keys/domain.key" := "sealed"]>
            (<["/c/ex.org/passwd" := "domain:x:domain" +:+ String LF ""]> a_base) in
  let '(r, w) := AdminDeleteUser aPaths "ex.org" "domain" (mkFolder fs []) in
  ValidUsername "domain" = true ∧ r = Ok () ∧ files w !! "/c/ex.org/keys/domain.key" = None.
Proof. vm_compute. by split_and!. Qed.

(** The public key is replaced before the private one: when the second write
    fails, mail is encrypted to a key nobody has. *)
Lemma keypair_torn :
  let '(r, w) := CreateUserKeys aPaths (mkEnv (Some "salt") [Some "fresh"] 0 false "") "ex.org" "alice" "oldpasswd"
                   (mkFolder a_fs (replicate 9 Done ++ [Fault 0])) in
  is_ok r = false ∧ files w !! a_pub_path = Some (fit 32 "fresh") ∧
  match files w !! a_key_path with Some s => is_ok (Open s "oldpasswd") = false | None => True end.
Proof. vm_compute. by split_and!. Qed.

(** A transient failure to examine the keyring, with a legacy key file still
    present: the change reports success, but the keyring in use stays sealed
    under the old password. *)
Lemma change_reseals_wrong_file :
  let fs := <["/c/ex.org/keys/alice.key" := a_seal "oldpasswd"]> a_fs in
  let '(r, w) := ChangePassword aPaths aEnv "ex.org" "alice" "oldpasswd" "newpasswd"
                   (mkFolder fs (replicate 9 Done ++ [Fault 0])) in
  r = Ok () ∧ key_opens w "newpasswd" = false ∧ key_opens w "oldpasswd" = true ∧
  (auth_session aPaths aEnv "ex.org" "alice" "newpasswd" w).1 =
    Err (EAuth "current password verification failed" ErrKeyDecryptFailed).
Proof. vm_compute. by split_and!. Qed.
End AdminWitnesses.
