(* ===== verification/OidcStore.v ===== *)
(** * The state of the OpenID provider

    Model of [src/internal/auth/authoidc/store.go] and [sqlitestore.go]: pending
    authorization codes, browser sessions, registered clients and the metadata
    of signing keys. The interface [Store] is a class; its two implementations
    are the maps in memory and the SQLite tables. A statement of SQLite may fail,
    and a failure may be reported for a statement that took effect. Both
    implementations are shown to refine one abstract state, [view], so that the
    server's theorems hold for either. *)
From S2P Require Import Prelude GoStrings.
From Stdlib Require Import ZArith Lia Ascii.
Open Scope string_scope.
Open Scope list_scope.
Open Scope Z_scope.

(** ** Times: nanoseconds since the epoch *)
Definition second : Z := 10 ^ 9.
(** [time.Time{}]: the first day of year 1 *)
Definition zero_time : Z := -62135596800 * second.
Definition IsZero (t : Z) : bool := bool_decide (t = zero_time).
Definition Unix (t : Z) : Z := t / second.
Definition time_Unix (s : Z) : Z := s * second.

(** ** The records *)
Record authCode := mkCode {
  ac_Code : string; ac_Domain : string; ac_ClientID : string; ac_Username : string;
  ac_RedirectURI : string; PKCEChallenge : string; PKCEMethod : string;
  ac_Nonce : string; ac_ExpiresAt : Z;
}.
Record ssoSession := mkSso {
  ss_ID : string; ss_Domain : string; ss_Username : string; ss_ExpiresAt : Z;
}.
Record registeredClient := mkClient {
  rc_ClientID : string; rc_Domain : string; ClientName : string;
  rc_RedirectURIs : list string; RegisteredAt : Z;
}.
Definition keyStateCurrent : string := "current".
Definition keyStateRetiring : string := "retiring".
Definition AlgRS256 : string := "RS256".
Definition AlgES256 : string := "ES256".
Definition AlgEdDSA : string := "EdDSA".
Record signingKeyRecord := mkKey {
  sk_Domain : string; KID : string; sk_Algorithm : string; State : string;
  CreatedAt : Z; RetiredAt : Z; sk_ExpiresAt : Z;
}.
#[export] Instance authCode_eq_dec : EqDecision authCode.
Proof. solve_decision. Defined.
#[export] Instance ssoSession_eq_dec : EqDecision ssoSession.
Proof. solve_decision. Defined.
#[export] Instance registeredClient_eq_dec : EqDecision registeredClient.
Proof. solve_decision. Defined.
#[export] Instance signingKeyRecord_eq_dec : EqDecision signingKeyRecord.
Proof. solve_decision. Defined.

Inductive storeErr := ErrNotFound | ErrExpired | ErrStore.
#[export] Instance storeErr_eq_dec : EqDecision storeErr.
Proof. solve_decision. Defined.

Definition is_current (r : signingKeyRecord) : bool := bool_decide (State r = keyStateCurrent).
(** [State == retiring && !ExpiresAt.IsZero() && !now.Before(ExpiresAt)] *)
Definition lapsed (now : Z) (r : signingKeyRecord) : bool :=
  bool_decide (State r = keyStateRetiring) && negb (IsZero (sk_ExpiresAt r))
    && negb (now <? sk_ExpiresAt r).
Definition retire (at_ expires : Z) (r : signingKeyRecord) : signingKeyRecord :=
  mkKey (sk_Domain r) (KID r) (sk_Algorithm r) keyStateRetiring (CreatedAt r) at_ expires.

(** ** The interface

    An operation that reads the clock gets the reading as [now]. *)
Class Store (S : Type) := {
  StoreCode : authCode → S → S;
  ConsumeCode : Z → string → S → result authCode storeErr * S;
  StoreSession : ssoSession → S → S;
  LookupSession : Z → string → S → option ssoSession * S;
  DeleteSession : string → S → S;
  RegisterClient : registeredClient → S → S;
  LookupClient : string → string → S → option registeredClient * S;
  SweepExpired : Z → S → result unit storeErr * S;
  ListSigningKeys : string → S → result (list signingKeyRecord) storeErr * S;
  InsertSigningKey : signingKeyRecord → S → result unit storeErr * S;
  RotateSigningKey : Z → string → signingKeyRecord → Z → S → result unit storeErr * S;
  RevokeSigningKey : Z → string → string → S → result unit storeErr * S;
  SweepExpiredSigningKeys : Z → S → result (list signingKeyRecord) storeErr * S;
}.

(** ** In memory *)
Module Mem.
Record ephemeralStore := mkMem {
  codes : gmap string authCode;
  sessions : gmap string ssoSession;
  clients : gmap string registeredClient;
  signingKeys : gmap string signingKeyRecord;
}.
Definition newEphemeralStore : ephemeralStore := mkMem ∅ ∅ ∅ ∅.

(** [domain + "\x00" + id] *)
Definition key (d id : string) : string := d +:+ String NUL id.

Definition set_codes f s := mkMem (f (codes s)) (sessions s) (clients s) (signingKeys s).
Definition set_sessions f s := mkMem (codes s) (f (sessions s)) (clients s) (signingKeys s).
Definition set_clients f s := mkMem (codes s) (sessions s) (f (clients s)) (signingKeys s).
Definition set_keys f s := mkMem (codes s) (sessions s) (clients s) (f (signingKeys s)).

Definition mem_StoreCode (c : authCode) : ephemeralStore → ephemeralStore :=
  set_codes (insert (ac_Code c) c).
Definition mem_ConsumeCode (now : Z) (code : string) (s : ephemeralStore)
  : result authCode storeErr * ephemeralStore :=
  match codes s !! code with
  | None => (Err ErrNotFound, s)
  | Some c =>
      let s := set_codes (delete code) s in
      if ac_ExpiresAt c <? now then (Err ErrExpired, s) else (Ok c, s)
  end.
Definition mem_StoreSession (x : ssoSession) : ephemeralStore → ephemeralStore :=
  set_sessions (insert (ss_ID x) x).
Definition mem_LookupSession (now : Z) (id : string) (s : ephemeralStore)
  : option ssoSession * ephemeralStore :=
  match sessions s !! id with
  | None => (None, s)
  | Some x =>
      if ss_ExpiresAt x <? now then (None, set_sessions (delete id) s) else (Some x, s)
  end.
Definition mem_DeleteSession (id : string) : ephemeralStore → ephemeralStore :=
  set_sessions (delete id).
Definition mem_RegisterClient (c : registeredClient) : ephemeralStore → ephemeralStore :=
  set_clients (insert (key (rc_Domain c) (rc_ClientID c)) c).
Definition mem_LookupClient (d id : string) (s : ephemeralStore)
  : option registeredClient * ephemeralStore := (clients s !! key d id, s).
Definition mem_SweepExpired (now : Z) (s : ephemeralStore) : result unit storeErr * ephemeralStore :=
  (Ok (), set_sessions (filter (λ '(_, x), now < ss_ExpiresAt x))
            (set_codes (filter (λ '(_, c), now < ac_ExpiresAt c)) s)).

(** The values of a map; Go visits them in any order. *)
Definition values {A} (m : gmap string A) : list A := (map_to_list m).*2.

Definition mem_ListSigningKeys (d : string) (s : ephemeralStore)
  : result (list signingKeyRecord) storeErr * ephemeralStore :=
  (Ok (filter (λ r, sk_Domain r = d) (values (signingKeys s))), s).
Definition has_current (d : string) (s : ephemeralStore) : bool :=
  existsb (λ r, bool_decide (sk_Domain r = d) && is_current r) (values (signingKeys s)).
Definition mem_InsertSigningKey (rec : signingKeyRecord) (s : ephemeralStore)
  : result unit storeErr * ephemeralStore :=
  if has_current (sk_Domain rec) s then (Err ErrStore, s)
  else (Ok (), set_keys (insert (key (sk_Domain rec) (KID rec)) rec) s).
Definition mem_RotateSigningKey (now : Z) (d : string) (newKey : signingKeyRecord) (retention : Z)
  (s : ephemeralStore) : result unit storeErr * ephemeralStore :=
  match signingKeys s !! key d (KID newKey) with
  | Some _ => (Err ErrStore, s)
  | None =>
      (Ok (), set_keys (λ m, <[key d (KID newKey) := newKey]>
                ((λ r, if bool_decide (sk_Domain r = d) && is_current r
                       then retire now (now + retention) r else r) <$> m)) s)
  end.
Definition mem_RevokeSigningKey (now : Z) (d kid : string) (s : ephemeralStore)
  : result unit storeErr * ephemeralStore :=
  match signingKeys s !! key d kid with
  | None => (Err ErrStore, s)
  | Some r => (Ok (), set_keys (insert (key d kid) (retire now (time_Unix 1) r)) s)
  end.
Definition mem_SweepExpiredSigningKeys (now : Z) (s : ephemeralStore)
  : result (list signingKeyRecord) storeErr * ephemeralStore :=
  (Ok (filter (λ r, lapsed now r = true) (values (signingKeys s))),
   set_keys (filter (λ '(_, r), lapsed now r = false)) s).

#[export] Instance mem_Store : Store ephemeralStore := {
  StoreCode := mem_StoreCode; ConsumeCode := mem_ConsumeCode;
  StoreSession := mem_StoreSession; LookupSession := mem_LookupSession;
  DeleteSession := mem_DeleteSession; RegisterClient := mem_RegisterClient;
  LookupClient := mem_LookupClient; SweepExpired := mem_SweepExpired;
  ListSigningKeys := mem_ListSigningKeys; InsertSigningKey := mem_InsertSigningKey;
  RotateSigningKey := mem_RotateSigningKey; RevokeSigningKey := mem_RevokeSigningKey;
  SweepExpiredSigningKeys := mem_SweepExpiredSigningKeys;
}.
End Mem.

(** ** SQLite

    [json.Marshal] and [json.Unmarshal] of a list of strings. *)
Class JsonStrings := {
  marshal_strings : list string → string;
  unmarshal_strings : string → option (list string);
}.

Module Sql.
(** Rows hold whole seconds; [NULL] is [None]. *)
Record keyRow := mkRow {
  r_algorithm : string; r_state : string; created_at : Z;
  retired_at : option Z; expires_at : option Z;
}.
(** The outcome of a statement: it runs; it fails without effect; it takes
    effect and is reported as failed. *)
Inductive outcome := Runs | Lost | Reported.
Record db := mkDb {
  t_codes : gmap string authCode;
  t_sessions : gmap string ssoSession;
  t_clients : gmap (string * string) (string * string * Z);
  t_keys : gmap (string * string) keyRow;
  outcomes : list outcome;
}.
Definition open_db (os : list outcome) : db := mkDb ∅ ∅ ∅ ∅ os.

Definition set_codes f s := mkDb (f (t_codes s)) (t_sessions s) (t_clients s) (t_keys s) (outcomes s).
Definition set_sessions f s := mkDb (t_codes s) (f (t_sessions s)) (t_clients s) (t_keys s) (outcomes s).
Definition set_clients f s := mkDb (t_codes s) (t_sessions s) (f (t_clients s)) (t_keys s) (outcomes s).
Definition set_keys f s := mkDb (t_codes s) (t_sessions s) (t_clients s) (f (t_keys s)) (outcomes s).

Definition next (s : db) : outcome * db :=
  match outcomes s with
  | [] => (Runs, s)
  | o :: os => (o, mkDb (t_codes s) (t_sessions s) (t_clients s) (t_keys s) os)
  end.
(** [db.Exec] of a statement that violates no constraint: whether an error is
    reported, and the tables. *)
Definition exec (f : db → db) (s : db) : bool * db :=
  match next s with
  | (Runs, s) => (true, f s)
  | (Lost, s) => (false, s)
  | (Reported, s) => (false, f s)
  end.

Definition cut_code (c : authCode) : authCode :=
  mkCode (ac_Code c) (ac_Domain c) (ac_ClientID c) (ac_Username c) (ac_RedirectURI c)
    (PKCEChallenge c) (PKCEMethod c) (ac_Nonce c) (time_Unix (Unix (ac_ExpiresAt c))).
Definition cut_session (x : ssoSession) : ssoSession :=
  mkSso (ss_ID x) (ss_Domain x) (ss_Username x) (time_Unix (Unix (ss_ExpiresAt x))).

Definition sql_StoreCode (c : authCode) (s : db) : db :=
  (exec (set_codes (insert (ac_Code c) (cut_code c))) s).2.
(** [DELETE ... RETURNING]: one statement *)
Definition sql_ConsumeCode (now : Z) (code : string) (s : db) : result authCode storeErr * db :=
  let '(ok, s') := exec (set_codes (delete code)) s in
  if ok then
    match t_codes s !! code with
    | None => (Err ErrNotFound, s')
    | Some c => if ac_ExpiresAt c <? now then (Err ErrExpired, s') else (Ok c, s')
    end
  else (Err ErrStore, s').
Definition sql_StoreSession (x : ssoSession) (s : db) : db :=
  (exec (set_sessions (insert (ss_ID x) (cut_session x))) s).2.
Definition sql_DeleteSession (id : string) (s : db) : db :=
  (exec (set_sessions (delete id)) s).2.
Definition sql_LookupSession (now : Z) (id : string) (s : db) : option ssoSession * db :=
  let '(ok, s) := exec (λ s, s) s in
  if ok : bool then
    match t_sessions s !! id with
    | None => (None, s)
    | Some x => if ss_ExpiresAt x <? now then (None, sql_DeleteSession id s) else (Some x, s)
    end
  else (None, s).

Section Clients.
Context `{JsonStrings}.
Definition sql_RegisterClient (c : registeredClient) (s : db) : db :=
  (exec (set_clients (insert (rc_Domain c, rc_ClientID c)
           (ClientName c, marshal_strings (rc_RedirectURIs c), Unix (RegisteredAt c)))) s).2.
Definition decode_client (d id : string) (row : string * string * Z) : option registeredClient :=
  let '(name, uris, at_) := row in
  l ← unmarshal_strings uris; Some (mkClient id d name l (time_Unix at_)).
Definition sql_LookupClient (d id : string) (s : db) : option registeredClient * db :=
  let '(ok, s) := exec (λ s, s) s in
  if ok : bool then (t_clients s !! (d, id) ≫= decode_client d id, s) else (None, s).
End Clients.

Definition sql_SweepExpired (now : Z) (s : db) : result unit storeErr * db :=
  let cutoff := Unix now in
  let '(ok, s) := exec (set_codes (filter (λ '(_, c), cutoff < Unix (ac_ExpiresAt c)))) s in
  if ok : bool then
    let '(ok, s) := exec (set_sessions (filter (λ '(_, x), cutoff < Unix (ss_ExpiresAt x)))) s in
    if ok : bool then (Ok (), s) else (Err ErrStore, s)
  else (Err ErrStore, s).

Definition scanSigningKey (p : string * string) (r : keyRow) : signingKeyRecord :=
  mkKey p.1 p.2 (r_algorithm r) (r_state r) (time_Unix (created_at r))
    (from_option time_Unix zero_time (retired_at r))
    (from_option time_Unix zero_time (expires_at r)).
Definition rows (s : db) : list signingKeyRecord :=
  (λ '(p, r), scanSigningKey p r) <$> map_to_list (t_keys s).

Definition sql_ListSigningKeys (d : string) (s : db)
  : result (list signingKeyRecord) storeErr * db :=
  let '(ok, s) := exec (λ s, s) s in
  if ok : bool then (Ok (filter (λ r, sk_Domain r = d) (rows s)), s) else (Err ErrStore, s).

Definition current_row (d : string) (p : string * string) (r : keyRow) : bool :=
  bool_decide (p.1 = d) && bool_decide (r_state r = keyStateCurrent).
(** The primary key [(domain, kid)] and the partial unique index on the current
    key of a domain. *)
Definition insert_conflict (d kid : string) (s : db) : bool :=
  bool_decide (is_Some (t_keys s !! (d, kid)))
    || existsb (λ '(p, r), current_row d p r) (map_to_list (t_keys s)).
Definition insert_row (d kid alg : string) (at_ : Z) : db → db :=
  set_keys (insert (d, kid) (mkRow alg keyStateCurrent (Unix at_) None None)).

Definition sql_InsertSigningKey (rec : signingKeyRecord) (s : db) : result unit storeErr * db :=
  if insert_conflict (sk_Domain rec) (KID rec) s then (Err ErrStore, (next s).2)
  else
    let '(ok, s) :=
      exec (insert_row (sk_Domain rec) (KID rec) (sk_Algorithm rec) (CreatedAt rec)) s in
    (if ok : bool then Ok () else Err ErrStore, s).

Definition retire_row (at_ expires : Z) (r : keyRow) : keyRow :=
  mkRow (r_algorithm r) keyStateRetiring (created_at r) (Some at_) (Some expires).
Definition retire_current (d : string) (at_ expires : Z) : db → db :=
  set_keys (map_imap (λ p r, Some (if current_row d p r then retire_row at_ expires r else r))).

(** A transaction: a failure before the commit leaves the tables alone. *)
Definition sql_RotateSigningKey (now : Z) (d : string) (newKey : signingKeyRecord) (retention : Z)
  (s : db) : result unit storeErr * db :=
  let tables := λ s' s : db, mkDb (t_codes s) (t_sessions s) (t_clients s) (t_keys s) (outcomes s') in
  let now := if IsZero (CreatedAt newKey) then now else CreatedAt newKey in
  let '(begun, s1) := exec (λ s, s) s in
  if negb begun then (Err ErrStore, tables s1 s)
  else
    let '(updated, s2) := exec (retire_current d (Unix now) (Unix (now + retention))) s1 in
    if negb updated then (Err ErrStore, tables s2 s)
    else if insert_conflict d (KID newKey) s2 then (Err ErrStore, tables (next s2).2 s)
    else
      let '(inserted, s3) := exec (insert_row d (KID newKey) (sk_Algorithm newKey) now) s2 in
      if negb inserted then (Err ErrStore, tables s3 s)
      else
        match next s3 with
        | (Runs, s4) => (Ok (), s4)
        | (Lost, s4) => (Err ErrStore, tables s4 s)
        | (Reported, s4) => (Err ErrStore, s4)
        end.

Definition sql_RevokeSigningKey (now : Z) (d kid : string) (s : db) : result unit storeErr * db :=
  let '(ok, s') := exec (set_keys (alter (retire_row (Unix now) 1) (d, kid))) s in
  if ok : bool then
    (if bool_decide (is_Some (t_keys s !! (d, kid))) then Ok () else Err ErrStore, s')
  else (Err ErrStore, s').

Definition row_lapsed (cutoff : Z) (r : keyRow) : bool :=
  bool_decide (r_state r = keyStateRetiring)
    && match expires_at r with Some x => x <=? cutoff | None => false end.
Definition sql_SweepExpiredSigningKeys (now : Z) (s : db)
  : result (list signingKeyRecord) storeErr * db :=
  let '(ok, s') := exec (set_keys (filter (λ '(_, r), row_lapsed (Unix now) r = false))) s in
  if ok : bool then
    (Ok ((λ '(p, r), scanSigningKey p r)
           <$> filter (λ '(_, r), row_lapsed (Unix now) r = true) (map_to_list (t_keys s))), s')
  else (Err ErrStore, s').

#[export] Instance sql_Store `{JsonStrings} : Store db := {
  StoreCode := sql_StoreCode; ConsumeCode := sql_ConsumeCode;
  StoreSession := sql_StoreSession; LookupSession := sql_LookupSession;
  DeleteSession := sql_DeleteSession; RegisterClient := sql_RegisterClient;
  LookupClient := sql_LookupClient; SweepExpired := sql_SweepExpired;
  ListSigningKeys := sql_ListSigningKeys; InsertSigningKey := sql_InsertSigningKey;
  RotateSigningKey := sql_RotateSigningKey; RevokeSigningKey := sql_RevokeSigningKey;
  SweepExpiredSigningKeys := sql_SweepExpiredSigningKeys;
}.
End Sql.

(** ** The abstract state *)
Record view := mkView {
  v_codes : gmap string authCode;
  v_sessions : gmap string ssoSession;
  v_clients : gmap (string * string) registeredClient;
  v_keys : gmap (string * string) signingKeyRecord;
}.
Definition empty_view : view := mkView ∅ ∅ ∅ ∅.
Definition on_codes f v := mkView (f (v_codes v)) (v_sessions v) (v_clients v) (v_keys v).
Definition on_sessions f v := mkView (v_codes v) (f (v_sessions v)) (v_clients v) (v_keys v).
Definition on_clients f v := mkView (v_codes v) (v_sessions v) (f (v_clients v)) (v_keys v).
Definition on_keys f v := mkView (v_codes v) (v_sessions v) (v_clients v) (f (v_keys v)).

(** No two current keys in one domain; records are stored under their own name. *)
Definition one_current (m : gmap (string * string) signingKeyRecord) : Prop :=
  ∀ p q r r', m !! p = Some r → m !! q = Some r' → is_current r = true → is_current r' = true →
    p.1 = q.1 → p = q.
Definition keys_named (m : gmap (string * string) signingKeyRecord) : Prop :=
  ∀ p r, m !! p = Some r → p = (sk_Domain r, KID r).
Definition no_current (d : string) (m : gmap (string * string) signingKeyRecord) : Prop :=
  ∀ p r, m !! p = Some r → p.1 = d → is_current r = false.

Definition with_expiry (t : Z) (c : authCode) : authCode :=
  mkCode (ac_Code c) (ac_Domain c) (ac_ClientID c) (ac_Username c) (ac_RedirectURI c)
    (PKCEChallenge c) (PKCEMethod c) (ac_Nonce c) t.
Definition with_session_expiry (t : Z) (x : ssoSession) : ssoSession :=
  mkSso (ss_ID x) (ss_Domain x) (ss_Username x) t.
Definition with_registered (t : Z) (c : registeredClient) : registeredClient :=
  mkClient (rc_ClientID c) (rc_Domain c) (ClientName c) (rc_RedirectURIs c) t.
Definition with_created (t : Z) (r : signingKeyRecord) : signingKeyRecord :=
  mkKey (sk_Domain r) (KID r) (sk_Algorithm r) (State r) t (RetiredAt r) (sk_ExpiresAt r).

Definition retire_in (d : string) (at_ expires : Z) (r : signingKeyRecord) : signingKeyRecord :=
  if bool_decide (sk_Domain r = d) && is_current r then retire at_ expires r else r.

(** A record as the server passes it: current, not retired, dated after the epoch. *)
Definition new_key (r : signingKeyRecord) : Prop :=
  State r = keyStateCurrent ∧ RetiredAt r = zero_time ∧ sk_ExpiresAt r = zero_time
  ∧ 0 ≤ CreatedAt r ∧ no_byte NUL (sk_Domain r).

Class StoreView (S : Type) := {
  inv : S → Prop;
  (** no statement fails any more *)
  quiet : S → Prop;
  abs : S → view;
  (** the precision of stored times *)
  trunc : Z → Z;
  storable : registeredClient → Prop;
}.

Section Effects.
Context {S : Type} `{StoreView S}.
(** A write whose failure is not reported. *)
Definition maybe (s s' : S) (v : view) : Prop :=
  inv s' ∧ (quiet s → quiet s' ∧ abs s' = v) ∧ (abs s' = v ∨ abs s' = abs s).
Definition settled (s s' : S) : Prop := inv s' ∧ (quiet s → quiet s').
Definition code_removed (x : string) (s : S) : view := on_codes (delete x) (abs s).

Definition consume_spec (now : Z) (x : string) (s : S) (r : result authCode storeErr) (s' : S) : Prop :=
  settled s s' ∧
  match r with
  | Ok c => v_codes (abs s) !! x = Some c ∧ now ≤ ac_ExpiresAt c ∧ abs s' = code_removed x s
  | Err ErrNotFound => v_codes (abs s) !! x = None ∧ abs s' = abs s
  | Err ErrExpired =>
      ∃ c, v_codes (abs s) !! x = Some c ∧ ac_ExpiresAt c < now ∧ abs s' = code_removed x s
  | Err ErrStore => ¬ quiet s ∧ (abs s' = abs s ∨ abs s' = code_removed x s)
  end.
Definition lookup_session_spec (now : Z) (x : string) (s : S) (o : option ssoSession) (s' : S) : Prop :=
  settled s s' ∧
  match o with
  | Some y => v_sessions (abs s) !! x = Some y ∧ now ≤ ss_ExpiresAt y ∧ abs s' = abs s
  | None =>
      (abs s' = abs s ∨ abs s' = on_sessions (delete x) (abs s)) ∧
      (quiet s → ∀ y, v_sessions (abs s) !! x = Some y → ss_ExpiresAt y < now)
  end.
Definition sweep_spec (now : Z) (s : S) (r : result unit storeErr) (s' : S) : Prop :=
  settled s s' ∧
  v_codes (abs s') ⊆ v_codes (abs s) ∧ v_sessions (abs s') ⊆ v_sessions (abs s) ∧
  v_clients (abs s') = v_clients (abs s) ∧ v_keys (abs s') = v_keys (abs s) ∧
  match r with
  | Ok _ =>
      v_codes (abs s') = filter (λ '(_, c), trunc now < trunc (ac_ExpiresAt c)) (v_codes (abs s)) ∧
      v_sessions (abs s') = filter (λ '(_, x), trunc now < trunc (ss_ExpiresAt x)) (v_sessions (abs s))
  | Err _ => ¬ quiet s
  end.
Definition list_spec (d : string) (s : S) (r : result (list signingKeyRecord) storeErr) (s' : S) : Prop :=
  settled s s' ∧ abs s' = abs s ∧
  match r with
  | Ok l => ∀ rec, rec ∈ l ↔ ∃ kid, v_keys (abs s) !! (d, kid) = Some rec
  | Err _ => ¬ quiet s
  end.
Definition insert_spec (rec : signingKeyRecord) (s : S) (r : result unit storeErr) (s' : S) : Prop :=
  let p := (sk_Domain rec, KID rec) in
  let v := on_keys (insert p (with_created (trunc (CreatedAt rec)) rec)) (abs s) in
  settled s s' ∧
  match r with
  | Ok _ => no_current (sk_Domain rec) (v_keys (abs s)) ∧ abs s' = v
  | Err _ =>
      (abs s' = abs s ∨ no_current (sk_Domain rec) (v_keys (abs s)) ∧ abs s' = v) ∧
      (quiet s → no_current (sk_Domain rec) (v_keys (abs s)) → is_Some (v_keys (abs s) !! p))
  end.
Definition rotated (d : string) (t retention : Z) (rec : signingKeyRecord) (v : view) : view :=
  on_keys (λ m, <[(d, KID rec) := with_created (trunc (CreatedAt rec)) rec]>
             (retire_in d (trunc t) (trunc (t + retention)) <$> m)) v.
Definition rotate_spec (now : Z) (rec : signingKeyRecord) (retention : Z) (s : S)
  (r : result unit storeErr) (s' : S) : Prop :=
  let d := sk_Domain rec in
  settled s s' ∧
  ∃ t, (t = now ∨ t = CreatedAt rec) ∧
  let v := rotated d t retention rec (abs s) in
  match r with
  | Ok _ => v_keys (abs s) !! (d, KID rec) = None ∧ abs s' = v
  | Err _ =>
      (abs s' = abs s ∨ v_keys (abs s) !! (d, KID rec) = None ∧ abs s' = v) ∧
      (quiet s → is_Some (v_keys (abs s) !! (d, KID rec)))
  end.
Definition revoke_spec (now : Z) (d kid : string) (s : S) (r : result unit storeErr) (s' : S) : Prop :=
  let v := on_keys (alter (retire (trunc now) (time_Unix 1)) (d, kid)) (abs s) in
  settled s s' ∧
  match r with
  | Ok _ => is_Some (v_keys (abs s) !! (d, kid)) ∧ abs s' = v
  | Err _ => (abs s' = abs s ∨ abs s' = v) ∧ (quiet s → v_keys (abs s) !! (d, kid) = None)
  end.
Definition sweep_keys_spec (now : Z) (s : S) (r : result (list signingKeyRecord) storeErr) (s' : S) : Prop :=
  let v := on_keys (filter (λ '(_, x), lapsed now x = false)) (abs s) in
  settled s s' ∧
  match r with
  | Ok l => abs s' = v ∧
            ∀ rec, rec ∈ l ↔ lapsed now rec = true ∧ ∃ p, v_keys (abs s) !! p = Some rec
  | Err _ => ¬ quiet s ∧ (abs s' = abs s ∨ abs s' = v)
  end.
End Effects.

(** What a store promises: every operation acts on the abstract state as
    described above, and the invariant holds throughout. *)
Class StoreLaws (S : Type) `{Store S, StoreView S} : Prop := {
  trunc_bounds : ∀ t, trunc t ≤ t < trunc t + second;
  trunc_nonneg : ∀ t, 0 ≤ t → 0 ≤ trunc t;
  inv_keys : ∀ s : S, inv s → one_current (v_keys (abs s)) ∧ keys_named (v_keys (abs s));
  inv_clients : ∀ (s : S) p c, inv s → v_clients (abs s) !! p = Some c → p = (rc_Domain c, rc_ClientID c);
  law_store_code : ∀ c (s : S), inv s →
    maybe s (StoreCode c s)
      (on_codes (insert (ac_Code c) (with_expiry (trunc (ac_ExpiresAt c)) c)) (abs s));
  law_consume : ∀ now x (s s' : S) r, inv s → ConsumeCode now x s = (r, s') →
    consume_spec now x s r s';
  law_store_session : ∀ x (s : S), inv s →
    maybe s (StoreSession x s)
      (on_sessions (insert (ss_ID x) (with_session_expiry (trunc (ss_ExpiresAt x)) x)) (abs s));
  law_lookup_session : ∀ now x (s s' : S) o, inv s → LookupSession now x s = (o, s') →
    lookup_session_spec now x s o s';
  law_delete_session : ∀ x (s : S), inv s →
    maybe s (DeleteSession x s) (on_sessions (delete x) (abs s));
  law_register : ∀ c (s : S), inv s → storable c → no_byte NUL (rc_Domain c) →
    maybe s (RegisterClient c s)
      (on_clients (insert (rc_Domain c, rc_ClientID c)
                     (with_registered (trunc (RegisteredAt c)) c)) (abs s));
  law_lookup_client : ∀ d x (s s' : S) o, inv s → no_byte NUL d → LookupClient d x s = (o, s') →
    settled s s' ∧ abs s' = abs s ∧
    (o = v_clients (abs s) !! (d, x) ∨ o = None ∧ ¬ quiet s);
  law_sweep : ∀ now (s s' : S) r, inv s → SweepExpired now s = (r, s') → sweep_spec now s r s';
  law_list : ∀ d (s s' : S) r, inv s → no_byte NUL d → ListSigningKeys d s = (r, s') →
    list_spec d s r s';
  law_insert : ∀ rec (s s' : S) r, inv s → new_key rec → InsertSigningKey rec s = (r, s') →
    insert_spec rec s r s';
  law_rotate : ∀ now rec retention (s s' : S) r, inv s → new_key rec → 0 ≤ now → 0 ≤ retention →
    RotateSigningKey now (sk_Domain rec) rec retention s = (r, s') →
    rotate_spec now rec retention s r s';
  law_revoke : ∀ now d kid (s s' : S) r, inv s → no_byte NUL d → RevokeSigningKey now d kid s = (r, s') →
    revoke_spec now d kid s r s';
  law_sweep_keys : ∀ now (s s' : S) r, inv s → SweepExpiredSigningKeys now s = (r, s') →
    sweep_keys_spec now s r s';
}.

(** ** The keys of the abstract state *)
Section Keys.
Implicit Types m : gmap (string * string) signingKeyRecord.

Lemma is_current_retire a x r : is_current (retire a x r) = false.
Proof. done. Qed.
Lemma retire_in_current d a x r :
  is_current (retire_in d a x r) = true → is_current r = true ∧ sk_Domain r ≠ d ∧ retire_in d a x r = r.
Proof.
  unfold retire_in. destruct (bool_decide_reflect (sk_Domain r = d)) as [Hd|Hd]; simpl; [|done].
  destruct (is_current r) eqn:E; [done|]. intros. congruence.
Qed.
Lemma retire_in_name d a x r :
  sk_Domain (retire_in d a x r) = sk_Domain r ∧ KID (retire_in d a x r) = KID r.
Proof. unfold retire_in. by destruct (_ && _). Qed.

Lemma one_current_insert m p r :
  one_current m → no_current p.1 m → one_current (<[p := r]> m).
Proof.
  intros H1 Hn q q' x y Hx Hy Cx Cy Hd.
  destruct (decide (q = p)) as [->|Hq], (decide (q' = p)) as [->|Hq']; try done.
  - rewrite lookup_insert_ne in Hy by done. by rewrite (Hn q' y) in Cy.
  - rewrite lookup_insert_ne in Hx by done. by rewrite (Hn q x) in Cx.
  - rewrite lookup_insert_ne in Hx, Hy by done. by eapply H1.
Qed.
Lemma keys_named_insert m p r :
  keys_named m → p = (sk_Domain r, KID r) → keys_named (<[p := r]> m).
Proof.
  intros H1 Hp q x. destruct (decide (q = p)) as [->|].
  - rewrite lookup_insert_eq. by intros [= <-].
  - rewrite lookup_insert_ne by done. apply H1.
Qed.
Lemma one_current_sub m m' : m' ⊆ m → one_current m → one_current m'.
Proof. intros Hs H1 p q r r' Hp Hq. apply H1; by eapply lookup_weaken. Qed.
Lemma keys_named_sub m m' : m' ⊆ m → keys_named m → keys_named m'.
Proof. intros Hs H1 p r Hp. by eapply H1, lookup_weaken. Qed.
Lemma one_current_retire m d a x : one_current m → one_current (retire_in d a x <$> m).
Proof.
  intros H1 p q r r' Hp Hq Cr Cr'. rewrite lookup_fmap_Some in Hp, Hq.
  destruct Hp as (y & <- & Hp), Hq as (y' & <- & Hq).
  apply retire_in_current in Cr as (Cy & _), Cr' as (Cy' & _). by eapply H1.
Qed.
Lemma keys_named_retire m d a x : keys_named m → keys_named (retire_in d a x <$> m).
Proof.
  intros H1 p r. rewrite lookup_fmap_Some. intros (y & <- & Hp).
  destruct (retire_in_name d a x y) as [-> ->]. by apply H1.
Qed.
Lemma no_current_retire m d a x : keys_named m → no_current d (retire_in d a x <$> m).
Proof.
  intros H1 p r. rewrite lookup_fmap_Some. intros (y & <- & Hp) <-.
  pose proof (H1 _ _ Hp) as Hn. destruct (is_current _) eqn:E; [|done].
  apply retire_in_current in E as (_ & E & _). by subst p.
Qed.
Lemma keys_good_alter m p a x :
  one_current m ∧ keys_named m → one_current (alter (retire a x) p m) ∧ keys_named (alter (retire a x) p m).
Proof.
  intros [H1 H2]. split.
  - intros q q' r r' Hq Hq' Cr Cr'.
    apply lookup_alter_Some in Hq as [(_ & y & _ & ->)|[_ Hq]]; [done|].
    apply lookup_alter_Some in Hq' as [(_ & y & _ & ->)|[_ Hq']]; [done|]. by eapply H1.
  - intros q r Hq. apply lookup_alter_Some in Hq as [(<- & y & Hy & ->)|[_ Hq]];
      [exact (H2 _ _ Hy)|exact (H2 _ _ Hq)].
Qed.
End Keys.

(** ** The maps in memory implement the interface *)
Section Reindex.
Import Mem.
Context {A : Type} (name : A → string * string).
Implicit Types m : gmap string A.

(** Every value is stored under [key] of its own name. *)
Definition indexed m : Prop :=
  ∀ k r, m !! k = Some r → k = key (name r).1 (name r).2 ∧ no_byte NUL (name r).1.
Definition reindex m : gmap (string * string) A := list_to_map ((λ r, (name r, r)) <$> values m).

Lemma key_inj d k d' k' :
  no_byte NUL d → no_byte NUL d' → key d k = key d' k' → d = d' ∧ k = k'.
Proof.
  unfold key. intros Hd Hd' E. apply (f_equal (cut NUL)) in E.
  rewrite !cut_app in E by done. by simplify_eq.
Qed.

Lemma elem_of_values m r : r ∈ values m ↔ ∃ k, m !! k = Some r.
Proof.
  unfold values. rewrite list_elem_of_fmap. split.
  - intros ([k x] & -> & Hx). exists k. by apply elem_of_map_to_list in Hx.
  - intros [k Hk]. exists (k, r). split; [done|]. by apply elem_of_map_to_list.
Qed.

Lemma indexed_names m : indexed m → NoDup (name <$> values m).
Proof.
  intros Hm. apply (NoDup_fmap_1 (λ p, key p.1 p.2)).
  replace ((λ p, key p.1 p.2) <$> (name <$> values m)) with (map_to_list m).*1
    by (unfold values; rewrite <- !list_fmap_compose; apply list_fmap_ext;
        intros i [k r] Hi%list_elem_of_lookup_2; apply elem_of_map_to_list, Hm in Hi as [-> _]; done).
  apply NoDup_fst_map_to_list.
Qed.

Lemma reindex_Some m p r :
  indexed m → reindex m !! p = Some r ↔ no_byte NUL p.1 ∧ m !! key p.1 p.2 = Some r.
Proof.
  intros Hm. unfold reindex. rewrite <- elem_of_list_to_map.
  - rewrite list_elem_of_fmap. split.
    + intros (x & [= -> ->] & Hx). apply elem_of_values in Hx as [k Hk].
      destruct (Hm _ _ Hk) as [-> Hn]. done.
    + intros [Hn Hl]. exists r. rewrite elem_of_values. split; [|eauto].
      destruct (Hm _ _ Hl) as [E Hn']. apply key_inj in E as [E1 E2]; [|done..].
      f_equal. destruct p, (name r); simpl in *; congruence.
  - rewrite <- list_fmap_compose. by apply indexed_names.
Qed.

Lemma reindex_lookup m d k : indexed m → no_byte NUL d → reindex m !! (d, k) = m !! key d k.
Proof. intros Hm Hd. apply option_eq. intros r. rewrite reindex_Some by done. naive_solver. Qed.

Lemma indexed_insert m r :
  indexed m → no_byte NUL (name r).1 → indexed (<[key (name r).1 (name r).2 := r]> m).
Proof.
  intros Hm Hr k x. destruct (decide (k = key (name r).1 (name r).2)) as [->|].
  - rewrite lookup_insert_eq. by intros [= <-].
  - rewrite lookup_insert_ne by done. apply Hm.
Qed.
Lemma reindex_insert m r :
  indexed m → no_byte NUL (name r).1 →
  reindex (<[key (name r).1 (name r).2 := r]> m) = <[name r := r]> (reindex m).
Proof.
  intros Hm Hr. apply map_eq. intros p. apply option_eq. intros x.
  rewrite reindex_Some by (by apply indexed_insert).
  destruct (decide (p = name r)) as [->|Hp].
  - rewrite !lookup_insert_eq. naive_solver.
  - rewrite (lookup_insert_ne (reindex m)), reindex_Some by done. split; intros [Hn Hl]; (split; [done|]).
    + rewrite lookup_insert_ne in Hl; [done|]. intros [E1 E2]%key_inj; [|done..].
      apply Hp. destruct p, (name r); simpl in *; congruence.
    + rewrite lookup_insert_ne; [done|]. intros [E1 E2]%key_inj; [|done..].
      apply Hp. destruct p, (name r); simpl in *; congruence.
Qed.

Lemma indexed_sub m m' : m' ⊆ m → indexed m → indexed m'.
Proof. intros Hs Hm k r Hk. by eapply Hm, lookup_weaken. Qed.
Lemma reindex_filter m (P : A → Prop) `{!∀ x, Decision (P x)} :
  indexed m →
  reindex (filter (λ '(_, x), P x) m) = filter (λ '(_, x), P x) (reindex m).
Proof.
  intros Hm. apply map_eq. intros p. apply option_eq. intros x.
  rewrite reindex_Some by (eapply indexed_sub; [apply map_filter_subseteq|done]).
  rewrite !map_lookup_filter_Some, reindex_Some by done. naive_solver.
Qed.
Lemma indexed_fmap m (f : A → A) : (∀ x, name (f x) = name x) → indexed m → indexed (f <$> m).
Proof. intros Hf Hm k r. rewrite lookup_fmap_Some. intros (x & <- & Hx). rewrite Hf. by apply Hm. Qed.
Lemma reindex_fmap m (f : A → A) :
  (∀ x, name (f x) = name x) → indexed m → reindex (f <$> m) = f <$> reindex m.
Proof.
  intros Hf Hm. apply map_eq. intros p. apply option_eq. intros x.
  rewrite reindex_Some by (by apply indexed_fmap).
  rewrite !lookup_fmap_Some. setoid_rewrite reindex_Some; [|done]. naive_solver.
Qed.
End Reindex.

Section MemLaws.
Import Mem.

Definition key_name (r : signingKeyRecord) : string * string := (sk_Domain r, KID r).
Definition client_name (c : registeredClient) : string * string := (rc_Domain c, rc_ClientID c).
Definition mem_inv (s : ephemeralStore) : Prop :=
  indexed key_name (signingKeys s) ∧ indexed client_name (clients s)
  ∧ one_current (reindex key_name (signingKeys s)).

#[export] Instance mem_StoreView : StoreView ephemeralStore := {
  inv := mem_inv; quiet := λ _, True;
  abs s := mkView (codes s) (sessions s) (reindex client_name (clients s))
             (reindex key_name (signingKeys s));
  trunc t := t; storable := λ _, True;
}.

Lemma reindex_named {A} (name : A → string * string) m p r :
  indexed name m → reindex name m !! p = Some r → p = name r.
Proof.
  intros Hm. rewrite reindex_Some by done. intros [Hn Hl].
  destruct (Hm _ _ Hl) as [E Hr]. apply key_inj in E as [E1 E2]; [|done..].
  destruct p, (name r); simpl in *; congruence.
Qed.
Lemma mem_keys_named s : mem_inv s → keys_named (reindex key_name (signingKeys s)).
Proof. intros (Hk & _ & _) p r Hp. by apply reindex_named in Hp. Qed.

Lemma has_current_false d s :
  mem_inv s → has_current d s = false ↔ no_current d (reindex key_name (signingKeys s)).
Proof.
  intros (Hk & _ & _). unfold has_current. rewrite <- not_true_iff_false, existsb_exists.
  unfold no_current. split.
  - intros Hn p r Hp Hd. destruct (is_current r) eqn:E; [|done]. exfalso. apply Hn.
    exists r. rewrite <- list_elem_of_In, elem_of_values, E.
    pose proof (reindex_named _ _ _ _ Hk Hp) as Hpr.
    apply reindex_Some in Hp as [_ Hp]; [|done]. split; [by eexists|].
    subst p d. simpl. by rewrite bool_decide_eq_true_2.
  - intros Hn (r & Hr & Hc). rewrite <- list_elem_of_In, elem_of_values in Hr.
    destruct Hr as [k Hr]. apply andb_true_iff in Hc as [Hd Hc]. apply bool_decide_eq_true in Hd.
    destruct (Hk _ _ Hr) as [Ek Hd']. rewrite (Hn (key_name r) r) in Hc; [done| |done].
    apply reindex_Some; [done|]. split; [done|]. by rewrite <- Ek.
Qed.

Lemma mem_insert_law rec s s' r :
  mem_inv s → new_key rec → mem_InsertSigningKey rec s = (r, s') → insert_spec rec s r s'.
Proof.
  intros Hi (Hs & Hr & He & Hc & Hd). unfold mem_InsertSigningKey.
  pose proof (has_current_false (sk_Domain rec) s Hi) as Hh. pose proof Hi as (Hk & Hcl & H1).
  destruct (has_current _ s) eqn:E; intros [= <- <-]; cbv zeta beta.
  - split; [by split|]. split; [by left|]. intros _ Hn. by apply Hh in Hn.
  - assert (Hn : no_current (sk_Domain rec) (reindex key_name (signingKeys s))) by by apply Hh.
    split.
    + split; [|done]. split; [|split; [done|]].
      * by apply (indexed_insert key_name).
      * change (key (sk_Domain rec) (KID rec)) with (key (key_name rec).1 (key_name rec).2).
        unfold set_keys; cbn [signingKeys]. rewrite reindex_insert by done.
        by apply one_current_insert.
    + split; [done|]. cbn. unfold on_keys. cbn. f_equal.
      change (key (sk_Domain rec) (KID rec)) with (key (key_name rec).1 (key_name rec).2).
      rewrite reindex_insert by done. by destruct rec.
Qed.

Lemma mem_rotate_law now rec retention s s' r :
  mem_inv s → new_key rec →
  mem_RotateSigningKey now (sk_Domain rec) rec retention s = (r, s') →
  rotate_spec now rec retention s r s'.
Proof.
  intros Hi (Hs & Hr & He & Hc & Hd). unfold mem_RotateSigningKey.
  pose proof (mem_keys_named s Hi) as Hnm. pose proof Hi as (Hk & Hcl & H1).
  pose proof (reindex_lookup key_name _ _ (KID rec) Hk Hd) as Hl.
  set (f := λ r, if bool_decide (sk_Domain r = sk_Domain rec) && is_current r
                 then retire now (now + retention) r else r).
  assert (Hf : ∀ x, key_name (f x) = key_name x) by (intros x; unfold f; by destruct (_ && _)).
  destruct (signingKeys s !! key (sk_Domain rec) (KID rec)) eqn:E; intros [= <- <-]; cbv zeta.
  - split; [by split|]. exists now. split; [by left|]. split; [by left|].
    intros _. cbn. by rewrite Hl.
  - assert (Hin : indexed key_name (f <$> signingKeys s)) by by apply indexed_fmap.
    assert (Hre : reindex key_name (f <$> signingKeys s) =
                  retire_in (sk_Domain rec) now (now + retention) <$> reindex key_name (signingKeys s))
      by (by apply reindex_fmap).
    split; [split; [|done]; split; [|split; [done|]]|].
    + by apply (indexed_insert key_name).
    + change (key (sk_Domain rec) (KID rec)) with (key (key_name rec).1 (key_name rec).2).
      unfold set_keys; cbn [signingKeys]. rewrite reindex_insert, Hre by done.
      apply one_current_insert; [by apply one_current_retire|by apply no_current_retire].
    + exists now. split; [by left|]. split; [by cbn; rewrite Hl|].
      unfold rotated, on_keys. cbn. f_equal.
      change (key (sk_Domain rec) (KID rec)) with (key (key_name rec).1 (key_name rec).2).
      rewrite reindex_insert, Hre by done. by destruct rec.
Qed.

Lemma mem_revoke_law now d kid s s' r :
  mem_inv s → no_byte NUL d → mem_RevokeSigningKey now d kid s = (r, s') →
  revoke_spec now d kid s r s'.
Proof.
  intros Hi Hd. unfold mem_RevokeSigningKey. pose proof Hi as (Hk & Hcl & H1).
  pose proof (mem_keys_named s Hi) as Hnm.
  pose proof (reindex_lookup key_name _ _ kid Hk Hd) as Hl.
  destruct (signingKeys s !! key d kid) as [x|] eqn:E; intros [= <- <-]; cbv zeta.
  - pose proof (Hnm _ _ Hl) as Hp. injection Hp as Hp1 Hp2.
    assert (Hre : reindex key_name (<[key d kid := retire now (time_Unix 1) x]> (signingKeys s)) =
                  alter (retire now (time_Unix 1)) (d, kid) (reindex key_name (signingKeys s))).
    { rewrite Hp1, Hp2. change (key (sk_Domain x) (KID x)) with
        (key (key_name (retire now (time_Unix 1) x)).1 (key_name (retire now (time_Unix 1) x)).2).
      rewrite reindex_insert by (try done; by rewrite Hp1 in Hd).
      change (key_name (retire now (time_Unix 1) x)) with (sk_Domain x, KID x).
      rewrite <- Hp1, <- Hp2. apply map_eq. intros q. destruct (decide (q = (d, kid))) as [->|Hq].
      - by rewrite lookup_insert_eq, lookup_alter_eq, Hl.
      - by rewrite lookup_insert_ne, lookup_alter_ne. }
    split; [split; [|done]; split; [|split; [done|]]|].
    + unfold set_keys; cbn [signingKeys]. rewrite Hp1, Hp2.
      apply (indexed_insert key_name _ (retire now (time_Unix 1) x)); [done|].
      cbn. by rewrite <- Hp1.
    + unfold set_keys; cbn [signingKeys]. rewrite Hre.
      apply (keys_good_alter (reindex key_name (signingKeys s))). by split.
    + split; [by cbn; rewrite Hl|]. unfold on_keys. cbn. by f_equal.
  - split; [by split|]. split; [by left|]. intros _. cbn. by rewrite Hl.
Qed.

Lemma mem_sweep_keys_law now s s' r :
  mem_inv s → mem_SweepExpiredSigningKeys now s = (r, s') → sweep_keys_spec now s r s'.
Proof.
  intros Hi [= <- <-]. pose proof Hi as (Hk & Hcl & H1).
  assert (Hsub : filter (λ '(_, x), lapsed now x = false) (signingKeys s) ⊆ signingKeys s)
    by apply map_filter_subseteq.
  assert (Hre := reindex_filter key_name (signingKeys s) (λ x, lapsed now x = false) Hk).
  split; [split; [|done]; split; [|split; [done|]]|split].
  - by eapply indexed_sub.
  - unfold set_keys; cbn [signingKeys]. rewrite Hre. by eapply one_current_sub, H1; apply map_filter_subseteq.
  - unfold on_keys. cbn. by f_equal.
  - intros rec. rewrite list_elem_of_filter, elem_of_values. split; intros [Hx Hy]; (split; [done|]).
    + destruct Hy as [k Hy]. exists (key_name rec). cbn. apply reindex_Some; [done|].
      destruct (Hk _ _ Hy) as [-> Hn]. by split.
    + destruct Hy as [p Hp]. cbn in Hp. apply reindex_Some in Hp as [_ Hp]; [by eexists|done].
Qed.

#[export] Instance mem_StoreLaws : StoreLaws ephemeralStore.
Proof.
  constructor.
  - intros t. cbn. unfold second. lia.
  - done.
  - intros s Hi. split; [apply Hi|by apply mem_keys_named].
  - intros s p c Hi. cbn. intros Hp. apply reindex_named in Hp; [done|apply Hi].
  - intros c s Hi. split; [done|]. cbn. destruct c. split; [done|by left].
  - intros now x s s' r Hi. cbn. unfold mem_ConsumeCode, consume_spec, settled.
    destruct (codes s !! x) as [c|] eqn:E; [|by intros [= <- <-]].
    destruct (Z.ltb_spec (ac_ExpiresAt c) now); intros [= <- <-]; (split; [done|]); [by eexists|done].
  - intros x s Hi. split; [done|]. cbn. destruct x. split; [done|by left].
  - intros now x s s' o Hi. cbn. unfold mem_LookupSession, lookup_session_spec, settled.
    destruct (sessions s !! x) as [y|] eqn:E; cbn.
    + destruct (Z.ltb_spec (ss_ExpiresAt y) now); intros [= <- <-]; (split; [done|]); [|done].
      split; [by right|]. intros _ z. rewrite E. by intros [= <-].
    + intros [= <- <-]. split; [done|]. split; [by left|]. intros _ z. by rewrite E.
  - intros x s Hi. split; [done|]. split; [done|by left].
  - intros c s (Hk & Hcl & H1) _ Hd.
    assert (Hre := reindex_insert client_name (clients s) c Hcl Hd).
    split; [split; [done|split; [|done]]; by apply (indexed_insert client_name)|].
    split; [intros _; split; [done|]|left]; cbn; unfold on_clients; cbn; f_equal;
      (etrans; [exact Hre|by destruct c]).
  - intros d x s s' o (Hk & Hcl & H1) Hd [= <- <-]. split; [done|]. split; [done|]. left.
    cbn. symmetry. by apply reindex_lookup.
  - intros now s s' r Hi [= <- <-]. split; [done|]. cbn.
    repeat split; try done; apply map_filter_subseteq.
  - intros d s s' r (Hk & Hcl & H1) Hd [= <- <-]. split; [done|]. split; [done|].
    intros rec. rewrite list_elem_of_filter, elem_of_values. split.
    + intros [<- [k Hx]]. exists (KID rec). cbn. rewrite reindex_lookup by done.
      by destruct (Hk _ _ Hx) as [-> _].
    + intros [kid Hp]. cbn in Hp. pose proof (reindex_named _ _ _ _ Hk Hp) as [= -> ->].
      apply reindex_Some in Hp as [_ Hp]; [|done]. split; [done|by eexists].
  - exact mem_insert_law.
  - intros now rec retention s s' r Hi Hn _ _. by apply mem_rotate_law.
  - exact mem_revoke_law.
  - exact mem_sweep_keys_law.
Qed.
End MemLaws.

(** ** The SQLite tables implement the interface *)
Class JsonStringsLaws `{JsonStrings} := {
  (** strings that JSON text represents exactly: valid UTF-8 *)
  json_text : string → Prop;
  unmarshal_marshal : ∀ l, Forall json_text l → unmarshal_strings (marshal_strings l) = Some l;
}.

Section SqlLaws.
Import Sql.
Context `{JsonStringsLaws}.

Definition scan_keys (m : gmap (string * string) keyRow) : gmap (string * string) signingKeyRecord :=
  map_imap (λ p r, Some (scanSigningKey p r)) m.
Definition scan_clients (m : gmap (string * string) (string * string * Z))
  : gmap (string * string) registeredClient := map_imap (λ p, decode_client p.1 p.2) m.
Definition with_outcomes (os : list outcome) (s : db) : db :=
  mkDb (t_codes s) (t_sessions s) (t_clients s) (t_keys s) os.
Definition sql_inv (s : db) : Prop :=
  one_current (scan_keys (t_keys s)) ∧
  ∀ p r x, t_keys s !! p = Some r → expires_at r = Some x → 0 ≤ x.

#[export] Instance sql_StoreView : StoreView db := {
  inv := sql_inv; quiet s := outcomes s = [];
  abs s := mkView (t_codes s) (t_sessions s) (scan_clients (t_clients s)) (scan_keys (t_keys s));
  trunc t := time_Unix (Unix t); storable c := Forall json_text (rc_RedirectURIs c);
}.

Lemma scan_keys_lookup m p : scan_keys m !! p = scanSigningKey p <$> m !! p.
Proof. unfold scan_keys. rewrite map_lookup_imap. by destruct (m !! p). Qed.
Lemma scan_keys_named m : keys_named (scan_keys m).
Proof. intros p r. rewrite scan_keys_lookup, fmap_Some. intros (x & _ & ->). by destruct p. Qed.
Lemma scan_keys_insert m p r : scan_keys (<[p := r]> m) = <[p := scanSigningKey p r]> (scan_keys m).
Proof.
  apply map_eq. intros q. rewrite scan_keys_lookup. destruct (decide (q = p)) as [->|].
  - by rewrite !lookup_insert_eq.
  - by rewrite !lookup_insert_ne, scan_keys_lookup.
Qed.
Lemma elem_of_rows s r : r ∈ rows s ↔ ∃ p, scan_keys (t_keys s) !! p = Some r.
Proof.
  unfold rows. rewrite list_elem_of_fmap. setoid_rewrite scan_keys_lookup. split.
  - intros ([p x] & -> & Hx). apply elem_of_map_to_list in Hx. exists p. by rewrite Hx.
  - intros [p (x & Hx & ->)%fmap_Some]. exists (p, x). split; [done|]. by apply elem_of_map_to_list.
Qed.

Lemma next_eq s o s' :
  next s = (o, s') → (∃ os, s' = with_outcomes os s) ∧ (outcomes s = [] → o = Runs ∧ s' = s).
Proof.
  unfold next. destruct s as [a b c d [|o' os]]; cbn; intros [= <- <-]; (split; [by eexists|done]).
Qed.

(** A statement [f], described by what it does whatever outcomes are left. *)
Lemma exec_law f (s : db) ok s' v :
  sql_inv s →
  (∀ os, sql_inv (f (with_outcomes os s)) ∧ abs (f (with_outcomes os s)) = v
         ∧ outcomes (f (with_outcomes os s)) = os) →
  exec f s = (ok, s') →
  settled s s' ∧ if ok then abs s' = v else ¬ quiet s ∧ (abs s' = abs s ∨ abs s' = v).
Proof.
  intros Hi Hf. unfold exec. destruct (next s) as [o s0] eqn:E.
  apply next_eq in E as [[os ->] Hq].
  destruct (Hf os) as (Hi' & Hv & Ho).
  destruct o; intros [= <- <-]; unfold settled; cbn [quiet sql_StoreView].
  - split; [split; [done|]|done]. intros E. destruct (Hq E) as [_ E2].
    rewrite Ho. apply (f_equal outcomes) in E2. cbn in E2. congruence.
  - split; [split; [done|]|split; [|by left]]; intros E; by destruct (Hq E).
  - split; [split; [done|]|split; [|by right]]; intros E; by destruct (Hq E).
Qed.
Lemma exec_maybe f (s : db) v :
  sql_inv s →
  (∀ os, sql_inv (f (with_outcomes os s)) ∧ abs (f (with_outcomes os s)) = v
         ∧ outcomes (f (with_outcomes os s)) = os) →
  maybe s (exec f s).2 v.
Proof.
  intros Hi Hf. destruct (exec f s) as [ok s'] eqn:E.
  destruct (exec_law f s ok s' v Hi Hf E) as [[Hi' Hq] Hx]. unfold maybe. cbn [snd].
  destruct ok.
  - split; [done|]. split; [|by left]. intros Q. split; [by apply Hq|done].
  - destruct Hx as [Hn Ho]. split; [done|]. split; [done|]. tauto.
Qed.
Lemma exec_read (s : db) ok s' :
  sql_inv s → exec (λ s, s) s = (ok, s') →
  settled s s' ∧ abs s' = abs s ∧ (∃ os, s' = with_outcomes os s) ∧ (ok = false → ¬ quiet s).
Proof.
  intros Hi. unfold exec. destruct (next s) as [o s0] eqn:E. apply next_eq in E as [[os ->] Hq].
  assert (settled s (with_outcomes os s)).
  { split; [done|]. intros Q. destruct (Hq Q) as [_ E]. apply (f_equal outcomes) in E.
    cbn in *. congruence. }
  destruct o; intros [= <- <-]; repeat (split; [done || by eexists|]); intros E Q; [done|..];
    by destruct (Hq Q).
Qed.

Lemma insert_conflict_false d kid s :
  insert_conflict d kid s = false ↔
  scan_keys (t_keys s) !! (d, kid) = None ∧ no_current d (scan_keys (t_keys s)).
Proof.
  unfold insert_conflict. rewrite orb_false_iff, bool_decide_eq_false, <- eq_None_not_Some.
  rewrite scan_keys_lookup, fmap_None, <- (not_true_iff_false (existsb _ _)), existsb_exists.
  split; intros [H1 H2]; (split; [done|]).
  - intros p r. rewrite scan_keys_lookup, fmap_Some. intros (x & Hx & ->) <-.
    destruct (is_current _) eqn:E; [|done]. exfalso. apply H2. exists (p, x).
    rewrite <- list_elem_of_In, elem_of_map_to_list. split; [done|].
    unfold current_row. by rewrite bool_decide_eq_true_2.
  - intros ([p x] & Hx & Hc). rewrite <- list_elem_of_In, elem_of_map_to_list in Hx.
    apply andb_true_iff in Hc as [Hd Hc]. apply bool_decide_eq_true in Hd.
    assert (is_current (scanSigningKey p x) = false) by
      (apply (H2 p); [by rewrite scan_keys_lookup, Hx|done]).
    change (is_current (scanSigningKey p x) = true) in Hc. congruence.
Qed.

Lemma insert_row_law d kid alg t s os :
  sql_inv s → insert_conflict d kid s = false →
  sql_inv (insert_row d kid alg t (with_outcomes os s)) ∧
  abs (insert_row d kid alg t (with_outcomes os s)) =
    on_keys (insert (d, kid) (mkKey d kid alg keyStateCurrent (trunc t) zero_time zero_time)) (abs s) ∧
  outcomes (insert_row d kid alg t (with_outcomes os s)) = os.
Proof.
  intros [H1 H2] [Hn Hc]%insert_conflict_false. unfold insert_row, set_keys. cbn.
  split; [split|split; [|done]]; cbn.
  - rewrite scan_keys_insert. by apply one_current_insert.
  - intros p r x. destruct (decide (p = (d, kid))) as [->|].
    + rewrite lookup_insert_eq. by intros [= <-].
    + rewrite lookup_insert_ne by done. apply H2.
  - unfold on_keys. cbn. by rewrite scan_keys_insert.
Qed.

Lemma sql_insert_law rec s s' r :
  sql_inv s → new_key rec → sql_InsertSigningKey rec s = (r, s') → insert_spec rec s r s'.
Proof.
  intros Hi (Hst & Hr & He & _ & _). unfold sql_InsertSigningKey.
  destruct (insert_conflict _ _ s) eqn:Ec.
  - destruct (next s) as [o s0] eqn:E. apply next_eq in E as [[os ->] Hq]. intros [= <- <-].
    split.
    + split; [done|]. intros Q. destruct (Hq Q) as [_ E]. apply (f_equal outcomes) in E.
      cbn in *. congruence.
    + split; [by left|]. intros _ Hn. apply not_eq_None_Some. intros Hk.
      assert (insert_conflict (sk_Domain rec) (KID rec) s = false)
        by (by apply insert_conflict_false). congruence.
  - destruct (exec _ s) as [ok s0] eqn:E. intros [= <- <-].
    pose proof Ec as [Hn Hc]%insert_conflict_false.
    eapply exec_law in E as [Hs Hv]; [|done|intros os; by apply insert_row_law].
    split; [done|].
    assert (Hrec : with_created (trunc (CreatedAt rec)) rec =
      mkKey (sk_Domain rec) (KID rec) (sk_Algorithm rec) keyStateCurrent (trunc (CreatedAt rec)) zero_time zero_time)
      by (unfold with_created; by rewrite Hst, Hr, He).
    rewrite Hrec. destruct ok; [done|]. destruct Hv as [Hq [Hv|Hv]]; (split; [tauto|done]).
Qed.

Lemma time_Unix_nonzero x : 0 ≤ x → IsZero (time_Unix x) = false.
Proof. intros. apply bool_decide_eq_false. unfold zero_time, time_Unix, second. lia. Qed.
Lemma Unix_nonneg t : 0 ≤ t → 0 ≤ Unix t.
Proof. intros. apply Z.div_pos; [done|]. unfold second. lia. Qed.
Lemma Unix_ltb now x : (now <? time_Unix x) = negb (x <=? Unix now).
Proof.
  unfold time_Unix, Unix, second. rewrite <- Z.ltb_antisym. apply eq_true_iff_eq.
  rewrite !Z.ltb_lt. split; intros.
  - apply Z.div_lt_upper_bound; lia.
  - pose proof (Z.mod_pos_bound now (10 ^ 9)). pose proof (Z.div_mod now (10 ^ 9)). lia.
Qed.

Lemma retire_current_law d t ret s os :
  sql_inv s → 0 ≤ t + ret →
  let s' := retire_current d (Unix t) (Unix (t + ret)) (with_outcomes os s) in
  sql_inv s' ∧
  abs s' = on_keys (fmap (retire_in d (trunc t) (trunc (t + ret)))) (abs s) ∧ outcomes s' = os.
Proof.
  intros [H1 H2] Ht. cbv zeta. unfold retire_current, set_keys. cbn.
  assert (E : scan_keys (map_imap (λ p r, Some (if current_row d p r
                then retire_row (Unix t) (Unix (t + ret)) r else r)) (t_keys s)) =
              retire_in d (trunc t) (trunc (t + ret)) <$> scan_keys (t_keys s)).
  { apply map_eq. intros p. rewrite lookup_fmap, !scan_keys_lookup, map_lookup_imap.
    destruct (t_keys s !! p) as [r|]; [|done]. cbn. f_equal.
    unfold retire_in, current_row. cbn. unfold is_current. cbn. by destruct (_ && _). }
  split; [split|split; [|done]]; cbn.
  - rewrite E. by apply one_current_retire.
  - intros p r x. rewrite map_lookup_imap. destruct (t_keys s !! p) as [y|] eqn:Ey; [|done].
    cbn. intros [= <-]. destruct (current_row d p y); cbn; [|by eauto].
    intros [= <-]. by apply Unix_nonneg.
  - unfold on_keys. cbn. by rewrite E.
Qed.

Lemma next_settled s o s' :
  sql_inv s → next s = (o, s') → settled s s' ∧ (∃ os, s' = with_outcomes os s) ∧ (quiet s → o = Runs).
Proof.
  intros Hi E. apply next_eq in E as [[os ->] Hq]. split; [split; [done|]|split; [by eexists|]].
  - intros Q. destruct (Hq Q) as [_ E]. apply (f_equal outcomes) in E. cbn in *. congruence.
  - intros Q. by apply Hq in Q as [].
Qed.

(** A rotation that ends before its commit. *)
Lemma rotate_aborted now rec retention (s : db) os :
  sql_inv s → (quiet s → os = [] ∧ is_Some (v_keys (abs s) !! (sk_Domain rec, KID rec))) →
  rotate_spec now rec retention s (Err ErrStore) (with_outcomes os s).
Proof.
  intros Hi Hq. split; [split; [done|]|].
  - intros Q. by apply Hq in Q as [-> _].
  - exists now. split; [by left|]. split; [by left|]. intros Q. by apply Hq in Q as [_ ?].
Qed.

Lemma rotate_conflict d kid t ret (s : db) os :
  sql_inv s → 0 ≤ t + ret →
  insert_conflict d kid (retire_current d (Unix t) (Unix (t + ret)) (with_outcomes os s)) =
  bool_decide (is_Some (v_keys (abs s) !! (d, kid))).
Proof.
  intros Hi Ht. set (s' := retire_current _ _ _ _).
  destruct (retire_current_law d t ret s os Hi Ht) as (_ & Ha & _). fold s' in Ha.
  apply (f_equal v_keys) in Ha. cbn [abs v_keys sql_StoreView on_keys] in Ha.
  destruct (bool_decide_reflect (is_Some (v_keys (abs s) !! (d, kid)))) as [Hs|Hs].
  - apply not_false_iff_true. intros [Hn _]%insert_conflict_false.
    rewrite Ha, lookup_fmap, fmap_None in Hn. cbn in Hs. by rewrite Hn in Hs; destruct Hs.
  - apply insert_conflict_false. rewrite Ha. split.
    + rewrite lookup_fmap, fmap_None. by apply eq_None_not_Some.
    + apply no_current_retire, scan_keys_named.
Qed.

Lemma sql_rotate_law now rec retention s s' r :
  sql_inv s → new_key rec → 0 ≤ retention →
  sql_RotateSigningKey now (sk_Domain rec) rec retention s = (r, s') →
  rotate_spec now rec retention s r s'.
Proof.
  intros Hi (Hst & Hr & He & Hc & Hd) Hret. unfold sql_RotateSigningKey.
  replace (IsZero (CreatedAt rec)) with false
    by (symmetry; apply bool_decide_eq_false; unfold zero_time, second; lia).
  set (d := sk_Domain rec). set (t := CreatedAt rec). assert (Ht : 0 ≤ t + retention) by (unfold t; lia).
  unfold exec. destruct (next s) as [o1 s1] eqn:E1.
  pose proof (next_settled _ _ _ Hi E1) as ([_ Q1] & [os1 ->] & R1).
  destruct o1; cbn [negb]; [|intros [= <- <-]; apply rotate_aborted; [done|];
    intros Q; by discriminate (R1 Q)..].
  destruct (next (with_outcomes os1 s)) as [o2 s2] eqn:E2.
  pose proof (next_settled (with_outcomes os1 s) _ _ Hi E2) as ([_ Q2] & [os2 ->] & R2).
  destruct o2; cbn [negb]; [|intros [= <- <-]; apply (rotate_aborted now rec retention s os2);
    [done|]; intros Q; by discriminate (R2 (Q1 Q))..].
  change (with_outcomes os2 (with_outcomes os1 s)) with (with_outcomes os2 s).
  destruct (retire_current_law d t retention s os2 Hi Ht) as (Hi2 & Ha2 & Ho2).
  pose proof (rotate_conflict d (KID rec) t retention s os2 Hi Ht) as Hcf.
  set (w := retire_current d (Unix t) (Unix (t + retention)) (with_outcomes os2 s)) in *.
  assert (Q3 : quiet s → quiet w) by (intros Q; change (outcomes w = []); rewrite Ho2; exact (Q2 (Q1 Q))).
  destruct (insert_conflict d (KID rec) w) eqn:Ec.
  - intros [= <- <-]. apply rotate_aborted; [done|]. intros Q.
    symmetry in Hcf. apply bool_decide_eq_true in Hcf. split; [|done].
    destruct (next w) as [o3 s3] eqn:E3.
    pose proof (next_settled _ _ _ Hi2 E3) as ([_ Q4] & _). by apply Q4, Q3.
  - symmetry in Hcf. apply bool_decide_eq_false, eq_None_not_Some in Hcf.
    destruct (next w) as [o3 s3] eqn:E3.
    pose proof (next_settled _ _ _ Hi2 E3) as ([_ Q4] & [os3 ->] & R3).
    destruct o3; cbn [negb]; [|intros [= <- <-]; apply rotate_aborted; [done|];
      intros Q; by discriminate (R3 (Q3 Q))..].
    destruct (insert_row_law d (KID rec) (sk_Algorithm rec) t w os3 Hi2 Ec) as (Hi4 & Ha4 & Ho4).
    set (x := insert_row d (KID rec) (sk_Algorithm rec) t (with_outcomes os3 w)) in *.
    assert (Q5 : quiet s → quiet x) by (intros Q; change (outcomes x = []); rewrite Ho4; exact (Q4 (Q3 Q))).
    destruct (next x) as [o4 s4] eqn:E4.
    pose proof (next_settled _ _ _ Hi4 E4) as ([Hi5 Q6] & [os4 ->] & R4).
    assert (Hv : abs (with_outcomes os4 x) = rotated d t retention rec (abs s)).
    { change (abs (with_outcomes os4 x)) with (abs x). rewrite Ha4, Ha2.
      unfold rotated, on_keys, with_created. cbn [v_keys v_codes v_sessions v_clients].
      by rewrite Hst, Hr, He. }
    destruct o4; intros [= <- <-].
    + split; [split; [done|auto]|]. exists t. split; [by right|]. done.
    + apply rotate_aborted; [done|]. intros Q. by discriminate (R4 (Q5 Q)).
    + split; [split; [done|auto]|]. exists t. split; [by right|]. split; [by right|].
      intros Q. by discriminate (R4 (Q5 Q)).
Qed.

Lemma scan_keys_revoke m now p :
  scan_keys (alter (retire_row (Unix now) 1) p m) =
  alter (retire (trunc now) (time_Unix 1)) p (scan_keys m).
Proof.
  apply map_eq. intros q. rewrite scan_keys_lookup. destruct (decide (p = q)) as [->|].
  - rewrite !lookup_alter_eq, scan_keys_lookup. by destruct (m !! q).
  - by rewrite !lookup_alter_ne, scan_keys_lookup.
Qed.
Lemma sql_revoke_law now d kid s s' r :
  sql_inv s → sql_RevokeSigningKey now d kid s = (r, s') → revoke_spec now d kid s r s'.
Proof.
  intros [H1 H2]. unfold sql_RevokeSigningKey. destruct (exec _ s) as [ok s0] eqn:E.
  eapply (exec_law _ _ _ _ (on_keys (alter (retire (trunc now) (time_Unix 1)) (d, kid)) (abs s)))
    in E as [Hs Hv]; [|done|].
  - assert (Hl : is_Some (v_keys (abs s) !! (d, kid)) ↔ is_Some (t_keys s !! (d, kid)))
      by (cbn; by rewrite scan_keys_lookup, fmap_is_Some).
    destruct ok; intros [= <- <-]; (split; [done|]); cbv zeta.
    + destruct (bool_decide_reflect (is_Some (t_keys s !! (d, kid)))) as [Hk|Hk].
      * split; [by apply Hl|done].
      * split; [by right|]. intros _. apply eq_None_not_Some. by rewrite Hl.
    + destruct Hv as [Hq Hv]. done.
  - intros os. unfold set_keys. cbn. split; [split|split; [|done]]; cbn.
    + rewrite scan_keys_revoke. apply keys_good_alter. split; [done|apply scan_keys_named].
    + intros p x y Hp Hy. apply lookup_alter_Some in Hp as [(_ & z & _ & ->)|[_ Hp]]; [|by eauto].
      by injection Hy as <-.
    + unfold on_keys. cbn. by rewrite scan_keys_revoke.
Qed.

Lemma row_lapsed_scan now p r :
  (∀ x, expires_at r = Some x → 0 ≤ x) → lapsed now (scanSigningKey p r) = row_lapsed (Unix now) r.
Proof.
  intros Hx. unfold lapsed, row_lapsed. cbn [State sk_ExpiresAt scanSigningKey].
  rewrite <- andb_assoc. f_equal. destruct (expires_at r) as [x|]; cbn [from_option].
  - by rewrite time_Unix_nonzero, Unix_ltb, negb_involutive by auto.
  - done.
Qed.
Lemma sql_sweep_keys_law now s s' r :
  sql_inv s → sql_SweepExpiredSigningKeys now s = (r, s') → sweep_keys_spec now s r s'.
Proof.
  intros [H1 H2]. unfold sql_SweepExpiredSigningKeys. destruct (exec _ s) as [ok s0] eqn:E.
  assert (Hl : ∀ p x, t_keys s !! p = Some x → lapsed now (scanSigningKey p x) = row_lapsed (Unix now) x)
    by (intros p x Hp; apply row_lapsed_scan; eauto).
  assert (Hf : scan_keys (filter (λ '(_, x), row_lapsed (Unix now) x = false) (t_keys s)) =
               filter (λ '(_, x), lapsed now x = false) (scan_keys (t_keys s))).
  { apply map_eq. intros p. apply option_eq. intros x.
    rewrite scan_keys_lookup, fmap_Some, map_lookup_filter_Some, scan_keys_lookup, fmap_Some.
    setoid_rewrite map_lookup_filter_Some. split.
    - intros (y & [Hy Hz] & ->). split; [by eexists|]. by rewrite (Hl p y).
    - intros [(y & Hy & ->) Hz]. exists y. by rewrite (Hl p y) in Hz. }
  eapply (exec_law _ _ _ _ (on_keys (filter (λ '(_, x), lapsed now x = false)) (abs s)))
    in E as [Hs Hv]; [|done|].
  - destruct ok; intros [= <- <-]; (split; [done|]); [|done]. split; [done|].
    intros rec. rewrite list_elem_of_fmap. cbn. setoid_rewrite scan_keys_lookup. split.
    + intros ([p x] & -> & Hx). apply list_elem_of_filter in Hx as [Hz Hx%elem_of_map_to_list].
      split; [by rewrite (Hl p x)|]. exists p. by rewrite Hx.
    + intros [Hz [p (x & Hx & ->)%fmap_Some]]. exists (p, x). split; [done|].
      apply list_elem_of_filter. rewrite elem_of_map_to_list. by rewrite (Hl p x) in Hz.
  - intros os. unfold set_keys. cbn. split; [split|split; [|done]]; cbn.
    + rewrite Hf. eapply one_current_sub, H1. apply map_filter_subseteq.
    + intros p x y [Hp _]%map_lookup_filter_Some. by eauto.
    + unfold on_keys. cbn. by rewrite Hf.
Qed.

Lemma time_Unix_lt a b : time_Unix a < time_Unix b ↔ a < b.
Proof. unfold time_Unix, second. lia. Qed.
Lemma filter_expiry {A} (f : A → Z) now (m : gmap string A) :
  filter (λ '(_, c), Unix now < Unix (f c)) m =
  filter (λ '(_, c), time_Unix (Unix now) < time_Unix (Unix (f c))) m.
Proof. apply map_filter_ext. intros i x _. by rewrite time_Unix_lt. Qed.

Lemma sql_sweep_law now s s' r :
  sql_inv s → sql_SweepExpired now s = (r, s') → sweep_spec now s r s'.
Proof.
  intros Hi. unfold sql_SweepExpired. cbv zeta. destruct (exec _ s) as [ok s1] eqn:E1.
  eapply (exec_law _ _ _ _ (on_codes (filter (λ '(_, c), trunc now < trunc (ac_ExpiresAt c))) (abs s)))
    in E1 as [[Hi1 Q1] V1]; [|done|].
  2:{ intros os. split; [done|]. split; [|done]. unfold on_codes. cbn. f_equal. apply filter_expiry. }
  destruct ok.
  - destruct (exec _ s1) as [ok s2] eqn:E2.
    eapply (exec_law _ _ _ _ (on_sessions (filter (λ '(_, x), trunc now < trunc (ss_ExpiresAt x))) (abs s1)))
      in E2 as [[Hi2 Q2] V2]; [|done|].
    2:{ intros os. split; [done|]. split; [|done]. unfold on_sessions. cbn. f_equal. apply filter_expiry. }
    destruct ok; intros [= <- <-]; (split; [split; [done|tauto]|]).
    + rewrite V2, V1. repeat split; apply map_filter_subseteq.
    + destruct V2 as [N2 [V2|V2]]; rewrite V2, V1; repeat split; try apply map_filter_subseteq; auto.
  - intros [= <- <-]. destruct V1 as [N1 V1]. split; [split; [done|tauto]|].
    destruct V1 as [V1|V1]; rewrite V1; repeat split; try apply map_filter_subseteq; done.
Qed.

Lemma scan_clients_insert m p row c :
  decode_client p.1 p.2 row = Some c → scan_clients (<[p := row]> m) = <[p := c]> (scan_clients m).
Proof.
  intros E. apply map_eq. intros q. unfold scan_clients. rewrite map_lookup_imap.
  destruct (decide (q = p)) as [->|].
  - by rewrite !lookup_insert_eq.
  - by rewrite !lookup_insert_ne, map_lookup_imap.
Qed.
Lemma sql_register_law c s :
  sql_inv s → storable c →
  maybe s (sql_RegisterClient c s)
    (on_clients (insert (rc_Domain c, rc_ClientID c) (with_registered (trunc (RegisteredAt c)) c)) (abs s)).
Proof.
  intros Hi Hc. apply exec_maybe; [done|]. intros os. split; [done|]. split; [|done].
  unfold on_clients. cbn. f_equal. apply scan_clients_insert. cbn.
  by rewrite unmarshal_marshal.
Qed.
Lemma sql_consume_law now x s s' r :
  sql_inv s → sql_ConsumeCode now x s = (r, s') → consume_spec now x s r s'.
Proof.
  intros Hi. unfold sql_ConsumeCode. destruct (exec _ s) as [ok s1] eqn:E.
  eapply (exec_law _ _ _ _ (code_removed x s)) in E as [Hs V]; [|done|by intros os].
  destruct ok.
  - destruct (t_codes s !! x) as [c|] eqn:Ec.
    + destruct (Z.ltb_spec (ac_ExpiresAt c) now); intros [= <- <-]; (split; [done|]); [|done].
      by exists c.
    + intros [= <- <-]. split; [done|]. split; [done|]. rewrite V.
      unfold code_removed, on_codes. cbn. by rewrite delete_id.
  - intros [= <- <-]. split; [done|]. done.
Qed.
Lemma sql_delete_session_law x s :
  sql_inv s → maybe s (sql_DeleteSession x s) (on_sessions (delete x) (abs s)).
Proof. intros Hi. apply exec_maybe; [done|]. by intros os. Qed.
Lemma sql_lookup_session_law now x s s' o :
  sql_inv s → sql_LookupSession now x s = (o, s') → lookup_session_spec now x s o s'.
Proof.
  intros Hi. unfold sql_LookupSession. destruct (exec _ s) as [ok s1] eqn:E.
  apply exec_read in E as ([Hi1 Q1] & Ha & [os ->] & Hok); [|done].
  destruct ok; [|intros [= <- <-]; split; [done|]; split; [by left|]; intros Q; by destruct (Hok eq_refl)].
  cbn [t_sessions with_outcomes]. destruct (t_sessions s !! x) as [y|] eqn:Ey.
  - destruct (Z.ltb_spec (ss_ExpiresAt y) now); intros [= <- <-].
    + destruct (sql_delete_session_law x (with_outcomes os s) Hi) as (Hi2 & Q2 & V2).
      split; [split; [done|intros Q; by apply Q2, Q1]|]. split; [tauto|].
      intros _ z. cbn. rewrite Ey. by intros [= <-].
    + split; [done|]. done.
  - intros [= <- <-]. split; [done|]. split; [by left|]. intros _ z. cbn. by rewrite Ey.
Qed.

#[export] Instance sql_StoreLaws : StoreLaws db.
Proof.
  constructor.
  - intros t. cbn. unfold time_Unix, Unix, second.
    pose proof (Z.mod_pos_bound t (10 ^ 9)). pose proof (Z.div_mod t (10 ^ 9)). lia.
  - intros t Ht. cbn. unfold time_Unix. pose proof (Unix_nonneg t Ht). unfold second. lia.
  - intros s [H1 _]. split; [done|apply scan_keys_named].
  - intros s p c Hi. cbn. unfold scan_clients. rewrite map_lookup_imap.
    destruct (t_clients s !! p) as [[[name uris] at_]|]; [|done]. cbn.
    destruct (unmarshal_strings uris); [|done]. cbn. intros [= <-]. by destruct p.
  - intros c s Hi. apply exec_maybe; [done|]. intros os. done.
  - exact sql_consume_law.
  - intros x s Hi. apply exec_maybe; [done|]. intros os. done.
  - exact sql_lookup_session_law.
  - exact sql_delete_session_law.
  - intros c s Hi Hc _. by apply sql_register_law.
  - intros d x s s' o Hi _. cbn. unfold sql_LookupClient. destruct (exec _ s) as [ok s1] eqn:E.
    apply exec_read in E as (Hs & Ha & [os ->] & Hok); [|done].
    destruct ok; intros [= <- <-]; (split; [done|]; split; [done|]).
    + left. unfold scan_clients. by rewrite map_lookup_imap.
    + right. split; [done|by apply Hok].
  - exact sql_sweep_law.
  - intros d s s' r Hi _. cbn. unfold sql_ListSigningKeys. destruct (exec _ s) as [ok s1] eqn:E.
    apply exec_read in E as (Hs & Ha & [os ->] & Hok); [|done].
    destruct ok; intros [= <- <-]; (split; [done|]; split; [done|]); [|by apply Hok].
    intros rec. rewrite list_elem_of_filter, elem_of_rows. cbn. split.
    + intros [<- [p Hp]]. exists (KID rec). by rewrite (scan_keys_named _ _ _ Hp) in Hp.
    + intros [kid Hp]. pose proof (scan_keys_named _ _ _ Hp) as [= -> _]. split; [done|by eexists].
  - exact sql_insert_law.
  - intros now rec ret s s' r Hi Hn _ Hr. by apply sql_rotate_law.
  - intros now d kid s s' r Hi _. by apply sql_revoke_law.
  - exact sql_sweep_keys_law.
Qed.
End SqlLaws.

(** ** Any interleaving of store operations

    Handlers of concurrent requests, the sweeper, the rotator and the operator's
    tool share a store; each of their calls is one atomic operation. *)
Inductive op :=
| OStoreCode (c : authCode)
| OConsume (now : Z) (x : string)
| OStoreSession (y : ssoSession)
| OLookupSession (now : Z) (x : string)
| ODeleteSession (x : string)
| ORegister (c : registeredClient)
| OLookupClient (d x : string)
| OSweep (now : Z)
| OList (d : string)
| OInsert (rec : signingKeyRecord)
| ORotate (now : Z) (rec : signingKeyRecord) (retention : Z)
| ORevoke (now : Z) (d kid : string)
| OSweepKeys (now : Z).

Section Interleavings.
Context {S : Type} `{StoreLaws S}.

Definition op_ok (o : op) : Prop :=
  match o with
  | ORegister c => storable c ∧ no_byte NUL (rc_Domain c)
  | OLookupClient d _ | OList d | ORevoke _ d _ => no_byte NUL d
  | OInsert rec => new_key rec
  | ORotate now rec retention => new_key rec ∧ 0 ≤ now ∧ 0 ≤ retention
  | _ => True
  end.

(** The code handed out by a consumption, and the store. *)
Definition do_op (o : op) (s : S) : option authCode * S :=
  match o with
  | OStoreCode c => (None, StoreCode c s)
  | OConsume now x =>
      let '(r, s) := ConsumeCode now x s in
      (match r with Ok c => Some c | Err _ => None end, s)
  | OStoreSession y => (None, StoreSession y s)
  | OLookupSession now x => (None, (LookupSession now x s).2)
  | ODeleteSession x => (None, DeleteSession x s)
  | ORegister c => (None, RegisterClient c s)
  | OLookupClient d x => (None, (LookupClient d x s).2)
  | OSweep now => (None, (SweepExpired now s).2)
  | OList d => (None, (ListSigningKeys d s).2)
  | OInsert rec => (None, (InsertSigningKey rec s).2)
  | ORotate now rec retention => (None, (RotateSigningKey now (sk_Domain rec) rec retention s).2)
  | ORevoke now d kid => (None, (RevokeSigningKey now d kid s).2)
  | OSweepKeys now => (None, (SweepExpiredSigningKeys now s).2)
  end.
Fixpoint run (ops : list op) (s : S) : list (op * option authCode) * S :=
  match ops with
  | [] => ([], s)
  | o :: ops =>
      let '(r, s) := do_op o s in
      let '(tr, s) := run ops s in
      ((o, r) :: tr, s)
  end.

Lemma run_snoc ops o s :
  run (ops ++ [o]) s =
  ((run ops s).1 ++ [(o, (do_op o (run ops s).2).1)], (do_op o (run ops s).2).2).
Proof.
  revert s. induction ops as [|o' ops IH]; intros s; simpl.
  - by destruct (do_op o s).
  - destruct (do_op o' s) as [r s1]. rewrite IH. by destruct (run ops s1).
Qed.
Lemma run_length ops s : length (run ops s).1 = length ops.
Proof.
  revert s. induction ops as [|o ops IH]; intros s; simpl; [done|].
  destruct (do_op o s) as [r s1]. specialize (IH s1). destruct (run ops s1). simpl in *. congruence.
Qed.
Lemma run_take ops s i : (run (take i ops) s).1 = take i (run ops s).1.
Proof.
  revert s i. induction ops as [|o ops IH]; intros s [|i]; simpl; try done.
  destruct (do_op o s) as [r s1]. specialize (IH s1 i).
  destruct (run (take i ops) s1), (run ops s1). simpl in *. congruence.
Qed.

(** Calls that answer with a result and leave a settled store. *)
Ltac by_law L :=
  match goal with
  | |- context [(?f ?s).2] =>
      let r := fresh "r" in let s' := fresh "s'" in let E := fresh "E" in
      destruct (f s) as [r s'] eqn:E; cbn [snd]; apply L in E; [|done..]
  end.

Lemma op_inv o s : inv s → op_ok o → inv (do_op o s).2.
Proof.
  intros Hi Ho. destruct o; simpl in *.
  - by apply law_store_code.
  - destruct (ConsumeCode now x s) as [r s'] eqn:E. by apply law_consume in E as [[]].
  - by apply law_store_session.
  - by_law law_lookup_session. by destruct E as [[]].
  - by apply law_delete_session.
  - destruct Ho. by apply law_register.
  - by_law law_lookup_client. by destruct E as [[]].
  - by_law law_sweep. by destruct E as [[]].
  - by_law law_list. by destruct E as [[]].
  - by_law law_insert. by destruct E as [[]].
  - destruct Ho as (? & ? & ?). by_law law_rotate. by destruct E as [[]].
  - by_law law_revoke. by destruct E as [[]].
  - by_law law_sweep_keys. by destruct E as [[]].
Qed.
Lemma run_inv ops s : inv s → Forall op_ok ops → inv (run ops s).2.
Proof.
  induction ops as [|o ops IH] using rev_ind; intros Hi Ho; [done|].
  rewrite run_snoc. apply Forall_app in Ho as [Ho Hlast]. apply Forall_cons in Hlast as [Hlast _].
  cbn [snd]. apply op_inv; auto.
Qed.

(** Where a code in the store comes from, and what a consumption does to it. *)
Lemma op_codes o s x c :
  inv s → op_ok o → v_codes (abs (do_op o s).2) !! x = Some c →
  (∃ c0, o = OStoreCode c0 ∧ ac_Code c0 = x ∧ c = with_expiry (trunc (ac_ExpiresAt c0)) c0) ∨
  (v_codes (abs s) !! x = Some c ∧
   ∀ now c', o = OConsume now x → (do_op o s).1 ≠ Some c').
Proof.
  intros Hi Ho. destruct o; simpl in *.
  - destruct (law_store_code c0 s Hi) as (_ & _ & [->| ->]); simpl; [|by right].
    destruct (decide (ac_Code c0 = x)) as [Hx|Hx].
    + rewrite Hx, lookup_insert_eq. intros [= <-]. left. by exists c0.
    + rewrite lookup_insert_ne by done. by right.
  - destruct (ConsumeCode now x0 s) as [r s'] eqn:E. apply law_consume in E as [_ E]; [|done]. simpl.
    assert (Hd : v_codes (code_removed x0 s) !! x = Some c → v_codes (abs s) !! x = Some c ∧ x0 ≠ x).
    { simpl. intros Hl. apply lookup_delete_Some in Hl as [? ?]. done. }
    intros Hl. right. destruct r as [c1|[]].
    + destruct E as (_ & _ & E). rewrite E in Hl. apply Hd in Hl as [Hl Hx].
      split; [done|]. intros now' c' [= _ ?]. done.
    + destruct E as [_ E]. rewrite E in Hl. by split.
    + destruct E as (c1 & _ & _ & E). rewrite E in Hl. by apply Hd in Hl as [Hl Hx].
    + destruct E as [_ [E|E]]; rewrite E in Hl; [by split|]. by apply Hd in Hl as [Hl Hx].
  - destruct (law_store_session y s Hi) as (_ & _ & [->| ->]); by right.
  - by_law law_lookup_session. right. split; [|done].
    destruct E as [_ E]. destruct r as [y|]; simpl in *.
    + destruct E as (_ & _ & E). congruence.
    + destruct E as [[E|E] _]; rewrite E in *; done.
  - destruct (law_delete_session x0 s Hi) as (_ & _ & [->| ->]); by right.
  - destruct Ho. destruct (law_register c0 s Hi) as (_ & _ & [->| ->]); [done..| |]; by right.
  - by_law law_lookup_client. destruct E as (_ & -> & _). by right.
  - by_law law_sweep. destruct E as (_ & Hsub & _). intros Hl. right. split; [|done].
    by eapply lookup_weaken.
  - by_law law_list. destruct E as (_ & -> & _). by right.
  - by_law law_insert. destruct E as (_ & E). right. split; [|done].
    destruct r; [destruct E as [_ E]|destruct E as [[E|[_ E]] _]]; simpl in *; rewrite E in *; done.
  - destruct Ho as (? & ? & ?). by_law law_rotate. destruct E as (_ & t & _ & E). right. split; [|done].
    destruct r; [destruct E as [_ E]|destruct E as [[E|[_ E]] _]]; simpl in *; rewrite E in *; done.
  - by_law law_revoke. destruct E as (_ & E). right. split; [|done].
    destruct r; [destruct E as [_ E]|destruct E as [[E|E] _]]; simpl in *; rewrite E in *; done.
  - by_law law_sweep_keys. destruct E as (_ & E). right. split; [|done].
    destruct r; [destruct E as [E _]|destruct E as [_ [E|E]]]; simpl in *; rewrite E in *; done.
Qed.

Lemma op_sessions o s x y :
  inv s → op_ok o → v_sessions (abs (do_op o s).2) !! x = Some y →
  (∃ y0, o = OStoreSession y0 ∧ y = with_session_expiry (trunc (ss_ExpiresAt y0)) y0) ∨
  v_sessions (abs s) !! x = Some y.
Proof.
  intros Hi Ho. destruct o; simpl in *.
  - destruct (law_store_code c s Hi) as (_ & _ & [->| ->]); by right.
  - destruct (ConsumeCode now x0 s) as [r s'] eqn:E. apply law_consume in E as [_ E]; [|done]. simpl.
    destruct r as [c|[]]; [destruct E as (_ & _ & ->)|destruct E as [_ ->]|destruct E as (? & _ & _ & ->)
      |destruct E as [_ [->| ->]]]; by right.
  - destruct (law_store_session y0 s Hi) as (_ & _ & [->| ->]); simpl; [|by right].
    destruct (decide (ss_ID y0 = x)) as [<-|Hx].
    + rewrite lookup_insert_eq. intros [= <-]. left. by exists y0.
    + rewrite lookup_insert_ne by done. by right.
  - by_law law_lookup_session. destruct E as [_ E]. destruct r as [z|].
    + destruct E as (_ & _ & ->). by right.
    + destruct E as [[->| ->] _]; [by right|]. simpl. intros [_ Hl]%lookup_delete_Some. by right.
  - destruct (law_delete_session x0 s Hi) as (_ & _ & [->| ->]); [|by right].
    simpl. intros [_ Hl]%lookup_delete_Some. by right.
  - destruct Ho. destruct (law_register c s Hi) as (_ & _ & [->| ->]); [done..| |]; by right.
  - by_law law_lookup_client. destruct E as (_ & -> & _). by right.
  - by_law law_sweep. destruct E as (_ & _ & Hsub & _). intros Hl. right. by eapply lookup_weaken.
  - by_law law_list. destruct E as (_ & -> & _). by right.
  - by_law law_insert. destruct E as (_ & E). right.
    destruct r; [destruct E as [_ E]|destruct E as [[E|[_ E]] _]]; simpl in *; rewrite E in *; done.
  - destruct Ho as (? & ? & ?). by_law law_rotate. destruct E as (_ & t & _ & E). right.
    destruct r; [destruct E as [_ E]|destruct E as [[E|[_ E]] _]]; simpl in *; rewrite E in *; done.
  - by_law law_revoke. destruct E as (_ & E). right.
    destruct r; [destruct E as [_ E]|destruct E as [[E|E] _]]; simpl in *; rewrite E in *; done.
  - by_law law_sweep_keys. destruct E as (_ & E). right.
    destruct r; [destruct E as [E _]|destruct E as [_ [E|E]]]; simpl in *; rewrite E in *; done.
Qed.

(** A code still in the store was put there by an operation that no redemption
    of it follows. *)
Definition pending (x : string) (tr : list (op * option authCode)) (n : nat) (c : authCode) : Prop :=
  ∃ j c0, (j < n)%nat ∧ tr !! j = Some (OStoreCode c0, None) ∧ ac_Code c0 = x ∧
    c = with_expiry (trunc (ac_ExpiresAt c0)) c0 ∧
    ∀ k now c', (j < k < n)%nat → tr !! k ≠ Some (OConsume now x, Some c').

Lemma codes_pending ops s x c :
  inv s → Forall op_ok ops → v_codes (abs s) = ∅ →
  v_codes (abs (run ops s).2) !! x = Some c → pending x (run ops s).1 (length ops) c.
Proof.
  intros Hi. revert c. induction ops as [|o ops IH] using rev_ind; intros c Ho He.
  - simpl. rewrite He. by rewrite lookup_empty.
  - apply Forall_app in Ho as [Ho Hlast]. apply Forall_cons in Hlast as [Hlast _].
    rewrite run_snoc, length_app. cbn [fst snd length]. intros Hl.
    pose proof (run_length ops s) as Hlen. pose proof (run_inv ops s Hi Ho) as Hi'.
    destruct (op_codes o _ x c Hi' Hlast Hl) as [(c0 & -> & Hx & Hc)|[Hl' Hn]].
    + exists (length ops), c0. split; [lia|]. split; [|split; [done|split; [done|]]].
      * rewrite lookup_app_r, Hlen, Nat.sub_diag by lia. done.
      * intros k now c' Hk. lia.
    + destruct (IH c Ho He Hl') as (j & c0 & Hj & Htr & Hx & Hc & Hk).
      exists j, c0. split; [lia|]. split; [by apply lookup_app_l_Some|].
      split; [done|]. split; [done|]. intros k now c' Hkk.
      destruct (decide (k < length ops)%nat).
      * rewrite lookup_app_l by lia. apply Hk. lia.
      * replace k with (length ops) by lia. rewrite lookup_app_r, Hlen, Nat.sub_diag by lia.
        intros [= -> E]. by eapply Hn.
Qed.

Lemma run_nth ops s i o r :
  (run ops s).1 !! i = Some (o, r) → ops !! i = Some o ∧ r = (do_op o (run (take i ops) s).2).1.
Proof.
  intros Hi. assert (Hlt : (i < length ops)%nat).
  { rewrite <- (run_length ops s). by eapply lookup_lt_Some. }
  destruct (lookup_lt_is_Some_2 ops i Hlt) as [o' Ho'].
  assert (Ht : take (Datatypes.S i) ops = take i ops ++ [o']) by by apply take_S_r.
  pose proof (run_take ops s (Datatypes.S i)) as E. rewrite Ht, run_snoc in E. cbn [fst] in E.
  assert (Hi' : take (Datatypes.S i) (run ops s).1 !! i = Some (o, r))
    by (rewrite lookup_take_lt by lia; done).
  rewrite <- E, lookup_app_r in Hi' by (rewrite run_length, length_take; lia).
  rewrite run_length, length_take, Nat.min_l, Nat.sub_diag in Hi' by lia.
  by injection Hi' as -> <-.
Qed.

(** C24 An authorization code is redeemed at most once per issue, whatever
    operations of concurrent requests, sweeps and rotations lie in between and
    whichever writes fail: every redemption returns the contents of a code stored
    earlier under that name, not past its expiry, and no other redemption of the
    code lies between the two. *)
Theorem codes_single_use (ops : list op) (s : S) (i : nat) (now : Z) (x : string) (c : authCode) :
  inv s → Forall op_ok ops → v_codes (abs s) = ∅ →
  (run ops s).1 !! i = Some (OConsume now x, Some c) →
  ∃ j c0, (j < i)%nat ∧ ops !! j = Some (OStoreCode c0) ∧ ac_Code c0 = x ∧
    c = with_expiry (trunc (ac_ExpiresAt c0)) c0 ∧ now ≤ ac_ExpiresAt c0 ∧
    ∀ k now' c', (j < k < i)%nat → (run ops s).1 !! k ≠ Some (OConsume now' x, Some c').
Proof.
  intros Hi Ho He Hr. destruct (run_nth _ _ _ _ _ Hr) as [Hop Hc].
  assert (Hlt : (i < length ops)%nat) by by eapply lookup_lt_Some.
  assert (Ho' : Forall op_ok (take i ops)) by by apply Forall_take.
  pose proof (run_inv _ s Hi Ho') as Hi'. simpl in Hc.
  destruct (ConsumeCode now x (run (take i ops) s).2) as [r s'] eqn:E.
  apply law_consume in E as [_ E]; [|done]. simpl in Hc.
  destruct r as [c1|]; [|done]. injection Hc as ->. destruct E as (Hl & Hnow & _).
  destruct (codes_pending _ s x c1 Hi Ho' He Hl) as (j & c0 & Hj & Htr & Hx & Hcc & Hk).
  rewrite length_take in *. rewrite run_take in *.
  rewrite lookup_take_lt in Htr by lia. apply run_nth in Htr as [Htr _].
  exists j, c0. split; [lia|]. split; [done|]. split; [done|]. split; [done|]. split.
  - rewrite Hcc in Hnow. simpl in Hnow. pose proof (trunc_bounds (ac_ExpiresAt c0)). lia.
  - intros k now' c' Hki E2. apply (Hk k now' c'); [lia|]. by rewrite lookup_take_lt by lia.
Qed.

(** *** The life of a signing key *)
Section KeyLife.
Variables (p : string * string) (t0 R : Z).

(** Current, or retiring with an expiry that is no earlier than the retention
    counted from [t0], up to the precision of the store. *)
Definition alive (s : S) : Prop :=
  ∃ r, v_keys (abs s) !! p = Some r ∧ (is_current r = true ∨ t0 + R - second < sk_ExpiresAt r).

(** Operations after [t0] and sweeps before the end that do not target the key:
    rotations keep the retention, and no one revokes it. *)
Definition op_late (o : op) : Prop :=
  match o with
  | ORotate now rec retention => t0 ≤ now ∧ t0 ≤ CreatedAt rec ∧ R ≤ retention
  | OInsert rec => (sk_Domain rec, KID rec) ≠ p
  | ORevoke _ d kid => (d, kid) ≠ p
  | OSweepKeys now => now ≤ t0 + R - second
  | _ => True
  end.

Lemma alive_view s s' : v_keys (abs s') = v_keys (abs s) → alive s → alive s'.
Proof. unfold alive. by intros ->. Qed.

Lemma alive_not_lapsed s now r :
  now ≤ t0 + R - second → v_keys (abs s) !! p = Some r →
  is_current r = true ∨ t0 + R - second < sk_ExpiresAt r → lapsed now r = false.
Proof.
  intros Hnow _ [Hc|He]; unfold lapsed.
  - apply bool_decide_eq_true in Hc. by rewrite Hc.
  - replace (now <? sk_ExpiresAt r) with true by (symmetry; apply Z.ltb_lt; lia).
    by rewrite andb_false_r.
Qed.

Lemma alive_rotate s s' rec t retention :
  t0 ≤ t → R ≤ retention → v_keys (abs s) !! (sk_Domain rec, KID rec) = None →
  abs s' = rotated (sk_Domain rec) t retention rec (abs s) → alive s → alive s'.
Proof.
  intros Ht HR Hn Ha (r & Hl & Hr). unfold alive. rewrite Ha. simpl.
  exists (retire_in (sk_Domain rec) (trunc t) (trunc (t + retention)) r).
  rewrite lookup_insert_ne by congruence. rewrite lookup_fmap, Hl. split; [done|].
  unfold retire_in. destruct (_ && _) eqn:E; [|done]. right. simpl.
  pose proof (trunc_bounds (t + retention)). lia.
Qed.

Lemma op_alive o s : inv s → op_ok o → op_late o → alive s → alive (do_op o s).2.
Proof.
  intros Hi Ho Hlate Ha. destruct o; simpl in *.
  - eapply alive_view, Ha. destruct (law_store_code c s Hi) as (_ & _ & [->| ->]); done.
  - destruct (ConsumeCode now x s) as [r s'] eqn:E. apply law_consume in E as [_ E]; [|done].
    eapply alive_view, Ha. simpl. destruct r as [c|[]];
      [destruct E as (_ & _ & ->)|destruct E as [_ ->]|destruct E as (? & _ & _ & ->)
      |destruct E as [_ [->| ->]]]; done.
  - eapply alive_view, Ha. destruct (law_store_session y s Hi) as (_ & _ & [->| ->]); done.
  - by_law law_lookup_session. eapply alive_view, Ha. destruct E as [_ E].
    destruct r as [y|]; [by destruct E as (_ & _ & ->)|by destruct E as [[->| ->] _]].
  - eapply alive_view, Ha. destruct (law_delete_session x s Hi) as (_ & _ & [->| ->]); done.
  - destruct Ho. eapply alive_view, Ha. destruct (law_register c s Hi) as (_ & _ & [->| ->]); done.
  - by_law law_lookup_client. eapply alive_view, Ha. by destruct E as (_ & -> & _).
  - by_law law_sweep. eapply alive_view, Ha. by destruct E as (_ & _ & _ & _ & -> & _).
  - by_law law_list. eapply alive_view, Ha. by destruct E as (_ & -> & _).
  - by_law law_insert. destruct E as (_ & E).
    assert (Hcase : abs s' = abs s ∨ abs s' = on_keys (insert (sk_Domain rec, KID rec)
                      (with_created (trunc (CreatedAt rec)) rec)) (abs s))
      by (destruct r; [destruct E as [_ E]|destruct E as [[E|[_ E]] _]]; auto).
    destruct Hcase as [E'|E']; [by eapply alive_view; [rewrite E'|]|].
    destruct Ha as (r' & Hl & Hr). exists r'. rewrite E'. simpl. by rewrite lookup_insert_ne.
  - destruct Ho as (? & ? & ?), Hlate as (? & ? & ?). by_law law_rotate. destruct E as (_ & t & Ht & E).
    assert (Hcase : abs s' = abs s ∨ v_keys (abs s) !! (sk_Domain rec, KID rec) = None ∧
                      abs s' = rotated (sk_Domain rec) t retention rec (abs s))
      by (destruct r; [destruct E as [? E]|destruct E as [[E|[? E]] _]]; auto).
    destruct Hcase as [E'|[Hn E']]; [by eapply alive_view; [rewrite E'|]|].
    eapply (alive_rotate s s' rec t); eauto. destruct Ht; lia.
  - by_law law_revoke. destruct E as (_ & E).
    assert (Hcase : abs s' = abs s ∨ abs s' = on_keys (alter (retire (trunc now) (time_Unix 1)) (d, kid)) (abs s))
      by (destruct r; [destruct E as [_ E]|destruct E as [[E|E] _]]; auto).
    destruct Hcase as [E'|E']; [by eapply alive_view; [rewrite E'|]|].
    destruct Ha as (r' & Hl & Hr). exists r'. rewrite E'. simpl. by rewrite lookup_alter_ne.
  - by_law law_sweep_keys. destruct E as (_ & E).
    assert (Hcase : abs s' = abs s ∨ abs s' = on_keys (filter (λ '(_, x), lapsed now x = false)) (abs s))
      by (destruct r; [destruct E as [E _]|destruct E as [_ [E|E]]]; auto).
    destruct Hcase as [E'|E']; [by eapply alive_view; [rewrite E'|]|].
    destruct Ha as (r' & Hl & Hr). exists r'. rewrite E'. simpl. split; [|done].
    apply map_lookup_filter_Some. split; [done|]. by eapply alive_not_lapsed.
Qed.
End KeyLife.

Lemma run_alive p t0 R ops s :
  inv s → Forall op_ok ops → Forall (op_late p t0 R) ops → alive p t0 R s → alive p t0 R (run ops s).2.
Proof.
  intros Hi. induction ops as [|o ops IH] using rev_ind; intros Ho Hl Ha; [done|].
  apply Forall_app in Ho as [Ho Ho1], Hl as [Hl Hl1].
  apply Forall_cons in Ho1 as [Ho1 _], Hl1 as [Hl1 _].
  rewrite run_snoc. cbn [snd]. apply op_alive; [by apply run_inv|done..|]. auto.
Qed.

(** C35 A key that signs at [t0] can verify what it signed: whatever rotations with
    retention [R], sweeps and other operations follow, it is listed and not past
    its expiry until [t0 + R], up to the second the store rounds to, unless it is
    revoked. Tokens that live no longer than that can always be verified. *)
Theorem signing_key_retained (p : string * string) (t0 R now : Z) (ops : list op)
  (s s2 : S) (r : signingKeyRecord) (l : list signingKeyRecord) :
  inv s → no_byte NUL p.1 → v_keys (abs s) !! p = Some r → is_current r = true →
  Forall op_ok ops → Forall (op_late p t0 R) ops →
  now ≤ t0 + R - second →
  ListSigningKeys p.1 (run ops s).2 = (Ok l, s2) →
  ∃ r', r' ∈ l ∧ (sk_Domain r', KID r') = p ∧ lapsed now r' = false.
Proof.
  intros Hi Hd Hr Hc Ho Hl Hnow HL.
  destruct (run_alive p t0 R ops s Hi Ho Hl) as (r' & Hr' & Halive); [exists r; auto|].
  pose proof (run_inv ops s Hi Ho) as Hi'.
  apply law_list in HL as (_ & _ & Hlist); [|done..].
  exists r'. split; [|split].
  - apply Hlist. exists p.2. by destruct p.
  - symmetry. by apply (proj2 (inv_keys _ Hi')).
  - by eapply alive_not_lapsed.
Qed.
End Interleavings.

Section StoreWitnesses.
Import Mem.
Definition demo_code : authCode := mkCode "x" "example.org" "c" "alice" "https://c/cb" "ch" "S256" "" 600.

Lemma codes_single_use_witness :
  ∃ j c0, (j < 1)%nat ∧ [OStoreCode demo_code; OConsume 5 "x"; OConsume 6 "x"] !! j = Some (OStoreCode c0) ∧
    ac_Username c0 = "alice".
Proof.
  destruct (codes_single_use (S := ephemeralStore)
    [OStoreCode demo_code; OConsume 5 "x"; OConsume 6 "x"] newEphemeralStore 1 5 "x" demo_code)
    as (j & c0 & Hj & Hc & _ & E & _).
  - split; [|split]; intros ?; discriminate || (intros; done).
  - repeat constructor.
  - reflexivity.
  - vm_compute. reflexivity.
  - exists j, c0. split; [exact Hj|]. split; [exact Hc|].
    apply (f_equal ac_Username) in E. symmetry. exact E.
Defined.

Definition old_key : signingKeyRecord := mkKey "example.org" "k1" "ES256" "current" 0 zero_time zero_time.
Definition next_key : signingKeyRecord := mkKey "example.org" "k2" "ES256" "current" (10 * second) zero_time zero_time.
Definition key_store : ephemeralStore :=
  mkMem ∅ ∅ ∅ {[ key "example.org" "k1" := old_key ]}.

Lemma key_store_inv : mem_inv key_store.
Proof.
  unfold mem_inv.
  change (signingKeys key_store) with ({[ key "example.org" "k1" := old_key ]} : gmap string signingKeyRecord).
  assert (Hk : indexed key_name ({[ key "example.org" "k1" := old_key ]})).
  { intros k r Hk. apply lookup_singleton_Some in Hk as [<- <-]. by split. }
  split; [done|]. split; [intros k r Hr; discriminate Hr|].
  intros q q' r r' Hq Hq' _ _ Hd. rewrite reindex_Some in Hq, Hq' by done.
  destruct Hq as [_ Hq], Hq' as [_ Hq']. apply lookup_singleton_Some in Hq as [Hq _], Hq' as [Hq' _].
  rewrite Hq in Hq'. destruct q as [a b], q' as [a' b']. simpl in *. subst a'. f_equal.
  apply (sapp_inj_l a) in Hq'. congruence.
Qed.

Lemma signing_key_retained_witness :
  ∃ r', r' ∈ (match (ListSigningKeys "example.org"
                (run [ORotate (10 * second) next_key (3600 * second); OSweepKeys (3000 * second)] key_store).2).1 with
              | Ok l => l | Err _ => [] end)
    ∧ (sk_Domain r', KID r') = ("example.org", "k1") ∧ lapsed (3000 * second) r' = false.
Proof.
  apply (signing_key_retained (S := ephemeralStore) ("example.org", "k1") 0 (3600 * second) (3000 * second)
    [ORotate (10 * second) next_key (3600 * second); OSweepKeys (3000 * second)] key_store
    (run [ORotate (10 * second) next_key (3600 * second); OSweepKeys (3000 * second)] key_store).2 old_key).
  - exact key_store_inv.
  - reflexivity.
  - vm_compute. reflexivity.
  - reflexivity.
  - repeat constructor; vm_compute; congruence.
  - repeat constructor; vm_compute; congruence.
  - vm_compute. congruence.
  - vm_compute. reflexivity.
Defined.
End StoreWitnesses.
