(* ===== verification/Domain.v ===== *)
(** * Domains, their configuration and the routing of logins

    Model of [src/auth/domain]: the configuration files of a domain and how
    their layers are merged ([config.go], [merge.go], [postmaster.go]), the
    provider that turns a directory into a domain ([filesystem.go]) with its
    lazily opened authentication agent ([lazy_auth.go]), the router that sends a
    login to the right agent under the rate limiter ([router.go]), and the
    editing of forwards ([forwardedit.go]). TOML is a third-party library: the
    class [TomlConfig]. *)
From S2P Require Import Prelude GoStrings FilePath UidList Disk Keyring Passwd Forwards AuthLimit.
From Stdlib Require Import ZArith Lia Ascii.
Open Scope string_scope.
Open Scope list_scope.

(** ** TOML documents as [map[string]any]

    An association list, one entry per key; [TOther] is any value that is
    neither a string, an integer nor a table, in its own notation. *)
Inductive tval :=
| TStr (s : string)
| TInt (z : Z)
| TOther (s : string)
| TMap (m : list (string * tval)).
Notation tmap := (list (string * tval)).

Fixpoint tget (k : string) (m : tmap) : option tval :=
  match m with
  | [] => None
  | (k', v) :: m => if decide (k = k') then Some v else tget k m
  end.
Fixpoint tset (k : string) (v : tval) (m : tmap) : tmap :=
  match m with
  | [] => [(k, v)]
  | (k', v') :: m => if decide (k = k') then (k, v) :: m else (k', v') :: tset k v m
  end.

(** The value stored for a key of the override, given the one of the base. *)
Fixpoint merge_val (over : tval) (base : option tval) : tval :=
  match over, base with
  | TMap os, Some (TMap bs) =>
      TMap ((fix go (os result : tmap) : tmap :=
               match os with
               | [] => result
               | (k, v) :: os => go os (tset k (merge_val v (tget k result)) result)
               end) os bs)
  | _, _ => over
  end.
Fixpoint deepMergeMaps (base over : tmap) : tmap :=
  match over with
  | [] => base
  | (k, v) :: over => deepMergeMaps (tset k (merge_val v (tget k base)) base) over
  end.

Definition merge_layers (layers : list (option tmap)) : tmap :=
  foldl (λ merged layer, match layer with None => merged | Some m => deepMergeMaps merged m end)
    [] layers.

(** ** Configuration records *)
Record DomainAuthConfig := mkAuthConf {
  auth_Type : string; CredentialBackend : string; KeyBackend : string;
  auth_Options : gmap string string;
}.
Record DomainMsgStoreConfig := mkStoreConf {
  store_Type : string; BasePath : string; store_Options : gmap string string;
}.
Record DKIMConfig := mkDkim { Selector : string; PrivateKeyPath : string }.
Record OutboundConfig := mkOutbound {
  Strategy : string; Smarthost : string; SmarthostUser : string; PasswordFile : string;
}.
Record DNSConfig := mkDns { dns_Hostname : string; PublicIP : string }.
Record DomainConfig := mkDomainConfig {
  cfg_Auth : DomainAuthConfig; cfg_MsgStore : DomainMsgStoreConfig; cfg_DKIM : DKIMConfig;
  cfg_Outbound : OutboundConfig; MaxSendsPerHour : Z; cfg_DNS : DNSConfig;
  MaxMessageSize : Z; RecipientRejection : string; EncryptionMode : string;
  (** [nil] is [None]; the list is in the order [range] visits the map *)
  cfg_Forwards : option (list (string * string));
}.
Definition EncryptionModeOff : string := "off".
Definition EncryptionModeOn : string := "on".
Definition ProvisionKeysByDefault (c : DomainConfig) : bool :=
  bool_decide (EncryptionMode c = EncryptionModeOn).
Definition zero_config : DomainConfig :=
  mkDomainConfig (mkAuthConf "" "" "" ∅) (mkStoreConf "" "" ∅) (mkDkim "" "")
    (mkOutbound "" "" "" "") 0 (mkDns "" "") 0 "" "" None.

(** [toml.Marshal] and [toml.Unmarshal] at the types the code uses them. *)
Class TomlConfig := {
  unmarshal_map : string → option tmap;
  unmarshal_config : string → option DomainConfig;
  unmarshal_domains : string → option (gmap string DomainConfig);
  (** [Marshal], then [Unmarshal] *)
  config_to_map : DomainConfig → option tmap;
  map_to_config : tmap → option DomainConfig;
  marshal_config : DomainConfig → option string;
}.

(** The string fields of a configuration with their keys. *)
Definition string_fields : list (list string * (DomainConfig → string)) :=
  [(["auth"; "type"], λ c, auth_Type (cfg_Auth c));
   (["auth"; "credential_backend"], λ c, CredentialBackend (cfg_Auth c));
   (["auth"; "key_backend"], λ c, KeyBackend (cfg_Auth c));
   (["msgstore"; "type"], λ c, store_Type (cfg_MsgStore c));
   (["msgstore"; "base_path"], λ c, BasePath (cfg_MsgStore c));
   (["dkim"; "selector"], λ c, Selector (cfg_DKIM c));
   (["dkim"; "private_key"], λ c, PrivateKeyPath (cfg_DKIM c));
   (["outbound"; "strategy"], λ c, Strategy (cfg_Outbound c));
   (["outbound"; "smarthost"], λ c, Smarthost (cfg_Outbound c));
   (["outbound"; "smarthost_user"], λ c, SmarthostUser (cfg_Outbound c));
   (["outbound"; "password_file"], λ c, PasswordFile (cfg_Outbound c));
   (["dns"; "hostname"], λ c, dns_Hostname (cfg_DNS c));
   (["dns"; "public_ip"], λ c, PublicIP (cfg_DNS c));
   (["recipient_rejection"], λ c, RecipientRejection c);
   (["encryption_mode"], λ c, EncryptionMode c)].

(** The value at a path of keys. *)
Fixpoint tpath (p : list string) (m : tmap) : option tval :=
  match p with
  | [] => None
  | [k] => tget k m
  | k :: p => match tget k m with Some (TMap m') => tpath p m' | _ => None end
  end.

(** Every key once, at the top and in the tables below it. *)
Definition keys_once (m : tmap) : Prop :=
  NoDup m.*1 ∧ ∀ k m', tget k m = Some (TMap m') → NoDup m'.*1.

(** What the code relies on: a struct is written field by field, [omitempty]
    fields that are empty left out, and read back field by field, absent fields
    empty; a value of another type than the field's is an error. *)
Class TomlConfigLaws `{TomlConfig} : Prop := {
  unmarshal_map_keys : ∀ text m, unmarshal_map text = Some m → keys_once m;
  written_keys : ∀ c m, config_to_map c = Some m → keys_once m;
  written_field : ∀ c m p f, config_to_map c = Some m → (p, f) ∈ string_fields →
    tpath p m = if decide (f c = "") then None else Some (TStr (f c));
  written_section : ∀ c m k k' f, config_to_map c = Some m → ([k; k'], f) ∈ string_fields →
    tget k m = None ∨ ∃ m', tget k m = Some (TMap m');
  read_field : ∀ c m p f, map_to_config m = Some c → (p, f) ∈ string_fields →
    tpath p m = None ∧ f c = "" ∨ tpath p m = Some (TStr (f c));
  read_section : ∀ c m k k' f, map_to_config m = Some c → ([k; k'], f) ∈ string_fields →
    tget k m = None ∨ ∃ m', tget k m = Some (TMap m');
  read_forwards : ∀ c m, map_to_config m = Some c →
    match tget "forwards" m with
    | None => cfg_Forwards c = None
    | Some (TMap fs) => ∃ l, cfg_Forwards c = Some l ∧
        ∀ k v, (k, v) ∈ l ↔ tget k fs = Some (TStr v)
    | Some _ => False
    end;
}.

Inductive derr :=
| DRead | DMissing | DParse | DMarshal | DMerge | DNoConfig | DStoreType | DStoreConfig
| DOpen | DFields | DUid | DGid | DScan
| DMultiTarget | DInvalidTarget | DEmptyLocalpart | DDomainNotFound | DWrite | DPem | DKeyType.

(** ** The files of the configuration tree *)
Section Files.
Context `{TomlConfig}.

Definition LoadDomainConfig (path : string) : io derr DomainConfig :=
  (let! c := read_file DRead path in
   match c with
   | None => fail DMissing
   | Some data => match unmarshal_config data with
                  | None => fail DParse
                  | Some cfg => ret cfg
                  end
   end)%io.
Definition LoadDomainsConfig (path : string) : io derr (gmap string DomainConfig) :=
  (let! c := read_file DRead path in
   match c with
   | None => ret ∅
   | Some data => match unmarshal_domains data with
                  | None => fail DParse
                  | Some cfg => ret cfg
                  end
   end)%io.
Definition loadTOMLMap (path : string) : io derr (option tmap) :=
  (let! c := read_file DRead path in
   match c with
   | None => ret None
   | Some data => match unmarshal_map data with
                  | None => fail DParse
                  | Some m => ret (Some m)
                  end
   end)%io.
Definition toTOMLMap (c : DomainConfig) : io derr tmap :=
  match config_to_map c with None => fail DMarshal | Some m => ret m end.
Definition mergeConfigLayers (layers : list (option tmap)) : io derr DomainConfig :=
  match map_to_config (merge_layers layers) with None => fail DMerge | Some c => ret c end.
End Files.

Record PostmasterEntry := mkPostmaster {
  Address : string; pm_UID : Z; pm_GID : Z; DataPath : string; pm_Domain : string;
}.
Definition postmaster_map : Type := gmap string PostmasterEntry.

Section Postmaster.
Context `{UnicodeCase}.

Definition postmaster_line (text : string) (entries : postmaster_map) : result postmaster_map derr :=
  let line := TrimSpace text in
  if decide (line = "") then Ok entries
  else if HasPrefix line "#" then Ok entries
  else match SplitN ":" 4 line with
       | [address; uid; gid; dataPath] =>
           match ParseUint 32 uid, ParseUint 32 gid with
           | None, _ => Err DUid
           | _, None => Err DGid
           | Some uid, Some gid =>
               let domainName :=
                 match cut "@" address with Some (_, d) => ToLower d | None => "" end in
               Ok (<[domainName := mkPostmaster address uid gid dataPath domainName]> entries)
           end
       | _ => Err DFields
       end.
Fixpoint postmaster_lines (lines : list string) (entries : postmaster_map)
  : result postmaster_map derr :=
  match lines with
  | [] => Ok entries
  | l :: ls => match postmaster_line l entries with
               | Ok entries => postmaster_lines ls entries
               | Err e => Err e
               end
  end.
Definition ParsePostmasterFile (path : string) : io derr postmaster_map :=
  (let! c := read_file DOpen path in
   match c with
   | None => fail DOpen
   | Some data =>
       let '(lines, e) := ScanLines data in
       match postmaster_lines lines ∅ with
       | Err err => fail err
       | Ok entries => match e with ScanTooLong => fail DScan | ScanEOF => ret entries end
       end
   end)%io.
Definition LookupDomainPostmaster (domainsPath domainName : string) (w : folder)
  : option PostmasterEntry * folder :=
  match ParsePostmasterFile (Join [domainsPath; "postmaster"]) w with
  | (Ok entries, w) => (entries !! ToLower domainName, w)
  | (Err _, w) => (None, w)
  end.
End Postmaster.

(** ** Agents and stores by type ([src/auth/registry.go], [src/msgstore/registry.go]
    with the registrations of [passwd] and [maildir]) *)
Record AuthAgentConfig := mkAgentConfig {
  ac_Type : string; ac_Credentials : string; ac_Keys : string; UserKeyringBase : string;
  ac_Options : gmap string string;
}.
Definition OpenAuthAgent (c : AuthAgentConfig) : io autherr Agent :=
  if decide (ac_Type c = "passwd") then
    if decide (ac_Credentials c = "") then fail ErrAuthAgentConfigInvalid
    else if decide (ac_Keys c = "") then fail ErrAuthAgentConfigInvalid
    else (let! a := NewAgent (ac_Credentials c) (ac_Keys c) in
          ret (WithUserKeyringBase (UserKeyringBase c) a))%io
  else fail ErrAuthAgentNotRegistered.

(** An opened maildir store is described by its configuration. *)
Record StoreConfig := mkStore {
  sc_Type : string; sc_BasePath : string; sc_Options : gmap string string;
}.
Definition OpenStore (c : StoreConfig) : result StoreConfig derr :=
  if decide (sc_Type c = "maildir") then
    if decide (sc_BasePath c = "") then Err DStoreConfig else Ok c
  else Err DStoreType.

(** ** The lazily opened agent *)
Record lazyAuthAgent := mkLazy {
  la_cfg : AuthAgentConfig;
  (** the outcome of the one [OpenAuthAgent], once made *)
  la_once : option (result Agent autherr);
}.
Definition lazy_init (l : lazyAuthAgent) (w : folder) : result Agent autherr * lazyAuthAgent * folder :=
  match la_once l with
  | Some r => (r, l, w)
  | None => let '(r, w) := OpenAuthAgent (la_cfg l) w in (r, mkLazy (la_cfg l) (Some r), w)
  end.

Section Lazy.
Context `{Crypto, KeyringJson} (decoy : string).

Definition lazy_Authenticate (l : lazyAuthAgent) (user pw : string) (w : folder)
  : result AuthSession autherr * lazyAuthAgent * folder :=
  match lazy_init l w with
  | (Err _, l, w) => (Err (ErrWrapped "auth agent init"), l, w)
  | (Ok a, l, w) => let '(r, w, _) := Passwd.Authenticate decoy a user pw w in (r, l, w)
  end.
Definition lazy_UserExists (l : lazyAuthAgent) (user : string) (w : folder)
  : result bool autherr * lazyAuthAgent * folder :=
  match lazy_init l w with
  | (Err _, l, w) => (Err (ErrWrapped "auth agent init"), l, w)
  | (Ok a, l, w) => (Ok (Passwd.UserExists a user), l, w)
  end.
Definition lazy_GetPublicKey (l : lazyAuthAgent) (user : string) (w : folder)
  : result string autherr * lazyAuthAgent * folder :=
  match lazy_init l w with
  | (Err _, l, w) => (Err ErrKeyNotFound, l, w)
  | (Ok a, l, w) => let '(r, w) := Passwd.GetPublicKey a user w in (r, l, w)
  end.
Definition lazy_HasEncryption (l : lazyAuthAgent) (user : string) (w : folder)
  : result bool autherr * lazyAuthAgent * folder :=
  match lazy_init l w with
  | (Err _, l, w) => (Ok false, l, w)
  | (Ok a, l, w) => let '(r, w) := Passwd.HasEncryption a user w in (r, l, w)
  end.
End Lazy.

(** ** A domain and its provider *)
Record Domain := mkDomain {
  d_Name : string;
  d_auth : lazyAuthAgent;
  d_chain : forwardChain;
  d_store : StoreConfig;
  d_MaxMessageSize : Z;
  d_RecipientRejection : string;
  d_MaxSendsPerHour : Z;
  d_DKIM : option (string * string);
}.
Definition with_auth (l : lazyAuthAgent) (d : Domain) : Domain :=
  mkDomain (d_Name d) l (d_chain d) (d_store d) (d_MaxMessageSize d) (d_RecipientRejection d)
    (d_MaxSendsPerHour d) (d_DKIM d).

Record provider := mkProvider {
  basePath : string; dataPath : string;
  defaults : option DomainConfig;
  baseDefaults : option DomainConfig;
  domainOverrides : gmap string DomainConfig;
  postmaster : option postmaster_map;
  cache : gmap string Domain;
}.
Definition set_cache (f : gmap string Domain → gmap string Domain) (p : provider) : provider :=
  mkProvider (basePath p) (dataPath p) (defaults p) (baseDefaults p) (domainOverrides p)
    (postmaster p) (f (cache p)).

Definition ok_or {E A} (r : result A E) : option A :=
  match r with Ok a => Some a | Err _ => None end.

Definition resolvePath (base path : string) : string :=
  if decide (path = "") then path
  else if HasPrefix path "/" then path
  else Join [base; path].

(** The key of a PEM file: [pem.Decode], [x509.ParsePKCS8PrivateKey] and the
    test for Ed25519 ([dkim.go]); the class answers [None] where the first two
    fail, and says whether the key is of that type. *)
Class DkimKeys := dkim_parse : string → option (string * bool).

Section Provider.
Context `{UnicodeCase, TomlConfig, DkimKeys}.

Definition NewFilesystemDomainProvider (base : string) (w : folder) : provider * folder :=
  let '(cfg, w) := LoadDomainConfig (Join [base; "config.toml"]) w in
  let '(overrides, w) := LoadDomainsConfig (Join [base; "domains.toml"]) w in
  let '(entries, w) := ParsePostmasterFile (Join [base; "postmaster"]) w in
  (mkProvider base "" None (ok_or cfg) (default ∅ (ok_or overrides)) (ok_or entries) ∅, w).
Definition WithDefaults (cfg : DomainConfig) (p : provider) : provider :=
  mkProvider (basePath p) (dataPath p) (Some cfg) (baseDefaults p) (domainOverrides p)
    (postmaster p) (cache p).
Definition WithDataPath (path : string) (p : provider) : provider :=
  mkProvider (basePath p) path (defaults p) (baseDefaults p) (domainOverrides p)
    (postmaster p) (cache p).

Definition LoadDKIMKey (path : string) : io derr string :=
  (let! c := read_file DRead path in
   match c with
   | None => fail DRead
   | Some data => match dkim_parse data with
                  | None => fail DPem
                  | Some (key, true) => ret key
                  | Some (_, false) => fail DKeyType
                  end
   end)%io.

(** A layer that is converted from a struct, when there is one. *)
Definition struct_layer (c : option DomainConfig) : io derr (list tmap) :=
  match c with
  | None => ret []
  | Some c => (let! m := toTOMLMap c in ret [m])%io
  end.
(** The domain's own file. *)
Definition own_layer (p : provider) (configPath : string) : io derr (option tmap) := λ w,
  match stat ErrRandom configPath w with
  | (Ok true, w) => loadTOMLMap configPath w
  | (_, w) => if defaults p then (Ok None, w) else (Err DNoConfig, w)
  end.
(** The layers from low to high priority, and the domain's own map. *)
Definition config_layers (p : provider) (name configPath : string)
  : io derr (list (option tmap) * option tmap) :=
  (let! l1 := struct_layer (defaults p) in
   let! l2 := struct_layer (baseDefaults p) in
   let! l3 := struct_layer (domainOverrides p !! name) in
   let! own := own_layer p configPath in
   ret ((Some <$> (l1 ++ l2 ++ l3)) ++ [own], own))%io.

Definition storage_base (p : provider) (name domainPath : string) : string :=
  let by_data := if decide (dataPath p = "") then domainPath else Join [dataPath p; name] in
  match postmaster p with
  | None => by_data
  | Some pm =>
      match pm !! name with
      | Some entry => if decide (DataPath entry = "") then by_data else DataPath entry
      | None => by_data
      end
  end.

(** [forwards.Load] on one file; failing to read it gives an empty tier. *)
Definition load_forwards (path : string) (w : folder) : ForwardMap * folder :=
  let '(r, w) := read_file DRead path w in
  let fs : filesystem := λ _, match r with
                              | Ok None => NotExist
                              | Ok (Some data) => Contents data
                              | Err _ => OpenError
                              end in
  (match Forwards.Load fs path with Ok m => m | Err _ => FromMap [] end, w).

Definition rules (f : option (list (string * string))) : list (string * string) := default [] f.
(** The admin and the default tier. *)
Definition forward_tiers (p : provider) (own : option tmap) (cfg : DomainConfig)
  : ForwardMap * ForwardMap :=
  match own ≫= tget "forwards" with
  | Some _ => (FromMap (rules (cfg_Forwards cfg)), FromMap [])
  | None => (FromMap [], FromMap (rules (baseDefaults p ≫= cfg_Forwards)))
  end.

Definition load_dkim (cfg : DomainConfig) (domainPath : string) (w : folder)
  : option (string * string) * folder :=
  if decide (Selector (cfg_DKIM cfg) ≠ "" ∧ PrivateKeyPath (cfg_DKIM cfg) ≠ "") then
    let '(r, w) := LoadDKIMKey (resolvePath domainPath (PrivateKeyPath (cfg_DKIM cfg))) w in
    ((Selector (cfg_DKIM cfg),.) <$> ok_or r, w)
  else (None, w).

Definition loadDomain (p : provider) (name domainPath configPath : string) : io derr Domain :=
  (let! (layers, own) := config_layers p name configPath in
   let! cfg := mergeConfigLayers layers in
   let userStoreBase := resolvePath (storage_base p name domainPath) (BasePath (cfg_MsgStore cfg)) in
   let agent := mkLazy (mkAgentConfig (auth_Type (cfg_Auth cfg))
                  (resolvePath domainPath (CredentialBackend (cfg_Auth cfg)))
                  (resolvePath domainPath (KeyBackend (cfg_Auth cfg)))
                  userStoreBase (auth_Options (cfg_Auth cfg))) None in
   match OpenStore (mkStore (store_Type (cfg_MsgStore cfg)) userStoreBase
                      (store_Options (cfg_MsgStore cfg))) with
   | Err e => fail e
   | Ok store =>
       let '(adminFwd, defaultFwd) := forward_tiers p own cfg in
       λ w,
       let '(domainFwd, w) := load_forwards (Join [domainPath; "forwards"]) w in
       let chain := mkChain (Some adminFwd) (Some domainFwd) (Join [domainPath; "user_forwards"])
                      (Some defaultFwd) in
       let '(dkim, w) := load_dkim cfg domainPath w in
       (Ok (mkDomain name agent chain store (MaxMessageSize cfg) (RecipientRejection cfg)
              (MaxSendsPerHour cfg) dkim), w)
   end)%io.

(** [dirs] are the directories there are. *)
Definition GetDomain (dirs : string → bool) (name : string) (p : provider) (w : folder)
  : option Domain * provider * folder :=
  let name := ToLower name in
  match cache p !! name with
  | Some d => (Some d, p, w)
  | None =>
      let domainPath := Join [basePath p; name] in
      let configPath := Join [domainPath; "config.toml"] in
      let '(absent, w) :=
        if defaults p then
          match sys w with
          | (Done, w) => (negb (dirs domainPath), w)
          | (Fault _, w) => (false, w)
          end
        else
          match read_file DRead configPath w with
          | (Ok None, w) => (true, w)
          | (_, w) => (false, w)
          end in
      if absent : bool then (None, p, w)
      else
        match loadDomain p name domainPath configPath w with
        | (Err _, w) => (None, p, w)
        | (Ok d, w) => (Some d, set_cache (insert name d) p, w)
        end
  end.

(** [entries] are the directories that [os.ReadDir] lists, [None] on an error. *)
Definition Domains (entries : option (list string)) (p : provider) (w : folder) : list string * folder :=
  match entries with
  | None => ([], w)
  | Some names =>
      if defaults p then (names, w)
      else
        foldl (λ '(acc, w) name,
                 match stat ErrRandom (Join [basePath p; name; "config.toml"]) w with
                 | (Ok true, w) => (acc ++ [name], w)
                 | (_, w) => (acc, w)
                 end) ([], w) names
  end.
End Provider.

(** ** The router *)
Record AuthResult := mkAuthResult {
  ar_Session : AuthSession; ar_Domain : option string; Extension : string;
}.
Definition with_mailbox (m : string) (s : AuthSession) : AuthSession :=
  mkSession (as_username s) m (as_public s) (as_private s) (EncryptionEnabled s).

Definition ParseLocalPart (localPart : string) : string * string :=
  match cut "+" localPart with Some (b, ext) => (b, ext) | None => (localPart, "") end.
Definition SplitUsername (username : string) : string * string :=
  match cut_last "@" username with Some (l, d) => (l, d) | None => (username, "") end.

(** The fallback agent: an answer and the disk after it. *)
Record fallbackAgent := mkFallback {
  fb_Authenticate : string → string → folder → result AuthSession autherr * folder;
  fb_UserExists : string → folder → result bool autherr * folder;
}.

Section Router.
Context `{Crypto, KeyringJson, UnicodeCase, TomlConfig, DkimKeys} (decoy : string).
Context (dirs : string → bool) (entries : option (list string)).
Context (fallback : option fallbackAgent).

(** [d.AuthAgent.Authenticate]: the agent of the domain held in the cache. *)
Definition domain_Authenticate (name base pw : string) (p : provider) (w : folder)
  : result AuthSession autherr * provider * folder :=
  match cache p !! name with
  | None => (Err ErrAuthFailed, p, w)
  | Some d =>
      let '(r, l, w) := lazy_Authenticate decoy (d_auth d) base pw w in
      (r, set_cache (insert name (with_auth l d)) p, w)
  end.

Definition fallback_user (username base extension domainName : string) : string :=
  if decide (extension = "") then username
  else if decide (domainName = "") then base
  else base +:+ "@" +:+ domainName.

Definition hasDomains (provider_set : option provider) (w : folder) : bool * folder :=
  match provider_set with
  | None => (false, w)
  | Some p => let '(l, w) := Domains entries p w in (negb (bool_decide (l = [])), w)
  end.

Definition use_fallback (username base extension domainName pw : string) (w : folder)
  : result AuthResult autherr * folder :=
  match fallback with
  | None => (Err ErrAuthFailed, w)
  | Some f =>
      match fb_Authenticate f (fallback_user username base extension domainName) pw w with
      | (Err e, w) => (Err e, w)
      | (Ok session, w) => (Ok (mkAuthResult session None extension), w)
      end
  end.

Definition authenticateInternal (username pw : string) (ps : option provider) (w : folder)
  : result AuthResult autherr * option provider * folder :=
  let '(localPart, domainName) := SplitUsername username in
  let '(base, extension) := ParseLocalPart localPart in
  let to_fallback := λ ps w,
    let '(r, w) := use_fallback username base extension domainName pw w in (r, ps, w) in
  match ps with
  | Some p =>
      if decide (domainName = "") then to_fallback (Some p) w
      else
        match GetDomain dirs domainName p w with
        | (Some d, p, w) =>
            match domain_Authenticate (ToLower domainName) base pw p w with
            | (Err e, p, w) => (Err e, Some p, w)
            | (Ok session, p, w) =>
                (Ok (mkAuthResult (with_mailbox (base +:+ "@" +:+ domainName) session)
                       (Some (d_Name d)) extension), Some p, w)
            end
        | (None, p, w) =>
            let '(hosted, w) := hasDomains (Some p) w in
            if hosted : bool then (Err ErrDomainNotHosted, Some p, w)
            else to_fallback (Some p) w
        end
  | None => to_fallback None w
  end.

Context {S : Type} `{LimitStore S} (limits : option RateLimitConfig).

Definition AuthenticateWithDomain (now : Z) (ip username pw : string) (ps : option provider)
  (s : S) (w : folder) : result AuthResult autherr * option provider * S * folder :=
  let '(limited, s) :=
    match limits with Some _ => isLimited ip username now s | None => (false, s) end in
  if limited : bool then (Err ErrRateLimited, ps, s, w)
  else
    match authenticateInternal username pw ps w with
    | (Err e, ps, w) =>
        (Err e, ps, match limits with
                    | Some cfg => recordFailure cfg ip username now s
                    | None => s
                    end, w)
    | (Ok r, ps, w) =>
        (Ok r, ps, match limits with
                   | Some _ => recordSuccess ip username now s
                   | None => s
                   end, w)
    end.
Definition Authenticate (now : Z) (ip username pw : string) (ps : option provider)
  (s : S) (w : folder) : result AuthSession autherr * option provider * S * folder :=
  match AuthenticateWithDomain now ip username pw ps s w with
  | (Ok r, ps, s, w) => (Ok (ar_Session r), ps, s, w)
  | (Err e, ps, s, w) => (Err e, ps, s, w)
  end.

(** [d.AuthAgent.UserExists] with the forwards read from the disk. *)
Definition domain_UserExists (name base : string) (p : provider) (w : folder)
  : result bool autherr * provider * folder :=
  match cache p !! name with
  | None => (Ok false, p, w)
  | Some d =>
      let '(r, l, w) := lazy_UserExists (d_auth d) base w in
      let p := set_cache (insert name (with_auth l d)) p in
      match r with
      | Ok false =>
          let '(c, w) := read_file DRead (Join [userForwardsDir (d_chain d); base]) w in
          let fs : filesystem := λ _, match c with
                                      | Ok None => NotExist
                                      | Ok (Some data) => Contents data
                                      | Err _ => OpenError
                                      end in
          (agent_UserExists r (d_chain d) fs base, p, w)
      | r => (r, p, w)
      end
  end.
Definition UserExists (username : string) (ps : option provider) (w : folder)
  : result bool autherr * option provider * folder :=
  let '(localPart, domainName) := SplitUsername username in
  let '(base, extension) := ParseLocalPart localPart in
  let to_fallback := λ ps w,
    match fallback with
    | None => (Ok false, ps, w)
    | Some f =>
        let '(r, w) := fb_UserExists f (fallback_user username base extension domainName) w in
        (r, ps, w)
    end in
  match ps with
  | Some p =>
      if decide (domainName = "") then to_fallback (Some p) w
      else
        match GetDomain dirs domainName p w with
        | (Some _, p, w) =>
            let '(r, p, w) := domain_UserExists (ToLower domainName) base p w in (r, Some p, w)
        | (None, p, w) => to_fallback (Some p) w
        end
  | None => to_fallback None w
  end.
End Router.

(** ** Editing the forwards of a domain ([forwardedit.go]) *)
Section ForwardEdit.
Context `{UnicodeCase, TomlConfig} (dirs : string → bool).

Definition ValidateForwardTarget (target : string) : result string derr :=
  let t := TrimSpace target in
  if decide (t = "") then Err DInvalidTarget
  else if Contains t "," || negb (bool_decide (length (Fields t) = 1%nat)) then Err DMultiTarget
  else
    let t := ToLower t in
    match cut "@" t with
    | Some (a, b) =>
        if bool_decide (a = "") || bool_decide (b = "") || has_byte "@" b then Err DInvalidTarget
        else Ok t
    | None => Err DInvalidTarget
    end.

Definition domain_dir (domainsPath domain : string) : string :=
  Join [domainsPath; ToLower (TrimSpace domain)].
Definition domainConfigPath (domainsPath domain : string) : string :=
  Join [domainsPath; ToLower (TrimSpace domain); "config.toml"].
Definition loadOrEmptyDomainConfig (path : string) (w : folder) : result DomainConfig derr * folder :=
  match LoadDomainConfig path w with
  | (Err DMissing, w) => (Ok zero_config, w)
  | r => r
  end.
Definition ListDomainForwards (domainsPath domain : string) : io derr (list (string * string)) :=
  (let! cfg := loadOrEmptyDomainConfig (domainConfigPath domainsPath domain) in
   ret (rules (cfg_Forwards cfg)))%io.

(** The directory is [filepath.Dir] of the configuration's path. *)
Definition requireDomainDir (dir : string) : io derr unit := λ w,
  match sys w with
  | (Done, w) => (if dirs dir then Ok () else Err DDomainNotFound, w)
  | (Fault _, w) => (Err DDomainNotFound, w)
  end.
(** [tmp] is the name [os.CreateTemp] chose; [os.Stat] of the old file only
    chooses the mode. *)
Definition writeDomainConfig (tmp path : string) (cfg : DomainConfig) : io derr unit :=
  match marshal_config cfg with
  | None => fail DMarshal
  | Some data =>
      (open_trunc DWrite tmp ;!
       on_error (write_all DWrite tmp data ;! call_ DWrite ;! call_ DWrite ;!
                 (λ w, (Ok (), (sys w).2)) ;! call_ DWrite ;! rename DWrite tmp path)
         (os_remove tmp))%io
  end.

Definition with_forwards (f : list (string * string)) (c : DomainConfig) : DomainConfig :=
  mkDomainConfig (cfg_Auth c) (cfg_MsgStore c) (cfg_DKIM c) (cfg_Outbound c) (MaxSendsPerHour c)
    (cfg_DNS c) (MaxMessageSize c) (RecipientRejection c) (EncryptionMode c) (Some f).
Fixpoint rule_set (k v : string) (l : list (string * string)) : list (string * string) :=
  match l with
  | [] => [(k, v)]
  | (k', v') :: l => if decide (k = k') then (k, v) :: l else (k', v') :: rule_set k v l
  end.
Fixpoint rule_get (k : string) (l : list (string * string)) : option string :=
  match l with
  | [] => None
  | (k', v) :: l => if decide (k = k') then Some v else rule_get k l
  end.
Definition rule_delete (k : string) (l : list (string * string)) : list (string * string) :=
  filter (λ kv, kv.1 ≠ k) l.

Definition SetDomainForward (tmp domainsPath domain localpart target : string) : io derr unit :=
  let lp := ToLower (TrimSpace localpart) in
  if decide (lp = "") then fail DEmptyLocalpart
  else
    match ValidateForwardTarget target with
    | Err e => fail e
    | Ok t =>
        (requireDomainDir (domain_dir domainsPath domain) ;!
         let! cfg := loadOrEmptyDomainConfig (domainConfigPath domainsPath domain) in
         writeDomainConfig tmp (domainConfigPath domainsPath domain)
           (with_forwards (rule_set lp t (rules (cfg_Forwards cfg))) cfg))%io
    end.
Definition DeleteDomainForward (tmp domainsPath domain localpart : string) : io derr bool :=
  let lp := ToLower (TrimSpace localpart) in
  (requireDomainDir (domain_dir domainsPath domain) ;!
   let! cfg := loadOrEmptyDomainConfig (domainConfigPath domainsPath domain) in
   match rule_get lp (rules (cfg_Forwards cfg)) with
   | None => ret false
   | Some _ =>
       writeDomainConfig tmp (domainConfigPath domainsPath domain)
         (with_forwards (rule_delete lp (rules (cfg_Forwards cfg))) cfg) ;!
       ret true
   end)%io.
End ForwardEdit.

(** ** How layers merge *)
Lemma tget_tset k v m k' : tget k' (tset k v m) = if decide (k' = k) then Some v else tget k' m.
Proof.
  induction m as [|[j x] m IH]; simpl; [done|].
  destruct (decide (k = j)) as [->|Hj]; simpl.
  - by destruct (decide (k' = j)).
  - destruct (decide (k' = j)) as [->|]; [|done]. by rewrite decide_False by congruence.
Qed.
Lemma tget_notin k m : k ∉ m.*1 → tget k m = None.
Proof.
  induction m as [|[j x] m IH]; simpl; [done|]. intros [Hj Hm]%not_elem_of_cons.
  rewrite decide_False by done. auto.
Qed.

Lemma merge_tables os bs : merge_val (TMap os) (Some (TMap bs)) = TMap (deepMergeMaps bs os).
Proof.
  simpl. f_equal. revert bs. induction os as [|[k v] os IH]; intros bs; [done|]. apply IH.
Qed.

(** A key of the override wins, with tables merged; other keys are kept. *)
Lemma tget_merge base over k :
  NoDup over.*1 →
  tget k (deepMergeMaps base over) =
  match tget k over with Some v => Some (merge_val v (tget k base)) | None => tget k base end.
Proof.
  revert base. induction over as [|[j x] over IH]; intros base Hn; simpl; [done|].
  apply NoDup_cons in Hn as [Hj Hn]. rewrite IH, tget_tset by done. simpl in Hj.
  destruct (decide (k = j)) as [->|]; [|done].
  by rewrite tget_notin.
Qed.

(** Values below the top: [p] is a path of at most two keys. *)
Definition section_ok (p : list string) (m : tmap) : Prop :=
  match p with
  | [_] => True
  | [k; _] => tget k m = None ∨ ∃ m', tget k m = Some (TMap m')
  | _ => False
  end.
Lemma tpath_merge base over p :
  keys_once over → section_ok p base → section_ok p over →
  tpath p (deepMergeMaps base over) =
    match tpath p over with
    | Some (TMap m) => tpath p (deepMergeMaps base over)
    | Some v => Some v
    | None => tpath p base
    end ∧ section_ok p (deepMergeMaps base over).
Proof.
  intros [Hn Hn'] Hb Ho. destruct p as [|k [|k' [|]]]; try done.
  - split; [|done]. simpl. rewrite tget_merge by done.
    destruct (tget k over) as [[]|]; done.
  - simpl in *. rewrite tget_merge by done.
    destruct Ho as [->|[mo Ho]]; [done|]. rewrite Ho. specialize (Hn' _ _ Ho).
    destruct Hb as [->|[mb ->]].
    + change (merge_val (TMap mo) None) with (TMap mo).
      split; [|right; by exists mo]. by destruct (tget k' mo) as [[]|].
    + rewrite merge_tables. split; [|right; by eexists].
      rewrite tget_merge by done. by destruct (tget k' mo) as [[]|].
Qed.

(** *** Layers converted from structs *)
Lemma field_paths p f : (p, f) ∈ string_fields → (∃ k, p = [k]) ∨ (∃ k k', p = [k; k']).
Proof.
  assert (Hall : forallb (λ x : list string * (DomainConfig → string),
                   match x.1 with [_] | [_; _] => true | _ => false end) string_fields = true)
    by reflexivity.
  rewrite forallb_forall in Hall. intros Hp%list_elem_of_In%Hall. simpl in Hp.
  destruct p as [|k [|k' [|]]]; try done; eauto.
Qed.

Section Layers.
Context `{TomlConfigLaws}.

Lemma struct_section c m p f : config_to_map c = Some m → (p, f) ∈ string_fields → section_ok p m.
Proof.
  intros Hc Hp. destruct (field_paths p f Hp) as [[k ->]|(k & k' & ->)]; [done|].
  by eapply written_section.
Qed.
Lemma read_section_ok c m p f : map_to_config m = Some c → (p, f) ∈ string_fields → section_ok p m.
Proof.
  intros Hc Hp. destruct (field_paths p f Hp) as [[k ->]|(k & k' & ->)]; [done|].
  by eapply read_section.
Qed.

(** The reference: the value of the highest layer in which it is not empty. *)
Definition first_set (l : list string) : string := default "" (head (filter (λ s, s ≠ "") l)).

Lemma struct_layers p f cs ms :
  Forall2 (λ c m, config_to_map c = Some m) cs ms → (p, f) ∈ string_fields →
  tpath p (foldl deepMergeMaps [] ms) =
    (if decide (first_set (f <$> reverse cs) = "") then None
     else Some (TStr (first_set (f <$> reverse cs)))) ∧
  section_ok p (foldl deepMergeMaps [] ms).
Proof.
  intros Hall Hp. revert ms Hall. induction cs as [|c cs IH] using rev_ind; intros ms Hall.
  - apply Forall2_nil_inv_l in Hall as ->. simpl.
    destruct (field_paths p f Hp) as [[k ->]|(k & k' & ->)]; simpl; auto.
  - apply Forall2_app_inv_l in Hall as (ms' & m1 & Hms & H1 & ->).
    inversion H1 as [|? m ? ? Hm Hnil]; subst. apply Forall2_nil_inv_l in Hnil as ->.
    destruct (IH ms' Hms) as [IHv IHs]. rewrite foldl_app. simpl.
    destruct (tpath_merge (foldl deepMergeMaps [] ms') m p) as [Hv Hs]; [by eapply written_keys|done|
      by eapply struct_section|]. split; [|done]. rewrite Hv.
    rewrite (written_field c m p f Hm Hp), reverse_app. simpl. unfold first_set in *.
    rewrite filter_cons. destruct (decide (f c = "")) as [Hf|Hf], (decide (f c ≠ "")) as [Hg|Hg]; try done.
    simpl. by rewrite decide_False.
Qed.

Lemma struct_layer_eq c (w w' : folder) l :
  struct_layer c w = (Ok l, w') →
  w' = w ∧ Forall2 (λ c m, config_to_map c = Some m) (option_list c) l.
Proof.
  unfold struct_layer, toTOMLMap. destruct c as [c|]; cbv [bind ret].
  - destruct (config_to_map c) as [m|] eqn:E; cbn; [|done]. intros [= <- <-].
    split; [done|]. by repeat constructor.
  - intros [= <- <-]. split; [done|constructor].
Qed.

Definition lower_configs (p : provider) (name : string) : list DomainConfig :=
  option_list (defaults p) ++ option_list (baseDefaults p) ++ option_list (domainOverrides p !! name).

Lemma own_layer_keys p configPath w o w' :
  own_layer p configPath w = (Ok o, w') → ∀ m, o = Some m → keys_once m.
Proof.
  unfold own_layer. intros Hr m ->. revert Hr.
  destruct (stat ErrRandom configPath w) as [[[]|] ws]; try by destruct (defaults p).
  unfold loadTOMLMap, bind. destruct (read_file DRead configPath ws) as [[[data|]|] wr]; try done.
  destruct (unmarshal_map data) as [m'|] eqn:Em; [|done]. cbn. intros [= <- _].
  by eapply unmarshal_map_keys.
Qed.

Lemma config_layers_eq p name configPath w layers own w' :
  config_layers p name configPath w = (Ok (layers, own), w') →
  ∃ ms, Forall2 (λ c m, config_to_map c = Some m) (lower_configs p name) ms ∧
    layers = (Some <$> ms) ++ [own] ∧ (∀ m, own = Some m → keys_once m).
Proof.
  unfold config_layers, lower_configs.
  destruct (struct_layer (defaults p) w) as [[l1|] w1] eqn:E1; [|by rewrite (bind_err _ _ _ _ _ E1)].
  rewrite (bind_eq _ _ _ _ _ E1). apply struct_layer_eq in E1 as [-> F1].
  destruct (struct_layer (baseDefaults p) w) as [[l2|] w2] eqn:E2; [|by rewrite (bind_err _ _ _ _ _ E2)].
  rewrite (bind_eq _ _ _ _ _ E2). apply struct_layer_eq in E2 as [-> F2].
  destruct (struct_layer (domainOverrides p !! name) w) as [[l3|] w3] eqn:E3;
    [|by rewrite (bind_err _ _ _ _ _ E3)].
  rewrite (bind_eq _ _ _ _ _ E3). apply struct_layer_eq in E3 as [-> F3].
  destruct (own_layer p configPath w) as [[o|] w0] eqn:Er; [|by rewrite (bind_err _ _ _ _ _ Er)].
  rewrite (bind_eq _ _ _ _ _ Er). cbv [ret]. intros [= <- <- <-]. exists (l1 ++ l2 ++ l3).
  split; [by repeat apply Forall2_app|]. split; [done|]. by eapply own_layer_keys.
Qed.

Lemma merge_layers_own ms own :
  merge_layers ((Some <$> ms) ++ [own]) =
  match own with
  | Some o => deepMergeMaps (foldl deepMergeMaps [] ms) o
  | None => foldl deepMergeMaps [] ms
  end.
Proof.
  unfold merge_layers. rewrite foldl_app. simpl.
  replace (foldl _ [] (Some <$> ms)) with (foldl deepMergeMaps [] ms); [done|].
  generalize (@nil (string * tval)). induction ms as [|m ms IH]; intros acc; [done|]. apply IH.
Qed.
Lemma merge_val_table m x : ∃ m', merge_val (TMap m) x = TMap m'.
Proof. destruct x as [[]|]; simpl; eauto. Qed.
Lemma merge_val_scalar v x : (∀ m, v ≠ TMap m) → merge_val v x = v.
Proof. destruct v; try done. intros Hm. by destruct (Hm m). Qed.

Lemma own_section p M o :
  keys_once o → section_ok p (deepMergeMaps M o) → section_ok p o.
Proof.
  intros [Hn _]. destruct p as [|k [|k' [|]]]; simpl; try done.
  rewrite tget_merge by done. destruct (tget k o) as [v|]; [|by left]. intros [|[m' Hm]]; [done|].
  right. destruct v; rewrite ?merge_val_scalar in Hm by done; try done. by eexists.
Qed.
Lemma own_table p M o m :
  keys_once o → section_ok p M → section_ok p o → tpath p o = Some (TMap m) →
  ∃ m', tpath p (deepMergeMaps M o) = Some (TMap m').
Proof.
  intros [Hn Hn']. destruct p as [|k [|k' [|]]]; simpl; try done.
  - intros _ _ Ho. rewrite tget_merge, Ho by done.
    destruct (merge_val_table m (tget k M)) as [m' ->]. by eexists.
  - intros HM Ho. destruct (tget k o) as [[]|] eqn:Ek; try done. intros Hk.
    rewrite tget_merge, Ek by done. destruct HM as [->|[mb ->]].
    + simpl. by eexists.
    + rewrite merge_tables, tget_merge, Hk by (by eapply Hn').
      destruct (merge_val_table m (tget k' mb)) as [m' ->]. by eexists.
Qed.

(** The configuration of a domain is the layered one: every string setting has
    the value of the domain's own file if that sets it, else of the first of
    [domains.toml], the system's [config.toml] and the programmed defaults in which
    it is not empty. *)
Lemma config_layering (pr : provider) (name configPath : string) (w w' : folder)
  (layers : list (option tmap)) (own : option tmap) (cfg : DomainConfig)
  (p : list string) (f : DomainConfig → string) :
  config_layers pr name configPath w = (Ok (layers, own), w') →
  mergeConfigLayers layers w' = (Ok cfg, w') →
  (p, f) ∈ string_fields →
  f cfg = match own ≫= tpath p with
          | Some (TStr s) => s
          | _ => first_set (f <$> option_list (domainOverrides pr !! name)
                              ++ option_list (baseDefaults pr) ++ option_list (defaults pr))
          end.
Proof.
  intros HL HM Hp. apply config_layers_eq in HL as (ms & Hms & -> & Hown).
  unfold mergeConfigLayers in HM. rewrite merge_layers_own in HM.
  destruct (struct_layers p f _ _ Hms Hp) as [HMv HMs].
  replace (reverse (lower_configs pr name)) with
    (option_list (domainOverrides pr !! name) ++ option_list (baseDefaults pr) ++ option_list (defaults pr))
    in HMv by (unfold lower_configs; rewrite !reverse_app;
               by destruct (defaults pr), (baseDefaults pr), (domainOverrides pr !! name)).
  set (M := foldl deepMergeMaps [] ms) in *. set (ref := first_set _) in *.
  destruct own as [o|]; simpl.
  - destruct (map_to_config (deepMergeMaps M o)) as [c|] eqn:Ec; [|done]. injection HM as ->.
    specialize (Hown o eq_refl).
    pose proof (own_section p M o Hown (read_section_ok _ _ _ _ Ec Hp)) as Ho.
    destruct (tpath_merge M o p Hown HMs Ho) as [Hv _].
    destruct (tpath p o) as [v|] eqn:Eo.
    + destruct v as [s|z|s|m].
      2-4: destruct (read_field _ _ _ _ Ec Hp) as [[Hr _]|Hr];
        [rewrite Hr in Hv; try done|rewrite Hr in Hv; try done];
        destruct (own_table p M o m Hown HMs Ho Eo) as [m' Hm]; congruence.
      destruct (read_field _ _ _ _ Ec Hp) as [[Hr _]|Hr]; rewrite Hr in Hv; congruence.
    + destruct (read_field _ _ _ _ Ec Hp) as [[Hr ->]|Hr]; rewrite Hr, HMv in Hv;
        destruct (decide (ref = "")) as [->|]; congruence.
  - destruct (map_to_config M) as [c|] eqn:Ec; [|done]. injection HM as ->.
    destruct (read_field _ _ _ _ Ec Hp) as [[Hr ->]|Hr]; rewrite HMv in Hr;
      destruct (decide (ref = "")) as [->|]; congruence.
Qed.
End Layers.

(** ** A TOML codec that keeps these laws

    A small instance of [TomlConfig]: the fields of [string_fields] and the
    forwards are written and read as the laws say. *)
Module TomlDemo.
Definition tput (p : list string) (v : tval) (m : tmap) : tmap :=
  match p with
  | [k] => tset k v m
  | [k; k'] =>
      tset k (TMap (tset k' v (match tget k m with Some (TMap m') => m' | _ => [] end))) m
  | _ => m
  end.
Definition put_field (c : DomainConfig) (m : tmap) (pf : list string * (DomainConfig → string)) : tmap :=
  if decide (pf.2 c = "") then m else tput pf.1 (TStr (pf.2 c)) m.
Definition fields_map (c : DomainConfig) : tmap := foldl (put_field c) [] string_fields.
Definition table_of (l : list (string * string)) : tmap := (λ kv, (kv.1, TStr kv.2)) <$> l.
Definition to_map (c : DomainConfig) : option tmap :=
  match cfg_Forwards c with
  | None | Some [] => Some (fields_map c)
  | Some l => if decide (NoDup l.*1) then Some (tset "forwards" (TMap (table_of l)) (fields_map c))
              else None
  end.

Definition field_ok (m : tmap) (p : list string) : bool :=
  match p with
  | [k; _] => match tget k m with None | Some (TMap _) => true | _ => false end
  | _ => true
  end && match tpath p m with None | Some (TStr _) => true | _ => false end.
Definition strings_of (m : tmap) : option (list (string * string)) :=
  mapM (λ kv, match kv.2 with TStr v => Some (kv.1, v) | _ => None end) m.
Definition get (m : tmap) (p : list string) : string :=
  match tpath p m with Some (TStr s) => s | _ => "" end.
Definition read (m : tmap) (f : option (list (string * string))) : DomainConfig :=
  mkDomainConfig
    (mkAuthConf (get m ["auth"; "type"]) (get m ["auth"; "credential_backend"])
       (get m ["auth"; "key_backend"]) ∅)
    (mkStoreConf (get m ["msgstore"; "type"]) (get m ["msgstore"; "base_path"]) ∅)
    (mkDkim (get m ["dkim"; "selector"]) (get m ["dkim"; "private_key"]))
    (mkOutbound (get m ["outbound"; "strategy"]) (get m ["outbound"; "smarthost"])
       (get m ["outbound"; "smarthost_user"]) (get m ["outbound"; "password_file"]))
    0 (mkDns (get m ["dns"; "hostname"]) (get m ["dns"; "public_ip"])) 0
    (get m ["recipient_rejection"]) (get m ["encryption_mode"]) f.
Definition of_map (m : tmap) : option DomainConfig :=
  if forallb (λ pf : list string * (DomainConfig → string), field_ok m pf.1) string_fields then
    match tget "forwards" m with
    | None => Some (read m None)
    | Some (TMap fs) =>
        if decide (NoDup fs.*1) then l ← strings_of fs; Some (read m (Some l)) else None
    | Some _ => None
    end
  else None.
(** Three documents. *)
Definition parse (text : string) : option tmap :=
  if decide (text = "forwards = {}") then Some [("forwards", TMap [])]
  else if decide (text = "[auth] type") then Some [("auth", TMap [("type", TStr "passwd")])]
  else if decide (text = "") then Some []
  else None.
#[export] Instance demo_toml : TomlConfig := {
  unmarshal_map := parse; unmarshal_config text := parse text ≫= of_map;
  unmarshal_domains text := if decide (text = "") then Some ∅ else None;
  config_to_map := to_map; map_to_config := of_map; marshal_config _ := Some "";
}.

(** Paths that do not run through one another. *)
Definition compat (p q : list string) : bool :=
  match p, q with
  | [k], [j; _] | [k; _], [j] => negb (bool_decide (k = j))
  | [k], [j] | [k; _], [j; _] => true
  | _, _ => false
  end.
Lemma tput_tpath p q v m :
  compat p q = true → tpath p (tput q v m) = if decide (p = q) then Some v else tpath p m.
Proof.
  destruct p as [|k [|k' [|]]], q as [|j [|j' [|]]]; try done; simpl; intros Hc;
    rewrite ?negb_true_iff, ?bool_decide_eq_false in Hc; rewrite tget_tset.
  - destruct (decide (k = j)) as [->|].
    + by rewrite decide_True.
    + by rewrite decide_False by congruence.
  - by rewrite !decide_False by congruence.
  - by rewrite !decide_False by congruence.
  - destruct (decide (k = j)) as [->|]; [|by rewrite decide_False by congruence].
    rewrite tget_tset. destruct (decide (k' = j')) as [->|]; [by rewrite decide_True by done|].
    rewrite decide_False by congruence. by destruct (tget j m) as [[]|].
Qed.
Lemma tset_keys k v m : NoDup m.*1 → NoDup (tset k v m).*1.
Proof.
  induction m as [|[j x] m IH]; simpl; intros Hn; [by repeat constructor; apply not_elem_of_nil|].
  apply NoDup_cons in Hn as [Hj Hn]. destruct (decide (k = j)) as [->|Hk]; simpl; [by constructor|].
  constructor; [|auto]. intros Hin. apply Hj. clear -Hin Hk.
  induction m as [|[i y] m IH]; simpl in *.
  - apply list_elem_of_singleton in Hin. congruence.
  - destruct (decide (k = i)) as [->|]; simpl in *; rewrite !elem_of_cons in *; naive_solver.
Qed.
Lemma tset_once k v m :
  keys_once m → (∀ m', v = TMap m' → NoDup m'.*1) → keys_once (tset k v m).
Proof.
  intros [Hn Hs] Hv. split; [by apply tset_keys|]. intros j m'. rewrite tget_tset.
  destruct (decide (j = k)) as [->|]; [intros [= ->]; by apply Hv|apply Hs].
Qed.
Lemma tput_once p v m : keys_once m → (∀ m', v ≠ TMap m') → keys_once (tput p v m).
Proof.
  intros Hm Hv. destruct p as [|k [|k' [|]]]; try done; simpl; apply tset_once; try done.
  - intros m' ->. by destruct (Hv m').
  - intros m' [= <-]. apply tset_keys. destruct (tget k m) as [[]|] eqn:E; try apply NoDup_nil_2.
    by eapply Hm.
Qed.

Lemma fields_compat p f q g : (p, f) ∈ string_fields → (q, g) ∈ string_fields → compat p q = true.
Proof.
  assert (Hall : forallb (λ x : list string * (DomainConfig → string),
      forallb (λ y : list string * (DomainConfig → string), compat x.1 y.1) string_fields)
      string_fields = true) by reflexivity.
  rewrite forallb_forall in Hall. intros Hp%list_elem_of_In%Hall Hq%list_elem_of_In.
  rewrite forallb_forall in Hp. by apply Hp in Hq.
Qed.
Lemma fields_distinct : NoDup string_fields.*1.
Proof. apply (bool_decide_unpack _). vm_compute. exact I. Qed.

Lemma fold_fields c l m p f :
  l ⊆ string_fields → (p, f) ∈ string_fields → NoDup l.*1 →
  tpath p (foldl (put_field c) m l) =
  if decide (p ∈ l.*1) then (if decide (f c = "") then tpath p m else Some (TStr (f c)))
  else tpath p m.
Proof.
  intros Hl Hp. revert m. induction l as [|[q g] l IH]; intros m Hn; cbn [foldl fmap list_fmap].
  - by rewrite decide_False by apply not_elem_of_nil.
  - apply NoDup_cons in Hn as [Hq Hn].
    assert (Hg : (q, g) ∈ string_fields) by (apply Hl; by left).
    rewrite IH by (try done; intros x Hx; apply Hl; by right). unfold put_field; simpl.
    assert (Hpq : tpath p (if decide (g c = "") then m else tput q (TStr (g c)) m) =
      if decide (p = q) then (if decide (g c = "") then tpath p m else Some (TStr (g c))) else tpath p m).
    { destruct (decide (g c = "")); [by destruct (decide (p = q))|].
      apply tput_tpath. by eapply fields_compat. }
    rewrite Hpq. destruct (decide (p = q)) as [->|Hne].
    + rewrite (decide_False (P := q ∈ l.*1)) by done. rewrite (decide_True (P := q ∈ q :: l.*1)) by (apply elem_of_cons; by left).
      replace g with f; [done|]. clear -Hp Hg.
      pose proof fields_distinct as Hd. apply list_elem_of_lookup in Hp as [i Hi], Hg as [j Hj].
      assert (i = j) as ->; [|congruence].
      eapply (NoDup_lookup _ _ _ q Hd); rewrite list_lookup_fmap; [by rewrite Hi|by rewrite Hj].
    + destruct (decide (p ∈ l.*1)).
      * by rewrite (decide_True (P := p ∈ q :: l.*1)) by (apply elem_of_cons; by right).
      * by rewrite (decide_False (P := p ∈ q :: l.*1)) by (by apply not_elem_of_cons).
Qed.
Lemma fold_once c l m : keys_once m → keys_once (foldl (put_field c) m l).
Proof.
  revert m. induction l as [|[p f] l IH]; intros m Hm; simpl; [done|]. apply IH.
  unfold put_field. simpl. destruct (decide _); [done|]. by apply tput_once.
Qed.
Lemma fields_map_path c p f :
  (p, f) ∈ string_fields →
  tpath p (fields_map c) = if decide (f c = "") then None else Some (TStr (f c)).
Proof.
  intros Hp. unfold fields_map. rewrite (fold_fields c _ _ p f) by (try done; apply fields_distinct).
  rewrite decide_True by (apply list_elem_of_fmap; by exists (p, f)).
  destruct (field_paths p f Hp) as [[k ->]|(k & k' & ->)]; done.
Qed.

Lemma fields_section c p f : (p, f) ∈ string_fields → section_ok p (fields_map c).
Proof.
  intros Hp. unfold fields_map.
  assert (Hl : ∀ l m, l ⊆ string_fields → section_ok p m → section_ok p (foldl (put_field c) m l)).
  { induction l as [|[q g] l IH]; intros m Hl Hm; [done|]. simpl. apply IH; [by intros x Hx; apply Hl; right|].
    assert (Hc : compat p q = true) by (eapply fields_compat, Hl; [done|by left]).
    unfold put_field; simpl. destruct (decide _); [done|].
    destruct p as [|k [|k' [|]]], q as [|j [|j' [|]]]; try done; simpl in *; rewrite tget_tset.
    - rewrite negb_true_iff, bool_decide_eq_false in Hc. by rewrite decide_False.
    - destruct (decide (k = j)); [right; by eexists|done]. }
  apply Hl; [done|]. destruct (field_paths p f Hp) as [[k ->]|(k & k' & ->)]; simpl; auto.
Qed.
Lemma fields_not_forwards p f v m :
  (p, f) ∈ string_fields → tpath p (tset "forwards" v m) = tpath p m ∧
  (section_ok p m → section_ok p (tset "forwards" v m)).
Proof.
  assert (Hall : forallb (λ x : list string * (DomainConfig → string),
      match x.1 with k :: _ => negb (bool_decide (k = "forwards")) | [] => false end)
      string_fields = true) by reflexivity.
  rewrite forallb_forall in Hall. intros Hp%list_elem_of_In%Hall. simpl in Hp.
  destruct p as [|k p]; [done|]. apply negb_true_iff, bool_decide_eq_false in Hp.
  destruct p as [|k' [|]]; simpl; rewrite tget_tset, decide_False by done; done.
Qed.
Lemma table_of_keys l : (table_of l).*1 = l.*1.
Proof. unfold table_of. rewrite <- list_fmap_compose. done. Qed.
Lemma strings_of_get fs l :
  NoDup fs.*1 → strings_of fs = Some l → ∀ k v, (k, v) ∈ l ↔ tget k fs = Some (TStr v).
Proof.
  unfold strings_of. intros Hn Hm k v. apply mapM_Some in Hm. revert Hn.
  induction Hm as [|[j x] [j' y] fs l Hx Hm IH]; intros Hn; simpl.
  - split; [by intros ?%elem_of_nil|done].
  - apply NoDup_cons in Hn as [Hj Hn]. simpl in *. destruct x as [s| | |]; try done.
    injection Hx as -> ->. rewrite elem_of_cons, IH by done.
    destruct (decide (k = j')) as [->|Hk]; [|naive_solver].
    split; [|intros [= ->]; by left]. intros [[= <-]|Ht]; [done|]. by rewrite tget_notin in Ht.
Qed.
Lemma of_map_fields m c :
  of_map m = Some c →
  (∀ p f, (p, f) ∈ string_fields → field_ok m p = true) ∧ ∃ fw, c = read m fw.
Proof.
  unfold of_map. destruct (forallb _ string_fields) eqn:E; [|done]. intros Hc. split.
  - intros p f Hp%list_elem_of_In. rewrite forallb_forall in E. exact (E _ Hp).
  - destruct (tget "forwards" m) as [[]|]; try done; [|injection Hc as <-; by eexists].
    destruct (decide _); [|done]. destruct (strings_of m0); [|done]. injection Hc as <-. by eexists.
Qed.
Lemma read_get m fw p f : (p, f) ∈ string_fields → f (read m fw) = get m p.
Proof.
  unfold string_fields. intros Hp. repeat (apply elem_of_cons in Hp as [[= -> ->]|Hp]; [done|]).
  by apply elem_of_nil in Hp.
Qed.

#[export] Instance demo_toml_laws : TomlConfigLaws.
Proof.
  constructor.
  - intros text m. simpl. unfold parse.
    destruct (decide (text = "forwards = {}")); [|destruct (decide (text = "[auth] type"));
      [|destruct (decide (text = "")); [|done]]]; intros [= <-].
    + split; [apply NoDup_singleton|]. intros k m'. simpl. destruct (decide _); [|done].
      intros [= <-]. apply NoDup_nil_2.
    + split; [apply NoDup_singleton|]. intros k m'. simpl. destruct (decide _); [|done].
      intros [= <-]. apply NoDup_singleton.
    + split; [apply NoDup_nil_2|done].
  - intros c m. simpl. unfold to_map. pose proof (fold_once c string_fields []) as Ho.
    assert (keys_once []) as H0 by (split; [constructor|done]). specialize (Ho H0).
    destruct (cfg_Forwards c) as [[|kv l]|]; try (by intros [= <-]).
    destruct (decide _) as [Hd|]; [|done]. intros [= <-]. apply tset_once; [done|].
    intros m' E. change (TMap (table_of (kv :: l)) = TMap m') in E. injection E as <-.
    change (NoDup (table_of (kv :: l)).*1). by rewrite table_of_keys.
  - intros c m p f. simpl. unfold to_map. intros Hm Hp. rewrite <- (fields_map_path c p f Hp).
    destruct (cfg_Forwards c) as [[|kv l]|]; try (by injection Hm as <-).
    destruct (decide _) as [Hd|]; [|done]. injection Hm as <-. by eapply fields_not_forwards.
  - intros c m k k' f. simpl. unfold to_map. intros Hm Hp.
    pose proof (fields_section c _ _ Hp) as Hs.
    destruct (cfg_Forwards c) as [[|kv l]|]; try (by injection Hm as <-).
    destruct (decide _) as [Hd|]; [|done]. injection Hm as <-.
    by apply (fields_not_forwards _ _ (TMap (table_of (kv :: l))) (fields_map c) Hp).
  - intros c m p f. simpl. intros [Hok [fw ->]]%of_map_fields Hp.
    rewrite (read_get m fw p f Hp). unfold get. specialize (Hok _ _ Hp).
    apply andb_true_iff in Hok as [_ Hok]. destruct (tpath p m) as [[]|]; try done; auto.
  - intros c m k k' f. simpl. intros [Hok _]%of_map_fields Hp. specialize (Hok _ _ Hp).
    apply andb_true_iff in Hok as [Hok _]. destruct (tget k m) as [[]|]; try done; eauto.
  - intros c m. simpl. unfold of_map. destruct (forallb _ _); [|done].
    destruct (tget "forwards" m) as [[]|]; try done; [|by intros [= <-]].
    destruct (decide _) as [Hd|]; [|done]. destruct (strings_of m0) as [l|] eqn:El; [|done].
    intros [= <-]. exists l. split; [done|]. by apply strings_of_get.
Qed.
End TomlDemo.

(** ** Where a login is checked *)
Section Routing.
Context `{Crypto, KeyringJson, UnicodeCase, TomlConfig, DkimKeys} (decoy : string).
Context (dirs : string → bool) (entries : option (list string)) (fallback : option fallbackAgent).

(** The credential file of the domain [n]: the one its configuration names, in the
    directory of that name unless it is an absolute path. *)
Definition credentials_of (p : provider) (n path : string) : Prop :=
  let dir := Join [basePath p; n] in
  ∃ w0 w1 w2 layers own cfg,
    config_layers p n (Join [dir; "config.toml"]) w0 = (Ok (layers, own), w1) ∧
    mergeConfigLayers layers w1 = (Ok cfg, w2) ∧
    path = resolvePath dir (CredentialBackend (cfg_Auth cfg)).
(** The agent of a domain, once opened, reads the credentials its configuration
    names; a cached domain is the one of its name. *)
Definition agent_ok (l : lazyAuthAgent) : Prop :=
  ∀ a, la_once l = Some (Ok a) → passwdPath a = ac_Credentials (la_cfg l).
Definition provider_ok (p : provider) : Prop :=
  ∀ n d, cache p !! n = Some d → d_Name d = n ∧ agent_ok (d_auth d) ∧
    credentials_of p n (ac_Credentials (la_cfg (d_auth d))).
Lemma credentials_set_cache f p n path : credentials_of p n path → credentials_of (set_cache f p) n path.
Proof. by destruct p. Qed.

Lemma NewAgent_path path keys w a w' : NewAgent path keys w = (Ok a, w') → passwdPath a = path.
Proof.
  unfold NewAgent, bind. destruct (parsePasswd path w) as [[es|] w1]; [|done]. by intros [= <- _].
Qed.
Lemma OpenAuthAgent_path c w a w' : OpenAuthAgent c w = (Ok a, w') → passwdPath a = ac_Credentials c.
Proof.
  unfold OpenAuthAgent. repeat destruct (decide _); try done.
  unfold bind. destruct (NewAgent _ _ w) as [[b|] w1] eqn:E; [|done].
  intros [= <- _]. simpl. by eapply NewAgent_path.
Qed.
Lemma lazy_init_ok l w r l' w' :
  agent_ok l → lazy_init l w = (r, l', w') →
  agent_ok l' ∧ la_cfg l' = la_cfg l ∧ la_once l' = Some r.
Proof.
  intros Hl. unfold lazy_init. destruct (la_once l) as [r0|] eqn:E; [by intros [= <- <- <-]|].
  destruct (OpenAuthAgent (la_cfg l) w) as [r0 w0] eqn:Eo. intros [= <- <- <-].
  split; [|done]. intros a [= ->]. simpl. by eapply OpenAuthAgent_path.
Qed.

Lemma loadDomain_fresh p name w d w' :
  let dir := Join [basePath p; name] in
  loadDomain p name dir (Join [dir; "config.toml"]) w = (Ok d, w') →
  d_Name d = name ∧ la_once (d_auth d) = None ∧ credentials_of p name (ac_Credentials (la_cfg (d_auth d))).
Proof.
  cbv zeta. unfold loadDomain. unfold bind at 1.
  destruct (config_layers p name _ w) as [[[layers own]|] w1] eqn:El; [|done].
  unfold bind at 1. destruct (mergeConfigLayers layers w1) as [[cfg|] w2] eqn:Em; [|done].
  destruct (OpenStore _) as [store|]; [|done].
  destruct (forward_tiers p own cfg) as [adminFwd defaultFwd].
  destruct (load_forwards _ w2) as [df w3]. destruct (load_dkim cfg _ w3) as [dk w4].
  intros [= <- _]. split_and!; [done..|]. by exists w, w1, w2, layers, own, cfg.
Qed.
Lemma GetDomain_ok name p w od p' w' :
  provider_ok p → GetDomain dirs name p w = (od, p', w') →
  provider_ok p' ∧
  match od with
  | Some d => cache p' !! ToLower name = Some d
  | None => cache p !! ToLower name = None ∧ p' = p
  end.
Proof.
  intros Hp. unfold GetDomain. cbv zeta. destruct (cache p !! ToLower name) as [d|] eqn:Ec.
  { by intros [= <- <- <-]. }
  destruct (if defaults p then _ else _) as [absent w1].
  destruct absent; [by intros [= <- <- <-]|].
  destruct (loadDomain p _ _ _ w1) as [[d|] w2] eqn:El; [|by intros [= <- <- <-]].
  intros [= <- <- <-]. apply loadDomain_fresh in El as (Hn & Hf & Hcr). split.
  - intros n d' Hd. simpl in Hd. destruct (decide (n = ToLower name)) as [->|Hne].
    + rewrite lookup_insert_eq in Hd. injection Hd as <-. split; [done|]. split; [intros a; by rewrite Hf|].
      by apply credentials_set_cache.
    + rewrite lookup_insert_ne in Hd by done. destruct (Hp _ _ Hd) as (? & ? & ?). split_and!; [done..|].
      by apply credentials_set_cache.
  - simpl. by rewrite lookup_insert_eq.
Qed.

Lemma domain_Authenticate_ok name base pw p w r p' w' :
  provider_ok p → domain_Authenticate decoy name base pw p w = (r, p', w') →
  provider_ok p' ∧
  (∀ sess, r = Ok sess →
   ∃ d a w0, cache p' !! name = Some d ∧ la_once (d_auth d) = Some (Ok a) ∧
     credentials_of p' name (passwdPath a) ∧
     (Passwd.Authenticate decoy a base pw w0).1.1 = Ok sess).
Proof.
  intros Hp. unfold domain_Authenticate.
  destruct (cache p !! name) as [d|] eqn:Ec; [|by intros [= <- <- <-]].
  destruct (Hp _ _ Ec) as (Hn & Ha & Hcr). unfold lazy_Authenticate.
  destruct (lazy_init (d_auth d) w) as [[r0 l0] w0] eqn:El.
  apply lazy_init_ok in El as (Ha' & Hc & Ho); [|done].
  assert (Hp' : provider_ok (set_cache (insert name (with_auth l0 d)) p)).
  { intros n d' Hd. simpl in Hd. destruct (decide (n = name)) as [->|Hne].
    - rewrite lookup_insert_eq in Hd. injection Hd as <-. split_and!; [done..|]. apply credentials_set_cache.
      cbn [with_auth d_auth]. by rewrite Hc.
    - rewrite lookup_insert_ne in Hd by done. destruct (Hp _ _ Hd) as (? & ? & ?). split_and!; [done..|].
      by apply credentials_set_cache. }
  destruct r0 as [a|e]; [|by intros [= <- <- <-]].
  destruct (Passwd.Authenticate decoy a base pw w0) as [[r1 w1] log] eqn:Ea.
  intros [= <- <- <-]. split; [done|]. intros sess ->.
  exists (with_auth l0 d), a, w0. rewrite Ea. simpl. rewrite lookup_insert_eq.
  split; [done|]. split; [done|]. split; [|done]. apply credentials_set_cache. rewrite (Ha' a Ho), Hc. exact Hcr.
Qed.

(** The outcome of a successful login, in terms of who accepted it. *)
Definition accepted_by (username pw : string) (p' : provider) (r : AuthResult) : Prop :=
  let '(localPart, domainName) := SplitUsername username in
  let '(base, extension) := ParseLocalPart localPart in
  Extension r = extension ∧
  match ar_Domain r with
  | Some d =>
      domainName ≠ "" ∧ d = ToLower domainName ∧
      ∃ dom a sess w0, cache p' !! d = Some dom ∧ la_once (d_auth dom) = Some (Ok a) ∧
        credentials_of p' d (passwdPath a) ∧
        (Passwd.Authenticate decoy a base pw w0).1.1 = Ok sess ∧
        ar_Session r = with_mailbox (base +:+ "@" +:+ domainName) sess
  | None =>
      (domainName = "" ∨
       cache p' !! ToLower domainName = None ∧ ∃ w0, (hasDomains entries (Some p') w0).1 = false) ∧
      ∃ f w0, fallback = Some f ∧
        (fb_Authenticate f (fallback_user username base extension domainName) pw w0).1 = Ok (ar_Session r)
  end.

Lemma use_fallback_ok username base ext dn pw w r w' :
  use_fallback fallback username base ext dn pw w = (Ok r, w') →
  Extension r = ext ∧ ar_Domain r = None ∧
  ∃ f w0, fallback = Some f ∧
    (fb_Authenticate f (fallback_user username base ext dn) pw w0).1 = Ok (ar_Session r).
Proof.
  unfold use_fallback. destruct fallback as [f|]; [|done].
  destruct (fb_Authenticate f _ pw w) as [[s|] w1] eqn:E; [|done]. intros [= <- _].
  split; [done|]. split; [done|]. exists f, w. by rewrite E.
Qed.

Lemma internal_accepted username pw p w r ps w' :
  provider_ok p →
  authenticateInternal decoy dirs entries fallback username pw (Some p) w = (Ok r, ps, w') →
  ∃ p', ps = Some p' ∧ provider_ok p' ∧ accepted_by username pw p' r.
Proof.
  intros Hp. unfold authenticateInternal, accepted_by.
  destruct (SplitUsername username) as [localPart dn]. destruct (ParseLocalPart localPart) as [base ext].
  cbv zeta. destruct (decide (dn = "")) as [->|Hdn].
  - destruct (use_fallback _ _ _ _ _ _ w) as [r0 w0] eqn:Ef. intros [= -> <- <-].
    apply use_fallback_ok in Ef as (He & Hd & Hf). exists p. rewrite Hd. by eauto 6.
  - destruct (GetDomain dirs dn p w) as [[[d|] p1] w1] eqn:Eg.
    + apply GetDomain_ok in Eg as [Hp1 Hc]; [|done].
      destruct (domain_Authenticate decoy (ToLower dn) base pw p1 w1) as [[[sess|] p2] w2] eqn:Ea; [|done].
      apply domain_Authenticate_ok in Ea as [Hp2 Hs]; [|done].
      intros [= <- <- <-]. exists p2. split; [done|]. split; [done|]. simpl.
      destruct (Hs sess eq_refl) as (dom & a & w0 & Hd & Ho & Hpath & Hauth).
      split; [done|]. split; [done|]. split; [by apply (Hp1 _ _ Hc)|].
      destruct (Hp1 _ _ Hc) as [-> _]. by exists dom, a, sess, w0.
    + apply GetDomain_ok in Eg as [Hp1 [Hc ->]]; [|done].
      destruct (hasDomains entries (Some p) w1) as [hosted w2] eqn:Eh. destruct hosted; [done|].
      destruct (use_fallback _ _ _ _ _ _ w2) as [r0 w0] eqn:Ef. intros [= -> <- <-].
      apply use_fallback_ok in Ef as (He & Hd & Hf). exists p. rewrite Hd.
      split; [done|]. split; [done|]. split; [done|]. split; [|done].
      right. split; [done|]. exists w1. by rewrite Eh.
Qed.

Context {S : Type} `{LimitStore S} (limits : option RateLimitConfig).

End Routing.

(** ** Behaviour worth knowing *)
Section DomainWitnesses.
Import Toy TomlDemo.
#[local] Instance routing_case : UnicodeCase :=
  {| unicode_upper := id; unicode_lower := id; unicode_fold := λ _ _, false |}.
#[local] Instance no_dkim : DkimKeys := λ _, None.

Definition demo_defaults : DomainConfig :=
  mkDomainConfig (mkAuthConf "passwd" "passwd" "keys" ∅) (mkStoreConf "maildir" "users" ∅)
    (mkDkim "" "") (mkOutbound "" "" "" "") 0 (mkDns "" "") 0 "" "" None.
Definition demo_passwd (h : string) : string := unlines LF ["alice:" +:+ h +:+ ":alice:10001"].
Definition demo_disk (h : string) : folder :=
  mkFolder {[ "/d/example.com/passwd" := demo_passwd h ]} [].
Definition demo_dirs (p : string) : bool := bool_decide (p = "/d/example.com").
Definition demo_provider : provider :=
  WithDefaults demo_defaults (mkProvider "/d" "" None None ∅ None ∅).
Definition demo_hash1 : string := demo_hash "secret12".
Definition demo_login (user pw : string) (p : provider) (w : folder) :=
  AuthenticateWithDomain "" demo_dirs (Some ["example.com"]) None (Some DefaultRateLimitConfig)
    0%Z "192.0.2.1" user pw (Some p) (∅ : gmap string AuthLimit.Mem.memLimitEntry) w.

Definition alice_result : AuthResult :=
  mkAuthResult (mkSession "alice" "alice@Example.COM" None None false) (Some "example.com") "x".


Definition layered : provider :=
  mkProvider "/d" "" (Some demo_defaults)
    (Some (mkDomainConfig (mkAuthConf "ldap" "cred" "" ∅) (mkStoreConf "" "" ∅) (mkDkim "" "")
             (mkOutbound "" "" "" "") 0 (mkDns "" "") 0 "data" "" None)) ∅ None ∅.
Definition layered_disk : folder := mkFolder {[ "/d/x/config.toml" := "[auth] type" ]} [].

Definition demo_layers : list (option tmap) * option tmap :=
  match (config_layers layered "x" "/d/x/config.toml" layered_disk).1 with
  | Ok x => x | Err _ => ([], None)
  end.
Definition demo_cfg : DomainConfig :=
  match (mergeConfigLayers demo_layers.1 layered_disk).1 with Ok c => c | Err _ => zero_config end.

(** The own file sets the agent's type, the system's file the credentials; the
    keys keep their default. *)
Lemma config_layering_example :
  auth_Type (cfg_Auth demo_cfg) = "passwd" ∧ CredentialBackend (cfg_Auth demo_cfg) = "cred" ∧
  KeyBackend (cfg_Auth demo_cfg) = "keys".
Proof.
  assert (HL : config_layers layered "x" "/d/x/config.toml" layered_disk =
               (Ok (demo_layers.1, demo_layers.2), layered_disk)) by (vm_compute; reflexivity).
  assert (HM : mergeConfigLayers demo_layers.1 layered_disk = (Ok demo_cfg, layered_disk))
    by (vm_compute; reflexivity).
  split_and!.
  - rewrite (config_layering layered "x" "/d/x/config.toml" layered_disk layered_disk _ _ demo_cfg
      ["auth"; "type"] (λ c, auth_Type (cfg_Auth c)) HL HM) by (left; reflexivity).
    vm_compute. reflexivity.
  - rewrite (config_layering layered "x" "/d/x/config.toml" layered_disk layered_disk _ _ demo_cfg
      ["auth"; "credential_backend"] (λ c, CredentialBackend (cfg_Auth c)) HL HM) by (right; left; reflexivity).
    vm_compute. reflexivity.
  - rewrite (config_layering layered "x" "/d/x/config.toml" layered_disk layered_disk _ _ demo_cfg
      ["auth"; "key_backend"] (λ c, KeyBackend (cfg_Auth c)) HL HM) by (right; right; left; reflexivity).
    vm_compute. reflexivity.
Defined.

(** *** The agent keeps the credentials it read first

    After the first login of a domain its credential file is not read again: the
    old password of a user whose entry has been replaced is still accepted, and
    so is a user who has been deleted. *)
Lemma stale_credentials :
  match demo_login "alice@example.com" "secret12" demo_provider (demo_disk demo_hash1) with
  | (_, Some p', _, _) =>
      (match demo_login "alice@example.com" "secret12" p' (demo_disk "changed") with (r, _, _, _) => is_ok r end) = true ∧
      (match demo_login "alice@example.com" "secret12" p' (mkFolder ∅ []) with (r, _, _, _) => is_ok r end) = true
  | _ => False
  end.
Proof. vm_compute. by split. Qed.

(** A read error at the first login is kept as well: every later login of the
    domain fails although the file is readable. *)
Lemma open_error_sticks :
  match demo_login "alice@example.com" "secret12" demo_provider
          (mkFolder (files (demo_disk demo_hash1)) [Done; Done; Done; Fault 0]) with
  | (_, Some p', _, _) =>
      (match demo_login "alice@example.com" "secret12" p' (demo_disk demo_hash1) with (r, _, _, _) => r end)
      = Err (ErrWrapped "auth agent init")
  | _ => False
  end.
Proof. vm_compute. reflexivity. Qed.

(** *** The domain of a username is a path

    [x/../example.com] is no directory name, yet it is accepted as a domain: its
    users are those of [example.com], under another name for the rate limiter and
    the mailbox. *)
Lemma traversal_domain :
  (match demo_login "alice@x/../example.com" "secret12" demo_provider (demo_disk demo_hash1) with
   | (Ok r, _, _, _) => (as_mailbox (ar_Session r), ar_Domain r) | _ => ("", None) end)
  = ("alice@x/../example.com", Some "x/../example.com").
Proof. vm_compute. reflexivity. Qed.

(** *** One account, many names for the limiter

    Five failures lock [alice@example.com] out for the address; the same account
    under a subaddress or in other letters is not locked. *)
Definition five_failures : gmap string AuthLimit.Mem.memLimitEntry :=
  foldl (λ s t, recordFailure DefaultRateLimitConfig "192.0.2.1" "alice@example.com" t s) ∅ [0; 1; 2; 3; 4]%Z.
Lemma subaddress_evades_lockout :
  (isLimited "192.0.2.1" "alice@example.com" 5 five_failures).1 = true ∧
  (isLimited "192.0.2.1" "alice+1@example.com" 5 five_failures).1 = false ∧
  (isLimited "192.0.2.1" "alice@Example.com" 5 five_failures).1 = false ∧
  (match AuthenticateWithDomain "" demo_dirs (Some ["example.com"]) None (Some DefaultRateLimitConfig)
      5%Z "192.0.2.1" "alice+1@example.com" "secret12" (Some demo_provider) five_failures (demo_disk demo_hash1)
   with (r, _, _, _) => is_ok r end) = true.
Proof. vm_compute. by split_and!. Qed.

(** *** A domain that declares forwards inherits the system's

    [forwards = {}] is documented to disable forwarding for the domain. The layers
    are merged before the section is read, so the system's catch-all becomes the
    first tier of that domain. *)
Definition with_catchall : provider :=
  mkProvider "/d" "" (Some demo_defaults) (Some (with_forwards [("*", "root@example.net")] demo_defaults))
    ∅ None ∅.
Lemma declared_forwards_inherit :
  (match loadDomain with_catchall "x" "/d/x" "/d/x/config.toml"
           (mkFolder {[ "/d/x/config.toml" := "forwards = {}" ]} []) with
   | (Ok d, _) => Resolve (adminForwards (d_chain d)) "anyone"
   | _ => None end) = Some ["root@example.net"].
Proof. vm_compute. reflexivity. Qed.
End DomainWitnesses.
