(* ===== verification/Provision.v ===== *)
(** * Provisioning domains: ownership, identities, creation and removal

    [src/internal/admin]: the ownership model of a domain's two trees with the
    repair and the check of it ([perms.go]), the migration of identities
    ([migrate.go]), creating, deleting and listing domains ([domains.go]), the
    warnings about shadowed mailboxes ([shadow.go]). Files are those of [Disk],
    a directory being the path with a slash behind; owners and modes are kept
    beside them. What owner and mode a file gets that the process (re)writes is
    up to the kernel, and any choice is allowed. *)
From S2P Require Import Prelude GoStrings FilePath UidList Forwards Disk Identity Passwd Keyring Domain Admin.
From Stdlib Require Import ZArith Lia Ascii.
Open Scope string_scope.
Open Scope list_scope.
Open Scope Z_scope.

(** ** The tree *)
Record attr := mkAttr { at_uid : Z; at_gid : Z; at_mode : Z }.
Record tree := mkTree { t_disk : folder; t_attrs : string → attr }.
Notation tfiles w := (files (t_disk w)).
Definition attr_of (w : tree) (q : string) : attr := t_attrs w q.
Definition is_dir (fs : gmap string string) (q : string) : bool := bool_decide (is_Some (fs !! (q +:+ "/"))).
Definition is_regular (fs : gmap string string) (q : string) : bool :=
  negb (is_dir fs q) && bool_decide (is_Some (fs !! q)).

(** What stands at a path; where it changes, the kernel gives the new file its
    owner and mode. *)
Definition inode (fs : gmap string string) (q : string) : bool * option string :=
  if is_dir fs q then (true, fs !! (q +:+ "/")) else (false, fs !! q).
Definition refresh (fresh_attr : gmap string string → string → attr) (fs fs' : gmap string string) (a : string → attr)
    : string → attr := λ q, if decide (inode fs q = inode fs' q) then a q else fresh_attr fs' q.

(** [os.FileMode] *)
Definition ModeDir : Z := 2 ^ 31.
Definition ModeSetuid : Z := 2 ^ 23.
Definition ModeSetgid : Z := 2 ^ 22.
Definition ModeSticky : Z := 2 ^ 20.
Definition ModePerm : Z := 0x1ff.
Definition sharedDirMode : Z := Z.lor 0x1e8 ModeSetgid.       (** 0750 *)
Definition userDirMode : Z := 0x1c0.                          (** 0700 *)
Definition rootUID : Z := 0.
Definition configFileMode : Z := 0x1a0.                       (** 0640 *)
Definition permModeBits : Z := Z.lor ModePerm (Z.lor ModeSetuid (Z.lor ModeSetgid ModeSticky)).
Definition WebadminUID : Z := 905.
Definition CfgreadGID : Z := 906.

Inductive statres := StatError | StatMissing | StatInfo (dir : bool) (a : attr).
Definition info_Mode (dir : bool) (a : attr) : Z := if dir then Z.lor ModeDir (at_mode a) else at_mode a.
Definition sys_tree (w : tree) : sysres * tree :=
  let '(r, d) := sys (t_disk w) in (r, mkTree d (t_attrs w)).
Definition os_Stat (q : string) (w : tree) : statres * tree :=
  match sys_tree w with
  | (Fault _, w) => (StatError, w)
  | (Done, w) =>
      (if is_dir (tfiles w) q then StatInfo true (attr_of w q)
       else if is_regular (tfiles w) q then StatInfo false (attr_of w q) else StatMissing, w)
  end.
Definition set_attr (q : string) (a : attr) (w : tree) : tree := 
  mkTree (t_disk w) (λ q', if decide (q' = q) then a else t_attrs w q').
Definition os_Chmod (q : string) (mode : Z) (w : tree) : bool * tree :=
  match sys_tree w with
  | (Fault _, w) => (false, w)
  | (Done, w) => (true, set_attr q (mkAttr (at_uid (attr_of w q)) (at_gid (attr_of w q)) mode) w)
  end.
(** The kernel takes set-id bits from a file, not from a directory, whose owner
    changes. *)
Definition drop_setid (mode : Z) : Z :=
  Z.ldiff mode (if Z.testbit mode 3 then Z.lor ModeSetuid ModeSetgid else ModeSetuid).
Definition os_Chown (q : string) (uid gid : Z) (w : tree) : bool * tree :=
  match sys_tree w with
  | (Fault _, w) => (false, w)
  | (Done, w) =>
      let mode := at_mode (attr_of w q) in
      (true, set_attr q (mkAttr uid gid (if is_dir (tfiles w) q then mode else drop_setid mode)) w)
  end.
(** The directories [MkdirAll] makes where they are missing, outermost first. *)
Definition dir_chain (path : string) : list string :=
  filter (λ q, q ≠ "") ((λ i, sjoin "/" (take i (Split slash path))) <$> seq 1 (length (Split slash path))).
Definition make_dirs (qs : list string) (fs : gmap string string) : gmap string string :=
  foldr (λ q fs, if is_dir fs q then fs else <[q +:+ "/" := ""]> fs) fs qs.
Definition strip_prefix (pre s : string) : option string :=
  if HasPrefix s pre then Some (sdrop (String.length pre) s) else None.
(** [os.ReadDir]: names in order; the files and the directories. *)
Definition direct_names (d : string) (fs : gmap string string) : list string :=
  omap (strip_prefix (d +:+ "/")) (map_to_list fs).*1.
Definition dir_files (d : string) (fs : gmap string string) : list string :=
  merge_sort String.le (filter (λ n, n ≠ "" ∧ n ≠ "." ∧ n ≠ ".." ∧ has_byte slash n = false ∧ is_dir fs (d +:+ "/" +:+ n) = false)
    (direct_names d fs)).
Definition dir_dirs (d : string) (fs : gmap string string) : list string :=
  merge_sort String.le (omap (λ n, let m := TrimSuffix n "/" in
    if HasSuffix n "/" && negb (bool_decide (m = "")) && negb (has_byte slash m) then Some m else None)
    (direct_names d fs)).

(** ** Plans and reports *)
Record permEntry := mkEntry' { pe_Path : string; pe_UID : Z; pe_GID : Z; pe_Mode : Z }.
Global Instance permEntry_eq_dec : EqDecision permEntry.
Proof. solve_decision. Defined.
Record PermResult := mkResult {
  pr_Path : string; pr_UID : Z; pr_GID : Z; pr_Mode : Z; pr_Changed : bool; pr_Skipped : bool; pr_Err : string;
  pr_GotUID : Z; pr_GotGID : Z; pr_GotMode : Z;
}.
Record PermReport := mkReport {
  rp_Domain : string; rp_Allocated : list string; rp_Warnings : list string; rp_Entries : list PermResult;
}.
Definition DriftCount (r : PermReport) : nat := length (filter (λ e, pr_Changed e = true) (rp_Entries r)).
Definition firstError (entries : list PermResult) : option string :=
  match filter (λ e, pr_Err e ≠ "") entries with
  | e :: _ => Some (pr_Path e +:+ ": " +:+ pr_Err e)
  | [] => None
  end.
Definition appendErr (existing add : string) : string :=
  if decide (existing = "") then add else existing +:+ "; " +:+ add.

Definition pio (A : Type) : Type := tree → result A adminErr * tree.
Definition pret {A} (a : A) : pio A := λ w, (Ok a, w).
Definition pfail {A} (e : adminErr) : pio A := λ w, (Err e, w).
Definition pbind {A B} (m : pio A) (k : A → pio B) : pio B := λ w,
  match m w with (Ok a, w) => k a w | (Err e, w) => (Err e, w) end.
Declare Scope pio_scope.
Delimit Scope pio_scope with pio.
Notation "'do!' x ':=' m 'in' k" := (pbind m (λ x, k))
  (at level 200, x pattern, m at level 100, k at level 200, right associativity) : pio_scope.
Notation "m ';;!' k" := (pbind m (λ _, k)) (at level 100, right associativity) : pio_scope.

Section Provision.
Context `{Crypto, KeyringJson, UnicodeQuote, UnicodeCase, Toml, TomlConfig}.
(** [fresh_attr]: owner and mode of a new file; [root]: the effective user is
    root; the two legacy fields that [toml.Unmarshal] finds in a file. *)
Context (fresh_attr : gmap string string → string → attr).
Context (root : bool) (legacy_domain_gid legacy_top_gid : string → option Z) (p : Paths).

Definition on_disk {A E} (err : E → adminErr) (m : io E A) : pio A := λ w,
  let '(r, d) := m (t_disk w) in
  (match r with Ok a => Ok a | Err e => Err (err e) end, mkTree d (refresh fresh_attr (tfiles w) (files d) (t_attrs w))).
(** A call that only reads. *)
Definition reading {A E} (m : io E A) (w : tree) : result A E * tree :=
  let '(r, d) := m (t_disk w) in (r, mkTree d (t_attrs w)).
Definition read_as {A E} (err : E → adminErr) (m : io E A) : pio A := λ w,
  let '(r, w) := reading m w in (match r with Ok a => Ok a | Err e => Err (err e) end, w).
Definition os_MkdirAll (q : string) (w : tree) : bool * tree :=
  match sys_tree w with
  | (Fault _, w) => (false, w)
  | (Done, w) =>
      if existsb (is_regular (tfiles w)) (dir_chain q) then (false, w)
      else
        let fs := make_dirs (dir_chain q) (tfiles w) in
        (true, mkTree (mkFolder fs (faults (t_disk w))) (refresh fresh_attr (tfiles w) fs (t_attrs w)))
  end.

(** *** [applyPlan] and [checkPlan] *)
Definition result_of (e : permEntry) (chg skipped : bool) (err : string) : PermResult :=
  mkResult (pe_Path e) (pe_UID e) (pe_GID e) (pe_Mode e) chg skipped err 0 0 0.
(** Mode and owner of a path that is there; [info]: the mode it had. *)
Definition apply_attrs (e : permEntry) (info : option Z) (made : bool) (w : tree) : PermResult * tree :=
  let '(chg, err, w) :=
    if bool_decide (info = Some (pe_Mode e)) then (made, "", w)
    else match os_Chmod (pe_Path e) (pe_Mode e) w with
         | (false, w) => (made, appendErr "" "chmod", w)
         | (true, w) => (made || bool_decide (info ≠ None), "", w)
         end in
  if root then
    match os_Chown (pe_Path e) (pe_UID e) (pe_GID e) w with
    | (false, w) => (result_of e chg false (appendErr err "chown"), w)
    | (true, w) => (result_of e true false err, w)
    end
  else (result_of e chg true err, w).
Definition apply_entry (createMissing : bool) (e : permEntry) (w : tree) : PermResult * tree :=
  match os_Stat (pe_Path e) w with
  | (StatError, w) => (result_of e false false "stat", w)
  | (StatInfo dir a, w) => apply_attrs e (Some (info_Mode dir a)) false w
  | (StatMissing, w) =>
      if createMissing then
        match os_MkdirAll (pe_Path e) w with
        | (false, w) => (result_of e false false "create", w)
        | (true, w) => apply_attrs e None true w
        end
      else (result_of e false true "does not exist", w)
  end.
Fixpoint applyPlan (createMissing : bool) (plan : list permEntry) (w : tree) : list PermResult * tree :=
  match plan with
  | [] => ([], w)
  | e :: plan =>
      let '(r, w) := apply_entry createMissing e w in
      let '(rs, w) := applyPlan createMissing plan w in
      (r :: rs, w)
  end.
Definition check_entry (e : permEntry) (w : tree) : PermResult * tree :=
  let res chg err u g m :=
    mkResult (pe_Path e) (pe_UID e) (pe_GID e) (pe_Mode e) chg (negb root) err u g m in
  match os_Stat (pe_Path e) w with
  | (StatError, w) => (res false "stat" (-1) (-1) 0, w)
  | (StatMissing, w) => (res true "missing" (-1) (-1) 0, w)
  | (StatInfo dir a, w) =>
      let got := Z.land (info_Mode dir a) permModeBits in
      (res (negb (got =? Z.land (pe_Mode e) permModeBits)
            || root && (negb (at_uid a =? pe_UID e) || negb (at_gid a =? pe_GID e)))
         "" (at_uid a) (at_gid a) got, w)
  end.
Fixpoint checkPlan (plan : list permEntry) (w : tree) : list PermResult * tree :=
  match plan with
  | [] => ([], w)
  | e :: plan =>
      let '(r, w) := check_entry e w in
      let '(rs, w) := checkPlan plan w in
      (r :: rs, w)
  end.

(** *** The plans *)
Definition config_entry (mode : Z) (q : string) : permEntry := mkEntry' q WebadminUID CfgreadGID mode.
Definition dataDir (domain : string) : string := Join [PData p; domain].
Definition usersDir (domain : string) : string := Join [dataDir domain; "users"].
Definition shared_entries (domain : string) (gid : Z) : list permEntry :=
  [mkEntry' (dataDir domain) rootUID gid sharedDirMode; mkEntry' (usersDir domain) rootUID gid sharedDirMode].
(** The loop over the users; one without a uid is left out. *)
Fixpoint user_entries (domain : string) (gid : Z) (users : list userEntry) (w : tree)
    : result (list permEntry) idErr * tree :=
  match users with
  | [] => (Ok [], w)
  | u :: users =>
      match reading (UserUID (PConfig p) domain (username u)) w with
      | (Err ErrNoUID, w) => user_entries domain gid users w
      | (Err e, w) => (Err e, w)
      | (Ok uid, w) =>
          match user_entries domain gid users w with
          | (Err e, w) => (Err e, w)
          | (Ok es, w) => (Ok (mkEntry' (Join [usersDir domain; username u]) uid gid userDirMode :: es), w)
          end
      end
  end.
Inductive planErr := PlanGid (e : idErr) | PlanUsers | PlanUid (e : idErr).
Definition domainPermPlan (domain : string) (w : tree) : result (list permEntry) planErr * tree :=
  match reading (DomainGID (PConfig p) domain) w with
  | (Err e, w) => (Err (PlanGid e), w)
  | (Ok gid, w) =>
      match reading (ListUsers (Join [PConfig p; domain; "passwd"])) w with
      | (Err _, w) => (Err PlanUsers, w)
      | (Ok users, w) =>
          match user_entries domain gid users w with
          | (Err e, w) => (Err (PlanUid e), w)
          | (Ok es, w) => (Ok (shared_entries domain gid ++ es), w)
          end
      end
  end.
Definition config_files (domain : string) : list string :=
  let domainDir := Join [PConfig p; domain] in
  [Join [PConfig p; "gid.toml"]; Join [PConfig p; "config.toml"]; Join [domainDir; "config.toml"];
   Join [domainDir; "passwd"]; Join [domainDir; "uid.toml"]; Join [domainDir; "forwards"]].
Definition config_dirs (domain : string) : list string :=
  let domainDir := Join [PConfig p; domain] in [Join [domainDir; "keys"]; Join [domainDir; "user_forwards"]].
Fixpoint plan_files (l : list string) (w : tree) : list permEntry * tree :=
  match l with
  | [] => ([], w)
  | f :: l =>
      let '(st, w) := os_Stat f w in
      let '(es, w) := plan_files l w in
      (match st with StatInfo false _ => config_entry configFileMode f :: es | _ => es end, w)
  end.
Fixpoint plan_dirs (l : list string) (w : tree) : list permEntry * tree :=
  match l with
  | [] => ([], w)
  | d :: l =>
      match os_Stat d w with
      | (StatInfo true _, w) =>
          let '(r, w) := sys_tree w in
          let listed := match r with
            | Done => (λ n, config_entry configFileMode (Join [d; n])) <$> dir_files d (tfiles w)
            | Fault _ => []
            end in
          let '(es, w) := plan_dirs l w in
          (config_entry sharedDirMode d :: listed ++ es, w)
      | (_, w) => plan_dirs l w
      end
  end.
Definition configPermPlan (domain : string) (w : tree) : list permEntry * tree :=
  let '(fs, w) := plan_files (config_files domain) w in
  let '(ds, w) := plan_dirs (config_dirs domain) w in
  ([config_entry sharedDirMode (PConfig p); config_entry sharedDirMode (Join [PConfig p; domain])] ++ fs ++ ds, w).

(** *** Provisioning *)
Definition provision (what : string) (m : tree → list PermResult * tree) : pio unit := λ w,
  let '(rs, w) := m w in
  match firstError rs with Some _ => (Err (EIO what), w) | None => (Ok (), w) end.
Definition provisionDomainDataDirs (domain : string) : pio unit := λ w,
  match reading (DomainGID (PConfig p) domain) w with
  | (Err e, w) => (Err (EId "resolve gid" e), w)
  | (Ok gid, w) => provision "data directories" (applyPlan true (shared_entries domain gid)) w
  end.
Definition provisionDomainConfigTree (domain : string) : pio unit := λ w,
  let '(plan, w) := configPermPlan domain w in
  provision "config tree" (applyPlan false plan) w.
Definition provisionUserDataDir (domain name : string) (uid : Z) : pio unit := λ w,
  match reading (DomainGID (PConfig p) domain) w with
  | (Err e, w) => (Err (EId "resolve gid" e), w)
  | (Ok gid, w) =>
      provision "user directory" (applyPlan true [mkEntry' (userKeyringDir p domain name) uid gid userDirMode]) w
  end.

(** *** Migrating identities ([migrate.go]); errors are the texts reported *)
Definition read_toml (legacy : string → option Z) (q : string) (w : tree) : Z * tree :=
  match reading (read_file () q) w with
  | (Ok (Some text), w) => (default 0 (legacy text), w)
  | (_, w) => (0, w)
  end.
Definition tomlDomainGID := read_toml legacy_domain_gid.
Definition tomlTopLevelGID := read_toml legacy_top_gid.
(** The retired record locations. *)
Definition retired_gid (domain : string) (w : tree) : Z * string * tree :=
  let '(g, w) := tomlDomainGID (Join [dataDir domain; "config.toml"]) w in
  if negb (g =? 0) then (g, "data-tree config.toml", w)
  else
    let '(g, w) := tomlTopLevelGID (Join [PConfig p; domain; "config.toml"]) w in
    if negb (g =? 0) then (g, "config-tree config.toml", w) else (0, "", w).
Definition adoptDomainGID (domain : string) (w : tree) : Z * string * tree :=
  match os_Stat (dataDir domain) w with
  | (StatInfo _ a, w) =>
      if Allocatable (at_gid a) then (at_gid a, "data dir group", w) else retired_gid domain w
  | (_, w) => retired_gid domain w
  end.
Definition id_msg (e : idErr) : adminErr := EId "" e.
(** [AllocateDomainGID] and [AllocateUserUID] return the id that is there with an
    error. *)
Definition allocated (m : io idErr (Z * option idErr)) : pio Z := λ w,
  match on_disk id_msg m w with
  | (Ok (id, None), w) => (Ok id, w)
  | (Ok (_, Some e), w) => (Err (id_msg e), w)
  | (Err e, w) => (Err e, w)
  end.
Definition migrate_gid (name : string) (w : tree) : bool * list string * list string * tree :=
  match reading (DomainGID (PConfig p) name) w with
  | (Ok _, w) => (false, [], [], w)
  | (Err ErrNoGID, w) =>
      let '(gid, src, w) := adoptDomainGID name w in
      if negb (gid =? 0) then
        match on_disk id_msg (SetDomainGID (idMgr p) name gid) w with
        | (Err _, w) => (false, [], [name +:+ ": record adopted gid"], w)
        | (Ok _, w) => (true, [name +:+ " gid=" +:+ fmt_d gid +:+ " (adopted from " +:+ src +:+ ")"], [], w)
        end
      else
        match allocated (AllocateDomainGID (idMgr p) name) w with
        | (Err _, w) => (false, [], [name +:+ ": allocate gid"], w)
        | (Ok gid, w) => (true, [name +:+ " gid=" +:+ fmt_d gid +:+ " (allocated)"], [], w)
        end
  | (Err _, w) => (false, [], [name +:+ ": read gid"], w)
  end.
Fixpoint migrate_users (domain : string) (users : list userEntry) (w : tree)
    : nat * list string * list string * tree :=
  match users with
  | [] => (0%nat, [], [], w)
  | u :: users =>
      let who := username u +:+ "@" +:+ domain in
      match reading (UserUID (PConfig p) domain (username u)) w with
      | (Err ErrNoUID, w) =>
          let '(r, how, w) :=
            if negb (user_uid u =? 0) then
              let '(r, w) := on_disk id_msg (SetUserUID (idMgr p) domain (username u) (user_uid u)) w in
              (match r with Ok _ => Ok (user_uid u) | Err _ => Err ": record adopted uid" end, " (adopted from passwd)", w)
            else
              let '(r, w) := allocated (AllocateUserUID (idMgr p) domain (username u)) w in
              (match r with Ok uid => Ok uid | Err _ => Err ": allocate uid" end, " (allocated)", w) in
          let '(n, details, errs, w) := migrate_users domain users w in
          match r with
          | Ok uid => (S n, (who +:+ " uid=" +:+ fmt_d uid +:+ how) :: details, errs, w)
          | Err e => (n, details, (who +:+ e) :: errs, w)
          end
      | (_, w) => migrate_users domain users w
      end
  end.
Definition migrateUserUIDs (domain : string) (w : tree) : nat * list string * list string * tree :=
  match reading (ListUsers (Join [PConfig p; domain; "passwd"])) w with
  | (Err _, w) => (0%nat, [], [domain +:+ ": list users"], w)
  | (Ok users, w) => migrate_users domain users w
  end.
Fixpoint with_uid (domain : string) (users : list userEntry) (w : tree) : list string * tree :=
  match users with
  | [] => ([], w)
  | u :: users =>
      let '(r, w) := reading (UserUID (PConfig p) domain (username u)) w in
      let '(safe, w) := with_uid domain users w in
      (match r with Ok _ => username u :: safe | Err _ => safe end, w)
  end.
Definition stripMigratedPasswdUIDs (domain : string) (w : tree) : Z * list string * tree :=
  let passwdPath := Join [PConfig p; domain; "passwd"] in
  match reading (ListUsers passwdPath) w with
  | (Err _, w) => (0, [domain +:+ ": list users for strip"], w)
  | (Ok users, w) =>
      match with_uid domain users w with
      | ([], w) => (0, [], w)
      | (safe, w) =>
          match on_disk id (lockDomain p domain) w with
          | (Err _, w) => (0, [domain +:+ ": lock for passwd strip"], w)
          | (Ok _, w) =>
              match on_disk (EAuth "strip") (StripUIDs passwdPath safe) w with
              | (Err _, w) => (0, [domain +:+ ": strip passwd uids"], w)
              | (Ok n, w) => (n, [], w)
              end
          end
      end
  end.
Definition migrateDomain (name : string) (w : tree) : bool * nat * list string * list string * tree :=
  let '(dm, details, errs, w) := migrate_gid name w in
  let '(um, udetails, uerrs, w) := migrateUserUIDs name w in
  let '(stripped, serrs, w) := stripMigratedPasswdUIDs name w in
  (dm, um,
   details ++ udetails ++
     (if 0 <? stripped then [name +:+ " narrowed " +:+ fmt_d stripped +:+ " legacy passwd uid field(s)"] else []),
   errs ++ uerrs ++ serrs, w).

(** *** Shadowed mailboxes ([shadow.go]) *)
Definition open_file (q : string) (w : tree) : fileres * tree :=
  match reading (read_file () q) w with
  | (Ok (Some text), w) => (Contents text, w)
  | (Ok None, w) => (NotExist, w)
  | (Err _, w) => (OpenError, w)
  end.
Definition catchallShadow (adminFwd domainFwd : option ForwardMap) (userForwardsDir localpart : string) (w : tree)
    : string * list string * tree :=
  if HasExact adminFwd localpart || HasExact domainFwd localpart then ("", [], w)
  else
    let '(f, w) := open_file (Join [userForwardsDir; localpart]) w in
    match LoadTargets (λ _, f) "" with
    | Ok (_ :: _) => ("", [], w)
    | _ =>
        match Catchall adminFwd with
        | Some targets => ("admin config.toml [forwards]", targets, w)
        | None =>
            match Catchall domainFwd with
            | Some targets => ("domain forwards file", targets, w)
            | None => ("", [], w)
            end
        end
    end.
Fixpoint shadowed (adminFwd domainFwd : option ForwardMap) (userForwardsDir domainName : string)
    (users : list userEntry) (w : tree) : list string * tree :=
  match users with
  | [] => ([], w)
  | u :: users =>
      let '(tier, targets, w) := catchallShadow adminFwd domainFwd userForwardsDir (username u) w in
      let '(ws, w) := shadowed adminFwd domainFwd userForwardsDir domainName users w in
      (if decide (tier = "") then ws
       else ("user " +:+ username u +:+ "@" +:+ domainName +:+ " has a mailbox but a " +:+ tier +:+
             " catchall (*) forwards their mail away (-> " +:+ sjoin ", " targets +:+ ")") :: ws, w)
  end.
Definition shadowWarnings (domainName : string) (w : tree) : list string * tree :=
  let domainDir := Join [PConfig p; domainName] in
  match reading (ListUsers (Join [domainDir; "passwd"])) w with
  | (Ok (u :: users), w) =>
      let '(cfg, w) := reading (LoadDomainConfig (Join [domainDir; "config.toml"])) w in
      let adminFwd := FromMap (match cfg with Ok c => rules (cfg_Forwards c) | Err _ => [] end) in
      let '(f, w) := open_file (Join [domainDir; "forwards"]) w in
      let domainFwd := match Forwards.Load (λ _, f) "" with Ok m => m | Err _ => FromMap [] end in
      shadowed (Some adminFwd) (Some domainFwd) (Join [domainDir; "user_forwards"]) domainName (u :: users) w
  | (_, w) => ([], w)
  end.

(** *** Repair and check *)
Definition domain_there (domain : string) : pio unit :=
  ((if ValidDomainName domain then pret () else pfail EInvalidDomainName) ;;!
   (λ w, let '(r, w) := reading (DomainExists p domain) w in
         match r with Ok true => (Ok (), w) | _ => (Err EDomainNotFound, w) end))%pio.
(** [Err] carries the error; what was allocated and touched is in the report. *)
Definition FixDomain (domain : string) (w : tree) : PermReport * option adminErr * tree :=
  match domain_there domain w with
  | (Err e, w) => (mkReport "" [] [] [], Some e, w)
  | (Ok _, w) =>
      let '(_, _, details, errs, w) := migrateDomain domain w in
      match errs with
      | _ :: _ => (mkReport domain details [] [], Some (EIO "allocate ids"), w)
      | [] =>
          match on_disk id (lockDomain p domain) w with
          | (Err e, w) => (mkReport "" [] [] [], Some e, w)
          | (Ok _, w) =>
              match domainPermPlan domain w with
              | (Err _, w) => (mkReport "" [] [] [], Some (EIO "plan"), w)
              | (Ok plan, w) =>
                  let '(cplan, w) := configPermPlan domain w in
                  let '(rs, w) := applyPlan true (plan ++ cplan) w in
                  let '(warnings, w) := shadowWarnings domain w in
                  (mkReport domain details warnings rs,
                   match firstError rs with Some m => Some (EIO m) | None => None end, w)
              end
          end
      end
  end.
Definition CheckDomain (domain : string) : pio PermReport :=
  pbind (domain_there domain) (λ _ w,
  let finish (first : list PermResult) (plan : list permEntry) w :=
    let '(cplan, w) := configPermPlan domain w in
    let '(rs, w) := checkPlan (plan ++ cplan) w in
    (Ok (mkReport domain [] [] (first ++ rs)), w) in
  match domainPermPlan domain w with
  | (Ok plan, w) => finish [] plan w
  | (Err (PlanGid ErrNoGID), w) =>
      finish [mkResult (dataDir domain) 0 0 0 true false "domain has no allocated gid" (-1) (-1) 0] [] w
  | (Err _, w) => (Err (EIO "plan"), w)
  end).

(** *** Domains ([domains.go]) *)
Record DomainInfo := mkInfo { di_Name : string; di_AuthType : string; di_StoreType : string; di_UserCount : nat; di_GID : Z }.
(** [auth.type] and [msgstore.type] in a configuration, as the library finds them. *)
Context (domain_types : string → option (string * string)).
Definition GetDomain (name : string) : pio DomainInfo :=
  pbind (domain_there name) (λ _ w,
  let '(data, w) := reading (read_file () (Join [PConfig p; name; "config.toml"])) w in
  let types := match data with
    | Ok None => Ok ("passwd", "maildir")
    | Ok (Some text) =>
        match domain_types text with
        | None => Err (EIO "parse config")
        | Some (a, s) =>
            Ok (if decide (a = "") then "passwd" else a, if decide (s = "") then "maildir" else s)
        end
    | Err _ => Err (EIO "read config")
    end in
  match types with
  | Err e => (Err e, w)
  | Ok (auth, store) =>
      let '(gid, w) := reading (DomainGID (PConfig p) name) w in
      let '(users, w) := reading (ListUsers (Join [PConfig p; name; "passwd"])) w in
      (Ok (mkInfo name auth store (match users with Ok us => length us | Err _ => 0%nat end)
             (match gid with Ok g => g | Err _ => 0 end)), w)
  end).
(** The directories of the configuration that are not hidden. *)
Definition config_domains : pio (list string) := λ w,
  match sys_tree w with
  | (Fault _, w) => (Err (EIO "read domains directory"), w)
  | (Done, w) => (Ok (filter (λ n, HasPrefix n "." = false) (dir_dirs (PConfig p) (tfiles w))), w)
  end.
Fixpoint get_domains (names : list string) (w : tree) : list DomainInfo * tree :=
  match names with
  | [] => ([], w)
  | n :: names =>
      let '(r, w) := GetDomain n w in
      let '(ds, w) := get_domains names w in
      (match r with Ok i => i :: ds | Err _ => ds end, w)
  end.
Definition ListDomains : pio (list DomainInfo) :=
  pbind config_domains (λ names w, let '(ds, w) := get_domains names w in (Ok ds, w)).
Record MigrateResult := mkMigrated { mg_domains : nat; mg_users : nat; mg_details : list string; mg_errors : list string }.
Fixpoint migrate_all (names : list string) (w : tree) : MigrateResult * tree :=
  match names with
  | [] => (mkMigrated 0 0 [] [], w)
  | n :: names =>
      let '(dm, um, details, errs, w) := migrateDomain n w in
      let '(r, w) := migrate_all names w in
      (mkMigrated ((if dm : bool then 1 else 0) + mg_domains r) (um + mg_users r) (details ++ mg_details r) (errs ++ mg_errors r), w)
  end.
Definition MigrateUIDs : pio MigrateResult :=
  pbind config_domains (λ names w, let '(r, w) := migrate_all names w in (Ok r, w)).

Definition defaultDomainConfig : string :=
  unlines LF ["[auth]"; "type = " +:+ Quote "passwd"; "credential_backend = " +:+ Quote "passwd";
    "key_backend = " +:+ Quote "keys"; ""; "[msgstore]"; "type = " +:+ Quote "maildir"; "base_path = " +:+ Quote "users"].
Definition mkdirs (what q : string) : pio unit := λ w,
  match os_MkdirAll q w with (true, w) => (Ok (), w) | (false, w) => (Err (EIO what), w) end.
Definition CreateDomain (name : string) : pio Z := (
  (if ValidDomainName name then pret () else pfail EInvalidDomainName) ;;!
  do! there := (λ w, let '(r, w) := reading (DomainExists p name) w in (Ok (match r with Ok b => b | Err _ => false end), w)) in
  if there : bool then pfail EDomainExists else
  let domainPath := Join [PConfig p; name] in
  mkdirs "create domain directory" (Join [domainPath; "keys"]) ;;!
  on_disk id (write_file (EIO "write config") (Join [domainPath; "config.toml"]) defaultDomainConfig) ;;!
  on_disk id (write_file (EIO "write passwd") (Join [domainPath; "passwd"]) ("# Users for " +:+ name +:+ String LF "")) ;;!
  do! gid := allocated (AllocateDomainGID (idMgr p) name) in
  mkdirs "create users directory" (Join [dataDir name; "users"]) ;;!
  provisionDomainDataDirs name ;;!
  provisionDomainConfigTree name ;;!
  pret gid)%pio.

(** [os.RemoveAll]; a failure leaves part of the tree. *)
Definition beneath (q : string) (k : string) : bool := bool_decide (k = q) || HasPrefix k (q +:+ "/").
Definition os_RemoveAll (what q : string) : io adminErr unit := λ w,
  match sys w with
  | (Done, w) => (Ok (), set_files (filter (λ kv, beneath q kv.1 = false)) w)
  | (Fault n, w) =>
      let some := take n (filter (λ k, beneath q k = true) (map_to_list (files w)).*1) in
      (Err (EIO what), set_files (filter (λ kv, kv.1 ∉ some)) w)
  end.
Definition DeleteDomain (name : string) (force : bool) : pio unit := (
  domain_there name ;;!
  (if force then pret () else
   do! users := read_as (EAuth "count users") (ListUsers (Join [PConfig p; name; "passwd"])) in
   match users with [] => pret () | _ => pfail (EDomainHasUsers (length users)) end) ;;!
  on_disk id (os_RemoveAll "remove domain" (Join [PConfig p; name])) ;;!
  on_disk (EId "remove domain gid") (RemoveDomainGID (idMgr p) name) ;;!
  if force && negb (bool_decide (PData p = "")) && negb (bool_decide (PData p = PConfig p))
  then on_disk id (os_RemoveAll "remove domain data" (Join [PData p; name])) else pret ())%pio.
End Provision.
