(* ===== verification/ProvisionFacts.v ===== *)
(** * Repairing a domain leaves nothing to repair

    Properties of [Provision]: what a plan contains, what applying it makes of
    the tree, and that the check afterwards finds no drift where the
    configuration and the data are separate trees; that deleting a domain
    touches nothing else. *)
From S2P Require Import Prelude GoStrings FilePath UidList Forwards Disk Identity Passwd Keyring Domain Admin Provision.
From Stdlib Require Import ZArith Lia Ascii.
Open Scope string_scope.
Open Scope list_scope.
Open Scope Z_scope.

(** ** Absolute paths as lists of elements *)
Definition path_of (es : list string) : string := String slash (sjoin "/" es).
Lemma plain_no_slash es : Forall plain_elem es → Forall (no_byte slash) es.
Proof. intros H. eapply Forall_impl; [exact H|]. by intros e []. Qed.
Lemma Split_path es : Forall plain_elem es → es ≠ [] → Split slash (path_of es) = "" :: es.
Proof.
  intros Hp Hne. unfold path_of. cbn [Split]. rewrite Ascii.eqb_refl.
  by rewrite Split_sjoin_slash by auto using plain_no_slash.
Qed.
Lemma path_of_inj es fs :
  Forall plain_elem es → Forall plain_elem fs → es ≠ [] → fs ≠ [] → path_of es = path_of fs → es = fs.
Proof. intros ? ? ? ? E%(f_equal (Split slash)). rewrite !Split_path in E by done. by simplify_eq. Qed.
Lemma clean_elems_plain rooted st es :
  Forall plain_elem es → clean_elems rooted st es = reverse st ++ es.
Proof.
  intros Hp. revert st. induction Hp as [|e es (_ & H1 & H2 & H3) _ IH]; intros st; cbn [clean_elems].
  { by rewrite app_nil_r. }
  rewrite decide_False by naive_solver. rewrite decide_False by done. rewrite IH, reverse_cons.
  by rewrite <- app_assoc.
Qed.
Lemma Clean_path es : Forall plain_elem es → es ≠ [] → Clean (path_of es) = path_of es.
Proof.
  intros Hp Hne. unfold Clean. rewrite Split_path by done.
  replace (HasPrefix (path_of es) "/") with true by (by unfold path_of; rewrite HasPrefix_slash).
  cbn [clean_elems]. rewrite (decide_True (P := "" = "" ∨ "" = ".")) by (by left).
  rewrite clean_elems_plain by done. by rewrite decide_False.
Qed.
Lemma sjoin_app es fs : es ≠ [] → fs ≠ [] → sjoin "/" (es ++ fs) = sjoin "/" es +:+ "/" +:+ sjoin "/" fs.
Proof.
  intros Hes Hfs. induction es as [|e es IH]; [done|]. destruct es as [|e' es].
  - destruct fs as [|f fs]; [done|]. cbn [app]. by rewrite sjoin_cons.
  - cbn [app] in *. rewrite !sjoin_cons, IH by done. by rewrite !sapp_assoc.
Qed.
Lemma Join_path es fs :
  Forall plain_elem es → Forall plain_elem fs → es ≠ [] → Join (path_of es :: fs) = path_of (es ++ fs).
Proof.
  intros He Hf Hne. cbn [Join]. rewrite decide_False by done.
  assert (sjoin "/" (path_of es :: fs) = path_of (es ++ fs)) as ->.
  { destruct fs as [|f fs]; [by rewrite app_nil_r|]. rewrite sjoin_cons. unfold path_of.
    by rewrite sjoin_app. }
  apply Clean_path; [by apply Forall_app|]. by destruct es.
Qed.
(** The directories on the way to a path. *)
Lemma dir_chain_path es q :
  Forall plain_elem es → es ≠ [] →
  q ∈ dir_chain (path_of es) ↔ ∃ i, (i < length es)%nat ∧ q = path_of (take (S i) es).
Proof.
  intros Hp Hne. unfold dir_chain. rewrite Split_path by done.
  rewrite list_elem_of_filter, list_elem_of_fmap. split.
  - intros (Hq & i & -> & Hi%elem_of_seq). cbn [length] in Hi. destruct i as [|[|i]]; [lia|done|].
    exists i. split; [lia|]. change (take (S (S i)) ("" :: es)) with ("" :: take (S i) es).
    destruct es as [|e es]; [done|]. cbn [take]. by rewrite sjoin_cons.
  - intros (i & Hi & ->). split; [done|]. exists (S (S i)). split; [|apply elem_of_seq; cbn [length]; lia].
    change (take (S (S i)) ("" :: es)) with ("" :: take (S i) es).
    destruct es as [|e es]; [done|]. cbn [take]. by rewrite sjoin_cons.
Qed.
Lemma path_in_chain es : Forall plain_elem es → es ≠ [] → path_of es ∈ dir_chain (path_of es).
Proof.
  intros Hp Hne. apply dir_chain_path; [done..|]. exists (length es - 1)%nat.
  destruct es as [|e es]; [done|]. cbn [length]. split; [lia|]. by rewrite take_ge by (cbn; lia).
Qed.
Lemma path_of_snoc es n : es ≠ [] → (path_of es +:+ "/") +:+ n = path_of (es ++ [n]).
Proof. intros Hes. unfold path_of. rewrite sjoin_snoc by done. cbn. by rewrite <- sapp_assoc. Qed.
Lemma path_no_slash_end es q : Forall plain_elem es → es ≠ [] → path_of es ≠ q +:+ "/".
Proof.
  intros Hp Hne E%(f_equal (Split slash)). rewrite Split_path in E by done.
  change (q +:+ "/") with (q +:+ String slash "") in E. rewrite Split_app_r in E by done.
  destruct (exists_last Hne) as (es' & e & ->). rewrite app_comm_cons in E.
  apply app_inj_tail in E as [_ ->]. apply Forall_app in Hp as [_ Hp]. apply Forall_cons in Hp as [(_ & ? & _) _]. done.
Qed.

(** ** Trees that only gained directories *)
(** [D]: where they may be; nothing stood there before. *)
Definition grown (D : string → Prop) (fs fs' : gmap string string) : Prop :=
  (∀ k c, fs !! k = Some c → fs' !! k = Some c) ∧
  (∀ k, fs !! k = None → fs' !! k = None ∨ ∃ q, k = q +:+ "/" ∧ D q ∧ fs !! q = None).
Lemma slash_inj q q' : q +:+ "/" = q' +:+ "/" → q = q'.
Proof.
  revert q'. induction q as [|c q IH]; intros [|c' q']; cbn; intros E; [done|..]; simplify_eq.
  - by destruct q'.
  - by destruct q.
  - f_equal. auto.
Qed.
Lemma grown_refl D fs : grown D fs fs.
Proof. split; auto. Qed.
Lemma grown_trans D fs fs1 fs2 : grown D fs fs1 → grown D fs1 fs2 → grown D fs fs2.
Proof.
  intros [H1 H2] [H3 H4]. split; [auto|]. intros k Hk. destruct (H2 k Hk) as [Hk1|(q & ? & ? & ?)]; [|right; eauto].
  destruct (H4 k Hk1) as [?|(q & ? & ? & Hq)]; [by left|]. right. exists q. split_and!; [done..|].
  destruct (fs !! q) as [c|] eqn:E; [|done]. by rewrite (H1 _ _ E) in Hq.
Qed.
Lemma grown_weaken (D D' : string → Prop) fs fs' : (∀ q, D q → D' q) → grown D fs fs' → grown D' fs fs'.
Proof. intros HD [H1 H2]. split; [done|]. intros k Hk. destruct (H2 k Hk) as [?|(q & ? & ? & ?)]; [by left|right; eauto 10]. Qed.
Lemma grown_dir D fs fs' q : grown D fs fs' → is_dir fs q = true → is_dir fs' q = true.
Proof. intros [H1 _]. unfold is_dir. rewrite !bool_decide_eq_true. intros [c ?]. eauto. Qed.
Lemma grown_not_dir D fs fs' q : grown D fs fs' → ¬ D q → is_dir fs' q = is_dir fs q.
Proof.
  intros [H1 H2] HD. unfold is_dir. destruct (fs !! (q +:+ "/")) as [c|] eqn:E; [by rewrite (H1 _ _ E)|].
  destruct (H2 _ E) as [->|(q' & Hq & ? & _)]; [done|]. by apply slash_inj in Hq as <-.
Qed.
Definition there (fs : gmap string string) (q : string) : Prop := is_dir fs q = true ∨ is_regular fs q = true.
Lemma grown_inode D fs fs' q : grown D fs fs' → there fs q → inode fs q = inode fs' q.
Proof.
  intros HG Ht. unfold inode. destruct (is_dir fs q) eqn:Ed.
  - rewrite (grown_dir _ _ _ _ HG Ed). unfold is_dir in Ed. apply bool_decide_eq_true in Ed as [c Ec].
    destruct HG as [H1 _]. by rewrite Ec, (H1 _ _ Ec).
  - destruct Ht as [|Hr]; [congruence|]. unfold is_regular in Hr. rewrite Ed in Hr.
    apply bool_decide_eq_true in Hr as [c Ec]. destruct HG as [H1 H2].
    assert (is_dir fs' q = false) as ->; [|by rewrite Ec, (H1 _ _ Ec)].
    unfold is_dir in *. apply bool_decide_eq_false in Ed. apply bool_decide_eq_false.
    destruct (H2 (q +:+ "/")) as [E|(q' & Hq & _ & Hn)]; [by apply eq_None_not_Some|by rewrite E; intros []|].
    apply slash_inj in Hq as <-. congruence.
Qed.
Lemma grown_there D fs fs' q : grown D fs fs' → there fs q → there fs' q.
Proof.
  intros HG Ht. pose proof (grown_inode _ _ _ _ HG Ht) as E. unfold there, inode, is_regular in *.
  destruct (is_dir fs q), (is_dir fs' q); simplify_eq; [by left|]. right. cbn in *. destruct Ht as [|Ht]; [done|].
  by match goal with H : fs !! q = _ |- _ => rewrite <- H end.
Qed.
Lemma grown_regular D fs fs' q :
  grown D fs fs' → (∀ q', q ≠ q' +:+ "/") → is_regular fs' q = is_regular fs q.
Proof.
  intros HG Hq. destruct (is_regular fs q) eqn:Er.
  - pose proof (grown_inode _ _ _ q HG (or_intror Er)) as E. unfold inode, is_regular in *.
    destruct (is_dir fs q); [done|]. destruct (is_dir fs' q); simplify_eq.
    by match goal with H : fs !! q = _ |- _ => rewrite <- H end.
  - destruct (is_dir fs q) eqn:Ed; [unfold is_regular; by rewrite (grown_dir _ _ _ _ HG Ed)|].
    unfold is_regular in *. rewrite Ed in Er. apply bool_decide_eq_false in Er.
    apply eq_None_not_Some in Er. destruct HG as [_ H2].
    destruct (H2 q Er) as [->|(q' & -> & _)]; [by rewrite andb_comm|]. by destruct (Hq q').
Qed.
Lemma grown_key D fs fs' k : grown D fs fs' → (∀ q, k ≠ q +:+ "/") → fs' !! k = fs !! k.
Proof.
  intros [H1 H2] Hk. destruct (fs !! k) as [c|] eqn:E; [auto|]. destruct (H2 k E) as [?|(q & -> & _)]; [done|].
  by destruct (Hk q).
Qed.
Lemma make_dirs_grown qs fs :
  Forall (λ q, is_regular fs q = false) qs → grown (.∈ qs) fs (make_dirs qs fs) ∧
  Forall (λ q, is_dir (make_dirs qs fs) q = true) qs.
Proof.
  induction 1 as [|q qs Hq Hqs [IH1 IH2]]; cbn [make_dirs foldr]; [split; [apply grown_refl|constructor]|].
  fold (make_dirs qs fs). destruct (is_dir (make_dirs qs fs) q) eqn:Ed.
  { split; [|by constructor]. eapply grown_weaken; [|exact IH1]. intros. by right. }
  assert (grown (.∈ q :: qs) fs (<[q +:+ "/":="" ]> (make_dirs qs fs))) as HG.
  { destruct IH1 as [H1 H2]. split.
    - intros k c Hk. rewrite lookup_insert_ne; [auto|]. intros <-. unfold is_dir in Ed.
      apply bool_decide_eq_false in Ed. apply Ed. rewrite (H1 _ _ Hk). eauto.
    - intros k Hk. destruct (decide (k = q +:+ "/")) as [->|Hne].
      + right. exists q. split_and!; [done|by left|]. unfold is_regular, is_dir in Hq. rewrite Hk in Hq. cbn in Hq.
        by apply bool_decide_eq_false, eq_None_not_Some in Hq.
      + rewrite lookup_insert_ne by done. destruct (H2 k Hk) as [?|(q' & ? & ? & ?)]; [by left|].
        right. exists q'. split_and!; [done|by right|done]. }
  split; [done|]. constructor.
  - unfold is_dir. by rewrite lookup_insert_eq.
  - eapply Forall_impl; [exact IH2|]. intros q' Hd. cbn in Hd. unfold is_dir in *.
    apply bool_decide_eq_true in Hd. apply bool_decide_eq_true.
    destruct (decide (q' +:+ "/" = q +:+ "/")) as [->|]; [by rewrite lookup_insert_eq|by rewrite lookup_insert_ne].
Qed.

(** ** Applying a plan without faults, as root *)
Definition quiet (w : tree) : Prop := faults (t_disk w) = [].
Lemma sys_quiet d : faults d = [] → sys d = (Done, d).
Proof. unfold sys. by intros ->. Qed.
Lemma sys_tree_quiet w : quiet w → sys_tree w = (Done, w).
Proof. intros Hq. unfold sys_tree. rewrite sys_quiet by done. by destruct w. Qed.
Definition planned (e : permEntry) : Prop := pe_Mode e ∈ [sharedDirMode; userDirMode; configFileMode].
(** What the model asks of a path. *)
Definition complies (w : tree) (e : permEntry) : Prop :=
  there (tfiles w) (pe_Path e) ∧ at_uid (t_attrs w (pe_Path e)) = pe_UID e ∧
  at_gid (t_attrs w (pe_Path e)) = pe_GID e ∧
  Z.land (info_Mode (is_dir (tfiles w) (pe_Path e)) (t_attrs w (pe_Path e))) permModeBits
  = Z.land (pe_Mode e) permModeBits.
Lemma complies_grown D w w' e :
  grown D (tfiles w) (tfiles w') → t_attrs w' (pe_Path e) = t_attrs w (pe_Path e) → complies w e → complies w' e.
Proof.
  intros HG Ha (Ht & Hu & Hg & Hm). unfold complies. rewrite Ha. split_and!; [by eapply grown_there|done|done|].
  pose proof (grown_inode _ _ _ _ HG Ht) as E. unfold inode in E.
  destruct (is_dir (tfiles w) _), (is_dir (tfiles w') _); by simplify_eq.
Qed.
Lemma mode_of_dir e u g : planned e → Z.land (info_Mode true (mkAttr u g (pe_Mode e))) permModeBits = Z.land (pe_Mode e) permModeBits.
Proof. intros Hp. unfold planned in Hp. cbn [info_Mode at_mode]. repeat (apply elem_of_cons in Hp as [->|Hp]; [done|]). by apply elem_of_nil in Hp. Qed.
Lemma mode_of_file e : planned e → pe_Mode e ≠ sharedDirMode → drop_setid (pe_Mode e) = pe_Mode e.
Proof. unfold planned. intros Hp Hn. repeat (apply elem_of_cons in Hp as [E|Hp]; [rewrite ?E; done|]). by apply elem_of_nil in Hp. Qed.
Lemma dir_mode_differs e a : planned e → Some (info_Mode true a) ≠ Some (pe_Mode e).
Proof.
  intros Hp [= E]. apply (f_equal (λ m, Z.testbit m 31)) in E. cbn [info_Mode] in E.
  rewrite Z.lor_spec in E. unfold planned in Hp.
  repeat (apply elem_of_cons in Hp as [Hm|Hp]; [rewrite Hm in E; cbv -[at_mode Z.testbit] in E; by vm_compute in E|]).
  by apply elem_of_nil in Hp.
Qed.

Section Apply.
Context (fresh_attr : gmap string string → string → attr).
Notation apply_attrs := (apply_attrs true).
Notation apply_entry := (apply_entry fresh_attr true).
Notation applyPlan := (applyPlan fresh_attr true).

Lemma apply_attrs_sound e info made w r w' :
  quiet w → planned e → there (tfiles w) (pe_Path e) →
  (pe_Mode e = sharedDirMode → is_dir (tfiles w) (pe_Path e) = true) →
  (∀ m, info = Some m → m = info_Mode (is_dir (tfiles w) (pe_Path e)) (t_attrs w (pe_Path e))) →
  apply_attrs e info made w = (r, w') →
  t_disk w' = t_disk w ∧ complies w' e ∧ ∀ q, q ≠ pe_Path e → t_attrs w' q = t_attrs w q.
Proof.
  intros Hq Hp Ht Hs Hi E. unfold Provision.apply_attrs in E.
  assert (Hmode : ∀ w1 x, t_disk w1 = t_disk w → x = mkAttr (pe_UID e) (pe_GID e) (if is_dir (tfiles w) (pe_Path e) then pe_Mode e else drop_setid (pe_Mode e)) →
    t_attrs w1 (pe_Path e) = x → complies w1 e).
  { intros w1 x Hd -> Ha. unfold complies. rewrite Hd, Ha. split_and!; [done..|].
    destruct (is_dir (tfiles w) (pe_Path e)) eqn:Ed; [by apply mode_of_dir|]. cbn.
    rewrite mode_of_file; [done|done|]. intros Hm. by apply Hs in Hm. }
  destruct (bool_decide_reflect (info = Some (pe_Mode e))) as [Hinfo|Hinfo].
  - unfold os_Chown in E. rewrite sys_tree_quiet in E by done. simplify_eq. cbn. split_and!; [done| |].
    + eapply Hmode; [done| |cbn; by rewrite decide_True]. f_equal. pose proof (Hi _ eq_refl) as Hm. unfold attr_of.
      destruct (is_dir (tfiles w) (pe_Path e)) eqn:Ed; [|by rewrite Hm].
      exfalso. eapply (dir_mode_differs e); [done|]. by rewrite <- Hm.
    + intros q Hne. by rewrite decide_False.
  - unfold os_Chmod in E. rewrite sys_tree_quiet in E by done. unfold os_Chown in E.
    rewrite sys_tree_quiet in E by done. simplify_eq. cbn. split_and!; [done| |].
    + eapply Hmode; [done|done|]. cbn. rewrite decide_True by done. unfold attr_of. cbn. by rewrite decide_True.
    + intros q Hne. by rewrite !decide_False.
Qed.

(** One entry: the path complies afterwards, and nothing else that was there changes. *)
Definition keeps_but (qs : list string) (D : string → Prop) (w w' : tree) : Prop :=
  quiet w' ∧ grown D (tfiles w) (tfiles w') ∧ ∀ q, q ∉ qs → there (tfiles w) q → t_attrs w' q = t_attrs w q.
Lemma apply_entry_sound createMissing e w r w' :
  quiet w → planned e → pe_Path e ∈ dir_chain (pe_Path e) →
  (pe_Mode e = sharedDirMode → is_regular (tfiles w) (pe_Path e) = false) →
  apply_entry createMissing e w = (r, w') → pr_Err r = "" →
  keeps_but [pe_Path e] (.∈ dir_chain (pe_Path e)) w w' ∧ complies w' e.
Proof.
  intros Hq Hp Hc Hs E Herr. unfold Provision.apply_entry, os_Stat in E. rewrite sys_tree_quiet in E by done.
  destruct (is_dir (tfiles w) (pe_Path e)) eqn:Ed; [|destruct (is_regular (tfiles w) (pe_Path e)) eqn:Er].
  - apply apply_attrs_sound in E as (Hd & Hco & Ha); [|done|done|by left|done|by intros m [= <-]; rewrite Ed].
    split; [|done]. split_and!; [unfold quiet; by rewrite Hd|rewrite Hd; apply grown_refl|]. intros q Hne _. apply Ha. set_solver.
  - apply apply_attrs_sound in E as (Hd & Hco & Ha); [|done|done|by right| |by intros m [= <-]; rewrite Ed].
    + split; [|done]. split_and!; [unfold quiet; by rewrite Hd|rewrite Hd; apply grown_refl|]. intros q Hne _. apply Ha. set_solver.
    + intros Hm. specialize (Hs Hm). congruence.
  - destruct createMissing; [|by simplify_eq]. unfold os_MkdirAll in E. rewrite sys_tree_quiet in E by done.
    destruct (existsb _ _) eqn:Ex; [by simplify_eq|].
    assert (Forall (λ q, is_regular (tfiles w) q = false) (dir_chain (pe_Path e))) as Hnr.
    { apply Forall_forall. intros q Hin. destruct (is_regular (tfiles w) q) eqn:Eq; [|done].
      assert (existsb (is_regular (tfiles w)) (dir_chain (pe_Path e)) = true); [|congruence].
      apply existsb_exists. exists q. by rewrite <- list_elem_of_In. }
    destruct (make_dirs_grown _ _ Hnr) as [HG Hdirs].
    pose proof (proj1 (Forall_forall _ _) Hdirs _ Hc) as Hdir. cbn in Hdir.
    apply apply_attrs_sound in E as (Hd & Hco & Ha); [|done|done|by left|done|done].
    split; [|done]. split_and!; [unfold quiet; by rewrite Hd|by rewrite Hd|]. intros q Hne Hth.
    rewrite Ha by set_solver. cbn. unfold refresh. rewrite decide_True; [done|]. by eapply grown_inode.
Qed.

(** The whole plan: one that does not ask two things of a path is fulfilled. *)
Definition consistent (plan : list permEntry) : Prop :=
  ∀ e e', e ∈ plan → e' ∈ plan → pe_Path e = pe_Path e' → e = e'.
Lemma firstError_cons r rs : firstError (r :: rs) = None ↔ pr_Err r = "" ∧ firstError rs = None.
Proof.
  unfold firstError. destruct (decide (pr_Err r = "")) as [E|E].
  - rewrite filter_cons_False by (by intros []). tauto.
  - rewrite filter_cons_True by done. naive_solver.
Qed.
Lemma applyPlan_sound createMissing plan w rs w' :
  quiet w → consistent plan → Forall planned plan →
  Forall (λ e, pe_Path e ∈ dir_chain (pe_Path e) ∧ ∀ q, pe_Path e ≠ q +:+ "/") plan →
  Forall (λ e, pe_Mode e = sharedDirMode → is_regular (tfiles w) (pe_Path e) = false) plan →
  applyPlan createMissing plan w = (rs, w') → firstError rs = None →
  keeps_but (pe_Path <$> plan) (λ q, Exists (λ e, q ∈ dir_chain (pe_Path e)) plan) w w' ∧ Forall (complies w') plan.
Proof.
  revert w rs. induction plan as [|e plan IH]; intros w rs Hq Hcons Hp Hc Hs E Herr; cbn in E.
  { simplify_eq. split; [|constructor]. split_and!; [done|apply grown_refl|done]. }
  destruct (apply_entry createMissing e w) as [r w1] eqn:Ee.
  destruct (applyPlan createMissing plan w1) as [rs' w2] eqn:Ep. simplify_eq.
  apply firstError_cons in Herr as [Herr1 Herr2].
  apply Forall_cons in Hp as [Hp1 Hp2], Hc as [[Hc1 Hc1'] Hc2], Hs as [Hs1 Hs2].
  destruct (apply_entry_sound createMissing e w r w1 Hq Hp1 Hc1 Hs1 Ee Herr1) as [(Hq1 & HG1 & Ha1) He1].
  destruct (IH w1 rs' Hq1) as [(Hq2 & HG2 & Ha2) Hall]; [|done|done| |done|done|].
  { intros a b Ha Hb. apply Hcons; by right. }
  { apply Forall_forall. intros a Ha Hm. erewrite grown_regular; [by apply (proj1 (Forall_forall _ _) Hs2)|done|].
    by apply (proj1 (Forall_forall _ _) Hc2 a Ha). }
  assert (complies w' e) as He.
  { destruct (decide (pe_Path e ∈ pe_Path <$> plan)) as [Hin|Hin].
    - apply list_elem_of_fmap in Hin as (a & Hpa & Ha). assert (e = a) as -> by (apply Hcons; [by left|by right|done]).
      by apply (proj1 (Forall_forall _ _) Hall).
    - eapply complies_grown; [exact HG2| |done]. apply Ha2; [done|]. by destruct He1. }
  split; [|by constructor]. split_and!; [done| |].
  - eapply grown_trans; (eapply grown_weaken; [|eassumption]); intros q HD; [by apply Exists_cons; left|by apply Exists_cons; right].
  - cbn. intros q Hnin Hth. rewrite Ha2; [apply Ha1|..]; [set_solver|done|set_solver|by eapply grown_there].
Qed.

(** Whatever fails, no file goes away, and a report names the planned paths. *)
Lemma make_dirs_mono qs fs k c : fs !! k = Some c → make_dirs qs fs !! k = Some c.
Proof.
  intros Hk. induction qs as [|q qs IH]; [done|]. cbn [make_dirs foldr]. fold (make_dirs qs fs).
  destruct (is_dir (make_dirs qs fs) q) eqn:Ed; [done|]. rewrite lookup_insert_ne; [done|].
  intros <-. unfold is_dir in Ed. apply bool_decide_eq_false in Ed. rewrite IH in Ed. by destruct Ed.
Qed.
Lemma sys_tree_files w r w1 : sys_tree w = (r, w1) → tfiles w1 = tfiles w.
Proof. unfold sys_tree, sys. destruct (faults (t_disk w)); intros; by simplify_eq. Qed.
Lemma apply_attrs_files e info made w : tfiles (apply_attrs e info made w).2 = tfiles w.
Proof.
  unfold Provision.apply_attrs, os_Chmod, os_Chown.
  destruct (bool_decide _); [|destruct (sys_tree w) as [[] w1] eqn:E1; apply sys_tree_files in E1];
    match goal with |- context [sys_tree ?x] => destruct (sys_tree x) as [[] w2] eqn:E2; apply sys_tree_files in E2 end;
    cbn in *; congruence.
Qed.
Lemma apply_entry_mono createMissing e w k c :
  tfiles w !! k = Some c → tfiles (apply_entry createMissing e w).2 !! k = Some c.
Proof.
  intros Hk. unfold Provision.apply_entry, os_Stat. destruct (sys_tree w) as [r w1] eqn:E1.
  apply sys_tree_files in E1. rewrite <- E1 in Hk. destruct r; [|done].
  destruct (is_dir _ _); [by rewrite apply_attrs_files|]. destruct (is_regular _ _); [by rewrite apply_attrs_files|].
  destruct createMissing; [|done]. unfold os_MkdirAll. destruct (sys_tree w1) as [r w2] eqn:E2.
  apply sys_tree_files in E2. rewrite <- E2 in Hk. destruct r; [|done]. destruct (existsb _ _); [done|].
  rewrite apply_attrs_files. cbn. by apply make_dirs_mono.
Qed.
Lemma applyPlan_mono createMissing plan w k c :
  tfiles w !! k = Some c → tfiles (applyPlan createMissing plan w).2 !! k = Some c.
Proof.
  revert w. induction plan as [|e plan IH]; intros w Hk; [done|]. cbn.
  pose proof (apply_entry_mono createMissing e w k c Hk) as Hk1. destruct (apply_entry createMissing e w) as [r w1].
  specialize (IH w1 Hk1). by destruct (applyPlan createMissing plan w1).
Qed.
Lemma applyPlan_quiet createMissing plan w : quiet w → quiet (applyPlan createMissing plan w).2.
Proof.
  revert w. induction plan as [|e plan IH]; intros w Hw; [done|]. cbn.
  assert (Ha : ∀ info made w, quiet w → quiet (apply_attrs e info made w).2).
  { intros info made w0 Hw0. unfold Provision.apply_attrs, os_Chmod, os_Chown. 
    destruct (bool_decide _); rewrite (sys_tree_quiet w0) by done; [done|]. by rewrite sys_tree_quiet. }
  assert (quiet (apply_entry createMissing e w).2) as Hq.
  { unfold Provision.apply_entry, os_Stat. rewrite sys_tree_quiet by done.
    destruct (is_dir _ _); [by apply Ha|]. destruct (is_regular _ _); [by apply Ha|]. destruct createMissing; [|done].
    unfold os_MkdirAll. rewrite sys_tree_quiet by done. destruct (existsb _ _); [done|]. by apply Ha. }
  destruct (apply_entry createMissing e w) as [r w1]. specialize (IH w1 Hq). by destruct (applyPlan createMissing plan w1).
Qed.
Lemma apply_attrs_path e info made w : pr_Path (apply_attrs e info made w).1 = pe_Path e.
Proof.
  unfold Provision.apply_attrs. destruct (bool_decide _); [|destruct (os_Chmod _ _ _) as [[] ?]];
    match goal with |- context [os_Chown ?a ?b ?c ?x] => by destruct (os_Chown a b c x) as [[] ?] end.
Qed.
Lemma applyPlan_paths createMissing plan w : pr_Path <$> (applyPlan createMissing plan w).1 = pe_Path <$> plan.
Proof.
  revert w. induction plan as [|e plan IH]; intros w; [done|]. cbn.
  assert (pr_Path (apply_entry createMissing e w).1 = pe_Path e) as He.
  { unfold Provision.apply_entry. destruct (os_Stat _ _) as [[| |dir a] w1]; [done| |apply apply_attrs_path].
    destruct createMissing; [|done]. destruct (os_MkdirAll _ _ _) as [[] w2]; [apply apply_attrs_path|done]. }
  destruct (apply_entry createMissing e w) as [r w1]. specialize (IH w1).
  destruct (applyPlan createMissing plan w1) as [rs w2]. cbn in *. congruence.
Qed.
End Apply.

Lemma Contains_byte c s : Contains s (String c "") = false → no_byte c s.
Proof.
  induction s as [|d s IH]; [done|]. cbn [Contains]. intros [Hp Hr]%orb_false_iff.
  apply no_byte_cons. split; [|auto]. intros ->. unfold HasPrefix in Hp. cbn in Hp.
  destruct (ascii_dec c c); [by destruct s|done].
Qed.
Lemma valid_domain_plain name : ValidDomainName name = true → plain_elem name.
Proof.
  unfold ValidDomainName. destruct (_ || _) eqn:E1; [done|]. apply orb_false_iff in E1 as [E1 _].
  apply bool_decide_eq_false in E1. destruct (Contains name "..") eqn:E2; [done|].
  destruct (Contains name "/") eqn:E3; [done|]. intros Hre. apply Contains_byte in E3.
  destruct (_ || _) eqn:E4 in Hre; [done|].
  split_and!; [done|done|intros ->; by vm_compute in Hre|intros ->; by vm_compute in E2].
Qed.

(** ** Plans of a tree without faults *)
Lemma reading_pure {A E} (m : io E A) r w : (∀ fs, m (mkFolder fs []) = (r fs, mkFolder fs [])) → quiet w → reading m w = (r (tfiles w), w).
Proof. intros Hm Hq. unfold reading. destruct w as [[fs f] a]. unfold quiet in Hq. cbn in *. subst. by rewrite Hm. Qed.
Lemma checkPlan_clean plan w :
  quiet w → Forall (complies w) plan →
  ∃ rs, checkPlan true plan w = (rs, w) ∧ Forall (λ r, pr_Changed r = false ∧ pr_Err r = "") rs ∧
    pr_Path <$> rs = pe_Path <$> plan.
Proof.
  intros Hq Hall. induction Hall as [|e plan (Ht & Hu & Hg & Hm) _ (rs & IH & Hrs & Hp)]; [by exists []|].
  cbn [checkPlan]. unfold check_entry, os_Stat. rewrite sys_tree_quiet by done. unfold attr_of.
  destruct (is_dir (tfiles w) (pe_Path e)) eqn:Ed.
  - rewrite IH, Hm, Hu, Hg, !Z.eqb_refl. eexists. split; [done|]. cbn. split; [by constructor|by rewrite Hp].
  - destruct Ht as [|Ht]; [congruence|]. rewrite Ht, IH, Hm, Hu, Hg, !Z.eqb_refl.
    eexists. split; [done|]. cbn. split; [by constructor|by rewrite Hp].
Qed.

Section Plans.
Context `{UnicodeQuote, Toml} (p : Paths) (domain : string).
Implicit Types fs : gmap string string.
Definition id_at fs (path key : string) (none : idErr) : result Z idErr :=
  match fs !! path with
  | None => Err none
  | Some s => match Unmarshal s with
              | None => Err ErrParseMap
              | Some m => match m !! key with None => Err none | Some id => Ok id end
              end
  end.
Lemma reading_gid w : quiet w →
  reading (DomainGID (PConfig p) domain) w = (id_at (tfiles w) (gidMapPath (PConfig p)) domain ErrNoGID, w).
Proof.
  apply (reading_pure _ (λ fs, id_at fs _ _ _)). intros fs. unfold DomainGID, loadMap, bind, read_file, id_at. cbn.
  destruct (fs !! _); [|done]. destruct (Unmarshal _); [|done]. cbn. by destruct (_ !! domain).
Qed.
Lemma reading_uid name w : quiet w →
  reading (UserUID (PConfig p) domain name) w = (id_at (tfiles w) (uidMapPath (PConfig p) domain) name ErrNoUID, w).
Proof.
  apply (reading_pure _ (λ fs, id_at fs _ _ _)). intros fs. unfold UserUID, loadMap, bind, read_file, id_at. cbn.
  destruct (fs !! _); [|done]. destruct (Unmarshal _); [|done]. cbn. by destruct (_ !! name).
Qed.
Definition users_at fs (path : string) : result (list userEntry) autherr :=
  match fs !! path with None => Ok [] | Some c => scan_entries c end.
Lemma reading_users path w : quiet w → reading (ListUsers path) w = (users_at (tfiles w) path, w).
Proof.
  apply (reading_pure _ (λ fs, users_at fs path)). intros fs. unfold ListUsers, parsePasswd, read_file, users_at. cbn.
  by destruct (fs !! path).
Qed.

Definition user_entry (gid uid : Z) (u : userEntry) : permEntry :=
  mkEntry' (Join [usersDir p domain; username u]) uid gid userDirMode.
Fixpoint user_plan fs (gid : Z) (users : list userEntry) : result (list permEntry) idErr :=
  match users with
  | [] => Ok []
  | u :: users =>
      match id_at fs (uidMapPath (PConfig p) domain) (username u) ErrNoUID with
      | Err ErrNoUID => user_plan fs gid users
      | Err e => Err e
      | Ok uid => match user_plan fs gid users with Err e => Err e | Ok es => Ok (user_entry gid uid u :: es) end
      end
  end.
Definition domain_plan fs : result (list permEntry) planErr :=
  match id_at fs (gidMapPath (PConfig p)) domain ErrNoGID with
  | Err e => Err (PlanGid e)
  | Ok gid =>
      match users_at fs (Join [PConfig p; domain; "passwd"]) with
      | Err _ => Err PlanUsers
      | Ok users =>
          match user_plan fs gid users with
          | Err e => Err (PlanUid e)
          | Ok es => Ok (shared_entries p domain gid ++ es)
          end
      end
  end.
Lemma domainPermPlan_quiet w : quiet w → domainPermPlan p domain w = (domain_plan (tfiles w), w).
Proof.
  intros Hq. unfold domainPermPlan, domain_plan. rewrite reading_gid by done.
  destruct (id_at _ _ _ _) as [gid|]; [|done]. rewrite reading_users by done.
  destruct (users_at _ _) as [users|]; [|done].
  assert (user_entries p domain gid users w = (user_plan (tfiles w) gid users, w)) as ->; [|by destruct (user_plan _ _ _)].
  induction users as [|u users IH]; [done|]. cbn. rewrite reading_uid by done.
  destruct (id_at _ _ _ _) as [uid|[]]; try done. rewrite IH. by destruct (user_plan _ _ _).
Qed.
(** The three files a plan depends on. *)
Lemma domain_plan_same fs fs' :
  fs' !! gidMapPath (PConfig p) = fs !! gidMapPath (PConfig p) →
  fs' !! uidMapPath (PConfig p) domain = fs !! uidMapPath (PConfig p) domain →
  fs' !! Join [PConfig p; domain; "passwd"] = fs !! Join [PConfig p; domain; "passwd"] →
  domain_plan fs' = domain_plan fs.
Proof.
  intros Hg Hu Hp. unfold domain_plan.
  replace (id_at fs' (gidMapPath (PConfig p)) domain ErrNoGID) with (id_at fs (gidMapPath (PConfig p)) domain ErrNoGID)
    by (unfold id_at; by rewrite Hg).
  replace (users_at fs' (Join [PConfig p; domain; "passwd"])) with (users_at fs (Join [PConfig p; domain; "passwd"]))
    by (unfold users_at; by rewrite Hp).
  destruct (id_at fs (gidMapPath _) _ _) as [gid|]; [|done]. destruct (users_at _ _) as [users|]; [|done].
  assert (user_plan fs' gid users = user_plan fs gid users) as ->; [|done].
  induction users as [|u users IH]; [done|]. cbn [user_plan]. unfold id_at. rewrite Hu. by rewrite IH.
Qed.
Lemma user_plan_elem fs gid users es e :
  user_plan fs gid users = Ok es → e ∈ es →
  ∃ u uid, u ∈ users ∧ id_at fs (uidMapPath (PConfig p) domain) (username u) ErrNoUID = Ok uid ∧ e = user_entry gid uid u.
Proof.
  revert es. induction users as [|u users IH]; intros es E Hin; cbn in E; [simplify_eq; by apply elem_of_nil in Hin|].
  destruct (id_at _ _ (username u) _) as [uid|[]] eqn:Eu; try done.
  - destruct (user_plan _ _ users) as [es'|] eqn:E'; [|done]. simplify_eq. apply elem_of_cons in Hin as [->|Hin].
    + exists u, uid. split_and!; [by left|done|done].
    + destruct (IH _ eq_refl Hin) as (u' & uid' & ? & ? & ?). exists u', uid'. split_and!; [by right|done|done].
  - destruct (IH _ E Hin) as (u' & uid' & ? & ? & ?). exists u', uid'. split_and!; [by right|done|done].
Qed.

Definition config_plan fs : list permEntry :=
  [config_entry sharedDirMode (PConfig p); config_entry sharedDirMode (Join [PConfig p; domain])] ++
  (config_entry configFileMode <$> filter (λ f, is_regular fs f = true) (config_files p domain)) ++
  (filter (λ d, is_dir fs d = true) (config_dirs p domain) ≫= λ d,
     config_entry sharedDirMode d :: ((λ n, config_entry configFileMode (Join [d; n])) <$> dir_files d fs)).
Lemma configPermPlan_quiet w : quiet w → configPermPlan p domain w = (config_plan (tfiles w), w).
Proof.
  intros Hq. unfold configPermPlan, config_plan.
  assert (∀ l, plan_files l w = (config_entry configFileMode <$> filter (λ f, is_regular (tfiles w) f = true) l, w)) as ->.
  { induction l as [|f l IH]; [done|]. cbn [plan_files]. unfold os_Stat. rewrite sys_tree_quiet, IH by done.
    unfold is_regular at 2. destruct (is_dir (tfiles w) f) eqn:Ed.
    - rewrite filter_cons_False; [done|]. unfold is_regular. by rewrite Ed.
    - destruct (is_regular (tfiles w) f) eqn:Er; [by rewrite filter_cons_True|rewrite filter_cons_False; [done|by rewrite Er]]. }
  assert (∀ l, plan_dirs l w = (filter (λ d, is_dir (tfiles w) d = true) l ≫= λ d,
     config_entry sharedDirMode d :: ((λ n, config_entry configFileMode (Join [d; n])) <$> dir_files d (tfiles w)), w)) as ->; [|done].
  induction l as [|d l IH]; [done|]. cbn [plan_dirs]. unfold os_Stat. rewrite sys_tree_quiet by done.
  destruct (is_dir (tfiles w) d) eqn:Ed.
  - rewrite sys_tree_quiet, IH by done. by rewrite filter_cons_True.
  - rewrite filter_cons_False by (by rewrite Ed). by destruct (is_regular _ _).
Qed.
End Plans.

(** ** Listings *)
Lemma HasPrefix_self pre s : HasPrefix (pre +:+ s) pre = true.
Proof.
  unfold HasPrefix. induction pre as [|c pre IH]; [by destruct s|]. cbn. by destruct (ascii_dec c c).
Qed.
Lemma HasPrefix_Some s pre : HasPrefix s pre = true → s = pre +:+ sdrop (String.length pre) s.
Proof.
  unfold HasPrefix. revert s. induction pre as [|c pre IH]; intros s Hp; [by destruct s|].
  destruct s as [|d s]; [done|]. cbn [String.prefix] in Hp. destruct (ascii_dec c d) as [->|]; [|done].
  cbn. f_equal. by apply IH.
Qed.
Lemma strip_prefix_Some pre s n : strip_prefix pre s = Some n ↔ s = pre +:+ n.
Proof.
  unfold strip_prefix. split.
  - destruct (HasPrefix s pre) eqn:E; [|done]. intros [= <-]. by apply HasPrefix_Some.
  - intros ->. by rewrite HasPrefix_self, sdrop_app.
Qed.
Lemma direct_names_elem d fs n : n ∈ direct_names d fs ↔ is_Some (fs !! ((d +:+ "/") +:+ n)).
Proof.
  unfold direct_names. rewrite list_elem_of_omap. split.
  - intros (k & Hk & ->%strip_prefix_Some). apply list_elem_of_fmap in Hk as ([k' c] & -> & Hk).
    apply elem_of_map_to_list in Hk. eauto.
  - intros [c Hc]. exists ((d +:+ "/") +:+ n). rewrite strip_prefix_Some. split; [|done].
    apply list_elem_of_fmap. exists ((d +:+ "/") +:+ n, c). by rewrite elem_of_map_to_list.
Qed.
Lemma dir_files_elem d fs n : n ∈ dir_files d fs ↔ plain_elem n ∧ is_regular fs ((d +:+ "/") +:+ n) = true.
Proof.
  unfold dir_files. rewrite merge_sort_Permutation, list_elem_of_filter, direct_names_elem.
  rewrite (sapp_assoc d "/" n). unfold is_regular, plain_elem, no_byte. rewrite andb_true_iff, negb_true_iff, bool_decide_eq_true. tauto.
Qed.

(** ** Two separate trees *)
Lemma plain_users : plain_elem "users".
Proof. by apply plain_elem_intro. Qed.
Ltac plains := repeat first [assumption | apply plain_users | apply List.Forall_nil | apply Forall_cons; split | apply Forall_app; split].
(** Configuration and data are absolute paths, neither inside the other. *)
Definition separate (p : Paths) : Prop :=
  ∃ cs ds, Forall plain_elem cs ∧ Forall plain_elem ds ∧ cs ≠ [] ∧ ds ≠ [] ∧
    PConfig p = path_of cs ∧ PData p = path_of ds ∧ ¬ cs `prefix_of` ds ∧ ¬ ds `prefix_of` cs.
(** No file stands where the model wants a shared directory. *)
Definition places_free (p : Paths) (domain : string) (fs : gmap string string) : Prop :=
  ∀ d, d ∈ [PConfig p; Join [PConfig p; domain]; dataDir p domain; usersDir p domain] → fs !! d = None.

Section Separate.
Context `{UnicodeQuote, Toml} (p : Paths) (domain : string) (cs ds : list string).
Context (Hcs : Forall plain_elem cs) (Hds : Forall plain_elem ds) (Hcs0 : cs ≠ []) (Hds0 : ds ≠ []).
Context (HC : PConfig p = path_of cs) (HD : PData p = path_of ds).
Context (Hsep1 : ¬ cs `prefix_of` ds) (Hsep2 : ¬ ds `prefix_of` cs) (Hdom : plain_elem domain).
Implicit Types fs : gmap string string.

Lemma under_ne (l x : list string) : l ≠ [] → l ++ x ≠ [].
Proof. by destruct l. Qed.
Lemma trees_apart l x y : l `prefix_of` ds ++ y → l ≠ cs ++ x.
Proof.
  intros Hl ->. destruct (prefix_weak_total cs ds (ds ++ y)); [|by apply prefix_app_r|done..].
  by eapply prefix_app_l.
Qed.
Lemma Join_config x : Forall plain_elem x → Join (PConfig p :: x) = path_of (cs ++ x).
Proof. intros Hx. rewrite HC. by apply Join_path. Qed.
Lemma Join_domain x : Forall plain_elem x → Join (Join [PConfig p; domain] :: x) = path_of (cs ++ domain :: x).
Proof.
  intros Hx. rewrite Join_config by plains. rewrite Join_path; [|plains|done|by apply under_ne].
  by rewrite <- app_assoc.
Qed.
Lemma dataDir_path : dataDir p domain = path_of (ds ++ [domain]).
Proof. unfold dataDir. rewrite HD. apply Join_path; [done|plains|done]. Qed.
Lemma usersDir_path : usersDir p domain = path_of (ds ++ [domain; "users"]).
Proof.
  unfold usersDir. rewrite dataDir_path, Join_path; [by rewrite <- app_assoc|plains|plains|by apply under_ne].
Qed.
Lemma user_path u : plain_elem u → Join [usersDir p domain; u] = path_of (ds ++ [domain; "users"; u]).
Proof.
  intros Hu. rewrite usersDir_path, Join_path; [by rewrite <- app_assoc|plains|plains|by apply under_ne].
Qed.

(** What the entries of the two plans are. *)
Inductive data_entry fs (gid : Z) : permEntry → Prop :=
| de_domain : data_entry fs gid (mkEntry' (path_of (ds ++ [domain])) rootUID gid sharedDirMode)
| de_users : data_entry fs gid (mkEntry' (path_of (ds ++ [domain; "users"])) rootUID gid sharedDirMode)
| de_user u uid : plain_elem u → id_at fs (uidMapPath (PConfig p) domain) u ErrNoUID = Ok uid →
    data_entry fs gid (mkEntry' (path_of (ds ++ [domain; "users"; u])) uid gid userDirMode).
Inductive conf_entry fs : permEntry → Prop :=
| ce_root : conf_entry fs (config_entry sharedDirMode (path_of cs))
| ce_domain : conf_entry fs (config_entry sharedDirMode (path_of (cs ++ [domain])))
| ce_root_file f : plain_elem f → is_regular fs (path_of (cs ++ [f])) = true →
    conf_entry fs (config_entry configFileMode (path_of (cs ++ [f])))
| ce_domain_file f : plain_elem f → f ∉ ["keys"; "user_forwards"] → is_regular fs (path_of (cs ++ [domain; f])) = true →
    conf_entry fs (config_entry configFileMode (path_of (cs ++ [domain; f])))
| ce_dir d : plain_elem d → d ∈ ["keys"; "user_forwards"] → is_dir fs (path_of (cs ++ [domain; d])) = true →
    conf_entry fs (config_entry sharedDirMode (path_of (cs ++ [domain; d])))
| ce_file d n : plain_elem d → d ∈ ["keys"; "user_forwards"] → is_dir fs (path_of (cs ++ [domain; d])) = true → plain_elem n →
    is_regular fs (path_of (cs ++ [domain; d; n])) = true →
    conf_entry fs (config_entry configFileMode (path_of (cs ++ [domain; d; n]))).

Definition names_plain fs : Prop :=
  ∀ us u, users_at fs (Join [PConfig p; domain; "passwd"]) = Ok us → u ∈ us → plain_elem (username u).
Lemma domain_plan_entries fs plan :
  names_plain fs → domain_plan p domain fs = Ok plan → ∃ gid, ∀ e, e ∈ plan → data_entry fs gid e.
Proof.
  intros Hn. unfold domain_plan. destruct (id_at _ _ _ _) as [gid|]; [|done].
  destruct (users_at _ _) as [us|] eqn:Eu; [|done]. destruct (user_plan _ _ _ _ _) as [es|] eqn:Ep; [|done].
  unfold shared_entries. rewrite dataDir_path, usersDir_path.
  intros [= <-]. exists gid. intros e [->|[->|He]%elem_of_cons]%elem_of_cons; [constructor|constructor|].
  destruct (user_plan_elem _ _ _ _ _ _ _ Ep He) as (u & uid & Hu & Hid & ->). unfold user_entry.
  rewrite user_path by (by eapply Hn). constructor; [by eapply Hn|done].
Qed.
Lemma config_plan_entries fs e : e ∈ config_plan p domain fs → conf_entry fs e.
Proof.
  assert (Hpl : ∀ f, has_byte slash f = false → negb (bool_decide (f ∈ [""; "."; ".."])) = true → plain_elem f) by (intros; by apply plain_elem_intro).
  unfold config_plan. rewrite !elem_of_app. intros [He|[He|He]].
  - rewrite (Join_config [domain]) in He by plains. rewrite HC in He.
    apply elem_of_cons in He as [->|He]; [constructor|]. apply list_elem_of_singleton in He as ->. constructor.
  - apply list_elem_of_fmap in He as (f & -> & [Hr Hf]%list_elem_of_filter). unfold config_files in Hf.
    rewrite !Join_domain, !Join_config in Hf by (plains; by apply Hpl).
    repeat (apply elem_of_cons in Hf as [->|Hf]; [first [apply ce_root_file; [by apply Hpl|done]
      | apply ce_domain_file; [by apply Hpl|set_solver|done]]|]). by apply elem_of_nil in Hf.
  - apply list_elem_of_bind in He as (d & He & [Hd Hin]%list_elem_of_filter). unfold config_dirs in Hin.
    rewrite !Join_domain in Hin by (plains; by apply Hpl).
    assert (∃ k, k ∈ ["keys"; "user_forwards"] ∧ plain_elem k ∧ d = path_of (cs ++ [domain; k])) as (k & Hk & Hkp & ->).
    { apply elem_of_cons in Hin as [->|Hin]; [exists "keys"|apply list_elem_of_singleton in Hin as ->; exists "user_forwards"];
        (split_and!; [set_solver|by apply Hpl|done]). }
    apply elem_of_cons in He as [->|He]; [by constructor|].
    apply list_elem_of_fmap in He as (n & -> & [Hn Hr]%dir_files_elem).
    rewrite path_of_snoc, <- app_assoc in Hr by (by apply under_ne).
    rewrite Join_path, <- app_assoc; [by apply ce_file|plains|plains|by apply under_ne].
Qed.

Definition entry_of fs (gid : Z) (e : permEntry) : Prop := data_entry fs gid e ∨ conf_entry fs e.
Lemma entry_path fs gid e :
  entry_of fs gid e → planned e ∧ ∃ l, pe_Path e = path_of l ∧ Forall plain_elem l ∧ l ≠ [].
Proof.
  intros He. split; [destruct He as [[]|[]]; unfold planned; cbn; set_solver|].
  destruct He as [[]|[]]; cbn; (eexists; split; [reflexivity|split; [plains|try by apply under_ne]]); done.
Qed.
Lemma data_consistent fs gid e e' : data_entry fs gid e → data_entry fs gid e' → pe_Path e = pe_Path e' → e = e'.
Proof.
  intros He He' E.
  destruct He, He'; cbn in E; apply path_of_inj in E; try (by apply under_ne); try (by plains);
    apply app_inv_head in E; simplify_eq; try done. congruence.
Qed.
Lemma not_regular fs q : is_dir fs q = true → is_regular fs q = false.
Proof. unfold is_regular. by intros ->. Qed.
Lemma conf_mode fs e :
  conf_entry fs e → is_regular fs (path_of (cs ++ [domain])) = false →
  e = config_entry (pe_Mode e) (pe_Path e) ∧
  (pe_Mode e = configFileMode ∧ is_regular fs (pe_Path e) = true ∧ pe_Path e ≠ path_of cs ∨
   pe_Mode e = sharedDirMode ∧ (pe_Path e = path_of cs ∨ is_regular fs (pe_Path e) = false)).
Proof.
  assert (Hne : ∀ x, Forall plain_elem x → x ≠ [] → path_of (cs ++ x) ≠ path_of cs).
  { intros x Hx Hx0 E. apply path_of_inj in E; [|plains|plains|by apply under_ne|done].
    rewrite <- (app_nil_r cs) in E at 2. apply app_inv_head in E. done. }
  intros He Hd. split; [by destruct He|].
  destruct He; cbn; first [left; split_and!; [done|done|apply Hne; [plains|done]] | right; split; [done|]; first [by left | by right | right; by apply not_regular]].
Qed.
Lemma conf_consistent fs e e' :
  is_regular fs (path_of (cs ++ [domain])) = false →
  conf_entry fs e → conf_entry fs e' → pe_Path e = pe_Path e' → e = e'.
Proof.
  intros Hd He He' E. destruct (conf_mode _ _ He Hd) as [-> Hm], (conf_mode _ _ He' Hd) as [-> Hm'].
  cbn in *. rewrite E in *.
  destruct Hm as [(-> & Hr & Hn)|(-> & Hs)], Hm' as [(-> & Hr' & Hn')|(-> & Hs')]; try done; exfalso.
  - destruct Hs' as [?|?]; [done|congruence].
  - destruct Hs as [?|?]; [done|congruence].
Qed.
Lemma data_not_conf fs gid e e' : data_entry fs gid e → conf_entry fs e' → pe_Path e ≠ pe_Path e'.
Proof.
  intros He He' E.
  assert (∃ y, pe_Path e = path_of (ds ++ y) ∧ Forall plain_elem y) as (y & Ey & Hy)
    by (destruct He; cbn; eexists; (split; [reflexivity|plains])).
  assert (∃ x, pe_Path e' = path_of (cs ++ x) ∧ Forall plain_elem x) as (x & Ex & Hx).
  { destruct He'; cbn; [exists []; rewrite app_nil_r; split; [done|constructor]|..]; (eexists; (split; [reflexivity|plains])). }
  rewrite Ey, Ex in E. apply path_of_inj in E; [|plains|plains|by apply under_ne..].
  by apply (trees_apart (ds ++ y) x y).
Qed.
Lemma plan_consistent fs gid plan :
  is_regular fs (path_of (cs ++ [domain])) = false → (∀ e, e ∈ plan → entry_of fs gid e) → consistent plan.
Proof.
  intros Hd Hall e e' He He' E. destruct (Hall e He) as [H1|H1], (Hall e' He') as [H2|H2].
  - by eapply data_consistent.
  - by destruct (data_not_conf _ _ _ _ H1 H2).
  - by destruct (data_not_conf _ _ _ _ H2 H1).
  - by eapply conf_consistent.
Qed.

(** *** Applying the plan does not change the plan *)
Definition in_plan (plan : list permEntry) (q : string) : Prop := Exists (λ e, q ∈ dir_chain (pe_Path e)) plan.
Lemma conf_dir_new fs e k l i :
  conf_entry fs e → pe_Path e = path_of l → Forall plain_elem l → l ≠ [] →
  k ∈ ["keys"; "user_forwards"] → plain_elem k →
  cs ++ [domain; k] = take (S i) l → is_dir fs (path_of (cs ++ [domain; k])) = true.
Proof.
  intros He Hl Hlp Hl0 Hk Hkp Hi.
  assert (∀ x, Forall plain_elem x → path_of (cs ++ x) = path_of l → [domain; k] `prefix_of` x) as Hpre.
  { intros x Hx E. apply path_of_inj in E; [|plains|done|by apply under_ne|done]. subst l.
    apply (prefix_app_inv cs). rewrite Hi. by apply prefix_take. }
  destruct He; cbn in Hl.
  - rewrite <- (app_nil_r cs) in Hl. apply Hpre in Hl as [z ?]; [done|plains].
  - apply Hpre in Hl as [z ?]; [done|plains].
  - apply Hpre in Hl as [z ?]; [done|plains].
  - apply Hpre in Hl as [z Hz]; [|plains]. cbn in Hz. by simplify_eq.
  - apply Hpre in Hl as [z Hz]; [|plains]. cbn in Hz. by simplify_eq.
  - apply Hpre in Hl as [z Hz]; [|plains]. cbn in Hz. by simplify_eq.
Qed.
Lemma optional_dirs_kept fs fs' gid plan d :
  grown (in_plan plan) fs fs' → (∀ e, e ∈ plan → entry_of fs gid e) → d ∈ config_dirs p domain →
  (∃ k, plain_elem k ∧ d = path_of (cs ++ [domain; k])) ∧ is_dir fs' d = is_dir fs d.
Proof.
  intros HG Hall Hin. unfold config_dirs in Hin.
  assert (Hpl : ∀ f, has_byte slash f = false → negb (bool_decide (f ∈ [""; "."; ".."])) = true → plain_elem f) by (intros; by apply plain_elem_intro).
  rewrite !Join_domain in Hin by (plains; by apply Hpl).
  assert (∃ k, k ∈ ["keys"; "user_forwards"] ∧ plain_elem k ∧ d = path_of (cs ++ [domain; k])) as (k & Hk & Hkp & ->).
  { apply elem_of_cons in Hin as [->|Hin]; [exists "keys"|apply list_elem_of_singleton in Hin as ->; exists "user_forwards"];
      (split_and!; [set_solver|by apply Hpl|done]). }
  split; [by eauto|]. destruct (is_dir fs (path_of _)) eqn:Ed; [by eapply grown_dir|].
  rewrite <- Ed. eapply grown_not_dir; [done|]. intros Hex. apply Exists_exists in Hex as (e & He & Hq).
  specialize (Hall e He). destruct (entry_path _ _ _ Hall) as (_ & l & Hl & Hlp & Hl0). rewrite Hl in Hq.
  apply dir_chain_path in Hq as (i & _ & Hq); [|done..].
  apply path_of_inj in Hq; [|plains|by apply Forall_take|by apply under_ne|by destruct l].
  destruct Hall as [Hde|Hce].
  - assert (∃ y, l = ds ++ y) as [y ->].
    { destruct Hde; cbn in Hl; (apply path_of_inj in Hl; [by eauto|plains|done|by apply under_ne|done]). }
    by apply (trees_apart (take (S i) (ds ++ y)) [domain; k] y); [apply prefix_take|].
  - rewrite (conf_dir_new fs e k l i) in Ed; done.
Qed.

Lemma config_files_paths f : f ∈ config_files p domain → ∀ q, f ≠ q +:+ "/".
Proof.
  assert (Hpl : ∀ f, has_byte slash f = false → negb (bool_decide (f ∈ [""; "."; ".."])) = true → plain_elem f) by (intros; by apply plain_elem_intro).
  unfold config_files. rewrite !Join_domain, !Join_config by (plains; by apply Hpl). intros Hf q.
  repeat (apply elem_of_cons in Hf as [->|Hf]; [apply path_no_slash_end; [plains; by apply Hpl|by apply under_ne]|]).
  by apply elem_of_nil in Hf.
Qed.
Lemma config_plan_elem fs e :
  e ∈ config_plan p domain fs ↔
  e ∈ [config_entry sharedDirMode (PConfig p); config_entry sharedDirMode (Join [PConfig p; domain])] ∨
  (∃ f, f ∈ config_files p domain ∧ is_regular fs f = true ∧ e = config_entry configFileMode f) ∨
  (∃ d, d ∈ config_dirs p domain ∧ is_dir fs d = true ∧
     (e = config_entry sharedDirMode d ∨ ∃ n, n ∈ dir_files d fs ∧ e = config_entry configFileMode (Join [d; n]))).
Proof.
  unfold config_plan. rewrite !elem_of_app. apply or_iff_compat_l. split; (intros [He|He]; [left|right]).
  - apply list_elem_of_fmap in He as (f & -> & [Hr Hf]%list_elem_of_filter). eauto.
  - apply list_elem_of_bind in He as (d & He & [Hd Hin]%list_elem_of_filter). exists d. split_and!; [done..|].
    apply elem_of_cons in He as [->|He]; [by left|right]. apply list_elem_of_fmap in He as (n & -> & Hn). eauto.
  - destruct He as (f & Hf & Hr & ->). apply list_elem_of_fmap. exists f. split; [done|]. by apply list_elem_of_filter.
  - destruct He as (d & Hin & Hd & He). apply list_elem_of_bind. exists d. split; [|by apply list_elem_of_filter].
    apply elem_of_cons. destruct He as [->|(n & Hn & ->)]; [by left|right]. apply list_elem_of_fmap. eauto.
Qed.
Lemma config_plan_kept fs fs' gid plan e :
  grown (in_plan plan) fs fs' → (∀ e, e ∈ plan → entry_of fs gid e) →
  e ∈ config_plan p domain fs' ↔ e ∈ config_plan p domain fs.
Proof.
  intros HG Hall. rewrite !config_plan_elem.
  assert (∀ f, f ∈ config_files p domain → is_regular fs' f = is_regular fs f) as Hf.
  { intros f Hin. eapply grown_regular; [done|by apply config_files_paths]. }
  assert (∀ d n, d ∈ config_dirs p domain → n ∈ dir_files d fs' ↔ n ∈ dir_files d fs) as Hn.
  { intros d n Hin. rewrite !dir_files_elem.
    destruct (optional_dirs_kept _ _ _ _ _ HG Hall Hin) as [(k & Hk & ->) _].
    assert (plain_elem n → is_regular fs' ((path_of (cs ++ [domain; k]) +:+ "/") +:+ n)
      = is_regular fs ((path_of (cs ++ [domain; k]) +:+ "/") +:+ n)) as Hreg.
    { intros Hp. eapply grown_regular; [done|]. intros q. rewrite path_of_snoc by (by apply under_ne).
      apply path_no_slash_end; [plains|by do 2 apply under_ne]. }
    split; intros [Hp Hr]; (split; [done|]); specialize (Hreg Hp); congruence. }
  apply or_iff_compat_l. split; (intros [(f & Hin & Hr & ->)|(d & Hin & Hd & He)]; [left; exists f|right; exists d]);
    try (pose proof (Hf f Hin)); try (destruct (optional_dirs_kept _ _ _ _ _ HG Hall Hin) as [_ Ed]);
    (split_and!; [done|congruence|]); try done;
    (destruct He as [?|(n & Hni & ->)]; [by left|right]; exists n; (split; [|done]); by apply (Hn d n Hin)).
Qed.
Lemma map_paths : (∀ q, gidMapPath (PConfig p) ≠ q +:+ "/") ∧ (∀ q, uidMapPath (PConfig p) domain ≠ q +:+ "/") ∧
  (∀ q, Join [PConfig p; domain; "passwd"] ≠ q +:+ "/").
Proof.
  assert (Hpl : ∀ f, has_byte slash f = false → negb (bool_decide (f ∈ [""; "."; ".."])) = true → plain_elem f) by (intros; by apply plain_elem_intro).
  unfold gidMapPath, uidMapPath. rewrite !Join_config by (plains; by apply Hpl).
  split_and!; intros q; (apply path_no_slash_end; [plains; by apply Hpl|by apply under_ne]).
Qed.
Lemma domain_plan_kept D fs fs' : grown D fs fs' → domain_plan p domain fs' = domain_plan p domain fs.
Proof.
  intros HG. destruct map_paths as (H1 & H2 & H3). apply domain_plan_same; by eapply grown_key.
Qed.

(** *** A plan applied without errors is complied with *)
(** Every entry of a plan for shared directories has its place. *)
Lemma shared_place fs gid e :
  places_free p domain fs → entry_of fs gid e → pe_Mode e = sharedDirMode →
  is_regular fs (pe_Path e) = false.
Proof.
  intros Hfree He Hm.
  assert (Hn : ∀ d, d ∈ [PConfig p; Join [PConfig p; domain]; dataDir p domain; usersDir p domain] → is_regular fs d = false).
  { intros d Hin. unfold is_regular. rewrite (Hfree d Hin). by rewrite andb_comm. }
  assert (is_regular fs (path_of cs) = false) as N1 by (rewrite <- HC; apply Hn; by left).
  assert (is_regular fs (path_of (cs ++ [domain])) = false) as N2.
  { rewrite <- Join_config by plains. apply Hn. right. by left. }
  assert (is_regular fs (path_of (ds ++ [domain])) = false) as N3.
  { rewrite <- dataDir_path. apply Hn. do 2 right. by left. }
  assert (is_regular fs (path_of (ds ++ [domain; "users"])) = false) as N4.
  { rewrite <- usersDir_path. apply Hn. do 3 right. by left. }
  revert Hm. destruct He as [[]|[]]; cbn [pe_Path pe_Mode config_entry]; intros Hm;
    first [assumption | by apply not_regular | by vm_compute in Hm].
Qed.
Lemma applied_plan_complies fresh_attr w plan rs w' :
  quiet w → domain_plan p domain (tfiles w) = Ok plan →
  applyPlan fresh_attr true true (plan ++ config_plan p domain (tfiles w)) w = (rs, w') → firstError rs = None →
  places_free p domain (tfiles w') → names_plain (tfiles w') →
  quiet w' ∧ Forall (complies w') (plan ++ config_plan p domain (tfiles w)) ∧
  domain_plan p domain (tfiles w') = Ok plan ∧
  ∀ e, e ∈ config_plan p domain (tfiles w') ↔ e ∈ config_plan p domain (tfiles w).
Proof.
  intros Hq Hplan Happ Herr Hfree Hnames.
  assert (Hmono : ∀ k c, tfiles w !! k = Some c → tfiles w' !! k = Some c).
  { intros k c Hk. pose proof (applyPlan_mono fresh_attr true (plan ++ config_plan p domain (tfiles w)) w k c Hk) as Hm.
    by rewrite Happ in Hm. }
  assert (places_free p domain (tfiles w)) as Hfree0.
  { intros d Hin. destruct (tfiles w !! d) as [c|] eqn:E; [|done]. rewrite <- (Hmono _ _ E). by apply Hfree. }
  assert (names_plain (tfiles w)) as Hnames0.
  { intros us u Hu Hin. destruct (tfiles w !! Join [PConfig p; domain; "passwd"]) as [c|] eqn:E.
    - eapply Hnames; [|exact Hin]. revert Hu. unfold users_at. by rewrite E, (Hmono _ _ E).
    - unfold users_at in Hu. rewrite E in Hu. simplify_eq. by apply elem_of_nil in Hin. }
  destruct (domain_plan_entries (tfiles w) plan Hnames0 Hplan) as [gid Hde].
  assert (Hall : ∀ e, e ∈ plan ++ config_plan p domain (tfiles w) → entry_of (tfiles w) gid e).
  { intros e [He|He]%elem_of_app; [left; auto|right]. by apply config_plan_entries. }
  destruct (applyPlan_sound fresh_attr true (plan ++ config_plan p domain (tfiles w)) w rs w') as [(Hq' & HG & _) Hco]; try done.
  - eapply plan_consistent; try done.
    replace (path_of (cs ++ [domain])) with (Join [PConfig p; domain]) by (rewrite Join_config; (done || plains)).
    unfold is_regular. rewrite Hfree0; [by rewrite andb_comm|set_solver].
  - apply Forall_forall. intros e He. by eapply entry_path, Hall.
  - apply Forall_forall. intros e He.
    destruct (entry_path _ _ _ (Hall e He)) as (_ & l & -> & Hl & Hl0).
    split; [by apply path_in_chain|]. intros q. by apply path_no_slash_end.
  - apply Forall_forall. intros e He. by eapply shared_place, Hall.
  - split_and!; [done|done|..].
    + rewrite <- Hplan. by eapply domain_plan_kept.
    + intros e. by eapply config_plan_kept.
Qed.
End Separate.

(** ** No step brings a fault *)
Definition calm {E A} (m : io E A) : Prop := ∀ d, faults d = [] → faults (m d).2 = [].
Lemma calm_ret {E A} (a : A) : calm (ret a : io E A).
Proof. by intros d. Qed.
Lemma calm_fail {E A} (e : E) : calm (fail e : io E A).
Proof. by intros d. Qed.
Lemma calm_bind {E A B} (m : io E A) (k : A → io E B) : calm m → (∀ a, calm (k a)) → calm (bind m k).
Proof. intros Hm Hk d Hd. unfold bind. specialize (Hm d Hd). destruct (m d) as [[a|e] d']; [by apply Hk|done]. Qed.
Lemma calm_call {E} (e : E) f : calm (call e f).
Proof. intros d Hd. unfold call. by rewrite sys_quiet. Qed.
Lemma calm_write_all {E} (e : E) q c : calm (write_all e q c).
Proof. intros d Hd. unfold write_all. by rewrite sys_quiet. Qed.
Lemma calm_read_file {E} (e : E) q : calm (read_file e q).
Proof. intros d Hd. unfold read_file. by rewrite sys_quiet. Qed.
Lemma calm_on_error {E A} (m : io E A) q : calm m → calm (on_error m (os_remove q)).
Proof.
  intros Hm d Hd. unfold on_error. specialize (Hm d Hd). destruct (m d) as [[a|e] d']; [done|].
  unfold os_remove. by rewrite sys_quiet.
Qed.
Ltac calm_step := first [apply calm_bind; [|intros ?] | apply calm_ret | apply calm_fail | apply calm_call
  | apply calm_write_all | apply calm_read_file | apply calm_on_error | case_match | case_decide].

Section Calm.
Context `{UnicodeQuote, Toml, Crypto}.
Lemma calm_loadMap q : calm (loadMap q).
Proof. unfold loadMap. repeat calm_step. Qed.
Lemma calm_lockFile q : calm (lockFile q).
Proof. unfold lockFile, call_, open_create. repeat calm_step. Qed.
Lemma calm_storeMap q h m : calm (storeMap q h m).
Proof. unfold storeMap, replace_file, call_, open_trunc, rename. repeat calm_step. Qed.
Lemma calm_allocateID q : calm (allocateID q).
Proof.
  unfold allocateID, call_, open_create, truncate, parse_counter. repeat calm_step.
  intros d Hd. unfold read_counter. by rewrite sys_quiet.
Qed.
Lemma calm_allocate_in q h e data k : calm (allocate_in q h e data k).
Proof. unfold allocate_in. repeat first [apply calm_lockFile | apply calm_loadMap | apply calm_allocateID | apply calm_storeMap | calm_step]. Qed.
Lemma calm_set_in q h e k id : calm (set_in q h e k id).
Proof. unfold set_in. repeat first [apply calm_lockFile | apply calm_loadMap | apply calm_storeMap | calm_step]. Qed.
Lemma calm_id q k (e : idErr) : calm (bind (loadMap q) (λ m, match m !! k with None => fail e | Some id => ret id end)).
Proof. repeat first [apply calm_loadMap | calm_step]. Qed.
Lemma calm_users q : calm (ListUsers q).
Proof. intros d Hd. unfold ListUsers, parsePasswd, read_file. rewrite sys_quiet by done. by destruct (files d !! q). Qed.
Lemma calm_lockDomain p domain : calm (lockDomain p domain).
Proof. unfold lockDomain, open_create, call_. repeat calm_step. Qed.
Lemma calm_StripUIDs q names : calm (StripUIDs q names).
Proof. unfold StripUIDs, read_lines, writePasswd, call_, open_trunc, rename. repeat calm_step. Qed.
End Calm.

Section Quietly.
Context `{Crypto, KeyringJson, UnicodeQuote, UnicodeCase, Toml, TomlConfig}.
Context (fresh_attr : gmap string string → string → attr) (legacy_domain_gid legacy_top_gid : string → option Z) (p : Paths).
Notation on_disk := (on_disk fresh_attr).
Lemma reading_quiet {A E} (m : io E A) w : calm m → quiet w → quiet (reading m w).2.
Proof. intros Hm Hq. unfold reading, quiet in *. specialize (Hm _ Hq). by destruct (m (t_disk w)). Qed.
Lemma on_disk_quiet {A E} (err : E → adminErr) (m : io E A) w : calm m → quiet w → quiet (on_disk err m w).2.
Proof. intros Hm Hq. unfold Provision.on_disk, quiet in *. specialize (Hm _ Hq). by destruct (m (t_disk w)). Qed.
Lemma allocated_quiet m w : calm m → quiet w → quiet (allocated fresh_attr m w).2.
Proof.
  intros Hm Hq. unfold allocated. pose proof (on_disk_quiet id_msg m w Hm Hq) as H'.
  destruct (on_disk id_msg m w) as [[[id []]|e] w1]; done.
Qed.
Lemma stat_quiet q w : quiet w → (os_Stat q w).2 = w.
Proof. intros Hq. unfold os_Stat. by rewrite sys_tree_quiet. Qed.

(** Runs the reads and writes in the goal's programs, keeping [quiet]. *)
Ltac quiet_step :=
  match goal with
  | |- context [reading ?m ?w] =>
      let Hq := fresh "Hq" in
      assert (Hq : quiet (reading m w).2) by
        (apply reading_quiet; [first [apply calm_users|apply calm_id|apply calm_read_file]|assumption]);
      destruct (reading m w) as [[?|?] ?]; cbn [snd] in Hq
  | |- context [Provision.on_disk _ ?e ?m ?w] =>
      let Hq := fresh "Hq" in
      assert (Hq : quiet (on_disk e m w).2) by
        (apply on_disk_quiet; [first [apply calm_set_in|apply calm_lockDomain|apply calm_StripUIDs]|assumption]);
      destruct (on_disk e m w) as [[?|?] ?]; cbn [snd] in Hq
  | |- context [allocated fresh_attr ?m ?w] =>
      let Hq := fresh "Hq" in
      assert (Hq : quiet (allocated fresh_attr m w).2) by
        (apply allocated_quiet; [apply calm_allocate_in|assumption]);
      destruct (allocated fresh_attr m w) as [[?|?] ?]; cbn [snd] in Hq
  end.
Lemma read_toml_quiet legacy q w : quiet w → quiet (read_toml legacy q w).2.
Proof. intros Hw. unfold read_toml. quiet_step; [by case_match|done]. Qed.
Lemma adopt_quiet domain w : quiet w → quiet (adoptDomainGID legacy_domain_gid legacy_top_gid p domain w).2.
Proof.
  intros Hw. unfold adoptDomainGID. pose proof (stat_quiet (dataDir p domain) w Hw) as Hs.
  destruct (os_Stat _ w) as [st w1]. cbn in Hs. subst w1.
  assert (quiet (retired_gid legacy_domain_gid legacy_top_gid p domain w).2); [|by destruct st; [..|case_match]].
  unfold retired_gid, tomlDomainGID, tomlTopLevelGID.
  pose proof (read_toml_quiet legacy_domain_gid (Join [dataDir p domain; "config.toml"]) w Hw) as Q1.
  destruct (read_toml _ _ w) as [g w1]. case_match; [done|].
  pose proof (read_toml_quiet legacy_top_gid (Join [PConfig p; domain; "config.toml"]) w1 Q1) as Q2.
  destruct (read_toml _ _ w1) as [g' w2]. by case_match.
Qed.
Lemma migrate_gid_quiet domain w : quiet w → quiet (migrate_gid fresh_attr legacy_domain_gid legacy_top_gid p domain w).2.
Proof.
  intros Hw. unfold migrate_gid. quiet_step; [done|]. case_match; try done.
  pose proof (adopt_quiet domain t ltac:(done)) as Ha. destruct (adoptDomainGID _ _ _ _ _) as [[g src] w1]. cbn in Ha.
  case_match; quiet_step; done.
Qed.
Lemma migrate_users_quiet domain users w : quiet w → quiet (migrate_users fresh_attr p domain users w).2.
Proof.
  revert w. induction users as [|u users IH]; intros w Hw; [done|]. cbn [migrate_users].
  quiet_step; [by apply IH|]. case_match; try (by apply IH).
  destruct (negb _); quiet_step;
    match goal with |- context [migrate_users _ _ _ users ?w0] => specialize (IH w0 ltac:(assumption));
      destruct (migrate_users _ _ _ users w0) as [[[? ?] ?] ?]; exact IH end.
Qed.
Lemma migrate_quiet domain w : quiet w → quiet (migrateDomain fresh_attr legacy_domain_gid legacy_top_gid p domain w).2.
Proof.
  intros Hw. unfold migrateDomain. pose proof (migrate_gid_quiet domain w Hw) as Q1.
  destruct (migrate_gid _ _ _ _ _ _) as [[[dm details] errs] w1]. cbn in Q1.
  assert (quiet (migrateUserUIDs fresh_attr p domain w1).2) as Q2.
  { unfold migrateUserUIDs. quiet_step; [by apply migrate_users_quiet|done]. }
  destruct (migrateUserUIDs _ _ _ _) as [[[um ud] ue] w2]. cbn in Q2.
  assert (quiet (stripMigratedPasswdUIDs fresh_attr p domain w2).2) as Q3.
  { unfold stripMigratedPasswdUIDs. quiet_step; [|done].
    assert (∀ us w0, quiet w0 → quiet (with_uid p domain us w0).2) as Hs.
    { induction us as [|u us IH]; intros w0 Hw0; [done|]. cbn. quiet_step;
        match goal with |- context [with_uid _ _ us ?w'] => specialize (IH w' ltac:(assumption));
          destruct (with_uid _ _ us w'); exact IH end. }
    match goal with |- context [with_uid _ _ ?us ?w0] => specialize (Hs us w0 ltac:(assumption));
      destruct (with_uid _ _ us w0) as [[|s safe] w3]; [done|] end.
    cbn in Hs. quiet_step; [|done]. by quiet_step. }
  destruct (stripMigratedPasswdUIDs _ _ _ _) as [[st se] w3]. exact Q3.
Qed.
Lemma reading_config q w : quiet w → (reading (LoadDomainConfig q) w).2 = w.
Proof.
  intros Hw. rewrite (reading_pure _ (λ fs, (LoadDomainConfig q (mkFolder fs [])).1)); [done| |done].
  intros fs. unfold LoadDomainConfig, bind, read_file. cbn. destruct (fs !! q) as [c|]; [|done]. cbn. by destruct (unmarshal_config c).
Qed.
Lemma open_reads q w : quiet w → (open_file q w).2 = w.
Proof.
  intros Hw. unfold open_file. erewrite (reading_pure _ (λ fs, Ok (fs !! q))); [|intros fs; apply read_file_quiet|done].
  by destruct (_ !! q).
Qed.
Lemma shadowed_reads a b dir domain users w : quiet w → (shadowed a b dir domain users w).2 = w.
Proof.
  intros Hw. induction users as [|v users IH]; [done|]. cbn [shadowed].
  assert ((catchallShadow a b dir (username v) w).2 = w) as Hcs.
  { unfold catchallShadow. destruct (_ || _); [done|].
    pose proof (open_reads (Join [dir; username v]) w Hw) as Ho.
    destruct (open_file _ w) as [g w1]. cbn in Ho. subst w1. repeat case_match; done. }
  destruct (catchallShadow a b dir (username v) w) as [[tier ts] w1]. cbn in Hcs. subst w1.
  destruct (shadowed a b dir domain users w) as [ws w2]. exact IH.
Qed.
Lemma shadow_reads domain w : quiet w → (shadowWarnings p domain w).2 = w.
Proof.
  intros Hw. unfold shadowWarnings. rewrite reading_users by done. destruct (users_at _ _) as [[|u us]|]; try done.
  pose proof (reading_config (Join [Join [PConfig p; domain]; "config.toml"]) w Hw) as Hc.
  destruct (reading (LoadDomainConfig _) w) as [cfg w1]. cbn in Hc. subst w1.
  pose proof (open_reads (Join [Join [PConfig p; domain]; "forwards"]) w Hw) as Hf.
  destruct (open_file _ w) as [f w1]. cbn in Hf. subst w1. by apply shadowed_reads.
Qed.
End Quietly.

(** ** The repair converges *)
Section Converge.
Context `{Crypto, KeyringJson, UnicodeQuote, UnicodeCase, Toml, TomlConfig}.
Context (fresh_attr : gmap string string → string → attr) (legacy_domain_gid legacy_top_gid : string → option Z) (p : Paths).
Notation applyPlan := (applyPlan fresh_attr true).
Notation FixDomain := (FixDomain fresh_attr true legacy_domain_gid legacy_top_gid p).


Lemma DriftCount_zero dom al ws rs : Forall (λ r, pr_Changed r = false ∧ pr_Err r = "") rs →
  DriftCount (mkReport dom al ws rs) = 0%nat ∧ firstError rs = None.
Proof.
  intros Hall. unfold DriftCount, firstError. cbn.
  induction Hall as [|r rs [Hc He] _ [IH1 IH2]]; [done|].
  rewrite (filter_cons_False (λ e, pr_Changed e = true)) by congruence.
  rewrite (filter_cons_False (λ e, pr_Err e ≠ "")) by (by rewrite He; intros []). done.
Qed.
Lemma domain_there_quiet domain w :
  ValidDomainName domain = true → quiet w → is_dir (tfiles w) (Join [PConfig p; domain]) = true →
  domain_there p domain w = (Ok (), w).
Proof.
  intros Hv Hq Hd. unfold domain_there, pbind. rewrite Hv. cbn [pret].
  unfold pret, DomainExists. rewrite (reading_pure _ (λ fs, Ok (is_dir fs (Join [PConfig p; domain])))); [by rewrite Hd| |done].
  done.
Qed.
(** The check after a plan was applied without errors. *)
Lemma applied_plan_checks domain w plan rs w' :
  separate p → ValidDomainName domain = true → quiet w →
  domain_plan p domain (tfiles w) = Ok plan →
  applyPlan true (plan ++ config_plan p domain (tfiles w)) w = (rs, w') → firstError rs = None →
  places_free p domain (tfiles w') → names_plain p domain (tfiles w') →
  ∃ rep, CheckDomain true p domain w' = (Ok rep, w') ∧ DriftCount rep = 0%nat ∧ firstError (rp_Entries rep) = None ∧
    ∀ q, q ∈ pr_Path <$> rp_Entries rep ↔ q ∈ pr_Path <$> rs.
Proof.
  intros (cs & ds & Hcs & Hds & Hcs0 & Hds0 & HC & HD & Hsep1 & Hsep2) Hv Hq Hplan Happ Herr Hfree Hnames.
  pose proof (valid_domain_plain _ Hv) as Hdp.
  destruct (applied_plan_complies p domain cs ds Hcs Hds Hcs0 Hds0 HC HD Hsep1 Hsep2 Hdp fresh_attr w plan rs w'
    Hq Hplan Happ Herr Hfree Hnames) as (Hq' & Hco & Hplan' & Hconf).
  assert (Hco' : Forall (complies w') (plan ++ config_plan p domain (tfiles w'))).
  { apply Forall_forall. intros e He. apply (proj1 (Forall_forall _ _) Hco). rewrite elem_of_app, <- Hconf.
    by apply elem_of_app. }
  assert (is_dir (tfiles w') (Join [PConfig p; domain]) = true) as Hdir.
  { apply Forall_app in Hco' as [_ Hc]. unfold config_plan in Hc. cbn in Hc.
    apply Forall_cons in Hc as [_ [(Ht & _) _]%Forall_cons]. destruct Ht as [?|Hr]; [done|]. unfold is_regular in Hr.
    cbn in Hr. rewrite Hfree in Hr by (right; by left). by rewrite andb_comm in Hr. }
  destruct (checkPlan_clean _ w' Hq' Hco') as (rs' & Hck & Hclean & Hpaths).
  unfold CheckDomain, pbind. rewrite domain_there_quiet by done. rewrite domainPermPlan_quiet, Hplan' by done.
  rewrite configPermPlan_quiet, Hck by done. cbn [app]. eexists. split; [reflexivity|]. cbn [rp_Entries].
  destruct (DriftCount_zero domain [] [] rs' Hclean) as [H1' H2']. split_and!; [done|done|].
  intros q. rewrite Hpaths. replace (pr_Path <$> rs) with (pe_Path <$> (plan ++ config_plan p domain (tfiles w))).
  - rewrite !fmap_app, !elem_of_app, !list_elem_of_fmap. by setoid_rewrite Hconf.
  - rewrite <- (applyPlan_paths fresh_attr true _ w). by rewrite Happ.
Qed.

(** C23 A repair leaves nothing to repair. Where configuration and data are separate
    trees and no call fails, a repair of a domain that reports no error, run as
    root on whatever owners, modes, missing directories and missing identities it
    found, is followed by a check that finds every path the repair touched, and
    no other, as the model wants it: no drift and no error. *)
Theorem fix_leaves_no_drift domain w rep w' :
  separate p → quiet w → FixDomain domain w = (rep, None, w') →
  places_free p domain (tfiles w') → names_plain p domain (tfiles w') →
  ∃ rep', CheckDomain true p domain w' = (Ok rep', w') ∧ DriftCount rep' = 0%nat ∧ firstError (rp_Entries rep') = None ∧
    ∀ q, q ∈ pr_Path <$> rp_Entries rep' ↔ q ∈ pr_Path <$> rp_Entries rep.
Proof.
  intros Hsep Hq Hfix Hfree Hnames. unfold Provision.FixDomain, domain_there, pbind in Hfix.
  destruct (ValidDomainName domain) eqn:Hv; [|done]. cbn [pret] in Hfix. unfold pret in Hfix.
  unfold DomainExists in Hfix. rewrite (reading_pure _ (λ fs, Ok (is_dir fs (Join [PConfig p; domain])))) in Hfix by done.
  destruct (is_dir _ _) in Hfix; [|done].
  pose proof (migrate_quiet fresh_attr legacy_domain_gid legacy_top_gid p domain w Hq) as Hq1.
  destruct (migrateDomain _ _ _ _ _ _) as [[[[dm um] details] errs] w1]. cbn in Hq1. destruct errs; [|done].
  pose proof (on_disk_quiet fresh_attr id (lockDomain p domain) w1 (calm_lockDomain _ _) Hq1) as Hq2.
  destruct (on_disk _ _ _ _) as [[[]|e] w2]; [|done]. cbn in Hq2.
  rewrite domainPermPlan_quiet in Hfix by done. destruct (domain_plan _ _ _) as [plan|] eqn:Hplan; [|done].
  rewrite configPermPlan_quiet in Hfix by done.
  destruct (applyPlan true _ w2) as [rs w3] eqn:Happ.
  pose proof (applyPlan_quiet fresh_attr true (plan ++ config_plan p domain (tfiles w2)) w2 Hq2) as Hq3. rewrite Happ in Hq3.
  pose proof (shadow_reads p domain w3 Hq3) as Hsh. destruct (shadowWarnings p domain w3) as [ws w4]. cbn in Hsh. subst w4.
  destruct (firstError rs) eqn:Herr; simplify_eq. cbn [rp_Entries]. by apply (applied_plan_checks domain w2 plan).
Qed.
End Converge.

(** ** Deleting a domain *)
Definition tchanges {A} (S : string → Prop) (m : pio A) : Prop := ∀ w q, ¬ S q → tfiles (m w).2 !! q = tfiles w !! q.
Lemma tchanges_bind {A B} S (m : pio A) (k : A → pio B) : tchanges S m → (∀ a, tchanges S (k a)) → tchanges S (pbind m k).
Proof.
  intros Hm Hk w q Hq. unfold pbind. specialize (Hm w q Hq). destruct (m w) as [[a|e] w1]; cbn [snd] in *; [|done].
  by rewrite Hk.
Qed.
Section Delete.
Context `{Crypto, KeyringJson, UnicodeQuote, Toml}.
Context (fresh_attr : gmap string string → string → attr) (p : Paths).
Lemma tchanges_on_disk {A E} S (err : E → adminErr) (m : io E A) : changes S m → tchanges S (on_disk fresh_attr err m).
Proof. intros Hm w q Hq. unfold on_disk. specialize (Hm (t_disk w) q Hq). by destruct (m (t_disk w)). Qed.
Lemma tchanges_reading {A E} S (err : E → adminErr) (m : io E A) : changes S m → tchanges S (read_as err m).
Proof. intros Hm w q Hq. unfold read_as, reading. specialize (Hm (t_disk w) q Hq). by destruct (m (t_disk w)). Qed.
Lemma tchanges_there S name : tchanges S (domain_there p name).
Proof.
  unfold domain_there. apply tchanges_bind; [by destruct (ValidDomainName name); intros w q _|intros _ w q _].
  unfold reading, DomainExists, fileExists. pose proof (disk_files (t_disk w)) as Hs.
  destruct (sys (t_disk w)) as [[|n] d]; cbn in *; [case_match|]; cbn; by rewrite Hs.
Qed.
Lemma changes_RemoveAll S what q : (∀ k, beneath q k = true → S k) → changes S (os_RemoveAll what q).
Proof.
  intros HS w k Hk. unfold os_RemoveAll. pose proof (disk_files w) as Hf. destruct (sys w) as [[|n] w1]; cbn in *; rewrite <- Hf.
  - destruct (files w1 !! k) as [c|] eqn:E; [|apply map_lookup_filter_None; by left].
    apply map_lookup_filter_Some. split; [done|]. cbn. destruct (beneath q k) eqn:Eb; [|done]. by destruct (Hk (HS k Eb)).
  - destruct (files w1 !! k) as [c|] eqn:E; [|apply map_lookup_filter_None; by left].
    apply map_lookup_filter_Some. split; [done|]. cbn. intros Hin.
    assert (Hb : k ∈ filter (λ k, beneath q k = true) (map_to_list (files w1)).*1).
    { rewrite <- (take_drop n (filter _ _)). apply elem_of_app. by left. }
    apply list_elem_of_filter in Hb as [Hb _]. by apply Hk, HS.
Qed.
Lemma changes_remove_gid S name :
  (∀ k, k ∈ [gidMapPath (PConfig p); gidMapPath (PConfig p) +:+ ".lock"; gidMapPath (PConfig p) +:+ ".tmp"] → S k) →
  changes S (RemoveDomainGID (idMgr p) name).
Proof.
  intros HS. unfold RemoveDomainGID, remove_in. apply changes_bind; [apply changes_lockFile, HS; right; by left|intros _].
  apply changes_bind; [apply changes_loadMap|intros cur]. destruct (cur !! name); [|apply changes_ret].
  apply changes_storeMap; apply HS; [by left|do 2 right; by left].
Qed.
Lemma RemoveAll_gone what q d d' k : os_RemoveAll what q d = (Ok (), d') → beneath q k = true → files d' !! k = None.
Proof.
  unfold os_RemoveAll. destruct (sys d) as [[|n] d1]; intros [= <-] Hb. cbn. apply map_lookup_filter_None. right.
  intros c _. cbn. congruence.
Qed.

(** What deleting a domain may touch. *)
Definition domain_paths (name : string) (force : bool) (k : string) : Prop :=
  beneath (Join [PConfig p; name]) k = true ∨
  force = true ∧ PData p ≠ PConfig p ∧ beneath (Join [PData p; name]) k = true ∨
  k ∈ [gidMapPath (PConfig p); gidMapPath (PConfig p) +:+ ".lock"; gidMapPath (PConfig p) +:+ ".tmp"].
Lemma delete_changes name force : tchanges (domain_paths name force) (DeleteDomain fresh_attr p name force).
Proof.
  unfold DeleteDomain. apply tchanges_bind; [apply tchanges_there|intros _].
  apply tchanges_bind.
  { destruct force; [by intros w q _|]. apply tchanges_bind; [apply tchanges_reading, changes_parsePasswd|].
    intros [|u us]; by intros w q _. }
  intros _. apply tchanges_bind; [apply tchanges_on_disk, changes_RemoveAll; by left|intros _].
  apply tchanges_bind; [apply tchanges_on_disk, changes_remove_gid; by right; right|intros _].
  destruct force; [|by intros w q _]. destruct (bool_decide_reflect (PData p = "")); [by intros w q _|].
  destruct (bool_decide_reflect (PData p = PConfig p)); [by intros w q _|].
  apply tchanges_on_disk, changes_RemoveAll. intros k Hk. right. by left.
Qed.
Lemma RemoveAll_none what q d k : files d !! k = None → files (os_RemoveAll what q d).2 !! k = None.
Proof.
  unfold os_RemoveAll. intros Hk. rewrite <- (disk_files d) in Hk. destruct (sys d) as [[|n] d1]; cbn in *;
    apply map_lookup_filter_None; by left.
Qed.
Lemma there_files name w r w' : domain_there p name w = (r, w') → tfiles w' = tfiles w.
Proof.
  intros E. apply map_eq. intros k. change w' with (r, w').2. rewrite <- E. apply (tchanges_there (λ _, False)). by intros [].
Qed.
(** A domain that lists users is not deleted unless forced. *)
Lemma delete_refused name w r w' u us :
  DeleteDomain fresh_attr p name false w = (r, w') →
  users_at (tfiles w) (Join [PConfig p; name; "passwd"]) = Ok (u :: us) → (∃ e, r = Err e) ∧ tfiles w' = tfiles w.
Proof.
  intros E Hu. unfold DeleteDomain, pbind in E. destruct (domain_there p name w) as [[[]|e] w1] eqn:Et; apply there_files in Et.
  - unfold read_as, reading, ListUsers, parsePasswd, read_file in E.
    pose proof (disk_files (t_disk w1)) as Hf. destruct (sys (t_disk w1)) as [[|n] d1]; cbn in Hf, E.
    + rewrite Hf, Et in E. unfold users_at in Hu. destruct (tfiles w !! _) as [c|]; [|by simplify_eq].
      rewrite Hu in E. unfold pfail in E. simplify_eq. cbn. split; [eauto|congruence].
    + simplify_eq. cbn. split; [eauto|congruence].
  - simplify_eq. split; [eauto|done].
Qed.
(** A deletion that reports success leaves nothing of the configuration. *)
Lemma delete_complete name force w w' k :
  DeleteDomain fresh_attr p name force w = (Ok (), w') →
  beneath (Join [PConfig p; name]) k = true →
  k ∉ [gidMapPath (PConfig p); gidMapPath (PConfig p) +:+ ".lock"; gidMapPath (PConfig p) +:+ ".tmp"] →
  tfiles w' !! k = None.
Proof.
  intros E Hb Hk. unfold DeleteDomain, pbind in E. destruct (domain_there p name w) as [[[]|] w1]; [|done].
  match goal with H : match ?x with _ => _ end = _ |- _ => destruct x as [[[]|] w2]; [|done] end.
  unfold on_disk in E. destruct (os_RemoveAll _ (Join [PConfig p; name]) _) as [[[]|] d3] eqn:E3; [|done].
  cbn [t_disk] in E. pose proof (RemoveAll_gone _ _ _ _ k E3 Hb) as Hgone.
  pose proof (changes_remove_gid (λ q, q ∈ [gidMapPath (PConfig p); gidMapPath (PConfig p) +:+ ".lock"; gidMapPath (PConfig p) +:+ ".tmp"])
    name (λ _ Hq, Hq) d3 k Hk) as Hrm.
  destruct (RemoveDomainGID _ _ d3) as [[[]|] d4]; [|done]. cbn in Hrm. cbn [t_disk] in E. rewrite Hgone in Hrm.
  destruct force; [destruct (bool_decide (PData p = "")); [|destruct (bool_decide (PData p = PConfig p))]|];
    cbn [andb negb] in E; try (unfold pret in E; by inversion E; subst).
  pose proof (RemoveAll_none "remove domain data" (Join [PData p; name]) d4 k Hrm) as Hn.
  cbn [t_disk] in E. destruct (os_RemoveAll "remove domain data" _ d4) as [r5 d5]. destruct r5 as [[]|]; simplify_eq; exact Hn.
Qed.

(** C33 Deleting a domain touches that domain only. Whatever call fails: every file
    that changes lies under the domain's configuration directory, or, when the
    deletion is forced and the trees are separate, under its data directory, or
    belongs to the ledger of gids; a domain that still lists users is refused
    without force, with every file as it was; and a deletion that reports success
    leaves nothing under the configuration directory. *)
Theorem delete_contained name force w r w' :
  DeleteDomain fresh_attr p name force w = (r, w') →
  (∀ k, tfiles w' !! k ≠ tfiles w !! k → domain_paths name force k) ∧
  (∀ u us, force = false → users_at (tfiles w) (Join [PConfig p; name; "passwd"]) = Ok (u :: us) →
     (∃ e, r = Err e) ∧ tfiles w' = tfiles w) ∧
  (∀ k, r = Ok () → beneath (Join [PConfig p; name]) k = true →
     k ∉ [gidMapPath (PConfig p); gidMapPath (PConfig p) +:+ ".lock"; gidMapPath (PConfig p) +:+ ".tmp"] →
     tfiles w' !! k = None).
Proof.
  intros E. split_and!.
  - intros k Hk. destruct (decide (domain_paths name force k)) as [|Hn]; [done|]. exfalso. apply Hk.
    change w' with (r, w').2. rewrite <- E. by apply delete_changes.
  - intros u us -> Hu. by eapply delete_refused.
  - intros k -> Hb Hk. by eapply delete_complete.
Qed.
End Delete.

(** ** Examples *)
Section ProvisionWitnesses.
Import Toy Decoder TomlDemo.
#[local] Existing Instance Forwards.Example.ascii_case.
Definition v_paths : Paths := mkPaths "/c" "/d".
Definition v_attr (_ : gmap string string) (_ : string) : attr := mkAttr 0 0 0x1a4.
Definition v_none (_ : string) : option Z := None.
(** Two users, one with a uid in the old place; no gid, no data directory. *)
Definition v_files (passwd : list string) : gmap string string :=
  {["/c/" := ""; "/c/ex.org/" := ""; "/c/ex.org/keys/" := ""; "/c/ex.org/keys/domain.pub" := "k";
    "/c/ex.org/passwd" := unlines LF passwd; "/c/ex.org/config.toml" := "forwards = {}"]}.
Definition v_tree (passwd : list string) (d : string) : tree :=
  mkTree (mkFolder (v_files passwd) []) (λ q, mkAttr 0 0 (if decide (q = d) then 0x1ff else 0x1a4)).
Definition v_passwd : list string := ["alice:$x$:alice"; "bob:$x$:bob:10007"].
Definition v_fix (p : Paths) := FixDomain v_attr true v_none v_none p "ex.org".
Definition v_fixed : tree := (v_fix v_paths (v_tree v_passwd "/c/ex.org/keys/domain.pub")).2.
Lemma fix_leaves_no_drift_witness :
  (v_fix v_paths (v_tree v_passwd "/c/ex.org/keys/domain.pub")).1.2 = None ∧
  ∃ rep', CheckDomain true v_paths "ex.org" v_fixed = (Ok rep', v_fixed) ∧ DriftCount rep' = 0%nat ∧
    firstError (rp_Entries rep') = None ∧
    ∀ q, q ∈ pr_Path <$> rp_Entries rep' ↔
         q ∈ pr_Path <$> rp_Entries (v_fix v_paths (v_tree v_passwd "/c/ex.org/keys/domain.pub")).1.1.
Proof.
  split; [vm_compute; reflexivity|].
  apply (fix_leaves_no_drift v_attr v_none v_none v_paths "ex.org" (v_tree v_passwd "/c/ex.org/keys/domain.pub")).
  - exists ["c"], ["d"].
    split_and!; try done; try (apply Forall_cons; split; [by apply plain_elem_intro|apply List.Forall_nil]);
      intros [l E]; discriminate E.
  - done.
  - unfold v_fixed, v_fix. destruct (FixDomain _ _ _ _ _ _ _) as [[rep e] w'] eqn:E. cbn.
    assert (e = None) as ->; [|done]. change e with (rep, e, w').1.2. rewrite <- E. vm_compute. reflexivity.
  - intros d Hd. repeat (apply elem_of_cons in Hd as [->|Hd]; [vm_compute; reflexivity|]). by apply elem_of_nil in Hd.
  - intros us u E Hin. vm_compute in E. injection E as <-.
    repeat (apply elem_of_cons in Hin as [->|Hin]; [by apply plain_elem_intro|]). by apply elem_of_nil in Hin.
Defined.

Definition v_delete (w : tree) := DeleteDomain v_attr v_paths "ex.org" false w.
(** The repaired domain of alice and bob is refused; without users it goes. *)
Lemma delete_contained_witness :
  (v_delete v_fixed).1 = Err (EDomainHasUsers 2) ∧
  (let w := v_tree [] "" in let '(r, w') := v_delete w in
   r = Ok () ∧
   (∀ k, tfiles w' !! k ≠ tfiles w !! k → domain_paths v_paths "ex.org" false k) ∧
   (∀ u us, false = false → users_at (tfiles w) "/c/ex.org/passwd" = Ok (u :: us) → (∃ e, r = Err e) ∧ tfiles w' = tfiles w) ∧
   (∀ k, r = Ok () → beneath "/c/ex.org" k = true → k ∉ ["/c/gid.toml"; "/c/gid.toml.lock"; "/c/gid.toml.tmp"] →
      tfiles w' !! k = None)).
Proof.
  split; [vm_compute; reflexivity|]. cbv zeta. destruct (v_delete (v_tree [] "")) as [r w'] eqn:E.
  split; [change r with (r, w').1; rewrite <- E; vm_compute; reflexivity|].
  apply (delete_contained v_attr v_paths "ex.org" false (v_tree [] "") r w' E).
Defined.

(** Where one directory holds configuration and data, the two plans ask different
    owners of the domain's directory: the repair reports success, gives it to the
    group of the configuration's readers, so that the users of the domain cannot
    reach their mail, and the check complains after every repair. *)
Lemma single_tree_never_clean :
  let p := mkPaths "/m" "/m" in
  let w := mkTree (mkFolder {["/m/" := ""; "/m/ex.org/" := ""; "/m/ex.org/passwd" := "alice:$x$:alice"]} []) (v_attr ∅) in
  let '(rep, e, w') := v_fix p w in
  e = None ∧ t_attrs w' "/m/ex.org" = mkAttr WebadminUID CfgreadGID sharedDirMode ∧
  match CheckDomain true p "ex.org" w' with
  | (Ok rep', _) => pr_Path <$> filter (λ r, pr_Changed r = true) (rp_Entries rep') = ["/m/ex.org"]
  | (Err _, _) => False
  end.
Proof. vm_compute. done. Qed.
(** A repair of a repaired domain reports every path as changed. *)
Lemma repaired_reported_changed :
  let '(rep, e, _) := v_fix v_paths v_fixed in
  e = None ∧ DriftCount rep = length (rp_Entries rep) ∧ (length (rp_Entries rep) = 12)%nat.
Proof. vm_compute. done. Qed.
(** A domain that is deleted without its data and created again gets another gid,
    and its data directory with it; the repair keeps that one. *)
Lemma recreated_domain_new_gid :
  let w := v_tree [] "" in
  let '(_, _, w1) := v_fix v_paths w in
  let '(_, w2) := v_delete w1 in
  let '(r, w3) := CreateDomain v_attr true v_paths "ex.org" w2 in
  let '(_, e, w4) := v_fix v_paths w3 in
  at_gid (t_attrs w2 "/d/ex.org") = 10000 ∧ r = Ok 10001 ∧ e = None ∧ at_gid (t_attrs w4 "/d/ex.org") = 10001.
Proof. vm_compute. done. Qed.
End ProvisionWitnesses.
