(* ===== verification/ConfigEdit.v ===== *)
(** * Editing a domain's configuration in place

    [src/internal/admin/tomlpatch.go] (setting one key of a TOML text) and
    [src/internal/admin/configedit.go] (the keys an administrator may set, their
    values, and the file). Loops over line numbers are splits of the list of
    lines at the first line that is looked for. *)
From S2P Require Import Prelude GoStrings NetIP FilePath UidList Forwards Disk Identity Passwd Keyring Domain Admin Provision.
From S2P Require Import ProvisionFacts.
From Stdlib Require Import ZArith Lia Ascii.
Open Scope string_scope.
Open Scope list_scope.

(** ** The text *)
Definition dquote : string := String DQ "".
Definition backslash : string := String BS "".
Definition newline : string := String LF "".
Definition QuoteString (s : string) : string :=
  dquote +:+ ReplaceAll (ReplaceAll s backslash (backslash +:+ backslash)) dquote (backslash +:+ dquote) +:+ dquote.
Definition isTOMLSectionHeader (t : string) : bool :=
  negb (bool_decide (t = "")) && negb (HasPrefix t "#") && HasPrefix t "[".
(** [strings.TrimLeft] with blank and tab *)
Fixpoint trim_blanks (s : string) : string :=
  match s with
  | String c s' => if Ascii.eqb c SP || Ascii.eqb c (byte_of 9) then trim_blanks s' else s
  | "" => ""
  end.
Definition matchesTOMLKey (line key : string) : bool :=
  let t := TrimSpace line in
  if HasPrefix t "#" then false
  else
    let rest := TrimPrefix t key in
    if Nat.eqb (String.length rest) (String.length t) then false else HasPrefix (trim_blanks rest) "=".

(** The lines before the first that satisfies [f], and those from it on. *)
Fixpoint split_at (f : string → bool) (l : list string) : list string * list string :=
  match l with
  | [] => ([], [])
  | x :: l' => if f x then ([], l) else let '(a, b) := split_at f l' in (x :: a, b)
  end.
Definition is_header (line : string) : bool := isTOMLSectionHeader (TrimSpace line).
Definition starts (section line : string) : bool := bool_decide (TrimSpace line = "[" +:+ section +:+ "]").
Definition entry_line (key rawValue : string) : string := key +:+ " = " +:+ rawValue.
Definition join_lines (l : list string) : string := sjoin newline l.
(** The trailing blank lines of a list. *)
Definition drop_blank_end (l : list string) : list string :=
  reverse (split_at (λ x, negb (bool_decide (TrimSpace x = ""))) (reverse l)).2.

Definition patchTopLevel (lines : list string) (key rawValue : string) : string :=
  let '(top, rest) := split_at is_header lines in
  match split_at (λ l, matchesTOMLKey l key) top with
  | (a, _ :: b) =>
      if decide (rawValue = "") then join_lines (a ++ b ++ rest)
      else join_lines (a ++ entry_line key rawValue :: b ++ rest)
  | (_, []) =>
      if decide (rawValue = "") then join_lines lines
      else match rest with
           | [] =>
               let joined := trim_right_lf (join_lines lines) in
               if decide (joined = "") then entry_line key rawValue +:+ newline
               else joined +:+ newline +:+ entry_line key rawValue +:+ newline
           | _ => join_lines (drop_blank_end top ++ [entry_line key rawValue; ""] ++ rest)
           end
  end.
Definition PatchSectionValue (content section key rawValue : string) : string :=
  let lines := Split LF content in
  if decide (section = "") then patchTopLevel lines key rawValue
  else
    match split_at (starts section) lines with
    | (_, []) =>
        if decide (rawValue = "") then content
        else trim_right_lf (join_lines lines) +:+ newline +:+ newline +:+ "[" +:+ section +:+ "]" +:+ newline
             +:+ entry_line key rawValue +:+ newline
    | (before, h :: after) =>
        let '(body, rest) := split_at is_header after in
        match split_at (λ l, matchesTOMLKey l key) body with
        | (a, _ :: b) =>
            if decide (rawValue = "") then join_lines (before ++ h :: a ++ b ++ rest)
            else join_lines (before ++ h :: a ++ entry_line key rawValue :: b ++ rest)
        | (_, []) =>
            if decide (rawValue = "") then join_lines lines
            else join_lines (before ++ h :: entry_line key rawValue :: after)
        end
    end.

(** The lines of a section, or of the top level. *)
Definition section_lines (lines : list string) (section : string) : list string :=
  if decide (section = "") then (split_at is_header lines).1
  else match split_at (starts section) lines with
       | (_, []) => []
       | (_, _ :: after) => (split_at is_header after).1
       end.
Definition line_value (line : string) : option string := (λ kv, TrimSpace kv.2) <$> cut "=" (TrimSpace line).
(** A matching line without the sign is passed over. *)
Fixpoint first_value (key : string) (l : list string) : string :=
  match l with
  | [] => ""
  | x :: l => if matchesTOMLKey x key then match line_value x with Some v => v | None => first_value key l end
              else first_value key l
  end.
Definition readSectionValue (content section key : string) : string :=
  first_value key (section_lines (Split LF content) section).

(** ** The keys *)
Inductive valueKind := kindString | kindInt | kindEnum | kindPath | kindIP.
Record configField := mkField { cf_section : string; cf_key : string; cf_kind : valueKind; cf_enum : list string }.
Definition domainConfigFields : list (string * configField) := [
  ("auth.type", mkField "auth" "type" kindString []);
  ("auth.credential_backend", mkField "auth" "credential_backend" kindPath []);
  ("auth.key_backend", mkField "auth" "key_backend" kindPath []);
  ("msgstore.type", mkField "msgstore" "type" kindString []);
  ("msgstore.base_path", mkField "msgstore" "base_path" kindPath []);
  ("dkim.selector", mkField "dkim" "selector" kindString []);
  ("dkim.private_key", mkField "dkim" "private_key" kindPath []);
  ("outbound.strategy", mkField "outbound" "strategy" kindEnum ["direct"; "smarthost"]);
  ("outbound.smarthost", mkField "outbound" "smarthost" kindString []);
  ("outbound.smarthost_user", mkField "outbound" "smarthost_user" kindString []);
  ("outbound.password_file", mkField "outbound" "password_file" kindPath []);
  ("limits.max_sends_per_hour", mkField "limits" "max_sends_per_hour" kindInt []);
  ("dns.hostname", mkField "dns" "hostname" kindString []);
  ("dns.public_ip", mkField "dns" "public_ip" kindIP []);
  ("max_message_size", mkField "" "max_message_size" kindInt []);
  ("recipient_rejection", mkField "" "recipient_rejection" kindEnum ["rcpt"; "data"]);
  ("encryption_mode", mkField "" "encryption_mode" kindEnum ["off"; "on"])].
Definition config_field (key : string) : option configField :=
  snd <$> (list_find (λ kv, kv.1 = key) domainConfigFields ≫= λ x, Some x.2).
Definition DomainConfigKeys : list string := merge_sort String.le domainConfigFields.*1.

Definition startsWithDotDot (p : string) : bool := HasPrefix p "../".
Definition validRelativeOrAbsPath (p : string) : bool :=
  negb (bool_decide (Clean p = "..")) && negb (startsWithDotDot (Clean p)).
Definition encodeConfigValue (f : configField) (value : string) : option string :=
  if decide (value = "") then Some ""
  else match cf_kind f with
       | kindInt => match Atoi value with
                    | Some n => if (n <? 0)%Z then None else Some (fmt_d n)
                    | None => None
                    end
       | kindEnum => if decide (value ∈ cf_enum f) then Some (QuoteString value) else None
       | kindPath => if validRelativeOrAbsPath value then Some (QuoteString value) else None
       | kindIP => match ParseIP value with Some _ => Some (QuoteString value) | None => None end
       | kindString => Some (QuoteString value)
       end.

(** ** The file *)
(** [writeFileAtomic]: the temporary file stays when the rename fails. *)
Definition writeFileAtomic (e : adminErr) (path data : string) : io adminErr unit :=
  let tmp := path +:+ ".tmp" in
  (open_trunc e tmp ;!
   on_error (write_all e tmp data ;! call_ e ;! call_ e) (os_remove tmp) ;!
   rename e tmp path)%io.
Section File.
Context `{Crypto, KeyringJson, UnicodeQuote, UnicodeCase, Toml, TomlConfig}.
Context (fresh_attr : gmap string string → string → attr) (root : bool) (p : Paths).
Definition configPath (domain : string) : string := Join [PConfig p; domain; "config.toml"].
Definition SetDomainConfig (domain key value : string) : pio unit := (
  domain_there p domain ;;!
  match config_field key with
  | None => pfail (EIO "unknown config key")
  | Some f =>
      match encodeConfigValue f value with
      | None => pfail (EIO "invalid value")
      | Some rawValue =>
          on_disk fresh_attr id (lockDomain p domain) ;;!
          do! content := read_as id (read_file (EIO "read config") (configPath domain)) in
          on_disk fresh_attr id (writeFileAtomic (EIO "write config") (configPath domain)
            (PatchSectionValue (default "" content) (cf_section f) (cf_key f) rawValue)) ;;!
          provisionDomainConfigTree fresh_attr root p domain
      end
  end)%pio.
Definition GetDomainConfigValue (domain key : string) : pio string := (
  domain_there p domain ;;!
  match config_field key with
  | None => pfail (EIO "unknown config key")
  | Some f =>
      do! content := read_as id (read_file (EIO "read config") (configPath domain)) in
      pret (match content with
            | None => ""
            | Some text => readSectionValue text (cf_section f) (cf_key f)
            end)
  end)%pio.
End File.
