(* ===== verification/ConfigFacts.v ===== *)
(** * Setting one key changes one key

    Properties of [ConfigEdit]: after a key of a domain's configuration is set,
    reading it gives the value that was set, and reading any other key gives
    what it gave before. *)
From S2P Require Import Prelude GoStrings NetIP FilePath UidList Forwards Disk Identity Passwd Keyring Domain Admin Provision.
From S2P Require Import ProvisionFacts ConfigEdit.
From Stdlib Require Import ZArith Lia Ascii.
Open Scope string_scope.
Open Scope list_scope.

(** ** Splitting lists of lines *)
Section SplitAt.
Context (f : string → bool).
Notation none := (Forall (λ x, f x = false)).
Definition bounded (b : list string) : Prop := b = [] ∨ ∃ x b', b = x :: b' ∧ f x = true.
Lemma split_at_spec l : let '(a, b) := split_at f l in l = a ++ b ∧ none a ∧ bounded b.
Proof.
  induction l as [|x l IH]; cbn; [split_and!; [done|constructor|by left]|].
  destruct (f x) eqn:Ex; [split_and!; [done|constructor|right; eauto]|].
  destruct (split_at f l) as [a b]. destruct IH as (-> & Ha & Hb). split_and!; [done|by constructor|done].
Qed.
Lemma split_at_app a b : none a → bounded b → split_at f (a ++ b) = (a, b).
Proof.
  intros Ha Hb. induction Ha as [|x a Hx _ IH]; cbn.
  - destruct Hb as [->|(x & b' & -> & Hx)]; cbn; [done|by rewrite Hx].
  - by rewrite Hx, IH.
Qed.
Lemma split_at_none a l : none a → split_at f (a ++ l) = (a ++ (split_at f l).1, (split_at f l).2).
Proof. intros Ha. induction Ha as [|x a Hx _ IH]; cbn; [by destruct (split_at f l)|]. by rewrite Hx, IH. Qed.
(** What follows a line that is found does not matter. *)
Lemma split_at_stop a x y : f x = true → (split_at f (a ++ x :: y)).1 = (split_at f (a ++ [x])).1.
Proof.
  intros Hx. induction a as [|z a IH]; cbn; [by rewrite Hx|]. destruct (f z); [done|].
  destruct (split_at f (a ++ x :: y)), (split_at f (a ++ [x])). cbn in *. by rewrite IH.
Qed.
Lemma split_at_found a x b y : split_at f a = (b, x :: y) → ∀ z, split_at f (a ++ z) = (b, x :: y ++ z).
Proof.
  revert b. induction a as [|u a IH]; intros b E z; cbn in *; [done|]. destruct (f u); [by simplify_eq|].
  destruct (split_at f a) as [c d]. simplify_eq. by rewrite (IH c eq_refl z).
Qed.
End SplitAt.

(** ** Sections *)
Lemma starts_header s line : starts s line = true → is_header line = true.
Proof. unfold starts, is_header. intros ->%bool_decide_eq_true. unfold isTOMLSectionHeader, HasPrefix. cbn. by destruct (s +:+ "]"). Qed.
Lemma bracket_inj s s' : "[" +:+ s +:+ "]" = "[" +:+ s' +:+ "]" → s = s'.
Proof.
  intros E%(f_equal (λ t, TrimSuffix (TrimPrefix t "[") "]")).
  assert (∀ u, TrimPrefix ("[" +:+ u +:+ "]") "[" = u +:+ "]") as Hp.
  { intros u. unfold TrimPrefix. rewrite HasPrefix_self. apply (sdrop_app "["). }
  rewrite !Hp, !TrimSuffix_app in E. done.
Qed.
Lemma starts_other s s' line : starts s line = true → s' ≠ s → starts s' line = false.
Proof.
  unfold starts. intros ->%bool_decide_eq_true Hne. apply bool_decide_eq_false. intros E%bracket_inj. congruence.
Qed.
Notation plain_lines := (Forall (λ x, is_header x = false)).
Lemma plain_starts s l : plain_lines l → Forall (λ x, starts s x = false) l.
Proof.
  intros Hl. eapply Forall_impl; [exact Hl|]. intros x Hx. cbn in Hx. destruct (starts s x) eqn:E; [|done].
  apply starts_header in E. congruence.
Qed.
(** Lines that are no headers may change between a header and the next. *)
Lemma section_edit s before h body body' rest :
  s ≠ "" → Forall (λ x, starts s x = false) before → starts s h = true →
  plain_lines body → plain_lines body' → bounded is_header rest →
  section_lines (before ++ h :: body' ++ rest) s = body' ∧
  ∀ s', s' ≠ s → section_lines (before ++ h :: body' ++ rest) s' = section_lines (before ++ h :: body ++ rest) s'.
Proof.
  intros Hs Hb Hh Hp Hp' Hr. unfold section_lines. split.
  - rewrite decide_False by done. rewrite split_at_app; [|done|right; eauto]. by rewrite split_at_app.
  - intros s' Hne. pose proof (starts_header _ _ Hh) as Hhd. destruct (decide (s' = "")) as [->|Hs'].
    { by rewrite (split_at_stop is_header before h (body' ++ rest)), (split_at_stop is_header before h (body ++ rest)). }
    pose proof (split_at_spec (starts s') before) as Hsp.
    destruct (split_at (starts s') before) as [b1 [|h' b2]] eqn:E; destruct Hsp as (Hbe & Hb1 & _).
    + rewrite app_nil_r in Hbe. subst b1.
      assert (∀ x, plain_lines x → split_at (starts s') (before ++ h :: x ++ rest) =
        (before ++ h :: x ++ (split_at (starts s') rest).1, (split_at (starts s') rest).2)) as Heq.
      { intros x Hx. replace (before ++ h :: x ++ rest) with ((before ++ h :: x) ++ rest) by (by rewrite <- app_assoc).
        rewrite split_at_none; [by rewrite <- app_assoc|]. apply Forall_app. split; [done|].
        constructor; [by eapply starts_other|by apply plain_starts]. }
      rewrite !Heq by done. by destruct (split_at (starts s') rest) as [r1 [|h2 r2]].
    + rewrite !(split_at_found _ _ _ _ _ E). cbn.
      by rewrite (split_at_stop is_header b2 h (body' ++ rest)), (split_at_stop is_header b2 h (body ++ rest)).
Qed.
(** The same above the first header. *)
Lemma top_edit top top' rest :
  plain_lines top → plain_lines top' → bounded is_header rest →
  section_lines (top' ++ rest) "" = top' ∧
  ∀ s', s' ≠ "" → section_lines (top' ++ rest) s' = section_lines (top ++ rest) s'.
Proof.
  intros Ht Ht' Hr. unfold section_lines. split; [by rewrite decide_True, split_at_app|].
  intros s' Hs'. rewrite !decide_False by done.
  rewrite !split_at_none by (by apply plain_starts). by destruct (split_at (starts s') rest) as [r1 [|h2 r2]].
Qed.

(** ** Text that trimming leaves alone *)
Fixpoint high (n : nat) (s : string) : Prop :=
  match n, s with
  | O, _ => True
  | S n, String c s => plain_byte c = false ∧ high n s
  | S _, "" => False
  end.
Lemma high_byte c n : (128 ≤ n)%nat → nat_of_ascii c = n → plain_byte c = false.
Proof. intros Hn E. unfold plain_byte. rewrite E. apply andb_false_iff. right. apply Nat.ltb_ge. lia. Qed.
Lemma space_len_high a s k : space_len (String a s) = S k → high k s.
Proof.
  unfold space_len. match goal with |- context [if ?b then 1%nat else _] => destruct b; [by intros [= <-]|] end.
  destruct s as [|b s]; [done|]. match goal with |- context [if ?b then 2%nat else _] => destruct b eqn:E1 end.
  - intros [= <-]. apply andb_true_iff in E1 as [_ E1]. split; [|done].
    apply orb_true_iff in E1 as [E%Nat.eqb_eq|E%Nat.eqb_eq]; (eapply high_byte; [|exact E]; lia).
  - destruct s as [|c s]; [done|]. match goal with |- context [if ?b then 3%nat else 0%nat] => destruct b eqn:E2; [|done] end.
    intros [= <-]. cbn.
    rewrite !orb_true_iff, !andb_true_iff, !orb_true_iff, !andb_true_iff, !Nat.eqb_eq, !Nat.leb_le in E2.
    split_and!; [..|done]; unfold plain_byte; apply andb_false_iff; right; apply Nat.ltb_ge; lia.
Qed.
Lemma trim_left_plain_end n y d : plain_byte d = true → high n (y +:+ String d "") → trim_left_aux n (y +:+ String d "") ≠ "".
Proof.
  intros Hd. revert n. induction y as [|a y IH]; intros n Hh.
  - change ("" +:+ String d "") with (String d "") in *. destruct n as [|n]; [|cbn in Hh; destruct Hh; congruence].
    cbn [trim_left_aux]. by rewrite space_len_plain.
  - change (String a y +:+ String d "") with (String a (y +:+ String d "")) in *. destruct n as [|n].
    + cbn [trim_left_aux]. destruct (space_len _) as [|k] eqn:Es; [done|]. apply IH. by eapply space_len_high.
    + destruct Hh as [_ Hh]. cbn [trim_left_aux]. by apply IH.
Qed.
Lemma trim_right_plain_end y d : plain_byte d = true → trim_right (y +:+ String d "") = y +:+ String d "".
Proof.
  intros Hd. assert (∀ z, all_space (z +:+ String d "") = false) as Ha.
  { intros z. unfold all_space. apply bool_decide_eq_false. by apply trim_left_plain_end. }
  induction y as [|a y IH].
  - change ("" +:+ String d "") with (String d ""). apply trim_right_plain. cbn. by rewrite Hd.
  - change (String a y +:+ String d "") with (String a (y +:+ String d "")). cbn [trim_right].
    change (String a (y +:+ String d "")) with (String a y +:+ String d ""). rewrite Ha.
    change (String a y +:+ String d "") with (String a (y +:+ String d "")). by rewrite IH.
Qed.
(** A text whose first and last byte are neither blank nor part of a blank. *)
Definition solid (v : string) : Prop :=
  (∃ c x, v = String c x ∧ plain_byte c = true) ∧ (∃ y d, v = y +:+ String d "" ∧ plain_byte d = true).
Lemma trim_left_solid c x : plain_byte c = true → trim_left (String c x) = String c x.
Proof. intros Hc. unfold trim_left. cbn [trim_left_aux]. by rewrite space_len_plain. Qed.
Lemma TrimSpace_solid v : solid v → TrimSpace v = v.
Proof.
  intros [(c & x & -> & Hc) (y & d & E & Hd)]. unfold TrimSpace. rewrite trim_left_solid by done. rewrite E.
  by apply trim_right_plain_end.
Qed.
Lemma TrimSpace_blank_solid v : solid v → TrimSpace (String SP v) = v.
Proof.
  intros Hv. transitivity (TrimSpace v); [|by apply TrimSpace_solid]. unfold TrimSpace. f_equal.
Qed.

(** ** Keys *)
Definition key_byte (c : ascii) : bool := is_lower c || is_digit c || Ascii.eqb c "_".
Definition simple (s : string) : Prop := s ≠ "" ∧ sforall key_byte s = true.
Lemma key_byte_facts c : key_byte c = true →
  plain_byte c = true ∧ c ≠ "#"%char ∧ c ≠ "["%char ∧ c ≠ "="%char ∧ c ≠ SP ∧ c ≠ byte_of 9.
Proof.
  destruct c as [[] [] [] [] [] [] [] []]; vm_compute; intros E;
    first [discriminate E|split_and!; (reflexivity || discriminate)].
Qed.
Definition assigns (rest : string) : Prop := HasPrefix (trim_blanks rest) "=" = true.
Lemma assigns_key c rest : key_byte c = true → ¬ assigns (String c rest).
Proof.
  intros (_ & _ & _ & He & Hs & Ht)%key_byte_facts. unfold assigns. cbn [trim_blanks].
  rewrite (proj2 (Ascii.eqb_neq _ _) Hs), (proj2 (Ascii.eqb_neq _ _) Ht). cbn [orb].
  unfold HasPrefix. cbn [String.prefix]. by destruct (ascii_dec "=" c) as [<-|].
Qed.
Lemma key_unique k k' rest rest' :
  sforall key_byte k = true → sforall key_byte k' = true → assigns rest → assigns rest' →
  k +:+ rest = k' +:+ rest' → k = k'.
Proof.
  revert k'. induction k as [|c k IH]; intros [|c' k'] Hk Hk' Ha Ha' E.
  - done.
  - change ("" +:+ rest) with rest in E. subst rest. cbn in Hk'. apply andb_true_iff in Hk' as [Hc _].
    by destruct (assigns_key c' (k' +:+ rest') Hc).
  - change ("" +:+ rest') with rest' in E. subst rest'. cbn in Hk. apply andb_true_iff in Hk as [Hc _].
    by destruct (assigns_key c (k +:+ rest) Hc).
  - cbn in Hk, Hk'. apply andb_true_iff in Hk as [_ Hk], Hk' as [_ Hk']. injection E as -> E. f_equal. by eapply IH.
Qed.
Lemma matches_spec line key : simple key →
  matchesTOMLKey line key = true ↔ ∃ rest, TrimSpace line = key +:+ rest ∧ assigns rest.
Proof.
  intros [Hne Hk]. unfold matchesTOMLKey. destruct key as [|c key]; [done|].
  pose proof Hk as Hk0. cbn in Hk. apply andb_true_iff in Hk as [Hc _].
  destruct (key_byte_facts c Hc) as (_ & Hhash & _). split.
  - destruct (HasPrefix (TrimSpace line) "#"); [done|]. unfold TrimPrefix.
    destruct (HasPrefix (TrimSpace line) (String c key)) eqn:Hp.
    + destruct (Nat.eqb _ _); [done|]. intros Ha. apply HasPrefix_Some in Hp. eauto.
    + by rewrite Nat.eqb_refl.
  - intros (rest & -> & Ha). unfold TrimPrefix. rewrite HasPrefix_self, sdrop_app, slen_app.
    assert (HasPrefix (String c key +:+ rest) "#" = false) as ->.
    { change (String c key +:+ rest) with (String c (key +:+ rest)). unfold HasPrefix. cbn [String.prefix].
      by destruct (ascii_dec "#" c) as [<-|]. }
    assert (Nat.eqb (String.length rest) (String.length (String c key) + String.length rest) = false) as ->; [|done].
    apply Nat.eqb_neq. cbn. lia.
Qed.
Lemma matches_one line k k' : simple k → simple k' → matchesTOMLKey line k = true → k' ≠ k → matchesTOMLKey line k' = false.
Proof.
  intros Hk Hk' (rest & E & Ha)%matches_spec Hne; [|done]. destruct (matchesTOMLKey line k') eqn:Em; [|done].
  apply matches_spec in Em as (rest' & E' & Ha'); [|done]. rewrite E in E'.
  destruct Hk as [_ Hk], Hk' as [_ Hk']. by apply key_unique in E'.
Qed.

(** ** The line that is written *)
Section Entry.
Context (k v : string) (Hk : simple k) (Hv : solid v).
Lemma entry_solid : solid (entry_line k v).
Proof.
  destruct Hk as [Hne Hall], Hv as [_ (y & d & Ey & Hd)]. unfold entry_line. split.
  - destruct k as [|c k']; [done|]. cbn in Hall. apply andb_true_iff in Hall as [Hc _].
    exists c, (k' +:+ " = " +:+ v). split; [done|]. by apply key_byte_facts.
  - exists (k +:+ " = " +:+ y), d. split; [|done]. rewrite Ey. by rewrite <- !sapp_assoc.
Qed.
Lemma entry_plain : is_header (entry_line k v) = false.
Proof.
  unfold is_header. rewrite TrimSpace_solid by apply entry_solid. destruct Hk as [Hne Hall]. unfold entry_line.
  destruct k as [|c k']; [done|]. cbn in Hall. apply andb_true_iff in Hall as [Hc _].
  destruct (key_byte_facts c Hc) as (_ & _ & Hb & _). unfold isTOMLSectionHeader.
  change (String c k' +:+ " = " +:+ v) with (String c (k' +:+ " = " +:+ v)).
  assert (HasPrefix (String c (k' +:+ " = " +:+ v)) "[" = false) as ->; [|by rewrite andb_comm].
  unfold HasPrefix. cbn [String.prefix]. by destruct (ascii_dec "[" c) as [<-|].
Qed.
Lemma entry_matches k' : simple k' → matchesTOMLKey (entry_line k v) k' = bool_decide (k' = k).
Proof.
  intros Hk'. assert (matchesTOMLKey (entry_line k v) k = true) as Hm.
  { apply matches_spec; [done|]. rewrite TrimSpace_solid by apply entry_solid. by exists (" = " +:+ v). }
  case_bool_decide as E; [by subst|by apply (matches_one _ k k')].
Qed.
Lemma entry_value : line_value (entry_line k v) = Some v.
Proof.
  unfold line_value. rewrite TrimSpace_solid by apply entry_solid. unfold entry_line.
  replace (k +:+ " = " +:+ v) with ((k +:+ " ") +:+ String "="%char (String SP v)) by (by rewrite <- sapp_assoc).
  rewrite cut_app; [change (Some (TrimSpace (String SP v)) = Some v); by rewrite TrimSpace_blank_solid|]. apply no_byte_app. split; [|done].
  destruct Hk as [_ Hall]. eapply sforall_no_byte, Hall. done.
Qed.
End Entry.

(** ** The values in a list of lines *)
Definition value_of (k line : string) : option string := if matchesTOMLKey line k then line_value line else None.
Definition vals (k : string) (l : list string) : list string := omap (value_of k) l.
Lemma first_value_vals k l : first_value k l = default "" (head (vals k l)).
Proof.
  induction l as [|x l IH]; [done|]. cbn. unfold value_of at 1. destruct (matchesTOMLKey x k); [|done].
  by destruct (line_value x).
Qed.
Lemma vals_app k a b : vals k (a ++ b) = vals k a ++ vals k b.
Proof. unfold vals. by rewrite omap_app. Qed.
Lemma vals_none k a : Forall (λ x, matchesTOMLKey x k = false) a → vals k a = [].
Proof. induction 1 as [|x a Hx _ IH]; [done|]. cbn. unfold value_of at 1. rewrite Hx. exact IH. Qed.
Lemma vals_entry k v k' : simple k → solid v → simple k' → vals k' [entry_line k v] = if decide (k' = k) then [v] else [].
Proof.
  intros Hk Hv Hk'. cbn. unfold value_of. rewrite entry_matches by done. destruct (decide (k' = k)) as [->|Hne].
  - rewrite bool_decide_true by done. by rewrite entry_value.
  - by rewrite bool_decide_false.
Qed.
Lemma vals_other k x k' : simple k → simple k' → matchesTOMLKey x k = true → k' ≠ k → vals k' [x] = [].
Proof. intros. apply vals_none. constructor; [|constructor]. by apply (matches_one x k k'). Qed.
Lemma blank_matches k x : simple k → TrimSpace x = "" → matchesTOMLKey x k = false.
Proof.
  intros Hk E. destruct (matchesTOMLKey x k) eqn:Em; [|done]. apply matches_spec in Em as (rest & Er & _); [|done].
  rewrite E in Er. destruct Hk as [Hne _]. by destruct k.
Qed.

(** A key set in the lines of a section: replaced, put in front, or taken out. *)
Definition set_in_lines (k v : string) (l l' : list string) : Prop :=
  ∀ k', simple k' → head (vals k' l') = if decide (k' = k) then Some v else head (vals k' l).
Lemma set_replace k v a x b :
  simple k → solid v → Forall (λ x, matchesTOMLKey x k = false) a → matchesTOMLKey x k = true →
  set_in_lines k v (a ++ x :: b) (a ++ entry_line k v :: b).
Proof.
  intros Hk Hv Ha Hx k' Hk'. rewrite (cons_middle x a b), (cons_middle (entry_line k v) a b), !vals_app.
  rewrite (vals_entry k v k' Hk Hv Hk'). destruct (decide (k' = k)) as [->|Hne].
  - by rewrite vals_none.
  - by rewrite (vals_other k x k').
Qed.
Lemma set_insert k v a b :
  simple k → solid v → Forall (λ x, matchesTOMLKey x k = false) a →
  set_in_lines k v (a ++ b) (a ++ entry_line k v :: b).
Proof.
  intros Hk Hv Ha k' Hk'. rewrite (cons_middle (entry_line k v) a b), !vals_app, (vals_entry k v k' Hk Hv Hk').
  destruct (decide (k' = k)) as [->|Hne]; [by rewrite vals_none|done].
Qed.

(** ** Lines and text *)
Lemma Split_LF_app s t : Split LF (s +:+ String LF t) = Split LF s ++ Split LF t.
Proof.
  induction s as [|d s IH].
  - change ("" +:+ String LF t) with (String LF t). cbn [Split]. by rewrite Ascii.eqb_refl.
  - change (String d s +:+ String LF t) with (String d (s +:+ String LF t)). cbn [Split].
    rewrite IH. destruct (Ascii.eqb d LF); [done|].
    destruct (Split LF s) as [|x xs] eqn:E; [by destruct (Split_nonempty LF s)|done].
Qed.
Lemma Split_join_lines l : l ≠ [] → Forall (no_byte LF) l → Split LF (join_lines l) = l.
Proof.
  intros Hne Hl. induction Hl as [|x l Hx Hl IH]; [done|]. destruct l as [|y l]; [by apply Split_no_byte|].
  unfold join_lines in *. rewrite sjoin_cons. change (x +:+ newline +:+ ?t) with (x +:+ String LF t).
  rewrite Split_app by done. by rewrite IH.
Qed.
Fixpoint newlines (n : nat) : string := match n with O => "" | S n => String LF (newlines n) end.
Lemma Split_newlines n s : Split LF (s +:+ newlines n) = Split LF s ++ replicate n "".
Proof.
  revert s. induction n as [|n IH]; intros s; cbn [newlines replicate]; [by rewrite sapp_nil_r, app_nil_r|].
  rewrite Split_LF_app. f_equal. exact (IH "").
Qed.
Lemma trim_right_lf_spec s : ∃ n, s = trim_right_lf s +:+ newlines n.
Proof.
  induction s as [|c s [n IH]]; [by exists 0%nat|]. cbn [trim_right_lf].
  destruct (trim_right_lf s) as [|d t] eqn:E.
  - destruct (Ascii.eqb_spec c LF) as [->|Hc].
    + exists (S n). cbn. by rewrite IH at 1.
    + exists n. rewrite IH at 1. done.
  - exists n. rewrite IH at 1. done.
Qed.
Lemma lines_trimmed content : ∃ n, Split LF content = Split LF (trim_right_lf (join_lines (Split LF content))) ++ replicate n "".
Proof.
  assert (join_lines (Split LF content) = content) as ->.
  { induction content as [|c s IH]; [done|]. cbn [Split].
    destruct (Split LF s) as [|w ws] eqn:E; [by destruct (Split_nonempty LF s)|].
    destruct (Ascii.eqb_spec c LF) as [->|Hc].
    - unfold join_lines in *. rewrite sjoin_cons, IH. done.
    - unfold join_lines in *. destruct ws as [|w' ws]; [cbn in *; by rewrite IH|].
      rewrite sjoin_cons in *. rewrite <- IH. done. }
  destruct (trim_right_lf_spec content) as [n E]. exists n. rewrite E at 1. by rewrite Split_newlines.
Qed.
Lemma blank_end l : ∃ bl, l = drop_blank_end l ++ bl ∧ Forall (λ x, TrimSpace x = "") bl.
Proof.
  unfold drop_blank_end. pose proof (split_at_spec (λ x, negb (bool_decide (TrimSpace x = ""))) (reverse l)) as Hs.
  destruct (split_at _ (reverse l)) as [a b]. destruct Hs as (E & Ha & _). exists (reverse a). cbn [snd]. split.
  - rewrite <- reverse_app, <- E. by rewrite reverse_involutive.
  - apply Forall_reverse. eapply Forall_impl; [exact Ha|]. intros x Hx. cbn in Hx.
    apply negb_false_iff, bool_decide_eq_true in Hx. done.
Qed.
Lemma vals_blank k bl : simple k → Forall (λ x, TrimSpace x = "") bl → vals k bl = [].
Proof. intros Hk Hb. apply vals_none. eapply Forall_impl; [exact Hb|]. intros x Hx. by apply blank_matches. Qed.
Lemma vals_empty k n : simple k → vals k (replicate n "") = [].
Proof. intros Hk. apply vals_blank; [done|]. by apply Forall_replicate. Qed.

Lemma vals_blank_line k : simple k → vals k [""] = [].
Proof. exact (vals_empty k 1). Qed.

(** ** What an edit makes of every key *)
(** Within the lines of one section. *)
Definition lines_edit (k v : string) (l l' : list string) : Prop :=
  (v ≠ "" → head (vals k l') = Some v) ∧ ∀ k', simple k' → k' ≠ k → head (vals k' l') = head (vals k' l).
Lemma set_edit k v l l' : simple k → set_in_lines k v l l' → lines_edit k v l l'.
Proof.
  intros Hk Hs. split.
  - intros _. rewrite (Hs k Hk). by rewrite decide_True.
  - intros k' Hk' Hne. rewrite (Hs k' Hk'). by rewrite decide_False.
Qed.
Lemma remove_edit k a x b : simple k → matchesTOMLKey x k = true → lines_edit k "" (a ++ x :: b) (a ++ b).
Proof.
  intros Hk Hx. split; [done|]. intros k' Hk' Hne. rewrite (cons_middle x a b), !vals_app. by rewrite (vals_other k x k').
Qed.
(** Within the whole text. *)
Definition reads_as (old new : list string) (s k v : string) : Prop :=
  (v ≠ "" → head (vals k (section_lines new s)) = Some v) ∧
  ∀ s' k', simple k' → s' ≠ s ∨ k' ≠ k →
    head (vals k' (section_lines new s')) = head (vals k' (section_lines old s')).
Lemma same_reads l s k : reads_as l l s k "".
Proof. by split. Qed.
Lemma section_reads s k v before h body body' rest :
  s ≠ "" → Forall (λ x, starts s x = false) before → starts s h = true →
  plain_lines body → plain_lines body' → bounded is_header rest → lines_edit k v body body' →
  reads_as (before ++ h :: body ++ rest) (before ++ h :: body' ++ rest) s k v.
Proof.
  intros Hs Hb Hh Hp Hp' Hr [He1 He2].
  destruct (section_edit s before h body body' rest Hs Hb Hh Hp Hp' Hr) as [E1 E2].
  destruct (section_edit s before h body body rest Hs Hb Hh Hp Hp Hr) as [E3 _]. split.
  - intros Hv. rewrite E1. auto.
  - intros s' k' Hk' Hne. destruct (decide (s' = s)) as [->|]; [|by rewrite E2].
    rewrite E1, E3. apply He2; [done|naive_solver].
Qed.
Lemma top_reads k v top top' rest :
  plain_lines top → plain_lines top' → bounded is_header rest → lines_edit k v top top' →
  reads_as (top ++ rest) (top' ++ rest) "" k v.
Proof.
  intros Hp Hp' Hr [He1 He2]. destruct (top_edit top top' rest Hp Hp' Hr) as [E1 E2].
  destruct (top_edit top top rest Hp Hp Hr) as [E3 _]. split.
  - intros Hv. rewrite E1. auto.
  - intros s' k' Hk' Hne. destruct (decide (s' = "")) as [->|]; [|by rewrite E2].
    rewrite E1, E3. apply He2; [done|naive_solver].
Qed.
(** A section added behind a text whose last lines are empty. *)
Lemma header_line s : simple s → starts s ("[" +:+ s +:+ "]") = true.
Proof.
  intros _. unfold starts. apply bool_decide_eq_true. apply TrimSpace_solid. split.
  - by exists "["%char, (s +:+ "]").
  - exists ("[" +:+ s), "]"%char. split; [|done]. by rewrite <- sapp_assoc.
Qed.
Lemma tail_same k H tl b n :
  simple k → is_header H = true →
  head (vals k (split_at is_header (b ++ "" :: H :: tl)).1) = head (vals k (split_at is_header (b ++ replicate n "")).1).
Proof.
  intros Hk HH. pose proof (split_at_spec is_header b) as Hs. destruct (split_at is_header b) as [c1 [|h c2]] eqn:E.
  - destruct Hs as (-> & Hc & _). rewrite app_nil_r.
    change (c1 ++ "" :: H :: tl) with (c1 ++ [""] ++ H :: tl). rewrite (app_assoc c1 [""]).
    rewrite split_at_app; [|by apply Forall_app; split; [|repeat constructor]|right; eauto].
    assert (split_at is_header (c1 ++ replicate n "") = (c1 ++ replicate n "", [])) as ->.
    { rewrite <- (app_nil_r (c1 ++ replicate n "")) at 1. apply split_at_app; [|by left].
      apply Forall_app. split; [done|]. by apply Forall_replicate. }
    cbn [fst]. by rewrite !vals_app, (vals_empty k n), vals_blank_line.
  - rewrite !(split_at_found _ _ _ _ _ E). done.
Qed.
Lemma append_reads s k v T n :
  simple s → simple k → solid v → Forall (λ x, starts s x = false) T →
  reads_as (T ++ replicate n "") (T ++ [""; "[" +:+ s +:+ "]"; entry_line k v; ""]) s k v.
Proof.
  intros Hs Hk Hv HT. pose proof (header_line s Hs) as Hst. pose proof (starts_header _ _ Hst) as Hhd.
  assert (s ≠ "") as Hs0 by apply Hs. pose proof (entry_plain k v Hk Hv) as Hep.
  assert (section_lines (T ++ [""; "[" +:+ s +:+ "]"; entry_line k v; ""]) s = [entry_line k v; ""]) as Esec.
  { unfold section_lines. rewrite decide_False by done. change [""; "[" +:+ s +:+ "]"; entry_line k v; ""] with ([""] ++ ("[" +:+ s +:+ "]") :: [entry_line k v; ""]).
    rewrite (app_assoc T [""]), split_at_app; [|by apply Forall_app; split; [|repeat constructor]|right; eauto].
    rewrite <- (app_nil_r [entry_line k v; ""]), split_at_app; [done|by repeat constructor|by left]. }
  assert (∀ x, Forall (λ x, starts x "" = false) [x]) as Hblank by (intros x; by repeat constructor).
  split.
  - intros _. rewrite Esec. change [entry_line k v; ""] with ([entry_line k v] ++ [""]).
    by rewrite vals_app, vals_entry, decide_True.
  - intros s' k' Hk' Hne. destruct (decide (s' = s)) as [->|Hs'].
    + rewrite Esec. change [entry_line k v; ""] with ([entry_line k v] ++ [""]).
      rewrite vals_app, vals_entry, decide_False by (done || naive_solver). rewrite vals_blank_line by done.
      unfold section_lines. rewrite decide_False by done. rewrite split_at_none by done.
      assert (split_at (starts s) (replicate n "") = (replicate n "", [])) as ->; [|done].
      rewrite <- (app_nil_r (replicate n "")) at 1. apply split_at_app; [by apply Forall_replicate|by left].
    + unfold section_lines. destruct (decide (s' = "")) as [->|Hs'']; [by apply tail_same|].
      destruct (split_at (starts s') T) as [b1 [|h b2]] eqn:E.
      * pose proof (split_at_spec (starts s') T) as Hsp. rewrite E in Hsp. destruct Hsp as (ET & Hb & _).
        rewrite app_nil_r in ET. subst b1.
        rewrite <- (app_nil_r (T ++ [""; _; _; _])), <- (app_nil_r (T ++ replicate n "")).
        rewrite !split_at_app; try (by left); [done|..]; apply Forall_app; (split; [done|]);
          [by apply Forall_replicate|].
        repeat constructor; [by eapply starts_other|].
        destruct (starts s' (entry_line k v)) eqn:Ee; [|done]. apply starts_header in Ee. congruence.
      * rewrite !(split_at_found _ _ _ _ _ E). by apply tail_same.
Qed.

(** ** Every case of an edit *)
Definition value_ok (v : string) : Prop := v = "" ∨ (solid v ∧ no_byte LF v).
Lemma entry_no_LF k v : simple k → no_byte LF v → no_byte LF (entry_line k v).
Proof.
  intros [_ Hk] Hv. unfold entry_line. rewrite !no_byte_app. split_and!; [|done|done].
  eapply sforall_no_byte, Hk. done.
Qed.
(** The text of a list of lines has these lines; no line and one empty line are
    the same text and read alike. *)
Lemma reads_text old l s k v :
  Forall (no_byte LF) l → reads_as old l s k v → reads_as old (Split LF (join_lines l)) s k v.
Proof.
  intros Hl Hr. destruct l as [|x l]; [|by rewrite Split_join_lines].
  assert (∀ k' s', simple k' → vals k' (section_lines [""] s') = vals k' (section_lines [] s')) as Hs.
  { intros k' s' Hk'. unfold section_lines. destruct (decide (s' = "")); [|done]. by apply vals_blank_line. }
  destruct Hr as [H1 H2]. split.
  - intros Hv. specialize (H1 Hv). unfold section_lines in H1. by destruct (decide (s = "")).
  - intros s' k' Hk' Hne. change (Split LF (join_lines [])) with [""]. rewrite Hs by done. auto.
Qed.
Lemma bounded_head f x l : bounded f (x :: l) → f x = true.
Proof. by intros [|(? & ? & [= <- <-] & ?)]. Qed.
(** The line of the key replaced or taken out. *)
Definition edited (k v : string) (a b : list string) : list string :=
  if decide (v = "") then a ++ b else a ++ entry_line k v :: b.
Section Edited.
Context (k v : string) (a : list string) (x : string) (b : list string).
Context (Hk : simple k) (Hv : value_ok v) (Ha : Forall (λ l, matchesTOMLKey l k = false) a) (Hx : matchesTOMLKey x k = true).
Lemma edited_edit : lines_edit k v (a ++ x :: b) (edited k v a b).
Proof.
  unfold edited. destruct (decide (v = "")) as [->|Hv0]; [by apply remove_edit|].
  destruct Hv as [|[Hs _]]; [done|]. apply set_edit; [done|]. by apply set_replace.
Qed.
Lemma edited_lines P : Forall P (a ++ x :: b) → (solid v → no_byte LF v → P (entry_line k v)) → Forall P (edited k v a b).
Proof.
  intros [Pa [_ Pb]%Forall_cons]%Forall_app Pe. unfold edited.
  destruct (decide (v = "")) as [->|Hv0]; [by apply Forall_app|]. destruct Hv as [|[Hs Hl]]; [done|].
  apply Forall_app. split; [done|]. constructor; [by apply Pe|done].
Qed.
End Edited.
Section Cases.
Context (content k v : string) (Hk : simple k) (Hv : value_ok v).
Notation lines := (Split LF content).
Lemma lines_no_LF a b : lines = a ++ b → Forall (no_byte LF) a ∧ Forall (no_byte LF) b.
Proof. intros E. pose proof (Split_elem_no_byte LF content) as Hl. rewrite E in Hl. by apply Forall_app in Hl. Qed.
Lemma patch_section_found s before h after :
  s ≠ "" → split_at (starts s) lines = (before, h :: after) →
  reads_as lines (Split LF (PatchSectionValue content s k v)) s k v.
Proof.
  intros Hs E. unfold PatchSectionValue. rewrite decide_False by done. rewrite E.
  pose proof (split_at_spec (starts s) lines) as Hsp. rewrite E in Hsp.
  destruct Hsp as (El & Hb & Hh%bounded_head).
  pose proof (split_at_spec is_header after) as Hr. destruct (split_at is_header after) as [body rest].
  destruct Hr as (-> & Hbody & Hrest).
  pose proof (split_at_spec (λ l, matchesTOMLKey l k) body) as Hm.
  destruct (split_at (λ l, matchesTOMLKey l k) body) as [a [|x b]]; destruct Hm as (Eb & Ha & Hx);
    destruct (lines_no_LF _ _ El) as [Lb [Lh [Lbody Lr]%Forall_app]%Forall_cons].
  - rewrite app_nil_r in Eb. subst a. destruct (decide (v = "")) as [->|Hv0].
    { apply reads_text; [apply Split_elem_no_byte|apply same_reads]. }
    destruct Hv as [|[Hsv HvL]]; [done|]. apply reads_text.
    { apply Forall_app. split; [done|]. constructor; [done|]. constructor; [by apply entry_no_LF|by apply Forall_app]. }
    rewrite El. apply (section_reads s k v before h body (entry_line k v :: body) rest); try done.
    + constructor; [by apply entry_plain|done].
    + apply set_edit; [done|]. by apply (set_insert k v [] body).
  - apply bounded_head in Hx.
    assert ((if decide (v = "") then join_lines (before ++ h :: a ++ b ++ rest)
             else join_lines (before ++ h :: a ++ entry_line k v :: b ++ rest)) =
            join_lines (before ++ h :: edited k v a b ++ rest)) as ->.
    { unfold edited. destruct (decide (v = "")); by rewrite <- app_assoc. }
    subst body. apply reads_text.
    { apply Forall_app. split; [done|]. constructor; [done|]. apply Forall_app. split; [|done].
      apply (edited_lines k v a x b); [done|done|]. intros. by apply entry_no_LF. }
    rewrite El. apply section_reads; try done; [|by apply edited_edit].
    apply (edited_lines k v a x b); [done|done|]. intros. by apply entry_plain.
Qed.
Lemma patch_section_missing s before :
  simple s → split_at (starts s) lines = (before, []) →
  reads_as lines (Split LF (PatchSectionValue content s k v)) s k v.
Proof.
  intros Hs E. assert (s ≠ "") as Hs0 by apply Hs. unfold PatchSectionValue. rewrite decide_False by done. rewrite E.
  destruct (decide (v = "")) as [->|Hv0]; [apply same_reads|]. destruct Hv as [|[Hsv HvL]]; [done|].
  pose proof (split_at_spec (starts s) lines) as Hsp. rewrite E, app_nil_r in Hsp. destruct Hsp as (<- & Hb & _).
  destruct (lines_trimmed content) as [n Hn]. rewrite Hn at 1. rewrite Hn in Hb. apply Forall_app in Hb as [Hb _].
  set (T := trim_right_lf (join_lines lines)) in *.
  change (T +:+ newline +:+ newline +:+ ?t) with (T +:+ String LF (String LF t)).
  rewrite Split_LF_app.
  replace (Split LF (String LF ("[" +:+ s +:+ "]" +:+ newline +:+ entry_line k v +:+ newline)))
    with [""; "[" +:+ s +:+ "]"; entry_line k v; ""]; [by apply append_reads|].
  replace ("[" +:+ s +:+ "]" +:+ newline +:+ entry_line k v +:+ newline)
    with (("[" +:+ s +:+ "]") +:+ String LF (entry_line k v +:+ newline)) by (by rewrite <- !sapp_assoc).
  assert (∀ t, Split LF (String LF t) = "" :: Split LF t) as -> by (intros t; exact (Split_LF_app "" t)).
  rewrite Split_LF_app. change (entry_line k v +:+ newline) with (entry_line k v +:+ String LF ""). rewrite Split_LF_app.
  rewrite (Split_no_byte LF (entry_line k v)) by (by apply entry_no_LF).
  rewrite (Split_no_byte LF ("[" +:+ s +:+ "]")); [done|]. rewrite !no_byte_app. split_and!; [done| |done].
  destruct Hs as [_ Hs]. eapply sforall_no_byte, Hs. done.
Qed.
(** Put behind lines that may end in blank ones. *)
Lemma append_edit U bl :
  solid v → Forall (λ x, TrimSpace x = "") bl → Forall (λ x, matchesTOMLKey x k = false) (U ++ bl) →
  lines_edit k v (U ++ bl) (U ++ [entry_line k v; ""]).
Proof.
  intros Hsv Hbl [HU _]%Forall_app. apply set_edit; [done|]. intros k' Hk'.
  rewrite (cons_middle (entry_line k v) U [""]), !vals_app, (vals_entry k v k') by done.
  rewrite (vals_blank k' bl), vals_blank_line by done. destruct (decide (k' = k)) as [->|]; [by rewrite vals_none|done].
Qed.
Lemma append_reads_top U bl rest :
  solid v → plain_lines (U ++ bl) → bounded is_header rest →
  Forall (λ x, TrimSpace x = "") bl → Forall (λ x, matchesTOMLKey x k = false) (U ++ bl) →
  reads_as ((U ++ bl) ++ rest) ((U ++ [entry_line k v; ""]) ++ rest) "" k v.
Proof.
  intros Hsv Hp Hr Hbl Hm. apply top_reads; [done| |done|by apply append_edit].
  apply Forall_app in Hp as [Hp _]. apply Forall_app. split; [done|]. repeat constructor. by apply entry_plain.
Qed.
Lemma patch_top_appended :
  solid v → no_byte LF v → plain_lines lines → Forall (λ x, matchesTOMLKey x k = false) lines →
  let joined := trim_right_lf (join_lines lines) in
  reads_as lines (Split LF (if decide (joined = "") then entry_line k v +:+ newline
                            else joined +:+ newline +:+ entry_line k v +:+ newline)) "" k v.
Proof.
  intros Hsv HvL Hp Hm joined. destruct (lines_trimmed content) as [n Hn]. fold joined in Hn.
  assert (Split LF (entry_line k v +:+ newline) = [entry_line k v; ""]) as Ee.
  { change (entry_line k v +:+ newline) with (entry_line k v +:+ String LF ""). rewrite Split_LF_app.
    by rewrite (Split_no_byte LF (entry_line k v)) by (by apply entry_no_LF). }
  assert (∀ m, Forall (λ x, TrimSpace x = "") (replicate m "")) as Hbl by (intros m; by apply Forall_replicate).
  destruct (decide (joined = "")) as [Ej|_].
  - rewrite Ee, Hn, Ej in *. pose proof (append_reads_top [] (replicate (S n) "") []) as Hr.
    rewrite !app_nil_r in Hr. apply Hr; try done. by left.
  - change (joined +:+ newline +:+ ?t) with (joined +:+ String LF t). rewrite Split_LF_app, Ee, Hn in *.
    pose proof (append_reads_top (Split LF joined) (replicate n "") []) as Hr.
    rewrite !app_nil_r in Hr. apply Hr; try done. by left.
Qed.
Lemma patch_top : reads_as lines (Split LF (patchTopLevel lines k v)) "" k v.
Proof.
  unfold patchTopLevel. pose proof (split_at_spec is_header lines) as Hs.
  destruct (split_at is_header lines) as [top rest]. destruct Hs as (El & Htop & Hrest).
  destruct (lines_no_LF _ _ El) as [Lt Lr]. pose proof (split_at_spec (λ l, matchesTOMLKey l k) top) as Hm.
  destruct (split_at (λ l, matchesTOMLKey l k) top) as [a [|x b]]; destruct Hm as (Et & Ha & Hx).
  - rewrite app_nil_r in Et. subst a. destruct (decide (v = "")) as [->|Hv0].
    { apply reads_text; [apply Split_elem_no_byte|apply same_reads]. }
    destruct Hv as [|[Hsv HvL]]; [done|]. destruct rest as [|h rest].
    { rewrite app_nil_r in El. rewrite <- El in *. by apply patch_top_appended. }
    destruct (blank_end top) as (bl & Ebl & Hbl). rewrite El. set (U := drop_blank_end top) in *.
    rewrite Ebl in Lt, Htop, Ha |- *. apply reads_text.
    { apply Forall_app in Lt as [LU _]. repeat (apply Forall_app; split); try done.
      repeat constructor. by apply entry_no_LF. }
    rewrite (app_assoc U [entry_line k v; ""]). by apply append_reads_top.
  - apply bounded_head in Hx.
    assert ((if decide (v = "") then join_lines (a ++ b ++ rest) else join_lines (a ++ entry_line k v :: b ++ rest)) =
            join_lines (edited k v a b ++ rest)) as ->.
    { unfold edited. destruct (decide (v = "")); by rewrite <- app_assoc. }
    subst top. apply reads_text.
    { apply Forall_app. split; [|done]. apply (edited_lines k v a x b); [done|done|]. intros. by apply entry_no_LF. }
    rewrite El. apply top_reads; try done; [|by apply edited_edit].
    apply (edited_lines k v a x b); [done|done|]. intros. by apply entry_plain.
Qed.
Lemma patch_reads s : s = "" ∨ simple s → reads_as lines (Split LF (PatchSectionValue content s k v)) s k v.
Proof.
  intros [->|Hs]; [exact patch_top|]. destruct (split_at (starts s) lines) as [before [|h after]] eqn:E.
  - by eapply patch_section_missing.
  - eapply patch_section_found; [apply Hs|exact E].
Qed.
End Cases.

(** ** The fields *)
Definition field_simple (f : configField) : bool :=
  (bool_decide (cf_section f = "") || sforall key_byte (cf_section f)) &&
  negb (bool_decide (cf_key f = "")) && sforall key_byte (cf_key f).
Lemma config_field_elem key f : config_field key = Some f → (key, f) ∈ domainConfigFields.
Proof.
  unfold config_field. destruct (list_find _ _) as [[i [k' f']]|] eqn:E; [|done]. cbn. intros [= <-].
  apply list_find_Some in E as (E & <- & _). by eapply list_elem_of_lookup_2.
Qed.
Lemma fields_simple key f : config_field key = Some f → (cf_section f = "" ∨ simple (cf_section f)) ∧ simple (cf_key f).
Proof.
  intros Hf%config_field_elem. assert (Forall (λ kf, field_simple kf.2 = true) domainConfigFields) as Ha by (apply (bool_decide_unpack _); vm_compute; exact I).
  rewrite Forall_forall in Ha. specialize (Ha _ Hf). cbn in Ha. unfold field_simple in Ha.
  apply andb_true_iff in Ha as [[Hs Hk]%andb_true_iff Hkb]. split.
  - apply orb_true_iff in Hs as [Hs%bool_decide_eq_true|Hs]; [by left|].
    destruct (decide (cf_section f = "")); [by left|right; by split].
  - split; [|done]. apply negb_true_iff, bool_decide_eq_false in Hk. done.
Qed.
(** No two keys are kept in the same place. *)
Lemma fields_apart key key' f f' :
  config_field key = Some f → config_field key' = Some f' → key' ≠ key → cf_section f' ≠ cf_section f ∨ cf_key f' ≠ cf_key f.
Proof.
  intros Hf%config_field_elem Hf'%config_field_elem Hne.
  assert (Forall (λ kf, Forall (λ kf', kf'.1 = kf.1 ∨ cf_section kf'.2 ≠ cf_section kf.2 ∨ cf_key kf'.2 ≠ cf_key kf.2)
    domainConfigFields) domainConfigFields) as Ha by (apply (bool_decide_unpack _); vm_compute; exact I).
  rewrite Forall_forall in Ha. specialize (Ha _ Hf). rewrite Forall_forall in Ha. specialize (Ha _ Hf'). cbn in Ha.
  by destruct Ha.
Qed.

(** ** The values *)
Lemma ReplaceAll_no_byte c s old new : no_byte c s → no_byte c new → no_byte c (ReplaceAll s old new).
Proof.
  intros Hs Hn. unfold ReplaceAll. generalize 0%nat. induction s as [|d s IH]; intros n; [done|].
  apply no_byte_cons in Hs as [Hd Hs]. cbn [replace_aux]. destruct n as [|n]; [|by apply IH].
  destruct (HasPrefix _ old); [rewrite no_byte_app|rewrite no_byte_cons]; (split; [done|by apply IH]).
Qed.
Lemma quoted_ok v : no_byte LF v → value_ok (QuoteString v).
Proof.
  intros Hv. right. unfold QuoteString. set (t := ReplaceAll _ _ _). assert (no_byte LF t) as Ht.
  { by do 2 (apply ReplaceAll_no_byte; [|done]). }
  split; [|rewrite !no_byte_app; by split_and!]. split.
  - by exists DQ, (t +:+ dquote).
  - exists (dquote +:+ t), DQ. by rewrite <- sapp_assoc.
Qed.
Lemma quoted_nonempty v : QuoteString v ≠ "".
Proof. done. Qed.
Lemma split_last s : s ≠ "" → ∃ y d, s = y +:+ String d "".
Proof.
  induction s as [|c s IH]; [done|]. intros _. destruct s as [|c' s]; [by exists "", c|].
  destruct IH as (y & d & E); [done|]. exists (String c y), d. rewrite E. done.
Qed.
Lemma plain_solid s : s ≠ "" → sforall plain_byte s = true → solid s.
Proof.
  intros Hne Hp. split.
  - destruct s as [|c s]; [done|]. cbn in Hp. apply andb_true_iff in Hp as [Hc _]. eauto.
  - destruct (split_last s Hne) as (y & d & ->). exists y, d. split; [done|].
    rewrite sforall_app in Hp. apply andb_true_iff in Hp as [_ Hp]. cbn in Hp. by rewrite andb_true_r in Hp.
Qed.
Lemma encoded_ok f value raw :
  no_byte LF value → encodeConfigValue f value = Some raw → value_ok raw ∧ (value ≠ "" → raw ≠ "").
Proof.
  intros Hl. unfold encodeConfigValue. destruct (decide (value = "")) as [->|Hne].
  { intros [= <-]. split; [by left|done]. }
  pose proof (quoted_ok value Hl) as Hq. pose proof (quoted_nonempty value) as Hn.
  destruct (cf_kind f); intros E; try (repeat case_match; by simplify_eq).
  destruct (Atoi value) as [n|]; [|done]. destruct (Z.ltb_spec n 0) as [|Hz]; [done|]. injection E as <-.
  assert (fmt_d n ≠ "") as Hd by (by apply fmt_d_nonempty). split; [|done]. right. split.
  - apply plain_solid; [done|by apply fmt_d_plain].
  - eapply sforall_no_byte, fmt_d_digits; done.
Qed.

(** ** The file *)
Lemma writeFileAtomic_effect e path data d :
  path +:+ ".tmp" ≠ path →
  let '(r, d') := writeFileAtomic e path data d in
  (files d' !! path = match r with Ok _ => Some data | Err _ => files d !! path end) ∧
  (∀ q, q ≠ path → q ≠ path +:+ ".tmp" → files d' !! q = files d !! q).
Proof.
  intros Hne. unfold writeFileAtomic, on_error. cbv [bind open_trunc call write_all call_ rename ret os_remove].
  repeat match goal with
  | |- context [sys ?w0] =>
      let E := fresh "E" in
      assert (files (sys w0).2 = files w0) by (unfold sys; by destruct (faults w0));
      destruct (sys w0) as [[|?] ?] eqn:E; cbn in *
  end;
  repeat match goal with
  | H : files _ = _ |- _ => cbn in H; rewrite H in *; clear H
  end; unfold id; cbn; rewrite ?lookup_insert_eq;
  (split; [|intros q Hq1 Hq2]);
  rewrite ?lookup_delete_ne, ?lookup_insert_ne, ?lookup_insert_eq, ?lookup_delete_ne by done;
  rewrite ?lookup_insert_ne, ?lookup_insert_eq by done; try done.
Qed.
Section ConfigFile.
Context `{Crypto, KeyringJson, UnicodeQuote, UnicodeCase, Toml, TomlConfig}.
Context (fresh_attr : gmap string string → string → attr) (root : bool) (p : Paths) (domain : string).
Notation Set_ := (SetDomainConfig fresh_attr root p domain).
Notation cfg := (configPath p domain).
Notation lock := (Join [PConfig p; domain; ".lock"]).
Lemma config_end : slast 3 cfg = "oml" ∧ slast 1 cfg = "l".
Proof.
  unfold configPath. split; (rewrite (Join_slast _ [PConfig p; domain] "config.toml"); [done|by apply plain_elem_intro|cbn; lia]).
Qed.
Lemma tmp_end q : slast 3 (q +:+ ".tmp") = "tmp" ∧ slast 1 (q +:+ ".tmp") = "p".
Proof. split; by rewrite slast_app by (cbn; lia). Qed.
Lemma domain_lock_end : slast 3 lock = "ock" ∧ slast 1 lock = "k".
Proof. split; (rewrite (Join_slast _ [PConfig p; domain] ".lock"); [done|by apply plain_elem_intro|cbn; lia]). Qed.
Lemma tmp_config : cfg +:+ ".tmp" ≠ cfg.
Proof. intros E%(f_equal (slast 3)). rewrite (proj1 config_end), (proj1 (tmp_end _)) in E. done. Qed.
Lemma lock_config : cfg ≠ lock.
Proof. intros E%(f_equal (slast 3)). rewrite (proj1 config_end), (proj1 domain_lock_end) in E. done. Qed.
(** Repairing owners and modes leaves every text. *)
Lemma attrs_texts e info made w : tfiles (apply_attrs root e info made w).2 = tfiles w.
Proof.
  unfold apply_attrs, os_Chmod, os_Chown.
  destruct (bool_decide _); [|destruct (sys_tree w) as [[] w1] eqn:E1; apply sys_tree_files in E1]; (destruct root; [|done]);
    match goal with |- context [sys_tree ?x] => destruct (sys_tree x) as [[] w2] eqn:E2; apply sys_tree_files in E2 end;
    cbn in *; congruence.
Qed.
Lemma apply_plan_texts plan w : tfiles (applyPlan fresh_attr root false plan w).2 = tfiles w.
Proof.
  revert w. induction plan as [|e plan IH]; intros w; [done|]. cbn.
  assert (tfiles (apply_entry fresh_attr root false e w).2 = tfiles w) as E1.
  { unfold apply_entry, os_Stat. destruct (sys_tree w) as [r w1] eqn:Es. apply sys_tree_files in Es. destruct r; [|done].
    destruct (is_dir _ _); [by rewrite attrs_texts|]. by destruct (is_regular _ _); [rewrite attrs_texts|]. }
  destruct (apply_entry fresh_attr root false e w) as [r w1]. specialize (IH w1).
  destruct (applyPlan fresh_attr root false plan w1). cbn in *. congruence.
Qed.
Lemma plan_texts w : tfiles (configPermPlan p domain w).2 = tfiles w.
Proof.
  assert (∀ l w, tfiles (plan_files l w).2 = tfiles w) as Hf.
  { induction l as [|f l IH]; intros w0; [done|]. cbn. unfold os_Stat. destruct (sys_tree w0) as [r w1] eqn:Es.
    apply sys_tree_files in Es. specialize (IH w1). destruct r; destruct (plan_files l w1); cbn in *; congruence. }
  assert (∀ l w, tfiles (plan_dirs l w).2 = tfiles w) as Hd.
  { induction l as [|f l IH]; intros w0; [done|]. cbn. unfold os_Stat. destruct (sys_tree w0) as [r w1] eqn:Es.
    apply sys_tree_files in Es. destruct r; [|by rewrite IH]. destruct (is_dir _ _); [|destruct (is_regular _ _); specialize (IH w1); destruct (plan_dirs l w1); cbn in *; congruence].
    destruct (sys_tree w1) as [r w2] eqn:Es2. apply sys_tree_files in Es2. specialize (IH w2).
    destruct (plan_dirs l w2). cbn in *. congruence. }
  unfold configPermPlan. specialize (Hf (config_files p domain) w). destruct (plan_files _ w) as [fs w1].
  specialize (Hd (config_dirs p domain) w1). destruct (plan_dirs _ w1). cbn in *. congruence.
Qed.
Lemma config_tree_texts w : tfiles (provisionDomainConfigTree fresh_attr root p domain w).2 = tfiles w.
Proof.
  unfold provisionDomainConfigTree, provision. pose proof (plan_texts w) as Hp. destruct (configPermPlan p domain w) as [plan w1].
  pose proof (apply_plan_texts plan w1) as Ha. destruct (applyPlan fresh_attr root false plan w1) as [rs w2].
  destruct (firstError rs); cbn in *; congruence.
Qed.
(** What setting a key does to the texts, whatever call fails: nothing but that
    the lock file may appear, or the patched text is in place. *)
Definition config_text (w : tree) : string := default "" (tfiles w !! cfg).
Inductive set_outcome (key value : string) (w w' : tree) : result unit adminErr → Prop :=
| set_nothing e : tfiles w' !! cfg = tfiles w !! cfg → set_outcome key value w w' (Err e)
| set_patched f raw r : config_field key = Some f → encodeConfigValue f value = Some raw →
    tfiles w' !! cfg = Some (PatchSectionValue (config_text w) (cf_section f) (cf_key f) raw) →
    set_outcome key value w w' r.
Lemma set_effect key value w r w' : Set_ key value w = (r, w') → set_outcome key value w w' r.
Proof.
  unfold SetDomainConfig, pbind. destruct (domain_there p domain w) as [[[]|e] w1] eqn:Et; apply there_files in Et;
    [|intros [= <- <-]; apply set_nothing; congruence].
  destruct (config_field key) as [f|] eqn:Ef; [|intros [= <- <-]; apply set_nothing; congruence].
  destruct (encodeConfigValue f value) as [raw|] eqn:Er; [|intros [= <- <-]; apply set_nothing; congruence].
  unfold on_disk at 1. assert (files (lockDomain p domain (t_disk w1)).2 !! cfg = tfiles w !! cfg) as Hl.
  { rewrite <- Et. assert (changes (λ q, q = lock) (lockDomain p domain)) as Hc.
    { unfold lockDomain. apply changes_bind; [by apply changes_open_create|intros _; apply changes_call_]. }
    apply Hc, lock_config. }
  destruct (lockDomain p domain (t_disk w1)) as [[[]|e] d2]; [|intros [= <- <-]; apply set_nothing; exact Hl].
  unfold read_as, reading, read_file. cbn [t_disk]. pose proof (disk_files d2) as Hd.
  destruct (sys d2) as [[|n] d3]; cbn [snd] in Hd, Hl; [|intros [= <- <-]; apply set_nothing; change (files d3 !! cfg = tfiles w !! cfg); congruence].
  unfold on_disk. cbn [t_disk]. rewrite Hd, Hl. fold (config_text w).
  pose proof (writeFileAtomic_effect (EIO "write config") cfg
    (PatchSectionValue (config_text w) (cf_section f) (cf_key f) raw) d3 tmp_config) as Hw.
  destruct (writeFileAtomic _ _ _ d3) as [[[]|e] d4]; destruct Hw as [Hw _];
    [|intros [= <- <-]; apply set_nothing; change (files d4 !! cfg = tfiles w !! cfg); congruence].
  intros E. eapply set_patched; [done..|]. change w' with (r, w').2. rewrite <- E. rewrite config_tree_texts. exact Hw.
Qed.
Definition set_paths (q : string) : Prop := q ∈ [lock; cfg; cfg +:+ ".tmp"].
Lemma set_changes key value : tchanges set_paths (Set_ key value).
Proof.
  assert (set_paths lock ∧ set_paths cfg ∧ set_paths (cfg +:+ ".tmp")) as (Sl & Sc & St).
  { unfold set_paths. split_and!; [by left|right; by left|do 2 right; by left]. }
  unfold SetDomainConfig. apply tchanges_bind; [apply tchanges_there|intros _].
  destruct (config_field key) as [f|]; [|by intros w q _]. destruct (encodeConfigValue f value) as [raw|]; [|by intros w q _].
  apply tchanges_bind; [|intros _].
  { apply tchanges_on_disk. unfold lockDomain. apply changes_bind; [by apply changes_open_create|intros _; apply changes_call_]. }
  apply tchanges_bind; [apply tchanges_reading, changes_read_file|intros content].
  apply tchanges_bind; [|intros _ w q _; by rewrite config_tree_texts].
  apply tchanges_on_disk. intros d q Hq. pose proof (writeFileAtomic_effect (EIO "write config") cfg
    (PatchSectionValue (default "" content) (cf_section f) (cf_key f) raw) d tmp_config) as Hw.
  destruct (writeFileAtomic _ _ _ d) as [r d']. destruct Hw as [_ Hw]. apply Hw; intros ->; by apply Hq.
Qed.

(** What asking for a key answers when no call fails. *)
Definition shown (w : tree) (key : string) : result string adminErr :=
  (GetDomainConfigValue p domain key (mkTree (mkFolder (tfiles w) []) (t_attrs w))).1.
Definition domain_here (w : tree) : bool := bool_decide (is_Some (tfiles w !! (Join [PConfig p; domain] +:+ "/"))).
Lemma shown_eq w key : shown w key =
  if ValidDomainName domain then
    if domain_here w then
      match config_field key with
      | None => Err (EIO "unknown config key")
      | Some f => Ok (readSectionValue (config_text w) (cf_section f) (cf_key f))
      end
    else Err EDomainNotFound
  else Err EInvalidDomainName.
Proof.
  unfold shown, GetDomainConfigValue, domain_there, pbind. destruct (ValidDomainName domain); [|done].
  unfold pret, reading, DomainExists, fileExists. cbn [t_disk sys faults files]. fold (domain_here w).
  destruct (domain_here w); [|done]. destruct (config_field key) as [f|] eqn:Ef; [|done].
  unfold read_as, reading, read_file, config_text. cbn [t_disk sys faults files fst].
  destruct (tfiles w !! cfg) as [text|]; [done|]. cbn [fst default]. f_equal.
  apply fields_simple in Ef as [_ Hk]. unfold readSectionValue, section_lines. change (Split LF (default "" None)) with [""].
  destruct (decide (cf_section f = "")); [|done]. rewrite first_value_vals. change (split_at is_header [""]).1 with [""].
  by rewrite vals_blank_line.
Qed.
Lemma set_keeps_domain key value w r w' : Set_ key value w = (r, w') → domain_here w' = domain_here w.
Proof.
  intros E. unfold domain_here. change w' with (r, w').2. rewrite <- E, set_changes; [done|].
  intros Hq. assert (slast 1 (Join [PConfig p; domain] +:+ "/") = "/") as Hs by (by rewrite slast_app by (cbn; lia)).
  unfold set_paths in Hq. rewrite !elem_of_cons in Hq. destruct Hq as [E1|[E1|[E1|E1%not_elem_of_nil]]]; [..|done];
    rewrite E1 in Hs; rewrite ?(proj2 domain_lock_end), ?(proj2 config_end), ?(proj2 (tmp_end _)) in Hs; discriminate.
Qed.
Lemma set_ok_there key value w w' : Set_ key value w = (Ok (), w') → ValidDomainName domain = true ∧ domain_here w = true.
Proof.
  unfold SetDomainConfig, pbind at 1. unfold domain_there, pbind at 1. destruct (ValidDomainName domain); [|done].
  cbn [pret]. unfold reading, DomainExists, fileExists, pret. pose proof (disk_files (t_disk w)) as Hf.
  destruct (sys (t_disk w)) as [[|n] d]; [|done]. cbn [snd] in Hf. rewrite Hf. fold (domain_here w). by destruct (domain_here w).
Qed.

(** C32 Setting one key of a domain's configuration changes that key and nothing
    else. For a value without a line break, whatever call fails: asking for any
    other key answers as before; no file but the configuration, its temporary
    copy and the lock changes; and when the edit reports success for a value that
    is not empty, asking for the key answers the encoded value. *)
Theorem config_edit_exact key value w r w' :
  no_byte LF value → Set_ key value w = (r, w') →
  (∀ key', key' ≠ key → shown w' key' = shown w key') ∧
  (∀ q, ¬ set_paths q → tfiles w' !! q = tfiles w !! q) ∧
  (r = Ok () → value ≠ "" → ∃ f raw,
     config_field key = Some f ∧ encodeConfigValue f value = Some raw ∧ shown w' key = Ok raw).
Proof.
  intros Hl E. pose proof (set_keeps_domain _ _ _ _ _ E) as Hd. pose proof (set_effect _ _ _ _ _ E) as Ho. split_and!.
  - intros key' Hne. rewrite !shown_eq, Hd. destruct (ValidDomainName domain), (domain_here w); try done.
    destruct (config_field key') as [f'|] eqn:Ef'; [|done]. f_equal.
    destruct Ho as [e Hc|f raw r Ef Er Hc]; [unfold config_text; by rewrite Hc|].
    destruct (fields_simple _ _ Ef) as [Hs Hk], (fields_simple _ _ Ef') as [_ Hk'], (encoded_ok _ _ _ Hl Er) as [Hv _].
    destruct (patch_reads (config_text w) _ _ Hk Hv _ Hs) as [_ Hr].
    unfold readSectionValue. rewrite !first_value_vals. unfold config_text at 1. rewrite Hc. cbn [default].
    f_equal. apply Hr; [done|]. by apply (fields_apart key key' f f').
  - intros q Hq. change w' with (r, w').2. rewrite <- E. by apply set_changes.
  - intros -> Hne. inversion Ho as [|f raw r Ef Er Hc]; subst. exists f, raw. split_and!; [done..|].
    destruct (set_ok_there _ _ _ _ E) as [Hvd Hh]. rewrite shown_eq, Hd, Ef, Hvd, Hh. f_equal.
    destruct (fields_simple _ _ Ef) as [Hs Hk], (encoded_ok _ _ _ Hl Er) as [Hv Hraw].
    destruct (patch_reads (config_text w) _ _ Hk Hv _ Hs) as [Hr _].
    unfold readSectionValue. rewrite first_value_vals.
    replace (config_text w') with (PatchSectionValue (config_text w) (cf_section f) (cf_key f) raw)
      by (unfold config_text at 2; by rewrite Hc).
    by rewrite (Hr (Hraw Hne)).
Qed.
End ConfigFile.

(** ** Examples *)
Section ConfigWitnesses.
Import Toy Decoder TomlDemo.
#[local] Existing Instance Forwards.Example.ascii_case.
Definition c_lines (l : list string) : string := join_lines l.
Definition c_tree (l : list string) : tree :=
  mkTree (mkFolder {[ "/c/" := ""; "/c/ex.org/" := ""; "/c/ex.org/config.toml" := c_lines l; "/c/ex.org/passwd" := "x" ]} [])
    (λ _, mkAttr 0 0 0x1a4).
Definition c_text : list string :=
  ["# kept"; "max_message_size = 10"; ""; "[outbound]"; "strategy = " +:+ QuoteString "direct"; "[dns]"; "hostname = " +:+ QuoteString "mx"; ""].
Definition c_set (key value : string) (w : tree) := SetDomainConfig v_attr true v_paths "ex.org" key value w.
Definition c_after (key value : string) (l : list string) : list string :=
  Split LF (config_text v_paths "ex.org" (c_set key value (c_tree l)).2).
Definition c_done : tree := (c_set "outbound.smarthost" "relay" (c_tree c_text)).2.
Lemma config_edit_exact_witness :
  c_set "outbound.smarthost" "relay" (c_tree c_text) = (Ok (), c_done) ∧
  shown v_paths "ex.org" c_done "outbound.smarthost" = Ok (QuoteString "relay") ∧
  shown v_paths "ex.org" c_done "dns.hostname" = Ok (QuoteString "mx").
Proof.
  assert (c_set "outbound.smarthost" "relay" (c_tree c_text) = (Ok (), c_done)) as E.
  { assert ((c_set "outbound.smarthost" "relay" (c_tree c_text)).1 = Ok ()) as E1 by (vm_compute; reflexivity).
    unfold c_done. by rewrite <- E1, <- surjective_pairing. }
  destruct (config_edit_exact v_attr true v_paths "ex.org" "outbound.smarthost" "relay" (c_tree c_text) (Ok ()) c_done
    ltac:(by vm_compute) E) as (H1 & _ & H2).
  split; [exact E|]. split.
  - destruct (H2 eq_refl ltac:(discriminate)) as (f & raw & Ef & Er & ->). vm_compute in Ef. injection Ef as <-.
    vm_compute in Er. injection Er as <-. reflexivity.
  - rewrite (H1 "dns.hostname" ltac:(discriminate)). vm_compute. reflexivity.
Defined.
(** The places a key can go. *)
Example set_existing : c_after "max_message_size" "20" c_text = <[1%nat := "max_message_size = 20"]> c_text.
Proof. vm_compute. reflexivity. Qed.
Example set_new_section : c_after "dkim.selector" "s" ["[dns]"; ""; ""] = ["[dns]"; ""; "[dkim]"; "selector = " +:+ QuoteString "s"; ""].
Proof. vm_compute. reflexivity. Qed.
Example set_top_before_section : c_after "encryption_mode" "on" ["a = 1"; ""; "[dns]"] =
  ["a = 1"; "encryption_mode = " +:+ QuoteString "on"; ""; "[dns]"].
Proof. vm_compute. reflexivity. Qed.
(** A line break in a value is written as it is: the text after it becomes lines
    of the file, here a second section that turns the strategy. *)
Definition c_broken : string := sjoin newline ["mx"; "[outbound]"; "strategy = " +:+ QuoteString "smarthost"; "#"].
Lemma line_break_adds_lines :
  (c_set "dns.hostname" c_broken (c_tree [""])).1 = Ok () ∧
  shown v_paths "ex.org" (c_set "dns.hostname" c_broken (c_tree [""])).2 "outbound.strategy" ≠ Ok "".
Proof. vm_compute. split; [reflexivity|discriminate]. Qed.
(** A header with a comment behind it is not found, and the section is written a
    second time. *)
Lemma commented_header_doubled :
  c_after "dns.hostname" "b" ["[dns] # names"; "hostname = a"] =
  ["[dns] # names"; "hostname = a"; ""; "[dns]"; "hostname = " +:+ QuoteString "b"; ""].
Proof. vm_compute. reflexivity. Qed.
End ConfigWitnesses.
