(* ===== verification/OidcServer.v ===== *)
(** * The OpenID provider

    Model of [src/internal/auth/authoidc]: configuration ([config.go]), signing
    keys on disk and in the cache ([keys.go]), the server with its key rotation
    and the resolution of hosts, clients and redirect addresses ([server.go]),
    the operator's tool ([keymanager.go]), the HTTP handlers ([handlers.go]) and
    WebFinger ([webfinger.go]). The store is any implementation of [Store]
    ([OidcStore]); logins are checked by the agent of [Passwd]. JWTs, JSON, TOML,
    URLs, SHA-256 and key generation are parameters. The clock and the random
    source are streams from which every reading takes the next element. Templates
    are represented by the data they are filled with. *)
From S2P Require Import Prelude GoStrings Base64 FilePath UidList Disk Keyring Passwd PeerGate Domain OidcStore.
From Stdlib Require Import ZArith Lia Ascii.
Open Scope string_scope.
Open Scope list_scope.
Open Scope Z_scope.

(** ** Configuration *)
Record ServerConfig := mkServerConfig {
  Listen : string; DataDir : string; DomainDataPath : string;
  JWTTTLSec : Z; SessionTTLSec : Z;
  DefaultSigningAlgorithm : string; KeyRotationInterval : string;
  KeyRetentionAfterRetire : string; KeyRotationCheckInterval : string;
  WebfingerIssuerTemplate : string;
}.
Record ClientConfig := mkClientConfig {
  cc_Domain : string; ID : string; Secret : string; RedirectURIs : list string;
}.
Record Config := mkConfig { c_Server : ServerConfig; Clients : list ClientConfig }.

Definition supportedSigningAlgorithms : list string := [AlgRS256; AlgES256; AlgEdDSA].
Definition supported (alg : string) : bool := bool_decide (alg ∈ supportedSigningAlgorithms).

Inductive oerr :=
| ORead | OParse | OAlgorithm | ODuration | OIO | OKeyGen | OMarshal | ODecode | OMismatch
| ONoCurrentKey | OStore (e : storeErr) | ODomainConfig | OAgent | OSign | OReadDir | ONoDomain | ODataDir.

(** [toml.Unmarshal] into [Config]. *)
Class OidcToml := unmarshal_oidc : string → option Config.

Definition defaultKeyRetentionAfterRetire : Z := 24 * 3600 * second.
Definition defaultKeyRotationInterval : Z := 90 * 24 * 3600 * second.
Definition defaultKeyRotationCheckInterval : Z := 24 * 3600 * second.

Section Configuration.
Context `{GoDuration, OidcToml}.

Definition or_default (d s : string) : string := if decide (s = "") then d else s.
Definition or_default_z (d z : Z) : Z := if decide (z = 0) then d else z.
Definition duration_ok (s : string) : bool :=
  bool_decide (s = "") || bool_decide (is_Some (ParseDuration s)).

Definition Load (path : string) : io oerr Config :=
  (let! data := read_file ORead path in
   match data with
   | None => fail ORead
   | Some text =>
       match unmarshal_oidc text with
       | None => fail OParse
       | Some cfg =>
           let c := c_Server cfg in
           let c := mkServerConfig (or_default ":8080" (Listen c)) (DataDir c) (DomainDataPath c)
                      (or_default_z 3600 (JWTTTLSec c)) (or_default_z 604800 (SessionTTLSec c))
                      (or_default AlgES256 (DefaultSigningAlgorithm c)) (KeyRotationInterval c)
                      (KeyRetentionAfterRetire c) (KeyRotationCheckInterval c)
                      (WebfingerIssuerTemplate c) in
           if negb (supported (DefaultSigningAlgorithm c)) then fail OAlgorithm
           else if negb (duration_ok (KeyRotationInterval c)) then fail ODuration
           else if negb (duration_ok (KeyRetentionAfterRetire c)) then fail ODuration
           else if negb (duration_ok (KeyRotationCheckInterval c)) then fail ODuration
           else ret (mkConfig c (Clients cfg))
       end
   end)%io.

Definition parseDurationOrZero (s : string) : option Z :=
  if decide (s = "") then None else ParseDuration s.
Definition keyRotationInterval (c : ServerConfig) : Z :=
  default defaultKeyRotationInterval (parseDurationOrZero (KeyRotationInterval c)).
Definition keyRetentionAfterRetire (c : ServerConfig) : Z :=
  default defaultKeyRetentionAfterRetire (parseDurationOrZero (KeyRetentionAfterRetire c)).
Definition keyRotationCheckInterval (c : ServerConfig) : Z :=
  default defaultKeyRotationCheckInterval (parseDurationOrZero (KeyRotationCheckInterval c)).

(** [time.NewTicker] panics on an interval that is not positive. *)
Definition rotator_starts (c : ServerConfig) : bool := 0 <? keyRotationCheckInterval c.
End Configuration.

(** ** Keys on disk

    Private keys are opaque strings; [key_type] is their Go type. *)
Inductive ktype := KRsa | KEcdsa (p256 : bool) | KEd25519 | KOther.
Class KeyLib := {
  (** [rsa.GenerateKey] (2048 bits), [ecdsa.GenerateKey] (P-256),
      [ed25519.GenerateKey] from random bytes *)
  gen_rsa : string → option string;
  gen_ecdsa : string → option string;
  gen_ed25519 : string → option string;
  key_type : string → ktype;
  marshal_pkcs8 : string → option string;
  parse_pkcs8 : string → option string;
  parse_pkcs1 : string → option string;
  parse_ec : string → option string;
  pem_encode : string → string → string;
  pem_decode : string → option (string * string);
  (** [jwk.FromRaw] succeeds *)
  jwk_ok : string → bool;
  public_of : string → string;
}.

Record loadedKey := mkLoaded { kid : string; algorithm : string; privJWK : string; pubJWK : string }.
#[export] Instance loadedKey_eq_dec : EqDecision loadedKey.
Proof. solve_decision. Defined.

Section KeyFiles.
Context `{KeyLib}.

Definition algForKey (priv : string) : result string oerr :=
  match key_type priv with
  | KRsa => Ok AlgRS256
  | KEcdsa true => Ok AlgES256
  | KEcdsa false => Err OAlgorithm
  | KEd25519 => Ok AlgEdDSA
  | KOther => Err OAlgorithm
  end.
Definition checkKeyMatchesAlg (priv alg : string) : result unit oerr :=
  match algForKey priv with
  | Err e => Err e
  | Ok actual => if decide (actual = alg) then Ok () else Err OMismatch
  end.
Definition generatePrivateKey (rnd alg : string) : result string oerr :=
  let gen := if decide (alg = AlgRS256) then Some gen_rsa
             else if decide (alg = AlgES256) then Some gen_ecdsa
             else if decide (alg = AlgEdDSA) then Some gen_ed25519
             else None in
  match gen with
  | None => Err OAlgorithm
  | Some g => match g rnd with None => Err OKeyGen | Some k => Ok k end
  end.
Definition encodePrivateKeyPEM (priv alg : string) : result string oerr :=
  match checkKeyMatchesAlg priv alg with
  | Err e => Err e
  | Ok _ => match marshal_pkcs8 priv with
            | None => Err OMarshal
            | Some der => Ok (pem_encode "PRIVATE KEY" der)
            end
  end.
Definition decodePrivateKeyPEM (data : string) : result (string * string) oerr :=
  match pem_decode data with
  | None => Err ODecode
  | Some (typ, bytes) =>
      let typed := λ o : option string,
        match o with
        | None => Err ODecode
        | Some priv => match algForKey priv with Ok alg => Ok (priv, alg) | Err e => Err e end
        end in
      if decide (typ = "PRIVATE KEY") then typed (parse_pkcs8 bytes)
      else if decide (typ = "RSA PRIVATE KEY") then
        match parse_pkcs1 bytes with None => Err ODecode | Some priv => Ok (priv, AlgRS256) end
      else if decide (typ = "EC PRIVATE KEY") then typed (parse_ec bytes)
      else Err ODecode
  end.
Definition publicKeyFor (priv : string) : result string oerr :=
  match key_type priv with KOther => Err OAlgorithm | _ => Ok (public_of priv) end.
Definition buildLoadedKey (k alg priv : string) : result loadedKey oerr :=
  if negb (jwk_ok priv) then Err OKeyGen
  else match publicKeyFor priv with
       | Err e => Err e
       | Ok pub => if negb (jwk_ok pub) then Err OKeyGen else Ok (mkLoaded k alg priv pub)
       end.
Definition jwaAlgorithm (alg : string) : result string oerr :=
  if supported alg then Ok alg else Err OAlgorithm.

Definition keyDir (dataDir domain : string) : string := Join [dataDir; domain; "keys"].
Definition keyFilePath (dataDir domain k : string) : string :=
  Join [keyDir dataDir domain; k +:+ ".key"].

(** [tmp] is the name [os.CreateTemp] chose; the deferred removal finds nothing
    after the rename. *)
Definition writeFileAtomic (tmp path data : string) : io oerr unit :=
  (open_trunc OIO tmp ;!
   on_error (call_ OIO ;! write_all OIO tmp data ;! call_ OIO ;! call_ OIO ;! rename OIO tmp path)
     (os_remove tmp))%io.

Definition lift_result {A} (r : result A oerr) : io oerr A :=
  match r with Ok a => ret a | Err e => fail e end.
Definition generateAndWriteKey (rnd tmp dataDir domain k alg : string) : io oerr loadedKey :=
  (call_ OIO ;!
   let! priv := lift_result (generatePrivateKey rnd alg) in
   let! pem := lift_result (encodePrivateKeyPEM priv alg) in
   writeFileAtomic tmp (keyFilePath dataDir domain k) pem ;!
   lift_result (buildLoadedKey k alg priv))%io.
Definition loadKeyFile (dataDir domain k alg : string) : io oerr loadedKey :=
  (let! data := read_file ORead (keyFilePath dataDir domain k) in
   match data with
   | None => fail ORead
   | Some text =>
       let! (priv, parsed) := lift_result (decodePrivateKeyPEM text) in
       if decide (parsed = alg) then lift_result (buildLoadedKey k alg priv) else fail OMismatch
   end)%io.
End KeyFiles.

(** The cache of loaded keys, by domain and key id. *)
Definition keyStore : Type := gmap string (gmap string loadedKey).
Definition Get (d k : string) (ks : keyStore) : option loadedKey := ks !! d ≫= λ dm, dm !! k.
Definition Put (d : string) (k : loadedKey) (ks : keyStore) : keyStore :=
  <[d := <[kid k := k]> (default ∅ (ks !! d))]> ks.
Definition Drop (d k : string) (ks : keyStore) : keyStore :=
  match ks !! d with Some dm => <[d := delete k dm]> ks | None => ks end.

(** ** The server *)
Record domainEntry := mkEntry { name : string; agent : Agent; clients : list ClientConfig }.

(** A check of a password by the agent of a domain, with its outcome. *)
Inductive call := CAuth (domain user : string) (ok : bool).

Record world (S : Type) := mkWorld {
  w_store : S; w_cache : keyStore; w_disk : folder; w_log : list call;
  w_clock : nat → Z; w_tick : nat;
  w_rand : nat → string; w_draw : nat;
}.
Arguments mkWorld {S} _ _ _ _ _ _ _ _.
Arguments w_store {S} _.
Arguments w_cache {S} _.
Arguments w_disk {S} _.
Arguments w_log {S} _.
Arguments w_clock {S} _.
Arguments w_tick {S} _.
Arguments w_rand {S} _.
Arguments w_draw {S} _.

Section World.
Context {S : Type}.
Definition set_store (s : S) (w : world S) : world S :=
  mkWorld s (w_cache w) (w_disk w) (w_log w) (w_clock w) (w_tick w) (w_rand w) (w_draw w).
Definition set_keycache (f : keyStore → keyStore) (w : world S) : world S :=
  mkWorld (w_store w) (f (w_cache w)) (w_disk w) (w_log w) (w_clock w) (w_tick w) (w_rand w) (w_draw w).
Definition set_disk (d : folder) (w : world S) : world S :=
  mkWorld (w_store w) (w_cache w) d (w_log w) (w_clock w) (w_tick w) (w_rand w) (w_draw w).
Definition record_call (c : call) (w : world S) : world S :=
  mkWorld (w_store w) (w_cache w) (w_disk w) (w_log w ++ [c]) (w_clock w) (w_tick w) (w_rand w) (w_draw w).

Definition M (A : Type) : Type := world S → A * world S.
Definition mret {A} (a : A) : M A := λ w, (a, w).
Definition mbind {A B} (m : M A) (k : A → M B) : M B := λ w, let '(a, w) := m w in k a w.

(** [time.Now()] *)
Definition Now : M Z := λ w,
  (w_clock w (w_tick w),
   mkWorld (w_store w) (w_cache w) (w_disk w) (w_log w) (w_clock w) (Datatypes.S (w_tick w)) (w_rand w) (w_draw w)).
(** [n] random bytes *)
Definition Rand (n : nat) : M string := λ w,
  (fit n (w_rand w (w_draw w)),
   mkWorld (w_store w) (w_cache w) (w_disk w) (w_log w) (w_clock w) (w_tick w) (w_rand w) (Datatypes.S (w_draw w))).
(** A call to the store and one to the disk. *)
Definition on_store {A} (f : S → A * S) : M A := λ w,
  let '(a, s) := f (w_store w) in (a, set_store s w).
Definition store_ (f : S → S) : M unit := λ w, ((), set_store (f (w_store w)) w).
Definition on_disk {A} (f : io oerr A) : M (result A oerr) := λ w,
  let '(r, d) := f (w_disk w) in (r, set_disk d w).
Definition on_cache (f : keyStore → keyStore) : M unit := λ w, ((), set_keycache f w).
End World.
Arguments M : clear implicits.

Declare Scope oidc_scope.
Delimit Scope oidc_scope with oidc.
Notation "'do' x '<-' m ';' k" := (mbind m (λ x, k))
  (at level 100, x pattern, m at next level, k at level 200, right associativity) : oidc_scope.
Notation "m ';;' k" := (mbind m (λ _, k)) (at level 100, k at level 200, right associativity) : oidc_scope.

(** [base64.RawURLEncoding] *)
Definition url_char (c : ascii) : ascii :=
  if Ascii.eqb c "+"%char then "-"%char else if Ascii.eqb c "/"%char then "_"%char else c.
Definition b64_url (s : string) : string := smap url_char (b64_raw_encode s).

Section Server.
Context {S : Type} `{Store S} `{KeyLib, GoDuration} (cfg : Config).
Open Scope oidc_scope.

Definition generateToken (n : nat) : M S string := do b <- Rand n; mret (b64_url b).

(** [%s-%d] of the domain and [now.UnixNano()] *)
Definition new_kid (domain : string) (now : Z) : string := domain +:+ "-" +:+ fmt_d now.
Definition tmp_name (dataDir domain k rnd : string) : string :=
  keyFilePath dataDir domain k +:+ ".tmp-" +:+ b64_url rnd.

Definition store_result {A} (r : result A storeErr) : result A oerr :=
  match r with Ok a => Ok a | Err e => Err (OStore e) end.

Definition loadKeyFromRecord (rec : signingKeyRecord) : M S (result loadedKey oerr) := λ w,
  match Get (sk_Domain rec) (KID rec) (w_cache w) with
  | Some k => (Ok k, w)
  | None =>
      (do r <- on_disk (loadKeyFile (DataDir (c_Server cfg)) (sk_Domain rec) (KID rec) (sk_Algorithm rec));
       match r with
       | Err e => mret (Err e)
       | Ok k => on_cache (Put (sk_Domain rec) k) ;; mret (Ok k)
       end) w
  end.

Definition currentKeyFor (domain : string) : M S (result loadedKey oerr) :=
  do rows <- on_store (ListSigningKeys domain);
  match rows with
  | Err e => mret (Err (OStore e))
  | Ok l => match head (filter (λ r, is_current r = true) l) with
            | Some rec => loadKeyFromRecord rec
            | None => mret (Err ONoCurrentKey)
            end
  end.

(** The loop of [activePublicJWKsFor]; [set.AddKey] fails on a key that is
    already in the set, and key ids are distinct. *)
Fixpoint load_all (l : list signingKeyRecord) : M S (result (list loadedKey) oerr) :=
  match l with
  | [] => mret (Ok [])
  | rec :: l =>
      do k <- loadKeyFromRecord rec;
      match k with
      | Err e => mret (Err e)
      | Ok k => do ks <- load_all l;
                mret (match ks with Ok ks => Ok (k :: ks) | Err e => Err e end)
      end
  end.
Definition activePublicJWKsFor (domain : string) : M S (result (list loadedKey) oerr) :=
  do rows <- on_store (ListSigningKeys domain);
  match rows with
  | Err e => mret (Err (OStore e))
  | Ok l => do now <- Now; load_all (filter (λ r, lapsed now r = false) l)
  end.

Fixpoint dedup (seen : list string) (l : list string) : list string :=
  match l with
  | [] => []
  | a :: l => if decide (a ∈ seen) then dedup seen l else a :: dedup (a :: seen) l
  end.
Definition activeAlgorithmsFor (domain : string) : M S (result (list string) oerr) :=
  do rows <- on_store (ListSigningKeys domain);
  match rows with
  | Err e => mret (Err (OStore e))
  | Ok l =>
      do now <- Now;
      mret (Ok (merge_sort String.le
                  (dedup [] (sk_Algorithm <$> filter (λ r, lapsed now r = false) l))))
  end.

Definition rotateKey (domain alg : string) : M S (result string oerr) :=
  let alg := or_default (DefaultSigningAlgorithm (c_Server cfg)) alg in
  if negb (supported alg) then mret (Err OAlgorithm)
  else
    do now <- Now;
    let k := new_kid domain now in
    do rnd <- Rand 32; do suffix <- Rand 8;
    do loaded <- on_disk (generateAndWriteKey rnd (tmp_name (DataDir (c_Server cfg)) domain k suffix)
                            (DataDir (c_Server cfg)) domain k alg);
    match loaded with
    | Err e => mret (Err e)
    | Ok loaded =>
        do now' <- Now;
        do r <- on_store (RotateSigningKey now' domain
                            (mkKey domain k alg keyStateCurrent now zero_time zero_time)
                            (keyRetentionAfterRetire (c_Server cfg)));
        match r with
        | Err e => mret (Err (OStore e))
        | Ok _ => on_cache (Put domain loaded) ;; mret (Ok k)
        end
    end.
Definition revokeKey (domain k : string) : M S (result unit oerr) :=
  do now <- Now; do r <- on_store (RevokeSigningKey now domain k); mret (store_result r).

(** [now.Sub(created)], limited to the range of a duration *)
Definition Sub (a b : Z) : Z := Z.max (- 2 ^ 63) (Z.min (2 ^ 63 - 1) (a - b)).
(** The inner loop of [rotateAgedKeys], one domain. *)
Fixpoint rotate_rows (now interval : Z) (domain : string) (rows : list signingKeyRecord) : M S unit :=
  match rows with
  | [] => mret ()
  | rec :: rows =>
      (if negb (is_current rec) then mret ()
       else if Sub now (CreatedAt rec) <? interval then mret ()
       else do _ <- rotateKey domain ""; mret ()) ;;
      rotate_rows now interval domain rows
  end.
(** [domains] in the order the map is visited. *)
Fixpoint rotateAgedKeys (now : Z) (domains : list string) : M S unit :=
  match domains with
  | [] => mret ()
  | d :: ds =>
      do rows <- on_store (ListSigningKeys d);
      (match rows with
       | Err _ => mret ()
       | Ok l => rotate_rows now (keyRotationInterval (c_Server cfg)) d l
       end) ;;
      rotateAgedKeys now ds
  end.

Fixpoint unlink_swept (l : list signingKeyRecord) : M S unit :=
  match l with
  | [] => mret ()
  | rec :: l =>
      do _ <- on_disk (λ d, (Ok (), os_remove (keyFilePath (DataDir (c_Server cfg)) (sk_Domain rec) (KID rec)) d));
      on_cache (Drop (sk_Domain rec) (KID rec)) ;;
      unlink_swept l
  end.
Definition sweepSigningKeys (now : Z) : M S unit :=
  do swept <- on_store (SweepExpiredSigningKeys now);
  match swept with Err _ => mret () | Ok l => unlink_swept l end.
(** One turn of [sweepLoop]. *)
Definition sweep_tick (now : Z) : M S unit :=
  do _ <- on_store (SweepExpired now); sweepSigningKeys now.
Definition Cleanup : M S unit := do now <- Now; do _ <- on_store (SweepExpired now); mret ().

(** *** First use of a domain *)
(** [mtime] is the modification time of the legacy file. *)
Definition ensureSigningKeys (mtime : Z) (domain : string) : M S (result unit oerr) :=
  let dataDir := DataDir (c_Server cfg) in
  do rows <- on_store (ListSigningKeys domain);
  match rows with
  | Err e => mret (Err (OStore e))
  | Ok (_ :: _) => mret (Ok ())
  | Ok [] =>
      let legacyPath := Join [dataDir; domain; "signing.key"] in
      do legacy <- on_disk (read_file OIO legacyPath);
      match legacy with
      | Ok (Some _) =>
          let k := domain +:+ "-1" in
          do moved <- on_disk (call_ OIO ;! rename OIO legacyPath (keyFilePath dataDir domain k))%io;
          match moved with
          | Err e => mret (Err e)
          | Ok _ =>
              do r <- on_store (InsertSigningKey
                        (mkKey domain k AlgRS256 keyStateCurrent mtime zero_time zero_time));
              mret (store_result r)
          end
      | Ok None =>
          do now <- Now;
          let k := new_kid domain now in
          let alg := or_default AlgES256 (DefaultSigningAlgorithm (c_Server cfg)) in
          do rnd <- Rand 32; do suffix <- Rand 8;
          do g <- on_disk (generateAndWriteKey rnd (tmp_name dataDir domain k suffix) dataDir domain k alg);
          match g with
          | Err e => mret (Err e)
          | Ok _ =>
              do r <- on_store (InsertSigningKey
                        (mkKey domain k alg keyStateCurrent now zero_time zero_time));
              mret (store_result r)
          end
      | Err e => mret (Err e)
      end
  end.
Definition primeKeyCache (domain : string) : M S (result unit oerr) :=
  do rows <- on_store (ListSigningKeys domain);
  match rows with
  | Err e => mret (Err (OStore e))
  | Ok l => do r <- load_all l; mret (match r with Ok _ => Ok () | Err e => Err e end)
  end.

Definition agent_io {A} (m : io autherr A) : io oerr A := λ d,
  match m d with (Ok a, d) => (Ok a, d) | (Err _, d) => (Err OAgent, d) end.
Definition config_io {A} (m : io derr A) : io oerr A := λ d,
  match m d with (Ok a, d) => (Ok a, d) | (Err _, d) => (Err ODomainConfig, d) end.

(** The entry of a domain, or why it could not be loaded. *)
Definition loadDomain `{TomlConfig} (mtime : Z) (d : string) : M S (result domainEntry oerr) :=
  let domainDir := Join [DomainDataPath (c_Server cfg); d] in
  do dc <- on_disk (config_io (LoadDomainConfig (Join [DomainDataPath (c_Server cfg); d; "config.toml"])));
  match dc with
  | Err e => mret (Err e)
  | Ok dc =>
      do a <- on_disk (agent_io (NewAgent (Join [domainDir; CredentialBackend (cfg_Auth dc)])
                                   (Join [domainDir; KeyBackend (cfg_Auth dc)])));
      match a with
      | Err e => mret (Err e)
      | Ok a =>
          do k <- ensureSigningKeys mtime d;
          match k with
          | Err e => mret (Err e)
          | Ok _ =>
              do c <- primeKeyCache d;
              mret (match c with
                    | Err e => Err e
                    | Ok _ => Ok (mkEntry d a (filter (λ c, cc_Domain c = d) (Clients cfg)))
                    end)
          end
      end
  end.
End Server.

(** *** Start-up *)
Section Start.
Context {S : Type} `{Store S} `{KeyLib, GoDuration, TomlConfig} (cfg : Config) (mtime : string → Z).
Open Scope oidc_scope.

Record loaded := mkLoadedDomains {
  l_domains : gmap string domainEntry; failedDomains : gmap string oerr; l_seen : gset string;
}.
Definition load_one (d : string) (l : loaded) : M S loaded :=
  if decide (d ∈ l_seen l) then mret l
  else
    do r <- loadDomain cfg (mtime d) d;
    mret (match r with
          | Ok de => mkLoadedDomains (<[d := de]> (l_domains l)) (failedDomains l) ({[d]} ∪ l_seen l)
          | Err e => mkLoadedDomains (l_domains l) (<[d := e]> (failedDomains l)) ({[d]} ∪ l_seen l)
          end).
Fixpoint load_each (ds : list string) (l : loaded) : M S loaded :=
  match ds with
  | [] => mret l
  | d :: ds => do l <- load_one d l; load_each ds l
  end.

(** [dirs]: the directories listed under the data path, [None] when they cannot
    be read; a directory without a configuration is passed over. *)
Fixpoint with_config (dirs : list string) : M S (list string) :=
  match dirs with
  | [] => mret []
  | d :: ds =>
      do c <- on_disk (read_file OIO (Join [DomainDataPath (c_Server cfg); d; "config.toml"]));
      do rest <- with_config ds;
      mret (match c with Ok (Some _) => d :: rest | _ => rest end)
  end.
Definition New (dirs : option (list string)) : M S (result loaded oerr) :=
  let finish := λ l : loaded,
    if decide (l_domains l = ∅ ∧ failedDomains l ≠ ∅) then Err ONoDomain else Ok l in
  let clients_too := λ l, load_each (cc_Domain <$> Clients cfg) l in
  let none := mkLoadedDomains ∅ ∅ ∅ in
  if decide (DomainDataPath (c_Server cfg) = "") then
    do l <- clients_too none; mret (finish l)
  else
    match dirs with
    | None => mret (Err OReadDir)
    | Some ds =>
        do present <- with_config ds;
        do l <- load_each present none;
        do l <- clients_too l;
        mret (finish l)
    end.

Record healthzResponse := mkHealth { Status : string; h_Loaded : nat; h_Failed : nat }.
Definition healthz (l : loaded) : Z * healthzResponse :=
  let n := size (l_domains l) in let f := size (failedDomains l) in
  if decide (f = 0%nat) then (200, mkHealth "ok" n f) else (503, mkHealth "degraded" n f).
End Start.

(** ** The operator's tool *)
Section KeyManager.
Context {S : Type} `{Store S} `{KeyLib}.
Open Scope oidc_scope.

Record KeyManager := mkKeyManager { km_dataDir : string; km_retention : Z }.
Definition OpenKeyManager (dataDir : string) (retention : Z) : result KeyManager oerr :=
  if decide (dataDir = "") then Err ODataDir
  else Ok (mkKeyManager dataDir
             (if retention <=? 0 then defaultKeyRetentionAfterRetire else retention)).
Definition km_List (d : string) : M S (result (list signingKeyRecord) oerr) :=
  do r <- on_store (ListSigningKeys d); mret (store_result r).
Definition km_Rotate (km : KeyManager) (domain alg : string) : M S (result string oerr) :=
  let alg := or_default AlgES256 alg in
  if negb (supported alg) then mret (Err OAlgorithm)
  else
    do now <- Now;
    let k := new_kid domain now in
    do rnd <- Rand 32; do suffix <- Rand 8;
    do loaded <- on_disk (generateAndWriteKey rnd (tmp_name (km_dataDir km) domain k suffix)
                            (km_dataDir km) domain k alg);
    match loaded with
    | Err e => mret (Err e)
    | Ok _ =>
        do now' <- Now;
        do r <- on_store (RotateSigningKey now' domain
                            (mkKey domain k alg keyStateCurrent now zero_time zero_time) (km_retention km));
        match r with
        | Err e =>
            do _ <- on_disk (λ d, (Ok (), os_remove (keyFilePath (km_dataDir km) domain k) d));
            mret (Err (OStore e))
        | Ok _ => mret (Ok k)
        end
    end.
Definition km_Revoke (domain k : string) : M S (result unit oerr) :=
  do now <- Now; do r <- on_store (RevokeSigningKey now domain k); mret (store_result r).
End KeyManager.

(** ** Requests and responses *)
Definition url_values : Type := gmap string (list string).
Definition get_first (v : url_values) (k : string) : string :=
  match v !! k with Some (x :: _) => x | _ => "" end.

Record request := mkRequest {
  r_Host : string; r_TLS : bool; r_Header : gmap string string;
  r_Query : url_values;
  (** the values of the body; [None] when [ParseForm] fails *)
  r_PostForm : option url_values;
  r_Cookies : gmap string string;
  r_Body : string;
}.
(** [r.FormValue]: the body's values come before those of the query. *)
Definition FormValue (r : request) (k : string) : string :=
  match r_PostForm r ≫= (.!! k) with
  | Some (x :: _) => x
  | _ => get_first (r_Query r) k
  end.

Record cookie := mkCookie {
  ck_Name : string; ck_Value : string; ck_MaxAge : Z; ck_HttpOnly : bool; ck_Secure : bool; ck_Strict : bool;
}.
Definition sessionCookieName : string := "auth_oidc_session".
Definition csrfCookieName : string := "auth_oidc_csrf".

Record authorizeParams := mkParams {
  p_ClientID : string; p_RedirectURI : string; p_Scope : string; p_State : string;
  p_CodeChallenge : string; p_CodeChallengeMethod : string; p_Nonce : string;
}.
Record discoveryDoc := mkDiscovery {
  Issuer : string; AuthorizationEndpoint : string; TokenEndpoint : string; UserinfoEndpoint : string;
  JWKSURI : string; SigningAlgs : list string; RegistrationEndpoint : string;
}.
Record registrationRequest := mkRegistration {
  q_ClientName : string; q_RedirectURIs : list string; q_AuthMethod : string;
  q_GrantTypes : list string; q_ResponseTypes : list string;
}.
Record registrationResponse := mkRegistered {
  a_ClientID : string; a_IssuedAt : Z; a_ClientName : string; a_RedirectURIs : list string;
  a_AuthMethod : string; a_GrantTypes : list string; a_ResponseTypes : list string;
}.
Record jwt_claims := mkClaims {
  cl_iss : string; cl_sub : string; cl_aud : string; cl_iat : Z; cl_exp : Z;
  cl_email : string; cl_name : string; cl_auth_time : option Z; cl_nonce : string;
}.
Record webfingerJRD := mkJRD { Subject : string; Rel : string; Href : string }.

Inductive response :=
| HttpError (status : Z) (message : string)
| ErrorPage (status : Z) (title message : string)
| LoginForm (status : Z) (domain : string) (params : authorizeParams) (username error csrf : string)
| Redirect (location : string)
| JsonError (status : Z) (code description : string)
| TokenResponse (access id : string) (expiresIn : Z)
| Userinfo (sub email name : string)
| Registered (status : Z) (r : registrationResponse)
| NoContent
| Discovery (doc : discoveryDoc)
| JWKS (keys : list string)
| Webfinger (doc : webfingerJRD)
| Health (status : Z) (h : healthzResponse)
| HandlerPanic.
Definition output : Type := response * list cookie.

(** [net.SplitHostPort]: the host, when the text has one and a port. *)
Definition SplitHostPort (hp : string) : option string :=
  match cut_last ":" hp with
  | None => None
  | Some (before, port) =>
      match hp with
      | String "["%char rest =>
          match cut "]" rest with
          | None => None
          | Some (host, after) =>
              (* the last colon follows the bracket at once *)
              if decide (after = String ":" port ∧ has_byte "[" rest = false ∧ has_byte "]" port = false)
              then Some host else None
          end
      | _ =>
          if has_byte ":" before || has_byte "[" hp || has_byte "]" hp then None else Some before
      end
  end.

Definition forwardedProto `{UnicodeCase} (r : request) : string :=
  let xfp := default "" (r_Header r !! "X-Forwarded-Proto") in
  if decide (xfp = "") then ""
  else ToLower (TrimSpace (match cut "," xfp with Some (a, _) => a | None => xfp end)).
Definition issuerBase `{UnicodeCase} (r : request) : string :=
  let proto := forwardedProto r in
  (if decide (proto = "") then (if r_TLS r then "https" else "http") else proto)
    +:+ "://" +:+ r_Host r.

(** The loop of [domainForHost]; every turn shortens the candidate. *)
Fixpoint strip_labels {A} (fuel : nat) (domains : gmap string A) (candidate : string) : option A :=
  match fuel with
  | O => None
  | Datatypes.S fuel =>
      match domains !! candidate with
      | Some de => Some de
      | None =>
          match cut "." candidate with
          | None => None
          | Some (_, rest) => if has_byte "." rest then strip_labels fuel domains rest else None
          end
      end
  end.
Definition domainForHost {A} (domains : gmap string A) (r : request) : option A :=
  let host := default (r_Host r) (SplitHostPort (r_Host r)) in
  strip_labels (Datatypes.S (String.length host)) domains host.

(** ** Libraries the handlers call *)
Class OidcLib := {
  sha256 : string → string;
  (** [base32.StdEncoding] without padding *)
  base32 : string → string;
  (** [jwt.Sign] with a private key and an algorithm *)
  jwt_sign : string → string → jwt_claims → option string;
  (** [jwt.Parse] against public keys with their ids, an issuer and the time *)
  jwt_parse : list (string * string) → string → Z → string → option jwt_claims;
  (** [json.Decode] of a registration *)
  decode_registration : string → option registrationRequest;
  (** [url.Parse]: scheme, host with its port, host without *)
  url_parse : string → option (string * string * string);
  (** [url.Parse], [Query], [Set] of each pair, [String] *)
  url_with : string → list (string * string) → option string;
}.

Section Handlers.
Context {S : Type} `{Store S} `{KeyLib, GoDuration, UnicodeCase, Crypto, KeyringJson, OidcLib}.
Context (cfg : Config) (decoy : string).
Open Scope oidc_scope.

Definition clientFor (de : domainEntry) (clientID : string) : M S (option ClientConfig) :=
  match head (filter (λ c, ID c = clientID) (clients de)) with
  | Some c => mret (Some c)
  | None =>
      do rc <- on_store (LookupClient (name de) clientID);
      mret ((λ rc, mkClientConfig (rc_Domain rc) (rc_ClientID rc) "" (rc_RedirectURIs rc)) <$> rc)
  end.
Definition validRedirectURI (c : ClientConfig) (uri : string) : bool := bool_decide (uri ∈ RedirectURIs c).

Definition validateParams (de : domainEntry) (p : authorizeParams) : M S (option string) :=
  if decide (p_ClientID p = "") then mret (Some "client_id is required")
  else if decide (p_RedirectURI p = "") then mret (Some "redirect_uri is required")
  else if decide (p_CodeChallenge p = "") then mret (Some "code_challenge is required (PKCE)")
  else if decide (p_CodeChallengeMethod p ≠ "S256") then mret (Some "code_challenge_method must be S256")
  else
    do c <- clientFor de (p_ClientID p);
    mret (match c with
          | None => Some "unknown client_id"
          | Some c => if validRedirectURI c (p_RedirectURI p) then None
                      else Some "redirect_uri not registered for this client"
          end).

Definition issueCodeAndRedirect (de : domainEntry) (username : string) (p : authorizeParams) : M S response :=
  do code <- generateToken 24;
  do now <- Now;
  store_ (StoreCode (mkCode code (name de) (p_ClientID p) username (p_RedirectURI p)
            (p_CodeChallenge p) (p_CodeChallengeMethod p) (p_Nonce p) (now + 600 * second))) ;;
  mret (match url_with (p_RedirectURI p)
                (("code", code) :: (if decide (p_State p = "") then [] else [("state", p_State p)])) with
        | Some location => Redirect location
        | None => HandlerPanic
        end).

Definition sessionCookie (r : request) : string := default "" (r_Cookies r !! sessionCookieName).
Definition setSessionCookie (r : request) (id : string) (ttl : Z) : cookie :=
  mkCookie sessionCookieName id ttl true (r_TLS r) false.
Definition clearSessionCookie (r : request) : cookie :=
  mkCookie sessionCookieName "" (-1) true (r_TLS r) false.
Definition getOrSetCSRF (r : request) : M S (string * list cookie) :=
  match r_Cookies r !! csrfCookieName with
  | Some (String _ _ as v) => mret (v, [])
  | _ => do t <- generateToken 16; mret (t, [mkCookie csrfCookieName t 0 false (r_TLS r) true])
  end.
Definition checkCSRF (r : request) : bool :=
  match r_Cookies r !! csrfCookieName with
  | Some (String _ _ as v) => bool_decide (v = FormValue r "csrf_token")
  | _ => false
  end.
Definition bearerToken (r : request) : string :=
  let h := default "" (r_Header r !! "Authorization") in
  if HasPrefix h "Bearer " then TrimPrefix h "Bearer " else "".
Definition renderLoginForm (de : domainEntry) (p : authorizeParams) (username errMsg csrf : string) : response :=
  LoginForm (if decide (errMsg = "") then 200 else 401) (name de) p username errMsg csrf.

Definition query_params (get : string → string) : authorizeParams :=
  mkParams (get "client_id") (get "redirect_uri") (get "scope") (get "state")
    (get "code_challenge") (get "code_challenge_method") (get "nonce").

Definition serveAuthorize (r : request) (de : domainEntry) : M S output :=
  let p := query_params (get_first (r_Query r)) in
  if decide (get_first (r_Query r) "response_type" ≠ "code") then
    mret (ErrorPage 400 "Bad Request" "only response_type=code is supported", [])
  else
    do bad <- validateParams de p;
    match bad with
    | Some e => mret (ErrorPage 400 "Bad Request" e, [])
    | None =>
        do sess <- (if decide (sessionCookie r = "") then mret None
                    else do now <- Now; on_store (LookupSession now (sessionCookie r)));
        match sess with
        | Some x =>
            if decide (ss_Domain x = name de) then
              do resp <- issueCodeAndRedirect de (ss_Username x) p; mret (resp, [])
            else
              do (csrf, cookies) <- getOrSetCSRF r; mret (renderLoginForm de p "" "" csrf, cookies)
        | None => do (csrf, cookies) <- getOrSetCSRF r; mret (renderLoginForm de p "" "" csrf, cookies)
        end
    end.

Definition normalizeLocalpart (input domainName : string) : option string :=
  match cut "@" input with
  | Some (local, d) => if decide (d = domainName) then Some local else None
  | None => Some input
  end.
(** [de.agent.Authenticate], recorded. *)
Definition check_password (de : domainEntry) (user pw : string) : M S (result AuthSession autherr) := λ w,
  let '(r, d, _) := Passwd.Authenticate decoy (agent de) user pw (w_disk w) in
  (r, record_call (CAuth (name de) user (is_ok r)) (set_disk d w)).

Definition serveLogin (r : request) (de : domainEntry) : M S output :=
  match r_PostForm r with
  | None => mret (ErrorPage 400 "Bad Request" "invalid form data", [])
  | Some _ =>
      if negb (checkCSRF r) then mret (ErrorPage 403 "Forbidden" "invalid or missing CSRF token", [])
      else
        let p := query_params (FormValue r) in
        do bad <- validateParams de p;
        match bad with
        | Some e => mret (ErrorPage 400 "Bad Request" e, [])
        | None =>
            let rawUsername := FormValue r "username" in
            do (csrf, cookies) <- getOrSetCSRF r;
            match normalizeLocalpart rawUsername (name de) with
            | None => mret (renderLoginForm de p rawUsername "Invalid email or username." csrf, cookies)
            | Some localpart =>
                do a <- check_password de localpart (FormValue r "password");
                match a with
                | Err Panic => mret (HandlerPanic, cookies)
                | Err (ErrUserNotFound | ErrAuthFailed) =>
                    mret (renderLoginForm de p rawUsername "Invalid username or password." csrf, cookies)
                | Err _ =>
                    mret (renderLoginForm de p rawUsername "An error occurred. Please try again." csrf, cookies)
                | Ok _ =>
                    do sessID <- generateToken 32;
                    do now <- Now;
                    let ttl := SessionTTLSec (c_Server cfg) in
                    store_ (StoreSession (mkSso sessID (name de) localpart (now + wrap_int64 (ttl * second)))) ;;
                    do resp <- issueCodeAndRedirect de localpart p;
                    mret (resp, cookies ++ [setSessionCookie r sessID ttl])
                end
            end
        end
  end.

Definition verifyPKCE (verifier challenge method : string) : bool :=
  if decide (method ≠ "S256" ∨ verifier = "") then false
  else bool_decide (b64_url (sha256 verifier) = challenge).

Definition issueJWT (k : loadedKey) (issuer audience sub email nm : string) (ttl : Z) : M S (result string oerr) :=
  do now <- Now;
  mret (match jwaAlgorithm (algorithm k) with
        | Err e => Err e
        | Ok alg =>
            match jwt_sign (privJWK k) alg
                    (mkClaims issuer sub audience now (now + ttl) email nm None "") with
            | None => Err OSign
            | Some t => Ok t
            end
        end).
Definition issueIDToken (k : loadedKey) (issuer audience sub email nonce : string) (ttl : Z) : M S (result string oerr) :=
  do now <- Now;
  mret (match jwaAlgorithm (algorithm k) with
        | Err e => Err e
        | Ok alg =>
            match jwt_sign (privJWK k) alg
                    (mkClaims issuer sub audience now (now + ttl) email "" (Some (Unix now)) nonce) with
            | None => Err OSign
            | Some t => Ok t
            end
        end).

(** From the key on: both tokens and the response. *)
Definition issue_tokens (r : request) (de : domainEntry) (clientID : string) (c : authCode) : M S output :=
  do dk <- currentKeyFor cfg (name de);
  match dk with
  | Err _ => mret (JsonError 500 "server_error" "signing key unavailable", [])
  | Ok dk =>
      let issuer := issuerBase r in
      let email := ac_Username c +:+ "@" +:+ name de in
      let ttl := wrap_int64 (JWTTTLSec (c_Server cfg) * second) in
      do access <- issueJWT dk issuer clientID (ac_Username c) email "" ttl;
      match access with
      | Err _ => mret (JsonError 500 "server_error" "token signing failed", [])
      | Ok access =>
          do idt <- issueIDToken dk issuer clientID (ac_Username c) email (ac_Nonce c) ttl;
          match idt with
          | Err _ => mret (JsonError 500 "server_error" "token signing failed", [])
          | Ok idt => mret (TokenResponse access idt (JWTTTLSec (c_Server cfg)), [])
          end
      end
  end.

Definition serveToken (r : request) (de : domainEntry) : M S output :=
  match r_PostForm r with
  | None => mret (JsonError 400 "invalid_request" "cannot parse form", [])
  | Some _ =>
      if decide (FormValue r "grant_type" ≠ "authorization_code") then
        mret (JsonError 400 "unsupported_grant_type" "only authorization_code is supported", [])
      else
        let clientID := FormValue r "client_id" in
        do now <- Now;
        do c <- on_store (ConsumeCode now (FormValue r "code"));
        match c with
        | Err ErrStore => mret (JsonError 500 "server_error" "token exchange failed", [])
        | Err _ => mret (JsonError 401 "invalid_grant" "invalid or expired authorization code", [])
        | Ok c =>
            if decide (ac_Domain c ≠ name de) then
              mret (JsonError 400 "invalid_grant" "domain mismatch", [])
            else if decide (ac_ClientID c ≠ clientID) then
              mret (JsonError 400 "invalid_grant" "client_id mismatch", [])
            else if decide (ac_RedirectURI c ≠ FormValue r "redirect_uri") then
              mret (JsonError 400 "invalid_grant" "redirect_uri mismatch", [])
            else if negb (verifyPKCE (FormValue r "code_verifier") (PKCEChallenge c) (PKCEMethod c)) then
              mret (JsonError 400 "invalid_grant" "PKCE verification failed", [])
            else
              do client <- clientFor de clientID;
              match client with
              | None => mret (JsonError 400 "invalid_client" "unknown client", [])
              | Some client =>
                  if decide (Secret client ≠ "" ∧ FormValue r "client_secret" ≠ Secret client) then
                    mret (JsonError 401 "invalid_client" "client authentication failed", [])
                  else issue_tokens r de clientID c
              end
        end
  end.

Definition serveUserinfo (r : request) (de : domainEntry) : M S output :=
  let raw := bearerToken r in
  if decide (raw = "") then mret (HttpError 401 "missing bearer token", [])
  else
    do ks <- activePublicJWKsFor cfg (name de);
    match ks with
    | Err _ => mret (HttpError 500 "key error", [])
    | Ok [] => mret (HttpError 500 "no signing key", [])
    | Ok ks =>
        do now <- Now;
        mret (match jwt_parse ((λ k, (kid k, pubJWK k)) <$> ks) (issuerBase r) now raw with
              | None => (HttpError 401 "invalid token", [])
              | Some c => (Userinfo (cl_sub c) (cl_email c) (cl_name c), [])
              end)
    end.

(** *** Registration *)
Definition maxClientNameLen : Z := 200.
Definition maxRedirectURIsPerReg : nat := 10.
Definition maxRedirectURILen : Z := 2048.

Definition validateRedirectURIScheme (raw : string) : option string :=
  match url_parse raw with
  | None => Some "invalid redirect_uri"
  | Some (scheme, host, hostname) =>
      if decide (host = "") then Some "invalid redirect_uri"
      else if decide (hostname = "localhost" ∨ hostname = "127.0.0.1" ∨ hostname = "::1") then None
      else if decide (scheme = "https") then None
      else Some "redirect_uri must use https"
  end.
Fixpoint check_uris (uris : list string) : option string :=
  match uris with
  | [] => None
  | u :: us => if maxRedirectURILen <? blen u then Some "redirect_uri too long"
               else match validateRedirectURIScheme u with
                    | Some e => Some e
                    | None => check_uris us
                    end
  end.
Definition sort_uris (l : list string) : list string := merge_sort String.le l.
Definition client_text (domain clientName : string) (uris : list string) : string :=
  domain +:+ String NUL (clientName +:+ String NUL
    (foldr (λ u t, u +:+ String NUL t) "" (sort_uris uris))).
Definition deriveClientID (domain clientName : string) (uris : list string) : string :=
  "dyn_" +:+ ToLower (base32 (stake 15 (sha256 (client_text domain clientName uris)))).
Definition registrationMatches (stored : registeredClient) (clientName : string) (uris : list string) : bool :=
  bool_decide (ClientName stored = clientName)
    && bool_decide (length (rc_RedirectURIs stored) = length uris)
    && bool_decide (sort_uris (rc_RedirectURIs stored) = sort_uris uris).

Definition serveRegister (r : request) (de : domainEntry) : M S output :=
  match decode_registration (r_Body r) with
  | None => mret (JsonError 400 "invalid_client_metadata" "invalid JSON body", [])
  | Some q =>
      if decide (q_RedirectURIs q = []) then
        mret (JsonError 400 "invalid_redirect_uri" "redirect_uris is required", [])
      else if decide (maxRedirectURIsPerReg < length (q_RedirectURIs q))%nat then
        mret (JsonError 400 "invalid_redirect_uri" "too many redirect_uris", [])
      else if maxClientNameLen <? blen (q_ClientName q) then
        mret (JsonError 400 "invalid_client_metadata" "client_name too long", [])
      else
        match check_uris (q_RedirectURIs q) with
        | Some e => mret (JsonError 400 "invalid_redirect_uri" e, [])
        | None =>
            let authMeth := or_default "none" (q_AuthMethod q) in
            let grants := match q_GrantTypes q with [] => ["authorization_code"] | l => l end in
            let resps := match q_ResponseTypes q with [] => ["code"] | l => l end in
            let fresh := λ clientID,
              do now <- Now;
              store_ (RegisterClient (mkClient clientID (name de) (q_ClientName q) (q_RedirectURIs q) now)) ;;
              mret (Registered 201 (mkRegistered clientID (Unix now) (q_ClientName q) (q_RedirectURIs q)
                                      authMeth grants resps), []) in
            let clientID := deriveClientID (name de) (q_ClientName q) (q_RedirectURIs q) in
            do existing <- on_store (LookupClient (name de) clientID);
            match existing with
            | Some x =>
                if registrationMatches x (q_ClientName q) (q_RedirectURIs q) then
                  mret (Registered 200 (mkRegistered (rc_ClientID x) (Unix (RegisteredAt x)) (ClientName x)
                                          (rc_RedirectURIs x) authMeth grants resps), [])
                else do t <- generateToken 16; fresh t
            | None => fresh clientID
            end
        end
  end.

Definition serveLogout (r : request) (de : domainEntry) : M S output :=
  (if decide (sessionCookie r = "") then mret () else store_ (DeleteSession (sessionCookie r))) ;;
  mret (NoContent, [clearSessionCookie r]).

(** *** Documents *)
Definition serveDiscovery (r : request) (de : domainEntry) : M S output :=
  let base := issuerBase r in
  do algs <- activeAlgorithmsFor (name de);
  mret (match algs with
        | Err _ => (HttpError 500 "discovery: list algorithms", [])
        | Ok [] => (HttpError 500 "discovery: no active signing keys", [])
        | Ok algs =>
            (Discovery (mkDiscovery base (base +:+ "/authorize") (base +:+ "/token") (base +:+ "/userinfo")
                          (base +:+ "/.well-known/jwks.json") algs (base +:+ "/register")), [])
        end).
Definition serveJWKS (de : domainEntry) : M S output :=
  do ks <- activePublicJWKsFor cfg (name de);
  mret (match ks with
        | Err _ => (HttpError 500 "jwks: load keys", [])
        | Ok [] => (HttpError 500 "no active signing keys", [])
        | Ok ks => (JWKS (pubJWK <$> ks), [])
        end).
Definition defaultWebfingerIssuerTemplate : string := "https://auth.{domain}".
Definition oidcIssuerRel : string := "http://openid.net/specs/connect/1.0/issuer".
Definition webfingerIssuerURL (domain : string) : string :=
  ReplaceAll (or_default defaultWebfingerIssuerTemplate (WebfingerIssuerTemplate (c_Server cfg)))
    "{domain}" domain.
Definition webfinger (r : request) (de : domainEntry) : M S output :=
  let resource := or_default ("acct:_@" +:+ name de) (get_first (r_Query r) "resource") in
  mret (Webfinger (mkJRD resource oidcIssuerRel (webfingerIssuerURL (name de))), []).

(** *** Routes *)
Inductive route :=
| PostRegister | GetDiscovery | GetJWKS | GetWebfinger | GetAuthorize | PostLogin | PostToken
| GetUserinfo | PostLogout.
Definition handle (domains : gmap string domainEntry) (rt : route) (r : request) : M S output :=
  match domainForHost domains r with
  | None => mret (HttpError 404 "unknown domain", [])
  | Some de =>
      match rt with
      | PostRegister => serveRegister r de
      | GetDiscovery => serveDiscovery r de
      | GetJWKS => serveJWKS de
      | GetWebfinger => webfinger r de
      | GetAuthorize => serveAuthorize r de
      | PostLogin => serveLogin r de
      | PostToken => serveToken r de
      | GetUserinfo => serveUserinfo r de
      | PostLogout => serveLogout r de
      end
  end.
End Handlers.

(** ** What is in the store comes from a login

    [good]: every pending code and every session names a user whose password the
    agent of that domain has accepted. *)
Section Provenance.
Context {S : Type} `{StoreLaws S}.
Open Scope oidc_scope.

Definition good (w : world S) : Prop :=
  inv (w_store w) ∧
  (∀ x c, v_codes (abs (w_store w)) !! x = Some c →
     CAuth (ac_Domain c) (ac_Username c) true ∈ w_log w ∧ PKCEMethod c = "S256") ∧
  (∀ x y, v_sessions (abs (w_store w)) !! x = Some y →
     CAuth (ss_Domain y) (ss_Username y) true ∈ w_log w).
(** An action that keeps [good] and forgets no call. *)
Definition ok_at {A} (w : world S) (m : M S A) : Prop :=
  good (m w).2 ∧ w_log w ⊆ w_log (m w).2.
Definition keeps {A} (m : M S A) : Prop := ∀ w, good w → ok_at w m.

Lemma ok_at_bind {A B} w (m : M S A) (k : A → M S B) :
  ok_at w m → ok_at (m w).2 (k (m w).1) → ok_at w (mbind m k).
Proof using Type.
  unfold ok_at, mbind. intros [Hg Hl] [Hg' Hl']. destruct (m w) as [a w1]. simpl in *.
  split; [done|]. intros x Hx. by apply Hl', Hl.
Qed.

Lemma keeps_ret {A} (a : A) : keeps (mret a).
Proof using Type. intros w Hw. by split. Qed.
Lemma keeps_bind {A B} (m : M S A) (k : A → M S B) :
  keeps m → (∀ a, keeps (k a)) → keeps (mbind m k).
Proof using Type.
  intros Hm Hk w Hw. apply ok_at_bind; [by apply Hm|]. apply Hk. by apply Hm.
Qed.
Lemma keeps_if {A} (P : Prop) `{Decision P} (m1 m2 : M S A) :
  keeps m1 → keeps m2 → keeps (if decide P then m1 else m2).
Proof using Type. by destruct (decide P). Qed.
Lemma keeps_Now : keeps Now.
Proof using Type. intros w Hw. by split. Qed.
Lemma keeps_Rand n : keeps (Rand n).
Proof using Type. intros w Hw. by split. Qed.
Lemma keeps_disk {A} (f : io oerr A) : keeps (on_disk f).
Proof using Type. intros w Hw. unfold ok_at, on_disk. destruct (f (w_disk w)). by split. Qed.
Lemma keeps_cache f : keeps (on_cache f).
Proof using Type. intros w Hw. by split. Qed.
Lemma keeps_store {A} (f : S → A * S) :
  (∀ s, inv s → inv (f s).2 ∧ v_codes (abs (f s).2) ⊆ v_codes (abs s) ∧
                v_sessions (abs (f s).2) ⊆ v_sessions (abs s)) → keeps (on_store f).
Proof using Type.
  intros Hf w (Hi & Hc & Hs). unfold ok_at, on_store. destruct (Hf _ Hi) as (Hi' & Hc' & Hs').
  destruct (f (w_store w)) as [a s]. simpl in *. split; [|done]. split; [done|]. split; simpl.
  - intros x c Hx. eapply Hc, lookup_weaken; done.
  - intros x y Hx. eapply Hs, lookup_weaken; done.
Qed.
Lemma keeps_store_ (f : S → S) :
  (∀ s, inv s → inv (f s) ∧ v_codes (abs (f s)) ⊆ v_codes (abs s) ∧
                v_sessions (abs (f s)) ⊆ v_sessions (abs s)) → keeps (store_ f).
Proof using Type.
  intros Hf w (Hi & Hc & Hs). unfold ok_at, store_. destruct (Hf _ Hi) as (Hi' & Hc' & Hs').
  split; [|done]. split; [done|]. split; simpl.
  - intros x c Hx. eapply Hc, lookup_weaken; done.
  - intros x y Hx. eapply Hs, lookup_weaken; done.
Qed.

Lemma keeps_list d : no_byte NUL d → keeps (on_store (ListSigningKeys d)).
Proof.
  intros Hd. apply keeps_store. intros s Hi. destruct (ListSigningKeys d s) as [r s'] eqn:E. cbn [snd].
  by apply law_list in E as ([? _] & -> & _).
Qed.
Lemma keeps_lookup_client d x : no_byte NUL d → keeps (on_store (LookupClient d x)).
Proof.
  intros Hd. apply keeps_store. intros s Hi. destruct (LookupClient d x s) as [r s'] eqn:E. cbn [snd].
  by apply law_lookup_client in E as ([? _] & -> & _).
Qed.
Lemma keeps_lookup_session now x : keeps (on_store (LookupSession now x)).
Proof.
  apply keeps_store. intros s Hi. destruct (LookupSession now x s) as [r s'] eqn:E.
  apply law_lookup_session in E as ([? _] & E); [|done]. simpl. destruct r as [y|].
  - by destruct E as (_ & _ & ->).
  - destruct E as [[->| ->] _]; [done|]. split; [done|]. split; [done|]. apply delete_subseteq.
Qed.
Lemma keeps_consume now x : keeps (on_store (ConsumeCode now x)).
Proof.
  apply keeps_store. intros s Hi. destruct (ConsumeCode now x s) as [r s'] eqn:E.
  apply law_consume in E as ([? _] & E); [|done]. simpl.
  assert (Hv : abs s' = abs s ∨ abs s' = code_removed x s).
  { destruct r as [c|[]]; [destruct E as (_ & _ & E)|destruct E as [_ E]|destruct E as (? & _ & _ & E)
    |destruct E as [_ E]]; tauto. }
  destruct Hv as [->| ->]; [done|]. split; [done|]. split; [|done]. apply delete_subseteq.
Qed.
Lemma keeps_delete_session x : keeps (store_ (DeleteSession x)).
Proof.
  apply keeps_store_. intros s Hi. destruct (law_delete_session x s Hi) as (? & _ & [->| ->]); [|done].
  split; [done|]. split; [done|]. apply delete_subseteq.
Qed.
Lemma keeps_register c : storable c → no_byte NUL (rc_Domain c) → keeps (store_ (RegisterClient c)).
Proof.
  intros Hc Hd. apply keeps_store_. intros s Hi.
  by destruct (law_register c s Hi Hc Hd) as (? & _ & [->| ->]).
Qed.
End Provenance.
Create HintDb keeps discriminated.
#[export] Hint Resolve keeps_ret keeps_if keeps_Now keeps_Rand keeps_disk keeps_cache
  keeps_list keeps_lookup_client keeps_lookup_session keeps_consume keeps_delete_session
  keeps_register : keeps.

(** Walk through an action. *)
Ltac keep_going :=
  repeat match goal with
  | |- @keeps _ _ _ (mbind _ _) => apply keeps_bind; [|intros ?]
  | |- @keeps _ _ _ (match ?x with _ => _ end) => destruct x
  end; auto with keeps.

Section Sessions.
Context {S : Type} `{StoreLaws S} `{KeyLib, GoDuration, UnicodeCase, Crypto, KeyringJson, OidcLib}.
Context (cfg : Config) (decoy : string).
Open Scope oidc_scope.

Lemma keeps_token n : keeps (generateToken n : M S string).
Proof using Type. unfold generateToken. keep_going. Qed.
Lemma keeps_csrf r : keeps (getOrSetCSRF r : M S (string * list cookie)).
Proof using Type. unfold getOrSetCSRF. keep_going; apply keeps_token. Qed.
Lemma keeps_load_record rec : keeps (loadKeyFromRecord (S := S) cfg rec).
Proof using Type.
  intros w Hw. unfold ok_at, loadKeyFromRecord. destruct (Get _ _ _); [by apply keeps_ret|].
  revert w Hw. change (keeps (S := S) (do r <- on_disk (loadKeyFile (DataDir (c_Server cfg)) (sk_Domain rec)
    (KID rec) (sk_Algorithm rec)); match r with Err e => mret (Err e)
    | Ok k => on_cache (Put (sk_Domain rec) k) ;; mret (Ok k) end)). keep_going.
Qed.
Lemma keeps_load_all l : keeps (load_all (S := S) cfg l).
Proof using Type.
  induction l as [|rec l IH]; simpl; [apply keeps_ret|].
  apply keeps_bind; [apply keeps_load_record|]. intros [k|e]; keep_going.
Qed.
Lemma keeps_current d : no_byte NUL d → keeps (currentKeyFor (S := S) cfg d).
Proof.
  intros Hd. unfold currentKeyFor. keep_going. apply keeps_load_record.
Qed.
Lemma keeps_active d : no_byte NUL d → keeps (activePublicJWKsFor (S := S) cfg d).
Proof. intros Hd. unfold activePublicJWKsFor. keep_going. apply keeps_load_all. Qed.
Lemma keeps_algs d : no_byte NUL d → keeps (activeAlgorithmsFor (S := S) d).
Proof. intros Hd. unfold activeAlgorithmsFor. keep_going. Qed.
Lemma keeps_clientFor de x : no_byte NUL (name de) → keeps (clientFor (S := S) de x).
Proof. intros Hd. unfold clientFor. keep_going. Qed.
Lemma keeps_validate de p : no_byte NUL (name de) → keeps (validateParams (S := S) de p).
Proof.
  intros Hd. unfold validateParams. repeat (apply keeps_if; [apply keeps_ret|]).
  apply keeps_bind; [by apply keeps_clientFor|]. intros c. apply keeps_ret.
Qed.

(** What a request that passed validation has. *)
Definition client_has (de : domainEntry) (s : S) (clientID uri : string) : Prop :=
  (∃ c, c ∈ clients de ∧ ID c = clientID ∧ uri ∈ RedirectURIs c) ∨
  (∃ rc, v_clients (abs s) !! (name de, clientID) = Some rc ∧ uri ∈ rc_RedirectURIs rc).
Lemma validate_ok de p w :
  no_byte NUL (name de) → inv (w_store w) → (validateParams (S := S) de p w).1 = None →
  p_CodeChallengeMethod p = "S256" ∧ client_has de (w_store w) (p_ClientID p) (p_RedirectURI p).
Proof.
  intros Hd Hi. unfold validateParams.
  do 3 (destruct (decide _); [done|]). destruct (decide _) as [|Hm]; [done|].
  apply dec_stable in Hm. unfold clientFor, mbind, client_has.
  destruct (head (filter _ (clients de))) as [c|] eqn:Eh.
  - assert (Hc : c ∈ filter (λ c, ID c = p_ClientID p) (clients de)).
    { destruct (filter _ (clients de)); [done|]. injection Eh as ->. by left. }
    apply list_elem_of_filter in Hc as [Hid Hc]. simpl. unfold validRedirectURI.
    destruct (bool_decide_reflect (p_RedirectURI p ∈ RedirectURIs c)); [|done]. eauto 6.
  - unfold on_store. destruct (LookupClient _ _ (w_store w)) as [o s'] eqn:E.
    apply law_lookup_client in E as (_ & _ & Ho); [|done..]. simpl.
    destruct o as [rc|]; simpl; [|done]. unfold validRedirectURI. simpl.
    destruct (bool_decide_reflect (p_RedirectURI p ∈ rc_RedirectURIs rc)); [|done].
    destruct Ho as [Ho|[? _]]; [|done]. intros _. split; [done|]. right. eauto.
Qed.

(** Actions that may use a recorded login. *)
Definition keeps_auth {A} (d u : string) (m : M S A) : Prop :=
  ∀ w, good w → CAuth d u true ∈ w_log w → ok_at w m.
Lemma keeps_auth_keeps {A} d u (m : M S A) : keeps m → keeps_auth d u m.
Proof. intros Hm w Hw _. by apply Hm. Qed.
Lemma keeps_auth_bind {A B} d u (m : M S A) (k : A → M S B) :
  keeps_auth d u m → (∀ a, keeps_auth d u (k a)) → keeps_auth d u (mbind m k).
Proof.
  intros Hm Hk w Hw Hl. destruct (Hm w Hw Hl) as [Hg Hs]. apply ok_at_bind; [done|].
  apply Hk; [done|]. by apply Hs.
Qed.
Lemma keeps_auth_code c :
  PKCEMethod c = "S256" → keeps_auth (ac_Domain c) (ac_Username c) (store_ (StoreCode c)).
Proof.
  intros Hp w (Hi & Hc & Hs) Hl. unfold ok_at, store_. simpl.
  destruct (law_store_code c (w_store w) Hi) as (Hi' & _ & Hv). split; [|done].
  split; [done|]. simpl. destruct Hv as [-> | ->]; [|done]. split; [|done]. simpl.
  intros x c'. destruct (decide (ac_Code c = x)) as [<-|Hx].
  - rewrite lookup_insert_eq. by intros [= <-].
  - rewrite lookup_insert_ne by done. apply Hc.
Qed.
Lemma keeps_auth_session y :
  keeps_auth (ss_Domain y) (ss_Username y) (store_ (StoreSession y)).
Proof.
  intros w (Hi & Hc & Hs) Hl. unfold ok_at, store_. simpl.
  destruct (law_store_session y (w_store w) Hi) as (Hi' & _ & Hv). split; [|done].
  split; [done|]. simpl. destruct Hv as [-> | ->]; [|done]. split; [done|]. simpl.
  intros x y'. destruct (decide (ss_ID y = x)) as [<-|Hx].
  - rewrite lookup_insert_eq. by intros [= <-].
  - rewrite lookup_insert_ne by done. apply Hs.
Qed.
Lemma keeps_issue de u p :
  p_CodeChallengeMethod p = "S256" → keeps_auth (name de) u (issueCodeAndRedirect (S := S) de u p).
Proof.
  intros Hp. unfold issueCodeAndRedirect.
  apply keeps_auth_bind; [apply keeps_auth_keeps, keeps_token|intros code].
  apply keeps_auth_bind; [apply keeps_auth_keeps; auto with keeps|intros now].
  apply keeps_auth_bind; [|intros _; apply keeps_auth_keeps, keeps_ret].
  match goal with |- keeps_auth _ _ (store_ (StoreCode ?c)) => exact (keeps_auth_code c Hp) end.
Qed.

Lemma check_password_good de u pw w :
  good w →
  good (check_password decoy de u pw w).2 ∧ w_log w ⊆ w_log (check_password decoy de u pw w).2 ∧
  (is_ok (check_password decoy de u pw w).1 = true →
   CAuth (name de) u true ∈ w_log (check_password decoy de u pw w).2).
Proof.
  intros (Hi & Hc & Hs). unfold check_password.
  destruct (Passwd.Authenticate decoy (agent de) u pw (w_disk w)) as [[r d] l]. simpl.
  split; [|split]; [split; [done|split]| |]; simpl.
  - intros x c Hx. destruct (Hc x c Hx). split; [set_solver|done].
  - intros x y Hx. apply Hs in Hx. set_solver.
  - set_solver.
  - intros ->. set_solver.
Qed.
End Sessions.
#[export] Hint Resolve keeps_token keeps_csrf keeps_load_record keeps_load_all keeps_current
  keeps_active keeps_algs keeps_clientFor keeps_validate : keeps.

Section Requests.
Context {S : Type} `{StoreLaws S} `{KeyLib, GoDuration, UnicodeCase, Crypto, KeyringJson, OidcLib}.
Context (cfg : Config) (decoy : string) (domains : gmap string domainEntry).
(** Registered addresses are JSON strings, so the store can keep them. *)
Context (registrable : ∀ body q, decode_registration body = Some q →
           ∀ id d n t, storable (mkClient id d n (q_RedirectURIs q) t)).
(** Domains are directory names. *)
Context (domains_ok : map_Forall (λ d de, name de = d ∧ no_byte NUL d) domains).
Open Scope oidc_scope.

Lemma keeps_authorize r de : no_byte NUL (name de) → keeps (serveAuthorize (S := S) r de).
Proof.
  intros Hd w Hw. unfold serveAuthorize. cbv zeta. destruct (decide _); [by apply keeps_ret|].
  set (p := query_params _).
  pose proof (keeps_validate (S := S) de p Hd w Hw) as Hv. apply ok_at_bind; [done|].
  pose proof (validate_ok de p w Hd (proj1 Hw)) as Ho. destruct Hv as [Hg1 _].
  destruct (validateParams de p w) as [[e|] w1]; cbn [fst snd] in *; [by apply keeps_ret|].
  destruct (Ho eq_refl) as [Hm _].
  assert (Hform : keeps (S := S) (do (csrf, cookies) <- getOrSetCSRF r;
                    mret (renderLoginForm de p "" "" csrf, cookies))).
  { apply keeps_bind; [auto with keeps|]. intros [csrf cookies]. apply keeps_ret. }
  destruct (decide (sessionCookie r = "")).
  { apply ok_at_bind; [by apply keeps_ret|]. by apply Hform. }
  apply ok_at_bind; [apply keeps_bind; auto with keeps|].
  unfold mbind at 1. unfold mbind at 1. simpl. unfold on_store. simpl.
  destruct (LookupSession _ _ (w_store w1)) as [o s'] eqn:E. cbn [fst snd].
  assert (Hg2 : good (set_store s' (Now w1).2)).
  { pose proof (keeps_lookup_session (w_clock w1 (w_tick w1)) (sessionCookie r) (Now w1).2
                  (proj1 (keeps_Now w1 Hg1))) as [Hk2 _].
    unfold on_store in Hk2. simpl in Hk2. by rewrite E in Hk2. }
  apply law_lookup_session in E as [_ E]; [|apply Hg1].
  destruct o as [x|]; [|by apply Hform]. destruct E as (Hx & _ & _).
  assert (Hau : CAuth (ss_Domain x) (ss_Username x) true ∈ w_log w1) by (by eapply (proj2 (proj2 Hg1))).
  destruct (decide (ss_Domain x = name de)) as [Hdom|]; [|by apply Hform].
  rewrite Hdom in Hau. apply (keeps_auth_bind (name de) (ss_Username x)); [by apply keeps_issue| |done|done].
  intros. apply keeps_auth_keeps, keeps_ret.
Qed.

Lemma keeps_login r de : no_byte NUL (name de) → keeps (serveLogin (S := S) cfg decoy r de).
Proof.
  intros Hd w Hw. unfold serveLogin. destruct (r_PostForm r) as [form|]; [|by apply keeps_ret].
  destruct (negb (checkCSRF r)); [by apply keeps_ret|]. cbv zeta.
  set (p := query_params _).
  pose proof (keeps_validate (S := S) de p Hd w Hw) as Hv. apply ok_at_bind; [done|].
  pose proof (validate_ok de p w Hd (proj1 Hw)) as Ho. destruct Hv as [Hg1 _].
  destruct (validateParams de p w) as [[e|] w1]; cbn [fst snd] in *; [by apply keeps_ret|].
  destruct (Ho eq_refl) as [Hm _].
  pose proof (keeps_csrf (S := S) r w1 Hg1) as Hc. apply ok_at_bind; [done|]. destruct Hc as [Hg2 _].
  destruct (getOrSetCSRF r w1) as [[csrf cookies] w2]. cbn [fst snd] in *.
  destruct (normalizeLocalpart _ _) as [u|]; [|by apply keeps_ret].
  destruct (check_password_good decoy de u (FormValue r "password") w2 Hg2) as (Hg3 & Hl3 & Hau).
  apply ok_at_bind; [by split|].
  destruct (check_password decoy de u (FormValue r "password") w2) as [[sess|e] w3]; cbn [fst snd] in *;
    [|by destruct e; apply keeps_ret].
  specialize (Hau eq_refl). revert w3 Hg3 Hl3 Hau. intros w3 Hg3 _ Hau.
  apply (keeps_auth_bind (name de) u); [apply keeps_auth_keeps; auto with keeps|intros sid|done..].
  apply keeps_auth_bind; [apply keeps_auth_keeps; auto with keeps|intros now].
  apply keeps_auth_bind; [|intros _].
  - match goal with |- keeps_auth _ _ (store_ (StoreSession ?y)) => exact (keeps_auth_session y) end.
  - apply keeps_auth_bind; [by apply keeps_issue|]. intros. apply keeps_auth_keeps, keeps_ret.
Qed.

Lemma keeps_jwt k a b c d e ttl : keeps (issueJWT (S := S) k a b c d e ttl).
Proof. unfold issueJWT. keep_going. Qed.
Lemma keeps_idtoken k a b c d e ttl : keeps (issueIDToken (S := S) k a b c d e ttl).
Proof. unfold issueIDToken. keep_going. Qed.
Lemma keeps_issue_tokens r de x c : no_byte NUL (name de) → keeps (issue_tokens (S := S) cfg r de x c).
Proof.
  intros Hd. unfold issue_tokens. cbv zeta.
  apply keeps_bind; [auto with keeps|]. intros [dk|]; [|apply keeps_ret].
  apply keeps_bind; [apply keeps_jwt|]. intros [|]; [|apply keeps_ret].
  apply keeps_bind; [apply keeps_idtoken|]. intros [|]; apply keeps_ret.
Qed.
Lemma keeps_serveToken r de : no_byte NUL (name de) → keeps (serveToken (S := S) cfg r de).
Proof.
  intros Hd. unfold serveToken. cbv zeta. destruct (r_PostForm r); [|apply keeps_ret].
  apply keeps_if; [apply keeps_ret|]. apply keeps_bind; [auto with keeps|intros now].
  apply keeps_bind; [auto with keeps|]. intros [c|[]]; try apply keeps_ret.
  do 3 (apply keeps_if; [apply keeps_ret|]). destruct (negb _); [apply keeps_ret|].
  apply keeps_bind; [by apply keeps_clientFor|]. intros [cl|]; [|apply keeps_ret].
  apply keeps_if; [apply keeps_ret|by apply keeps_issue_tokens].
Qed.
Lemma keeps_userinfo r de : no_byte NUL (name de) → keeps (serveUserinfo (S := S) cfg r de).
Proof.
  intros Hd. unfold serveUserinfo. cbv zeta. apply keeps_if; [apply keeps_ret|].
  apply keeps_bind; [auto with keeps|]. intros [[|k ks]|]; try apply keeps_ret. keep_going.
Qed.
Lemma keeps_serveRegister r de : no_byte NUL (name de) → keeps (serveRegister (S := S) r de).
Proof.
  intros Hd. unfold serveRegister. destruct (decode_registration (r_Body r)) as [q|] eqn:Eq; [|apply keeps_ret].
  do 2 (apply keeps_if; [apply keeps_ret|]). destruct (_ <? _); [apply keeps_ret|].
  destruct (check_uris _); [apply keeps_ret|]. cbv zeta.
  assert (Hreg : ∀ id now, keeps (S := S) (store_ (RegisterClient
            (mkClient id (name de) (q_ClientName q) (q_RedirectURIs q) now)))).
  { intros. apply keeps_register; [by eapply registrable|done]. }
  apply keeps_bind; [auto with keeps|]. intros [x|].
  - destruct (registrationMatches _ _ _); [apply keeps_ret|].
    apply keeps_bind; [auto with keeps|intros t]. apply keeps_bind; [auto with keeps|intros now].
    apply keeps_bind; [apply Hreg|intros; apply keeps_ret].
  - apply keeps_bind; [auto with keeps|intros now]. apply keeps_bind; [apply Hreg|intros; apply keeps_ret].
Qed.

Lemma strip_labels_in {A} fuel (m : gmap string A) c de :
  strip_labels fuel m c = Some de → ∃ d, m !! d = Some de.
Proof.
  revert c. induction fuel as [|fuel IH]; intros c; simpl; [done|].
  destruct (m !! c) eqn:E; [intros [= <-]; eauto|]. destruct (cut "." c) as [[a b]|]; [|done].
  destruct (has_byte "." b); [|done]. apply IH.
Qed.
Lemma host_ok r de : domainForHost domains r = Some de → domains !! name de = Some de ∧ no_byte NUL (name de).
Proof.
  intros Hh. apply strip_labels_in in Hh as [d Hd].
  destruct (domains_ok d de Hd) as [Hn Hb]. by rewrite Hn.
Qed.

Lemma keeps_handle rt r : keeps (handle (S := S) cfg decoy domains rt r).
Proof.
  unfold handle. destruct (domainForHost domains r) as [de|] eqn:E; [|apply keeps_ret].
  apply host_ok in E as [_ Hd]. destruct rt.
  - by apply keeps_serveRegister.
  - unfold serveDiscovery. keep_going.
  - unfold serveJWKS. keep_going.
  - apply keeps_ret.
  - by apply keeps_authorize.
  - by apply keeps_login.
  - by apply keeps_serveToken.
  - by apply keeps_userinfo.
  - unfold serveLogout. apply keeps_bind; [|intros; apply keeps_ret].
    apply keeps_if; [apply keeps_ret|auto with keeps].
Qed.
End Requests.

(** ** A whole run of the server

    Requests in any order; between them the sweeper, the rotator and the
    operator's tool work on the store, and others on the disk. *)
Inductive event := ERequest (rt : route) (r : request) | EStore (o : op) | EDisk (d : folder).

Section Runs.
Context {S : Type} `{StoreLaws S} `{KeyLib, GoDuration, UnicodeCase, Crypto, KeyringJson, OidcLib}.
Context (cfg : Config) (decoy : string) (domains : gmap string domainEntry).
Open Scope oidc_scope.

Definition serve_event (w : world S) (e : event) : world S :=
  match e with
  | ERequest rt r => (handle cfg decoy domains rt r w).2
  | EStore o => set_store (do_op o (w_store w)).2 w
  | EDisk d => set_disk d w
  end.
(** Codes and sessions are stored by the handlers only. *)
Definition event_ok (e : event) : Prop :=
  match e with
  | EStore (OStoreCode _) | EStore (OStoreSession _) => False
  | EStore o => op_ok (S := S) o
  | _ => True
  end.

(** Actions that only read the store. *)
Definition reads {A} (m : M S A) : Prop :=
  ∀ w, inv (w_store w) → inv (w_store (m w).2) ∧ abs (w_store (m w).2) = abs (w_store w).
Lemma reads_bind {A B} (m : M S A) (k : A → M S B) : reads m → (∀ a, reads (k a)) → reads (mbind m k).
Proof using Type.
  intros Hm Hk w Hi. unfold mbind. specialize (Hm w Hi). destruct (m w) as [a w1]. destruct Hm as [Hi1 E1].
  destruct (Hk a w1 Hi1) as [Hi2 E2]. split; [done|]. simpl in *. congruence.
Qed.
Lemma reads_same {A} (m : M S A) : (∀ w, w_store (m w).2 = w_store w) → reads m.
Proof using Type. intros Hm w Hi. by rewrite Hm. Qed.
Lemma reads_ret {A} (a : A) : reads (mret a).
Proof using Type. by apply reads_same. Qed.
Lemma reads_Now : reads Now.
Proof using Type. by apply reads_same. Qed.
Lemma reads_disk {A} (f : io oerr A) : reads (on_disk f).
Proof using Type. apply reads_same. intros w. unfold on_disk. by destruct (f (w_disk w)). Qed.
Lemma reads_list d : no_byte NUL d → reads (on_store (ListSigningKeys d)).
Proof.
  intros Hd w Hi. unfold on_store. destruct (ListSigningKeys d (w_store w)) as [r s'] eqn:E.
  by apply law_list in E as ([? _] & ? & _).
Qed.
Lemma reads_clientFor de x : no_byte NUL (name de) → reads (clientFor (S := S) de x).
Proof.
  intros Hd. unfold clientFor. destruct (head _); [apply reads_ret|]. apply reads_bind; [|intros; apply reads_ret].
  intros w Hi. unfold on_store. destruct (LookupClient _ _ (w_store w)) as [r s'] eqn:E.
  by apply law_lookup_client in E as ([? _] & ? & _).
Qed.
Lemma reads_record rec : reads (loadKeyFromRecord (S := S) cfg rec).
Proof using Type.
  apply reads_same. intros w. unfold loadKeyFromRecord. destruct (Get _ _ _); [done|].
  unfold mbind, on_disk. destruct (loadKeyFile _ _ _ _ _) as [[k|] d]; done.
Qed.
Lemma reads_current d : no_byte NUL d → reads (currentKeyFor (S := S) cfg d).
Proof.
  intros Hd. unfold currentKeyFor. apply reads_bind; [by apply reads_list|]. intros [l|]; [|apply reads_ret].
  destruct (head _); [apply reads_record|apply reads_ret].
Qed.
Lemma reads_issue_tokens r de x c : no_byte NUL (name de) → reads (issue_tokens (S := S) cfg r de x c).
Proof.
  intros Hd. unfold issue_tokens. apply reads_bind; [by apply reads_current|].
  intros [k|]; [|apply reads_ret]. cbv zeta. unfold issueJWT, issueIDToken.
  repeat (apply reads_bind; [try apply reads_ret; try apply reads_Now|intros ?] || apply reads_ret ||
          match goal with |- reads (match ?a with _ => _ end) => destruct a end).
  all: repeat (apply reads_bind; [apply reads_Now|intros ?]); apply reads_ret.
Qed.

(** The claims of the two tokens, signed with one key. *)
Definition tokens_for (r : request) (de : domainEntry) (c : authCode) (access idt : string) : Prop :=
  let ttl := wrap_int64 (JWTTTLSec (c_Server cfg) * second) in
  let email := ac_Username c +:+ "@" +:+ name de in
  ∃ k alg t1 t2, jwaAlgorithm (algorithm k) = Ok alg ∧
    jwt_sign (privJWK k) alg (mkClaims (issuerBase r) (ac_Username c) (ac_ClientID c) t1 (t1 + ttl)
                                email "" None "") = Some access ∧
    jwt_sign (privJWK k) alg (mkClaims (issuerBase r) (ac_Username c) (ac_ClientID c) t2 (t2 + ttl)
                                email "" (Some (Unix t2)) (ac_Nonce c)) = Some idt.
Lemma issue_tokens_for r de c w access idt e ck :
  (issue_tokens (S := S) cfg r de (ac_ClientID c) c w).1 = (TokenResponse access idt e, ck) →
  tokens_for r de c access idt.
Proof using Type.
  unfold issue_tokens, mbind. destruct (currentKeyFor cfg (name de) w) as [[k|] w1]; [|done].
  cbv zeta. unfold issueJWT, issueIDToken, mbind, Now, mret. simpl.
  destruct (jwaAlgorithm (algorithm k)) as [alg|] eqn:Ea; [|done].
  destruct (jwt_sign (privJWK k) alg _) as [t|] eqn:E1; [|done]. simpl.
  destruct (jwt_sign (privJWK k) alg (mkClaims _ _ _ _ _ _ _ (Some _) _)) as [t'|] eqn:E2; [|done].
  intros [= <- <- _ _]. by exists k, alg, (w_clock w1 (w_tick w1)), (w_clock w1 (Datatypes.S (w_tick w1))).
Qed.

(** What a token response tells about the code it was given for. *)
Definition redeemed (r : request) (de : domainEntry) (w : world S) (c : authCode) : Prop :=
  v_codes (abs (w_store w)) !! FormValue r "code" = Some c ∧
  w_clock w (w_tick w) ≤ ac_ExpiresAt c ∧
  ac_Domain c = name de ∧ ac_ClientID c = FormValue r "client_id" ∧
  ac_RedirectURI c = FormValue r "redirect_uri" ∧
  PKCEChallenge c = b64_url (sha256 (FormValue r "code_verifier")).

Lemma serveToken_redeems r de w access idt e ck :
  inv (w_store w) → no_byte NUL (name de) →
  (serveToken (S := S) cfg r de w).1 = (TokenResponse access idt e, ck) →
  ∃ c, redeemed r de w c ∧ tokens_for r de c access idt ∧
    v_codes (abs (w_store (serveToken (S := S) cfg r de w).2)) !! FormValue r "code" = None.
Proof.
  intros Hi Hd. unfold serveToken. destruct (r_PostForm r); [|done]. destruct (decide _); [done|].
  cbv zeta. unfold mbind at 1 2 4 5. unfold Now at 1 2, on_store. cbn [w_store w_clock w_tick].
  destruct (ConsumeCode _ _ (w_store w)) as [rc s'] eqn:E.
  apply law_consume in E as [[Hi' _] E]; [|done].
  destruct rc as [c|[]]; try done. destruct E as (Hl & Hexp & Hv).
  set (w1 := set_store s' _). assert (Hi1 : inv (w_store w1)) by exact Hi'.
  assert (Hgone : v_codes (abs (w_store w1)) !! FormValue r "code" = None)
    by (change (w_store w1) with s'; rewrite Hv; apply lookup_delete_eq).
  destruct (decide (ac_Domain c ≠ name de)) as [|Hdom]; [done|]. apply dec_stable in Hdom.
  destruct (decide (ac_ClientID c ≠ _)) as [|Hcl]; [done|]. apply dec_stable in Hcl.
  destruct (decide (ac_RedirectURI c ≠ _)) as [|Huri]; [done|]. apply dec_stable in Huri.
  destruct (verifyPKCE _ _ _) eqn:Ep; [|done]. cbn [negb].
  assert (Hpk : PKCEChallenge c = b64_url (sha256 (FormValue r "code_verifier"))).
  { revert Ep. unfold verifyPKCE. destruct (decide _); [done|].
    intros Ep%bool_decide_eq_true. done. }
  unfold mbind at 1 2. pose proof (reads_clientFor de (FormValue r "client_id") Hd w1 Hi1) as Hr.
  destruct (clientFor de (FormValue r "client_id") w1) as [[cl|] w2]; destruct Hr as [Hi2 E2];
    cbn [fst snd] in *; [|done].
  destruct (decide _); [done|]. intros Hresp.
  pose proof (reads_issue_tokens r de (FormValue r "client_id") c Hd w2 Hi2) as [_ E3].
  exists c. split; [done|]. rewrite <- Hcl in Hresp |- * at 1. split; [by eapply issue_tokens_for|].
  rewrite <- Hcl in E3. rewrite E3, E2. done.
Qed.

Lemma serve_event_good w e :
  (∀ body q, decode_registration body = Some q →
     ∀ id d n t, storable (mkClient id d n (q_RedirectURIs q) t)) →
  map_Forall (λ d de, name de = d ∧ no_byte NUL d) domains →
  event_ok e → good w → good (serve_event w e).
Proof.
  intros Hreg Hdom He Hw. destruct e as [rt r|o|d]; simpl.
  - by eapply keeps_handle.
  - destruct Hw as (Hi & Hc & Hs).
    assert (Ho : op_ok o ∧ (∀ c, o ≠ OStoreCode c) ∧ (∀ y, o ≠ OStoreSession y)) by (by destruct o).
    destruct Ho as (Ho & Hn1 & Hn2). split; [by apply op_inv|]. split; simpl.
    + intros x c Hl. apply op_codes in Hl as [(c0 & -> & _)|[Hl _]]; [by destruct (Hn1 c0)|by eapply Hc|done..].
    + intros x y Hl. apply op_sessions in Hl as [(y0 & -> & _)|Hl]; [by destruct (Hn2 y0)|by eapply Hs|done..].
  - done.
Qed.

Lemma events_good w evs :
  (∀ body q, decode_registration body = Some q →
     ∀ id d n t, storable (mkClient id d n (q_RedirectURIs q) t)) →
  map_Forall (λ d de, name de = d ∧ no_byte NUL d) domains →
  Forall event_ok evs → good w → good (foldl serve_event w evs).
Proof.
  intros Hreg Hdom Hev. revert w. induction Hev as [|ev evs He Hev IH]; intros w Hw; [done|].
  simpl. apply IH. by apply serve_event_good.
Qed.

(** C11 No token without a login: whatever requests the server has answered and
    whatever rotations, sweeps and failed writes lie in between, tokens are issued
    only for a pending code of the same domain, client, redirect address and code
    verifier, before it expires, whose user's password the agent of that domain
    has accepted; they name that user and client, and the code is gone. *)
Theorem token_needs_login (w0 : world S) (evs : list event) (r : request)
  (access idt : string) (e : Z) (ck : list cookie) :
  (∀ body q, decode_registration body = Some q →
     ∀ id d n t, storable (mkClient id d n (q_RedirectURIs q) t)) →
  map_Forall (λ d de, name de = d ∧ no_byte NUL d) domains →
  inv (w_store w0) → v_codes (abs (w_store w0)) = ∅ → v_sessions (abs (w_store w0)) = ∅ →
  Forall event_ok evs →
  let w := foldl serve_event w0 evs in
  (handle cfg decoy domains PostToken r w).1 = (TokenResponse access idt e, ck) →
  ∃ de c, domainForHost domains r = Some de ∧ redeemed r de w c ∧
    CAuth (name de) (ac_Username c) true ∈ w_log w ∧ tokens_for r de c access idt ∧
    v_codes (abs (w_store (handle cfg decoy domains PostToken r w).2)) !! FormValue r "code" = None.
Proof.
  intros Hreg Hdom Hi Hc Hs Hev w.
  assert (Hw : good w).
  { unfold w. assert (Hw0 : good w0).
    { split; [done|]. rewrite Hc, Hs. split; intros x y; by rewrite lookup_empty. }
    by apply events_good. }
  unfold handle. destruct (domainForHost domains r) as [de|] eqn:Ed; [|done]. intros Ht.
  destruct (host_ok domains Hdom r de Ed) as [_ Hd].
  destruct (serveToken_redeems r de w access idt e ck (proj1 Hw) Hd Ht) as (c & Hr & Htok & Hgone).
  exists de, c. split; [done|]. split; [done|]. split; [|done].
  destruct Hr as (Hl & _ & Hdm & _). rewrite <- Hdm. by eapply (proj1 (proj2 Hw)).
Qed.
End Runs.

(** ** Concrete runs *)
Module OidcDemo.
#[export] Instance demo_oidc_case : UnicodeCase :=
  {| unicode_upper := id; unicode_lower := id; unicode_fold := λ _ _, false |}.
#[export] Instance demo_durations : GoDuration := λ s,
  if decide (s = "0s") then Some 0 else if decide (s = "1h") then Some (3600 * second) else None.
#[export] Instance demo_keylib : KeyLib := {
  gen_rsa := Some; gen_ecdsa := Some; gen_ed25519 := Some; key_type _ := KEcdsa true;
  marshal_pkcs8 := Some; parse_pkcs8 := Some; parse_pkcs1 := Some; parse_ec := Some;
  pem_encode t b := t +:+ String ":" b; pem_decode := cut ":"; jwk_ok _ := true;
  public_of k := "pub " +:+ k;
}.
(** A registration's body is its name and one address. *)
#[export] Instance demo_lib : OidcLib := {
  sha256 s := s; base32 s := s;
  jwt_sign k alg c := Some (k +:+ ":" +:+ cl_sub c +:+ ":" +:+ cl_aud c);
  jwt_parse _ _ _ _ := None;
  decode_registration body := (λ p, mkRegistration p.1 [p.2] "" [] []) <$> cut "|" body;
  url_parse u := if HasPrefix u "https://" then Some ("https", u, u) else None;
  url_with u ps := Some (u +:+ "?" +:+ sjoin "&" ((λ p, p.1 +:+ "=" +:+ p.2) <$> ps));
}.
#[export] Instance demo_oidc_toml : OidcToml := λ _, None.

Definition demo_server : ServerConfig :=
  mkServerConfig ":8080" "/o" "/d" 3600 604800 "ES256" "" "" "" "".
Definition demo_client : ClientConfig := mkClientConfig "example.org" "c" "" ["https://c/cb"].
Definition demo_config : Config := mkConfig demo_server [demo_client].
Definition demo_entry : domainEntry := mkEntry "example.org" demo_agent [demo_client].
Definition demo_domains : gmap string domainEntry := {[ "example.org" := demo_entry ]}.
Definition cur_key (t : Z) : signingKeyRecord :=
  mkKey "example.org" "k1" "ES256" "current" t zero_time zero_time.
Definition demo_store : Mem.ephemeralStore :=
  Mem.mkMem ∅ ∅ ∅ {[ Mem.key "example.org" "k1" := cur_key 0 ]}.
Definition demo_world : world Mem.ephemeralStore :=
  mkWorld demo_store {[ "example.org" := {[ "k1" := mkLoaded "k1" "ES256" "priv" "pub" ]} ]}
    (mkFolder ∅ []) [] (λ n, Z.of_nat n) 0 (λ n, fmt_d (Z.of_nat n)) 0.
Definition post (l : list (string * string)) : url_values := list_to_map ((λ p, (p.1, [p.2])) <$> l).
Definition login_request (pw : string) : request :=
  mkRequest "auth.example.org:443" false {[ "X-Forwarded-Proto" := "https" ]} ∅
    (Some (post [("csrf_token", "t"); ("client_id", "c"); ("redirect_uri", "https://c/cb");
                 ("code_challenge", b64_url "verifier"); ("code_challenge_method", "S256");
                 ("username", "alice"); ("password", pw)]))
    {[ csrfCookieName := "t" ]} "".
(** The code that the first login of the demo world hands out. *)
Definition demo_issued : string := b64_url (fit 24 "1").
Definition token_request (verifier : string) : request :=
  mkRequest "example.org" false ∅ ∅
    (Some (post [("grant_type", "authorization_code"); ("code", demo_issued); ("client_id", "c");
                 ("redirect_uri", "https://c/cb"); ("code_verifier", verifier)])) ∅ "".
End OidcDemo.

Section OidcWitnesses.
Import Toy OidcDemo Mem.

Definition after_login : world Mem.ephemeralStore :=
  serve_event demo_config "" demo_domains demo_world (ERequest PostLogin (login_request "secret12")).

Lemma demo_store_inv : mem_inv demo_store.
Proof.
  unfold mem_inv. change (Mem.signingKeys demo_store)
    with ({[ Mem.key "example.org" "k1" := cur_key 0 ]} : gmap string signingKeyRecord).
  assert (Hk : indexed key_name ({[ Mem.key "example.org" "k1" := cur_key 0 ]})).
  { intros k r Hk. apply lookup_singleton_Some in Hk as [<- <-]. by split. }
  split; [done|]. split; [intros k r Hr; discriminate Hr|].
  intros q q' r r' Hq Hq' _ _ Hd. rewrite reindex_Some in Hq, Hq' by done.
  destruct Hq as [_ Hq], Hq' as [_ Hq']. apply lookup_singleton_Some in Hq as [Hq _], Hq' as [Hq' _].
  rewrite Hq in Hq'. destruct q as [a b], q' as [a' b']. simpl in *. subst a'. f_equal.
  apply (sapp_inj_l a) in Hq'. congruence.
Qed.

Lemma token_needs_login_witness :
  (handle demo_config "" demo_domains PostToken (token_request "verifier") after_login).1
    = (TokenResponse "priv:alice:c" "priv:alice:c" 3600, []) ∧
  (handle demo_config "" demo_domains PostToken (token_request "other") after_login).1
    = (JsonError 400 "invalid_grant" "PKCE verification failed", []) ∧
  ∃ c, CAuth "example.org" (ac_Username c) true ∈ w_log after_login ∧ ac_ClientID c = "c".
Proof.
  assert (E : (handle demo_config "" demo_domains PostToken (token_request "verifier") after_login).1
    = (TokenResponse "priv:alice:c" "priv:alice:c" 3600, [])) by (vm_compute; reflexivity).
  split; [exact E|]. split; [vm_compute; reflexivity|].
  destruct (token_needs_login (S := ephemeralStore) demo_config "" demo_domains demo_world
    [ERequest PostLogin (login_request "secret12")] (token_request "verifier") "priv:alice:c" "priv:alice:c" 3600 [])
    as (de & c & Hde & Hr & Hau & _); [| | | | | |exact E|].
  - intros. exact I.
  - intros d de Hd. unfold demo_domains in Hd. apply lookup_singleton_Some in Hd as [<- <-].
    split; reflexivity.
  - exact demo_store_inv.
  - reflexivity.
  - reflexivity.
  - constructor; [exact I|constructor].
  - assert (Hn : domainForHost demo_domains (token_request "verifier") = Some demo_entry)
      by (vm_compute; reflexivity).
    rewrite Hn in Hde. injection Hde as <-. exists c. split; [exact Hau|]. destruct Hr as (_ & _ & _ & Hc & _). rewrite Hc. vm_compute. reflexivity.
Defined.

(** *** Revoking the current key

    The domain then has no current key. The rotator replaces only current keys
    and start-up does nothing while a row is left, so no token can be issued,
    however often both run. *)
Definition revoked_world : world ephemeralStore := (revokeKey "example.org" "k1" demo_world).2.
Lemma revoked_domain_stays_dead :
  let w1 := (rotateAgedKeys demo_config (defaultKeyRotationInterval * 2) ["example.org"] revoked_world).2 in
  let w2 := (ensureSigningKeys demo_config 0 "example.org" w1).2 in
  (ensureSigningKeys demo_config 0 "example.org" w1).1 = Ok () ∧
  (currentKeyFor demo_config "example.org" w2).1 = Err ONoCurrentKey.
Proof. vm_compute. by split. Qed.

(** *** A rotation that the store refuses leaves its key file behind

    The operator's tool removes the file in that case. *)
Section Orphan.
Import Sql.
#[local] Instance demo_json : JsonStrings :=
  {| marshal_strings := sjoin "|"; unmarshal_strings s := Some (Split "|" s) |}.
Definition busy_world : world Sql.db :=
  mkWorld (Sql.open_db [Sql.Lost]) ∅ (mkFolder ∅ []) [] (λ n, Z.of_nat n) 0 (λ n, fmt_d (Z.of_nat n)) 0.
Lemma failed_rotation_leaves_key :
  let '(r, w) := rotateKey (S := Sql.db) demo_config "example.org" "" busy_world in
  let '(r', w') := km_Rotate (S := Sql.db) (mkKeyManager "/o" 0) "example.org" "" busy_world in
  r = Err (OStore ErrStore) ∧ is_Some (files (w_disk w) !! "/o/example.org/keys/example.org-0.key") ∧
  r' = Err (OStore ErrStore) ∧ files (w_disk w') !! "/o/example.org/keys/example.org-0.key" = None.
Proof. vm_compute. split_and!; try reflexivity. by eexists. Qed.
End Orphan.

(** *** Settings

    A check interval of zero is accepted by [Load] and stops the server: the
    ticker panics. The retention is a fixed day, however long tokens live. *)
Lemma zero_check_interval_panics :
  let c := mkServerConfig ":8080" "/o" "/d" 3600 604800 "ES256" "" "" "0s" "" in
  duration_ok (KeyRotationCheckInterval c) = true ∧ rotator_starts c = false.
Proof. vm_compute. by split. Qed.
Lemma retention_shorter_than_tokens :
  let c := mkServerConfig ":8080" "/o" "/d" (48 * 3600) 604800 "ES256" "" "" "" "" in
  keyRetentionAfterRetire c < JWTTTLSec c * second ∧
  let c' := mkServerConfig ":8080" "/o" "/d" (48 * 3600) 604800 "ES256" "" "1h" "" "" in
  duration_ok (KeyRetentionAfterRetire c') = true ∧ keyRetentionAfterRetire c' < JWTTTLSec c' * second.
Proof. vm_compute. by split_and!. Qed.

(** *** Cookies behind the proxy

    The issuer is https by the forwarded header, and the session cookie of the
    same response is not marked secure. *)
Lemma proxied_cookie_not_secure :
  HasPrefix (issuerBase (login_request "secret12")) "https://" = true ∧
  Forall (λ c, ck_Secure c = false)
    (handle demo_config "" demo_domains PostLogin (login_request "secret12") demo_world).1.2 ∧
  (handle demo_config "" demo_domains PostLogin (login_request "secret12") demo_world).1.2 ≠ [].
Proof. split; [vm_compute; reflexivity|]. split; [vm_compute; by repeat constructor|vm_compute; discriminate]. Qed.

(** *** Client ids

    A NUL in the name makes two different registrations derive one id. *)
Lemma nul_in_name_collides :
  let a := "https://a" in let b := "https://b" in
  deriveClientID "example.org" ("x" +:+ String NUL a) [b] = deriveClientID "example.org" "x" [a; b].
Proof. vm_compute. reflexivity. Qed.
End OidcWitnesses.

(** ** Hosts *)
(** A host names the domain it is a subdomain of: the entry found is that of the
    host itself or of a suffix behind a dot that has a dot of its own, and no
    longer such suffix is registered. *)
Fixpoint suffixes (fuel : nat) (h : string) : list string :=
  match fuel with
  | O => []
  | Datatypes.S fuel =>
      h :: match cut "." h with
           | Some (_, rest) => if has_byte "." rest then suffixes fuel rest else []
           | None => []
           end
  end.
Lemma strip_labels_first {A} fuel (m : gmap string A) h :
  strip_labels fuel m h = head (omap (m !!.) (suffixes fuel h)).
Proof.
  revert h. induction fuel as [|fuel IH]; intros h; simpl; [done|].
  destruct (m !! h); [done|]. destruct (cut "." h) as [[a b]|]; [|done].
  destruct (has_byte "." b); [apply IH|done].
Qed.
Lemma suffixes_fuel h n :
  (String.length h < n)%nat → suffixes n h = suffixes (Datatypes.S (String.length h)) h.
Proof.
  remember (String.length h) as k eqn:Ek. revert h n Ek. induction (lt_wf k) as [k _ IH].
  intros h [|n] Ek Hn; [lia|]. cbn [suffixes]. f_equal.
  destruct (cut "." h) as [[a b]|] eqn:Ec; [|done]. destruct (has_byte "." b); [|done].
  apply cut_Some in Ec as [-> _]. rewrite slen_app in Ek. cbn [String.length] in Ek.
  rewrite (IH (String.length b) ltac:(lia) b n eq_refl ltac:(lia)).
  by rewrite <- (IH (String.length b) ltac:(lia) b k eq_refl ltac:(lia)).
Qed.

(** ** Registration *)
Section Registration.
Context `{UnicodeCase, OidcLib}.

Lemma sort_uris_perm l l' : l ≡ₚ l' → sort_uris l = sort_uris l'.
Proof.
  intros Hp. unfold sort_uris. apply (StronglySorted_unique String.le); [apply StronglySorted_merge_sort; apply _..|].
  by rewrite !merge_sort_Permutation.
Qed.
(** The id does not depend on the order of the addresses. *)
Lemma deriveClientID_perm d n l l' : l ≡ₚ l' → deriveClientID d n l = deriveClientID d n l'.
Proof. intros Hp. unfold deriveClientID, client_text. by rewrite (sort_uris_perm l l' Hp). Qed.
Lemma registrationMatches_iff x n l :
  registrationMatches x n l = true ↔ ClientName x = n ∧ rc_RedirectURIs x ≡ₚ l.
Proof.
  unfold registrationMatches. rewrite !andb_true_iff, !bool_decide_eq_true. split.
  - intros [[Hn _] Hs]. split; [done|].
    rewrite <- (merge_sort_Permutation String.le (rc_RedirectURIs x)), <- (merge_sort_Permutation String.le l).
    unfold sort_uris in Hs. by rewrite Hs.
  - intros [Hn Hp]. split; [split; [done|by apply Permutation_length]|by apply sort_uris_perm].
Qed.
End Registration.
