(* ===== verification/MsgCrypt.v ===== *)
(** * The store interface and encryption at rest

    [msgstore.MessageStore] and [msgstore.FolderStore] in full as records of
    operations ([src/msgstore/store.go]), the maildir store as a value of them,
    the message format and the two wrappers of [src/msgstore]: the delivery
    agent that encrypts ([encrypting_delivery.go]) and the store that decrypts
    what is read and encrypts what is written ([decrypting_store.go]); content
    search ([search.go]). The NaCl box and X25519 are the class [NaclBox]; random
    bytes come from the source of [Keyring], which may fail. *)
From S2P Require Import Prelude GoStrings MsgStore Maildir Keyring.
From Stdlib Require Import ZArith Lia Ascii.
Open Scope string_scope.
Open Scope list_scope.
Open Scope Z_scope.

(** ** The interfaces *)
Record MessageStore (W : Type) := mkMessageStore {
  ms_List : string → W → result (list MessageInfo) serr * W;
  ms_Retrieve : string → Z → W → result reader serr * W;
  ms_Delete : string → Z → W → option serr * W;
  ms_Expunge : string → W → option serr * W;
  ms_Stat : string → W → result (Z * Z) serr * W;
}.
Arguments mkMessageStore {W}. Arguments ms_List {W}. Arguments ms_Retrieve {W}.
Arguments ms_Delete {W}. Arguments ms_Expunge {W}. Arguments ms_Stat {W}.

(** Mailbox and folder come first; a written message is its bytes. *)
Record FolderStore (W : Type) := mkFolderStore {
  fs_CreateFolder : string → string → W → option serr * W;
  fs_ListFolders : string → W → result (list string) serr * W;
  fs_DeleteFolder : string → string → W → option serr * W;
  fs_ListInFolder : string → string → W → result (list MessageInfo) serr * W;
  fs_StatFolder : string → string → W → result (Z * Z) serr * W;
  fs_RetrieveFromFolder : string → string → Z → W → result reader serr * W;
  fs_DeleteInFolder : string → string → Z → W → option serr * W;
  fs_ExpungeFolder : string → string → W → option serr * W;
  fs_DeliverToFolder : string → string → string → W → option serr * W;
  fs_RenameFolder : string → string → string → W → option serr * W;
  fs_AppendToFolder : string → string → string → list string → Z → W → result Z serr * W;
  fs_SetFlagsInFolder : string → string → Z → list string → W → option serr * W;
  fs_CopyMessage : string → string → Z → string → W → result Z serr * W;
  fs_UIDValidity : string → string → W → result Z serr * W;
  fs_UIDNext : string → string → W → result Z serr * W;
}.
Arguments mkFolderStore {W}. Arguments fs_CreateFolder {W}. Arguments fs_ListFolders {W}.
Arguments fs_DeleteFolder {W}. Arguments fs_ListInFolder {W}. Arguments fs_StatFolder {W}.
Arguments fs_RetrieveFromFolder {W}. Arguments fs_DeleteInFolder {W}. Arguments fs_ExpungeFolder {W}.
Arguments fs_DeliverToFolder {W}. Arguments fs_RenameFolder {W}. Arguments fs_AppendToFolder {W}.
Arguments fs_SetFlagsInFolder {W}. Arguments fs_CopyMessage {W}. Arguments fs_UIDValidity {W}.
Arguments fs_UIDNext {W}.

(** A [store.(FolderStore)] assertion succeeds or not. *)
Record MailStore (W : Type) := mkMailStore {
  st_messages : MessageStore W; st_folders : option (FolderStore W);
}.
Arguments mkMailStore {W}. Arguments st_messages {W}. Arguments st_folders {W}.

(** ** The maildir store *)
Section MaildirStore.
Context {D : Type} `{GoMaildir D, UnicodeCase} (l : layout).

Definition merr_text (e : merr) : serr :=
  match e with
  | EIO => "i/o error" | EMessageNotFound => "message not found" | EMessageDeleted => "message deleted"
  | EMailboxNotFound => "mailbox not found" | ENoRecipients => "no recipients"
  | EPathTraversal => "path traversal" | EInvalidFolderName => "invalid folder name"
  | EFolderExists => "folder exists" | EFolderNotFound => "folder not found" | EUid _ => "uid list"
  end.
Definition in_text {A} (x : result A merr * world D) : result A serr * world D :=
  (match x.1 with Ok a => Ok a | Err e => Err (merr_text e) end, x.2).
Definition in_text_ (x : option merr * world D) : option serr * world D := (merr_text <$> x.1, x.2).
Definition unit_text (x : result unit merr * world D) : option serr * world D :=
  (match x.1 with Ok _ => None | Err e => Some (merr_text e) end, x.2).

(** [names] lists the sub-directories of a mailbox; [rm] says whether removing
    and renaming a directory succeeds. *)
Context (names : string → list (string * bool)) (rm : bool).
Definition maildir_store : MailStore (world D) :=
  mkMailStore
    (mkMessageStore (λ m w, in_text (List_ l m w)) (λ m u w, in_text (Retrieve l m u w))
       (λ m u w, in_text_ (Delete m u w)) (λ m w, in_text_ (Expunge l m w))
       (λ m w, in_text (Stat l m w)))
    (Some (mkFolderStore
       (λ m f w, unit_text (CreateFolder l m f w)) (λ m w, in_text (ListFolders l names m w, w))
       (λ m f w, in_text_ (DeleteFolder l rm m f w)) (λ m f w, in_text (ListInFolder l m f w))
       (λ m f w, in_text (StatFolder l m f w)) (λ m f u w, in_text (RetrieveFromFolder l m f u w))
       (λ m f u w, in_text_ (DeleteInFolder m f u w)) (λ m f w, in_text_ (ExpungeFolder l m f w))
       (λ m f d w, in_text_ (DeliverToFolder l m f d w))
       (λ m o n w, in_text_ (RenameFolder l rm m o n w))
       (λ m f d fl _ w, in_text (AppendToFolder l m f d fl w))
       (λ m f u fl w, in_text_ (SetFlagsInFolder l m f u fl w))
       (λ m s u d w, in_text (CopyMessage l m s u d w))
       (λ m f w, in_text (UIDValidity l m f w)) (λ m f w, in_text (UIDNext l m f w)))).
End MaildirStore.

(** ** Encrypted messages *)
Record EncryptionInfo := mkEncryption { enc_Algorithm : string; Encrypted : bool }.
Definition EncryptionAlgorithm : string := "x25519-xsalsa20-poly1305".
Definition PublicKeySize : nat := 32.
Definition NonceSize : nat := 24.

Class NaclBox := {
  (** the key pair made from 32 random bytes: public, private *)
  box_GenerateKey : string → string * string;
  (** text, nonce, the peer's public key, one's private key *)
  box_Seal : string → string → string → string → string;
  box_Open : string → string → string → string → option string;
  box_Overhead : nat;
  (** [curve25519.X25519(scalar, Basepoint)] *)
  X25519_public : string → option string;
}.

Inductive cryptErr := EKeySize | ERandom | ETooShort | EDecrypt.
#[export] Instance cryptErr_eq_dec : EqDecision cryptErr.
Proof. solve_decision. Defined.

Section Crypt.
Context `{NaclBox}.

Definition rand_take (n : nat) (r : rand) : result string cryptErr * rand :=
  match randBytes n r with (Ok b, r) => (Ok b, r) | (Err _, r) => (Err ERandom, r) end.

Definition EncryptMessage (message recipientPubKey : string) (r : rand) : result string cryptErr * rand :=
  if decide (String.length recipientPubKey ≠ PublicKeySize) then (Err EKeySize, r)
  else
    match rand_take 32 r with
    | (Err e, r) => (Err e, r)
    | (Ok seed, r) =>
        let '(ephemeralPub, ephemeralPriv) := box_GenerateKey seed in
        match rand_take NonceSize r with
        | (Err e, r) => (Err e, r)
        | (Ok nonce, r) =>
            (Ok (ephemeralPub +:+ nonce +:+ box_Seal message nonce recipientPubKey ephemeralPriv), r)
        end
    end.

Definition DecryptMessage (encryptedData privateKey : string) : result string cryptErr :=
  if decide (String.length privateKey ≠ PublicKeySize) then Err EKeySize
  else if decide (String.length encryptedData < PublicKeySize + NonceSize + box_Overhead)%nat
       then Err ETooShort
  else
    let ephemeralPub := stake PublicKeySize encryptedData in
    let nonce := stake NonceSize (sdrop PublicKeySize encryptedData) in
    let ciphertext := sdrop (PublicKeySize + NonceSize) encryptedData in
    match box_Open ciphertext nonce ephemeralPub privateKey with
    | Some plaintext => Ok plaintext
    | None => Err EDecrypt
    end.

Fixpoint extractUsername (email : string) : string :=
  match email with
  | "" => ""
  | String c rest => if Ascii.eqb c "@" then "" else String c (extractUsername rest)
  end.

(** ** The encrypting delivery agent *)
Record Envelope := mkEnvelope {
  env_From : string; Recipients : list string; ReceivedTime : option Z; env_ClientIP : option string;
  env_ClientHostname : string; Encryption : option EncryptionInfo; env_Forwarded : bool;
}.
Definition with_recipients (rs : list string) (e : option EncryptionInfo) (env : Envelope) : Envelope :=
  mkEnvelope (env_From env) rs (ReceivedTime env) (env_ClientIP env) (env_ClientHostname env) e
    (env_Forwarded env).

Section Agent.
Context {W : Type}
  (HasEncryption : string → W → result bool autherr * W)
  (GetPublicKey : string → W → result string autherr * W)
  (underlying : Envelope → string → W → option serr * W).

(** Plaintext recipients, encrypted ones, and the keys of the latter. *)
Fixpoint group (rs : list string) (w : W) : list string * list string * gmap string string * W :=
  match rs with
  | [] => ([], [], ∅, w)
  | r :: rs =>
      let username := extractUsername (Address (ParseRecipient r)) in
      let '(key, w) :=
        match HasEncryption username w with
        | (Err _, w) | (Ok false, w) => (None, w)
        | (Ok true, w) =>
            match GetPublicKey username w with
            | (Err _, w) => (None, w)
            | (Ok k, w) => (Some k, w)
            end
        end in
      let '(plain, enc, keys, w) := group rs w in
      match key with
      | None => (r :: plain, enc, keys, w)
      | Some k => (plain, r :: enc, if keys !! r then keys else <[r := k]> keys, w)
      end
  end.

Fixpoint deliver_encrypted (env : Envelope) (data : string) (keys : gmap string string)
    (rs : list string) (w : W) (r : rand) : option serr * W * rand :=
  match rs with
  | [] => (None, w, r)
  | x :: rs =>
      match EncryptMessage data (default "" (keys !! x)) r with
      | (Err _, r) => (Some ("encrypt for " +:+ x), w, r)
      | (Ok blob, r) =>
          match underlying (with_recipients [x] (Some (mkEncryption EncryptionAlgorithm true)) env) blob w with
          | (Some e, w) => (Some e, w, r)
          | (None, w) => deliver_encrypted env data keys rs w r
          end
      end
  end.

Definition agent_Deliver (env : Envelope) (message : reader) (w : W) (r : rand)
    : option serr * W * rand :=
  match message with
  | ReadFails e => (Some ("read message: " +:+ e), w, r)
  | Content data =>
      let '(plain, enc, keys, w) := group (Recipients env) w in
      let '(e, w) := match plain with
                     | [] => (None, w)
                     | _ => underlying (with_recipients plain None env) data w
                     end in
      match e with
      | Some e => (Some e, w, r)
      | None => deliver_encrypted env data keys enc w r
      end
  end.
End Agent.

(** ** The decrypting store *)
Record sessionKeys := mkKeys { sessionKey : option string; publicKey : option string }.
Definition no_keys : sessionKeys := mkKeys None None.
Definition SetSessionKey (key : string) : sessionKeys :=
  mkKeys (Some key) (if decide (String.length key = PublicKeySize) then X25519_public key else None).
Definition ClearSessionKey : sessionKeys := no_keys.

Section Decrypting.
Context {W : Type} (k : sessionKeys).

Definition decryptOrRaw (rc : reader) : result reader serr :=
  match rc with
  | ReadFails e => Err e
  | Content data =>
      Ok (Content match DecryptMessage data (default "" (sessionKey k)) with
                  | Ok plain => plain
                  | Err _ => data
                  end)
  end.
Definition encryptForWrite (data : string) (r : rand) : result string serr * rand :=
  match publicKey k with
  | None => (Ok data, r)
  | Some pub =>
      match EncryptMessage data pub r with
      | (Ok blob, r) => (Ok blob, r)
      | (Err _, r) => (Err "encrypt", r)
      end
  end.

(** The wrapped store's world and the random source. *)
Definition pass {A} (f : W → A * W) (w : W * rand) : A * (W * rand) :=
  let '(a, w') := f w.1 in (a, (w', w.2)).
Definition retrieve_with (f : W → result reader serr * W) (w : W * rand)
    : result reader serr * (W * rand) :=
  let '(r, w') := f w.1 in
  (match r, sessionKey k with
   | Ok rc, Some _ => decryptOrRaw rc
   | r, _ => r
   end, (w', w.2)).
Definition write_with {A} (fail : serr → A) (f : string → W → A * W) (data : string) (w : W * rand)
    : A * (W * rand) :=
  match encryptForWrite data w.2 with
  | (Err e, r) => (fail e, (w.1, r))
  | (Ok data, r) => let '(a, w') := f data w.1 in (a, (w', r))
  end.

Definition decryptingStore (u : MessageStore W) : MessageStore (W * rand) :=
  mkMessageStore (λ m, pass (ms_List u m)) (λ m uid, retrieve_with (ms_Retrieve u m uid))
    (λ m uid, pass (ms_Delete u m uid)) (λ m, pass (ms_Expunge u m)) (λ m, pass (ms_Stat u m)).
Definition decryptingFolderStore (f : FolderStore W) : FolderStore (W * rand) :=
  mkFolderStore
    (λ m n, pass (fs_CreateFolder f m n)) (λ m, pass (fs_ListFolders f m))
    (λ m n, pass (fs_DeleteFolder f m n)) (λ m n, pass (fs_ListInFolder f m n))
    (λ m n, pass (fs_StatFolder f m n))
    (λ m n uid, retrieve_with (fs_RetrieveFromFolder f m n uid))
    (λ m n uid, pass (fs_DeleteInFolder f m n uid)) (λ m n, pass (fs_ExpungeFolder f m n))
    (λ m n data, write_with Some (fs_DeliverToFolder f m n) data)
    (λ m a b, pass (fs_RenameFolder f m a b))
    (λ m n data flags date, write_with Err (λ d, fs_AppendToFolder f m n d flags date) data)
    (λ m n uid flags, pass (fs_SetFlagsInFolder f m n uid flags))
    (λ m a uid b, pass (fs_CopyMessage f m a uid b))
    (λ m n, pass (fs_UIDValidity f m n)) (λ m n, pass (fs_UIDNext f m n)).
Definition NewDecryptingStore (s : MailStore W) : MailStore (W * rand) :=
  mkMailStore (decryptingStore (st_messages s)) (decryptingFolderStore <$> st_folders s).
End Decrypting.
End Crypt.

(** ** Content search *)
Fixpoint Index (s sub : string) : option nat :=
  if HasPrefix s sub then Some O
  else match s with "" => None | String _ s => S <$> Index s sub end.

Record ContentMatch := mkMatch {
  cm_UID : Z; cm_Headers : string; BodyMatches : list bool; TextMatches : list bool;
}.
Definition splitMessage (data : string) : string * string :=
  match Index data (crlf +:+ crlf) with
  | Some i => (stake (i + 4) data, sdrop (i + 4) data)
  | None =>
      match Index data (String LF (String LF "")) with
      | Some i => (stake (i + 2) data, sdrop (i + 2) data)
      | None => (data, "")
      end
  end.

Section Search.
Context `{UnicodeCase}.
Definition MatchMessageContent (data : string) (uid : Z) (bodyTerms textTerms : list string)
    (needHeaders : bool) : ContentMatch :=
  let '(header, body) := splitMessage data in
  mkMatch uid (if needHeaders then header else "")
    ((λ t, Contains (ToLower body) (ToLower t)) <$> bodyTerms)
    ((λ t, Contains (ToLower data) (ToLower t)) <$> textTerms).

Context {W : Type} (s : MailStore W).
Definition is_inbox (folder : string) : bool :=
  bool_decide (folder = "" ∨ folder = "INBOX" ∨ folder = "inbox").
Definition listFolder (folder : string) (w : W) : result (list MessageInfo) serr * W :=
  match st_folders s with
  | Some f => if is_inbox folder then ms_List (st_messages s) "" w else fs_ListInFolder f "" folder w
  | None => ms_List (st_messages s) "" w
  end.
Definition retrieve (folder : string) (uid : Z) (w : W) : result reader serr * W :=
  match st_folders s with
  | Some f => if is_inbox folder then ms_Retrieve (st_messages s) "" uid w
              else fs_RetrieveFromFolder f "" folder uid w
  | None => ms_Retrieve (st_messages s) "" uid w
  end.
(** The messages that can be read, evaluated one by one. *)
Fixpoint match_uids (read : Z → W → result reader serr * W) (uids : list Z)
    (bodyTerms textTerms : list string) (needHeaders : bool) (w : W) : list ContentMatch * W :=
  match uids with
  | [] => ([], w)
  | uid :: uids =>
      let '(r, w) := read uid w in
      let '(ms, w) := match_uids read uids bodyTerms textTerms needHeaders w in
      (match r with
       | Ok (Content data) => MatchMessageContent data uid bodyTerms textTerms needHeaders :: ms
       | _ => ms
       end, w)
  end.
Definition SearchContentStore (folder : string) (uids : list Z) (bodyTerms textTerms : list string)
    (needHeaders : bool) (w : W) : result (list ContentMatch) serr * W :=
  let '(us, w) := match uids with
                  | [] => let '(r, w) := listFolder folder w in
                          (match r with Ok infos => Ok (UID <$> infos) | Err e => Err e end, w)
                  | _ => (Ok uids, w)
                  end in
  match us with
  | Err e => (Err e, w)
  | Ok us => let '(ms, w) := match_uids (retrieve folder) us bodyTerms textTerms needHeaders w in (Ok ms, w)
  end.
End Search.

(** ** Facts *)
(** Documented behaviour of the NaCl box: a box opens with the other pair's
    public key and one's private key, and is [box_Overhead] bytes longer. *)
Class NaclBoxLaws `{NaclBox} : Prop := {
  box_pair seed : String.length seed = 32%nat →
    X25519_public (box_GenerateKey seed).2 = Some (box_GenerateKey seed).1;
  X25519_length k p : X25519_public k = Some p → String.length p = PublicKeySize;
  box_open_seal m n pub priv pub' priv' : X25519_public priv = Some pub → X25519_public priv' = Some pub' →
    box_Open (box_Seal m n pub priv') n pub' priv = Some m;
  box_length m n pub priv : String.length (box_Seal m n pub priv) = (String.length m + box_Overhead)%nat;
}.

Lemma splitMessage_app data : let '(h, b) := splitMessage data in h +:+ b = data.
Proof.
  unfold splitMessage. destruct (Index data (crlf +:+ crlf)); [apply stake_sdrop|].
  destruct (Index data _); [apply stake_sdrop|apply sapp_nil_r].
Qed.

Lemma stake_at n s t : String.length s = n → stake n (s +:+ t) = s.
Proof. intros <-. apply stake_app. Qed.
Lemma sdrop_at n s t : String.length s = n → sdrop n (s +:+ t) = t.
Proof. intros <-. apply sdrop_app. Qed.

Section CryptFacts.
Context `{NaclBox, !NaclBoxLaws}.

Lemma rand_take_length n r b r' : rand_take n r = (Ok b, r') → String.length b = n.
Proof.
  unfold rand_take, randBytes. destruct r as [|[x|] r]; intros [= <- <-]; [apply zeros_length|apply fit_length].
Qed.

Lemma EncryptMessage_ok message pub r blob r' :
  EncryptMessage message pub r = (Ok blob, r') →
  ∃ epub epriv nonce, X25519_public epriv = Some epub ∧ String.length epub = PublicKeySize ∧
    String.length nonce = NonceSize ∧ blob = epub +:+ nonce +:+ box_Seal message nonce pub epriv.
Proof.
  unfold EncryptMessage. destruct (decide _); [done|].
  destruct (rand_take 32 r) as [[seed|] r1] eqn:E1; [|done].
  apply rand_take_length in E1. pose proof (box_pair seed E1) as Hp.
  destruct (box_GenerateKey seed) as [epub epriv]. cbn [fst snd] in Hp.
  destruct (rand_take NonceSize r1) as [[nonce|] r2] eqn:E2; [|done]. intros [= <- <-].
  exists epub, epriv, nonce. split; [done|]. split; [by eapply X25519_length|].
  split; [by eapply rand_take_length|done].
Qed.

Lemma DecryptMessage_Encrypt message pub priv r blob r' :
  String.length priv = PublicKeySize → X25519_public priv = Some pub →
  EncryptMessage message pub r = (Ok blob, r') → DecryptMessage blob priv = Ok message.
Proof.
  intros Hl Hp (epub & epriv & nonce & He & Hel & Hnl & ->)%EncryptMessage_ok.
  unfold DecryptMessage. rewrite decide_False by (by intros []).
  rewrite decide_False by (rewrite !slen_app, box_length, Hel, Hnl; lia).
  rewrite (stake_at PublicKeySize), <- sdrop_sdrop, (sdrop_at PublicKeySize), stake_at, sdrop_at by done.
  by rewrite (box_open_seal _ _ _ _ _ _ Hp He).
Qed.

(** C37 What a client appends through the decrypting store reaches the disk only
    as a box for the user's key, and reads back as it was appended: for every
    store that returns what was appended, with a session key that has a public
    key. *)
Theorem write_through_roundtrip {W} (f : FolderStore W) (priv pub m n data : string) (flags : list string)
  (date uid : Z) (w w' : W) (r r' : rand) :
  String.length priv = PublicKeySize → X25519_public priv = Some pub →
  (∀ d u w1 w2, fs_AppendToFolder f m n d flags date w1 = (Ok u, w2) →
     (fs_RetrieveFromFolder f m n u w2).1 = Ok (Content d)) →
  let k := SetSessionKey priv in
  fs_AppendToFolder (decryptingFolderStore k f) m n data flags date (w, r) = (Ok uid, (w', r')) →
  ∃ blob, EncryptMessage data pub r = (Ok blob, r') ∧
    fs_AppendToFolder f m n blob flags date w = (Ok uid, w') ∧
    (fs_RetrieveFromFolder f m n uid w').1 = Ok (Content blob) ∧
    (fs_RetrieveFromFolder (decryptingFolderStore k f) m n uid (w', r')).1 = Ok (Content data).
Proof.
  intros Hl Hp Hlaw k. unfold k, SetSessionKey. rewrite decide_True, Hp by done.
  cbn [decryptingFolderStore fs_AppendToFolder fs_RetrieveFromFolder]. unfold write_with, encryptForWrite.
  cbn [publicKey fst snd]. destruct (EncryptMessage data pub r) as [[blob|] r1] eqn:E; [|done].
  destruct (fs_AppendToFolder f m n blob flags date w) as [a w1] eqn:Ea. intros [= -> <- <-].
  exists blob. split; [done|]. split; [done|]. pose proof (Hlaw _ _ _ _ Ea) as Hr. split; [done|].
  unfold retrieve_with. cbn [fst]. destruct (fs_RetrieveFromFolder f m n uid w1) as [x w2].
  simpl in Hr. subst x. cbn [sessionKey fst decryptOrRaw from_option id].
  by rewrite (DecryptMessage_Encrypt _ _ _ _ _ _ Hl Hp E).
Qed.

(** Mail that is not a box for this key is served as it is stored. *)
Lemma raw_is_served k data : DecryptMessage data (default "" (sessionKey k)) = Err EDecrypt ∨
    (String.length data < PublicKeySize + NonceSize + box_Overhead)%nat →
  decryptOrRaw k (Content data) = Ok (Content data).
Proof.
  intros Hd. simpl. destruct Hd as [->|Hs]; [done|].
  unfold DecryptMessage. destruct (decide _); [done|]. by rewrite decide_True.
Qed.
End CryptFacts.

(** ** A box to show that the laws can hold: the tag names the recipient *)
Module ToyBox.
#[export] Instance toy_box : NaclBox := {|
  box_GenerateKey seed := (fit 32 seed, fit 32 seed);
  box_Seal m _ pub _ := fit 16 pub +:+ m;
  box_Open c _ _ priv := if decide (stake 16 c = fit 16 priv) then Some (sdrop 16 c) else None;
  box_Overhead := 16;
  X25519_public k := if decide (String.length k = 32%nat) then Some k else None;
|}.
#[export] Instance toy_box_laws : NaclBoxLaws.
Proof.
  split; cbn [X25519_public toy_box box_GenerateKey box_Seal box_Open box_Overhead fst snd].
  - intros seed _. rewrite decide_True; [done|apply fit_length].
  - intros k p. destruct (decide _); [|done]. by intros [= <-].
  - intros m n pub priv pub' priv'. destruct (decide (String.length priv = 32%nat)); [|done].
    intros [= <-] _. rewrite stake_at, sdrop_at by apply fit_length. by rewrite decide_True.
  - intros m n pub priv. rewrite slen_app, fit_length. lia.
Qed.
Definition user_key : string := fit 32 "alice".
End ToyBox.

Section CryptWitnesses.
Import ToyBox MdDemo.
Notation store := (maildir_store lay (λ _, []) true).
Definition sent : option (FolderStore (world box)) := st_folders store.

(** A folder that holds the last message written to it. *)
Definition one_message (d : string) : FolderStore (option string) :=
  mkFolderStore (λ _ _ w, (None, w)) (λ _ w, (Ok [], w)) (λ _ _ w, (None, w)) (λ _ _ w, (Ok [], w))
    (λ _ _ w, (Ok (0, 0), w))
    (λ _ _ _ w, (match w with Some c => Ok (Content c) | None => Err d end, w))
    (λ _ _ _ w, (None, w)) (λ _ _ w, (None, w)) (λ _ _ c _, (None, Some c)) (λ _ _ _ w, (None, w))
    (λ _ _ c _ _ _, (Ok 1, Some c)) (λ _ _ _ _ w, (None, w)) (λ _ _ _ _ w, (Ok 1, w))
    (λ _ _ w, (Ok 1, w)) (λ _ _ w, (Ok 2, w)).

Lemma write_through_roundtrip_witness :
  ∃ blob, EncryptMessage "hello" user_key [] = (Ok blob, []) ∧
    (fs_RetrieveFromFolder (one_message "none") "alice@x" "Sent" 1 (Some blob)).1 = Ok (Content blob) ∧
    (fs_RetrieveFromFolder (decryptingFolderStore (SetSessionKey user_key) (one_message "none"))
       "alice@x" "Sent" 1 (Some blob, [])).1 = Ok (Content "hello").
Proof.
  destruct (write_through_roundtrip (one_message "none") user_key user_key "alice@x" "Sent" "hello" [] 0 1
    None (Some (zeros 56 +:+ fit 16 user_key +:+ "hello")) [] [])
    as (blob & E & Ha & Hr & Hd).
  - reflexivity.
  - reflexivity.
  - intros d u w1 w2 [= <- <-]. reflexivity.
  - vm_compute. reflexivity.
  - injection Ha as ->. exists (zeros 56 +:+ fit 16 user_key +:+ "hello"). split; [exact E|]. split; [exact Hr|exact Hd].
Defined.

(** On the maildir: the file holds a box, the user reads the text, and without
    the key the stored bytes are served. *)
Lemma appended_on_maildir :
  match sent with
  | None => False
  | Some f =>
      let d := decryptingFolderStore (SetSessionKey user_key) f in
      let '(r, w) := fs_AppendToFolder d "alice@x" "Sent" "hello" [] 0 (w0, []) in
      r = Ok 1 ∧
      (fs_RetrieveFromFolder d "alice@x" "Sent" 1 w).1 = Ok (Content "hello") ∧
      (fs_RetrieveFromFolder f "alice@x" "Sent" 1 w.1).1
        = Ok (Content (zeros 56 +:+ fit 16 user_key +:+ "hello")) ∧
      (fs_RetrieveFromFolder (decryptingFolderStore ClearSessionKey f) "alice@x" "Sent" 1 w).1
        = Ok (Content (zeros 56 +:+ fit 16 user_key +:+ "hello"))
  end.
Proof. vm_compute. by split_and!. Qed.

(** *** Plain text although the recipient has encryption

    The agent promises to encrypt for a recipient who has it enabled; when the
    key cannot be read the message is stored in the clear. *)
Lemma key_error_stores_plaintext :
  (agent_Deliver (λ _ w, (Ok true, w)) (λ _ w, (Err ErrKeyNotFound, w))
     (λ env data w, (None, w ++ [(Recipients env, data)]))
     (mkEnvelope "a@y" ["alice@x"] None None "" None false) (Content "secret") [] []).1
  = (None, [(["alice@x"], "secret")]).
Proof. reflexivity. Qed.

(** *** A header block that reaches into the body

    The message separates its header with LF LF; a CR LF CR LF further down is
    found first, so a body term above it is not found. *)
Lemma crlf_in_body_moves_the_split :
  let lf2 := String LF (String LF "") in
  let data := "Subject: x" +:+ lf2 +:+ "needle" +:+ crlf +:+ crlf +:+ "end" in
  splitMessage data = ("Subject: x" +:+ lf2 +:+ "needle" +:+ crlf +:+ crlf, "end") ∧
  BodyMatches (MatchMessageContent data 1 ["needle"] [] false) = [false].
Proof. by vm_compute. Qed.
End CryptWitnesses.
