(* ===== verification/MailSession.v ===== *)
(** * mail-session: one user's mailbox behind gRPC

    Model of [src/internal/mail-session/session/session.go] (the selected
    folder, its cached listing and the pending deletion marks, over any store of
    [MsgCrypt]) and of the services of [src/internal/mail-session/grpcserver]:
    mailbox, folders, watch, and the idle timer of the server. An operation is a
    function of the session and the store's world; a handler runs under the
    server's lock, so handlers follow each other. Streams are the list of what
    is received and the sizes of what is read. *)
From S2P Require Import Prelude GoStrings MsgStore Maildir Keyring MsgCrypt.
From Stdlib Require Import ZArith Lia Ascii.
Open Scope string_scope.
Open Scope list_scope.
Open Scope Z_scope.

Definition flagDeleted : string := "\Deleted".
Record Session := mkSession {
  mailbox : string; selectedFolder : string;
  msgs : list MessageInfo; marks : gset Z;
}.
Definition set_msgs (ms : list MessageInfo) (s : Session) : Session :=
  mkSession (mailbox s) (selectedFolder s) ms (marks s).
Definition set_marks (d : gset Z) (s : Session) : Session :=
  mkSession (mailbox s) (selectedFolder s) (msgs s) d.

Inductive sesErr :=
| ErrMailboxNotOpen | ErrMessageNotFound | ErrAlreadyDeleted | ErrNotDeleted
| ENoFolders | ESameFolder | EStore (what : string) (e : serr).

Definition hasFlag (flags : list string) (flag : string) : bool := bool_decide (flag ∈ flags).

Section Sessions.
Context {W : Type} (store : MailStore W) `{UnicodeCase}.
(** The order in which a range over the marks visits them. *)
Context (range : gset Z → list Z).

Definition op (A : Type) : Type := Session * W → result A sesErr * (Session * W).
Definition oret {A} (a : A) : op A := λ st, (Ok a, st).
Definition ofail {A} (e : sesErr) : op A := λ st, (Err e, st).
Definition obind {A B} (m : op A) (k : A → op B) : op B := λ st,
  match m st with (Ok a, st) => k a st | (Err e, st) => (Err e, st) end.
Notation "'do' x <- m ; k" := (obind m (λ x, k)) (at level 200, x pattern, m at level 100, k at level 200).
Notation "m ;; k" := (obind m (λ _, k)) (at level 100, k at level 200, right associativity).
Definition get : op Session := λ st, (Ok st.1, st).
Definition put (f : Session → Session) : op unit := λ st, (Ok (), (f st.1, st.2)).
(** A call of the store: one that returns a value, one that only may fail. *)
Definition call {A} (what : string) (f : string → W → result A serr * W) : op A := λ '(s, w),
  let '(r, w) := f (mailbox s) w in
  (match r with Ok a => Ok a | Err e => Err (EStore what e) end, (s, w)).
Definition call_ (what : string) (f : string → W → option serr * W) : op unit := λ '(s, w),
  let '(r, w) := f (mailbox s) w in
  (match r with None => Ok () | Some e => Err (EStore what e) end, (s, w)).
Definition folders {A} (k : FolderStore W → op A) : op A :=
  match st_folders store with Some f => k f | None => ofail ENoFolders end.
Notation ms := (st_messages store).

Definition New : Session := mkSession "" "" [] ∅.

Definition Open (m : string) : op unit := λ '(s, w),
  let '(r, w) := ms_List ms m w in
  match r with
  | Err e => (Err (EStore "open mailbox" e), (s, w))
  | Ok l => (Ok (), (mkSession m "" l ∅, w))
  end.

Definition Stat_ (s : Session) : Z * Z :=
  (Z.of_nat (length (msgs s)), foldl (λ t m, wrap_int64 (t + Size m)) 0 (msgs s)).

Definition GetUID (uid : Z) (s : Session) : result MessageInfo sesErr :=
  match head (filter (λ m, UID m = uid) (msgs s)) with
  | Some m => Ok m
  | None => Err ErrMessageNotFound
  end.

Definition at_root (folder : string) : bool := bool_decide (folder = "") || EqualFold folder "INBOX".
Definition RetrieveFrom (folder : string) (uid : Z) : op reader :=
  if at_root folder then call "" (λ mb, ms_Retrieve ms mb uid)
  else folders (λ f, call "" (λ mb, fs_RetrieveFromFolder f mb folder uid)).
Definition Retrieve (uid : Z) : op reader := do s <- get; RetrieveFrom (selectedFolder s) uid.

(** *** Marks *)
Definition Delete (uid : Z) : op unit :=
  do s <- get;
  match GetUID uid s with
  | Err e => ofail e
  | Ok _ => if decide (uid ∈ marks s) then ofail ErrAlreadyDeleted
            else put (set_marks ({[uid]} ∪ marks s))
  end.
Definition Undelete (uid : Z) : op unit :=
  do s <- get;
  match GetUID uid s with
  | Err e => ofail e
  | Ok _ => if decide (uid ∉ marks s) then ofail ErrNotDeleted
            else put (set_marks (marks s ∖ {[uid]}))
  end.
Fixpoint delete_each (uids : list Z) : op unit :=
  match uids with
  | [] => oret ()
  | uid :: uids => call_ "delete" (λ mb, ms_Delete ms mb uid) ;; delete_each uids
  end.
Definition Commit : op unit :=
  do s <- get;
  delete_each (range (marks s)) ;;
  if decide (marks s = ∅) then oret () else call_ "expunge" (λ mb, ms_Expunge ms mb).

(** *** Folders *)
Definition list_folder (what : string) (root : bool) (folder : string) : op (list MessageInfo) :=
  if root then call what (λ mb, ms_List ms mb)
  else folders (λ f, call what (λ mb, fs_ListInFolder f mb folder)).

Definition Rescan : op (list MessageInfo) :=
  do s <- get;
  if decide (mailbox s = "") then ofail ErrMailboxNotOpen
  else
    do all <- list_folder "rescan" (at_root (selectedFolder s)) (selectedFolder s);
    put (set_msgs all) ;;
    oret (filter (λ m, UID m ∉ UID <$> msgs s) all).

Definition Select (folder : string) : op (list MessageInfo) :=
  do l <- list_folder "select" (EqualFold folder "INBOX") folder;
  put (λ s, mkSession (mailbox s) folder l (marks s)) ;; oret l.

Definition Folders : op (list string) := folders (λ f, call "" (fs_ListFolders f)).
Definition UIDValidity_ (folder : string) : op Z := folders (λ f, call "" (λ mb, fs_UIDValidity f mb folder)).
Definition UIDNext_ (folder : string) : op Z := folders (λ f, call "" (λ mb, fs_UIDNext f mb folder)).
Definition CreateFolder_ (name : string) : op unit := folders (λ f, call_ "" (λ mb, fs_CreateFolder f mb name)).
Definition DeleteFolder_ (name : string) : op unit := folders (λ f, call_ "" (λ mb, fs_DeleteFolder f mb name)).
Definition RenameFolder_ (old new : string) : op unit :=
  folders (λ f, call_ "" (λ mb, fs_RenameFolder f mb old new)).

(** [s.msgs[i].Flags = flags] at the first message with that UID. *)
Fixpoint set_flags (uid : Z) (flags : list string) (l : list MessageInfo) : list MessageInfo :=
  match l with
  | [] => []
  | m :: l => if decide (UID m = uid) then mkInfo (UID m) (Key m) (Size m) flags (InternalDate m) :: l
              else m :: set_flags uid flags l
  end.
Definition or_inbox (folder : string) : string := if decide (folder = "") then "INBOX" else folder.
Definition SetFlags (uid : Z) (flags : list string) : op unit :=
  folders (λ f,
    do s <- get;
    call_ "" (λ mb, fs_SetFlagsInFolder f mb (or_inbox (selectedFolder s)) uid flags) ;;
    put (λ s, set_msgs (set_flags uid flags (msgs s)) s)).

(** One deletion of [Expunge]: marked in the store, by folder. *)
Definition delete_in (folder : string) (uid : Z) : op unit :=
  if at_root folder then call_ "delete" (λ mb, ms_Delete ms mb uid)
  else folders (λ f, call_ "delete" (λ mb, fs_DeleteInFolder f mb folder uid)).
Fixpoint expel (folder : string) (l : list MessageInfo) : op (list Z) :=
  match l with
  | [] => oret []
  | m :: l =>
      if hasFlag (Flags m) flagDeleted then
        delete_in folder (UID m) ;; do us <- expel folder l; oret (UID m :: us)
      else expel folder l
  end.
Definition Expunge_ : op (list Z) :=
  do s <- get;
  let folder := selectedFolder s in
  do expelled <- expel folder (msgs s);
  match expelled with
  | [] => oret []
  | _ =>
      (if at_root folder then call_ "expunge" (λ mb, ms_Expunge ms mb)
       else folders (λ f, call_ "expunge folder" (λ mb, fs_ExpungeFolder f mb folder))) ;;
      do l <- Select folder;
      put (set_msgs l) ;; oret expelled
  end.

Definition AppendMessage (folder data : string) (flags : list string) (date : Z) : op Z :=
  folders (λ f, call "append" (λ mb, fs_AppendToFolder f mb folder data flags date)).
Definition CopyMessage_ (uid : Z) (dest : string) : op Z :=
  folders (λ f,
    do s <- get;
    call "copy" (λ mb, fs_CopyMessage f mb (or_inbox (selectedFolder s)) uid dest)).
Definition MoveMessage (uid : Z) (src dest : string) : op Z :=
  folders (λ f,
    let src := or_inbox src in
    if EqualFold src dest then ofail ESameFolder
    else
      do newUID <- call "copy" (λ mb, fs_CopyMessage f mb src uid dest);
      (if EqualFold src "INBOX" then
         call_ "delete" (λ mb, ms_Delete ms mb uid) ;; call_ "expunge" (λ mb, ms_Expunge ms mb)
       else
         call_ "delete" (λ mb, fs_DeleteInFolder f mb src uid) ;;
         call_ "expunge" (λ mb, fs_ExpungeFolder f mb src)) ;;
      oret newUID).

(** ** The mailbox service *)
Inductive code := Internal | NotFound | InvalidArgument | Unavailable.
Definition rpc (A : Type) : Type := Session * W → result A (code * string) * (Session * W).
Definition rret {A} (a : A) : rpc A := λ st, (Ok a, st).
Definition rfail {A} (c : code) (what : string) : rpc A := λ st, (Err (c, what), st).
(** [if err != nil { return status.Errorf(c, what, err) }] *)
Definition orelse {A B} (c : code) (what : string) (m : op A) (k : A → rpc B) : rpc B := λ st,
  match m st with (Ok a, st) => k a st | (Err _, st) => (Err (c, what), st) end.
Definition selected {B} (folder : string) (k : list MessageInfo → rpc B) : rpc B :=
  orelse Internal "select" (Select (or_inbox folder)) k.

(** What a listing carries over the wire. *)
Record PbInfo := mkPb { pb_Uid : Z; pb_Size : Z; pb_Flags : list string }.
Definition to_pb (m : MessageInfo) : PbInfo := mkPb (UID m) (Size m) (Flags m).

Definition rpc_List (folder : string) : rpc (list PbInfo) := selected folder (λ l, rret (to_pb <$> l)).
Definition wrap_int32 (z : Z) : Z := (z + 2 ^ 31) mod 2 ^ 32 - 2 ^ 31.
Definition rpc_Stat (folder : string) : rpc (Z * Z) :=
  selected folder (λ _ st, let '(n, bytes) := Stat_ st.1 in (Ok (wrap_int32 n, bytes), st)).

(** [Fetch]: [reads] are the sizes the reads return, at least one byte and at
    most the buffer's; [sends] whether each send succeeds. The chunks sent. *)
Definition buffer : nat := 65536.
Fixpoint stream (fuel : nat) (reads : list nat) (sends : list bool) (data : string)
    : list string * option string :=
  match fuel, data with
  | _, "" => ([], None)
  | O, _ => ([], Some "fuel")
  | S fuel, _ =>
      let n := Nat.min buffer (match reads with [] => buffer | n :: _ => S n end) in
      match sends with
      | false :: _ => ([], Some "send")
      | _ => let '(cs, e) := stream fuel (tail reads) (tail sends) (sdrop n data) in
             (stake n data :: cs, e)
      end
  end.
Definition rpc_Fetch (reads : list nat) (sends : list bool) (folder : string) (uid : Z)
    : rpc (list string * option string) :=
  selected folder (λ _,
    orelse NotFound "retrieve" (Retrieve uid) (λ rc,
      match rc with
      | Content data => rret (stream (String.length data) reads sends data)
      | ReadFails _ => rfail Internal "read message"
      end)).

(** The next line with its terminator, and the rest. *)
Definition next_line (s : string) : string * string :=
  match cut LF s with Some (l, r) => (l +:+ String LF "", r) | None => (s, "") end.
Fixpoint trim_crlf (s : string) : string :=
  match s with
  | "" => ""
  | String c s' =>
      let t := trim_crlf s' in
      if bool_decide (t = "") && (Ascii.eqb c CR || Ascii.eqb c LF) then "" else String c t
  end.
Fixpoint header_lines (fuel : nat) (inBody : bool) (count nLines : Z) (s : string) : string :=
  match fuel, s with
  | O, _ | _, "" => ""
  | S fuel, _ =>
      let '(line, rest) := next_line s in
      if negb inBody then
        line +:+ header_lines fuel (bool_decide (trim_crlf line = "")) count nLines rest
      else if nLines =? 0 then ""
      else line +:+ (if nLines <=? count + 1 then "" else header_lines fuel true (count + 1) nLines rest)
  end.
Definition extractHeaders (data : string) (nLines : Z) : string :=
  header_lines (String.length data) false 0 nLines data.

Definition rpc_FetchHeaders (folder : string) (uid bodyLines : Z) : rpc string :=
  selected folder (λ _,
    orelse NotFound "retrieve" (Retrieve uid) (λ rc,
      match rc with
      | Content data => rret (extractHeaders data bodyLines)
      | ReadFails _ => rfail Internal "read message"
      end)).

Definition rpc_SearchContent (folder : string) (uids : list Z) (bodyTerms textTerms : list string)
    (needHeaders : bool) : rpc (list ContentMatch) :=
  selected folder (λ l st,
    let us := match uids with [] => UID <$> l | _ => uids end in
    let '(cs, st) := match_uids
      (λ uid st, let '(r, st) := Retrieve uid st in
                 (match r with Ok rc => Ok rc | Err _ => Err "retrieve" end, st))
      us bodyTerms textTerms needHeaders st in
    (Ok cs, st)).

(** What arrives on a stream; its end is the end of the list. *)
Inductive received (M : Type) := RMeta (m : M) | RData (d : string) | RFails.
Arguments RMeta {M}. Arguments RData {M}. Arguments RFails {M}.
Fixpoint recv_body {M} (l : list (received M)) : option string :=
  match l with
  | [] => Some ""
  | RFails :: _ => None
  | RMeta _ :: l => recv_body l
  | RData d :: l => match recv_body l with Some b => Some (d +:+ b) | None => None end
  end.
Record AppendMetadata := mkAppend { am_Folder : string; am_Flags : list string; am_Date : option Z }.
Definition rpc_Append (l : list (received AppendMetadata)) : rpc Z :=
  match l with
  | [] | RFails :: _ => rfail InvalidArgument "receive metadata"
  | RData _ :: _ => rfail InvalidArgument "first message must contain metadata"
  | RMeta m :: l =>
      match recv_body l with
      | None => rfail Internal "receive body chunk"
      | Some body =>
          match am_Date m with
          | None => rfail InvalidArgument "invalid date"
          | Some date => orelse Internal "append" (AppendMessage (am_Folder m) body (am_Flags m) date) rret
          end
      end
  end.

Definition rpc_Copy (folder : string) (uid : Z) (dest : string) : rpc Z :=
  selected folder (λ _, orelse Internal "copy" (CopyMessage_ uid dest) rret).
Definition rpc_Move (uid : Z) (src dest : string) : rpc Z :=
  orelse Internal "move" (MoveMessage uid src dest) rret.
Definition rpc_SetFlags (folder : string) (uid : Z) (flags : list string) : rpc unit :=
  selected folder (λ _, orelse Internal "set flags" (SetFlags uid flags) rret).
Definition rpc_Expunge (folder : string) : rpc (list Z) :=
  selected folder (λ _, orelse Internal "expunge" Expunge_ rret).
Definition rpc_Rescan (folder : string) : rpc (list PbInfo) :=
  selected folder (λ _, orelse Internal "rescan" Rescan (λ l, rret (to_pb <$> l))).
Definition rpc_UIDValidity (folder : string) : rpc (Z * Z) :=
  orelse Internal "uid validity" (UIDValidity_ folder) (λ v,
    orelse Internal "uid next" (UIDNext_ folder) (λ n, rret (v, n))).
Definition rpc_Delete (uid : Z) : rpc unit := orelse NotFound "delete" (Delete uid) rret.
Definition rpc_Undelete (uid : Z) : rpc unit := orelse NotFound "undelete" (Undelete uid) rret.
Definition rpc_Commit : rpc unit := orelse Internal "commit" Commit rret.

(** ** Folders *)
Definition rpc_ListFolders : rpc (list string) := orelse Internal "list folders" Folders rret.
Definition rpc_CreateFolder (name : string) : rpc unit :=
  orelse Internal "create folder" (CreateFolder_ name) rret.
Definition rpc_DeleteFolder (name : string) : rpc unit :=
  orelse Internal "delete folder" (DeleteFolder_ name) rret.
Definition rpc_RenameFolder (old new : string) : rpc unit :=
  orelse Internal "rename folder" (RenameFolder_ old new) rret.

(** ** Watch: each tick selects the folder and rescans it *)
Definition watch_tick (folder : string) (st : Session * W) : list PbInfo * (Session * W) :=
  match Select folder st with
  | (Err _, st) => ([], st)
  | (Ok _, st) =>
      match Rescan st with
      | (Ok l, st) => (to_pb <$> l, st)
      | (Err _, st) => ([], st)
      end
  end.
(** [between] is what others do to session and store before each tick. *)
Fixpoint watch_ticks (folder : string) (between : list (Session * W → Session * W)) (st : Session * W)
    : list (list PbInfo) * (Session * W) :=
  match between with
  | [] => ([], st)
  | f :: between =>
      let '(ev, st) := watch_tick folder (f st) in
      let '(evs, st) := watch_ticks folder between st in
      (match ev with [] => evs | _ => ev :: evs end, st)
  end.
Definition Watch (folder : string) (between : list (Session * W → Session * W)) : rpc (list (list PbInfo)) :=
  selected folder (λ _ st, let '(evs, st) := watch_ticks (or_inbox folder) between st in (Ok evs, st)).
End Sessions.
Arguments RMeta {M}. Arguments RData {M}. Arguments RFails {M}.

(** ** The idle timer of the server *)
Record idleServer := mkIdle {
  idleTimeout : Z; rescanInterval : Z; activeWatch : Z;
  fires : option Z;      (** when the timer fires; [None] without a timeout *)
  down : bool;
}.
Definition NewServer (timeout rescan now : Z) : idleServer :=
  mkIdle timeout (if decide (rescan = 0) then 30 * 10 ^ 9 else rescan) 0
    (if 0 <? timeout then Some (now + timeout) else None) false.
Definition resetIdleTimer (now : Z) (s : idleServer) : idleServer :=
  mkIdle (idleTimeout s) (rescanInterval s) (activeWatch s)
    (match fires s with Some _ => Some (now + idleTimeout s) | None => None end) (down s).
Definition add_watch (n : Z) (s : idleServer) : idleServer :=
  mkIdle (idleTimeout s) (rescanInterval s) (activeWatch s + n) (fires s) (down s).
(** The timer's function, once it is due. *)
Definition idle_check (now : Z) (s : idleServer) : idleServer :=
  match fires s with
  | Some d =>
      if now <? d then s
      else if 0 <? activeWatch s then resetIdleTimer now s
      else mkIdle (idleTimeout s) (rescanInterval s) (activeWatch s) None true
  | None => s
  end.
(** Calls go through the interceptors; a watch is a stream. *)
Inductive idle_event := IdleRpc (t : Z) | IdleWatch (t : Z) | IdleUnwatch | IdleTimer (t : Z).
Definition idle_step (s : idleServer) (e : idle_event) : idleServer :=
  if down s then s
  else match e with
       | IdleRpc t => resetIdleTimer t s
       | IdleWatch t => add_watch 1 (resetIdleTimer t s)
       | IdleUnwatch => add_watch (-1) s
       | IdleTimer t => idle_check t s
       end.

Definition watches (es : list idle_event) : Z :=
  foldr (λ e n, match e with IdleWatch _ => n + 1 | IdleUnwatch => n - 1 | _ => n end) 0 es.
Definition started (es : list idle_event) (t : Z) : Prop := IdleRpc t ∈ es ∨ IdleWatch t ∈ es.

Lemma watches_snoc es e : watches (es ++ [e]) = watches es + watches [e].
Proof. induction es as [|[] es IH]; simpl in *; lia. Qed.

Definition event_time (e : idle_event) : option Z :=
  match e with IdleRpc t | IdleWatch t | IdleTimer t => Some t | IdleUnwatch => None end.
Lemma started_before es e t t' :
  StronglySorted Z.le (omap event_time (es ++ [e])) → started es t → event_time e = Some t' → t ≤ t'.
Proof.
  intros Hs Ht He. rewrite omap_app in Hs. eapply (StronglySorted_app_1_elem_of Z.le); [exact Hs| |].
  - apply list_elem_of_omap. destruct Ht as [Ht|Ht]; eexists; (split; [exact Ht|done]).
  - simpl. rewrite He. apply list_elem_of_singleton. done.
Qed.

(** While the server runs its timer is due no earlier than the timeout after
    every call, and the open watches are counted. *)
Lemma idle_deadline timeout rescan now es :
  0 < timeout → StronglySorted Z.le (omap event_time es) →
  let s := foldl idle_step (NewServer timeout rescan now) es in
  down s = false →
  idleTimeout s = timeout ∧ activeWatch s = watches es ∧
  ∃ d, fires s = Some d ∧ ∀ t, started es t → t + timeout ≤ d.
Proof.
  intros Ht. induction es as [|e es IH] using rev_ind.
  - intros _ s _. split; [done|]. split; [done|]. exists (now + timeout). split.
    + unfold s. simpl. by rewrite (proj2 (Z.ltb_lt 0 timeout) Ht).
    + intros t [Hx|Hx]; by apply elem_of_nil in Hx.
  - intros Hs s. unfold s. rewrite foldl_app. cbn [foldl]. clear s.
    pose proof Hs as Hs1. rewrite omap_app in Hs1. apply StronglySorted_app_1_l in Hs1.
    set (s := foldl idle_step (NewServer timeout rescan now) es) in *.
    unfold idle_step. destruct (down s) eqn:Ed; [congruence|]. intros Hd.
    destruct (IH Hs1 Ed) as (Hi & Hw & d & Hf & Hall). rewrite watches_snoc, <- Hw.
    assert (∀ t t', started (es ++ [e]) t → event_time e = Some t' → t ≤ t') as Hle.
    { intros t t' [Hx|Hx] He; apply elem_of_app in Hx as [Hx|Hx%list_elem_of_singleton];
        try (eapply started_before; [exact Hs|first [by left|by right]|exact He]); subst e;
        injection He as ->; done. }
    assert (∀ t', event_time e = Some t' → ∀ t, started (es ++ [e]) t → t + timeout ≤ t' + timeout) as Hnew.
    { intros t' He t Hx. specialize (Hle t t' Hx He). lia. }
    destruct e as [t'|t'| |t']; simpl in Hd |- *.
    + rewrite Hf, Hi. split; [done|]. split; [lia|]. eexists. split; [done|]. by apply Hnew.
    + rewrite Hf, Hi. split; [done|]. split; [lia|]. eexists. split; [done|]. by apply Hnew.
    + split; [done|]. split; [lia|]. exists d. split; [done|].
      intros t [Hx|Hx]; apply Hall; apply elem_of_app in Hx as [Hx|Hx%list_elem_of_singleton]; try done;
        first [by left|by right].
    + assert (∀ t, started (es ++ [IdleTimer t']) t → started es t) as Hsame.
      { intros t [Hx|Hx]; apply elem_of_app in Hx as [Hx|Hx%list_elem_of_singleton]; try done;
          first [by left|by right]. }
      unfold idle_check in *. rewrite Hf in *. destruct (t' <? d).
      * split; [done|]. split; [lia|]. exists d. split; [done|]. auto.
      * destruct (0 <? activeWatch s); [|done]. simpl. rewrite Hf, Hi. split; [done|]. split; [lia|].
        eexists. split; [done|]. by apply Hnew.
Qed.

(** mail-session shuts down only when no call has started for the timeout and
    no watch is open. *)
Lemma idle_stop_sound timeout rescan now es t :
  0 < timeout → StronglySorted Z.le (omap event_time es) →
  down (foldl idle_step (NewServer timeout rescan now) es) = false →
  down (foldl idle_step (NewServer timeout rescan now) (es ++ [IdleTimer t])) = true →
  watches es ≤ 0 ∧ ∀ t', started es t' → t' + timeout ≤ t.
Proof.
  intros Ht Hs Hd. destruct (idle_deadline timeout rescan now es Ht Hs Hd) as (_ & Hw & d & Hf & Hall).
  rewrite foldl_app. cbn [foldl]. set (s := foldl _ _ _) in *. unfold idle_step, idle_check.
  rewrite Hd, Hf. destruct (t <? d) eqn:E; [congruence|]. apply Z.ltb_ge in E.
  destruct (0 <? activeWatch s) eqn:Ea; [simpl; congruence|]. apply Z.ltb_ge in Ea. intros _.
  split; [lia|]. intros t' Hx. specialize (Hall t' Hx). lia.
Qed.

(** ** Fetching *)
Lemma buffer_pos : (0 < buffer)%nat.
Proof. apply Nat.ltb_lt. vm_compute. reflexivity. Qed.
Lemma stream_sent fuel reads sends data :
  (String.length data ≤ fuel)%nat → Forall (λ b, b = true) sends →
  ∃ cs, stream fuel reads sends data = (cs, None) ∧ foldr String.append "" cs = data ∧
    Forall (λ c, (0 < String.length c ≤ buffer)%nat) cs.
Proof.
  revert reads sends data. induction fuel as [|fuel IH]; intros reads sends data Hl Hs.
  { destruct data; [|simpl in Hl; lia]. by exists []. }
  destruct data as [|c data]; [by exists []|].
  change (stream (S fuel) reads sends (String c data)) with
    (let n := Nat.min buffer (match reads with [] => buffer | n :: _ => S n end) in
     match sends with
     | false :: _ => ([], Some "send")
     | _ => let '(cs, e) := stream fuel (tail reads) (tail sends) (sdrop n (String c data)) in
            (stake n (String c data) :: cs, e)
     end).
  cbv zeta. set (n := Nat.min buffer _).
  assert (0 < n ≤ buffer)%nat as [Hn Hb] by (pose proof buffer_pos; unfold n; destruct reads; lia).
  clearbody n.
  assert (String.length (sdrop n (String c data)) ≤ fuel)%nat as Hl'.
  { pose proof (f_equal String.length (stake_sdrop n (String c data))) as E. rewrite slen_app in E.
    destruct n; [lia|]. simpl in *. lia. }
  destruct (IH (tail reads) (tail sends) _ Hl') as (cs & E & Hc & Hf); [destruct Hs; [constructor|done]|].
  rewrite E. exists (stake n (String c data) :: cs). split; [by destruct Hs as [|b l -> ?]|].
  split; [simpl; rewrite Hc; apply stake_sdrop|]. constructor; [|done].
  destruct (decide (n ≤ String.length (String c data))%nat) as [H1|H1].
  - rewrite stake_length by done. done.
  - rewrite stake_ge by lia. simpl in *. lia.
Qed.

Lemma next_line_app s : let '(l, r) := next_line s in l +:+ r = s.
Proof.
  unfold next_line. destruct (cut LF s) as [[l r]|] eqn:E; [|apply sapp_nil_r].
  apply cut_Some in E as [-> _]. by rewrite <- sapp_assoc.
Qed.
(** What [FetchHeaders] returns is a prefix of the message. *)
Lemma extractHeaders_prefix data n : ∃ rest, extractHeaders data n +:+ rest = data.
Proof.
  unfold extractHeaders. generalize (String.length data) as fuel, false as b, 0 as k. intros fuel.
  revert data. induction fuel as [|fuel IH]; intros s b k; [by exists s|].
  destruct s as [|c s]; [by exists ""|]. cbn [header_lines].
  pose proof (next_line_app (String c s)) as Hl. destruct (next_line (String c s)) as [l r].
  destruct (negb b); [destruct (IH r (bool_decide (trim_crlf l = "")) k) as [x Hx]|].
  { exists x. rewrite <- sapp_assoc, Hx. exact Hl. }
  destruct (n =? 0); [by eexists|]. destruct (n <=? k + 1).
  { exists r. by rewrite <- sapp_assoc. }
  destruct (IH r true (k + 1)) as [x Hx]. exists x. rewrite <- sapp_assoc. by rewrite Hx.
Qed.

(** ** Stores that keep what they are not told to remove *)
Section Laws.
Context {W : Type} `{UnicodeCase}.
Definition norm (folder : string) : string := if EqualFold folder "INBOX" then "INBOX" else folder.

(** The message a folder holds under a UID, or nothing once it is marked. *)
Class MailStoreLaws (store : MailStore W) (f : FolderStore W)
    (content : string → string → Z → W → option string) : Prop := {
  law_folders : st_folders store = Some f;
  law_list mb w l w' : ms_List (st_messages store) mb w = (l, w') →
    ∀ m n u, content m n u w' = content m n u w;
  law_list_in mb fd w l w' : fs_ListInFolder f mb fd w = (l, w') →
    ∀ m n u, content m n u w' = content m n u w;
  law_delete mb uid w r w' : ms_Delete (st_messages store) mb uid w = (r, w') →
    (∀ m n u, (m, n, u) ≠ (mb, "INBOX", uid) → content m n u w' = content m n u w) ∧
    (r = None → content mb "INBOX" uid w' = None) ∧
    (r ≠ None → content mb "INBOX" uid w' = content mb "INBOX" uid w);
  law_delete_in mb fd uid w r w' : fs_DeleteInFolder f mb fd uid w = (r, w') →
    (∀ m n u, (m, n, u) ≠ (mb, fd, uid) → content m n u w' = content m n u w) ∧
    (r = None → content mb fd uid w' = None) ∧
    (r ≠ None → content mb fd uid w' = content mb fd uid w);
  law_expunge mb w r w' : ms_Expunge (st_messages store) mb w = (r, w') →
    ∀ m n u, content m n u w' = content m n u w;
  law_expunge_in mb fd w r w' : fs_ExpungeFolder f mb fd w = (r, w') →
    ∀ m n u, content m n u w' = content m n u w;
  (** a copy gets a UID of its own; a failed copy may leave one too *)
  law_copy mb src uid dst w r w' : fs_CopyMessage f mb src uid dst w = (r, w') →
    (∀ m n u c, content m n u w = Some c → content m n u w' = Some c) ∧
    ∀ new, r = Ok new → content mb (norm dst) new w = None ∧
      ∃ c, content mb (norm src) uid w = Some c ∧ content mb (norm dst) new w' = Some c;
}.

Section Moves.
Context (store : MailStore W) (f : FolderStore W) (content : string → string → Z → W → option string).
Context `{!MailStoreLaws store f content}.
Notation MoveMessage := (MoveMessage store).
Notation Expunge_ := (Expunge_ store).
Notation Select := (Select store).

Lemma norm_not_inbox fd : EqualFold fd "INBOX" = false → norm fd = fd.
Proof. unfold norm. by intros ->. Qed.

(** The two calls that take the message out of its folder. *)
Definition take_out (src : string) (uid : Z) : op unit :=
  if EqualFold src "INBOX" then
    obind (call_ "delete" (λ mb, ms_Delete (st_messages store) mb uid))
      (λ _, call_ "expunge" (λ mb, ms_Expunge (st_messages store) mb))
  else
    obind (call_ "delete" (λ mb, fs_DeleteInFolder f mb src uid))
      (λ _, call_ "expunge" (λ mb, fs_ExpungeFolder f mb src)).

Definition taken_out (mb n : string) (uid : Z) (w w' : W) (ok : bool) : Prop :=
  (∀ m' n' u, (m', n', u) ≠ (mb, n, uid) → content m' n' u w' = content m' n' u w) ∧
  (content mb n uid w' = None ∨ ok = false ∧ content mb n uid w' = content mb n uid w) ∧
  (ok = true → content mb n uid w' = None).
Lemma taken_out_calls mb n uid (rd : option serr) w w1 w2 ok :
  (∀ m' n' u, (m', n', u) ≠ (mb, n, uid) → content m' n' u w1 = content m' n' u w) ∧
  (rd = None → content mb n uid w1 = None) ∧
  (rd ≠ None → content mb n uid w1 = content mb n uid w) →
  match rd with
  | Some _ => w2 = w1 ∧ ok = false
  | None => ∀ m' n' u, content m' n' u w2 = content m' n' u w1
  end → taken_out mb n uid w w2 ok.
Proof using Type.
  intros (Ho & Hn & Hs). destruct rd as [e|].
  - intros [-> ->]. split; [done|]. split; [right; split; [done|by apply Hs]|done].
  - intros Hx. assert (content mb n uid w2 = None) as E by (rewrite Hx; by apply Hn).
    split; [intros; rewrite Hx; by apply Ho|]. split; [by left|done].
Qed.

Lemma take_out_spec src uid s w r s' w' :
  take_out src uid (s, w) = (r, (s', w')) →
  s' = s ∧ taken_out (mailbox s) (norm src) uid w w' (is_ok r).
Proof using MailStoreLaws0.
  unfold take_out, obind, call_. destruct (EqualFold src "INBOX") eqn:Ei.
  - unfold norm. rewrite Ei. destruct (ms_Delete _ _ _ _) as [rd w1] eqn:Ed.
    pose proof (law_delete _ _ _ _ _ Ed) as Hd. destruct rd as [e|].
    { intros [= <- <- <-]. split; [done|]. by apply (taken_out_calls _ _ _ _ _ _ _ _ Hd). }
    destruct (ms_Expunge _ _ _) as [re w2] eqn:Ee. pose proof (law_expunge _ _ _ _ Ee) as Hx.
    destruct re; intros [= <- <- <-]; (split; [done|]); by apply (taken_out_calls _ _ _ _ _ _ _ _ Hd).
  - rewrite (norm_not_inbox _ Ei). destruct (fs_DeleteInFolder _ _ _ _ _) as [rd w1] eqn:Ed.
    pose proof (law_delete_in _ _ _ _ _ _ Ed) as Hd. destruct rd as [e|].
    { intros [= <- <- <-]. split; [done|]. by apply (taken_out_calls _ _ _ _ _ _ _ _ Hd). }
    destruct (fs_ExpungeFolder _ _ _ _) as [re w2] eqn:Ee. pose proof (law_expunge_in _ _ _ _ _ Ee) as Hx.
    destruct re; intros [= <- <- <-]; (split; [done|]); by apply (taken_out_calls _ _ _ _ _ _ _ _ Hd).
Qed.

Lemma MoveMessage_eq uid src dest :
  MoveMessage uid src dest =
  (if EqualFold (or_inbox src) dest then ofail ESameFolder
   else obind (call "copy" (λ mb, fs_CopyMessage f mb (or_inbox src) uid dest))
          (λ new, obind (take_out (or_inbox src) uid) (λ _, oret new))).
Proof using MailStoreLaws0. unfold MailSession.MoveMessage, folders, take_out. by rewrite law_folders. Qed.

(** Moving a message never loses one: whichever calls of the store fail, every
    other message keeps its contents, and the moved one is still where it was or
    in the destination; success means it is in the destination under the UID
    reported and no longer in the source. *)
Lemma move_no_loss (uid : Z) (src dest c : string) (s s' : Session) (w w' : W) (r : result Z sesErr) :
  content (mailbox s) (norm (or_inbox src)) uid w = Some c →
  MoveMessage uid src dest (s, w) = (r, (s', w')) →
  (∀ m n u d, (m, n, u) ≠ (mailbox s, norm (or_inbox src), uid) → content m n u w = Some d →
     content m n u w' = Some d) ∧
  (content (mailbox s) (norm (or_inbox src)) uid w' = Some c ∨
   ∃ new, content (mailbox s) (norm dest) new w' = Some c) ∧
  (∀ new, r = Ok new → content (mailbox s) (norm dest) new w' = Some c ∧
     content (mailbox s) (norm (or_inbox src)) uid w' = None) ∧
  s' = s.
Proof using MailStoreLaws0.
  intros Hc. rewrite MoveMessage_eq. destruct (EqualFold (or_inbox src) dest).
  { intros [= <- <- <-]. split_and!; auto; done. }
  unfold obind, call at 1. destruct (fs_CopyMessage _ _ _ _ _ _) as [rc w1] eqn:Ec.
  destruct (law_copy _ _ _ _ _ _ _ Ec) as [Hkeep Hnew].
  destruct rc as [new|e]; [|intros [= <- <- <-]; split_and!; auto; done].
  destruct (Hnew new eq_refl) as (Hfresh & c' & Hc' & Hd). rewrite Hc in Hc'. injection Hc' as <-.
  destruct (take_out (or_inbox src) uid (s, w1)) as [rt [s2 w2]] eqn:Et.
  destruct (take_out_spec _ _ _ _ _ _ _ Et) as (-> & Ho & _ & Hok).
  assert (content (mailbox s) (norm dest) new w2 = Some c) as Hd2.
  { rewrite Ho; [done|]. intros [= E ->]. rewrite E in Hfresh. congruence. }
  assert (∀ m n u d, (m, n, u) ≠ (mailbox s, norm (or_inbox src), uid) → content m n u w = Some d →
     content m n u w2 = Some d) as Hall by (intros; rewrite Ho; auto).
  destruct rt; intros [= <- <- <-]; split_and!; eauto; try done.
  intros ? [= <-]. split; [done|]. by apply Hok.
Qed.

(** *** Expunging *)
Definition flagged (l : list MessageInfo) : list Z :=
  UID <$> filter (λ m, hasFlag (Flags m) flagDeleted = true) l.
Definition same (w w' : W) : Prop := ∀ m n u, content m n u w' = content m n u w.
(** Nothing but these messages of a folder has changed. *)
Definition only (mb n : string) (us : list Z) (w w' : W) : Prop :=
  ∀ m' n' u, ¬ (m' = mb ∧ n' = n ∧ u ∈ us) → content m' n' u w' = content m' n' u w.

Lemma only_same mb n us w w1 w2 : only mb n us w w1 → same w1 w2 → only mb n us w w2.
Proof using Type. intros Ho Hs m' n' u Hn. rewrite Hs. by apply Ho. Qed.

Lemma delete_in_spec fd uid s w r s' w' : fd ≠ "" →
  delete_in store fd uid (s, w) = (r, (s', w')) →
  s' = s ∧ taken_out (mailbox s) (norm fd) uid w w' (is_ok r).
Proof using MailStoreLaws0.
  intros Hfd. unfold delete_in, at_root. rewrite bool_decide_false by done. simpl.
  unfold folders. rewrite law_folders. unfold call_. destruct (EqualFold fd "INBOX") eqn:Ei.
  - unfold norm. rewrite Ei. destruct (ms_Delete _ _ _ _) as [rd w1] eqn:Ed.
    pose proof (law_delete _ _ _ _ _ Ed) as Hd.
    destruct rd; intros [= <- <- <-]; (split; [done|]); by apply (taken_out_calls _ _ _ _ _ _ _ _ Hd).
  - rewrite (norm_not_inbox _ Ei). destruct (fs_DeleteInFolder _ _ _ _ _) as [rd w1] eqn:Ed.
    pose proof (law_delete_in _ _ _ _ _ _ Ed) as Hd.
    destruct rd; intros [= <- <- <-]; (split; [done|]); by apply (taken_out_calls _ _ _ _ _ _ _ _ Hd).
Qed.

Lemma expel_spec fd l s w r s' w' : fd ≠ "" →
  expel store fd l (s, w) = (r, (s', w')) →
  s' = s ∧ only (mailbox s) (norm fd) (flagged l) w w' ∧
  ∀ us, r = Ok us → us = flagged l ∧ ∀ u, u ∈ us → content (mailbox s) (norm fd) u w' = None.
Proof using MailStoreLaws0.
  intros Hfd. revert w r s' w'. induction l as [|x l IH]; intros w r s' w'; simpl.
  { intros [= <- <- <-]. split; [done|]. split; [done|]. intros us [= <-]. split; [done|].
    intros u Hu. by apply elem_of_nil in Hu. }
  unfold flagged. rewrite filter_cons. destruct (hasFlag (Flags x) flagDeleted); cycle 1.
  { rewrite decide_False by done. apply IH. }
  rewrite decide_True by done. rewrite fmap_cons. fold (flagged l). unfold obind at 1.
  destruct (delete_in store fd (UID x) (s, w)) as [rd [s1 w1]] eqn:Ed.
  apply delete_in_spec in Ed as (-> & Ho & Hs & Hn); [|done]. destruct rd as [[]|e]; cycle 1.
  { intros [= <- <- <-]. split; [done|]. split; [|done]. intros m' n' u Hu. apply Ho.
    intros [= -> -> ->]. apply Hu. split_and!; [done..|apply elem_of_cons; by left]. }
  unfold obind. destruct (expel store fd l (s, w1)) as [re [s2 w2]] eqn:Ee.
  apply IH in Ee as (-> & Ho2 & Hok).
  assert (only (mailbox s) (norm fd) (UID x :: flagged l) w w2) as Hall.
  { intros m' n' u Hu. rewrite Ho2, Ho; [done| |].
    - intros [= -> -> ->]. apply Hu. split_and!; [done..|apply elem_of_cons; by left].
    - intros (-> & -> & ?). apply Hu. split_and!; [done..|apply elem_of_cons; by right]. }
  destruct re as [us|e]; intros [= <- <- <-]; (split; [done|]; split; [done|]); [|done].
  destruct (Hok us eq_refl) as [-> Hgone]. intros us' [= <-]. split; [done|].
  intros u [->|Hu]%elem_of_cons; [|by apply Hgone].
  destruct (decide (UID x ∈ flagged l)) as [Hx|Hx]; [by apply Hgone|].
  rewrite Ho2 by (intros (_ & _ & ?); done). by apply Hn.
Qed.

Lemma list_folder_same what root fd s w r s' w' :
  list_folder store what root fd (s, w) = (r, (s', w')) → s' = s ∧ same w w'.
Proof using MailStoreLaws0.
  unfold list_folder, folders. rewrite law_folders. unfold call. destruct root.
  - destruct (ms_List _ _ _) as [l w1] eqn:E. intros [= <- <- <-].
    split; [done|]. intros m n u. by eapply law_list.
  - destruct (fs_ListInFolder _ _ _ _) as [l w1] eqn:E. intros [= <- <- <-].
    split; [done|]. intros m n u. by eapply law_list_in.
Qed.
Lemma Select_spec fd s w r s' w' : Select fd (s, w) = (r, (s', w')) →
  same w w' ∧ mailbox s' = mailbox s ∧ ∀ l, r = Ok l → s' = mkSession (mailbox s) fd l (marks s).
Proof using MailStoreLaws0.
  unfold MailSession.Select, obind. destruct (list_folder _ _ _ _ _) as [rl [s1 w1]] eqn:E.
  apply list_folder_same in E as [-> Hs]. destruct rl as [l|]; intros [= <- <- <-]; (split; [done|]);
    (split; [done|]); [|done]. by intros ? [= <-].
Qed.
Lemma expunge_call_same fd s w r s' w' :
  (if at_root fd then call_ "expunge" (λ mb, ms_Expunge (st_messages store) mb)
   else folders store (λ f, call_ "expunge folder" (λ mb, fs_ExpungeFolder f mb fd))) (s, w) = (r, (s', w')) →
  s' = s ∧ same w w'.
Proof using MailStoreLaws0.
  unfold folders. rewrite law_folders. unfold call_. destruct (at_root fd).
  - destruct (ms_Expunge _ _ _) as [l w1] eqn:E. intros [= <- <- <-].
    split; [done|]. intros m n u. by eapply law_expunge.
  - destruct (fs_ExpungeFolder _ _ _ _) as [l w1] eqn:E. intros [= <- <- <-].
    split; [done|]. intros m n u. by eapply law_expunge_in.
Qed.

Lemma or_inbox_ne fd : or_inbox fd ≠ "".
Proof using Type. unfold or_inbox. by destruct (decide (fd = "")). Qed.

(** EXPUNGE removes exactly the messages the folder's listing shows with the
    [\Deleted] flag: on success they are the UIDs answered and are gone; whatever
    call fails, every other message of every folder keeps its contents. *)
Lemma expunge_only_flagged (folder : string) (s s' : Session) (w w' : W)
    (r : result (list Z) (code * string)) :
  rpc_Expunge store folder (s, w) = (r, (s', w')) →
  ∃ l, (Select (or_inbox folder) (s, w)).1 = l ∧
    only (mailbox s) (norm (or_inbox folder)) (match l with Ok l => flagged l | Err _ => [] end) w w' ∧
    ∀ us, r = Ok us → ∃ ms, l = Ok ms ∧ us = flagged ms ∧
      ∀ u, u ∈ us → content (mailbox s) (norm (or_inbox folder)) u w' = None.
Proof using MailStoreLaws0.
  pose proof (or_inbox_ne folder) as Hne.
  unfold rpc_Expunge, selected, orelse. destruct (Select (or_inbox folder) (s, w)) as [rl [s1 w1]] eqn:Es.
  apply Select_spec in Es as (Hs1 & Hmb & Hsel). destruct rl as [l|e]; cycle 1.
  { intros [= <- <- <-]. eexists. split; [done|]. split; [|done]. intros m' n' u _. by apply Hs1. }
  specialize (Hsel l eq_refl). subst s1. unfold MailSession.Expunge_, get. unfold obind at 1. cbn [fst].
  cbn [selectedFolder msgs]. unfold obind at 1.
  destruct (expel store (or_inbox folder) l _) as [re [s2 w2]] eqn:Ee.
  apply expel_spec in Ee as (-> & Ho & Hok); [|done]. cbn [mailbox] in *.
  assert (only (mailbox s) (norm (or_inbox folder)) (flagged l) w w2) as Ho'.
  { intros m' n' u Hu. rewrite Ho by done. apply Hs1. }
  destruct re as [us|e]; cycle 1.
  { intros [= <- <- <-]. eexists. split; [done|]. by split. }
  destruct (Hok us eq_refl) as [-> Hgone]. destruct (flagged l) as [|u us] eqn:El.
  { intros [= <- <- <-]. exists (Ok l). split; [done|]. cbv iota. rewrite ?El. split; [done|]. intros ? [= <-].
    exists l. rewrite El. split; [done|]. split; [done|]. apply Hgone. }
  rewrite <- El in *. unfold obind at 1.
  match goal with |- context [(if at_root ?a then ?b else ?c) ?d] =>
    destruct ((if at_root a then b else c) d) as [rx [s3 w3]] eqn:Ex end. apply expunge_call_same in Ex as [-> Hx].
  destruct rx as [[]|]; cycle 1.
  { intros [= <- <- <-]. eexists. split; [done|]. split; [|done]. by eapply only_same. }
  unfold obind at 1. destruct (Select (or_inbox folder) _) as [rs [s4 w4]] eqn:E4.
  apply Select_spec in E4 as (H4 & _ & _).
  assert (only (mailbox s) (norm (or_inbox folder)) (flagged l) w w4) as Ho4
    by (eapply only_same; [by eapply only_same|done]).
  destruct rs as [l4|]; intros [= <- <- <-]; (eexists; split; [done|]; split; [done|]); [|done].
  intros ? [= <-]. exists l. split; [done|]. split; [done|]. intros v Hv. rewrite H4, Hx. by apply Hgone.
Qed.
End Moves.
End Laws.

(** ** What the RPCs do together *)
Section Composition.
Context {W : Type} (store : MailStore W) `{UnicodeCase} (range : gset Z → list Z).

(** *** Rescan and Watch select the folder first

    Selecting it replaces the cached listing that the rescan compares with, so
    nothing is ever reported as new, whatever arrived since the last call. *)
Definition repeatable : Prop :=
  (∀ mb w l w', ms_List (st_messages store) mb w = (Ok l, w') →
     ∀ l' w'', ms_List (st_messages store) mb w' = (Ok l', w'') → UID <$> l' = UID <$> l) ∧
  (∀ f, st_folders store = Some f → ∀ mb n w l w', fs_ListInFolder f mb n w = (Ok l, w') →
     ∀ l' w'', fs_ListInFolder f mb n w' = (Ok l', w'') → UID <$> l' = UID <$> l).

Lemma list_folder_again what what' root fd s w l s1 w1 l' st :
  repeatable → list_folder store what root fd (s, w) = (Ok l, (s1, w1)) →
  ∀ s2, mailbox s2 = mailbox s → list_folder store what' root fd (s2, w1) = (Ok l', st) →
  UID <$> l' = UID <$> l.
Proof.
  intros [Hr1 Hr2]. unfold list_folder, folders, call. destruct root.
  - destruct (ms_List _ _ w) as [[l1|] w'] eqn:E1; [|done]. intros [= <- <- <-] s2 Hm. rewrite Hm.
    destruct (ms_List _ _ w') as [[l2|] w2] eqn:E2; [|done]. intros [= <- <-]. by eapply Hr1.
  - destruct (st_folders store) as [f|] eqn:Ef; [|done].
    destruct (fs_ListInFolder f _ _ w) as [[l1|] w'] eqn:E1; [|done]. intros [= <- <- <-] s2 Hm. rewrite Hm.
    destruct (fs_ListInFolder f _ _ w') as [[l2|] w2] eqn:E2; [|done]. intros [= <- <-]. by eapply Hr2.
Qed.

Lemma list_folder_session what root fd s w r s1 w1 :
  list_folder store what root fd (s, w) = (r, (s1, w1)) → s1 = s.
Proof.
  unfold list_folder, folders, call, ofail. destruct root, (st_folders store); [| |try by intros [= _ -> _]..];
    repeat match goal with |- context [let '(_, _) := ?x in _] => destruct x end; by intros [= _ <- _].
Qed.

Lemma select_then_rescan fd s w l st1 l' st2 :
  repeatable → fd ≠ "" → Select store fd (s, w) = (Ok l, st1) → Rescan store st1 = (Ok l', st2) → l' = [].
Proof.
  intros Hr Hfd. unfold Select, obind at 1.
  destruct (list_folder store "select" _ fd (s, w)) as [[l1|] [s1 w1]] eqn:E1; [|done].
  pose proof (list_folder_session _ _ _ _ _ _ _ _ E1) as ->.
  intros [= <- <-]. unfold Rescan, get. unfold obind at 1. cbn [fst]. destruct (decide _); [done|].
  cbn [selectedFolder msgs mailbox]. unfold obind at 1, at_root. rewrite bool_decide_false by done. simpl.
  destruct (list_folder store "rescan" _ fd _) as [[l2|] [s2 w2]] eqn:E2; [|done]. intros [= <- <-].
  assert (UID <$> l2 = UID <$> l1) as Hag by (eapply list_folder_again; [done|exact E1| |exact E2]; done).
  apply elem_of_nil_inv. intros m [Hm Hin]%list_elem_of_filter. apply Hm. rewrite <- Hag.
  by apply list_elem_of_fmap_2.
Qed.

Lemma rescan_reports_nothing folder st l st' :
  repeatable → rpc_Rescan store folder st = (Ok l, st') → l = [].
Proof.
  destruct st as [s w]. intros Hr. unfold rpc_Rescan, selected, orelse.
  destruct (Select _ _ _) as [[l1|] st1] eqn:E1; [|done].
  destruct (Rescan store st1) as [[l2|] st2] eqn:E2; [|done]. intros [= <- _].
  by rewrite (select_then_rescan _ _ _ _ _ _ _ Hr (or_inbox_ne folder) E1 E2).
Qed.

Lemma watch_reports_nothing folder between st evs st' :
  repeatable → Watch store folder between st = (Ok evs, st') → evs = [].
Proof.
  intros Hr. unfold Watch, selected, orelse. destruct (Select _ _ st) as [[l1|] st1]; [|done].
  destruct (watch_ticks _ _ between st1) as [evs1 st2] eqn:E. intros [= <- _]. clear st st' l1.
  revert st1 evs1 st2 E. induction between as [|g between IH]; intros st evs st' E; simpl in E.
  { by injection E as <- <-. }
  destruct (watch_tick store (or_inbox folder) (g st)) as [ev st1] eqn:Et.
  destruct (watch_ticks store _ between st1) as [evs1 st2] eqn:Ew. rewrite (IH _ _ _ Ew) in E.
  assert (ev = []) as ->; [|by injection E as <- <-].
  unfold watch_tick in Et. destruct (g st) as [s w].
  destruct (Select store _ (s, w)) as [[l|] st3] eqn:E1; [|by injection Et as <- _].
  destruct (Rescan store st3) as [[l'|] st4] eqn:E2; [|by injection Et as <- _].
  rewrite (select_then_rescan _ _ _ _ _ _ _ Hr (or_inbox_ne folder) E1 E2) in Et. by injection Et as <- _.
Qed.

(** *** POP3 deletions never reach the store

    pop3d deletes with the Delete call, which only sets a mark of this session,
    and commits with Expunge, which removes what carries the [\Deleted] flag. The
    marks are used by Commit alone. *)
Lemma marks_only uids s w s' w' :
  foldl (λ st uid, (rpc_Delete (W := W) uid st).2) (s, w) uids = (s', w') →
  w' = w ∧ mailbox s' = mailbox s ∧ selectedFolder s' = selectedFolder s ∧ msgs s' = msgs s.
Proof.
  revert s. induction uids as [|uid uids IH]; intros s; simpl; [by intros [= <- <-]|].
  unfold rpc_Delete, orelse, Delete, obind, get. cbn [fst].
  destruct (GetUID uid s); [destruct (decide _)|]; simpl; intros E; apply IH in E; exact E.
Qed.

Lemma pop3_quit_removes_nothing uids s w s1 w1 l w2 :
  foldl (λ st uid, (rpc_Delete (W := W) uid st).2) (s, w) uids = (s1, w1) →
  EqualFold "INBOX" "INBOX" = true →
  ms_List (st_messages store) (mailbox s) w = (Ok l, w2) → flagged l = [] →
  ∃ s2, rpc_Expunge store "" (s1, w1) = (Ok [], (s2, w2)).
Proof.
  intros (-> & Hm & _ & _)%marks_only Hi Hl Hf. unfold rpc_Expunge, selected, orelse.
  change (or_inbox "") with "INBOX". unfold Select, list_folder. rewrite Hi. unfold obind at 1, call.
  rewrite Hm, Hl. unfold obind, put, oret. cbn [fst snd]. unfold Expunge_, obind at 1, get. cbn [fst msgs selectedFolder].
  assert (∀ l st, flagged l = [] → expel store "INBOX" l st = (Ok [], st)) as He.
  { clear. intros l st. induction l as [|x l IH]; [done|]. unfold flagged. rewrite filter_cons. simpl.
    destruct (hasFlag (Flags x) flagDeleted); [by rewrite decide_True|]. rewrite decide_False by done. apply IH. }
  unfold obind. rewrite He by done. by eexists.
Qed.
End Composition.

(** ** A store that keeps the laws: messages by mailbox, folder and UID *)
Module BoxStore.
Import MdDemo.
Record boxes := mkBoxes { held : gmap (string * string * Z) (string * list string); next_uid : Z }.
Definition set_held f (b : boxes) : boxes := mkBoxes (f (held b)) (next_uid b).
Definition info (mb n : string) (e : string * string * Z * (string * list string)) : option MessageInfo :=
  let '(m, n', u, (data, flags)) := e in
  if decide (m = mb ∧ n' = n) then Some (mkInfo u "" (Z.of_nat (String.length data)) flags 0) else None.
Definition listing (mb n : string) (b : boxes) : result (list MessageInfo) serr * boxes :=
  (Ok (omap (info mb n) (map_to_list (held b))), b).
Definition read (mb n : string) (u : Z) (b : boxes) : result reader serr * boxes :=
  (match held b !! (mb, n, u) with Some (d, _) => Ok (Content d) | None => Err "message not found" end, b).
Definition remove (mb n : string) (u : Z) (b : boxes) : option serr * boxes :=
  (None, set_held (delete (mb, n, u)) b).
Definition add (mb n d : string) (flags : list string) (b : boxes) : result Z serr * boxes :=
  let u := next_uid b in
  match held b !! (mb, n, u) with
  | Some _ => (Err "uid taken", b)
  | None => (Ok u, mkBoxes (<[(mb, n, u) := (d, flags)]> (held b)) (u + 1))
  end.
Definition nothing : boxes → option serr * boxes := λ b, (None, b).
Definition flag (mb n : string) (u : Z) (fl : list string) (b : boxes) : option serr * boxes :=
  (None, set_held (alter (λ x, (x.1, fl)) (mb, n, u)) b).
Definition copy (mb src : string) (u : Z) (dst : string) (b : boxes) : result Z serr * boxes :=
  match held b !! (mb, norm src, u) with
  | Some (d, fl) => add mb (norm dst) d fl b
  | None => (Err "message not found", b)
  end.
Definition folder_store : FolderStore boxes :=
  mkFolderStore (λ _ _, nothing) (λ _ b, (Ok [], b)) (λ _ _, nothing) listing (λ _ _ b, (Ok (0, 0), b))
    read remove (λ _ _, nothing) (λ mb n d b, let '(_, b) := add mb n d [] b in (None, b)) (λ _ _ _, nothing)
    (λ mb n d fl _, add mb (norm n) d fl) (λ mb n, flag mb (norm n)) copy (λ _ _ b, (Ok 1, b))
    (λ _ _ b, (Ok (next_uid b), b)).
Definition box_store : MailStore boxes :=
  mkMailStore (mkMessageStore (λ mb, listing mb "INBOX") (λ mb, read mb "INBOX") (λ mb, remove mb "INBOX")
                 (λ _, nothing) (λ _ b, (Ok (0, 0), b))) (Some folder_store).
Definition box_content (mb n : string) (u : Z) (b : boxes) : option string := fst <$> held b !! (mb, n, u).

Lemma remove_law mb fd uid w r w' : remove mb fd uid w = (r, w') →
  (∀ m n u, (m, n, u) ≠ (mb, fd, uid) → box_content m n u w' = box_content m n u w) ∧
  (r = None → box_content mb fd uid w' = None) ∧
  (r ≠ None → box_content mb fd uid w' = box_content mb fd uid w).
Proof.
  intros [= <- <-]. unfold box_content. cbn [set_held held]. split_and!; [|by rewrite lookup_delete_eq|done].
  intros m n u Hn. by rewrite lookup_delete_ne.
Qed.

#[export] Instance box_laws : MailStoreLaws box_store folder_store box_content.
Proof.
  split; [done|by intros ? ? ? ? [= <- <-]|by intros ? ? ? ? ? [= <- <-]| | |by intros ? ? ? ? [= <- <-]
    |by intros ? ? ? ? ? [= <- <-]|].
  - intros mb uid w r w'. apply remove_law.
  - intros mb fd uid w r w'. apply remove_law.
  - intros mb src uid dst w r w'. cbn [fs_CopyMessage folder_store]. unfold copy, box_content.
    destruct (held w !! (mb, norm src, uid)) as [[d fl]|] eqn:Es; [|by intros [= <- <-]].
    unfold add. destruct (held w !! (mb, norm dst, next_uid w)) as [?|] eqn:En; [by intros [= <- <-]|].
    intros [= <- <-]. cbn [held]. split.
    + intros m n u c Hc. rewrite lookup_insert_ne; [done|]. intros E. by rewrite <- E, En in Hc.
    + intros new [= <-]. rewrite En. split; [done|]. exists d. by rewrite lookup_insert_eq.
Qed.

Definition two : boxes :=
  mkBoxes {[ ("alice", "INBOX", 1) := ("one", ["\Deleted"]); ("alice", "INBOX", 2) := ("two", []) ]} 3.
Definition opened : Session := mkSession "alice" "INBOX" [] ∅.
End BoxStore.

Section SessionWitnesses.
Import MdDemo BoxStore.

Lemma move_no_loss_example :
  let '(r, (_, w)) := MoveMessage box_store 2 "" "Archive" (opened, two) in
  r = Ok 3 ∧ box_content "alice" "Archive" 3 w = Some "two" ∧ box_content "alice" "INBOX" 2 w = None ∧
  box_content "alice" "INBOX" 1 w = Some "one".
Proof.
  destruct (MoveMessage box_store 2 "" "Archive" (opened, two)) as [r [s w]] eqn:E.
  assert (r = Ok 3) as -> by (apply (f_equal fst) in E; vm_compute in E; congruence).
  destruct (move_no_loss box_store folder_store box_content 2 "" "Archive" "two" opened s two w (Ok 3))
    as (Ho & _ & Hok & _); [vm_compute; reflexivity|exact E|].
  destruct (Hok 3 eq_refl) as [Hd Hs]. split; [done|]. split; [exact Hd|]. split; [exact Hs|].
  apply Ho; [done|vm_compute; reflexivity].
Defined.

Lemma expunge_only_flagged_example :
  let '(r, (_, w)) := rpc_Expunge box_store "" (opened, two) in
  r = Ok [1] ∧ box_content "alice" "INBOX" 1 w = None ∧ box_content "alice" "INBOX" 2 w = Some "two".
Proof.
  destruct (rpc_Expunge box_store "" (opened, two)) as [r [s w]] eqn:E.
  assert (r = Ok [1]) as -> by (apply (f_equal fst) in E; vm_compute in E; congruence).
  destruct (expunge_only_flagged box_store folder_store box_content "" opened s two w (Ok [1]) E)
    as (l & Hl & Ho & Hok).
  destruct (Hok [1] eq_refl) as (ms & -> & Hms & Hgone). split; [done|]. split.
  - apply Hgone. apply list_elem_of_singleton. done.
  - change (norm (or_inbox "")) with "INBOX" in Ho. rewrite Ho; [vm_compute; reflexivity|].
    intros (_ & _ & Hu). rewrite <- Hms in Hu. apply list_elem_of_singleton in Hu. done.
Defined.

(** *** On the maildir *)
Notation store := (maildir_store lay (λ _, []) true).
Notation elems := (elements (C := gset Z)).
Definition with_junk : world box := put_dir "/m/alice/.Junk" (mkBox [("j1:2,", "junk")] [] 2) w0.
Definition mails (folder : string) (st : Session * world box) : list Z :=
  match (rpc_List store folder st).1 with Ok l => pb_Uid <$> l | Err _ => [] end.
Definition alice (w : world box) : Session * world box :=
  (Open store "alice@x" (New, set_deleted ∅ w)).2.

(** DELE and QUIT of pop3d over this service answer success and delete nothing;
    Commit would have deleted the message. *)
Lemma pop3_deletion_lost :
  let st := (rpc_List store "" (alice w0)).2 in
  let '(r1, st1) := rpc_Delete 2 st in
  let '(r2, st2) := rpc_Expunge store "" st1 in
  let '(r3, st3) := rpc_Commit store elems st1 in
  r1 = Ok () ∧ r2 = Ok [] ∧ mails "" st2 = [1; 2] ∧ r3 = Ok () ∧ mails "" st3 = [1].
Proof. vm_compute. by split_and!. Qed.

(** A message arrives between two rescans and is not reported. *)
Lemma arrival_not_reported :
  let '(r1, (s1, w1)) := rpc_Rescan store "" (alice w0) in
  let w2 := (DeliverToFolder lay "alice@x" "Junk" "new" w1).2 in
  let '(r2, st2) := rpc_Rescan store "Junk" (s1, w2) in
  r1 = Ok [] ∧ r2 = Ok [] ∧ mails "Junk" st2 = [1].
Proof. vm_compute. by split_and!. Qed.

(** Marks are kept across folders and committed in the inbox: a mark set while
    another folder is listed deletes the inbox message with the same UID. *)
Lemma mark_hits_the_inbox :
  let st := (rpc_List store "Junk" (alice with_junk)).2 in
  let '(r1, st1) := rpc_Delete 1 st in
  let '(r2, st2) := rpc_Commit store elems st1 in
  r1 = Ok () ∧ r2 = Ok () ∧ mails "Junk" st2 = [1] ∧ mails "" st2 = [2].
Proof. vm_compute. by split_and!. Qed.
End SessionWitnesses.
