(* ===== verification/Deliver.v ===== *)
(** * The delivery pipeline of mail-session

    Model of [src/internal/mail-session/deliver]: one message for one recipient,
    through the size check, the Sieve script, encryption at rest and the write
    into the maildir ([deliver.go], [sieve.go], [encrypt.go], [environment.go]),
    with [SieveScript] of [src/msgstore/maildir/sieve.go] and the delivery service
    of [src/internal/mail-session/grpcserver/delivery.go]. The Sieve interpreter
    and the parsers of headers, dates and addresses are third-party or standard
    library code: the class [SieveLib]. The store is a value of [DeliveryStore];
    every write to it is recorded. *)
From S2P Require Import MailSession Forwards.
From S2P Require Import Prelude GoStrings UidList FilePath MsgStore Maildir Keyring MsgCrypt.
From S2P Require Import Disk Passwd Admin Domain.
From Stdlib Require Import ZArith Lia Ascii.
Open Scope string_scope.
Open Scope list_scope.
Open Scope Z_scope.

(** The address without its extension. *)
Definition base_address (addr : string) : string := Maildir.Address (ParseRecipient addr).

(** ** Requests and answers *)
Inductive DeliverResult := ResultDelivered | ResultRejected | ResultRedirected.
#[export] Instance DeliverResult_eq_dec : EqDecision DeliverResult.
Proof. solve_decision. Defined.
Definition result_String (r : DeliverResult) : string :=
  match r with
  | ResultDelivered => "delivered" | ResultRejected => "rejected" | ResultRedirected => "redirected"
  end.
Record DeliverResponse := mkResponse {
  Result : DeliverResult; Temporary : bool; Reason : string;
  RedirectAddresses : list string; dr_Folder : string;
}.
(** [Score] is a float64, of which only the printed form is used. *)
Record SpamVerdict := mkVerdict { sv_IsSpam : bool; sv_Score : string; sv_Headers : gmap string string }.
Record DeliverRequest := mkRequest {
  Sender : string; Recipient_ : string; req_ClientIP : string; req_ClientHostname : string;
  Forwarded : bool; req_ReceivedTime : string; MsgID : string; Spam : option SpamVerdict;
}.
Record Config := mkConfig { DomainsPath : string; DomainsDataPath : string; StoreBasePath : string }.
Definition config_DataPath (c : Config) : string :=
  if decide (DomainsDataPath c = "") then DomainsPath c else DomainsDataPath c.

Definition rejected (temporary : bool) (reason : string) : DeliverResponse :=
  mkResponse ResultRejected temporary reason [] "".

(** ** The Sieve environment *)
Section Environment.
Context `{UnicodeCase} (hostname buildVersion : option string).
Definition spamValueHeader : string := "X-Spam-Value".
Definition nonempty (s : string) : option string := if decide (s = "") then None else Some s.
(** [score] prints the verdict's score with two decimals. *)
Definition GetEnvironment (spam : option SpamVerdict) (name : string) : option string :=
  let n := ToLower name in
  if decide (n = "name") then Some "maildancer"
  else if decide (n = "version") then buildVersion ≫= λ v, if decide (v = "(devel)") then None else nonempty v
  else if decide (n = "location") then Some "MDA"
  else if decide (n = "phase") then Some "during"
  else if decide (n = "host") then hostname ≫= nonempty
  else if decide (n = "vnd.maildancer.spam-flag") then
    spam ≫= λ v, Some (if sv_IsSpam v then "YES" else "NO")
  else if decide (n = "vnd.maildancer.spam-value") then
    spam ≫= λ v, sv_Headers v !! spamValueHeader ≫= nonempty
  else if decide (n = "vnd.maildancer.spam-score") then spam ≫= λ v, Some (sv_Score v)
  else None.
End Environment.

(** ** Scripts *)
Inductive action :=
| ActionKeep (flags : list string)
| ActionFileInto (mailbox : string) (flags : list string)
| ActionRedirect (address : string)
| ActionReject (reason : string)
| ActionEReject (reason : string)
| ActionDiscard.
Record RuntimeData := mkRuntime { AppliedActions : list action; ImplicitKeep : bool; rt_Flags : list string }.

Class SieveLib := {
  (** [sieve.Load] *)
  sieve_Load : string → option string;
  (** [textproto.Reader.ReadMIMEHeader]; [None] for an error that is not the end *)
  ReadMIMEHeader : string → option (list (string * string));
  (** [script.Execute]: the script, which redirects are allowed, sender and
      recipient, the header, the message, the environment *)
  sieve_Execute : string → (string → bool) → string * string → list (string * string) → string →
    (string → option string) → option RuntimeData;
  (** [mail.ParseAddress], [time.Parse(time.RFC3339, _)], [net.ParseIP] *)
  ParseAddress : string → bool;
  parse_RFC3339 : string → option Z;
  ParseIP : string → option string;
}.

Record fileintoTarget := mkTarget { t_folder : string; t_flags : list string }.
Record sieveOutcome := mkOutcome {
  rejectReason : string; fileinto : list fileintoTarget;
  keep : bool; keepFlags : list string; redirects : list string;
}.

(** The stores a domain's configuration opens. *)
Class DeliveryStore (W : Type) := {
  ds_folders : StoreConfig → option (FolderStore W);
  (** [DeliveryAgent.Deliver] with the folders it records *)
  ds_Deliver : StoreConfig → Envelope → string → W → option serr * gmap string string * W;
}.

(** A write to the store: recipient or mailbox, folder, bytes, success. *)
Record write := mkWrite { wr_to : string; wr_folder : string; wr_data : string; wr_ok : bool }.
Record world (W : Type) := mkWorld {
  w_disk : folder; w_provider : provider; w_store : W; w_writes : list write; w_rand : rand;
}.
Arguments mkWorld {W}. Arguments w_disk {W}. Arguments w_provider {W}. Arguments w_store {W}.
Arguments w_writes {W}. Arguments w_rand {W}.

Section Digest.
Context `{UnicodeCase, SieveLib}.
(** [sievePolicy.RedirectAllowed] *)
Definition RedirectAllowed (forwarded : bool) (recipient addr : string) : bool :=
  if forwarded then false
  else if EqualFold addr recipient then false
  else ParseAddress addr.

Definition digest_action (o : sieveOutcome) (a : action) : sieveOutcome :=
  match a with
  | ActionKeep fl => mkOutcome (rejectReason o) (fileinto o) true fl (redirects o)
  | ActionFileInto m fl =>
      if EqualFold m "INBOX" then mkOutcome (rejectReason o) (fileinto o) true fl (redirects o)
      else mkOutcome (rejectReason o) (fileinto o ++ [mkTarget m fl]) (keep o) (keepFlags o) (redirects o)
  | ActionRedirect x =>
      mkOutcome (rejectReason o) (fileinto o) (keep o) (keepFlags o) (redirects o ++ [x])
  | ActionReject r | ActionEReject r =>
      mkOutcome r (fileinto o) (keep o) (keepFlags o) (redirects o)
  | ActionDiscard => o
  end.
Definition digestActions (d : RuntimeData) : sieveOutcome :=
  let o := foldl digest_action (mkOutcome "" [] false [] []) (AppliedActions d) in
  if ImplicitKeep d && negb (keep o)
  then mkOutcome (rejectReason o) (fileinto o) true (rt_Flags d) (redirects o) else o.

Fixpoint dedupe (seen : list string) (addrs : list string) : list string :=
  match addrs with
  | [] => []
  | a :: addrs =>
      if decide (ToLower a ∈ seen) then dedupe seen addrs else a :: dedupe (ToLower a :: seen) addrs
  end.
Definition dedupeFold : list string → list string := dedupe [].

Definition splitAddress (addr : string) : string * string :=
  match cut_last "@" addr with Some (l, d) => (l, d) | None => (addr, "") end.
Definition layout_of (c : StoreConfig) : layout :=
  mkLayout (sc_BasePath c) (default "" (sc_Options c !! "maildir_subdir"))
    (default "" (sc_Options c !! "path_template")).
(** [MaildirStore.sieveScriptPath] *)
Definition sieveScriptPath (l : layout) (mailbox : string) : result string merr :=
  let candidate := Clean (Join [Maildir.basePath l; expandMailbox l mailbox; ".sieve"]) in
  if under (Clean (Maildir.basePath l)) candidate then Ok candidate else Err EPathTraversal.
End Digest.

Definition maxSieveScriptSize : Z := 256 * 1024.
Definition readSieveScript (content : string) : option string :=
  if maxSieveScriptSize <? blen content then None else Some content.
Definition systemSieveName : string := "system.sieve".
Definition keyringPubFile_ : string := "keyring.pub".

Section Pipeline.
Context {W : Type} `{DeliveryStore W, UnicodeCase, TomlConfig, DkimKeys, SieveLib, NaclBox}.
Context (cfg : Config) (dirs : string → bool) (hostname buildVersion : option string) (now : Z).

Definition M (A : Type) : Type := world W → A * world W.
Definition mret {A} (a : A) : M A := λ w, (a, w).
Definition mbind {A B} (m : M A) (k : A → M B) : M B := λ w, let '(a, w) := m w in k a w.
Notation "'do' x <- m ; k" := (mbind m (λ x, k)) (at level 200, x pattern, m at level 100, k at level 200).
Definition on_disk {A} (f : folder → A * folder) : M A := λ w,
  let '(a, d) := f (w_disk w) in (a, mkWorld d (w_provider w) (w_store w) (w_writes w) (w_rand w)).
Definition on_rand {A} (f : rand → A * rand) : M A := λ w,
  let '(a, r) := f (w_rand w) in (a, mkWorld (w_disk w) (w_provider w) (w_store w) (w_writes w) r).
(** A write to the store, recorded with its success. *)
Definition writing {A} (to folder_ data : string) (ok : A → bool) (f : W → A * W) : M A := λ w,
  let '(a, s) := f (w_store w) in
  (a, mkWorld (w_disk w) (w_provider w) s (w_writes w ++ [mkWrite to folder_ data (ok a)]) (w_rand w)).
Definition get_domain (name : string) : M (option Domain) := λ w,
  let '(d, p, disk) := GetDomain dirs name (w_provider w) (w_disk w) in
  (d, mkWorld disk p (w_store w) (w_writes w) (w_rand w)).

(** [dlvr.loadSieveScript]: the user's script, else the site's. *)
Definition loadSieveScript (dom : Domain) (mailbox : string) : M (option string) :=
  let site :=
    do r <- on_disk (read_file DRead (Join [config_DataPath cfg; systemSieveName]));
    mret (match r with Ok (Some c) => readSieveScript c | _ => None end) in
  match sieveScriptPath (layout_of (d_store dom)) mailbox with
  | Err _ => mret None
  | Ok path =>
      do r <- on_disk (read_file DRead path);
      match r with
      | Ok (Some c) => mret (readSieveScript c)
      | Ok None => site
      | Err _ => mret None
      end
  end.

Definition runSieve (dom : Domain) (req : DeliverRequest) (msg : string) : M (option sieveOutcome) :=
  do raw <- loadSieveScript dom (base_address (Recipient_ req));
  mret ((raw ≫= sieve_Load) ≫= λ script,
        ReadMIMEHeader msg ≫= λ hdr,
        sieve_Execute script (RedirectAllowed (Forwarded req) (Recipient_ req))
          (Sender req, Recipient_ req) hdr msg (GetEnvironment hostname buildVersion (Spam req)) ≫= λ d,
        Some (digestActions d)).

(** [dlvr.maybeEncrypt]: what to write, or the refusal. *)
Definition maybeEncrypt (req : DeliverRequest) (msg : string)
    : M (result (string * option EncryptionInfo) DeliverResponse) :=
  let refuse := rejected true "encryption required but not available for recipient" in
  if decide (StoreBasePath cfg = "") then mret (Ok (msg, None))
  else
    let '(localpart, _) := splitAddress (base_address (Recipient_ req)) in
    do r <- on_disk (read_file DRead (Join [StoreBasePath cfg; localpart; keyringPubFile_]));
    match r with
    | Ok None => mret (Ok (msg, None))
    | Err _ => mret (Err refuse)
    | Ok (Some pubKey) =>
        do e <- on_rand (EncryptMessage msg pubKey);
        mret match e with
             | Ok blob => Ok (blob, Some (mkEncryption EncryptionAlgorithm true))
             | Err _ => Err refuse
             end
    end.

Definition envelope_of (req : DeliverRequest) (enc : option EncryptionInfo) : Envelope :=
  mkEnvelope (Sender req) [Recipient_ req]
    (if decide (req_ReceivedTime req = "") then None else parse_RFC3339 (req_ReceivedTime req))
    (if decide (req_ClientIP req = "") then None else ParseIP (req_ClientIP req))
    (req_ClientHostname req) enc (Forwarded req).

(** [dom.DeliveryAgent]; every domain of a [FilesystemDomainProvider] has one, so
    that the refusal in [deliverLocal] is never taken. *)
Definition DeliveryAgent (dom : Domain) : option StoreConfig := Some (d_store dom).
Definition deliverLocal (dom : Domain) (req : DeliverRequest) (msg : string) (enc : option EncryptionInfo)
    : M (result DeliverResponse serr) :=
  match DeliveryAgent dom with
  | None => mret (Ok (rejected true ("no delivery agent for domain " +:+ d_Name dom)))
  | Some agent =>
      do r <- writing (Recipient_ req) "" msg (λ x, is_none (x.1 : option serr))
                (λ s, let '(e, fl, s) := ds_Deliver agent (envelope_of req enc) msg s in ((e, fl), s));
      let '(e, recorded) := r in
      match e with
      | Some e => mret (Err ("maildir delivery to " +:+ Recipient_ req +:+ ": " +:+ e))
      | None =>
          let f := default "" (recorded !! base_address (Recipient_ req)) in
          mret (Ok (mkResponse ResultDelivered false "" [] (if decide (f = "") then "INBOX" else f)))
      end
  end.

(** The error of [deliverLocal], when only that matters. *)
Definition local_error (dom : Domain) (req : DeliverRequest) (msg : string) (enc : option EncryptionInfo)
    : M (option serr) :=
  do r <- deliverLocal dom req msg enc;
  mret (match r with Ok _ => None | Err e => Some e end).
Definition deliverToFolder (dom : Domain) (req : DeliverRequest) (mailbox : string) (t : fileintoTarget)
    (msg : string) (enc : option EncryptionInfo) : M (option serr) :=
  match ds_folders (d_store dom) with
  | None => local_error dom req msg enc
  | Some fs =>
      match t_flags t with
      | _ :: _ =>
          let date := match (if decide (req_ReceivedTime req = "") then None
                             else parse_RFC3339 (req_ReceivedTime req)) with
                      | Some t => t
                      | None => now
                      end in
          writing mailbox (t_folder t) msg is_none
            (λ s, let '(r, s) := fs_AppendToFolder fs mailbox (t_folder t) msg (t_flags t) date s in
                  (match r with Ok _ => None | Err e => Some e end, s))
      | [] =>
          if EqualFold (t_folder t) "INBOX" then local_error dom req msg enc
          else writing mailbox (t_folder t) msg is_none (fs_DeliverToFolder fs mailbox (t_folder t) msg)
      end
  end.

(** The folders of the script in turn; the last one written. *)
Fixpoint file_all (dom : Domain) (req : DeliverRequest) (mailbox : string) (ts : list fileintoTarget)
    (msg : string) (enc : option EncryptionInfo) (last : string) : M (result string serr) :=
  match ts with
  | [] => mret (Ok last)
  | t :: ts =>
      do e <- deliverToFolder dom req mailbox t msg enc;
      match e with
      | Some e => mret (Err e)
      | None => file_all dom req mailbox ts msg enc (t_folder t)
      end
  end.
Definition keep_message (dom : Domain) (req : DeliverRequest) (mailbox : string) (o : sieveOutcome)
    (msg : string) (enc : option EncryptionInfo) (last : string) : M (result string serr) :=
  if keep o then
    match keepFlags o with
    | _ :: _ =>
        do e <- deliverToFolder dom req mailbox (mkTarget "INBOX" (keepFlags o)) msg enc;
        mret (match e with Some e => Err e | None => Ok "INBOX" end)
    | [] =>
        do r <- deliverLocal dom req msg enc;
        mret (match r with Err e => Err e | Ok resp => Ok (dr_Folder resp) end)
    end
  else mret (Ok last).

Definition applySieve (dom : Domain) (req : DeliverRequest) (o : sieveOutcome) (msg : string)
    (enc : option EncryptionInfo) : M (result DeliverResponse serr) :=
  if decide (rejectReason o ≠ "") then mret (Ok (rejected false (rejectReason o)))
  else
    let mailbox := base_address (Recipient_ req) in
    do filed <- file_all dom req mailbox (fileinto o) msg enc "";
    match filed with
    | Err e => mret (Err e)
    | Ok last =>
        do kept <- keep_message dom req mailbox o msg enc last;
        mret match kept with
             | Err e => Err e
             | Ok folder_ =>
                 match redirects o with
                 | [] => Ok (mkResponse ResultDelivered false "" [] folder_)
                 | rs => Ok (mkResponse ResultRedirected false "" (dedupeFold rs) "")
                 end
             end
    end.

Definition bad_part (s : string) : bool :=
  bool_decide (s = "") || has_byte "/" s || has_byte BS s || Contains s "..".

Definition Deliver (req : DeliverRequest) (msg : string) : M (result DeliverResponse serr) :=
  if decide (Recipient_ req = "") then mret (Ok (rejected false "no recipient specified"))
  else
    let '(localpart, domainName) := splitAddress (Recipient_ req) in
    if bad_part localpart || bad_part domainName then mret (Ok (rejected false "invalid recipient address"))
    else
      do dom <- get_domain domainName;
      match dom with
      | None => mret (Ok (rejected true ("domain not found: " +:+ domainName)))
      | Some dom =>
          if (0 <? d_MaxMessageSize dom) && (d_MaxMessageSize dom <? blen msg)
          then mret (Ok (rejected false "message too large"))
          else
            do outcome <- runSieve dom req msg;
            do enc <- maybeEncrypt req msg;
            match enc with
            | Err resp => mret (Ok resp)
            | Ok (writeMsg, encInfo) =>
                match outcome with
                | Some o => applySieve dom req o writeMsg encInfo
                | None => deliverLocal dom req writeMsg encInfo
                end
            end
      end.
End Pipeline.

(** [deliver.New] *)
Section NewDeliverer.
Context `{TomlConfig, UnicodeCase, DkimKeys}.
Definition deliver_defaults : DomainConfig :=
  mkDomainConfig (mkAuthConf "passwd" "passwd" "keys" ∅) (mkStoreConf "maildir" "users" ∅)
    (cfg_DKIM zero_config) (cfg_Outbound zero_config) (MaxSendsPerHour zero_config) (cfg_DNS zero_config)
    (MaxMessageSize zero_config) (RecipientRejection zero_config) (EncryptionMode zero_config)
    (cfg_Forwards zero_config).
Definition deliver_New (c : Config) (d : folder) : option provider * folder :=
  if decide (DomainsPath c = "") then (None, d)
  else
    let '(p, d) := NewFilesystemDomainProvider (DomainsPath c) d in
    let p := if decide (DomainsDataPath c = "") then p else WithDataPath (DomainsDataPath c) p in
    (Some (WithDefaults deliver_defaults p), d).
End NewDeliverer.

(** ** The delivery service *)
Record DeliverMetadata := mkMetadata {
  dm_Sender : string; dm_Recipient : string; dm_ClientIp : string; dm_ClientHostname : string;
  dm_Forwarded : bool; dm_ReceivedTime : string; dm_Msgid : string; dm_SpamVerdict : option SpamVerdict;
}.
Definition deliverRequestFromMetadata (m : DeliverMetadata) : DeliverRequest :=
  mkRequest (dm_Sender m) (dm_Recipient m) (dm_ClientIp m) (dm_ClientHostname m) (dm_Forwarded m)
    (dm_ReceivedTime m) (dm_Msgid m) (dm_SpamVerdict m).

Section Service.
Context {W : Type} `{DeliveryStore W, UnicodeCase, TomlConfig, DkimKeys, SieveLib, NaclBox}.
Context (cfg : Config) (dirs : string → bool) (hostname buildVersion : option string) (now : Z).
(** [DeliveryServer.Deliver]; [configured] says whether there is a deliverer. *)
Definition rpc_Deliver (configured : bool) (l : list (received DeliverMetadata)) (w : world W)
    : result DeliverResponse (code * string) * world W :=
  if negb configured then (Err (Unavailable, "delivery service not configured"), w)
  else
    match l with
    | [] | RFails :: _ => (Err (InvalidArgument, "receive metadata"), w)
    | RData _ :: _ => (Err (InvalidArgument, "first message must contain delivery metadata"), w)
    | RMeta m :: l =>
        match recv_body l with
        | None => (Err (Internal, "receive body chunk"), w)
        | Some body =>
            let '(r, w) := Deliver cfg dirs hostname buildVersion now (deliverRequestFromMetadata m) body w in
            (match r with Ok resp => Ok resp | Err _ => Err (Internal, "delivery failed") end, w)
        end
    end.
End Service.

(** ** What a run does: no file changes, and the writes it adds *)
Section Effects.
Context {W : Type}.
Definition logs {A} (Q : A → list write → Prop) (m : M (W := W) A) : Prop := ∀ w,
  files (w_disk (m w).2) = files (w_disk w) ∧
  ∃ new, w_writes (m w).2 = w_writes w ++ new ∧ Q (m w).1 new.
Definition silent {A} (m : M (W := W) A) : Prop := logs (λ _ new, new = []) m.

Lemma logs_weaken {A} (Q Q' : A → list write → Prop) (m : M A) :
  logs Q m → (∀ a n, Q a n → Q' a n) → logs Q' m.
Proof. intros Hm HQ w. destruct (Hm w) as (Hf & new & Hw & Hq). eauto. Qed.
Lemma logs_ret {A} (Q : A → list write → Prop) a : Q a [] → logs Q (mret (W := W) a).
Proof. intros HQ w. split; [done|]. exists []. by rewrite app_nil_r. Qed.
Lemma logs_bind {A B} (Q1 : A → list write → Prop) (Q : B → list write → Prop) (m : M A) (k : A → M B) :
  logs Q1 m → (∀ a n1, Q1 a n1 → logs (λ b n2, Q b (n1 ++ n2)) (k a)) → logs Q (mbind (W := W) m k).
Proof.
  intros Hm Hk w. destruct (Hm w) as (Hf & n1 & Hw & Hq). unfold mbind. destruct (m w) as [a w1]. simpl in *.
  destruct (Hk a n1 Hq w1) as (Hf2 & n2 & Hw2 & Hq2). split; [congruence|].
  exists (n1 ++ n2). by rewrite Hw2, Hw, app_assoc.
Qed.
Lemma logs_silent_bind {A B} (Q : B → list write → Prop) (m : M A) (k : A → M B) :
  silent m → (∀ a, logs Q (k a)) → logs Q (mbind (W := W) m k).
Proof. intros Hm Hk. eapply logs_bind; [exact Hm|]. intros a n1 ->. apply Hk. Qed.
Lemma silent_disk {A} (f : folder → A * folder) :
  (∀ d, files (f d).2 = files d) → silent (on_disk (W := W) f).
Proof.
  intros Hf w. unfold on_disk. specialize (Hf (w_disk w)). destruct (f (w_disk w)) as [a d]. simpl in *.
  split; [done|]. exists []. by rewrite app_nil_r.
Qed.
Lemma silent_rand {A} (f : rand → A * rand) : silent (on_rand (W := W) f).
Proof.
  intros w. unfold on_rand. destruct (f (w_rand w)). split; [done|]. exists []. by rewrite app_nil_r.
Qed.
Lemma logs_writing {A} to fd data ok (f : W → A * W) :
  logs (λ a new, new = [mkWrite to fd data (ok a)]) (writing to fd data ok f).
Proof. intros w. unfold writing. destruct (f (w_store w)) as [a s]. split; [done|]. by eexists. Qed.
Lemma read_file_files {E} (e : E) p d : files (read_file e p d).2 = files d.
Proof. apply changes_nothing, changes_read_file. Qed.
End Effects.
#[export] Hint Resolve silent_rand : mail.
#[export] Hint Extern 2 (silent (on_disk _)) => apply silent_disk; intros ?; apply read_file_files : mail.

Section DomainFiles.
Context `{UnicodeCase, TomlConfig, DkimKeys}.
Lemma struct_layer_files c d : files (struct_layer c d).2 = files d.
Proof. unfold struct_layer, toTOMLMap, bind. destruct c; [|done]. by destruct (config_to_map d0). Qed.
Lemma loadTOMLMap_files p d : files (loadTOMLMap p d).2 = files d.
Proof.
  apply changes_nothing. apply changes_bind; [apply changes_read_file|]. intros [data|]; [|apply changes_ret].
  destruct (unmarshal_map data); [apply changes_ret|apply changes_fail].
Qed.
Lemma stat_files e p d : files (stat e p d).2 = files d.
Proof. apply changes_nothing. unfold stat. eauto 4 with changes. Qed.
Lemma own_layer_files p c d : files (own_layer p c d).2 = files d.
Proof.
  unfold own_layer. pose proof (stat_files ErrRandom c d) as Hs.
  destruct (stat ErrRandom c d) as [[[]|] d1]; simpl in Hs; [by rewrite loadTOMLMap_files|..];
    by destruct (defaults p).
Qed.
Lemma bind_files {E A B} (m : io E A) (k : A → io E B) d :
  files (m d).2 = files d → (∀ a d', files (k a d').2 = files d') → files (bind m k d).2 = files d.
Proof.
  intros Hm Hk. unfold bind. destruct (m d) as [[a|e] d1]; simpl in *; [by rewrite Hk|done].
Qed.
Lemma LoadDomainConfig_files p d : files (LoadDomainConfig p d).2 = files d.
Proof.
  apply bind_files; [apply read_file_files|]. intros [data|] d'; [|done]. by destruct (unmarshal_config data).
Qed.
Lemma LoadDomainsConfig_files p d : files (LoadDomainsConfig p d).2 = files d.
Proof.
  apply bind_files; [apply read_file_files|]. intros [data|] d'; [|done]. by destruct (unmarshal_domains data).
Qed.
Lemma ParsePostmasterFile_files p d : files (ParsePostmasterFile p d).2 = files d.
Proof.
  apply bind_files; [apply read_file_files|]. intros [data|] d'; [|done]. destruct (ScanLines data) as [lines []];
    by destruct (postmaster_lines _ _).
Qed.
(** A provider is made without touching the files. *)
Lemma deliver_New_files c d : files (deliver_New c d).2 = files d.
Proof.
  unfold deliver_New. case_decide; [done|]. unfold NewFilesystemDomainProvider.
  pose proof (LoadDomainConfig_files (Join [DomainsPath c; "config.toml"]) d) as H1'.
  destruct (LoadDomainConfig _ d) as [c1 d1].
  pose proof (LoadDomainsConfig_files (Join [DomainsPath c; "domains.toml"]) d1) as H2'.
  destruct (LoadDomainsConfig _ d1) as [c2 d2].
  pose proof (ParsePostmasterFile_files (Join [DomainsPath c; "postmaster"]) d2) as H3'.
  destruct (ParsePostmasterFile _ d2) as [c3 d3]. cbn [snd] in *. congruence.
Qed.
Lemma config_layers_files p n c d : files (config_layers p n c d).2 = files d.
Proof.
  unfold config_layers. do 3 (apply bind_files; [apply struct_layer_files|intros ? ?]).
  apply bind_files; [apply own_layer_files|done].
Qed.
Lemma load_forwards_files p d : files (load_forwards p d).2 = files d.
Proof.
  unfold load_forwards. pose proof (read_file_files DRead p d) as Hr.
  destruct (read_file DRead p d) as [r d1]. done.
Qed.
Lemma LoadDKIMKey_files p d : files (LoadDKIMKey p d).2 = files d.
Proof.
  apply bind_files; [apply read_file_files|]. intros [data|] d'; [|done].
  by destruct (dkim_parse data) as [[? []]|].
Qed.
Lemma load_dkim_files c p d : files (load_dkim c p d).2 = files d.
Proof.
  unfold load_dkim. destruct (decide _); [|done].
  pose proof (LoadDKIMKey_files (resolvePath p (PrivateKeyPath (cfg_DKIM c))) d) as Hl.
  by destruct (LoadDKIMKey _ d) as [r d1].
Qed.
Lemma loadDomain_files p n dp c d : files (loadDomain p n dp c d).2 = files d.
Proof.
  unfold loadDomain. apply bind_files; [apply config_layers_files|]. intros [layers own] d1.
  apply bind_files; [by unfold mergeConfigLayers; destruct (map_to_config _)|]. intros cfg d2.
  destruct (OpenStore _) as [st|e]; [|done]. destruct (forward_tiers p own cfg) as [a b].
  pose proof (load_forwards_files (Join [dp; "forwards"]) d2) as Hf.
  destruct (load_forwards _ d2) as [fwd d3]. simpl in Hf.
  pose proof (load_dkim_files cfg dp d3) as Hk. destruct (load_dkim cfg dp d3) as [k d4]. simpl in *. congruence.
Qed.
Lemma GetDomain_files dirs n p d : files (GetDomain dirs n p d).2 = files d.
Proof.
  unfold GetDomain. destruct (cache p !! _); [done|]. cbv zeta.
  set (absent_w := if defaults p then _ else _).
  assert (files absent_w.2 = files d) as Ha.
  { unfold absent_w. destruct (defaults p).
    - destruct (sys d) as [[|k] d1] eqn:Es; simpl; by rewrite (sys_files _ _ _ Es).
    - pose proof (read_file_files DRead (Join [Join [basePath p; ToLower n]; "config.toml"]) d) as Hr.
      by destruct (read_file DRead _ d) as [[[]|] d1]. }
  destruct absent_w as [[] d1]; simpl in Ha; [done|].
  pose proof (loadDomain_files p (ToLower n) (Join [basePath p; ToLower n])
    (Join [Join [basePath p; ToLower n]; "config.toml"]) d1) as Hl.
  destruct (loadDomain _ _ _ _ d1) as [[]]; simpl in *; congruence.
Qed.
End DomainFiles.

Section PipelineFacts.
Context {W : Type} `{DeliveryStore W, UnicodeCase, TomlConfig, DkimKeys, SieveLib, NaclBox}.
Context (cfg : Config) (dirs : string → bool) (hostname buildVersion : option string) (now : Z).
Notation Deliver := (Deliver (W := W) cfg dirs hostname buildVersion now).
Notation runSieve := (runSieve (W := W) cfg hostname buildVersion).
Notation maybeEncrypt := (maybeEncrypt (W := W) cfg).

Definition copies (msg : string) (new : list write) : Prop := Forall (λ x, wr_data x = msg) new.
Definition stored_one (new : list write) : Prop := Exists (λ x, wr_ok x = true) new.
Definition failed_one (new : list write) : Prop := Exists (λ x, wr_ok x = false) new.
Lemma copies_app msg n1 n2 : copies msg n1 → copies msg n2 → copies msg (n1 ++ n2).
Proof. intros. by apply Forall_app. Qed.
Lemma stored_app n1 n2 : stored_one n1 ∨ stored_one n2 → stored_one (n1 ++ n2).
Proof. unfold stored_one. by rewrite Exists_app. Qed.
Lemma failed_app n1 n2 : failed_one n1 ∨ failed_one n2 → failed_one (n1 ++ n2).
Proof. unfold failed_one. by rewrite Exists_app. Qed.
(** A write that reports an error or none. *)
Definition write_spec (msg : string) (e : option serr) (new : list write) : Prop :=
  copies msg new ∧ match e with None => stored_one new | Some _ => failed_one new end.
Lemma write_spec_one to fd msg e : write_spec msg e [mkWrite to fd msg (is_none e)].
Proof. split; [by constructor|]. destruct e; by constructor. Qed.

Lemma logs_deliverLocal dom req msg enc :
  logs (λ r new, copies msg new ∧ match r with
                  | Ok resp => Result resp = ResultDelivered ∧ stored_one new
                  | Err _ => failed_one new
                  end) (deliverLocal (W := W) dom req msg enc).
Proof.
  unfold deliverLocal. eapply logs_bind; [apply logs_writing|]. intros [e fl] n1 ->. simpl.
  destruct (write_spec_one (Recipient_ req) "" msg e) as [Hc He].
  destruct e as [e|]; apply logs_ret; rewrite ?app_nil_r; (split; [done|]); [done|by split].
Qed.
Lemma logs_local_error dom req msg enc : logs (write_spec msg) (local_error (W := W) dom req msg enc).
Proof.
  unfold local_error. eapply logs_bind; [apply logs_deliverLocal|]. intros [resp|e] n1 [Hc Hr];
    apply logs_ret; rewrite ?app_nil_r; split; try done. by destruct Hr.
Qed.
Lemma logs_deliverToFolder dom req mb t msg enc :
  logs (write_spec msg) (deliverToFolder (W := W) now dom req mb t msg enc).
Proof.
  unfold deliverToFolder. destruct (ds_folders _) as [fs|]; [|apply logs_local_error].
  destruct (t_flags t).
  - destruct (EqualFold _ _); [apply logs_local_error|].
    eapply logs_weaken; [apply logs_writing|]. intros a ? ->. apply write_spec_one.
  - eapply logs_weaken; [apply logs_writing|]. intros a ? ->. apply write_spec_one.
Qed.
Lemma logs_file_all dom req mb ts msg enc last :
  logs (λ r new, copies msg new ∧ match r with
                  | Ok _ => ts = [] ∨ stored_one new
                  | Err _ => failed_one new
                  end) (file_all (W := W) now dom req mb ts msg enc last).
Proof.
  revert last. induction ts as [|t ts IH]; intros last; simpl.
  { apply logs_ret. split; [by constructor|by left]. }
  eapply logs_bind; [apply logs_deliverToFolder|]. intros [e|] n1 [Hc He].
  - apply logs_ret. by rewrite ?app_nil_r.
  - eapply logs_weaken; [apply IH|]. intros [r|e] n2 [Hc2 Hr2]; (split; [by apply copies_app|]).
    + right. apply stored_app. by left.
    + apply failed_app. by right.
Qed.
Lemma logs_keep dom req mb o msg enc last :
  logs (λ r new, copies msg new ∧ match r with
                  | Ok _ => keep o = false ∨ stored_one new
                  | Err _ => failed_one new
                  end) (keep_message (W := W) now dom req mb o msg enc last).
Proof.
  unfold keep_message. destruct (keep o); [|apply logs_ret; split; [by constructor|by left]].
  destruct (keepFlags o).
  - eapply logs_bind; [apply logs_deliverLocal|]. intros [resp|e] n1 [Hc Hr]; apply logs_ret; rewrite ?app_nil_r;
      split; try done. right. by destruct Hr.
  - eapply logs_bind; [apply logs_deliverToFolder|]. intros [e|] n1 [Hc Hr]; apply logs_ret; rewrite ?app_nil_r;
      split; try done. by right.
Qed.

(** The answer to a script's outcome. *)
Definition answers (o : sieveOutcome) (resp : DeliverResponse) (new : list write) : Prop :=
  match Result resp with
  | ResultRejected => rejectReason o ≠ "" ∧ new = []
  | ResultDelivered => stored_one new ∨ fileinto o = [] ∧ keep o = false
  | ResultRedirected => redirects o ≠ [] ∧ RedirectAddresses resp = dedupeFold (redirects o)
  end.
Lemma logs_applySieve dom req o msg enc :
  logs (λ r new, copies msg new ∧ match r with Ok resp => answers o resp new | Err _ => failed_one new end)
    (applySieve (W := W) now dom req o msg enc).
Proof.
  unfold applySieve. destruct (decide (rejectReason o ≠ "")) as [Hr|Hr].
  { apply logs_ret. split; [by constructor|]. by split. }
  eapply logs_bind; [apply logs_file_all|]. intros [last|e] n1 [Hc1 Hf]; cycle 1.
  { apply logs_ret. by rewrite ?app_nil_r. }
  eapply logs_bind; [apply logs_keep|]. intros [fd|e] n2 [Hc2 Hk]; apply logs_ret; rewrite ?app_nil_r;
    (split; [by apply copies_app|]); [|apply failed_app; by right].
  unfold answers. destruct (redirects o); simpl; [|done].
  destruct Hf as [Hf|Hf], Hk as [Hk|Hk]; [by right|..]; left; apply stored_app; auto.
Qed.

Lemma silent_loadSieve dom mb : silent (loadSieveScript (W := W) cfg dom mb).
Proof.
  unfold loadSieveScript. destruct (sieveScriptPath _ mb) as [path|]; [|by apply logs_ret].
  apply logs_silent_bind; [auto with mail|]. intros [[c|]|e]; try by apply logs_ret.
  apply logs_silent_bind; [auto with mail|]. intros r. by apply logs_ret.
Qed.
Lemma silent_runSieve dom req msg : silent (runSieve dom req msg).
Proof. apply logs_silent_bind; [apply silent_loadSieve|]. intros raw. by apply logs_ret. Qed.
Lemma silent_maybeEncrypt req msg : silent (maybeEncrypt req msg).
Proof.
  unfold Deliver.maybeEncrypt. destruct (decide _); [by apply logs_ret|].
  destruct (splitAddress _) as [lp d]. apply logs_silent_bind; [auto with mail|].
  intros [[pk|]|e]; try by apply logs_ret.
  apply logs_silent_bind; [auto with mail|]. intros e. by apply logs_ret.
Qed.
Lemma silent_get_domain n : silent (get_domain (W := W) dirs n).
Proof.
  intros w. unfold get_domain. pose proof (GetDomain_files dirs n (w_provider w) (w_disk w)) as Hg.
  destruct (GetDomain _ _ _ _) as [[d p] disk]. split; [done|]. exists []. by rewrite ?app_nil_r.
Qed.

(** A run stops before anything is written, or reaches the writing stage. *)
Lemma Deliver_cases req msg w r w' :
  Deliver req msg w = (r, w') →
  (∃ resp, r = Ok resp ∧ Result resp = ResultRejected ∧ w_writes w' = w_writes w) ∨
  ∃ dom w1 w2 w3 o data enc, get_domain dirs (splitAddress (Recipient_ req)).2 w = (Some dom, w1) ∧
    runSieve dom req msg w1 = (o, w2) ∧ maybeEncrypt req msg w2 = (Ok (data, enc), w3) ∧
    w_writes w3 = w_writes w ∧ files (w_disk w2) = files (w_disk w) ∧
    match o with Some o => applySieve now dom req o data enc | None => deliverLocal dom req data enc end w3
      = (r, w').
Proof.
  unfold Deliver.Deliver. destruct (decide _); [intros [= <- <-]; left; by eexists|].
  destruct (splitAddress (Recipient_ req)) as [lp dn]. cbn [snd].
  destruct (_ || _); [intros [= <- <-]; left; by eexists|]. unfold mbind at 1.
  destruct (silent_get_domain dn w) as (Hf1 & ? & Hw1 & ->). rewrite app_nil_r in Hw1.
  destruct (get_domain dirs dn w) as [[dom|] w1] eqn:E1; cbn [fst snd] in *;
    [|intros [= <- <-]; left; by eexists].
  destruct (_ && _); [intros [= <- <-]; left; by eexists|]. unfold mbind at 1.
  destruct (silent_runSieve dom req msg w1) as (Hf2 & ? & Hw2 & ->). rewrite app_nil_r in Hw2.
  destruct (runSieve dom req msg w1) as [o w2] eqn:E2. cbn [fst snd] in *. unfold mbind at 1.
  destruct (silent_maybeEncrypt req msg w2) as (Hf3 & ? & Hw3 & ->). rewrite app_nil_r in Hw3.
  destruct (maybeEncrypt req msg w2) as [[[data enc]|resp] w3] eqn:E3; cbn [fst snd] in *; cycle 1.
  { intros [= <- <-]. left. exists resp. split; [done|]. split; [|congruence].
    revert E3. unfold Deliver.maybeEncrypt. destruct (decide _); [done|]. destruct (splitAddress _).
    unfold mbind, mret. destruct (on_disk _ w2) as [[[pk|]|] ?]; try done; [|by intros [= <- _]].
    destruct (on_rand _ _) as [[b|] ?]; [done|by intros [= <- _]]. }
  intros E. right. exists dom, w1, w2, w3, o, data, enc. split_and!; [done|done|done|congruence|congruence|].
  by destruct o.
Qed.

Definition keyring_path (req : DeliverRequest) : string :=
  Join [StoreBasePath cfg; (splitAddress (base_address (Recipient_ req))).1; keyringPubFile_].
Lemma maybeEncrypt_keyring req msg pub w data enc w' :
  StoreBasePath cfg ≠ "" → files (w_disk w) !! keyring_path req = Some pub →
  maybeEncrypt req msg w = (Ok (data, enc), w') → ∃ ra rb, EncryptMessage msg pub ra = (Ok data, rb).
Proof.
  intros Hb Hk. unfold Deliver.maybeEncrypt. rewrite decide_False by done. unfold keyring_path in Hk.
  destruct (splitAddress (base_address (Recipient_ req))) as [lp d]. cbn [fst] in Hk.
  unfold mbind, on_disk, read_file. destruct (sys (w_disk w)) as [[|n] d1] eqn:Es; [|done].
  rewrite (sys_files _ _ _ Es), Hk. unfold on_rand. cbn [w_rand].
  destruct (EncryptMessage msg pub (w_rand w)) as [[b|] r1] eqn:Ee; [|done]. intros [= <- _ _]. eauto.
Qed.

(** C10 Nothing is stored in the clear for a recipient who has a key: when the
    keyring file exists, whatever the script asks for and whichever calls fail,
    every copy handed to the store is a box for that key, which the matching
    private key opens to the message. *)
Theorem no_plaintext_at_rest `{!NaclBoxLaws} (req : DeliverRequest) (msg pub : string) (w w' : world W)
    (r : result DeliverResponse serr) :
  StoreBasePath cfg ≠ "" → files (w_disk w) !! keyring_path req = Some pub →
  Deliver req msg w = (r, w') →
  ∃ new, w_writes w' = w_writes w ++ new ∧
    Forall (λ x, (∃ ra rb, EncryptMessage msg pub ra = (Ok (wr_data x), rb)) ∧
                 ∀ priv, String.length priv = PublicKeySize → X25519_public priv = Some pub →
                   DecryptMessage (wr_data x) priv = Ok msg) new.
Proof.
  intros Hb Hk [(resp & _ & _ & Hw)|(dom & w1 & w2 & w3 & o & data & enc & _ & _ & E3 & Hw & Hf & E)]%Deliver_cases.
  { exists []. by rewrite app_nil_r, Hw. }
  rewrite <- Hf in Hk. destruct (maybeEncrypt_keyring _ _ _ _ _ _ _ Hb Hk E3) as (ra & rb & Ee).
  assert (∃ new, w_writes w' = w_writes w3 ++ new ∧ copies data new) as (new & Hn & Hc).
  { destruct o as [o|];
      [destruct (logs_applySieve dom req o data enc w3) as (_ & new & Hn & Hc & _)
      |destruct (logs_deliverLocal dom req data enc w3) as (_ & new & Hn & Hc & _)];
      rewrite E in Hn; by exists new. }
  exists new. split; [congruence|]. eapply Forall_impl; [exact Hc|]. intros x ->. split; [eauto|].
  intros priv Hl Hp. by eapply DecryptMessage_Encrypt.
Qed.

(** *** What an answer means *)
(** The interpreter applies a redirect only when the policy allows it. *)
Class SieveLaws : Prop := redirect_allowed : ∀ script allowed env hdr msg getenv d a,
  sieve_Execute script allowed env hdr msg getenv = Some d → ActionRedirect a ∈ AppliedActions d →
  allowed a = true.

Lemma digest_redirects l o a : a ∈ redirects (foldl digest_action o l) →
  a ∈ redirects o ∨ ActionRedirect a ∈ l.
Proof.
  revert o. induction l as [|x l IH]; intros o; simpl; [by left|]. intros [Hi|Hi]%IH; [|right; by right].
  destruct x; simpl in Hi; try (by left).
  - destruct (EqualFold _ _); by left.
  - apply elem_of_app in Hi as [Hi|Hi%list_elem_of_singleton]; [by left|]. right. rewrite Hi. by left.
Qed.
Lemma digest_redirect d a : a ∈ redirects (digestActions d) → ActionRedirect a ∈ AppliedActions d.
Proof.
  unfold digestActions. intros Hi.
  destruct (digest_redirects (AppliedActions d) (mkOutcome "" [] false [] []) a) as [Hx|Hx]; [|by apply elem_of_nil in Hx|done].
  by destruct (_ && _).
Qed.
Lemma dedupe_sub seen l a : a ∈ dedupe seen l → a ∈ l.
Proof.
  revert seen. induction l as [|x l IH]; intros seen; simpl; [done|]. destruct (decide _).
  - intros Hi. right. by eapply IH.
  - intros [->|Hi]%elem_of_cons; [by left|]. right. by eapply IH.
Qed.

(** The script that decides on the mail of [mailbox]: the user's own file or, where
    there is none, the site's. *)
Definition script_of (fs : gmap string string) (dom : Domain) (mailbox raw : string) : Prop :=
  ∃ path, sieveScriptPath (layout_of (d_store dom)) mailbox = Ok path ∧
    (fs !! path = Some raw ∨
     fs !! path = None ∧ fs !! Join [config_DataPath cfg; systemSieveName] = Some raw).
(** That script, run on this very message, asked for no copy. *)
Definition discarded (fs : gmap string string) (dom : Domain) (req : DeliverRequest) (msg : string) : Prop :=
  ∃ raw script hdr d, script_of fs dom (base_address (Recipient_ req)) raw ∧
    sieve_Load raw = Some script ∧ ReadMIMEHeader msg = Some hdr ∧
    sieve_Execute script (RedirectAllowed (Forwarded req) (Recipient_ req)) (Sender req, Recipient_ req) hdr msg
      (GetEnvironment hostname buildVersion (Spam req)) = Some d ∧
    fileinto (digestActions d) = [] ∧ keep (digestActions d) = false.

Lemma read_file_contents p d c d' :
  read_file DRead p d = (Ok c, d') → files d !! p = c ∧ files d' = files d.
Proof.
  unfold read_file. destruct (sys d) as [[|n] d1] eqn:Es; [|done]. intros [= <- <-].
  by rewrite (sys_files _ _ _ Es).
Qed.
Lemma readSieveScript_same c raw : readSieveScript c = Some raw → c = raw.
Proof. unfold readSieveScript. destruct (_ <? _); [done|]. by intros [= ->]. Qed.
Lemma loadSieveScript_script dom mailbox (w : world W) raw w' :
  loadSieveScript cfg dom mailbox w = (Some raw, w') → script_of (files (w_disk w)) dom mailbox raw.
Proof.
  unfold Deliver.loadSieveScript, script_of, mbind, on_disk, mret.
  destruct (sieveScriptPath _ _) as [path|]; [|done]. intros E. exists path. split; [done|].
  destruct (read_file DRead path (w_disk w)) as [[[c|]|] d1] eqn:E1; [| |done]; apply read_file_contents in E1 as [Hc Hf].
  - injection E as E _. left. rewrite Hc. f_equal. by apply readSieveScript_same.
  - right. split; [done|]. cbn [w_disk] in E.
    destruct (read_file DRead _ d1) as [[[c|]|] d2] eqn:E2; [|done..]. apply read_file_contents in E2 as [Hs _].
    injection E as E _. rewrite <- Hf, Hs. f_equal. by apply readSieveScript_same.
Qed.
Lemma runSieve_ran dom req msg (w : world W) o w' :
  runSieve dom req msg w = (Some o, w') → ∃ raw script hdr d,
    script_of (files (w_disk w)) dom (base_address (Recipient_ req)) raw ∧
    sieve_Load raw = Some script ∧ ReadMIMEHeader msg = Some hdr ∧
    sieve_Execute script (RedirectAllowed (Forwarded req) (Recipient_ req)) (Sender req, Recipient_ req) hdr msg
      (GetEnvironment hostname buildVersion (Spam req)) = Some d ∧ o = digestActions d.
Proof.
  unfold Deliver.runSieve, mbind. destruct (loadSieveScript _ _ _ _) as [raw wx] eqn:El.
  unfold mret. destruct raw as [raw|]; [|done]. simpl. destruct (sieve_Load raw) as [script|] eqn:Es; [|done]. simpl.
  destruct (ReadMIMEHeader msg) as [hdr|]; [|done]. simpl.
  destruct (sieve_Execute _ _ _ _ _ _) as [d|] eqn:Ed; [|done]. intros [= <- _].
  exists raw, script, hdr, d. split_and!; try done. by eapply loadSieveScript_script.
Qed.

(** The answer of the delivery pipeline is honest, whichever calls fail: after a
    rejection nothing was stored; after "delivered" a copy was stored, unless the
    recipient's script asked for none; an internal error means that a write
    failed; and a redirect is answered only for a message that was not forwarded
    before, to well-formed addresses other than the recipient. *)
Lemma delivery_answer_honest `{!SieveLaws} (req : DeliverRequest) (msg : string) (w w' : world W)
    (r : result DeliverResponse serr) :
  Deliver req msg w = (r, w') →
  ∃ new, w_writes w' = w_writes w ++ new ∧
    match r with
    | Err _ => failed_one new
    | Ok resp =>
        match Result resp with
        | ResultRejected => new = []
        | ResultDelivered => stored_one new ∨
            ∃ dom, (get_domain dirs (splitAddress (Recipient_ req)).2 w).1 = Some dom ∧
              discarded (files (w_disk w)) dom req msg
        | ResultRedirected => Forwarded req = false ∧
            Forall (λ a, EqualFold a (Recipient_ req) = false ∧ ParseAddress a = true) (RedirectAddresses resp)
        end
    end.
Proof.
  intros [(resp & -> & Hr & Hw)|(dom & w1 & w2 & w3 & o & data & enc & E1 & E2 & _ & Hw & _ & E)]%Deliver_cases.
  { exists []. rewrite app_nil_r. by rewrite Hr. }
  destruct o as [o|]; cycle 1.
  { destruct (logs_deliverLocal dom req data enc w3) as (_ & new & Hn & _ & Hq). rewrite E in Hn, Hq.
    exists new. split; [by rewrite <- Hw|]. destruct r as [resp|]; [|done]. cbn [fst] in Hq.
    destruct Hq as [-> Hs]. by left. }
  destruct (runSieve_ran _ _ _ _ _ _ E2) as (raw & script & hdr & d & Hs & Hld & Hh & Hx & Ho).
  destruct (silent_get_domain (splitAddress (Recipient_ req)).2 w) as [Hf1 _]. rewrite E1 in Hf1. cbn [snd] in Hf1.
  rewrite Hf1 in Hs.
  destruct (logs_applySieve dom req o data enc w3) as (_ & new & Hn & _ & Hq). rewrite E in Hn, Hq.
  exists new. split; [by rewrite <- Hw|]. destruct r as [resp|]; [|done]. cbn [fst] in Hq. unfold answers in Hq.
  destruct (Result resp).
  - destruct Hq as [Hst|[Hfi Hkp]]; [by left|]. right. exists dom. rewrite E1. split; [done|].
    exists raw, script, hdr, d. by subst o.
  - by destruct Hq.
  - destruct Hq as [Hne ->]. assert (Hall : ∀ a, a ∈ dedupeFold (redirects o) → RedirectAllowed (Forwarded req) (Recipient_ req) a = true).
    { intros a Ha%dedupe_sub. subst o. eapply redirect_allowed; [exact Hx|]. by apply digest_redirect. }
    assert (∀ a, RedirectAllowed (Forwarded req) (Recipient_ req) a = true →
      Forwarded req = false ∧ EqualFold a (Recipient_ req) = false ∧ ParseAddress a = true) as Hp.
    { intros a. unfold RedirectAllowed. destruct (Forwarded req); [done|]. by destruct (EqualFold _ _). }
    split; [|apply Forall_forall; intros a Ha; by apply Hp, Hall].
    destruct (redirects o) as [|a rs]; [done|]. apply (Hp a), Hall. by left.
Qed.
End PipelineFacts.

(** ** A deliverer over the maildir of [Maildir], with a few scripts *)
Module DeliverDemo.
Import MdDemo ToyBox TomlDemo.
#[export] Instance box_delivery : DeliveryStore (Maildir.world box) := {|
  ds_folders c := st_folders (maildir_store (layout_of c) (λ _, []) true);
  ds_Deliver c env data w :=
    let '(e, fl, w) := Maildir.Deliver (layout_of c) (Recipients env) (Ok data) w in
    (merr_text <$> e, list_to_map fl, w);
|}.
#[export] Instance demo_sieve : SieveLib := {|
  sieve_Load s := if decide (s = "broken") then None else Some s;
  ReadMIMEHeader _ := Some [];
  sieve_Execute script allowed _ _ _ getenv :=
    Some (if decide (script = "reject with no reason") then mkRuntime [ActionReject ""] false []
          else if decide (script = "work and archive")
               then mkRuntime [ActionFileInto "Work" []; ActionFileInto "old/mail" []] false []
          else if decide (script = "redirect")
               then if allowed "bob@example.net" then mkRuntime [ActionRedirect "bob@example.net"] false []
                    else mkRuntime [] true []
          else mkRuntime [] true []);
  ParseAddress a := has_byte "@" a;
  parse_RFC3339 _ := None;
  ParseIP s := Some s;
|}.
#[export] Instance demo_sieve_laws : SieveLaws.
Proof.
  intros script allowed env hdr msg getenv d a. cbn [sieve_Execute demo_sieve]. intros [= <-].
  destruct (decide _); [by intros Hi%list_elem_of_singleton|].
  destruct (decide _); [intros [?|Hi%list_elem_of_singleton]%elem_of_cons; done|].
  destruct (decide _); [|by intros Hi%elem_of_nil].
  destruct (allowed "bob@example.net") eqn:E; [|by intros Hi%elem_of_nil].
  intros Hi%list_elem_of_singleton. injection Hi as ->. done.
Qed.
#[export] Instance no_dkim : DkimKeys := λ _, None.

Definition users : string := "/data/example.com/users".
Definition dcfg : Config := mkConfig "/etc/mail" "/data" users.
Definition dom : Domain :=
  mkDomain "example.com" (mkLazy (mkAgentConfig "passwd" "" "" "" ∅) None)
    (mkChain None None "" None) (mkStore "maildir" users ∅) 0 "" 0 None.
Definition start (script keyring : list (string * string)) : world (Maildir.world box) :=
  mkWorld (mkFolder (list_to_map (script ++ keyring)) [])
    (mkProvider "/etc/mail" "/data" (Some deliver_defaults) None ∅ None {[ "example.com" := dom ]})
    (Maildir.mkWorld ∅ ∅ ∅ ∅ 0) [] [].
Definition script (s : string) : list (string * string) := [("/data/example.com/users/alice/.sieve", s)].
Definition keyring : list (string * string) := [("/data/example.com/users/alice/keyring.pub", user_key)].
Definition mail_to (rcpt : string) : DeliverRequest := mkRequest "a@y.org" rcpt "" "" false "" "m1" None.
Definition run (req : DeliverRequest) (w : world (Maildir.world box)) :=
  Deliver dcfg (λ _, true) None None 0 req "hello" w.
End DeliverDemo.

Section DeliverWitnesses.
Import MdDemo ToyBox TomlDemo DeliverDemo.
Notation M := (Maildir.world box).

(** The box that is stored when the random source gives zeros. *)
Definition sealed : string := zeros 56 +:+ fit 16 user_key +:+ "hello".
Lemma no_plaintext_at_rest_witness :
  let '(r, w) := run (mail_to "alice+lists@example.com") (start (script "keep") keyring) in
  is_ok r = true ∧ (∃ new, w_writes w = [] ++ new ∧
    Forall (λ x, (∃ ra rb, EncryptMessage "hello" user_key ra = (Ok (wr_data x), rb)) ∧
                 ∀ priv, String.length priv = PublicKeySize → X25519_public priv = Some user_key →
                   DecryptMessage (wr_data x) priv = Ok "hello") new) ∧
  wr_data <$> w_writes w = [sealed].
Proof.
  destruct (run (mail_to "alice+lists@example.com") (start (script "keep") keyring)) as [r w] eqn:E.
  assert (is_ok r = true) as Hr by (apply (f_equal fst) in E; simpl in E; rewrite <- E; vm_compute; reflexivity).
  assert (wr_data <$> w_writes w = [sealed]) as Hw
    by (apply (f_equal snd) in E; simpl in E; rewrite <- E; vm_compute; reflexivity).
  split; [exact Hr|]. split; [|exact Hw].
  apply (no_plaintext_at_rest dcfg (λ _, true) None None 0 (mail_to "alice+lists@example.com") "hello"
    user_key (start (script "keep") keyring) w r).
  - intros Hx. discriminate Hx.
  - vm_compute. reflexivity.
  - exact E.
Defined.

Lemma delivery_answer_honest_example :
  let '(r, w) := run (mail_to "alice@example.com") (start (script "redirect") []) in
  r = Ok (mkResponse ResultRedirected false "" ["bob@example.net"] "") ∧
  (∃ new, w_writes w = [] ++ new ∧ Forwarded (mail_to "alice@example.com") = false) ∧ w_writes w = [].
Proof.
  destruct (run (mail_to "alice@example.com") (start (script "redirect") [])) as [r w] eqn:E.
  assert (r = Ok (mkResponse ResultRedirected false "" ["bob@example.net"] "")) as Hr
    by (apply (f_equal fst) in E; simpl in E; rewrite <- E; vm_compute; reflexivity).
  assert (w_writes w = []) as Hw by (apply (f_equal snd) in E; simpl in E; rewrite <- E; vm_compute; reflexivity).
  split; [exact Hr|]. split; [|exact Hw].
  destruct (delivery_answer_honest _ _ _ _ _ _ _ _ _ _ E) as (new & Hn & Hq).
  exists new. split; [exact Hn|]. rewrite Hr in Hq. exact (proj1 Hq).
Defined.

(** *** Refused without a reason

    A script that rejects with an empty text is not taken for a rejection, and
    rejecting has cancelled the implicit keep: the answer is "delivered" and no
    copy exists. *)
Lemma empty_reject_loses_mail :
  let '(r, w) := run (mail_to "alice@example.com") (start (script "reject with no reason") []) in
  r = Ok (mkResponse ResultDelivered false "" [] "") ∧ w_writes w = [].
Proof. by vm_compute. Qed.

(** *** A folder name the store refuses

    The error of a [fileinto] defers the message each time it is tried, and each
    time the folders before it get another copy. *)
Lemma refused_folder_duplicates :
  let '(r1, w1) := run (mail_to "alice@example.com") (start (script "work and archive") []) in
  let '(r2, w2) := run (mail_to "alice@example.com") w1 in
  r1 = Err "invalid folder name" ∧ r2 = Err "invalid folder name" ∧
  (λ x, (wr_folder x, wr_ok x)) <$> w_writes w2 =
    [("Work", true); ("old/mail", false); ("Work", true); ("old/mail", false)] ∧
  length (maildirNewKeys (default (mkBox [] [] 0) (dirs (w_store w2) !! "/data/example.com/users/alice/.Work"))) = 2%nat.
Proof. vm_compute. by split_and!. Qed.

(** *** A recipient that is only an extension

    [+x@example.com] passes the check of the address, its base is empty, and the
    message is stored in the directory that holds all users. *)
Lemma extension_only_recipient :
  let '(r, w) := run (mail_to "+x@example.com") (start [] []) in
  r = Ok (mkResponse ResultDelivered false "" [] "INBOX") ∧
  length (maildirNewKeys (default (mkBox [] [] 0) (dirs (w_store w) !! users))) = 1%nat.
Proof. by vm_compute. Qed.
End DeliverWitnesses.
