(* ===== verification/Spawn.v ===== *)
(** * Starting mail-session processes

    [src/internal/session-manager/credentials/lookup.go] (the ids a process runs
    under), the parts of [src/internal/session-manager/manager/manager.go] that
    start, await and stop processes ([spawnSession], [DeliverySession],
    [startAndWaitReady], [keyPipe]), and the start-up of the process itself
    ([src/cmd/mail-session/main.go]): its command line, its checks and the store
    it opens. The operating system answers every call as it likes; what it was
    asked to do is kept as a log of events. *)
From S2P Require Import Prelude GoStrings FilePath UidList Disk Identity Keyring PeerGate.
From S2P Require Import MsgStore Domain MsgCrypt MailSession Deliver.
From Stdlib Require Import ZArith Lia Ascii.
Open Scope string_scope.
Open Scope list_scope.
Open Scope Z_scope.

(** ** Credentials *)
Record Info := mkCreds { cr_UID : Z; cr_GID : Z; cr_BasePath : string; cr_StoreType : string }.
Inductive credErr :=
| CredGID (e : idErr) | CredUID (e : idErr) | RefusedUID (id : Z) | RefusedGID (id : Z).

Section Credentials.
Context `{TomlConfig, UnicodeQuote, Toml}.

Definition store_base (domainsPath domainsDataPath domainName base : string) : string :=
  let storageBase := if decide (domainsDataPath = "") then Join [domainsPath; domainName]
                     else Join [domainsDataPath; domainName] in
  let base := if decide (base = "") then "users" else base in
  if HasPrefix base "/" then base else Join [storageBase; base].

Definition Lookup (domainsPath domainsDataPath localpart domainName : string) : io credErr Info := λ w,
  let '(c, w) := LoadDomainConfig (Join [Join [domainsPath; domainName]; "config.toml"]) w in
  let cfg := match c with Ok c => c | Err _ => zero_config end in
  match DomainGID domainsPath domainName w with
  | (Err e, w) => (Err (CredGID e), w)
  | (Ok gid, w) =>
      match UserUID domainsPath domainName localpart w with
      | (Err e, w) => (Err (CredUID e), w)
      | (Ok uid, w) =>
          if negb (Allocatable uid) then (Err (RefusedUID uid), w)
          else if negb (Allocatable gid) then (Err (RefusedGID gid), w)
          else
            let storeType := store_Type (cfg_MsgStore cfg) in
            (Ok (mkCreds uid gid
                   (store_base domainsPath domainsDataPath domainName (BasePath (cfg_MsgStore cfg)))
                   (if decide (storeType = "") then "maildir" else storeType)), w)
      end
  end.
End Credentials.

(** ** The operating system *)
Record command := mkCommand {
  cm_path : string; cm_args : list string;
  cm_uid : Z; cm_gid : Z;              (** [SysProcAttr.Credential] *)
  cm_Pdeathsig : bool;                 (** [SIGTERM] on the parent's death *)
  cm_fd3 : option string;              (** what the pipe on fd 3 holds *)
}.
Inductive os_event :=
| OMkdirTemp (dir : string) | OChown (dir : string) (uid gid : Z)
| ORemoveAll (dir : string) (ok : bool)      (** the error is ignored everywhere *)
| OStart (pid : nat) (c : command) | OKill (pid : nat) | OSigterm (pid : nat) | OWait (pid : nat).
Notation os_log := (list os_event).

(** Outcomes of the calls, in the light of all that was done before. A process
    that starts is a [P]; until it is ready or gone it has written the lines
    [lines], then its output ended ([eof]) or failed. *)
Class Os := {
  os_MkdirTemp : os_log → option string;
  os_ok : string → os_log → bool;
  os_slow : os_log → bool;             (** the ten seconds pass first *)
}.
Record started (P : Type) := mkStarted { st_lines : list string; st_read_error : bool; st_proc : P }.
Arguments mkStarted {P}. Arguments st_lines {P}. Arguments st_read_error {P}. Arguments st_proc {P}.

(** The key envelope of fd 3 ([encoding/json]). *)
Class KeyJson := {
  key_encode : Z → string → string;
  key_decode : string → option (Z * string);
}.
Class KeyJsonLaws `{KeyJson} : Prop := key_decode_encode : ∀ k, key_decode (key_encode 1 k) = Some (1, k).

Record smConfig := mkSmConfig {
  sm_DomainsPath : string; sm_DomainsDataPath : string; sm_MailSessionCmd : string;
}.

(** ** Starting a process *)
Section Manager.
Context `{Os, KeyJson} {S P : Type} (exec : command → S → started P * S).
Notation host := (os_log * S)%type.

Definition log_event (e : os_event) (h : host) : host := (h.1 ++ [e], h.2).
Notation "h |> e" := (log_event e h) (at level 60).
Definition remove_all (dir : string) (h : host) : host := h |> ORemoveAll dir (os_ok "RemoveAll" h.1).

Definition startAndWaitReady (c : command) (h : host) : result (nat * P) string * host :=
  if negb (os_ok "StdoutPipe" h.1) then (Err "stdout pipe", h)
  else if negb (os_ok "Start" h.1) then (Err "start", h)
  else
    let pid := length h.1 in
    let h := h |> OStart pid c in
    let '(st, s) := exec c h.2 in
    let h := (h.1, s) in
    let abandon why := (Err why, h |> OKill pid |> OWait pid) in
    if os_slow h.1 then abandon "timed out waiting for READY signal"
    else if existsb (λ l, bool_decide (TrimSpace l = "READY")) (st_lines st) then (Ok (pid, st_proc st), h)
    else if st_read_error st then abandon "reading stdout"
    else abandon "mail-session exited without READY signal".

Definition mailSessionSysProcAttr (path : string) (args : list string) (uid gid : Z) (fd3 : option string)
    : command := mkCommand path args uid gid true fd3.

(** The socket directory, owned by the ids of the process. *)
Definition socket_dir (creds : Info) (h : host) : result string string * host :=
  match os_MkdirTemp h.1 with
  | None => (Err "create socket dir", h)
  | Some dir =>
      let h := h |> OMkdirTemp dir in
      if os_ok "Chown" h.1 then (Ok dir, h |> OChown dir (cr_UID creds) (cr_GID creds))
      else (Err "chown socket dir", remove_all dir h)
  end.
Definition socket_path (dir : string) : string := Join [dir; "session.sock"].

(** Start, wait, dial; each failure cleans up what was there. *)
Definition launch (dir : string) (c : command) (h : host) : result (nat * P) string * host :=
  match startAndWaitReady c h with
  | (Err e, h) => (Err e, remove_all dir h)
  | (Ok (pid, p), h) =>
      if os_ok "NewClient" h.1 then (Ok (pid, p), h)
      else (Err "dial grpc", remove_all dir (h |> OKill pid |> OWait pid))
  end.

(** [keyPipe]: the read end of a pipe that already holds the envelope. *)
Definition keyPipe (privKey : string) (h : host) : result string string :=
  if os_ok "Pipe" h.1 then
    if os_ok "WriteKey" h.1 then Ok (key_encode 1 privKey) else Err "write key envelope"
  else Err "create key pipe".

Definition optional (flag value : string) : list string := if decide (value = "") then [] else [flag +:+ value].
Definition daemon_args (cfg : smConfig) (socket mailbox : string) (creds : Info) : list string :=
  ["--mode=daemon"; "--socket=" +:+ socket; "--mailbox=" +:+ mailbox; "--type=" +:+ cr_StoreType creds;
   "--basepath=" +:+ cr_BasePath creds]
  ++ optional "--domains-path=" (sm_DomainsPath cfg) ++ optional "--domains-data-path=" (sm_DomainsDataPath cfg).
Definition oneshot_args (cfg : smConfig) (socket recipient : string) (creds : Info) : list string :=
  ["--mode=oneshot"; "--socket=" +:+ socket; "--mailbox=" +:+ recipient; "--type=" +:+ cr_StoreType creds;
   "--basepath=" +:+ cr_BasePath creds; "--domains-path=" +:+ sm_DomainsPath cfg]
  ++ optional "--domains-data-path=" (sm_DomainsDataPath cfg).

Record process := mkProcess { pr_pid : nat; pr_dir : string; pr_proc : P }.
Inductive spawnErr := BadAddress | BadCredentials (e : credErr) | SpawnFailed (why : string).

Context `{TomlConfig, UnicodeQuote, Toml} (cfg : smConfig).
Definition lookup_ (localpart domainName : string) (d : folder) :=
  Lookup (sm_DomainsPath cfg) (sm_DomainsDataPath cfg) localpart domainName d.

Definition spawnSession (username mailbox privKey : string) (d : folder) (h : host)
    : result process spawnErr * folder * host :=
  match cut "@" username with
  | None => (Err BadAddress, d, h)
  | Some (localpart, domainName) =>
      match lookup_ localpart domainName d with
      | (Err e, d) => (Err (BadCredentials e), d, h)
      | (Ok creds, d) =>
          match socket_dir creds h with
          | (Err e, h) => (Err (SpawnFailed e), d, h)
          | (Ok dir, h) =>
              let args := daemon_args cfg (socket_path dir) mailbox creds in
              let go fd3 h :=
                let c := mailSessionSysProcAttr (sm_MailSessionCmd cfg) args (cr_UID creds) (cr_GID creds) fd3 in
                match launch dir c h with
                | (Err e, h) => (Err (SpawnFailed e), d, h)
                | (Ok (pid, p), h) => (Ok (mkProcess pid dir p), d, h)
                end in
              if decide (String.length privKey = 32%nat) then
                match keyPipe privKey h with
                | Err e => (Err (SpawnFailed e), d, remove_all dir h)
                | Ok env => go (Some env) h
                end
              else go None h
          end
      end
  end.

Definition DeliverySession (recipient : string) (d : folder) (h : host)
    : result process spawnErr * folder * host :=
  match cut "@" recipient with
  | None => (Err BadAddress, d, h)
  | Some (localpart, domainName) =>
      match lookup_ localpart domainName d with
      | (Err e, d) => (Err (BadCredentials e), d, h)
      | (Ok creds, d) =>
          match socket_dir creds h with
          | (Err e, h) => (Err (SpawnFailed e), d, h)
          | (Ok dir, h) =>
              let c := mailSessionSysProcAttr (sm_MailSessionCmd cfg)
                         (oneshot_args cfg (socket_path dir) recipient creds) (cr_UID creds) (cr_GID creds) None in
              match launch dir c h with
              | (Err e, h) => (Err (SpawnFailed e), d, h)
              | (Ok (pid, p), h) => (Ok (mkProcess pid dir p), d, h)
              end
          end
      end
  end.
(** The function [DeliverySession] returns for the end of the delivery. *)
Definition cleanup (p : process) (h : host) : host :=
  remove_all (pr_dir p) (h |> OSigterm (pr_pid p) |> OWait (pr_pid p)).
End Manager.
Arguments process : clear implicits.
Arguments mkProcess {P}. Arguments pr_pid {P}. Arguments pr_dir {P}. Arguments pr_proc {P}.

(** ** The command line of mail-session ([flag]) *)
Record flags := mkFlags {
  f_type : string; f_basepath : string; f_rescan : string; f_config : string; f_mode : string;
  f_socket : string; f_idle : string; f_domains : string; f_data : string; f_mailbox : string;
  f_rescan_set : bool;                 (** [flag.Visit] sees rescan-interval *)
}.
Definition default_flags : flags := mkFlags "maildir" "" "30s" "" "daemon" "" "" "" "" "" false.
Definition set_flag (name v : string) (f : flags) : option flags :=
  let '(mkFlags t b r c m s i d dd mb rs) := f in
  if decide (name = "type") then Some (mkFlags v b r c m s i d dd mb rs)
  else if decide (name = "basepath") then Some (mkFlags t v r c m s i d dd mb rs)
  else if decide (name = "rescan-interval") then Some (mkFlags t b v c m s i d dd mb true)
  else if decide (name = "config") then Some (mkFlags t b r v m s i d dd mb rs)
  else if decide (name = "mode") then Some (mkFlags t b r c v s i d dd mb rs)
  else if decide (name = "socket") then Some (mkFlags t b r c m v i d dd mb rs)
  else if decide (name = "idle-timeout") then Some (mkFlags t b r c m s v d dd mb rs)
  else if decide (name = "domains-path") then Some (mkFlags t b r c m s i v dd mb rs)
  else if decide (name = "domains-data-path") then Some (mkFlags t b r c m s i d v mb rs)
  else if decide (name = "mailbox") then Some (mkFlags t b r c m s i d dd v rs)
  else None.

(** The name of an argument and its value after [=], if it has one; [None] for
    an argument that ends the flags, [Some None] for one that is malformed. *)
Definition flag_of (arg : string) : option (option (string * option string)) :=
  match arg with
  | String "-" (String c rest) =>
      let name := if Ascii.eqb c "-" then rest else String c rest in
      if decide (arg = "--") then None
      else match name with
           | "" => Some None
           | String c rest =>
               if Ascii.eqb c "-" || Ascii.eqb c "=" then Some None
               else match cut "=" rest with
                    | Some (n, v) => Some (Some (String c n, Some v))
                    | None => Some (Some (name, None))
                    end
           end
  | _ => None
  end.
(** [flag.Parse] with [ExitOnError]: a failure is the exit code. *)
Definition put_flag (name v : string) (f : flags) (k : flags → result flags Z) : result flags Z :=
  match set_flag name v f with
  | Some f => k f
  | None => Err (if decide (name = "help" ∨ name = "h") then 0 else 2)
  end.
Fixpoint parse_flags (args : list string) (f : flags) : result flags Z :=
  match args with
  | [] => Ok f
  | a :: rest =>
      match flag_of a with
      | None => Ok f
      | Some None => Err 2
      | Some (Some (name, Some v)) => put_flag name v f (parse_flags rest)
      | Some (Some (name, None)) =>
          match rest with
          | [] => put_flag name "" f (λ _, Err 2)
          | v :: rest => put_flag name v f (parse_flags rest)
          end
      end
  end.

(** ** The start-up of mail-session *)
Section Main.
Context {W : Type} `{GoDuration, KeyJson, NaclBox, TomlConfig, UnicodeCase, DkimKeys}.
(** The store that a configuration opens, what the file given with [--config]
    sets as the rescan interval, and whether the socket can be listened on. *)
Context (open_store : StoreConfig → MailStore W) (file_rescan : string → option string) (listen : string → bool).

Definition maybeWrapWithDecryptingStore (fd3 : option string) : option sessionKeys :=
  match fd3 ≫= key_decode with
  | Some (v, key) =>
      if decide (v = 1 ∧ String.length key = 32%nat) then Some (SetSessionKey key) else None
  | None => None
  end.
Definition parseDurationOrDisable (s : string) : option Z :=
  if decide (s = "0") then Some 0
  else match ParseDuration s with
       | Some d => if d <? 0 then None else Some d
       | None => None
       end.
Definition applyFileConfig (f : flags) : string :=
  if decide (f_config f = "") then f_rescan f
  else match file_rescan (f_config f) with
       | Some v => if negb (f_rescan_set f) && negb (bool_decide (v = "")) then v else f_rescan f
       | None => f_rescan f
       end.

(** A process that serves: the session it opened, its keys, and the delivery
    pipeline when there is one. *)
Record serving := mkServing {
  sg_flags : flags; sg_session : Session; sg_keys : option sessionKeys;
  sg_deliver : option (Config * provider); sg_server : idleServer;
}.
Inductive exit_or := Exit (code : Z) | Serving (s : serving).

Definition idle_timeout (f : flags) : option Z :=
  if decide (f_idle f = "") then
    Some (if decide (f_mode f = "daemon") then 30 * 60 * 10 ^ 9 else 60 * 10 ^ 9)
  else ParseDuration (f_idle f).

Definition runGRPC (now : Z) (f : flags) (sess : Session) (keys : option sessionKeys) (rescan : Z) (d : folder)
    : exit_or * folder :=
  if decide (f_socket f = "") then (Exit 2, d)
  else match idle_timeout f with
  | None => (Exit 2, d)
  | Some idle =>
      let serve dlvr d :=
        (if listen (f_socket f) then Serving (mkServing f sess keys dlvr (NewServer idle rescan now)) else Exit 1, d) in
      if decide (f_domains f = "") then serve None d
      else
        let cfg := mkConfig (f_domains f) (f_data f) (f_basepath f) in
        match deliver_New cfg d with
        | (None, d) => (Exit 1, d)
        | (Some p, d) => serve (Some (cfg, p)) d
        end
  end.

Definition main (now : Z) (args : list string) (fd3 : option string) (d : folder) (w : W) (r : rand)
    : exit_or * folder * W * rand :=
  match parse_flags args default_flags with
  | Err code => (Exit code, d, w, r)
  | Ok f =>
      if decide (f_basepath f = "") then (Exit 2, d, w, r)
      else if decide (f_mailbox f = "") then (Exit 2, d, w, r)
      else match parseDurationOrDisable (applyFileConfig f) with
      | None => (Exit 2, d, w, r)
      | Some rescan =>
          match OpenStore (mkStore (f_type f) (f_basepath f) ∅) with
          | Err _ => (Exit 1, d, w, r)
          | Ok c =>
              let keys := if decide (f_mode f = "daemon") then maybeWrapWithDecryptingStore fd3 else None in
              let '(opened, sess, w, r) :=
                match keys with
                | Some k =>
                    let '(e, (s, (w, r))) := Open (NewDecryptingStore k (open_store c)) (f_mailbox f) (New, (w, r)) in
                    (is_ok e, s, w, r)
                | None =>
                    let '(e, (s, w)) := Open (open_store c) (f_mailbox f) (New, w) in (is_ok e, s, w, r)
                end in
              if opened : bool then
                let '(x, d) := runGRPC now f sess keys rescan d in (x, d, w, r)
              else (Exit 1, d, w, r)
          end
      end
  end.
(** The key the manager writes is the key the process decrypts with. *)
Lemma key_handed_over `{!KeyJsonLaws} {S} (k : string) (h : os_log * S) `{Os} env :
  String.length k = 32%nat → keyPipe k h = Ok env →
  maybeWrapWithDecryptingStore (Some env) = Some (SetSessionKey k).
Proof.
  intros Hk. unfold keyPipe. destruct (os_ok _ _); [|done]. destruct (os_ok _ _); [|done]. intros [= <-].
  unfold maybeWrapWithDecryptingStore.
  assert (Some (key_encode 1 k) ≫= key_decode = Some (1, k)) as -> by apply key_decode_encode.
  by rewrite decide_True.
Qed.

(** What the manager reads from the process. *)
Definition stdout_of (x : exit_or) : list string := match x with Serving _ => ["READY"] | Exit _ => [] end.
End Main.

(** ** The command line says what the manager means *)
Definition meant (mode socket mailbox : string) (cfg : smConfig) (creds : Info) : flags :=
  mkFlags (cr_StoreType creds) (cr_BasePath creds) "30s" "" mode socket "" (sm_DomainsPath cfg)
    (sm_DomainsDataPath cfg) mailbox false.
Lemma daemon_args_parse cfg socket mailbox creds :
  parse_flags (daemon_args cfg socket mailbox creds) default_flags = Ok (meant "daemon" socket mailbox cfg creds).
Proof.
  unfold daemon_args, optional, meant. cbn [app parse_flags].
  destruct (decide (sm_DomainsPath cfg = "")) as [->|]; destruct (decide (sm_DomainsDataPath cfg = "")) as [->|];
    reflexivity.
Qed.
Lemma oneshot_args_parse cfg socket mailbox creds :
  parse_flags (oneshot_args cfg socket mailbox creds) default_flags = Ok (meant "oneshot" socket mailbox cfg creds).
Proof.
  unfold oneshot_args, optional, meant. destruct (decide (sm_DomainsDataPath cfg = "")) as [->|]; reflexivity.
Qed.

(** ** What is left behind *)
(** Processes started and not waited for, directories made and not removed; and
    the directories whose removal the system refused. *)
Definition leftover : Type := gset nat * gset string.
Definition left_event (e : os_event) (x : leftover) : leftover :=
  match e with
  | OMkdirTemp d => (x.1, {[d]} ∪ x.2) | ORemoveAll d ok => if ok : bool then (x.1, x.2 ∖ {[d]}) else x
  | OStart p _ => ({[p]} ∪ x.1, x.2) | OWait p => (x.1 ∖ {[p]}, x.2)
  | OChown _ _ _ | OKill _ | OSigterm _ => x
  end.
Definition left_over (l : os_log) : leftover := foldl (λ x e, left_event e x) (∅, ∅) l.
Definition kept_dir (e : os_event) : option string := match e with ORemoveAll d false => Some d | _ => None end.
Definition refused (l : os_log) : gset string := list_to_set (omap kept_dir l).
Lemma refused_app l k : refused (l ++ k) = refused l ∪ refused k.
Proof. unfold refused. by rewrite omap_app, list_to_set_app_L. Qed.
Lemma left_over_snoc l e : left_over (l ++ [e]) = left_event e (left_over l).
Proof. unfold left_over. by rewrite foldl_app. Qed.
Lemma left_over_app l k : left_over (l ++ k) = foldl (λ x e, left_event e x) (left_over l) k.
Proof. unfold left_over. by rewrite foldl_app. Qed.

(** Process numbers are positions of the log. *)
Definition numbered (l : os_log) : Prop := ∀ i p c, l !! i = Some (OStart p c) → p = i.
Lemma numbered_snoc l e : numbered l → (∀ p c, e = OStart p c → p = length l) → numbered (l ++ [e]).
Proof.
  intros Hl He i p c [Hi|[? Hi]]%lookup_app_Some; [by eapply Hl|].
  apply list_lookup_singleton_Some in Hi as [Hi ->]. specialize (He _ _ eq_refl). lia.
Qed.
Lemma running_below l p : numbered l → p ∈ (left_over l).1 → (p < length l)%nat.
Proof.
  induction l as [|e l IH] using rev_ind; [done|]. intros Hn. rewrite left_over_snoc, length_app. simpl.
  assert (numbered l) as Hl by (intros i q c Hi; apply (Hn i q c), lookup_app_l_Some, Hi).
  specialize (IH Hl). destruct e as [d|d u g|d []|q c|q|q|q]; simpl; intros Hp; try (specialize (IH Hp); lia).
  - apply elem_of_union in Hp as [->%elem_of_singleton|Hp]; [|specialize (IH Hp); lia].
    specialize (Hn (length l) q c). rewrite list_lookup_middle in Hn by done. specialize (Hn eq_refl). lia.
  - apply elem_of_difference in Hp as [Hp _]. specialize (IH Hp). lia.
Qed.

(** [os.MkdirTemp] makes a directory that was not there. *)
Class OsLaws `{Os} : Prop := mkdir_fresh : ∀ l d, os_MkdirTemp l = Some d → d ∉ (left_over l).2.

(** Going through a trace that is written out. *)
Ltac in_trace Hi :=
  cbn [app] in Hi;
  repeat (apply elem_of_cons in Hi as [Hi|Hi]; [try discriminate Hi; try done|]);
  try (by apply elem_of_nil in Hi).

(** ** The protocol of a start

    All a start ever asks of the system, as the events it adds to a log of
    length [n]: the outcome is the process and its directory, or nothing. *)
Section Protocol.
Context (creds : Info) (right : string → command → Prop) (n : nat).
Notation mine dir := (OChown dir (cr_UID creds) (cr_GID creds)).
Inductive start_trace : option (nat * string) → os_log → Prop :=
| no_start : start_trace None []
| no_owner dir ok : start_trace None [OMkdirTemp dir; ORemoveAll dir ok]
| not_launched dir ok : start_trace None [OMkdirTemp dir; mine dir; ORemoveAll dir ok]
| died dir c ok : right dir c → start_trace None
    [OMkdirTemp dir; mine dir; OStart (n + 2) c; OKill (n + 2); OWait (n + 2); ORemoveAll dir ok]
| runs dir c : right dir c → start_trace (Some (n + 2, dir)%nat) [OMkdirTemp dir; mine dir; OStart (n + 2) c].
End Protocol.
Definition confined (cfg : smConfig) (creds : Info) (mode mailbox : string) (dir : string) (c : command) : Prop :=
  cm_uid c = cr_UID creds ∧ cm_gid c = cr_GID creds ∧ cm_Pdeathsig c = true ∧
  parse_flags (cm_args c) default_flags = Ok (meant mode (socket_path dir) mailbox cfg creds).

(** The traces leave nothing behind but the process that runs and what the system
    refused to remove. *)
Lemma trace_numbered creds right l r new :
  numbered l → start_trace creds right (length l) r new → numbered (l ++ new).
Proof.
  intros Hl Ht i p c [Hi|[Hle Hi]]%lookup_app_Some; [by eapply Hl|].
  destruct (i - length l)%nat as [|[|[|[|[|[|k]]]]]] eqn:E; destruct Ht; simplify_eq/=; lia.
Qed.
Lemma trace_left_over creds right l r new :
  numbered l → (∀ dir, OMkdirTemp dir ∈ new → dir ∉ (left_over l).2) →
  start_trace creds right (length l) r new →
  left_over (l ++ new) =
    match r with
    | Some (pid, dir) => ({[pid]} ∪ (left_over l).1, {[dir]} ∪ (left_over l).2)
    | None => ((left_over l).1, refused new ∪ (left_over l).2)
    end ∧
  ∀ pid dir, r = Some (pid, dir) → pid ∉ (left_over l).1 ∧ dir ∉ (left_over l).2 ∧ refused new = ∅.
Proof.
  intros Hl Hd Ht. assert ((length l + 2)%nat ∉ (left_over l).1) as Hp by (intros ?%running_below; [lia|done]).
  rewrite left_over_app. destruct (left_over l) as [ps ds]. cbn [fst snd] in *.
  destruct Ht as [|dir []|dir []|dir c [] Hc|dir c Hc]; cbn [foldl left_event fst snd];
    try (specialize (Hd dir ltac:(apply list_elem_of_here))); unfold refused; cbn [omap list_omap kept_dir list_to_set];
    (split; [try done; f_equal; set_solver|intros pid dir' [= <- <-] || intros pid dir' [=]]; done).
Qed.

Section Starts.
Context `{Os, KeyJson} {S P : Type} (exec : command → S → started P * S).
Context `{TomlConfig, UnicodeQuote, Toml} (cfg : smConfig).
Notation host := (os_log * S)%type.

Lemma launch_cases dir c (h : host) r h' :
  launch exec dir c h = (r, h') →
  let n := length h.1 in
  match r with
  | Ok (pid, _) => pid = n ∧ h'.1 = h.1 ++ [OStart n c]
  | Err _ => ∃ ok, h'.1 = h.1 ++ [ORemoveAll dir ok] ∨
             h'.1 = h.1 ++ [OStart n c; OKill n; OWait n; ORemoveAll dir ok]
  end.
Proof.
  unfold launch, startAndWaitReady, remove_all.
  destruct (negb (os_ok "StdoutPipe" _)); [intros [= <- <-]; eexists; by left|].
  destruct (negb (os_ok "Start" _)); [intros [= <- <-]; eexists; by left|]. unfold log_event. cbn [fst snd].
  destruct (exec c h.2) as [st s]. cbn [fst snd].
  destruct (os_slow _); [intros [= <- <-]; eexists; right; cbn [fst]; by rewrite <- !app_assoc|].
  destruct (existsb _ _); [|destruct (st_read_error st); intros [= <- <-]; eexists; right; cbn [fst]; by rewrite <- !app_assoc].
  destruct (os_ok "NewClient" _); intros [= <- <-]; [done|]. eexists. right. cbn [fst]. by rewrite <- !app_assoc.
Qed.

Lemma socket_dir_cases creds (h : host) r h' :
  socket_dir creds h = (r, h') →
  match r with
  | Ok dir => os_MkdirTemp h.1 = Some dir ∧ h'.1 = h.1 ++ [OMkdirTemp dir; OChown dir (cr_UID creds) (cr_GID creds)]
  | Err _ => h'.1 = h.1 ∨ ∃ dir ok, os_MkdirTemp h.1 = Some dir ∧ h'.1 = h.1 ++ [OMkdirTemp dir; ORemoveAll dir ok]
  end.
Proof.
  unfold socket_dir. destruct (os_MkdirTemp h.1) as [dir|] eqn:E; [|intros [= <- <-]; by left].
  unfold remove_all, log_event. cbn [fst snd].
  destruct (os_ok "Chown" _); intros [= <- <-]; cbn [fst]; rewrite <- app_assoc; [done|]. right. by eexists dir, _.
Qed.

(** Launching in a fresh directory completes the trace. *)
Definition traced (creds : Info) (right : string → command → Prop) (h h' : host) (r : result (process P) spawnErr) : Prop :=
  ∃ new, h'.1 = h.1 ++ new ∧ (∀ dir, OMkdirTemp dir ∈ new → os_MkdirTemp h.1 = Some dir) ∧
    start_trace creds right (length h.1)
      match r with Ok p => Some (pr_pid p, pr_dir p) | Err _ => None end new.
Lemma launch_traced creds right dir c (h h1 h2 : host) r :
  os_MkdirTemp h.1 = Some dir → h1.1 = h.1 ++ [OMkdirTemp dir; OChown dir (cr_UID creds) (cr_GID creds)] →
  right dir c → launch exec dir c h1 = (r, h2) →
  traced creds right h h2 match r with Err e => Err (SpawnFailed e) | Ok (pid, p) => Ok (mkProcess pid dir p) end.
Proof.
  intros Hd Hh Hc E%launch_cases. cbn zeta in E. rewrite Hh, length_app in E. cbn [length] in E.
  destruct r as [[pid p]|e].
  - destruct E as [-> E]. eexists. rewrite E, <- app_assoc. split; [done|]. split; [|by constructor].
    intros d Hi. in_trace Hi. by injection Hi as ->.
  - destruct E as [ok [E|E]]; eexists; rewrite E, <- app_assoc; (split; [done|]); (split; [|by constructor]);
      intros d Hi; in_trace Hi; by injection Hi as ->.
Qed.
Lemma untouched creds right (h : host) e : traced creds right h h (Err e).
Proof. exists []. rewrite app_nil_r. split_and!; [done| |constructor]. by intros ? ?%elem_of_nil. Qed.
Lemma no_dir_traced creds right (h h1 : host) e e' :
  socket_dir creds h = (Err e, h1) → traced creds right h h1 (Err e').
Proof.
  intros [E|(dir & ok & Hd & E)]%socket_dir_cases.
  - exists []. rewrite app_nil_r. split_and!; [done| |constructor]. by intros ? ?%elem_of_nil.
  - exists [OMkdirTemp dir; ORemoveAll dir ok]. split_and!; [done| |constructor].
    intros d Hi. in_trace Hi. by injection Hi as ->.
Qed.

Lemma Lookup_allocatable localpart domainName d creds d' :
  lookup_ cfg localpart domainName d = (Ok creds, d') →
  Allocatable (cr_UID creds) = true ∧ Allocatable (cr_GID creds) = true.
Proof.
  unfold lookup_, Lookup. destruct (LoadDomainConfig _ _) as [c d1].
  destruct (DomainGID _ _ _) as [[gid|] d2]; [|done]. destruct (UserUID _ _ _ _) as [[uid|] d3]; [|done].
  destruct (Allocatable uid) eqn:Eu; [|done]. destruct (Allocatable gid) eqn:Eg; [|done].
  by intros [= <- _].
Qed.

(** The two ways to start a process. *)
Inductive start := Daemon (username mailbox privKey : string) | Oneshot (recipient : string).
Definition start_user (s : start) : string := match s with Daemon u _ _ => u | Oneshot r => r end.
Definition start_mode (s : start) : string := match s with Daemon _ _ _ => "daemon" | Oneshot _ => "oneshot" end.
Definition start_mailbox (s : start) : string := match s with Daemon _ m _ => m | Oneshot r => r end.
Definition run_start (s : start) : folder → host → result (process P) spawnErr * folder * host :=
  match s with
  | Daemon u m k => spawnSession exec cfg u m k
  | Oneshot r => DeliverySession exec cfg r
  end.

Lemma run_start_traced s d (h : host) r d' h' :
  run_start s d h = (r, d', h') →
  (h' = h ∧ ∃ e, r = Err e) ∨
  ∃ l dn creds, cut "@" (start_user s) = Some (l, dn) ∧ (lookup_ cfg l dn d).1 = Ok creds ∧
    Allocatable (cr_UID creds) = true ∧ Allocatable (cr_GID creds) = true ∧
    traced creds (confined cfg creds (start_mode s) (start_mailbox s)) h h' r.
Proof.
  unfold run_start. destruct s as [u m k|u]; cbn [start_user start_mode start_mailbox];
    unfold spawnSession, DeliverySession;
    (destruct (cut "@" u) as [[l dn]|]; [|intros [= <- _ <-]; eauto]);
    (destruct (lookup_ cfg l dn d) as [[creds|e] d1] eqn:El; [|intros [= <- _ <-]; eauto]);
    destruct (Lookup_allocatable _ _ _ _ _ El) as [Hu Hg];
    (destruct (socket_dir creds h) as [[dir|e] h1] eqn:Ed;
     [|intros [= <- _ <-]; right; exists l, dn, creds; split_and!; auto; [by rewrite El|by eapply no_dir_traced]]);
    apply socket_dir_cases in Ed as [Hd Hh];
    (intros E; right; exists l, dn, creds; split_and!; auto; [by rewrite El|]).
  - assert (∀ fd3, confined cfg creds "daemon" m dir
      (mailSessionSysProcAttr (sm_MailSessionCmd cfg) (daemon_args cfg (socket_path dir) m creds)
         (cr_UID creds) (cr_GID creds) fd3)) as Hc by (intros; split_and!; auto; apply daemon_args_parse).
    case_decide.
    + destruct (keyPipe k h1) as [env|e].
      * destruct (launch _ _ _ _) as [r1 h2] eqn:E2. apply (launch_traced creds (confined cfg creds "daemon" m) _ _ h) in E2; auto.
        destruct r1 as [[pid p]|e]; by injection E as <- _ <-.
      * injection E as <- _ <-. exists [OMkdirTemp dir; OChown dir (cr_UID creds) (cr_GID creds); ORemoveAll dir (os_ok "RemoveAll" h1.1)].
        split_and!; [unfold remove_all, log_event; cbn [fst]; by rewrite Hh, <- app_assoc| |constructor].
        intros d2 Hi. in_trace Hi. by injection Hi as ->.
    + destruct (launch _ _ _ _) as [r1 h2] eqn:E2. apply (launch_traced creds (confined cfg creds "daemon" m) _ _ h) in E2; auto.
      destruct r1 as [[pid p]|e]; by injection E as <- _ <-.
  - destruct (launch _ _ _ _) as [r1 h2] eqn:E2. apply (launch_traced creds (confined cfg creds "oneshot" u) _ _ h) in E2;
      auto; [|split_and!; auto; apply oneshot_args_parse].
    destruct r1 as [[pid p]|e]; by injection E as <- _ <-.
Qed.

(** The clean-up of a process that runs in a directory of its own. *)
Lemma cleanup_left_over (p : process P) (h h' : host) new :
  h'.1 = h.1 ++ new → left_over h'.1 = ({[pr_pid p]} ∪ (left_over h.1).1, {[pr_dir p]} ∪ (left_over h.1).2) →
  pr_pid p ∉ (left_over h.1).1 → pr_dir p ∉ (left_over h.1).2 → refused new = ∅ →
  ∃ new', (cleanup p h').1 = h.1 ++ new' ∧
    left_over (cleanup p h').1 = ((left_over h.1).1, refused new' ∪ (left_over h.1).2).
Proof.
  intros Hh Hl Hp Hd Hr. unfold cleanup, remove_all, log_event. cbn [fst]. generalize (os_ok "RemoveAll"). intros rm.
  rewrite !left_over_snoc, Hl, Hh, <- !app_assoc. eexists. split; [reflexivity|]. rewrite !refused_app, Hr.
  unfold refused. destruct (rm _); cbn [left_event fst snd omap list_omap kept_dir list_to_set app];
    destruct (left_over h.1) as [ps ds]; cbn [fst snd] in *; f_equal; set_solver.
Qed.

(** C4 A process is never started but for what it is meant to serve: every process
    that a login or a delivery starts, whatever the files hold and whatever the
    system answers, runs under an allocatable uid and gid looked up for that
    user, in a socket directory given to these ids before, dies with the manager,
    and reads its command line as the manager meant it, whatever characters the
    names contain. A start that fails leaves no process behind and no directory
    but one the system refused to remove, and after its clean-up a delivery does
    not either. *)
Theorem spawn_contained `{!OsLaws} (s : start) (d d' : folder) (h h' : host) (r : result (process P) spawnErr) :
  numbered h.1 → run_start s d h = (r, d', h') →
  ∃ new, h'.1 = h.1 ++ new ∧ numbered h'.1 ∧
    (∀ pid c, OStart pid c ∈ new → ∃ l dn creds dir,
       cut "@" (start_user s) = Some (l, dn) ∧ (lookup_ cfg l dn d).1 = Ok creds ∧
       Allocatable (cr_UID creds) = true ∧ Allocatable (cr_GID creds) = true ∧
       confined cfg creds (start_mode s) (start_mailbox s) dir c ∧
       new !! 1%nat = Some (OChown dir (cr_UID creds) (cr_GID creds))) ∧
    match r with
    | Err _ => left_over h'.1 = ((left_over h.1).1, refused new ∪ (left_over h.1).2)
    | Ok p => left_over h'.1 = ({[pr_pid p]} ∪ (left_over h.1).1, {[pr_dir p]} ∪ (left_over h.1).2) ∧
              ∃ new', (cleanup p h').1 = h.1 ++ new' ∧
                left_over (cleanup p h').1 = ((left_over h.1).1, refused new' ∪ (left_over h.1).2)
    end.
Proof.
  intros Hn [[-> [e ->]]|(l & dn & creds & Hcut & Hlk & Hu & Hg & new & Hh & Hd & Ht)]%run_start_traced.
  { exists []. rewrite app_nil_r. split_and!; auto; [by intros ? ? ?%elem_of_nil|].
    rewrite (surjective_pairing (left_over h.1)) at 1. f_equal. set_solver. }
  pose proof (trace_numbered _ _ _ _ _ Hn Ht) as Hn'.
  destruct (trace_left_over _ _ _ _ _ Hn (λ dir Hi, mkdir_fresh _ _ (Hd dir Hi)) Ht) as [Hl Hfresh].
  exists new. rewrite Hh. split_and!; auto.
  - intros pid c Hi. exists l, dn, creds. clear Hl Hfresh Hd Hh Hn'. inversion Ht as [He En|dir ok He En|dir ok He En|dir c' ok Hc He En|dir c' Hc He En]; subst new;
      in_trace Hi; injection Hi as _ ->; exists dir; by split_and!.
  - destruct r as [p|e]; [|done]. split; [done|]. destruct (Hfresh _ _ eq_refl) as (Hp & Hdir & Hr).
    apply (cleanup_left_over p h h' new); by rewrite ?Hh.
Qed.
End Starts.
