(* ===== verification/SmServices.v ===== *)
(** * The delivery and submission services of session-manager

    [src/internal/session-manager]: recipient validation, forwarding and the set-up
    of authentication ([manager/manager.go]), the delivery proxy
    ([grpcserver/delivery_proxy.go]) over the processes of [Spawn] and the
    pipeline of [Deliver], submission to the queue ([grpcserver/outbound.go],
    [dkim/loader.go]) over [Queue], and the access rights of the socket
    ([grpcserver/server.go]). *)
From stdpp Require Import fin_sets infinite.
From S2P Require Import Prelude GoStrings FilePath QueueFs Queue.
From S2P Require Import UidList Disk Identity Keyring Passwd PeerGate AuthLimit Forwards MsgStore Maildir Domain.
From S2P Require Import MsgCrypt MailSession Deliver Spawn.
From Stdlib Require Import ZArith Lia Ascii.
Open Scope string_scope.
Open Scope list_scope.
Open Scope Z_scope.

(** ** The manager's view of the domains *)
Section Recipients.
Context `{UnicodeCase, TomlConfig, DkimKeys} (dirs : string → bool) (fallback : option fallbackAgent).

(** Whether the domain is local, the user exists, and refusals wait for DATA. *)
Definition ValidateRecipient (address : string) (ps : option provider) (w : folder)
    : result (bool * bool * bool) string * option provider * folder :=
  match cut "@" address with
  | None | Some (_, "") => (Err "missing @domain", ps, w)
  | Some (_, domainName) =>
      match ps with
      | None => (Ok (false, false, false), None, w)
      | Some p =>
          match GetDomain dirs domainName p w with
          | (None, p, w) => (Ok (false, false, false), Some p, w)
          | (Some d, p, w) =>
              let deferRejection := bool_decide (d_RecipientRejection d = "data") in
              match Domain.UserExists dirs fallback address (Some p) w with
              | (Err _, ps, w) => (Ok (true, false, deferRejection), ps, w)
              | (Ok userExists, ps, w) => (Ok (true, userExists, deferRejection), ps, w)
              end
          end
      end
  end.

(** [forwardChain.resolve]: the user's file is read when the tiers above it have
    no rule. *)
Definition resolve_chain (c : forwardChain) (localpart : string) (w : folder)
    : option (list string) * folder :=
  match Resolve (adminForwards c) localpart, Resolve (domainForwards c) localpart with
  | None, None =>
      let '(r, w) := read_file DRead (Join [userForwardsDir c; localpart]) w in
      let fs : filesystem := λ _, match r with
                                  | Ok None => NotExist
                                  | Ok (Some data) => Contents data
                                  | Err _ => OpenError
                                  end in
      (resolve c fs localpart, w)
  | _, _ => (resolve c (λ _, NotExist) localpart, w)
  end.
Definition ResolveForward (recipient : string) (ps : option provider) (w : folder)
    : option (list string) * option provider * folder :=
  match ps with
  | None => (None, None, w)
  | Some p =>
      match cut "@" recipient with
      | None | Some (_, "") => (None, Some p, w)
      | Some (localpart, domainName) =>
          match GetDomain dirs domainName p w with
          | (None, p, w) => (None, Some p, w)
          | (Some d, p, w) => let '(r, w) := resolve_chain (d_chain d) localpart w in (r, Some p, w)
          end
      end
  end.
End Recipients.

(** ** Set-up *)
Record authSettings := mkSettings {
  as_AgentType : string; as_CredentialBackend : string; as_KeyBackend : string;
  as_enabled : option bool; as_limits : RateLimitConfig;
}.
Definition limits_IsEnabled (a : authSettings) : bool := default true (as_enabled a).
Section Setup.
Context `{TomlConfig, UnicodeCase, DkimKeys}.
Inductive limiter := NoLimiter | MemLimiter (c : RateLimitConfig) | RedisLimiter (c : RateLimitConfig).
Inductive setupErr := NoDomainsPath | OpenAgent (e : autherr).
Definition setup_defaults (agentType : string) (a : authSettings) : DomainConfig :=
  mkDomainConfig (mkAuthConf agentType (as_CredentialBackend a) (as_KeyBackend a) ∅)
    (mkStoreConf "maildir" "users" ∅)
    (cfg_DKIM zero_config) (cfg_Outbound zero_config) (MaxSendsPerHour zero_config) (cfg_DNS zero_config)
    (MaxMessageSize zero_config) (RecipientRejection zero_config) (EncryptionMode zero_config)
    (cfg_Forwards zero_config).
Definition SetupAuth (cfg : smConfig) (a : authSettings) (redis : bool) (w : folder)
    : result (Agent * provider * limiter) setupErr * folder :=
  if decide (sm_DomainsPath cfg = "") then (Err NoDomainsPath, w)
  else
    let agentType := if decide (as_AgentType a = "") then "passwd" else as_AgentType a in
    let '(p, w) := NewFilesystemDomainProvider (sm_DomainsPath cfg) w in
    let p := WithDefaults (setup_defaults agentType a) p in
    let p := if decide (sm_DomainsDataPath cfg = "") then p else WithDataPath (sm_DomainsDataPath cfg) p in
    match OpenAuthAgent (mkAgentConfig agentType (as_CredentialBackend a) (as_KeyBackend a) "" ∅) w with
    | (Err e, w) => (Err (OpenAgent e), w)
    | (Ok agent, w) =>
        (Ok (agent, p, if negb (limits_IsEnabled a) then NoLimiter
                       else if redis then RedisLimiter (as_limits a) else MemLimiter (as_limits a)), w)
    end.
End Setup.

(** ** The delivery proxy *)
(** The manager's disk and domains, the log of the system, and what the
    mail-session processes share: the store with its writes and the random
    source. *)
Record net (W : Type) := mkNet {
  n_disk : folder; n_provider : option provider; n_log : os_log;
  n_store : W; n_writes : list write; n_rand : rand; n_metrics : list (string * string);
}.
Arguments mkNet {W}. Arguments n_disk {W}. Arguments n_provider {W}. Arguments n_log {W}.
Arguments n_store {W}. Arguments n_writes {W}. Arguments n_rand {W}. Arguments n_metrics {W}.

Section Proxy.
Context {W : Type} `{DeliveryStore W, UnicodeCase, TomlConfig, DkimKeys, SieveLib, NaclBox}.
Context `{Os, KeyJson, GoDuration, UnicodeQuote, Toml}.
Context (cfg : smConfig) (dirs : string → bool) (hostname buildVersion : option string) (now : Z).
Context (open_store : StoreConfig → MailStore W) (file_rescan : string → option string) (listen : string → bool).
(** A process has its own luck with the disk. *)
Context (child_faults : list UidList.sysres).
Implicit Types n : net W.

Definition child (d : folder) : folder := mkFolder (files d) child_faults.
Notation stores := (folder * W * rand)%type.
Definition exec (c : command) : stores → started exit_or * stores := λ '(d, w, r),
  let '(x, d, w, r) := main open_store file_rescan listen now (cm_args c) (cm_fd3 c) d w r in
  (mkStarted (stdout_of x) false x, (d, w, r)).

Definition completed (domain result_ : string) n : net W :=
  mkNet (n_disk n) (n_provider n) (n_log n) (n_store n) (n_writes n) (n_rand n)
    (n_metrics n ++ [(domain, result_)]).

(** [drainDeliverStream] *)
Fixpoint drainDeliverStream {M} (l : list (received M)) : bool :=
  match l with [] => true | RFails :: _ => false | _ :: l => drainDeliverStream l end.
Definition send_and_close (resp : DeliverResponse) n : result DeliverResponse string * net W :=
  (if os_ok "SendAndClose" (n_log n) then Ok resp else Err "send", n).
Definition respondForward (l : list (received DeliverMetadata)) (domain : string) (targets : list string) n
    : result DeliverResponse string * net W :=
  if negb (drainDeliverStream l) then (Err "recv", n)
  else match targets with
       | _ :: _ :: _ =>
           send_and_close (rejected true ("forwarding misconfiguration: only one forward destination allowed, "
             +:+ fmt_d (Z.of_nat (length targets)) +:+ " configured")) (completed domain "error" n)
       | [_] => send_and_close (mkResponse ResultRedirected false "" targets "") (completed domain "forwarded" n)
       | [] => (Err "panic: index out of range", n)
       end.

(** The body chunks passed on, and how that ended; [sends] is the fate of each
    chunk sent, successful when the list is exhausted. *)
Inductive relay_end := RelayEOF | RelayBroken.
Fixpoint relay (sends : list bool) (l : list (received DeliverMetadata))
    : list (received DeliverMetadata) * relay_end :=
  match l with
  | [] => ([], RelayEOF)
  | RFails :: _ => ([], RelayBroken)
  | x :: l =>
      if default true (head sends) then let '(xs, e) := relay (tail sends) l in (x :: xs, e)
      else ([], RelayBroken)
  end.
(** The call on the process that serves; a broken stream fails in the process
    too. *)
Definition serve_Deliver (sg : serving) (l : list (received DeliverMetadata)) (d : folder) n
    : result DeliverResponse (code * string) * net W :=
  match sg_deliver sg with
  | None => (Err (Unavailable, "unknown service"), n)
  | Some (dcfg, p) =>
      let '(r, w) := rpc_Deliver dcfg dirs hostname buildVersion now true l
                       (mkWorld d p (n_store n) (n_writes n) (n_rand n)) in
      (r, mkNet (n_disk n) (n_provider n) (n_log n) (w_store w) (w_writes w) (w_rand w) (n_metrics n))
  end.
Definition relay_Deliver (sends : list bool) (domain : string) (m : DeliverMetadata)
    (l : list (received DeliverMetadata)) (sg : serving) (d : folder) n : result DeliverResponse string * net W :=
  if negb (os_ok "OpenStream" (n_log n)) then (Err "open stream", n)
  else if negb (default true (head sends)) then
    let '(_, n) := serve_Deliver sg [RFails] d n in (Err "send", n)
  else
    let '(xs, e) := relay (tail sends) l in
    match e with
    | RelayBroken => let '(_, n) := serve_Deliver sg (RMeta m :: xs ++ [RFails]) d n in (Err "stream", n)
    | RelayEOF =>
        let '(r, n) := serve_Deliver sg (RMeta m :: xs) d n in
        match r with
        | Ok resp =>
            if os_ok "CloseAndRecv" (n_log n) then send_and_close resp (completed domain "success" n)
            else (Err "connection lost", completed domain "error" n)
        | Err (_, text) => (Err text, completed domain "error" n)
        end
    end.

Definition set_log (l : os_log) n : net W :=
  mkNet (n_disk n) (n_provider n) l (n_store n) (n_writes n) (n_rand n) (n_metrics n).
Definition spawnErr_text (e : spawnErr) : string :=
  match e with BadAddress => "invalid recipient" | BadCredentials _ => "credential lookup" | SpawnFailed t => t end.
Definition domain_label (recipient : string) : string :=
  match cut "@" recipient with Some (_, d) => d | None => "unknown" end.

Definition proxy_Deliver (sends : list bool) (l : list (received DeliverMetadata)) n
    : result DeliverResponse string * net W :=
  match l with
  | [] | RFails :: _ => (Err "recv metadata", n)
  | RData _ :: _ => (Err "first chunk must contain delivery metadata", n)
  | RMeta m :: l =>
      let domain := domain_label (dm_Recipient m) in
      let '(fwd, ps, d) :=
        if dm_Forwarded m then (None, n_provider n, n_disk n)
        else ResolveForward dirs (dm_Recipient m) (n_provider n) (n_disk n) in
      let n := mkNet d ps (n_log n) (n_store n) (n_writes n) (n_rand n) (n_metrics n) in
      match fwd with
      | Some targets => respondForward l domain targets n
      | None =>
          let '(r, d, (log, (cd, w, rnd))) :=
            DeliverySession exec cfg (dm_Recipient m) (n_disk n)
              (n_log n, (child (n_disk n), n_store n, n_rand n)) in
          let n := mkNet d (n_provider n) log w (n_writes n) rnd (n_metrics n) in
          match r with
          | Err e => (Err (spawnErr_text e), completed domain "error" n)
          | Ok p =>
              let '(a, n) :=
                match pr_proc p with
                | Serving sg => relay_Deliver sends domain m l sg cd n
                | Exit _ => (Err "connection refused", n)
                end in
              (a, set_log (cleanup p (n_log n, ())).1 n)
          end
      end
  end.
End Proxy.

(** ** A delivery from the proxy to the store *)
Lemma recv_body_fails {M} (l : list (received M)) : recv_body (l ++ [RFails]) = None.
Proof. induction l as [|[m|d|] l IH]; cbn [app recv_body]; [done|done|by rewrite IH|done]. Qed.

Lemma relay_eof sends l xs : relay sends l = (xs, RelayEOF) → drainDeliverStream l = true ∧ xs = l.
Proof.
  revert sends xs. induction l as [|x l IH]; intros sends xs; cbn [relay]; [by intros [= <-]|].
  destruct x as [m|d|]; [| |done]; (destruct (default true (head sends)); [|done]);
    destruct (relay (tail sends) l) as [ys []] eqn:E; intros [= <-]; apply IH in E as [? ->]; done.
Qed.

Section EndToEnd.
Context {W : Type} `{DeliveryStore W, UnicodeCase, TomlConfig, DkimKeys, SieveLib, NaclBox}.
Context `{Os, KeyJson, GoDuration, UnicodeQuote, Toml}.
Context (cfg : smConfig) (dirs : string → bool) (hostname buildVersion : option string) (now : Z).
Context (open_store : StoreConfig → MailStore W) (file_rescan : string → option string) (listen : string → bool).
Context (child_faults : list UidList.sysres).
Implicit Types n : net W.
Notation proxy_Deliver := (proxy_Deliver cfg dirs hostname buildVersion now open_store file_rescan listen child_faults).
Notation serve_Deliver := (serve_Deliver dirs hostname buildVersion now).
Notation relay_Deliver := (relay_Deliver dirs hostname buildVersion now).
Notation exec := (exec now open_store file_rescan listen).

(** What the process of a delivery was started with: the settings that the manager
    passes for the recipient's credentials, and the domains as loaded anew from the
    files [disk]. *)
Definition settings_for (creds : Info) : Config :=
  mkConfig (sm_DomainsPath cfg) (sm_DomainsDataPath cfg) (cr_BasePath creds).
Definition own_process (m : DeliverMetadata) (disk : folder) (dcfg : Config) (p : provider) : Prop :=
  ∃ lp dn creds d0, cut "@" (dm_Recipient m) = Some (lp, dn) ∧ (lookup_ cfg lp dn disk).1 = Ok creds ∧
    dcfg = settings_for creds ∧ files d0 = files disk ∧ (deliver_New dcfg d0).1 = Some p.
(** The recipient's script, as the files [disk] hold it, asked for no copy of the
    whole body sent. *)
Definition script_discards (m : DeliverMetadata) (l : list (received DeliverMetadata)) (disk : folder) : Prop :=
  ∃ dcfg p d dom body, own_process m disk dcfg p ∧ files d = files disk ∧
    (GetDomain dirs (Deliver.splitAddress (dm_Recipient m)).2 p d).1.1 = Some dom ∧ recv_body l = Some body ∧
    discarded dcfg hostname buildVersion (files disk) dom (deliverRequestFromMetadata m) body.
(** An answer agrees with the writes made. *)
Definition honest (m : DeliverMetadata) (l : list (received DeliverMetadata)) (disk : folder) (nw : list write)
    (resp : DeliverResponse) : Prop :=
  match Result resp with
  | ResultDelivered => stored_one nw ∨ script_discards m l disk
  | ResultRejected => nw = []
  | ResultRedirected => dm_Forwarded m = false
  end.

(** The process that serves is the one the manager meant, on its own files. *)
Definition serves (m : DeliverMetadata) (disk : folder) (sg : serving) (d : folder) : Prop :=
  files d = files disk ∧ ∀ dcfg p, sg_deliver sg = Some (dcfg, p) → own_process m disk dcfg p.
(** A process started for one delivery that serves has its settings from the
    command line. *)
Lemma main_serves dir mailbox creds fd3 c d w rn sg d' w' rn' :
  confined cfg creds "oneshot" mailbox dir c → cm_fd3 c = fd3 →
  main open_store file_rescan listen now (cm_args c) fd3 d w rn = (Serving sg, d', w', rn') →
  files d' = files d ∧ ∀ dcfg p, sg_deliver sg = Some (dcfg, p) →
    dcfg = settings_for creds ∧ (deliver_New dcfg d).1 = Some p.
Proof.
  intros (_ & _ & _ & Hf) _. unfold main. rewrite Hf. unfold meant at 1 2.
  destruct (decide (f_basepath _ = "")); [done|]. destruct (decide (f_mailbox _ = "")); [done|].
  destruct (parseDurationOrDisable _) as [rescan|]; [|done]. destruct (OpenStore _) as [sc|]; [|done].
  destruct (decide (f_mode _ = "daemon")) as [Hm|_]; [done|].
  destruct (Open _ _ _) as [e [sess w1]]. destruct (is_ok e); [|done].
  destruct (runGRPC _ _ _ _ _ _ d) as [x d1] eqn:Er. intros [= -> -> _ _]. revert Er.
  unfold runGRPC. destruct (decide (f_socket _ = "")); [done|]. destruct (idle_timeout _) as [idle|]; [|done].
  cbn [meant f_domains f_data f_basepath f_socket].
  destruct (decide (sm_DomainsPath cfg = "")).
  { destruct (listen _); [|done]. by intros [= <- <-]. }
  pose proof (deliver_New_files (settings_for creds) d) as Hn. change (mkConfig _ _ _) with (settings_for creds).
  destruct (deliver_New (settings_for creds) d) as [[p|] d2] eqn:Ed; [|done]. cbn [snd] in Hn.
  destruct (listen _); [|done]. intros [= <- <-]. split; [done|]. intros dcfg p' [= <- <-]. by rewrite Ed.
Qed.
Lemma launch_proc {P} (ex : command → folder * W * rand → started P * (folder * W * rand)) dir c h pid pr h' :
  launch ex dir c h = (Ok (pid, pr), h') → pr = st_proc (ex c h.2).1 ∧ h'.2 = (ex c h.2).2.
Proof.
  unfold launch, startAndWaitReady. destruct (negb _); [done|]. destruct (negb _); [done|].
  unfold log_event. cbn [fst snd]. destruct (ex c h.2) as [st s]. cbn [fst snd].
  destruct (os_slow _); [done|]. destruct (existsb _ _); [|by destruct (st_read_error st)].
  destruct (os_ok _ _); [|done]. by intros [= <- <- <-].
Qed.
Lemma DeliverySession_serves m d (l : os_log) cd0 w rn p d' l' cd w' rn' sg :
  files cd0 = files d →
  DeliverySession exec cfg (dm_Recipient m) d (l, (cd0, w, rn)) = (Ok p, d', (l', (cd, w', rn'))) →
  pr_proc p = Serving sg → serves m d sg cd.
Proof.
  intros Hc0. unfold DeliverySession. destruct (cut "@" _) as [[lp dn]|] eqn:Ecut; [|done].
  destruct (lookup_ cfg lp dn d) as [[creds|e] d1] eqn:El; [|done].
  destruct (socket_dir creds _) as [[dir|e] h1] eqn:Es; [|done].
  assert (h1.2 = (cd0, w, rn)) as Hh1.
  { revert Es. unfold socket_dir. destruct (os_MkdirTemp _); [|done]. destruct (os_ok _ _); [|done]. by intros [= _ <-]. }
  destruct (launch _ _ _ h1) as [[[pid pr]|e] h2] eqn:Ela; [|done]. intros [= <- _ Hh2] Hp. cbn [pr_proc] in Hp.
  apply launch_proc in Ela as [-> Hst]. rewrite Hh1, Hh2 in Hst. rewrite Hh1 in Hp. unfold SmServices.exec in Hst, Hp.
  destruct (main _ _ _ _ _ _ cd0 w rn) as [[[x cd'] wx] rx] eqn:Em. cbn [fst snd st_proc] in *. injection Hst as -> _ _. subst x.
  eapply main_serves in Em as [Hf Hd]; [|split_and!; [reflexivity..|apply oneshot_args_parse]|reflexivity].
  split; [congruence|]. intros dcfg pv Hsg. destruct (Hd _ _ Hsg) as [-> Hpv].
  exists lp, dn, creds, cd0. split_and!; try done. by rewrite El.
Qed.

Definition same_manager n n' : Prop := n_log n' = n_log n ∧ n_provider n' = n_provider n.
Lemma serve_spec `{!SieveLaws} disk sg m l d n r n' :
  serves m disk sg d → serve_Deliver sg (RMeta m :: l) d n = (r, n') →
  same_manager n n' ∧ ∃ nw, n_writes n' = n_writes n ++ nw ∧
    (recv_body l = None → nw = []) ∧ ∀ resp, r = Ok resp → honest m l disk nw resp.
Proof.
  intros [Hd Hsg]. unfold SmServices.serve_Deliver. destruct (sg_deliver sg) as [[dcfg p]|]; cycle 1.
  { intros [= <- <-]. split; [done|]. exists []. by rewrite app_nil_r. }
  unfold rpc_Deliver. cbn [negb]. destruct (recv_body l) as [body|] eqn:Eb; cycle 1.
  { intros [= <- <-]. split; [done|]. exists []. by rewrite app_nil_r. }
  destruct (Deliver.Deliver _ _ _ _ _ _ _ _) as [rd w] eqn:E.
  destruct (delivery_answer_honest _ _ _ _ _ _ _ _ _ _ E) as (nw & Hw & Hr).
  intros [= <- <-]. split; [done|]. exists nw. split_and!; [done|done|]. intros resp Ho.
  destruct rd as [resp'|]; [injection Ho as <-|done].
  unfold honest. destruct (Result resp'); [|done|by destruct Hr].
  destruct Hr as [Hs|(dom & Hg & Hdis)]; [by left|right]. cbn [w_disk] in Hdis. rewrite Hd in Hdis.
  exists dcfg, p, d, dom, body. split_and!; try done; [by apply Hsg|].
  revert Hg. unfold get_domain. cbn [w_provider w_disk]. by destruct (GetDomain _ _ p d) as [[? ?] ?].
Qed.
Lemma serve_broken sg d n r n' : serve_Deliver sg [RFails] d n = (r, n') →
  same_manager n n' ∧ n_writes n' = n_writes n.
Proof.
  unfold SmServices.serve_Deliver. destruct (sg_deliver sg) as [[dcfg p]|]; [|by intros [= <- <-]].
  cbn. by intros [= <- <-].
Qed.

Lemma send_spec resp n r n' : send_and_close resp n = (r, n') → n' = n ∧ ∀ x, r = Ok x → x = resp.
Proof. unfold send_and_close. intros [= <- <-]. split; [done|]. destruct (os_ok _ _); by intros x [= ->]. Qed.

Lemma relay_spec `{!SieveLaws} disk sends domain m l sg d n r n' :
  serves m disk sg d → relay_Deliver sends domain m l sg d n = (r, n') →
  same_manager n n' ∧ ∃ nw, n_writes n' = n_writes n ++ nw ∧
    (drainDeliverStream l = false → nw = []) ∧ ∀ resp, r = Ok resp → honest m l disk nw resp.
Proof.
  intros Hsv. unfold SmServices.relay_Deliver. destruct (negb _).
  { intros [= <- <-]. split; [done|]. exists []. by rewrite app_nil_r. }
  destruct (negb _).
  { destruct (serve_Deliver sg [RFails] d n) as [r1 n1] eqn:E. apply serve_broken in E as [Hl Hw].
    intros [= <- <-]. split; [done|]. exists []. by rewrite app_nil_r. }
  destruct (relay (tail sends) l) as [xs []] eqn:Er; cycle 1.
  { destruct (serve_Deliver _ _ _ _) as [r1 n1] eqn:E. eapply serve_spec in E; [|exact Hsv]. destruct E as (Hl & nw & Hw & Hb & _).
    intros [= <- <-]. split; [done|]. exists nw. split_and!; [done| |done]. intros _. apply Hb, recv_body_fails. }
  apply relay_eof in Er as [Hdr ->]. rewrite Hdr.
  destruct (serve_Deliver _ _ _ _) as [r1 n1] eqn:E. eapply serve_spec in E; [|exact Hsv]. destruct E as (Hl & nw & Hw & _ & Hr).
  destruct r1 as [resp|[c t]]; [|intros [= <- <-]; split; [done|]; by exists nw].
  destruct (os_ok "CloseAndRecv" _); [|intros [= <- <-]; split; [done|]; by exists nw].
  intros [-> Hx]%send_spec. split; [done|]. exists nw. split_and!; [done|done|]. intros x ->%Hx. by apply Hr.
Qed.

(** The answer to a forward. *)
Lemma respondForward_spec l domain targets n r n' :
  respondForward l domain targets n = (r, n') →
  same_manager n n' ∧ n_writes n' = n_writes n ∧
  ∀ resp, r = Ok resp →
    (∃ t, targets = [t] ∧ resp = mkResponse ResultRedirected false "" [t] "") ∨
    ((2 <= length targets)%nat ∧ Result resp = ResultRejected ∧ Temporary resp = true).
Proof.
  unfold respondForward. destruct (negb _); [by intros [= <- <-]|].
  destruct targets as [|t [|t2 ts]]; [by intros [= <- <-]| |]; intros [-> Hx]%send_spec; split_and!; try done;
    intros resp ->%Hx.
  - left. by exists t.
  - right. split_and!; [cbn [length]; lia|done|done].
Qed.

(** Everything one delivery may do. *)
Definition delivered_by (m : DeliverMetadata) (d : folder) (nl : os_log) : Prop :=
  ∃ pid c l dn creds dir, OStart pid c ∈ nl ∧ cut "@" (dm_Recipient m) = Some (l, dn) ∧
    (lookup_ cfg l dn d).1 = Ok creds ∧ Allocatable (cr_UID creds) = true ∧ Allocatable (cr_GID creds) = true ∧
    confined cfg creds "oneshot" (dm_Recipient m) dir c.
Definition forward_of (m : DeliverMetadata) n : option (list string) :=
  if dm_Forwarded m then None else (ResolveForward dirs (dm_Recipient m) (n_provider n) (n_disk n)).1.1.
Definition disk_after (m : DeliverMetadata) n : folder :=
  if dm_Forwarded m then n_disk n else (ResolveForward dirs (dm_Recipient m) (n_provider n) (n_disk n)).2.

Lemma DeliverySession_effect `{!OsLaws} m d (h : os_log * (folder * W * rand)) r d' h' :
  numbered h.1 → DeliverySession exec cfg (dm_Recipient m) d h = (r, d', h') →
  ∃ new, h'.1 = h.1 ++ new ∧
    match r with
    | Err _ => left_over h'.1 = ((left_over h.1).1, refused new ∪ (left_over h.1).2)
    | Ok p => delivered_by m d new ∧ ∀ log', (∃ x : unit, log' = (cleanup p (h'.1, x)).1) → ∃ new',
        log' = h.1 ++ new ++ new' ∧ left_over log' = ((left_over h.1).1, refused (new ++ new') ∪ (left_over h.1).2)
    end.
Proof.
  intros Hn [[-> [e ->]]|(l & dn & creds & Hcut & Hlk & Hu & Hg & new & Hh & Hd & Ht)]%(run_start_traced exec cfg (Oneshot (dm_Recipient m))).
  { exists []. rewrite app_nil_r. split; [done|]. by destruct (left_over h.1); cbn; rewrite (left_id_L ∅ (∪)). }
  exists new. split; [done|].
  destruct (trace_left_over _ _ _ _ _ Hn (λ dir Hi, mkdir_fresh _ _ (Hd dir Hi)) Ht) as [Hl Hfresh].
  destruct r as [p|]; [|by rewrite Hh]. destruct (Hfresh _ _ eq_refl) as (Hp & Hdir & Hr). split.
  - inversion Ht as [| | | |dir c Hc]; subst. exists (length h.1 + 2)%nat, c, l, dn, creds, (pr_dir p).
    split_and!; auto. do 2 right. by left.
  - intros log' [[] ->]. unfold cleanup, remove_all, log_event. cbn [fst].
    generalize (os_ok "RemoveAll"). intros rm. rewrite Hh, <- !app_assoc. eexists. split; [reflexivity|].
    rewrite !app_assoc. rewrite !left_over_snoc. rewrite <- ?app_assoc. rewrite Hl, !refused_app, Hr.
    unfold refused. destruct (rm _); cbn [left_event fst snd omap list_omap kept_dir list_to_set app];
      destruct (left_over h.1) as [ps ds]; cbn [fst snd] in *; f_equal; set_solver.
Qed.

(** A recipient with a forwarding rule. *)
Lemma forwarded_delivery m l (n n' : net W) ps d targets r :
  forward_of m n = Some targets →
  respondForward l (domain_label (dm_Recipient m)) targets
    (mkNet d ps (n_log n) (n_store n) (n_writes n) (n_rand n) (n_metrics n)) = (r, n') →
  ∃ nl nw, n_log n' = n_log n ++ nl ∧ n_writes n' = n_writes n ++ nw ∧
    left_over (n_log n') = ((left_over (n_log n)).1, refused nl ∪ (left_over (n_log n)).2) ∧
    (nw ≠ [] → delivered_by m (disk_after m n) nl ∧ drainDeliverStream l = true) ∧
    (∀ resp, r = Ok resp → honest m l (disk_after m n) nw resp) ∧
    (∀ targets', Some targets = Some targets' → nl = [] ∧ nw = [] ∧
       ∀ resp, r = Ok resp →
         (∃ t, targets' = [t] ∧ resp = mkResponse ResultRedirected false "" [t] "") ∨
         ((2 <= length targets')%nat ∧ Result resp = ResultRejected ∧ Temporary resp = true)) ∧
    (dm_Forwarded m = true → n_provider n' = n_provider n).
Proof.
  intros Ef Hr%respondForward_spec. destruct Hr as ([Hl _] & Hw & Hr). cbn [n_log n_writes] in Hl, Hw.
  exists [], []. rewrite !app_nil_r. split_and!; try done.
  - rewrite Hl. by destruct (left_over (n_log n)); cbn; rewrite (left_id_L ∅ (∪)).
  - intros resp Ho. destruct (Hr resp Ho) as [(t & _ & ->)|(_ & Hx & _)]; unfold honest; [|by rewrite Hx].
    cbn [Result]. unfold forward_of in Ef. by destruct (dm_Forwarded m).
  - by intros ? [= <-].
  - intros Hf. unfold forward_of in Ef. by rewrite Hf in Ef.
Qed.

(** C13 One delivery from the proxy to the store, whatever the client sends, the
    files hold and the system, the process and the store answer. No process is
    left behind and no directory but one the system refused to remove. A message is
    written only by a process confined to the recipient's ids, never when the
    client's stream breaks off, and the answer is honest: "delivered" means that a
    copy was stored unless the recipient's own script (the site's, if there is
    none), run on the whole body sent, asked for none; after a refusal nothing is
    stored, and only a message that was not forwarded before is redirected. A
    recipient with a forwarding rule is answered from the rule alone, with its one
    target or with a temporary refusal, and a message forwarded before is never
    matched with the rules. *)
Theorem delivery_end_to_end `{!OsLaws, !SieveLaws} (sends : list bool) (m : DeliverMetadata)
    (l : list (received DeliverMetadata)) (n n' : net W) (r : result DeliverResponse string) :
  numbered (n_log n) → proxy_Deliver sends (RMeta m :: l) n = (r, n') →
  ∃ nl nw, n_log n' = n_log n ++ nl ∧ n_writes n' = n_writes n ++ nw ∧
    left_over (n_log n') = ((left_over (n_log n)).1, refused nl ∪ (left_over (n_log n)).2) ∧
    (nw ≠ [] → delivered_by m (disk_after m n) nl ∧ drainDeliverStream l = true) ∧
    (∀ resp, r = Ok resp → honest m l (disk_after m n) nw resp) ∧
    (∀ targets, forward_of m n = Some targets → nl = [] ∧ nw = [] ∧
       ∀ resp, r = Ok resp →
         (∃ t, targets = [t] ∧ resp = mkResponse ResultRedirected false "" [t] "") ∨
         ((2 <= length targets)%nat ∧ Result resp = ResultRejected ∧ Temporary resp = true)) ∧
    (dm_Forwarded m = true → n_provider n' = n_provider n).
Proof.
  intros Hn. unfold SmServices.proxy_Deliver.
  set (x := if dm_Forwarded m then (None, n_provider n, n_disk n) else _).
  assert (x = (forward_of m n, x.1.2, disk_after m n) ∧ (dm_Forwarded m = true → x.1.2 = n_provider n)) as [-> Hps].
  { unfold x, forward_of, disk_after. destruct (dm_Forwarded m); [done|].
    by destruct (ResolveForward _ _ _ _) as [[? ?] ?]. }
  generalize (x.1.2), Hps. clear x Hps. intros ps Hps. set (d := disk_after m n). destruct (forward_of m n) as [targets|] eqn:Ef.
  { by apply forwarded_delivery. }
  cbn [n_disk n_log n_store n_rand n_provider n_writes n_metrics].
  destruct (DeliverySession _ _ _ _ _) as [[r1 d1] [log [[cd w] rnd]]] eqn:Ed.
  pose proof Ed as Esv. apply DeliverySession_effect in Ed as (nl & Hl & He); [|done]. cbn [fst] in Hl, He.
  destruct r1 as [p|e]; cycle 1.
  { intros [= <- <-]. exists nl, []. rewrite app_nil_r. by split_and!. }
  destruct He as [Hb Hcl].
  destruct (match pr_proc p with Serving sg => _ | Exit _ => _ end) as [a n2] eqn:Ea. intros [= <- <-].
  assert ((n_log n2 = log ∧ n_provider n2 = ps) ∧ ∃ nw, n_writes n2 = n_writes n ++ nw ∧
    (drainDeliverStream l = false → nw = []) ∧ ∀ resp, a = Ok resp → honest m l d nw resp) as ([Hl2 Hp2] & nw & Hw & Hdr & Ha).
  { destruct (pr_proc p) as [code|sg] eqn:Ep; [injection Ea as <- <-; split; [done|]; exists []; by rewrite app_nil_r|].
    eapply relay_spec in Ea; [exact Ea|]. by eapply DeliverySession_serves; [|exact Esv|]. }
  destruct (Hcl (cleanup p (n_log n2, ())).1) as (new' & Hlog & Hlo); [by exists (); rewrite Hl2|].
  exists (nl ++ new'), nw. split; [exact Hlog|]. split; [exact Hw|]. split; [exact Hlo|]. split_and!; try done.
  - intros Hne. split; [|by destruct (drainDeliverStream l); [|destruct Hne; apply Hdr]].
    destruct Hb as (pid & c & lp & dn & creds & dir & Hin & Hb). exists pid, c, lp, dn, creds, dir.
    split; [by apply elem_of_app; left|done].
  - intros Hf. cbn [n_provider set_log]. rewrite Hp2. by apply Hps.
Qed.
End EndToEnd.

(** ** Submission to the queue *)
Record EnvelopeMetadata := mkSubmission { em_Sender : string; em_Recipients : list string; em_Msgid : string }.
Inductive enqErr :=
| ERecvMeta | ENotMeta | ENoSender | ENoRecipient | ERecvBody | EMetaInBody | EQueue (e : qerr).

Fixpoint trim_lt (s : string) : string :=
  match s with String c r => if Ascii.eqb c "<" then trim_lt r else s | "" => "" end.
Fixpoint trim_gt (s : string) : string :=
  match s with
  | "" => ""
  | String c r => match trim_gt r with "" => if Ascii.eqb c ">" then "" else String c "" | r => String c r end
  end.
Definition splitSenderAddress (addr : string) : string * string :=
  let addr := trim_gt (trim_lt addr) in
  match cut_last "@" addr with Some (l, d) => (l, d) | None => (addr, "unknown") end.
Definition extractSenderDomain (addr : string) : string := (splitSenderAddress addr).2.

(** The body chunks up to the end of the stream. *)
Fixpoint submitted_body {M} (l : list (received M)) : result string enqErr :=
  match l with
  | [] => Ok ""
  | RFails :: _ => Err ERecvBody
  | RMeta _ :: _ => Err EMetaInBody
  | RData d :: l => match submitted_body l with Ok b => Ok (d +:+ b) | Err e => Err e end
  end.

(** *** DKIM signatures (queue/dkim.go)

    [dkim.Sign] of the third-party library reads a message and writes its signed
    version. *)
Record SignOptions := mkSignOptions {
  so_Domain : string; so_Selector : string; so_Signer : string; so_HeaderKeys : list string;
}.
Class DkimSign := dkim_Sign : SignOptions → Queue.reader → option string.
(** It succeeds only on a message it could read to its end, and puts the field
    [DKIM-Signature] in front of the original. *)
Class DkimSignLaws `{DkimSign} : Prop := dkim_Sign_prepends : ∀ o r out,
  dkim_Sign o r = Some out → r_fails r = false ∧ ∃ field, out = "DKIM-Signature: " +:+ field +:+ crlf +:+ r_data r.

Section Outbound.
Context `{UnicodeCase, EnvelopeJson, TomlConfig, DkimKeys, DkimSign}.

Definition sign_options (domain selector key : string) : SignOptions :=
  mkSignOptions domain selector key
    ["From"; "To"; "Subject"; "Date"; "Message-ID"; "MIME-Version"; "Content-Type"].
Definition SignDKIM (domain selector key : string) (msg : Queue.reader) : option Queue.reader :=
  (λ buf, Queue.mkReader buf false) <$> dkim_Sign (sign_options domain selector key) msg.
Record DKIMKey := mkDKIMKey { k_Selector : string; k_Key : string }.
Definition NewDKIMSigner (keys : gmap string DKIMKey) : option (string → Queue.reader → option Queue.reader) :=
  if decide (keys = ∅) then None
  else Some (λ senderDomain msg,
    match keys !! senderDomain with
    | None => Some msg
    | Some dk => SignDKIM senderDomain (k_Selector dk) (k_Key dk) msg
    end).

(** [dkim.LoadDKIMKey]: selector and key, [None] without one. *)
Definition LoadDKIM (domainsPath domainName : string) : io derr (option (string * string)) := λ w,
  let domainDir := Join [domainsPath; domainName] in
  match LoadDomainConfig (Join [domainDir; "config.toml"]) w with
  | (Err _, w) => (Ok None, w)
  | (Ok cfg, w) =>
      let k := cfg_DKIM cfg in
      if decide (Selector k = "" ∨ PrivateKeyPath k = "") then (Ok None, w)
      else
        let keyPath := if HasPrefix (PrivateKeyPath k) "/" then PrivateKeyPath k
                       else Join [domainDir; PrivateKeyPath k] in
        match LoadDKIMKey keyPath w with
        | (Err e, w) => (Err e, w)
        | (Ok key, w) => (Ok (Some (Selector k, key)), w)
        end
  end.

(** The queue's configuration for one sender. *)
Definition signing (cfg : QConfig) (key : result (option (string * string)) derr) : QConfig :=
  match key with
  | Ok (Some (selector, key)) =>
      mkQConfig (q_Owner cfg) (q_MessageTTL cfg) (q_Hostname cfg)
        (Some (λ domain msg, SignDKIM domain selector key msg))
  | _ => cfg
  end.
Definition Enqueue (cfg : QConfig) (domainsPath : string) (entropy : option string)
    (l : list (received EnvelopeMetadata)) (d : folder) (q : disk) : result string enqErr * folder * disk :=
  match l with
  | [] | RFails :: _ => (Err ERecvMeta, d, q)
  | RData _ :: _ => (Err ENotMeta, d, q)
  | RMeta m :: l =>
      if decide (em_Sender m = "") then (Err ENoSender, d, q)
      else if decide (em_Recipients m = []) then (Err ENoRecipient, d, q)
      else match submitted_body l with
      | Err e => (Err e, d, q)
      | Ok body =>
          let '(key, d) := LoadDKIM domainsPath (extractSenderDomain (em_Sender m)) d in
          match Write (signing cfg key) entropy (em_Sender m) (em_Recipients m) (em_Msgid m)
                  (Queue.mkReader body false) q with
          | (Err e, q) => (Err (EQueue e), d, q)
          | (Ok msgid, q) => (Ok msgid, d, q)
          end
      end
  end.
End Outbound.

(** ** The socket and the owner of the queue *)
(** [user.Lookup] and [user.LookupGroup]: the texts of uid and gid. *)
Class Accounts := { user_Lookup : string → option (string * string); user_LookupGroup : string → option string }.
Section Access.
Context `{Accounts}.
Definition resolveQueueOwner (name : string) : option Owner :=
  match user_Lookup name with
  | None => None
  | Some (u, g) =>
      match Atoi u, Atoi g with Some uid, Some gid => Some (mkOwner uid gid) | _, _ => None end
  end.
Definition resolveGID (name : string) : option Z := user_LookupGroup name ≫= Atoi.
(** The owner's group, if it changed, and the mode of the socket; [None] for an
    error. [chown_ok], [chmod_ok] are the outcomes of the calls. *)
Definition applySocketAccess (socketGroup : string) (euid : Z) (chown_ok chmod_ok : bool) : option (option Z * Z) :=
  let finish g mode := if chmod_ok : bool then Some (g, mode) else None in
  if decide (socketGroup = "") then finish None 384
  else match resolveGID socketGroup with
       | None => finish None 384
       | Some gid =>
           if decide (euid ≠ 0) then finish None 384
           else if chown_ok then finish (Some gid) 504 else None
       end.
(** The socket is opened to a group only when it has been given to that group. *)
Lemma socket_never_wider g euid a b r :
  applySocketAccess g euid a b = Some r →
  r = (None, 384) ∨ ∃ gid, resolveGID g = Some gid ∧ euid = 0 ∧ a = true ∧ r = (Some gid, 504).
Proof.
  unfold applySocketAccess. cbv zeta.
  destruct b; [|destruct (decide (g = "")); [done|]; destruct (resolveGID g); [|done];
    destruct (decide (euid ≠ 0)); [done|]; by destruct a].
  case_decide; [intros [= <-]; by left|]. destruct (resolveGID g) as [gid|]; [|intros [= <-]; by left].
  case_decide as He; [intros [= <-]; by left|]. destruct a; [|done]. intros [= <-]. right. exists gid.
  split_and!; auto; lia.
Qed.
End Access.

(** ** On the maildir of [Maildir] *)
Module ServicesDemo.
Import MdDemo ToyBox TomlDemo DeliverDemo Identity.Decoder.
#[export] Instance demo_os : Os := {|
  os_MkdirTemp l := Some (fresh (A := string) (left_over l).2);
  os_ok _ _ := true; os_slow _ := false |}.
#[export] Instance demo_os_laws : OsLaws.
Proof. intros l d [= <-]. apply is_fresh. Qed.
#[export] Instance demo_keys : KeyJson := {|
  key_encode _ k := "1" +:+ k; key_decode s := match s with String "1" k => Some (1, k) | _ => None end |}.
#[export] Instance demo_keys_laws : KeyJsonLaws.
Proof. done. Qed.
#[export] Instance demo_duration : GoDuration := λ s, if decide (s = "30s") then Some (30 * 10 ^ 9) else None.

Definition entry (k v : string) : string := String DQ (k +:+ String DQ (" = " +:+ v)).
Definition etc : folder := mkFolder (list_to_map
  [("/etc/mail/gid.toml", entry "example.com" "10000"); ("/etc/mail/example.com/uid.toml", entry "alice" "10001");
   ("/etc/mail/example.com/passwd", unlines LF ["alice:x:alice:10001"]);
   ("/etc/mail/example.com/forwards", "old: alice@example.net")]) [].
Definition is_dir (p : string) : bool := bool_decide (p = "/etc/mail/example.com").
Definition hosted : provider := mkProvider "/etc/mail" "/data" (Some deliver_defaults) None ∅ None ∅.
Definition scfg : smConfig := mkSmConfig "/etc/mail" "/data" "/usr/bin/mail-session".
Definition open_box (c : StoreConfig) : MailStore (Maildir.world box) := maildir_store (layout_of c) (λ _, []) true.
Definition boot : net (Maildir.world box) := mkNet etc (Some hosted) [] (Maildir.mkWorld ∅ ∅ ∅ ∅ 0) [] [] [].
Definition to_ (rcpt : string) (fwd : bool) : DeliverMetadata := mkMetadata "bob@y.org" rcpt "" "" fwd "" "m1" None.
Definition send (m : DeliverMetadata) : result DeliverResponse string * net (Maildir.world box) :=
  proxy_Deliver scfg is_dir None None 0 open_box (λ _, None) (λ _, true) [] [] [RMeta m; RData "hello"] boot.
Definition check_rcpt (a : string) := (ValidateRecipient is_dir None a (Some hosted) etc).1.1.
End ServicesDemo.

Section ServicesRuns.
Import MdDemo ToyBox TomlDemo DeliverDemo Identity.Decoder ServicesDemo.
Notation M := (Maildir.world box).

Lemma delivery_end_to_end_witness :
  let '(r, n) := send (to_ "alice@example.com" false) in
  r = Ok (mkResponse ResultDelivered false "" [] "INBOX") ∧ wr_data <$> n_writes n = ["hello"] ∧
  (left_over (n_log n)).1 = ∅.
Proof.
  destruct (send (to_ "alice@example.com" false)) as [r n] eqn:E.
  assert (r = Ok (mkResponse ResultDelivered false "" [] "INBOX")) as Hr
    by (apply (f_equal fst) in E; simpl in E; rewrite <- E; vm_compute; reflexivity).
  assert (wr_data <$> n_writes n = ["hello"]) as Hw
    by (apply (f_equal snd) in E; simpl in E; rewrite <- E; vm_compute; reflexivity).
  split; [exact Hr|]. split; [exact Hw|].
  assert (numbered (n_log boot)) as Hn by (intros i p c Hi; by destruct i).
  destruct (delivery_end_to_end scfg is_dir None None 0 open_box (λ _, None) (λ _, true) [] []
    (to_ "alice@example.com" false) [RData "hello"] boot n r Hn E) as (nl & nw & _ & _ & Hl & _).
  rewrite Hl. reflexivity.
Defined.

(** A login of alice with her private key. *)
Definition login : Spawn.start := Daemon "alice@example.com" "alice@example.com" (zeros 32).
Definition serve_exec := exec 0 open_box (λ _, None) (λ _, true).
Definition started_login := run_start serve_exec scfg login etc ([], (etc, Maildir.mkWorld ∅ ∅ ∅ ∅ 0, [])).
Lemma spawn_contained_witness :
  ∃ new, started_login.2.1 = [] ++ new ∧
    (∀ pid c, OStart pid c ∈ new → Allocatable (cm_uid c) = true ∧ Allocatable (cm_gid c) = true) ∧
    length new = 3%nat.
Proof.
  destruct started_login as [[r d] h] eqn:E.
  assert (numbered (@nil os_event)) as Hn by (intros i p c Hi; by destruct i).
  destruct (spawn_contained serve_exec scfg login etc d ([], (etc, Maildir.mkWorld ∅ ∅ ∅ ∅ 0, [])) h r Hn E)
    as (new & Hh & _ & Hs & _).
  exists new. split; [exact Hh|]. split.
  - intros pid c Hi. destruct (Hs pid c Hi) as (l & dn & creds & dir & _ & _ & Hu & Hg & (Eu & Eg & _) & _).
    rewrite Eu, Eg. split; [exact Hu|exact Hg].
  - apply (f_equal (λ x, length x.2.1)) in E. change (h.1 = new) in Hh. cbn [snd] in E. rewrite Hh in E.
    rewrite <- E. vm_compute. reflexivity.
Defined.

(** *** Accepted and never delivered

    A recipient with an extension, and one whose domain is written in capitals,
    are confirmed while the client is connected; the delivery looks the whole
    local part and the domain up as written, and fails every time. *)
Lemma subaddress_undeliverable :
  check_rcpt "alice+lists@example.com" = Ok (true, true, false) ∧
  (send (to_ "alice+lists@example.com" false)).1 = Err "credential lookup".
Proof. by vm_compute. Qed.
Lemma capital_domain_undeliverable :
  check_rcpt "alice@Example.COM" = Ok (true, true, false) ∧
  (send (to_ "alice@Example.COM" false)).1 = Err "credential lookup".
Proof. by vm_compute. Qed.
(** Nor can a user who logs in with an extension be given a session. *)
Lemma subaddress_login_fails :
  (run_start serve_exec scfg (Daemon "alice+work@example.com" "alice@example.com" "") etc
     ([], (etc, Maildir.mkWorld ∅ ∅ ∅ ∅ 0, []))).1.1 = Err (BadCredentials (CredUID ErrNoUID)).
Proof. by vm_compute. Qed.

(** A rescan interval of zero is documented to disable rescans. *)
Lemma zero_rescan_not_disabled :
  parseDurationOrDisable "0" = Some 0 ∧ rescanInterval (NewServer 1 0 0) = 30 * 10 ^ 9.
Proof. done. Qed.
End ServicesRuns.

(** ** Submissions *)
Section SubmissionFacts.
Context `{UnicodeCase, EnvelopeJson, TomlConfig, DkimKeys, DkimSign}.
(** A bounce, whose sender is empty, cannot be queued: forwarding one to another
    host fails every time. *)
Lemma null_sender_refused cfg path ent rcpts id l d q :
  Enqueue cfg path ent (RMeta (mkSubmission "" rcpts id) :: l) d q = (Err ENoSender, d, q).
Proof. done. Qed.
(** The loader is said to treat a missing configuration as "no key"; it treats
    one it cannot read or parse alike, and the message leaves unsigned. *)
Lemma broken_config_unsigned cfg path domain e d d' :
  LoadDomainConfig (Join [Join [path; domain]; "config.toml"]) d = (Err e, d') →
  signing cfg (LoadDKIM path domain d).1 = cfg.
Proof. intros E. unfold LoadDKIM. cbv zeta. by rewrite E. Qed.
End SubmissionFacts.
(** The key is looked up under the domain as the sender writes it, the queue and
    the signature use it in lower case: capitals leave a message unsigned. *)
Lemma sender_domain_case :
  let c : UnicodeCase := MdDemo.demo_case in
  extractSenderDomain "alice@Example.com" = "Example.com" ∧ Queue.extractDomain "alice@Example.com" = "example.com".
Proof. by vm_compute. Qed.
