(* ===== verification/StreamClients.v ===== *)
(** * The clients of the delivery and submission services

    [src/internal/smtpd/smtp/smdeliver.go] (smtpd's agent),
    [src/internal/queue-manager/delivery/client.go] (bounces) and
    [src/internal/mail-session/client/delivery.go]: opening a stream, sending the
    metadata and the message in chunks, and reading the answer; composed with the
    submission service of [SmServices] and the queue of [Queue]. *)
From stdpp Require Import fin_sets infinite.
From S2P Require Import Prelude GoStrings FilePath QueueFs Queue.
From S2P Require Import UidList Disk Identity Keyring Passwd PeerGate AuthLimit Forwards MsgStore Maildir Domain.
From S2P Require Import SpamCheck SmtpSession MsgCrypt MailSession Deliver Spawn SmServices.
From Stdlib Require Import ZArith Lia Ascii.
Open Scope string_scope.
Open Scope list_scope.
Open Scope Z_scope.

(** ** Reading the message *)
(** What a call of [Read] returns: bytes, and nothing, the end or an error. *)
Inductive read_end := ReadMore | ReadEOF | ReadFails.
(** The message a reader gives, [None] when reading fails; a reader that is asked
    again after its last bytes is at its end. *)
Fixpoint message_of (reads : list (string * read_end)) : option string :=
  match reads with
  | [] => Some ""
  | (d, ReadEOF) :: _ => Some d
  | (_, ReadFails) :: _ => None
  | (d, ReadMore) :: reads => (λ m, d +:+ m) <$> message_of reads
  end.

(** ** A stream of one call *)
(** How the stream fares: whether it opens, the fate of every message sent
    (success when the list is exhausted), how many messages the server has seen
    when the stream breaks, whether the answer arrives. *)
Record fate := mkFate { f_open : bool; f_sends : list bool; f_seen : nat; f_answer : bool }.
Inductive streamErr := EOpen | ESendMeta | ESendBody | EReadMessage | EClose.
Inductive body_end := BodySent | SendBroken | ReadBroken.

Section Stream.
Context {M S R E : Type} (server : list (received M) → S → result R E * S).

(** The loop over [Read]: what was sent, and how it ended. *)
Fixpoint send_body (sends : list bool) (reads : list (string * read_end)) : list (received M) * body_end :=
  match reads with
  | [] => ([], BodySent)
  | (d, e) :: reads =>
      let go sends := match e with
        | ReadEOF => ([], BodySent)
        | ReadFails => ([], ReadBroken)
        | ReadMore => send_body sends reads
        end in
      if decide (d = "") then go sends
      else if default true (head sends) then let '(xs, b) := go (tail sends) in (RData d :: xs, b)
      else ([], SendBroken)
  end.
(** A stream that is left open or breaks ends in an error for the server, whose
    answer is lost. *)
Definition broken (seen : nat) (l : list (received M)) (s : S) : S := (server (take seen l ++ [RFails]) s).2.
Definition call_stream (f : fate) (meta : M) (reads : list (string * read_end)) (s : S) : result R streamErr * S :=
  if negb (f_open f) then (Err EOpen, s)
  else if negb (default true (head (f_sends f))) then (Err ESendMeta, broken 0 [] s)
  else
    let '(xs, b) := send_body (tail (f_sends f)) reads in
    match b with
    | SendBroken => (Err ESendBody, broken (f_seen f) (RMeta meta :: xs) s)
    | ReadBroken => (Err EReadMessage, broken (f_seen f) (RMeta meta :: xs) s)
    | BodySent =>
        let '(r, s) := server (RMeta meta :: xs) s in
        match r with
        | Ok a => if f_answer f then (Ok a, s) else (Err EClose, s)
        | Err _ => (Err EClose, s)
        end
    end.
End Stream.

(** A body in memory, in pieces of 64 KiB. *)
Definition chunkSize : nat := Z.to_nat 65536.
Fixpoint chunks (fuel : nat) (body : string) : list (string * read_end) :=
  match fuel with
  | O => []
  | S fuel => if decide (body = "") then [] else (stake chunkSize body, ReadMore) :: chunks fuel (sdrop chunkSize body)
  end.

(** The answer as it comes over the wire: a result code may be none of the three
    that the server of this version sends. *)
Record wireResponse := mkWire { w_known : bool; w_resp : DeliverResponse }.
Definition w_result (w : wireResponse) : option DeliverResult := if w_known w then Some (Result (w_resp w)) else None.

(** ** smtpd's agent *)
Section Agent.
Context `{Scores} (print_score : score → string).
Definition spamVerdictProto (r : option CheckResult) : option SpamVerdict :=
  (λ r, mkVerdict (IsSpam r) (print_score (Score r)) (Headers r)) <$> r.

Section Delivering.
Context {S E : Type} (delivery : list (received DeliverMetadata) → S → result wireResponse E * S).
Inductive agentErr :=
| AStream (e : streamErr) | ARejected (code reason : string) | ARedirect (addrs : list string) (temporary : bool) | AUnknown.
Definition deliver_answer (w : wireResponse) : result string agentErr :=
  let resp := w_resp w in
  match w_result w with
  | Some ResultDelivered => Ok (dr_Folder resp)
  | Some ResultRejected => Err (ARejected (if Temporary resp then "451" else "550") (Reason resp))
  | Some ResultRedirected => Err (ARedirect (RedirectAddresses resp) (Temporary resp))
  | None => Err AUnknown
  end.
(** [receivedTime]: the formatted time, [None] for the zero time. *)
Definition agent_Deliver (f : fate) (sender recipient clientIP clientHostname : string) (receivedTime : option string)
    (forwarded : bool) (msgid : string) (spamVerdict : option CheckResult) (reads : list (string * read_end)) (s : S)
    : result string agentErr * S :=
  let meta := mkMetadata sender recipient clientIP clientHostname forwarded (default "" receivedTime) msgid
                (spamVerdictProto spamVerdict) in
  match call_stream delivery f meta reads s with
  | (Err e, s) => (Err (AStream e), s)
  | (Ok resp, s) => (deliver_answer resp, s)
  end.
(** What the session makes of it. *)
Definition as_deliver_result (r : result string agentErr) : deliver_result :=
  match r with
  | Ok folder => Delivered folder
  | Err (ARedirect addrs _) => Redirected addrs
  | Err _ => DeliverFailed
  end.
End Delivering.

Section Submitting.
Context {S E : Type} (outbound : list (received EnvelopeMetadata) → S → result string E * S).
Definition agent_Enqueue (f : fate) (sender : string) (recipients : list string) (msgid : string)
    (reads : list (string * read_end)) (s : S) : result string streamErr * S :=
  call_stream outbound f (mkSubmission sender recipients msgid) reads s.
End Submitting.

(** [NewSessionManagerDeliveryAgent]: the target and whether it is reached with
    certificates; reading these and connecting may fail. *)
Definition NewSessionManagerDeliveryAgent (socket address : string) (tls_ok dial_ok : bool) : result (string * bool) string :=
  if decide (socket ≠ "") then
    if dial_ok then Ok ("unix://" +:+ socket, false) else Err "dial"
  else if decide (address ≠ "") then
    if negb tls_ok then Err "session-manager mTLS" else if dial_ok then Ok (address, true) else Err "dial"
  else Err "socket or address required".
(** [buildClientTLS]: the certificates of the authority and of the client. *)
Definition buildClientTLS (ca_pem : option string) (has_cert : string → bool) (key_pair : option string) : result (string * string) string :=
  match ca_pem with
  | None => Err "read CA cert"
  | Some pem =>
      if negb (has_cert pem) then Err "CA cert contains no valid certificates"
      else match key_pair with None => Err "load client cert" | Some kp => Ok (kp, pem) end
  end.
End Agent.

(** ** Bounces *)
Section Bounces.
Context {S E : Type} (delivery : list (received DeliverMetadata) → S → result wireResponse E * S).
Inductive dsnErr := DStream (e : streamErr) | DRejected (reason : string) (temporary : bool).
Definition DeliverDSN (f : fate) (recipient body : string) (s : S) : result unit dsnErr * S :=
  let meta := mkMetadata "" recipient "127.0.0.1" "queue-manager" false "" "" None in
  match call_stream delivery f meta (chunks (String.length body) body) s with
  | (Err e, s) => (Err (DStream e), s)
  | (Ok w, s) =>
      (if decide (w_result w = Some ResultDelivered) then Ok ()
       else Err (DRejected (Reason (w_resp w)) (Temporary (w_resp w))), s)
  end.
(** [DeliveryClient.Deliver]: the result keeps its zero value, which is that of a
    delivery, when the code is not known. *)
Definition client_Deliver (f : fate) (sender recipient clientIP clientHostname : string) (forwarded : bool)
    (receivedTime : string) (reads : list (string * read_end)) (s : S)
    : result (DeliverResult * bool * string * list string) streamErr * S :=
  let meta := mkMetadata sender recipient clientIP clientHostname forwarded receivedTime "" None in
  match call_stream delivery f meta reads s with
  | (Err e, s) => (Err e, s)
  | (Ok w, s) =>
      (Ok (default ResultDelivered (w_result w), Temporary (w_resp w), Reason (w_resp w), RedirectAddresses (w_resp w)), s)
  end.
End Bounces.

(** ** What arrives *)
Section Arrives.
Context {M : Type}.
Implicit Types xs : list (received M).
Definition only_data xs : Prop := Forall (λ x, ∃ d, x = RData d) xs.
(** A body that is sent to its end is the message. *)
Lemma send_body_spec sends reads xs b : send_body sends reads = (xs, b) →
  only_data xs ∧ (b = BodySent → ∃ m, message_of reads = Some m ∧ submitted_body xs = Ok m) ∧
  (b = ReadBroken → message_of reads = None).
Proof.
  revert sends xs b. induction reads as [|[d e] reads IH]; intros sends xs b; cbn [send_body message_of].
  { intros [= <- <-]. split_and!; [constructor|by exists ""|done]. }
  assert (∀ sends xs b, match e with ReadEOF => ([], BodySent) | ReadFails => ([], ReadBroken) | ReadMore => send_body sends reads end = (xs, b) →
    only_data xs ∧
    (b = BodySent → ∃ m, message_of ((d, e) :: reads) = Some (d +:+ m) ∧ submitted_body xs = Ok m) ∧
    (b = ReadBroken → message_of ((d, e) :: reads) = None)) as Hgo.
  { clear sends xs b. intros sends xs b. cbn [message_of]. destruct e.
    - intros (H1 & H2 & H3)%IH. split_and!; [done|..]; intros E.
      + destruct (H2 E) as (m & -> & ?). by exists m.
      + by rewrite H3.
    - intros [= <- <-]. split_and!; [constructor|intros _; exists ""; by rewrite sapp_nil_r|done].
    - intros [= <- <-]. split_and!; [constructor|done|done]. }
  destruct (decide (d = "")) as [->|Hd].
  { intros (H1 & H2 & H3)%Hgo. split_and!; [done|intros E; destruct (H2 E) as (m & Hm & ?); by exists m|done]. }
  destruct (default true (head sends)); [|intros [= <- <-]; split_and!; [constructor|done|done]].
  match goal with |- context [let '(_, _) := ?x in _] => destruct x as [ys b'] eqn:E' end.
  apply Hgo in E' as (H1 & H2 & H3). intros [= <- <-]. split_and!; [constructor; [by eexists|done]| |done].
  intros E. destruct (H2 E) as (m & Hm & Hs). exists (d +:+ m). split; [exact Hm|]. cbn. by rewrite Hs.
Qed.
Lemma broken_body n xs : only_data xs → submitted_body (take n xs ++ [RFails]) = Err ERecvBody.
Proof.
  intros Hx. revert n. induction Hx as [|x xs [d ->] _ IH]; intros [|n]; cbn; [done..|]. by rewrite IH.
Qed.
End Arrives.
Lemma sdrop_len n s : String.length (sdrop n s) = (String.length s - n)%nat.
Proof. revert s. induction n as [|n IH]; intros [|c s]; cbn; [done..|apply IH]. Qed.
Lemma chunks_message fuel body : (String.length body ≤ fuel)%nat → message_of (chunks fuel body) = Some body.
Proof.
  revert body. induction fuel as [|fuel IH]; intros body Hf; cbn [chunks].
  { destruct body; [done|cbn in Hf; lia]. }
  destruct (decide (body = "")) as [->|Hb]; [done|]. cbn [message_of]. rewrite IH.
  - cbn. by rewrite stake_sdrop.
  - rewrite sdrop_len. destruct body as [|c body]; [done|]. assert (1 ≤ chunkSize)%nat by (unfold chunkSize; lia). cbn in *. lia.
Qed.
(** An answer means that the server has seen the metadata and the whole message. *)
Lemma call_stream_ok {M S R E} (server : list (received M) → S → result R E * S) f meta reads s a s' :
  call_stream server f meta reads s = (Ok a, s') → ∃ xs m,
    message_of reads = Some m ∧ submitted_body xs = Ok m ∧ server (RMeta meta :: xs) s = (Ok a, s').
Proof.
  unfold call_stream. destruct (f_open f); [|done]. destruct (default true (head (f_sends f))); [|done]. cbn [negb].
  destruct (send_body (tail (f_sends f)) reads) as [xs b] eqn:Eb. apply send_body_spec in Eb as (_ & Hs & _).
  destruct b; [|done..]. destruct (Hs eq_refl) as (m & Hm & Hx). destruct (server _ s) as [[a'|e] s1] eqn:Ev; [|done].
  destruct (f_answer f); [|done]. intros [= <- <-]. by exists xs, m.
Qed.
(** A bounce reported as delivered was handed over whole, with the null sender, and
    answered as delivered. *)
Lemma bounce_delivered {S E} (delivery : list (received DeliverMetadata) → S → result wireResponse E * S) f rcpt body s s' :
  DeliverDSN delivery f rcpt body s = (Ok (), s') → ∃ xs w,
    submitted_body xs = Ok body ∧ w_result w = Some ResultDelivered ∧
    delivery (RMeta (mkMetadata "" rcpt "127.0.0.1" "queue-manager" false "" "" None) :: xs) s = (Ok w, s').
Proof.
  unfold DeliverDSN. destruct (call_stream _ _ _ _ s) as [[w|e] s1] eqn:Ec; [|done].
  destruct (decide (w_result w = Some ResultDelivered)) as [Hw|]; [|done]. intros [= <-].
  apply call_stream_ok in Ec as (xs & m & Hm & Hx & Hd). rewrite chunks_message in Hm by done. simplify_eq. by exists xs, w.
Qed.

(** ** The queue after a submission that is acknowledged *)
Section Queued.
Context `{UnicodeCase, EnvelopeJson}.
(** Body and envelopes of a message, complete and in place. *)
Definition in_queue (cfg : QConfig) (from id hex body : string) (t : Z) (rcpts : list string) (q : disk) : Prop :=
  (∃ g, tree q !! body_path from hex = Some (File g) ∧ content g = body) ∧
  ∀ k rcpt, rcpts !! k = Some rcpt → ∃ g,
    tree q !! env_path rcpt hex (Z.of_nat k) = Some (File g) ∧ enc_env (Queue.mkEnvelope cfg from rcpt id t) = Some (content g).
Lemma write_envelopes_ok cfg from id hex t n rcpts w w' : 0 <= n →
  write_envelopes cfg from id hex t n rcpts w = (Ok (), w') →
  ∀ k rcpt, rcpts !! k = Some rcpt → ∃ g,
    tree w' !! env_path rcpt hex (n + Z.of_nat k) = Some (File g) ∧ enc_env (Queue.mkEnvelope cfg from rcpt id t) = Some (content g).
Proof.
  revert n w. induction rcpts as [|rcpt rest IH]; intros n w Hn; [done|]. cbn [write_envelopes].
  destruct (Queue.splitAddress rcpt) as [l d] eqn:Es. destruct (negb _ || negb _); [done|].
  destruct (mkdirAllOwned _ _ w) as [[[]|e] w1]; [|done].
  destruct (match enc_env _ with Some s => (s, true) | None => ("", false) end) as [data ok] eqn:Ed.
  pose proof (atomicWrite_spec (envDir d) (envDir d ++ [envName l hex n]) (q_Owner cfg) data ok w1) as Ha.
  destruct (atomicWrite _ _ _ _ _ w1) as [[[]|e] w2]; [|done]. destruct Ha as [_ Ha].
  destruct (Ha eq_refl) as (g & Hg & Hc & ->). intros E k r Hk. destruct k as [|k].
  - injection Hk as <-. rewrite Z.add_0_r. pose proof (write_envelopes_change cfg from id hex t (n + 1) rest w2) as Hch.
    rewrite E in Hch. exists g. split; [|destruct (enc_env _); simplify_eq; congruence].
    assert (env_path rcpt hex n = envDir d ++ [envName l hex n]) as Ep by (unfold env_path; by rewrite Es).
    rewrite Ep. destruct (change_keeps _ _ _ _ _ Hch Hg) as [?|(g' & _ & k & rc & _ & Epk & _)]; [done|].
    rewrite <- Ep in Epk. apply env_path_inj in Epk; lia.
  - destruct (IH (n + 1) w2 ltac:(lia) E k r Hk) as (g' & Hg' & He). exists g'. split; [|done].
    replace (n + Z.of_nat (S k)) with (n + 1 + Z.of_nat k) by lia. done.
Qed.
Lemma Write_ok cfg entropy from rcpts preset body w id w' :
  Queue.Write cfg entropy from rcpts preset body w = (Ok id, w') → ∃ hex text,
    assign_msgid entropy (Queue.extractDomain from) preset = Ok (id, hex) ∧
    body_reader cfg (Queue.extractDomain from) id body = Some (Queue.mkReader text false) ∧
    in_queue cfg from id hex text (time_Now w).1 rcpts w'.
Proof.
  unfold Queue.Write. destruct (negb (validAddressComponent _)); [done|].
  destruct (assign_msgid _ _ _) as [[id' hex]|e]; [|done]. destruct (time_Now w) as [t w0].
  destruct (body_reader _ _ _ _) as [r|] eqn:Er; [|done]. destruct (mkdirAllOwned _ _ w0) as [[[]|e] w1]; [|done].
  pose proof (atomicWrite_spec (msgDir (Queue.extractDomain from)) (body_path from hex) (q_Owner cfg) (r_data r)
    (negb (r_fails r)) w1) as Ha.
  fold (body_path from hex). destruct (atomicWrite _ _ _ _ _ w1) as [[[]|e] w2]; [|done]. destruct Ha as [_ Ha].
  destruct (Ha eq_refl) as (g & Hg & Hc & Hf). pose proof (write_envelopes_change cfg from id' hex t 0 rcpts w2) as Hch.
  destruct (write_envelopes _ _ _ _ _ _ _ w2) as [[[]|e] w3] eqn:Ew; [|done]. intros [= <- <-].
  exists hex, (r_data r). split; [done|]. split.
  { rewrite Er. destruct r. cbn in *. by apply negb_true_iff in Hf as ->. }
  split.
  - exists g. split; [|done]. destruct (change_keeps _ _ _ _ _ Hch Hg) as [?|(g' & _ & k & rc & _ & E & _)]; [done|].
    apply (f_equal head) in E. by rewrite body_path_head, env_path_head in E.
  - intros k rcpt Hk. exact (write_envelopes_ok _ _ _ _ _ 0 _ _ _ (Z.le_refl 0) Ew k rcpt Hk).
Qed.
End Queued.

Section Submission.
Context `{UnicodeCase, EnvelopeJson, TomlConfig, DkimKeys, DkimSign}.
Context (cfg : QConfig) (domainsPath : string) (entropy : option string).
(** The submission service over the files of the domains and the queue. *)
Definition queue_server (l : list (received EnvelopeMetadata)) (s : folder * disk) : result string enqErr * (folder * disk) :=
  let '(r, d, q) := Enqueue cfg domainsPath entropy l s.1 s.2 in (r, (d, q)).
Lemma queue_server_broken n m xs s : only_data xs → broken queue_server n (RMeta m :: xs) s = s.
Proof.
  intros Hx. destruct s as [d q]. unfold broken, queue_server. destruct n as [|n]; cbn [take app fst snd]; [done|].
  cbn [Enqueue]. destruct (decide (em_Sender m = "")); [done|]. destruct (decide (em_Recipients m = [])); [done|].
  by rewrite broken_body.
Qed.
(** What is to be queued of the message [text] under [id], by a sender whose domain
    has the key [key]: its Message-ID field and the text, signed if there is a key. *)
Definition to_be_queued (key : result (option (string * string)) derr) (sender id text body : string) : Prop :=
  let plain := Message_ID_header id +:+ text in
  match key with
  | Ok (Some (selector, k)) =>
      dkim_Sign (sign_options (Queue.extractDomain sender) selector k) (Queue.mkReader plain false) = Some body ∧
      ∃ field, body = "DKIM-Signature: " +:+ field +:+ crlf +:+ plain
  | _ => body = plain
  end.
Lemma body_reader_queued `{!DkimSignLaws} key sender id text body :
  DKIMSign cfg = None →
  body_reader (signing cfg key) (Queue.extractDomain sender) id (Queue.mkReader text false) = Some (Queue.mkReader body false) →
  to_be_queued key sender id text body.
Proof.
  intros Hn. unfold body_reader, to_be_queued, signing.
  destruct key as [[[selector k]|]|e]; cbn [DKIMSign]; [|rewrite Hn; by intros [= <-]..].
  unfold SignDKIM. destruct (dkim_Sign _ _) as [out|] eqn:Es; [|done]. cbn. intros [= <-]. split; [done|].
  apply dkim_Sign_prepends in Es as [_ Hf]. exact Hf.
Qed.
Lemma in_queue_signing key from id hex body t rcpts q :
  in_queue (signing cfg key) from id hex body t rcpts q → in_queue cfg from id hex body t rcpts q.
Proof. by destruct key as [[[? ?]|]|]. Qed.
Lemma queue_server_ok `{!DkimSignLaws} m xs text d q id s' : DKIMSign cfg = None → submitted_body xs = Ok text →
  queue_server (RMeta m :: xs) (d, q) = (Ok id, s') → ∃ hex body,
    assign_msgid entropy (Queue.extractDomain (em_Sender m)) (em_Msgid m) = Ok (id, hex) ∧
    to_be_queued (LoadDKIM domainsPath (extractSenderDomain (em_Sender m)) d).1 (em_Sender m) id text body ∧
    in_queue cfg (em_Sender m) id hex body (time_Now q).1 (em_Recipients m) s'.2.
Proof.
  intros Hns Ht. unfold queue_server. cbn [Enqueue fst snd]. destruct (decide (em_Sender m = "")); [done|].
  destruct (decide (em_Recipients m = [])); [done|]. rewrite Ht.
  destruct (LoadDKIM _ _ d) as [key d1]. destruct (Queue.Write _ _ _ _ _ _ q) as [[id'|e] q'] eqn:Ew; [|done].
  intros [= <- <-]. apply Write_ok in Ew as (hex & body & Ha & Hb & Hq). exists hex, body.
  split_and!; [done|by apply body_reader_queued|by eapply in_queue_signing].
Qed.

(** C36 No submission is acknowledged and lost. When smtpd's agent gets an id for a
    submission, whatever failed on the stream and on the disks, the queue holds
    under that id the whole message that was read behind its Message-ID field, with
    a signature in front of it made with the key that the sender's domain has on
    disk, or as it is where none can be loaded, and a complete envelope for every
    recipient; and when the message could not be read to its end, the agent reports
    an error and the queue is as it was. The library's signer puts its field in
    front of the message; session-manager's queue has no other signer. *)
Theorem submission_queued `{!DkimSignLaws} f sender recipients msgid reads d q r d' q' :
  DKIMSign cfg = None →
  agent_Enqueue queue_server f sender recipients msgid reads (d, q) = (r, (d', q')) →
  (∀ id, r = Ok id → ∃ text hex body,
     message_of reads = Some text ∧
     assign_msgid entropy (Queue.extractDomain sender) msgid = Ok (id, hex) ∧
     to_be_queued (LoadDKIM domainsPath (extractSenderDomain sender) d).1 sender id text body ∧
     in_queue cfg sender id hex body (time_Now q).1 recipients q') ∧
  (message_of reads = None → is_ok r = false ∧ q' = q).
Proof.
  intros Hns. unfold agent_Enqueue, call_stream. destruct (f_open f); cbn [negb]; [|by intros [= <- <- <-]].
  destruct (default true (head (f_sends f))); cbn [negb].
  2:{ cbn. by intros [= <- <- <-]. }
  destruct (send_body (tail (f_sends f)) reads) as [xs b] eqn:Eb. apply send_body_spec in Eb as (Hx & Hsent & Hread).
  destruct b.
  - destruct (Hsent eq_refl) as (text & Hm & Hs). rewrite Hm.
    destruct (queue_server _ _) as [[id|e] s'] eqn:Eq.
    + eapply queue_server_ok in Eq as (hex & body & Hq); [|done|exact Hs]. cbn in Hq.
      destruct (f_answer f); intros [= <- ->]; (split; [|done]); intros id' [= <-]. by exists text, hex, body.
    + by intros [= <- _].
  - rewrite queue_server_broken by done. by intros [= <- <- <-].
  - rewrite queue_server_broken by done. by intros [= <- <- <-].
Qed.
End Submission.

(** ** Examples *)
Section StreamWitnesses.
Import MdDemo ToyBox TomlDemo DeliverDemo Identity.Decoder ServicesDemo.
#[local] Existing Instance QDemo.demo_json.
Definition s_fate : fate := mkFate true [] 0 true.
#[local] Instance s_sign : DkimSign := λ o r,
  if r_fails r then None else Some ("DKIM-Signature: " +:+ so_Domain o +:+ crlf +:+ r_data r).
#[local] Instance s_sign_laws : DkimSignLaws.
Proof. intros o r out. unfold dkim_Sign, s_sign. destruct (r_fails r); [done|]. intros [= <-]. eauto. Qed.
Definition s_reads : list (string * read_end) := [("hel", ReadMore); ("", ReadMore); ("lo", ReadEOF)].
Definition s_rcpts : list string := ["bob@mail.example.com"; "eve@example.net"].
Definition s_run := agent_Enqueue (queue_server QDemo.cfg "/etc/mail" None) s_fate "ann@example.org" s_rcpts QDemo.id32 s_reads (etc, QDemo.empty).
Lemma submission_queued_witness :
  s_run.1 = Ok (QDemo.id32 +:+ "@example.org") ∧
  ∃ text, message_of s_reads = Some text ∧ text = "hello".
Proof.
  assert (s_run.1 = Ok (QDemo.id32 +:+ "@example.org")) as E by (vm_compute; reflexivity). split; [exact E|].
  destruct (submission_queued QDemo.cfg "/etc/mail" None s_fate "ann@example.org" s_rcpts QDemo.id32 s_reads etc QDemo.empty
    s_run.1 s_run.2.1 s_run.2.2) as [H1 _].
  { reflexivity. }
  { fold s_run. destruct s_run as [? [? ?]]. reflexivity. }
  destruct (H1 _ E) as (text & hex & body & Ht & _). exists text. split; [exact Ht|].
  vm_compute in Ht. injection Ht as <-. reflexivity.
Defined.
(** A submitter whose address is forwarded gets no bounce: the answer to forward
    it is taken for a refusal. *)
Definition s_delivery (l : list (received DeliverMetadata)) (n : net (Maildir.world box)) :=
  let '(r, n) := proxy_Deliver scfg is_dir None None 0 open_box (λ _, None) (λ _, true) [] [] l n in
  (match r with Ok a => Ok (mkWire true a) | Err e => Err e end, n).
Lemma forwarded_submitter_no_bounce :
  let '(r, n) := DeliverDSN s_delivery s_fate "old@example.com" "bounce" boot in
  r = Err (DRejected "" false) ∧ n_writes n = [].
Proof. vm_compute. done. Qed.
(** A result the client does not know is reported as a delivery. *)
Lemma unknown_result_is_delivered :
  (client_Deliver (λ _ (s : unit), (Ok (mkWire false (rejected false "")) : result _ string, s)) s_fate "" "" "" "" false "" [] ()).1
  = Ok (ResultDelivered, false, "", []).
Proof. done. Qed.
End StreamWitnesses.
