(* ===== verification/ImapStore.v ===== *)
(** * The session-manager client in full, and imapd's store over it

    [src/internal/smclient/smclient.go]: every method of [Client] over the
    generated gRPC stubs (the class [Stubs], one operation per RPC; a server
    stream is the list of what is received, a client stream is opened, sent to
    and closed). The RPC surface of the recovering session
    ([src/internal/smclient/session.go]): reads are retried, writes are made at
    most once. imapd's [sessionManagerStore]
    ([src/internal/imapd/backend/smstore.go]) as a store of [MsgCrypt] with the
    two optional interfaces imapd looks for, and the continuity check of
    [src/internal/imapd/backend/session.go] that guards a recovery. *)
From S2P Require Import Prelude GoStrings MsgStore Keyring MsgCrypt MailSession SmClient SmStore.
From Stdlib Require Import ZArith Lia.
Open Scope string_scope.
Open Scope list_scope.
Open Scope Z_scope.

(** ** The generated stubs; the session token travels as metadata *)
Class Stubs (W : Type) := {
  sb_Login : string → string → string → W → result (string * string) rpc_err * W;
  sb_Logout : string → W → option rpc_err * W;
  sb_List : string → string → W → result (list PbInfo) rpc_err * W;
  sb_Stat : string → string → W → result (Z * Z) rpc_err * W;
  sb_Fetch : string → string → Z → W → result (list (result string rpc_err)) rpc_err * W;
  sb_SearchContent : string → string → list Z → list string → list string → bool → W →
    result (list ContentMatch) rpc_err * W;
  sb_SetFlags : string → string → Z → list string → W → option rpc_err * W;
  sb_Delete : string → Z → W → option rpc_err * W;
  sb_Expunge : string → string → W → option rpc_err * W;
  sb_Copy : string → string → Z → string → W → result Z rpc_err * W;
  sb_Move : string → Z → string → string → W → result Z rpc_err * W;
  sb_AppendOpen : string → W → option rpc_err * W;
  sb_AppendSend : string → received AppendMetadata → W → option rpc_err * W;
  sb_AppendClose : string → W → result Z rpc_err * W;
  (** [UidValidity] and [UidNext] of the answer *)
  sb_UIDValidity : string → string → W → result (Z * Z) rpc_err * W;
  sb_Rescan : string → string → W → result (list PbInfo) rpc_err * W;
  sb_ListFolders : string → W → result (list string) rpc_err * W;
  sb_CreateFolder : string → string → W → option rpc_err * W;
  sb_DeleteFolder : string → string → W → option rpc_err * W;
  sb_RenameFolder : string → string → string → W → option rpc_err * W;
  sb_now : W → Z;
  sb_select : Z → Z → W → wake * W;
}.

(** ** The client *)
Section ClientMethods.
Context {W : Type} `{Stubs W}.
Implicit Types (tok folder name : string) (uid : Z) (w : W).

Definition on_ok {A B} (f : A → B) (x : result A rpc_err * W) : result B rpc_err * W :=
  (match x.1 with Ok a => Ok (f a) | Err e => Err e end, x.2).
Definition wrapped (what : string) (e : rpc_err) : rpc_err := mkRpc (err_code e) (what +:+ err_text e).

Definition c_Login (user pass ip : string) w : result (string * string) rpc_err * W :=
  let '(r, w) := sb_Login user pass ip w in
  (match r with Ok x => Ok x | Err e => Err (wrapped "session-manager login: " e) end, w).
Definition c_Logout tok w : option rpc_err * W :=
  let '(r, w) := sb_Logout tok w in (wrapped "session-manager logout: " <$> r, w).
Definition c_ListMessages tok folder w := sb_List tok folder w.
Definition c_StatMailbox tok folder w := sb_Stat tok folder w.

(** The chunks of a server stream, until its end or its failure. *)
Fixpoint recv_chunks (l : list (result string rpc_err)) : result string rpc_err :=
  match l with
  | [] => Ok ""
  | Err e :: _ => Err (wrapped "fetch stream: " e)
  | Ok d :: l => match recv_chunks l with Ok r => Ok (d +:+ r) | Err e => Err e end
  end.
Definition c_FetchMessage tok folder uid w : result string rpc_err * W :=
  match sb_Fetch tok folder uid w with
  | (Err e, w) => (Err e, w)
  | (Ok chunks, w) => (recv_chunks chunks, w)
  end.
Definition c_SearchContent tok folder uids bodyTerms textTerms needHeaders w :=
  sb_SearchContent tok folder uids bodyTerms textTerms needHeaders w.
Definition c_SetFlags tok folder uid flags w := sb_SetFlags tok folder uid flags w.
Definition c_DeleteMessage tok folder uid w := sb_SetFlags tok folder uid [flagDeleted] w.
Definition c_Delete tok uid w := sb_Delete tok uid w.
Definition c_ExpungeMailbox tok folder w := sb_Expunge tok folder w.
Definition c_CopyMessage tok src uid dest w := sb_Copy tok src uid dest w.
Definition c_MoveMessage tok src uid dest w := sb_Move tok uid src dest w.

Definition chunk : nat := 65536.
Fixpoint body_chunks (fuel : nat) (data : string) : list (received AppendMetadata) :=
  match fuel, data with
  | O, _ | _, "" => []
  | S fuel, _ => RData (stake chunk data) :: body_chunks fuel (sdrop chunk data)
  end.
Definition append_messages folder data flags date : list (received AppendMetadata) :=
  RMeta (mkAppend folder flags (Some date)) :: body_chunks (String.length data) data.
Fixpoint send_all tok (l : list (received AppendMetadata)) w : option rpc_err * W :=
  match l with
  | [] => (None, w)
  | x :: l => match sb_AppendSend tok x w with
              | (Some e, w) => (Some e, w)
              | (None, w) => send_all tok l w
              end
  end.
(** A reader that fails has no status of its own: [codes.Unknown]. *)
Definition c_AppendMessage tok folder (r : reader) flags date w : result Z rpc_err * W :=
  match r with
  | ReadFails e => (Err (mkRpc (OtherCode 2) ("read message: " +:+ e)), w)
  | Content data =>
      match sb_AppendOpen tok w with
      | (Some e, w) => (Err e, w)
      | (None, w) =>
          match send_all tok (append_messages folder data flags date) w with
          | (Some e, w) => (Err e, w)
          | (None, w) => sb_AppendClose tok w
          end
      end
  end.
Definition c_UIDValidity tok folder w : result Z rpc_err * W := on_ok fst (sb_UIDValidity tok folder w).
Definition c_UIDNext tok folder w : result Z rpc_err * W := on_ok snd (sb_UIDValidity tok folder w).
Definition c_RescanFolder tok folder w := sb_Rescan tok folder w.
Definition c_ListFolders tok w := sb_ListFolders tok w.
Definition c_CreateFolder tok name w := sb_CreateFolder tok name w.
Definition c_DeleteFolder tok name w := sb_DeleteFolder tok name w.
Definition c_RenameFolder tok old new w := sb_RenameFolder tok old new w.

(** What the recovering session is written against. *)
#[export] Instance stub_client : Client W := {|
  cl_Login := c_Login; cl_Logout := c_Logout;
  cl_ListMessages tok f w := on_ok (fmap (λ m, (pb_Uid m, pb_Size m))) (c_ListMessages tok f w);
  cl_StatMailbox := c_StatMailbox; cl_FetchMessage := c_FetchMessage;
  cl_Delete := c_Delete; cl_ExpungeMailbox := c_ExpungeMailbox;
  cl_now := sb_now; cl_select := sb_select;
|}.

(** ** The recovering session's RPC surface *)
Context (onRecovered : option (string → W → option string * W)) (h : nat).
Definition reading {A} (fn : string → W → result A rpc_err * W) : heap W → result A serr * heap W :=
  with_session h (doRead onRecovered fn).
Definition writing {A} (fn : string → W → result A rpc_err * W) : heap W → result A serr * heap W :=
  with_session h (doWrite onRecovered fn).
Definition writing_ (fn : string → W → option rpc_err * W) (hw : heap W) : option serr * heap W :=
  err_of (writing (as_result fn) hw).

Definition sess_ListMessages folder := reading (λ t, c_ListMessages t folder).
Definition sess_StatMailbox folder := reading (λ t, c_StatMailbox t folder).
Definition sess_FetchMessage folder uid := reading (λ t, c_FetchMessage t folder uid).
Definition sess_SearchContent folder uids bodyTerms textTerms needHeaders :=
  reading (λ t, c_SearchContent t folder uids bodyTerms textTerms needHeaders).
Definition sess_UIDValidity folder := reading (λ t, c_UIDValidity t folder).
Definition sess_UIDNext folder := reading (λ t, c_UIDNext t folder).
Definition sess_RescanFolder folder := reading (λ t, c_RescanFolder t folder).
Definition sess_ListFolders := reading (λ t, c_ListFolders t).
Definition sess_SetFlags folder uid flags := writing_ (λ t, c_SetFlags t folder uid flags).
Definition sess_DeleteMessage folder uid := writing_ (λ t, c_DeleteMessage t folder uid).
Definition sess_Delete uid := writing_ (λ t, c_Delete t uid).
Definition sess_ExpungeMailbox folder := writing_ (λ t, c_ExpungeMailbox t folder).
Definition sess_CopyMessage src uid dest := writing (λ t, c_CopyMessage t src uid dest).
Definition sess_MoveMessage src uid dest := writing (λ t, c_MoveMessage t src uid dest).
Definition sess_AppendMessage folder r flags date :=
  writing (λ t, c_AppendMessage t folder r flags date).
Definition sess_CreateFolder name := writing_ (λ t, c_CreateFolder t name).
Definition sess_DeleteFolder name := writing_ (λ t, c_DeleteFolder t name).
Definition sess_RenameFolder old new := writing_ (λ t, c_RenameFolder t old new).
End ClientMethods.

(** ** The interfaces imapd looks for *)
Record ImapStore (W : Type) := mkImapStore {
  im_store : MailStore W;
  (** [store.(mover)]: source folder, UID, destination *)
  im_mover : option (string → string → Z → string → W → result Z serr * W);
  (** [store.(ContentSearcher)] *)
  im_searcher : option (string → list Z → list string → list string → bool → W →
                        result (list ContentMatch) serr * W);
  (** [store.(io.Closer)] *)
  im_close : option (W → option serr * W);
  (** what [isFatalSessionErr] finds in the chain of an error *)
  im_fatal : serr → bool;
}.
Arguments mkImapStore {W}. Arguments im_store {W}. Arguments im_mover {W}. Arguments im_searcher {W}.
Arguments im_close {W}. Arguments im_fatal {W}.

Section SessionManagerStore.
Context {W : Type} `{Stubs W}.

(** The check after a transparent re-login: the selected folder's UIDVALIDITY,
    asked for under the new token. *)
Definition recoveredHook (selected : string) (wantUV : Z) (tok : string) (w : W) : option string * W :=
  if decide (selected = "") then (None, w)
  else match c_UIDValidity tok selected w with
       | (Err e, w) => (Some (err_text e), w)
       | (Ok uv, w) =>
           (if decide (uv = wantUV) then None
            else Some ("uidvalidity changed across recovery: " +:+ fmt_d wantUV +:+ " -> " +:+ fmt_d uv), w)
       end.

(** [errors.Is] with the two sentinel errors of the recovering session, whose
    texts the wrapped errors begin with. *)
Definition isFatalSessionErr (e : serr) : bool :=
  HasPrefix e "session recovery: credential rejected" || HasPrefix e "session recovery: deadline exceeded".

(** [now] is the time [DeliverToFolder] reads. *)
Context (selected : string) (wantUV : Z) (h : nat) (now : Z).
Notation hook := (Some (recoveredHook selected wantUV)).

Definition info_of_pb (m : PbInfo) : MessageInfo := mkInfo (pb_Uid m) "" (pb_Size m) (pb_Flags m) 0.
Definition sms_ListInFolder (_ folder : string) (hw : heap W) : result (list MessageInfo) serr * heap W :=
  let '(r, hw) := sess_ListMessages hook h folder hw in
  (match r with Ok l => Ok (info_of_pb <$> l) | Err e => Err e end, hw).
Definition sms_RetrieveFromFolder (_ folder : string) (uid : Z) (hw : heap W) : result reader serr * heap W :=
  let '(r, hw) := sess_FetchMessage hook h folder uid hw in
  (match r with Ok d => Ok (Content d) | Err e => Err e end, hw).
Definition sms_DeliverToFolder (_ folder data : string) (hw : heap W) : option serr * heap W :=
  err_of (sess_AppendMessage hook h folder (Content data) [] now hw).

Definition sessionManagerStore : ImapStore (heap W) :=
  mkImapStore
    (mkMailStore
      (mkMessageStore (λ _, sms_ListInFolder "" "INBOX") (λ _, sms_RetrieveFromFolder "" "INBOX")
         (λ _, sess_DeleteMessage hook h "INBOX") (λ _, sess_ExpungeMailbox hook h "INBOX")
         (λ _, sess_StatMailbox hook h "INBOX"))
      (Some (mkFolderStore
         (λ _, sess_CreateFolder hook h) (λ _, sess_ListFolders hook h) (λ _, sess_DeleteFolder hook h)
         sms_ListInFolder (λ _, sess_StatMailbox hook h) sms_RetrieveFromFolder
         (λ _, sess_DeleteMessage hook h) (λ _, sess_ExpungeMailbox hook h) sms_DeliverToFolder
         (λ _, sess_RenameFolder hook h)
         (λ _ folder data flags date, sess_AppendMessage hook h folder (Content data) flags date)
         (λ _, sess_SetFlags hook h) (λ _, sess_CopyMessage hook h)
         (λ _, sess_UIDValidity hook h) (λ _, sess_UIDNext hook h))))
    (Some (λ _, sess_MoveMessage hook h))
    (Some (sess_SearchContent hook h))
    (Some (λ hw, match objects hw !! h with
                 | None => (Some "no session", hw)
                 | Some s => let '(r, s, w) := Logout s (remote hw) in
                             (err_text <$> r, mkHeap (<[h := s]> (objects hw)) w)
                 end))
    isFatalSessionErr.
End SessionManagerStore.

(** ** Streams *)
Lemma chunk_pos : (0 < chunk)%nat.
Proof. apply Nat.ltb_lt. vm_compute. reflexivity. Qed.
Lemma sdrop_length n s : String.length (sdrop n s) = (String.length s - n)%nat.
Proof. revert n. induction s as [|c s IH]; intros [|n]; simpl; try lia. apply IH. Qed.

Lemma body_chunks_recv fuel data :
  (String.length data ≤ fuel)%nat → recv_body (body_chunks fuel data) = Some data.
Proof.
  revert data. induction fuel as [|fuel IH]; intros [|c data] Hl; simpl in Hl; [done|lia|done|].
  assert (String.length (sdrop chunk (String c data)) ≤ fuel)%nat as Hd.
  { rewrite sdrop_length. simpl String.length. pose proof chunk_pos. lia. }
  cbn [body_chunks recv_body]. rewrite (IH _ Hd). by rewrite stake_sdrop.
Qed.

Section EndToEnd.
Context {W : Type} (store : MailStore W) `{UnicodeCase}.
(** The stream the client sends is stored by the server as the message it was
    made from, with the flags and the date given. *)
Lemma append_end_to_end folder data flags date :
  rpc_Append store (append_messages folder data flags date)
  = orelse Internal "append" (AppendMessage store folder data flags date) rret.
Proof. unfold append_messages, rpc_Append. by rewrite body_chunks_recv by done. Qed.

Lemma recv_chunks_all cs : recv_chunks (Ok <$> cs) = Ok (foldr String.append "" cs).
Proof. induction cs as [|c cs IH]; [done|]. rewrite fmap_cons. cbn [recv_chunks foldr]. by rewrite IH. Qed.
(** A fetch whose sends succeed hands the client the message, however the reads
    cut it. *)
Lemma fetch_end_to_end reads sends data :
  Forall (λ b, b = true) sends →
  recv_chunks (Ok <$> (stream (String.length data) reads sends data).1) = Ok data.
Proof.
  intros Hs. destruct (stream_sent (String.length data) reads sends data) as (cs & -> & Hc & _); [done..|].
  cbn [fst]. by rewrite recv_chunks_all, Hc.
Qed.
End EndToEnd.

(** ** Continuity of a recovered session *)
Section Continuity.
Context {W : Type} `{Stubs W} (selected : string) (uv : Z).
Notation hook := (Some (recoveredHook selected uv)).
Context {A : Type} (fn : string → W → result A rpc_err * W).
Implicit Types (s : smSession) (w : W).

(** What a call of the session may do to the manager: the steps of a recovery,
    and the call itself. *)
Inductive call_step : W → W → Prop :=
| cs_recovery w w' : recovery_step hook w w' → call_step w w'
| cs_call t w : call_step w (fn t w).2.

(** The token is the one the call began with, none, or one under which the
    manager has reported the expected UIDVALIDITY since. *)
Definition checked (w0 : W) (tok : string) (w : W) : Prop :=
  ∃ w1 w2, rtc call_step w0 w1 ∧ c_UIDValidity tok selected w1 = (Ok uv, w2) ∧ rtc call_step w2 w.
Definition continuous (t0 : string) (w0 : W) s w : Prop :=
  rtc call_step w0 w ∧ (token s = t0 ∨ token s = "" ∨ checked w0 (token s) w).

Lemma continuous_step t0 w0 s w w' : continuous t0 w0 s w → call_step w w' → continuous t0 w0 s w'.
Proof.
  intros [Hr Ht] Hs. split; [by eapply rtc_r|].
  destruct Ht as [Ht|[Ht|(w1 & w2 & H1 & Hc & H2)]]; [by left|by right; left|].
  right; right. exists w1, w2. split; [done|]. split; [done|]. by eapply rtc_r.
Qed.
Lemma continuous_fn t0 w0 s w t r w' : continuous t0 w0 s w → fn t w = (r, w') → continuous t0 w0 s w'.
Proof. intros Hc E. eapply continuous_step; [done|]. pose proof (cs_call t w) as Hs. by rewrite E in Hs. Qed.
Lemma continuous_select t0 w0 s w d b r w' :
  continuous t0 w0 s w → cl_select d b w = (r, w') → continuous t0 w0 s w'.
Proof.
  intros Hc E. eapply continuous_step; [done|]. apply cs_recovery.
  pose proof (rs_select hook d b w) as Hs. by rewrite E in Hs.
Qed.
Lemma continuous_token t0 w0 s s' w : token s' = token s ∨ token s' = "" →
  continuous t0 w0 s w → continuous t0 w0 s' w.
Proof. intros E [Hr Ht]. split; [done|]. destruct E as [->|E]; auto. Qed.

Lemma recover_continuous t0 w0 tok s w r s' w' : selected ≠ "" →
  continuous t0 w0 s w → recover hook tok s w = (r, s', w') → continuous t0 w0 s' w'.
Proof.
  intros Hsel Hc. unfold recover. case_decide as Hd1; [by intros [= <- <- <-]|].
  case_decide as Hd2; [by intros [= <- <- <-]|].
  pose proof (rs_login hook (sm_username s) (cred s) (sm_clientIP s) w) as Hl.
  destruct (cl_Login _ _ _ w) as [[[tok' mbox]|e] w1]; simpl in Hl.
  2:{ assert (continuous t0 w0 s w1) as H1 by (eapply continuous_step; [done|by apply cs_recovery]).
      case_decide; intros [= <- <- <-]; [|done]. eapply continuous_token; [by right|done]. }
  assert (continuous t0 w0 s w1) as H1 by (eapply continuous_step; [done|by apply cs_recovery]).
  pose proof (rs_hook hook _ tok' w1 eq_refl) as Hh.
  destruct (recoveredHook selected uv tok' w1) as [herr w2] eqn:Eh. simpl in Hh.
  assert (continuous t0 w0 s w2) as H2 by (eapply continuous_step; [done|by apply cs_recovery]).
  destruct herr as [herr|].
  - pose proof (rs_logout hook tok' w2) as Hlo. destruct (cl_Logout tok' w2) as [r3 w3]. simpl in Hlo.
    intros [= <- <- <-]. eapply continuous_token; [by left|]. eapply continuous_step; [done|by apply cs_recovery].
  - intros [= <- <- <-]. split; [apply H2|]. right; right. simpl.
    unfold recoveredHook in Eh. rewrite decide_False in Eh by done.
    destruct (c_UIDValidity tok' selected w1) as [[uv'|e] w3] eqn:Eu; [|done].
    case_decide; [|done]. injection Eh as <-. subst uv'. exists w1, w3. split; [apply H1|]. by split.
Qed.

Lemma read_loop_continuous t0 w0 n d b tok err s w r s' w' : selected ≠ "" →
  continuous t0 w0 s w → read_loop hook fn n d b tok err s w = Some (r, s', w') → continuous t0 w0 s' w'.
Proof.
  intros Hsel. revert b tok err s w. induction n as [|n IH]; intros b tok err s w Hc; [done|].
  cbn [read_loop].
  match goal with |- context [if decide (err_code err = Unauthenticated) then ?x else ?y] =>
    destruct (if decide (err_code err = Unauthenticated) then x else y) as [[fatal s1] w1] eqn:Ef end.
  assert (continuous t0 w0 s1 w1) as H1.
  { destruct (decide (err_code err = Unauthenticated)); [|by injection Ef as _ <- <-].
    destruct (recover hook tok s w) as [[o s2] w2] eqn:Er.
    apply (recover_continuous t0 w0) in Er; [|done..].
    by destruct o as [[]|]; injection Ef as _ <- <-. }
  destruct fatal; [by intros [= _ <- <-]|].
  match goal with |- context [if decide (token s1 = "") then ?x else ?y] =>
    destruct (if decide (token s1 = "") then x else y) as [rr w2] eqn:Ew end.
  assert (continuous t0 w0 s1 w2) as H2.
  { destruct (decide (token s1 = "")); [by injection Ew as _ <-|]. by eapply continuous_fn. }
  destruct rr as [a|err2]; [by intros [= _ <- <-]|].
  destruct (_ && _); [by intros [= _ <- <-]|].
  destruct (cl_select d b w2) as [wk w3] eqn:Es.
  assert (continuous t0 w0 s1 w3) as H3 by (by eapply continuous_select).
  destruct wk; [by intros [= _ <- <-]| |by apply IH].
  intros [= _ <- <-]. eapply continuous_token; [by left|done].
Qed.

Lemma write_loop_continuous t0 w0 n d b tok s w s' w' : selected ≠ "" →
  continuous t0 w0 s w → write_loop hook n d b tok s w = Some (s', w') → continuous t0 w0 s' w'.
Proof.
  intros Hsel. revert b s w. induction n as [|n IH]; intros b s w Hc; [done|]. cbn [write_loop].
  destruct (recover hook tok s w) as [[o s1] w1] eqn:Er. apply (recover_continuous t0 w0) in Er; [|done..].
  destruct o as [[]|]; [by intros [= <- <-]|by intros [= <- <-]| |by intros [= <- <-]].
  destruct (cl_select d b w1) as [wk w2] eqn:Es.
  assert (continuous t0 w0 s1 w2) as H2 by (by eapply continuous_select).
  destruct wk; [| |by apply IH]; intros [= <- <-]; (eapply continuous_token; [by left|done]).
Qed.

(** C30 With a folder selected, a call of imapd's session leaves it under another
    token than it had only if, during that call, the manager reported the
    UIDVALIDITY the folder was selected with under that very token: a recovery
    never resumes over a mailbox whose UIDs may have changed their meaning. *)
Theorem resumes_same_uidvalidity (s s' : smSession) (w w' : W) (r : result A sm_error) :
  selected ≠ "" →
  doRead hook fn s w = Some (r, s', w') ∨ doWrite hook fn s w = Some (r, s', w') →
  token s' ≠ token s → token s' ≠ "" → checked w (token s') w'.
Proof.
  intros Hsel Hcall Hne Hno.
  assert (continuous (token s) w s w) as H0 by (split; [done|by left]).
  cut (continuous (token s) w s' w').
  { intros [_ [?|[?|?]]]; done. }
  destruct Hcall as [E|E]; unfold doRead, doWrite in E; (case_decide as Hd; [by injection E as _ <- <-|]);
    destruct (fn (token s) w) as [[a|e] w1] eqn:Ef;
    (assert (continuous (token s) w s w1) as H1 by (by eapply continuous_fn));
    [by injection E as _ <- <-| |by injection E as _ <- <-|]; destruct (recoverable e);
    [|by injection E as _ <- <-| |by injection E as _ <- <-].
  - by eapply read_loop_continuous.
  - destruct (write_loop _ _ _ _ _ _ _) as [[s2 w2]|] eqn:El; [|done]. injection E as _ <- <-.
    by eapply write_loop_continuous.
Qed.
End Continuity.
