(* ===== verification/SmProxy.v ===== *)
(** * The proxies of session-manager

    [src/internal/session-manager/grpcserver]: [mailbox_proxy.go],
    [folder_proxy.go], [watch_proxy.go] and [tokenFromContext] of [server.go].
    A call carries a session token; the table of [SessionTable] finds the entry,
    and the call goes to the mail-session process of that entry ([MailSession]).
    The processes of one host share the disk. Together with the login of the
    table the proxies are an instance of the stubs [ImapStore] is written
    against, so the daemons run on the whole chain. *)
From S2P Require Import Prelude GoStrings MsgStore Maildir Keyring MsgCrypt MailSession.
From S2P Require Import SessionTable SmClient SmStore ImapStore.
From Stdlib Require Import ZArith Lia.
Open Scope string_scope.
Open Scope list_scope.
Open Scope Z_scope.

(** The values of the [session-token] key in the call's metadata. *)
Definition tokenFromContext (md : option (list string)) : result string string :=
  match md with
  | None => Err "missing gRPC metadata"
  | Some [] | Some ("" :: _) => Err "missing session-token in metadata"
  | Some (tok :: _) => Ok tok
  end.

Definition grpc_code (c : MailSession.code) : SmClient.code :=
  match c with
  | Internal => OtherCode 13 | NotFound => OtherCode 5 | InvalidArgument => OtherCode 3
  | MailSession.Unavailable => Unavailable
  end.

Record server (W : Type) := mkServer {
  sv_table : Manager;
  sv_procs : gmap addr MailSession.Session;              (** the running mail-sessions *)
  sv_disk : W;
  sv_streams : gmap string (list (received AppendMetadata)); (** open client streams *)
  sv_fresh : nat; sv_now : Z;
}.
Arguments mkServer {W}. Arguments sv_table {W}. Arguments sv_procs {W}. Arguments sv_disk {W}.
Arguments sv_streams {W}. Arguments sv_fresh {W}. Arguments sv_now {W}.

Section Proxy.
Context {W : Type} `{UnicodeCase} (range : gset Z → list Z).
(** The store a mail-session of an entry opens, and the error of a call to a
    process that is gone. *)
Context (store_for : sessionEntry → MailStore W) (process_down : rpc_err).
Implicit Types (sv : server W) (md : option (list string)).

Definition upstream md sv : result (addr * sessionEntry) rpc_err :=
  match tokenFromContext md with
  | Err t => Err (mkRpc Unauthenticated t)
  | Ok tok =>
      match SessionForToken tok (sv_table sv), byToken (sv_table sv) !! tok with
      | Some e, Some i => Ok (i, e)
      | _, _ => Err (mkRpc Unauthenticated "unknown session token")
      end
  end.

Definition ran (i : addr) (st : MailSession.Session * W) sv : server W :=
  mkServer (sv_table sv) (<[i := st.1]> (sv_procs sv)) st.2 (sv_streams sv) (sv_fresh sv) (sv_now sv).
Definition forward {A} md (call : MailStore W → rpc A) sv : result A rpc_err * server W :=
  match upstream md sv with
  | Err e => (Err e, sv)
  | Ok (i, e) =>
      match sv_procs sv !! i with
      | None => (Err process_down, sv)
      | Some s =>
          let '(r, st) := call (store_for e) (s, sv_disk sv) in
          (match r with Ok a => Ok a | Err (c, t) => Err (mkRpc (grpc_code c) t) end, ran i st sv)
      end
  end.
Definition forward_ md (call : MailStore W → rpc unit) sv : option rpc_err * server W :=
  let '(r, sv) := forward md call sv in (match r with Ok _ => None | Err e => Some e end, sv).

(** ** mailboxProxy *)
Definition proxy_List md folder := forward md (λ st, rpc_List st folder).
Definition proxy_Stat md folder := forward md (λ st, rpc_Stat st folder).
(** The chunks received from mail-session are sent on until a send fails;
    [sends] is the fate of both. *)
Definition proxy_Fetch reads sends md folder uid sv : result (list (result string rpc_err)) rpc_err * server W :=
  let '(r, sv) := forward md (λ st, rpc_Fetch st reads sends folder uid) sv in
  (match r with
   | Ok (cs, None) => Ok (Ok <$> cs)
   | Ok (cs, Some t) => Ok ((Ok <$> cs) ++ [Err (mkRpc (OtherCode 13) t)])
   | Err e => Err e
   end, sv).
Definition proxy_FetchHeaders md folder uid n := forward md (λ st, rpc_FetchHeaders st folder uid n).
Definition proxy_SearchContent md folder uids bt tt hd :=
  forward md (λ st, rpc_SearchContent st folder uids bt tt hd).
(** [Append]: what the client's stream held is sent to the process. *)
Definition proxy_Append md (l : list (received AppendMetadata)) := forward md (λ st, rpc_Append st l).
Definition proxy_Copy md folder uid dest := forward md (λ st, rpc_Copy st folder uid dest).
Definition proxy_Move md uid src dest := forward md (λ st, rpc_Move st uid src dest).
Definition proxy_SetFlags md folder uid flags := forward_ md (λ st, rpc_SetFlags st folder uid flags).
Definition proxy_Expunge md folder := forward md (λ st, rpc_Expunge st folder).
Definition proxy_Rescan md folder := forward md (λ st, rpc_Rescan st folder).
Definition proxy_UIDValidity md folder := forward md (λ st, rpc_UIDValidity st folder).
Definition proxy_Delete md uid := forward_ md (λ _, rpc_Delete uid).
Definition proxy_Undelete md uid := forward_ md (λ _, rpc_Undelete uid).
Definition proxy_Commit md := forward_ md (λ st, rpc_Commit st range).

(** ** folderProxy and watchProxy *)
Definition proxy_ListFolders md := forward md rpc_ListFolders.
Definition proxy_CreateFolder md name := forward_ md (λ st, rpc_CreateFolder st name).
Definition proxy_DeleteFolder md name := forward_ md (λ st, rpc_DeleteFolder st name).
Definition proxy_RenameFolder md old new := forward_ md (λ st, rpc_RenameFolder st old new).
Definition proxy_Watch md folder between := forward md (λ st, Watch st folder between).

(** ** The whole server as the daemons see it *)
(** Logging in: [authn] gives the mailbox of an accepted password; the new
    process opens the mailbox before it reports READY. *)
Context (authn : string → string → option string) (token_of : nat → string).
Definition sv_Login (user pass _ip : string) sv : result (string * string) rpc_err * server W :=
  match authn user pass with
  | None => (Err (mkRpc Unauthenticated "authentication failed"), sv)
  | Some mailbox =>
      let tok := token_of (sv_fresh sv) in
      let i := sv_fresh sv in
      match login_begin user tok (sv_table sv) with
      | (true, m) => (Ok (tok, mailbox), mkServer m (sv_procs sv) (sv_disk sv) (sv_streams sv) (S i) (sv_now sv))
      | (false, m) =>
          match Open (store_for (spawned user mailbox true)) mailbox (MailSession.New, sv_disk sv) with
          | (Err _, (_, w)) =>
              (Err (mkRpc (OtherCode 13) "start mail-session"),
               mkServer m (sv_procs sv) w (sv_streams sv) (S i) (sv_now sv))
          | (Ok _, (s, w)) =>
              (Ok (tok, mailbox),
               mkServer (login_finish user mailbox tok i true m) (<[i := s]> (sv_procs sv)) w
                 (sv_streams sv) (S i) (sv_now sv))
          end
      end
  end.
Definition sv_Logout (tok : string) sv : option rpc_err * server W :=
  let '(ok, m) := SessionTable.Logout tok (sv_table sv) in
  (if ok then None else Some (mkRpc (OtherCode 13) "unknown session token"),
   mkServer m (sv_procs sv) (sv_disk sv) (sv_streams sv) (sv_fresh sv) (sv_now sv)).

Definition set_stream (tok : string) (l : list (received AppendMetadata)) sv : server W :=
  mkServer (sv_table sv) (sv_procs sv) (sv_disk sv) (<[tok := l]> (sv_streams sv)) (sv_fresh sv) (sv_now sv).
Notation by_token tok := (Some [tok]).
(** Streams pass their messages on in order; waiting is the clock's. *)
Definition server_stubs : Stubs (server W) := {|
  sb_Login := sv_Login; sb_Logout := sv_Logout;
  sb_List tok := proxy_List (by_token tok); sb_Stat tok := proxy_Stat (by_token tok);
  sb_Fetch tok := proxy_Fetch [] [] (by_token tok);
  sb_SearchContent tok := proxy_SearchContent (by_token tok);
  sb_SetFlags tok := proxy_SetFlags (by_token tok);
  sb_Delete tok := proxy_Delete (by_token tok);
  sb_Expunge tok folder sv :=
    let '(r, sv) := proxy_Expunge (by_token tok) folder sv in
    (match r with Ok _ => None | Err e => Some e end, sv);
  sb_Copy tok := proxy_Copy (by_token tok); sb_Move tok := proxy_Move (by_token tok);
  sb_AppendOpen tok sv := (None, set_stream tok [] sv);
  sb_AppendSend tok x sv := (None, set_stream tok (default [] (sv_streams sv !! tok) ++ [x]) sv);
  sb_AppendClose tok sv := proxy_Append (by_token tok) (default [] (sv_streams sv !! tok)) sv;
  sb_UIDValidity tok := proxy_UIDValidity (by_token tok);
  sb_Rescan tok := proxy_Rescan (by_token tok);
  sb_ListFolders tok := proxy_ListFolders (by_token tok);
  sb_CreateFolder tok := proxy_CreateFolder (by_token tok);
  sb_DeleteFolder tok := proxy_DeleteFolder (by_token tok);
  sb_RenameFolder tok := proxy_RenameFolder (by_token tok);
  sb_now := sv_now;
  sb_select d b sv :=
    let at_ t := mkServer (sv_table sv) (sv_procs sv) (sv_disk sv) (sv_streams sv) (sv_fresh sv) t in
    if sv_now sv + b <? d then (WTimer, at_ (sv_now sv + b)) else (WDeadline, at_ (Z.max d (sv_now sv)));
|}.

(** ** A call reaches one process: that of the token's user *)
Lemma upstream_ok md sv i e : reachable (sv_table sv) → upstream md sv = Ok (i, e) →
  ∃ tok rest, md = Some (tok :: rest) ∧ byToken (sv_table sv) !! tok = Some i ∧
    m_heap (sv_table sv) !! i = Some e ∧
    m_issued (sv_table sv) !! tok = Some (e_username e) ∧ e_killed e = false.
Proof.
  intros Hr%reachable_inv. unfold upstream.
  destruct (tokenFromContext md) as [tok|] eqn:Et; [|done].
  assert (∃ rest, md = Some (tok :: rest)) as [rest ->].
  { unfold tokenFromContext in Et. destruct md as [[|[|] l]|]; try done. injection Et as <-. by eexists. }
  destruct (SessionForToken tok (sv_table sv)) as [e'|] eqn:Es; [|done].
  destruct (byToken (sv_table sv) !! tok) as [i'|] eqn:Eb; [|done]. intros [= -> ->].
  exists tok, rest. unfold SessionForToken in Es. rewrite Eb in Es. cbn in Es.
  destruct (i_tok _ Hr tok i Eb) as (e' & He & Hi & Hk & _). rewrite Es in He. injection He as <-. done.
Qed.

(** Whatever the call does, the table and every other user's process stay as
    they are, and without a valid token nothing happens at all. *)
Lemma forward_isolated {A} md (call : MailStore W → rpc A) sv r sv' :
  reachable (sv_table sv) → forward md call sv = (r, sv') →
  sv_table sv' = sv_table sv ∧
  ((∃ e, r = Err e ∧ sv' = sv) ∨
   ∃ tok rest i e, md = Some (tok :: rest) ∧ m_issued (sv_table sv) !! tok = Some (e_username e) ∧
     m_heap (sv_table sv) !! i = Some e ∧ e_killed e = false ∧
     ∀ j, j ≠ i → sv_procs sv' !! j = sv_procs sv !! j).
Proof.
  intros Hr. unfold forward. destruct (upstream md sv) as [[i e]|er] eqn:Eu.
  2:{ intros [= <- <-]. split; [done|]. left. by eexists. }
  destruct (upstream_ok _ _ _ _ Hr Eu) as (tok & rest & -> & Hb & Hh & Hi & Hk).
  destruct (sv_procs sv !! i) as [s|].
  2:{ intros [= <- <-]. split; [done|]. left. by eexists. }
  destruct (call (store_for e) (s, sv_disk sv)) as [r1 st]. intros [= _ <-]. split; [done|].
  right. exists tok, rest, i, e. split_and!; [done..|]. intros j Hj. cbn [sv_procs ran].
  by rewrite lookup_insert_ne.
Qed.
End Proxy.

(** ** A host with one user and her maildir *)
Module Host.
Import MdDemo.
Notation disk := (world box).
Definition mstore : MailStore disk := maildir_store lay (λ _, []) true.
Definition authn (user pass : string) : option string :=
  if decide (pass = "pw") then Some user else None.
Definition token_of (n : nat) : string := "t" +:+ fmt_d (Z.of_nat n).
Definition down_err : rpc_err := mkRpc Unavailable "connection refused".
#[export] Instance host_stubs : Stubs (server disk) :=
  server_stubs (λ _, mstore) down_err authn token_of.
Definition host (w : disk) : server disk := mkServer New ∅ (set_deleted ∅ w) ∅ 1 1000.
(** imapd's store once alice has logged in, with a folder selected. *)
Definition logged_in (w : disk) : heap (server disk) :=
  (sm_login 60000 true "alice@x" "pw" "192.0.2.7" (mkHeap [] (host w))).2.
Definition istore (selected : string) (uv : Z) : ImapStore (heap (server disk)) :=
  sessionManagerStore selected uv 0 1000.
End Host.

Section HostRuns.
Import MdDemo Host.
(** The manager restarts while alice's session is open: her token is unknown,
    the read logs in again and is repeated under the token [t5]. *)
Definition before : SmClient.smSession := default (SmClient.NewSession 0 false) (head (objects (logged_in w0))).
Definition restarted : server disk :=
  mkServer New ∅ (sv_disk (remote (logged_in w0))) ∅ 5 2000.
Definition uv_now : Z := match (c_UIDValidity "t1" "INBOX" (remote (logged_in w0))).1 with Ok v => v | Err _ => 0 end.
Notation fetch := (λ t, c_FetchMessage t "INBOX" 2).

Lemma resumes_same_uidvalidity_witness :
  match doRead (Some (recoveredHook "INBOX" uv_now)) fetch before restarted with
  | Some (r, s', w') => r = Ok "second" ∧ token s' = "t5" ∧ checked "INBOX" uv_now fetch restarted "t5" w'
  | None => False
  end.
Proof.
  destruct (doRead (Some (recoveredHook "INBOX" uv_now)) fetch before restarted) as [[[r s'] w']|] eqn:E.
  - assert (token s' = "t5" ∧ r = Ok "second") as [Et ->].
    { apply (f_equal (fmap (λ x, (token x.1.2, x.1.1)))) in E. vm_compute in E. by injection E as -> ->. }
    split; [done|]. split; [done|]. rewrite <- Et.
    apply (resumes_same_uidvalidity "INBOX" uv_now fetch before s' restarted w' (Ok "second"));
      [done|by left|rewrite Et; vm_compute; discriminate|by rewrite Et].
  - apply (f_equal (fmap (λ x, token x.1.2))) in E. vm_compute in E. discriminate.
Defined.

(** After a change of UIDVALIDITY the session does not continue. *)
Lemma changed_uidvalidity_refused :
  match doRead (Some (recoveredHook "INBOX" (uv_now + 1))) fetch before restarted with
  | Some (r, s', _) => token s' = "t1" ∧ match r with Err (SCredentialRejected _) => True | _ => False end
  | None => False
  end.
Proof. vm_compute. by split. Qed.
End HostRuns.
