(* ===== verification/ImapSession.v ===== *)
(** * imapd's session

    Model of [src/internal/imapd/backend]: [session.go], [mailbox.go],
    [storeops.go], [fetch.go] and [spamlearn.go], the methods the go-imap server
    calls. The store is any [ImapStore]; it depends on the selected folder and its
    UIDVALIDITY, which its recovery check reads. go-imap itself is a parameter:
    number sets ([ImapNum]), patterns, the parts of a message it extracts, and the
    tracker, whose queue of updates is part of the session. What a command writes
    to the client, the metrics and the calls of rspamd are a trace. *)
From S2P Require Import Prelude GoStrings MsgStore Keyring MsgCrypt ImapStore.
From Stdlib Require Import ZArith Lia Ascii.
Open Scope string_scope.
Open Scope list_scope.
Open Scope Z_scope.

(** ** go-imap *)
(** A range of sequence numbers or UIDs; 0 stands for [*]. *)
Record NumRange := mkRange { Start : Z; Stop : Z }.
Inductive NumSet := SeqSet (l : list NumRange) | UIDSet (l : list NumRange).
Class ImapNum := {
  (** the numbers of a set without [*] *)
  Nums : list NumRange → option (list Z);
  ns_Contains : list NumRange → Z → bool;
}.
Inductive StoreFlagsOp := StoreFlagsSet | StoreFlagsAdd | StoreFlagsDel.
Record StoreFlags := mkStoreFlags { sf_Op : StoreFlagsOp; sf_Silent : bool; sf_Flags : list string }.
Record BodySection := mkSection { section : string; Peek : bool }.
Record FetchOptions := mkFetch {
  f_UID : bool; f_Flags : bool; f_Envelope : bool; f_RFC822Size : bool; f_InternalDate : bool;
  f_BodySection : list BodySection; f_BodyStructure : bool;
}.
Class ImapExtract := {
  (** [textproto.ReadHeader] followed by [ExtractEnvelope] *)
  ExtractEnvelope : string → option string;
  ExtractBodyStructure : string → string;
  ExtractBodySection : string → string → string;
  MatchList : string → string → string → bool;
}.
(** Updates queued on the tracker for the client. *)
Inductive update :=
| UExpunge (seq : Z)
| UNumMessages (n : Z)
| UFlags (seq uid : Z) (flags : list string).

Definition FlagSeen : string := "\Seen".
Definition FlagDeleted : string := "\Deleted".
Definition system_flags : list string := [FlagSeen; "\Answered"; "\Flagged"; FlagDeleted; "\Draft"].

(** ** The session *)
Inductive item :=
| IUid (u : Z) | IFlags (l : list string) | ISize (n : Z) | IDate (t : Z) | IEnvelope (e : string)
| IStructure (s : string) | ISection (s data : string).
Inductive event :=
| EvFetch (seq : Z) (items : list item)
| EvList (mbox : string)
| EvCopyData (uidValidity : Z) (src dest : list Z)
| EvUpdates (l : list update)
| EvMetric (what domain : string)
| EvConnClosed.

(** [messages = nil] is [None]; the tracker holds the updates the client has not
    been sent. *)
Record imapSession := mkImap {
  username : string; mailbox : string; userDomain : string;
  selectedMailbox : string; selectedUIDValidity : Z;
  messages : option (list MessageInfo); uidIndex : gmap Z Z;
  tracker : option (list update);
  readOnly : bool; subscription : bool; closed : bool;
  trace : list event;
}.
Definition msgs (s : imapSession) : list MessageInfo := default [] (messages s).
Definition set_trace f (s : imapSession) : imapSession :=
  mkImap (username s) (mailbox s) (userDomain s) (selectedMailbox s) (selectedUIDValidity s) (messages s)
    (uidIndex s) (tracker s) (readOnly s) (subscription s) (closed s) (f (trace s)).
Definition set_messages (l : list MessageInfo) (s : imapSession) : imapSession :=
  mkImap (username s) (mailbox s) (userDomain s) (selectedMailbox s) (selectedUIDValidity s) (Some l)
    (uidIndex s) (tracker s) (readOnly s) (subscription s) (closed s) (trace s).
Definition map_messages (f : list MessageInfo → list MessageInfo) (s : imapSession) : imapSession :=
  mkImap (username s) (mailbox s) (userDomain s) (selectedMailbox s) (selectedUIDValidity s) (f <$> messages s)
    (uidIndex s) (tracker s) (readOnly s) (subscription s) (closed s) (trace s).
Definition set_index (m : gmap Z Z) (s : imapSession) : imapSession :=
  mkImap (username s) (mailbox s) (userDomain s) (selectedMailbox s) (selectedUIDValidity s) (messages s)
    m (tracker s) (readOnly s) (subscription s) (closed s) (trace s).
Definition set_validity (v : Z) (s : imapSession) : imapSession :=
  mkImap (username s) (mailbox s) (userDomain s) (selectedMailbox s) v (messages s)
    (uidIndex s) (tracker s) (readOnly s) (subscription s) (closed s) (trace s).
Definition set_tracker (t : option (list update)) (s : imapSession) : imapSession :=
  mkImap (username s) (mailbox s) (userDomain s) (selectedMailbox s) (selectedUIDValidity s) (messages s)
    (uidIndex s) t (readOnly s) (subscription s) (closed s) (trace s).

Definition note (e : event) : imapSession → imapSession := set_trace (λ t, t ++ [e]).
(** [if s.tracker != nil { s.tracker.Queue... }] *)
Definition queue (u : update) (s : imapSession) : imapSession :=
  set_tracker ((λ q, q ++ [u]) <$> tracker s) s.

Definition index_from (i : Z) (m : gmap Z Z) (l : list MessageInfo) : gmap Z Z :=
  (foldl (λ a x, (a.1 + 1, <[UID x := a.1]> a.2)) (i, m) l).2.
Definition buildUIDIndex (s : imapSession) : imapSession := set_index (index_from 0 ∅ (msgs s)) s.

Definition unselect (s : imapSession) : imapSession :=
  mkImap (username s) (mailbox s) (userDomain s) "" (selectedUIDValidity s) None ∅ None
    (readOnly s) (subscription s) (closed s) (trace s).

Definition extractDomain (user : string) : string :=
  match cut_last "@" user with Some (_, d) => d | None => "local" end.
Definition isValidMailboxName (name : string) : bool :=
  negb (bool_decide (name = "") || (Contains name "/" || Contains name "\") ||
        (bool_decide (name = "..") || HasPrefix name "../" || Contains name "/../" || HasSuffix name "/..")).
Definition hasFlag (flags : list string) (flag : string) : bool := bool_decide (flag ∈ flags).

Definition add_flag (result : list string) (f : string) : list string :=
  if decide (f ∈ result) then result else result ++ [f].
Definition applyStoreFlagsStr (current : list string) (st : StoreFlags) : list string :=
  match sf_Op st with
  | StoreFlagsSet => sf_Flags st
  | StoreFlagsAdd => foldl add_flag current (sf_Flags st)
  | StoreFlagsDel => filter (λ f, f ∉ sf_Flags st) current
  end.

Section Resolve.
Context `{ImapNum}.
(** The indices of the messages whose number [num i m] is in a set with [*]: the
    last message is always in it. *)
Definition dynamic_indices (num : Z → MessageInfo → Z) (l : list NumRange) (ms : list MessageInfo) : list Z :=
  let maxIdx := Z.of_nat (length ms) - 1 in
  omap (λ x, let i := Z.of_nat x.1 in
             if ns_Contains l (num i x.2) || (i =? maxIdx) then Some i else None) (imap (λ i m, (i, m)) ms).
Definition resolveNumSet (s : imapSession) (ns : NumSet) : list Z :=
  match ns with
  | SeqSet l =>
      match Nums l with
      | None => dynamic_indices (λ i _, i + 1) l (msgs s)
      | Some nums => (λ n, n - 1) <$> nums
      end
  | UIDSet l =>
      match Nums l with
      | None => dynamic_indices (λ _ m, UID m) l (msgs s)
      | Some uids => omap (λ u, uidIndex s !! u) uids
      end
  end.
End Resolve.

Inductive ierr :=
| INo (code text : string)
| IStoreErr (e : serr)
| IWrite.

Section Commands.
Context {W : Type} `{UnicodeCase, ImapNum, ImapExtract}.
(** The store behind a session with this folder selected under this
    UIDVALIDITY. *)
Context (store_at : string → Z → ImapStore W).
(** Whether a response reaches the client. *)
Context (sent : event → W → bool * W).

Definition iop (A : Type) : Type := imapSession * W → result A ierr * (imapSession * W).
Definition ret {A} (a : A) : iop A := λ st, (Ok a, st).
Definition fail {A} (e : ierr) : iop A := λ st, (Err e, st).
Definition bind {A B} (m : iop A) (k : A → iop B) : iop B := λ st,
  match m st with (Ok a, st) => k a st | (Err e, st) => (Err e, st) end.
Notation "'do' x <- m ; k" := (bind m (λ x, k)) (at level 200, x pattern, m at level 100, k at level 200).
Notation "m ;; k" := (bind m (λ _, k)) (at level 100, k at level 200, right associativity).
Definition get : iop imapSession := λ st, (Ok st.1, st).
Definition put (f : imapSession → imapSession) : iop unit := λ st, (Ok (), (f st.1, st.2)).
(** The outcome of a call whose error the code looks at. *)
Definition attempt {A} (m : iop A) : iop (result A ierr) := λ st, let '(r, st) := m st in (Ok r, st).
Definition emit (e : event) : iop unit := λ '(s, w),
  let '(ok, w) := sent e w in
  if ok : bool then (Ok (), (note e s, w)) else (Err IWrite, (s, w)).
Definition metric (what : string) : iop unit := put (λ s, note (EvMetric what (userDomain s)) s).

Definition store_of (s : imapSession) : ImapStore W := store_at (selectedMailbox s) (selectedUIDValidity s).
Definition call {A} (f : ImapStore W → string → W → result A serr * W) : iop A := λ '(s, w),
  let '(r, w) := f (store_of s) (mailbox s) w in
  (match r with Ok a => Ok a | Err e => Err (IStoreErr e) end, (s, w)).
Definition call_ (f : ImapStore W → string → W → option serr * W) : iop unit := λ '(s, w),
  let '(r, w) := f (store_of s) (mailbox s) w in
  (match r with None => Ok () | Some e => Err (IStoreErr e) end, (s, w)).
Definition folders_or {A} (text : string) (k : FolderStore W → iop A) : iop A :=
  do s <- get;
  match st_folders (im_store (store_of s)) with Some f => k f | None => fail (INo "" text) end.
Notation no_folders := "Folder operations not supported".
Definition folder_call {A} (text : string) (f : FolderStore W → string → W → result A serr * W) : iop A :=
  folders_or text (λ _, call (λ st mb w, match st_folders (im_store st) with
                                         | Some fs => f fs mb w | None => (Err "", w) end)).
Definition folder_call_ (text : string) (f : FolderStore W → string → W → option serr * W) : iop unit :=
  folders_or text (λ _, call_ (λ st mb w, match st_folders (im_store st) with
                                          | Some fs => f fs mb w | None => (Some "", w) end)).
Notation inbox mbox := (EqualFold mbox "INBOX").

(** ** mailbox.go *)
Definition listMessages (mbox : string) : iop (list MessageInfo) :=
  if inbox mbox then call (λ st mb, ms_List (st_messages (im_store st)) mb)
  else folder_call no_folders (λ f mb, fs_ListInFolder f mb mbox).
Definition retrieveMessage (mbox : string) (uid : Z) : iop reader :=
  if inbox mbox then call (λ st mb, ms_Retrieve (st_messages (im_store st)) mb uid)
  else folder_call no_folders (λ f mb, fs_RetrieveFromFolder f mb mbox uid).
Definition deleteMessage (mbox : string) (uid : Z) : iop unit :=
  if inbox mbox then call_ (λ st mb, ms_Delete (st_messages (im_store st)) mb uid)
  else folder_call_ no_folders (λ f mb, fs_DeleteInFolder f mb mbox uid).
Definition expungeMailbox (mbox : string) : iop unit :=
  if inbox mbox then call_ (λ st mb, ms_Expunge (st_messages (im_store st)) mb)
  else folder_call_ no_folders (λ f mb, fs_ExpungeFolder f mb mbox).

Definition getUIDValidity (mbox : string) : iop Z :=
  do r <- attempt (folder_call "" (λ f mb, fs_UIDValidity f mb mbox));
  ret (match r with Ok v => if v =? 0 then 1 else v | Err _ => 1 end).
Definition getUIDNext (mbox : string) : iop Z :=
  do r <- attempt (folder_call "" (λ f mb, fs_UIDNext f mb mbox));
  do s <- get;
  let fallback := match last (msgs s) with Some m => wrap_uint32 (UID m + 1) | None => 1 end in
  ret (match r with Ok v => if v =? 0 then fallback else v | Err _ => fallback end).

Record SelectData := mkSelect {
  sd_Flags : list string; NumMessages : Z; FirstUnseenSeqNum : Z; sd_UIDValidity : Z; sd_UIDNext : Z;
}.
Fixpoint first_unseen (i : Z) (l : list MessageInfo) : Z :=
  match l with
  | [] => 0
  | m :: l => if hasFlag (Flags m) FlagSeen then first_unseen (i + 1) l else i + 1
  end.
Definition select_state (mbox : string) (l : list MessageInfo) (ro : bool) (s : imapSession) : imapSession :=
  let s := unselect s in
  buildUIDIndex
    (mkImap (username s) (mailbox s) (userDomain s) mbox (selectedUIDValidity s) (Some l) (uidIndex s)
       (Some []) ro (subscription s) (closed s) (trace s)).
Definition Select (mbox : string) (readonly : bool) : iop SelectData :=
  do r <- attempt (listMessages mbox);
  match r with
  | Err _ => fail (INo "" "No such mailbox")
  | Ok l =>
      put (select_state mbox l readonly) ;;
      metric "folder selected" ;;
      do uv <- getUIDValidity mbox;
      put (set_validity uv) ;;
      do next <- getUIDNext mbox;
      ret (mkSelect system_flags (Z.of_nat (length l)) (first_unseen 0 l) uv next)
  end.

Definition Create (mbox : string) : iop unit :=
  if inbox mbox then fail (INo "" "INBOX already exists")
  else if negb (isValidMailboxName mbox) then fail (INo "" "Invalid mailbox name")
  else folder_call_ no_folders (λ f mb, fs_CreateFolder f mb mbox).
Definition Delete (mbox : string) : iop unit :=
  if inbox mbox then fail (INo "" "Cannot delete INBOX")
  else if negb (isValidMailboxName mbox) then fail (INo "" "Invalid mailbox name")
  else folder_call_ no_folders (λ f mb, fs_DeleteFolder f mb mbox).
Definition Rename (mbox newName : string) : iop unit :=
  if inbox mbox then fail (INo "" "Cannot rename INBOX")
  else if negb (isValidMailboxName mbox) || negb (isValidMailboxName newName)
       then fail (INo "" "Invalid mailbox name")
  else folder_call_ no_folders (λ f mb, fs_RenameFolder f mb mbox newName).

Fixpoint write_list (ref : string) (patterns : list string) (l : list string) : iop unit :=
  match l with
  | [] => ret ()
  | mbox :: l =>
      (if existsb (MatchList mbox ref) patterns then emit (EvList mbox) else ret ()) ;;
      write_list ref patterns l
  end.
Definition List_ (ref : string) (patterns : list string) : iop unit :=
  do r <- attempt (folder_call "" fs_ListFolders);
  write_list ref patterns ("INBOX" :: match r with Ok l => l | Err _ => [] end).

Record StatusOptions := mkStatusOptions {
  so_NumMessages : bool; so_UIDNext : bool; so_UIDValidity : bool; so_NumUnseen : bool; so_NumRecent : bool;
}.
Record StatusData := mkStatus {
  st_NumMessages : option Z; st_UIDNext : Z; st_UIDValidity : Z; st_NumUnseen : option Z; st_NumRecent : option Z;
}.
Definition unseen (l : list MessageInfo) : Z :=
  Z.of_nat (length (filter (λ m, hasFlag (Flags m) FlagSeen = false) l)).
Definition Status (mbox : string) (o : StatusOptions) : iop StatusData :=
  do l <- listMessages mbox;
  do next <- (if so_UIDNext o then getUIDNext mbox else ret 0);
  do uv <- (if so_UIDValidity o then getUIDValidity mbox else ret 0);
  ret (mkStatus (if so_NumMessages o then Some (Z.of_nat (length l)) else None) next uv
         (if so_NumUnseen o then Some (unseen l) else None)
         (if so_NumRecent o then Some 0 else None)).

(** [now] is the time read; the options may carry flags and a date. *)
Definition Append (now : Z) (mbox data : string) (options : option (list string * Z)) : iop (Z * Z) :=
  folders_or "Append not supported" (λ _,
    if negb (inbox mbox) && negb (isValidMailboxName mbox) then fail (INo "" "Invalid mailbox name")
    else
      let flags := match options with Some (f, _) => f | None => [] end in
      let date := match options with Some (_, t) => if t =? 0 then now else t | None => now end in
      do uid <- folder_call "Append not supported" (λ f mb, fs_AppendToFolder f mb mbox data flags date);
      metric "stored" ;;
      do uv <- getUIDValidity mbox;
      ret (uv, uid)).

(** ** storeops.go *)
(** Messages with their index, last first. *)
Definition descending (l : list MessageInfo) : list (Z * MessageInfo) :=
  reverse (imap (λ i m, (Z.of_nat i, m)) l).
Fixpoint expunge_each (uids : option (list NumRange)) (l : list (Z * MessageInfo)) : iop bool :=
  match l with
  | [] => ret false
  | (i, info) :: l =>
      if match uids with Some u => negb (ns_Contains u (UID info)) | None => false end
         || negb (hasFlag (Flags info) FlagDeleted)
      then expunge_each uids l
      else
        do s <- get;
        do r <- attempt (deleteMessage (selectedMailbox s) (UID info));
        match r with
        | Err _ => expunge_each uids l
        | Ok _ =>
            put (queue (UExpunge (i + 1))) ;; metric "expunged" ;;
            do _ <- expunge_each uids l; ret true
        end
  end.
Definition relist (mbox : string) : iop unit :=
  do l <- listMessages mbox; put (λ s, buildUIDIndex (set_messages l s)).
Definition Expunge (uids : option (list NumRange)) : iop unit :=
  do s <- get;
  match messages s with
  | None => ret ()
  | Some l =>
      do any <- expunge_each uids (descending l);
      if any : bool then expungeMailbox (selectedMailbox s) ;; relist (selectedMailbox s) else ret ()
  end.

(** [s.messages[idx].Flags = flags] *)
Definition with_flags (flags : list string) (m : MessageInfo) : MessageInfo :=
  mkInfo (UID m) (Key m) (Size m) flags (InternalDate m).
Definition set_flags_at (idx : nat) (flags : list string) (s : imapSession) : imapSession :=
  map_messages (alter (with_flags flags) idx) s.
(** The message at an index, when it is one. *)
Definition message_at (s : imapSession) (idx : Z) : option MessageInfo :=
  if idx <? 0 then None else msgs s !! Z.to_nat idx.
Fixpoint store_each (flags : StoreFlags) (indices : list Z) : iop unit :=
  match indices with
  | [] => ret ()
  | idx :: indices =>
      do s <- get;
      match message_at s idx with
      | None => store_each flags indices
      | Some info =>
          let newFlags := applyStoreFlagsStr (Flags info) flags in
          folder_call_ "" (λ f mb, fs_SetFlagsInFolder f mb (selectedMailbox s) (UID info) newFlags) ;;
          put (set_flags_at (Z.to_nat idx) newFlags) ;;
          (if sf_Silent flags then ret ()
           else emit (EvFetch (idx + 1) [IUid (UID info); IFlags newFlags]) ;;
                put (queue (UFlags (idx + 1) (UID info) newFlags))) ;;
          store_each flags indices
      end
  end.
Definition Store (ns : NumSet) (flags : StoreFlags) : iop unit :=
  folders_or "Flag operations not supported" (λ _, do s <- get; store_each flags (resolveNumSet s ns)).

(** *** spamlearn.go and the Junk folder *)
Record spamLearner := mkLearner { baseURL : string; password : string }.
Definition newSpamLearner (url pass : string) : spamLearner := mkLearner (TrimSuffix url "/") pass.
(** [post url headers body]: the status of the answer and its text. *)
Context (post : string → list (string * string) → string → W → result (Z * string) serr * W).
Definition learn (l : spamLearner) (endpoint user : string) (message : reader) (w : W) : option serr * W :=
  match message with
  | ReadFails e => (Some ("reading message: " +:+ e), w)
  | Content data =>
      let headers := [("Content-Type", "text/plain")] ++ (if decide (user = "") then [] else [("Rcpt", user)])
                     ++ (if decide (password l = "") then [] else [("Password", password l)]) in
      match post (baseURL l +:+ "/" +:+ endpoint) headers data w with
      | (Err e, w) => (Some ("sending request: " +:+ e), w)
      | (Ok (status, body), w) =>
          (if status =? 200 then None
           else Some ("rspamd " +:+ endpoint +:+ " returned status " +:+ fmt_d status +:+ ": " +:+ body), w)
      end
  end.
Definition learnSpam l := learn l "learnspam".
Definition learnHam l := learn l "learnham".

(** [cfg.Rspamd] *)
Context (learner : option spamLearner) (JunkFolder : string).
Definition junkFolderName : string := if decide (JunkFolder = "") then "Junk" else JunkFolder.
Definition triggerLearn (src : string) (uid : Z) (toJunk : bool) : iop unit :=
  do r <- attempt (retrieveMessage src uid);
  match r, learner with
  | Ok rc, Some l => λ '(s, w), let '(_, w) := (if toJunk then learnSpam else learnHam) l (username s) rc w in
                                (Ok (), (s, w))
  | _, _ => ret ()
  end.
Definition learn_crossing (src dest : string) (uid : Z) : iop unit :=
  let isJunkSrc := EqualFold src junkFolderName in
  let isJunkDest := EqualFold dest junkFolderName in
  if (match learner with Some _ => true | None => false end) && (isJunkSrc || isJunkDest) && negb (Bool.eqb isJunkSrc isJunkDest)
  then triggerLearn src uid isJunkDest else ret ().

(** One message after the other; the source and new UIDs of those copied. *)
Fixpoint each_message (f : MessageInfo → iop Z) (indices : list Z) : iop (list Z * list Z) :=
  match indices with
  | [] => ret ([], [])
  | idx :: indices =>
      do s <- get;
      match message_at s idx with
      | None => each_message f indices
      | Some info =>
          do new <- f info;
          do r <- each_message f indices;
          ret (UID info :: r.1, new :: r.2)
      end
  end.
Definition bad_dest (dest : string) : bool := negb (inbox dest) && negb (isValidMailboxName dest).

Definition Copy (ns : NumSet) (dest : string) : iop (Z * list Z * list Z) :=
  folders_or "Copy not supported" (λ _,
    if bad_dest dest then fail (INo "" "Invalid mailbox name")
    else
      do s <- get;
      do r <- each_message (λ info,
                learn_crossing (selectedMailbox s) dest (UID info) ;;
                folder_call "" (λ f mb, fs_CopyMessage f mb (selectedMailbox s) (UID info) dest))
              (resolveNumSet s ns);
      do uv <- getUIDValidity dest;
      ret (uv, r.1, r.2)).

Definition sort_Ints (l : list Z) : list Z := merge_sort Z.le l.
Definition move_one (src dest : string) (info : MessageInfo) : iop Z :=
  learn_crossing src dest (UID info) ;;
  do s <- get;
  match im_mover (store_of s) with
  | Some mv => call (λ st mb w, match im_mover st with
                                | Some mv => mv mb src (UID info) dest w | None => (Err "", w) end)
  | None =>
      do new <- folder_call "" (λ f mb, fs_CopyMessage f mb src (UID info) dest);
      deleteMessage src (UID info) ;; ret new
  end.
Fixpoint queue_moved (indices : list Z) : iop unit :=
  match indices with
  | [] => ret ()
  | idx :: indices =>
      do s <- get;
      match message_at s idx with
      | None => queue_moved indices
      | Some _ => put (queue (UExpunge (idx + 1))) ;; metric "expunged" ;; queue_moved indices
      end
  end.
Definition Move (ns : NumSet) (dest : string) : iop unit :=
  folders_or "Move not supported" (λ _,
    if bad_dest dest then fail (INo "" "Invalid mailbox name")
    else
      do s <- get;
      let indices := sort_Ints (resolveNumSet s ns) in
      let src := selectedMailbox s in
      do r <- each_message (move_one src dest) indices;
      (match im_mover (store_of s), indices with
       | None, _ :: _ => expungeMailbox src
       | _, _ => ret ()
       end) ;;
      do uv <- getUIDValidity dest;
      emit (EvCopyData uv r.1 r.2) ;;
      queue_moved (reverse indices) ;;
      relist src).

(** ** fetch.go *)
Definition is_seen_needed (o : FetchOptions) : bool := existsb (λ x, negb (Peek x)) (f_BodySection o).
Definition needs_content (o : FetchOptions) : bool :=
  f_Envelope o || f_RFC822Size o || f_InternalDate o || (match f_BodySection o with [] => false | _ => true end)
  || f_BodyStructure o.

(** The items of one answer; [content] is read when something needs it, [now] is
    the time read for a message without a date. *)
Definition answer_items (now : Z) (info : MessageInfo) (content : string) (o : FetchOptions) : list item :=
  (if f_RFC822Size o
   then [ISize (if Size info =? 0 then Z.of_nat (String.length content) else Size info)] else []) ++
  (if f_InternalDate o
   then [IDate (if InternalDate info =? 0 then now else InternalDate info)] else []) ++
  (if f_Envelope o then match ExtractEnvelope content with Some e => [IEnvelope e] | None => [] end else []) ++
  (if f_BodyStructure o then [IStructure (ExtractBodyStructure content)] else []) ++
  ((λ x, ISection (section x) (ExtractBodySection content (section x))) <$> f_BodySection o).
Definition first_items (info : MessageInfo) (o : FetchOptions) : list item :=
  (if f_UID o then [IUid (UID info)] else []) ++ (if f_Flags o then [IFlags (Flags info)] else []).

(** The first message with this UID gets the flags. *)
Fixpoint set_flags_uid (uid : Z) (flags : list string) (l : list MessageInfo) : list MessageInfo :=
  match l with
  | [] => []
  | m :: l => if decide (UID m = uid) then with_flags flags m :: l else m :: set_flags_uid uid flags l
  end.
Definition mark_seen (info : MessageInfo) : iop unit :=
  do s <- get;
  if readOnly s || hasFlag (Flags info) FlagSeen then ret ()
  else
    let newFlags := applyStoreFlagsStr (Flags info) (mkStoreFlags StoreFlagsAdd false [FlagSeen]) in
    match st_folders (im_store (store_of s)) with
    | None => ret ()
    | Some _ =>
        attempt (folder_call_ "" (λ f mb, fs_SetFlagsInFolder f mb (selectedMailbox s) (UID info) newFlags)) ;;
        put (map_messages (set_flags_uid (UID info) newFlags))
    end.
Definition read_content (seq : Z) (info : MessageInfo) (o : FetchOptions) : iop string :=
  if needs_content o then
    do s <- get;
    do r <- attempt (retrieveMessage (selectedMailbox s) (UID info));
    match r with
    | Ok (Content data) => ret data
    | Ok (ReadFails e) => attempt (emit (EvFetch seq (first_items info o))) ;; fail (IStoreErr e)
    | Err e => attempt (emit (EvFetch seq (first_items info o))) ;; fail e
    end
  else ret "".
Definition fetchMessage (now seq : Z) (info : MessageInfo) (o : FetchOptions) : iop unit :=
  do content <- read_content seq info o;
  (if f_RFC822Size o then metric "fetched" else ret ()) ;;
  (if is_seen_needed o then mark_seen info else ret ()) ;;
  emit (EvFetch seq (first_items info o ++ answer_items now info content o)).
Fixpoint fetch_each (now : Z) (o : FetchOptions) (indices : list Z) : iop unit :=
  match indices with
  | [] => ret ()
  | idx :: indices =>
      do s <- get;
      match message_at s idx with
      | None => fetch_each now o indices
      | Some info => fetchMessage now (idx + 1) info o ;; fetch_each now o indices
      end
  end.
Definition Fetch (now : Z) (ns : NumSet) (o : FetchOptions) : iop unit :=
  do s <- get; fetch_each now o (resolveNumSet s ns).

(** ** session.go: login, polling, IDLE, closing *)
(** The recovering session's login gives the mailbox, or fails. *)
Context (sm_Login : string → string → string → W → result string serr * W).
Definition DefaultFolders : list string := ["Junk"; "Trash"; "Sent"; "Drafts"; "List"; "Bulk"].
Fixpoint ensureDefaultFolders (l : list string) : iop unit :=
  match l with
  | [] => ret ()
  | n :: l => attempt (folder_call_ "" (λ f mb, fs_CreateFolder f mb n)) ;; ensureDefaultFolders l
  end.
Definition NewSession : imapSession := mkImap "" "" "" "" 0 None ∅ None false false false [].
(** [subscriber]: whether notifications are configured. *)
Definition Login (subscriber : bool) (user pass clientIP : string) : iop unit := λ '(s, w),
  match sm_Login user pass clientIP w with
  | (Err _, w) =>
      (Err (INo "AUTHENTICATIONFAILED" "Authentication failed"),
       (note (EvMetric "auth failed" (extractDomain user)) s, w))
  | (Ok mbox, w) =>
      let s := mkImap user mbox (extractDomain user) (selectedMailbox s) (selectedUIDValidity s) (messages s)
                 (uidIndex s) (tracker s) (readOnly s) (subscription s) (closed s) (trace s) in
      (ensureDefaultFolders DefaultFolders ;;
       put (λ s, mkImap (username s) (mailbox s) (userDomain s) (selectedMailbox s) (selectedUIDValidity s)
                   (messages s) (uidIndex s) (tracker s) (readOnly s) (subscriber || subscription s) (closed s)
                   (trace s)) ;;
       metric "auth ok") (s, w)
  end.

(** The tracker's choice of which updates go out now: written, kept. *)
Context (tracker_poll : bool → list update → list update * list update).
Definition Poll (allowExpunge : bool) : iop unit :=
  do s <- get;
  match tracker s with
  | None => ret ()
  | Some q =>
      let '(out, kept) := tracker_poll allowExpunge q in
      put (set_tracker (Some kept)) ;; (match out with [] => ret () | _ => emit (EvUpdates out) end)
  end.

Definition newMessagesSinceLastReport (folder : string) : iop (list MessageInfo) :=
  do s <- get;
  let known := UID <$> msgs s in
  do all <- listMessages folder;
  ret (filter (λ m, UID m ∉ known) all).

(** What wakes the IDLE loop. [torn]: the session was closed or another folder
    selected while the folder was listed. *)
Inductive idle_event := IdClosed | IdStop | IdChannelClosed (closed : bool) | IdNotify (payload : string) (torn : bool).
Inductive idle_end :=
| IdleReturns (r : result unit ierr)
| IdleTracker                            (** the tracker's own blocking idle *)
| IdleWaits.                             (** the loop waits for the next event *)
Definition idle_step (e : idle_event) : imapSession * W → idle_end * (imapSession * W) := λ st,
  match e with
  | IdClosed => (IdleReturns (Ok ()), st)
  | IdStop => let '(r, st) := Poll true st in (IdleReturns r, st)
  | IdChannelClosed c => (if c : bool then IdleReturns (Ok ()) else IdleTracker, st)
  | IdNotify payload torn =>
      let selected := selectedMailbox st.1 in
      if negb (EqualFold payload selected) then (IdleWaits, st)
      else
        match newMessagesSinceLastReport selected st with
        | (Err (IStoreErr e), st) =>
            (if im_fatal (store_of st.1) e then IdleReturns (Err (IStoreErr e)) else IdleWaits, st)
        | (Err e, st) => (IdleWaits, st)
        | (Ok [], st) => (IdleWaits, st)
        | (Ok new, (s, w)) =>
            if torn : bool then (IdleReturns (Ok ()), (s, w))
            else
              let s := buildUIDIndex (set_messages (msgs s ++ new) s) in
              let s := queue (UNumMessages (Z.of_nat (length (msgs s)))) s in
              match Poll false (s, w) with
              | (Ok _, st) => (IdleWaits, st)
              | (Err e, st) => (IdleReturns (Err e), st)
              end
        end
  end.
Fixpoint idle_loop (evs : list idle_event) (st : imapSession * W) : idle_end * (imapSession * W) :=
  match evs with
  | [] => (IdleWaits, st)
  | e :: evs => match idle_step e st with
                | (IdleWaits, st) => idle_loop evs st
                | r => r
                end
  end.
Definition Idle (evs : list idle_event) (st : imapSession * W) : idle_end * (imapSession * W) :=
  match tracker st.1 with
  | None => (IdleReturns (Ok ()), st)
  | Some _ => if subscription st.1 then idle_loop evs st else (IdleTracker, st)
  end.

(** One tick of the keepalive: [failingSince] is zero or the time of the first
    failure in a row; the connection is closed when recovery is refused or takes
    too long. *)
Definition keepalive_tick (recoveryDeadline now : Z) (failingSince : option Z) (folder : string)
    : iop (option (option Z)) :=
  do r <- attempt (folder_call "" (λ f mb, fs_UIDValidity f mb folder));
  do s <- get;
  match r with
  | Ok _ => ret (Some None)
  | Err e =>
      let since := default now failingSince in
      let fatal := match e with IStoreErr e => im_fatal (store_of s) e | _ => false end in
      if fatal || (recoveryDeadline <? now - since)
      then put (note EvConnClosed) ;; ret None
      else ret (Some (Some since))
  end.

Definition Unselect : iop unit := put unselect.
(** [tls]: the transport is TLS and its handshake completed. *)
Definition Close (tls : bool) : iop unit :=
  put (λ s, mkImap (username s) (mailbox s) (userDomain s) (selectedMailbox s) (selectedUIDValidity s)
              (messages s) (uidIndex s) (tracker s) (readOnly s) (subscription s) true (trace s)) ;;
  put unselect ;;
  put (λ s, mkImap (username s) (mailbox s) (userDomain s) (selectedMailbox s) (selectedUIDValidity s)
              (messages s) (uidIndex s) (tracker s) (readOnly s) false (closed s) (trace s)) ;;
  do s <- get;
  (match im_close (store_of s) with
   | Some c => λ '(s, w), let '(_, w) := c w in (Ok (), (s, w))
   | None => ret ()
   end) ;;
  (if tls then metric "tls connection" else ret ()) ;;
  metric "connection closed".
Definition Subscribe (_ : string) : iop unit := ret ().
Definition Unsubscribe (_ : string) : iop unit := ret ().
End Commands.
