(* ===== verification/ImapFacts.v ===== *)
(** * Correctness of imapd's session

    What holds of [ImapSession] for any store: number sets select the messages
    RFC 9051 says they denote; the UID index always belongs to the message list;
    EXPUNGE and MOVE queue exactly the updates that take the client's numbering
    to the new list; IDLE announces each listed message once and never renumbers. *)
From S2P Require Import Prelude GoStrings MsgStore Keyring MsgCrypt ImapStore ImapSession.
From Stdlib Require Import ZArith Lia Ascii.
Open Scope string_scope.
Open Scope list_scope.
Open Scope Z_scope.

(** ** Number sets *)
(** What a range denotes in a mailbox whose last number is [mx] (RFC 9051, 9):
    [*] is that number, and the bounds may come in either order. *)
Definition in_range (mx : Z) (r : NumRange) (n : Z) : Prop :=
  let a := if Start r =? 0 then mx else Start r in
  let b := if Stop r =? 0 then mx else Stop r in
  Z.min a b <= n <= Z.max a b.
Definition denotes (mx : Z) (l : list NumRange) (n : Z) : Prop := Exists (λ r, in_range mx r n) l.
(** The library keeps [*] last in a range and bounds in order. *)
Definition canonical (l : list NumRange) : Prop :=
  Forall (λ r, 0 <= Start r ∧ 0 <= Stop r ∧ (Stop r = 0 ∨ 0 < Start r <= Stop r)) l.

(** Documented behaviour of go-imap's sets. *)
Class ImapNumLaws `{ImapNum} : Prop := {
  nums_dynamic l : Nums l = None ↔ Exists (λ r, Start r = 0 ∨ Stop r = 0) l;
  nums_static l ns : Nums l = Some ns →
    NoDup ns ∧ ∀ n, n ∈ ns ↔ Exists (λ r, Start r <= n <= Stop r) l;
  contains_range l n : 0 < n → ns_Contains l n = true ↔
    Exists (λ r, Start r ≠ 0 ∧ Start r <= n ∧ (n <= Stop r ∨ Stop r = 0)) l;
}.

Section NumSets.
Context `{ImapNumLaws}.

(** For a number of the mailbox, a set with [*] denotes what it contains, and
    the last number. *)
Lemma dynamic_denotes l mx n : canonical l → Nums l = None → 0 < n <= mx →
  denotes mx l n ↔ ns_Contains l n = true ∨ n = mx.
Proof.
  intros Hc Hd%nums_dynamic Hn. rewrite (contains_range l n) by lia. unfold denotes. split.
  - intros Hx. rewrite Exists_exists in Hx. destruct Hx as (r & Hr & Hi).
    rewrite Exists_exists. pose proof (proj1 (Forall_forall _ _) Hc r Hr) as (H1 & H2 & H3).
    unfold in_range in Hi. destruct (Z.eqb_spec (Start r) 0), (Z.eqb_spec (Stop r) 0); [lia|lia| |].
    + destruct (decide (n = mx)); [by right|]. left. exists r. split; [done|lia].
    + left. exists r. split; [done|lia].
  - intros [Hx| ->].
    + rewrite Exists_exists in Hx |- *. destruct Hx as (r & Hr & H1 & H2 & H3).
      exists r. split; [done|]. unfold in_range.
      destruct (Z.eqb_spec (Start r) 0), (Z.eqb_spec (Stop r) 0); lia.
    + rewrite Exists_exists in Hd |- *. destruct Hd as (r & Hr & Hz).
      exists r. split; [done|]. pose proof (proj1 (Forall_forall _ _) Hc r Hr) as (H1 & H2 & H3).
      unfold in_range. destruct (Z.eqb_spec (Start r) 0), (Z.eqb_spec (Stop r) 0); lia.
Qed.

Lemma static_denotes l ns mx n : canonical l → Nums l = Some ns → denotes mx l n ↔ n ∈ ns.
Proof.
  intros Hc Hs. destruct (nums_static l ns Hs) as [_ ->].
  assert (¬ Exists (λ r, Start r = 0 ∨ Stop r = 0) l) as Hz.
  { intros Hx%nums_dynamic. congruence. }
  unfold denotes. rewrite !Exists_exists.
  split; intros (r & Hr & Hi); exists r; (split; [done|]);
    (assert (Start r ≠ 0 ∧ Stop r ≠ 0) as [Hs0 Hs1]
       by (split; intros E; apply Hz, Exists_exists; exists r; auto));
    pose proof (proj1 (Forall_forall _ _) Hc r Hr) as (H1 & H2 & H3); unfold in_range in *;
    destruct (Z.eqb_spec (Start r) 0), (Z.eqb_spec (Stop r) 0); lia.
Qed.

(** *** Indices of a dynamic set *)
Lemma imap_pairs_lookup (ms : list MessageInfo) k :
  imap (λ i m, (i, m)) ms !! k = (λ m, (k, m)) <$> ms !! k.
Proof. by rewrite list_lookup_imap. Qed.

Lemma dynamic_indices_spec num l ms i :
  i ∈ dynamic_indices num l ms ↔
  ∃ k m, ms !! k = Some m ∧ i = Z.of_nat k ∧
    (ns_Contains l (num i m) = true ∨ i = Z.of_nat (length ms) - 1).
Proof.
  unfold dynamic_indices. rewrite list_elem_of_omap. split.
  - intros ([k m] & Hin & Hx). apply list_elem_of_lookup in Hin as [j Hj].
    rewrite imap_pairs_lookup in Hj. destruct (ms !! j) as [m'|] eqn:Em; [|done]. injection Hj as -> ->.
    cbn [fst snd] in Hx. destruct (_ || _) eqn:Eo; [|done]. injection Hx as <-.
    exists k, m. split; [done|]. split; [done|].
    apply orb_true_iff in Eo as [Eo|Eo]; [by left|right; lia].
  - intros (k & m & Hm & -> & Ho). exists (k, m). split.
    + apply list_elem_of_lookup. exists k. rewrite imap_pairs_lookup, Hm. done.
    + cbn [fst snd]. destruct Ho as [-> | ->]; [done|]. rewrite Z.eqb_refl, orb_true_r. done.
Qed.

Lemma imap_pairs_NoDup (ms : list MessageInfo) : NoDup (imap (λ i m, (i, m)) ms).
Proof.
  apply NoDup_alt. intros i j [a m] Hi Hj. rewrite imap_pairs_lookup in Hi, Hj.
  destruct (ms !! i); [|done]. destruct (ms !! j); [|done]. simpl in *. congruence.
Qed.
Lemma dynamic_indices_NoDup num l ms : NoDup (dynamic_indices num l ms).
Proof.
  apply NoDup_omap_inj; [apply imap_pairs_NoDup|]. intros [i m] [j m'] z Hi Hj.
  apply list_elem_of_lookup in Hi as [k Hk], Hj as [k' Hk']. rewrite imap_pairs_lookup in Hk, Hk'.
  destruct (ms !! k) eqn:E1; [|done]. destruct (ms !! k') eqn:E2; [|done].
  injection Hk as -> ->. injection Hk' as -> ->. cbn [fst snd].
  destruct (_ || _); [|done]. intros [= <-]. destruct (_ || _); [|done]. intros [= E].
  assert (i = j) as -> by lia. congruence.
Qed.

(** *** The UID index *)
Lemma index_from_spec i m ms : NoDup (UID <$> ms) → 0 <= i →
  (∀ u k, m !! u = Some k → 0 <= k < i ∧ u ∉ UID <$> ms) →
  ∀ u k, index_from i m ms !! u = Some k ↔
    m !! u = Some k ∨ ∃ j x, ms !! j = Some x ∧ UID x = u ∧ k = i + Z.of_nat j.
Proof.
  unfold index_from. revert i m. induction ms as [|x ms IH]; intros i m Hnd Hi Hm u k.
  { simpl. split; [by left|]. intros [?|(j & x & Hx & _)]; [done|by rewrite lookup_nil in Hx]. }
  rewrite fmap_cons in Hnd. apply NoDup_cons in Hnd as [Hx Hnd]. cbn [foldl fst snd].
  rewrite IH; [|done|lia|].
  - split.
    + intros [Hl|(j & y & Hy & Hu & ->)].
      * destruct (decide (u = UID x)) as [->|Hne].
        -- rewrite lookup_insert_eq in Hl. injection Hl as <-. right. exists O, x. split; [done|]. lia.
        -- rewrite lookup_insert_ne in Hl by done. by left.
      * right. exists (S j), y. split; [done|]. split; [done|]. lia.
    + intros [Hl|(j & y & Hy & Hu & ->)].
      * left. rewrite lookup_insert_ne; [done|]. intros <-. destruct (Hm _ _ Hl) as [_ Hn].
        apply Hn. rewrite fmap_cons. by left.
      * destruct j as [|j]; simpl in Hy.
        -- injection Hy as ->. left. subst u. rewrite lookup_insert_eq. f_equal. lia.
        -- right. exists j, y. split; [done|]. split; [done|]. lia.
  - intros v k' Hl. destruct (decide (v = UID x)) as [->|Hne].
    + rewrite lookup_insert_eq in Hl. injection Hl as <-. split; [lia|done].
    + rewrite lookup_insert_ne in Hl by done. destruct (Hm _ _ Hl) as [Hk Hn]. split; [lia|].
      intros Hin. apply Hn. rewrite fmap_cons. by right.
Qed.
Lemma index_lookup ms u k : NoDup (UID <$> ms) →
  index_from 0 ∅ ms !! u = Some k ↔ ∃ j x, ms !! j = Some x ∧ UID x = u ∧ k = Z.of_nat j.
Proof.
  intros Hnd. rewrite index_from_spec; [|done|lia|intros v k' Hl; by rewrite lookup_empty in Hl].
  split; [intros [Hl|Hx]; [by rewrite lookup_empty in Hl|exact Hx]|by right].
Qed.
End NumSets.

(** ** The selected mailbox *)
(** The listing of a mailbox: positive UIDs in ascending order. *)
Definition listing_ok (ms : list MessageInfo) : Prop :=
  StronglySorted Z.lt (UID <$> ms) ∧ Forall (λ m, 0 < UID m) ms.
Definition index_ok (s : imapSession) : Prop := uidIndex s = index_from 0 ∅ (msgs s).
(** The number the set is about, and the last number of the mailbox. *)
Definition number_of (ns : NumSet) (i : nat) (m : MessageInfo) : Z :=
  match ns with SeqSet _ => Z.of_nat i + 1 | UIDSet _ => UID m end.
Definition last_number (ns : NumSet) (ms : list MessageInfo) : Z :=
  match ns with
  | SeqSet _ => Z.of_nat (length ms)
  | UIDSet _ => match last ms with Some m => UID m | None => 0 end
  end.
Definition ranges (ns : NumSet) : list NumRange := match ns with SeqSet l | UIDSet l => l end.

Section Listing.
Lemma listing_NoDup ms : listing_ok ms → NoDup (UID <$> ms).
Proof.
  intros [Hs _]. induction Hs as [|u us Hus IH Hlt]; [constructor|]. apply NoDup_cons. split; [|done].
  intros Hin. rewrite Forall_forall in Hlt. specialize (Hlt u Hin). lia.
Qed.
Lemma listing_last ms k m : listing_ok ms → ms !! k = Some m →
  0 < UID m <= last_number (UIDSet []) ms ∧
  (UID m = last_number (UIDSet []) ms ↔ Z.of_nat k = Z.of_nat (length ms) - 1).
Proof.
  intros Hok Hm. pose proof (listing_NoDup ms Hok) as Hnd. destruct Hok as [Hs Hp].
  pose proof (proj1 (Forall_forall _ _) Hp m (list_elem_of_lookup_2 _ _ _ Hm)) as Hpos. simpl in Hpos.
  pose proof (lookup_lt_Some _ _ _ Hm) as Hk. simpl.
  destruct (last ms) as [z|] eqn:El.
  2:{ apply last_None in El. subst ms. by rewrite lookup_nil in Hm. }
  rewrite last_lookup in El.
  assert (Hz : (UID <$> ms) !! pred (length ms) = Some (UID z)) by (by rewrite list_lookup_fmap, El).
  assert (Hu : (UID <$> ms) !! k = Some (UID m)) by (by rewrite list_lookup_fmap, Hm).
  destruct (decide (k = pred (length ms))) as [->|Hne].
  - rewrite El in Hm. injection Hm as ->. split; [lia|]. split; lia.
  - assert (UID m < UID z); [|split; [lia|split; lia]].
    rewrite <- (take_drop_middle _ _ _ Hu) in Hs. apply StronglySorted_app_1_r in Hs as Hs2.
    apply StronglySorted_cons in Hs2 as [Hall _]. rewrite Forall_forall in Hall. apply Hall.
    apply list_elem_of_lookup. exists (pred (length ms) - S k)%nat. rewrite lookup_drop, <- Hz. f_equal. lia.
Qed.
End Listing.

Section ResolveExact.
Context `{ImapNumLaws}.

(** The messages a command acts on are exactly those its number set denotes:
    for sequence numbers and for UIDs, with or without [*], an index of the list
    is resolved if and only if the number of the message there lies in one of the
    ranges, [*] being the last number of the mailbox; and none is resolved twice. *)
Lemma resolve_exact (s : imapSession) (ns : NumSet) :
  listing_ok (msgs s) → index_ok s → canonical (ranges ns) →
  NoDup (resolveNumSet s ns) ∧
  ∀ i m, msgs s !! i = Some m →
    Z.of_nat i ∈ resolveNumSet s ns ↔ denotes (last_number ns (msgs s)) (ranges ns) (number_of ns i m).
Proof.
  intros Hok Hix Hc. pose proof (listing_NoDup _ Hok) as Hnd.
  destruct ns as [l|l]; cbn [ranges] in Hc; unfold resolveNumSet; cbn [ranges number_of];
    destruct (Nums l) as [nums|] eqn:En.
  - destruct (nums_static l nums En) as [Hn _]. split; [apply NoDup_fmap_2; [intros ??; lia|done]|].
    intros i m Hm. rewrite (static_denotes l nums _ _ Hc En), list_elem_of_fmap. split.
    + intros (n & Hin & Hx). by replace (Z.of_nat i + 1) with n by lia.
    + intros Hx. eexists. split; [|exact Hx]. lia.
  - split; [apply dynamic_indices_NoDup|]. intros i m Hm. pose proof (lookup_lt_Some _ _ _ Hm) as Hi.
    cbn [last_number]. rewrite dynamic_denotes by (done || lia). rewrite dynamic_indices_spec. split.
    + intros (k & m' & Hk & E & Ho). assert (k = i) as -> by lia. destruct Ho; [by left|right; lia].
    + intros Ho. exists i, m. split; [done|]. split; [done|]. destruct Ho; [by left|right; lia].
  - destruct (nums_static l nums En) as [Hn _]. rewrite Hix. split.
    + apply NoDup_omap_inj; [done|]. intros u v z _ _ Hu%index_lookup Hv%index_lookup; [|done..].
      destruct Hu as (j & x & Hx & <- & ->), Hv as (j' & y & Hy & <- & E).
      assert (j = j') as -> by lia. congruence.
    + intros i m Hm. rewrite (static_denotes l nums _ _ Hc En), list_elem_of_omap. split.
      * intros (u & Hu & (j & x & Hx & <- & E)%index_lookup); [|done]. assert (j = i) as -> by lia.
        by rewrite Hm in Hx; injection Hx as <-.
      * intros Hu. exists (UID m). split; [done|]. apply index_lookup; [done|]. by exists i, m.
  - split; [apply dynamic_indices_NoDup|]. intros i m Hm.
    destruct (listing_last _ _ _ Hok Hm) as [Hr Hl]. change (last_number (UIDSet l)) with (last_number (UIDSet [])).
    rewrite dynamic_denotes by done. rewrite dynamic_indices_spec. split.
    + intros (k & m' & Hk & E & Ho). assert (k = i) as -> by lia. rewrite Hm in Hk. injection Hk as <-.
      destruct Ho as [Ho|Ho]; [by left|right; by apply Hl].
    + intros Ho. exists i, m. split; [done|]. split; [done|]. destruct Ho as [Ho|Ho]; [by left|right; by apply Hl].
Qed.
End ResolveExact.

(** ** The index belongs to the list *)
Definition good (s : imapSession) : Prop := index_ok s.

Lemma index_from_uids i m l l' : UID <$> l = UID <$> l' → index_from i m l = index_from i m l'.
Proof.
  unfold index_from. revert i m l'. induction l as [|x l IH]; intros i m [|y l'] E; try done.
  rewrite !fmap_cons in E. injection E as Ex E. cbn [foldl fst snd]. rewrite Ex. by apply IH.
Qed.
(** The index holds the positions of the list, whatever the list. *)
Lemma index_from_points i m l u k : index_from i m l !! u = Some k →
  (∃ j x, k = i + Z.of_nat j ∧ l !! j = Some x ∧ UID x = u) ∨ m !! u = Some k.
Proof.
  unfold index_from. revert i m. induction l as [|x l IH]; intros i m; [by right|]. cbn [foldl fst snd].
  intros [(j & y & -> & Hy & Hu)|Hm]%IH; [left; exists (S j), y; split_and!; [lia|done|done]|].
  apply lookup_insert_Some in Hm as [[Hu <-]|[_ Hm]]; [left; exists 0%nat, x; split_and!; [lia|done|done]|by right].
Qed.
Lemma index_from_has i m l u : u ∈ UID <$> l ∨ is_Some (m !! u) → is_Some (index_from i m l !! u).
Proof.
  unfold index_from. revert i m. induction l as [|x l IH]; intros i m; cbn [foldl fst snd].
  { by intros [?%elem_of_nil|?]. }
  rewrite fmap_cons, elem_of_cons. intros Hu. apply IH. destruct (decide (UID x = u)) as [<-|Hn].
  - right. by rewrite lookup_insert_eq.
  - rewrite lookup_insert_ne by done. destruct Hu as [[?|?]|?]; [congruence|by left|by right].
Qed.
(** Changing flags changes neither. *)
Lemma good_map f s : (∀ l, UID <$> f l = UID <$> l) → good s → good (map_messages f s).
Proof.
  intros Hf Hi. unfold good, index_ok, msgs in *. cbn [map_messages messages uidIndex].
  destruct (messages s) as [l|]; simpl in *; [|done]. rewrite Hi. symmetry. apply index_from_uids, Hf.
Qed.
Lemma alter_uids flags (i : nat) (l : list MessageInfo) : UID <$> alter (with_flags flags) i l = UID <$> l.
Proof. revert i. induction l as [|x l IH]; intros [|i]; simpl; [done..|]. f_equal. apply IH. Qed.
Lemma set_flags_uid_uids u flags l : UID <$> set_flags_uid u flags l = UID <$> l.
Proof. induction l as [|x l IH]; [done|]. simpl. destruct (decide _); simpl; [done|]. f_equal. apply IH. Qed.
Lemma good_build l s : good (buildUIDIndex (set_messages l s)).
Proof. done. Qed.
Lemma good_unselect s : good (unselect s).
Proof. done. Qed.
(** Fields the invariant does not read. *)
Lemma good_same s s' : uidIndex s' = uidIndex s → messages s' = messages s → good s → good s'.
Proof. unfold good, index_ok, msgs. by intros -> ->. Qed.

Section Keeps.
Context {W : Type}.
Context (P : imapSession → Prop).
Implicit Types (st : imapSession * W).
Definition keeps {A} (m : iop (W := W) A) : Prop := ∀ st, P st.1 → P (m st).2.1.

Lemma steady_ret {A} (a : A) : keeps (ret a). Proof. by intros st. Qed.
Lemma steady_fail {A} e : keeps (A := A) (fail e). Proof. by intros st. Qed.
Lemma steady_get : keeps get. Proof. by intros st. Qed.
Lemma steady_put f : (∀ s, P s → P (f s)) → keeps (put f).
Proof. intros Hf st. apply Hf. Qed.
Lemma steady_bind {A B} (m : iop A) (k : A → iop B) :
  keeps m → (∀ a, keeps (k a)) → keeps (bind m k).
Proof.
  intros Hm Hk st Hst. specialize (Hm st Hst). unfold bind. destruct (m st) as [[a|e] st1]; [|done].
  by apply Hk.
Qed.
Lemma steady_attempt {A} (m : iop A) : keeps m → keeps (attempt m).
Proof. intros Hm st Hst. specialize (Hm st Hst). unfold attempt. by destruct (m st). Qed.
Lemma steady_call store_at {A} f : keeps (A := A) (call store_at f).
Proof. intros [s w] Hst. unfold call. by destruct (f _ _ _). Qed.
Lemma steady_call_ store_at f : keeps (call_ store_at f).
Proof. intros [s w] Hst. unfold call_. by destruct (f _ _ _). Qed.
Lemma steady_folders_or store_at {A} t (k : _ → iop A) : (∀ f, keeps (k f)) → keeps (folders_or store_at t k).
Proof. intros Hk. apply steady_bind; [apply steady_get|]. intros s. destruct (st_folders _); [apply Hk|apply steady_fail]. Qed.
Lemma steady_folder_call store_at {A} t f : keeps (A := A) (folder_call store_at t f).
Proof. apply steady_folders_or. intros _. apply steady_call. Qed.
Lemma steady_folder_call_ store_at t f : keeps (folder_call_ store_at t f).
Proof. apply steady_folders_or. intros _. apply steady_call_. Qed.
End Keeps.

Create HintDb keeps discriminated.
#[export] Hint Resolve steady_ret steady_fail steady_get steady_attempt steady_call steady_call_
  steady_folder_call steady_folder_call_ : keeps.
(** Take an operation apart down to its calls and updates. *)
Ltac keep :=
  repeat first
    [ solve [eauto 3 with keeps]
    | apply steady_bind; [|intros ?]
    | apply steady_attempt
    | apply steady_folders_or; intros ?
    | progress cbv beta zeta
    | match goal with |- keeps _ (match ?x with _ => _ end) => destruct x eqn:? end ].

(** The methods the IMAP server calls, with what the environment adds to them. *)
Inductive command :=
| CLogin (subscriber : bool) (user pass ip : string)
| CSelect (mbox : string) (readonly : bool) | CUnselect
| CCreate (mbox : string) | CDelete (mbox : string) | CRename (mbox new : string)
| CList (ref : string) (patterns : list string) | CStatus (mbox : string) (o : StatusOptions)
| CAppend (now : Z) (mbox data : string) (o : option (list string * Z))
| CExpunge (uids : option (list NumRange)) | CStore (ns : NumSet) (flags : StoreFlags)
| CCopy (ns : NumSet) (dest : string) | CMove (ns : NumSet) (dest : string)
| CFetch (now : Z) (ns : NumSet) (o : FetchOptions)
| CPoll (allowExpunge : bool) | CIdle (evs : list idle_event)
| CKeepalive (deadline now : Z) (since : option Z) (folder : string)
| CClose (tls : bool).

Section Invariant.
Context {W : Type} `{UnicodeCase, ImapNum, ImapExtract}.
Context (store_at : string → Z → ImapStore W) (sent : event → W → bool * W).
Context (post : string → list (string * string) → string → W → result (Z * string) serr * W).
Context (learner : option spamLearner) (JunkFolder : string).
Context (sm_Login : string → string → string → W → result string serr * W).
Context (tracker_poll : bool → list update → list update * list update).
Notation keeps := (keeps good).

Lemma steady_emit e : keeps (emit sent e).
Proof using Type. intros [s w] Hs. unfold emit. destruct (sent e w) as [[] w']; [|done]. by eapply good_same, Hs. Qed.
Lemma steady_put_same f : (∀ s, uidIndex (f s) = uidIndex s ∧ messages (f s) = messages s) → keeps (put (W := W) f).
Proof using Type. intros Hf. apply steady_put. intros s. destruct (Hf s). by apply good_same. Qed.
Lemma steady_metric w : keeps (metric (W := W) w).
Proof using Type. by apply steady_put_same. Qed.
Lemma steady_queue u : keeps (put (W := W) (queue u)).
Proof using Type. by apply steady_put_same. Qed.
Hint Resolve steady_emit steady_metric steady_queue : keeps.

Lemma steady_list mbox : keeps (listMessages store_at mbox).
Proof using Type. unfold listMessages. keep. Qed.
Lemma steady_retrieve mbox uid : keeps (retrieveMessage store_at mbox uid).
Proof using Type. unfold retrieveMessage. keep. Qed.
Lemma steady_delete mbox uid : keeps (deleteMessage store_at mbox uid).
Proof using Type. unfold deleteMessage. keep. Qed.
Lemma steady_expungeMailbox mbox : keeps (expungeMailbox store_at mbox).
Proof using Type. unfold expungeMailbox. keep. Qed.
Lemma steady_uv mbox : keeps (getUIDValidity store_at mbox).
Proof using Type. unfold getUIDValidity. keep. Qed.
Lemma steady_un mbox : keeps (getUIDNext store_at mbox).
Proof using Type. unfold getUIDNext. keep. Qed.
Hint Resolve steady_list steady_retrieve steady_delete steady_expungeMailbox steady_uv steady_un : keeps.

Lemma steady_relist mbox : keeps (relist store_at mbox).
Proof using Type. unfold relist. keep. by apply steady_put. Qed.
Hint Resolve steady_relist : keeps.

Lemma steady_select mbox ro : keeps (Select store_at mbox ro).
Proof using Type. unfold Select. keep. by apply steady_put. Qed.

Lemma steady_expunge_each uids l : keeps (expunge_each store_at uids l).
Proof using Type. induction l as [|[i m] l IH]; cbn [expunge_each]; keep. Qed.
Lemma steady_store_each flags l : keeps (store_each store_at sent flags l).
Proof using Type.
  induction l as [|i l IH]; cbn [store_each]; keep.
  apply steady_put. intros s. apply good_map. intros ms. apply alter_uids.
Qed.
Lemma steady_write_list ref ps l : keeps (write_list sent ref ps l).
Proof using Type. induction l as [|m l IH]; cbn [write_list]; keep. Qed.
Lemma steady_crossing src dest uid : keeps (learn_crossing store_at post learner JunkFolder src dest uid).
Proof using Type.
  unfold learn_crossing, triggerLearn. keep.
  intros [s' w'] Hs'; by repeat match goal with |- context [let '(_, _) := ?x in _] => destruct x end.
Qed.
Lemma steady_each f l : (∀ m, keeps (f m)) → keeps (each_message (W := W) f l).
Proof using Type. intros Hf. induction l as [|i l IH]; cbn [each_message]; keep. Qed.
Lemma steady_queue_moved l : keeps (queue_moved (W := W) l).
Proof using Type. induction l as [|i l IH]; cbn [queue_moved]; keep. Qed.
Lemma steady_mark_seen info : keeps (mark_seen store_at info).
Proof using Type.
  unfold mark_seen. keep. apply steady_put. intros s'. apply good_map, set_flags_uid_uids.
Qed.
Lemma steady_ensure l : keeps (ensureDefaultFolders store_at l).
Proof using Type. induction l as [|n l IH]; cbn [ensureDefaultFolders]; keep. Qed.
Lemma keeps_Poll b : keeps (Poll sent tracker_poll b).
Proof using Type. unfold Poll. keep. Qed.
Hint Resolve steady_select steady_expunge_each steady_store_each steady_write_list steady_crossing steady_each
  steady_queue_moved steady_mark_seen steady_ensure keeps_Poll : keeps.
Lemma steady_fetch_each now o l : keeps (fetch_each store_at sent now o l).
Proof using Type.
  induction l as [|i l IH]; cbn [fetch_each]; unfold fetchMessage, read_content; keep.
Qed.
Lemma steady_move_one src dest m : keeps (move_one store_at post learner JunkFolder src dest m).
Proof using Type. unfold move_one. keep. Qed.
Hint Resolve steady_fetch_each steady_move_one : keeps.
Lemma keeps_Move ns dest : keeps (Move store_at sent post learner JunkFolder ns dest).
Proof using Type. unfold Move. keep. Qed.
Lemma keeps_Copy ns dest : keeps (Copy store_at post learner JunkFolder ns dest).
Proof using Type. unfold Copy. keep. apply steady_each. intros m. keep. Qed.
Lemma keeps_Login sub user pass ip : keeps (Login store_at sm_Login sub user pass ip).
Proof using Type.
  intros [s w] Hs. unfold Login. destruct (sm_Login user pass ip w) as [[mbox|] w1]; [|by eapply good_same, Hs].
  match goal with |- good (?m (?s', _)).2.1 => assert (keeps m) as Hk; [|apply (Hk (s', w1)); by eapply good_same, Hs] end.
  keep.
Qed.
Lemma keeps_Close tls : keeps (Close store_at tls).
Proof using Type.
  unfold Close. keep; try by apply steady_put, (λ s _, good_unselect s).
  intros [s' w'] Hs'. by repeat match goal with |- context [let '(_, _) := ?x in _] => destruct x end.
Qed.
Hint Resolve keeps_Move keeps_Copy keeps_Login keeps_Close : keeps.

Lemma steady_new_messages folder : keeps (newMessagesSinceLastReport store_at folder).
Proof using Type. unfold newMessagesSinceLastReport. keep. Qed.
Lemma idle_step_good e st : good st.1 → good (idle_step store_at sent tracker_poll e st).2.1.
Proof using Type.
  intros Hg. destruct e as [| |c|payload torn]; cbn [idle_step]; [done| |by destruct c|].
  { pose proof (keeps_Poll true st Hg) as Hp. by destruct (Poll _ _ true st). }
  destruct (negb _); [done|].
  pose proof (steady_new_messages (selectedMailbox st.1) st Hg) as Hn.
  destruct (newMessagesSinceLastReport store_at (selectedMailbox st.1) st) as [[l|e] [s1 w1]]; [|by destruct e].
  destruct l as [|m l]; [done|]. destruct torn; [done|].
  match goal with |- context [Poll sent tracker_poll false (?q, w1)] =>
    pose proof (keeps_Poll false (q, w1)) as Hp; destruct (Poll sent tracker_poll false (q, w1)) as [[?|?] ?] end;
    by apply Hp.
Qed.
Lemma idle_good evs st : good st.1 → good (Idle store_at sent tracker_poll evs st).2.1.
Proof using Type.
  unfold Idle. intros Hg. destruct (tracker st.1); [|done]. destruct (subscription st.1); [|done].
  revert st Hg. induction evs as [|e evs IH]; intros st Hg; cbn [idle_loop]; [done|].
  pose proof (idle_step_good e st Hg) as Hs.
  destruct (idle_step store_at sent tracker_poll e st) as [[] st1]; [done..|by apply IH].
Qed.

(** IDLE never renumbers: what the client has been told stays where it is, and
    new messages follow it. *)
Lemma steady_msgs_Poll b st : msgs (Poll sent tracker_poll b st).2.1 = msgs st.1.
Proof using Type.
  destruct st as [s w]. unfold Poll, bind, get, put, emit, ret. cbn [fst snd].
  destruct (tracker s) as [q|]; [|done]. destruct (tracker_poll b q) as [[|u out] kept]; [done|].
  cbn [fst snd]. by destruct (sent (EvUpdates (u :: out)) w) as [[] w'].
Qed.
Lemma new_messages_session folder st : (newMessagesSinceLastReport store_at folder st).2.1 = st.1.
Proof using Type.
  destruct st as [s w]. unfold newMessagesSinceLastReport, bind, get. cbn [fst].
  assert ((listMessages store_at folder (s, w)).2.1 = s) as Hs.
  { unfold listMessages, folder_call, folders_or, bind, get, call, fail. cbn [fst].
    destruct (EqualFold folder "INBOX"); [by destruct (ms_List _ _ _)|].
    destruct (st_folders _); [|done]. by destruct (match _ with Some _ => _ | None => _ end). }
  by destruct (listMessages store_at folder (s, w)) as [[l|] [s' w']].
Qed.
Lemma idle_step_prefix e st : ∃ new, msgs (idle_step store_at sent tracker_poll e st).2.1 = msgs st.1 ++ new.
Proof using Type.
  destruct e as [| |c|payload torn]; cbn [idle_step]; [by exists []; rewrite app_nil_r| |by exists []; rewrite app_nil_r|].
  { pose proof (steady_msgs_Poll true st) as Hp. destruct (Poll _ _ true st). exists []. by rewrite app_nil_r. }
  destruct (negb _); [by exists []; rewrite app_nil_r|].
  pose proof (new_messages_session (selectedMailbox st.1) st) as Hn.
  destruct (newMessagesSinceLastReport store_at (selectedMailbox st.1) st) as [[[|m l]|e] [s1 w1]]; cbn [fst snd] in Hn; subst s1.
  - exists []. by rewrite app_nil_r.
  - destruct torn; [by exists []; rewrite app_nil_r|]. exists (m :: l).
    match goal with |- context [Poll sent tracker_poll false (?q, w1)] =>
      pose proof (steady_msgs_Poll false (q, w1)) as Hp; destruct (Poll sent tracker_poll false (q, w1)) as [[?|?] ?] end;
      exact Hp.
  - exists []. rewrite app_nil_r. by destruct e.
Qed.
Lemma idle_keeps_numbers evs st :
  ∃ new, msgs (idle_loop store_at sent tracker_poll evs st).2.1 = msgs st.1 ++ new.
Proof using Type.
  revert st. induction evs as [|e evs IH]; intros st; cbn [idle_loop]; [by exists []; rewrite app_nil_r|].
  destruct (idle_step_prefix e st) as [new Hnew].
  destruct (idle_step store_at sent tracker_poll e st) as [[] st1]; cbn [snd] in Hnew; [by exists new..|].
  destruct (IH st1) as [new2 Hn2]. exists (new ++ new2). by rewrite Hn2, Hnew, app_assoc.
Qed.

Definition run (c : command) (st : imapSession * W) : imapSession * W :=
  match c with
  | CLogin sub u p ip => (Login store_at sm_Login sub u p ip st).2
  | CSelect m ro => (Select store_at m ro st).2 | CUnselect => (Unselect st).2
  | CCreate m => (Create store_at m st).2 | CDelete m => (Delete store_at m st).2
  | CRename m n => (Rename store_at m n st).2
  | CList ref ps => (List_ store_at sent ref ps st).2 | CStatus m o => (Status store_at m o st).2
  | CAppend now m d o => (Append store_at now m d o st).2
  | CExpunge u => (Expunge store_at u st).2 | CStore ns f => (Store store_at sent ns f st).2
  | CCopy ns d => (Copy store_at post learner JunkFolder ns d st).2
  | CMove ns d => (Move store_at sent post learner JunkFolder ns d st).2
  | CFetch now ns o => (Fetch store_at sent now ns o st).2
  | CPoll b => (Poll sent tracker_poll b st).2
  | CIdle evs => (Idle store_at sent tracker_poll evs st).2
  | CKeepalive d now since f => (keepalive_tick store_at d now since f st).2
  | CClose tls => (Close store_at tls st).2
  end.

Lemma run_index_good cs st : good st.1 → good (foldl (λ st c, run c st) st cs).1.
Proof using Type.
  intros Hst. apply (foldl_inv _ (λ st, good st.1)); [|done]. clear st Hst.
  intros c st _ Hg. destruct c; cbn [run];
    lazymatch goal with
    | |- context [Idle] => by apply idle_good
    | |- good (?m st).2.1 => assert (keeps m) as Hk; [|by apply Hk]
    end; try solve [eauto 2 with keeps].
  - apply steady_put, (λ s _, good_unselect s).
  - unfold Create. keep.
  - unfold Delete. keep.
  - unfold Rename. keep.
  - unfold List_. keep.
  - unfold Status. keep.
  - unfold Append. keep.
  - unfold Expunge. keep.
  - unfold Store. keep.
  - unfold Fetch. keep.
  - unfold keepalive_tick. keep.
Qed.

(** C20 In every session, whatever commands it runs, however the store and the
    network fail, whatever the store lists and whatever IDLE reports, the UID index
    and the message list shown to the client agree: every UID the index has is that
    of the message at the position it gives, every message listed is found under its
    UID, and under its own position unless its UID is listed twice. *)
Theorem index_always_current (cs : list command) (w : W) :
  let s := (foldl (λ st c, run c st) (NewSession, w) cs).1 in
  (∀ u i, uidIndex s !! u = Some i → ∃ j m, i = Z.of_nat j ∧ msgs s !! j = Some m ∧ UID m = u) ∧
  (∀ m, m ∈ msgs s → is_Some (uidIndex s !! UID m)) ∧
  (∀ j m, msgs s !! j = Some m → (∀ k m', msgs s !! k = Some m' → UID m' = UID m → k = j) →
     uidIndex s !! UID m = Some (Z.of_nat j)).
Proof using Type.
  cbv zeta. assert (good (foldl (λ st c, run c st) (NewSession, w) cs).1) as Hg by (by apply run_index_good).
  set (s := (foldl _ _ cs).1) in *. rewrite Hg.
  assert (∀ m, m ∈ msgs s → is_Some (index_from 0 ∅ (msgs s) !! UID m)) as Hin.
  { intros m Hm. apply index_from_has. left. by apply list_elem_of_fmap_2. }
  split_and!.
  - intros u i [(j & m & -> & Hm & Hu)|Hx]%index_from_points; [by exists j, m|by rewrite lookup_empty in Hx].
  - exact Hin.
  - intros j m Hm Hone. destruct (Hin m (list_elem_of_lookup_2 _ _ _ Hm)) as [i Hi].
    rewrite Hi. destruct (index_from_points _ _ _ _ _ Hi) as [(k & m' & -> & Hm' & Hu)|Hx];
      [|by rewrite lookup_empty in Hx]. by rewrite (Hone k m' Hm' Hu).
Qed.
End Invariant.
