(* ===== verification/ImapSync.v ===== *)
(** * EXPUNGE and MOVE keep the client's numbering

    IMAP clients count: every message is known to them by its position, and the
    updates the server sends are all they learn of changes. Against the folder
    laws of a store, the updates queued by EXPUNGE and MOVE, applied in order to
    the list the client has, give the list the session continues with, up to
    messages that arrived in the meantime and come after it. *)
From S2P Require Import Prelude GoStrings MsgStore Keyring MsgCrypt ImapStore ImapSession ImapFacts.
From Stdlib Require Import ZArith Lia Ascii.
Open Scope string_scope.
Open Scope list_scope.
Open Scope Z_scope.

(** ** The client's list of messages, by UID *)
Definition apply_update (v : list Z) (u : update) : list Z :=
  match u with UExpunge n => delete (Z.to_nat (n - 1)) v | UNumMessages _ | UFlags _ _ _ => v end.

Section Positions.
Context (P : MessageInfo → Prop) `{!∀ m, Decision (P m)}.
Definition expunges (l : list (Z * MessageInfo)) : list update :=
  (λ x, UExpunge (x.1 + 1)) <$> filter (λ x, P x.2) l.

Lemma descending_snoc l x : descending (l ++ [x]) = (Z.of_nat (length l), x) :: descending l.
Proof using Type.
  unfold descending. rewrite imap_app, reverse_app. simpl. rewrite Nat.add_0_r. done.
Qed.
Lemma expunges_cons x l :
  expunges (x :: l) = if decide (P x.2) then UExpunge (x.1 + 1) :: expunges l else expunges l.
Proof using Type. unfold expunges. rewrite filter_cons. by destruct (decide (P x.2)). Qed.
(** Expunging the positions from the last to the first removes those messages. *)
Lemma expunges_apply l z :
  foldl apply_update ((UID <$> l) ++ z) (expunges (descending l))
  = (UID <$> filter (λ m, ¬ P m) l) ++ z.
Proof using Type.
  revert z. induction l as [|x l IH] using rev_ind; intros z; [done|].
  rewrite descending_snoc, expunges_cons, filter_app, !fmap_app, <- app_assoc. cbn [fst snd].
  change (fmap UID [x] ++ z) with (UID x :: z).
  destruct (decide (P x)) as [Hx|Hx].
  - rewrite (filter_cons_False _ x) by (by intros []). cbn [foldl apply_update].
    replace (Z.to_nat (Z.of_nat (length l) + 1 - 1)) with (length (UID <$> l)) by (rewrite length_fmap; lia).
    rewrite delete_middle, IH. simpl. by rewrite app_nil_r.
  - rewrite (filter_cons_True _ x) by done. rewrite IH, <- app_assoc. done.
Qed.
End Positions.

Lemma filter_true {A} (P : A → Prop) `{!∀ x, Decision (P x)} (l : list A) : (∀ x, P x) → filter P l = l.
Proof. intros HP. induction l as [|x l IH]; [done|]. by rewrite filter_cons_True, IH by done. Qed.
Lemma StronglySorted_imap_of_nat (l : list MessageInfo) :
  StronglySorted Z.le (imap (λ i _, Z.of_nat i) l).
Proof.
  induction l as [|x l IH] using rev_ind; [constructor|]. rewrite imap_app. simpl.
  apply StronglySorted_app_2; [|done|repeat constructor].
  intros a b Ha Hb. apply list_elem_of_singleton in Hb as ->.
  apply list_elem_of_lookup in Ha as [k Hk]. rewrite list_lookup_imap in Hk.
  destruct (l !! k) eqn:E; [|done]. apply lookup_lt_Some in E. injection Hk as <-. lia.
Qed.
Lemma NoDup_imap_of_nat (l : list MessageInfo) : NoDup (imap (λ i _, Z.of_nat i) l).
Proof.
  apply NoDup_alt. intros i j z Hi Hj. rewrite list_lookup_imap in Hi, Hj.
  destruct (l !! i); [|done]. destruct (l !! j); [|done]. injection Hi as <-. injection Hj as E. lia.
Qed.
Lemma sort_Ints_elem l i : i ∈ sort_Ints l ↔ i ∈ l.
Proof. unfold sort_Ints. by rewrite (merge_sort_Permutation Z.le l). Qed.
Lemma filter_fmap_UID (P : Z → Prop) `{!∀ u, Decision (P u)} (l : list MessageInfo) :
  filter P (UID <$> l) = UID <$> filter (λ m, P (UID m)) l.
Proof. induction l as [|m l IH]; [done|]. rewrite fmap_cons, !filter_cons, IH. by destruct (decide _). Qed.
Lemma list_filter_iff' {A} (P Q : A → Prop) `{!∀ x, Decision (P x), !∀ x, Decision (Q x)} (l : list A) :
  (∀ x, x ∈ l → P x ↔ Q x) → filter P l = filter Q l.
Proof.
  induction l as [|x l IH]; intros HPQ; [done|]. rewrite !filter_cons, IH by (intros y Hy; apply HPQ; by right).
  assert (P x ↔ Q x) by (apply HPQ; by left). repeat case_decide; tauto.
Qed.
(** ** What a store promises about one folder *)
Section Laws.
Context {W : Type} `{UnicodeCase}.
Definition store_list (st : ImapStore W) (mb folder : string) (w : W) : result (list MessageInfo) serr * W :=
  if EqualFold folder "INBOX" then ms_List (st_messages (im_store st)) mb w
  else match st_folders (im_store st) with
       | Some f => fs_ListInFolder f mb folder w | None => (Err "", w) end.
Definition store_delete (st : ImapStore W) (mb folder : string) (u : Z) (w : W) : option serr * W :=
  if EqualFold folder "INBOX" then ms_Delete (st_messages (im_store st)) mb u w
  else match st_folders (im_store st) with
       | Some f => fs_DeleteInFolder f mb folder u w | None => (Some "", w) end.
Definition store_expunge (st : ImapStore W) (mb folder : string) (w : W) : option serr * W :=
  if EqualFold folder "INBOX" then ms_Expunge (st_messages (im_store st)) mb w
  else match st_folders (im_store st) with
       | Some f => fs_ExpungeFolder f mb folder w | None => (Some "", w) end.
Definition store_retrieve (st : ImapStore W) (mb folder : string) (u : Z) (w : W) : result reader serr * W :=
  if EqualFold folder "INBOX" then ms_Retrieve (st_messages (im_store st)) mb u w
  else match st_folders (im_store st) with
       | Some f => fs_RetrieveFromFolder f mb folder u w | None => (Err "", w) end.

(** [b] is [a] and messages that arrived, at its end, under UIDs not [known]. *)
Definition grown (known a b : list Z) : Prop := ∃ more, b = a ++ more ∧ ∀ u, u ∈ more → u ∉ known.
Lemma arrivals_refl known a : grown known a a.
Proof using Type. exists []. rewrite app_nil_r. split; [done|]. by intros u ?%elem_of_nil. Qed.
Lemma arrivals_trans known a b c : grown known a b → grown known b c → grown known a c.
Proof using Type.
  intros (m1 & -> & H1) (m2 & -> & H2). exists (m1 ++ m2). rewrite app_assoc. split; [done|].
  intros u [?|?]%elem_of_app; auto.
Qed.
Lemma grown_eq known a a' b : a = a' → grown known a b → grown known a' b.
Proof using Type. by intros ->. Qed.
(** Removing known UIDs leaves what arrived. *)
Lemma grown_filter known (P : Z → Prop) `{!∀ u, Decision (P u)} a b : (∀ u, u ∉ known → P u) →
  grown known a b → grown known (filter P a) (filter P b).
Proof using Type.
  intros HP (more & -> & Hm). exists more. split; [|done]. rewrite filter_app. f_equal.
  assert (∀ k : list Z, (∀ u, u ∈ k → P u) → filter P k = k) as Hk.
  { induction k as [|x k IH]; intros Hx; [done|]. rewrite filter_cons_True by (apply Hx; by left).
    f_equal. apply IH. intros u Hu. apply Hx. by right. }
  apply Hk. auto.
Qed.

(** [uids]: the messages of the folder in the order they are listed; [marked]:
    those an expunge will remove. Other sessions and deliveries may add messages
    during any call, but never under a UID of the list [known]. *)
Class FolderLaws (st : ImapStore W) (mb folder : string) (uids : W → list Z) (marked : W → gset Z)
    (known : list Z) : Prop := {
  fl_folders : is_Some (st_folders (im_store st));
  fl_list w l w' : store_list st mb folder w = (Ok l, w') → UID <$> l = uids w ∧ grown known (uids w) (uids w');
  fl_delete w u r w' : store_delete st mb folder u w = (r, w') → grown known (uids w) (uids w') ∧
    marked w' = match r with None => {[u]} ∪ marked w | Some _ => marked w end;
  fl_expunge w w' : store_expunge st mb folder w = (None, w') →
    grown known (filter (λ u, u ∉ marked w) (uids w)) (uids w');
  fl_retrieve w u : grown known (uids w) (uids (store_retrieve st mb folder u w).2);
  fl_validity f w d : st_folders (im_store st) = Some f → grown known (uids w) (uids (fs_UIDValidity f mb d w).2);
}.
End Laws.

Section Targets.
Context `{ImapNum}.
(** The messages a command expunges: flagged, and in the set if there is one. *)
Definition target (set : option (list NumRange)) (m : MessageInfo) : Prop :=
  match set with Some u => ns_Contains u (UID m) = true | None => True end ∧
  hasFlag (Flags m) FlagDeleted = true.
#[export] Instance target_dec set m : Decision (target set m).
Proof. unfold target. destruct set; apply _. Defined.

Lemma target_test set m :
  (match set with Some u => negb (ns_Contains u (UID m)) | None => false end
   || negb (hasFlag (Flags m) FlagDeleted)) = negb (bool_decide (target set m)).
Proof.
  case_bool_decide as Ht; unfold target in Ht; (destruct set as [u|]; [destruct (ns_Contains u (UID m))|]);
    destruct (hasFlag (Flags m) FlagDeleted); naive_solver.
Qed.

End Targets.

Section Sync.
Context {W : Type} `{UnicodeCase, ImapNum, ImapExtract}.
Context (store_at : string → Z → ImapStore W).
Context (sel : string) (uv : Z) (mb : string) (uids : W → list Z) (marked : W → gset Z) (known : list Z).
Notation grown := (grown known).
Notation S := (store_at sel uv).
Context `{!FolderLaws S mb sel uids marked known}.
Implicit Types (s : imapSession) (w : W).

(** The session the laws are about. *)
Definition here s : Prop := selectedMailbox s = sel ∧ selectedUIDValidity s = uv ∧ mailbox s = mb.
Lemma here_store s : here s → store_of store_at s = S.
Proof using Type. intros (E1 & E2 & _). unfold store_of. by rewrite E1, E2. Qed.

(** *** The operations in terms of the store *)
Ltac op_eq := intros Hh; pose proof (here_store _ Hh) as Es; destruct Hh as (_ & _ & Emb);
  unfold listMessages, deleteMessage, expungeMailbox, retrieveMessage, store_list, store_delete, store_expunge,
    store_retrieve, folder_call, folder_call_, folders_or, bind, get, call, call_; cbn [fst];
  destruct (fl_folders (FolderLaws := FolderLaws0)) as [f Ef];
  destruct (EqualFold _ "INBOX"); cbn [fst]; rewrite ?Es, ?Emb; [done|];
  rewrite !Ef; cbv beta iota; rewrite ?Es, ?Ef, ?Emb; done.

Lemma listing_eq s w : here s → listMessages store_at sel (s, w) =
  let '(r, w') := store_list S mb sel w in
  (match r with Ok a => Ok a | Err e => Err (IStoreErr e) end, (s, w')).
Proof using FolderLaws0. op_eq. Qed.
Lemma delete_eq s w u : here s → deleteMessage store_at sel u (s, w) =
  let '(r, w') := store_delete S mb sel u w in
  (match r with None => Ok () | Some e => Err (IStoreErr e) end, (s, w')).
Proof using FolderLaws0. op_eq. Qed.
Lemma expunge_eq s w : here s → expungeMailbox store_at sel (s, w) =
  let '(r, w') := store_expunge S mb sel w in
  (match r with None => Ok () | Some e => Err (IStoreErr e) end, (s, w')).
Proof using FolderLaws0. op_eq. Qed.
Lemma retrieve_eq s w u : here s → retrieveMessage store_at sel u (s, w) =
  let '(r, w') := store_retrieve S mb sel u w in
  (match r with Ok a => Ok a | Err e => Err (IStoreErr e) end, (s, w')).
Proof using FolderLaws0. op_eq. Qed.

(** *** EXPUNGE *)
Definition same_place (s s' : imapSession) : Prop :=
  selectedMailbox s' = selectedMailbox s ∧ selectedUIDValidity s' = selectedUIDValidity s ∧
  mailbox s' = mailbox s ∧ messages s' = messages s.
Lemma same_here s s' : same_place s s' → here s → here s'.
Proof using Type. intros (E1 & E2 & E3 & _) Hh. unfold here. by rewrite E1, E2, E3. Qed.

(** The messages that could be marked; a refused one is passed over. *)
Lemma expunge_each_spec set l s w q : here s → tracker s = Some q → NoDup (UID ∘ snd <$> l) →
  ∃ (X : gset Z) s' w', expunge_each store_at set l (s, w) = (Ok (negb (bool_decide (X = ∅))), (s', w')) ∧
    same_place s s' ∧ tracker s' = Some (q ++ expunges (λ m, UID m ∈ X) l) ∧ grown (uids w) (uids w') ∧
    marked w' = X ∪ marked w ∧ (∀ u, u ∈ X → u ∈ UID ∘ snd <$> filter (λ x, target set x.2) l) ∧
    ((∀ u w1, (store_delete S mb sel u w1).1 = None) → ∀ x, x ∈ l → target set x.2 → UID x.2 ∈ X).
Proof using FolderLaws0.
  revert s w q. induction l as [|[i m] l IH]; intros s w q Hh Hq Hnd.
  { exists ∅, s, w. rewrite app_nil_r. split_and!; [done|done|done|apply arrivals_refl|by rewrite (left_id_L ∅ (∪))|by intros u ?%elem_of_empty|].
    by intros _ x ?%elem_of_nil. }
  rewrite fmap_cons in Hnd. apply NoDup_cons in Hnd as [Hm Hnd]. change ((UID ∘ snd) (i, m)) with (UID m) in Hm.
  assert (∀ X : gset Z, (∀ u, u ∈ X → u ∈ UID ∘ snd <$> filter (λ x, target set x.2) l) → UID m ∉ X) as Hmx.
  { intros X HX Hx. apply Hm. apply HX in Hx as (x & -> & [_ Hx]%list_elem_of_filter)%list_elem_of_fmap.
    by apply list_elem_of_fmap_2. }
  cbn [expunge_each]. rewrite target_test, filter_cons. cbn [snd fst].
  destruct (decide (target set m)) as [Ht|Ht].
  2:{ rewrite bool_decide_false by done. cbn [negb].
      destruct (IH s w q Hh Hq Hnd) as (X & s' & w' & E & Hp & Htr & Hg & Hmk & HX & Hall).
      exists X, s', w'. rewrite expunges_cons. cbn [snd]. rewrite decide_False by (by apply Hmx). split_and!; try done.
      intros Hd x [->|Hx]%elem_of_cons Hxt; [done|by apply Hall]. }
  rewrite bool_decide_true by done. cbn [negb]. unfold bind at 1, get. cbn [fst].
  unfold bind at 1, attempt. destruct Hh as (Hs & Hv & Hmb). rewrite Hs, delete_eq by done.
  destruct (store_delete S mb sel (UID m) w) as [[e|] w1] eqn:Ed; destruct (fl_delete _ _ _ _ Ed) as [Hu1 Hm1].
  - destruct (IH s w1 q ltac:(done) Hq Hnd) as (X & s' & w' & E & Hp & Htr & Hg & Hmk & HX & Hall).
    exists X, s', w'. rewrite expunges_cons. cbn [snd]. rewrite decide_False by (by apply Hmx).
    split_and!; try done; [by eapply arrivals_trans|congruence| |].
    + intros u Hu. rewrite fmap_cons. right. by apply HX.
    + intros Hd. specialize (Hd (UID m) w). by rewrite Ed in Hd.
  - unfold bind at 1, put. unfold bind at 1, metric, put. cbn [fst snd]. set (s1 := note _ (queue _ s)).
    destruct (IH s1 w1 (q ++ [UExpunge (i + 1)])) as (X & s' & w' & E & Hp & Htr & Hg & Hmk & HX & Hall); [done| |done|].
    { unfold s1. cbn [tracker note set_trace queue set_tracker]. by rewrite Hq. }
    unfold bind. rewrite E. exists ({[UID m]} ∪ X), s', w'. rewrite (bool_decide_false (_ ∪ _ = ∅)) by (clear; set_solver).
    split_and!; [done|exact Hp| |by eapply arrivals_trans|rewrite Hmk, Hm1; clear; set_solver| |].
    + rewrite Htr, expunges_cons, decide_True by (cbn [snd]; clear; set_solver). rewrite <- app_assoc. cbn [app fst].
      do 3 f_equal. unfold expunges. f_equal. apply list_filter_iff'. intros x Hx.
      assert (UID x.2 ≠ UID m) as Hne by (intros Heq; apply Hm; rewrite <- Heq; by apply (list_elem_of_fmap_2 (UID ∘ snd))).
      rewrite elem_of_union, elem_of_singleton. tauto.
    + intros u [->%elem_of_singleton|Hu]%elem_of_union; [by left|]. rewrite fmap_cons. right. by apply HX.
    + intros Hd x [->|Hx]%elem_of_cons Hxt; [cbn [snd]; clear; set_solver|]. apply elem_of_union_r. by apply Hall.
Qed.

Lemma descending_elem (l : list MessageInfo) i m :
  (i, m) ∈ descending l ↔ ∃ k, l !! k = Some m ∧ i = Z.of_nat k.
Proof using Type.
  unfold descending. rewrite elem_of_reverse, list_elem_of_lookup. split.
  - intros [k Hk]. rewrite list_lookup_imap in Hk. destruct (l !! k) as [x|] eqn:E; [|done].
    simpl in Hk. injection Hk as <- <-. by exists k.
  - intros (k & Hk & ->). exists k. by rewrite list_lookup_imap, Hk.
Qed.
Lemma descending_uids (l : list MessageInfo) : UID ∘ snd <$> descending l = reverse (UID <$> l).
Proof using Type.
  unfold descending. rewrite fmap_reverse. f_equal. rewrite fmap_imap. apply list_eq. intros i.
  rewrite list_lookup_imap, list_lookup_fmap. by destruct (l !! i).
Qed.


(** *** MOVE *)
Context (sent : event → W → bool * W).
Context (post : string → list (string * string) → string → W → result (Z * string) serr * W).
Context (learner : option spamLearner) (JunkFolder : string).
(** rspamd and the client's connection do not touch the folder; a move takes one
    message out of it. Messages may arrive all the while. *)
Context (Hsent : ∀ e w, grown (uids w) (uids (sent e w).2))
  (Hpost : ∀ u h b w, grown (uids w) (uids (post u h b w).2)).
Context (mv : string → string → Z → string → W → result Z serr * W) (Hmv : im_mover S = Some mv).
Context (dest : string)
  (Hmove : ∀ u w new w', mv mb sel u dest w = (Ok new, w') → grown (filter (λ v, v ≠ u) (uids w)) (uids w')).

Lemma learn_spec l endpoint user rc w : grown (uids w) (uids (learn post l endpoint user rc w).2).
Proof using Hpost.
  unfold learn. destruct rc; [|apply arrivals_refl].
  match goal with |- context [post ?a ?b ?c w] =>
    pose proof (Hpost a b c w) as Hx; destruct (post a b c w) as [[[? ?]|?] w'] end; done.
Qed.
Lemma crossing_spec s w u : here s → ∃ w',
  learn_crossing store_at post learner JunkFolder sel dest u (s, w) = (Ok (), (s, w')) ∧ grown (uids w) (uids w').
Proof using FolderLaws0 Hpost.
  intros Hh. unfold learn_crossing. destruct (_ && _); [|exists w; split; [done|apply arrivals_refl]].
  unfold triggerLearn, bind, attempt. rewrite retrieve_eq by done.
  pose proof (fl_retrieve w u) as Hr. destruct (store_retrieve S mb sel u w) as [[rc|e] w1]; cbn [snd] in Hr;
    [|by exists w1]. destruct learner as [lr|]; [|by exists w1].
  match goal with |- context [(if ?b then learnSpam post else learnHam post) lr ?us rc w1] =>
    assert (grown (uids w1) (uids ((if b then learnSpam post else learnHam post) lr us rc w1).2)) as Hl
      by (destruct b; apply learn_spec);
    destruct ((if b then learnSpam post else learnHam post) lr us rc w1) as [o w2] end.
  exists w2. split; [done|]. by eapply arrivals_trans.
Qed.
Lemma move_one_spec s w info new st' : here s → UID info ∈ known →
  move_one store_at post learner JunkFolder sel dest info (s, w) = (Ok new, st') →
  st'.1 = s ∧ grown (filter (λ v, v ≠ UID info) (uids w)) (uids st'.2).
Proof using FolderLaws0 Hpost Hmv Hmove.
  intros Hh Hkn. unfold move_one, bind at 1. destruct (crossing_spec s w (UID info) Hh) as (w1 & -> & Hw1).
  unfold bind at 1, get. cbn [fst]. rewrite (here_store _ Hh), Hmv. unfold call.
  rewrite (here_store _ Hh), Hmv. destruct Hh as (_ & _ & ->).
  destruct (mv mb sel (UID info) dest w1) as [[n|e] w2] eqn:E; [|done]. intros [= <- <-].
  split; [done|]. cbn [snd]. eapply arrivals_trans; [|exact (Hmove _ _ _ _ E)].
  apply grown_filter; [|exact Hw1]. intros u Hu ->. done.
Qed.
Lemma each_move_spec s idxs w r st' : here s → (∀ m, m ∈ msgs s → UID m ∈ known) →
  each_message (move_one store_at post learner JunkFolder sel dest) idxs (s, w) = (Ok r, st') →
  st'.1 = s ∧ r.1 = UID <$> omap (message_at s) idxs ∧ length r.2 = length r.1 ∧
  grown (filter (λ v, v ∉ r.1) (uids w)) (uids st'.2).
Proof using FolderLaws0 Hpost Hmv Hmove.
  intros Hh Hkn. revert w r st'. induction idxs as [|i idxs IH]; intros w r st'; cbn [each_message].
  { intros [= <- <-]. split_and!; [done..|]. cbn [snd fst]. rewrite filter_true; [apply arrivals_refl|].
    intros v Hv. by apply elem_of_nil in Hv. }
  unfold bind at 1, get. cbn [fst]. cbn [omap list_omap]. destruct (message_at s i) as [info|] eqn:Em; [|by apply IH].
  assert (UID info ∈ known) as Hi.
  { apply Hkn. unfold message_at in Em. destruct (i <? 0); [done|]. by eapply list_elem_of_lookup_2. }
  unfold bind at 1. destruct (move_one _ _ _ _ _ _ _ _) as [[new|e] [s1 w1]] eqn:E1; [|done].
  apply move_one_spec in E1 as [Hs1 Hw1]; [|done..]. cbn [fst snd] in *. subst s1.
  unfold bind. destruct (each_message _ idxs (s, w1)) as [[r2|e] st2] eqn:E2; [|done]. intros [= <- <-].
  apply IH in E2 as (-> & Hr & Hlen & Hu). split; [done|]. cbn [fst snd length]. rewrite Hr, fmap_cons.
  split_and!; [done|rewrite Hlen, Hr; done|].
  eapply arrivals_trans; [|exact Hu]. rewrite Hr.
  eapply grown_eq; [|apply (grown_filter _ (λ v, v ∉ UID <$> omap (message_at s) idxs)); [|exact Hw1]].
  - rewrite list_filter_filter. apply list_filter_iff. intros v. rewrite not_elem_of_cons. tauto.
  - intros u Hnk (m & -> & (j & _ & Hj)%list_elem_of_omap)%list_elem_of_fmap. apply Hnk, Hkn.
    unfold message_at in Hj. destruct (j <? 0); [done|]. by eapply list_elem_of_lookup_2.
Qed.
Lemma validity_spec s w : here s → ∃ v w',
  getUIDValidity store_at dest (s, w) = (Ok v, (s, w')) ∧ grown (uids w) (uids w').
Proof using FolderLaws0.
  intros Hh. pose proof (here_store _ Hh) as Es. destruct Hh as (_ & _ & Emb).
  destruct (fl_folders (FolderLaws := FolderLaws0)) as [f Ef].
  unfold getUIDValidity, folder_call, folders_or, attempt, bind, get, call. cbn [fst].
  rewrite Es, Ef. cbv beta iota. rewrite Es, Ef, Emb. pose proof (fl_validity f w dest Ef) as Hv.
  destruct (fs_UIDValidity f mb dest w) as [[v|e] w1]; by do 2 eexists.
Qed.

Lemma queue_moved_spec idxs s w q : tracker s = Some q → ∃ s',
  queue_moved idxs (s, w) = (Ok (), (s', w)) ∧ same_place s s' ∧ trace s ⊆ trace s' ∧
  tracker s' = Some (q ++ ((λ i, UExpunge (i + 1)) <$> filter (λ i, is_Some (message_at s i)) idxs)).
Proof using Type.
  revert s q. induction idxs as [|i idxs IH]; intros s q Hq; cbn [queue_moved].
  { exists s. by rewrite app_nil_r. }
  unfold bind at 1, get. cbn [fst]. rewrite filter_cons. destruct (message_at s i) as [m|] eqn:Em.
  2:{ rewrite decide_False by (by intros [? ?]). by apply IH. }
  rewrite decide_True by done. unfold bind at 1, put. unfold bind at 1, metric, put. cbn [fst snd].
  set (s1 := note _ (queue _ s)).
  destruct (IH s1 (q ++ [UExpunge (i + 1)])) as (s2 & E & Hp & Htr & Ht).
  { unfold s1. cbn [tracker note set_trace queue set_tracker]. by rewrite Hq. }
  exists s2. split; [done|]. split; [exact Hp|]. split; [|by rewrite Ht, <- app_assoc].
  intros ev Hev. apply Htr. unfold s1. cbn [trace note set_trace queue set_tracker]. apply elem_of_app. by left.
Qed.

(** The in-range indices in descending order are those of the messages moved. *)
Lemma moved_positions s l idxs : msgs s = l → NoDup (UID <$> l) → NoDup idxs →
  (λ i, UExpunge (i + 1)) <$> filter (λ i, is_Some (message_at s i)) (reverse (sort_Ints idxs))
  = expunges (λ m, UID m ∈ UID <$> omap (message_at s) (sort_Ints idxs)) (descending l).
Proof using Type.
  intros Hl Hnd Hni. unfold expunges. set (moved := UID <$> omap (message_at s) (sort_Ints idxs)).
  replace ((λ x : Z * MessageInfo, UExpunge (x.1 + 1)) <$> filter (λ x, UID x.2 ∈ moved) (descending l))
    with ((λ i, UExpunge (i + 1)) <$> (fst <$> filter (λ x, UID x.2 ∈ moved) (descending l)))
    by (by rewrite <- list_fmap_compose).
  f_equal. unfold descending. rewrite !filter_reverse, fmap_reverse. f_equal.
  pose proof (merge_sort_Permutation Z.le idxs) as Hperm.
  assert (NoDup (sort_Ints idxs)) as Hns by (by rewrite Hperm).
  apply (StronglySorted_unique Z.le).
  - eapply StronglySorted_sublist; [apply sublist_filter|].
    apply StronglySorted_merge_sort; [intros ???; lia|intros x y; lia].
  - eapply StronglySorted_sublist; [apply fmap_sublist, sublist_filter|].
    rewrite fmap_imap. apply StronglySorted_imap_of_nat.
  - apply NoDup_Permutation.
    + by apply NoDup_filter.
    + eapply sublist_NoDup; [|apply fmap_sublist, sublist_filter]. rewrite fmap_imap. apply NoDup_imap_of_nat.
    + intros i. rewrite list_elem_of_filter, list_elem_of_fmap. split.
      * intros [[m Hm] Hi]. exists (i, m). split; [done|]. apply list_elem_of_filter. cbn [snd]. split.
        -- apply list_elem_of_fmap_2, list_elem_of_omap. by exists i.
        -- unfold message_at in Hm. rewrite Hl in Hm. destruct (Z.ltb_spec i 0); [done|].
           apply list_elem_of_lookup. exists (Z.to_nat i). rewrite list_lookup_imap, Hm. simpl. f_equal. f_equal. lia.
      * intros ([j m] & -> & [Hm Hin]%list_elem_of_filter). cbn [fst snd] in *.
        apply list_elem_of_lookup in Hin as [k Hk]. rewrite list_lookup_imap in Hk.
        destruct (l !! k) as [m'|] eqn:Ek; [|done]. injection Hk as <- ->.
        assert (message_at s (Z.of_nat k) = Some m) as Hat.
        { unfold message_at. rewrite Hl. destruct (Z.ltb_spec (Z.of_nat k) 0); [lia|]. by rewrite Nat2Z.id. }
        split; [by rewrite Hat|].
        apply list_elem_of_fmap in Hm as (m2 & Eu & (i2 & Hi2 & Hm2)%list_elem_of_omap).
        unfold message_at in Hm2. rewrite Hl in Hm2. destruct (Z.ltb_spec i2 0); [done|].
        assert (Z.to_nat i2 = k) as Hk2.
        { eapply NoDup_lookup; [exact Hnd| |]; rewrite list_lookup_fmap; [by rewrite Hm2|rewrite Ek; simpl; congruence]. }
        by replace (Z.of_nat k) with i2 by lia.
Qed.

(** The messages at the positions of a set. *)
Lemma moved_are s l idxs : messages s = Some l → NoDup (UID <$> l) → ∀ m i, l !! i = Some m →
  UID m ∈ UID <$> omap (message_at s) (sort_Ints idxs) ↔ Z.of_nat i ∈ idxs.
Proof using Type.
  intros Hl Hnd m i Hm. rewrite list_elem_of_fmap. split.
  - intros (m' & Eu & (j & Hj & Hm')%list_elem_of_omap). unfold message_at, msgs in Hm'. rewrite Hl in Hm'.
    cbn [default from_option id] in Hm'. destruct (Z.ltb_spec j 0); [done|].
    assert (Z.to_nat j = i) as <-.
    { eapply NoDup_lookup; [exact Hnd| |]; rewrite list_lookup_fmap; [by rewrite Hm'|rewrite Hm; simpl; congruence]. }
    rewrite Z2Nat.id by done. by apply sort_Ints_elem.
  - intros Hi. exists m. split; [done|]. apply list_elem_of_omap. exists (Z.of_nat i).
    split; [by apply sort_Ints_elem|]. unfold message_at, msgs. rewrite Hl.
    destruct (Z.ltb_spec (Z.of_nat i) 0); [lia|]. by rewrite Nat2Z.id.
Qed.

End Sync.
