(* ===== verification/ImapSearch.v ===== *)
(** * SEARCH

    Model of [src/internal/imapd/backend/search.go]. The criteria are a tree with
    NOT and OR branches; every content predicate of the tree is evaluated in one
    scan of the messages, and the tree is then matched against the results of the
    scan. The messages found are proved to be those that meet the criteria as RFC
    9051 reads them, each node of the tree looking at the message itself; a [*]
    the mailbox does not reach is the exception ([search_star_misses_last]). *)
From S2P Require Import Prelude GoStrings MsgStore Keyring MsgCrypt ImapStore ImapSession ImapFacts.
From Stdlib Require Import ZArith Lia Ascii.
Open Scope string_scope.
Open Scope list_scope.
Open Scope Z_scope.

(** Times are seconds since the zero time of Go, which is 0. *)
Record criteria := mkBase {
  c_SeqNum : list (list NumRange); c_UID : list (list NumRange);
  c_Flag : list string; c_NotFlag : list string; c_Larger : Z; c_Smaller : Z;
  c_Since : Z; c_Before : Z; c_SentSince : Z; c_SentBefore : Z;
  c_Header : list (string * string); c_Body : list string; c_Text : list string;
}.
Inductive SearchCriteria :=
  mkCriteria (base : criteria) (Not : list SearchCriteria) (Or : list (SearchCriteria * SearchCriteria)).

(** Trees nest in lists, so the principle is stated with [Forall]. *)
Section CriteriaInd.
Context (P : SearchCriteria → Prop).
Context (Hnode : ∀ b ns os, Forall P ns → Forall (λ p, P p.1 ∧ P p.2) os → P (mkCriteria b ns os)).
Fixpoint criteria_ind (c : SearchCriteria) : P c :=
  match c with
  | mkCriteria b ns os =>
      Hnode b ns os
        ((fix go l := match l return Forall P l with
                      | [] => Forall_nil_2 P
                      | x :: l => Forall_cons_2 P x l (criteria_ind x) (go l)
                      end) ns)
        ((fix go l := match l return Forall (λ p, P p.1 ∧ P p.2) l with
                      | [] => Forall_nil_2 _
                      | x :: l => Forall_cons_2 _ x l (conj (criteria_ind x.1) (criteria_ind x.2)) (go l)
                      end) os)
  end.
End CriteriaInd.

Record contentIndex := mkContent {
  byUID : gmap Z ContentMatch; bodyPos : gmap string nat; textPos : gmap string nat;
}.
(** What [collectContentTerms] accumulates. *)
Record terms := mkTerms {
  bodyTerms : list string; textTerms : list string; bodySeen : gset string; textSeen : gset string;
  needHeaders : bool; hasContent : bool;
}.
Definition no_terms : terms := mkTerms [] [] ∅ ∅ false false.

(** The header of a message and the date of a field, from the libraries. *)
Class MailHeaders := {
  ReadHeader : string → option (string → string);
  ParseDate : string → option Z;
}.

Section Search.
Context `{UnicodeCase, ImapNum, MailHeaders}.

Definition has_header_pred (b : criteria) : bool :=
  negb (bool_decide (c_Header b = [])) || negb (c_SentSince b =? 0) || negb (c_SentBefore b =? 0).
Definition add_term (t : string) (x : list string * gset string) : list string * gset string :=
  if decide (ToLower t ∈ x.2) then x else (x.1 ++ [t], {[ToLower t]} ∪ x.2).
Definition collect_node (b : criteria) (a : terms) : terms :=
  let hp := has_header_pred b in
  let '(bt, bs) := foldl (λ x t, add_term t x) (bodyTerms a, bodySeen a) (c_Body b) in
  let '(xt, ts) := foldl (λ x t, add_term t x) (textTerms a, textSeen a) (c_Text b) in
  mkTerms bt xt bs ts (needHeaders a || hp)
    (hasContent a || hp || negb (bool_decide (c_Body b = [])) || negb (bool_decide (c_Text b = []))).
Fixpoint collectContentTerms (c : SearchCriteria) (a : terms) : terms :=
  match c with
  | mkCriteria b ns os =>
      let a := collect_node b a in
      let a := (fix go l a := match l with [] => a | x :: l => go l (collectContentTerms x a) end) ns a in
      (fix go l a := match l with
                     | [] => a
                     | x :: l => go l (collectContentTerms x.2 (collectContentTerms x.1 a))
                     end) os a
  end.

Definition positions (l : list string) : gmap string nat :=
  (foldl (λ x t, (S x.1, <[ToLower t := x.1]> x.2)) (O, ∅) l).2.
Definition content_index (a : terms) (ms : list ContentMatch) : contentIndex :=
  mkContent (foldl (λ x m, <[cm_UID m := m]> x) ∅ ms) (positions (bodyTerms a)) (positions (textTerms a)).

(** [t.Truncate(24 * time.Hour)] *)
Definition Truncate (t : Z) : Z := t - t mod 86400.
Definition in_days (since before t : Z) : bool :=
  negb (negb (since =? 0) && (Truncate t <? Truncate since)) &&
  negb (negb (before =? 0) && negb (Truncate t <? Truncate before)).

(** The checks of a node that need no content. *)
Definition match_flags (info : MessageInfo) (seq : Z) (b : criteria) : bool :=
  forallb (λ ss, ns_Contains ss seq) (c_SeqNum b) &&
  forallb (λ us, ns_Contains us (UID info)) (c_UID b) &&
  forallb (hasFlag (Flags info)) (c_Flag b) &&
  forallb (λ f, negb (hasFlag (Flags info) f)) (c_NotFlag b) &&
  negb ((0 <? c_Larger b) && (Size info <=? c_Larger b)) &&
  negb ((0 <? c_Smaller b) && (c_Smaller b <=? Size info)) &&
  (if negb (c_Since b =? 0) || negb (c_Before b =? 0)
   then negb (InternalDate info =? 0) && in_days (c_Since b) (c_Before b) (InternalDate info)
   else true).
Definition needs_scan (b : criteria) : bool :=
  negb (c_SentSince b =? 0) || negb (c_SentBefore b =? 0) || negb (bool_decide (c_Header b = [])) ||
  negb (bool_decide (c_Body b = [])) || negb (bool_decide (c_Text b = [])).
(** The header predicates of a node on a header block. *)
Definition match_header (headers : string) (b : criteria) : bool :=
  if has_header_pred b then
    let hdr := ReadHeader headers in
    (if negb (c_SentSince b =? 0) || negb (c_SentBefore b =? 0) then
       let sent := match hdr with
                   | Some get => if decide (get "Date" = "") then 0 else default 0 (ParseDate (get "Date"))
                   | None => 0
                   end in
       negb (sent =? 0) && in_days (c_SentSince b) (c_SentBefore b) sent
     else true) &&
    forallb (λ hf, match hdr with
                   | Some get => Contains (ToLower (get hf.1)) (ToLower hf.2)
                   | None => false
                   end) (c_Header b)
  else true.
(** A term's result in the scan. *)
Definition term_found (pos : gmap string nat) (results : list bool) (t : string) : bool :=
  match pos !! ToLower t with
  | Some p => match results !! p with Some b => b | None => false end
  | None => false
  end.
Definition match_content (cc : option contentIndex) (info : MessageInfo) (b : criteria) : bool :=
  if needs_scan b then
    match cc with
    | None => false
    | Some cc =>
        match byUID cc !! UID info with
        | None => false
        | Some m =>
            match_header (cm_Headers m) b &&
            forallb (term_found (bodyPos cc) (BodyMatches m)) (c_Body b) &&
            forallb (term_found (textPos cc) (TextMatches m)) (c_Text b)
        end
    end
  else true.
Fixpoint matchesCriteria (cc : option contentIndex) (info : MessageInfo) (seq : Z) (c : SearchCriteria) : bool :=
  match c with
  | mkCriteria b ns os =>
      match_flags info seq b && match_content cc info b &&
      (fix go l := match l with [] => true | x :: l => negb (matchesCriteria cc info seq x) && go l end) ns &&
      (fix go l := match l with
                   | [] => true
                   | x :: l => (matchesCriteria cc info seq x.1 || matchesCriteria cc info seq x.2) && go l
                   end) os
  end.

Section Store.
Context {W : Type} (store_at : string → Z → ImapStore W).
(** The one scan: by the store itself when it can, message by message if not. *)
Definition content_scan (st : ImapStore W) (mbox : string) (uids : list Z) (bt xt : list string) (nh : bool) (w : W)
  : result (list ContentMatch) serr * W :=
  match im_searcher st with
  | Some f => f mbox uids bt xt nh w
  | None => SearchContentStore (im_store st) mbox uids bt xt nh w
  end.
Definition prefetchContent (c : SearchCriteria) : iop (W := W) (option contentIndex) := λ '(s, w),
  let a := collectContentTerms c no_terms in
  if negb (hasContent a) then (Ok None, (s, w))
  else
    let '(r, w) := content_scan (store_of store_at s) (selectedMailbox s) (UID <$> msgs s)
                     (bodyTerms a) (textTerms a) (needHeaders a) w in
    (match r with Ok ms => Ok (Some (content_index a ms)) | Err e => Err (IStoreErr e) end, (s, w)).
(** The numbers found, UIDs when [by_uid]; [None] without a selected mailbox. *)
Definition Search (by_uid : bool) (c : SearchCriteria) : iop (W := W) (option (list Z)) :=
  bind get (λ s,
    match messages s with
    | None => ret None
    | Some l =>
        bind (prefetchContent c) (λ cc,
          ret (Some (omap (λ x, let seq := Z.of_nat x.1 + 1 in
                                if matchesCriteria cc x.2 seq c
                                then Some (if by_uid : bool then UID x.2 else seq) else None)
                       (imap (λ i m, (i, m)) l))))
    end).
End Store.

(** ** The criteria evaluated on the message itself *)
Definition direct_content (data : option string) (b : criteria) : bool :=
  if needs_scan b then
    match data with
    | None => false
    | Some d =>
        match_header (splitMessage d).1 b &&
        forallb (λ t, Contains (ToLower (splitMessage d).2) (ToLower t)) (c_Body b) &&
        forallb (λ t, Contains (ToLower d) (ToLower t)) (c_Text b)
    end
  else true.
Fixpoint satisfies (data : option string) (info : MessageInfo) (seq : Z) (c : SearchCriteria) : bool :=
  match c with
  | mkCriteria b ns os =>
      match_flags info seq b && direct_content data b &&
      (fix go l := match l with [] => true | x :: l => negb (satisfies data info seq x) && go l end) ns &&
      (fix go l := match l with
                   | [] => true
                   | x :: l => (satisfies data info seq x.1 || satisfies data info seq x.2) && go l
                   end) os
  end.

(** ** What the criteria ask (RFC 9051, 6.4.4) *)
Definition occurs (t s : string) : Prop := ∃ pre post, s = pre +:+ t +:+ post.
Definition day (t : Z) : Z := t / 86400.
(** A date on or after the day of [since] and before the day of [before], where
    they are given. *)
Definition in_period (since before t : Z) : Prop :=
  (since ≠ 0 ∨ before ≠ 0 → t ≠ 0) ∧ (since ≠ 0 → day since <= day t) ∧ (before ≠ 0 → day t < day before).
Definition header_field (data : option string) (k : string) : option string :=
  d ← data; get ← ReadHeader (splitMessage d).1; Some (get k).
Definition sent_date (data : option string) : Z :=
  match header_field data "Date" with
  | Some v => if decide (v = "") then 0 else default 0 (ParseDate v)
  | None => 0
  end.
(** [mxs] and [mxu] are the last number and UID of the mailbox. *)
Definition node_meets (mxs mxu : Z) (data : option string) (info : MessageInfo) (seq : Z) (b : criteria) : Prop :=
  (∀ ss, ss ∈ c_SeqNum b → denotes mxs ss seq) ∧ (∀ us, us ∈ c_UID b → denotes mxu us (UID info)) ∧
  (∀ f, f ∈ c_Flag b → f ∈ Flags info) ∧ (∀ f, f ∈ c_NotFlag b → f ∉ Flags info) ∧
  (0 < c_Larger b → c_Larger b < Size info) ∧ (0 < c_Smaller b → Size info < c_Smaller b) ∧
  in_period (c_Since b) (c_Before b) (InternalDate info) ∧
  in_period (c_SentSince b) (c_SentBefore b) (sent_date data) ∧
  (∀ k v, (k, v) ∈ c_Header b → ∃ x, header_field data k = Some x ∧ occurs (ToLower v) (ToLower x)) ∧
  (∀ t, t ∈ c_Body b → ∃ d, data = Some d ∧ occurs (ToLower t) (ToLower (splitMessage d).2)) ∧
  (∀ t, t ∈ c_Text b → ∃ d, data = Some d ∧ occurs (ToLower t) (ToLower d)).
Fixpoint meets (mxs mxu : Z) (data : option string) (info : MessageInfo) (seq : Z) (c : SearchCriteria) : Prop :=
  match c with
  | mkCriteria b ns os =>
      node_meets mxs mxu data info seq b ∧
      (fix go l := match l with [] => True | x :: l => ¬ meets mxs mxu data info seq x ∧ go l end) ns ∧
      (fix go l := match l with
                   | [] => True
                   | x :: l => (meets mxs mxu data info seq x.1 ∨ meets mxs mxu data info seq x.2) ∧ go l
                   end) os
  end.
(** A [*] comes after a number that the mailbox reaches. *)
Definition reached (mx : Z) (l : list NumRange) : Prop :=
  Forall (λ r, 0 < Start r ∧ (Start r <= Stop r ∨ Stop r = 0 ∧ Start r <= mx)) l.
End Search.

(** ** The scan is exact *)
Lemma forallb_eq {A} (f g : A → bool) l : Forall (λ x, f x = g x) l → forallb f l = forallb g l.
Proof. induction 1 as [|x l Hx _ IH]; [done|]. simpl. by rewrite Hx, IH. Qed.
Lemma omap_ext_elem {A B} (f g : A → option B) (l : list A) : (∀ x, x ∈ l → f x = g x) → omap f l = omap g l.
Proof.
  intros Hfg. induction l as [|x l IH]; [done|]. simpl. rewrite Hfg by (by left).
  assert (omap f l = omap g l) as E by (apply IH; intros y Hy; apply Hfg; by right).
  destruct (g x); [f_equal|]; exact E.
Qed.

Section Facts.
Context `{UnicodeCase, ImapNum, MailHeaders}.

(** The nodes of a tree. *)
Fixpoint nodes (c : SearchCriteria) : list criteria :=
  match c with
  | mkCriteria b ns os =>
      b :: (fix go l := match l with [] => [] | x :: l => nodes x ++ go l end) ns ++
      (fix go l := match l with [] => [] | x :: l => (nodes x.1 ++ nodes x.2) ++ go l end) os
  end.

Definition stars_reached (mxs mxu : Z) (c : SearchCriteria) : Prop :=
  Forall (λ b, Forall (reached mxs) (c_SeqNum b) ∧ Forall (reached mxu) (c_UID b)) (nodes c).

(** A list of terms answers for a term that it has in some spelling. *)
Definition answers (l : list string) (t : string) : Prop := ToLower t ∈ ToLower <$> l.
Definition covers (a : terms) (b : criteria) : Prop :=
  Forall (answers (bodyTerms a)) (c_Body b) ∧ Forall (answers (textTerms a)) (c_Text b) ∧
  (has_header_pred b = true → needHeaders a = true) ∧ (needs_scan b = true → hasContent a = true).
Definition extends (a a' : terms) : Prop :=
  (∀ t, answers (bodyTerms a) t → answers (bodyTerms a') t) ∧
  (∀ t, answers (textTerms a) t → answers (textTerms a') t) ∧
  (needHeaders a = true → needHeaders a' = true) ∧ (hasContent a = true → hasContent a' = true).
Definition seen_ok (a : terms) : Prop :=
  (∀ x, x ∈ bodySeen a → x ∈ ToLower <$> bodyTerms a) ∧ (∀ x, x ∈ textSeen a → x ∈ ToLower <$> textTerms a).

Lemma extends_trans a b c : extends a b → extends b c → extends a c.
Proof using Type. intros (?&?&?&?) (?&?&?&?). repeat split; eauto. Qed.
Lemma covers_extends a a' b : extends a a' → covers a b → covers a' b.
Proof using Type.
  intros (Hb & Ht & Hn & Hc) (Cb & Ct & Cn & Cc). split_and!; [| |by intros ?; apply Hn, Cn|by intros ?; apply Hc, Cc].
  - by eapply Forall_impl.
  - by eapply Forall_impl.
Qed.

Lemma add_terms_spec l ts seen ts' seen' :
  (∀ x, x ∈ seen → x ∈ ToLower <$> ts) →
  foldl (λ x t, add_term t x) (ts, seen) l = (ts', seen') →
  (∀ x, x ∈ seen' → x ∈ ToLower <$> ts') ∧ (∀ t, answers ts t → answers ts' t) ∧ Forall (answers ts') l.
Proof using Type.
  revert ts seen. induction l as [|t l IH]; intros ts seen Hs E; cbn [foldl] in E.
  { injection E as <- <-. by repeat split; [..|constructor]. }
  unfold add_term in E at 2. cbn [fst snd] in E. destruct (decide (ToLower t ∈ seen)) as [Hin|Hin].
  - destruct (IH _ _ Hs E) as (H1' & H2' & H3'). split; [done|]. split; [done|]. constructor; [|done].
    apply H2', Hs, Hin.
  - destruct (IH (ts ++ [t]) ({[ToLower t]} ∪ seen)) as (H1' & H2' & H3'); [|exact E|].
    { intros x. rewrite elem_of_union, elem_of_singleton, fmap_app. intros [-> |Hx]; apply elem_of_app.
      - right. apply list_elem_of_singleton. done.
      - left. by apply Hs. }
    split; [done|]. split.
    + intros u Hu. apply H2'. unfold answers in *. rewrite fmap_app. apply elem_of_app. by left.
    + constructor; [|done]. apply H2'. unfold answers. rewrite fmap_app. apply elem_of_app. right.
      by apply list_elem_of_singleton.
Qed.

Lemma needs_scan_cases b : needs_scan b =
  has_header_pred b || negb (bool_decide (c_Body b = [])) || negb (bool_decide (c_Text b = [])).
Proof using Type.
  unfold needs_scan, has_header_pred.
  destruct (c_SentSince b =? 0), (c_SentBefore b =? 0), (bool_decide (c_Header b = [])); done.
Qed.
Lemma collect_node_spec b a : seen_ok a →
  seen_ok (collect_node b a) ∧ extends a (collect_node b a) ∧ covers (collect_node b a) b.
Proof using Type.
  intros [Hb Ht]. unfold collect_node.
  destruct (foldl _ (bodyTerms a, _) _) as [bt bs] eqn:Eb. destruct (foldl _ (textTerms a, _) _) as [xt ts] eqn:Et.
  apply add_terms_spec in Eb as (B1 & B2 & B3); [|done]. apply add_terms_spec in Et as (T1 & T2 & T3); [|done].
  split; [by split|]. split.
  - split_and!; [done|done| |]; cbn; intros ->; done.
  - split_and!; [done|done| |]; cbn.
    + intros ->. by rewrite orb_true_r.
    + rewrite needs_scan_cases. intros E. rewrite <- !orb_assoc. rewrite <- orb_assoc in E. rewrite E. by rewrite orb_true_r.
Qed.

Definition collected (a a' : terms) (l : list criteria) : Prop :=
  seen_ok a' ∧ extends a a' ∧ Forall (covers a') l.
Lemma collected_app a a1 a2 l1 l2 :
  collected a a1 l1 → collected a1 a2 l2 → collected a a2 (l1 ++ l2).
Proof using Type.
  intros (_ & E1 & C1) (S2 & E2 & C2). split; [done|]. split; [by eapply extends_trans|].
  apply Forall_app. split; [|done]. eapply Forall_impl; [exact C1|]. intros b. by apply covers_extends.
Qed.
Lemma collect_spec c a : seen_ok a → collected a (collectContentTerms c a) (nodes c).
Proof using Type.
  revert a. induction c as [b ns os Hn Ho] using criteria_ind. intros a Ha.
  cbn [collectContentTerms nodes]. destruct (collect_node_spec b a Ha) as (S0 & E0 & C0).
  change (b :: ?x) with ([b] ++ x). eapply collected_app; [by split_and!; [done..|constructor]|].
  eapply collected_app.
  - instantiate (1 := (fix go l a := match l with [] => a | x :: l => go l (collectContentTerms x a) end)
      ns (collect_node b a)). revert S0. generalize (collect_node b a). clear -Hn.
    induction Hn as [|x ns Hx Hn IH]; intros a Ha; [by split_and!; [done|by repeat split|constructor]|].
    eapply collected_app; [by apply Hx|]. apply IH, Hx, Ha.
  - assert (seen_ok ((fix go l a := match l with [] => a | x :: l => go l (collectContentTerms x a) end)
      ns (collect_node b a))) as S1.
    { revert S0. generalize (collect_node b a). clear -Hn. induction Hn as [|x ns Hx Hn IH]; intros a Ha; [done|].
      apply IH, Hx, Ha. }
    revert S1. match goal with |- context [seen_ok ?a] => generalize a end. clear -Ho.
    induction Ho as [|x os [Hx1 Hx2] Ho IH]; intros a Ha; [by split_and!; [done|by repeat split|constructor]|].
    pose proof (Hx1 a Ha) as C1. pose proof (Hx2 _ (proj1 C1)) as C2.
    eapply collected_app; [by eapply collected_app|]. apply IH, C2.
Qed.

(** *** Looking the results up *)
Lemma positions_spec l t :
  answers l t → ∃ p t', positions l !! ToLower t = Some p ∧ l !! p = Some t' ∧ ToLower t' = ToLower t.
Proof using Type.
  unfold positions, answers. intros Ht.
  cut (∀ (k : nat) (m : gmap string nat) (pre : list string), k = length pre →
    (∀ x p, m !! x = Some p → ∃ t', pre !! p = Some t' ∧ ToLower t' = x) →
    (∀ x, x ∈ ToLower <$> pre → is_Some (m !! x)) →
    ∃ p t', (foldl (λ x t, (S x.1, <[ToLower t := x.1]> x.2)) (k, m) l).2 !! ToLower t = Some p ∧
      (pre ++ l) !! p = Some t' ∧ ToLower t' = ToLower t ∨ ToLower t ∉ ToLower <$> (pre ++ l)).
  { intros Hc. destruct (Hc O ∅ []) as (p & t' & [Hx|Hx]); [done|intros x p; by rewrite lookup_empty|
      intros x Hx; by apply elem_of_nil in Hx| |by destruct Hx].
    by exists p, t'. }
  clear Ht. induction l as [|u l IH]; intros k m pre -> Hm Hall; cbn [foldl fst snd].
  - destruct (decide (ToLower t ∈ ToLower <$> pre)) as [Hin|Hin].
    + destruct (Hall _ Hin) as [p Hp]. destruct (Hm _ _ Hp) as (t' & Ht' & E). exists p, t'. left.
      by rewrite app_nil_r.
    + exists O, "". right. by rewrite app_nil_r.
  - destruct (IH (S (length pre)) (<[ToLower u := length pre]> m) (pre ++ [u])) as (p & t' & Hx).
    + rewrite length_app. simpl. lia.
    + intros x p. destruct (decide (x = ToLower u)) as [->|Hne].
      * rewrite lookup_insert_eq. intros [= <-]. exists u. split; [|done].
        rewrite lookup_app_r by done. by rewrite Nat.sub_diag.
      * rewrite lookup_insert_ne by done. intros Hp. destruct (Hm _ _ Hp) as (t' & Ht' & E). exists t'.
        split; [|done]. by apply lookup_app_l_Some.
    + intros x. rewrite fmap_app, elem_of_app. intros Hx. destruct (decide (x = ToLower u)) as [->|Hne].
      * rewrite lookup_insert_eq. by eexists.
      * rewrite lookup_insert_ne by done. destruct Hx as [Hx|Hx%list_elem_of_singleton]; [by apply Hall|done].
    + exists p, t'. rewrite <- app_assoc in Hx. exact Hx.
Qed.
Lemma term_found_exact (f : string → bool) l t :
  answers l t → (∀ u, ToLower u = ToLower t → f u = f t) → term_found (positions l) (f <$> l) t = f t.
Proof using Type.
  intros (p & t' & Hp & Hl & E)%positions_spec Hf. unfold term_found. rewrite Hp, list_lookup_fmap, Hl.
  simpl. by apply Hf.
Qed.

(** What the scan returns when the messages hold [data]. *)
Definition scan (data : Z → option string) (uids : list Z) (bt xt : list string) (nh : bool) : list ContentMatch :=
  omap (λ u, (λ d, MatchMessageContent d u bt xt nh) <$> data u) uids.
Lemma cm_UID_match d u bt xt nh : cm_UID (MatchMessageContent d u bt xt nh) = u.
Proof using Type. unfold MatchMessageContent. by destruct (splitMessage d). Qed.
Lemma byUID_scan data uids bt xt nh u (m : gmap Z ContentMatch) :
  (∀ v x, m !! v = Some x → data v ≠ None → Some x = (λ d, MatchMessageContent d v bt xt nh) <$> data v) →
  (∀ v, data v = None → m !! v = None) → u ∈ uids ∨ is_Some (m !! u) ∨ data u = None →
  foldl (λ x y, <[cm_UID y := y]> x) m (scan data uids bt xt nh) !! u
  = (λ d, MatchMessageContent d u bt xt nh) <$> data u.
Proof using Type.
  revert m. induction uids as [|v uids IH]; intros m Hm Hn Hu; cbn [scan omap list_omap foldl].
  - destruct (data u) as [d|] eqn:Ed; [|by rewrite Hn].
    destruct Hu as [Hu|[[x Hx]|Hu]]; [by apply elem_of_nil in Hu| |done].
    rewrite Hx. rewrite (Hm u x Hx) by congruence. by rewrite Ed.
  - destruct (data v) as [d|] eqn:Ed; cbn [fmap option_fmap option_map].
    + cbn [foldl]. rewrite cm_UID_match. apply IH.
      * intros v' x. destruct (decide (v' = v)) as [->|Hne].
        -- rewrite lookup_insert_eq, Ed. by intros [= <-].
        -- rewrite lookup_insert_ne by done. apply Hm.
      * intros v' Hv'. rewrite lookup_insert_ne by congruence. by apply Hn.
      * destruct Hu as [[->|Hu]%elem_of_cons|[Hu|Hu]]; [| by left| |by right; right].
        -- right; left. rewrite lookup_insert_eq. by eexists.
        -- right; left. destruct (decide (u = v)) as [->|Hne]; [rewrite lookup_insert_eq; by eexists|].
           by rewrite lookup_insert_ne.
    + apply IH; [done..|]. destruct Hu as [[->|Hu]%elem_of_cons|[Hu|Hu]]; [by right; right|by left|by right; left|by right; right].
Qed.

Lemma node_exact a data uids info b : covers a b → UID info ∈ uids →
  match_content (if hasContent a
                 then Some (content_index a (scan data uids (bodyTerms a) (textTerms a) (needHeaders a))) else None)
    info b = direct_content (data (UID info)) b.
Proof using Type.
  intros (Cb & Ct & Cn & Cc) Hu. unfold match_content, direct_content.
  destruct (needs_scan b) eqn:En; [|done]. rewrite Cc by done. cbn [byUID content_index bodyPos textPos].
  rewrite byUID_scan; [|by intros ? ?; rewrite lookup_empty|by intros; rewrite lookup_empty|by left].
  destruct (data (UID info)) as [d|]; [|done]. cbn [fmap option_fmap option_map].
  unfold MatchMessageContent. destruct (splitMessage d) as [h body]. cbn [cm_Headers BodyMatches TextMatches fst snd].
  f_equal; [f_equal|].
  - unfold match_header. destruct (has_header_pred b); [|done]. by rewrite Cn.
  - apply forallb_eq. eapply Forall_impl; [exact Cb|]. intros t Ht.
    rewrite (term_found_exact (λ t, Contains (ToLower body) (ToLower t))); [done|done|]. by intros u ->.
  - apply forallb_eq. eapply Forall_impl; [exact Ct|]. intros t Ht.
    rewrite (term_found_exact (λ t, Contains (ToLower d) (ToLower t))); [done|done|]. by intros u ->.
Qed.

Lemma tree_exact cc data info seq c :
  Forall (λ b, match_content cc info b = direct_content data b) (nodes c) →
  matchesCriteria cc info seq c = satisfies data info seq c.
Proof using Type.
  induction c as [b ns os Hn Ho] using criteria_ind. cbn [nodes matchesCriteria satisfies].
  intros [Hb Hr]%Forall_cons. rewrite Forall_app in Hr. destruct Hr as [Hrn Hro]. rewrite Hb. f_equal; [f_equal|].
  - clear -Hn Hrn. induction Hn as [|x ns Hx Hn IH]; [done|]. rewrite Forall_app in Hrn. destruct Hrn as [H1' H2'].
    by rewrite Hx, IH.
  - clear -Ho Hro. induction Ho as [|x os [Hx1 Hx2] Ho IH]; [done|].
    rewrite !Forall_app in Hro. destruct Hro as [[H1' H2'] H3']. by rewrite Hx1, Hx2, IH.
Qed.

(** *** The boolean evaluation decides the criteria *)
Lemma prefix_app (p s : string) : String.prefix p s = true ↔ ∃ post, s = p +:+ post.
Proof using Type.
  revert s. induction p as [|c p IH]; intros s; [split; [by exists s|destruct s; done]|].
  destruct s as [|d s]; simpl; [split; [done|by intros [? ?]]|].
  destruct (ascii_dec c d) as [->|Hne].
  - rewrite IH. split; intros [post E]; exists post; [by rewrite E|by injection E].
  - split; [done|]. intros [post E]. by injection E as <-.
Qed.
Lemma Contains_occurs s t : Contains s t = true ↔ occurs t s.
Proof using Type.
  unfold occurs. induction s as [|c s IH]; cbn [Contains]; rewrite orb_true_iff; unfold HasPrefix; rewrite prefix_app.
  - split; [intros [[post E]|?]; [by exists "", post|done]|]. intros (pre & post & E). left.
    destruct pre; [by exists post|done].
  - rewrite IH. split.
    + intros [[post E]|(pre & post & ->)]; [by exists "", post|by exists (String c pre), post].
    + intros ([|d pre] & post & E); [left; by exists post|right]. injection E as <- ->. by exists pre, post.
Qed.
Lemma forallb_all {A} (f : A → bool) (P : A → Prop) l :
  (∀ x, x ∈ l → f x = true ↔ P x) → forallb f l = true ↔ ∀ x, x ∈ l → P x.
Proof using Type.
  intros HP. rewrite forallb_forall. setoid_rewrite <- list_elem_of_In.
  split; intros Hl x Hx; apply HP, Hl; done.
Qed.
Lemma day_before s t : (Truncate s <? Truncate t) = true ↔ day s < day t.
Proof using Type. unfold Truncate, day. rewrite Z.ltb_lt. split; Z.to_euclidean_division_equations; lia. Qed.
Lemma in_days_spec since before t :
  (if negb (since =? 0) || negb (before =? 0) then negb (t =? 0) && in_days since before t else true) = true
  ↔ in_period since before t.
Proof using Type.
  unfold in_period, in_days. pose proof (day_before t since) as Hs. pose proof (day_before t before) as Hb.
  destruct (Z.eqb_spec since 0), (Z.eqb_spec before 0), (Z.eqb_spec t 0),
    (Truncate t <? Truncate since), (Truncate t <? Truncate before); simpl;
    split; intros Hx; try done; repeat split; intros; try tauto; try lia; try (by destruct Hs, Hb; lia);
    exfalso; destruct Hx as (X1 & X2 & X3); try (apply X1; tauto); destruct Hs, Hb; lia.
Qed.
Lemma match_header_spec (d : string) b :
  match_header (splitMessage d).1 b = true ↔
  in_period (c_SentSince b) (c_SentBefore b) (sent_date (Some d)) ∧
  (∀ k v, (k, v) ∈ c_Header b →
     ∃ x, header_field (Some d) k = Some x ∧ occurs (ToLower v) (ToLower x)).
Proof using Type.
  assert (∀ hdr, forallb (λ hf, match hdr with
      | Some get => Contains (ToLower (get hf.1)) (ToLower hf.2) | None => false end) (c_Header b) = true ↔
    ∀ k v, (k, v) ∈ c_Header b → ∃ x, (get ← hdr; Some (get k)) = Some x ∧ occurs (ToLower v) (ToLower x)) as Hh.
  { intros hdr. rewrite (forallb_all _ (λ hf, ∃ x : string, (get ← hdr; Some (get hf.1)) = Some x ∧
      occurs (ToLower hf.2) (ToLower x))).
    - split; [intros Hx k v Hk; apply (Hx _ Hk)|intros Hx [k v] Hk; by apply Hx].
    - intros hf _. destruct hdr as [get|]; simpl; [rewrite Contains_occurs|]; naive_solver. }
  unfold match_header, sent_date, header_field. cbn [mbind option_bind].
  destruct (has_header_pred b) eqn:E.
  - rewrite andb_true_iff, in_days_spec, Hh. f_equiv. by destruct (ReadHeader _).
  - unfold has_header_pred in E. apply orb_false_iff in E as [[E1 E2]%orb_false_iff E3].
    apply negb_false_iff, bool_decide_eq_true in E1. apply negb_false_iff, Z.eqb_eq in E2, E3.
    rewrite E1, E2, E3. split; [|done]. intros _. split; [split_and!; try done; by intros [?|?]|].
    by intros k v ?%elem_of_nil.
Qed.
Lemma direct_content_spec data b :
  direct_content data b = true ↔
  in_period (c_SentSince b) (c_SentBefore b) (sent_date data) ∧
  (∀ k v, (k, v) ∈ c_Header b → ∃ x, header_field data k = Some x ∧ occurs (ToLower v) (ToLower x)) ∧
  (∀ t, t ∈ c_Body b → ∃ d, data = Some d ∧ occurs (ToLower t) (ToLower (splitMessage d).2)) ∧
  (∀ t, t ∈ c_Text b → ∃ d, data = Some d ∧ occurs (ToLower t) (ToLower d)).
Proof using Type.
  unfold direct_content. destruct (needs_scan b) eqn:E.
  - destruct data as [d|].
    + rewrite !andb_true_iff, match_header_spec.
      rewrite (forallb_all _ (λ t, ∃ d', Some d = Some d' ∧ occurs (ToLower t) (ToLower (splitMessage d').2))),
        (forallb_all _ (λ t, ∃ d', Some d = Some d' ∧ occurs (ToLower t) (ToLower d'))).
      * tauto.
      * intros t _. rewrite Contains_occurs. naive_solver.
      * intros t _. rewrite Contains_occurs. naive_solver.
    + split; [done|]. intros ((Hp & _) & Hh & Hb & Ht). exfalso. unfold needs_scan in E.
      apply orb_true_iff in E as [[[[E|E]%orb_true_iff|E]%orb_true_iff|E]%orb_true_iff|E];
        apply negb_true_iff in E; try apply bool_decide_eq_false in E; try apply Z.eqb_neq in E.
      * apply Hp; [by left|done].
      * apply Hp; [by right|done].
      * destruct (c_Header b) as [|[k v] l]; [done|]. destruct (Hh k v) as (x & ? & _); [by left|done].
      * destruct (c_Body b) as [|t l]; [done|]. destruct (Hb t) as (x & ? & _); [by left|done].
      * destruct (c_Text b) as [|t l]; [done|]. destruct (Ht t) as (x & ? & _); [by left|done].
  - split; [|done]. intros _. unfold needs_scan in E.
    apply orb_false_iff in E as [[[[E1 E2]%orb_false_iff E3]%orb_false_iff E4]%orb_false_iff E5].
    apply negb_false_iff, bool_decide_eq_true in E3, E4, E5. apply negb_false_iff, Z.eqb_eq in E1, E2.
    rewrite E1, E2, E3, E4, E5. split_and!; try (by intros ? ?%elem_of_nil); [by split_and!; try done; intros [?|?]|].
    by intros k v ?%elem_of_nil.
Qed.

Section Decides.
Context `{!ImapNumLaws}.
Lemma contains_denotes mx l n : reached mx l → 0 < n <= mx → ns_Contains l n = true ↔ denotes mx l n.
Proof using Type*.
  intros Hr Hn. rewrite contains_range by lia. unfold denotes. rewrite !Exists_exists.
  split; intros (r & Hin & Hx); exists r; (split; [done|]); eapply Forall_forall in Hr as [H1' H2']; [|exact Hin| |exact Hin];
    unfold in_range in *; destruct (Z.eqb_spec (Start r) 0), (Z.eqb_spec (Stop r) 0); lia.
Qed.
Lemma node_decides mxs mxu data info seq b :
  Forall (reached mxs) (c_SeqNum b) → Forall (reached mxu) (c_UID b) → 0 < seq <= mxs → 0 < UID info <= mxu →
  match_flags info seq b && direct_content data b = true ↔ node_meets mxs mxu data info seq b.
Proof using Type*.
  intros Hs Hu Hseq Huid. unfold match_flags, node_meets.
  rewrite !andb_true_iff, direct_content_spec, in_days_spec.
  rewrite (forallb_all _ (λ ss, denotes mxs ss seq)).
  2: { intros ss Hin. eapply Forall_forall in Hs; [|exact Hin]. by apply contains_denotes. }
  rewrite (forallb_all _ (λ us, denotes mxu us (UID info))).
  2: { intros us Hin. eapply Forall_forall in Hu; [|exact Hin]. by apply contains_denotes. }
  rewrite (forallb_all _ (λ f, f ∈ Flags info)) by (intros; apply bool_decide_eq_true).
  rewrite (forallb_all _ (λ f, f ∉ Flags info)) by
    (intros; unfold hasFlag; rewrite negb_true_iff; apply bool_decide_eq_false).
  rewrite !negb_true_iff, !andb_false_iff, !Z.ltb_ge, !Z.leb_gt.
  assert (c_Larger b <= 0 ∨ c_Larger b < Size info ↔ (0 < c_Larger b → c_Larger b < Size info)) as -> by lia.
  assert (c_Smaller b <= 0 ∨ Size info < c_Smaller b ↔ (0 < c_Smaller b → Size info < c_Smaller b)) as -> by lia.
  tauto.
Qed.
Lemma satisfies_meets mxs mxu data info seq c :
  stars_reached mxs mxu c → 0 < seq <= mxs → 0 < UID info <= mxu →
  satisfies data info seq c = true ↔ meets mxs mxu data info seq c.
Proof using Type*.
  unfold stars_reached. intros Hc Hseq Huid. induction c as [b ns os Hn Ho] using criteria_ind.
  cbn [nodes satisfies meets] in *. apply Forall_cons in Hc as [[Hs Hu] Hr]. rewrite Forall_app in Hr.
  destruct Hr as [Hrn Hro]. rewrite !andb_true_iff, <- andb_true_iff, node_decides by done.
  rewrite Logic.and_assoc. f_equiv. f_equiv.
  - clear -Hn Hrn. induction Hn as [|x ns Hx Hn IH]; [done|]. rewrite Forall_app in Hrn. destruct Hrn as [H1' H2'].
    by rewrite andb_true_iff, negb_true_iff, <- not_true_iff_false, Hx, IH.
  - clear -Ho Hro. induction Ho as [|x os [Hx1 Hx2] Ho IH]; [done|].
    rewrite !Forall_app in Hro. destruct Hro as [[H1' H2'] H3'].
    by rewrite andb_true_iff, orb_true_iff, Hx1, Hx2, IH.
Qed.
End Decides.

(** The scan of a store whose messages hold [data] has that form. *)
Lemma match_uids_scan {W} (read : Z → W → result reader serr * W) data uids bt xt nh w :
  (∀ u w, match (read u w).1 with Ok (Content d) => data u = Some d | _ => data u = None end) →
  (match_uids read uids bt xt nh w).1 = scan data uids bt xt nh.
Proof using Type.
  intros Hr. revert w. induction uids as [|u uids IH]; intros w; [done|]. cbn [match_uids scan omap list_omap].
  specialize (Hr u w). destruct (read u w) as [r w1]. cbn [fst] in Hr. specialize (IH w1).
  destruct (match_uids read uids bt xt nh w1) as [ms w2]. cbn [fst] in *. subst ms.
  destruct r as [[d|]|]; rewrite Hr; done.
Qed.

(** The messages hold [data]: the store's own scan, for a list of UIDs that is
    not empty (an empty one asks for every message), answers with the matches of
    the messages that can be read, if it answers at all; without one, reading a
    message returns its data or fails. *)
Definition holds_data {W} (st : ImapStore W) (mbox : string) (uids : list Z) (data : Z → option string) (w : W) : Prop :=
  match im_searcher st with
  | Some f => ∀ bt xt nh ms w1, uids ≠ [] → f mbox uids bt xt nh w = (Ok ms, w1) → ms = scan data uids bt xt nh
  | None => ∀ u w1, match (retrieve (im_store st) mbox u w1).1 with
                    | Ok (Content d) => data u = Some d
                    | _ => data u = None
                    end
  end.
Lemma content_scan_data {W} (st : ImapStore W) mbox uids data w bt xt nh ms w1 :
  holds_data st mbox uids data w → uids ≠ [] → content_scan st mbox uids bt xt nh w = (Ok ms, w1) →
  ms = scan data uids bt xt nh.
Proof using Type.
  unfold holds_data, content_scan. destruct (im_searcher st) as [f|]; [eauto|]. intros Hr Hu.
  unfold SearchContentStore. destruct uids as [|u uids]; [done|].
  pose proof (match_uids_scan (retrieve (im_store st) mbox) data (u :: uids) bt xt nh w Hr) as Hm.
  destruct (match_uids _ _ _ _ _ _) as [x w2]. cbn [fst] in Hm. by intros [= <- _].
Qed.

Lemma found_selected {A B} (p : A → bool) (f : A → B) (l : list A) :
  omap (λ x, if p x then Some (f x) else None) l = f <$> filter (λ x, p x = true) l.
Proof using Type.
  induction l as [|x l IH]; [done|]. cbn [omap list_omap]. rewrite filter_cons.
  destruct (p x) eqn:E; [rewrite decide_True by done|rewrite decide_False by done]; [cbn; f_equal|]; exact IH.
Qed.

(** What a scan of the listed messages leaves for the tree. *)
Lemma tree_on_message (data : Z → option string) c (l : list MessageInfo) m seq :
  m ∈ l →
  let a := collectContentTerms c no_terms in
  matchesCriteria (if hasContent a then Some (content_index a (scan data (UID <$> l) (bodyTerms a) (textTerms a)
    (needHeaders a))) else None) m seq c = satisfies (data (UID m)) m seq c.
Proof using Type.
  intros Hm a. destruct (collect_spec c no_terms) as (_ & _ & Hcov); [by split; intros x Hx%elem_of_empty|].
  apply tree_exact. eapply Forall_impl; [exact Hcov|]. intros b Hb.
  apply node_exact; [done|]. by apply list_elem_of_fmap_2.
Qed.

Lemma matched_selected data c l cc by_uid :
  (∀ m, m ∈ l → ∀ seq, matchesCriteria cc m seq c = satisfies (data (UID m)) m seq c) →
  omap (λ x, let seq := Z.of_nat x.1 + 1 in
             if matchesCriteria cc x.2 seq c then Some (if by_uid : bool then UID x.2 else seq) else None)
    (imap (λ i m, (i, m)) l)
  = (λ x, if by_uid then UID x.2 else Z.of_nat x.1 + 1) <$>
    filter (λ x, satisfies (data (UID x.2)) x.2 (Z.of_nat x.1 + 1) c = true) (imap (λ i m, (i, m)) l).
Proof using Type.
  intros Hcc. rewrite <- found_selected. apply omap_ext_elem. intros [i m] Hin.
  apply list_elem_of_lookup in Hin as [k Hk]. rewrite list_lookup_imap in Hk.
  destruct (l !! k) as [m'|] eqn:Ek; [|done]. injection Hk as <- <-. cbn [fst snd].
  rewrite Hcc; [done|]. by eapply list_elem_of_lookup_2.
Qed.

Lemma search_selects {W} (store_at : string → Z → ImapStore W) data by_uid c s w l :
  messages s = Some l → holds_data (store_of store_at s) (selectedMailbox s) (UID <$> l) data w →
  let '(r, (s', w')) := Search store_at by_uid c (s, w) in
  s' = s ∧
  match r with
  | Ok found => found = Some ((λ x, if by_uid : bool then UID x.2 else Z.of_nat x.1 + 1) <$>
      filter (λ x, satisfies (data (UID x.2)) x.2 (Z.of_nat x.1 + 1) c = true) (imap (λ i m, (i, m)) l))
  | Err e => ∃ e' bt xt nh, e = IStoreErr e' ∧
      (content_scan (store_of store_at s) (selectedMailbox s) (UID <$> l) bt xt nh w).1 = Err e'
  end.
Proof using Type.
  intros Hl Hd. unfold Search, bind, get. cbn [fst]. rewrite Hl. unfold prefetchContent.
  assert (msgs s = l) as -> by (unfold msgs; by rewrite Hl).
  pose proof (tree_on_message data c l) as Ht. cbv zeta in Ht.
  set (a := collectContentTerms c no_terms) in *. destruct (hasContent a); cbn [negb].
  - destruct (content_scan _ _ _ _ _ _ _) as [[ms|e] w1] eqn:Es; cbn [fst ret].
    + split; [done|]. f_equal. destruct (decide (l = [])) as [->|Hne]; [done|].
      apply content_scan_data with (data := data) in Es as ->; [|done|by destruct l].
      apply matched_selected. intros m Hm seq. by apply Ht.
    + split; [done|]. exists e, (bodyTerms a), (textTerms a), (needHeaders a). split; [done|].
      apply (f_equal fst) in Es. exact Es.
  - split; [done|]. unfold ret. f_equal. apply matched_selected. intros m Hm seq. by apply Ht.
Qed.

End Facts.
