(* ===== verification/ImapRuns.v ===== *)
(** * Runs of imapd

    Concrete sessions: the witnesses of the theorems of [ImapFacts], [ImapSync]
    and [ImapSearch], and the behaviour imapd shows over the real chain of
    [SmProxy] (recovering client, proxies, mail-session, maildir) where it
    departs from what its comments or the protocol say. *)
From S2P Require Import Prelude GoStrings MsgStore Maildir Keyring MsgCrypt MailSession.
From S2P Require Import SessionTable SmClient SmStore ImapStore SmProxy ImapSession ImapFacts ImapSync ImapSearch.
From Stdlib Require Import ZArith Lia Ascii.
Open Scope string_scope.
Open Scope list_scope.
Open Scope Z_scope.

(** ** go-imap's number sets *)
Definition range_list (a b : Z) : list Z := (λ i, a + Z.of_nat i) <$> seq 0 (Z.to_nat (b - a + 1)).
Definition range_has (r : NumRange) (n : Z) : bool :=
  negb (Start r =? 0) && (Start r <=? n) && ((n <=? Stop r) || (Stop r =? 0)).
#[export] Instance ranges_num : ImapNum := {|
  Nums l := if forallb (λ r, negb (Start r =? 0) && negb (Stop r =? 0)) l
            then Some (remove_dups (mjoin ((λ r, range_list (Start r) (Stop r)) <$> l))) else None;
  ns_Contains l n := existsb (λ r, range_has r n) l;
|}.
Lemma range_list_elem a b n : n ∈ range_list a b ↔ a <= n <= b.
Proof.
  unfold range_list. rewrite list_elem_of_fmap. split.
  - intros (i & -> & Hi%elem_of_seq). lia.
  - intros Hn. exists (Z.to_nat (n - a)). split; [lia|]. apply elem_of_seq. lia.
Qed.
Lemma all_static l :
  forallb (λ r, negb (Start r =? 0) && negb (Stop r =? 0)) l = false ↔ Exists (λ r, Start r = 0 ∨ Stop r = 0) l.
Proof.
  induction l as [|r l IH]; simpl; [split; [done|intros Hx; inversion Hx]|].
  rewrite andb_false_iff, IH, Exists_cons. destruct (Z.eqb_spec (Start r) 0), (Z.eqb_spec (Stop r) 0); naive_solver.
Qed.
#[export] Instance ranges_laws : ImapNumLaws.
Proof.
  split.
  - intros l. cbn [Nums ranges_num]. rewrite <- all_static. by destruct (forallb _ l).
  - intros l ns. cbn [Nums ranges_num]. destruct (forallb _ l); [|done]. intros [= <-].
    split; [apply NoDup_remove_dups|]. intros n. rewrite elem_of_remove_dups, list_elem_of_join, Exists_exists. split.
    + intros (x & Hn & (r & -> & Hr)%list_elem_of_fmap). exists r. split; [done|]. by apply range_list_elem.
    + intros (r & Hr & Hn). exists (range_list (Start r) (Stop r)). split; [by apply range_list_elem|].
      by apply (list_elem_of_fmap_2 (λ r, range_list (Start r) (Stop r))).
  - intros l n Hn. cbn [ns_Contains ranges_num]. rewrite existsb_exists, Exists_exists.
    setoid_rewrite <- list_elem_of_In. unfold range_has.
    split; intros (r & Hr & Hx); exists r; (split; [done|]).
    + apply andb_true_iff in Hx as [[H1 H2]%andb_true_iff H3]. apply negb_true_iff, Z.eqb_neq in H1.
      apply Z.leb_le in H2. apply orb_true_iff in H3 as [H3%Z.leb_le|H3%Z.eqb_eq]; auto.
    + destruct Hx as (H1 & H2 & H3). apply Z.eqb_neq in H1. apply Z.leb_le in H2. rewrite H1, H2. simpl.
      apply orb_true_iff. destruct H3 as [H3|H3]; [left; by apply Z.leb_le|right; by apply Z.eqb_eq].
Qed.

(** ** A store of one folder *)
Module Shelf.
Record shelf := mkShelf { on : list MessageInfo; gone : gset Z }.
Definition listing (w : shelf) : result (list MessageInfo) serr * shelf :=
  (if decide (NoDup (UID <$> on w)) then Ok (on w) else Err "corrupt index", w).
Definition mark (u : Z) (w : shelf) : option serr * shelf := (None, mkShelf (on w) ({[u]} ∪ gone w)).
Definition expunge (w : shelf) : option serr * shelf :=
  (None, mkShelf (filter (λ m, UID m ∉ gone w) (on w)) (gone w)).
Definition skip (w : shelf) : option serr * shelf := (None, w).
Definition flag (u : Z) (fl : list string) (w : shelf) : option serr * shelf :=
  (None, mkShelf (set_flags_uid u fl (on w)) (gone w)).
(** Moving fails for one message, if any. *)
Definition move (stuck u : Z) (w : shelf) : result Z serr * shelf :=
  if decide (u = stuck) then (Err "quota exceeded", w)
  else (Ok (u + 100), mkShelf (filter (λ m, UID m ≠ u) (on w)) (gone w)).
Definition folders : FolderStore shelf :=
  mkFolderStore (λ _ _, skip) (λ _ w, (Ok [], w)) (λ _ _, skip) (λ _ _, listing) (λ _ _ w, (Ok (0, 0), w))
    (λ _ _ _ w, (Ok (Content "text"), w)) (λ _ _, mark) (λ _ _, expunge) (λ _ _ _, skip) (λ _ _ _, skip)
    (λ _ _ _ _ _ w, (Ok 9, w)) (λ _ _, flag) (λ _ _ _ _ w, (Ok 9, w)) (λ _ _ w, (Ok 7, w)) (λ _ _ w, (Ok 10, w)).
Definition store (stuck : Z) : ImapStore shelf :=
  mkImapStore
    (mkMailStore (mkMessageStore (λ _, listing) (λ _ _ w, (Ok (Content "text"), w)) (λ _, mark) (λ _, expunge)
                    (λ _ w, (Ok (0, 0), w))) (Some folders))
    (Some (λ _ _ u _, move stuck u)) None None (λ _, false).
Definition sent (_ : event) (w : shelf) : bool * shelf := (true, w).
Definition post (_ : string) (_ : list (string * string)) (_ : string) (w : shelf) : result (Z * string) serr * shelf :=
  (Ok (200, ""), w).
Definition drain (_ : bool) (q : list update) : list update * list update := (q, []).
Definition info (u : Z) (fl : list string) : MessageInfo := mkInfo u "" 4 fl 0.
Definition four : list MessageInfo :=
  [info 2 []; info 3 [FlagDeleted]; info 5 [FlagSeen]; info 8 [FlagDeleted]].
Definition w4 : shelf := mkShelf four ∅.
Definition at_ (stuck : Z) : string → Z → ImapStore shelf := λ _ _, store stuck.
Import MdDemo.
Definition opened (stuck : Z) : imapSession * shelf := (Select (at_ stuck) "INBOX" false (NewSession, w4)).2.
End Shelf.

Section ShelfRuns.
Import MdDemo Shelf.
Notation S0 := (at_ 0).

(** The set [2,4:*] of sequence numbers and [5:*] of UIDs. *)
Lemma resolve_exact_example :
  let s := (opened 0).1 in
  resolveNumSet s (SeqSet [mkRange 2 2; mkRange 4 0]) = [1; 3] ∧
  denotes 8 [mkRange 9 0] 8 ∧ resolveNumSet s (UIDSet [mkRange 9 0]) = [3].
Proof.
  split; [vm_compute; reflexivity|]. split; [|vm_compute; reflexivity].
  assert (listing_ok (msgs (opened 0).1)) as Hok.
  { split; [repeat constructor|repeat constructor]; vm_compute; reflexivity. }
  destruct (resolve_exact (opened 0).1 (UIDSet [mkRange 9 0]) Hok eq_refl) as [_ Hr].
  { constructor; [|constructor]. simpl. lia. }
  apply (Hr 3%nat (info 8 [FlagDeleted]) eq_refl). vm_compute. apply list_elem_of_singleton. reflexivity.
Defined.

#[local] Instance plain_extract : ImapExtract := {|
  ExtractEnvelope _ := Some "envelope"; ExtractBodyStructure _ := "structure"; ExtractBodySection d _ := d;
  MatchList m _ p := bool_decide (m = p) |}.
Notation run0 := (run S0 sent post None "" (λ _ _ _ w, (Ok "alice", w)) drain).

Lemma index_always_current_witness :
  let cs := [CLogin true "alice@x" "pw" "192.0.2.7"; CSelect "INBOX" false; CExpunge None;
             CStore (SeqSet [mkRange 1 0]) (mkStoreFlags StoreFlagsAdd false [FlagSeen]);
             CIdle [IdNotify "INBOX" false]] in
  let s := (foldl (λ st c, run0 c st) (NewSession, w4) cs).1 in
  UID <$> msgs s = [2; 5] ∧ ∃ j m, 1 = Z.of_nat j ∧ msgs s !! j = Some m ∧ UID m = 5.
Proof.
  split; [vm_compute; reflexivity|].
  apply (index_always_current S0 sent post None "" (λ _ _ _ w, (Ok "alice", w)) drain
    [CLogin true "alice@x" "pw" "192.0.2.7"; CSelect "INBOX" false; CExpunge None;
     CStore (SeqSet [mkRange 1 0]) (mkStoreFlags StoreFlagsAdd false [FlagSeen]);
     CIdle [IdNotify "INBOX" false]] w4).
  vm_compute. reflexivity.
Defined.

(** The shelf keeps the laws of a folder, whatever its name. *)
Lemma inbox_or {A} (b : bool) (x : A) : (if b then x else x) = x.
Proof. by destruct b. Qed.
#[local] Instance shelf_laws sel uv known : FolderLaws (at_ 0 sel uv) "" sel (λ w, UID <$> on w) gone known.
Proof.
  split.
  - by eexists.
  - intros w l w'. unfold store_list. cbn. rewrite inbox_or. unfold listing. case_decide; [|done].
    intros [= <- <-]. split; [done|apply arrivals_refl].
  - intros w u r w'. unfold store_delete. cbn. rewrite inbox_or. intros [= <- <-]. split; [apply arrivals_refl|done].
  - intros w w'. unfold store_expunge. cbn. rewrite inbox_or. intros [= <-]. cbn [on].
    rewrite filter_fmap_UID. apply arrivals_refl.
  - intros w u. unfold store_retrieve. cbn. rewrite inbox_or. apply arrivals_refl.
  - intros f w d [= <-]. apply arrivals_refl.
Qed.


(** *** A move that fails half-way

    The second message cannot be moved: the first one is gone from the folder,
    but the command returns before it queues anything or lists the folder again,
    so client and session go on with positions that are no longer true. *)
Lemma failed_move_out_of_step :
  let '(r, (s', w')) := Move (at_ 3) sent post None "" (SeqSet [mkRange 1 2]) "Trash" (opened 3) in
  r = Err (IStoreErr "quota exceeded") ∧ tracker s' = Some [] ∧
  UID <$> msgs s' = [2; 3; 5; 8] ∧ UID <$> on w' = [3; 5; 8].
Proof. vm_compute. by split_and!. Qed.

(** A set without [*] is written out number by number before it is compared with
    the mailbox: its size is the client's choice. *)
Lemma static_set_materialised `{ImapNumLaws} s l nums :
  Nums l = Some nums → length (resolveNumSet s (SeqSet l)) = length nums.
Proof. intros E. unfold resolveNumSet. rewrite E. apply length_fmap. Qed.

(** *** SEARCH *)
#[local] Instance plain_headers : MailHeaders := {|
  ReadHeader h := Some (λ k, if Contains h k then h else ""); ParseDate _ := None |}.
Definition bodies (u : Z) : option string :=
  if decide (u = 2) then Some ("Subject: a" +:+ crlf +:+ crlf +:+ "hello Foo")
  else if decide (u = 5) then Some ("Subject: foo" +:+ crlf +:+ crlf +:+ "bye") else None.
Definition searching : string → Z → ImapStore shelf := λ _ _,
  mkImapStore (im_store (store 0)) None
    (Some (λ _ uids bt xt nh w, (Ok (scan bodies uids bt xt nh), w))) None (λ _, false).
Definition any : criteria := mkBase [] [] [] [] 0 0 0 0 0 0 [] [] [].
Definition body (t : string) : SearchCriteria := mkCriteria (mkBase [] [] [] [] 0 0 0 0 0 0 [] [t] []) [] [].
Definition text (t : string) : SearchCriteria := mkCriteria (mkBase [] [] [] [] 0 0 0 0 0 0 [] [] [t]) [] [].
(** [UID 3:* NOT BODY "FOO" TEXT "foo" OR TEXT "FOO" BODY "bye"]: the word is in the
    header only. *)
Definition not_in_body : SearchCriteria :=
  mkCriteria (mkBase [] [[mkRange 3 0]] [] [] 0 0 0 0 0 0 [] [] ["foo"]) [body "FOO"] [(text "FOO", body "bye")].

(** [SEARCH UID *] and [SEARCH UID 9:*] denote the last message, which FETCH of
    the same set returns; the search finds nothing. *)
Definition by_uid (r : NumRange) : SearchCriteria :=
  mkCriteria (mkBase [] [[r]] [] [] 0 0 0 0 0 0 [] [] []) [] [].
Lemma search_star_misses_last :
  (Search S0 true (by_uid (mkRange 0 0)) (opened 0)).1 = Ok (Some []) ∧
  (Search S0 true (by_uid (mkRange 9 0)) (opened 0)).1 = Ok (Some []) ∧
  resolveNumSet (opened 0).1 (UIDSet [mkRange 0 0]) = [3].
Proof. vm_compute. by split_and!. Qed.
End ShelfRuns.

(** ** Over the real chain *)
Section HostRuns.
Import MdDemo Host.
#[local] Existing Instance plain_extract.
Notation W := (heap (server disk)).
Notation sent := (λ (_ : event) (w : W), (true, w)).
Notation drain := (λ (_ : bool) (q : list update), (q, @nil update)).
(** alice's maildir, its second message flagged and seen. *)
Definition selected (ro : bool) (w : disk) : imapSession * W := (Select istore "INBOX" ro (NewSession, logged_in w)).2.
Definition add (flags : list string) : StoreFlags := mkStoreFlags StoreFlagsAdd true flags.
Definition then_ {A} (m : iop (W := W) A) (st : imapSession * W) : imapSession * W := (m st).2.
(** What the folder holds, listed afresh. *)
Definition held (st : imapSession * W) : list (Z * list string) :=
  match (listMessages istore "INBOX" st).1 with Ok l => (λ m, (UID m, Flags m)) <$> l | Err _ => [] end.
Definition seq (n : Z) : NumSet := SeqSet [mkRange n n].

(** UID EXPUNGE 1 with both messages flagged: the folder's whole set of flagged
    messages is removed, and the client is told of message 1 only. *)
Lemma uid_expunge_removes_others :
  let st := then_ (Store istore sent (SeqSet [mkRange 1 0]) (add [FlagDeleted])) (selected false w0) in
  let '(r, st') := Expunge istore (Some [mkRange 1 1]) st in
  r = Ok () ∧ tracker st'.1 = Some [UExpunge 1] ∧ UID <$> msgs st'.1 = [] ∧ held st' = [].
Proof. vm_compute. by split_and!. Qed.

(** EXAMINE opens the mailbox read-only; STORE and EXPUNGE change it. *)
Lemma examined_mailbox_expunged :
  let st := then_ (Store istore sent (seq 2) (add [FlagDeleted])) (selected true w0) in
  let '(r, st') := Expunge istore None st in
  readOnly st.1 = true ∧ r = Ok () ∧ held (selected true w0) = [(1, [FlagSeen]); (2, [])] ∧
  held st' = [(1, [FlagSeen])].
Proof. vm_compute. by split_and!. Qed.

(** A message arrives before an EXPUNGE. The list is read again and holds it, but
    the client is told of the expunge only; the notification that follows finds
    nothing new. The client never learns of the message. *)
Definition arrive (st : imapSession * W) : imapSession * W :=
  then_ (Append istore 5 "INBOX" "news" None) st.
Definition subscribed (st : imapSession * W) : imapSession * W :=
  (mkImap (username st.1) (mailbox st.1) (userDomain st.1) (selectedMailbox st.1) (selectedUIDValidity st.1)
     (messages st.1) (uidIndex st.1) (tracker st.1) (readOnly st.1) true (closed st.1) [], st.2).
Lemma arrival_hidden_by_expunge :
  let st := subscribed (then_ (Store istore sent (seq 1) (add [FlagDeleted])) (selected false w0)) in
  let st1 := then_ (Expunge istore None) (arrive st) in
  let st2 := (Idle istore sent drain [IdNotify "INBOX" false; IdStop] st1).2 in
  UID <$> msgs st.1 = [1; 2] ∧ tracker st1.1 = Some [UExpunge 1] ∧
  foldl apply_update [1; 2] [UExpunge 1] = [2] ∧ UID <$> msgs st1.1 = [2; 3] ∧
  omap (λ e, match e with EvUpdates l => Some l | _ => None end) (trace st2.1) = [[UExpunge 1]].
Proof. vm_compute. by split_and!. Qed.

(** A flag set by another client since the mailbox was selected is lost: STORE
    computes the complete set from the copy of the session. *)
Lemma concurrent_flag_lost :
  let other := then_ (Store istore sent (seq 2) (add ["\Flagged"])) (selected false w0) in
  let st := ((selected false w0).1, other.2) in
  held other = [(1, [FlagSeen]); (2, ["\Flagged"])] ∧
  held (then_ (Store istore sent (seq 2) (add [FlagSeen])) st) = [(1, [FlagSeen]); (2, [FlagSeen])].
Proof. vm_compute. by split_and!. Qed.

(** The manager restarts between the listing and the UIDVALIDITY of a SELECT: the
    check of the recovery compares with the value of the folder selected before
    (none), refuses the session, and SELECT reports UIDVALIDITY 1. *)
Definition reselecting (st : imapSession * W) : imapSession * W :=
  (select_state "INBOX" (msgs st.1) false NewSession,
   mkHeap (objects st.2) (mkServer New ∅ (sv_disk (remote st.2)) ∅ 5 2000)).
Lemma select_after_restart :
  (getUIDValidity istore "INBOX" (reselecting (selected false w0))).1 = Ok 1 ∧
  selectedUIDValidity (selected false w0).1 = uv_now ∧ uv_now ≠ 1.
Proof. vm_compute. by split_and!. Qed.
End HostRuns.

(** ** Dates do not cross the proxy *)
Section Dates.
Context {W : Type} `{Stubs W, UnicodeCase, ImapNum, MailHeaders}.
(** A listing through the session-manager has no dates, so no message of it is
    ever found by SINCE or BEFORE. *)
Lemma listing_without_dates sel uv h mb folder hw l hw' :
  sms_ListInFolder sel uv h mb folder hw = (Ok l, hw') → Forall (λ m, InternalDate m = 0) l.
Proof.
  unfold sms_ListInFolder. destruct (sess_ListMessages _ _ _ _) as [[pbs|] hw1]; [|done]. intros [= <- _].
  apply Forall_fmap, Forall_true. done.
Qed.
Lemma dated_search_finds_nothing cc info seq b ns os :
  InternalDate info = 0 → c_Since b ≠ 0 ∨ c_Before b ≠ 0 →
  matchesCriteria cc info seq (mkCriteria b ns os) = false.
Proof.
  intros Hd Hs. cbn [matchesCriteria]. unfold match_flags. rewrite Hd.
  assert (negb (c_Since b =? 0) || negb (c_Before b =? 0) = true) as ->.
  { apply orb_true_iff. destruct Hs as [Hs|Hs]; [left|right]; by apply negb_true_iff, Z.eqb_neq. }
  cbn [Z.eqb negb andb]. by rewrite !andb_false_r.
Qed.
End Dates.
