(* ===== verification/Dispatch.v ===== *)
(** * The fork-per-connection dispatcher

    [src/internal/connfork]: accept loops that take a handler slot before they
    accept, one goroutine per connection that asks the gate and starts a handler,
    the reapers, and the tarpit with its own budget. The goroutines are the
    threads of a state; a step names the thread that moves and what its
    environment answers, so a theorem about all sequences of steps covers every
    interleaving. The child's side is the listener that yields one connection
    ([oneconn.go]). *)
From S2P Require Import Prelude GoStrings PeerGate OidcServer.
From Stdlib Require Import ZArith Lia.
Open Scope string_scope.
Open Scope list_scope.
Open Scope Z_scope.

(** ** Configuration *)
Record Listener := mkListener { l_Address : string; l_Mode : string; l_AuthFacing : bool }.
Record dispatchConfig := mkDispatch {
  dc_ExecPath : string; dc_Listeners : list Listener;
  dc_MaxConns : Z; dc_MaxTarpit : Z; dc_Gate : bool; dc_StrictGate : bool; dc_GateTimeout : Z;
}.
Definition defaultGateTimeout : Z := 2 * 10 ^ 9.
Definition defaultMaxTarpit : nat := 256.
(** The capacities of the two channels; [None] is no channel. *)
Definition handler_slots (c : dispatchConfig) : option nat :=
  if 0 <? dc_MaxConns c then Some (Z.to_nat (dc_MaxConns c)) else None.
Definition tarpit_slots (c : dispatchConfig) : option nat :=
  if 0 <? dc_MaxTarpit c then Some (Z.to_nat (dc_MaxTarpit c))
  else if dc_MaxTarpit c =? 0 then Some defaultMaxTarpit else None.
Definition gate_timeout (c : dispatchConfig) : Z :=
  if dc_GateTimeout c =? 0 then defaultGateTimeout else dc_GateTimeout c.
(** [checkFDHeadroom]: whether it warns, for the limit read if it can be; the sum
    is that of [int], converted to [uint64]. *)
Definition checkFDHeadroom (c : dispatchConfig) (rlimit : option Z) : bool :=
  match rlimit with
  | None => false
  | Some lim => lim <? (dc_MaxConns c + Z.of_nat (default 0%nat (tarpit_slots c)) + 32) mod 2 ^ 64
  end.

(** ** Connections *)
(** [RemoteAddr().String()], if there is an address. *)
Definition RemoteIP (addr : option string) : string :=
  match addr with
  | None => ""
  | Some a => default a (SplitHostPort a)
  end.
Record conn := mkConn { cn_id : nat; cn_addr : option string; cn_tcp : bool }.

(** The gate's answer becomes a verdict, whether the connection is denied, and
    what is counted. *)
Definition gateVerdict (cfg : dispatchConfig) (clientIP : string) (answer : result Verdict string)
    : Verdict * bool * option string :=
  if negb (dc_Gate cfg) || bool_decide (clientIP = "") then (no_verdict, false, None)
  else match answer with
       | Err _ =>
           if dc_StrictGate cfg then (mkVerdict true 0 "gate_error" false, true, Some "error")
           else (no_verdict, false, Some "error")
       | Ok v =>
           if Banned v then (v, true, Some "deny")
           else if ShadowBanned v then (v, false, Some "shadow")
           else (v, false, Some "allow")
       end.

(** ** Threads *)
Inductive thread :=
| TAcquire (lc : Listener)                   (** an accept loop that wants a slot *)
| TAccept (lc : Listener)                    (** holding a slot, in Accept *)
| TGate (c : conn) (lc : Listener)           (** [spawnHandler], asking the gate *)
| TStart (c : conn) (lc : Listener)          (** let through, about to duplicate the socket *)
| TFork (c : conn) (lc : Listener)           (** the parent's copy closed, about to start the handler *)
| TBegun (c : conn) (lc : Listener)          (** the handler started, about to report it *)
| TRelease                                   (** about to give its slot back *)
| TReap (c : conn)                           (** the handler's reaper *)
| TDeny (c : conn) (v : Verdict)             (** [tarpitConn] *)
| TEnter (c : conn)                          (** has a tarpit slot, about to report it *)
| THeld (c : conn)                           (** in the tarpit *)
| TLeave (c : conn)                          (** slot given back, about to report it *)
| TClose (c : conn).                         (** about to close the connection *)
(** What is seen from outside; [DClosed] is the parent's copy of the socket. *)
Inductive devent :=
| DAccepted (c : conn) | DVerdict (c : conn) (answer : result Verdict string) (metric : option string)
| DStarted (c : conn) (ip mode : string) | DEnded (c : conn)
| DTarpitStart (c : conn) | DTarpitEnd (c : conn) | DTarpitRejected (c : conn) | DClosed (c : conn)
| DListenerGone (lc : Listener).
Record dispatcher := mkDispatcher {
  threads : list thread; tokens : nat; tarpitTokens : nat; ctx_done : bool; accepted : nat; out : list devent;
}.
Inductive start_outcome := Duplicated | DupFails | StartFails | Started.
(** The choices of the environment. *)
Inductive choice :=
| Go                                         (** the thread's next action *)
| Stops                                      (** [acquire] sees the end of the context *)
| Accepts (addr : option string) (tcp : bool) | AcceptFails
| Answers (r : result Verdict string)
| Starts (o : start_outcome)
| Cancel.                                    (** the context ends *)

Definition replace_thread (i : nat) (new : list thread) (l : list thread) : list thread :=
  take i l ++ new ++ drop (S i) l.
Definition below (cap : option nat) (n : nat) : bool :=
  match cap with Some k => (n <? k)%nat | None => true end.
(** A slot is counted only where there is a channel. *)
Definition take_slot (cap : option nat) (n : nat) : nat := match cap with Some _ => S n | None => n end.
Definition give_slot (cap : option nat) (n : nat) : nat := match cap with Some _ => pred n | None => n end.

Section Run.
Context (cfg : dispatchConfig).
Notation caps := (handler_slots cfg).

Definition move (i : nat) (new : list thread) (evs : list devent) (s : dispatcher) : dispatcher :=
  mkDispatcher (replace_thread i new (threads s)) (tokens s) (tarpitTokens s) (ctx_done s) (accepted s) (out s ++ evs).
Definition set_tokens (n : nat) (s : dispatcher) : dispatcher :=
  mkDispatcher (threads s) n (tarpitTokens s) (ctx_done s) (accepted s) (out s).
Definition set_tarpit (n : nat) (s : dispatcher) : dispatcher :=
  mkDispatcher (threads s) (tokens s) n (ctx_done s) (accepted s) (out s).

(** [acceptLoop], [acquire] and [release] *)
Definition acceptLoop (i : nat) (t : thread) (ch : choice) (s : dispatcher) : dispatcher :=
  match t, ch with
  | TAcquire lc, Go =>
      if below caps (tokens s) then set_tokens (take_slot caps (tokens s)) (move i [TAccept lc] [] s) else s
  | TAcquire lc, Stops => if ctx_done s && bool_decide (caps ≠ None) then move i [] [] s else s
  | TAccept lc, Accepts addr tcp =>
      let c := mkConn (accepted s) addr tcp in
      let s := move i [TAcquire lc; TGate c lc] [DAccepted c] s in
      mkDispatcher (threads s) (tokens s) (tarpitTokens s) (ctx_done s) (S (accepted s)) (out s)
  | TAccept lc, AcceptFails => move i [TRelease] (if ctx_done s then [] else [DListenerGone lc]) s
  | TRelease, Go => set_tokens (give_slot caps (tokens s)) (move i [] [] s)
  | _, _ => s
  end.
(** [spawnHandler] with the reaper it leaves behind *)
Definition spawnHandler (i : nat) (t : thread) (ch : choice) (s : dispatcher) : dispatcher :=
  match t, ch with
  | TGate c lc, Answers r =>
      let '(v, denied, m) := gateVerdict cfg (RemoteIP (cn_addr c)) r in
      if denied then move i [TRelease; TDeny c v] [DVerdict c r m] s
      else if cn_tcp c then move i [TStart c lc] [DVerdict c r m] s
      else move i [TRelease] [DVerdict c r m; DClosed c] s
  | TStart c lc, Starts Duplicated => move i [TFork c lc] [DClosed c] s
  | TStart c lc, Starts DupFails => move i [TRelease] [DClosed c] s
  | TFork c lc, Starts Started => move i [TBegun c lc] [] s
  | TFork c lc, Starts StartFails => move i [TRelease] [] s
  | TBegun c lc, Go => move i [TReap c] [DStarted c (RemoteIP (cn_addr c)) (l_Mode lc)] s
  | TReap c, Go => move i [TRelease] [DEnded c] s
  | _, _ => s
  end.
(** [tarpitConn]: the slot is taken, then the start is reported; the read ends when
    the peer hangs up, at the deadline or at shutdown, whichever the environment
    chooses; then the slot is given back, the end is reported and the connection
    closed, one after the other. *)
Definition tarpitConn (i : nat) (t : thread) (ch : choice) (s : dispatcher) : dispatcher :=
  match t, ch with
  | TDeny c v, Go =>
      match tarpit_slots cfg with
      | Some k =>
          if 0 <? Tarpit v then
            if (tarpitTokens s <? k)%nat then set_tarpit (S (tarpitTokens s)) (move i [TEnter c] [] s)
            else move i [TClose c] [DTarpitRejected c] s
          else move i [] [DClosed c] s
      | None => move i [] [DClosed c] s
      end
  | TEnter c, Go => move i [THeld c] [DTarpitStart c] s
  | THeld c, Go => set_tarpit (pred (tarpitTokens s)) (move i [TLeave c] [] s)
  | TLeave c, Go => move i [TClose c] [DTarpitEnd c] s
  | TClose c, Go => move i [] [DClosed c] s
  | _, _ => s
  end.

Definition dispatch_step (s : dispatcher) (e : nat * choice) : dispatcher :=
  let '(i, ch) := e in
  match ch with
  | Cancel => mkDispatcher (threads s) (tokens s) (tarpitTokens s) true (accepted s) (out s)
  | _ =>
      match threads s !! i with
      | None => s
      | Some t =>
          match t with
          | TAcquire _ | TAccept _ | TRelease => acceptLoop i t ch s
          | TGate _ _ | TStart _ _ | TFork _ _ | TBegun _ _ | TReap _ => spawnHandler i t ch s
          | TDeny _ _ | TEnter _ | THeld _ | TLeave _ | TClose _ => tarpitConn i t ch s
          end
      end
  end.
(** [Run]: one loop per listener; it starts when every address can be listened
    on ([listens]) and there is a handler to run. *)
Definition Run (listens : bool) : option dispatcher :=
  if decide (dc_ExecPath cfg = "") then None
  else if listens then Some (mkDispatcher (TAcquire <$> dc_Listeners cfg) 0 0 false 0 []) else None.
Definition dispatch_run (evs : list (nat * choice)) (s : dispatcher) : dispatcher := foldl dispatch_step s evs.
End Run.

(** ** Counting threads *)
Definition weigh (w : thread → nat) (l : list thread) : nat := foldr (λ t n, w t + n)%nat 0%nat l.
Lemma weigh_app w l k : weigh w (l ++ k) = (weigh w l + weigh w k)%nat.
Proof. induction l as [|t l IH]; cbn [app weigh foldr]; [done|]. unfold weigh in *. lia. Qed.
Lemma weigh_replace w i t new l :
  l !! i = Some t → (weigh w (replace_thread i new l) + w t = weigh w l + weigh w new)%nat.
Proof.
  intros Hi. rewrite <- (take_drop_middle l i t Hi) at 2. unfold replace_thread. rewrite !weigh_app.
  cbn [weigh foldr]. fold (weigh w (drop (S i) l)). lia.
Qed.
Lemma weigh_le w v l : (∀ t, (w t <= v t)%nat) → (weigh w l <= weigh v l)%nat.
Proof. intros Hw. induction l as [|t l IH]; cbn; [done|]. specialize (Hw t). unfold weigh in *. lia. Qed.

(** Threads that hold a handler slot, have a handler running, have reported its
    start and not its end, hold a tarpit slot, have reported a tarpit start without
    its end, own the parent's copy of a socket. *)
Definition in_slot (t : thread) : nat :=
  match t with TAccept _ | TGate _ _ | TStart _ _ | TFork _ _ | TBegun _ _ | TRelease | TReap _ => 1 | _ => 0 end.
Definition handling (t : thread) : nat := match t with TBegun _ _ | TReap _ => 1 | _ => 0 end.
Definition counted (t : thread) : nat := match t with TReap _ => 1 | _ => 0 end.
Definition held (t : thread) : nat := match t with TEnter _ | THeld _ => 1 | _ => 0 end.
Definition reported (t : thread) : nat := match t with THeld _ | TLeave _ => 1 | _ => 0 end.
Definition socket_of (t : thread) : option conn :=
  match t with
  | TGate c _ | TStart c _ | TDeny c _ | TEnter c | THeld c | TLeave c | TClose c => Some c
  | _ => None
  end.
(** The connection numbered [n]. *)
Definition owns (n : nat) (t : thread) : nat := match socket_of t with Some c => if decide (cn_id c = n) then 1 else 0 | None => 0 end.
Definition tally (f : devent → bool) (l : list devent) : nat := foldr (λ e n, if f e then S n else n) 0%nat l.
Lemma tally_app f l k : tally f (l ++ k) = (tally f l + tally f k)%nat.
Proof. induction l as [|e l IH]; cbn; [done|]. unfold tally in *. destruct (f e); lia. Qed.
Definition is_started e := match e with DStarted _ _ _ => true | _ => false end.
Definition is_ended e := match e with DEnded _ => true | _ => false end.
Definition is_tarpit_start e := match e with DTarpitStart _ => true | _ => false end.
Definition is_tarpit_end e := match e with DTarpitEnd _ => true | _ => false end.
Definition closes (n : nat) e := match e with DClosed c => bool_decide (cn_id c = n) | _ => false end.

Section Facts.
Context (cfg : dispatchConfig).
Notation caps := (handler_slots cfg).

(** ** Every slot and every socket is accounted for *)
Record accounted (s : dispatcher) : Prop := {
  acc_tokens : tokens s = match caps with Some _ => weigh in_slot (threads s) | None => 0%nat end;
  acc_cap : ∀ k, caps = Some k → (tokens s <= k)%nat;
  acc_tarpit : tarpitTokens s = weigh held (threads s);
  acc_tarpit_cap : (tarpitTokens s <= default 0%nat (tarpit_slots cfg))%nat;
  acc_gauge : tally is_started (out s) = (tally is_ended (out s) + weigh counted (threads s))%nat;
  acc_tarpit_gauge : tally is_tarpit_start (out s) = (tally is_tarpit_end (out s) + weigh reported (threads s))%nat;
  acc_sockets : ∀ n, (tally (closes n) (out s) + weigh (owns n) (threads s))%nat = if decide (n < accepted s)%nat then 1%nat else 0%nat;
}.


(** One thread becomes others: it is enough that the numbers agree. *)
Lemma move_accounted s i t new evs tk tp d acc :
  threads s !! i = Some t → accounted s →
  match caps with
  | Some k => (tk + in_slot t = tokens s + weigh in_slot new)%nat ∧ (tk <= k)%nat
  | None => tk = tokens s
  end →
  (tp + held t = tarpitTokens s + weigh held new)%nat → (tp <= default 0%nat (tarpit_slots cfg))%nat →
  (tally is_started evs + counted t = tally is_ended evs + weigh counted new)%nat →
  (tally is_tarpit_start evs + reported t = tally is_tarpit_end evs + weigh reported new)%nat →
  (accepted s <= acc)%nat →
  (∀ n, (tally (closes n) evs + weigh (owns n) new)%nat =
     (owns n t + if decide (accepted s <= n < acc)%nat then 1 else 0)%nat) →
  accounted (mkDispatcher (replace_thread i new (threads s)) tk tp d acc (out s ++ evs)).
Proof.
  intros Hi [H1 H2 H3 H4 H5 H6 H7] Ht Hp Hpc Hg Htg Ha Hs.
  pose proof (weigh_replace in_slot i t new _ Hi). pose proof (weigh_replace counted i t new _ Hi).
  pose proof (weigh_replace held i t new _ Hi). pose proof (weigh_replace reported i t new _ Hi).
  constructor; cbn [threads tokens tarpitTokens ctx_done accepted out]; rewrite ?tally_app; try lia.
  - destruct caps as [k|]; [lia|congruence].
  - intros k Hk. rewrite Hk in Ht. lia.
  - intros n. rewrite tally_app. specialize (H7 n). specialize (Hs n). pose proof (weigh_replace (owns n) i t new _ Hi).
    repeat case_decide; lia.
Qed.
Lemma in_slot_held s i t : threads s !! i = Some t → accounted s → caps ≠ None → (in_slot t <= tokens s)%nat.
Proof.
  intros Hi [H1 _ _ _ _ _ _] Hc. rewrite H1. destruct caps; [|done].
  pose proof (weigh_replace in_slot i t [] _ Hi). cbn [weigh foldr] in *. lia.
Qed.
Lemma tarpit_held s i t : threads s !! i = Some t → accounted s → (held t <= tarpitTokens s)%nat.
Proof.
  intros Hi [_ _ H3 _ _ _ _]. rewrite H3. pose proof (weigh_replace held i t [] _ Hi). cbn [weigh foldr] in *. lia.
Qed.


(** The numbers of a move whose threads and events are written out. *)
Ltac count_all :=
  try (intros ?); unfold owns; cbn [in_slot held handling counted reported socket_of weigh tally foldr is_started is_ended
    is_tarpit_start is_tarpit_end closes cn_id bool_decide]; try case_bool_decide; repeat case_decide; simplify_eq; lia.
Ltac agree := eapply move_accounted; [eassumption|assumption|..]; try solve [count_all].
Ltac same_slots := destruct caps as [k|] eqn:Ek; [|done]; cbn [in_slot weigh foldr]; split; [lia|auto].

Lemma acceptLoop_accounted s i t ch :
  threads s !! i = Some t → accounted s → accounted (acceptLoop cfg i t ch s).
Proof.
  intros Hi Hs. pose proof (acc_cap s Hs) as Hcap. pose proof (acc_tarpit_cap s Hs) as Htcap.
  pose proof (in_slot_held s i t Hi Hs) as Hin.
  destruct t as [lc|lc|c lc|c lc|c lc|c lc| |c|c v|c|c|c|c]; destruct ch as [| |addr tcp| |r|o|]; cbn [acceptLoop]; try done.
  - destruct (below caps (tokens s)) eqn:Eb; [|done]. unfold set_tokens, move. cbn. agree.
    destruct caps as [k|]; [|done]. cbn [below take_slot in_slot weigh foldr] in *. apply Nat.ltb_lt in Eb. lia.
  - destruct (_ && _); [|done]. agree. same_slots.
  - cbn. agree. same_slots.
  - unfold move. agree; [same_slots|..]; destruct (ctx_done s); count_all.
  - unfold set_tokens, move. cbn. agree. destruct caps as [k|]; [|done].
    cbn [give_slot in_slot weigh foldr] in *. specialize (Hcap k eq_refl). specialize (Hin ltac:(done)). lia.
Qed.
Lemma spawnHandler_accounted s i t ch :
  threads s !! i = Some t → accounted s → accounted (spawnHandler cfg i t ch s).
Proof.
  intros Hi Hs. pose proof (acc_cap s Hs) as Hcap. pose proof (acc_tarpit_cap s Hs) as Htcap.
  destruct t as [lc|lc|c lc|c lc|c lc|c lc| |c|c v|c|c|c|c]; destruct ch as [| |addr tcp| |r|o|]; cbn [spawnHandler]; try done.
  - destruct (gateVerdict _ _ _) as [[v denied] m]. unfold move. destruct denied; [|destruct (cn_tcp c)]; agree; same_slots.
  - unfold move. destruct o; try done; agree; same_slots.
  - unfold move. destruct o; try done; agree; same_slots.
  - unfold move. agree. same_slots.
  - unfold move. agree. same_slots.
Qed.
Lemma tarpitConn_accounted s i t ch :
  threads s !! i = Some t → accounted s → accounted (tarpitConn cfg i t ch s).
Proof.
  intros Hi Hs. pose proof (acc_cap s Hs) as Hcap. pose proof (acc_tarpit_cap s Hs) as Htcap.
  pose proof (tarpit_held s i t Hi Hs) as Hth.
  destruct t as [lc|lc|c lc|c lc|c lc|c lc| |c|c v|c|c|c|c]; destruct ch as [| |addr tcp| |r|o|]; cbn [tarpitConn]; try done.
  - destruct (tarpit_slots cfg) as [kt|] eqn:Et; [|unfold move; agree; [same_slots|by rewrite Et]].
    destruct (0 <? Tarpit v); [|unfold move; agree; [same_slots|by rewrite Et]].
    destruct (_ <? kt)%nat eqn:El; [|unfold move; agree; [same_slots|by rewrite Et]].
    apply Nat.ltb_lt in El. unfold set_tarpit, move. cbn. agree; [same_slots|by rewrite Et].
  - unfold move. agree. same_slots.
  - unfold set_tarpit, move. cbn. cbn [held] in Hth. agree. same_slots.
  - unfold move. agree. same_slots.
  - unfold move. agree. same_slots.
Qed.
Lemma step_accounted s e : accounted s → accounted (dispatch_step cfg s e).
Proof.
  intros Hs. destruct e as [i ch]. unfold dispatch_step.
  destruct (threads s !! i) as [t|] eqn:Hi.
  - destruct ch, t; try (by apply acceptLoop_accounted); try (by apply spawnHandler_accounted);
      try (by apply tarpitConn_accounted); by destruct Hs; constructor.
  - destruct ch; try done. by destruct Hs; constructor.
Qed.
Lemma run_accounted evs s : accounted s → accounted (dispatch_run cfg evs s).
Proof. revert s. induction evs as [|e evs IH]; intros s Hs; [done|]. by apply IH, step_accounted. Qed.
Lemma Run_accounted listens s : Run cfg listens = Some s → accounted s.
Proof.
  unfold Run. case_decide; [done|]. destruct listens; [|done]. intros [= <-].
  assert (∀ w, (∀ lc, w (TAcquire lc) = 0%nat) → weigh w (TAcquire <$> dc_Listeners cfg) = 0%nat) as Hw.
  { intros w Hw. induction (dc_Listeners cfg) as [|lc ls IH]; cbn; [done|]. by rewrite Hw. }
  constructor; cbn [threads tokens tarpitTokens accepted out]; rewrite ?Hw; try done; [by destruct caps|lia..|].
  intros n. rewrite Hw by done. by rewrite decide_False by lia.
Qed.

(** C8 Whatever connections arrive, however gate, system and peers behave and in
    whichever order the goroutines take their steps: no more handlers run at once
    than configured; no more denied connections hold a place in the tarpit than its
    own budget, and none of them a handler slot, so that a loop gets its slot
    whenever fewer than the configured number of goroutines hold one; every
    connection accepted, by its number, has been closed once and is in no
    goroutine's hands, or has not been closed and is in the hands of exactly one;
    the starts reported of handlers and of tarpit stays exceed the ends reported by
    exactly the handlers and the stays that are between their two reports. *)
Theorem dispatcher_bounded (listens : bool) (s0 : dispatcher) (evs : list (nat * choice)) :
  Run cfg listens = Some s0 →
  let s := dispatch_run cfg evs s0 in
  (∀ k, handler_slots cfg = Some k → (weigh handling (threads s) <= k)%nat ∧
     (below (handler_slots cfg) (tokens s) = true ↔ (weigh in_slot (threads s) < k)%nat)) ∧
  (weigh held (threads s) <= default 0 (tarpit_slots cfg))%nat ∧
  (∀ n, (n < accepted s)%nat →
     (tally (closes n) (out s) = 1 ∧ weigh (owns n) (threads s) = 0)%nat ∨
     (tally (closes n) (out s) = 0 ∧ weigh (owns n) (threads s) = 1)%nat) ∧
  tally is_started (out s) = (tally is_ended (out s) + weigh counted (threads s))%nat ∧
  tally is_tarpit_start (out s) = (tally is_tarpit_end (out s) + weigh reported (threads s))%nat.
Proof.
  intros [H1 H2 H3 H4 H5 H6 H7]%Run_accounted%(run_accounted evs). cbv zeta.
  set (s := dispatch_run cfg evs s0) in *. split_and!; [|lia| |done|done].
  - intros k Hk. specialize (H2 k Hk). rewrite Hk in H1 |- *.
    assert (weigh handling (threads s) <= weigh in_slot (threads s))%nat by (apply weigh_le; by intros []; cbn; lia).
    split; [lia|]. cbn [below]. rewrite Nat.ltb_lt. lia.
  - intros n Hn. specialize (H7 n). rewrite decide_True in H7 by done. lia.
Qed.

(** ** Nobody is served against the gate's verdict *)
Definition let_through (s : dispatcher) (c : conn) : Prop :=
  ∃ r m, DVerdict c r m ∈ out s ∧ (gateVerdict cfg (RemoteIP (cn_addr c)) r).1.2 = false.
(** Threads on the way to a handler, with their connection. *)
Definition passed (t : thread) : option conn :=
  match t with TStart c _ | TFork c _ | TBegun c _ => Some c | _ => None end.
Record checked (s : dispatcher) : Prop := {
  ck_start : ∀ t c, t ∈ threads s → passed t = Some c → let_through s c;
  ck_started : ∀ c ip mode, DStarted c ip mode ∈ out s → let_through s c ∧ ip = RemoteIP (cn_addr c);
}.
Lemma elem_of_replace t i new l : t ∈ replace_thread i new l → t ∈ new ∨ t ∈ l.
Proof.
  unfold replace_thread. rewrite !elem_of_app. intros [Ht|[Ht|Ht]]; [right|by left|right].
  - rewrite <- (take_drop i l). apply elem_of_app. by left.
  - rewrite <- (take_drop (S i) l). apply elem_of_app. by right.
Qed.
Lemma let_through_more s i new evs tk tp d acc c :
  let_through s c → let_through (mkDispatcher (replace_thread i new (threads s)) tk tp d acc (out s ++ evs)) c.
Proof. intros (r & m & Hi & Hr). exists r, m. split; [|done]. apply elem_of_app. by left. Qed.
Lemma move_checked s i new evs tk tp d acc :
  checked s →
  let s' := mkDispatcher (replace_thread i new (threads s)) tk tp d acc (out s ++ evs) in
  Forall (λ t, ∀ c, passed t = Some c → let_through s' c) new →
  Forall (λ e, ∀ c ip mode, e = DStarted c ip mode → let_through s' c ∧ ip = RemoteIP (cn_addr c)) evs → checked s'.
Proof.
  intros [Hs Ho] s' Hn He. rewrite Forall_forall in Hn; rewrite Forall_forall in He. split.
  - intros t c [Ht|Ht]%elem_of_replace Hp; [by eapply Hn|by eapply let_through_more, Hs].
  - intros c ip mode [Hi|Hi]%elem_of_app; [|by eapply He]. destruct (Ho _ _ _ Hi). split; [by apply let_through_more|done].
Qed.
(** A thread that takes its connection further was let through already. *)
Ltac onward s Hs Hi := unfold set_tokens, set_tarpit, move; cbn [threads tokens tarpitTokens ctx_done accepted out];
  apply move_checked; [assumption| |]; repeat apply Forall_cons_2; try apply Forall_nil_2;
  try (intros; discriminate);
  try (intros ?c [= <-]; apply let_through_more; exact (ck_start s Hs _ _ (list_elem_of_lookup_2 _ _ _ Hi) eq_refl)).
Lemma acceptLoop_checked s i t ch : threads s !! i = Some t → checked s → checked (acceptLoop cfg i t ch s).
Proof.
  intros Hi Hs. destruct t, ch; cbn [acceptLoop]; try done.
  - destruct (below _ _); [|done]. onward s Hs Hi.
  - destruct (_ && _); [|done]. onward s Hs Hi.
  - onward s Hs Hi.
  - destruct (ctx_done s); onward s Hs Hi.
  - onward s Hs Hi.
Qed.
Lemma spawnHandler_checked s i t ch : threads s !! i = Some t → checked s → checked (spawnHandler cfg i t ch s).
Proof.
  intros Hi Hs. destruct t as [| |c lc|c lc|c lc|c lc| | | | | | |], ch as [| | | |r|o|]; cbn [spawnHandler]; try done.
  - destruct (gateVerdict _ _ r) as [[v denied] m] eqn:Eg.
    destruct denied; [onward s Hs Hi|]. destruct (cn_tcp c); onward s Hs Hi.
    intros c' [= <-]. exists r, m. split; [apply elem_of_app; right; by left|]. by rewrite Eg.
  - destruct o; try done; onward s Hs Hi.
  - destruct o; try done; onward s Hs Hi.
  - onward s Hs Hi. intros c' ip mode [= <- <- <-]. split; [|done]. apply let_through_more.
    exact (ck_start s Hs _ _ (list_elem_of_lookup_2 _ _ _ Hi) eq_refl).
  - onward s Hs Hi.
Qed.
Lemma tarpitConn_checked s i t ch : threads s !! i = Some t → checked s → checked (tarpitConn cfg i t ch s).
Proof.
  intros Hi Hs. destruct t, ch; cbn [tarpitConn]; try done; [|onward s Hs Hi..].
  destruct (tarpit_slots cfg); [destruct (0 <? _); [destruct (_ <? _)%nat|]|]; onward s Hs Hi.
Qed.
Lemma step_checked s e : checked s → checked (dispatch_step cfg s e).
Proof.
  intros Hs. destruct e as [i ch]. unfold dispatch_step. destruct (threads s !! i) as [t|] eqn:Hi.
  - destruct ch, t; try (by apply acceptLoop_checked); try (by apply spawnHandler_checked);
      try (by apply tarpitConn_checked); by destruct Hs; constructor.
  - destruct ch; try done. by destruct Hs; constructor.
Qed.

(** A handler is started only for a connection the gate was asked about and let
    through, under exactly the address the gate was asked for: a banned peer never
    reaches a handler, and one whose check failed does so only where the gate is
    not strict. *)
Lemma denied_never_served (listens : bool) (s0 : dispatcher) (evs : list (nat * choice)) (c : conn)
    (ip mode : string) :
  Run cfg listens = Some s0 → DStarted c ip mode ∈ out (dispatch_run cfg evs s0) →
  ip = RemoteIP (cn_addr c) ∧
  ∃ r m, DVerdict c r m ∈ out (dispatch_run cfg evs s0) ∧
    (dc_Gate cfg = false ∨ ip = "" ∨
     match r with Ok v => Banned v = false | Err _ => dc_StrictGate cfg = false end).
Proof.
  intros E Hi. assert (checked (dispatch_run cfg evs s0)) as [_ Ho].
  { assert (checked s0) as H0.
    { revert E. unfold Run. case_decide; [done|]. destruct listens; [|done]. intros [= <-]. split; cbn.
      - by intros t c' (lc & -> & _)%list_elem_of_fmap.
      - by intros ? ? ? ?%elem_of_nil. }
    clear E Hi. revert s0 H0. induction evs as [|e evs IH]; intros s0 H0; [done|]. by apply IH, step_checked. }
  destruct (Ho _ _ _ Hi) as [(r & m & Hv & Hr) ->]. split; [done|]. exists r, m. split; [done|].
  revert Hr. unfold gateVerdict. destruct (dc_Gate cfg); [|by left]. cbn [negb orb].
  case_bool_decide; [by right; left|]. intros Hr. do 2 right.
  destruct r as [v|]; [by destruct (Banned v)|by destruct (dc_StrictGate cfg)].
Qed.
End Facts.

(** ** The listener of a handler ([oneconn.go]) *)
Record oneConnListener (A : Type) := mkOneConn { oc_conn : option A; oc_connDone : bool; oc_stopped : bool }.
Arguments mkOneConn {A}. Arguments oc_conn {A}. Arguments oc_connDone {A}. Arguments oc_stopped {A}.
Section OneConn.
Context {A : Type}.
Definition NewOneConnListener (c : A) : oneConnListener A := mkOneConn (Some c) false false.
Inductive accept_result := Yields (c : A) | ErrClosed | Blocks.
Definition one_Accept (l : oneConnListener A) : accept_result * oneConnListener A :=
  match oc_conn l with
  | Some c => (Yields c, mkOneConn None (oc_connDone l) (oc_stopped l))
  | None => (if oc_connDone l || oc_stopped l then ErrClosed else Blocks, l)
  end.
Definition one_Close (l : oneConnListener A) : oneConnListener A := mkOneConn (oc_conn l) (oc_connDone l) true.
(** [notifyConn.Close] *)
Definition conn_Close (l : oneConnListener A) : oneConnListener A := mkOneConn (oc_conn l) true (oc_stopped l).

Inductive one_op := OAccept | OClose | OConnClose.
Definition one_step (x : list accept_result * oneConnListener A) (o : one_op) :=
  match o with
  | OAccept => let '(r, l) := one_Accept x.2 in (x.1 ++ [r], l)
  | OClose => (x.1, one_Close x.2)
  | OConnClose => (x.1, conn_Close x.2)
  end.
(** In whichever order the calls come, the first Accept yields the connection and
    no later one does. *)
Lemma yields_once c ops :
  let rs := (foldl one_step ([], NewOneConnListener c) ops).1 in
  match rs with [] => True | r :: rs => r = Yields c ∧ Forall (λ r, ∀ d, r ≠ Yields d) rs end.
Proof.
  set (P := λ x : list accept_result * oneConnListener A,
    (x.1 = [] ∧ oc_conn x.2 = Some c) ∨
    (∃ rs, x.1 = Yields c :: rs ∧ oc_conn x.2 = None ∧ Forall (λ r, ∀ d, r ≠ Yields d) rs)).
  assert (∀ ops x, P x → P (foldl one_step x ops)) as HP.
  { clear ops. induction ops as [|o ops IH]; intros [rs l] HP; [done|]. apply IH. clear IH. unfold P, one_step in *. cbn [fst snd] in *.
    destruct o; cbn [one_Close conn_Close oc_conn fst snd]; [|done|done]. unfold one_Accept.
    destruct HP as [[-> Hl]|(rs' & -> & Hl & Hrs)]; rewrite Hl; cbn [fst snd oc_conn].
    - right. by exists [].
    - right. eexists. split; [done|]. split; [done|]. apply Forall_app. split; [done|]. constructor; [|done].
      destruct (_ || _); done. }
  cbv zeta. destruct (HP ops ([], NewOneConnListener c)) as [[-> _]|(rs & -> & _ & Hrs)]; [by left|done|done].
Qed.
End OneConn.

(** ** Runs *)
Section DispatchRuns.
Definition port : Listener := mkListener ":143" "imap" true.
Definition small : dispatchConfig := mkDispatch "/usr/bin/imapd" [port] 2 0 true false 0.
Definition cold : dispatcher := default (mkDispatcher [] 0 0 false 0 []) (Run small true).
Definition banned : Verdict := mkVerdict true 1000 "auth" false.
(** A peer is served, a second one is denied and held. *)
Definition busy : list (nat * choice) :=
  [(0%nat, Go); (0%nat, Accepts (Some "192.0.2.1:5000") true); (1%nat, Answers (Ok no_verdict));
   (1%nat, Starts Duplicated); (1%nat, Starts Started); (1%nat, Go);
   (0%nat, Go); (0%nat, Accepts (Some "198.51.100.7:80") true); (1%nat, Answers (Ok banned));
   (1%nat, Go); (1%nat, Go); (1%nat, Go)].
Lemma dispatcher_bounded_witness :
  let s := dispatch_run small busy cold in
  tally is_started (out s) = 1%nat ∧ tally is_tarpit_start (out s) = 1%nat ∧ tokens s = 1%nat ∧ accepted s = 2%nat ∧
  (weigh handling (threads s) <= 2)%nat ∧ (weigh held (threads s) <= 256)%nat ∧
  tally is_tarpit_start (out s) = (tally is_tarpit_end (out s) + weigh reported (threads s))%nat.
Proof.
  assert (Run small true = Some cold) as E by reflexivity.
  pose proof (dispatcher_bounded small true cold busy E) as Hb. cbv zeta in Hb |- *.
  destruct Hb as (Hh & Ht & _ & _ & Hg). split; [vm_compute; reflexivity|]. split; [vm_compute; reflexivity|].
  split; [vm_compute; reflexivity|]. split; [vm_compute; reflexivity|]. split; [exact (proj1 (Hh 2%nat eq_refl))|].
  split; [exact Ht|exact Hg].
Defined.
Definition first_conn : conn := mkConn 0 (Some "192.0.2.1:5000") true.
Lemma denied_never_served_example :
  DStarted first_conn "192.0.2.1" "imap" ∈ out (dispatch_run small busy cold) ∧
  "192.0.2.1" = RemoteIP (cn_addr first_conn).
Proof.
  assert (DStarted first_conn "192.0.2.1" "imap" ∈ out (dispatch_run small busy cold)) as Hi.
  { vm_compute. do 3 right. left. }
  split; [exact Hi|].
  exact (proj1 (denied_never_served small true cold busy first_conn "192.0.2.1" "imap" eq_refl Hi)).
Defined.

(** *** One failed accept ends the listener

    Any error of Accept ends the loop for good, a transient one as well (a
    connection aborted in the queue, or no descriptor left under attack): the
    process lives on and never accepts on that port again. *)
Lemma accept_error_ends_listener evs :
  let s := dispatch_run small [(0%nat, Go); (0%nat, AcceptFails); (0%nat, Go)] cold in
  ctx_done s = false ∧ threads s = [] ∧ accepted (dispatch_run small evs s) = 0%nat.
Proof.
  split; [done|]. split; [done|].
  assert (∀ t, threads t = [] → threads (dispatch_run small evs t) = [] ∧ accepted (dispatch_run small evs t) = accepted t) as Hx.
  { induction evs as [|[i ch] evs IH]; intros t Ht; [done|].
    assert (threads (dispatch_step small t (i, ch)) = [] ∧ accepted (dispatch_step small t (i, ch)) = accepted t) as [Ht' Ha].
    { unfold dispatch_step. rewrite Ht. destruct ch; done. }
    destruct (IH _ Ht') as [Hr Hacc]. split; [done|]. by etransitivity. }
  by apply Hx.
Qed.
End DispatchRuns.
