(* ===== verification/WebAdmin.v ===== *)
(** * Access to the web administration

    [src/internal/webadmin]: the session store ([session/session.go]), roles
    ([rbac/rbac.go]), the middleware with its login limiter
    ([middleware/middleware.go], [middleware/ratelimit.go]), login and logout
    ([handlers/auth.go]), the audit log ([audit/audit.go]), the table of routes
    and the handlers that change roles ([server/server.go]). The handlers that
    administer domains, users and settings call the operations of [Admin] and
    [Domain]; here they are a parameter that is told who calls them. A request is
    handled at one instant; its path is cleaned, split and decoded. *)
From S2P Require Import Prelude GoStrings FilePath UidList Disk Queue OidcServer.
From Stdlib Require Import ZArith Lia.
Open Scope string_scope.
Open Scope list_scope.
Open Scope Z_scope.

(** ** Requests and answers *)
Record request := mkRequest {
  rq_method : string;
  rq_path : list string;                   (** cleaned, split and decoded *)
  rq_vars : list (string * string);        (** the variables of the matched pattern *)
  rq_cookie : option string;               (** the cookie webadmin_session *)
  rq_form : string → string;               (** [FormValue] *)
  rq_csrf_header : string;                 (** X-CSRF-Token *)
  rq_remote : string; rq_body : string; rq_form_ok : bool;
}.
Inductive wresponse :=
| Redirect (location : string) | HttpError (status : Z) | LoginPage (username message : string)
| Json (status : Z) (what : string) | NotFound_ | AppResponse (text : string).
Record wcookie := mkCookie { wc_value : string; wc_secure : bool; wc_max_age : Z }.

(** ** Sessions *)
Record Session := mkSession {
  ws_ID : string; ws_Username : string; ws_CSRFToken : string; ws_CreatedAt : Z; ws_LastSeen : Z;
}.
Record Store := mkStore { st_sessions : gmap string Session; st_timeout : Z; st_secure : bool }.
Definition NewStore (timeout : Z) (secure : bool) : Store := mkStore ∅ timeout secure.
Definition IsExpired (timeout now : Z) (s : Session) : bool := timeout <? now - ws_LastSeen s.
Definition set_sessions (f : gmap string Session → gmap string Session) (st : Store) : Store :=
  mkStore (f (st_sessions st)) (st_timeout st) (st_secure st).

(** Each call of [rand.Read] takes the next element. *)
Notation entropy := (list (option string)).
Definition generateToken (r : entropy) : option string * entropy :=
  match r with
  | Some b :: r => (Some (hex_EncodeToString b), r)
  | None :: r => (None, r)
  | [] => (None, [])
  end.
Definition Create (now : Z) (username : string) (st : Store) (r : entropy)
    : option (Session * wcookie) * Store * entropy :=
  match generateToken r with
  | (None, r) => (None, st, r)
  | (Some id, r) =>
      match generateToken r with
      | (None, r) => (None, st, r)
      | (Some csrf, r) =>
          let s := mkSession id username csrf now now in
          (Some (s, mkCookie id (st_secure st) (st_timeout st / 10 ^ 9)), set_sessions (insert id s) st, r)
      end
  end.
Definition Get (now : Z) (rq : request) (st : Store) : option Session * Store :=
  match rq_cookie rq with
  | None => (None, st)
  | Some id =>
      match st_sessions st !! id with
      | None => (None, st)
      | Some s =>
          if IsExpired (st_timeout st) now s then (None, set_sessions (delete id) st)
          else
            let s := mkSession (ws_ID s) (ws_Username s) (ws_CSRFToken s) (ws_CreatedAt s) now in
            (Some s, set_sessions (insert id s) st)
      end
  end.
Definition Destroy (rq : request) (st : Store) : option wcookie * Store :=
  match rq_cookie rq with
  | None => (None, st)
  | Some id => (Some (mkCookie "" (st_secure st) (-1)), set_sessions (delete id) st)
  end.
Definition ValidateCSRF (rq : request) (s : option Session) : bool :=
  let token := if decide (rq_form rq "csrf_token" = "") then rq_csrf_header rq else rq_form rq "csrf_token" in
  match s with
  | None => false
  | Some s => negb (bool_decide (token = "")) && bool_decide (token = ws_CSRFToken s)
  end.
(** One tick of [Store.cleanup]. *)
Definition sessions_cleanup (now : Z) (st : Store) : Store :=
  set_sessions (filter (λ kv, IsExpired (st_timeout st) now kv.2 = false)) st.

(** ** Roles *)
Definition RoleSuperAdmin : string := "super_admin".
Definition RoleDomainAdmin : string := "domain_admin".
Record AdminEntry := mkAdmin { ae_Role : string; ae_Domains : list string }.
Definition RoleStore : Type := gmap string AdminEntry.
Class RolesToml := { roles_marshal : RoleStore → option string; roles_unmarshal : string → option RoleStore }.
Inductive rolesErr := RolesMissing | RolesRead | RolesParse | RolesMarshal | RolesTmp | RolesWrite | RolesClose | RolesRename.
Section Roles.
Context `{RolesToml}.
Definition LoadRoles (path : string) : io rolesErr RoleStore :=
  if decide (path = "") then ret ∅
  else (let! data := read_file RolesRead path in
        match data with
        | None => fail RolesMissing
        | Some text => match roles_unmarshal text with Some rs => ret rs | None => fail RolesParse end
        end)%io.
Definition IsSuperAdmin (rs : RoleStore) (username : string) : bool :=
  match rs !! username with None => true | Some e => bool_decide (ae_Role e = RoleSuperAdmin) end.
Definition CanAccessDomain (rs : RoleStore) (username domain : string) : bool :=
  match rs !! username with
  | None => false
  | Some e => bool_decide (ae_Role e = RoleSuperAdmin) || bool_decide (domain ∈ ae_Domains e)
  end.
Definition FilterDomains (rs : RoleStore) (username : string) (domains : list string) : list string :=
  if IsSuperAdmin rs username then domains else filter (λ d, CanAccessDomain rs username d = true) domains.
(** [updateRolesFile]: the published roles are those read back from the file. *)
Definition updateRolesFile (path tmp : string) (mutate : RoleStore → RoleStore) : io rolesErr RoleStore := λ w,
  let '(r, w) := LoadRoles path w in
  let write store :=
    match roles_marshal (mutate store) with
    | None => (Err RolesMarshal, w)
    | Some data =>
        match replace_file RolesTmp RolesWrite RolesClose RolesClose RolesRename false tmp path data w with
        | (Err e, w) => (Err e, w)
        | (Ok _, w) => LoadRoles path w
        end
    end in
  match r with
  | Ok store => write store
  | Err RolesMissing => write ∅
  | Err e => (Err e, w)
  end.
End Roles.

(** ** The login limiter *)
Record RateLimiter := mkLimiter { rl_attempts : gmap string (list Z); rl_limit : nat; rl_window : Z }.
Definition NewRateLimiter (limit : nat) (window : Z) : RateLimiter := mkLimiter ∅ limit window.
Definition valid_attempts (window now : Z) (l : list Z) : list Z := filter (λ t, now - window < t) l.
Definition Allow (now : Z) (ip : string) (rl : RateLimiter) : bool * RateLimiter :=
  let valid := valid_attempts (rl_window rl) now (default [] (rl_attempts rl !! ip)) in
  let put l := mkLimiter (<[ip := l]> (rl_attempts rl)) (rl_limit rl) (rl_window rl) in
  if (rl_limit rl <=? length valid)%nat then (false, put valid) else (true, put (valid ++ [now])).
Definition limiter_cleanup (now : Z) (rl : RateLimiter) : RateLimiter :=
  mkLimiter (omap (λ l, match valid_attempts (rl_window rl) now l with [] => None | v => Some v end) (rl_attempts rl))
    (rl_limit rl) (rl_window rl).
Definition clientIP (rq : request) : string := default (rq_remote rq) (SplitHostPort (rq_remote rq)).

(** ** The table of routes *)
Inductive guard :=
| requireAuth | requireCSRF | requireSuperAdmin | requireDomainAccessByName | requireDomainAccessByDomain
| loginRateLimit.
Global Instance guard_eq_dec : EqDecision guard.
Proof. solve_decision. Defined.
Record route := mkRoute { rt_pattern : string; rt_handler : string; rt_guards : list guard }.
(** Public routes, metrics, logout. *)
Definition routes_login : list route := [
  mkRoute "GET /health" "handleHealth" [];
  mkRoute "GET /login" "HandleLoginPage" [];
  mkRoute "POST /login" "HandleLogin" [loginRateLimit];
  mkRoute "GET /metrics" "metrics" [requireAuth];
  mkRoute "POST /logout" "HandleLogout" [requireAuth; requireCSRF]].
(** Web UI pages, DNS checks and HTMX partials. *)
Definition routes_pages : list route := [
  mkRoute "GET /{$}" "HandleDashboard" [requireAuth];
  mkRoute "GET /domains/{name}" "HandleDomainDetail" [requireAuth; requireDomainAccessByName];
  mkRoute "GET /domains/{name}/dns" "HandleDNSWizard" [requireAuth; requireDomainAccessByName];
  mkRoute "GET /api/domains/{name}/dns/check" "HandleCheckDNSRecord" [requireAuth; requireDomainAccessByName];
  mkRoute "GET /api/domains/{name}/dns/status" "HandleDNSStatus" [requireAuth; requireDomainAccessByName];
  mkRoute "GET /ui/domains/new" "HandleNewDomainForm" [requireAuth; requireSuperAdmin];
  mkRoute "GET /ui/domains/{name}/confirm-delete" "HandleConfirmDeleteDomain" [requireAuth; requireSuperAdmin];
  mkRoute "GET /ui/domains/{name}/users/new" "HandleNewUserForm" [requireAuth; requireDomainAccessByName];
  mkRoute "GET /ui/domains/{name}/users/{username}/confirm-delete" "HandleConfirmDeleteUser" [requireAuth; requireDomainAccessByName];
  mkRoute "GET /ui/domains/{name}/users/{username}/reset-password" "HandleResetPasswordForm" [requireAuth; requireDomainAccessByName];
  mkRoute "GET /ui/domains/{name}/users/{username}/generate-keys" "HandleGenerateKeysForm" [requireAuth; requireDomainAccessByName];
  mkRoute "GET /ui/domains/{name}/users/{username}/stats" "HandleUserStats" [requireAuth; requireDomainAccessByName];
  mkRoute "GET /ui/domains/{name}/generate-keys" "HandleGenerateDomainKeysForm" [requireAuth; requireDomainAccessByName]].
(** Dashboard, domains and their keys. *)
Definition routes_domains : list route := [
  mkRoute "GET /api/dashboard" "HandleGetDashboard" [requireAuth];
  mkRoute "GET /api/mailstats" "HandleGetMailStats" [requireAuth];
  mkRoute "GET /api/domains" "HandleListDomains" [requireAuth];
  mkRoute "GET /api/domains/{name}" "HandleGetDomain" [requireAuth; requireDomainAccessByName];
  mkRoute "POST /api/domains" "HandleCreateDomain" [requireAuth; requireCSRF; requireSuperAdmin];
  mkRoute "DELETE /api/domains/{name}" "HandleDeleteDomain" [requireAuth; requireCSRF; requireSuperAdmin];
  mkRoute "PUT /api/domains/{name}/config" "HandleUpdateDomainConfig" [requireAuth; requireCSRF; requireDomainAccessByName];
  mkRoute "POST /api/domains/{name}/fix-perms" "HandleFixPerms" [requireAuth; requireCSRF; requireDomainAccessByName];
  mkRoute "GET /api/domains/{name}/keys" "HandleGetDomainKeys" [requireAuth; requireDomainAccessByName];
  mkRoute "POST /api/domains/{name}/keys" "HandleCreateDomainKeys" [requireAuth; requireCSRF; requireDomainAccessByName];
  mkRoute "DELETE /api/domains/{name}/keys" "HandleDeleteDomainKeys" [requireAuth; requireCSRF; requireDomainAccessByName]].
(** Users, their keys and statistics. *)
Definition routes_users : list route := [
  mkRoute "GET /api/domains/{domain}/users" "HandleListUsers" [requireAuth; requireDomainAccessByDomain];
  mkRoute "POST /api/domains/{domain}/users" "HandleCreateUser" [requireAuth; requireCSRF; requireDomainAccessByDomain];
  mkRoute "DELETE /api/domains/{domain}/users/{username}" "HandleDeleteUser" [requireAuth; requireCSRF; requireDomainAccessByDomain];
  mkRoute "PUT /api/domains/{domain}/users/{username}/password" "HandleResetPassword" [requireAuth; requireCSRF; requireDomainAccessByDomain];
  mkRoute "GET /api/domains/{domain}/users/{username}/keys" "HandleGetKeys" [requireAuth; requireDomainAccessByDomain];
  mkRoute "POST /api/domains/{domain}/users/{username}/keys" "HandleCreateKeys" [requireAuth; requireCSRF; requireDomainAccessByDomain];
  mkRoute "DELETE /api/domains/{domain}/users/{username}/keys" "HandleDeleteKeys" [requireAuth; requireCSRF; requireDomainAccessByDomain];
  mkRoute "GET /api/domains/{domain}/users/{username}/stats" "HandleGetStats" [requireAuth; requireDomainAccessByDomain]].
(** Spam filter and server settings. *)
Definition routes_settings : list route := [
  mkRoute "GET /api/rspamd" "HandleGetRspamd" [requireAuth];
  mkRoute "POST /api/rspamd" "HandleSetRspamd" [requireAuth; requireCSRF; requireSuperAdmin];
  mkRoute "GET /api/settings" "HandleGetSettings" [requireAuth];
  mkRoute "POST /api/settings/server" "HandleSetServerSettings" [requireAuth; requireCSRF; requireSuperAdmin];
  mkRoute "POST /api/settings/smtpd" "HandleSetSmtpdSettings" [requireAuth; requireCSRF; requireSuperAdmin];
  mkRoute "POST /api/settings/pop3d" "HandleSetPop3dSettings" [requireAuth; requireCSRF; requireSuperAdmin];
  mkRoute "POST /api/settings/spamcheck" "HandleSetSpamcheckSettings" [requireAuth; requireCSRF; requireSuperAdmin]].
(** Outbound routing, forwards, migration, settings page. *)
Definition routes_outbound : list route := [
  mkRoute "GET /api/domains/{name}/outbound" "HandleGetDomainOutbound" [requireAuth; requireDomainAccessByName];
  mkRoute "PUT /api/domains/{name}/outbound" "HandleSetDomainOutbound" [requireAuth; requireCSRF; requireDomainAccessByName];
  mkRoute "GET /api/outbound/default" "HandleGetDefaultOutbound" [requireAuth; requireSuperAdmin];
  mkRoute "PUT /api/outbound/default" "HandleSetDefaultOutbound" [requireAuth; requireCSRF; requireSuperAdmin];
  mkRoute "GET /api/domains/{name}/forwards" "HandleListForwards" [requireAuth; requireDomainAccessByName];
  mkRoute "POST /api/domains/{name}/forwards" "HandleSetForward" [requireAuth; requireCSRF; requireDomainAccessByName];
  mkRoute "DELETE /api/domains/{name}/forwards/{localpart}" "HandleDeleteForward" [requireAuth; requireCSRF; requireDomainAccessByName];
  mkRoute "POST /api/migrate/uids" "HandleMigrateUIDs" [requireAuth; requireCSRF; requireSuperAdmin];
  mkRoute "GET /settings" "HandleSettings" [requireAuth]].
(** Audit log and roles. *)
Definition routes_roles : list route := [
  mkRoute "GET /api/audit" "handleGetAuditLog" [requireAuth; requireSuperAdmin];
  mkRoute "GET /api/roles" "handleGetRoles" [requireAuth; requireSuperAdmin];
  mkRoute "POST /api/roles/{username}" "handleSetRole" [requireAuth; requireCSRF; requireSuperAdmin];
  mkRoute "DELETE /api/roles/{username}" "handleDeleteRole" [requireAuth; requireCSRF; requireSuperAdmin]].
Definition registerRoutes : list route :=
  routes_login ++ routes_pages ++ routes_domains ++ routes_users ++ routes_settings ++ routes_outbound
  ++ routes_roles.

(** Patterns of [http.ServeMux], of the forms in the table: a method, a space and
    segments that are literals or variables; [{$}] ends the root. *)
Inductive segment := Lit (s : string) | Var (name : string).
Global Instance segment_eq_dec : EqDecision segment.
Proof. solve_decision. Defined.
Definition parse_segment (s : string) : segment :=
  if HasPrefix s "{" then Var (TrimSuffix (TrimPrefix s "{") "}") else Lit s.
Definition parse_pattern (p : string) : string * list segment :=
  match cut SP p with
  | None => ("", [])
  | Some (m, path) =>
      (m, if decide (path = "/{$}") then [] else map parse_segment (Split slash (TrimPrefix path "/")))
  end.
(** A variable takes one segment that is not empty. *)
Fixpoint match_path (pat : list segment) (path : list string) : option (list (string * string)) :=
  match pat, path with
  | [], [] => Some []
  | Lit l :: pat, s :: path => if decide (l = s) then match_path pat path else None
  | Var n :: pat, s :: path => if decide (s = "") then None else cons (n, s) <$> match_path pat path
  | _, _ => None
  end.
Definition method_matches (m method : string) : bool :=
  bool_decide (m = method) || bool_decide (m = "GET" ∧ method = "HEAD").
Definition route_matches (rt : route) (rq : request) : option (list (string * string)) :=
  let '(m, pat) := parse_pattern (rt_pattern rt) in
  if method_matches m (rq_method rq) then match_path pat (rq_path rq) else None.
(** The first match; the patterns of the table exclude each other. *)
Fixpoint find_route (l : list route) (rq : request) : option (route * list (string * string)) :=
  match l with
  | [] => None
  | rt :: l => match route_matches rt rq with Some vars => Some (rt, vars) | None => find_route l rq end
  end.
Definition path_known (l : list route) (rq : request) : bool :=
  existsb (λ rt, bool_decide (is_Some (match_path (parse_pattern (rt_pattern rt)).2 (rq_path rq)))) l.
Definition PathValue (name : string) (rq : request) : string :=
  match list_find (λ kv, kv.1 = name) (rq_vars rq) with Some (_, kv) => kv.2 | None => "" end.
Definition with_vars (vars : list (string * string)) (rq : request) : request :=
  mkRequest (rq_method rq) (rq_path rq) vars (rq_cookie rq) (rq_form rq) (rq_csrf_header rq)
    (rq_remote rq) (rq_body rq) (rq_form_ok rq).

(** *** What the table must say *)
(** Handlers that need no session, and those only a super admin may reach. *)
Definition public_handlers : list string := ["handleHealth"; "HandleLoginPage"; "HandleLogin"].
Definition super_admin_only : list string :=
  ["HandleCreateDomain"; "HandleDeleteDomain"; "HandleNewDomainForm"; "HandleConfirmDeleteDomain"; "HandleSetRspamd";
   "HandleSetServerSettings"; "HandleSetSmtpdSettings"; "HandleSetPop3dSettings"; "HandleSetSpamcheckSettings";
   "HandleGetDefaultOutbound"; "HandleSetDefaultOutbound"; "HandleMigrateUIDs"; "handleGetAuditLog";
   "handleGetRoles"; "handleSetRole"; "handleDeleteRole"].
(** The domain that a path names. *)
Definition addressed_domain (path : list string) : option string :=
  match path with
  | s0 :: path =>
      if decide (s0 = "domains") then head path
      else if decide (s0 = "api" ∨ s0 = "ui")
      then match path with s1 :: path => if decide (s1 = "domains") then head path else None | [] => None end
      else None
  | [] => None
  end.
Definition addressed_segment (pat : list segment) : option segment :=
  match pat with
  | Lit s0 :: pat =>
      if decide (s0 = "domains") then head pat
      else if decide (s0 = "api" ∨ s0 = "ui")
      then match pat with Lit s1 :: pat => if decide (s1 = "domains") then head pat else None | _ => None end
      else None
  | _ => None
  end.
Definition plain_head (pat : list segment) : bool :=
  match pat with
  | Var _ :: _ => false
  | Lit s0 :: Var _ :: _ => negb (bool_decide (s0 = "api" ∨ s0 = "ui"))
  | _ => true
  end.
Definition domain_guarded (sg : option segment) (gs : list guard) : bool :=
  match sg with
  | None => true
  | Some (Lit _) => bool_decide (requireSuperAdmin ∈ gs)
  | Some (Var n) =>
      bool_decide (requireSuperAdmin ∈ gs)
      || bool_decide (n = "name" ∧ requireDomainAccessByName ∈ gs)
      || bool_decide (n = "domain" ∧ requireDomainAccessByDomain ∈ gs)
  end.
Definition route_ok (rt : route) : bool :=
  let '(m, pat) := parse_pattern (rt_pattern rt) in
  let gs := rt_guards rt in
  bool_decide (rt_handler rt ∈ public_handlers)
  || plain_head pat && bool_decide (requireAuth ∈ gs)
     && (bool_decide (m = "GET") || bool_decide (m ∈ ["POST"; "PUT"; "DELETE"]) && bool_decide (requireCSRF ∈ gs))
     && domain_guarded (addressed_segment pat) gs
     && (bool_decide (rt_handler rt ∉ super_admin_only) || bool_decide (requireSuperAdmin ∈ gs)).
Lemma table_ok : forallb route_ok registerRoutes = true.
Proof. vm_compute. reflexivity. Qed.

(** Two routes that a request could both match. *)
Fixpoint may_overlap (p q : list segment) : bool :=
  match p, q with
  | [], [] => true
  | Lit a :: p, Lit b :: q => bool_decide (a = b) && may_overlap p q
  | _ :: p, _ :: q => may_overlap p q
  | _, _ => false
  end.
Definition routes_clash (a b : route) : bool :=
  let '(m, p) := parse_pattern (rt_pattern a) in
  let '(n, q) := parse_pattern (rt_pattern b) in
  bool_decide (m = n) && may_overlap p q.
Fixpoint pairwise_apart (l : list route) : bool :=
  match l with [] => true | a :: l => forallb (λ b, negb (routes_clash a b)) l && pairwise_apart l end.
(** The registration order does not matter, and [ServeMux] does not panic. *)
Lemma routes_apart : pairwise_apart registerRoutes = true.
Proof. vm_compute. reflexivity. Qed.

Lemma find_route_Some l rq rt vars : find_route l rq = Some (rt, vars) → rt ∈ l ∧ route_matches rt rq = Some vars.
Proof.
  induction l as [|a l IH]; [done|]. cbn. destruct (route_matches a rq) eqn:E.
  - intros. simplify_eq. split; [left|done].
  - intros [? ?]%IH. split; [by right|done].
Qed.
(** The domain in the path is the one the guard is asked about. *)
Lemma addressed_match pat path vars d :
  plain_head pat = true → match_path pat path = Some vars → addressed_domain path = Some d →
  addressed_segment pat = Some (Lit d) ∨ ∃ n vars', addressed_segment pat = Some (Var n) ∧ vars = (n, d) :: vars' ∧ d ≠ "".
Proof.
  assert (Hd : ∀ pat path vars, match_path pat path = Some vars → head path = Some d →
    head pat = Some (Lit d) ∨ ∃ n vars', head pat = Some (Var n) ∧ vars = (n, d) :: vars' ∧ d ≠ "").
  { intros [|[l|n] p] [|s q] v Hm Hh; cbn in *; try case_decide; simplify_eq; auto.
    apply fmap_Some in Hm as (v' & _ & ->). right. eauto. }
  intros Hp Hm Ha. destruct pat as [|[s0|n] pat], path as [|t0 path]; try done.
  cbn in Hm, Ha |- *. destruct (decide (s0 = t0)) as [->|]; [|done].
  destruct (decide (t0 = "domains")); [by apply (Hd pat path)|].
  destruct (decide (t0 = "api" ∨ t0 = "ui")) as [Ht|]; [|done].
  destruct pat as [|[s1|n1] pat], path as [|t1 path]; try done.
  - cbn in Hm. destruct (decide (s1 = t1)) as [->|]; [|done]. destruct (decide (t1 = "domains")); [|done].
    by apply (Hd pat path).
  - cbn in Hp. by rewrite bool_decide_true in Hp.
Qed.

(** ** The server *)
(** What happened: a login that the agent accepted, a handler that ran, with the
    name the audit log gets, an entry of that log. *)
Inductive wevent :=
| WLogin (user password id csrf : string) | WLogout (id : string) | WCookie (c : wcookie)
| WRan (handler admin : string) (at_ : Z) (rq : request) | WAudit (admin operation target result detail : string).
Record server (S : Type) := mkServer {
  sv_sessions : Store; sv_roles : RoleStore; sv_limiter : RateLimiter; sv_disk : folder;
  sv_app : S; sv_rand : entropy; sv_trace : list wevent;
}.
Arguments mkServer {S}. Arguments sv_sessions {S}. Arguments sv_roles {S}. Arguments sv_limiter {S}.
Arguments sv_disk {S}. Arguments sv_app {S}. Arguments sv_rand {S}. Arguments sv_trace {S}.

Section Server.
Context {S : Type} `{RolesToml}.
(** The authentication agent, the other handlers by name, the body of a request
    to set a role ([encoding/json]), the paths of the roles file. *)
Context (authenticate : string → string → bool) (app : string → string → option Session → request → S → wresponse * S).
Context (role_of_body : string → option (string * list string)) (rolesFilePath rolesTmp : string).
Notation state := (server S).
Notation handler := (Z → string → request → state → wresponse * state).
Implicit Types s : state.

Definition set_store (st : Store) s : state :=
  mkServer st (sv_roles s) (sv_limiter s) (sv_disk s) (sv_app s) (sv_rand s) (sv_trace s).
Definition note (e : wevent) s : state :=
  mkServer (sv_sessions s) (sv_roles s) (sv_limiter s) (sv_disk s) (sv_app s) (sv_rand s) (sv_trace s ++ [e]).
Definition set_limiter (rl : RateLimiter) s : state :=
  mkServer (sv_sessions s) (sv_roles s) rl (sv_disk s) (sv_app s) (sv_rand s) (sv_trace s).
Definition set_rand (r : entropy) s : state :=
  mkServer (sv_sessions s) (sv_roles s) (sv_limiter s) (sv_disk s) (sv_app s) r (sv_trace s).
Definition set_roles (rs : RoleStore) (d : folder) s : state :=
  mkServer (sv_sessions s) rs (sv_limiter s) d (sv_app s) (sv_rand s) (sv_trace s).
Definition get_session (now : Z) (rq : request) s : option Session * state :=
  let '(x, st) := Get now rq (sv_sessions s) in (x, set_store st s).

(** *** Middleware; the string is the admin in the request's context *)
Definition RequireAuth (next : handler) : handler := λ now _ rq s,
  match get_session now rq s with
  | (None, s) => (Redirect "/login", s)
  | (Some sess, s) => next now (ws_Username sess) rq s
  end.
Definition RequireCSRF (next : handler) : handler := λ now ctx rq s,
  if decide (rq_method rq = "GET" ∨ rq_method rq = "HEAD" ∨ rq_method rq = "OPTIONS") then next now ctx rq s
  else match get_session now rq s with
       | (None, s) => (Redirect "/login", s)
       | (Some sess, s) =>
           if ValidateCSRF rq (Some sess) then next now ctx rq s else (HttpError 403, s)
       end.
Definition RequireDomainAccess (domainParam : string) (next : handler) : handler := λ now ctx rq s,
  match get_session now rq s with
  | (None, s) => (Redirect "/login", s)
  | (Some sess, s) =>
      let domain := PathValue domainParam rq in
      if negb (bool_decide (domain = "")) && negb (IsSuperAdmin (sv_roles s) (ws_Username sess))
         && negb (CanAccessDomain (sv_roles s) (ws_Username sess) domain)
      then (HttpError 403, s) else next now ctx rq s
  end.
Definition RequireSuperAdmin (next : handler) : handler := λ now ctx rq s,
  match get_session now rq s with
  | (None, s) => (Redirect "/login", s)
  | (Some sess, s) =>
      if negb (IsSuperAdmin (sv_roles s) (ws_Username sess)) then (HttpError 403, s) else next now ctx rq s
  end.
Definition RateLimit (next : handler) : handler := λ now ctx rq s,
  let '(ok, rl) := Allow now (clientIP rq) (sv_limiter s) in
  let s := set_limiter rl s in
  if ok : bool then next now ctx rq s else (HttpError 429, s).
Definition Chain (h : handler) (mws : list (handler → handler)) : handler := foldr (λ m h, m h) h mws.

(** *** Handlers *)
Definition HandleLoginPage : handler := λ now _ rq s,
  match get_session now rq s with
  | (Some _, s) => (Redirect "/", s)
  | (None, s) => (LoginPage "" "", s)
  end.
Definition HandleLogin : handler := λ now _ rq s,
  if negb (rq_form_ok rq) then (LoginPage "" "Invalid form submission", s)
  else
    let username := rq_form rq "username" in
    let password := rq_form rq "password" in
    if decide (username = "" ∨ password = "") then (LoginPage username "Username and password are required", s)
    else if negb (authenticate username password) then (LoginPage username "Invalid username or password", s)
    else
      match Create now username (sv_sessions s) (sv_rand s) with
      | (None, st, r) => (HttpError 500, set_rand r (set_store st s))
      | (Some (sess, c), st, r) =>
          (Redirect "/", note (WCookie c) (note (WLogin username password (ws_ID sess) (ws_CSRFToken sess)) (set_rand r (set_store st s))))
      end.
Definition HandleLogout : handler := λ now _ rq s,
  let '(_, s) := get_session now rq s in
  let '(c, st) := Destroy rq (sv_sessions s) in
  let s := set_store st s in
  (Redirect "/login",
   match c with Some c => note (WCookie c) (note (WLogout (default "" (rq_cookie rq))) s) | None => s end).
Definition handleHealth : handler := λ _ _ _ s, (AppResponse "ok", s).
(** The page handlers show the CSRF token of the session. *)
Definition run_app (name : string) : handler := λ now ctx rq s,
  let '(r, a) := app name ctx (Get now rq (sv_sessions s)).1 rq (sv_app s) in
  (r, mkServer (sv_sessions s) (sv_roles s) (sv_limiter s) (sv_disk s) a (sv_rand s) (sv_trace s)).
(** [Logger.Log]: the admin of the context names the entry. *)
Definition audit_log (ctx operation target detail : string) s : state :=
  note (WAudit ctx operation target "success" detail) s.
Definition change_roles (ctx operation username detail : string) (mutate : RoleStore → RoleStore) s
    : wresponse * state :=
  match updateRolesFile rolesFilePath rolesTmp mutate (sv_disk s) with
  | (Err _, d) => (Json 500 "failed to save roles", set_roles (sv_roles s) d s)
  | (Ok rs, d) => (Json 200 operation, audit_log ctx operation username detail (set_roles rs d s))
  end.
Definition handleSetRole : handler := λ _ ctx rq s,
  if decide (rolesFilePath = "") then (Json 400 "roles_file not configured", s)
  else
    let username := PathValue "username" rq in
    if decide (username = "") then (Json 400 "username required", s)
    else match role_of_body (rq_body rq) with
         | None => (Json 400 "invalid request body", s)
         | Some (role, domains) =>
             if negb (bool_decide (role = RoleSuperAdmin)) && negb (bool_decide (role = RoleDomainAdmin))
             then (Json 400 "role must be super_admin or domain_admin", s)
             else change_roles ctx "set_role" username role (insert username (mkAdmin role domains)) s
         end.
Definition handleDeleteRole : handler := λ _ ctx rq s,
  if decide (rolesFilePath = "") then (Json 400 "roles_file not configured", s)
  else
    let username := PathValue "username" rq in
    if decide (username = "") then (Json 400 "username required", s)
    else change_roles ctx "delete_role" username "" (delete username) s.
Definition handleGetRoles : handler := λ _ _ _ s, (Json 200 "roles", s).

(** *** Serving a request *)
Definition handler_of (name : string) : handler :=
  if decide (name = "handleHealth") then handleHealth
  else if decide (name = "HandleLoginPage") then HandleLoginPage
  else if decide (name = "HandleLogin") then HandleLogin
  else if decide (name = "HandleLogout") then HandleLogout
  else if decide (name = "handleGetRoles") then handleGetRoles
  else if decide (name = "handleSetRole") then handleSetRole
  else if decide (name = "handleDeleteRole") then handleDeleteRole
  else run_app name.
Definition guard_of (g : guard) : handler → handler :=
  match g with
  | requireAuth => RequireAuth
  | requireCSRF => RequireCSRF
  | requireSuperAdmin => RequireSuperAdmin
  | requireDomainAccessByName => RequireDomainAccess "name"
  | requireDomainAccessByDomain => RequireDomainAccess "domain"
  | loginRateLimit => RateLimit
  end.
(** The handler of a route, which notes that it runs, behind its guards. *)
Definition noted (name : string) : handler := λ now ctx rq s,
  handler_of name now ctx rq (note (WRan name ctx now rq) s).
Definition route_handler (rt : route) : handler := Chain (noted (rt_handler rt)) (map guard_of (rt_guards rt)).
Definition serve (now : Z) (rq : request) s : wresponse * state :=
  match find_route registerRoutes rq with
  | Some (rt, vars) => route_handler rt now "" (with_vars vars rq) s
  | None => ((if path_known registerRoutes rq then HttpError 405 else NotFound_), s)
  end.

(** *** The life of the server *)
Definition New (timeoutMinutes : Z) (tls : bool) (d : folder) (a : S) (r : entropy) : result state rolesErr :=
  let minute := 60 * 10 ^ 9 in
  let timeout := if decide (timeoutMinutes * minute = 0) then 30 * minute else timeoutMinutes * minute in
  match LoadRoles rolesFilePath d with
  | (Err e, _) => Err e
  | (Ok rs, d) => Ok (mkServer (NewStore timeout tls) rs (NewRateLimiter 5 minute) d a r [])
  end.
Inductive wstep : state → state → Prop :=
| w_request now rq s : wstep s (serve now rq s).2
| w_sessions_tick now s : wstep s (set_store (sessions_cleanup now (sv_sessions s)) s)
| w_limiter_tick now s : wstep s (set_limiter (limiter_cleanup now (sv_limiter s)) s)
| w_world disk a s :                       (** other programs, and the domains themselves *)
    wstep s (mkServer (sv_sessions s) (sv_roles s) (sv_limiter s) disk a (sv_rand s) (sv_trace s)).
Definition reachable (timeoutMinutes : Z) (tls : bool) s : Prop :=
  ∃ d a r s0, New timeoutMinutes tls d a r = Ok s0 ∧ rtc wstep s0 s.

(** ** What a request needs *)
(** The cookie of the request is that of a session that is not expired. *)
Definition live (now : Z) (rq : request) s (user csrf : string) : Prop :=
  ∃ id x, rq_cookie rq = Some id ∧ st_sessions (sv_sessions s) !! id = Some x ∧
    IsExpired (st_timeout (sv_sessions s)) now x = false ∧ ws_Username x = user ∧ ws_CSRFToken x = csrf.
(** The last login and the last logout of the session: the agent accepted the
    password, and nobody logged out since. *)
Definition logged_in (tr : list wevent) (id user csrf : string) : Prop :=
  ∃ t1 t2 password, tr = t1 ++ WLogin user password id csrf :: t2 ∧
    authenticate user password = true ∧ WLogout id ∉ t2.
Definition sound s : Prop :=
  ∀ id x, st_sessions (sv_sessions s) !! id = Some x → logged_in (sv_trace s) id (ws_Username x) (ws_CSRFToken x).

Lemma get_session_live now rq s sess s1 :
  get_session now rq s = (Some sess, s1) →
  live now rq s (ws_Username sess) (ws_CSRFToken sess) ∧
  sv_trace s1 = sv_trace s ∧ sv_roles s1 = sv_roles s ∧
  ∀ u c, live now rq s1 u c → live now rq s u c.
Proof.
  unfold get_session, Get, live. intros E. destruct (rq_cookie rq) as [id|] eqn:Hc; [|by simplify_eq].
  destruct (_ !! id) as [x|] eqn:Hx; [|by simplify_eq].
  destruct (IsExpired _ now x) eqn:He; simplify_eq. cbn. split_and!; [|done..|].
  - by exists id, x.
  - intros u c (id' & x' & ? & Hx' & _ & <- & <-). simplify_eq.
    rewrite lookup_insert_eq in Hx'. simplify_eq. by exists id', x.
Qed.
Lemma get_session_trace now rq s : sv_trace (get_session now rq s).2 = sv_trace s.
Proof. unfold get_session. by destruct (Get now rq (sv_sessions s)). Qed.
Lemma live_functional now rq s u c u' c' : live now rq s u c → live now rq s u' c' → u = u' ∧ c = c'.
Proof. unfold live. intros (?&?&?&?&?&?&?) (?&?&?&?&?&?&?). naive_solver. Qed.

(** ** Guards *)
Definition may_administer (rs : RoleStore) (user domain : string) : Prop :=
  IsSuperAdmin rs user = true ∨ CanAccessDomain rs user domain = true.
Definition presented_token (rq : request) : string :=
  if decide (rq_form rq "csrf_token" = "") then rq_csrf_header rq else rq_form rq "csrf_token".
Definition passed (now : Z) (rq : request) s (g : guard) : Prop :=
  match g with
  | requireAuth => ∃ u c, live now rq s u c
  | requireCSRF => rq_method rq = "GET" ∨ rq_method rq = "HEAD" ∨ rq_method rq = "OPTIONS" ∨
      ∃ u, live now rq s u (presented_token rq)
  | requireSuperAdmin => ∃ u c, live now rq s u c ∧ IsSuperAdmin (sv_roles s) u = true
  | requireDomainAccessByName => ∃ u c, live now rq s u c ∧
      (PathValue "name" rq = "" ∨ may_administer (sv_roles s) u (PathValue "name" rq))
  | requireDomainAccessByDomain => ∃ u c, live now rq s u c ∧
      (PathValue "domain" rq = "" ∨ may_administer (sv_roles s) u (PathValue "domain" rq))
  | loginRateLimit => True
  end.
(** What a guard hands on: the same request on a state in which no other session
    is live, and the admin of the session once it is known. *)
Definition handed_on (now : Z) (rq : request) s s1 : Prop :=
  sv_trace s1 = sv_trace s ∧ sv_roles s1 = sv_roles s ∧ ∀ u c, live now rq s1 u c → live now rq s u c.
Lemma handed_on_trans now rq s s1 s2 : handed_on now rq s s1 → handed_on now rq s1 s2 → handed_on now rq s s2.
Proof. intros (? & ? & ?) (? & ? & ?). split_and!; [congruence..|auto]. Qed.
Lemma passed_back now rq s s1 g : handed_on now rq s s1 → passed now rq s1 g → passed now rq s g.
Proof. intros (_ & Hr & Hl). destruct g; cbn; rewrite ?Hr; naive_solver. Qed.

Lemma domain_guard_step p next now ctx rq s :
  sv_trace (RequireDomainAccess p next now ctx rq s).2 = sv_trace s ∨
  ∃ s1, RequireDomainAccess p next now ctx rq s = next now ctx rq s1 ∧ handed_on now rq s s1 ∧
    ∃ u c, live now rq s u c ∧ (PathValue p rq = "" ∨ may_administer (sv_roles s) u (PathValue p rq)).
Proof.
  unfold RequireDomainAccess, may_administer. pose proof (get_session_trace now rq s) as Ht.
  destruct (get_session now rq s) as [[x|] s1] eqn:E; [|by left].
  apply get_session_live in E as (Hl & ? & Hr & Hb). rewrite Hr.
  destruct (bool_decide_reflect (PathValue p rq = "")) as [Hp|Hp];
    destruct (IsSuperAdmin _ _) eqn:Hs; destruct (CanAccessDomain _ _ _) eqn:Hc; cbn; try (by left);
    right; exists s1; (split; [done|split; [done|eexists _, _; split; [exact Hl|tauto]]]).
Qed.
Lemma guard_step g next now ctx rq s :
  sv_trace (guard_of g next now ctx rq s).2 = sv_trace s ∨
  ∃ ctx1 s1, guard_of g next now ctx rq s = next now ctx1 rq s1 ∧ handed_on now rq s s1 ∧ passed now rq s g ∧
    (g = requireAuth ∧ (∃ c, live now rq s ctx1 c) ∨ g ≠ requireAuth ∧ ctx1 = ctx).
Proof.
  destruct g; cbn.
  - unfold RequireAuth. pose proof (get_session_trace now rq s) as Ht.
    destruct (get_session now rq s) as [[x|] s1] eqn:E; [|by left].
    apply get_session_live in E as (Hl & ? & ? & ?). right. eexists _, s1.
    split_and!; [done|done|by eauto|left; eauto].
  - unfold RequireCSRF. case_decide as Hm.
    { right. exists ctx, s. split_and!; [done|done|tauto|by right]. }
    pose proof (get_session_trace now rq s) as Ht.
    destruct (get_session now rq s) as [[x|] s1] eqn:E; [|by left].
    apply get_session_live in E as (Hl & ? & ? & ?). cbn.
    destruct (negb _ && _) eqn:Hv; [|by left]. apply andb_true_iff in Hv as [_ Hv%bool_decide_eq_true].
    right. exists ctx, s1. split_and!; [done|done| |by right]. do 3 right. eexists.
    unfold presented_token. by rewrite Hv.
  - unfold RequireSuperAdmin. pose proof (get_session_trace now rq s) as Ht.
    destruct (get_session now rq s) as [[x|] s1] eqn:E; [|by left].
    apply get_session_live in E as (Hl & ? & Hr & ?). rewrite Hr.
    destruct (IsSuperAdmin _ _) eqn:Hs; cbn; [|by left].
    right. exists ctx, s1. split_and!; [done|done|by eauto|by right].
  - destruct (domain_guard_step "name" next now ctx rq s) as [?|(s1 & ? & ? & ?)]; [by left|right]. exists ctx, s1. split_and!; [done..|by right].
  - destruct (domain_guard_step "domain" next now ctx rq s) as [?|(s1 & ? & ? & ?)]; [by left|right]. exists ctx, s1. split_and!; [done..|by right].
  - unfold RateLimit. destruct (Allow _ _ _) as [[] rl]; cbn; [|by left].
    right. eexists ctx, _. split_and!; [done|done|done|by right].
Qed.

Lemma chain_step gs next now ctx rq s :
  sv_trace (Chain next (map guard_of gs) now ctx rq s).2 = sv_trace s ∨
  ∃ ctx1 s1, Chain next (map guard_of gs) now ctx rq s = next now ctx1 rq s1 ∧ handed_on now rq s s1 ∧
    Forall (passed now rq s) gs ∧ (ctx1 = ctx ∨ ∃ c, live now rq s ctx1 c) ∧
    (requireAuth ∈ gs → ∃ c, live now rq s ctx1 c).
Proof.
  revert ctx s. induction gs as [|g gs IH]; intros ctx s; cbn.
  { right. exists ctx, s. split_and!; [done|done|by constructor|by left|]. by intros ?%elem_of_nil. }
  destruct (guard_step g (Chain next (map guard_of gs)) now ctx rq s) as [?|(ctx1 & s1 & Hg & Hh & Hp & Hc)]; [by left|].
  unfold Chain in Hg. rewrite Hg. destruct (IH ctx1 s1) as [Ht|(ctx2 & s2 & Hn & Hh' & Hf & Hl & Ha)].
  { left. destruct Hh as [Ht1 _]. unfold Chain in Ht. congruence. }
  pose proof Hh as (_ & _ & Hb). right. exists ctx2, s2. split_and!; [exact Hn|by eapply handed_on_trans|..].
  - constructor; [done|]. eapply Forall_impl; [exact Hf|]. intros g'. by apply passed_back.
  - destruct Hl as [->|[c ?]]; [|by eauto]. destruct Hc as [[_ ?]|[_ ->]]; auto.
  - intros [Hg0|Hin]%elem_of_cons; [|destruct (Ha Hin) as [c ?]; eauto].
    destruct Hl as [->|[c ?]]; [|by eauto]. by destruct Hc as [[_ ?]|[? _]].
Qed.

(** ** Handlers *)
(** No handler notes that a handler ran; a login is noted when the agent
    accepted it. *)
Definition is_ran (e : wevent) : bool := match e with WRan _ _ _ _ => true | _ => false end.
Definition only_adds s s' : Prop := ∃ l, sv_trace s' = sv_trace s ++ l ∧ Forall (λ e, is_ran e = false) l.
Lemma adds_nothing s s' : sv_trace s' = sv_trace s → only_adds s s'.
Proof. intros E. exists []. rewrite app_nil_r. by split. Qed.
Lemma adds_note e s s' : is_ran e = false → only_adds s s' → only_adds s (note e s').
Proof.
  intros ? (l & Hl & Hf). exists (l ++ [e]). cbn. rewrite Hl, app_assoc. split; [done|].
  apply Forall_app. split; [done|by repeat constructor].
Qed.
Lemma change_roles_adds ctx op u dt f s : only_adds s (change_roles ctx op u dt f s).2.
Proof.
  unfold change_roles, audit_log. destruct (updateRolesFile _ _ _ _) as [[] ?]; cbn; [apply adds_note; [done|]|];
    by apply adds_nothing.
Qed.
Lemma handler_adds name now ctx rq s : only_adds s (handler_of name now ctx rq s).2.
Proof.
  unfold handler_of. repeat case_decide; unfold handleHealth, HandleLoginPage, HandleLogin, HandleLogout, handleGetRoles,
    handleSetRole, handleDeleteRole, run_app, get_session;
  repeat match goal with
  | |- context [Get ?n ?q ?st] => destruct (Get n q st); cbn
  | |- context [match ?x with _ => _ end] => destruct x eqn:?; cbn
  | |- context [if decide ?P then _ else _] => destruct (decide P); cbn
  end; repeat (apply adds_note; [done|]); first [by apply change_roles_adds | by apply adds_nothing].
Qed.

(** ** Sessions come from logins *)
Lemma login_kept tr l id u c : logged_in tr id u c → WLogout id ∉ l → logged_in (tr ++ l) id u c.
Proof.
  intros (t1 & t2 & pw & -> & ? & ?) ?. exists t1, (t2 ++ l), pw. rewrite <- app_assoc. split_and!; [done..|].
  rewrite elem_of_app. tauto.
Qed.
Definition no_new_session s s' : Prop :=
  sv_trace s' = sv_trace s ∧
  ∀ id x', st_sessions (sv_sessions s') !! id = Some x' →
    ∃ x, st_sessions (sv_sessions s) !! id = Some x ∧ ws_Username x = ws_Username x' ∧ ws_CSRFToken x = ws_CSRFToken x'.
Lemma sound_down s s' : no_new_session s s' → sound s → sound s'.
Proof. intros [Ht Hl] Hs id x' Hx. destruct (Hl id x' Hx) as (x & ? & <- & <-). rewrite Ht. by apply Hs. Qed.
Lemma same_sessions s s' : sv_trace s' = sv_trace s → sv_sessions s' = sv_sessions s → no_new_session s s'.
Proof. intros ? E. split; [done|]. rewrite E. eauto. Qed.
Lemma get_session_sound now rq s : sound s → sound (get_session now rq s).2.
Proof.
  apply sound_down. unfold get_session, Get.
  destruct (rq_cookie rq) as [id|]; [|by apply same_sessions].
  destruct (_ !! id) as [x|] eqn:Hx; [|by apply same_sessions].
  destruct (IsExpired _ _ _); cbn; (split; [done|]; intros id' x'; cbn).
  - rewrite lookup_delete_Some. intros [_ ?]. eauto.
  - rewrite lookup_insert_Some. intros [[<- <-]|[_ ?]]; eauto.
Qed.
Lemma note_sound e s : (∀ id, e ≠ WLogout id) → sound s → sound (note e s).
Proof.
  intros He Hs id x Hx. cbn. apply login_kept; [by apply Hs|].
  intros E%list_elem_of_singleton. by apply (He id).
Qed.

Lemma guard_sound g next :
  (∀ now ctx rq s, sound s → sound (next now ctx rq s).2) →
  ∀ now ctx rq s, sound s → sound (guard_of g next now ctx rq s).2.
Proof.
  intros Hn now ctx rq s Hs. pose proof (get_session_sound now rq s Hs) as Hg.
  destruct g; cbn; unfold RequireAuth, RequireCSRF, RequireSuperAdmin, RequireDomainAccess, RateLimit;
    try case_decide; try destruct (get_session now rq s) as [[x|] s1]; try done; auto;
    try destruct (Allow _ _ _) as [[] rl]; repeat case_match; auto.
Qed.

Lemma login_sound now ctx rq s : sound s → sound (HandleLogin now ctx rq s).2.
Proof.
  intros Hs. unfold HandleLogin. destruct (rq_form_ok rq); [cbn|done].
  case_decide; [done|]. destruct (authenticate _ _) eqn:Ha; [cbn|done].
  unfold Create. destruct (generateToken (sv_rand s)) as [[id|] r1]; [|done].
  destruct (generateToken r1) as [[csrf|] r2]; [|done]. cbn.
  apply note_sound; [done|]. intros id' x. cbn. rewrite lookup_insert_Some. intros [[<- <-]|[_ Hx]].
  - by eexists _, [], _; split_and!; [done|done|set_solver].
  - apply login_kept; [by apply Hs|]. by intros ?%list_elem_of_singleton.
Qed.
Lemma logout_sound now ctx rq s : sound s → sound (HandleLogout now ctx rq s).2.
Proof.
  intros Hs. unfold HandleLogout. pose proof (get_session_sound now rq s Hs) as Hg.
  destruct (get_session now rq s) as [y s1]. cbn in Hg. unfold Destroy.
  destruct (rq_cookie rq) as [id|]; cbn; [|eapply sound_down, Hg; by apply same_sessions].
  apply note_sound; [done|]. intros id' x. cbn. rewrite lookup_delete_Some. intros [Hne Hx].
  apply login_kept; [by apply Hg|]. intros ?%list_elem_of_singleton. congruence.
Qed.
Lemma change_roles_sound ctx op u dt f s : sound s → sound (change_roles ctx op u dt f s).2.
Proof.
  intros Hs. unfold change_roles, audit_log. destruct (updateRolesFile _ _ _ _) as [[] ?]; cbn;
    [apply note_sound; [done|]|]; (eapply sound_down, Hs; by apply same_sessions).
Qed.
Lemma handler_sound name now ctx rq s : sound s → sound (handler_of name now ctx rq s).2.
Proof.
  intros Hs. unfold handler_of. repeat case_decide; auto using login_sound, logout_sound.
  - unfold HandleLoginPage. pose proof (get_session_sound now rq s Hs). by destruct (get_session now rq s) as [[] ?].
  - unfold handleSetRole. repeat case_match; auto using change_roles_sound.
  - unfold handleDeleteRole. repeat case_match; auto using change_roles_sound.
  - unfold run_app. destruct (app _ _ _ _ _). eapply sound_down, Hs. by apply same_sessions.
Qed.
Lemma chain_sound name gs now ctx rq s :
  sound s → sound (Chain (noted name) (map guard_of gs) now ctx rq s).2.
Proof.
  revert now ctx rq s. induction gs as [|g gs IH]; intros now ctx rq s Hs; cbn.
  - apply handler_sound, note_sound; done.
  - by apply guard_sound.
Qed.
Lemma serve_sound now rq s : sound s → sound (serve now rq s).2.
Proof.
  intros Hs. unfold serve. destruct (find_route _ _) as [[rt vars]|]; [|done]. by apply chain_sound.
Qed.
Lemma reachable_sound timeoutMinutes tls s : reachable timeoutMinutes tls s → sound s.
Proof.
  intros (d & a & r & s0 & Hn & Hr). assert (Hs : sound s0).
  { unfold New in Hn. destruct (LoadRoles _ d) as [[] ?]; simplify_eq. intros id x. cbn. by rewrite lookup_empty. }
  clear Hn. induction Hr as [|s0 s1 s2 Hstep _ IH]; [done|]. apply IH. destruct Hstep.
  - by apply serve_sound.
  - eapply sound_down, Hs. split; [done|]. intros id x Hx. cbn in Hx.
    apply map_lookup_filter_Some in Hx as [? _]. eauto.
  - eapply sound_down, Hs. by apply same_sessions.
  - eapply sound_down, Hs. by apply same_sessions.
Qed.

(** ** Complete mediation *)
Lemma route_ran rt vars now rq s name admin at_ rq' :
  WRan name admin at_ rq' ∈ drop (length (sv_trace s)) (sv_trace (route_handler rt now "" (with_vars vars rq) s).2) →
  name = rt_handler rt ∧ at_ = now ∧ Forall (passed now (with_vars vars rq) s) (rt_guards rt) ∧
  (requireAuth ∈ rt_guards rt → ∃ c, live now rq s admin c).
Proof.
  unfold route_handler. destruct (chain_step (rt_guards rt) (noted (rt_handler rt)) now "" (with_vars vars rq) s)
    as [->|(ctx & s1 & -> & (Ht & _) & Hf & _ & Ha)].
  { rewrite drop_all. by intros ?%elem_of_nil. }
  unfold noted. destruct (handler_adds (rt_handler rt) now ctx (with_vars vars rq)
    (note (WRan (rt_handler rt) ctx now (with_vars vars rq)) s1)) as (l & -> & Hl).
  cbn. rewrite Ht, <- app_assoc, drop_app_length. cbn.
  intros [E|Hin]%elem_of_cons; [by simplify_eq|].
  by apply (proj1 (Forall_forall _ _) Hl) in Hin.
Qed.
Lemma domain_guard_sound rt pat vars path d now rq s admin c :
  domain_guarded (addressed_segment pat) (rt_guards rt) = true → plain_head pat = true →
  match_path pat path = Some vars → addressed_domain path = Some d →
  Forall (passed now (with_vars vars rq) s) (rt_guards rt) → live now rq s admin c →
  may_administer (sv_roles s) admin d.
Proof.
  intros Hg Hp Hm Ha Hf Hl. pose proof (proj1 (Forall_forall _ _) Hf) as Hpass.
  assert (Hsuper : requireSuperAdmin ∈ rt_guards rt → may_administer (sv_roles s) admin d).
  { intros (u & c' & Hl' & ?)%Hpass. destruct (live_functional now rq s admin c u c' Hl Hl') as [-> _]. by left. }
  destruct (addressed_match pat path vars d Hp Hm Ha) as [E|(n & vars' & E & -> & Hne)]; rewrite E in Hg; cbn in Hg.
  { by apply bool_decide_eq_true in Hg; auto. }
  rewrite !orb_true_iff, !bool_decide_eq_true in Hg.
  destruct Hg as [[?|[-> Hin]]|[-> Hin]]; [auto|..];
    (apply Hpass in Hin as (u & c' & Hl' & Hv);
     destruct (live_functional now rq s admin c u c' Hl Hl') as [-> _];
     unfold PathValue in Hv; cbn in Hv; by destruct Hv).
Qed.

Lemma csrf_guard_sound rt m vars now rq s admin c :
  bool_decide (m = "GET") || bool_decide (m ∈ ["POST"; "PUT"; "DELETE"]) && bool_decide (requireCSRF ∈ rt_guards rt) = true →
  method_matches m (rq_method rq) = true →
  Forall (passed now (with_vars vars rq) s) (rt_guards rt) → live now rq s admin c →
  rq_method rq = "GET" ∨ rq_method rq = "HEAD" ∨ presented_token rq = c.
Proof.
  unfold method_matches. rewrite !orb_true_iff, !andb_true_iff, !bool_decide_eq_true.
  intros Hm Hq Hf Hl. destruct Hm as [->|[Hm Hin]]; [naive_solver|].
  destruct Hq as [->|[-> ?]]; [|set_solver].
  pose proof (proj1 (Forall_forall _ _) Hf _ Hin) as Hp. cbn in Hp.
  destruct Hp as [?|[?|[E|[u Hl']]]]; [by left|by right; left| |].
  - rewrite E in Hm. set_solver.
  - destruct (live_functional now rq s _ _ _ _ Hl Hl') as [_ ->]. by do 2 right.
Qed.

(** C3 Complete mediation of the web administration. Whenever, in a server that
    ran any requests before, a handler runs for a request, it is the health check
    or the login, or: the request carries the cookie of a session that is not
    expired, opened by a login that the agent accepted and not logged out since,
    and the handler is told the user of that login; a request that is not GET or
    HEAD carries the session's CSRF token; the domain that its path names is one
    that the roles now in force let the user administer; and a handler kept for
    super admins runs only for one. *)
Theorem webadmin_guarded timeoutMinutes tls s now rq name admin at_ rq' :
  reachable timeoutMinutes tls s →
  WRan name admin at_ rq' ∈ drop (length (sv_trace s)) (sv_trace (serve now rq s).2) →
  name ∈ public_handlers ∨
  ∃ id csrf, rq_cookie rq = Some id ∧ live now rq s admin csrf ∧ logged_in (sv_trace s) id admin csrf ∧
    (rq_method rq = "GET" ∨ rq_method rq = "HEAD" ∨ presented_token rq = csrf) ∧
    (∀ d, addressed_domain (rq_path rq) = Some d → may_administer (sv_roles s) admin d) ∧
    (name ∈ super_admin_only → IsSuperAdmin (sv_roles s) admin = true).
Proof.
  intros Hr%reachable_sound. unfold serve. destruct (find_route _ rq) as [[rt vars]|] eqn:Hfind.
  2:{ rewrite drop_all. by intros ?%elem_of_nil. }
  apply find_route_Some in Hfind as [Hin Hm].
  intros (-> & _ & Hf & Ha)%route_ran. pose proof (proj1 (Forall_forall _ _) Hf) as Hpass.
  pose proof (proj1 (forallb_forall _ _) table_ok rt (proj1 (list_elem_of_In _ _) Hin)) as Hok.
  unfold route_ok, route_matches in *. destruct (parse_pattern (rt_pattern rt)) as [m pat].
  destruct (method_matches m (rq_method rq)) eqn:Hmeth; [|done].
  rewrite orb_true_iff, !andb_true_iff, bool_decide_eq_true in Hok.
  destruct Hok as [?|[[[[Hplain Hauth] Hcsrf] Hdom] Hsup]]; [by left|right].
  apply bool_decide_eq_true in Hauth. destruct (Ha Hauth) as [csrf Hl].
  pose proof Hl as (id & x & Hc & Hx & _ & <- & <-). exists id, (ws_CSRFToken x).
  split_and!; [done|done|by apply Hr|..].
  - by eapply csrf_guard_sound.
  - intros d Hd. by eapply domain_guard_sound.
  - intros Hs. apply orb_true_iff in Hsup as [Hn%bool_decide_eq_true|Hn%bool_decide_eq_true]; [done|].
    apply Hpass in Hn as (u & c & Hl' & ?). by destruct (live_functional now rq s _ _ u c Hl Hl') as [-> _].
Qed.
End Server.

(** ** An example: a super admin and the admin of one domain *)
Definition alice_roles : RoleStore :=
  {["root" := mkAdmin RoleSuperAdmin []; "alice" := mkAdmin RoleDomainAdmin ["example.com"]]}.
Global Instance AdminEntry_eq_dec : EqDecision AdminEntry.
Proof. solve_decision. Defined.
(** Two role files, as the library would write and read them. *)
Local Instance example_toml : RolesToml := {|
  roles_marshal rs :=
    if decide (rs = alice_roles) then Some "both" else if decide (rs = delete "alice" alice_roles) then Some "root" else None;
  roles_unmarshal text :=
    if decide (text = "both") then Some alice_roles
    else if decide (text = "root") then Some (delete "alice" alice_roles) else None |}.
Definition ex_authenticate (u p : string) : bool := bool_decide ((u, p) ∈ [("root", "r"); ("alice", "a")]).
Definition ex_app (name ctx : string) (x : option Session) (rq : request) (n : nat) : wresponse * nat :=
  (AppResponse (name ++ " for " ++ ctx)%string, Datatypes.S n).
Definition ex_serve := serve ex_authenticate ex_app (λ _, None) "roles.toml" "roles.tmp".
Definition ex_form (u p : string) (k : string) : string :=
  if decide (k = "username") then u else if decide (k = "password") then p else "".
Definition ex_request (method : string) (path : list string) (cookie : option string) (form : string → string) (csrf : string) : request :=
  mkRequest method path [] cookie form csrf "192.0.2.7:4242" "" true.
Definition ex_login (u p : string) : request := ex_request "POST" ["login"] None (ex_form u p) "".
Definition ex_disk : folder := mkFolder {["roles.toml" := "both"]} [].
Definition ex_rand : entropy := [Some "A"; Some "B"; Some "C"; Some "D"].
Definition ex_start : result (server nat) rolesErr := New "roles.toml" 30 true ex_disk 0%nat ex_rand.
Definition ex_s0 : server nat := match ex_start with Ok s => s | Err _ => mkServer (NewStore 0 true) ∅ (NewRateLimiter 0 0) (mkFolder ∅ []) 0%nat [] [] end.
(** Alice logs in, then root. *)
Definition ex_s1 : server nat := (ex_serve 1 (ex_login "alice" "a") ex_s0).2.
Definition ex_s2 : server nat := (ex_serve 2 (ex_login "root" "r") ex_s1).2.
(** Alice changes the configuration of her domain. *)
Definition ex_config : request :=
  ex_request "PUT" ["api"; "domains"; "example.com"; "config"] (Some "41") (λ _, "") "42".
Lemma ex_reachable : reachable ex_authenticate ex_app (λ _, None) "roles.toml" "roles.tmp" 30 true ex_s2.
Proof.
  exists ex_disk, 0%nat, ex_rand, ex_s0. split; [vm_compute; reflexivity|].
  eapply rtc_l; [apply (w_request _ _ _ _ _ 1 (ex_login "alice" "a"))|].
  eapply rtc_l; [apply (w_request _ _ _ _ _ 2 (ex_login "root" "r"))|]. apply rtc_refl.
Qed.
Lemma webadmin_guarded_witness :
  WRan "HandleUpdateDomainConfig" "alice" 3 (with_vars [("name", "example.com")] ex_config)
    ∈ drop (length (sv_trace ex_s2)) (sv_trace (ex_serve 3 ex_config ex_s2).2) ∧
  ("HandleUpdateDomainConfig" ∈ public_handlers ∨
   ∃ id csrf, rq_cookie ex_config = Some id ∧ live 3 ex_config ex_s2 "alice" csrf ∧
     logged_in ex_authenticate (sv_trace ex_s2) id "alice" csrf ∧
     (rq_method ex_config = "GET" ∨ rq_method ex_config = "HEAD" ∨ presented_token ex_config = csrf) ∧
     (∀ d, addressed_domain (rq_path ex_config) = Some d → may_administer (sv_roles ex_s2) "alice" d) ∧
     ("HandleUpdateDomainConfig" ∈ super_admin_only → IsSuperAdmin (sv_roles ex_s2) "alice" = true)).
Proof.
  assert (Hin : WRan "HandleUpdateDomainConfig" "alice" 3 (with_vars [("name", "example.com")] ex_config)
    ∈ drop (length (sv_trace ex_s2)) (sv_trace (ex_serve 3 ex_config ex_s2).2)) by (vm_compute; by left).
  split; [exact Hin|]. apply (webadmin_guarded ex_authenticate ex_app (λ _, None) "roles.toml" "roles.tmp" 30 true
    ex_s2 3 ex_config "HandleUpdateDomainConfig" "alice" 3 _ ex_reachable Hin).
Defined.

(** Taking the role of a domain admin away makes that admin a super admin: root
    deletes the role of alice, who could not create a domain and now can. *)
Definition ex_create : request := ex_request "POST" ["api"; "domains"] (Some "41") (λ _, "") "42".
Definition ex_delete_role : request := ex_request "DELETE" ["api"; "roles"; "alice"] (Some "43") (λ _, "") "44".
Definition ex_s3 : server nat := (ex_serve 4 ex_delete_role ex_s2).2.
Lemma deleting_a_role_promotes :
  (ex_serve 3 ex_create ex_s2).1 = HttpError 403 ∧
  (ex_serve 4 ex_delete_role ex_s2).1 = Json 200 "delete_role" ∧
  (ex_serve 5 ex_create ex_s3).1 = AppResponse "HandleCreateDomain for alice".
Proof. vm_compute. done. Qed.
